(* ===== verification/_CoqProject ===== *)
-Q . S2P
Prelude.v
GoStrings.v
Netip.v
NetipText.v
PoolScan.v
EffectiveIP.v
Activity.v
RoutingTable.v
PacketMap.v
WireGuardKey.v
PacketFilterCfg.v
WireGuardCfg.v
DNSName.v
State.v
HostPools.v
FilePath.v
ProfileSpec.v
Types.v
LeasePlan.v
Candidates.v
RoutingPolicy.v
TUNTable.v
TUNTableFacts.v
DNSPolicy.v
TUNDNS.v
DNSService.v
TUNPlan.v
HostTUN.v
SocksRouter.v
PacketPool.v
ChanTUN.v
Mux.v
IPSet.v
WireGuardFilter.v
WireGuardUAPI.v
PolicyPatch.v
ExitNodes.v
Effects.v
HostTUNLinux.v
HostTUNFacts.v
WireGuardEngine.v
WireGuardEngineFacts.v
ExitNodeView.v
DNSForwarder.v
DNSForwarderLife.v
SocksDial.v
Update.v
UpdateFacts.v
UpdateRuns.v
Paths.v
ProfileView.v
Runtime.v
RigWorld.v
UpdateDaemon.v
UpdateLife.v
WireGuardSecrets.v
Supervisor.v
Rig.v
SupervisorFacts.v
ControlAPI.v
WireGuardAPI.v
StateEdits.v
ControlSteps.v
WireGuardFacts.v
ControlFacts.v
Boot.v
