(* ===== verification/Prelude.v ===== *)
(** * A verification library for tailmix

    tailmix connects one machine to several private networks at once: Tailscale
    tailnets (through a [tsnet] engine) and raw WireGuard profiles.  Two
    networks may use the same addresses and the same names, so the daemon gives
    every remote node a local "effective" address, rewrites packets between the
    two address spaces, and decides by explicit policy which profile receives
    each subnet route and each DNS domain.  The library models that core and the
    daemon around it: allocation, routing and DNS policies, the plan of a
    reconciliation, the supervisor with its control API, the packet path with
    its buffers and goroutines, WireGuard profiles and their engine, DNS
    forwarding, the persisted state, and the updates of the program itself.

    ** Files and code

    Every file is one component; a definition has the name of the function or
    type it models.

    Foundations.
    - [Prelude] (this file): notation, the hint database [tailmix], results of
      fallible code, loops that return on the first error, machine-width
      integers, Go's sorting and its determinism.
    - [GoStrings], [FilePath], [Netip], [NetipText]: the parts of Go's
      [strings], [strconv], [path/filepath] and [net/netip] that the code uses,
      with the printing and parsing of addresses.
    - [RoutingTable], [DNSName], [IPSet]: interfaces to three libraries outside
      the repository (longest-prefix tables, DNS names, address sets) as
      classes with documented laws, each with an executable instance.
    - [Types] (profile/profile.go, controlapi/types.go): the records the
      policies read and return.  [State] (state/*.go): the persisted state, its
      normal form, and its file.

    Addresses and packets.
    - [PoolScan], [EffectiveIP] (effectiveip/effectiveip.go): the allocator.
      [Activity] (effectiveip/activity.go): which dormant leases may be
      reclaimed, a state machine over explicit times.  [HostPools]
      (cmd/tailmixd/main.go): the synthetic pools and the daemon's own
      addresses.  [LeasePlan] (cmd/tailmixd/leases.go, main.go): the leases of
      the daemon.
    - [PacketMap] (packetmap/packetmap.go): the mapper that picks the profile of
      a host packet and translates addresses in both directions.
    - [PacketPool] (tunmux/packet.go): pooled buffers on an explicit heap with
      generations.  [ChanTUN] (tunmux/chantun.go): the in-memory TUN, as a
      function for its batched read and as a step relation for its concurrent
      life cycle.  [Mux] (tunmux/mux.go): the workers and one iteration of each
      loop of the mux, on that heap.

    Policies and plans.
    - [Candidates], [RoutingPolicy], [DNSPolicy] (routingpolicy/policy.go):
      [BuildIP], [BuildDNS] and the DNS lookup.  [PolicyPatch], [ExitNodes]
      (cmd/tailmixd/policyapi.go): the edits a request makes to the policies,
      and the exit node.  [ExitNodeView] (exitnodeview/view.go): the exit nodes as
      rows of a display.
    - [ProfileSpec] (cmd/tailmixd/main.go): the profiles of the command line.
      [Paths] (cmd/tailmixd/supervisor.go): where a profile may live.
    - [TUNTable], [TUNTableFacts], [TUNDNS], [TUNPlan] (cmd/tailmixd/main.go):
      the packet table, host configuration and resolver plan of a
      reconciliation, and their composition.  [DNSService] (dns/service.go,
      dns/resolver.go): what the resolver is given.  [SocksRouter]
      (socksproxy/router.go): resolution and dialing in userspace mode.
    - [HostTUN] (hosttun/hosttun.go): the normal form of a host configuration.
      [HostTUNLinux], [HostTUNFacts] (hosttun/hosttun_linux.go): how a Linux
      host is read, configured and closed, with the kernel as a class, and what
      that guarantees.

    WireGuard.
    - [WireGuardKey], [PacketFilterCfg], [WireGuardCfg]
      (wireguardcfg/config.go, filter.go): keys and their text, selectors,
      permissions and grants, manifests and validated configurations.
      [WireGuardFilter] (wireguardfilter/filter.go): the ownership of addresses
      by peers, the matches a filter compiles to, the states it reports, and
      the filtered TUN.
    - [WireGuardSecrets] (cmd/tailmixd/wireguardsecrets.go): the key files.
      [WireGuardAPI], [WireGuardFacts] (cmd/tailmixd/wireguardapi.go): the
      handlers, and what an application guarantees.
    - [WireGuardUAPI], [WireGuardEngine], [WireGuardEngineFacts]
      (profile/wireguardengine.go): the messages to a device with a reference
      device that reads them, the running engine with its staged updates,
      shields and exit, and what holds of it in every order of its callers.

    DNS and updates.
    - [DNSForwarder] (dns/forwarder.go): what a forwarder answers.
      [DNSForwarderLife]: its goroutines, slots and shutdown as a transition
      system, and the choice of its port.  [SocksDial] (profile/socksdial.go):
      the lookup of a name through the resolver of a profile.
    - [Update], [UpdateFacts], [UpdateRuns] (update/update.go): releases,
      checksums and the install root, with runs that fail or die at any system
      call, and runs that do not.  [UpdateDaemon], [UpdateLife]
      (cmd/tailmixd/update.go): the update policy and loop of the daemon, its
      restart, and the composition with the install root.

    The daemon.
    - [Effects]: the monad of methods that change their receiver, and its
      reasoning rules.  [Runtime]: what the daemon drives, as a class.
      [RigWorld], [Rig]: a concrete world and supervisor for examples.
    - [ProfileView] (cmd/tailmixd/supervisor.go, profilesocket): profiles as the
      API shows them.  [Supervisor], [SupervisorFacts]
      (cmd/tailmixd/supervisor.go): the state, the start and stop of profiles,
      and the reconciliation.  [ControlAPI], [StateEdits], [ControlSteps],
      [ControlFacts] (cmd/tailmixd/supervisor.go, policyapi.go): the handlers,
      the edits they make, the rules their proofs share, and the theorems about
      every request.  [Boot] (cmd/tailmixd/main.go): the start of the daemon and
      its whole life.

    The components meet as in the code: [Boot] loads [State] and builds the
    supervisor; a request of [ControlAPI] edits the state, saves it and
    reconciles; a reconciliation observes the statuses of [Types], builds the
    policies, assigns leases and makes the plan of [TUNPlan], whose table is that
    of [PacketMap], and puts packet policy, host routes and resolver in force in
    that order.  [Mux] moves packets of [PacketPool] between the host and the
    [ChanTUN] of every profile, through the mapper; a WireGuard profile puts
    [WireGuardFilter] around its TUN, and its engine compiles the policy it
    applies.  The update loop saves its activity in the same [State], and reaches
    [Update] through the class [Updater].

    ** What is proved

    - The daemon: from a successful start on, every supervisor it goes through
      has its state in normal form and publishes in order, and the file holds
      its desired state but between one of two requests that part them ([leaks])
      and the next reconciling request that succeeds ([daemon_sound]); a request
      that is refused changes nothing, the rename of one of those two apart, and
      one that succeeds leaves its plan in force whole ([request_sound]); what a
      reconciliation keeps when it fails half way ([reconcile_sound]); turning
      the daemon up and down ([power_sound]); applying a WireGuard configuration
      is all or nothing up to the save and goes forward after it
      ([apply_sound]); a disable that can get stuck ([disable_stuck]).
    - Plans: the packet table translates both ways ([table_NAT]), closes
      addresses of absent targets ([retained_closed]) and routes only what was
      asked for ([table_usable]); DNS records and routes ([records_sound],
      [routes_sound], [configForService_sound]) reach the machine they name
      ([name_reaches]); planning again changes nothing ([plan_settled]).
    - The host: it accepts the configuration of every plan ([plan_accepted]);
      configuring runs the plan up to the first failure and succeeds exactly if
      the kernel then holds it ([Configure_sound]), in an order that never sends
      traffic to a table that is not there ([Configure_ordered]); closing removes
      all it can ([Close_sound]).
    - Allocation: an assignment is injective, within the pool and family of
      each node, avoids reserved addresses and keeps persisted leases
      ([Assign_sound], [assignEffectiveIPs_sound]); an active lease survives its
      grace period whatever happens in between ([grace_period],
      [refreshLeases_keeps]).
    - Packet mapping: where a packet may go ([Outbound_routed]), and that a
      profile cannot forge traffic of another ([Inbound_pinned]).
    - WireGuard: what validation guarantees ([Validate_sound]), that the
      compiled filter covers exactly what the grants say ([compile_covers]),
      round trips of keys, permissions and secret files; an incremental message
      does what the full one does while the address families stay or no exit is
      selected ([diff_equiv]), and not otherwise ([diff_misses_family]); an engine lets nothing in
      before its policy is in force or after a failed update ([fail_closed]),
      and publishes the policy it believes in ([engine_published]).
    - Requests: an edit of the policies refines its specification
      ([applyIPPatchLocked_refines]), exit nodes ([Items_sound] for their display),
      search domains, directories.
    - DNS: an answer belongs to its query, and is the profile's where the profile
      answers queries ([answer_sound]); a forwarder keeps its bounds and comes to its end ([forwarder_bounded], [forwarder_terminates]);
      a lookup ends and returns only addresses the name or its aliases own
      ([socksLookup_sound]).
    - Updates: wherever an update is cut off the installation is sound, and what
      came to it was made from an archive with its checksum ([update_safe]), one that is not cut off arrives ([update_completes]), the
      daemon restarts at most once and into what it recorded ([updates_once]),
      over its whole life ([daemon_keeps_installation]) and by its policy
      ([loop_follows_policy]).
    - State: the normal form, and that a save is atomic under failing writes
      and renames.
    - Packet path: dead handles stay dead, each packet is in exactly one place
      in every interleaving, [Close] terminates and loses nothing, and each
      loop iteration refines its effect on the batch.

    ** Conventions

    Fallible functions return [result E T] with one constructor of [E] per error
    site; texts of errors are not modelled.  Methods of the supervisor are
    functions in the monad of [Effects]: an error returns the supervisor as it is
    at that point.  A mutex makes a method one transition; code that releases it
    is split there.  A Go map is a [gmap]; where the code ranges over one the
    iteration order is an argument, an operation of the world, or the result is
    sorted and shown not to depend on it.  A shared object that is mutated (packet
    buffers, the array a batch is compacted in) lives in an explicit heap or
    array.  A pointer into the profiles of the state is an index where the code
    writes through it, and a value where it only reads, since plans copy the
    profiles.  Integers that can wrap ([int64] times, generation counters, ports)
    are wrapped to their width.

    Everything the daemon drives is the class [Runtime] over an abstract world,
    in which any operation may fail; theorems hold for every instance.  The
    supervisor carries, for the statements only, the trace of what it published.
    The state file is a map from paths to contents with outcomes of every write;
    the files of profiles belong to the world and are apart from it.  [Save]
    normalizes the slices it shares with its caller: on the states of the
    invariant that is the identity, and at the start it is explicit ([saved]).
    An engine has one update under way at a time, as the supervisor's mutex
    ensures.

    Conditions that recur.  JSON carries a state exactly when its text is UTF-8,
    its addresses have no zone and its numbers have their width ([text_state]);
    only then is a saved file read back ([stored], [StateJSONLaws]).  Prefixes of a
    request and of the first state file are well formed and their domains are
    ones that normalizing twice does not change ([request_ok], [state_wf]): the
    code normalizes once, and [unstable_domain] shows why that matters.  A decoded
    packet has valid addresses without zones, and so have the statuses of engines
    ([plain_addr]).  The server of releases gives one answer for each address
    during a run of an update and any others in the next ([Server]).  A binary of
    an archive is read up to 128 MiB and cut there, as the code does
    ([MaxBinary]).

    Fuel appears where recursion is not structural.  The allocator's search
    gets one step more than there are reserved and used addresses, which is
    proved enough; the IPv6 parser reads at most eight groups and gets nine
    steps; a lookup gets the eight hops the code allows, which is proved enough;
    decimal printing gets the twenty digits of a 64-bit number, which is
    proved enough, and hexadecimal printing the digits of one group.  All other
    recursion is structural: over batches, over the slots of the slab, over the
    contents of channels, over lists of profiles and statuses.

    ** What is not modelled

    The libraries outside the repository are classes or parameters: prefix
    tables, address sets, DNS names and messages, the packet decoder, the stateful
    packet filter, JSON, SHA-256, X25519, archive readers, version numbers, HTTP
    clients and the file system's outcomes.  A process may die in a system call
    of an update; a power failure that undoes what a system call did is not
    modelled.  The host on Darwin, the creation of interfaces and netns, the
    [tsnet] engine beyond its interface, the resolver services of the operating
    systems, the SOCKS server and the race of address families in a dial, HTTP
    and JSON of the control API, the command line and the test rigs are input
    and output around this core. *)

From Stdlib Require Export Ascii.
From stdpp Require Export base tactics list gmap sets strings sorting numbers fin_maps.
From Stdlib Require Export ZArith Lia.

(** ** Notation

    The notations of the development are in the scope [tailmix_scope], which
    every file opens by requiring this one. *)

Declare Scope tailmix_scope.
Delimit Scope tailmix_scope with tailmix.
Open Scope tailmix_scope.

(** Membership as the code tests it. *)
Notation "x ∈? l" := (bool_decide (x ∈ l)) (at level 70, no associativity) : tailmix_scope.

(** The lemmas every component applies without a second thought: rewriting for
    membership and lengths of built lists, resolution for the well-formedness
    side conditions of prefixes. *)
Create HintDb tailmix.

(** ** Results of fallible code

    A Go function returning [(T, error)] becomes a function into
    [result E T]; the error type [E] of each component is an inductive type
    with one constructor per error site of the code. *)

Inductive result (E A : Type) : Type :=
  | Ok (a : A)
  | Err (e : E).
Arguments Ok {E A} a.
Arguments Err {E A} e.

#[export] Instance result_ret {E} : MRet (result E) := fun _ a => Ok a.
#[export] Instance result_bind {E} : MBind (result E) :=
  fun _ _ f m => match m with Ok a => f a | Err e => Err e end.
#[export] Instance result_fmap {E} : FMap (result E) :=
  fun _ _ f m => match m with Ok a => Ok (f a) | Err e => Err e end.

#[export] Instance result_eq_dec {E A} `{EqDecision E, EqDecision A} :
  EqDecision (result E A).
Proof. solve_decision. Defined.

(** [guard_err b e] fails with [e] when the code's guard [b] holds. *)
Definition guard_err {E} (b : bool) (e : E) : result E unit :=
  if b then Err e else Ok tt.

(** [wrap f m] is [fmt.Errorf("...: %w", err)]. *)
Definition wrap {E F A} (f : E → F) (m : result E A) : result F A :=
  match m with Ok a => Ok a | Err e => Err (f e) end.

Definition is_ok {E A} (m : result E A) : bool :=
  match m with Ok _ => true | Err _ => false end.

(** [imapM_from i f l] is a loop that fills slot [i + k] of the result from
    element [k] of [l] and returns on the first error. *)
Fixpoint imapM_from {E A B} (i : nat) (f : nat → A → result E B)
    (l : list A) : result E (list B) :=
  match l with
  | [] => Ok []
  | x :: l => y ← f i x; ys ← imapM_from (S i) f l; Ok (y :: ys)
  end.
Definition imapM {E A B} (f : nat → A → result E B) (l : list A) :=
  imapM_from 0 f l.

(** [foldM f l s] is a loop over [l] with state [s] that returns on the first
    error; [ifoldM] also counts the iterations. *)
Fixpoint foldM {E A S} (f : S → A → result E S) (l : list A) (s : S) : result E S :=
  match l with
  | [] => Ok s
  | x :: l => s' ← f s x; foldM f l s'
  end.
Fixpoint ifoldM_from {E A S} (i : nat) (f : nat → S → A → result E S)
    (l : list A) (s : S) : result E S :=
  match l with
  | [] => Ok s
  | x :: l => s' ← f i s x; ifoldM_from (Datatypes.S i) f l s'
  end.
Definition ifoldM {E A S} (f : nat → S → A → result E S) (l : list A) (s : S) :=
  ifoldM_from 0 f l s.

Lemma bind_ok_inv {E A B} (m : result E A) (f : A → result E B) b :
  (m ≫= f) = Ok b → ∃ a, m = Ok a ∧ f a = Ok b.
Proof. destruct m; simpl; [eauto|discriminate]. Qed.

Lemma guard_err_ok_inv {E} b (e : E) u : guard_err b e = Ok u → b = false.
Proof. by destruct b. Qed.

Lemma wrap_ok_inv {E F A} (f : E → F) (m : result E A) a :
  wrap f m = Ok a → m = Ok a.
Proof. by destruct m; simpl; [intros [= ->]|]. Qed.

Lemma imapM_from_ok {E A B} (f : nat → A → result E B) l i ys :
  imapM_from i f l = Ok ys →
  length ys = length l ∧
  ∀ k x, l !! k = Some x → ∃ y, ys !! k = Some y ∧ f (i + k) x = Ok y.
Proof.
  revert i ys; induction l as [|x l IH]; simpl; intros i ys.
  { intros [= <-]. split; [done|]. intros k x. by rewrite lookup_nil. }
  destruct (f i x) as [y|] eqn:Hx; simpl; [|discriminate].
  destruct (imapM_from (S i) f l) as [ys'|] eqn:Hl; simpl; [|discriminate].
  intros [= <-]. destruct (IH _ _ Hl) as [Hlen Hall]. split; [by f_equal/=|].
  intros [|k] x'; simpl.
  - intros [= <-]. rewrite Nat.add_0_r. eauto.
  - intros Hk. replace (i + S k) with (S i + k) by lia. eauto.
Qed.

Lemma imapM_ok_Forall2 {E A B} (f : nat → A → result E B) l ys :
  imapM f l = Ok ys → Forall2 (λ x y, ∃ k, f k x = Ok y) l ys.
Proof.
  unfold imapM. generalize 0. revert ys.
  induction l as [|x l IH]; simpl; intros ys i.
  { intros [= <-]. constructor. }
  destruct (f i x) as [y|] eqn:Hx; simpl; [|discriminate].
  destruct (imapM_from (S i) f l) as [ys'|] eqn:Hl; simpl; [|discriminate].
  intros [= <-]. constructor; eauto.
Qed.

Lemma foldM_snoc {E A S} (f : S → A → result E S) l x s :
  foldM f (l ++ [x]) s = (s' ← foldM f l s; f s' x).
Proof.
  revert s. induction l as [|y l IH]; intros s; simpl; [by destruct (f s x)|].
  destruct (f s y); simpl; [apply IH|done].
Qed.

(** A loop invariant of [foldM]: it holds of the state before each iteration
    together with the elements already processed. *)
Lemma foldM_ind {E A S} (P : list A → S → Prop) (f : S → A → result E S) l s s' :
  foldM f l s = Ok s' →
  P [] s →
  (∀ pre x s1 s2, pre ++ [x] `prefix_of` l → P pre s1 → f s1 x = Ok s2 →
     P (pre ++ [x]) s2) →
  P l s'.
Proof.
  intros Hf H0 Hstep.
  assert (∀ pre l0 s0, l = pre ++ l0 → P pre s0 → foldM f l0 s0 = Ok s' → P l s')
    as Hgen; [|by apply (Hgen [] l s)].
  intros pre l0; revert pre; induction l0 as [|x l0 IH]; intros pre s0 -> HP; simpl.
  { intros [= ->]. by rewrite app_nil_r. }
  intros (s1 & Hx & Hl)%bind_ok_inv.
  apply (IH (pre ++ [x]) s1); [by rewrite <-app_assoc| |done].
  apply (Hstep pre x s0 s1); [|done..].
  exists l0. by rewrite <-app_assoc.
Qed.

Lemma ifoldM_ind {E A S} (P : list A → S → Prop) (f : nat → S → A → result E S) l s s' :
  ifoldM f l s = Ok s' →
  P [] s →
  (∀ i pre x s1 s2, pre ++ [x] `prefix_of` l → P pre s1 → f i s1 x = Ok s2 →
     P (pre ++ [x]) s2) →
  P l s'.
Proof.
  intros Hf H0 Hstep.
  assert (∀ i pre l0 s0, l = pre ++ l0 → P pre s0 → ifoldM_from i f l0 s0 = Ok s' → P l s')
    as Hgen; [|by apply (Hgen 0 [] l s)].
  intros i pre l0; revert i pre; induction l0 as [|x l0 IH]; intros i pre s0 -> HP; simpl.
  { intros [= ->]. by rewrite app_nil_r. }
  intros (s1 & Hx & Hl)%bind_ok_inv.
  apply (IH (Datatypes.S i) (pre ++ [x]) s1); [by rewrite <-app_assoc| |done].
  apply (Hstep i pre x s0 s1); [|done..].
  exists l0. by rewrite <-app_assoc.
Qed.

(** A loop whose every iteration succeeds under an invariant. *)
Lemma foldM_total {E A S} (P : list A → S → Prop) (f : S → A → result E S) l s :
  P [] s →
  (∀ pre x s, x ∈ l → P pre s → ∃ s', f s x = Ok s' ∧ P (pre ++ [x]) s') →
  ∃ s', foldM f l s = Ok s' ∧ P l s'.
Proof.
  intros H0 Hstep.
  assert (∀ rest pre s0, (∀ x, x ∈ rest → x ∈ l) → P pre s0 →
    ∃ s', foldM f rest s0 = Ok s' ∧ P (pre ++ rest) s') as Hgen; [|by apply (Hgen l [] s)].
  induction rest as [|x rest IH]; intros pre s0 Hin HP; simpl; [rewrite app_nil_r; eauto|].
  destruct (Hstep pre x s0) as (s1 & -> & HP1); [apply Hin; by left|done|]. simpl.
  destruct (IH (pre ++ [x]) s1) as (s' & ? & HP'); [intros y Hy; apply Hin; by right|done|].
  exists s'. by rewrite <-app_assoc in HP'.
Qed.
Lemma ifoldM_total {E A S} (P : list A → S → Prop) (f : nat → S → A → result E S) l s :
  P [] s →
  (∀ i pre x s, x ∈ l → P pre s → ∃ s', f i s x = Ok s' ∧ P (pre ++ [x]) s') →
  ∃ s', ifoldM f l s = Ok s' ∧ P l s'.
Proof.
  intros H0 Hstep. unfold ifoldM.
  assert (∀ rest i pre s0, (∀ x, x ∈ rest → x ∈ l) → P pre s0 →
    ∃ s', ifoldM_from i f rest s0 = Ok s' ∧ P (pre ++ rest) s') as Hgen; [|by apply (Hgen l 0 [] s)].
  induction rest as [|x rest IH]; intros i pre s0 Hin HP; simpl; [rewrite app_nil_r; eauto|].
  destruct (Hstep i pre x s0) as (s1 & -> & HP1); [apply Hin; by left|done|]. simpl.
  destruct (IH (Datatypes.S i) (pre ++ [x]) s1) as (s' & ? & HP'); [intros y Hy; apply Hin; by right|done|].
  exists s'. by rewrite <-app_assoc in HP'.
Qed.

(** The inputs and the outputs of a loop that succeeded. *)
Lemma imapM_elem_in {E A B} (f : nat → A → result E B) l ys x :
  imapM f l = Ok ys → x ∈ l → ∃ k y, y ∈ ys ∧ f k x = Ok y.
Proof.
  intros H%imapM_ok_Forall2 (i & Hi)%list_elem_of_lookup.
  destruct (Forall2_lookup_l _ _ _ _ _ H Hi) as (y & Hy & k & Hk). exists k, y. split; [|done].
  by eapply list_elem_of_lookup_2.
Qed.
Lemma imapM_elem_out {E A B} (f : nat → A → result E B) l ys y :
  imapM f l = Ok ys → y ∈ ys → ∃ k x, x ∈ l ∧ f k x = Ok y.
Proof.
  intros H%imapM_ok_Forall2 (i & Hi)%list_elem_of_lookup.
  destruct (Forall2_lookup_r _ _ _ _ _ H Hi) as (x & Hx & k & Hk). exists k, x. split; [|done].
  by eapply list_elem_of_lookup_2.
Qed.

Lemma imapM_elem {E A B} (f : A → result E B) l ys y :
  imapM (λ _, f) l = Ok ys → y ∈ ys ↔ ∃ x, x ∈ l ∧ f x = Ok y.
Proof.
  intros H. split.
  - intros Hy. destruct (imapM_elem_out _ _ _ _ H Hy) as (_ & x & ? & ?). eauto.
  - intros (x & Hx & Hf). destruct (imapM_elem_in _ _ _ _ H Hx) as (_ & y' & ? & ?). congruence.
Qed.

(** ** Lists *)

(** Loops that append grow a list at its end. *)
Lemma elem_of_snoc {A} (l : list A) x y : y ∈ l ++ [x] ↔ y ∈ l ∨ y = x.
Proof. by rewrite elem_of_app, list_elem_of_singleton. Qed.

Lemma NoDup_snoc {A} (l : list A) x : NoDup l → x ∉ l → NoDup (l ++ [x]).
Proof.
  intros Hl Hx. apply NoDup_app. split_and!; [done| |apply NoDup_singleton].
  intros y Hy ->%list_elem_of_singleton. done.
Qed.

(** ** Machine integers *)

(** The value of a signed 64-bit integer: Go's [int] and [time.Duration]. *)
Definition int64 (z : Z) : Z := (z + 2 ^ 63) `mod` 2 ^ 64 - 2 ^ 63.
Lemma int64_id z : (-2 ^ 63 <= z < 2 ^ 63)%Z → int64 z = z.
Proof. intros. unfold int64. rewrite Z.mod_small; lia. Qed.
Lemma int64_bounds z : (-2 ^ 63 <= int64 z < 2 ^ 63)%Z.
Proof. unfold int64. pose proof (Z.mod_pos_bound (z + 2 ^ 63) (2 ^ 64)). lia. Qed.

(** ** Tactics *)

(** [ok_inv H as x Hx] splits the first step off a successful computation. *)
Tactic Notation "ok_inv" hyp(H) "as" simple_intropattern(p) simple_intropattern(q) :=
  apply bind_ok_inv in H as (p & q & H).
(** [ok_guard H Hb] uses that the guard in front of [H] did not fire. *)
Tactic Notation "ok_guard" hyp(H) "as" simple_intropattern(q) :=
  apply bind_ok_inv in H as (? & q%guard_err_ok_inv & H).

(** ** Ordering: [sort.Slice] and [slices.SortFunc]

    The code sorts with a [less] function.  [go_sort] is the stable sort with
    that order, [sort.SliceStable].  [sort.Slice] leaves the order of elements
    that compare equal unspecified, so theorems about its uses only rely on the
    result being a sorted permutation, which determines it when the keys are
    distinct. *)

Definition not_after {A} (less : A → A → bool) : relation A :=
  λ x y, less y x = false.
#[export] Instance not_after_dec {A} (less : A → A → bool) :
  RelDecision (not_after less).
Proof. unfold RelDecision, not_after. solve_decision. Defined.

Fixpoint sort_insert {A} (less : A → A → bool) (x : A) (l : list A) : list A :=
  match l with
  | [] => [x]
  | y :: l' => if less y x then y :: sort_insert less x l' else x :: l
  end.
Definition go_sort {A} (less : A → A → bool) (l : list A) : list A :=
  foldr (sort_insert less) [] l.

Class LessOrder {A} (less : A → A → bool) : Prop := {
  less_asym x y : less x y = true → less y x = false;
  less_trans x y z : less y x = false → less z y = false → less z x = false
}.
Class StrictTotal {K} (lt : K → K → bool) : Prop := {
  strict_order :: LessOrder lt;
  strict_tri x y : lt x y = false → lt y x = false → x = y
}.

Lemma less_irrefl {A} (less : A → A → bool) `{!LessOrder less} x : less x x = false.
Proof. destruct (less x x) eqn:E; [|done]. rewrite <-E. by apply less_asym. Qed.

#[export] Instance not_after_total {A} (less : A → A → bool) `{!LessOrder less} :
  Total (not_after less).
Proof.
  intros x y. unfold not_after. destruct (less y x) eqn:E; [|by left].
  right. by apply less_asym.
Qed.
#[export] Instance not_after_trans {A} (less : A → A → bool) `{!LessOrder less} :
  Transitive (not_after less).
Proof. intros x y z. apply less_trans. Qed.

Lemma sort_insert_Permutation {A} (less : A → A → bool) x l : sort_insert less x l ≡ₚ x :: l.
Proof.
  induction l as [|y l IH]; simpl; [done|]. destruct (less y x); [|done].
  rewrite IH. apply Permutation_swap.
Qed.
Lemma go_sort_Permutation {A} (less : A → A → bool) l : go_sort less l ≡ₚ l.
Proof. induction l as [|x l IH]; simpl; [done|]. by rewrite sort_insert_Permutation, IH. Qed.
Lemma go_sort_sorted {A} (less : A → A → bool) `{!LessOrder less} l :
  StronglySorted (not_after less) (go_sort less l).
Proof.
  induction l as [|x l IH]; simpl; [constructor|].
  induction IH as [|y k Hs IHk Hall]; simpl; [by repeat constructor|].
  destruct (less y x) eqn:E.
  - constructor; [done|]. rewrite sort_insert_Permutation. constructor; [|done].
    unfold not_after. by apply less_asym.
  - constructor; [by constructor|]. constructor; [done|].
    eapply Forall_impl; [exact Hall|]. intros z Hz. unfold not_after in *.
    eapply less_trans; [|exact Hz]. done.
Qed.
(** A sorted list is left as it is, ties included. *)
Lemma go_sort_id {A} (less : A → A → bool) l :
  StronglySorted (not_after less) l → go_sort less l = l.
Proof.
  induction 1 as [|x l Hs IH Hall]; simpl; [done|]. rewrite IH.
  destruct l as [|y l]; [done|]. simpl. apply Forall_cons in Hall as [-> _]. done.
Qed.
Lemma go_sort_idemp {A} (less : A → A → bool) `{!LessOrder less} l :
  go_sort less (go_sort less l) = go_sort less l.
Proof. by apply go_sort_id, go_sort_sorted. Qed.
Lemma elem_of_go_sort {A} (less : A → A → bool) l x : x ∈ go_sort less l ↔ x ∈ l.
Proof. by rewrite go_sort_Permutation. Qed.
Lemma length_go_sort {A} (less : A → A → bool) l : length (go_sort less l) = length l.
Proof. by rewrite go_sort_Permutation. Qed.
Lemma NoDup_go_sort {A} (less : A → A → bool) l : NoDup (go_sort less l) ↔ NoDup l.
Proof. by rewrite go_sort_Permutation. Qed.

(** Sorting is determined by the elements when ties are equal elements. *)
Lemma go_sort_unique {A} (less : A → A → bool) `{!LessOrder less} l1 l2 :
  (∀ x y, x ∈ l1 → y ∈ l1 → less x y = false → less y x = false → x = y) →
  StronglySorted (not_after less) l1 → l1 ≡ₚ l2 → l1 = go_sort less l2.
Proof.
  intros Hanti Hs Hp.
  apply (StronglySorted_unique_strong (not_after less)).
  - intros x y Hx Hy H1 H2. apply elem_of_go_sort in Hy. rewrite <-Hp in Hy.
    by apply Hanti.
  - done.
  - apply go_sort_sorted; apply _.
  - by rewrite go_sort_Permutation.
Qed.

Lemma go_sort_Permutation_eq {A} (less : A → A → bool) `{!LessOrder less} l1 l2 :
  (∀ x y, x ∈ l1 → y ∈ l1 → less x y = false → less y x = false → x = y) →
  l1 ≡ₚ l2 → go_sort less l1 = go_sort less l2.
Proof.
  intros Hanti Hp. apply go_sort_unique; [apply _| |apply go_sort_sorted; apply _|].
  - intros x y Hx Hy. apply Hanti; by eapply elem_of_go_sort.
  - by rewrite go_sort_Permutation.
Qed.

(** The shape [if a.K != b.K { return a.K < b.K }; return rest] of the code's
    comparison functions. *)
Definition less_by {A K} `{EqDecision K} (key : A → K) (lt : K → K → bool)
    (rest : A → A → bool) : A → A → bool :=
  λ x y, if decide (key x = key y) then rest x y else lt (key x) (key y).
Definition less_end {A} : A → A → bool := λ _ _, false.

#[export] Instance less_end_order {A} : LessOrder (@less_end A).
Proof. done. Qed.
#[export] Instance less_by_order {A K} `{EqDecision K} (key : A → K) lt rest :
  StrictTotal lt → LessOrder rest → LessOrder (less_by key lt rest).
Proof.
  intros Hlt Hrest. split; unfold less_by.
  - intros x y. repeat case_decide; try congruence; apply less_asym.
  - intros x y z Hxy Hyz.
    destruct (decide (key x = key y)) as [Exy|Nxy];
      destruct (decide (key y = key z)) as [Eyz|Nyz].
    + rewrite !decide_True in * by congruence. by apply (less_trans x y z).
    + rewrite (decide_False (P:=key z = key x)) by congruence.
      rewrite (decide_False (P:=key z = key y)) in Hyz by congruence. congruence.
    + rewrite (decide_False (P:=key z = key x)) by congruence.
      rewrite (decide_False (P:=key y = key x)) in Hxy by congruence. congruence.
    + rewrite (decide_False (P:=key y = key x)) in Hxy by congruence.
      rewrite (decide_False (P:=key z = key y)) in Hyz by congruence.
      case_decide as Ezx; [|by apply (less_trans _ (key y))].
      destruct Nxy. apply strict_tri; congruence.
Qed.
Lemma less_by_tie {A K} `{EqDecision K} (key : A → K) lt `{!StrictTotal lt} rest x y :
  less_by key lt rest x y = false → less_by key lt rest y x = false →
  key x = key y ∧ rest x y = false ∧ rest y x = false.
Proof.
  unfold less_by.
  destruct (decide (key x = key y)) as [He|Hne].
  { by rewrite (decide_True (P:=key y = key x)). }
  rewrite (decide_False (P:=key y = key x)) by congruence.
  intros ??. exfalso. eapply Hne, strict_tri; eauto.
Qed.

Definition str_lt (a b : string) : bool := negb (String.leb b a).
#[export] Instance str_lt_total : StrictTotal str_lt.
Proof.
  assert (∀ a b, str_lt a b = false ↔ String.le b a) as Hiff.
  { intros a b. unfold str_lt, String.le. by destruct (String.leb b a). }
  split; [split|].
  - intros a b H. apply Hiff. destruct (total String.le a b) as [?|Hle]; [done|].
    apply Hiff in Hle. congruence.
  - intros a b c. rewrite !Hiff. apply (transitivity (R:=String.le)).
  - intros a b. rewrite !Hiff. intros. by apply (anti_symm String.le).
Qed.
#[export] Instance Zltb_total : StrictTotal Z.ltb.
Proof. split; [split|]; intros *; lia. Qed.

(** Sorting by one key that is injective on the elements. *)
Definition less_key {A} (key : A → string) : A → A → bool :=
  λ x y, str_lt (key x) (key y).
#[export] Instance less_key_order {A} (key : A → string) : LessOrder (less_key key).
Proof.
  split; unfold less_key; intros *; [apply less_asym|apply less_trans].
Qed.
Lemma less_key_tie {A} (key : A → string) x y :
  less_key key x y = false → less_key key y x = false → key x = key y.
Proof. apply (strict_tri (lt:=str_lt)). Qed.

#[export] Hint Rewrite @elem_of_go_sort @elem_of_snoc @length_go_sort @NoDup_go_sort : tailmix.
#[export] Hint Resolve go_sort_sorted NoDup_snoc int64_bounds : tailmix.
