(* ===== verification/GoStrings.v ===== *)
(** * Strings as the code uses them

    A Go string is a byte string: [string].  The functions below are the parts
    of Go's [strings], [slices] and [strconv] packages that tailmix calls.
    [TrimSpace] and [ToLower] are modelled on ASCII text, which is what DNS
    names, selectors, addresses and profile identifiers are made of; bytes
    above 127 are left unchanged. *)

From S2P Require Import Prelude.

(** ** Characters *)

Definition is_space (c : Ascii.ascii) : bool := Ascii.is_space c.
Definition code (c : Ascii.ascii) : Z := Z.of_N (Ascii.N_of_ascii c).
Definition char_of (n : Z) : Ascii.ascii := Ascii.ascii_of_N (Z.to_N n).
Definition in_range (lo hi : Ascii.ascii) (c : Ascii.ascii) : bool :=
  (code lo <=? code c)%Z && (code c <=? code hi)%Z.
Definition is_digit (c : Ascii.ascii) : bool := in_range "0"%char "9"%char c.
Definition is_lower (c : Ascii.ascii) : bool := in_range "a"%char "z"%char c.
Definition is_upper (c : Ascii.ascii) : bool := in_range "A"%char "Z"%char c.
Definition lower_char (c : Ascii.ascii) : Ascii.ascii :=
  if is_upper c then char_of (code c + 32) else c.
Definition char_eqb (a b : Ascii.ascii) : bool := Ascii.eqb a b.

(** ** Strings and byte lists *)

Definition chars (s : string) : list Ascii.ascii := String.list_ascii_of_string s.
Definition text (l : list Ascii.ascii) : string := String.string_of_list_ascii l.

Lemma text_chars s : text (chars s) = s.
Proof. apply String.string_of_list_ascii_of_string. Qed.
Lemma chars_text l : chars (text l) = l.
Proof. apply String.list_ascii_of_string_of_list_ascii. Qed.
#[export] Instance chars_inj : Inj (=) (=) chars.
Proof. intros a b H. by rewrite <-(text_chars a), H, text_chars. Qed.
#[export] Instance text_inj : Inj (=) (=) text.
Proof. intros a b H. by rewrite <-(chars_text a), H, chars_text. Qed.
Lemma chars_app a b : chars (a +:+ b) = chars a ++ chars b.
Proof. induction a as [|c a IH]; [done|]. simpl. by rewrite <-IH. Qed.

Definition str_len (s : string) : nat := String.length s.
Lemma str_len_chars s : str_len s = length (chars s).
Proof. induction s; by f_equal/=. Qed.
Lemma str_len_app a b : str_len (a +:+ b) = str_len a + str_len b.
Proof. by rewrite !str_len_chars, chars_app, length_app. Qed.

(** ** package strings *)

Definition ToLower (s : string) : string := text (lower_char <$> chars s).

Fixpoint trim_left (f : Ascii.ascii → bool) (l : list Ascii.ascii) :=
  match l with
  | c :: l' => if f c then trim_left f l' else l
  | [] => []
  end.
Definition trim_right (f : Ascii.ascii → bool) (l : list Ascii.ascii) :=
  reverse (trim_left f (reverse l)).
Definition TrimSpace (s : string) : string :=
  text (trim_right is_space (trim_left is_space (chars s))).
(** [strings.Trim] and [strings.TrimRight] with a cutset. *)
Definition Trim (cut : Ascii.ascii → bool) (s : string) : string :=
  text (trim_right cut (trim_left cut (chars s))).
Definition TrimRight (cut : Ascii.ascii → bool) (s : string) : string :=
  text (trim_right cut (chars s)).

Fixpoint list_prefix (p l : list Ascii.ascii) : bool :=
  match p, l with
  | [], _ => true
  | a :: p, b :: l => char_eqb a b && list_prefix p l
  | _, [] => false
  end.
Definition HasPrefix (s p : string) : bool := list_prefix (chars p) (chars s).
Definition HasSuffix (s p : string) : bool :=
  list_prefix (reverse (chars p)) (reverse (chars s)).
Definition TrimPrefix (s p : string) : string :=
  if HasPrefix s p then text (drop (str_len p) (chars s)) else s.
Definition TrimSuffix (s p : string) : string :=
  if HasSuffix s p then text (take (str_len s - str_len p) (chars s)) else s.

(** [cut_char c l] splits at the first [c]; [strings.Cut] with a one-byte
    separator, which is the only way the code uses it. *)
Fixpoint cut_char (c : Ascii.ascii) (l : list Ascii.ascii) :
    option (list Ascii.ascii * list Ascii.ascii) :=
  match l with
  | [] => None
  | x :: l =>
    if char_eqb x c then Some ([], l)
    else '(a, b) ← cut_char c l; Some (x :: a, b)
  end.
Definition Cut (s : string) (c : Ascii.ascii) : string * string * bool :=
  match cut_char c (chars s) with
  | Some (a, b) => (text a, text b, true)
  | None => (s, "", false)
  end.

(** [strings.Split] with a one-byte separator. *)
Fixpoint split_char (c : Ascii.ascii) (l : list Ascii.ascii) :
    list (list Ascii.ascii) :=
  match l with
  | [] => [[]]
  | x :: l =>
    if char_eqb x c then [] :: split_char c l
    else match split_char c l with
         | p :: ps => (x :: p) :: ps
         | [] => [[x]]
         end
  end.
Definition Split (s : string) (c : Ascii.ascii) : list string :=
  text <$> split_char c (chars s).

Definition ContainsChar (s : string) (c : Ascii.ascii) : bool :=
  existsb (λ x, char_eqb x c) (chars s).
Fixpoint list_contains (l p : list Ascii.ascii) : bool :=
  list_prefix p l || match l with [] => false | _ :: l => list_contains l p end.
(** [strings.Contains]. *)
Definition StrContains (s p : string) : bool := list_contains (chars s) (chars p).

Definition EqualFold (a b : string) : bool := String.eqb (ToLower a) (ToLower b).

Fixpoint JoinStr (sep : string) (l : list string) : string :=
  match l with
  | [] => ""
  | [x] => x
  | x :: l => x +:+ sep +:+ JoinStr sep l
  end.

(** [net.SplitHostPort]: the last colon separates the port, and a host with
    colons is in brackets. *)
Fixpoint last_char_index (c : Ascii.ascii) (i : nat) (l : list Ascii.ascii)
    (found : option nat) : option nat :=
  match l with
  | [] => found
  | x :: l => last_char_index c (S i) l (if char_eqb x c then Some i else found)
  end.
Definition has_char (c : Ascii.ascii) (l : list Ascii.ascii) : bool :=
  existsb (λ x, char_eqb x c) l.
Definition SplitHostPort (hostport : string) : option (string * string) :=
  let l := chars hostport in
  i ← last_char_index ":"%char 0 l None;
  match l with
  | "["%char :: l' =>
    '(host, rest) ← cut_char "]"%char l';
    let close := S (length host) in
    if (S close =? i)%nat && negb (has_char "["%char l') && negb (has_char "]"%char rest)
    then Some (text host, text (drop (S i) l)) else None
  | _ =>
    let host := take i l in
    if has_char ":"%char host || has_char "["%char l || has_char "]"%char l then None
    else Some (text host, text (drop (S i) l))
  end.

(** The byte string [\x00]: a separator of the code's composite keys. *)
Definition NUL : string := String (char_of 0) "".
Definition SOH : string := String (char_of 1) "".

(** ** package slices *)

Section compact.
Context {A : Type} (eqb : A → A → bool).
(** [slices.CompactFunc]: drop an element equal to the one kept before it. *)
Fixpoint compact_from (prev : A) (l : list A) : list A :=
  match l with
  | [] => []
  | x :: l => if eqb prev x then compact_from prev l else x :: compact_from x l
  end.
Definition CompactFunc (l : list A) : list A :=
  match l with [] => [] | x :: l => x :: compact_from x l end.
End compact.

Definition SortStrings (l : list string) : list string := go_sort str_lt l.
Definition CompactStrings (l : list string) : list string := CompactFunc String.eqb l.

(** ** package strconv *)

Definition digit_val (c : Ascii.ascii) : Z := (code c - 48)%Z.
Definition digit_char (d : Z) : Ascii.ascii := char_of (48 + d).

Fixpoint parse_digits (acc : Z) (l : list Ascii.ascii) : option Z :=
  match l with
  | [] => Some acc
  | c :: l => if is_digit c then parse_digits (acc * 10 + digit_val c) l else None
  end.
(** [strconv.ParseUint(s, 10, bits)]. *)
Definition ParseUint (s : string) (bits : Z) : option Z :=
  match chars s with
  | [] => None
  | l => n ← parse_digits 0 l; if (n <? 2 ^ bits)%Z then Some n else None
  end.

Fixpoint format_digits (fuel : nat) (n : Z) (acc : list Ascii.ascii) :=
  match fuel with
  | O => acc
  | S fuel =>
    let acc := digit_char (n `mod` 10) :: acc in
    if (n / 10 =? 0)%Z then acc else format_digits fuel (n / 10) acc
  end.
(** [strconv.FormatUint(n, 10)]; 20 digits are enough for 64 bits. *)
Definition FormatUint (n : Z) : string := text (format_digits 20 n []).

(** ** Facts *)

Lemma char_eqb_eq a b : char_eqb a b = true ↔ a = b.
Proof. apply Ascii.eqb_eq. Qed.
Lemma char_eqb_neq a b : char_eqb a b = false ↔ a ≠ b.
Proof. apply Ascii.eqb_neq. Qed.

Lemma code_bounds c : (0 <= code c < 256)%Z.
Proof. unfold code. pose proof (Ascii.N_ascii_bounded c). lia. Qed.
Lemma char_of_code c : char_of (code c) = c.
Proof. unfold char_of, code. rewrite N2Z.id. apply Ascii.ascii_N_embedding. Qed.
Lemma code_char_of n : (0 <= n < 256)%Z → code (char_of n) = n.
Proof.
  intros. unfold char_of, code. rewrite Ascii.N_ascii_embedding by lia. lia.
Qed.
Lemma digit_val_char d : (0 <= d < 10)%Z → digit_val (digit_char d) = d.
Proof. intros. unfold digit_val, digit_char. rewrite code_char_of; lia. Qed.
Lemma is_digit_char d : (0 <= d < 10)%Z → is_digit (digit_char d) = true.
Proof.
  intros. unfold is_digit, in_range, digit_char. rewrite code_char_of by lia.
  change (code "0"%char) with 48%Z. change (code "9"%char) with 57%Z.
  apply andb_true_iff; split; lia.
Qed.

Lemma parse_digits_app acc l1 l2 :
  parse_digits acc (l1 ++ l2) = (n ← parse_digits acc l1; parse_digits n l2).
Proof.
  revert acc; induction l1 as [|c l1 IH]; intros acc; simpl; [done|].
  destruct (is_digit c); [apply IH|done].
Qed.

Lemma format_digits_app fuel n acc :
  format_digits fuel n acc = format_digits fuel n [] ++ acc.
Proof.
  revert n acc; induction fuel as [|fuel IH]; intros n acc; simpl; [done|].
  case_match; [done|].
  rewrite (IH _ (_ :: acc)), (IH _ [_]). by rewrite <-app_assoc.
Qed.

Lemma format_digits_parse fuel n :
  (0 <= n < 10 ^ Z.of_nat fuel)%Z → 0 < fuel →
  parse_digits 0 (format_digits fuel n []) = Some n.
Proof.
  revert n; induction fuel as [|fuel IH]; intros n Hn Hf; [lia|]. simpl.
  pose proof (Z.mod_pos_bound n 10 ltac:(lia)) as Hmod.
  destruct (Z.eqb_spec (n / 10) 0) as [Hz|Hnz]; simpl.
  - rewrite is_digit_char, digit_val_char by lia. f_equal.
    pose proof (Z.div_mod n 10). lia.
  - rewrite format_digits_app, parse_digits_app.
    rewrite Nat2Z.inj_succ, Z.pow_succ_r in Hn by lia.
    assert (0 <= n / 10)%Z by (apply Z.div_pos; lia).
    rewrite IH; [| split; [lia|apply Z.div_lt_upper_bound; lia] | ].
    + simpl. rewrite is_digit_char, digit_val_char by lia. f_equal.
      pose proof (Z.div_mod n 10). lia.
    + destruct fuel; [|lia]. simpl in Hn.
      exfalso. apply Hnz, Z.div_small. lia.
Qed.

Lemma format_digits_nonempty fuel n : 0 < fuel → format_digits fuel n [] ≠ [].
Proof.
  destruct fuel as [|fuel]; [lia|]. intros _. simpl. case_match; [done|].
  rewrite format_digits_app. by destruct (format_digits fuel _ []).
Qed.

(** Formatting and parsing an unsigned integer round trips. *)
Lemma ParseUint_FormatUint n bits :
  (0 <= n < 2 ^ bits)%Z → (n < 10 ^ 20)%Z → ParseUint (FormatUint n) bits = Some n.
Proof.
  intros Hn H64. unfold ParseUint, FormatUint. rewrite chars_text.
  pose proof (format_digits_nonempty 20 n ltac:(lia)) as Hne.
  destruct (format_digits 20 n []) as [|c l] eqn:E; [done|].
  rewrite <-E, format_digits_parse by (simpl; lia). simpl.
  by rewrite (proj2 (Z.ltb_lt _ _)) by lia.
Qed.

Lemma parse_digits_nonneg acc l n : parse_digits acc l = Some n → (0 <= acc)%Z → (0 <= n)%Z.
Proof.
  revert acc; induction l as [|c l IH]; intros acc; simpl; [intros [= ->]; done|].
  destruct (is_digit c) eqn:Hd; [|done]. intros Hp Hacc. apply (IH _ Hp).
  unfold is_digit, in_range in Hd. apply andb_true_iff in Hd as [Hd _].
  apply Z.leb_le in Hd. change (code "0"%char) with 48%Z in Hd. unfold digit_val. lia.
Qed.
Lemma ParseUint_bounds s bits n : ParseUint s bits = Some n → (0 <= n < 2 ^ bits)%Z.
Proof.
  unfold ParseUint. destruct (chars s) as [|c l]; [done|].
  destruct (parse_digits 0 (c :: l)) as [m|] eqn:E; simpl; [|done].
  destruct (Z.ltb_spec m (2 ^ bits)); [|done]. intros [= <-].
  split; [|done]. by apply (parse_digits_nonneg _ _ _ E).
Qed.

(** [CompactFunc] keeps the elements of a list, and sorted input ends up
    strictly increasing. *)
Lemma elem_of_compact_from {A} (eqb : A → A → bool) prev l x :
  x ∈ compact_from eqb prev l → x ∈ l.
Proof.
  revert prev; induction l as [|y l IH]; intros prev; simpl; [done|].
  rewrite elem_of_cons. destruct (eqb prev y); [eauto|].
  rewrite elem_of_cons. intros [?|?]; eauto.
Qed.
Lemma elem_of_CompactFunc {A} (eqb : A → A → bool) l x :
  x ∈ CompactFunc eqb l → x ∈ l.
Proof.
  destruct l as [|y l]; [done|]. simpl. rewrite !elem_of_cons.
  intros [?|?%elem_of_compact_from]; auto.
Qed.

(** Formatted numbers are digits, so they contain none of the separators. *)
Lemma format_digits_digits fuel n c :
  c ∈ format_digits fuel n [] → is_digit c = true.
Proof.
  revert n; induction fuel as [|fuel IH]; intros n; simpl; [by intros ?%elem_of_nil|].
  pose proof (Z.mod_pos_bound n 10 ltac:(lia)).
  case_match.
  - intros ->%list_elem_of_singleton. by apply is_digit_char.
  - rewrite format_digits_app, elem_of_snoc.
    intros [?| ->]; [eauto|by apply is_digit_char].
Qed.
Lemma FormatUint_digits n c : c ∈ chars (FormatUint n) → is_digit c = true.
Proof. unfold FormatUint. rewrite chars_text. apply format_digits_digits. Qed.
Lemma FormatUint_no n c : is_digit c = false → c ∉ chars (FormatUint n).
Proof. intros Hc Hin%FormatUint_digits. congruence. Qed.
Lemma FormatUint_nonempty n : FormatUint n ≠ "".
Proof.
  intros H. apply (f_equal chars) in H. unfold FormatUint in H. rewrite chars_text in H.
  by apply format_digits_nonempty in H; [|lia].
Qed.
Lemma FormatUint_inj m n :
  (0 <= m < 10 ^ 20)%Z → (0 <= n < 10 ^ 20)%Z → FormatUint m = FormatUint n → m = n.
Proof.
  intros Hm Hn Heq.
  assert (10 ^ 20 < 2 ^ 70)%Z by done.
  pose proof (ParseUint_FormatUint m 70 ltac:(lia) ltac:(lia)) as H1.
  rewrite Heq, (ParseUint_FormatUint n 70) in H1 by lia. congruence.
Qed.

(** [Cut] and the absence of its separator. *)
Lemma cut_char_app c a b : c ∉ a → cut_char c (a ++ c :: b) = Some (a, b).
Proof.
  induction a as [|x a IH]; simpl; intros Hn.
  - by rewrite (proj2 (char_eqb_eq c c)).
  - rewrite (proj2 (char_eqb_neq x c)) by (intros ->; apply Hn; by left).
    rewrite IH by (intros ?; apply Hn; by right). done.
Qed.
Lemma cut_char_none c l : c ∉ l → cut_char c l = None.
Proof.
  induction l as [|x l IH]; simpl; intros Hn; [done|].
  rewrite (proj2 (char_eqb_neq x c)) by (intros ->; apply Hn; by left).
  by rewrite IH by (intros ?; apply Hn; by right).
Qed.
Lemma cut_char_some c l a b : cut_char c l = Some (a, b) → l = a ++ c :: b ∧ c ∉ a.
Proof.
  revert a b; induction l as [|x l IH]; simpl; intros a b; [done|].
  destruct (char_eqb x c) eqn:E.
  - apply char_eqb_eq in E as ->. intros [= <- <-]. split; [done|]. by intros ?%elem_of_nil.
  - apply char_eqb_neq in E. destruct (cut_char c l) as [[a' b']|]; [|done].
    simpl. intros [= <- <-]. destruct (IH a' b' eq_refl) as [-> Hn]. split; [done|].
    intros [->|?]%elem_of_cons; done.
Qed.
Lemma Cut_app a c b : c ∉ chars a → Cut (a +:+ String c b) c = (a, b, true).
Proof.
  intros H. unfold Cut. rewrite chars_app. change (chars (String c b)) with (c :: chars b).
  by rewrite cut_char_app, !text_chars by done.
Qed.
Lemma Cut_none a c : c ∉ chars a → Cut a c = (a, "", false).
Proof. intros H. unfold Cut. by rewrite cut_char_none. Qed.
Lemma Cut_true s c a b : Cut s c = (a, b, true) → s = a +:+ String c b ∧ c ∉ chars a.
Proof.
  unfold Cut. destruct (cut_char c (chars s)) as [[x y]|] eqn:E; [|done].
  intros [= <- <-]. apply cut_char_some in E as [E Hn]. rewrite chars_text. split; [|done].
  apply chars_inj. rewrite E, chars_app, chars_text.
  change (chars (String c (text y))) with (c :: chars (text y)). by rewrite chars_text.
Qed.
Lemma Cut_false s c a b : Cut s c = (a, b, false) → c ∉ chars s.
Proof.
  unfold Cut. destruct (cut_char c (chars s)) as [[x y]|] eqn:E; [done|]. intros _.
  revert E. induction (chars s) as [|z l IH]; simpl; [intros _; by intros ?%elem_of_nil|].
  destruct (char_eqb z c) eqn:Ez; [done|]. apply char_eqb_neq in Ez.
  destruct (cut_char c l) as [[??]|]; [done|]. intros _ [->|?]%elem_of_cons; [done|].
  by apply IH.
Qed.

(** The dual of [elem_of_CompactFunc] when equal elements are interchangeable. *)
Lemma compact_from_elem {A} (eqb : A → A → bool) prev l x :
  (∀ a b, eqb a b = true → a = b) → x ∈ l → x = prev ∨ x ∈ compact_from eqb prev l.
Proof.
  intros Heq. revert prev; induction l as [|y l IH]; intros prev; simpl; [by intros ?%elem_of_nil|].
  destruct (eqb prev y) eqn:E.
  - apply Heq in E as ->. intros [->|?]%elem_of_cons; auto.
  - intros [->|Hin]%elem_of_cons; [right; by left|].
    destruct (IH y Hin) as [->|?]; right; [by left|by right].
Qed.
Lemma CompactFunc_elem {A} (eqb : A → A → bool) l x :
  (∀ a b, eqb a b = true → a = b) → x ∈ l → x ∈ CompactFunc eqb l.
Proof.
  intros Heq. destruct l as [|y l]; [done|]. simpl. intros [->|Hin]%elem_of_cons; [by left|].
  destruct (compact_from_elem eqb y l x Heq Hin) as [->|?]; [by left|by right].
Qed.
(** Compacting a sorted list keeps it sorted. *)
Lemma compact_from_sublist {A} (eqb : A → A → bool) prev l :
  compact_from eqb prev l `sublist_of` l.
Proof.
  revert prev; induction l as [|y l IH]; intros prev; simpl; [done|].
  destruct (eqb prev y); [by apply sublist_cons|by apply sublist_skip].
Qed.
Lemma CompactFunc_sublist {A} (eqb : A → A → bool) l : CompactFunc eqb l `sublist_of` l.
Proof. destruct l; [done|]. simpl. apply sublist_skip, compact_from_sublist. Qed.

(** Text without white space or capitals is its own trimmed and lower form. *)
Lemma trim_left_none f l : (∀ c, c ∈ l → f c = false) → trim_left f l = l.
Proof. destruct l as [|c l]; [done|]. intros H. simpl. by rewrite H by left. Qed.
Lemma TrimSpace_none s : (∀ c, c ∈ chars s → is_space c = false) → TrimSpace s = s.
Proof.
  intros H. unfold TrimSpace, trim_right. rewrite (trim_left_none _ (chars s)) by done.
  rewrite trim_left_none, reverse_involutive, text_chars; [done|].
  intros c. rewrite elem_of_reverse. apply H.
Qed.
Lemma ContainsChar_spec s c : ContainsChar s c = true ↔ c ∈ chars s.
Proof.
  unfold ContainsChar. rewrite existsb_exists. split.
  - intros (x & Hx & ->%char_eqb_eq). by apply list_elem_of_In.
  - intros Hin. exists c. split; [by apply list_elem_of_In|by apply char_eqb_eq].
Qed.
Lemma ContainsChar_false s c : ContainsChar s c = false ↔ c ∉ chars s.
Proof. rewrite <-ContainsChar_spec. by destruct (ContainsChar s c). Qed.
Definition plain_char (c : Ascii.ascii) : bool := negb (is_space c) && negb (is_upper c).
Definition plain (s : string) : bool := forallb plain_char (chars s).
Lemma plain_elem s c : plain s = true → c ∈ chars s → is_space c = false ∧ is_upper c = false.
Proof.
  unfold plain. rewrite forallb_forall. intros H Hin%list_elem_of_In.
  specialize (H c Hin). unfold plain_char in H.
  by rewrite andb_true_iff, !negb_true_iff in H.
Qed.
Lemma plain_app a b : plain (a +:+ b) = plain a && plain b.
Proof. unfold plain. by rewrite chars_app, forallb_app. Qed.
Lemma TrimSpace_plain s : plain s = true → TrimSpace s = s.
Proof. intros H. apply TrimSpace_none. intros c Hc. by eapply plain_elem. Qed.
Lemma ToLower_plain s : plain s = true → ToLower s = s.
Proof.
  intros H. apply chars_inj. unfold ToLower. rewrite chars_text.
  rewrite <-(list_fmap_id (chars s)) at 2. apply list_fmap_ext. intros i c Hc.
  unfold lower_char. apply list_elem_of_lookup_2 in Hc.
  by rewrite (proj2 (plain_elem s c H Hc)).
Qed.
Lemma plain_FormatUint n : plain (FormatUint n) = true.
Proof.
  apply forallb_forall. intros c Hc%list_elem_of_In%FormatUint_digits.
  apply andb_true_iff. split; apply negb_true_iff; revert Hc;
    unfold is_digit, is_upper, is_space, in_range; destruct c as [[] [] [] [] [] [] [] []]; done.
Qed.

(** Splitting at a separator. *)
Lemma split_char_app c a b : c ∉ a → split_char c (a ++ c :: b) = a :: split_char c b.
Proof.
  induction a as [|x a IH]; simpl; intros Hc.
  - by rewrite (proj2 (char_eqb_eq c c) eq_refl).
  - rewrite not_elem_of_cons in Hc. destruct Hc as [Hx Ha].
    rewrite (proj2 (char_eqb_neq x c)) by done. by rewrite IH.
Qed.
Lemma split_char_none c a : c ∉ a → split_char c a = [a].
Proof.
  induction a as [|x a IH]; simpl; intros Hc; [done|].
  rewrite not_elem_of_cons in Hc. destruct Hc as [Hx Ha].
  rewrite (proj2 (char_eqb_neq x c)) by done. by rewrite IH.
Qed.
