(* ===== verification/Netip.v ===== *)
(** * IP addresses and prefixes

    The value types [netip.Addr] and [netip.Prefix] of Go's standard library,
    and the operations tailmix uses on them.  An address is its numeric value
    at its width (32 or 128 bits); the zero [Addr] is [AddrInvalid].  A prefix
    is an address with a bit count, [-1] standing for the invalid count. *)

From S2P Require Import Prelude GoStrings.
Local Open Scope Z_scope.

Inductive Addr : Type :=
  | AddrInvalid
  | Addr4 (v : Z)
  | Addr6 (v : Z) (zone : string).

#[export] Instance Addr_eq_dec : EqDecision Addr.
Proof. solve_decision. Defined.
#[export] Instance Addr_countable : Countable Addr.
Proof.
  refine (inj_countable'
    (λ a, match a with
          | AddrInvalid => inl ()
          | Addr4 v => inr (inl v)
          | Addr6 v z => inr (inr (v, z))
          end)
    (λ e, match e with
          | inl _ => AddrInvalid
          | inr (inl v) => Addr4 v
          | inr (inr (v, z)) => Addr6 v z
          end) _).
  by intros [].
Defined.
#[export] Instance Addr_inhabited : Inhabited Addr := populate AddrInvalid.

Module addr.
Definition IsValid (a : Addr) : bool :=
  match a with AddrInvalid => false | _ => true end.
Definition Is4 (a : Addr) : bool := match a with Addr4 _ => true | _ => false end.
(** [Is6] is true of IPv4-mapped IPv6 addresses too. *)
Definition Is6 (a : Addr) : bool := match a with Addr6 _ _ => true | _ => false end.
Definition Is4In6 (a : Addr) : bool :=
  match a with Addr6 v _ => Z.shiftr v 32 =? 0xffff | _ => false end.
Definition BitLen (a : Addr) : Z :=
  match a with AddrInvalid => 0 | Addr4 _ => 32 | Addr6 _ _ => 128 end.
Definition value (a : Addr) : Z :=
  match a with AddrInvalid => 0 | Addr4 v => v | Addr6 v _ => v end.
Definition hasZone (a : Addr) : bool :=
  match a with Addr6 _ z => negb (String.eqb z "") | _ => false end.
Definition withoutZone (a : Addr) : Addr :=
  match a with Addr6 v _ => Addr6 v "" | _ => a end.
Definition WithZone (a : Addr) (z : string) : Addr :=
  match a with Addr6 v _ => Addr6 v z | _ => a end.
Definition Unmap (a : Addr) : Addr :=
  if Is4In6 a then Addr4 (value a `mod` 2 ^ 32) else a.
(** [Next] is the zero address after the last address of the family. *)
Definition Next (a : Addr) : Addr :=
  match a with
  | AddrInvalid => AddrInvalid
  | Addr4 v => if v + 1 =? 2 ^ 32 then AddrInvalid else Addr4 (v + 1)
  | Addr6 v z => if v + 1 =? 2 ^ 128 then AddrInvalid else Addr6 (v + 1) z
  end.
Definition IPv4Unspecified : Addr := Addr4 0.
Definition IPv6Unspecified : Addr := Addr6 0 "".
Definition IsUnspecified (a : Addr) : bool :=
  bool_decide (a = IPv4Unspecified) || bool_decide (a = IPv6Unspecified).
Definition IsMulticast (a : Addr) : bool :=
  match Unmap a with
  | Addr4 v => Z.shiftr v 28 =? 0xe
  | Addr6 v _ => Z.shiftr v 120 =? 0xff
  | AddrInvalid => false
  end.
Definition IsLoopback (a : Addr) : bool :=
  match Unmap a with
  | Addr4 v => Z.shiftr v 24 =? 127
  | Addr6 v _ => v =? 1
  | AddrInvalid => false
  end.
Definition IsLinkLocalUnicast (a : Addr) : bool :=
  match Unmap a with
  | Addr4 v => Z.shiftr v 16 =? 0xa9fe
  | Addr6 v _ => Z.shiftr v 118 =? 0x3fa
  | AddrInvalid => false
  end.
Definition IsGlobalUnicast (a : Addr) : bool :=
  match Unmap a with
  | AddrInvalid => false
  | Addr4 v as u => if (v =? 0) || (v =? 2 ^ 32 - 1) then false
      else negb (IsLoopback u) && negb (IsMulticast u) && negb (IsLinkLocalUnicast u)
  | Addr6 _ _ as u => negb (bool_decide (u = IPv6Unspecified)) &&
      negb (IsLoopback u) && negb (IsMulticast u) && negb (IsLinkLocalUnicast u)
  end.
(** [Compare] orders by family, then value, then zone. *)
Definition Compare (a b : Addr) : comparison :=
  match BitLen a ?= BitLen b with
  | Eq =>
    match value a ?= value b with
    | Eq => if Is6 a then
              match a, b with
              | Addr6 _ z, Addr6 _ z' => String.compare z z'
              | _, _ => Eq
              end
            else Eq
    | c => c
    end
  | c => c
  end.
Definition less (a b : Addr) : bool :=
  match Compare a b with Lt => true | _ => false end.
(** Every address the program can hold is within its width. *)
Definition wf (a : Addr) : bool :=
  match a with
  | AddrInvalid => true
  | Addr4 v => (0 <=? v) && (v <? 2 ^ 32)
  | Addr6 v _ => (0 <=? v) && (v <? 2 ^ 128)
  end.
End addr.
(** An address as the packet decoder, the engines and the allocator produce it. *)
Definition plain_addr (a : Addr) : bool := addr.wf a && addr.IsValid a && negb (addr.hasZone a).

Record Prefix : Type := MkPrefix { p_addr : Addr; p_bits : Z }.
#[export] Instance Prefix_eq_dec : EqDecision Prefix.
Proof. solve_decision. Defined.
#[export] Instance Prefix_countable : Countable Prefix.
Proof.
  refine (inj_countable' (λ p, (p_addr p, p_bits p)) (λ '(a, b), MkPrefix a b) _).
  by intros [].
Defined.
#[export] Instance Prefix_inhabited : Inhabited Prefix := populate (MkPrefix AddrInvalid (-1)).

Module prefix.
Import addr.
(** The zero [netip.Prefix]. *)
Definition zero : Prefix := MkPrefix AddrInvalid (-1).
Definition IsValid (p : Prefix) : bool := 0 <=? p_bits p.
Definition PrefixFrom (a : Addr) (bits : Z) : Prefix :=
  MkPrefix (withoutZone a)
    (if addr.IsValid a && (0 <=? bits) && (bits <=? BitLen a) then bits else -1).
(** The address with only its first [bits] bits kept. *)
Definition mask_value (len bits v : Z) : Z :=
  Z.shiftl (Z.shiftr v (len - bits)) (len - bits).
Definition mask_addr (a : Addr) (bits : Z) : Addr :=
  match a with
  | AddrInvalid => AddrInvalid
  | Addr4 v => Addr4 (mask_value 32 bits v)
  | Addr6 v z => Addr6 (mask_value 128 bits v) z
  end.
Definition Masked (p : Prefix) : Prefix :=
  if IsValid p then MkPrefix (withoutZone (mask_addr (p_addr p) (p_bits p))) (p_bits p)
  else zero.
Definition Contains (p : Prefix) (a : Addr) : bool :=
  IsValid p && negb (hasZone a) &&
  negb (BitLen (p_addr p) =? 0) && negb (BitLen a =? 0) &&
  (BitLen (p_addr p) =? BitLen a) &&
  (Z.shiftr (value a) (BitLen a - p_bits p) =?
   Z.shiftr (value (p_addr p)) (BitLen a - p_bits p)).
(** What [PrefixFrom] and [ParsePrefix] establish. *)
Definition wf (p : Prefix) : bool :=
  addr.wf (p_addr p) && negb (hasZone (p_addr p)) &&
  (if IsValid p then (p_bits p <=? BitLen (p_addr p)) && addr.IsValid (p_addr p)
   else (p_bits p =? -1)).
End prefix.

(** ** Text forms *)

Definition hex_char (d : Z) : Ascii.ascii :=
  if d <? 10 then char_of (48 + d) else char_of (87 + d).
Fixpoint format_hex (fuel : nat) (n : Z) (acc : list Ascii.ascii) :=
  match fuel with
  | O => acc
  | S fuel =>
    let acc := hex_char (n `mod` 16) :: acc in
    if n / 16 =? 0 then acc else format_hex fuel (n / 16) acc
  end.

Definition byte_at (v k : Z) : Z := Z.shiftr v (8 * k) `mod` 256.
Definition string4 (v : Z) : string :=
  FormatUint (byte_at v 3) +:+ "." +:+ FormatUint (byte_at v 2) +:+ "." +:+
  FormatUint (byte_at v 1) +:+ "." +:+ FormatUint (byte_at v 0).

(** The eight 16-bit groups of an IPv6 address, first group first. *)
Definition groups (v : Z) : list Z :=
  (λ k, Z.shiftr v (16 * (7 - Z.of_nat k)) `mod` 65536) <$> seq 0 8.

(** The first longest run of at least two zero groups: [(start, end)]. *)
Fixpoint zero_run (l : list Z) : nat :=
  match l with 0 :: l => S (zero_run l) | _ => O end.
Fixpoint longest_run (i : nat) (l : list Z) (best : nat * nat) : nat * nat :=
  match l with
  | [] => best
  | _ :: l' =>
    let n := zero_run l in
    let best := if (2 <=? n)%nat && (best.2 - best.1 <? n)%nat then (i, i + n)%nat else best in
    longest_run (S i) l' best
  end.

Definition colon : Ascii.ascii := ":"%char.
Definition dot : Ascii.ascii := "."%char.

Fixpoint groups_text (i : nat) (run : nat * nat) (skip : nat) (l : list Z) :
    list Ascii.ascii :=
  match l with
  | [] => []
  | g :: l =>
    match skip with
    | S skip => groups_text (S i) run skip l
    | O =>
      if (i =? run.1)%nat && (run.1 <? run.2)%nat then
        colon :: colon :: groups_text (S i) run (run.2 - run.1 - 1) l
      else
        (if (0 <? i)%nat && negb ((i =? run.2)%nat && (run.1 <? run.2)%nat)
         then [colon] else []) ++
        format_hex 4 g [] ++ groups_text (S i) run 0 l
    end
  end.
Definition string6 (v : Z) : string :=
  let g := groups v in text (groups_text 0 (longest_run 0 g (0, 0)%nat) 0 g).

Definition addr_string (a : Addr) : string :=
  match a with
  | AddrInvalid => "invalid IP"
  | Addr4 v => string4 v
  | Addr6 v z =>
    (if addr.Is4In6 a then "::ffff:" +:+ string4 (v `mod` 2 ^ 32) else string6 v) +:+
    (if String.eqb z "" then "" else "%" +:+ z)
  end.
Definition prefix_string (p : Prefix) : string :=
  if prefix.IsValid p then addr_string (p_addr p) +:+ "/" +:+ FormatUint (p_bits p)
  else "invalid Prefix".

(** ** Parsing *)

(** One decimal field: at most three digits, no leading zero, at most 255. *)
Definition parse_octet (l : list Ascii.ascii) : option Z :=
  match l with
  | [] => None
  | c :: l' =>
    if char_eqb c "0"%char && negb (match l' with [] => true | _ => false end) then None
    else n ← parse_digits 0 l; if n <? 256 then Some n else None
  end.
Definition parse4 (l : list Ascii.ascii) : option Z :=
  match split_char dot l with
  | [a; b; c; d] =>
    a ← parse_octet a; b ← parse_octet b; c ← parse_octet c; d ← parse_octet d;
    Some (((a * 256 + b) * 256 + c) * 256 + d)
  | _ => None
  end.

Definition hex_val (c : Ascii.ascii) : option Z :=
  if is_digit c then Some (code c - 48)
  else if in_range "a"%char "f"%char c then Some (code c - 87)
  else if in_range "A"%char "F"%char c then Some (code c - 55)
  else None.
(** The leading hexadecimal digits: their value, their number, the rest. *)
Fixpoint scan_hex (acc : Z) (off : nat) (l : list Ascii.ascii) : Z * nat * list Ascii.ascii :=
  match l with
  | c :: l' =>
    match hex_val c with
    | Some d => scan_hex (acc * 16 + d) (S off) l'
    | None => (acc, off, l)
    end
  | [] => (acc, off, [])
  end.

(** The loop of [netip.parseIPv6]: groups read so far (in reverse), and the
    position of the ellipsis among them.  Every iteration reads a group, so
    nine iterations of fuel suffice. *)
Fixpoint parse6_loop (fuel : nat) (gs : list Z) (ell : option nat)
    (l : list Ascii.ascii) : option (list Z * option nat * list Ascii.ascii) :=
  match fuel with
  | O => None
  | S fuel =>
    if (8 <=? length gs)%nat then Some (gs, ell, l) else
    let '(acc, off, rest) := scan_hex 0 0 l in
    if (off =? 0)%nat || (4 <? off)%nat then None else
    match rest with
    | [] => Some (acc :: gs, ell, [])
    | c :: rest' =>
      if char_eqb c dot then
        if (match ell with None => negb (length gs =? 6)%nat | Some _ => (6 <? length gs)%nat end)
        then None
        else v ← parse4 l; Some (v `mod` 65536 :: v / 65536 :: gs, ell, [])
      else if negb (char_eqb c colon) then None
      else match rest' with
           | [] => None
           | c2 :: rest2 =>
             if char_eqb c2 colon then
               match ell with
               | Some _ => None
               | None =>
                 match rest2 with
                 | [] => Some (acc :: gs, Some (S (length gs)), [])
                 | _ => parse6_loop fuel (acc :: gs) (Some (S (length gs))) rest2
                 end
               end
             else parse6_loop fuel (acc :: gs) ell rest'
           end
    end
  end.
Definition join_groups (gs : list Z) : Z := foldl (λ v g, v * 65536 + g) 0 gs.
Definition parse6 (l : list Ascii.ascii) : option Z :=
  let start :=
    match l with
    | c1 :: c2 :: l' => if char_eqb c1 colon && char_eqb c2 colon
                        then (Some O, l') else (None, l)
    | _ => (None, l)
    end in
  match start with
  | (Some O, []) => Some 0
  | (ell, l) =>
    '(gs, ell, rest) ← parse6_loop 9 [] ell l;
    match rest with
    | _ :: _ => None
    | [] =>
      let gs := reverse gs in
      match ell with
      | None => if (length gs =? 8)%nat then Some (join_groups gs) else None
      | Some k => if (length gs <? 8)%nat
                  then Some (join_groups (take k gs ++ repeat 0 (8 - length gs) ++ drop k gs))
                  else None
      end
    end
  end.

Definition ParseAddr (s : string) : option Addr :=
  let l := chars s in
  match List.find (λ c, char_eqb c dot || char_eqb c colon || char_eqb c "%"%char) l with
  | None => None
  | Some c =>
    if char_eqb c dot then Addr4 <$> parse4 l
    else if char_eqb c colon then
      match cut_char "%"%char l with
      | Some (_, []) => None
      | Some (a, z) => v ← parse6 a; Some (Addr6 v (text z))
      | None => v ← parse6 l; Some (Addr6 v "")
      end
    else None
  end.

(** The text after the last [/]; [strconv.Atoi] on at most three digits. *)
Definition ParsePrefix (s : string) : option Prefix :=
  match cut_char "/"%char (reverse (chars s)) with
  | None => None
  | Some (bits_rev, addr_rev) =>
    a ← ParseAddr (text (reverse addr_rev));
    if addr.hasZone a || (match a with Addr6 _ z => negb (String.eqb z "") | _ => false end)
    then None else
    let bits := reverse bits_rev in
    match bits with
    | [] => None
    | c :: rest =>
      if negb (match rest with [] => true | _ => in_range "1"%char "9"%char c end) then None
      else n ← parse_digits 0 bits;
           if n <=? addr.BitLen a then Some (prefix.PrefixFrom a n) else None
    end
  end.

(** ** Facts *)

Module netip_facts.
Import addr.

Lemma BitLen_cases a : BitLen a = 0 ∨ BitLen a = 32 ∨ BitLen a = 128.
Proof. destruct a; auto. Qed.

Lemma addr_eq_by_value a b :
  BitLen a = BitLen b → hasZone a = false → hasZone b = false →
  value a = value b → a = b.
Proof.
  destruct a as [|v|v z], b as [|v'|v' z']; simpl; try discriminate; intros _; try congruence.
  intros Hz%negb_false_iff Hz'%negb_false_iff ->.
  apply String.eqb_eq in Hz as ->. by apply String.eqb_eq in Hz' as ->.
Qed.

(** [addr_plus a i]: the result of [i] calls of [Next]. *)
Definition addr_plus (a : Addr) (i : Z) : Addr :=
  if value a + i <? 2 ^ BitLen a then
    match a with
    | AddrInvalid => AddrInvalid
    | Addr4 v => Addr4 (v + i)
    | Addr6 v z => Addr6 (v + i) z
    end
  else AddrInvalid.

Lemma addr_plus_0 a : wf a = true → addr_plus a 0 = a.
Proof.
  unfold addr_plus. destruct a as [|v|v z]; simpl; intros H; [done| |];
    rewrite Z.add_0_r; apply andb_true_iff in H as [_ H]; by rewrite H.
Qed.
Lemma Next_addr_plus a i : 0 <= i → Next (addr_plus a i) = addr_plus a (i + 1).
Proof.
  intros Hi. unfold addr_plus.
  destruct a as [|v|v z]; cbn [value BitLen].
  - by repeat case_match.
  - destruct (Z.ltb_spec (v + i) (2 ^ 32)); cbn [Next]; rewrite Z.add_assoc.
    + destruct (Z.eqb_spec (v + i + 1) (2 ^ 32));
        destruct (Z.ltb_spec (v + i + 1) (2 ^ 32)); (done || lia).
    + by rewrite (proj2 (Z.ltb_ge _ _)) by lia.
  - destruct (Z.ltb_spec (v + i) (2 ^ 128)); cbn [Next]; rewrite Z.add_assoc.
    + destruct (Z.eqb_spec (v + i + 1) (2 ^ 128));
        destruct (Z.ltb_spec (v + i + 1) (2 ^ 128)); (done || lia).
    + by rewrite (proj2 (Z.ltb_ge _ _)) by lia.
Qed.

(** *** Prefixes as intervals of addresses *)

Definition base (p : Prefix) : Z := value (p_addr p).
Definition psize (p : Prefix) : Z := 2 ^ (BitLen (p_addr p) - p_bits p).

(** A masked prefix: what [Masked] of a well-formed prefix yields. *)
Definition masked (p : Prefix) : Prop :=
  prefix.Masked p = p ∧ prefix.wf p = true.

Lemma shiftr_shiftl_same v k : 0 <= k → Z.shiftr (Z.shiftl v k) k = v.
Proof. intros. rewrite Z.shiftr_shiftl_l, Z.sub_diag by lia. apply Z.shiftl_0_r. Qed.

Lemma mask_value_idemp len bits v : bits <= len →
  prefix.mask_value len bits (prefix.mask_value len bits v) = prefix.mask_value len bits v.
Proof. intros. unfold prefix.mask_value. by rewrite shiftr_shiftl_same by lia. Qed.

Lemma mask_value_bounds len bits v :
  0 <= bits <= len → 0 <= v < 2 ^ len → 0 <= prefix.mask_value len bits v <= v.
Proof.
  intros Hb Hv. unfold prefix.mask_value.
  rewrite Z.shiftr_div_pow2, Z.shiftl_mul_pow2 by lia.
  pose proof (Z.pow_pos_nonneg 2 (len - bits)).
  pose proof (Z.mul_div_le v (2 ^ (len - bits))).
  assert (0 <= v / 2 ^ (len - bits)) by (apply Z.div_pos; lia). nia.
Qed.

Lemma wf_bits p : prefix.wf p = true → prefix.IsValid p = true →
  0 <= p_bits p <= BitLen (p_addr p) ∧ addr.IsValid (p_addr p) = true.
Proof.
  unfold prefix.wf. intros H Hv. rewrite Hv in H.
  apply andb_true_iff in H as [_ [?%Z.leb_le ?]%andb_true_iff].
  unfold prefix.IsValid in Hv. apply Z.leb_le in Hv. auto.
Qed.

Lemma Masked_masked p : prefix.wf p = true → masked (prefix.Masked p).
Proof.
  intros Hwf. unfold masked, prefix.Masked.
  destruct (prefix.IsValid p) eqn:Hv; [|done].
  pose proof (wf_bits p Hwf Hv) as [Hb Ha].
  unfold prefix.wf in Hwf. rewrite Hv in Hwf.
  apply andb_true_iff in Hwf as [[Hw Hz]%andb_true_iff _].
  unfold prefix.IsValid in *. cbn [p_bits]. rewrite Hv.
  destruct p as [[|v|v z] b]; cbn in *; [done| |].
  - rewrite mask_value_idemp by lia. split; [done|].
    unfold prefix.wf, prefix.IsValid; cbn. rewrite Hv.
    pose proof (mask_value_bounds 32 b v). apply andb_true_iff in Hw as [??].
    repeat (apply andb_true_iff; split); lia.
  - rewrite mask_value_idemp by lia. split; [done|].
    unfold prefix.wf, prefix.IsValid; cbn. rewrite Hv.
    pose proof (mask_value_bounds 128 b v). apply andb_true_iff in Hw as [??].
    repeat (apply andb_true_iff; split); lia.
Qed.

Lemma masked_base p : masked p → prefix.IsValid p = true →
  base p = base p / psize p * psize p ∧ 0 < psize p.
Proof.
  intros [Hm Hwf] Hv. pose proof (wf_bits p Hwf Hv) as [Hb Ha].
  unfold prefix.Masked in Hm. rewrite Hv in Hm. unfold base, psize.
  destruct p as [a b]; cbn [p_addr p_bits] in *.
  assert (Hk : 0 < 2 ^ (BitLen a - b)) by (apply Z.pow_pos_nonneg; lia).
  split; [|done]. rewrite <-Z.shiftr_div_pow2, <-Z.shiftl_mul_pow2 by lia.
  injection Hm as Hm. apply (f_equal value) in Hm.
  unfold prefix.mask_addr, prefix.mask_value in Hm. by destruct a.
Qed.

Lemma prefix_wf_base p : prefix.wf p = true → prefix.IsValid p = true →
  0 <= base p < 2 ^ BitLen (p_addr p) ∧ hasZone (p_addr p) = false.
Proof.
  intros Hwf Hv. unfold prefix.wf in Hwf.
  apply andb_true_iff in Hwf as [[Hw Hz]%andb_true_iff Hb].
  apply negb_true_iff in Hz. split; [|done].
  unfold base. destruct (p_addr p); simpl in *; lia.
Qed.

(** A masked prefix ends within its family. *)
Lemma masked_end p : masked p → prefix.IsValid p = true →
  base p + psize p <= 2 ^ BitLen (p_addr p).
Proof.
  intros Hm Hv. pose proof Hm as [_ Hwf].
  pose proof (prefix_wf_base p Hwf Hv) as [Hb _].
  pose proof (wf_bits p Hwf Hv) as [Hbits _].
  pose proof (masked_base p Hm Hv) as [Hq Hp].
  assert (2 ^ BitLen (p_addr p) = 2 ^ p_bits p * psize p) as Heq.
  { unfold psize. rewrite <-Z.pow_add_r by lia. f_equal. lia. }
  rewrite Heq in Hb |- *. revert Hq Hb Hp. generalize (psize p), (base p / psize p).
  intros n q -> Hb Hp. assert (q < 2 ^ p_bits p) by nia. nia.
Qed.

(** Membership in a masked prefix is an interval test. *)
Lemma Contains_masked p a : masked p →
  prefix.Contains p a = true ↔
  prefix.IsValid p = true ∧ hasZone a = false ∧ BitLen a = BitLen (p_addr p) ∧
  base p <= value a < base p + psize p.
Proof.
  intros Hm. unfold prefix.Contains. rewrite !andb_true_iff.
  destruct (prefix.IsValid p) eqn:Hv; [|naive_solver].
  pose proof (masked_base p Hm Hv) as [Hq Hpow]. destruct Hm as [_ Hwf].
  pose proof (wf_bits p Hwf Hv) as [Hb Ha].
  assert (Hlen : BitLen (p_addr p) ≠ 0) by (by destruct (p_addr p)).
  rewrite !negb_true_iff, !Z.eqb_neq, !Z.eqb_eq. fold (base p).
  unfold psize in *. split.
  - intros [[[[[_ Hz] _] Hn] Hl] Hs]. rewrite <-Hl in Hs.
    rewrite !Z.shiftr_div_pow2 in Hs by lia.
    set (k := 2 ^ (BitLen (p_addr p) - p_bits p)) in *.
    pose proof (Z.mul_div_le (value a) k). pose proof (Z.mul_succ_div_gt (value a) k).
    repeat split; try done; nia.
  - intros (_ & Hz & Hl & Hr). rewrite Hl.
    repeat split; try done. rewrite !Z.shiftr_div_pow2 by lia.
    set (k := 2 ^ (BitLen (p_addr p) - p_bits p)) in *.
    symmetry. apply (Z.div_unique_pos _ _ _ (value a - base p)); lia.
Qed.

(** The address [i] steps into a masked prefix. *)
Lemma addr_plus_in p i : masked p → prefix.IsValid p = true → 0 <= i < psize p →
  value (addr_plus (p_addr p) i) = base p + i ∧
  BitLen (addr_plus (p_addr p) i) = BitLen (p_addr p) ∧
  hasZone (addr_plus (p_addr p) i) = false.
Proof.
  intros Hm Hv Hi. pose proof (masked_end p Hm Hv) as He. destruct Hm as [_ Hwf].
  pose proof (prefix_wf_base p Hwf Hv) as [Hb Hz].
  unfold addr_plus, base in *. rewrite (proj2 (Z.ltb_lt _ _)) by lia.
  pose proof (wf_bits p Hwf Hv) as [_ Ha]. by destruct (p_addr p).
Qed.
Lemma Contains_plus p i : masked p → prefix.IsValid p = true → 0 <= i →
  prefix.Contains p (addr_plus (p_addr p) i) = (i <? psize p).
Proof.
  intros Hm Hv Hi. apply eq_iff_eq_true. rewrite Contains_masked, Z.ltb_lt by done.
  split.
  - intros (_ & _ & Hl & Hr). unfold addr_plus in *.
    destruct (Z.ltb_spec (value (p_addr p) + i) (2 ^ BitLen (p_addr p))).
    + unfold base in *. destruct (p_addr p); simpl in *; lia.
    + pose proof Hm as [_ Hwf]. pose proof (wf_bits p Hwf Hv) as [_ Ha].
      by destruct (p_addr p).
  - intros Hlt. pose proof (addr_plus_in p i Hm Hv ltac:(lia)) as (-> & -> & ->).
    repeat split; [done..|lia|lia].
Qed.
Lemma masked_first p : masked p → prefix.IsValid p = true →
  p_addr p = addr_plus (p_addr p) 0.
Proof.
  intros [_ Hwf] Hv. symmetry. apply addr_plus_0. unfold prefix.wf in Hwf.
  by apply andb_true_iff in Hwf as [[? _]%andb_true_iff _].
Qed.
Lemma Contains_is_plus p a : masked p → prefix.Contains p a = true →
  ∃ i, 0 <= i < psize p ∧ a = addr_plus (p_addr p) i.
Proof.
  intros Hm Hc. pose proof Hc as (Hv & Hz & Hl & Hr)%Contains_masked; [|done].
  exists (value a - base p). split; [lia|].
  pose proof (addr_plus_in p (value a - base p) Hm Hv ltac:(lia)) as (H1 & H2 & H3).
  apply addr_eq_by_value; [congruence|done|done|lia].
Qed.
Lemma addr_plus_inj p i j : masked p → prefix.IsValid p = true →
  0 <= i < psize p → 0 <= j < psize p →
  addr_plus (p_addr p) i = addr_plus (p_addr p) j → i = j.
Proof.
  intros Hm Hv Hi Hj Heq.
  pose proof (addr_plus_in p i Hm Hv Hi) as (H1 & _).
  pose proof (addr_plus_in p j Hm Hv Hj) as (H2 & _). rewrite Heq in H1. lia.
Qed.

Lemma Masked_IsValid p : prefix.IsValid p = true → prefix.IsValid (prefix.Masked p) = true.
Proof. unfold prefix.Masked. intros H. by rewrite H. Qed.
Lemma Contains_invalid p a : prefix.IsValid p = false → prefix.Contains p a = false.
Proof. unfold prefix.Contains. by intros ->. Qed.
Lemma Contains_addr_valid p a : prefix.Contains p a = true → IsValid a = true.
Proof.
  unfold prefix.Contains. rewrite !andb_true_iff, !negb_true_iff.
  destruct a; simpl; naive_solver.
Qed.
Lemma Contains_BitLen p a : prefix.Contains p a = true → BitLen a = BitLen (p_addr p).
Proof. unfold prefix.Contains. rewrite !andb_true_iff, !Z.eqb_eq. naive_solver. Qed.
Lemma Is6_BitLen a b : BitLen a = BitLen b → Is6 a = Is6 b.
Proof. by destruct a, b. Qed.

(** *** What the parsers return is well formed *)

Lemma parse_octet_bounds l n : parse_octet l = Some n → 0 <= n < 256.
Proof.
  unfold parse_octet. destruct l as [|c l]; [done|]. destruct (_ && _); [done|].
  destruct (parse_digits 0 (c :: l)) as [m|] eqn:E; simpl; [|done].
  destruct (Z.ltb_spec m 256); [|done]. intros [= <-].
  split; [|done]. by apply (parse_digits_nonneg _ _ _ E).
Qed.
Lemma parse4_bounds l v : parse4 l = Some v → 0 <= v < 2 ^ 32.
Proof.
  unfold parse4. destruct (split_char dot l) as [|a [|b [|c [|d [|? ?]]]]]; try done.
  destruct (parse_octet a) as [na|] eqn:Ea; simpl; [|done].
  destruct (parse_octet b) as [nb|] eqn:Eb; simpl; [|done].
  destruct (parse_octet c) as [nc|] eqn:Ec; simpl; [|done].
  destruct (parse_octet d) as [nd|] eqn:Ed; simpl; [|done]. intros [= <-].
  apply parse_octet_bounds in Ea, Eb, Ec, Ed. lia.
Qed.
Lemma hex_val_bounds c d : hex_val c = Some d → 0 <= d < 16.
Proof.
  unfold hex_val, is_digit, in_range.
  change (code "0"%char) with 48. change (code "9"%char) with 57.
  change (code "a"%char) with 97. change (code "f"%char) with 102.
  change (code "A"%char) with 65. change (code "F"%char) with 70.
  repeat case_match; intros; simplify_eq; lia.
Qed.
Lemma scan_hex_bounds l acc off acc' off' rest :
  scan_hex acc off l = (acc', off', rest) → 0 <= acc < 16 ^ Z.of_nat off →
  0 <= acc' < 16 ^ Z.of_nat off'.
Proof.
  revert acc off; induction l as [|c l IH]; intros acc off; simpl; [intros [= <- <- _]; done|].
  destruct (hex_val c) as [d|] eqn:Ed; [|intros [= <- <- _]; done].
  intros H Ha. apply hex_val_bounds in Ed. apply (IH _ _ H).
  rewrite Nat2Z.inj_succ, Z.pow_succ_r by lia. lia.
Qed.
Definition group_ok (g : Z) : Prop := 0 <= g < 65536.
Lemma parse6_loop_groups fuel gs ell l gs' ell' rest :
  parse6_loop fuel gs ell l = Some (gs', ell', rest) → Forall group_ok gs → Forall group_ok gs'.
Proof.
  revert gs ell l; induction fuel as [|fuel IH]; intros gs ell l; cbn [parse6_loop]; [done|].
  destruct (8 <=? length gs)%nat; [by intros [= <- _ _]|].
  destruct (scan_hex 0 0 l) as [[acc off] rst] eqn:Es.
  apply scan_hex_bounds in Es; [|simpl; lia].
  destruct ((off =? 0)%nat || (4 <? off)%nat) eqn:Eo; [done|].
  assert (Hg : group_ok acc).
  { unfold group_ok. apply orb_false_iff in Eo as [_ Eo%Nat.ltb_ge].
    assert (16 ^ Z.of_nat off <= 65536) by (change 65536 with (16 ^ 4); apply Z.pow_le_mono_r; lia).
    lia. }
  destruct rst as [|c rst]; [intros [= <- _ _] ?; by constructor|].
  destruct (char_eqb c dot).
  { destruct (match ell with None => _ | Some _ => _ end); [done|].
    destruct (parse4 l) as [v|] eqn:E4; simpl; [|done]. apply parse4_bounds in E4.
    intros [= <- _ _] ?. apply Forall_cons; split; [|apply Forall_cons; split; [|done]];
      unfold group_ok; Z.to_euclidean_division_equations; lia. }
  destruct (negb _); [done|]. destruct rst as [|c2 rst2]; [done|].
  destruct (char_eqb c2 colon).
  - destruct ell; [done|]. destruct rst2; [intros [= <- _ _] ?; by constructor|].
    intros H ?. eapply IH; [exact H|]. by constructor.
  - intros H ?. eapply IH; [exact H|]. by constructor.
Qed.
Lemma join_groups_bounds gs :
  Forall group_ok gs → 0 <= join_groups gs < 65536 ^ Z.of_nat (length gs).
Proof.
  unfold join_groups. induction gs as [|g gs IH] using rev_ind; intros H; [simpl; lia|].
  apply Forall_app in H as [H [Hg _]%Forall_cons_1]. specialize (IH H).
  rewrite foldl_app, length_app, Nat2Z.inj_add, Z.pow_add_r by lia. simpl.
  unfold group_ok in Hg. change (Z.pow_pos 65536 1) with 65536. nia.
Qed.
Lemma parse6_bounds l v : parse6 l = Some v → 0 <= v < 2 ^ 128.
Proof.
  unfold parse6.
  set (start := match l with c1 :: c2 :: l' => _ | _ => (None, l) end).
  assert (∀ (ell : option nat) (l : list Ascii.ascii), ('(gs, ell, rest) ← parse6_loop 9 [] ell l;
    match rest with
    | _ :: _ => None
    | [] => match ell with
            | None => if (length (reverse gs) =? 8)%nat then Some (join_groups (reverse gs)) else None
            | Some k => if (length (reverse gs) <? 8)%nat
                then Some (join_groups (take k (reverse gs) ++ repeat 0 (8 - length (reverse gs)) ++
                             drop k (reverse gs))) else None
            end
    end) = Some v → 0 <= v < 2 ^ 128) as Hloop.
  { clear l start. intros ell l. destruct (parse6_loop 9 [] ell l) as [[[gs ell'] rest]|] eqn:E; [|done].
    apply parse6_loop_groups in E; [|constructor]. simpl.
    assert (Hr : Forall group_ok (reverse gs)) by (by rewrite reverse_Permutation).
    revert Hr. generalize (reverse gs). intros gr Hr.
    destruct rest; [|done]. destruct ell' as [k|].
    - destruct (Nat.ltb_spec (length gr) 8) as [Hl|]; [|done]. intros [= <-].
      set (full := take k gr ++ _).
      assert (length full = 8%nat) as Hlen.
      { unfold full. rewrite !length_app, repeat_length, length_take, length_drop. lia. }
      replace (2 ^ 128) with (65536 ^ Z.of_nat (length full)) by (rewrite Hlen; done).
      apply join_groups_bounds. unfold full. rewrite !Forall_app. split_and!.
      + by apply Forall_take.
      + apply Forall_forall. intros x Hx%list_elem_of_In%repeat_spec. subst. unfold group_ok. lia.
      + by apply Forall_drop.
    - destruct (Nat.eqb_spec (length gr) 8) as [Hl|]; [|done]. intros [= <-].
      replace (2 ^ 128) with (65536 ^ Z.of_nat (length gr)) by (rewrite Hl; done).
      by apply join_groups_bounds. }
  destruct start as [[[|k]|] l']; [destruct l'; [by intros [= <-]|]|..]; intros H; eapply Hloop; exact H.
Qed.

Lemma ParseAddr_wf s a : ParseAddr s = Some a → wf a = true ∧ IsValid a = true.
Proof.
  unfold ParseAddr. destruct (List.find _ _) as [c|]; [|done].
  destruct (char_eqb c dot).
  { destruct (parse4 _) as [v|] eqn:E; [|done]. intros [= <-]. apply parse4_bounds in E.
    split; [|done]. simpl. lia. }
  destruct (char_eqb c colon); [|done].
  destruct (cut_char _ _) as [[b z]|].
  - destruct z; [done|]. destruct (parse6 b) as [v|] eqn:E; [|done]. intros [= <-].
    apply parse6_bounds in E. split; [|done]. simpl. lia.
  - destruct (parse6 _) as [v|] eqn:E; [|done]. intros [= <-].
    apply parse6_bounds in E. split; [|done]. simpl. lia.
Qed.
Lemma ParsePrefix_wf s p : ParsePrefix s = Some p → prefix.wf p = true ∧ prefix.IsValid p = true.
Proof.
  unfold ParsePrefix. destruct (cut_char _ _) as [[b r]|]; [|done].
  destruct (ParseAddr _) as [a|] eqn:Ea; simpl; [|done]. apply ParseAddr_wf in Ea as [Hw Hv].
  destruct (_ || _); [done|]. destruct (reverse b) as [|c rest]; [done|].
  destruct (negb _); [done|]. destruct (parse_digits 0 (c :: rest)) as [n|] eqn:En; simpl; [|done].
  apply parse_digits_nonneg in En; [|lia].
  destruct (Z.leb_spec n (BitLen a)) as [Hn|]; [|done]. intros [= <-].
  unfold prefix.PrefixFrom. rewrite Hv, (proj2 (Z.leb_le 0 n)), (proj2 (Z.leb_le n (BitLen a))) by lia.
  unfold prefix.wf, prefix.IsValid. cbn [p_addr p_bits andb].
  rewrite (proj2 (Z.leb_le 0 n)) by lia.
  assert (BitLen (withoutZone a) = BitLen a) as -> by (by destruct a).
  rewrite (proj2 (Z.leb_le n (BitLen a))) by lia.
  split; [|done]. destruct a; done || (simpl in *; by rewrite Hw).
Qed.

(** *** Overlap *)

(** Masking does not change which addresses a prefix contains. *)
Lemma Contains_Masked p a :
  prefix.wf p = true → prefix.Contains (prefix.Masked p) a = prefix.Contains p a.
Proof.
  intros Hwf. unfold prefix.Masked. destruct (prefix.IsValid p) eqn:Hv.
  2: by rewrite (Contains_invalid p), Contains_invalid.
  pose proof (wf_bits p Hwf Hv) as [Hb Ha].
  unfold prefix.Contains, prefix.IsValid. cbn [p_addr p_bits].
  assert (BitLen (withoutZone (prefix.mask_addr (p_addr p) (p_bits p))) = BitLen (p_addr p)) as Hl
    by (by destruct (p_addr p)).
  rewrite Hl.
  destruct (Z.eqb_spec (BitLen (p_addr p)) (BitLen a)) as [He|He]; [|by rewrite !andb_false_r].
  assert (Z.shiftr (value (withoutZone (prefix.mask_addr (p_addr p) (p_bits p)))) (BitLen a - p_bits p) =
          Z.shiftr (value (p_addr p)) (BitLen a - p_bits p)) as ->; [|done].
  rewrite <-He. unfold prefix.mask_addr, prefix.mask_value. destruct (p_addr p); [done|..];
    cbn [value withoutZone BitLen] in *; by rewrite shiftr_shiftl_same by lia.
Qed.

(** A masked prefix contains its own address. *)
Lemma masked_contains_addr p : masked p → prefix.IsValid p = true → prefix.Contains p (p_addr p) = true.
Proof.
  intros Hm Hv. apply Contains_masked; [done|]. pose proof Hm as [_ Hwf].
  pose proof (masked_base p Hm Hv) as [_ Hs]. pose proof (prefix_wf_base p Hwf Hv) as [_ Hz].
  unfold base in *. split_and!; [done|done|done|lia|lia].
Qed.

Lemma aligned_nested x qa sa qb sb k :
  0 < sb → 0 < k → sa = k * sb → qa * sa <= x < qa * sa + sa → qb * sb <= x < qb * sb + sb →
  qa * sa <= qb * sb < qa * sa + sa.
Proof.
  intros Hsb Hk -> Ha Hb. assert (qa * k <= qb) by nia. nia.
Qed.
Lemma overlap_nested a b x :
  masked a → masked b → prefix.Contains a x = true → prefix.Contains b x = true →
  p_bits a <= p_bits b → prefix.Contains a (p_addr b) = true.
Proof.
  intros Ma Mb Ca Cb Hle.
  apply Contains_masked in Ca as (Va & _ & La & Ra); [|done].
  apply Contains_masked in Cb as (Vb & _ & Lb & Rb); [|done].
  pose proof (masked_base a Ma Va) as [Ba Pa]. pose proof (masked_base b Mb Vb) as [Bb Pb].
  pose proof (prefix_wf_base b (proj2 Mb) Vb) as [_ Zb].
  pose proof (wf_bits b (proj2 Mb) Vb) as [Hbb _]. pose proof (wf_bits a (proj2 Ma) Va) as [Hba _].
  assert (psize a = 2 ^ (p_bits b - p_bits a) * psize b) as Hs
    by (unfold psize; rewrite <-Z.pow_add_r by lia; f_equal; rewrite <-La, <-Lb; lia).
  assert (0 < 2 ^ (p_bits b - p_bits a)) as Hk by (apply Z.pow_pos_nonneg; lia).
  assert (base a <= base b < base a + psize a).
  { rewrite Ba in Ra |- *. rewrite Bb in Rb |- *. by eapply (aligned_nested (value x)). }
  apply Contains_masked; [done|]. unfold base in *. split_and!; [done|done|congruence|lia|lia].
Qed.

Lemma masked_overlap a b :
  masked a → masked b → prefix.IsValid a = true → prefix.IsValid b = true →
  prefix.Contains a (p_addr b) || prefix.Contains b (p_addr a) = true ↔
  ∃ x, prefix.Contains a x = true ∧ prefix.Contains b x = true.
Proof.
  intros Ma Mb Va Vb. rewrite orb_true_iff. split.
  - intros [H|H]; [exists (p_addr b)|exists (p_addr a)]; split; try done; by apply masked_contains_addr.
  - intros (x & Ca & Cb). destruct (Z.le_ge_cases (p_bits a) (p_bits b)).
    + left. by apply (overlap_nested a b x).
    + right. by apply (overlap_nested b a x).
Qed.

(** *** Ordering *)

Definition zone (a : Addr) : string := match a with Addr6 _ z => z | _ => "" end.
Lemma addr_eq_parts a b :
  BitLen a = BitLen b → value a = value b → zone a = zone b → a = b.
Proof. destruct a, b; simpl; congruence. Qed.
Lemma str_compare_lt a b : str_lt a b = match String.compare a b with Lt => true | _ => false end.
Proof.
  unfold str_lt, String.leb. rewrite String.compare_antisym.
  by destruct (String.compare a b).
Qed.
Lemma less_parts a b :
  less a b = less_by BitLen Z.ltb (less_by value Z.ltb (less_by zone str_lt less_end)) a b.
Proof.
  unfold less, Compare, less_by, less_end.
  destruct (Z.compare_spec (BitLen a) (BitLen b)) as [Hl|Hl|Hl].
  2: rewrite decide_False by lia; symmetry; by apply Z.ltb_lt.
  2: rewrite decide_False by lia; symmetry; apply Z.ltb_ge; lia.
  rewrite decide_True by done.
  destruct (Z.compare_spec (value a) (value b)) as [Hv|Hv|Hv].
  2: rewrite decide_False by lia; symmetry; by apply Z.ltb_lt.
  2: rewrite decide_False by lia; symmetry; apply Z.ltb_ge; lia.
  rewrite decide_True by done. rewrite str_compare_lt.
  destruct a as [|v|v z], b as [|w|w y]; simpl in *; try done.
  case_decide as Hz; [|done]. subst. pose proof (String.compare_antisym y y).
  by destruct (String.compare y y).
Qed.
#[export] Instance addr_less_total : StrictTotal less.
Proof.
  assert (LessOrder (less_by BitLen Z.ltb (less_by value Z.ltb (less_by zone str_lt less_end)))) as [H1 H2]
    by apply _.
  split; [split|].
  - intros x y. rewrite !less_parts. apply H1.
  - intros x y z. rewrite !less_parts. apply H2.
  - intros x y. rewrite !less_parts. intros Hxy Hyx.
    apply less_by_tie in Hxy as (? & Hxy & Hyx'); [|apply _|done].
    apply less_by_tie in Hxy as (? & Hxy & Hyx''); [|apply _|done].
    apply less_by_tie in Hxy as (? & _); [|apply _|done]. by apply addr_eq_parts.
Qed.

(** Prefixes by address, then by length. *)
Definition prefix_less : Prefix → Prefix → bool :=
  less_by p_addr less (less_by p_bits Z.ltb less_end).
#[export] Instance prefix_less_order : LessOrder prefix_less.
Proof. unfold prefix_less. apply _. Qed.
Lemma prefix_less_tie p q : prefix_less p q = false → prefix_less q p = false → p = q.
Proof.
  intros H1 H2. unfold prefix_less in *.
  apply less_by_tie in H1 as (? & H1 & H1'); [|apply _|done].
  apply less_by_tie in H1 as (? & _); [|apply _|done]. destruct p, q; simpl in *; congruence.
Qed.
#[export] Hint Resolve Masked_masked Masked_IsValid masked_contains_addr : tailmix.
End netip_facts.
