(* ===== verification/NetipText.v ===== *)
(** * Addresses and prefixes read back what they print

    State files, manifests and the API carry addresses and prefixes as text, and
    the daemon normalizes a pool by printing it and parses it again later.  Here
    the parsers of [Netip] are shown to invert its printers. *)

From S2P Require Import Prelude GoStrings Netip.
Import netip_facts.
Local Open Scope Z_scope.

(** ** IPv4 *)

(** Every value below a bound, decided by evaluation. *)
Fixpoint all_from (n : nat) (z : Z) (f : Z → bool) : bool :=
  match n with O => true | S n => f z && all_from n (z + 1) f end.
Lemma below_forall (f : Z → bool) n z : all_from n 0 f = true → 0 <= z < Z.of_nat n → f z = true.
Proof.
  assert (∀ n k, all_from n k f = true → k <= z < k + Z.of_nat n → f z = true) as Hgen; [|by apply Hgen].
  clear n. induction n as [|n IH]; intros k; cbn [all_from]; [lia|].
  intros [Hk Hn]%andb_true_iff Hz. destruct (decide (z = k)) as [->|]; [done|]. apply (IH (k + 1)); [done|lia].
Qed.
Lemma parse_octet_FormatUint n : 0 <= n < 256 → parse_octet (chars (FormatUint n)) = Some n.
Proof.
  intros Hn.
  assert (match parse_octet (chars (FormatUint n)) with Some m => m =? n | None => false end = true) as H.
  { apply (below_forall (λ n, match parse_octet (chars (FormatUint n)) with Some m => m =? n | None => false end) 256);
      [by vm_compute|lia]. }
  destruct (parse_octet _); [|done]. f_equal. lia.
Qed.
Lemma byte_at_bounds v k : 0 <= byte_at v k < 256.
Proof. unfold byte_at. apply Z.mod_pos_bound. lia. Qed.

Lemma chars_string4 v : chars (string4 v) =
  chars (FormatUint (byte_at v 3)) ++ dot :: chars (FormatUint (byte_at v 2)) ++ dot ::
  chars (FormatUint (byte_at v 1)) ++ dot :: chars (FormatUint (byte_at v 0)).
Proof. unfold string4. by rewrite !chars_app. Qed.
Lemma join_bytes v : 0 <= v < 2 ^ 32 →
  ((byte_at v 3 * 256 + byte_at v 2) * 256 + byte_at v 1) * 256 + byte_at v 0 = v.
Proof.
  intros Hv. unfold byte_at. rewrite !Z.shiftr_div_pow2 by lia.
  change (2 ^ (8 * 3)) with 16777216. change (2 ^ (8 * 2)) with 65536. change (2 ^ (8 * 1)) with 256.
  change (2 ^ (8 * 0)) with 1. change (2 ^ 32) with 4294967296 in Hv.
  Z.to_euclidean_division_equations; lia.
Qed.
Lemma dot_FormatUint n : dot ∉ chars (FormatUint n).
Proof. by apply FormatUint_no. Qed.
Lemma parse4_string4 v : 0 <= v < 2 ^ 32 → parse4 (chars (string4 v)) = Some v.
Proof.
  intros Hv. unfold parse4. rewrite chars_string4, !split_char_app by apply dot_FormatUint.
  rewrite split_char_none by apply dot_FormatUint.
  rewrite !parse_octet_FormatUint by apply byte_at_bounds. cbn [mbind option_bind].
  by rewrite join_bytes.
Qed.

(** ** The groups of an IPv6 address *)

Lemma hex_val_char d : 0 <= d < 16 → hex_val (hex_char d) = Some d.
Proof.
  intros Hd.
  assert (match hex_val (hex_char d) with Some v => v =? d | None => false end = true) as H.
  { apply (below_forall (λ d, match hex_val (hex_char d) with Some v => v =? d | None => false end) 16);
      [by vm_compute|lia]. }
  destruct (hex_val _); [|done]. f_equal. lia.
Qed.
Lemma format_hex_app fuel n acc : format_hex fuel n acc = format_hex fuel n [] ++ acc.
Proof.
  revert n acc; induction fuel as [|fuel IH]; intros n acc; simpl; [done|].
  destruct (n / 16 =? 0); [done|]. rewrite (IH _ [_]), (IH _ (_ :: acc)). by rewrite <-app_assoc.
Qed.
Definition all_hex (l : list Ascii.ascii) : Prop := Forall (λ c, is_Some (hex_val c)) l.
Lemma scan_hex_snoc acc off l v off' d : scan_hex acc off l = (v, off', []) → 0 <= d < 16 →
  scan_hex acc off (l ++ [hex_char d]) = (v * 16 + d, S off', []).
Proof.
  intros Hs Hd. revert acc off Hs; induction l as [|c l IH]; simpl; intros acc off.
  - intros [= -> ->]. by rewrite hex_val_char.
  - by destruct (hex_val c); [apply IH|].
Qed.
Lemma format_hex_digits fuel n : (0 < fuel)%nat → 0 <= n < 16 ^ Z.of_nat fuel →
  ∃ off, scan_hex 0 0 (format_hex fuel n []) = (n, off, []) ∧ (0 < off <= fuel)%nat ∧ all_hex (format_hex fuel n []).
Proof.
  revert n; induction fuel as [|fuel IH]; intros n Hf Hn; [lia|]. simpl.
  assert (Hd : 0 <= n `mod` 16 < 16) by (apply Z.mod_pos_bound; lia).
  assert (Hc : is_Some (hex_val (hex_char (n `mod` 16)))) by (by rewrite hex_val_char).
  destruct (Z.eqb_spec (n / 16) 0) as [Hz|Hz].
  - exists 1%nat. simpl. rewrite hex_val_char by done.
    split_and!; [|lia|lia|by constructor]. f_equal. f_equal. Z.to_euclidean_division_equations; lia.
  - destruct fuel as [|fuel].
    { exfalso. change (16 ^ Z.of_nat 1) with 16 in Hn. Z.to_euclidean_division_equations; lia. }
    destruct (IH (n / 16) ltac:(lia)) as (off & Hs & Hoff & Hh).
    { rewrite Nat2Z.inj_succ, Z.pow_succ_r in Hn by lia.
      split; [apply Z.div_pos; lia|apply Z.div_lt_upper_bound; lia]. }
    exists (S off). rewrite format_hex_app. split_and!; [|lia|lia|apply Forall_app; split; [done|by constructor]].
    rewrite (scan_hex_snoc _ _ _ _ _ _ Hs Hd). f_equal. f_equal. Z.to_euclidean_division_equations; lia.
Qed.
Lemma format_hex_scan g : group_ok g →
  ∃ off, scan_hex 0 0 (format_hex 4 g []) = (g, off, []) ∧ (0 < off <= 4)%nat ∧ all_hex (format_hex 4 g []).
Proof. intros Hg. apply format_hex_digits; [lia|]. exact Hg. Qed.
(** A character that ends a group. *)
Definition ends (l : list Ascii.ascii) : Prop := match l with [] => True | c :: _ => hex_val c = None end.
Lemma scan_hex_app acc off l rest v off' : scan_hex acc off l = (v, off', []) → ends rest →
  scan_hex acc off (l ++ rest) = (v, off', rest).
Proof.
  revert acc off. induction l as [|c l IH]; simpl; intros acc off.
  - intros [= -> ->]. destruct rest as [|c rest]; simpl; [done|]. by intros ->.
  - destruct (hex_val c); [by apply IH|]. by intros.
Qed.
Lemma scan_group g rest : group_ok g → ends rest →
  ∃ off, scan_hex 0 0 (format_hex 4 g [] ++ rest) = (g, off, rest) ∧ (0 < off <= 4)%nat.
Proof.
  intros (off & Hs & Hoff & _)%format_hex_scan Hr. exists off. split; [|done]. by apply scan_hex_app.
Qed.

(** Groups joined by colons, as printed. *)
Fixpoint joined (gs : list Z) : list Ascii.ascii :=
  match gs with
  | [] => []
  | [g] => format_hex 4 g []
  | g :: gs => format_hex 4 g [] ++ colon :: joined gs
  end.
Lemma joined_cons g gs : gs ≠ [] → joined (g :: gs) = format_hex 4 g [] ++ colon :: joined gs.
Proof. by destruct gs. Qed.
Lemma joined_hex gs c : Forall group_ok gs → c ∈ joined gs → c = colon ∨ is_Some (hex_val c).
Proof.
  induction gs as [|g gs IH]; [by intros _ ?%elem_of_nil|]. intros [Hg Hgs]%Forall_cons_1.
  destruct (format_hex_scan g Hg) as (_ & _ & _ & Hh). unfold all_hex in Hh. rewrite Forall_forall in Hh.
  destruct gs as [|g' gs]; [right; auto|]. rewrite joined_cons by done.
  intros [?|[->|?]%elem_of_cons]%elem_of_app; auto.
Qed.
Lemma format_hex_head g : group_ok g → ∃ c l, format_hex 4 g [] = c :: l ∧ is_Some (hex_val c).
Proof.
  intros (off & Hs & Hoff & Hh)%format_hex_scan. destruct (format_hex 4 g []) as [|c l].
  - simpl in Hs. injection Hs as <- <-. lia.
  - apply Forall_cons_1 in Hh as [? _]. eauto.
Qed.
Lemma joined_head g gs : Forall group_ok (g :: gs) → ∃ c l, joined (g :: gs) = c :: l ∧ is_Some (hex_val c).
Proof.
  intros [Hg _]%Forall_cons_1. destruct (format_hex_head g Hg) as (c & l & E & Hc).
  destruct gs; [by exists c, l|]. rewrite joined_cons, E by done. simpl. eauto.
Qed.

(** ** Printing around the compressed run *)

Lemma groups_text_skip i run k l : groups_text i run k l = groups_text (i + k) run 0 (drop k l).
Proof.
  revert i l; induction k as [|k IH]; intros i l; [by rewrite Nat.add_0_r|].
  destruct l as [|g l]; [by destruct k|]. simpl. rewrite IH. by rewrite Nat.add_succ_r.
Qed.
Lemma groups_text_after i run l : (run.1 <= run.2)%nat → (run.2 < i)%nat →
  groups_text i run 0 l = match l with [] => [] | _ => colon :: joined l end.
Proof.
  intros Hrun. revert i; induction l as [|g l IH]; intros i Hi; [done|]. cbn [groups_text].
  rewrite (proj2 (Nat.eqb_neq i run.1)), (proj2 (Nat.eqb_neq i run.2)), (proj2 (Nat.ltb_lt 0 i)) by lia. simpl.
  rewrite IH by lia. by destruct l; rewrite ?app_nil_r.
Qed.
Lemma groups_text_end i run l : (run.1 < run.2)%nat → i = run.2 → groups_text i run 0 l = joined l.
Proof.
  intros Hrun ->. destruct l as [|g l]; [done|]. cbn [groups_text].
  rewrite (proj2 (Nat.eqb_neq run.2 run.1)), Nat.eqb_refl, (proj2 (Nat.ltb_lt run.1 run.2)) by lia. simpl.
  rewrite andb_false_r. simpl. rewrite groups_text_after by lia. by destruct l; rewrite ?app_nil_r.
Qed.
Lemma groups_text_run i run l : (run.1 < run.2)%nat → (i <= run.1)%nat → (run.1 - i < length l)%nat →
  groups_text i run 0 l =
    (if ((0 <? i) && (i <? run.1))%nat then [colon] else []) ++
    joined (take (run.1 - i) l) ++ colon :: colon :: joined (drop (run.2 - i) l).
Proof.
  intros Hrun. revert i; induction l as [|g l IH]; intros i Hi Hl; simpl in Hl; [lia|]. cbn [groups_text].
  rewrite (proj2 (Nat.ltb_lt run.1 run.2)), !andb_true_r by lia.
  destruct (Nat.eqb_spec i run.1) as [->|Hne].
  - rewrite Nat.sub_diag, Nat.ltb_irrefl, andb_false_r. simpl. rewrite groups_text_skip.
    rewrite groups_text_end by lia. by replace (run.2 - run.1)%nat with (S (run.2 - run.1 - 1)) at 2 by lia.
  - rewrite (proj2 (Nat.eqb_neq i run.2)) by lia. rewrite (proj2 (Nat.ltb_lt i run.1)), !andb_true_r by lia.
    rewrite (IH (S i)) by lia. replace (run.1 - i)%nat with (S (run.1 - S i)) by lia.
    replace (run.2 - i)%nat with (S (run.2 - S i)) by lia. cbn [take drop]. f_equal.
    destruct (Nat.ltb_spec (S i) run.1) as [Hlt|Hge]; cbn [andb Nat.ltb Nat.leb].
    + rewrite joined_cons, <-app_assoc; [done|]. destruct l; [simpl in Hl; lia|].
      by replace (run.1 - S i)%nat with (S (run.1 - S i - 1)) by lia.
    + replace (run.1 - S i)%nat with 0%nat by lia. done.
Qed.
Lemma groups_text_plain i l : groups_text i (0, 0)%nat 0 l =
  match l with [] => [] | _ => (if (0 <? i)%nat then [colon] else []) ++ joined l end.
Proof.
  revert i; induction l as [|g l IH]; intros i; [done|]. cbn [groups_text fst snd].
  rewrite !andb_false_r, andb_true_r. f_equal. rewrite (IH (S i)).
  by destruct l; rewrite ?app_nil_r.
Qed.

(** The run that is compressed holds only zero groups. *)
Definition zeros_in (gs : list Z) (run : nat * nat) : Prop :=
  (run = (0, 0) ∨ run.1 < run.2 <= length gs)%nat ∧ ∀ k, (run.1 <= k < run.2)%nat → gs !! k = Some 0.
Lemma zero_run_spec l k : (k < zero_run l)%nat → l !! k = Some 0.
Proof.
  revert k; induction l as [|g l IH]; simpl; [lia|]. intros k. destruct g; [|simpl; lia|simpl; lia].
  destruct k; [done|]. simpl. intros. apply IH. lia.
Qed.
Lemma zero_run_le l : (zero_run l <= length l)%nat.
Proof. induction l as [|[] l IH]; simpl; lia. Qed.
Lemma longest_run_zeros pre l best : zeros_in (pre ++ l) best →
  zeros_in (pre ++ l) (longest_run (length pre) l best).
Proof.
  revert pre best; induction l as [|g l IH]; intros pre best Hb; [done|]. cbn [longest_run].
  replace (pre ++ g :: l) with ((pre ++ [g]) ++ l) in * by by rewrite <-app_assoc.
  replace (S (length pre)) with (length (pre ++ [g])) by (rewrite length_app; simpl; lia).
  apply IH. destruct (_ && _) eqn:E; [|done]. apply andb_true_iff in E as [Hn%Nat.leb_le _].
  pose proof (zero_run_le (g :: l)) as Hle. split; cbn [fst snd].
  - right. rewrite !length_app. cbn [length] in *. lia.
  - intros k Hk. rewrite <-app_assoc. rewrite lookup_app_r by lia. apply (zero_run_spec (g :: l)). lia.
Qed.

(** ** Parsing what was printed *)

Lemma hex_not_special c : is_Some (hex_val c) → c ≠ colon ∧ c ≠ dot ∧ c ≠ "%"%char ∧ c ≠ "/"%char.
Proof. intros [d Hd]. by split_and!; intros ->; vm_compute in Hd. Qed.

Lemma loop_group g fuel acc ell c l : group_ok g → (length acc < 8)%nat → char_eqb c colon = false →
  parse6_loop (S fuel) acc ell (format_hex 4 g [] ++ colon :: c :: l) = parse6_loop fuel (g :: acc) ell (c :: l).
Proof.
  intros Hg Hlen Hc. cbn [parse6_loop]. rewrite (proj2 (Nat.leb_gt 8 (length acc))) by lia.
  destruct (scan_group g (colon :: c :: l) Hg eq_refl) as (off & -> & Hoff).
  rewrite (proj2 (Nat.eqb_neq off 0)), (proj2 (Nat.ltb_ge 4 off)) by lia. cbn [orb].
  change (char_eqb colon dot) with false. change (char_eqb colon colon) with true. cbn [negb]. by rewrite Hc.
Qed.
Lemma loop_groups gs g fuel acc ell : Forall group_ok (g :: gs) → (length acc + length (g :: gs) <= 8)%nat →
  (length (g :: gs) <= fuel)%nat →
  parse6_loop fuel acc ell (joined (g :: gs)) = Some (reverse (g :: gs) ++ acc, ell, []).
Proof.
  revert g fuel acc. induction gs as [|g' gs IH]; intros g fuel acc Hok Hlen Hf; destruct fuel as [|fuel];
    cbn [length] in *; try lia; pose proof Hok as [Hg Hgs]%Forall_cons_1.
  - cbn [parse6_loop]. rewrite (proj2 (Nat.leb_gt 8 (length acc))) by lia.
    destruct (scan_group g [] Hg I) as (off & Hs & Hoff). rewrite app_nil_r in Hs. cbn [joined]. rewrite Hs.
    rewrite (proj2 (Nat.eqb_neq off 0)), (proj2 (Nat.ltb_ge 4 off)) by lia. done.
  - rewrite joined_cons by done. specialize (IH g' fuel (g :: acc) Hgs ltac:(cbn [length]; lia) ltac:(lia)).
    destruct (joined_head g' gs Hgs) as (c & l & E & Hc). rewrite E in IH |- *.
    rewrite loop_group by (done || lia || by apply char_eqb_neq, hex_not_special). rewrite IH. by rewrite (reverse_cons (g' :: gs) g), <-app_assoc.
Qed.

(** The groups before and after an ellipsis. *)
Lemma loop_ellipsis gs g fuel acc tail : Forall group_ok (g :: gs) → Forall group_ok tail →
  (length acc + length (g :: gs) + length tail <= 7)%nat → (length (g :: gs) + length tail <= fuel)%nat →
  parse6_loop fuel acc None (joined (g :: gs) ++ colon :: colon :: joined tail) =
    Some (reverse tail ++ reverse (g :: gs) ++ acc, Some (length acc + length (g :: gs))%nat, []).
Proof.
  intros Hok Htail. revert g fuel acc Hok. induction gs as [|g' gs IH]; intros g fuel acc Hok Hlen Hf; destruct fuel as [|fuel];
    cbn [length] in *; try lia; pose proof Hok as [Hg Hgs]%Forall_cons_1.
  - cbn [joined parse6_loop]. rewrite (proj2 (Nat.leb_gt 8 (length acc))) by lia.
    destruct (scan_group g (colon :: colon :: joined tail) Hg eq_refl) as (off & -> & Hoff).
    rewrite (proj2 (Nat.eqb_neq off 0)), (proj2 (Nat.ltb_ge 4 off)) by lia. cbn [orb].
    change (char_eqb colon dot) with false. change (char_eqb colon colon) with true. cbn [negb].
    rewrite Nat.add_1_r. destruct tail as [|t tail]; [done|].
    destruct (joined_head t tail Htail) as (c & l & E & _). rewrite E. cbv iota. rewrite <-E.
    rewrite loop_groups by (done || cbn [length] in *; lia). done.
  - rewrite joined_cons by done. rewrite <-app_assoc. cbn [app].
    specialize (IH g' fuel (g :: acc) Hgs ltac:(cbn [length] in *; lia) ltac:(lia)).
    destruct (joined_head g' gs Hgs) as (c & l & E & Hc). rewrite E in IH |- *. cbn [app] in IH |- *.
    rewrite loop_group by (done || lia || by apply char_eqb_neq, hex_not_special).
    rewrite IH. rewrite (reverse_cons (g' :: gs) g), <-app_assoc. do 3 f_equal. f_equal. cbn [length]. lia.
Qed.

Lemma groups_ok v : Forall group_ok (groups v).
Proof.
  unfold groups. apply Forall_forall. intros g (k & -> & _)%list_elem_of_fmap. unfold group_ok.
  apply Z.mod_pos_bound. lia.
Qed.
Lemma join_groups_v v : 0 <= v < 2 ^ 128 → join_groups (groups v) = v.
Proof.
  intros Hv.
  assert (Hstep : ∀ k, 0 <= k → Z.shiftr v k = 65536 * Z.shiftr v (k + 16) + Z.shiftr v k `mod` 65536).
  { intros k Hk. rewrite <-Z.shiftr_shiftr by lia. rewrite (Z.shiftr_div_pow2 (Z.shiftr v k) 16) by lia.
    apply Z.div_mod. lia. }
  assert (Hlast : Z.shiftr v 128 = 0) by (rewrite Z.shiftr_div_pow2 by lia; apply Z.div_small; lia).
  pose proof (Hstep 0 ltac:(lia)) as H0. rewrite Z.shiftr_0_r in H0.
  pose proof (Hstep 16 ltac:(lia)) as H1. pose proof (Hstep 32 ltac:(lia)) as H2. pose proof (Hstep 48 ltac:(lia)) as H3.
  pose proof (Hstep 64 ltac:(lia)) as H4. pose proof (Hstep 80 ltac:(lia)) as H5. pose proof (Hstep 96 ltac:(lia)) as H6.
  pose proof (Hstep 112 ltac:(lia)) as H7.
  unfold join_groups, groups. cbn [seq fmap list_fmap foldl].
  change (16 * (7 - Z.of_nat 0)) with 112. change (16 * (7 - Z.of_nat 1)) with 96. change (16 * (7 - Z.of_nat 2)) with 80.
  change (16 * (7 - Z.of_nat 3)) with 64. change (16 * (7 - Z.of_nat 4)) with 48. change (16 * (7 - Z.of_nat 5)) with 32.
  change (16 * (7 - Z.of_nat 6)) with 16. change (16 * (7 - Z.of_nat 7)) with 0. rewrite Z.shiftr_0_r.
  change (0 + 16) with 16 in *. change (16 + 16) with 32 in *. change (32 + 16) with 48 in *. change (48 + 16) with 64 in *.
  change (64 + 16) with 80 in *. change (80 + 16) with 96 in *. change (96 + 16) with 112 in *.
  change (112 + 16) with 128 in *. lia.
Qed.

(** The text of a native IPv6 address. *)
Lemma string6_text v : ∃ run, zeros_in (groups v) run ∧
  chars (string6 v) = if (run.1 <? run.2)%nat
                      then joined (take run.1 (groups v)) ++ colon :: colon :: joined (drop run.2 (groups v))
                      else joined (groups v).
Proof.
  set (gs := groups v). exists (longest_run 0 gs (0, 0)%nat).
  assert (Hz : zeros_in gs (longest_run 0 gs (0, 0)%nat)).
  { apply (longest_run_zeros []). split; [by left|]. simpl. lia. }
  split; [done|]. unfold string6. fold gs. rewrite chars_text.
  destruct (longest_run 0 gs (0, 0)%nat) as [s e]. destruct Hz as [[[= -> ->]|Hrun] _]; cbn [fst snd] in *.
  - rewrite groups_text_plain. done.
  - rewrite (proj2 (Nat.ltb_lt s e)) by lia. rewrite groups_text_run by (cbn [fst snd]; lia). simpl.
    by rewrite !Nat.sub_0_r.
Qed.

Lemma zeros_join gs run : zeros_in gs run → (run.1 < run.2)%nat → length gs = 8%nat →
  take run.1 gs ++ repeat 0 (8 - (length gs - (run.2 - run.1))) ++ drop run.2 gs = gs.
Proof.
  intros [[->|Hrun] Hz] Hlt Hlen; [simpl in Hlt; lia|].
  assert (Htake : take (run.2 - run.1) (drop run.1 gs) = repeat 0 (run.2 - run.1)).
  { assert (Hrep : ∀ n, repeat 0 n = replicate n 0) by (induction n; by f_equal/=). rewrite Hrep.
    apply list_eq. intros i. destruct (decide (i < run.2 - run.1)%nat) as [Hi|Hi].
    - rewrite lookup_take_lt, lookup_drop, Hz, lookup_replicate_2 by lia. done.
    - rewrite lookup_take_ge by lia. symmetry. apply lookup_ge_None. rewrite length_replicate. lia. }
  rewrite <-(take_drop run.1 gs) at 4. f_equal. rewrite <-(take_drop (run.2 - run.1) (drop run.1 gs)), drop_drop, Htake.
  replace (run.1 + (run.2 - run.1))%nat with run.2 by lia. do 2 f_equal. lia.
Qed.

Lemma parse6_string6 v : 0 <= v < 2 ^ 128 → parse6 (chars (string6 v)) = Some v.
Proof.
  intros Hv. destruct (string6_text v) as (run & Hz & ->). pose proof (groups_ok v) as Hok.
  pose proof (join_groups_v v Hv) as Hjoin. assert (Hlen : length (groups v) = 8%nat) by done.
  set (gs := groups v) in *. unfold parse6.
  destruct (Nat.ltb_spec run.1 run.2) as [Hlt|_].
  - pose proof (zeros_join gs run Hz Hlt Hlen) as Hfill. destruct Hz as [[->|Hrun] _]; [simpl in Hlt; lia|].
    assert (Hd : Forall group_ok (drop run.2 gs)) by (by apply Forall_drop).
    assert (Hld : length (drop run.2 gs) = (8 - run.2)%nat) by (rewrite length_drop; lia).
    destruct (take run.1 gs) as [|g ts] eqn:Et.
    + assert (run.1 = 0%nat) as E0 by (apply (f_equal length) in Et; rewrite length_take in Et; simpl in Et; lia).
      rewrite E0 in *. cbn [joined app]. change (char_eqb colon colon) with true. cbn [andb].
      destruct (drop run.2 gs) as [|t tail] eqn:Ed.
      { cbn [joined]. f_equal. rewrite <-Hjoin, <-Hfill. simpl in Hld.
        replace (8 - (length gs - (run.2 - 0)))%nat with 8%nat by lia. done. }
      destruct (joined_head t tail Hd) as (c & l & E & _). rewrite E. cbv iota. rewrite <-E.
      rewrite loop_groups by (done || cbn [length] in *; lia). cbn [mbind option_bind].
      rewrite app_nil_r, reverse_involutive, Hld. rewrite (proj2 (Nat.ltb_lt (8 - run.2) 8)) by lia.
      rewrite take_0, drop_0. f_equal. rewrite <-Hjoin. f_equal. rewrite <-Hfill. cbn [app]. do 2 f_equal. lia.
    + assert (Ht : Forall group_ok (g :: ts)) by (rewrite <-Et; by apply Forall_take).
      assert (Hlt' : length (g :: ts) = run.1) by (rewrite <-Et, length_take; lia).
      destruct (joined_head g ts Ht) as (c & l & E & Hc). rewrite E. cbn [app].
      assert (Hcc : char_eqb c colon = false) by (by apply char_eqb_neq, hex_not_special).
      assert (Hstart : (match c :: l ++ colon :: colon :: joined (drop run.2 gs) with
        | c1 :: c2 :: l' => if char_eqb c1 colon && char_eqb c2 colon then (Some 0%nat, l')
                            else (None, c :: l ++ colon :: colon :: joined (drop run.2 gs))
        | _ => (None, c :: l ++ colon :: colon :: joined (drop run.2 gs)) end) =
        (None, joined (g :: ts) ++ colon :: colon :: joined (drop run.2 gs))).
      { rewrite E, Hcc. by destruct l. }
      rewrite Hstart. rewrite loop_ellipsis by (done || (cbn [length] in *; lia)). cbn [mbind option_bind].
      rewrite app_nil_r, <-reverse_app, reverse_involutive. rewrite length_app, Hld, Hlt'. cbn [length plus].
      rewrite (proj2 (Nat.ltb_lt (run.1 + (8 - run.2)) 8)) by lia.
      rewrite take_app_length', drop_app_length' by done.
      f_equal. rewrite <-Hjoin. f_equal. rewrite Hlen in Hfill.
      by replace (8 - (run.1 + (8 - run.2)))%nat with (8 - (8 - (run.2 - run.1)))%nat by lia.
  - destruct gs as [|g ts]; [done|]. destruct (joined_head g ts Hok) as (c & l & E & Hc).
    assert (Hcc : char_eqb c colon = false) by (by apply char_eqb_neq, hex_not_special).
    assert (Hstart : (match joined (g :: ts) with
        | c1 :: c2 :: l' => if char_eqb c1 colon && char_eqb c2 colon then (Some 0%nat, l') else (None, joined (g :: ts))
        | _ => (None, joined (g :: ts)) end) = (None, joined (g :: ts))).
    { rewrite E, Hcc. by destruct l. }
    rewrite Hstart, loop_groups by (done || (cbn [length] in *; lia)). cbn [mbind option_bind].
    rewrite app_nil_r, reverse_involutive, Hlen. cbn [Nat.eqb]. by rewrite Hjoin.
Qed.

(** ** Whole addresses *)

Definition special (c : Ascii.ascii) : bool := char_eqb c dot || char_eqb c colon || char_eqb c "%"%char.
Lemma special_hex c : is_Some (hex_val c) → special c = false.
Proof.
  intros (H1 & H2 & H3 & _)%hex_not_special. unfold special.
  by rewrite (proj2 (char_eqb_neq _ _) H1), (proj2 (char_eqb_neq _ _) H2), (proj2 (char_eqb_neq _ _) H3).
Qed.
Lemma find_special l c rest : all_hex l → special c = true → List.find special (l ++ c :: rest) = Some c.
Proof.
  intros Hl Hc. induction Hl as [|x l Hx _ IH]; simpl; [by rewrite Hc|]. by rewrite special_hex.
Qed.
Definition byte_text (n : Z) : list Ascii.ascii := chars (FormatUint n).
Lemma byte_text_hex n : all_hex (byte_text n).
Proof.
  apply Forall_forall. intros c Hc%FormatUint_digits. unfold hex_val. rewrite Hc. eauto.
Qed.
Lemma find_string4 v rest : List.find special (chars (string4 v) ++ rest) = Some dot.
Proof. rewrite chars_string4, <-app_assoc. apply find_special; [apply byte_text_hex|done]. Qed.
Lemma ParseAddr_string4 v : 0 <= v < 2 ^ 32 → ParseAddr (string4 v) = Some (Addr4 v).
Proof.
  intros Hv. unfold ParseAddr. change (λ c : Ascii.ascii, char_eqb c dot || char_eqb c colon || char_eqb c "%"%char) with special.
  pose proof (find_string4 v []) as Hf. rewrite app_nil_r in Hf. rewrite Hf.
  change (char_eqb dot dot) with true. by rewrite parse4_string4.
Qed.

(** The text of an IPv6 address before its zone. *)
Definition text6 (v : Z) : string :=
  if addr.Is4In6 (Addr6 v "") then "::ffff:" +:+ string4 (v `mod` 2 ^ 32) else string6 v.
Lemma byte_text_scan n rest : 0 <= n < 256 →
  ∃ off, (scan_hex 0 0 (byte_text n ++ dot :: rest)).2 = dot :: rest ∧
         (scan_hex 0 0 (byte_text n ++ dot :: rest)).1.2 = off ∧ (0 < off <= 3)%nat.
Proof.
  intros Hn.
  assert (Hg : ∀ l acc off, all_hex l → let r := scan_hex acc off (l ++ dot :: rest) in
    r.2 = dot :: rest ∧ r.1.2 = (off + length l)%nat).
  { induction l as [|c l IH]; intros acc off Hl; simpl; [by rewrite Nat.add_0_r|].
    apply Forall_cons_1 in Hl as [[d Hd] Hl]. rewrite Hd, Nat.add_succ_r. by apply IH. }
  destruct (Hg (byte_text n) 0 0%nat (byte_text_hex n)) as [H1 H2].
  exists (length (byte_text n)). split_and!; [done|done| |].
  - destruct (byte_text n) eqn:E; simpl; [|lia]. unfold byte_text in E. exfalso. apply (FormatUint_nonempty n).
    rewrite <-(text_chars (FormatUint n)), E. done.
  - apply Nat.leb_le. apply (below_forall (λ n, (length (byte_text n) <=? 3)%nat) 256); [by vm_compute|lia].
Qed.
Lemma string4_scan v : ∃ acc off rest,
  scan_hex 0 0 (chars (string4 v)) = (acc, off, dot :: rest) ∧ (0 < off <= 3)%nat.
Proof.
  rewrite chars_string4.
  destruct (byte_text_scan (byte_at v 3) (chars (FormatUint (byte_at v 2)) ++ dot :: chars (FormatUint (byte_at v 1)) ++
    dot :: chars (FormatUint (byte_at v 0))) (byte_at_bounds v 3)) as (off & H1 & H2 & Hoff).
  unfold byte_text in *. destruct (scan_hex 0 0 _) as [[acc off'] rest]. cbn [fst snd] in H1, H2. subst.
  eexists acc, _, (chars (FormatUint (byte_at v 2)) ++ dot :: chars (FormatUint (byte_at v 1)) ++
    dot :: chars (FormatUint (byte_at v 0))). split; [reflexivity|done].
Qed.
Lemma string4_head v : ∃ c l, chars (string4 v) = c :: l ∧ char_eqb c colon = false.
Proof.
  rewrite chars_string4. pose proof (byte_text_hex (byte_at v 3)) as Hh. unfold byte_text in Hh.
  destruct (chars (FormatUint (byte_at v 3))) as [|c l]; [by exists dot; eexists|].
  exists c. eexists. split; [done|]. apply char_eqb_neq. apply Forall_cons_1 in Hh as [Hc _]. by apply hex_not_special.
Qed.
(** The last group of an address may be dotted. *)
Lemma loop_dotted fuel gs k v : (0 < fuel)%nat → (length gs <= 6)%nat → 0 <= v < 2 ^ 32 →
  parse6_loop fuel gs (Some k) (chars (string4 v)) = Some (v `mod` 65536 :: v / 65536 :: gs, Some k, []).
Proof.
  intros Hf Hgs Hv. destruct fuel as [|fuel]; [lia|]. cbn [parse6_loop].
  rewrite (proj2 (Nat.leb_gt 8 (length gs))) by lia. destruct (string4_scan v) as (acc & off & rest & -> & Hoff).
  rewrite (proj2 (Nat.eqb_neq off 0)), (proj2 (Nat.ltb_ge 4 off)) by lia.
  change (char_eqb dot dot) with true. cbn [orb]. rewrite (proj2 (Nat.ltb_ge 6 (length gs))) by lia.
  by rewrite parse4_string4.
Qed.
Lemma parse6_mapped v w : 0 <= w < 2 ^ 32 → v = 2 ^ 32 * 0xffff + w →
  parse6 (chars ("::ffff:" +:+ string4 w)) = Some v.
Proof.
  intros Hw ->. rewrite chars_app. unfold parse6.
  change (chars "::ffff:" ++ chars (string4 w)) with
    (colon :: colon :: chars "ffff" ++ colon :: chars (string4 w)).
  change (char_eqb colon colon) with true. cbn [andb].
  assert (Hloop : parse6_loop 9 [] (Some 0%nat) (chars "ffff" ++ colon :: chars (string4 w)) =
    Some ([w `mod` 65536; w / 65536; 65535], Some 0%nat, [])).
  { destruct (string4_head w) as (c & l & E & Hc).
    transitivity (parse6_loop 8 [65535] (Some 0%nat) (chars (string4 w))); [|apply loop_dotted; [lia|simpl; lia|done]].
    rewrite E. change (chars "ffff") with (format_hex 4 65535 []). by apply loop_group; [|simpl; lia|]. }
  destruct (chars "ffff" ++ colon :: chars (string4 w)) as [|c l] eqn:E; [done|]. cbv beta iota zeta delta [andb]. change (char_eqb colon colon) with true. cbv iota. rewrite Hloop.
  cbn [mbind option_bind]. f_equal. unfold join_groups. cbn.
  change (2 ^ 32) with 4294967296 in *. Z.to_euclidean_division_equations; lia.
Qed.

Lemma string6_find v rest : ∃ pre post, all_hex pre ∧ chars (string6 v) ++ rest = pre ++ colon :: post.
Proof.
  destruct (string6_text v) as (run & Hz & ->). pose proof (groups_ok v) as Hok.
  assert (Hj : ∀ gs post, Forall group_ok gs → ∃ pre post', all_hex pre ∧ joined gs ++ colon :: post = pre ++ colon :: post').
  { intros gs post Hgs. destruct gs as [|g gs]; [exists [], post; split; [constructor|done]|].
    pose proof Hgs as [(off & _ & _ & Hh)%format_hex_scan _]%Forall_cons_1.
    destruct gs as [|g' gs]; [by exists (format_hex 4 g []), post|].
    rewrite joined_cons, <-app_assoc by done. eexists _, _. split; [exact Hh|reflexivity]. }
  destruct (run.1 <? run.2)%nat.
  - rewrite <-app_assoc. apply Hj. by apply Forall_take.
  - destruct (groups v) as [|g [|g' gs]] eqn:E; [done..|].
    rewrite joined_cons, <-app_assoc by done. apply Forall_cons_1 in Hok as [(off & _ & _ & Hh)%format_hex_scan _].
    eexists _, _. split; [exact Hh|reflexivity].
Qed.
Lemma text6_find v rest : List.find special (chars (text6 v) ++ rest) = Some colon.
Proof.
  unfold text6. destruct (addr.Is4In6 _); [done|].
  destruct (string6_find v rest) as (pre & post & Hh & ->). by apply find_special.
Qed.
Lemma parse6_text6 v : 0 <= v < 2 ^ 128 → parse6 (chars (text6 v)) = Some v.
Proof.
  intros Hv. unfold text6. destruct (addr.Is4In6 _) eqn:Hm; [|by apply parse6_string6].
  apply parse6_mapped; [by apply Z.mod_pos_bound|].
  unfold addr.Is4In6 in Hm. apply Z.eqb_eq in Hm. rewrite Z.shiftr_div_pow2 in Hm by done.
  rewrite <-Hm. by apply Z.div_mod.
Qed.

(** No percent sign or slash occurs in the text before a zone. *)
Lemma string4_chars v c : c ∈ chars (string4 v) → c = dot ∨ is_Some (hex_val c).
Proof.
  rewrite chars_string4. intros H.
  assert (Hb : ∀ n, c ∈ chars (FormatUint n) → is_Some (hex_val c)).
  { intros n Hn. by apply (proj1 (Forall_forall _ _) (byte_text_hex n)). }
  repeat match goal with
    | H : c ∈ _ ++ _ |- _ => apply elem_of_app in H as [?|H]
    | H : c ∈ dot :: _ |- _ => apply elem_of_cons in H as [->|H]
    end; eauto.
Qed.
Lemma text6_chars v c : c ∈ chars (text6 v) → c = colon ∨ c = dot ∨ is_Some (hex_val c).
Proof.
  unfold text6. destruct (addr.Is4In6 _).
  - rewrite chars_app. intros [H|?%string4_chars]%elem_of_app; [|tauto].
    apply list_elem_of_In in H. cbn in H. destruct H as [<-|[<-|[<-|[<-|[<-|[<-|[<-|[]]]]]]]]; cbn; eauto.
  - destruct (string6_text v) as (run & _ & ->). pose proof (groups_ok v) as Hok.
    destruct (run.1 <? run.2)%nat.
    + intros [H|[->|[->|H]%elem_of_cons]%elem_of_cons]%elem_of_app; auto.
      * apply joined_hex in H as [->|?]; auto. by apply Forall_take.
      * apply joined_hex in H as [->|?]; auto. by apply Forall_drop.
    + intros [->|?]%joined_hex; auto.
Qed.
Lemma text6_no v c : hex_val c = None → c ≠ colon → c ≠ dot → c ∉ chars (text6 v).
Proof. intros Hh ?? [?|[?|[d Hd]]]%text6_chars; congruence. Qed.
Lemma addr_string6 v z : addr_string (Addr6 v z) = text6 v +:+ (if String.eqb z "" then "" else "%" +:+ z).
Proof. done. Qed.

Lemma ParseAddr_addr_string a : addr.wf a = true → addr.IsValid a = true → ParseAddr (addr_string a) = Some a.
Proof.
  destruct a as [|v|v z]; [done| |]; intros Hw _; apply andb_true_iff in Hw as [H1%Z.leb_le H2%Z.ltb_lt].
  { by apply ParseAddr_string4. }
  rewrite addr_string6. unfold ParseAddr.
  change (λ c : Ascii.ascii, char_eqb c dot || char_eqb c colon || char_eqb c "%"%char) with special.
  rewrite chars_app, text6_find. change (char_eqb colon dot) with false. change (char_eqb colon colon) with true.
  assert (Hno : "%"%char ∉ chars (text6 v)) by (by apply text6_no).
  destruct (String.eqb_spec z "") as [->|Hz].
  - rewrite app_nil_r, cut_char_none by done. rewrite parse6_text6 by done. done.
  - change (chars ("%" +:+ z)) with ("%"%char :: chars z). rewrite cut_char_app by done.
    destruct (chars z) as [|c l] eqn:E; [by destruct z|]. rewrite parse6_text6 by done. cbn [mbind option_bind]. by rewrite <-E, text_chars.
Qed.

(** ** Prefixes *)

Lemma addr_string_no_slash a : addr.IsValid a = true → addr.hasZone a = false → "/"%char ∉ chars (addr_string a).
Proof.
  destruct a as [|v|v z]; [done| |].
  - intros _ _. change (addr_string (Addr4 v)) with (string4 v). rewrite chars_string4.
    rewrite !not_elem_of_app, !not_elem_of_cons, !not_elem_of_app, !not_elem_of_cons, !not_elem_of_app, !not_elem_of_cons.
    by split_and!; try apply FormatUint_no.
  - intros _ Hz. simpl in Hz. apply negb_false_iff in Hz. rewrite addr_string6, Hz, chars_app, app_nil_r.
    by apply text6_no.
Qed.
Lemma bits_digits n : 0 <= n <= 128 → ∃ c rest, chars (FormatUint n) = c :: rest ∧
  match rest with [] => true | _ => in_range "1"%char "9"%char c end = true ∧ parse_digits 0 (c :: rest) = Some n.
Proof.
  intros Hn.
  assert (match chars (FormatUint n) with
          | [] => false
          | c :: rest => match rest with [] => true | _ => in_range "1"%char "9"%char c end &&
              match parse_digits 0 (c :: rest) with Some m => m =? n | None => false end
          end = true) as H.
  { apply (below_forall (λ n, match chars (FormatUint n) with
          | [] => false
          | c :: rest => match rest with [] => true | _ => in_range "1"%char "9"%char c end &&
              match parse_digits 0 (c :: rest) with Some m => m =? n | None => false end
          end) 129); [by vm_compute|lia]. }
  destruct (chars (FormatUint n)) as [|c rest]; [done|]. apply andb_true_iff in H as [H1 H2].
  exists c, rest. split_and!; [done|done|]. destruct (parse_digits 0 (c :: rest)); [|done]. f_equal. lia.
Qed.

Lemma ParsePrefix_prefix_string p : prefix.wf p = true → prefix.IsValid p = true →
  ParsePrefix (prefix_string p) = Some p.
Proof.
  intros Hwf Hv. pose proof (wf_bits p Hwf Hv) as [Hb Ha]. unfold prefix.wf in Hwf.
  apply andb_true_iff in Hwf as [[Hw Hz%negb_true_iff]%andb_true_iff _].
  unfold ParsePrefix, prefix_string. rewrite Hv. rewrite !chars_app, !reverse_app, <-app_assoc.
  change (reverse (chars "/")) with ["/"%char]. cbn [app].
  rewrite cut_char_app by (rewrite elem_of_reverse; by apply FormatUint_no).
  rewrite !reverse_involutive, text_chars, ParseAddr_addr_string by done. cbn [mbind option_bind].
  rewrite Hz. assert (match p_addr p with Addr6 _ z => negb (String.eqb z "") | _ => false end = false) as Hz'
    by (destruct (p_addr p); done).
  rewrite Hz'. cbn [orb].
  destruct (bits_digits (p_bits p)) as (c & rest & -> & Hc & ->).
  { destruct (BitLen_cases (p_addr p)); lia. }
  rewrite Hc. cbn [negb mbind option_bind]. rewrite (proj2 (Z.leb_le _ _)) by lia. f_equal.
  unfold prefix.PrefixFrom. rewrite Ha, (proj2 (Z.leb_le 0 _)), (proj2 (Z.leb_le _ (addr.BitLen _))) by lia.
  destruct p as [a b]. cbn [p_addr p_bits andb] in *. f_equal. destruct a; try done. simpl in *.
  apply negb_false_iff, String.eqb_eq in Hz. by subst.
Qed.

(** [netip.AddrPort.String]. *)
Definition addrport_string (a : Addr) (port : Z) : string :=
  if negb (addr.IsValid a) then "invalid AddrPort"
  else if addr.Is4 a then addr_string a +:+ ":" +:+ FormatUint port
  else "[" +:+ addr_string a +:+ "]:" +:+ FormatUint port.
