(* ===== verification/PoolScan.v ===== *)
(** * Scanning a pool of addresses

    The allocator and the daemon's host addresses are found the same way: walk
    a pool from some address on with [Next] until an address is not taken.
    [scan] is that loop; it ends because only taken addresses are skipped. *)

From S2P Require Import Prelude GoStrings Netip.
Import netip_facts.
Local Open Scope Z_scope.

(** [OutOfFuel] is not an outcome of the code: [scan_enough]. *)
Inductive search : Type := Found (ip : Addr) | Exhausted | OutOfFuel.
Fixpoint scan (fuel : nat) (p : Prefix) (skip : Addr → bool) (ip : Addr) : search :=
  match fuel with
  | O => OutOfFuel
  | S fuel =>
    if negb (prefix.Contains p ip) then Exhausted
    else if skip ip then scan fuel p skip (addr.Next ip)
    else Found ip
  end.

Section scan.
Context (p : Prefix) (skip : Addr → bool) (Hm : masked p) (Hv : prefix.IsValid p = true).
Notation nth_ip i := (addr_plus (p_addr p) i).

(** The addresses from the [i]-th on, in order, decide the scan. *)
Lemma scan_spec fuel i : 0 <= i →
  match scan fuel p skip (nth_ip i) with
  | Found ip => ∃ j, ip = nth_ip j ∧ i <= j < psize p ∧ skip (nth_ip j) = false ∧
                     ∀ h, i <= h < j → skip (nth_ip h) = true
  | Exhausted => ∀ h, i <= h < psize p → skip (nth_ip h) = true
  | OutOfFuel => i + Z.of_nat fuel <= Z.max i (psize p) ∧
                 ∀ h, i <= h < i + Z.of_nat fuel → skip (nth_ip h) = true
  end.
Proof.
  revert i; induction fuel as [|fuel IH]; intros i Hi; simpl; [split; [lia|]; intros h; lia|].
  rewrite Contains_plus by done. destruct (Z.ltb_spec i (psize p)) as [Hlt|]; simpl; [|intros h; lia].
  destruct (skip (nth_ip i)) eqn:Hs.
  2:{ exists i. split_and!; [done|lia|lia|done|]. intros h. lia. }
  rewrite Next_addr_plus by done. specialize (IH (i + 1) ltac:(lia)).
  assert (Hstep : ∀ n, (∀ h, i + 1 <= h < n → skip (nth_ip h) = true) →
    ∀ h, i <= h < n → skip (nth_ip h) = true).
  { intros n Hall h Hh. destruct (decide (h = i)) as [->|]; [done|]. apply Hall. lia. }
  destruct (scan fuel p skip (nth_ip (i + 1))).
  - destruct IH as (j & -> & Hj & Hfj & Hall). exists j. split_and!; [done|lia|lia|done|by apply Hstep].
  - by apply Hstep.
  - destruct IH as [Hle Hall]. split; [lia|]. intros h Hh. apply (Hstep _ Hall). lia.
Qed.

(** Distinct offsets are distinct addresses: a set that holds [n] consecutive
    addresses of the pool has at least [n] elements. *)
Lemma nth_ips_count (taken : gset Addr) i n : 0 <= i → i + Z.of_nat n <= psize p →
  (∀ h, i <= h < i + Z.of_nat n → nth_ip h ∈ taken) → (n <= size taken)%nat.
Proof.
  intros Hi Hn Hall. set (ips := (λ k, nth_ip (i + Z.of_nat k)) <$> seq 0 n).
  assert (NoDup ips) as Hnd.
  { apply NoDup_fmap_2_strong; [|apply NoDup_seq].
    intros x y Hx%elem_of_seq Hy%elem_of_seq Heq.
    apply (addr_plus_inj p) in Heq; [lia|done|done|lia|lia]. }
  assert (list_to_set (C:=gset Addr) ips ⊆ taken) as Hsub.
  { intros ip. rewrite elem_of_list_to_set. intros (k & -> & Hk%elem_of_seq)%list_elem_of_fmap.
    apply Hall. lia. }
  apply subseteq_size in Hsub. rewrite size_list_to_set in Hsub by done.
  unfold ips in Hsub. by rewrite length_fmap, length_seq in Hsub.
Qed.
Lemma full_pool_size (taken : gset Addr) i : 0 <= i →
  (∀ h, i <= h < psize p → nth_ip h ∈ taken) → psize p - i <= Z.of_nat (size taken).
Proof.
  intros Hi Hall. destruct (Z.le_gt_cases (psize p) i); [lia|].
  pose proof (nth_ips_count taken i (Z.to_nat (psize p - i)) Hi ltac:(lia)) as Hc.
  rewrite Z2Nat.id in Hc by lia. specialize (Hc ltac:(intros h Hh; apply Hall; lia)). lia.
Qed.

(** Every skipped address is taken, so one step more than there are taken
    addresses suffices. *)
Lemma scan_enough (taken : gset Addr) fuel i : 0 <= i → (∀ ip, skip ip = true → ip ∈ taken) →
  (size taken < fuel)%nat → scan fuel p skip (nth_ip i) ≠ OutOfFuel.
Proof.
  intros Hi Htaken Hfuel E. pose proof (scan_spec fuel i Hi) as Hs. rewrite E in Hs. destruct Hs as [Hle Hall].
  pose proof (nth_ips_count taken i fuel Hi ltac:(lia) ltac:(auto)). lia.
Qed.

(** The outcome with enough fuel: the least address from the [i]-th on that is
    not skipped, or none. *)
Lemma scan_least (taken : gset Addr) fuel i : 0 <= i → (∀ ip, skip ip = true → ip ∈ taken) →
  (size taken < fuel)%nat →
  match scan fuel p skip (nth_ip i) with
  | Found ip => prefix.Contains p ip = true ∧ base p + i <= addr.value ip ∧ skip ip = false ∧
      ∀ ip', prefix.Contains p ip' = true → base p + i <= addr.value ip' → skip ip' = false →
             addr.value ip <= addr.value ip'
  | Exhausted => ∀ ip', prefix.Contains p ip' = true → base p + i <= addr.value ip' → skip ip' = true
  | OutOfFuel => False
  end.
Proof.
  intros Hi Htaken Hfuel. pose proof (scan_enough taken fuel i Hi Htaken Hfuel) as Hne.
  pose proof (scan_spec fuel i Hi) as Hs. destruct (scan fuel p skip (nth_ip i)) as [ip| |]; [| |done].
  - destruct Hs as (j & -> & Hj & Hskip & Hall).
    destruct (addr_plus_in p j Hm Hv ltac:(lia)) as [Hvj _].
    rewrite Contains_plus, Hvj by (done || lia). split_and!; [lia|lia|done|].
    intros ip' (k & Hk & ->)%Contains_is_plus Hge Hs'; [|done].
    destruct (addr_plus_in p k Hm Hv Hk) as [Hvk _]. rewrite Hvk in *.
    destruct (decide (k < j)); [|lia]. rewrite Hall in Hs' by lia. done.
  - intros ip' (k & Hk & ->)%Contains_is_plus Hge; [|done].
    destruct (addr_plus_in p k Hm Hv Hk) as [Hvk _]. rewrite Hvk in Hge. apply Hs. lia.
Qed.
End scan.
