(* ===== verification/EffectiveIP.v ===== *)
(** * Effective addresses

    The allocator of [src/effectiveip/effectiveip.go].  Every reachable node
    of every tailnet receives a local "effective" address from a pool, so two
    tailnets may use the same canonical address.  [Allocator] keeps the
    leases, their inverse and the reserved addresses; [Assign] gives each node
    its existing lease or the first free address of the pool. *)

From S2P Require Import Prelude GoStrings Netip PoolScan.
Import netip_facts.
Local Open Scope Z_scope.

Record Node : Type := MkNode {
  n_ProfileID : string; n_NodeID : string; n_CanonicalIP : Addr }.
Record NodeKey : Type := MkKey {
  k_ProfileID : string; k_NodeID : string; k_CanonicalIP : Addr }.
Record Lease : Type := MkLease { l_NodeKey : NodeKey; l_EffectiveIP : Addr }.

#[export] Instance Node_eq_dec : EqDecision Node.
Proof. solve_decision. Defined.
#[export] Instance NodeKey_eq_dec : EqDecision NodeKey.
Proof. solve_decision. Defined.
#[export] Instance NodeKey_countable : Countable NodeKey.
Proof.
  refine (inj_countable' (λ k, (k_ProfileID k, k_NodeID k, k_CanonicalIP k))
            (λ '(p, n, c), MkKey p n c) _).
  by intros [].
Defined.
#[export] Instance Lease_eq_dec : EqDecision Lease.
Proof. solve_decision. Defined.

(** The conversion [NodeKey(n)]. *)
Definition node_key (n : Node) : NodeKey :=
  MkKey (n_ProfileID n) (n_NodeID n) (n_CanonicalIP n).

Record Allocator : Type := MkAllocator {
  pool : Prefix;
  leases : gmap NodeKey Addr;
  used : gmap Addr NodeKey;
  reserved : gset Addr }.

Record Plan : Type := MkPlan { Leases : list Lease; byKey : gmap NodeKey Addr }.

Inductive alloc_error : Type :=
  | ErrInvalidCanonical (n : Node)
  | ErrPoolFamily (p : Prefix) (canonical : Addr)
  | ErrPoolExhausted (p : Prefix) (key : NodeKey).

(** ** Operations *)

(** The filter on [existing] leases in [NewAllocator]. *)
Definition usable_lease (p : Prefix) (res : gset Addr) (l : Lease) : bool :=
  addr.IsValid (k_CanonicalIP (l_NodeKey l)) && addr.IsValid (l_EffectiveIP l) &&
  eqb (addr.Is6 (k_CanonicalIP (l_NodeKey l))) (addr.Is6 (l_EffectiveIP l)) &&
  prefix.Contains p (l_EffectiveIP l) && bool_decide (l_EffectiveIP l ∉ res).

Definition set_lease (a : Allocator) (k : NodeKey) (ip : Addr) : Allocator :=
  MkAllocator (pool a) (<[k := ip]> (leases a)) (<[ip := k]> (used a)) (reserved a).

Definition NewAllocator (p : Prefix) (existing : list Lease) (res : list Addr) : Allocator :=
  let p := prefix.Masked p in
  let reserved_set :=
    foldl (λ s ip,
      if addr.IsValid ip && eqb (addr.Is6 ip) (addr.Is6 (p_addr p)) && prefix.Contains p ip
      then {[ip]} ∪ s else s) (∅ : gset Addr) res in
  foldl (λ a l, if usable_lease p reserved_set l
                then set_lease a (l_NodeKey l) (l_EffectiveIP l) else a)
    (MkAllocator p ∅ ∅ reserved_set) existing.

(** The loop of [nextSynthetic], which is a [scan] ([search_from_scan]). *)
Fixpoint search_from (fuel : nat) (a : Allocator) (key : NodeKey) (ip : Addr) : search :=
  match fuel with
  | O => OutOfFuel
  | S fuel =>
    if negb (prefix.Contains (pool a) ip) then Exhausted
    else if negb (addr.IsValid ip) then Exhausted
    else if (ip ∈? reserved a) then search_from fuel a key (addr.Next ip)
    else match used a !! ip with
         | None => Found ip
         | Some owner => if decide (owner = key) then Found ip
                         else search_from fuel a key (addr.Next ip)
         end
  end.
(** Only reserved and used addresses are skipped, so one more step than there
    are such addresses always suffices. *)
Definition search_fuel (a : Allocator) : nat := S (size (reserved a ∪ dom (used a))).
Definition nextSynthetic (a : Allocator) (key : NodeKey) : result alloc_error Addr :=
  match search_from (search_fuel a) a key (p_addr (pool a)) with
  | Found ip => Ok ip
  | _ => Err (ErrPoolExhausted (pool a) key)
  end.

Definition plan_add (p : Plan) (key : NodeKey) (effective : Addr) : Plan :=
  MkPlan (Leases p ++ [MkLease key effective]) (<[key := effective]> (byKey p)).

Definition lease_less : Lease → Lease → bool :=
  less_by (λ l, k_ProfileID (l_NodeKey l)) str_lt
    (λ a b, str_lt (k_NodeID (l_NodeKey a)) (k_NodeID (l_NodeKey b))).

Definition check_node (a : Allocator) (n : Node) : result alloc_error unit :=
  if negb (addr.IsValid (n_CanonicalIP n)) then Err (ErrInvalidCanonical n)
  else if negb (prefix.IsValid (pool a)) ||
          negb (eqb (addr.Is6 (p_addr (pool a))) (addr.Is6 (n_CanonicalIP n)))
  then Err (ErrPoolFamily (pool a) (n_CanonicalIP n))
  else Ok tt.

(** One iteration of the second loop of [Assign]. *)
Definition assign_one (s : Allocator * Plan) (n : Node) :
    result alloc_error (Allocator * Plan) :=
  let '(a, out) := s in
  let key := node_key n in
  match leases a !! key with
  | Some existing => Ok (a, plan_add out key existing)
  | None =>
    effective ← nextSynthetic a key;
    Ok (set_lease a key effective, plan_add out key effective)
  end.

Definition Assign (a : Allocator) (nodes : list Node) : result alloc_error (Allocator * Plan) :=
  _ ← foldM (λ _ n, check_node a n) nodes tt;
  '(a', out) ← foldM assign_one nodes (a, MkPlan [] ∅);
  Ok (a', MkPlan (go_sort lease_less (Leases out)) (byKey out)).

(** [None] is the panic of [MustEffective]. *)
Definition MustEffective (p : Plan) (key : NodeKey) : option Addr := byKey p !! key.

(** ** Searching the pool *)

(** The [i]-th address of the pool. *)
Abbreviation nth_ip a i := (addr_plus (p_addr (pool a)) i) (only parsing).

Section search.
Context (a : Allocator) (key : NodeKey).

(** [key] may take [ip]. *)
Definition free (ip : Addr) : Prop :=
  ip ∉ reserved a ∧ (used a !! ip = None ∨ used a !! ip = Some key).
#[local] Instance free_dec ip : Decision (free ip).
Proof. unfold free. apply _. Defined.

Definition taken (ip : Addr) : bool := negb (bool_decide (free ip)).
Lemma search_from_scan fuel ip : search_from fuel a key ip = scan fuel (pool a) taken ip.
Proof.
  revert ip; induction fuel as [|fuel IH]; intros ip; simpl; [done|].
  destruct (prefix.Contains (pool a) ip) eqn:Hc; [|done].
  rewrite (Contains_addr_valid _ _ Hc), !IH. simpl. unfold taken at 3.
  destruct (bool_decide_reflect (free ip)) as [Hf|Hf]; simpl.
  - destruct Hf as [Hr Hu]. rewrite bool_decide_false by done.
    destruct Hu as [->| ->]; [done|]. by rewrite decide_True.
  - unfold free in Hf. destruct (bool_decide_reflect (ip ∈ reserved a)) as [Hr|Hr]; [done|].
    destruct (used a !! ip) as [o|]; [|by destruct Hf; auto].
    rewrite decide_False; [done|]. intros ->. destruct Hf; auto.
Qed.
Lemma taken_known ip : taken ip = true → ip ∈ reserved a ∪ dom (used a).
Proof.
  intros Hf%negb_true_iff%bool_decide_eq_false. unfold free in Hf. rewrite elem_of_union, elem_of_dom.
  destruct (decide (ip ∈ reserved a)); [auto|]. right. destruct (used a !! ip); [eauto|]. destruct Hf; auto.
Qed.
Lemma taken_false ip : taken ip = false ↔ free ip.
Proof. unfold taken. by rewrite negb_false_iff, bool_decide_eq_true. Qed.
End search.

(** What [nextSynthetic] returns: the first address of the pool that the key
    may take, and an error exactly when there is none. *)
Lemma nextSynthetic_spec a key :
  masked (pool a) →
  match nextSynthetic a key with
  | Ok ip => prefix.Contains (pool a) ip = true ∧ free a key ip ∧
             ∀ ip', prefix.Contains (pool a) ip' = true → free a key ip' →
                    addr.value ip <= addr.value ip'
  | Err e => e = ErrPoolExhausted (pool a) key ∧
             ∀ ip', prefix.Contains (pool a) ip' = true → ¬ free a key ip'
  end.
Proof.
  intros Hm. unfold nextSynthetic. destruct (prefix.IsValid (pool a)) eqn:Hv.
  2: { simpl. rewrite Contains_invalid by done. simpl. split; [done|].
       intros ip'. by rewrite Contains_invalid. }
  rewrite (masked_first _ Hm Hv), search_from_scan.
  pose proof (scan_least (pool a) (taken a key) Hm Hv (reserved a ∪ dom (used a)) (search_fuel a) 0
    ltac:(lia) (taken_known a key) ltac:(unfold search_fuel; lia)) as Hs.
  assert (Hge : ∀ ip, prefix.Contains (pool a) ip = true → base (pool a) + 0 <= addr.value ip).
  { intros ip (_ & _ & _ & ?)%Contains_masked; [lia|done]. }
  destruct (scan _ _ _ _) as [ip| |]; [| |done].
  - destruct Hs as (Hc & _ & Hf%taken_false & Hmin). split_and!; [done|done|].
    intros ip' Hc' Hf'. apply Hmin; [done|by apply Hge|by apply taken_false].
  - split; [done|]. intros ip' Hc' Hf'%taken_false. rewrite Hs in Hf' by auto. done.
Qed.

(** ** The allocator's invariant *)

Definition in_pool (a : Allocator) (ip : Addr) : Prop :=
  prefix.Contains (pool a) ip = true ∧ ip ∉ reserved a.

(** Every leased address is in the pool, unreserved, and recorded as used by
    its holder; so no address is leased twice. *)
Record alloc_ok (a : Allocator) : Prop := {
  ok_pool : masked (pool a);
  ok_leases k ip : leases a !! k = Some ip → in_pool a ip ∧ used a !! ip = Some k
}.

Lemma alloc_ok_inj a k1 k2 ip :
  alloc_ok a → leases a !! k1 = Some ip → leases a !! k2 = Some ip → k1 = k2.
Proof. intros Ha [_ H1]%ok_leases [_ H2]%ok_leases; congruence. Qed.

(** Taking a free address preserves the invariant. *)
Lemma set_lease_ok a k ip :
  alloc_ok a → in_pool a ip → free a k ip →
  (∀ k', leases a !! k' = Some ip → k' = k) → alloc_ok (set_lease a k ip).
Proof.
  intros [Hp Hl] Hin Hf Hk. split; [done|]. intros k' ip'. simpl.
  rewrite lookup_insert. case_decide as Hkk.
  - intros [= <-]. subst. split; [done|]. apply lookup_insert_eq.
  - intros Hl'. pose proof (Hl _ _ Hl') as [Hin' Hu']. split; [done|].
    rewrite lookup_insert_ne; [done|]. intros ->. destruct Hkk. symmetry. by apply Hk.
Qed.

Lemma nextSynthetic_ok a k ip :
  alloc_ok a → nextSynthetic a k = Ok ip → alloc_ok (set_lease a k ip) ∧ in_pool a ip.
Proof.
  intros Ha Hn. pose proof (nextSynthetic_spec a k (ok_pool _ Ha)) as Hs.
  rewrite Hn in Hs. destruct Hs as (Hc & [Hr Hu] & _). split; [|by split].
  apply set_lease_ok; try done. intros k' Hk'%ok_leases; [|done].
  destruct Hk' as [_ Hk'], Hu as [Hu|Hu]; congruence.
Qed.

(** The leases handed to [NewAllocator] agree on who holds an address. *)
Definition consistent_leases (l : list Lease) : Prop :=
  ∀ l1 l2, l1 ∈ l → l2 ∈ l → l_EffectiveIP l1 = l_EffectiveIP l2 → l_NodeKey l1 = l_NodeKey l2.

Lemma reserved_fold p' res (s : gset Addr) ip :
  ip ∈ foldl (λ s ip,
      if addr.IsValid ip && eqb (addr.Is6 ip) (addr.Is6 (p_addr p')) && prefix.Contains p' ip
      then {[ip]} ∪ s else s) s res ↔ (ip ∈ res ∧ prefix.Contains p' ip = true) ∨ ip ∈ s.
Proof.
  revert s; induction res as [|x res IH]; intros s; simpl.
  { rewrite elem_of_nil. tauto. }
  rewrite IH, elem_of_cons.
  destruct (prefix.Contains p' x) eqn:Hc.
  - rewrite (Contains_addr_valid _ _ Hc), (Is6_BitLen _ _ (Contains_BitLen _ _ Hc)).
    rewrite eqb_reflx. simpl. rewrite elem_of_union, elem_of_singleton.
    split; [|intros [[[->|]]|]; auto]. intros [[]|[->|]]; auto.
  - rewrite andb_false_r. split; [tauto|]. intros [[[->|] ]|]; auto. congruence.
Qed.

Lemma NewAllocator_fields p existing res :
  pool (NewAllocator p existing res) = prefix.Masked p ∧
  ∀ ip, ip ∈ reserved (NewAllocator p existing res) ↔
        ip ∈ res ∧ prefix.Contains (prefix.Masked p) ip = true.
Proof.
  unfold NewAllocator. set (p' := prefix.Masked p).
  set (rs := foldl _ ∅ res).
  assert (∀ l a, pool a = p' → reserved a = rs →
    pool (foldl (λ a l, if usable_lease p' rs l
                then set_lease a (l_NodeKey l) (l_EffectiveIP l) else a) a l) = p' ∧
    reserved (foldl (λ a l, if usable_lease p' rs l
                then set_lease a (l_NodeKey l) (l_EffectiveIP l) else a) a l) = rs) as Hfold.
  { induction l as [|x l IH]; simpl; [done|]. intros a Hp Hr. apply IH; by case_match. }
  destruct (Hfold existing (MkAllocator p' ∅ ∅ rs) eq_refl eq_refl) as [-> ->].
  split; [done|]. intros ip. subst rs.
  rewrite reserved_fold. rewrite elem_of_empty. tauto.
Qed.

Lemma NewAllocator_ok p existing res :
  prefix.wf p = true → consistent_leases existing → alloc_ok (NewAllocator p existing res).
Proof.
  intros Hwf Hc.
  set (a0 := NewAllocator p existing res).
  assert (∀ a l, alloc_ok a →
    (∀ k ip, leases a !! k = Some ip → MkLease k ip ∈ existing) →
    (∀ ip k, used a !! ip = Some k → MkLease k ip ∈ existing) → l ⊆ existing →
    alloc_ok (foldl (λ a l, if usable_lease (pool a) (reserved a) l
                then set_lease a (l_NodeKey l) (l_EffectiveIP l) else a) a l)) as Hgen.
  { intros a l; revert a; induction l as [|[k ip] l IH]; intros a Ha Hl Hu Hsub; [done|].
    simpl. pose proof (Hsub (MkLease k ip) ltac:(left)) as Hin.
    assert (l ⊆ existing) as Hsub' by (intros x Hx; apply Hsub; by right).
    destruct (usable_lease (pool a) (reserved a) (MkLease k ip)) eqn:Hus;
      [|by apply IH].
    unfold usable_lease in Hus. simpl in Hus. rewrite !andb_true_iff in Hus.
    destruct Hus as [[_ Hcp] Hr%bool_decide_eq_true].
    apply IH; [| | |done].
    - apply set_lease_ok; [done|done| |].
      + split; [done|]. destruct (used a !! ip) as [k'|] eqn:E; [|auto].
        right. f_equal. apply (Hc (MkLease k' ip) (MkLease k ip)); auto.
      + intros k' Hk'. apply (Hc (MkLease k' ip) (MkLease k ip)); auto.
    - intros k' ip'. simpl. rewrite lookup_insert. case_decide; [intros [= <-]; by subst|auto].
    - intros ip' k'. simpl. rewrite lookup_insert. case_decide; [intros [= <-]; by subst|auto]. }
  unfold a0, NewAllocator. set (p' := prefix.Masked p). set (rs := foldl _ ∅ res).
  assert (∀ a l, pool a = p' → reserved a = rs →
    foldl (λ a l, if usable_lease p' rs l
                then set_lease a (l_NodeKey l) (l_EffectiveIP l) else a) a l =
    foldl (λ a l, if usable_lease (pool a) (reserved a) l
                then set_lease a (l_NodeKey l) (l_EffectiveIP l) else a) a l) as Heq.
  { intros a l; revert a; induction l as [|x l IH]; intros a Hp Hr; simpl; [done|].
    rewrite Hp, Hr. apply IH; by case_match. }
  rewrite Heq by done. apply Hgen; [|done..].
  split; [by apply Masked_masked|]. intros k ip. simpl. by rewrite lookup_empty.
Qed.

(** Of leases with distinct keys the allocator holds the usable ones. *)
Lemma NewAllocator_leases p existing res l : NoDup (l_NodeKey <$> existing) → l ∈ existing →
  usable_lease (prefix.Masked p) (reserved (NewAllocator p existing res)) l = true →
  leases (NewAllocator p existing res) !! l_NodeKey l = Some (l_EffectiveIP l).
Proof.
  intros Hnd Hl.
  assert (Hres : reserved (NewAllocator p existing res) = reserved (NewAllocator p [] res)).
  { apply set_eq. intros ip. by rewrite !(proj2 (NewAllocator_fields _ _ _)). }
  rewrite Hres. unfold NewAllocator at 1 2. cbn [foldl reserved].
  set (p' := prefix.Masked p). set (rs := foldl _ ∅ res). generalize (MkAllocator p' ∅ ∅ rs). clear Hres.
  induction existing as [|x existing IH]; intros a Hus; [by apply elem_of_nil in Hl|]. simpl.
  rewrite fmap_cons in Hnd. apply NoDup_cons in Hnd as [Hx Hnd].
  apply elem_of_cons in Hl as [<-|Hl]; [|by apply IH]. rewrite Hus.
  assert (∀ a, leases (foldl (λ a l, if usable_lease p' rs l
      then set_lease a (l_NodeKey l) (l_EffectiveIP l) else a) a existing) !! l_NodeKey l = leases a !! l_NodeKey l) as ->.
  { clear IH Hnd. induction existing as [|y existing IH]; intros b; [done|]. simpl.
    rewrite fmap_cons, not_elem_of_cons in Hx. destruct Hx as [Hy Hx]. rewrite IH by done.
    destruct (usable_lease p' rs y); [|done]. simpl. by rewrite lookup_insert_ne. }
  simpl. by rewrite lookup_insert_eq.
Qed.

(** ** [Assign] *)

(** What holds of the allocator and the plan after the nodes [pre]. *)
Record assign_inv (a : Allocator) (pre : list Node) (s : Allocator * Plan) : Prop := {
  ai_ok : alloc_ok s.1;
  ai_pool : pool s.1 = pool a ∧ reserved s.1 = reserved a;
  ai_grows : leases a ⊆ leases s.1;
  ai_plan k ip : byKey s.2 !! k = Some ip → leases s.1 !! k = Some ip ∧ k ∈ node_key <$> pre;
  ai_all n : n ∈ pre → is_Some (byKey s.2 !! node_key n);
  ai_leases l : l ∈ Leases s.2 → byKey s.2 !! l_NodeKey l = Some (l_EffectiveIP l);
  ai_listed k ip : byKey s.2 !! k = Some ip → MkLease k ip ∈ Leases s.2;
  ai_length : length (Leases s.2) = length pre
}.

Lemma assign_inv_add a pre a1 a2 out n ip :
  assign_inv a pre (a1, out) → alloc_ok a2 → pool a2 = pool a1 → reserved a2 = reserved a1 →
  leases a1 ⊆ leases a2 → leases a2 !! node_key n = Some ip →
  assign_inv a (pre ++ [n]) (a2, plan_add out (node_key n) ip).
Proof.
  intros [Ho [Hp Hr] Hg Hpl Hall Hls Hli Hlen] Ho2 Hp2 Hr2 Hsub Hip.
  simpl in *. split; simpl.
  - done.
  - split; congruence.
  - by transitivity (leases a1).
  - intros k ip'. rewrite lookup_insert, fmap_app. case_decide as Hk.
    + intros [= <-]. subst. split; [done|]. apply elem_of_app. right. apply list_elem_of_singleton. done.
    + intros [Hk1 Hk2]%Hpl. split; [by eapply lookup_weaken|]. apply elem_of_app. by left.
  - intros n' [?| ->%list_elem_of_singleton]%elem_of_app.
    + rewrite lookup_insert. case_decide; eauto.
    + rewrite lookup_insert_eq. eauto.
  - intros l [Hl| ->%list_elem_of_singleton]%elem_of_app; simpl.
    + rewrite lookup_insert. case_decide as Hk; [|by apply Hls].
      apply Hls in Hl. rewrite <-Hk in Hl. apply Hpl in Hl as [Hl _].
      assert (leases a2 !! node_key n = Some (l_EffectiveIP l))
        by (by eapply lookup_weaken). congruence.
    + by rewrite lookup_insert_eq.
  - intros k ip'. rewrite lookup_insert, elem_of_snoc. case_decide as Hk; [intros [= <-]; subst; auto|auto].
  - rewrite !length_app. simpl. lia.
Qed.

(** The first loop has looked at every node. *)
Lemma Assign_checked a nodes r n : Assign a nodes = Ok r → n ∈ nodes → addr.IsValid (n_CanonicalIP n) = true.
Proof.
  unfold Assign. intros (u & H & _)%bind_ok_inv. revert u H.
  induction nodes as [|x nodes IH]; intros u H Hn; [by apply elem_of_nil in Hn|]. cbn [foldM] in H.
  apply bind_ok_inv in H as ([] & Hx & H). apply elem_of_cons in Hn as [->|Hn]; [|by eapply IH].
  unfold check_node in Hx. by destruct (addr.IsValid (n_CanonicalIP x)).
Qed.

Lemma Assign_inv a nodes a' plan :
  alloc_ok a → Assign a nodes = Ok (a', plan) →
  assign_inv a nodes (a', plan).
Proof.
  intros Ha. unfold Assign. intros (_ & _ & H)%bind_ok_inv.
  apply bind_ok_inv in H as ([a1 out] & Hf & [= <- <-]).
  assert (assign_inv a nodes (a1, out)) as Hinv.
  { apply (foldM_ind (assign_inv a) _ _ _ _ Hf).
    - split; simpl; try done.
      + intros n H. by apply elem_of_nil in H.
      + intros l H. by apply elem_of_nil in H.
    - intros pre n [a2 o2] s3 _ Hinv. unfold assign_one.
      destruct (leases a2 !! node_key n) as [ip|] eqn:El; simpl.
      + intros [= <-]. apply (assign_inv_add a pre a2); try done. apply Hinv.
      + intros (ip & Hn & [= <-])%bind_ok_inv.
        destruct (nextSynthetic_ok _ _ _ (ai_ok _ _ _ Hinv) Hn) as [Hok _].
        apply (assign_inv_add a pre a2); try done; simpl.
        * by apply insert_subseteq.
        * apply lookup_insert_eq. }
  destruct Hinv as [Ho Hp Hg Hpl Hall Hls Hli Hlen]. split; simpl in *; try done.
  - intros l. autorewrite with tailmix. apply Hls.
  - intros k ip ?%Hli. by autorewrite with tailmix.
  - by rewrite length_go_sort.
Qed.

(** ** What the allocator promises *)

Definition test_pool : Prefix := default prefix.zero (ParsePrefix "10.9.0.0/29").
Definition test_addr (s : string) : Addr := default AddrInvalid (ParseAddr s).
Definition test_nodes : list Node :=
  [MkNode "work" "n1" (test_addr "100.64.0.1"); MkNode "home" "n1" (test_addr "100.64.0.1")].
Definition test_existing : list Lease :=
  [MkLease (MkKey "home" "n1" (test_addr "100.64.0.1")) (test_addr "10.9.0.2")].

(** The addresses of a plan: every node has exactly one, two targets never
    share one, each is an unreserved address of the pool, and a target that
    already held a lease keeps it. *)
Theorem Assign_sound p existing res nodes a' plan :
  prefix.wf p = true → consistent_leases existing →
  Assign (NewAllocator p existing res) nodes = Ok (a', plan) →
  (∀ n, n ∈ nodes → is_Some (byKey plan !! node_key n)) ∧
  (∀ k1 k2 ip, byKey plan !! k1 = Some ip → byKey plan !! k2 = Some ip → k1 = k2) ∧
  (∀ k ip, byKey plan !! k = Some ip →
     prefix.Contains (prefix.Masked p) ip = true ∧ ip ∉ res) ∧
  (∀ k ip, k ∈ node_key <$> nodes → leases (NewAllocator p existing res) !! k = Some ip →
     byKey plan !! k = Some ip) ∧
  (∀ l, l ∈ Leases plan → byKey plan !! l_NodeKey l = Some (l_EffectiveIP l)).
Proof.
  intros Hwf Hc HA. pose proof (NewAllocator_ok p existing res Hwf Hc) as Hok.
  destruct (NewAllocator_fields p existing res) as [Hp Hr].
  destruct (Assign_inv _ _ _ _ Hok HA) as [Ho [Hp' Hr'] Hg Hpl Hall Hls _ _]. simpl in *.
  split; [done|]. split.
  { intros k1 k2 ip [H1 _]%Hpl [H2 _]%Hpl. by apply (alloc_ok_inj a' _ _ ip). }
  split; [|split; [|done]].
  - intros k ip [Hk _]%Hpl. destruct (ok_leases _ Ho _ _ Hk) as [[H1 H2] _].
    rewrite Hp', Hp in H1. split; [done|]. rewrite Hr', Hr in H2. tauto.
  - intros k ip (n & -> & Hn)%list_elem_of_fmap Hk. destruct (Hall n Hn) as [ip' Hip'].
    rewrite Hip'. apply Hpl in Hip' as [Hip' _].
    assert (leases a' !! node_key n = Some ip) by (by eapply lookup_weaken). congruence.
Qed.

Definition test_plan : result alloc_error (Allocator * Plan) :=
  Assign (NewAllocator test_pool test_existing []) test_nodes.

Lemma Assign_sound_witness :
  ∃ a' plan, test_plan = Ok (a', plan) ∧
  (∀ k1 k2 ip, byKey plan !! k1 = Some ip → byKey plan !! k2 = Some ip → k1 = k2).
Proof.
  destruct test_plan as [[a' plan]|e] eqn:E; [|exfalso; revert E; vm_compute; discriminate].
  assert (consistent_leases test_existing) as Hc.
  { intros l1 l2 ->%list_elem_of_singleton ->%list_elem_of_singleton. done. }
  assert (prefix.wf test_pool = true) as Hwf by (vm_compute; reflexivity).
  destruct (Assign_sound test_pool test_existing [] test_nodes a' plan Hwf Hc E)
    as (_ & Hinj & _).
  exists a', plan. by split.
Defined.

(** The search of the pool terminates with the lowest address the target
    may take, and reports exhaustion exactly when every address of the pool is
    reserved or held by another target. *)
Theorem nextSynthetic_least p existing res key :
  prefix.wf p = true →
  let a := NewAllocator p existing res in
  search_from (search_fuel a) a key (p_addr (pool a)) ≠ OutOfFuel ∧
  match nextSynthetic a key with
  | Ok ip => prefix.Contains (pool a) ip = true ∧ free a key ip ∧
             ∀ ip', prefix.Contains (pool a) ip' = true → free a key ip' →
                    addr.value ip <= addr.value ip'
  | Err e => e = ErrPoolExhausted (pool a) key ∧
             ∀ ip', prefix.Contains (pool a) ip' = true → ¬ free a key ip'
  end.
Proof.
  intros Hwf a. destruct (NewAllocator_fields p existing res) as [Hp _].
  assert (masked (pool a)) by (subst a; rewrite Hp; auto with tailmix).
  split; [|by apply nextSynthetic_spec].
  destruct (prefix.IsValid (pool a)) eqn:Hv; [|by simpl; rewrite Contains_invalid].
  rewrite (masked_first _ ltac:(done) Hv), search_from_scan.
  apply (scan_enough _ _ ltac:(done) Hv (reserved a ∪ dom (used a))); [lia|apply taken_known|unfold search_fuel; lia].
Qed.

Lemma nextSynthetic_least_witness :
  let a := NewAllocator test_pool test_existing [] in
  search_from (search_fuel a) a (MkKey "work" "n1" (test_addr "100.64.0.1")) (p_addr (pool a))
    ≠ OutOfFuel.
Proof.
  assert (prefix.wf test_pool = true) as Hwf by (vm_compute; reflexivity).
  exact (proj1 (nextSynthetic_least test_pool test_existing [] _ Hwf)).
Defined.

(** Exhaustion is real: a /31 whose two addresses are taken. *)
Example pool_exhausted :
  nextSynthetic (NewAllocator (default prefix.zero (ParsePrefix "10.9.0.2/31"))
                   test_existing [test_addr "10.9.0.3"])
    (MkKey "work" "n1" (test_addr "100.64.0.1")) =
  Err (ErrPoolExhausted (default prefix.zero (ParsePrefix "10.9.0.2/31"))
         (MkKey "work" "n1" (test_addr "100.64.0.1"))).
Proof. by vm_compute. Qed.
