(* ===== verification/Activity.v ===== *)
(** * When a dormant lease may be reclaimed

    The [ActivityTracker] of [src/effectiveip/activity.go].  Its mutex makes
    each method atomic, so the tracker is a state machine with one transition
    per method; the clock reading of a method is its [now] argument, in
    nanoseconds of Go's monotonic clock. *)

From S2P Require Import Prelude GoStrings Netip EffectiveIP.
Local Open Scope Z_scope.

(** [time.Hour]. *)
Definition LeaseRetention : Z := 3600 * 1000000000.

Record activityEntry : Type := MkEntry {
  e_key : NodeKey; e_lastSeen : Z; e_present : bool }.
Abbreviation ActivityTracker := (gmap Addr activityEntry).

Definition leaseAddr (l : Lease) : option Addr :=
  if negb (addr.IsValid (k_CanonicalIP (l_NodeKey l))) || negb (addr.IsValid (l_EffectiveIP l))
  then None else Some (addr.Unmap (l_EffectiveIP l)).

(** One iteration of the loop of [SetLeases]; [old] are the entries before. *)
Definition set_one (now : Z) (old : ActivityTracker) (entries : ActivityTracker)
    (l : Lease) : ActivityTracker :=
  match leaseAddr l with
  | None => entries
  | Some effective =>
    match entries !! effective with
    | Some _ => entries
    | None =>
      let fresh := MkEntry (l_NodeKey l) now true in
      <[effective := match old !! effective with
                     | Some e => if decide (e_key e = l_NodeKey l) then e else fresh
                     | None => fresh
                     end]> entries
    end
  end.
Definition SetLeases (a : ActivityTracker) (ls : list Lease) (now : Z) : ActivityTracker :=
  foldl (set_one now a) ∅ ls.

Definition ObserveOutbound (a : ActivityTracker) (effective : Addr) (now : Z) : ActivityTracker :=
  let effective := addr.Unmap effective in
  match a !! effective with
  | None => a
  | Some e =>
    if e_present e then a
    else if e_lastSeen e <? now
    then <[effective := MkEntry (e_key e) now (e_present e)]> a
    else a
  end.

(** The [switch] of [Retain]: the entry a lease gets, or [None] to drop it. *)
Definition retain_entry (known : option activityEntry) (l : Lease)
    (present : gset NodeKey) (observable : gset string) (now : Z) : option activityEntry :=
  if (l_NodeKey l ∈? present) ||
     negb (bool_decide (k_ProfileID (l_NodeKey l) ∈ observable))
  then Some (MkEntry (l_NodeKey l) now true)
  else match known with
       | None => Some (MkEntry (l_NodeKey l) now false)
       | Some e =>
         if e_present e then Some (MkEntry (l_NodeKey l) now false)
         else if LeaseRetention <=? now - e_lastSeen e then None
         else Some e
       end.
(** [known = known && entry.key == lease.NodeKey]. *)
Definition known_entry (a : ActivityTracker) (effective : Addr) (k : NodeKey) :
    option activityEntry :=
  match a !! effective with
  | Some e => if decide (e_key e = k) then Some e else None
  | None => None
  end.
Definition retain_one (a : ActivityTracker) (present : gset NodeKey)
    (observable : gset string) (now : Z) (s : ActivityTracker * list Lease) (l : Lease) :
    ActivityTracker * list Lease :=
  let '(entries, out) := s in
  match leaseAddr l with
  | None => s
  | Some effective =>
    match entries !! effective with
    | Some _ => s
    | None =>
      match retain_entry (known_entry a effective (l_NodeKey l)) l present observable now with
      | None => s
      | Some e => (<[effective := e]> entries, out ++ [l])
      end
    end
  end.
Definition Retain (a : ActivityTracker) (ls : list Lease) (present : gset NodeKey)
    (observable : gset string) (now : Z) : ActivityTracker * list Lease :=
  foldl (retain_one a present observable now) (∅, []) ls.

(** ** The tracker as a state machine *)

Inductive event : Type :=
  | EvSetLeases (ls : list Lease) (now : Z)
  | EvObserve (effective : Addr) (now : Z)
  | EvRetain (ls : list Lease) (present : gset NodeKey) (observable : gset string) (now : Z).

Definition event_time (ev : event) : Z :=
  match ev with
  | EvSetLeases _ now | EvObserve _ now | EvRetain _ _ _ now => now
  end.
Definition event_leases (ev : event) : option (list Lease) :=
  match ev with
  | EvSetLeases ls _ | EvRetain ls _ _ _ => Some ls
  | EvObserve _ _ => None
  end.
(** The next state, and the leases the event returned. *)
Definition step (a : ActivityTracker) (ev : event) : ActivityTracker * option (list Lease) :=
  match ev with
  | EvSetLeases ls now => (SetLeases a ls now, None)
  | EvObserve ip now => (ObserveOutbound a ip now, None)
  | EvRetain ls p o now => let '(a', out) := Retain a ls p o now in (a', Some out)
  end.
Fixpoint run (a : ActivityTracker) (evs : list event) :
    ActivityTracker * list (list Lease) :=
  match evs with
  | [] => (a, [])
  | ev :: evs =>
    let '(a', out) := step a ev in
    let '(a'', outs) := run a' evs in
    (a'', option_list out ++ outs)
  end.

(** ** Facts about the two loops *)

(** [l] is the only lease of [ls] for the effective address [ip]. *)
Definition sole_lease (ls : list Lease) (ip : Addr) (l : Lease) : Prop :=
  leaseAddr l = Some ip ∧ ∃ l1 l2, ls = l1 ++ l :: l2 ∧
  ∀ x, x ∈ l1 ++ l2 → leaseAddr x ≠ Some ip.

Lemma set_skip now old ls acc ip :
  (∀ x, x ∈ ls → leaseAddr x ≠ Some ip) →
  foldl (set_one now old) acc ls !! ip = acc !! ip.
Proof.
  revert acc; induction ls as [|x ls IH]; intros acc H; simpl; [done|].
  rewrite IH by (intros y Hy; apply H; by right). pose proof (H x ltac:(left)) as Hx.
  unfold set_one. destruct (leaseAddr x) as [e|]; [|done].
  destruct (acc !! e); [done|]. by rewrite lookup_insert_ne by congruence.
Qed.

Lemma SetLeases_lookup a ls now ip l :
  sole_lease ls ip l →
  SetLeases a ls now !! ip =
    Some (default (MkEntry (l_NodeKey l) now true) (known_entry a ip (l_NodeKey l))).
Proof.
  intros (Hl & l1 & l2 & -> & Hne). unfold SetLeases. rewrite foldl_app. simpl.
  rewrite set_skip by (intros x Hx; apply Hne, elem_of_app; by right).
  unfold set_one at 1. rewrite Hl.
  rewrite set_skip by (intros x Hx; apply Hne, elem_of_app; by left).
  rewrite lookup_empty, lookup_insert_eq. unfold known_entry.
  destruct (a !! ip); [|done]. by case_decide.
Qed.

Lemma retain_skip a p o now ls s ip :
  (∀ x, x ∈ ls → leaseAddr x ≠ Some ip) →
  (foldl (retain_one a p o now) s ls).1 !! ip = s.1 !! ip ∧
  ∀ l, leaseAddr l = Some ip →
       l ∈ (foldl (retain_one a p o now) s ls).2 ↔ l ∈ s.2.
Proof.
  revert s; induction ls as [|x ls IH]; intros s H; simpl; [done|].
  pose proof (H x ltac:(left)) as Hx.
  assert ((retain_one a p o now s x).1 !! ip = s.1 !! ip ∧
    ∀ l, leaseAddr l = Some ip → l ∈ (retain_one a p o now s x).2 ↔ l ∈ s.2) as [H1 H2].
  { destruct s as [entries out]. simpl. destruct (leaseAddr x) as [e|] eqn:Ex; [|done].
    destruct (entries !! e); [done|]. destruct (retain_entry _ _ _ _ _); [|done]. simpl.
    split; [by rewrite lookup_insert_ne by congruence|]. intros l Hl.
    rewrite elem_of_snoc. split; [|auto].
    intros [?| ->]; [done|congruence]. }
  destruct (IH (retain_one a p o now s x)) as [H3 H4].
  { intros y Hy. apply H. by right. }
  split; [congruence|]. intros l Hl. by rewrite H4, H2.
Qed.

(** What [Retain] does with the one lease it is given for an address. *)
Lemma Retain_lookup a p o now ls ip l :
  sole_lease ls ip l →
  (Retain a ls p o now).1 !! ip = retain_entry (known_entry a ip (l_NodeKey l)) l p o now ∧
  (l ∈ (Retain a ls p o now).2 ↔
     is_Some (retain_entry (known_entry a ip (l_NodeKey l)) l p o now)).
Proof.
  intros (Hl & l1 & l2 & -> & Hne). unfold Retain. rewrite foldl_app. simpl.
  set (s := foldl (retain_one a p o now) (∅, []) l1).
  destruct (retain_skip a p o now l1 (∅, []) ip) as [H1 H2].
  { intros x Hx. apply Hne, elem_of_app. by left. } fold s in H1, H2.
  destruct (retain_skip a p o now l2 (retain_one a p o now s l) ip) as [H3 H4].
  { intros x Hx. apply Hne, elem_of_app. by right. }
  rewrite H3, H4 by done. destruct s as [entries out]. simpl in *.
  rewrite Hl, H1, lookup_empty. specialize (H2 l Hl). rewrite elem_of_nil in H2.
  destruct (retain_entry _ _ _ _ _) as [e|] eqn:He; simpl.
  - rewrite lookup_insert_eq, elem_of_snoc. split; [done|].
    split; [eauto|]. auto.
  - rewrite H1, lookup_empty. split; [done|]. rewrite H2.
    split; [done|]. by intros [? ?].
Qed.

(** [Retain] returns some of its leases, in order. *)
Lemma Retain_sublist a p o now ls : sublist (Retain a ls p o now).2 ls.
Proof.
  unfold Retain.
  assert (∀ s, ∃ l', (foldl (retain_one a p o now) s ls).2 = s.2 ++ l' ∧ sublist l' ls) as H.
  { induction ls as [|x ls IH]; intros s; simpl; [exists []; by rewrite app_nil_r|].
    destruct (IH (retain_one a p o now s x)) as (l' & -> & Hsub).
    assert ((retain_one a p o now s x).2 = s.2 ∨ (retain_one a p o now s x).2 = s.2 ++ [x])
      as [->| ->].
    { destruct s as [en out]. simpl. repeat case_match; auto. }
    - exists l'. split; [done|by constructor].
    - exists (x :: l'). rewrite <-app_assoc. split; [done|by constructor]. }
  destruct (H (∅, [])) as (l' & -> & ?). done.
Qed.

(** ** The grace period *)

(** The target of [l] is present, or was seen at [t0] or later. *)
Definition fresh_since (t0 : Z) (a : ActivityTracker) (ip : Addr) (l : Lease) : Prop :=
  ∃ e, known_entry a ip (l_NodeKey l) = Some e ∧ (e_present e = true ∨ t0 <= e_lastSeen e).

Lemma known_entry_some a ip k e : known_entry a ip k = Some e ↔ a !! ip = Some e ∧ e_key e = k.
Proof.
  unfold known_entry. destruct (a !! ip) as [e'|]; [|naive_solver].
  case_decide; naive_solver.
Qed.

(** An event within [LeaseRetention] of [t0] that still lists the lease keeps
    it, and keeps its record fresh. *)
Lemma step_fresh t0 a ip l ev :
  fresh_since t0 a ip l → t0 <= event_time ev < t0 + LeaseRetention →
  (∀ ls, event_leases ev = Some ls → sole_lease ls ip l) →
  fresh_since t0 (step a ev).1 ip l ∧
  (∀ out, (step a ev).2 = Some out → l ∈ out).
Proof.
  intros (e & [He Hk]%known_entry_some & Hf) Ht Hls.
  destruct ev as [ls now|ip' now|ls p o now]; simpl in *.
  - split; [|done]. exists e. split; [|done]. apply known_entry_some.
    rewrite (SetLeases_lookup a ls now ip l) by auto.
    by rewrite (proj2 (known_entry_some _ _ _ e)).
  - split; [|done]. unfold fresh_since, ObserveOutbound.
    setoid_rewrite known_entry_some.
    destruct (a !! addr.Unmap ip') as [e'|] eqn:He'; [|eauto].
    destruct (e_present e') eqn:Hp; [eauto|].
    destruct (Z.ltb_spec (e_lastSeen e') now); [|eauto].
    destruct (decide (addr.Unmap ip' = ip)) as [Heq|Hne].
    + assert (e' = e) as -> by congruence. subst ip. exists (MkEntry (e_key e) now (e_present e)).
      rewrite lookup_insert_eq. simpl. rewrite Hp. split; [by split|]. right. lia.
    + rewrite lookup_insert_ne by done. eauto.
  - destruct (Retain_lookup a p o now ls ip l (Hls _ eq_refl)) as [H1 H2].
    destruct (Retain a ls p o now) as [a' out]. simpl in *.
    rewrite (proj2 (known_entry_some a ip (l_NodeKey l) e)) in H1, H2 by done.
    assert (∃ e', retain_entry (Some e) l p o now = Some e' ∧ e_key e' = l_NodeKey l ∧
                  (e_present e' = true ∨ t0 <= e_lastSeen e')) as (e' & Hr & Hk' & Hf').
    { unfold retain_entry. case_match; [eexists; split; [done|]; auto|].
      destruct (e_present e) eqn:Hp; [eexists; split; [done|]; split; [done|right; simpl; lia]|].
      destruct Hf as [?|Hf]; [congruence|].
      rewrite (proj2 (Z.leb_gt _ _)) by lia. eauto. }
    split.
    + exists e'. rewrite known_entry_some. by rewrite H1.
    + intros out' [= <-]. rewrite H2, Hr. eauto.
Qed.

Definition tl_lease : Lease :=
  MkLease (MkKey "work" "n1" (Addr4 1681915905)) (Addr4 1686044674).

(** C31. A lease survives its grace period.  Once its target was present, or
    was last used at [t0], every observation in the hour after [t0] returns the
    lease, whatever other targets come and go and however often the target is
    missed. *)
Theorem grace_period t0 a ip l evs :
  fresh_since t0 a ip l →
  (∀ ev, ev ∈ evs → t0 <= event_time ev < t0 + LeaseRetention ∧
         ∀ ls, event_leases ev = Some ls → sole_lease ls ip l) →
  fresh_since t0 (run a evs).1 ip l ∧ ∀ out, out ∈ (run a evs).2 → l ∈ out.
Proof.
  revert a; induction evs as [|ev evs IH]; intros a Hf Hevs; simpl.
  { split; [done|]. intros out ?%elem_of_nil. done. }
  destruct (Hevs ev ltac:(left)) as [Ht Hls].
  pose proof (step_fresh t0 a ip l ev Hf Ht Hls) as [Hf' Hout].
  destruct (step a ev) as [a' o]. simpl in *.
  specialize (IH a' Hf' ltac:(intros; apply Hevs; by right)).
  destruct (run a' evs) as [a'' outs]. simpl in *. destruct IH as [IH1 IH2].
  split; [done|]. intros out [Ho|Ho]%elem_of_app; [|auto].
  destruct o as [o'|]; simpl in Ho; [|by apply elem_of_nil in Ho].
  apply list_elem_of_singleton in Ho as ->. by apply Hout.
Qed.

Lemma grace_period_witness :
  let a := SetLeases ∅ [tl_lease] 0 in
  let evs := [EvRetain [tl_lease] ∅ {["work"]} 5; EvObserve (Addr4 1686044674) 9;
              EvRetain [tl_lease] ∅ {["work"]} (LeaseRetention - 1)] in
  fresh_since 0 (run a evs).1 (Addr4 1686044674) tl_lease.
Proof.
  assert (sole_lease [tl_lease] (Addr4 1686044674) tl_lease) as Hs.
  { split; [reflexivity|]. exists [], []. split; [reflexivity|].
    intros x Hx. by apply elem_of_nil in Hx. }
  apply grace_period.
  - exists (MkEntry (l_NodeKey tl_lease) 0 true). split; [by vm_compute|by left].
  - intros ev Hev. rewrite !elem_of_cons, elem_of_nil in Hev.
    destruct Hev as [->|[->|[->|[]]]];
      (split; [split; vm_compute; (discriminate || reflexivity)|]);
      intros ls Hls; cbn [event_leases] in Hls; (discriminate || injection Hls as <-);
      exact Hs.
Defined.

(** What starts and what ends a grace period: a present (or unobservable)
    target is always retained and counts as seen now; a target missed for the
    first time, or unknown, is retained and its hour starts now; and a target
    is dropped exactly when it is missed again an hour or more after it was
    last seen or used. *)
Theorem Retain_cases a ls present observable now ip l :
  sole_lease ls ip l →
  let seen := (l_NodeKey l ∈? present) ||
              negb (bool_decide (k_ProfileID (l_NodeKey l) ∈ observable)) in
  let '(a', out) := Retain a ls present observable now in
  (seen = true → l ∈ out ∧ a' !! ip = Some (MkEntry (l_NodeKey l) now true)) ∧
  (seen = false → (∀ e, known_entry a ip (l_NodeKey l) = Some e → e_present e = true) →
     l ∈ out ∧ a' !! ip = Some (MkEntry (l_NodeKey l) now false)) ∧
  (l ∉ out ↔ seen = false ∧ ∃ e, known_entry a ip (l_NodeKey l) = Some e ∧
     e_present e = false ∧ LeaseRetention <= now - e_lastSeen e) ∧
  (l ∉ out → a' !! ip = None).
Proof.
  intros Hs seen. destruct (Retain_lookup a present observable now ls ip l Hs) as [H1 H2].
  destruct (Retain a ls present observable now) as [a' out]. simpl in *.
  rewrite H1, H2. unfold retain_entry. fold seen.
  destruct seen; [|destruct (known_entry a ip (l_NodeKey l)) as [e|];
    [destruct (e_present e) eqn:Hp; [|destruct (Z.leb_spec LeaseRetention (now - e_lastSeen e))]|]].
  - split_and!; [by eauto|done| |by intros []; eauto].
    split; [by intros []; eauto|by intros [? _]].
  - split_and!; [done|by eauto| |by intros []; eauto].
    split; [by intros []; eauto|]. intros (_ & e' & [= <-] & ? & _). congruence.
  - split_and!; [done|intros _ Hall; specialize (Hall e eq_refl); congruence| |done].
    split; [eauto 6|]. by intros _ [? ?].
  - split_and!; [done|intros _ Hall; specialize (Hall e eq_refl); congruence| |by intros []; eauto].
    split; [by intros []; eauto|]. intros (_ & e' & [= <-] & _ & ?). lia.
  - split_and!; [done|by eauto| |by intros []; eauto].
    split; [by intros []; eauto|]. intros (_ & e' & ? & _). done.
Qed.

Lemma Retain_cases_witness :
  let '(a', out) := Retain {[Addr4 1686044674 := MkEntry (l_NodeKey tl_lease) 0 false]}
                      [tl_lease] ∅ {["work"]} LeaseRetention in
  tl_lease ∉ out → a' !! Addr4 1686044674 = None.
Proof.
  assert (sole_lease [tl_lease] (Addr4 1686044674) tl_lease) as Hs.
  { split; [reflexivity|]. exists [], []. split; [reflexivity|].
    intros x Hx. by apply elem_of_nil in Hx. }
  pose proof (Retain_cases {[Addr4 1686044674 := MkEntry (l_NodeKey tl_lease) 0 false]}
    [tl_lease] ∅ {["work"]} LeaseRetention (Addr4 1686044674) tl_lease Hs) as H.
  cbv zeta in H. destruct (Retain _ _ _ _ _) as [a' out]. apply H.
Defined.

(** The hour really ends: the lease is gone at its end. *)
Example reclaimed :
  (run (SetLeases ∅ [tl_lease] 0)
     [EvRetain [tl_lease] ∅ {["work"]} 5;
      EvRetain [tl_lease] ∅ {["work"]} (5 + LeaseRetention)]).2 = [[tl_lease]; []].
Proof. by vm_compute. Qed.
