(* ===== verification/RoutingTable.v ===== *)
(** * Longest-prefix-match tables

    The interface that [github.com/gaissmai/bart.Table] offers and that the
    packet mapper and the SOCKS router rely on: tables from IP prefixes to
    values with exact lookup ([Get]) and longest-prefix lookup ([Lookup]).
    The library is not part of the repository, so the components are written
    and proved against the class [LPM]; [PrefixMap] is a simple instance, used
    to evaluate the components on concrete tables. *)

From S2P Require Import Prelude GoStrings Netip.
Import netip_facts.
Local Open Scope Z_scope.

(** [p] is the longest prefix among those that satisfy [has] and contain [ip]. *)
Definition longest (has : Prefix → Prop) (ip : Addr) (p : Prefix) : Prop :=
  has p ∧ prefix.Contains p ip = true ∧
  ∀ p', has p' → prefix.Contains p' ip = true → p_bits p' <= p_bits p.

Class LPM (T : Type → Type) : Type := {
  lpm_new {V} : T V;
  Insert {V} : Prefix → V → T V → T V;
  Get {V} : Prefix → T V → option V;
  Lookup {V} : Addr → T V → option V
}.

(** The documented behaviour: a table maps masked prefixes to values, an
    insertion of an invalid prefix is ignored, and [Lookup] is the longest
    match. *)
Class LPMLaws (T : Type → Type) `{LPM T} : Prop := {
  Get_new {V} p : Get p (lpm_new : T V) = None;
  Get_Insert {V} p q (v : V) (t : T V) :
    prefix.IsValid p = true →
    Get q (Insert p v t) =
      if decide (prefix.Masked q = prefix.Masked p) then Some v else Get q t;
  Insert_invalid {V} p (v : V) (t : T V) :
    prefix.IsValid p = false → Insert p v t = t;
  Get_same {V} p q (t : T V) :
    prefix.Masked p = prefix.Masked q → Get p t = Get q t;
  Lookup_Some {V} ip (t : T V) v :
    Lookup ip t = Some v ↔
    ∃ p, longest (λ p, masked p ∧ is_Some (Get p t)) ip p ∧ Get p t = Some v;
  Lookup_None {V} ip (t : T V) :
    Lookup ip t = None ↔
    ∀ p, masked p → is_Some (Get p t) → prefix.Contains p ip = false
}.

(** A property of every value of a table is kept by insertions and holds of
    what a lookup finds. *)
Section values.
Context {T : Type → Type} `{LPMLaws T} {V : Type} (P : V → Prop).

Definition table_all (t : T V) : Prop := ∀ p v, Get p t = Some v → P v.

Lemma table_all_new : table_all lpm_new.
Proof. intros p v. by rewrite Get_new. Qed.
Lemma table_all_Insert p v t : P v → table_all t → table_all (Insert p v t).
Proof.
  intros Hv Ht. destruct (prefix.IsValid p) eqn:Hp; [|by rewrite Insert_invalid].
  intros q w. rewrite Get_Insert by done. case_decide; [by intros [= <-]|apply Ht].
Qed.
Lemma table_all_Lookup t ip v : table_all t → Lookup ip t = Some v → P v.
Proof. intros Ht (p & _ & Hp)%Lookup_Some. by eapply Ht. Qed.
End values.

(** ** An instance *)

(** A finite map from masked prefixes, with their masks checked on lookup. *)
Record PrefixMap (V : Type) : Type := MkPrefixMap { pm_map : gmap Prefix V }.
Arguments MkPrefixMap {V} _.
Arguments pm_map {V} _.

Definition pm_insert {V} (p : Prefix) (v : V) (t : PrefixMap V) : PrefixMap V :=
  if prefix.IsValid p then MkPrefixMap (<[prefix.Masked p := v]> (pm_map t)) else t.
Definition pm_get {V} (p : Prefix) (t : PrefixMap V) : option V :=
  if prefix.IsValid p then pm_map t !! prefix.Masked p else None.
Definition pm_better {V} (ip : Addr) (best : option (Prefix * V)) (e : Prefix * V) :
    option (Prefix * V) :=
  if prefix.wf e.1 && bool_decide (prefix.Masked e.1 = e.1) && prefix.Contains e.1 ip then
    match best with
    | Some b => if p_bits b.1 <? p_bits e.1 then Some e else best
    | None => Some e
    end
  else best.
Definition pm_lookup {V} (ip : Addr) (t : PrefixMap V) : option V :=
  snd <$> foldl (pm_better ip) None (map_to_list (pm_map t)).

#[export] Instance PrefixMap_LPM : LPM PrefixMap := {
  lpm_new _ := MkPrefixMap ∅;
  Insert _ := pm_insert;
  Get _ := pm_get;
  Lookup _ := pm_lookup
}.

Lemma masked_IsValid p a : prefix.Contains p a = true → prefix.IsValid p = true.
Proof.
  destruct (prefix.IsValid p) eqn:E; [done|]. by rewrite Contains_invalid.
Qed.

(** Two masked prefixes of the same length that contain an address agree. *)
Lemma masked_Contains_eq p q a :
  masked p → masked q → prefix.Contains p a = true → prefix.Contains q a = true →
  p_bits p = p_bits q → p = q.
Proof.
  intros Hp Hq Hcp Hcq Hb.
  pose proof (masked_IsValid _ _ Hcp) as Hvp. pose proof (masked_IsValid _ _ Hcq) as Hvq.
  pose proof (masked_base p Hp Hvp) as [Bp Pp]. pose proof (masked_base q Hq Hvq) as [Bq Pq].
  pose proof (prefix_wf_base p (proj2 Hp) Hvp) as [_ Zp].
  pose proof (prefix_wf_base q (proj2 Hq) Hvq) as [_ Zq].
  apply Contains_masked in Hcp as (_ & _ & Lp & Rp); [|done].
  apply Contains_masked in Hcq as (_ & _ & Lq & Rq); [|done].
  assert (psize p = psize q) as Hs by (unfold psize; congruence).
  assert (p_addr p = p_addr q) as Ha.
  { apply addr_eq_by_value; [congruence|done|done|]. fold (base p) (base q).
    rewrite <-Hs in *. revert Bp Bq Rp Rq. generalize (base p / psize p), (base q / psize p).
    intros x y -> -> Rp Rq. f_equal. nia. }
  destruct p, q; simpl in *; congruence.
Qed.

Lemma pm_fold_spec {V} ip (l : list (Prefix * V)) b0 :
  (∀ e, b0 = Some e → masked e.1 ∧ prefix.Contains e.1 ip = true) →
  match foldl (pm_better ip) b0 l with
  | Some b => masked b.1 ∧ prefix.Contains b.1 ip = true ∧ (b ∈ l ∨ b0 = Some b) ∧
              (∀ e, e ∈ l → masked e.1 → prefix.Contains e.1 ip = true → p_bits e.1 <= p_bits b.1) ∧
              (∀ e, b0 = Some e → p_bits e.1 <= p_bits b.1)
  | None => b0 = None ∧ ∀ e, e ∈ l → masked e.1 → prefix.Contains e.1 ip = false
  end.
Proof.
  revert b0; induction l as [|x l IH]; intros b0 H0; simpl.
  { destruct b0 as [b|]; [|split; [done|]; intros e ?%elem_of_nil; done].
    destruct (H0 b eq_refl). split_and!; try done; [by right| |].
    - intros e ?%elem_of_nil. done.
    - intros e [= ->]. lia. }
  assert (∀ e, pm_better ip b0 x = Some e → masked e.1 ∧ prefix.Contains e.1 ip = true) as Hx.
  { intros e. unfold pm_better.
    destruct (_ && _ && _) eqn:Hg; [|apply H0].
    apply andb_true_iff in Hg as [[Hw Hm%bool_decide_eq_true]%andb_true_iff Hc].
    assert (masked x.1) by done.
    destruct b0 as [b|]; [|by intros [= <-]]. case_match; [by intros [= <-]|apply H0]. }
  specialize (IH (pm_better ip b0 x) Hx).
  destruct (foldl _ _ l) as [b|].
  - destruct IH as (Hm & Hc & Hin & Hall & Hb). split_and!; [done|done| | |].
    + destruct Hin as [Hin|Hin]; [left; by right|]. revert Hin. unfold pm_better.
      destruct (_ && _ && _); [|by right].
      destruct b0 as [b1|]; [case_match|]; intros; simplify_eq; auto; left; by left.
    + intros e [->|He]%elem_of_cons Hme Hce; [|by apply Hall].
      destruct (pm_better ip b0 x) as [e'|] eqn:E.
      * specialize (Hb e' eq_refl). revert E. unfold pm_better.
        destruct Hme as [Hme Hwe]. rewrite Hwe, Hce, bool_decide_true by done. simpl.
        destruct b0 as [b1|]; [|intros [= <-]; done].
        destruct (Z.ltb_spec (p_bits b1.1) (p_bits x.1)); intros [= <-]; lia.
      * revert E. unfold pm_better. destruct Hme as [Hme Hwe].
        rewrite Hwe, Hce, bool_decide_true by done. simpl.
        destruct b0; [case_match; done|done].
    + intros e ->. destruct (pm_better ip (Some e) x) as [e'|] eqn:E.
      * specialize (Hb e' eq_refl). revert E. unfold pm_better.
        destruct (_ && _ && _); [|intros [= <-]; done].
        destruct (Z.ltb_spec (p_bits e.1) (p_bits x.1)); intros [= <-]; lia.
      * revert E. unfold pm_better. destruct (_ && _ && _); [case_match; done|done].
  - destruct IH as [Hn Hall].
    assert (b0 = None ∧ (masked x.1 → prefix.Contains x.1 ip = false)) as [-> Hx'].
    { revert Hn. unfold pm_better. destruct (_ && _ && _) eqn:Hg.
      - destruct b0; [case_match; done|done].
      - intros ->. split; [done|]. intros [Hm Hw]. rewrite Hw, bool_decide_true in Hg by done.
        done. }
    split; [done|]. intros e [->|He]%elem_of_cons; auto.
Qed.

#[export] Instance PrefixMap_LPMLaws : LPMLaws PrefixMap.
Proof.
  assert (∀ V p (t : PrefixMap V) ip, masked p → prefix.Contains p ip = true →
    Get p t = pm_map t !! p) as Hget.
  { intros V p t ip [Hm _] Hc%masked_IsValid. simpl. unfold pm_get. by rewrite Hc, Hm. }
  split.
  - intros V p. simpl. unfold pm_get. by case_match.
  - intros V p q v t Hp. simpl. unfold pm_insert, pm_get. rewrite Hp. simpl.
    destruct (prefix.IsValid q) eqn:Hq; rewrite ?lookup_insert.
    + by repeat case_decide; try congruence.
    + case_decide as Heq; [|done]. apply Masked_IsValid in Hp. rewrite <-Heq in Hp.
      unfold prefix.Masked in Hp. rewrite Hq in Hp. done.
  - intros V p v t Hp. simpl. unfold pm_insert. by rewrite Hp.
  - intros V p q t Hpq. simpl. unfold pm_get. rewrite Hpq.
    assert (prefix.IsValid p = prefix.IsValid q) as ->; [|done].
    assert (∀ p, prefix.IsValid (prefix.Masked p) = prefix.IsValid p) as HM.
    { intros p'. destruct (prefix.IsValid p') eqn:E; [by apply Masked_IsValid|]. unfold prefix.Masked. by rewrite E. }
    by rewrite <-(HM p), Hpq, HM.
  - intros V ip t v. simpl. unfold pm_lookup.
    pose proof (pm_fold_spec ip (map_to_list (pm_map t)) None ltac:(done)) as Hs.
    destruct (foldl _ _ _) as [[p w]|]; simpl.
    + destruct Hs as (Hm & Hc & [Hin%elem_of_map_to_list|?] & Hall & _); [|done]. simpl in *.
      assert (longest (λ p, masked p ∧ is_Some (Get p t)) ip p) as Hl.
      { split; [split; [done|rewrite (Hget _ _ _ ip); eauto]|]. split; [done|].
        intros p' [Hm' [w' Hw']] Hc'. rewrite (Hget _ _ _ ip) in Hw' by done.
        apply (Hall (p', w')); [|done..]. by apply elem_of_map_to_list. }
      split.
      * intros [= <-]. exists p. split; [done|]. by rewrite (Hget _ _ _ ip).
      * intros (p' & ([Hm' Hs'] & Hc' & Hmax) & Hv).
        assert (p' = p) as ->.
        { destruct Hl as (Hh & _ & Hmax'). apply (masked_Contains_eq _ _ ip); try done.
          apply Z.le_antisymm; [by apply Hmax'|by apply Hmax]. }
        rewrite (Hget _ _ _ ip) in Hv by done. congruence.
    + split; [done|]. intros (p & ([Hm Hsm] & Hc & _) & Hv).
      rewrite (Hget _ _ _ ip) in Hv by done.
      destruct Hs as [_ Hs]. specialize (Hs (p, v)). simpl in Hs.
      rewrite Hs in Hc; [done| |done]. by apply elem_of_map_to_list.
  - intros V ip t. simpl. unfold pm_lookup.
    pose proof (pm_fold_spec ip (map_to_list (pm_map t)) None ltac:(done)) as Hs.
    destruct (foldl _ _ _) as [[p w]|]; simpl.
    + destruct Hs as (Hm & Hc & [Hin%elem_of_map_to_list|?] & Hall & _); [|done]. simpl in *.
      split; [done|]. intros H. rewrite H in Hc; [done|done|].
      change (is_Some (Get p t)). rewrite (Hget _ _ _ ip); eauto.
    + split; [|done]. intros _ p Hm [v Hv].
      destruct (prefix.Contains p ip) eqn:Hc; [|done].
      change (Get p t = Some v) in Hv. rewrite (Hget _ _ _ ip) in Hv by done.
      rewrite <-Hc. apply (proj2 Hs (p, v)); [|done]. by apply elem_of_map_to_list.
Qed.
