(* ===== verification/PacketMap.v ===== *)
(** * The packet mapper

    [src/packetmap/packetmap.go]: the immutable tables that decide which
    profile a host packet enters and how its addresses are rewritten, and the
    reverse for a packet that leaves a profile.  The prefix tables are the
    [LPM] interface; decoding and rewriting packets is the [Packets]
    interface, which stands for [tailscale.com/net/packet] and its checksum
    package. *)

From S2P Require Import Prelude GoStrings Netip RoutingTable.
Import netip_facts.

(** ** Packets *)

(** The part of [packet.Parsed] the mapper reads. *)
Record Parsed : Type := MkParsed { IPVersion : nat; Src : Addr; Dst : Addr }.

Class Packets (Pkt : Type) : Type := {
  Decode : Pkt → Parsed;
  UpdateSrcAddr : Pkt → Addr → Pkt;
  UpdateDstAddr : Pkt → Addr → Pkt
}.
(** A decodable packet has two addresses, both valid and without a zone, and
    rewriting one to such an address of the same family changes that address and
    nothing else the decoder reports. *)
Class PacketLaws (Pkt : Type) `{Packets Pkt} : Prop := {
  Decode_plain pkt :
    IPVersion (Decode pkt) ≠ 0 → plain_addr (Src (Decode pkt)) = true ∧ plain_addr (Dst (Decode pkt)) = true;
  Decode_UpdateSrc pkt a :
    IPVersion (Decode pkt) ≠ 0 → plain_addr a = true → addr.Is6 a = addr.Is6 (Src (Decode pkt)) →
    Decode (UpdateSrcAddr pkt a) = MkParsed (IPVersion (Decode pkt)) a (Dst (Decode pkt));
  Decode_UpdateDst pkt a :
    IPVersion (Decode pkt) ≠ 0 → plain_addr a = true → addr.Is6 a = addr.Is6 (Dst (Decode pkt)) →
    Decode (UpdateDstAddr pkt a) = MkParsed (IPVersion (Decode pkt)) (Src (Decode pkt)) a
}.

(** A packet that is only its header and a payload, undecodable where an address
    could not be in a header: an instance. *)
Definition decodable (p : Parsed) : bool := plain_addr (Src p) && plain_addr (Dst p).
#[export] Instance SimplePackets : Packets (Parsed * string) := {
  Decode p := if decodable p.1 then p.1 else MkParsed 0 AddrInvalid AddrInvalid;
  UpdateSrcAddr p a := (MkParsed (IPVersion p.1) a (Dst p.1), p.2);
  UpdateDstAddr p a := (MkParsed (IPVersion p.1) (Src p.1) a, p.2)
}.
#[export] Instance SimplePacketLaws : PacketLaws (Parsed * string).
Proof.
  split; intros [p s]; cbn; unfold decodable.
  - destruct (plain_addr (Src p)) eqn:E1, (plain_addr (Dst p)) eqn:E2; done.
  - intros a. destruct (plain_addr (Src p)) eqn:E1, (plain_addr (Dst p)) eqn:E2; cbn; try done. intros _ -> _. by rewrite E2.
  - intros a. destruct (plain_addr (Src p)) eqn:E1, (plain_addr (Dst p)) eqn:E2; cbn; try done. intros _ -> _. by rewrite E1.
Qed.

(** ** Tables *)

Record Destination : Type := MkDestination { d_ProfileID : string; d_CanonicalIP : Addr }.
Record SubnetRoute : Type := MkSubnetRoute { r_ProfileID : string; r_Active : bool }.
Record Source : Type := MkSource { s_HostIP : Addr; s_CanonicalIP : Addr }.
Record SourceKey : Type := MkSourceKey { sk_ProfileID : string; sk_IPv6 : bool }.
#[export] Instance SourceKey_eq_dec : EqDecision SourceKey.
Proof. solve_decision. Defined.
#[export] Instance SourceKey_countable : Countable SourceKey.
Proof.
  refine (inj_countable' (λ k, (sk_ProfileID k, sk_IPv6 k)) (λ '(p, b), MkSourceKey p b) _).
  by intros [].
Defined.

(** A pointer to a table is [None] when it is nil. *)
Record Table (T : Type → Type) : Type := MkTable {
  Destinations : option (T Destination);
  ExactRoutes : option (T SubnetRoute);
  ImportedRoutes : option (T SubnetRoute);
  ExitRoutes : option (T SubnetRoute);
  Sources : gmap SourceKey Source;
  InboundPeers : gmap string (T Addr)
}.
Arguments MkTable {T} _ _ _ _ _ _.
Arguments Destinations {T} _.
Arguments ExactRoutes {T} _.
Arguments ImportedRoutes {T} _.
Arguments ExitRoutes {T} _.
Arguments Sources {T} _.
Arguments InboundPeers {T} _.

Record Route : Type := MkRoute {
  rt_ProfileID : string; rt_CanonicalIP : Addr; PreserveDestination : bool }.

Inductive map_error : Type :=
  | ErrUnsupportedPacket
  | ErrNoDestinationRoutes
  | ErrNoSource (ipv6 : bool) (profile : string)
  | ErrFamilyMismatch (profile : string)
  | ErrExactUnavailable (ip : Addr)
  | ErrImportedUnavailable (ip : Addr)
  | ErrExitUnavailable (ip : Addr)
  | ErrNoRoute (ip : Addr)
  | ErrPinned (ip : Addr) (owner profile : string)
  | ErrNoInbound (ip : Addr).

(** [!route.Active || route.ProfileID == ""]. *)
Definition route_unusable (r : SubnetRoute) : bool :=
  negb (r_Active r) || String.eqb (r_ProfileID r) "".

Definition sourceKey (profileID : string) (ip : Addr) : SourceKey :=
  MkSourceKey profileID (addr.Is6 ip).

Section mapper.
Context {T : Type → Type} `{LPM T} {Pkt : Type} `{Packets Pkt}.

Definition lookupSubnet (t : option (T SubnetRoute)) (ip : Addr) : option SubnetRoute :=
  match t with None => None | Some t => Lookup ip t end.

(** [m.Destinations.Lookup(ip)] and the lookup of [m.InboundPeers[profile]]. *)
Definition destination_of (m : Table T) (ip : Addr) : option Destination :=
  match Destinations m with Some t => Lookup ip t | None => None end.
Definition inbound_peer (m : Table T) (profileID : string) (ip : Addr) : option Addr :=
  match InboundPeers m !! profileID with Some t => Lookup ip t | None => None end.

Definition outboundDestination (m : Table T) (ip : Addr) :
    result map_error (Destination * bool) :=
  match destination_of m ip with
  | Some destination => Ok (destination, false)
  | None =>
    match lookupSubnet (ExactRoutes m) ip with
    | Some route =>
      if route_unusable route then Err (ErrExactUnavailable ip)
      else Ok (MkDestination (r_ProfileID route) ip, true)
    | None =>
      match lookupSubnet (ImportedRoutes m) ip with
      | Some route =>
        if route_unusable route then Err (ErrImportedUnavailable ip)
        else Ok (MkDestination (r_ProfileID route) ip, true)
      | None =>
        match lookupSubnet (ExitRoutes m) ip with
        | Some route =>
          if route_unusable route then Err (ErrExitUnavailable ip)
          else Ok (MkDestination (r_ProfileID route) ip, true)
        | None => Err (ErrNoRoute ip)
        end
      end
    end
  end.

Definition inboundSubnetRoute (m : Table T) (ip : Addr) : result map_error SubnetRoute :=
  match lookupSubnet (ExactRoutes m) ip with
  | Some route => if route_unusable route then Err (ErrExactUnavailable ip) else Ok route
  | None =>
    match lookupSubnet (ImportedRoutes m) ip with
    | Some route => if route_unusable route then Err (ErrImportedUnavailable ip) else Ok route
    | None =>
      match lookupSubnet (ExitRoutes m) ip with
      | Some route => if route_unusable route then Err (ErrExitUnavailable ip) else Ok route
      | None => Err (ErrNoInbound ip)
      end
    end
  end.

(** [Outbound] rewrites the packet in place: the first component is the
    packet's bytes afterwards, which on an error are the bytes before. *)
Definition Outbound (m : Table T) (pkt : Pkt) : Pkt * result map_error Route :=
  let p := Decode pkt in
  if (IPVersion p =? 0)%nat then (pkt, Err ErrUnsupportedPacket)
  else match Destinations m with
  | None => (pkt, Err ErrNoDestinationRoutes)
  | Some _ =>
    match outboundDestination m (Dst p) with
    | Err e => (pkt, Err e)
    | Ok (dst, preserve) =>
      match Sources m !! sourceKey (d_ProfileID dst) (Src p) with
      | None => (pkt, Err (ErrNoSource (addr.Is6 (Src p)) (d_ProfileID dst)))
      | Some src =>
        if negb (eqb (addr.Is6 (s_HostIP src)) (addr.Is6 (Src p))) ||
           negb (eqb (addr.Is6 (s_CanonicalIP src)) (addr.Is6 (Src p))) ||
           negb (eqb (addr.Is6 (d_CanonicalIP dst)) (addr.Is6 (Dst p)))
        then (pkt, Err (ErrFamilyMismatch (d_ProfileID dst)))
        else
          let pkt := UpdateSrcAddr pkt (s_CanonicalIP src) in
          let pkt := if negb preserve then UpdateDstAddr pkt (d_CanonicalIP dst) else pkt in
          (pkt, Ok (MkRoute (d_ProfileID dst) (d_CanonicalIP dst) preserve))
      end
    end
  end.

Definition inbound_subnet (m : Table T) (profileID : string) (pkt : Pkt) (src : Source) :
    Pkt * result map_error unit :=
  match inboundSubnetRoute m (Src (Decode pkt)) with
  | Err e => (pkt, Err e)
  | Ok route =>
    if negb (String.eqb (r_ProfileID route) profileID)
    then (pkt, Err (ErrPinned (Src (Decode pkt)) (r_ProfileID route) profileID))
    else (UpdateDstAddr pkt (s_HostIP src), Ok tt)
  end.

Definition Inbound (m : Table T) (profileID : string) (pkt : Pkt) :
    Pkt * result map_error unit :=
  let p := Decode pkt in
  if (IPVersion p =? 0)%nat then (pkt, Err ErrUnsupportedPacket)
  else match Sources m !! sourceKey profileID (Dst p) with
  | None => (pkt, Err (ErrNoSource (addr.Is6 (Dst p)) profileID))
  | Some src =>
    match inbound_peer m profileID (Src p) with
    | Some effectivePeer =>
      if negb (eqb (addr.Is6 effectivePeer) (addr.Is6 (Src p))) ||
         negb (eqb (addr.Is6 (s_HostIP src)) (addr.Is6 (Dst p)))
      then (pkt, Err (ErrFamilyMismatch profileID))
      else (UpdateDstAddr (UpdateSrcAddr pkt effectivePeer) (s_HostIP src), Ok tt)
    | None => inbound_subnet m profileID pkt src
    end
  end.
End mapper.

(** ** What the mapper promises *)

Section mapper_facts.
Context {T : Type → Type} `{LT : LPM T, !LPMLaws T} {Pkt : Type} `{PP : Packets Pkt, !PacketLaws Pkt}.

(** The longest route of a tier that contains [ip]. *)
Definition tier_route (t : option (T SubnetRoute)) (ip : Addr) (r : SubnetRoute) : Prop :=
  ∃ tb p, t = Some tb ∧ longest (λ p, masked p ∧ is_Some (Get p tb)) ip p ∧ Get p tb = Some r.
Definition tier_silent (t : option (T SubnetRoute)) (ip : Addr) : Prop :=
  ∀ tb p, t = Some tb → masked p → is_Some (Get p tb) → prefix.Contains p ip = false.

Lemma lookupSubnet_Some t ip r : lookupSubnet t ip = Some r ↔ tier_route t ip r.
Proof.
  unfold lookupSubnet, tier_route. destruct t as [t|]; [|split; [done|]; by intros (?&?&?&?)].
  rewrite Lookup_Some. split; [intros (p & H1 & H2); eauto|].
  intros (? & p & [= <-] & H1 & H2). eauto.
Qed.
Lemma lookupSubnet_None t ip : lookupSubnet t ip = None ↔ tier_silent t ip.
Proof.
  unfold lookupSubnet, tier_silent. destruct t as [t|]; [|done].
  rewrite Lookup_None. split; [intros H1 ? p [= <-]; auto|eauto].
Qed.

(** The decision of the route tiers, as the code's documentation gives it:
    bound routes before imported ones before the exit node, the most specific
    prefix of the first tier that has any, and no fall-through from a route
    that is not usable. *)
Inductive tier_decision (m : Table T) (ip : Addr) : option SubnetRoute → Prop :=
  | decide_exact r : tier_route (ExactRoutes m) ip r → tier_decision m ip (Some r)
  | decide_imported r : tier_silent (ExactRoutes m) ip →
      tier_route (ImportedRoutes m) ip r → tier_decision m ip (Some r)
  | decide_exit r : tier_silent (ExactRoutes m) ip → tier_silent (ImportedRoutes m) ip →
      tier_route (ExitRoutes m) ip r → tier_decision m ip (Some r)
  | decide_none : tier_silent (ExactRoutes m) ip → tier_silent (ImportedRoutes m) ip →
      tier_silent (ExitRoutes m) ip → tier_decision m ip None.

Definition tiers (m : Table T) (ip : Addr) : option SubnetRoute :=
  match lookupSubnet (ExactRoutes m) ip with
  | Some r => Some r
  | None => match lookupSubnet (ImportedRoutes m) ip with
            | Some r => Some r
            | None => lookupSubnet (ExitRoutes m) ip
            end
  end.
Lemma tiers_decision m ip r : tier_decision m ip r ↔ tiers m ip = r.
Proof.
  unfold tiers. split.
  - intros Hd. destruct Hd as [r H1|r H1 H2|r H1 H2 H3|H1 H2 H3];
      rewrite <-?lookupSubnet_Some, <-?lookupSubnet_None in *;
      by rewrite ?H1, ?H2, ?H3.
  - destruct (lookupSubnet (ExactRoutes m) ip) eqn:E1.
    { intros <-. by apply decide_exact, lookupSubnet_Some. }
    destruct (lookupSubnet (ImportedRoutes m) ip) eqn:E2.
    { intros <-. apply decide_imported; [by apply lookupSubnet_None|by apply lookupSubnet_Some]. }
    intros <-. destruct (lookupSubnet (ExitRoutes m) ip) eqn:E3.
    + apply decide_exit; [by apply lookupSubnet_None..|by apply lookupSubnet_Some].
    + by apply decide_none; apply lookupSubnet_None.
Qed.

Lemma outbound_tiers m ip :
  destination_of m ip = None →
  match tiers m ip with
  | Some r => if route_unusable r then is_ok (outboundDestination m ip) = false
              else outboundDestination m ip = Ok (MkDestination (r_ProfileID r) ip, true)
  | None => outboundDestination m ip = Err (ErrNoRoute ip)
  end.
Proof.
  intros Hd. unfold outboundDestination, tiers.
  rewrite Hd.
  repeat case_match; simplify_eq; try done; congruence.
Qed.
Lemma inbound_tiers m ip :
  match tiers m ip with
  | Some r => if route_unusable r then is_ok (inboundSubnetRoute m ip) = false
              else inboundSubnetRoute m ip = Ok r
  | None => inboundSubnetRoute m ip = Err (ErrNoInbound ip)
  end.
Proof. unfold inboundSubnetRoute, tiers. repeat case_match; simplify_eq; try done; congruence. Qed.

(** Where a host packet goes.  A packet is delivered to a profile only by
    an effective address of that profile, or by a usable route that the tier
    order selects; and a host packet whose route is selected but unusable is
    never delivered anywhere, whatever later tiers hold. *)
Theorem Outbound_routed (m : Table T) (pkt pkt' : Pkt) r :
  Outbound m pkt = (pkt', Ok r) →
  let ip := Dst (Decode pkt) in
  (PreserveDestination r = false ∧
   destination_of m ip = Some (MkDestination (rt_ProfileID r) (rt_CanonicalIP r))) ∨
  (PreserveDestination r = true ∧ rt_CanonicalIP r = ip ∧
   destination_of m ip = None ∧
   ∃ sr, tier_decision m ip (Some sr) ∧ route_unusable sr = false ∧
         r_ProfileID sr = rt_ProfileID r).
Proof.
  intros HO ip. unfold Outbound in HO. destruct (_ =? 0)%nat; [done|].
  destruct (Destinations m) as [dt|] eqn:Hd; [|done]. fold ip in HO. clear dt Hd.
  destruct (outboundDestination m ip) as [[dst preserve]|] eqn:Ho; [|done].
  destruct (Sources m !! _); [|done]. destruct (_ || _); [done|].
  injection HO as <- <-. simpl.
  destruct (destination_of m ip) as [d|] eqn:Hl.
  - left. unfold outboundDestination in Ho. rewrite Hl in Ho.
    injection Ho as <- <-. by destruct d.
  - right. pose proof (outbound_tiers m ip Hl) as Ht. destruct (tiers m ip) as [sr|] eqn:Htr; [|congruence].
    destruct (route_unusable sr) eqn:Hu; [by rewrite Ho in Ht|].
    rewrite Ht in Ho. injection Ho as <- <-. split_and!; [done..|].
    exists sr. split_and!; [by apply tiers_decision|done|done].
Qed.

(** The return path is the inverse of the forward path.  When the host
    packet from [host] to the effective address [Dst] entered profile [P] as
    [self -> canonical], and the table records the same pair for packets coming
    back, the reply [canonical -> self] leaves the profile as a packet from the
    effective address to the host's own. *)
Theorem NAT_roundtrip (m : Table T) (pkt pkt' reply : Pkt) r inbound :
  Outbound m pkt = (pkt', Ok r) →
  PreserveDestination r = false →
  (∀ src, Sources m !! sourceKey (rt_ProfileID r) (Src (Decode pkt)) = Some src →
     s_HostIP src = Src (Decode pkt) ∧ plain_addr (s_CanonicalIP src) = true) →
  plain_addr (rt_CanonicalIP r) = true →
  InboundPeers m !! rt_ProfileID r = Some inbound →
  Lookup (rt_CanonicalIP r) inbound = Some (Dst (Decode pkt)) →
  Decode reply = MkParsed (IPVersion (Decode pkt')) (Dst (Decode pkt')) (Src (Decode pkt')) →
  ∃ reply', Inbound m (rt_ProfileID r) reply = (reply', Ok tt) ∧
    Decode reply' =
      MkParsed (IPVersion (Decode pkt)) (Dst (Decode pkt)) (Src (Decode pkt)).
Proof.
  intros HO Hpr Hhost Hplain Hin Hlook Hrep. unfold Outbound in HO.
  destruct (_ =? 0)%nat eqn:Hv; [done|]. apply Nat.eqb_neq in Hv.
  destruct (Destinations m) as [dt|]; [|done].
  destruct (outboundDestination m _) as [[dst preserve]|]; [|done].
  destruct (Sources m !! _) as [src|] eqn:Hs; [|done].
  destruct (negb _ || negb _ || negb _) eqn:Hf; [done|].
  injection HO as <- <-. simpl in *. subst preserve. simpl in *.
  rewrite !orb_false_iff, !negb_false_iff in Hf.
  destruct Hf as [[F1%eqb_prop F2%eqb_prop] F3%eqb_prop].
  destruct (Hhost src Hs) as [Hhs Hself]. clear Hhost. rename Hhs into Hhost. destruct (Decode_plain pkt Hv) as [Hsp Hdp].
  assert (Decode (UpdateDstAddr (UpdateSrcAddr pkt (s_CanonicalIP src)) (d_CanonicalIP dst)) =
    MkParsed (IPVersion (Decode pkt)) (s_CanonicalIP src) (d_CanonicalIP dst)) as Hd.
  { pose proof (Decode_UpdateSrc pkt (s_CanonicalIP src) Hv Hself F2) as H1.
    rewrite Decode_UpdateDst; rewrite ?H1; done. }
  rewrite Hd in Hrep. simpl in Hrep. unfold Inbound. rewrite Hrep. simpl.
  rewrite (proj2 (Nat.eqb_neq _ _)) by done.
  assert (sourceKey (d_ProfileID dst) (s_CanonicalIP src) =
          sourceKey (d_ProfileID dst) (Src (Decode pkt))) as -> by (unfold sourceKey; by rewrite F2).
  rewrite Hs. unfold inbound_peer. rewrite Hin, Hlook, <-F3, F1, <-F2, !eqb_reflx. simpl.
  eexists; split; [done|].
  assert (Decode (UpdateSrcAddr reply (Dst (Decode pkt))) =
    MkParsed (IPVersion (Decode pkt)) (Dst (Decode pkt)) (s_CanonicalIP src)) as Hd2.
  { rewrite Decode_UpdateSrc; rewrite ?Hrep; simpl; done. }
  rewrite Decode_UpdateDst; rewrite ?Hd2; simpl; [by rewrite Hhost|done|by rewrite Hhost|congruence].
Qed.

(** C32. What may leave a profile.  A packet of profile [P] reaches the host only
    when its source is one of [P]'s own peers, or an address whose selected
    route is usable and belongs to [P]; no profile can speak for an address that
    another profile's route owns. *)
Theorem Inbound_pinned (m : Table T) (P : string) (pkt pkt' : Pkt) :
  Inbound m P pkt = (pkt', Ok tt) →
  let ip := Src (Decode pkt) in
  (∃ eff, inbound_peer m P ip = Some eff ∧ addr.Is6 eff = addr.Is6 ip) ∨
  (inbound_peer m P ip = None ∧
   ∃ sr, tier_decision m ip (Some sr) ∧ route_unusable sr = false ∧ r_ProfileID sr = P).
Proof.
  intros HI ip. unfold Inbound in HI. destruct (_ =? 0)%nat; [done|].
  destruct (Sources m !! _) as [src|]; [|done]. fold ip in HI.
  destruct (inbound_peer m P ip) as [eff|].
  - left. exists eff. split; [done|]. destruct (_ || _) eqn:Hf; [done|].
    rewrite orb_false_iff, !negb_false_iff in Hf. by destruct Hf as [?%eqb_prop _].
  - right. split; [done|]. unfold inbound_subnet in HI. fold ip in HI.
    pose proof (inbound_tiers m ip) as Ht.
    destruct (tiers m ip) as [sr|] eqn:Htr; [|by rewrite Ht in HI].
    destruct (route_unusable sr) eqn:Hu; [by destruct (inboundSubnetRoute m ip)|].
    rewrite Ht in HI. destruct (String.eqb_spec (r_ProfileID sr) P); [|done].
    exists sr. split_and!; [by apply tiers_decision|done|done].
Qed.
End mapper_facts.

(** ** The theorems on a concrete table *)

Definition host_ip : Addr := Addr4 1686044673.
Definition test_table : Table PrefixMap :=
  MkTable
    (Some (Insert (MkPrefix (Addr4 1686044680) 32) (MkDestination "work" (Addr4 1681915909)) lpm_new))
    (Some (Insert (MkPrefix (Addr4 168427520) 16) (MkSubnetRoute "lab" false) lpm_new))
    (Some (Insert (MkPrefix (Addr4 167772160) 8) (MkSubnetRoute "work" true) lpm_new))
    None
    {[ MkSourceKey "work" false := MkSource host_ip (Addr4 1681915905) ]}
    {[ "work" := Insert (MkPrefix (Addr4 1681915909) 32) (Addr4 1686044680) lpm_new ]}.
Definition test_packet (dst : Addr) : Parsed * string := (MkParsed 4 host_ip dst, "ping").

Lemma Outbound_routed_witness :
  ∃ pkt' r, Outbound test_table (test_packet (Addr4 167772165)) = (pkt', Ok r) ∧
  ∃ sr, tier_decision test_table (Addr4 167772165) (Some sr) ∧ r_ProfileID sr = "work".
Proof.
  destruct (Outbound test_table (test_packet (Addr4 167772165))) as [pkt' [r|e]] eqn:E;
    [|exfalso; revert E; vm_compute; discriminate].
  exists pkt', r. split; [reflexivity|].
  destruct (Outbound_routed test_table (test_packet (Addr4 167772165)) pkt' r E)
    as [[Hp _]|(_ & _ & _ & sr & Hd & _ & Hr)].
  - exfalso. revert E Hp. vm_compute. intros [= <- <-]. discriminate.
  - exists sr. split; [exact Hd|]. rewrite Hr. revert E. vm_compute. by intros [= <- <-].
Defined.

Definition test_reply : Parsed * string :=
  (MkParsed 4 (Addr4 1681915909) (Addr4 1681915905), "pong").
Lemma NAT_roundtrip_witness :
  ∃ reply', Inbound test_table "work" test_reply = (reply', Ok tt) ∧
    Decode reply' = MkParsed 4 (Addr4 1686044680) host_ip.
Proof.
  destruct (NAT_roundtrip test_table (test_packet (Addr4 1686044680))
    (MkParsed 4 (Addr4 1681915905) (Addr4 1681915909), "ping") test_reply
    (MkRoute "work" (Addr4 1681915909) false)
    (Insert (MkPrefix (Addr4 1681915909) 32) (Addr4 1686044680) lpm_new)) as (reply' & HI & HD).
  1,2,4,5,6,7: vm_compute; reflexivity.
  - intros src Hs. assert (Some (MkSource host_ip (Addr4 1681915905)) = Some src) as [= <-].
    { rewrite <- Hs. vm_compute. reflexivity. }
    split; vm_compute; reflexivity.
  - exists reply'. split; [exact HI|]. rewrite HD. vm_compute. reflexivity.
Defined.

Lemma Inbound_pinned_witness :
  ∃ eff, inbound_peer test_table "work" (Addr4 1681915909) = Some eff.
Proof.
  destruct (Inbound test_table "work" test_reply) as [pkt' [[]|e]] eqn:E;
    [|exfalso; revert E; vm_compute; discriminate].
  destruct (Inbound_pinned test_table "work" test_reply pkt' E) as [(eff & He & _)|[Hn _]].
  - exists eff. exact He.
  - exfalso. revert Hn. vm_compute. discriminate.
Defined.

(** A bound route that is inactive drops the packet although an active
    imported route contains the address too. *)
Example no_fall_through :
  (Outbound test_table (test_packet (Addr4 168427521))).2 = Err (ErrExactUnavailable (Addr4 168427521)).
Proof. by vm_compute. Qed.
