(* ===== verification/WireGuardKey.v ===== *)
(** * WireGuard keys

    The [Key] type of [src/wireguardcfg/config.go] with its text forms: base64
    in profile files and JSON, hexadecimal in the WireGuard UAPI, and the
    clamping of generated private keys.  The standard library's strict base64
    decoding and hexadecimal encoding are modelled on byte lists; X25519
    ([Key.Public]) is not modelled. *)

From S2P Require Import Prelude GoStrings.
Local Open Scope Z_scope.

(** ** encoding/base64, encoding/hex *)

Definition is_byte (b : Z) : Prop := 0 <= b < 256.
Definition bytes_of (s : string) : list Z := code <$> chars s.

Definition b64_char (v : Z) : Ascii.ascii :=
  if v <? 26 then char_of (65 + v)
  else if v <? 52 then char_of (97 + (v - 26))
  else if v <? 62 then char_of (48 + (v - 52))
  else if v =? 62 then "+"%char else "/"%char.
Definition b64_val (c : Ascii.ascii) : option Z :=
  if is_upper c then Some (code c - 65)
  else if is_lower c then Some (code c - 97 + 26)
  else if is_digit c then Some (code c - 48 + 52)
  else if char_eqb c "+"%char then Some 62
  else if char_eqb c "/"%char then Some 63
  else None.

(** [StdEncoding.EncodeToString]: three bytes become four characters. *)
Fixpoint b64_encode (l : list Z) : list Ascii.ascii :=
  match l with
  | [] => []
  | [a] => [b64_char (a / 4); b64_char (a mod 4 * 16); "="%char; "="%char]
  | [a; b] => [b64_char (a / 4); b64_char (a mod 4 * 16 + b / 16);
               b64_char (b mod 16 * 4); "="%char]
  | a :: b :: c :: l =>
    b64_char (a / 4) :: b64_char (a mod 4 * 16 + b / 16) ::
    b64_char (b mod 16 * 4 + c / 64) :: b64_char (c mod 64) :: b64_encode l
  end.

(** [StdEncoding.Strict()] refuses text whose padding bits are not zero; line
    breaks are skipped wherever they occur. *)
Fixpoint b64_quads (l : list Ascii.ascii) : option (list Z) :=
  match l with
  | [] => Some []
  | c1 :: c2 :: c3 :: c4 :: l =>
    v1 ← b64_val c1; v2 ← b64_val c2;
    if char_eqb c4 "="%char then
      match l with
      | _ :: _ => None
      | [] =>
        if char_eqb c3 "="%char then
          if v2 mod 16 =? 0 then Some [v1 * 4 + v2 / 16] else None
        else
          v3 ← b64_val c3;
          if v3 mod 4 =? 0 then Some [v1 * 4 + v2 / 16; v2 mod 16 * 16 + v3 / 4] else None
      end
    else
      v3 ← b64_val c3; v4 ← b64_val c4; rest ← b64_quads l;
      Some (v1 * 4 + v2 / 16 :: v2 mod 16 * 16 + v3 / 4 :: v3 mod 4 * 64 + v4 :: rest)
  | _ => None
  end.
Definition is_newline (c : Ascii.ascii) : bool := (code c =? 10) || (code c =? 13).
Definition b64_decode (s : string) : option (list Z) :=
  b64_quads (List.filter (λ c, negb (is_newline c)) (chars s)).

Definition hex_digit (d : Z) : Ascii.ascii :=
  if d <? 10 then char_of (48 + d) else char_of (87 + d).
Definition hex_encode (l : list Z) : string :=
  text (l ≫= λ b, [hex_digit (b / 16); hex_digit (b mod 16)]).

(** ** Keys *)

(** [type Key [32]byte]. *)
Definition Key : Type := list Z.
Definition key_size : nat := 32.
Definition zero_key : Key := repeat 0 key_size.
Definition key_ok (k : Key) : Prop := length k = key_size ∧ Forall is_byte k.
Definition isZero (k : Key) : bool := bool_decide (k = zero_key).

Inductive key_error : Type :=
  | ErrKeyDecode
  | ErrKeyLength (n : nat)
  | ErrKeyZero
  | ErrKeyReader
  | ErrKeyRead.

Definition ParseKey (s : string) : result key_error Key :=
  match b64_decode (TrimSpace s) with
  | None => Err ErrKeyDecode
  | Some b =>
    if negb (length b =? key_size)%nat then Err (ErrKeyLength (length b))
    else if isZero b then Err ErrKeyZero
    else Ok b
  end.
Definition key_String (k : Key) : string := text (b64_encode k).
Definition UAPIHex (k : Key) : string := hex_encode k.

(** [GeneratePrivateKey]: the argument is what [rand.Read] returned. *)
Definition clamp (k : Key) : Key :=
  let k := alter (λ b, Z.land b 248) 0%nat k in
  let k := alter (λ b, Z.land b 127) 31%nat k in
  alter (λ b, Z.lor b 64) 31%nat k.
Definition GeneratePrivateKey (random : option (list Z)) : option Key :=
  r ← random; Some (clamp r).

(** [readKeyFile]: [None] is a nil reader; the reader returns [None] on an
    error. *)
Definition readKeyFile (readFile : option (string → option string)) (path : string) :
    result key_error Key :=
  match readFile with
  | None => Err ErrKeyReader
  | Some read => match read path with None => Err ErrKeyRead | Some b => ParseKey b end
  end.

(** ** The text forms round trip *)

Lemma b64_val_char v : 0 <= v < 64 → b64_val (b64_char v) = Some v.
Proof.
  intros Hv.
  assert (forallb (λ n, bool_decide (b64_val (b64_char (Z.of_nat n)) = Some (Z.of_nat n)))
    (seq 0 64) = true) as H by (by vm_compute).
  rewrite forallb_forall in H. specialize (H (Z.to_nat v)).
  rewrite bool_decide_eq_true, Z2Nat.id in H by lia. apply H, in_seq. lia.
Qed.
(** No base64 character is padding or white space. *)
Definition b64_plain (c : Ascii.ascii) : bool :=
  negb (char_eqb c "="%char) && negb (is_newline c) && negb (is_space c).
Lemma b64_char_plain v : 0 <= v < 64 → b64_plain (b64_char v) = true.
Proof.
  intros Hv.
  assert (forallb (λ n, b64_plain (b64_char (Z.of_nat n))) (seq 0 64) = true) as H by (by vm_compute).
  rewrite forallb_forall in H. specialize (H (Z.to_nat v)). rewrite Z2Nat.id in H by lia.
  apply H, in_seq. lia.
Qed.
Lemma b64_char_not_pad v : 0 <= v < 64 → char_eqb (b64_char v) "="%char = false.
Proof.
  intros H%b64_char_plain. unfold b64_plain in H. by destruct (char_eqb _ _).
Qed.

Ltac byte_arith :=
  repeat match goal with
  | H : Forall _ (_ :: _) |- _ => apply Forall_cons in H as [? H]
  end; unfold is_byte in *; Z.to_euclidean_division_equations; lia.

(** Induction on a list three elements at a time. *)
Lemma list_ind3 {A} (P : list A → Prop) :
  P [] → (∀ a, P [a]) → (∀ a b, P [a; b]) → (∀ a b c l, P l → P (a :: b :: c :: l)) → ∀ l, P l.
Proof.
  intros H0 H1 H2 H3 l.
  assert (P l ∧ (∀ a, P (a :: l)) ∧ ∀ a b, P (a :: b :: l)) as [? _]; [|done].
  induction l as [|x l (IH1 & IH2 & IH3)]; split_and!; auto.
Qed.

Lemma b64_quads_encode l : Forall is_byte l → b64_quads (b64_encode l) = Some l.
Proof.
  induction l as [|a|a b|a b c l IH] using list_ind3; intros Hl; [done|..]; cbn [b64_encode b64_quads].
  - rewrite !b64_val_char by byte_arith. simpl.
    rewrite (proj2 (Z.eqb_eq _ _)) by byte_arith. do 2 f_equal. byte_arith.
  - rewrite !b64_val_char by byte_arith. simpl.
    rewrite b64_char_not_pad, (proj2 (Z.eqb_eq _ _)) by byte_arith.
    do 2 f_equal; [byte_arith|f_equal; byte_arith].
  - rewrite !b64_val_char, b64_char_not_pad by byte_arith. simpl.
    rewrite IH by (by do 3 apply Forall_cons in Hl as [_ Hl]). simpl.
    do 2 f_equal; [byte_arith|f_equal; [byte_arith|f_equal; byte_arith]].
Qed.

(** What the encoder writes: base64 characters and padding. *)
Lemma b64_encode_clean l c :
  Forall is_byte l → c ∈ b64_encode l → is_newline c = false ∧ is_space c = false.
Proof.
  assert (∀ v, 0 <= v < 64 → is_newline (b64_char v) = false ∧ is_space (b64_char v) = false) as Hc.
  { intros v H%b64_char_plain. unfold b64_plain in H.
    rewrite !andb_true_iff, !negb_true_iff in H. tauto. }
  induction l as [|a|a b|a b d l IH] using list_ind3; intros Hl; cbn [b64_encode].
  - by intros ?%elem_of_nil.
  - rewrite !elem_of_cons, elem_of_nil.
    intros [->|[->|[->|[->|[]]]]]; try done; apply Hc; byte_arith.
  - rewrite !elem_of_cons, elem_of_nil.
    intros [->|[->|[->|[->|[]]]]]; try done; apply Hc; byte_arith.
  - rewrite !elem_of_cons. intros [->|[->|[->|[->|Hin]]]]; [apply Hc; byte_arith..|].
    apply IH; [|done]. by do 3 apply Forall_cons in Hl as [_ Hl].
Qed.

Lemma filter_all {A} (f : A → bool) l : (∀ x, x ∈ l → f x = true) → List.filter f l = l.
Proof.
  induction l as [|x l IH]; [done|]. intros H. simpl. rewrite H by left.
  by rewrite IH by (intros ??; apply H; by right).
Qed.

(** A WireGuard key survives its text form: [ParseKey] accepts what
    [Key.String] writes and returns the same 32 bytes. *)
Theorem ParseKey_String k : key_ok k → isZero k = false → ParseKey (key_String k) = Ok k.
Proof.
  intros [Hlen Hb] Hz. unfold ParseKey, key_String, b64_decode.
  rewrite TrimSpace_none; [|intros c; rewrite chars_text; intros Hc; by eapply b64_encode_clean].
  rewrite chars_text, filter_all.
  2: { intros c Hc. apply negb_true_iff. by eapply b64_encode_clean. }
  rewrite b64_quads_encode by done.
  by rewrite Hlen, Nat.eqb_refl, Hz.
Qed.
Lemma ParseKey_String_witness :
  ParseKey (key_String (1 :: repeat 255 31)) = Ok (1 :: repeat 255 31).
Proof.
  apply ParseKey_String; [split; [reflexivity|]|reflexivity].
  repeat constructor; lia.
Defined.

Lemma ParseKey_nonzero s k : ParseKey s = Ok k → length k = key_size ∧ isZero k = false.
Proof.
  unfold ParseKey. destruct (b64_decode _) as [b|]; [|done].
  destruct (Nat.eqb_spec (length b) key_size); [|done]. simpl.
  destruct (isZero b) eqn:E; [done|]. by intros [= <-].
Qed.

(** Generated keys are clamped as X25519 requires: the low three bits are
    clear, the top bit is clear and the next one is set. *)
Lemma clamp_clamped k b0 b31 :
  length k = key_size → clamp k !! 0%nat = Some b0 → clamp k !! 31%nat = Some b31 →
  Z.land b0 7 = 0 ∧ Z.testbit b31 7 = false ∧ Z.testbit b31 6 = true.
Proof.
  intros Hk. unfold clamp.
  destruct (lookup_lt_is_Some_2 k 0 ltac:(rewrite Hk; unfold key_size; lia)) as [x Hx].
  destruct (lookup_lt_is_Some_2 k 31 ltac:(rewrite Hk; unfold key_size; lia)) as [y Hy].
  assert (∀ f g h, alter f 31 (alter g 31 (alter h 0 k)) !! 0 = Some (h x))%nat as ->.
  { intros. by rewrite !list_lookup_alter_ne, list_lookup_alter_eq, Hx by lia. }
  assert (∀ f g h, alter f 31 (alter g 31 (alter h 0 k)) !! 31 = Some (f (g y)))%nat as ->.
  { intros. by rewrite !list_lookup_alter_eq, list_lookup_alter_ne, Hy by lia. }
  intros [= <-] [= <-]. split_and!.
  - rewrite <-Z.land_assoc. change (Z.land 248 7) with 0. apply Z.land_0_r.
  - rewrite Z.lor_spec, Z.land_spec. change (Z.testbit 127 7) with false.
    change (Z.testbit 64 7) with false. by rewrite andb_false_r.
  - rewrite Z.lor_spec. change (Z.testbit 64 6) with true. by rewrite orb_true_r.
Qed.
