(* ===== verification/PacketFilterCfg.v ===== *)
(** * WireGuard packet filters

    [src/wireguardcfg/filter.go]: grants of a raw WireGuard profile's packet
    filter, their normalization (selectors, permissions, canonical order) and
    the parsers of the normalized text that the filter compiler uses. *)

From S2P Require Import Prelude GoStrings Netip WireGuardKey.
Local Open Scope Z_scope.

(** A validated peer of [src/wireguardcfg/config.go]. *)
Record Peer : Type := MkPeer {
  peer_Name : string;
  PublicKey : Key;
  HasPresharedKey : bool;
  Endpoint : string;
  Keepalive : Z;
  peer_Addresses : list Addr;
  peer_Routes : list Prefix;
  ExitNode : bool }.

(** [GrantManifest] and [Grant] have the same fields. *)
Record Grant : Type := MkGrant { g_Src : list string; g_Dst : list string; g_IP : list string }.
Record PacketFilter : Type := MkFilter { Grants : list Grant }.
#[export] Instance Grant_eq_dec : EqDecision Grant.
Proof. solve_decision. Defined.

Inductive SelectorKind : Type :=
  | SelectorAll | SelectorSelf | SelectorPeerAll | SelectorPeer
  | SelectorRoutesAll | SelectorRoutes | SelectorInternet | SelectorPrefix.
#[export] Instance SelectorKind_eq_dec : EqDecision SelectorKind.
Proof. solve_decision. Defined.
Record Selector : Type := MkSelector {
  sel_Kind : SelectorKind; sel_Peer : string; sel_Prefix : Prefix }.
Record Permission : Type := MkPermission {
  AnyProtocol : bool; Protocol : Z; HasPorts : bool; FirstPort : Z; LastPort : Z }.

#[export] Instance Permission_eq_dec : EqDecision Permission.
Proof. solve_decision. Defined.

Inductive selector_error : Type :=
  | ESelectorEmpty | ESelectorSpace | ENotNative | EZeroBits | ESelectorCase
  | ESelfSource | EInternetSource | EPeerNameMissing | EPeerNotFound (name : string)
  | ENoRoutes (name : string) | ESelectorSyntax.
Inductive permission_error : Type :=
  | EPermEmpty | EPermSpace | EPermCase | EPermSyntax | EProtocol (raw : string)
  | ENoPorts (proto : string) | EComma | EPort | ENotNormalized.
Inductive grant_error : Type :=
  | GNoSrc | GNoDst | GNoIP
  | GSrc (i : nat) (e : selector_error)
  | GSrcOwner (i : nat)
  | GDst (i : nat) (e : selector_error)
  | GIP (i : nat) (e : permission_error).
Inductive filter_error : Type := FGrant (i : nat) (e : grant_error).

(** ** Selectors *)

Definition normalizeSelector (raw : string) (source : bool) (peers : gmap string Peer) :
    result selector_error string :=
  if String.eqb raw "" then Err ESelectorEmpty
  else if negb (String.eqb raw (TrimSpace raw)) then Err ESelectorSpace
  else match ParseAddr raw with
  | Some a => if addr.Is4In6 a then Err ENotNative else Ok (addr_string a)
  | None =>
    match ParsePrefix raw with
    | Some p =>
      if addr.Is4In6 (p_addr p) then Err ENotNative
      else let p := prefix.Masked p in
           if p_bits p =? 0 then Err EZeroBits else Ok (prefix_string p)
    | None =>
      if negb (String.eqb raw (ToLower raw)) then Err ESelectorCase
      else if String.eqb raw "*" || String.eqb raw "peer:*" || String.eqb raw "routes:*"
      then Ok raw
      else if String.eqb raw "self" then if source then Err ESelfSource else Ok raw
      else if String.eqb raw "internet" then if source then Err EInternetSource else Ok raw
      else
        let '(kind, name, ok) := Cut raw ":"%char in
        if ok && (String.eqb kind "peer" || String.eqb kind "routes") then
          if String.eqb name "" || String.eqb name "*" then Err EPeerNameMissing
          else match peers !! name with
               | None => Err (EPeerNotFound name)
               | Some peer =>
                 if String.eqb kind "routes" && (length (peer_Routes peer) =? 0)%nat
                 then Err (ENoRoutes name)
                 else Ok (kind +:+ ":" +:+ name)
               end
        else Err ESelectorSyntax
    end
  end.

Definition prefixesOverlap (a b : Prefix) : bool :=
  (addr.BitLen (p_addr a) =? addr.BitLen (p_addr b)) &&
  (prefix.Contains a (p_addr b) || prefix.Contains b (p_addr a)).

Definition sourcePrefixHasPossibleOwner (p : Prefix) (peers : list Peer) : bool :=
  existsb (λ peer,
    existsb (λ a, prefix.Contains p a ||
                  (ExitNode peer && (addr.BitLen a =? addr.BitLen (p_addr p))))
      (peer_Addresses peer) ||
    existsb (prefixesOverlap p) (peer_Routes peer)) peers.

Definition parseSelector (value : string) (source : bool) : result selector_error Selector :=
  let plain k := MkSelector k "" prefix.zero in
  if String.eqb value "*" then Ok (plain SelectorAll)
  else if String.eqb value "self" then if source then Err ESelfSource else Ok (plain SelectorSelf)
  else if String.eqb value "peer:*" then Ok (plain SelectorPeerAll)
  else if String.eqb value "routes:*" then Ok (plain SelectorRoutesAll)
  else if String.eqb value "internet" then
    if source then Err EInternetSource else Ok (plain SelectorInternet)
  else
    let '(kind, peer, ok) := Cut value ":"%char in
    if ok && String.eqb kind "peer" then Ok (MkSelector SelectorPeer peer prefix.zero)
    else if ok && String.eqb kind "routes" then Ok (MkSelector SelectorRoutes peer prefix.zero)
    else match ParseAddr value with
    | Some a => Ok (MkSelector SelectorPrefix "" (prefix.PrefixFrom a (addr.BitLen a)))
    | None =>
      match ParsePrefix value with
      | None => Err ESelectorSyntax
      | Some p => Ok (MkSelector SelectorPrefix "" (prefix.Masked p))
      end
    end.
Definition ParseSourceSelector (value : string) := parseSelector value true.
Definition ParseDestinationSelector (value : string) := parseSelector value false.

(** ** Permissions *)

Definition namedProtocols (name : string) : option (Z * string * bool) :=
  if String.eqb name "icmp" then Some (1, "icmp", false)
  else if String.eqb name "igmp" then Some (2, "igmp", false)
  else if String.eqb name "ipv4" then Some (4, "ipv4", false)
  else if String.eqb name "ip-in-ip" then Some (4, "ipv4", false)
  else if String.eqb name "tcp" then Some (6, "tcp", true)
  else if String.eqb name "egp" then Some (8, "egp", false)
  else if String.eqb name "igp" then Some (9, "igp", false)
  else if String.eqb name "udp" then Some (17, "udp", true)
  else if String.eqb name "dccp" then Some (33, "dccp", false)
  else if String.eqb name "gre" then Some (47, "gre", false)
  else if String.eqb name "esp" then Some (50, "esp", false)
  else if String.eqb name "ah" then Some (51, "ah", false)
  else if String.eqb name "ipv6-icmp" then Some (58, "ipv6-icmp", false)
  else if String.eqb name "sctp" then Some (132, "sctp", true)
  else None.

Definition canonicalProtocolByNumber (n : Z) : option (string * bool) :=
  match n with
  | 1 => Some ("icmp", false)
  | 2 => Some ("igmp", false)
  | 4 => Some ("ipv4", false)
  | 6 => Some ("tcp", true)
  | 8 => Some ("egp", false)
  | 9 => Some ("igp", false)
  | 17 => Some ("udp", true)
  | 33 => Some ("dccp", false)
  | 47 => Some ("gre", false)
  | 50 => Some ("esp", false)
  | 51 => Some ("ah", false)
  | 58 => Some ("ipv6-icmp", false)
  | 132 => Some ("sctp", true)
  | _ => None
  end.

Definition normalizeProtocol (raw : string) : result permission_error (string * bool) :=
  match namedProtocols raw with
  | Some (_, canonical, portBearing) => Ok (canonical, portBearing)
  | None =>
    match ParseUint raw 8 with
    | None => Err (EProtocol raw)
    | Some n =>
      if (n =? 0) || (n =? 99) || (n =? 255) then Err (EProtocol raw)
      else match canonicalProtocolByNumber n with
           | Some (name, portBearing) => Ok (name, portBearing)
           | None => Ok (FormatUint n, false)
           end
    end
  end.

Definition range_text (first last : Z) : string :=
  if first =? last then FormatUint first else FormatUint first +:+ "-" +:+ FormatUint last.

Definition normalizePortRange (raw : string) : result permission_error string :=
  if ContainsChar raw ","%char then Err EComma
  else
    let '(firstRaw, lastRaw, ranged) := Cut raw "-"%char in
    if String.eqb firstRaw "" || (ranged && String.eqb lastRaw "") ||
       (ranged && ContainsChar lastRaw "-"%char)
    then Err EPort
    else match ParseUint firstRaw 16 with
    | None => Err EPort
    | Some first =>
      if ranged then
        match ParseUint lastRaw 16 with
        | None => Err EPort
        | Some last => if last <? first then Err EPort else Ok (range_text first last)
        end
      else Ok (range_text first first)
    end.

Definition normalizePermission (raw : string) : result permission_error (list string) :=
  if String.eqb raw "" then Err EPermEmpty
  else if negb (String.eqb raw (TrimSpace raw)) then Err EPermSpace
  else if negb (String.eqb raw (ToLower raw)) then Err EPermCase
  else if String.eqb raw "*" then Ok ["*"]
  else
    let '(protoRaw, portRaw, hasProto) := Cut raw ":"%char in
    if negb hasProto then
      ports ← normalizePortRange raw; Ok ["tcp:" +:+ ports; "udp:" +:+ ports]
    else if String.eqb protoRaw "" || String.eqb portRaw "" || ContainsChar portRaw ":"%char
    then Err EPermSyntax
    else
      '(proto, portBearing) ← normalizeProtocol protoRaw;
      if String.eqb portRaw "*" then Ok [proto +:+ ":*"]
      else if negb portBearing then Err (ENoPorts proto)
      else ports ← normalizePortRange portRaw; Ok [proto +:+ ":" +:+ ports].

Definition normalizePermissions (raw : list string) : result grant_error (list string) :=
  permissions ← imapM (λ i value, wrap (GIP i) (normalizePermission value)) raw;
  Ok (CompactStrings (SortStrings (mjoin permissions))).

Definition ParsePermission (value : string) : result permission_error Permission :=
  if String.eqb value "*" then Ok (MkPermission true 0 false 0 0)
  else
    let '(protoRaw, portRaw, ok) := Cut value ":"%char in
    if negb ok then Err ENotNormalized
    else match normalizeProtocol protoRaw with
    | Err _ => Err ENotNormalized
    | Ok (protoName, portBearing) =>
      if negb (String.eqb protoName protoRaw) then Err ENotNormalized
      else
        proto ← match namedProtocols protoName with
                | Some (number, _, _) => Ok number
                | None => match ParseUint protoName 8 with
                          | None => Err ENotNormalized
                          | Some n => Ok n
                          end
                end;
        if String.eqb portRaw "*" then Ok (MkPermission false proto false 0 0)
        else if negb portBearing then Err ENotNormalized
        else
          let '(firstRaw, lastRaw, ranged) := Cut portRaw "-"%char in
          match ParseUint firstRaw 16 with
          | None => Err EPort
          | Some first =>
            if ranged then
              match ParseUint lastRaw 16 with
              | None => Err EPort
              | Some last => Ok (MkPermission false proto true first last)
              end
            else Ok (MkPermission false proto true first first)
          end
    end.

(** ** Grants *)

Definition peer_map (peers : list Peer) : gmap string Peer :=
  foldl (λ m p, <[peer_Name p := p]> m) ∅ peers.

Definition normalize_source (peers : list Peer) (i : nat) (raw : string) :
    result grant_error string :=
  selector ← wrap (GSrc i) (normalizeSelector raw true (peer_map peers));
  parsed ← wrap (GSrc i) (ParseSourceSelector selector);
  _ ← guard_err (bool_decide (sel_Kind parsed = SelectorPrefix) &&
                 negb (sourcePrefixHasPossibleOwner (sel_Prefix parsed) peers)) (GSrcOwner i);
  Ok selector.

Definition normalizeGrant (g : Grant) (peers : list Peer) : result grant_error Grant :=
  _ ← guard_err (length (g_Src g) =? 0)%nat GNoSrc;
  _ ← guard_err (length (g_Dst g) =? 0)%nat GNoDst;
  _ ← guard_err (length (g_IP g) =? 0)%nat GNoIP;
  src ← imapM (normalize_source peers) (g_Src g);
  dst ← imapM (λ i raw, wrap (GDst i) (normalizeSelector raw false (peer_map peers))) (g_Dst g);
  permissions ← normalizePermissions (g_IP g);
  Ok (MkGrant (CompactStrings (SortStrings src)) (CompactStrings (SortStrings dst)) permissions).

Definition grantKey (g : Grant) : string :=
  JoinStr NUL (g_Src g) +:+ SOH +:+ JoinStr NUL (g_Dst g) +:+ SOH +:+ JoinStr NUL (g_IP g).
Definition canonicalPacketFilter (grants : list Grant) : PacketFilter :=
  MkFilter (CompactFunc (λ a b, String.eqb (grantKey a) (grantKey b))
              (go_sort (less_key grantKey) grants)).

Definition NormalizePacketFilter (f : PacketFilter) (peers : list Peer) :
    result filter_error PacketFilter :=
  grants ← imapM (λ i g, wrap (FGrant i) (normalizeGrant g peers)) (Grants f);
  Ok (canonicalPacketFilter grants).
(** [None] is a profile without a [packetFilter] entry. *)
Definition NormalizePacketFilterManifest (m : option (list Grant)) (peers : list Peer) :
    result filter_error PacketFilter :=
  match m with
  | None => Ok (MkFilter [])
  | Some grants => NormalizePacketFilter (MkFilter grants) peers
  end.

Definition packetFiltersEqual (a b : PacketFilter) : bool :=
  bool_decide (Grants a = Grants b).

(** ** The normal form of a permission *)

Definition protocol_name (n : Z) : string :=
  match canonicalProtocolByNumber n with Some (name, _) => name | None => FormatUint n end.
Definition port_bearing (n : Z) : bool :=
  match canonicalProtocolByNumber n with Some (_, b) => b | None => false end.
Definition print_permission (p : Permission) : string :=
  if AnyProtocol p then "*"
  else protocol_name (Protocol p) +:+ ":" +:+
       (if HasPorts p then range_text (FirstPort p) (LastPort p) else "*").
(** Protocols 99 and 255 are reserved, 0 is the IPv6 hop-by-hop header. *)
Definition protocol_ok (n : Z) : bool :=
  (0 <? n) && (n <? 256) && negb (n =? 99) && negb (n =? 255).
Definition permission_ok (p : Permission) : bool :=
  if AnyProtocol p then bool_decide (p = MkPermission true 0 false 0 0)
  else protocol_ok (Protocol p) &&
    (if HasPorts p then port_bearing (Protocol p) && (0 <=? FirstPort p) &&
                        (FirstPort p <=? LastPort p) && (LastPort p <? 65536)
     else (FirstPort p =? 0) && (LastPort p =? 0)).

(** A table of facts about the 256 protocol numbers, checked by evaluation. *)
Definition protocol_row_ok (n : Z) : bool :=
  let name := protocol_name n in
  negb (ContainsChar name ":"%char) && negb (String.eqb name "") && plain name &&
  match normalizeProtocol name with
  | Ok (m, b) => String.eqb m name && eqb b (port_bearing n)
  | Err _ => false
  end &&
  match namedProtocols name with
  | Some (k, _, _) => k =? n
  | None => match ParseUint name 8 with Some k => k =? n | None => false end
  end.
Lemma protocol_rows n : protocol_ok n = true → protocol_row_ok n = true.
Proof.
  intros Hn.
  assert (forallb (λ k, implb (protocol_ok (Z.of_nat k)) (protocol_row_ok (Z.of_nat k)))
    (seq 0 256) = true) as H by (by vm_compute).
  rewrite forallb_forall in H. unfold protocol_ok in Hn.
  specialize (H (Z.to_nat n)). rewrite Z2Nat.id in H by lia.
  unfold protocol_ok in H at 1. rewrite Hn in H. apply H, in_seq. lia.
Qed.

Lemma plain_range_text first last : plain (range_text first last) = true.
Proof.
  unfold range_text. case_match; rewrite ?plain_app, !plain_FormatUint; done.
Qed.

Lemma range_text_chars first last c :
  c ∈ chars (range_text first last) → is_digit c = true ∨ c = "-"%char.
Proof.
  unfold range_text. case_match; [by intros ?%FormatUint_digits; left|].
  rewrite !chars_app, !elem_of_app. change (chars "-") with ["-"%char].
  rewrite list_elem_of_singleton. intros [?%FormatUint_digits|[?|?%FormatUint_digits]]; auto.
Qed.

Lemma normalizePortRange_fix first last :
  0 <= first <= last → last < 65536 →
  normalizePortRange (range_text first last) = Ok (range_text first last).
Proof.
  intros Hf Hl. unfold normalizePortRange.
  rewrite (proj2 (ContainsChar_false _ _)) by (by intros [?|?]%range_text_chars).
  assert (ParseUint (FormatUint first) 16 = Some first) as Pf by (by apply ParseUint_FormatUint; lia).
  assert (ParseUint (FormatUint last) 16 = Some last) as Pl by (by apply ParseUint_FormatUint; lia).
  pose proof (FormatUint_nonempty first) as Nf. pose proof (FormatUint_nonempty last) as Nl.
  apply String.eqb_neq in Nf, Nl.
  unfold range_text at 1. destruct (Z.eqb_spec first last) as [->|Hne].
  - rewrite Cut_none by (by apply FormatUint_no). rewrite Nf. simpl. rewrite Pf.
    unfold range_text. by rewrite Z.eqb_refl.
  - change ("-" +:+ FormatUint last) with (String "-"%char (FormatUint last)).
    rewrite Cut_app by (by apply FormatUint_no). rewrite Nf, Nl.
    rewrite (proj2 (ContainsChar_false _ _)) by (by apply FormatUint_no). simpl.
    rewrite Pf, Pl. by rewrite (proj2 (Z.ltb_ge _ _)) by lia.
Qed.
Lemma normalizePortRange_inv raw s :
  normalizePortRange raw = Ok s →
  ∃ first last, 0 <= first <= last ∧ last < 65536 ∧ s = range_text first last.
Proof.
  unfold normalizePortRange. destruct (ContainsChar raw _); [done|].
  destruct (Cut raw _) as [[firstRaw lastRaw] ranged]. destruct (_ || _); [done|].
  destruct (ParseUint firstRaw 16) as [first|] eqn:Hf; [|done]. apply ParseUint_bounds in Hf.
  destruct ranged.
  - destruct (ParseUint lastRaw 16) as [last|] eqn:Hl; [|done]. apply ParseUint_bounds in Hl.
    destruct (Z.ltb_spec last first); [done|]. intros [= <-]. exists first, last. split_and!; lia || done.
  - intros [= <-]. exists first, first. split_and!; lia || done.
Qed.

(** Every accepted protocol has a canonical name that is accepted and stands
    for the same protocol. *)
Lemma protocol_facts n :
  protocol_ok n = true →
  ":"%char ∉ chars (protocol_name n) ∧ protocol_name n ≠ "" ∧ plain (protocol_name n) = true ∧
  normalizeProtocol (protocol_name n) = Ok (protocol_name n, port_bearing n) ∧
  match namedProtocols (protocol_name n) with
  | Some (k, _, _) => k = n
  | None => ParseUint (protocol_name n) 8 = Some n
  end.
Proof.
  intros H%protocol_rows. unfold protocol_row_ok in H.
  rewrite !andb_true_iff, !negb_true_iff in H. destruct H as [[[[H1 H2] H3] H4] H5].
  apply ContainsChar_false in H1. apply String.eqb_neq in H2.
  split_and!; [done..| |].
  - destruct (normalizeProtocol _) as [[m b]|]; [|done].
    apply andb_true_iff in H4 as [->%String.eqb_eq ->%eqb_prop]. done.
  - destruct (namedProtocols _) as [[[k ?] ?]|]; [by apply Z.eqb_eq|].
    destruct (ParseUint _ 8) as [k|]; [|done]. f_equal. by apply Z.eqb_eq.
Qed.
Lemma normalizeProtocol_inv raw name b :
  normalizeProtocol raw = Ok (name, b) →
  ∃ n, protocol_ok n = true ∧ name = protocol_name n ∧ b = port_bearing n.
Proof.
  unfold normalizeProtocol. destruct (namedProtocols raw) as [[[k c] pb]|] eqn:E.
  - intros [= <- <-]. exists k. revert E. unfold namedProtocols.
    repeat (case_match; [intros [= <- <- <-]; split_and!; reflexivity|]). done.
  - destruct (ParseUint raw 8) as [n|] eqn:Hn; [|done]. apply ParseUint_bounds in Hn.
    destruct ((n =? 0) || (n =? 99) || (n =? 255)) eqn:Hr; [done|].
    assert (protocol_ok n = true) as Hok by (unfold protocol_ok; lia).
    intros H. exists n. split; [done|]. unfold protocol_name, port_bearing.
    by destruct (canonicalProtocolByNumber n) as [[? ?]|]; injection H as <- <-.
Qed.

Lemma plain_print p : permission_ok p = true → plain (print_permission p) = true.
Proof.
  unfold permission_ok, print_permission. destruct (AnyProtocol p); [done|].
  rewrite andb_true_iff. intros [(_ & _ & Hp & _)%protocol_facts _].
  rewrite !plain_app, Hp. simpl. destruct (HasPorts p); [apply plain_range_text|done].
Qed.
Lemma Cut_print p :
  AnyProtocol p = false → protocol_ok (Protocol p) = true →
  Cut (print_permission p) ":"%char =
    (protocol_name (Protocol p),
     (if HasPorts p then range_text (FirstPort p) (LastPort p) else "*"), true).
Proof.
  intros Ha (Hn & _)%protocol_facts. unfold print_permission. rewrite Ha.
  generalize (if HasPorts p then range_text (FirstPort p) (LastPort p) else "*"). intros r.
  change (":" +:+ r) with (String ":"%char r). by apply Cut_app.
Qed.
Lemma range_text_not_star first last : String.eqb (range_text first last) "*" = false.
Proof.
  apply String.eqb_neq. intros H.
  assert ("*"%char ∈ chars (range_text first last)) as Hin by (rewrite H; by left).
  by apply range_text_chars in Hin as [?|?].
Qed.
Lemma print_not_star p :
  AnyProtocol p = false → protocol_ok (Protocol p) = true → String.eqb (print_permission p) "*" = false.
Proof.
  intros Ha Hp. pose proof (Cut_print p Ha Hp) as Hc. apply String.eqb_neq. intros H.
  by rewrite H in Hc.
Qed.

Lemma ParsePermission_canonical p :
  permission_ok p = true → ParsePermission (print_permission p) = Ok p.
Proof.
  intros Hok. unfold ParsePermission. destruct p as [any proto ports first last].
  unfold permission_ok in Hok. simpl in *. destruct any.
  { apply bool_decide_eq_true in Hok. by injection Hok as -> -> -> ->. }
  apply andb_true_iff in Hok as [Hp Hr].
  rewrite print_not_star, Cut_print by done. simpl.
  destruct (protocol_facts proto Hp) as (_ & _ & _ & -> & Hnum). rewrite String.eqb_refl. simpl.
  assert ((match namedProtocols (protocol_name proto) with
           | Some (number, _, _) => Ok number
           | None => match ParseUint (protocol_name proto) 8 with
                     | Some n => Ok n | None => Err ENotNormalized end
           end : result permission_error Z) = Ok proto) as ->.
  { destruct (namedProtocols _) as [[[k ?] ?]|]; [by subst|by rewrite Hnum]. }
  simpl. destruct ports; simpl.
  - rewrite range_text_not_star. rewrite !andb_true_iff in Hr.
    destruct Hr as [[[-> Hf] Hfl] Hl]. simpl. unfold range_text.
    destruct (Z.eqb_spec first last) as [->|Hne].
    + rewrite Cut_none by (by apply FormatUint_no). simpl.
      by rewrite ParseUint_FormatUint by lia.
    + change ("-" +:+ FormatUint last) with (String "-"%char (FormatUint last)).
      rewrite Cut_app by (by apply FormatUint_no). by rewrite !ParseUint_FormatUint by lia.
  - apply andb_true_iff in Hr as [->%Z.eqb_eq ->%Z.eqb_eq]. done.
Qed.
Lemma normalizePermission_inv raw l s :
  normalizePermission raw = Ok l → s ∈ l → ∃ p, permission_ok p = true ∧ s = print_permission p.
Proof.
  unfold normalizePermission. destruct (String.eqb raw ""); [done|].
  destruct (negb _); [done|]. destruct (negb _); [done|]. destruct (String.eqb raw "*").
  { intros [= <-] ->%list_elem_of_singleton. by exists (MkPermission true 0 false 0 0). }
  destruct (Cut raw _) as [[protoRaw portRaw] hasProto]. destruct hasProto; simpl.
  2:{ intros (ports & (f & la & ? & ? & ->)%normalizePortRange_inv & [= <-])%bind_ok_inv.
      rewrite !elem_of_cons, elem_of_nil. intros [->|[->|[]]].
      - exists (MkPermission false 6 true f la). split; [|done]. unfold permission_ok; simpl; lia.
      - exists (MkPermission false 17 true f la). split; [|done]. unfold permission_ok; simpl; lia. }
  destruct (_ || _ || _); [done|].
  intros ([proto b] & (n & Hn & -> & ->)%normalizeProtocol_inv & H)%bind_ok_inv.
  destruct (String.eqb portRaw "*").
  { injection H as <-. intros ->%list_elem_of_singleton.
    exists (MkPermission false n false 0 0). unfold permission_ok. simpl. by rewrite Hn. }
  destruct (port_bearing n) eqn:Hb; [|done]. simpl in H. revert H.
  intros (ports & (f & la & ? & ? & ->)%normalizePortRange_inv & [= <-])%bind_ok_inv.
  intros ->%list_elem_of_singleton. exists (MkPermission false n true f la).
  unfold permission_ok. simpl. rewrite Hn, Hb. split; [lia|done].
Qed.

Lemma normalizePermission_print p :
  permission_ok p = true → normalizePermission (print_permission p) = Ok [print_permission p].
Proof.
  intros Hok. pose proof (plain_print p Hok) as Hpl. unfold normalizePermission.
  rewrite (TrimSpace_plain _ Hpl), (ToLower_plain _ Hpl), String.eqb_refl. simpl.
  destruct p as [any proto ports first last]. unfold permission_ok in Hok. simpl in *. destruct any.
  { apply bool_decide_eq_true in Hok. by injection Hok as -> -> -> ->. }
  apply andb_true_iff in Hok as [Hp Hr].
  rewrite print_not_star, Cut_print by done. simpl.
  destruct (protocol_facts proto Hp) as (_ & Hne%String.eqb_neq & _ & Hnp & _). rewrite Hne, Hnp.
  assert (String.eqb (print_permission (MkPermission false proto ports first last)) "" = false) as ->.
  { apply String.eqb_neq. intros H. apply (f_equal chars) in H.
    unfold print_permission in H. simpl in H. rewrite !chars_app in H. by destruct (chars _). }
  destruct ports; simpl.
  - rewrite !andb_true_iff in Hr. destruct Hr as [[[Hb Hf] Hfl] Hl].
    rewrite range_text_not_star, Hb. simpl.
    assert (String.eqb (range_text first last) "" = false) as ->.
    { apply String.eqb_neq. intros H. unfold range_text in H. destruct (first =? last).
      - by apply FormatUint_nonempty in H.
      - apply (f_equal chars) in H. rewrite chars_app in H.
        by destruct (chars (FormatUint first)). }
    rewrite (proj2 (ContainsChar_false _ _)) by (by intros [?|?]%range_text_chars). simpl.
    rewrite normalizePortRange_fix by lia. done.
  - done.
Qed.

(** The normal form of permissions.  Every string that normalization
    produces is the canonical text of a permission with a valid protocol and an
    ascending 16-bit port range, [ParsePermission] accepts it, and normalizing
    it again changes nothing. *)
Theorem normalizePermission_normal raw l s :
  normalizePermission raw = Ok l → s ∈ l →
  normalizePermission s = Ok [s] ∧
  ∃ p, ParsePermission s = Ok p ∧ permission_ok p = true ∧ s = print_permission p.
Proof.
  intros Hn Hs. destruct (normalizePermission_inv raw l s Hn Hs) as (p & Hp & ->).
  split; [by apply normalizePermission_print|]. exists p. split_and!; [|done..].
  by apply ParsePermission_canonical.
Qed.
Lemma normalizePermission_normal_witness :
  ∃ p, ParsePermission "udp:8000-9000" = Ok p ∧ permission_ok p = true.
Proof.
  destruct (normalizePermission_normal "8000-9000" ["tcp:8000-9000"; "udp:8000-9000"] "udp:8000-9000"
    eq_refl ltac:(right; left)) as (_ & p & Hp & Hok & _).
  exists p. split; [exact Hp|exact Hok].
Defined.
