(* ===== verification/WireGuardCfg.v ===== *)
(** * WireGuard profile configurations

    [src/wireguardcfg/config.go]: the manifest of a profile file, its
    normalization into a [Config], and [Validate], which every configuration
    passes before it is used or persisted. *)

From S2P Require Import Prelude GoStrings Netip WireGuardKey PacketFilterCfg.
Import netip_facts.
Local Open Scope Z_scope.

Definition Version : Z := 1.
Definition Second : Z := 1000000000.

Record PeerManifest : Type := MkPeerManifest {
  pm_Name : string; pm_PublicKey : string; pm_PresharedKeyFile : string;
  pm_Endpoint : string; pm_Keepalive : Z; pm_Addresses : list string;
  pm_Routes : list string; pm_ExitNode : bool }.
Record Manifest : Type := MkManifest {
  m_Version : Z; m_Name : string; m_DNSSuffix : string; m_Addresses : list string;
  m_PrivateKeyFile : string; m_ListenPort : option Z;
  m_PacketFilter : option (list Grant); m_Peers : list PeerManifest }.
Record Config : Type := MkConfig {
  c_Version : Z; c_Name : string; c_DNSSuffix : string; c_Addresses : list Addr;
  c_ListenPort : Z; c_PacketFilter : PacketFilter; c_Peers : list Peer }.
Record Secrets : Type := MkSecrets {
  s_PrivateKey : option Key; PresharedKeyByPeer : gmap string Key }.

Inductive address_error : Type := ENotNativeIP | EUnspecified | EMulticast.
Inductive endpoint_error : Type := EEndpointSplit | EEndpointHost | EEndpointPort | EEndpointName.
Inductive peer_error : Type :=
  | PName | PNameTwice | PKey (e : key_error) | PKeyTwice | PKeyZero
  | PEndpoint (e : endpoint_error) | PKeepalive
  | PAddressParse (j : nat) | PAddress (j : nat) (e : address_error) | PAddressFamily (j : nat)
  | PAddressTwice (j : nat) | PAddressOwner (a : Addr) (owner : string)
  | PRouteParse (j : nat) | PRouteInvalid (j : nat) | PRouteDefault (j : nat)
  | PRouteNotNormalized (j : nat) | PRouteFamily (j : nat) | PRouteTwice (j : nat)
  | PRouteOwner (r : Prefix) (owner : string)
  | PAllowedIPOwner (r : Prefix) (owner : string)
  | PPresharedKey (e : key_error).
Inductive cfg_error : Type :=
  | CVersion (got : Z) | CName | CDNSSuffix | CSuffixNotNormalized | CListenPort
  | CAddressParse (i : nat) | CAddress (i : nat) (e : address_error) | CFamilyTwice (i : nat)
  | CNoAddress | CPrivateKeyFile (e : key_error) | CPeer (i : nat) (e : peer_error)
  | CFilter (e : filter_error) | CFilterNotNormalized.

(** ** Field validation *)

(** [^[a-z0-9](?:[a-z0-9-]{0,61}[a-z0-9])?$]. *)
Definition label_end (c : Ascii.ascii) : bool := is_lower c || is_digit c.
Definition label_char (c : Ascii.ascii) : bool := label_end c || char_eqb c "-"%char.
Definition validateDNSLabel (label : string) : bool :=
  let l := chars label in
  match l, last l with
  | c :: _, Some z => label_end c && label_end z && forallb label_char l && (length l <=? 63)%nat
  | _, _ => false
  end.

Definition normalizeDNSSuffix (suffix : string) : option string :=
  let suffix := TrimSuffix suffix "." in
  if String.eqb suffix "" || (253 <? str_len suffix)%nat then None
  else if forallb validateDNSLabel (Split suffix "."%char) then Some suffix else None.

Definition validateAddress (a : Addr) : result address_error unit :=
  if negb (addr.IsValid a) || (negb (addr.Is4 a) && negb (addr.Is6 a)) || addr.Is4In6 a
  then Err ENotNativeIP
  else if addr.IsUnspecified a then Err EUnspecified
  else if addr.IsMulticast a then Err EMulticast
  else Ok tt.

Definition validateEndpoint (endpoint : string) : result endpoint_error unit :=
  match SplitHostPort endpoint with
  | None => Err EEndpointSplit
  | Some (host, portText) =>
    if String.eqb host "" then Err EEndpointHost
    else match ParseUint portText 16 with
    | None => Err EEndpointPort
    | Some port =>
      if port =? 0 then Err EEndpointPort
      else match ParseAddr host with
      | Some a => if negb (addr.Is4 a) && negb (addr.Is6 a) then Err EEndpointName else Ok tt
      | None => if normalizeDNSSuffix host then Ok tt else Err EEndpointName
      end
    end
  end.

(** [peer.Keepalive < 0 || peer.Keepalive%time.Second != 0 || ...]. *)
Definition keepalive_bad (d : Z) : bool :=
  (d <? 0) || negb (Z.rem d Second =? 0) || (65535 * Second <? d).

(** ** Sorting *)

Definition sort_peer (p : Peer) : Peer :=
  MkPeer (peer_Name p) (PublicKey p) (HasPresharedKey p) (Endpoint p) (Keepalive p)
    (go_sort addr.less (peer_Addresses p)) (go_sort prefix_less (peer_Routes p)) (ExitNode p).
Definition sortConfig (c : Config) : Config :=
  MkConfig (c_Version c) (c_Name c) (c_DNSSuffix c) (go_sort addr.less (c_Addresses c))
    (c_ListenPort c) (c_PacketFilter c)
    (sort_peer <$> go_sort (less_key peer_Name) (c_Peers c)).

(** ** Validate *)

Record vstate : Type := MkV {
  v_names : gset string;
  v_keys : gset Key;
  v_addresses : gmap Addr string;
  v_routes : gmap Prefix string;
  v_allowed : gmap Prefix string }.

(** An entry of [owners] that belongs to another peer than [name]. *)
Definition foreign_owner {K} `{Countable K} (owners : gmap K string) (k : K) (name : string) :
    option string :=
  match owners !! k with
  | Some owner => if String.eqb owner name then None else Some owner
  | None => None
  end.

Definition validate_peer_address (families : gset bool) (name : string) (j : nat)
    (st : vstate) (a : Addr) : result peer_error vstate :=
  _ ← wrap (PAddress j) (validateAddress a);
  _ ← guard_err (bool_decide (addr.Is4 a ∉ families)) (PAddressFamily j);
  match v_addresses st !! a with
  | Some owner => Err (PAddressOwner a owner)
  | None =>
    let p := prefix.PrefixFrom a (addr.BitLen a) in
    match foreign_owner (v_allowed st) p name with
    | Some owner => Err (PAllowedIPOwner p owner)
    | None => Ok (MkV (v_names st) (v_keys st) (<[a := name]> (v_addresses st)) (v_routes st)
                    (<[p := name]> (v_allowed st)))
    end
  end.

Definition validate_peer_route (families : gset bool) (name : string) (j : nat)
    (st : vstate) (r : Prefix) : result peer_error vstate :=
  _ ← guard_err (negb (prefix.IsValid r) || (p_bits r =? 0)) (PRouteInvalid j);
  _ ← guard_err (negb (bool_decide (r = prefix.Masked r))) (PRouteNotNormalized j);
  _ ← guard_err (bool_decide (addr.Is4 (p_addr r) ∉ families)) (PRouteFamily j);
  match v_routes st !! r with
  | Some owner => Err (PRouteOwner r owner)
  | None =>
    match foreign_owner (v_allowed st) r name with
    | Some owner => Err (PAllowedIPOwner r owner)
    | None => Ok (MkV (v_names st) (v_keys st) (v_addresses st) (<[r := name]> (v_routes st))
                    (<[r := name]> (v_allowed st)))
    end
  end.

Definition validate_peer (families : gset bool) (st : vstate) (peer : Peer) :
    result peer_error vstate :=
  _ ← guard_err (negb (validateDNSLabel (peer_Name peer))) PName;
  _ ← guard_err ((peer_Name peer ∈? v_names st)) PNameTwice;
  _ ← guard_err ((PublicKey peer ∈? v_keys st)) PKeyTwice;
  _ ← guard_err (isZero (PublicKey peer)) PKeyZero;
  let st := MkV ({[peer_Name peer]} ∪ v_names st) ({[PublicKey peer]} ∪ v_keys st)
              (v_addresses st) (v_routes st) (v_allowed st) in
  _ ← (if String.eqb (Endpoint peer) "" then Ok tt
       else wrap PEndpoint (validateEndpoint (Endpoint peer)));
  _ ← guard_err (keepalive_bad (Keepalive peer)) PKeepalive;
  st ← ifoldM (validate_peer_address families (peer_Name peer)) (peer_Addresses peer) st;
  ifoldM (validate_peer_route families (peer_Name peer)) (peer_Routes peer) st.

Definition validate_address (i : nat) (families : gset bool) (a : Addr) :
    result cfg_error (gset bool) :=
  _ ← wrap (CAddress i) (validateAddress a);
  if (addr.Is4 a ∈? families) then Err (CFamilyTwice i)
  else Ok ({[addr.Is4 a]} ∪ families).

Definition initial_vstate (c : Config) : vstate :=
  MkV ∅ ∅ (foldl (λ m a, <[a := "profile " +:+ c_Name c]> m) ∅ (c_Addresses c)) ∅ ∅.

Definition Validate (c : Config) : result cfg_error unit :=
  _ ← guard_err (negb (c_Version c =? Version)) (CVersion (c_Version c));
  _ ← guard_err (negb (validateDNSLabel (c_Name c))) CName;
  match normalizeDNSSuffix (c_DNSSuffix c) with
  | None => Err CDNSSuffix
  | Some suffix =>
    _ ← guard_err (negb (String.eqb suffix (c_DNSSuffix c))) CSuffixNotNormalized;
    families ← ifoldM validate_address (c_Addresses c) ∅;
    _ ← guard_err (length (c_Addresses c) =? 0)%nat CNoAddress;
    _ ← ifoldM (λ i st peer, wrap (CPeer i) (validate_peer families st peer)) (c_Peers c)
          (initial_vstate c);
    normalizedFilter ← wrap CFilter (NormalizePacketFilter (c_PacketFilter c) (c_Peers c));
    guard_err (negb (packetFiltersEqual (c_PacketFilter c) normalizedFilter)) CFilterNotNormalized
  end.

(** ** NormalizeConfig *)

Definition mask_routes (p : Peer) : Peer :=
  MkPeer (peer_Name p) (PublicKey p) (HasPresharedKey p) (Endpoint p) (Keepalive p)
    (peer_Addresses p) (prefix.Masked <$> peer_Routes p) (ExitNode p).

(** The function works on a deep copy, so its argument is a value. *)
Definition NormalizeConfig (c : Config) : result cfg_error Config :=
  match normalizeDNSSuffix (c_DNSSuffix c) with
  | None => Err CDNSSuffix
  | Some suffix =>
    let peers := mask_routes <$> c_Peers c in
    packetFilter ← wrap CFilter (NormalizePacketFilter (c_PacketFilter c) peers);
    let c := sortConfig (MkConfig (c_Version c) (c_Name c) suffix (c_Addresses c)
               (c_ListenPort c) packetFilter peers) in
    _ ← Validate c;
    Ok c
  end.

(** ** Normalize: from a manifest *)

Definition normalize_peer_address (families : gset bool) (j : nat) (seen : list Addr)
    (raw : string) : result peer_error (list Addr) :=
  match ParseAddr raw with
  | None => Err (PAddressParse j)
  | Some a =>
    _ ← wrap (PAddress j) (validateAddress a);
    _ ← guard_err (bool_decide (addr.Is4 a ∉ families)) (PAddressFamily j);
    if (a ∈? seen) then Err (PAddressTwice j) else Ok (seen ++ [a])
  end.
Definition normalize_peer_route (families : gset bool) (j : nat) (seen : list Prefix)
    (raw : string) : result peer_error (list Prefix) :=
  match ParsePrefix raw with
  | None => Err (PRouteParse j)
  | Some r =>
    let r := prefix.Masked r in
    _ ← guard_err (p_bits r =? 0) (PRouteDefault j);
    _ ← guard_err (bool_decide (addr.Is4 (p_addr r) ∉ families)) (PRouteFamily j);
    if (r ∈? seen) then Err (PRouteTwice j) else Ok (seen ++ [r])
  end.

Section normalize.
Context (readFile : option (string → option string)).

(** [seenAddresses] and [seenRoutes] hold the elements appended so far. *)
Definition normalizePeer (p : PeerManifest) (families : gset bool) :
    result peer_error (Peer * option Key) :=
  _ ← guard_err (negb (validateDNSLabel (pm_Name p))) PName;
  publicKey ← wrap PKey (ParseKey (pm_PublicKey p));
  _ ← (if String.eqb (pm_Endpoint p) "" then Ok tt
       else wrap PEndpoint (validateEndpoint (pm_Endpoint p)));
  _ ← guard_err (keepalive_bad (pm_Keepalive p)) PKeepalive;
  addresses ← ifoldM (normalize_peer_address families) (pm_Addresses p) [];
  routes ← ifoldM (normalize_peer_route families) (pm_Routes p) [];
  psk ← (if String.eqb (pm_PresharedKeyFile p) "" then Ok None
         else key ← wrap PPresharedKey (readKeyFile readFile (pm_PresharedKeyFile p)); Ok (Some key));
  Ok (MkPeer (pm_Name p) publicKey (negb (String.eqb (pm_PresharedKeyFile p) ""))
        (pm_Endpoint p) (pm_Keepalive p) addresses routes (pm_ExitNode p), psk).

Record nstate : Type := MkN {
  n_names : gset string; n_keys : gset Key; n_addresses : gmap Addr string;
  n_routes : gmap Prefix string; n_psk : gmap string Key; n_peers : list Peer }.

Definition claim_owner {K} `{Countable K} (e : K → string → peer_error) (name : string)
    (owners : gmap K string) (k : K) : result peer_error (gmap K string) :=
  match owners !! k with
  | Some owner => Err (e k owner)
  | None => Ok (<[k := name]> owners)
  end.

Definition normalize_peer (families : gset bool) (st : nstate) (rawPeer : PeerManifest) :
    result peer_error nstate :=
  '(peer, psk) ← normalizePeer rawPeer families;
  _ ← guard_err ((peer_Name peer ∈? n_names st)) PNameTwice;
  _ ← guard_err ((PublicKey peer ∈? n_keys st)) PKeyTwice;
  addresses ← foldM (claim_owner PAddressOwner (peer_Name peer)) (peer_Addresses peer) (n_addresses st);
  routes ← foldM (claim_owner PRouteOwner (peer_Name peer)) (peer_Routes peer) (n_routes st);
  Ok (MkN ({[peer_Name peer]} ∪ n_names st) ({[PublicKey peer]} ∪ n_keys st) addresses routes
        (match psk with Some key => <[peer_Name peer := key]> (n_psk st) | None => n_psk st end)
        (n_peers st ++ [peer])).

Definition parse_address (i : nat) (st : gset bool * list Addr) (raw : string) :
    result cfg_error (gset bool * list Addr) :=
  match ParseAddr raw with
  | None => Err (CAddressParse i)
  | Some a => families ← validate_address i st.1 a; Ok (families, st.2 ++ [a])
  end.

Definition Normalize (m : Manifest) : result cfg_error (Config * Secrets) :=
  _ ← guard_err (negb (m_Version m =? Version)) (CVersion (m_Version m));
  _ ← guard_err (negb (validateDNSLabel (m_Name m))) CName;
  match normalizeDNSSuffix (m_DNSSuffix m) with
  | None => Err CDNSSuffix
  | Some suffix =>
    listenPort ← match m_ListenPort m with
                 | Some p => if p =? 0 then Err CListenPort else Ok p
                 | None => Ok 0
                 end;
    '(families, own) ← ifoldM parse_address (m_Addresses m) (∅, []);
    _ ← guard_err (length own =? 0)%nat CNoAddress;
    privateKey ← (if String.eqb (m_PrivateKeyFile m) "" then Ok None
                  else key ← wrap CPrivateKeyFile (readKeyFile readFile (m_PrivateKeyFile m));
                       Ok (Some key));
    st ← ifoldM (λ i st p, wrap (CPeer i) (normalize_peer families st p)) (m_Peers m)
           (MkN ∅ ∅ (foldl (λ mp a, <[a := "profile " +:+ m_Name m]> mp) ∅ own) ∅ ∅ []);
    packetFilter ← wrap CFilter (NormalizePacketFilterManifest (m_PacketFilter m) (n_peers st));
    let config := sortConfig (MkConfig (m_Version m) (m_Name m) suffix own listenPort
                    packetFilter (n_peers st)) in
    _ ← Validate config;
    Ok (config, MkSecrets privateKey (n_psk st))
  end.
End normalize.

(** ** What a valid configuration guarantees *)

(** The prefixes a peer may send from and is sent: WireGuard's AllowedIPs. *)
Definition allowed_ips (p : Peer) : list Prefix :=
  ((λ a, prefix.PrefixFrom a (addr.BitLen a)) <$> peer_Addresses p) ++ peer_Routes p.
Definition unicast (a : Addr) : Prop :=
  (addr.Is4 a = true ∨ addr.Is6 a = true) ∧ addr.Is4In6 a = false ∧
  addr.IsUnspecified a = false ∧ addr.IsMulticast a = false.

Record peer_ok (families : gset bool) (p : Peer) : Prop := {
  peer_label : validateDNSLabel (peer_Name p) = true;
  peer_key : isZero (PublicKey p) = false;
  peer_keepalive : 0 <= Keepalive p <= 65535 * Second;
  peer_addresses : Forall (λ a, unicast a ∧ addr.Is4 a ∈ families) (peer_Addresses p);
  peer_routes : Forall (λ r, prefix.Masked r = r ∧ 0 < p_bits r ∧ addr.Is4 (p_addr r) ∈ families)
                  (peer_Routes p) }.

Record config_ok (c : Config) : Prop := {
  ok_version : c_Version c = Version;
  ok_addresses : Forall unicast (c_Addresses c);
  ok_families : NoDup (addr.Is4 <$> c_Addresses c);
  ok_some_address : c_Addresses c ≠ [];
  ok_names : NoDup (peer_Name <$> c_Peers c);
  ok_keys : NoDup (PublicKey <$> c_Peers c);
  ok_distinct : NoDup (c_Addresses c ++ (c_Peers c ≫= peer_Addresses));
  ok_routes : NoDup (c_Peers c ≫= peer_Routes);
  ok_peers : Forall (peer_ok (list_to_set (addr.Is4 <$> c_Addresses c))) (c_Peers c);
  ok_allowed : ∀ p q r, p ∈ c_Peers c → q ∈ c_Peers c → r ∈ allowed_ips p → r ∈ allowed_ips q → p = q;
  ok_suffix : normalizeDNSSuffix (c_DNSSuffix c) = Some (c_DNSSuffix c);
  ok_filter : NormalizePacketFilter (c_PacketFilter c) (c_Peers c) = Ok (c_PacketFilter c) }.

Lemma validateAddress_ok a u : validateAddress a = Ok u → unicast a.
Proof.
  unfold validateAddress, unicast. destruct (negb _ || _ || _) eqn:E; [done|].
  rewrite !orb_false_iff, negb_false_iff, andb_false_iff, !negb_false_iff in E.
  destruct (addr.IsUnspecified a) eqn:?; [done|]. destruct (addr.IsMulticast a) eqn:?; [done|].
  destruct E as [[_ Hf] H4]. intros _. tauto.
Qed.

Lemma keepalive_ok d : keepalive_bad d = false → 0 <= d <= 65535 * Second.
Proof. unfold keepalive_bad, Second. rewrite !orb_false_iff. lia. Qed.

(** Ownership tables only ever gain entries, because a foreign owner is an
    error. *)
Lemma foreign_owner_grow {K} `{Countable K} (owners : gmap K string) k name :
  foreign_owner owners k name = None → owners ⊆ <[k := name]> owners.
Proof.
  unfold foreign_owner. intros Hf. apply map_subseteq_spec. intros k' v Hv.
  destruct (decide (k = k')) as [<-|Hne]; [|by rewrite lookup_insert_ne].
  rewrite lookup_insert_eq. rewrite Hv in Hf.
  destruct (String.eqb_spec v name); [by subst|done].
Qed.

(** The part of the invariant the two inner loops share: names and keys are
    fixed, allowed prefixes only grow, and what was processed is recorded. *)
Record extends (st st' : vstate) : Prop := {
  ext_names : v_names st' = v_names st;
  ext_keys : v_keys st' = v_keys st;
  ext_allowed : v_allowed st ⊆ v_allowed st' }.

Lemma extends_refl st : extends st st.
Proof. by split. Qed.
Lemma extends_trans st1 st2 st3 : extends st1 st2 → extends st2 st3 → extends st1 st3.
Proof.
  intros [] []. split; [congruence|congruence|]. by transitivity (v_allowed st2).
Qed.

Lemma validate_peer_address_ok families name j st a st' :
  validate_peer_address families name j st a = Ok st' →
  unicast a ∧ addr.Is4 a ∈ families ∧ a ∉ dom (v_addresses st) ∧ extends st st' ∧
  dom (v_addresses st') = {[a]} ∪ dom (v_addresses st) ∧ v_routes st' = v_routes st ∧
  v_allowed st' !! prefix.PrefixFrom a (addr.BitLen a) = Some name.
Proof.
  unfold validate_peer_address. intros H.
  ok_inv H as u Hu. apply wrap_ok_inv, validateAddress_ok in Hu. ok_guard H as Hg.
  apply bool_decide_eq_false in Hg.
  destruct (v_addresses st !! a) eqn:Ha; [done|].
  destruct (foreign_owner _ _ _) eqn:Hf; [done|]. injection H as <-.
  apply foreign_owner_grow in Hf. split_and!; [done|by apply dec_stable|by apply not_elem_of_dom| | |done|].
  - by split.
  - simpl. by rewrite dom_insert_L.
  - simpl. by rewrite lookup_insert_eq.
Qed.
Lemma validate_peer_route_ok families name j st r st' :
  validate_peer_route families name j st r = Ok st' →
  prefix.Masked r = r ∧ 0 < p_bits r ∧ addr.Is4 (p_addr r) ∈ families ∧
  r ∉ dom (v_routes st) ∧ extends st st' ∧
  dom (v_routes st') = {[r]} ∪ dom (v_routes st) ∧ v_addresses st' = v_addresses st ∧
  v_allowed st' !! r = Some name.
Proof.
  unfold validate_peer_route. intros H.
  ok_guard H as Hv. ok_guard H as Hm. ok_guard H as Hg.
  apply orb_false_iff in Hv as [Hv%negb_false_iff Hb%Z.eqb_neq].
  apply negb_false_iff, bool_decide_eq_true in Hm. apply bool_decide_eq_false in Hg.
  destruct (v_routes st !! r) eqn:Ha; [done|].
  destruct (foreign_owner _ _ _) eqn:Hf; [done|]. injection H as <-.
  apply foreign_owner_grow in Hf. unfold prefix.IsValid in Hv.
  split_and!; [done|lia|by apply dec_stable|by apply not_elem_of_dom| | |done|].
  - by split.
  - simpl. by rewrite dom_insert_L.
  - simpl. by rewrite lookup_insert_eq.
Qed.

(** The two inner loops of [Validate]. *)
Lemma validate_addresses_ok families name l st st' :
  ifoldM (validate_peer_address families name) l st = Ok st' →
  extends st st' ∧ v_routes st' = v_routes st ∧
  NoDup l ∧ (∀ a, a ∈ l → a ∉ dom (v_addresses st)) ∧
  dom (v_addresses st') = list_to_set l ∪ dom (v_addresses st) ∧
  Forall (λ a, (unicast a ∧ addr.Is4 a ∈ families) ∧
               v_allowed st' !! prefix.PrefixFrom a (addr.BitLen a) = Some name) l.
Proof.
  intros H.
  apply (ifoldM_ind (λ l st', extends st st' ∧ v_routes st' = v_routes st ∧
    NoDup l ∧ (∀ a, a ∈ l → a ∉ dom (v_addresses st)) ∧
    dom (v_addresses st') = list_to_set l ∪ dom (v_addresses st) ∧
    Forall (λ a, (unicast a ∧ addr.Is4 a ∈ families) ∧
               v_allowed st' !! prefix.PrefixFrom a (addr.BitLen a) = Some name) l) _ _ _ _ H).
  - split_and!; [apply extends_refl|done|constructor|by intros ? ?%elem_of_nil| |constructor].
    simpl. by rewrite (left_id_L ∅ (∪)).
  - intros j pre a s1 s2 _ (He & Hr & Hnd & Hfresh & Hdom & Hall) Hstep.
    apply validate_peer_address_ok in Hstep as (Hu & Hfam & Hnew & He2 & Hdom2 & Hr2 & Hal).
    assert (a ∉ pre ∧ a ∉ dom (v_addresses st)) as [Hpre Hst].
    { rewrite Hdom, not_elem_of_union, elem_of_list_to_set in Hnew. done. }
    split_and!.
    + by eapply extends_trans.
    + congruence.
    + by apply NoDup_snoc.
    + intros x [Hx| ->%list_elem_of_singleton]%elem_of_app; [by apply Hfresh|done].
    + rewrite Hdom2, Hdom, list_to_set_app_L. simpl. rewrite (right_id_L ∅ (∪)).
      by rewrite (assoc_L (∪)), (comm_L (∪) {[a]}).
    + apply Forall_app. split; [|by apply Forall_singleton].
      eapply Forall_impl; [exact Hall|]. intros x [Hx1 Hx2]. split; [done|].
      by eapply lookup_weaken, (ext_allowed _ _ He2).
Qed.
Lemma validate_routes_ok families name l st st' :
  ifoldM (validate_peer_route families name) l st = Ok st' →
  extends st st' ∧ v_addresses st' = v_addresses st ∧
  NoDup l ∧ (∀ r, r ∈ l → r ∉ dom (v_routes st)) ∧
  dom (v_routes st') = list_to_set l ∪ dom (v_routes st) ∧
  Forall (λ r, (prefix.Masked r = r ∧ 0 < p_bits r ∧ addr.Is4 (p_addr r) ∈ families) ∧
               v_allowed st' !! r = Some name) l.
Proof.
  intros H.
  apply (ifoldM_ind (λ l st', extends st st' ∧ v_addresses st' = v_addresses st ∧
    NoDup l ∧ (∀ r, r ∈ l → r ∉ dom (v_routes st)) ∧
    dom (v_routes st') = list_to_set l ∪ dom (v_routes st) ∧
    Forall (λ r, (prefix.Masked r = r ∧ 0 < p_bits r ∧ addr.Is4 (p_addr r) ∈ families) ∧
               v_allowed st' !! r = Some name) l) _ _ _ _ H).
  - split_and!; [apply extends_refl|done|constructor|by intros ? ?%elem_of_nil| |constructor].
    simpl. by rewrite (left_id_L ∅ (∪)).
  - intros j pre r s1 s2 _ (He & Hr & Hnd & Hfresh & Hdom & Hall) Hstep.
    apply validate_peer_route_ok in Hstep as (Hm & Hb & Hfam & Hnew & He2 & Hdom2 & Hr2 & Hal).
    assert (r ∉ pre ∧ r ∉ dom (v_routes st)) as [Hpre Hst].
    { rewrite Hdom, not_elem_of_union, elem_of_list_to_set in Hnew. done. }
    split_and!.
    + by eapply extends_trans.
    + congruence.
    + by apply NoDup_snoc.
    + intros x [Hx| ->%list_elem_of_singleton]%elem_of_app; [by apply Hfresh|done].
    + rewrite Hdom2, Hdom, list_to_set_app_L. simpl. rewrite (right_id_L ∅ (∪)).
      by rewrite (assoc_L (∪)), (comm_L (∪) {[r]}).
    + apply Forall_app. split; [|by apply Forall_singleton].
      eapply Forall_impl; [exact Hall|]. intros x [Hx1 Hx2]. split; [done|].
      by eapply lookup_weaken, (ext_allowed _ _ He2).
Qed.

(** The invariant of the loop over the peers. *)
Record vinv (families : gset bool) (own : list Addr) (pre : list Peer) (st : vstate) : Prop := {
  vi_names : v_names st = list_to_set (peer_Name <$> pre);
  vi_keys : v_keys st = list_to_set (PublicKey <$> pre);
  vi_NoDup_names : NoDup (peer_Name <$> pre);
  vi_NoDup_keys : NoDup (PublicKey <$> pre);
  vi_addresses : dom (v_addresses st) = list_to_set (own ++ (pre ≫= peer_Addresses));
  vi_NoDup_addresses : NoDup (own ++ (pre ≫= peer_Addresses));
  vi_routes : dom (v_routes st) = list_to_set (pre ≫= peer_Routes);
  vi_NoDup_routes : NoDup (pre ≫= peer_Routes);
  vi_peers : Forall (peer_ok families) pre;
  vi_allowed : ∀ p r, p ∈ pre → r ∈ allowed_ips p → v_allowed st !! r = Some (peer_Name p) }.

Lemma validate_peer_inv families own pre st peer st' :
  vinv families own pre st → validate_peer families st peer = Ok st' →
  vinv families own (pre ++ [peer]) st'.
Proof.
  intros [] H. unfold validate_peer in H.
  ok_guard H as Hl. ok_guard H as Hn. ok_guard H as Hk. ok_guard H as Hz.
  ok_inv H as u Hep. ok_guard H as Hka. ok_inv H as st1 Ha.
  apply negb_false_iff in Hl. apply bool_decide_eq_false in Hn, Hk. apply keepalive_ok in Hka.
  apply validate_addresses_ok in Ha as ([En Ek Ea] & Er & Nd & Nf & Hd & Hall). simpl in *.
  apply validate_routes_ok in H as ([En2 Ek2 Ea2] & Er2 & Nd2 & Nf2 & Hd2 & Hall2).
  rewrite vi_names0 in Hn. rewrite vi_keys0 in Hk. rewrite elem_of_list_to_set in Hn. rewrite elem_of_list_to_set in Hk.
  split.
  - rewrite En2, En, vi_names0, fmap_app, list_to_set_app_L. simpl.
    by rewrite (right_id_L ∅ (∪)), (comm_L (∪)).
  - rewrite Ek2, Ek, vi_keys0, fmap_app, list_to_set_app_L. simpl.
    by rewrite (right_id_L ∅ (∪)), (comm_L (∪)).
  - rewrite fmap_app. by apply NoDup_snoc.
  - rewrite fmap_app. by apply NoDup_snoc.
  - rewrite Er2, Hd, vi_addresses0, bind_app. simpl. rewrite app_nil_r, app_assoc.
    by rewrite (list_to_set_app_L _ (peer_Addresses peer)), (comm_L (∪)).
  - rewrite bind_app. simpl. rewrite app_nil_r, app_assoc. apply NoDup_app. split_and!; [done| |done].
    intros a Hin Hp. apply (Nf a Hp). rewrite vi_addresses0. by apply elem_of_list_to_set.
  - rewrite Hd2, Er, vi_routes0, bind_app. simpl.
    by rewrite app_nil_r, list_to_set_app_L, (comm_L (∪)).
  - rewrite bind_app. simpl. rewrite app_nil_r. apply NoDup_app. split_and!; [done| |done].
    intros r Hin Hp. apply (Nf2 r Hp). rewrite Er, vi_routes0. by apply elem_of_list_to_set.
  - apply Forall_app. split; [done|]. constructor; [|done].
    split; [done|done|done|by eapply Forall_impl; [exact Hall|intros ? []]|].
    by eapply Forall_impl; [exact Hall2|intros ? []].
  - intros p r [Hp| ->%list_elem_of_singleton]%elem_of_app Hr.
    + eapply lookup_weaken; [|exact Ea2]. eapply lookup_weaken; [|exact Ea].
      by apply vi_allowed0.
    + apply elem_of_app in Hr as [(a & -> & Hin)%list_elem_of_fmap|Hin].
      * rewrite Forall_forall in Hall. eapply lookup_weaken; [|exact Ea2].
        by apply Hall.
      * rewrite Forall_forall in Hall2. by apply Hall2.
Qed.

Lemma validate_own_ok l families :
  ifoldM validate_address l ∅ = Ok families →
  Forall unicast l ∧ NoDup (addr.Is4 <$> l) ∧ families = list_to_set (addr.Is4 <$> l).
Proof.
  intros H.
  apply (ifoldM_ind (λ l families, Forall unicast l ∧ NoDup (addr.Is4 <$> l) ∧
    families = list_to_set (addr.Is4 <$> l)) _ _ _ _ H); [by split_and!; [constructor..|]|].
  intros i pre a f1 f2 _ (Hu & Hnd & ->) Hs. unfold validate_address in Hs.
  ok_inv Hs as u Ha. apply wrap_ok_inv, validateAddress_ok in Ha.
  destruct (bool_decide_reflect (addr.Is4 a ∈ (list_to_set (addr.Is4 <$> pre) : gset bool)))
    as [|Hni]; [done|]. injection Hs as <-. rewrite elem_of_list_to_set in Hni.
  split_and!.
  - apply Forall_app. by split; [|constructor].
  - rewrite fmap_app. by apply NoDup_snoc.
  - rewrite fmap_app, list_to_set_app_L. simpl. by rewrite (right_id_L ∅ (∪)), (comm_L (∪)).
Qed.

Lemma dom_initial c : dom (v_addresses (initial_vstate c)) = list_to_set (c_Addresses c).
Proof.
  unfold initial_vstate. simpl.
  assert (∀ (m : gmap Addr string), dom (foldl (λ m a, <[a := "profile " +:+ c_Name c]> m) m
    (c_Addresses c)) = list_to_set (c_Addresses c) ∪ dom m) as ->.
  { induction (c_Addresses c) as [|a l IH]; intros m; simpl; [by rewrite (left_id_L ∅ (∪))|].
    rewrite IH, dom_insert_L. by rewrite (assoc_L (∪)), (comm_L (∪) _ {[a]}). }
  by rewrite dom_empty_L, (right_id_L ∅ (∪)).
Qed.

Lemma Validate_config_ok c : Validate c = Ok tt → config_ok c.
Proof.
  intros H. unfold Validate in H. ok_guard H as Hv. ok_guard H as Hl.
  apply negb_false_iff, Z.eqb_eq in Hv.
  destruct (normalizeDNSSuffix (c_DNSSuffix c)) as [suffix|] eqn:Hs; [|done].
  ok_guard H as Hsuf. apply negb_false_iff, String.eqb_eq in Hsuf as ->.
  ok_inv H as families Hf. apply validate_own_ok in Hf as (Hu & Hnd & Hfam).
  ok_guard H as Hne. apply Nat.eqb_neq in Hne.
  ok_inv H as st Hp. ok_inv H as nf Hnf. apply wrap_ok_inv in Hnf.
  apply guard_err_ok_inv, negb_false_iff in H. unfold packetFiltersEqual in H.
  apply bool_decide_eq_true in H.
  assert (vinv families (c_Addresses c) (c_Peers c) st) as [].
  { apply (ifoldM_ind (vinv families (c_Addresses c)) _ _ _ _ Hp).
    - split; simpl; try done; try apply NoDup_nil_2; try (by rewrite ?dom_empty_L).
      + pose proof (dom_initial c). simpl in *. by rewrite app_nil_r.
      + rewrite app_nil_r. by apply NoDup_fmap_1 in Hnd.
      + by intros p r ?%elem_of_nil.
    - intros i pre p s1 s2 _ Hi Hstep%wrap_ok_inv. by apply (validate_peer_inv _ _ _ s1). }
  split; try done.
  - intros E. by rewrite E in Hne.
  - by rewrite <-Hfam.
  - intros p q r Hip Hiq Hrp Hrq.
    pose proof (vi_allowed0 p r Hip Hrp) as H1. pose proof (vi_allowed0 q r Hiq Hrq) as H2.
    apply list_elem_of_lookup in Hip as [i Hi]. apply list_elem_of_lookup in Hiq as [j Hj].
    assert (i = j) as ->; [|congruence].
    apply (NoDup_lookup (peer_Name <$> c_Peers c) i j (peer_Name p)); [done|..].
    + by rewrite list_lookup_fmap, Hi.
    + rewrite list_lookup_fmap, Hj. simpl. congruence.
  - rewrite Hnf. destruct (c_PacketFilter c), nf; simpl in *; congruence.
Qed.

(** ** Normal forms *)

Lemma sort_peer_idemp p : sort_peer (sort_peer p) = sort_peer p.
Proof.
  unfold sort_peer. simpl. f_equal; apply go_sort_idemp; apply _.
Qed.

Lemma sorted_map_key {A} (f : A → A) (key : A → string) l :
  (∀ x, key (f x) = key x) →
  StronglySorted (not_after (less_key key)) l → StronglySorted (not_after (less_key key)) (f <$> l).
Proof.
  intros Hf. induction 1 as [|x l Hs IH Hall]; simpl; constructor; [done|].
  apply Forall_fmap. eapply Forall_impl; [exact Hall|].
  intros y. unfold not_after, less_key. simpl. by rewrite !Hf.
Qed.

Lemma sortConfig_idemp c : sortConfig (sortConfig c) = sortConfig c.
Proof.
  unfold sortConfig. simpl. f_equal; [apply go_sort_idemp; apply _|].
  rewrite go_sort_id.
  - rewrite <-list_fmap_compose. apply list_fmap_ext. intros i p _. apply sort_peer_idemp.
  - apply sorted_map_key; [done|]. by apply go_sort_sorted; apply _.
Qed.

Lemma mask_routes_id families peers :
  Forall (peer_ok families) peers → mask_routes <$> peers = peers.
Proof.
  intros Hall. rewrite <-(list_fmap_id peers) at 2. apply list_fmap_ext.
  intros i p Hp. apply list_elem_of_lookup_2 in Hp.
  rewrite Forall_forall in Hall. destruct (Hall p Hp) as [_ _ _ _ Hr].
  destruct p as [n k ps e ka a r x]. unfold mask_routes. simpl in *. f_equal.
  rewrite <-(list_fmap_id r) at 2. apply list_fmap_ext. intros j q Hq.
  apply list_elem_of_lookup_2 in Hq. rewrite Forall_forall in Hr. by apply Hr.
Qed.

Lemma valid_sorted_normal c :
  Validate c = Ok tt → sortConfig c = c → NormalizeConfig c = Ok c.
Proof.
  intros Hv Hs. pose proof (Validate_config_ok c Hv) as [].
  unfold NormalizeConfig. rewrite ok_suffix0. erewrite mask_routes_id by done.
  rewrite ok_filter0. simpl.
  assert (MkConfig (c_Version c) (c_Name c) (c_DNSSuffix c) (c_Addresses c) (c_ListenPort c)
    (c_PacketFilter c) (c_Peers c) = c) as -> by (by destruct c).
  by rewrite Hs, Hv.
Qed.
Lemma sorted_valid_normal c0 c :
  c = sortConfig c0 → Validate c = Ok tt → NormalizeConfig c = Ok c.
Proof.
  intros -> Hv. apply valid_sorted_normal; [done|]. apply sortConfig_idemp.
Qed.

Lemma NormalizeConfig_inv c c' :
  NormalizeConfig c = Ok c' → Validate c' = Ok tt ∧ ∃ c0, c' = sortConfig c0.
Proof.
  unfold NormalizeConfig. destruct (normalizeDNSSuffix _); [|done]. intros H.
  ok_inv H as f Hf. ok_inv H as u Hv. injection H as <-. destruct u. eauto.
Qed.

(** C34. A validated configuration is one WireGuard can route by.  It has at
    most one address per family, every address is a native unicast address that
    nobody else has, peers have distinct names and distinct nonzero keys, no
    prefix is an AllowedIP of two peers, keepalives fit the protocol's field,
    and the DNS suffix and the packet filter are in normal form. *)
Theorem Validate_sound c : Validate c = Ok tt → config_ok c.
Proof. apply Validate_config_ok. Qed.

(** Normalization is idempotent: a configuration that was normalized and
    persisted is accepted again and stays as it is. *)
Theorem NormalizeConfig_idempotent c c' :
  NormalizeConfig c = Ok c' → NormalizeConfig c' = Ok c'.
Proof. intros (Hv & c0 & He)%NormalizeConfig_inv. by eapply sorted_valid_normal. Qed.

(** *** From a manifest *)

Section normalize_facts.
Context (readFile : option (string → option string)).

Lemma normalizePeer_psk p families peer psk :
  normalizePeer readFile p families = Ok (peer, psk) → HasPresharedKey peer = bool_decide (is_Some psk).
Proof.
  unfold normalizePeer. intros H. ok_guard H as _. ok_inv H as k Hk. ok_inv H as u Hu.
  ok_guard H as _. ok_inv H as a Ha. ok_inv H as r Hr. ok_inv H as o Ho. injection H as <- <-. simpl.
  destruct (String.eqb (pm_PresharedKeyFile p) ""); simpl in *.
  - by injection Ho as <-.
  - ok_inv Ho as key Hkey. injection Ho as <-. symmetry. apply bool_decide_eq_true. eauto.
Qed.

(** The preshared keys kept are those of the peers that have one. *)
Definition psk_inv (st : nstate) : Prop :=
  ∀ name, is_Some (n_psk st !! name) ↔
    ∃ p, p ∈ n_peers st ∧ peer_Name p = name ∧ HasPresharedKey p = true.
Lemma normalize_peer_psk families st raw st' :
  normalize_peer readFile families st raw = Ok st' → psk_inv st → psk_inv st'.
Proof.
  unfold normalize_peer. intros H Hi. ok_inv H as [peer psk] Hp. ok_guard H as Hn.
  ok_guard H as Hk. ok_inv H as am Ham. ok_inv H as rm Hrm. injection H as <-.
  apply normalizePeer_psk in Hp. intros name. simpl. setoid_rewrite elem_of_app.
  setoid_rewrite list_elem_of_singleton. specialize (Hi name).
  destruct psk as [key|]; simpl in Hp.
  - rewrite lookup_insert_is_Some'. rewrite Hi. split.
    + intros [<-|(q & ? & ? & ?)]; eauto 10.
    + intros (q & [Hq| ->] & ? & ?); eauto 10.
  - rewrite Hi. split.
    + intros (q & ? & ? & ?); eauto 10.
    + intros (q & [Hq| ->] & ? & ?); [eauto|congruence].
Qed.

Lemma Normalize_inv m c s :
  Normalize readFile m = Ok (c, s) →
  Validate c = Ok tt ∧ (∃ c0, c = sortConfig c0) ∧ c_Name c = m_Name m ∧
  ∃ st, psk_inv st ∧ PresharedKeyByPeer s = n_psk st ∧
    c_Peers c = sort_peer <$> go_sort (less_key peer_Name) (n_peers st).
Proof.
  unfold Normalize. intros H. ok_guard H as Hver. ok_guard H as Hname.
  destruct (normalizeDNSSuffix _); [|done]. ok_inv H as lp Hlp. ok_inv H as [families own] Hown.
  ok_guard H as Hne. ok_inv H as pk Hpk. ok_inv H as st Hst. ok_inv H as f Hf. ok_inv H as u Hv.
  injection H as <- <-. destruct u. split_and!; [done|eauto|done|].
  exists st. split_and!; [|done..].
  apply (ifoldM_ind (λ _, psk_inv) _ _ _ _ Hst).
  - intros name. simpl. rewrite lookup_empty. split; [by intros []|].
    by intros (p & ?%elem_of_nil & _).
  - intros i pre p s1 s2 _ Hi Hx%wrap_ok_inv. by eapply normalize_peer_psk.
Qed.
End normalize_facts.

(** Loading a profile.  What [Normalize] returns is a valid configuration
    and already normal, so writing it to the state file and reading it back
    changes nothing; and the preshared keys it returns are exactly those of the
    peers marked as having one. *)
Theorem Normalize_valid readFile m c s :
  Normalize readFile m = Ok (c, s) →
  config_ok c ∧ NormalizeConfig c = Ok c ∧ c_Name c = m_Name m ∧
  ∀ name, is_Some (PresharedKeyByPeer s !! name) ↔
    ∃ p, p ∈ c_Peers c ∧ peer_Name p = name ∧ HasPresharedKey p = true.
Proof.
  intros (Hv & (c0 & He) & Hname & st & Hpsk & -> & Hpeers)%Normalize_inv.
  split_and!; [by apply Validate_config_ok|by eapply sorted_valid_normal|done|].
  intros name. rewrite (Hpsk name), Hpeers. split.
  - intros (p & Hp & ? & ?). exists (sort_peer p). split_and!; [|done..].
    apply list_elem_of_fmap. exists p. split; [done|]. by apply elem_of_go_sort.
  - intros (p & (q & -> & Hq%elem_of_go_sort)%list_elem_of_fmap & ? & ?). eauto.
Qed.

(** ** A concrete profile *)

Definition test_key (n : Z) : string := key_String (n :: repeat 0 31).
Definition test_read (path : string) : option string :=
  if String.eqb path "/etc/psk" then Some (test_key 9) else None.
Definition test_manifest : Manifest :=
  MkManifest 1 "home" "corp.example." ["fd00::1"; "10.0.0.1"] "" (Some 51820)
    (Some [MkGrant ["peer:nas"; "*"] ["self"] ["22"; "udp:8000-9000"];
           MkGrant ["10.1.0.0/16"] ["internet"; "self"] ["*"]])
    [MkPeerManifest "nas" (test_key 2) "/etc/psk" "nas.example:51820" (25 * Second)
       ["10.0.0.2"; "fd00::2"] ["10.1.2.0/16"] false;
     MkPeerManifest "exit" (test_key 3) "" "[2001:db8::1]:51820" 0 ["10.0.0.3"] [] true].

Lemma Normalize_valid_witness :
  ∃ c s, Normalize (Some test_read) test_manifest = Ok (c, s) ∧ config_ok c ∧
    is_Some (PresharedKeyByPeer s !! "nas").
Proof.
  destruct (Normalize (Some test_read) test_manifest) as [[c s]|e] eqn:E;
    [|exfalso; vm_compute in E; discriminate].
  destruct (Normalize_valid (Some test_read) test_manifest c s E) as (Hok & _ & _ & _).
  exists c, s. split; [reflexivity|]. split; [exact Hok|].
  vm_compute in E. injection E as <- <-. eexists. vm_compute. reflexivity.
Defined.

Definition test_config : Config :=
  match Normalize (Some test_read) test_manifest with
  | Ok (c, _) => c
  | Err _ => MkConfig 0 "" "" [] 0 (MkFilter []) []
  end.
Lemma Validate_sound_witness : config_ok test_config.
Proof. apply Validate_sound. vm_compute. reflexivity. Defined.

(** The routes out of order and unmasked, as a hand-edited state file may hold. *)
Definition edited_config : Config :=
  MkConfig 1 "home" "corp.example." [Addr4 167772161] 0 (MkFilter [])
    [MkPeer "nas" (2 :: repeat 0 31) false "" 0 [Addr4 167772162]
       [MkPrefix (Addr4 3232235777) 24; MkPrefix (Addr4 167837953) 16] false].
Lemma NormalizeConfig_idempotent_witness :
  ∃ c, NormalizeConfig edited_config = Ok c ∧ NormalizeConfig c = Ok c ∧
    (peer_Routes <$> c_Peers c) = [[MkPrefix (Addr4 167837696) 16; MkPrefix (Addr4 3232235776) 24]].
Proof.
  destruct (NormalizeConfig edited_config) as [c|e] eqn:E; [|exfalso; vm_compute in E; discriminate].
  exists c. split; [reflexivity|]. split; [exact (NormalizeConfig_idempotent edited_config c E)|].
  vm_compute in E. injection E as <-. reflexivity.
Defined.

(** Two peers may not share a prefix, and an unknown peer in a grant is an error. *)
Example shared_route_refused :
  NormalizeConfig (MkConfig 1 "home" "corp.example." [Addr4 167772161] 0 (MkFilter [])
    [MkPeer "a" (2 :: repeat 0 31) false "" 0 [] [MkPrefix (Addr4 167837696) 16] false;
     MkPeer "b" (3 :: repeat 0 31) false "" 0 [] [MkPrefix (Addr4 167837696) 16] false]) =
  Err (CPeer 1 (PRouteOwner (MkPrefix (Addr4 167837696) 16) "a")).
Proof. vm_compute. reflexivity. Qed.
