(* ===== verification/DNSName.v ===== *)
(** * DNS names

    The interface of [tailscale.com/util/dnsname], which the state, the
    routing policy, the resolver and the SOCKS router use to compare domains.
    The package is not part of the repository: components are written against
    the class [DNSName] and its documented laws.  [LabelNames] is an instance
    that keeps a name as its list of labels. *)

From S2P Require Import Prelude GoStrings.

Class DNSName (FQDN : Type) : Type := {
  FQDN_eq_dec :: EqDecision FQDN;
  FQDN_countable :: Countable FQDN;
  (** [FQDN(".")], and the zero value that [ToFQDN] returns with an error. *)
  root : FQDN;
  zero_fqdn : FQDN;
  ToFQDN : string → option FQDN;
  WithoutTrailingDot : FQDN → string;
  FQDNContains : FQDN → FQDN → bool;
  NumLabels : FQDN → nat
}.

Definition is_fqdn {F} `{DNSName F} (d : F) : Prop := ∃ s, ToFQDN s = Some d.

Class DNSNameLaws (F : Type) `{DNSName F} : Prop := {
  (** Parsing adds nothing but a dot, and is the identity on its results. *)
  ToFQDN_chars s d c : ToFQDN s = Some d → c ∈ chars (WithoutTrailingDot d) →
    c ∈ chars s ∨ c = "."%char;
  ToFQDN_canonical d : is_fqdn d → d ≠ root → ToFQDN (WithoutTrailingDot d) = Some d;
  WithoutTrailingDot_nonempty d : is_fqdn d → d ≠ root →
    WithoutTrailingDot d ≠ "" ∧ WithoutTrailingDot d ≠ ".";
  ToFQDN_root : ToFQDN "." = Some root;
  ToFQDN_not_zero s : ToFQDN s ≠ Some zero_fqdn;
  (** Containment is the suffix order on labels. *)
  FQDNContains_refl d : FQDNContains d d = true;
  FQDNContains_trans a b c : is_fqdn a → is_fqdn b → is_fqdn c →
    FQDNContains a b = true → FQDNContains b c = true → FQDNContains a c = true;
  FQDNContains_labels a b : is_fqdn a → is_fqdn b → FQDNContains a b = true →
    NumLabels a <= NumLabels b;
  FQDNContains_nested a b d : is_fqdn a → is_fqdn b → is_fqdn d →
    FQDNContains a d = true → FQDNContains b d = true →
    NumLabels a <= NumLabels b → FQDNContains a b = true;
  FQDNContains_antisym a b : is_fqdn a → is_fqdn b →
    FQDNContains a b = true → FQDNContains b a = true → a = b;
  (** A proper suffix is a shorter text. *)
  FQDNContains_length a b : is_fqdn a → is_fqdn b → FQDNContains a b = true → a ≠ b →
    str_len (WithoutTrailingDot a) < str_len (WithoutTrailingDot b)
}.

(** Two suffixes of a name with as many labels are the same. *)
Lemma FQDNContains_same {F} `{DNSNameLaws F} a b d :
  is_fqdn a → is_fqdn b → is_fqdn d → FQDNContains a d = true → FQDNContains b d = true →
  NumLabels a = NumLabels b → a = b.
Proof.
  intros Ha Hb Hd Had Hbd Hn. apply FQDNContains_antisym; [done..| |].
  - eapply FQDNContains_nested; [done..|exact Had|exact Hbd|lia].
  - eapply FQDNContains_nested; [done..|exact Hbd|exact Had|lia].
Qed.

(** ** An instance *)

Definition label_fits (l : string) : bool := (0 <? str_len l)%nat && (str_len l <=? 63)%nat.
Definition label_ToFQDN (s : string) : option (option (list string)) :=
  if String.eqb s "" || String.eqb s "." then Some (Some [])
  else
    let s := TrimSuffix s "." in
    if forallb label_fits (Split s "."%char) && (str_len s <=? 253)%nat
    then Some (Some (Split s "."%char)) else None.
Definition label_contains (a b : option (list string)) : bool :=
  bool_decide (a = b) ||
  match a, b with Some a, Some b => bool_decide (a `suffix_of` b) | _, _ => false end.

#[export] Instance LabelNames : DNSName (option (list string)) := {
  root := Some [];
  zero_fqdn := None;
  ToFQDN := label_ToFQDN;
  WithoutTrailingDot d := JoinStr "." (default [] d);
  FQDNContains := label_contains;
  NumLabels d := length (default [] d)
}.

(** Splitting at a separator and joining. *)
Lemma split_char_no_sep c l p : p ∈ split_char c l → c ∉ p.
Proof.
  revert p; induction l as [|x l IH]; intros p; simpl.
  { intros ->%list_elem_of_singleton. by intros ?%elem_of_nil. }
  destruct (char_eqb x c) eqn:E.
  - intros [->|Hp]%elem_of_cons; [by intros ?%elem_of_nil|by apply IH].
  - apply char_eqb_neq in E. destruct (split_char c l) as [|q qs].
    + intros ->%list_elem_of_singleton ->%list_elem_of_singleton. done.
    + intros [->|Hp]%elem_of_cons; [|apply IH; by right].
      intros [->|Hc]%elem_of_cons; [done|]. apply (IH q); [by left|done].
Qed.
Lemma split_char_elem c l p x : p ∈ split_char c l → x ∈ p → x ∈ l.
Proof.
  revert p; induction l as [|y l IH]; intros p; simpl.
  { intros ->%list_elem_of_singleton. done. }
  destruct (char_eqb y c).
  - intros [->|Hp]%elem_of_cons Hx; [by apply elem_of_nil in Hx|right; by eapply IH].
  - destruct (split_char c l) as [|q qs].
    + intros ->%list_elem_of_singleton ->%list_elem_of_singleton. by left.
    + intros [->|Hp]%elem_of_cons Hx; [|right; eapply IH; [by right|done]].
      apply elem_of_cons in Hx as [->|Hx]; [by left|right; eapply IH; [by left|done]].
Qed.

Lemma Split_Join ls : ls ≠ [] → Forall (λ l, "."%char ∉ chars l) ls →
  Split (JoinStr "." ls) "."%char = ls.
Proof.
  intros Hne Hall. unfold Split. induction Hall as [|l ls Hl Hall IH]; [done|]. simpl.
  destruct ls as [|l2 ls].
  - rewrite split_char_none by done. simpl. by rewrite text_chars.
  - rewrite !chars_app. change (chars ".") with ["."%char].
    change (["."%char] ++ ?x) with ("."%char :: x). rewrite split_char_app by done.
    simpl. rewrite text_chars. f_equal. by apply IH.
Qed.
Lemma chars_Join ls c : c ∈ chars (JoinStr "." ls) → c = "."%char ∨ ∃ l, l ∈ ls ∧ c ∈ chars l.
Proof.
  induction ls as [|l ls IH]; simpl; [by intros ?%elem_of_nil|].
  destruct ls as [|l2 ls].
  - intros Hc. right. exists l. split; [by left|done].
  - rewrite !chars_app, !elem_of_app. intros [Hc|[Hc|Hc]].
    + right. exists l. split; [by left|done].
    + left. by apply list_elem_of_singleton in Hc.
    + destruct (IH Hc) as [?|(k & ? & ?)]; [by left|right; exists k; split; [by right|done]].
Qed.

Lemma list_prefix_spec p l : list_prefix p l = true → ∃ k, l = p ++ k.
Proof.
  revert l; induction p as [|x p IH]; intros l; simpl; [eauto|].
  destruct l as [|y l]; [done|]. intros [->%char_eqb_eq [k ->]%IH]%andb_true_iff. by exists k.
Qed.
Lemma list_prefix_self p l : list_prefix p (p ++ l) = true.
Proof. induction p as [|x p IH]; [done|]. simpl. rewrite IH, andb_true_r. by apply char_eqb_eq. Qed.
Lemma HasSuffix_dot s : HasSuffix s "." = true → ∃ t, s = t +:+ ".".
Proof.
  unfold HasSuffix. change (chars ".") with ["."%char]. rewrite reverse_singleton.
  intros [k Hk]%list_prefix_spec. exists (text (reverse k)). apply chars_inj.
  rewrite chars_app, chars_text. apply (f_equal reverse) in Hk.
  by rewrite reverse_involutive, reverse_app, reverse_singleton in Hk.
Qed.
Lemma TrimSuffix_elem s x : x ∈ chars (TrimSuffix s ".") → x ∈ chars s.
Proof.
  unfold TrimSuffix. destruct (HasSuffix s "."); [|done]. rewrite chars_text.
  intros (k & Hk & Hx)%elem_of_take. by eapply list_elem_of_lookup_2.
Qed.

Lemma label_fits_nonempty l : label_fits l = true → l ≠ "".
Proof. by intros H ->. Qed.

(** What a parsed name is: its labels fit and hold no dot. *)
Definition labels_ok (ls : list string) : Prop :=
  Forall (λ l, l ≠ "" ∧ label_fits l = true ∧ "."%char ∉ chars l) ls ∧
  str_len (JoinStr "." ls) <= 253.
Lemma JoinStr_cons sep x l : l ≠ [] → JoinStr sep (x :: l) = x +:+ sep +:+ JoinStr sep l.
Proof. by destruct l. Qed.
Lemma split_char_nonempty c l : split_char c l ≠ [].
Proof. destruct l; simpl; repeat case_match; done. Qed.
Lemma Join_Split s : JoinStr "." (Split s "."%char) = s.
Proof.
  unfold Split. apply chars_inj. induction (chars s) as [|x l IH]; [done|].
  cbn [split_char]. pose proof (split_char_nonempty "."%char l) as Hne.
  destruct (split_char "."%char l) as [|q qs]; [done|]. clear Hne.
  destruct (char_eqb x "."%char) eqn:E.
  - apply char_eqb_eq in E as ->. rewrite fmap_cons, JoinStr_cons by done.
    rewrite !chars_app, IH. done.
  - rewrite fmap_cons in IH |- *. destruct (text <$> qs) as [|q2 qs2].
    + cbn [JoinStr] in *. rewrite chars_text in *. by rewrite IH.
    + rewrite !JoinStr_cons, !chars_app, !chars_text in * by done.
      rewrite <-IH. done.
Qed.
Lemma label_fqdn s d : label_ToFQDN s = Some d →
  ∃ ls, d = Some ls ∧ labels_ok ls ∧ ∀ c, c ∈ chars (JoinStr "." ls) → c ∈ chars s ∨ c = "."%char.
Proof.
  unfold label_ToFQDN. destruct (_ || _).
  { intros [= <-]. exists []. split; [done|]. split; [split; [by apply Forall_nil|simpl; lia]|].
    simpl. by intros c ?%elem_of_nil. }
  destruct (forallb _ _ && _) eqn:Ef; [|done]. intros [= <-].
  apply andb_true_iff in Ef as [Hf Hlen%Nat.leb_le]. rewrite forallb_forall in Hf.
  exists (Split (TrimSuffix s ".") "."%char). split; [done|]. split; [split|].
  - apply Forall_forall. intros l Hl.
    assert (label_fits l = true) as Hfit by (apply Hf; by apply list_elem_of_In).
    split_and!; [by apply label_fits_nonempty|done|].
    unfold Split in Hl. apply list_elem_of_fmap in Hl as (p & -> & Hp).
    rewrite chars_text. by eapply split_char_no_sep.
  - by rewrite Join_Split.
  - rewrite Join_Split. intros c Hc%TrimSuffix_elem. by left.
Qed.

Lemma Join_last_no_dot ls : ls ≠ [] → labels_ok ls →
  HasSuffix (JoinStr "." ls) "." = false ∧ JoinStr "." ls ≠ "" ∧ JoinStr "." ls ≠ ".".
Proof.
  intros Hne [Hall _].
  assert (JoinStr "." ls ≠ "" ∧ HasSuffix (JoinStr "." ls) "." = false) as [H1 H2].
  { induction Hall as [|l ls (Hl & _ & Hd) Hall IH]; [done|]. simpl.
    destruct ls as [|l2 ls].
    - split; [done|]. apply not_true_is_false. intros [t ->]%HasSuffix_dot. apply Hd.
      rewrite chars_app. apply elem_of_app. right. by left.
    - destruct (IH ltac:(done)) as [Hn Hs]. split.
      + intros H. apply (f_equal chars) in H. rewrite !chars_app in H. by destruct (chars l).
      + apply not_true_is_false. intros [t Ht]%HasSuffix_dot. revert Hs.
        apply (f_equal chars) in Ht. rewrite !chars_app in Ht. change (chars ".") with ["."%char] in Ht.
        unfold HasSuffix. change (chars ".") with ["."%char]. rewrite reverse_singleton.
        apply (f_equal reverse) in Ht. rewrite !reverse_app, reverse_singleton in Ht.
        revert Ht. generalize (JoinStr "." (l2 :: ls)), Hn. intros u Hu.
        destruct (reverse (chars u)) as [|x y] eqn:Er.
        * destruct Hu. apply chars_inj. change (chars "") with (@nil Ascii.ascii).
          by rewrite <-(reverse_involutive (chars u)), Er.
        * intros Hy Hx. cbn in Hy. injection Hy as -> _. by vm_compute in Hx. }
  split_and!; [done|done|]. intros H. by rewrite H in H2.
Qed.

Lemma Join_app_length k ls :
  k ≠ [] → Forall (λ l, l ≠ "") k → str_len (JoinStr "." ls) < str_len (JoinStr "." (k ++ ls)).
Proof.
  intros Hne Hk. induction Hk as [|l k Hl Hk IH]; [done|]. cbn [app].
  assert (0 < str_len l) as Hpos.
  { rewrite str_len_chars. destruct (chars l) eqn:E; [|simpl; lia]. destruct Hl.
    by rewrite <-(text_chars l), E. }
  destruct (decide (k ++ ls = [])) as [He|He].
  - apply app_nil in He as [-> ->]. simpl. change (str_len "") with 0. lia.
  - rewrite JoinStr_cons by done. rewrite !str_len_app. change (str_len ".") with 1.
    destruct k as [|l2 k]; [simpl in *; lia|]. specialize (IH ltac:(done)). lia.
Qed.

#[export] Instance LabelNamesLaws : DNSNameLaws (option (list string)).
Proof.
  split.
  - intros s d c Hs Hc. apply label_fqdn in Hs as (ls & -> & _ & Hcs). by apply Hcs.
  - intros d [s Hs] Hr. apply label_fqdn in Hs as (ls & -> & Hok & _).
    assert (ls ≠ []) as Hne by (by intros ->).
    pose proof (Join_last_no_dot ls Hne Hok) as (Hsuf & H1%String.eqb_neq & H2%String.eqb_neq).
    simpl. unfold label_ToFQDN. rewrite H1, H2. simpl.
    unfold TrimSuffix. rewrite Hsuf. destruct Hok as [Hall Hlen].
    assert (Forall (λ l, "."%char ∉ chars l) ls) as Hd
      by (eapply Forall_impl; [exact Hall|]; by intros ? (_ & _ & ?)).
    rewrite Split_Join by done. rewrite (proj2 (Nat.leb_le _ _)) by done.
    rewrite (proj2 (forallb_forall _ _)); [done|].
    intros l Hl%list_elem_of_In. rewrite Forall_forall in Hall. by apply Hall.
  - intros d [s Hs] Hr. apply label_fqdn in Hs as (ls & -> & Hok & _).
    simpl. apply Join_last_no_dot; [by intros ->|done].
  - done.
  - intros s Hs. by apply label_fqdn in Hs as (ls & ? & _).
  - intros d. simpl. unfold label_contains. by rewrite bool_decide_true.
  - intros a b c [? (la & -> & _)%label_fqdn] [? (lb & -> & _)%label_fqdn] [? (lc & -> & _)%label_fqdn].
    simpl. unfold label_contains. rewrite !orb_true_iff, !bool_decide_eq_true.
    intros [[= ->]|?] [[= ->]|?]; auto. right. by transitivity lb.
  - intros a b [? (la & -> & _)%label_fqdn] [? (lb & -> & _)%label_fqdn].
    simpl. unfold label_contains. rewrite !orb_true_iff, !bool_decide_eq_true.
    intros [[= ->]|?]; [done|]. by apply suffix_length.
  - intros a b d [? (la & -> & _)%label_fqdn] [? (lb & -> & _)%label_fqdn] [? (ld & -> & _)%label_fqdn].
    simpl. unfold label_contains. rewrite !orb_true_iff, !bool_decide_eq_true.
    intros Ha Hb Hl. right.
    assert (la `suffix_of` ld) as [ka Hka] by (destruct Ha as [[= ->]|?]; done).
    assert (lb `suffix_of` ld) as [kb Hkb] by (destruct Hb as [[= ->]|?]; done).
    assert (la = drop (length ld - length la) ld) as Ea.
    { rewrite Hka at 2. rewrite drop_app_ge by (rewrite Hka, length_app; lia).
      replace (length ld - length la - length ka) with 0; [done|]. rewrite Hka, length_app. lia. }
    assert (lb = drop (length ld - length lb) ld) as Eb.
    { rewrite Hkb at 2. rewrite drop_app_ge by (rewrite Hkb, length_app; lia).
      replace (length ld - length lb - length kb) with 0; [done|]. rewrite Hkb, length_app. lia. }
    assert (length lb <= length ld) by (rewrite Hkb, length_app; lia).
    exists (take (length lb - length la) lb).
    rewrite <-(take_drop (length lb - length la) lb) at 1. f_equal.
    remember (length lb) as nb eqn:En. rewrite Eb, drop_drop, Ea. f_equal. clear -H Hl. 
    rewrite length_drop. lia.
  - intros a b [? (la & -> & _)%label_fqdn] [? (lb & -> & _)%label_fqdn].
    simpl. unfold label_contains. rewrite !orb_true_iff, !bool_decide_eq_true.
    intros [?|[k1 H1]] [?|[k2 H2]]; try congruence. rewrite H2 in H1.
    apply (f_equal length) in H1 as Hl. rewrite !length_app in Hl.
    destruct k1; simpl in Hl; [|lia]. destruct k2; [|simpl in Hl; lia]. by rewrite H2.
  - intros a b [? (la & -> & _)%label_fqdn] [? (lb & -> & [Hall _] & _)%label_fqdn].
    simpl. unfold label_contains. rewrite !orb_true_iff, !bool_decide_eq_true.
    intros [?|[k ->]] Hne; [done|]. apply Forall_app in Hall as [Hk _].
    apply Join_app_length; [intros ->; by apply Hne|].
    eapply Forall_impl; [exact Hk|]. by intros ? [? _].
Qed.
