(* ===== verification/State.v ===== *)
(** * The persisted daemon state

    [src/state]: the state record (state.go), its normalization
    (normalize.go), and the JSON file it is kept in (jsonstore.go).  Encoding
    the record as JSON and the file system's outcomes are parameters. *)

From S2P Require Import Prelude GoStrings Netip DNSName WireGuardKey PacketFilterCfg WireGuardCfg.
Local Open Scope Z_scope.

Definition ProfileKindTailscale : string := "tailscale".
Definition ProfileKindWireGuard : string := "wireguard".

Record UpdateState : Type := MkUpdateState {
  u_Disabled : bool; u_AvailableVersion : string; u_State : string;
  u_LastChecked : string; u_LastError : string }.
Record Profile : Type := MkProfile {
  pr_ID : string; pr_Name : string; pr_Alias : string; pr_Kind : string;
  pr_StateDir : string; pr_Hostname : string; pr_MagicDNSSuffix : string;
  pr_Disabled : bool; pr_Removed : bool; pr_AcceptAllRoutes : bool;
  pr_AcceptAllDNSRoutes : bool; pr_WireGuard : option Config;
  pr_WireGuardSecretFile : string; pr_WireGuardShieldsUp : bool }.
Record IPRouteBinding : Type := MkIPBinding { ib_Prefix : Prefix; ib_ProfileID : string }.
Record DNSRouteBinding : Type := MkDNSBinding { db_Domain : string; db_ProfileID : string }.
Record EffectiveLease : Type := MkEffectiveLease {
  el_ProfileID : string; el_NodeID : string; el_CanonicalIP : Addr; el_EffectiveIP : Addr }.
Record ExitNodeState : Type := MkExitNode {
  en_ProfileID : string; en_NodeID : string; en_PeerIP : Addr }.
Record State : Type := MkState {
  st_Down : bool; st_SyntheticPool : string; st_SyntheticPoolV6 : string;
  st_NATIP : Addr; st_NATIPv6 : Addr; st_DNSIP : Addr;
  st_Profiles : list Profile; st_Leases : list EffectiveLease;
  st_IPRouteBindings : list IPRouteBinding; st_DNSRouteBindings : list DNSRouteBinding;
  st_SearchDomains : list string; st_ExitNode : option ExitNodeState;
  st_Updates : UpdateState }.
Definition zero_state : State :=
  MkState false "" "" AddrInvalid AddrInvalid AddrInvalid [] [] [] [] [] None
    (MkUpdateState false "" "" "" "").

(** Assignments to one field of the state. *)
Definition set_SyntheticPool (st : State) (x : string) : State :=
  MkState (st_Down st) x (st_SyntheticPoolV6 st) (st_NATIP st) (st_NATIPv6 st)
    (st_DNSIP st) (st_Profiles st) (st_Leases st) (st_IPRouteBindings st)
    (st_DNSRouteBindings st) (st_SearchDomains st) (st_ExitNode st) (st_Updates st).
Definition set_SyntheticPoolV6 (st : State) (x : string) : State :=
  MkState (st_Down st) (st_SyntheticPool st) x (st_NATIP st) (st_NATIPv6 st)
    (st_DNSIP st) (st_Profiles st) (st_Leases st) (st_IPRouteBindings st)
    (st_DNSRouteBindings st) (st_SearchDomains st) (st_ExitNode st) (st_Updates st).
Definition set_NATIP (st : State) (x : Addr) : State :=
  MkState (st_Down st) (st_SyntheticPool st) (st_SyntheticPoolV6 st) x (st_NATIPv6 st)
    (st_DNSIP st) (st_Profiles st) (st_Leases st) (st_IPRouteBindings st)
    (st_DNSRouteBindings st) (st_SearchDomains st) (st_ExitNode st) (st_Updates st).
Definition set_NATIPv6 (st : State) (x : Addr) : State :=
  MkState (st_Down st) (st_SyntheticPool st) (st_SyntheticPoolV6 st) (st_NATIP st) x
    (st_DNSIP st) (st_Profiles st) (st_Leases st) (st_IPRouteBindings st)
    (st_DNSRouteBindings st) (st_SearchDomains st) (st_ExitNode st) (st_Updates st).
Definition set_DNSIP (st : State) (x : Addr) : State :=
  MkState (st_Down st) (st_SyntheticPool st) (st_SyntheticPoolV6 st) (st_NATIP st) (st_NATIPv6 st)
    x (st_Profiles st) (st_Leases st) (st_IPRouteBindings st)
    (st_DNSRouteBindings st) (st_SearchDomains st) (st_ExitNode st) (st_Updates st).
Definition set_Profiles (st : State) (x : list Profile) : State :=
  MkState (st_Down st) (st_SyntheticPool st) (st_SyntheticPoolV6 st) (st_NATIP st) (st_NATIPv6 st)
    (st_DNSIP st) x (st_Leases st) (st_IPRouteBindings st)
    (st_DNSRouteBindings st) (st_SearchDomains st) (st_ExitNode st) (st_Updates st).
Definition set_Leases (st : State) (x : list EffectiveLease) : State :=
  MkState (st_Down st) (st_SyntheticPool st) (st_SyntheticPoolV6 st) (st_NATIP st) (st_NATIPv6 st)
    (st_DNSIP st) (st_Profiles st) x (st_IPRouteBindings st)
    (st_DNSRouteBindings st) (st_SearchDomains st) (st_ExitNode st) (st_Updates st).
Definition set_IPRouteBindings (st : State) (x : list IPRouteBinding) : State :=
  MkState (st_Down st) (st_SyntheticPool st) (st_SyntheticPoolV6 st) (st_NATIP st) (st_NATIPv6 st)
    (st_DNSIP st) (st_Profiles st) (st_Leases st) x
    (st_DNSRouteBindings st) (st_SearchDomains st) (st_ExitNode st) (st_Updates st).
Definition set_DNSRouteBindings (st : State) (x : list DNSRouteBinding) : State :=
  MkState (st_Down st) (st_SyntheticPool st) (st_SyntheticPoolV6 st) (st_NATIP st) (st_NATIPv6 st)
    (st_DNSIP st) (st_Profiles st) (st_Leases st) (st_IPRouteBindings st)
    x (st_SearchDomains st) (st_ExitNode st) (st_Updates st).
Definition set_SearchDomains (st : State) (x : list string) : State :=
  MkState (st_Down st) (st_SyntheticPool st) (st_SyntheticPoolV6 st) (st_NATIP st) (st_NATIPv6 st)
    (st_DNSIP st) (st_Profiles st) (st_Leases st) (st_IPRouteBindings st)
    (st_DNSRouteBindings st) x (st_ExitNode st) (st_Updates st).
Definition set_ExitNode (st : State) (x : option ExitNodeState) : State :=
  MkState (st_Down st) (st_SyntheticPool st) (st_SyntheticPoolV6 st) (st_NATIP st) (st_NATIPv6 st)
    (st_DNSIP st) (st_Profiles st) (st_Leases st) (st_IPRouteBindings st)
    (st_DNSRouteBindings st) (st_SearchDomains st) x (st_Updates st).

#[export] Instance IPRouteBinding_eq_dec : EqDecision IPRouteBinding.
Proof. solve_decision. Defined.
#[export] Instance DNSRouteBinding_eq_dec : EqDecision DNSRouteBinding.
Proof. solve_decision. Defined.

(** ** Normalize *)

Definition default_profile (p : Profile) : Profile :=
  MkProfile (pr_ID p) (if String.eqb (pr_Name p) "" then pr_ID p else pr_Name p) (pr_Alias p)
    (if String.eqb (pr_Kind p) "" then ProfileKindTailscale else pr_Kind p)
    (pr_StateDir p) (pr_Hostname p) (pr_MagicDNSSuffix p) (pr_Disabled p) (pr_Removed p)
    (pr_AcceptAllRoutes p) (pr_AcceptAllDNSRoutes p) (pr_WireGuard p)
    (pr_WireGuardSecretFile p) (pr_WireGuardShieldsUp p).

(** A map built by a loop in which a later entry replaces an earlier one, and
    the sorted list of its values. *)
Definition build_map {A K} `{Countable K} (entry : A → option (K * A)) (l : list A) : gmap K A :=
  foldl (λ m x, match entry x with Some (k, v) => <[k := v]> m | None => m end) ∅ l.
Definition map_values {K A} `{Countable K} (m : gmap K A) : list A := (map_to_list m).*2.

Section normalize.
Context {F : Type} `{DNSName F}.

Definition normalizeDomain (raw : string) : string :=
  let raw := ToLower (TrimSpace raw) in
  if String.eqb raw "" then ""
  else match ToFQDN raw with
       | None => ""
       | Some domain => if decide (domain = root) then "." else WithoutTrailingDot domain
       end.

Definition ip_entry (b : IPRouteBinding) : option (Prefix * IPRouteBinding) :=
  if negb (prefix.IsValid (ib_Prefix b)) || String.eqb (ib_ProfileID b) "" then None
  else let p := prefix.Masked (ib_Prefix b) in Some (p, MkIPBinding p (ib_ProfileID b)).
Definition normalize_ip_bindings (l : list IPRouteBinding) : list IPRouteBinding :=
  go_sort (less_key (λ b, prefix_string (ib_Prefix b))) (map_values (build_map ip_entry l)).

Definition dns_entry (b : DNSRouteBinding) : option (string * DNSRouteBinding) :=
  let domain := normalizeDomain (db_Domain b) in
  if String.eqb domain "" || String.eqb (db_ProfileID b) "" then None
  else Some (domain, MkDNSBinding domain (db_ProfileID b)).
Definition normalize_dns_bindings (l : list DNSRouteBinding) : list DNSRouteBinding :=
  go_sort (less_key db_Domain) (map_values (build_map dns_entry l)).

(** The loop over the search domains; [search] is the result so far, whose
    elements are the domains seen. *)
Definition add_search_domain (search : list string) (raw : string) : list string :=
  let domain := normalizeDomain raw in
  if String.eqb domain "" || String.eqb domain "." || (domain ∈? search)
  then search else search ++ [domain].
Definition normalize_search (l : list string) : list string := foldl add_search_domain [] l.

Definition normalize_exit (e : option ExitNodeState) : option ExitNodeState :=
  match e with
  | Some x => if String.eqb (en_ProfileID x) "" || String.eqb (en_NodeID x) "" ||
                 negb (addr.IsValid (en_PeerIP x))
              then None else Some x
  | None => None
  end.

Definition Normalize (st : State) : State :=
  MkState (st_Down st) (st_SyntheticPool st) (st_SyntheticPoolV6 st) (st_NATIP st)
    (st_NATIPv6 st) (st_DNSIP st)
    (go_sort (less_key pr_ID) (default_profile <$> st_Profiles st))
    (st_Leases st)
    (normalize_ip_bindings (st_IPRouteBindings st))
    (normalize_dns_bindings (st_DNSRouteBindings st))
    (normalize_search (st_SearchDomains st))
    (normalize_exit (st_ExitNode st)) (st_Updates st).
End normalize.

(** ** validateProfiles *)

Inductive profile_error : Type :=
  | ETailscaleHasWireGuard (name : string)
  | ENoConfiguration (name : string)
  | EConfiguration (name : string) (e : cfg_error)
  | ENameMismatch (name config : string)
  | ENoSecretFile (name : string)
  | EBadSecretFile (name : string)
  | EKind (name kind : string).

(** [filepath.Base] on a slash-separated path. *)
Definition Base (path : string) : string :=
  if String.eqb path "" then "."
  else
    let l := trim_right (λ c, char_eqb c "/"%char) (chars path) in
    match cut_char "/"%char (reverse l) with
    | Some (b, _) => if decide (l = []) then "/" else text (reverse b)
    | None => if decide (l = []) then "/" else text l
    end.
Definition secret_file_bad (f : string) : bool :=
  negb (String.eqb (Base f) f) || negb (HasPrefix f "wireguard-secrets-") ||
  negb (HasSuffix f ".json").

Definition set_WireGuard (p : Profile) (c : option Config) : Profile :=
  MkProfile (pr_ID p) (pr_Name p) (pr_Alias p) (pr_Kind p) (pr_StateDir p) (pr_Hostname p)
    (pr_MagicDNSSuffix p) (pr_Disabled p) (pr_Removed p) (pr_AcceptAllRoutes p)
    (pr_AcceptAllDNSRoutes p) c (pr_WireGuardSecretFile p) (pr_WireGuardShieldsUp p).

Definition validateProfile (p : Profile) : result profile_error Profile :=
  if String.eqb (pr_Kind p) ProfileKindTailscale then
    if bool_decide (is_Some (pr_WireGuard p)) || negb (String.eqb (pr_WireGuardSecretFile p) "")
    then Err (ETailscaleHasWireGuard (pr_Name p)) else Ok p
  else if String.eqb (pr_Kind p) ProfileKindWireGuard then
    match pr_WireGuard p with
    | None => Err (ENoConfiguration (pr_Name p))
    | Some c =>
      normalized ← wrap (EConfiguration (pr_Name p)) (NormalizeConfig c);
      _ ← guard_err (negb (String.eqb (c_Name normalized) (pr_Name p)))
            (ENameMismatch (pr_Name p) (c_Name normalized));
      _ ← guard_err (String.eqb (pr_WireGuardSecretFile p) "") (ENoSecretFile (pr_Name p));
      _ ← guard_err (secret_file_bad (pr_WireGuardSecretFile p)) (EBadSecretFile (pr_Name p));
      Ok (set_WireGuard p (Some normalized))
    end
  else Err (EKind (pr_Name p) (pr_Kind p)).

Definition validateProfiles (st : State) : result profile_error State :=
  ps ← imapM (λ _ p, validateProfile p) (st_Profiles st);
  Ok (set_Profiles st ps).

(** ** The JSON file *)

(** The files by path, and what each system call of [Save] does: succeed, or
    fail leaving [partial] in the file it was writing. *)
Notation FS := (gmap string string).
Inductive fs_outcome : Type := FsOk | FsFail (partial : option string).
Definition exec_write (o : fs_outcome) (path data : string) (fs : FS) : FS * bool :=
  match o with
  | FsOk => (<[path := data]> fs, true)
  | FsFail (Some partial) => (<[path := partial]> fs, false)
  | FsFail None => (fs, false)
  end.
(** [os.Rename] is atomic: a failed rename changes nothing. *)
Definition exec_rename (o : fs_outcome) (old new : string) (fs : FS) : FS * bool :=
  match o, fs !! old with
  | FsOk, Some data => (<[new := data]> (delete old fs), true)
  | _, _ => (fs, false)
  end.

(** What JSON text can carry: strings in UTF-8 ([encoding/json] replaces other
    bytes), addresses and prefixes that [netip] can read back from their text,
    keys of 32 bytes, and integers of their width. *)
Definition continuation (b : nat) : bool := (128 <=? b)%nat && (b <=? 191)%nat.
(** [utf8.Valid]: the ranges of the second byte exclude overlong forms,
    surrogates and what lies above the last code point. *)
Fixpoint utf8_valid (l : list nat) : bool :=
  match l with
  | [] => true
  | b0 :: l =>
    if (b0 <? 128)%nat then utf8_valid l
    else match l with
    | [] => false
    | b1 :: l =>
      if (194 <=? b0)%nat && (b0 <=? 223)%nat then continuation b1 && utf8_valid l
      else match l with
      | [] => false
      | b2 :: l =>
        if (224 <=? b0)%nat && (b0 <=? 239)%nat then
          continuation b1 && (negb (b0 =? 224)%nat || (160 <=? b1)%nat) && (negb (b0 =? 237)%nat || (b1 <=? 159)%nat) &&
          continuation b2 && utf8_valid l
        else match l with
        | [] => false
        | b3 :: l =>
          (240 <=? b0)%nat && (b0 <=? 244)%nat && continuation b1 && (negb (b0 =? 240)%nat || (144 <=? b1)%nat) &&
          (negb (b0 =? 244)%nat || (b1 <=? 143)%nat) && continuation b2 && continuation b3 && utf8_valid l
        end
      end
    end
  end.
Definition ValidString (s : string) : bool := utf8_valid (Ascii.nat_of_ascii <$> chars s).
Definition text_addr (a : Addr) : bool := addr.wf a && match a with Addr6 _ zone => String.eqb zone "" | _ => true end.
Definition text_key (k : Key) : bool := (length k =? 32)%nat && forallb (λ b, (0 <=? b) && (b <? 256)) k.
Definition text_peer (p : Peer) : bool :=
  forallb ValidString [peer_Name p; Endpoint p] && text_key (PublicKey p) && (- 2 ^ 63 <=? Keepalive p) && (Keepalive p <? 2 ^ 63) &&
  forallb text_addr (peer_Addresses p) && forallb prefix.wf (peer_Routes p).
Definition text_config (c : Config) : bool :=
  forallb ValidString [c_Name c; c_DNSSuffix c] && (- 2 ^ 63 <=? c_Version c) && (c_Version c <? 2 ^ 63) &&
  (0 <=? c_ListenPort c) && (c_ListenPort c <? 2 ^ 16) && forallb text_addr (c_Addresses c) &&
  forallb (λ g, forallb ValidString (g_Src g ++ g_Dst g ++ g_IP g)) (Grants (c_PacketFilter c)) && forallb text_peer (c_Peers c).
Definition text_profile (p : Profile) : bool :=
  forallb ValidString [pr_ID p; pr_Name p; pr_Alias p; pr_Kind p; pr_StateDir p; pr_Hostname p; pr_MagicDNSSuffix p; pr_WireGuardSecretFile p] &&
  match pr_WireGuard p with Some c => text_config c | None => true end.
Definition text_state (st : State) : bool :=
  forallb ValidString ([st_SyntheticPool st; st_SyntheticPoolV6 st] ++ st_SearchDomains st ++
    [u_AvailableVersion (st_Updates st); u_State (st_Updates st); u_LastChecked (st_Updates st); u_LastError (st_Updates st)]) &&
  forallb text_addr [st_NATIP st; st_NATIPv6 st; st_DNSIP st] && forallb text_profile (st_Profiles st) &&
  forallb (λ l, forallb ValidString [el_ProfileID l; el_NodeID l] && forallb text_addr [el_CanonicalIP l; el_EffectiveIP l]) (st_Leases st) &&
  forallb (λ b, prefix.wf (ib_Prefix b) && ValidString (ib_ProfileID b)) (st_IPRouteBindings st) &&
  forallb (λ b, ValidString (db_Domain b) && ValidString (db_ProfileID b)) (st_DNSRouteBindings st) &&
  match st_ExitNode st with
  | Some e => forallb ValidString [en_ProfileID e; en_NodeID e] && text_addr (en_PeerIP e)
  | None => true
  end.
(** [encoding/json] on the state record: documented to round trip on what JSON
    text can carry. *)
Class StateJSON : Type := {
  MarshalIndent : State → option string;
  Unmarshal : string → option State
}.
Definition NEWLINE : string := String (char_of 10) "".
Class StateJSONLaws `{StateJSON} : Prop := {
  Unmarshal_Marshal st b : text_state st = true → MarshalIndent st = Some b → Unmarshal (b +:+ NEWLINE) = Some st
}.

Inductive store_error : Type :=
  | EReadFile | EUnmarshal | EProfiles (e : profile_error)
  | EMkdir | EMarshal | EWriteFile | ERename.

Section store.
Context {F : Type} `{DNSName F} `{StateJSON} (path : string).

(** [readable] is whether reading an existing file succeeds. *)
Definition Load (readable : bool) (fs : FS) : result store_error State :=
  match fs !! path with
  | None => Ok zero_state
  | Some b =>
    if negb readable then Err EReadFile
    else match Unmarshal b with
         | None => Err EUnmarshal
         | Some st => wrap EProfiles (validateProfiles (Normalize st))
         end
  end.

Record save_env : Type := MkSaveEnv {
  mkdir_outcome : bool; write_outcome : fs_outcome; rename_outcome : fs_outcome }.

Definition Save (env : save_env) (fs : FS) (st : State) : FS * result store_error unit :=
  match validateProfiles (Normalize st) with
  | Err e => (fs, Err (EProfiles e))
  | Ok st =>
    if negb (mkdir_outcome env) then (fs, Err EMkdir)
    else match MarshalIndent st with
    | None => (fs, Err EMarshal)
    | Some b =>
      let tmp := path +:+ ".tmp" in
      let '(fs, ok) := exec_write (write_outcome env) tmp (b +:+ NEWLINE) fs in
      if negb ok then (fs, Err EWriteFile)
      else
        let '(fs, ok) := exec_rename (rename_outcome env) tmp path fs in
        if negb ok then (fs, Err ERename) else (fs, Ok tt)
    end
  end.
End store.

(** ** Facts about the loops *)

Section build_map.
Context {A K : Type} `{Countable K} (entry : A → option (K * A)).

(** The entry that decides a key: the last one of the list. *)
Definition decides (l : list A) (k : K) (v : A) : Prop :=
  ∃ pre x post, l = pre ++ x :: post ∧ entry x = Some (k, v) ∧
    ∀ y v', y ∈ post → entry y ≠ Some (k, v').
Lemma build_map_snoc l x :
  build_map entry (l ++ [x]) =
    match entry x with Some (k, v) => <[k := v]> (build_map entry l) | None => build_map entry l end.
Proof. unfold build_map. by rewrite foldl_app. Qed.
Lemma build_map_lookup l k v : build_map entry l !! k = Some v ↔ decides l k v.
Proof.
  induction l as [|x l IH] using rev_ind.
  { change (build_map entry []) with (∅ : gmap K A). rewrite lookup_empty.
    split; [done|]. intros (pre & x & post & Hl & _). by destruct pre. }
  rewrite build_map_snoc. unfold decides in *.
  destruct (entry x) as [[k' v']|] eqn:Ex.
  - destruct (decide (k' = k)) as [->|Hne].
    + rewrite lookup_insert_eq. split.
      * intros [= ->]. exists l, x, []. split_and!; [done|done|]. by intros ? ? ?%elem_of_nil.
      * intros (pre & y & post & Hl & Hy & Hpost).
        destruct post as [|z post _] using rev_ind.
        { apply app_inj_tail in Hl as [_ ->]. congruence. }
        rewrite app_comm_cons, app_assoc in Hl. apply app_inj_tail in Hl as [_ ->].
        exfalso. apply (Hpost z v'); [|done]. apply elem_of_app. right. by left.
    + rewrite lookup_insert_ne, IH by done. split.
      * intros (pre & y & post & -> & Hy & Hpost). exists pre, y, (post ++ [x]).
        split_and!; [by rewrite <-app_assoc|done|]. intros z w.
        intros [?| ->%list_elem_of_singleton]%elem_of_app; [by apply Hpost|congruence].
      * intros (pre & y & post & Hl & Hy & Hpost).
        destruct post as [|z post _] using rev_ind.
        { apply app_inj_tail in Hl as [_ ->]. congruence. }
        rewrite app_comm_cons, app_assoc in Hl. apply app_inj_tail in Hl as [-> ->].
        exists pre, y, post. split_and!; [done|done|]. intros w u Hw. apply Hpost.
        apply elem_of_app. by left.
  - rewrite IH. split.
    + intros (pre & y & post & -> & Hy & Hpost). exists pre, y, (post ++ [x]).
      split_and!; [by rewrite <-app_assoc|done|]. intros z w.
      intros [?| ->%list_elem_of_singleton]%elem_of_app; [by apply Hpost|congruence].
    + intros (pre & y & post & Hl & Hy & Hpost).
      destruct post as [|z post _] using rev_ind.
      { apply app_inj_tail in Hl as [_ ->]. congruence. }
      rewrite app_comm_cons, app_assoc in Hl. apply app_inj_tail in Hl as [-> ->].
      exists pre, y, post. split_and!; [done|done|]. intros w u Hw. apply Hpost.
      apply elem_of_app. by left.
Qed.
Lemma decides_elem l k v : decides l k v → ∃ x, x ∈ l ∧ entry x = Some (k, v).
Proof.
  intros (pre & x & post & -> & Hx & _). exists x. split; [|done].
  apply elem_of_app. right. by left.
Qed.

(** Rebuilding a map from its values gives the same map, when every value is
    its own entry. *)
Lemma build_map_values m l :
  (∀ k v, m !! k = Some v → entry v = Some (k, v)) → l ≡ₚ map_values m → build_map entry l = m.
Proof.
  intros Hm Hl. apply map_eq. intros k. apply option_eq. intros v. rewrite build_map_lookup.
  assert (∀ x, x ∈ l ↔ ∃ k, m !! k = Some x) as Hin.
  { intros x. rewrite Hl. unfold map_values. rewrite list_elem_of_fmap. split.
    - intros ([k' y] & -> & Hy%elem_of_map_to_list). eauto.
    - intros [k' Hk]. exists (k', x). split; [done|]. by apply elem_of_map_to_list. }
  split.
  - intros (x & Hx & He)%decides_elem. apply Hin in Hx as [k' Hk'].
    pose proof (Hm k' x Hk') as H'. rewrite He in H'. injection H' as <- ->. done.
  - intros Hk. assert (v ∈ l) as Hv by (apply Hin; eauto).
    apply list_elem_of_split in Hv as (pre & post & ->).
    assert (NoDup (pre ++ v :: post)) as Hnd.
    { rewrite Hl. unfold map_values. apply NoDup_fmap_2_strong; [|apply NoDup_map_to_list].
      intros [k1 v1] [k2 v2] H1%elem_of_map_to_list H2%elem_of_map_to_list. simpl. intros ->.
      apply Hm in H1, H2. congruence. }
    exists pre, v, post. split_and!; [done|by apply Hm|].
    intros y v' Hy He.
    assert (∃ k, m !! k = Some y) as [k' Hk'] by (apply Hin, elem_of_app; right; by right).
    pose proof (Hm k' y Hk') as H'. rewrite He in H'. injection H' as <- ->.
    rewrite Hk in Hk'. injection Hk' as <-.
    apply NoDup_app in Hnd as (_ & _ & Hnd). apply NoDup_cons in Hnd as [Hnd _]. done.
Qed.
End build_map.

(** The values of a map whose values know their keys. *)
Section map_values.
Context {A K : Type} `{Countable K} (key : A → K) (m : gmap K A).
Hypothesis Hkey : ∀ k v, m !! k = Some v → key v = k.
Lemma elem_of_map_values v : v ∈ map_values m ↔ m !! key v = Some v.
Proof using Hkey.
  unfold map_values. rewrite list_elem_of_fmap. split.
  - intros ([k w] & -> & Hw%elem_of_map_to_list). simpl. by rewrite (Hkey k w).
  - intros Hv. exists (key v, v). split; [done|]. by apply elem_of_map_to_list.
Qed.
Lemma NoDup_map_values : NoDup (key <$> map_values m).
Proof using Hkey.
  unfold map_values. rewrite <-list_fmap_compose. apply NoDup_fmap_2_strong.
  - intros [k1 v1] [k2 v2] H1%elem_of_map_to_list H2%elem_of_map_to_list. simpl.
    rewrite (Hkey _ _ H1), (Hkey _ _ H2). intros ->. congruence.
  - apply NoDup_map_to_list.
Qed.
End map_values.

Section normalize_facts.
Context {F : Type} `{FL : DNSNameLaws F}.

(** Normalizing a domain twice is normalizing it once: so it is for every domain
    without white space inside ([spaceless_clean]), and not for [a .]. *)
Definition domain_clean (raw : string) : Prop := normalizeDomain (normalizeDomain raw) = normalizeDomain raw.
(** The prefixes are well formed and the domains clean. *)
Record state_wf (st : State) : Prop := {
  wf_prefixes : Forall (λ b, prefix.wf (ib_Prefix b) = true) (st_IPRouteBindings st);
  wf_domains : Forall (λ b, domain_clean (db_Domain b)) (st_DNSRouteBindings st);
  wf_search : Forall domain_clean (st_SearchDomains st) }.

Lemma ToLower_chars s c : c ∈ chars (ToLower s) → is_upper c = false ∧
  (c ∈ chars s ∨ is_lower c = true).
Proof.
  unfold ToLower. rewrite chars_text. intros (x & -> & Hx)%list_elem_of_fmap.
  unfold lower_char. destruct (is_upper x) eqn:Hu; [|auto].
  split; [|right]; revert Hu; destruct x as [[] [] [] [] [] [] [] []]; done.
Qed.
Lemma lower_not_space c : is_lower c = true → is_space c = false.
Proof. destruct c as [[] [] [] [] [] [] [] []]; done. Qed.
Lemma trim_left_sub f l c : c ∈ trim_left f l → c ∈ l.
Proof. induction l as [|x l IH]; simpl; [done|]. case_match; [right; auto|done]. Qed.

Lemma spaceless_clean raw : (∀ c, c ∈ chars (TrimSpace raw) → is_space c = false) → domain_clean raw.
Proof.
  intros Hc. unfold domain_clean, normalizeDomain at 2 3.
  set (r := ToLower (TrimSpace raw)).
  assert (Hr : ∀ c, c ∈ chars r → is_space c = false ∧ is_upper c = false).
  { intros c [Hu [Hin|Hl]]%ToLower_chars; [|by split; [apply lower_not_space|]]. auto. }
  destruct (String.eqb_spec r "") as [|Hne]; [done|].
  destruct (ToFQDN r) as [d|] eqn:Hd; [|done].
  assert (is_fqdn d) as Hf by (by exists r).
  destruct (decide (d = root)) as [->|Hroot].
  - unfold normalizeDomain. simpl. rewrite ToFQDN_root. by rewrite decide_True.
  - pose proof (WithoutTrailingDot_nonempty d Hf Hroot) as [H1%String.eqb_neq H2].
    assert (plain (WithoutTrailingDot d) = true) as Hp.
    { apply forallb_forall. intros c Hin%list_elem_of_In. unfold plain_char.
      destruct (ToFQDN_chars r d c Hd Hin) as [[-> ->]%Hr| ->]; done. }
    unfold normalizeDomain. rewrite TrimSpace_plain, ToLower_plain, H1 by done.
    rewrite ToFQDN_canonical by done. by rewrite decide_False.
Qed.

Lemma ip_entry_fix m l k v :
  Forall (λ b, prefix.wf (ib_Prefix b) = true) l → m = build_map ip_entry l →
  m !! k = Some v → ip_entry v = Some (k, v).
Proof.
  intros Hwf -> (x & Hx & He)%build_map_lookup%decides_elem. rewrite Forall_forall in Hwf.
  specialize (Hwf x Hx). simpl in Hwf. unfold ip_entry in He |- *.
  destruct (negb _ || _) eqn:E; [done|]. injection He as <- <-. simpl.
  apply orb_false_iff in E as [Hv%negb_false_iff ->].
  pose proof (netip_facts.Masked_masked _ Hwf) as [Hm _].
  rewrite (netip_facts.Masked_IsValid _ Hv). simpl. by rewrite Hm.
Qed.
Lemma dns_entry_fix m l k v :
  Forall (λ b, domain_clean (db_Domain b)) l → m = build_map dns_entry l →
  m !! k = Some v → dns_entry v = Some (k, v).
Proof.
  intros Hwf -> (x & Hx & He)%build_map_lookup%decides_elem. rewrite Forall_forall in Hwf.
  specialize (Hwf x Hx). simpl in Hwf. unfold dns_entry in He |- *.
  destruct (_ || _) eqn:E; [done|]. injection He as <- <-. cbn [db_Domain db_ProfileID].
  rewrite Hwf, E. reflexivity.
Qed.

Lemma normalize_ip_idemp l :
  Forall (λ b, prefix.wf (ib_Prefix b) = true) l →
  normalize_ip_bindings (normalize_ip_bindings l) = normalize_ip_bindings l.
Proof.
  intros Hwf. unfold normalize_ip_bindings at 1.
  rewrite (build_map_values _ (build_map ip_entry l)); [done| |apply go_sort_Permutation].
  intros k v. by apply (ip_entry_fix _ l).
Qed.
Lemma normalize_dns_idemp l :
  Forall (λ b, domain_clean (db_Domain b)) l →
  normalize_dns_bindings (normalize_dns_bindings l) = normalize_dns_bindings l.
Proof.
  intros Hwf. unfold normalize_dns_bindings at 1.
  rewrite (build_map_values _ (build_map dns_entry l)); [done| |apply go_sort_Permutation].
  intros k v. by apply (dns_entry_fix _ l).
Qed.

(** The search list: distinct normalized domains, in the order given. *)
Definition search_ok (l : list string) : Prop :=
  NoDup l ∧ Forall (λ d, normalizeDomain d = d ∧ d ≠ "" ∧ d ≠ ".") l.
Lemma normalize_search_ok l : Forall domain_clean l → search_ok (normalize_search l).
Proof.
  unfold normalize_search. intros Hwf.
  assert (∀ acc, search_ok acc → search_ok (foldl add_search_domain acc l)) as Hgen;
    [|by apply Hgen; split; [apply NoDup_nil_2|apply Forall_nil]].
  induction Hwf as [|raw l Hc _ IH]; intros acc Hacc; simpl; [done|]. apply IH.
  unfold add_search_domain. set (d := normalizeDomain raw).
  destruct (String.eqb_spec d ""), (String.eqb_spec d "."); simpl; try done.
  case_bool_decide as Hin; [done|]. destruct Hacc as [Hnd Hall]. split.
  - by apply NoDup_snoc.
  - apply Forall_app. split; [done|]. apply Forall_singleton. split; [|done].
    exact Hc.
Qed.
Lemma normalize_search_fix l : search_ok l → normalize_search l = l.
Proof.
  intros [Hnd Hall]. unfold normalize_search.
  assert (∀ acc, NoDup (acc ++ l) → foldl add_search_domain acc l = acc ++ l) as Hgen;
    [|by apply (Hgen [])].
  clear Hnd. induction Hall as [|d l (Hd & H1 & H2) _ IH]; intros acc Hnd; simpl.
  { by rewrite app_nil_r. }
  unfold add_search_domain at 2. rewrite Hd.
  apply String.eqb_neq in H1, H2. rewrite H1, H2. simpl.
  rewrite bool_decide_false.
  - rewrite IH, <-app_assoc; [done|]. by rewrite <-app_assoc.
  - intros Hin. apply NoDup_app in Hnd as (_ & Hnd & _). apply (Hnd d Hin). by left.
Qed.

Lemma default_profile_idemp p : default_profile (default_profile p) = default_profile p.
Proof.
  destruct p. unfold default_profile. simpl. f_equal.
  - destruct (String.eqb_spec pr_Name0 ""); subst; [|by destruct (String.eqb_spec pr_Name0 "")].
    by destruct (String.eqb pr_ID0 "").
  - by destruct (String.eqb_spec pr_Kind0 ""); [|destruct (String.eqb_spec pr_Kind0 "")].
Qed.

(** A list of defaulted profiles in order is left alone. *)
Definition profiles_normal (ps : list Profile) : Prop :=
  Forall (λ p, default_profile p = p) ps ∧ StronglySorted (not_after (less_key pr_ID)) ps.
Lemma profiles_normal_fix ps :
  profiles_normal ps → go_sort (less_key pr_ID) (default_profile <$> ps) = ps.
Proof.
  intros [Hd Hs]. assert (default_profile <$> ps = ps) as ->.
  { rewrite <-(list_fmap_id ps) at 2. apply list_fmap_ext. intros i p Hp.
    rewrite Forall_forall in Hd. by eapply Hd, list_elem_of_lookup_2. }
  by apply go_sort_id.
Qed.
Lemma Normalize_profiles_normal st : profiles_normal (st_Profiles (Normalize st)).
Proof.
  split; simpl; [|apply go_sort_sorted; apply _].
  rewrite go_sort_Permutation. apply Forall_fmap, Forall_true. intros p. apply default_profile_idemp.
Qed.

(** Two states that differ only in normal profile lists normalize alike. *)
Lemma Normalize_fix st ps :
  state_wf st → profiles_normal ps →
  Normalize (set_Profiles (Normalize st) ps) = set_Profiles (Normalize st) ps.
Proof.
  intros [Hp Hd Hs] Hps. unfold Normalize, set_Profiles. simpl. f_equal.
  - by apply profiles_normal_fix.
  - by apply normalize_ip_idemp.
  - by apply normalize_dns_idemp.
  - by apply normalize_search_fix, normalize_search_ok.
  - destruct (st_ExitNode st) as [e|]; simpl; [|done].
    destruct (_ || _ || _) eqn:E; [done|]. simpl. by rewrite E.
Qed.
End normalize_facts.

Lemma validateProfile_fix p p' :
  validateProfile p = Ok p' →
  validateProfile p' = Ok p' ∧ pr_ID p' = pr_ID p ∧ (default_profile p = p → default_profile p' = p').
Proof.
  unfold validateProfile. destruct (String.eqb_spec (pr_Kind p) ProfileKindTailscale) as [Hk|Hk].
  { destruct (_ || _) eqn:E; [done|]. intros [= <-]. rewrite Hk, E. done. }
  destruct (String.eqb_spec (pr_Kind p) ProfileKindWireGuard) as [Hw|]; [|done].
  destruct (pr_WireGuard p) as [c|] eqn:Hc; [|done]. intros H.
  ok_inv H as c' Hn. apply wrap_ok_inv in Hn.
  ok_guard H as Hname. ok_guard H as Hsec. ok_guard H as Hbad. injection H as <-.
  apply NormalizeConfig_inv in Hn as (Hv & c0 & Hc0).
  assert (NormalizeConfig c' = Ok c') as Hfix by (by eapply sorted_valid_normal). clear Hc0.
  destruct p as [id n al k sd hn ms di re ar ad wg sf su]. simpl in *. subst. simpl.
  rewrite Hfix. simpl. rewrite Hname, Hsec, Hbad. simpl. split_and!; [done|done|].
  unfold default_profile. simpl. intros [= Hn]. by rewrite Hn.
Qed.

Lemma validateProfiles_fix st st' :
  validateProfiles st = Ok st' → profiles_normal (st_Profiles st) →
  ∃ ps, st' = set_Profiles st ps ∧ profiles_normal ps ∧ validateProfiles st' = Ok st'.
Proof.
  unfold validateProfiles. intros H [Hd Hs]. ok_inv H as ps Hps. injection H as <-.
  exists ps. split; [done|]. apply imapM_ok_Forall2 in Hps as Hall.
  assert (Forall2 (λ p p', validateProfile p' = Ok p' ∧ pr_ID p' = pr_ID p ∧
    (default_profile p = p → default_profile p' = p')) (st_Profiles st) ps) as Hfix.
  { eapply Forall2_impl; [exact Hall|]. simpl. intros p p' [_ Hp]. by apply validateProfile_fix. }
  clear Hps Hall. split; [split|].
  - induction Hfix as [|p p' l l' (_ & _ & Hdef) Hfix IH]; [done|].
    apply Forall_cons in Hd as [Hd1 Hd2]. apply StronglySorted_inv in Hs as [Hs1 Hs2].
    constructor; [by apply Hdef|by apply IH].
  - induction Hfix as [|p p' l l' (_ & Hid & _) Hfix IH]; [constructor|].
    apply Forall_cons in Hd as [Hd1 Hd2]. apply StronglySorted_inv in Hs as [Hs1 Hs2].
    constructor; [by apply IH|]. clear IH Hd2 Hs1.
    induction Hfix as [|q q' l l' (_ & Hid' & _) Hfix IH]; [done|].
    apply Forall_cons in Hs2 as [Hq Hs2]. constructor; [|by apply IH].
    unfold not_after, less_key in *. by rewrite Hid, Hid'.
  - assert (imapM (λ _ p, validateProfile p) ps = Ok ps) as Hv.
    { unfold imapM. generalize 0%nat. clear Hd Hs.
      induction Hfix as [|p p' l l' (Hp & _) Hfix IH]; intros i; simpl; [done|].
      rewrite Hp. simpl. by rewrite IH. }
    simpl. rewrite Hv. simpl. done.
Qed.

(** ** The guarantees *)

Section guarantees.
Context {F : Type} `{FL : DNSNameLaws F} `{SJ : StateJSON, !StateJSONLaws}.

(** What normalization keeps.  After [Normalize] there is one binding per
    prefix and per domain, namely the last usable one of the file with its
    prefix masked and its domain lowered; the search list holds distinct
    normalized domains other than the root; profiles are in the order of their
    identifiers; and normalizing again changes nothing. *)
Theorem Normalize_canonical (st : State) :
  state_wf st →
  let st' := Normalize st in
  (∀ b, b ∈ st_IPRouteBindings st' ↔
        decides ip_entry (st_IPRouteBindings st) (ib_Prefix b) b) ∧
  NoDup (ib_Prefix <$> st_IPRouteBindings st') ∧
  (∀ b, b ∈ st_DNSRouteBindings st' ↔
        decides dns_entry (st_DNSRouteBindings st) (db_Domain b) b) ∧
  NoDup (db_Domain <$> st_DNSRouteBindings st') ∧
  search_ok (st_SearchDomains st') ∧
  StronglySorted (not_after (less_key pr_ID)) (st_Profiles st') ∧
  Normalize st' = st'.
Proof.
  intros Hwf st'. pose proof Hwf as [Hp Hd Hs].
  assert (Hip : ∀ k v, build_map ip_entry (st_IPRouteBindings st) !! k = Some v → ib_Prefix v = k).
  { intros k v Hkv. pose proof (ip_entry_fix _ _ k v Hp eq_refl Hkv) as He.
    unfold ip_entry in He. destruct (_ || _); [done|]. by injection He as -> <-. }
  assert (Hdn : ∀ k v, build_map dns_entry (st_DNSRouteBindings st) !! k = Some v → db_Domain v = k).
  { intros k v Hkv. pose proof (dns_entry_fix _ _ k v Hd eq_refl Hkv) as He.
    unfold dns_entry in He. destruct (_ || _); [done|]. by injection He as -> <-. }
  split_and!.
  - intros b. simpl. unfold normalize_ip_bindings. autorewrite with tailmix.
    rewrite <-build_map_lookup. by apply elem_of_map_values.
  - simpl. unfold normalize_ip_bindings. rewrite go_sort_Permutation. by apply NoDup_map_values.
  - intros b. simpl. unfold normalize_dns_bindings. autorewrite with tailmix.
    rewrite <-build_map_lookup. by apply elem_of_map_values.
  - simpl. unfold normalize_dns_bindings. rewrite go_sort_Permutation. by apply NoDup_map_values.
  - simpl. by apply normalize_search_ok.
  - apply Normalize_profiles_normal.
  - pose proof (Normalize_fix st _ Hwf (Normalize_profiles_normal st)) as Hfix.
    by destruct st.
Qed.

(** The file holds the encoding of this state, which is read back as it is if
    JSON text can carry it. *)
Definition stored (path : string) (fs : FS) (st : State) : Prop :=
  (∃ b, MarshalIndent st = Some b ∧ fs !! path = Some (b +:+ NEWLINE)) ∧ (text_state st = true → Load path true fs = Ok st).
Lemma stored_file path (fs fs' : FS) st : fs' !! path = fs !! path → stored path fs st → stored path fs' st.
Proof using. intros Hfs [Hb Hl]. unfold stored, Load in *. by rewrite Hfs. Qed.
Lemma Save_cases (path : string) (env : save_env) (fs fs' : FS) (st : State) r :
  state_wf st → Save path env fs st = (fs', r) →
  match r with
  | Ok _ => ∃ st', validateProfiles (Normalize st) = Ok st' ∧ stored path fs' st'
  | Err _ => fs' !! path = fs !! path ∧ ∀ readable, Load path readable fs' = Load path readable fs
  end.
Proof.
  intros Hwf HS. unfold Save in HS.
  destruct (validateProfiles (Normalize st)) as [st'|e] eqn:Hv; [|by injection HS as <- <-].
  destruct (mkdir_outcome env); simpl in HS; [|by injection HS as <- <-].
  destruct (MarshalIndent st') as [b|] eqn:Hm; [|by injection HS as <- <-].
  assert (Hne : path +:+ ".tmp" ≠ path).
  { intros Hl%(f_equal str_len). rewrite str_len_app in Hl. change (str_len ".tmp") with 4%nat in Hl. lia. }
  assert (Hload : ∀ (m : FS) x, <[path +:+ ".tmp" := x]> m !! path = m !! path ∧
    ∀ readable, Load path readable (<[path +:+ ".tmp" := x]> m) = Load path readable m).
  { intros m x. unfold Load. by rewrite lookup_insert_ne. }
  destruct (write_outcome env) as [|[p|]]; simpl in HS; [|by injection HS as <- <-; apply Hload|by injection HS as <- <-].
  unfold exec_rename in HS. destruct (rename_outcome env); [|by injection HS as <- <-; apply Hload].
  rewrite lookup_insert_eq in HS. simpl in HS. injection HS as <- <-.
  exists st'. split; [done|]. split; [exists b; by rewrite lookup_insert_eq|]. intros Ht. unfold Load. rewrite lookup_insert_eq. simpl.
  rewrite (Unmarshal_Marshal _ _ Ht Hm).
  destruct (validateProfiles_fix _ _ Hv (Normalize_profiles_normal st)) as (ps & -> & Hps & Hfix).
  by rewrite (Normalize_fix st ps Hwf Hps), Hfix.
Qed.

(** C37. The state file is replaced atomically.  Whatever the file system does,
    a [Save] that reports an error leaves the stored state as it was, and one
    that succeeds leaves the encoding of the normalized, validated state that was
    saved, which [Load] returns exactly if JSON text can carry it ([text_state]:
    strings in UTF-8, addresses without zones). *)
Theorem Save_atomic (path : string) (env : save_env) (fs fs' : FS) (st : State) r :
  state_wf st → Save path env fs st = (fs', r) →
  match r with
  | Ok _ => ∃ st', validateProfiles (Normalize st) = Ok st' ∧
      (∃ b, MarshalIndent st' = Some b ∧ fs' !! path = Some (b +:+ NEWLINE)) ∧
      (text_state st' = true → Load path true fs' = Ok st')
  | Err _ => fs' !! path = fs !! path ∧ ∀ readable, Load path readable fs' = Load path readable fs
  end.
Proof. apply Save_cases. Qed.
End guarantees.

(** ** Concrete states *)

#[export] Instance PacketFilter_eq_dec : EqDecision PacketFilter.
Proof. solve_decision. Defined.
#[export] Instance Peer_eq_dec : EqDecision Peer.
Proof. unfold Key. solve_decision. Defined.
#[export] Instance Config_eq_dec : EqDecision Config.
Proof. solve_decision. Defined.
#[export] Instance Profile_eq_dec : EqDecision Profile.
Proof. solve_decision. Defined.
#[export] Instance EffectiveLease_eq_dec : EqDecision EffectiveLease.
Proof. solve_decision. Defined.
#[export] Instance ExitNodeState_eq_dec : EqDecision ExitNodeState.
Proof. solve_decision. Defined.
#[export] Instance UpdateState_eq_dec : EqDecision UpdateState.
Proof. solve_decision. Defined.
#[export] Instance State_eq_dec : EqDecision State.
Proof. solve_decision. Defined.

Definition tailscale_profile (id name : string) : Profile :=
  MkProfile id name "" "" "" "" "" false false false false None "" false.
Definition wireguard_profile (id : string) : Profile :=
  MkProfile id "home" "" "wireguard" "" "" "" false false false false (Some edited_config)
    "wireguard-secrets-1.json" false.
Definition test_state : State :=
  MkState false "100.64.0.0/10" "" AddrInvalid AddrInvalid AddrInvalid
    [tailscale_profile "work" ""; wireguard_profile "aaa"] []
    [MkIPBinding (MkPrefix (Addr4 167837953) 16) "work"; MkIPBinding (MkPrefix (Addr4 167837696) 16) "aaa";
     MkIPBinding prefix.zero "work"]
    [MkDNSBinding "Corp.Example." "work"; MkDNSBinding " corp.example" "aaa"]
    ["b.example"; "A.example."; "."; "b.example."] (Some (MkExitNode "work" "" AddrInvalid))
    (MkUpdateState false "" "" "" "").

Lemma test_state_wf : state_wf test_state.
Proof.
  split; repeat (apply Forall_cons; split); try apply Forall_nil_2; try reflexivity; vm_compute; reflexivity.
Qed.
Lemma Normalize_canonical_witness :
  Normalize (Normalize test_state) = Normalize test_state ∧
  (st_IPRouteBindings (Normalize test_state), st_SearchDomains (Normalize test_state)) =
    ([MkIPBinding (MkPrefix (Addr4 167837696) 16) "aaa"], ["b.example"; "a.example"]).
Proof.
  destruct (Normalize_canonical test_state test_state_wf) as (_ & _ & _ & _ & _ & _ & Hfix).
  split; [exact Hfix|]. vm_compute. reflexivity.
Defined.

(** The validated form of [test_state], and a codec that knows this state. *)
Definition saved_state : State :=
  match validateProfiles (Normalize test_state) with Ok st => st | Err _ => zero_state end.
#[local] Instance test_codec : StateJSON := {
  MarshalIndent st := if decide (st = saved_state) then Some "{...}" else None;
  Unmarshal b := if String.eqb b ("{...}" +:+ NEWLINE) then Some saved_state else None
}.
#[local] Instance test_codec_laws : StateJSONLaws.
Proof.
  split. intros st b _. simpl. destruct (decide (st = saved_state)) as [->|]; [|done].
  intros [= <-]. reflexivity.
Qed.
Lemma Save_atomic_witness :
  ∃ fs', Save "state.json" (MkSaveEnv true FsOk FsOk) ∅ test_state = (fs', Ok tt) ∧
    Load "state.json" true fs' = Ok saved_state.
Proof.
  destruct (Save "state.json" (MkSaveEnv true FsOk FsOk) ∅ test_state) as [fs' r] eqn:E.
  pose proof (Save_atomic "state.json" (MkSaveEnv true FsOk FsOk) ∅ fs' test_state r test_state_wf E) as H.
  destruct r as [[]|e]; [|exfalso; vm_compute in E; discriminate].
  exists fs'. split; [reflexivity|]. destruct H as (st' & Hv & _ & Hl).
  assert (saved_state = st') as Hs by (unfold saved_state; by rewrite Hv). rewrite Hl; [by rewrite Hs|].
  rewrite <- Hs. vm_compute. reflexivity.
Defined.

(** White space in front of the final dot of a domain outlives one round. *)
Example unstable_domain : normalizeDomain "a . ." = "a . " ∧ normalizeDomain "a . " = "a " ∧ normalizeDomain "a " = "a".
Proof. vm_compute. done. Qed.

(** A write that fails half way leaves the old state in place. *)
Example torn_write :
  (Save "state.json" (MkSaveEnv true (FsFail (Some "{..")) FsOk) {[ "state.json" := "old" ]} test_state).1
    !! "state.json" = Some "old".
Proof. vm_compute. reflexivity. Qed.
