(* ===== verification/HostPools.v ===== *)
(** * The daemon's address pools and its own addresses

    cmd/tailmixd/main.go: which pools effective addresses come from
    ([configureSyntheticPools]) and the addresses the daemon takes for itself,
    the host side of the NAT and the DNS resolver ([ensureHostIPs]).  The
    address of MagicDNS, which Tailscale fixes, is a parameter. *)

From S2P Require Import Prelude GoStrings Netip NetipText PoolScan State.
Import netip_facts.
Local Open Scope Z_scope.

Definition defaultSyntheticPool : string := "100.127.0.0/16".
Definition defaultSyntheticPoolV6 : string := "fd6d:6e65:7400::/56".

Inductive pool_error : Type :=
  | EParsePool (ipv6 : bool) (raw : string)
  | EPoolFamily (ipv6 : bool) (pool : Prefix)
  | EPoolUnicast (ipv6 : bool) (pool : Prefix)
  | EPoolServiceIP (pool : Prefix)
  | ENoFreeNAT (ipv6 : bool) (pool : Prefix)
  | ENoFreeDNS (pool : Prefix).

Section pools.
Context (ServiceIP : Addr).

Definition normalizeSyntheticPool (ipv6 : bool) (raw : string) : result pool_error string :=
  match ParsePrefix (TrimSpace raw) with
  | None => Err (EParsePool ipv6 raw)
  | Some pool =>
    _ ← guard_err (addr.Is4In6 (p_addr pool) || negb (eqb (addr.Is6 (p_addr pool)) ipv6)) (EPoolFamily ipv6 pool);
    let pool := prefix.Masked pool in
    _ ← guard_err (negb (addr.IsGlobalUnicast (p_addr pool))) (EPoolUnicast ipv6 pool);
    _ ← guard_err (negb ipv6 && prefix.Contains pool ServiceIP) (EPoolServiceIP pool);
    Ok (prefix_string pool)
  end.

Definition lease_of_family (ipv6 : bool) (l : EffectiveLease) : bool :=
  addr.IsValid (el_EffectiveIP l) && eqb (addr.Is6 (el_EffectiveIP l)) ipv6.
Definition discardSyntheticLeases (ls : list EffectiveLease) (ipv6 : bool) : list EffectiveLease :=
  filter (λ l, lease_of_family ipv6 l = false) ls.

(** The fields of one family, and the loop body of [configureSyntheticPools]. *)
Definition pool_text (ipv6 : bool) (st : State) : string :=
  if ipv6 then st_SyntheticPoolV6 st else st_SyntheticPool st.
Definition nat_ip (ipv6 : bool) (st : State) : Addr := if ipv6 then st_NATIPv6 st else st_NATIP st.
Definition set_nat_ip (ipv6 : bool) (st : State) (ip : Addr) : State :=
  if ipv6 then set_NATIPv6 st ip else set_NATIP st ip.
Definition set_pool_text (ipv6 : bool) (st : State) (raw : string) : State :=
  if ipv6 then set_SyntheticPoolV6 st raw else set_SyntheticPool st raw.
Definition default_pool (ipv6 : bool) : string :=
  if ipv6 then defaultSyntheticPoolV6 else defaultSyntheticPool.

Definition selected_pool (ipv6 : bool) (st : State) (override : string) : string :=
  let selected := TrimSpace override in
  let selected := if String.eqb selected "" then pool_text ipv6 st else selected in
  if String.eqb selected "" then default_pool ipv6 else selected.
Definition old_normalized (ipv6 : bool) (st : State) : string :=
  if String.eqb (pool_text ipv6 st) "" then ""
  else match normalizeSyntheticPool ipv6 (pool_text ipv6 st) with Ok p => p | Err _ => "" end.
Definition forget_family (ipv6 : bool) (st : State) : State :=
  let st := set_nat_ip ipv6 (set_Leases st (discardSyntheticLeases (st_Leases st) ipv6)) AddrInvalid in
  if ipv6 then st else set_DNSIP st AddrInvalid.
Definition configure_family (ipv6 : bool) (override : string) (st : State) : result pool_error State :=
  normalized ← normalizeSyntheticPool ipv6 (selected_pool ipv6 st override);
  let st' := if negb (String.eqb (TrimSpace override) "") && negb (String.eqb (old_normalized ipv6 st) normalized)
             then forget_family ipv6 st else st in
  Ok (set_pool_text ipv6 st' normalized).
Definition configureSyntheticPools (st : State) (ipv4Override ipv6Override : string) : result pool_error State :=
  st ← configure_family false ipv4Override st;
  configure_family true ipv6Override st.

(** ** Addresses of the daemon *)

Definition validReservedIP (ip : Addr) (pool : Prefix) (ipv6 : bool) (used : gset Addr) : bool :=
  addr.IsValid ip && negb (bool_decide (ip = p_addr pool)) && eqb (addr.Is6 ip) ipv6 &&
  prefix.Contains pool ip && negb (ip ∈? used).

(** The loop of [firstFreePoolIP] from [ip] on; [None] is out of fuel, which
    does not happen ([firstFreePoolIP_spec]). *)
Fixpoint first_free_from (fuel : nat) (pool : Prefix) (used : gset Addr) (ip : Addr) : option Addr :=
  match fuel with
  | O => None
  | S fuel =>
    if negb (prefix.Contains pool ip) then Some AddrInvalid
    else if negb (addr.IsValid ip) then Some AddrInvalid
    else if negb (ip ∈? used) && negb (bool_decide (ip = ServiceIP)) then Some ip
    else first_free_from fuel pool used (addr.Next ip)
  end.
Definition firstFreePoolIP (pool : Prefix) (used : gset Addr) : Addr :=
  default AddrInvalid (first_free_from (S (size ({[ServiceIP]} ∪ used))) pool used (addr.Next (p_addr pool))).

Fixpoint next_times (n : nat) (ip : Addr) : Addr :=
  match n with
  | O => ip
  | S n => let ip := addr.Next ip in if negb (addr.IsValid ip) then AddrInvalid else next_times n ip
  end.
Definition poolIPAtOffset (pool : Prefix) (offset : nat) : Addr :=
  let ip := next_times offset (p_addr pool) in
  if negb (prefix.Contains pool ip) then AddrInvalid else ip.

Definition leased_ips (ls : list EffectiveLease) : gset Addr :=
  list_to_set (filter (λ ip, addr.IsValid ip = true) (el_EffectiveIP <$> ls)).
Definition parse_pool (ipv6 : bool) (raw : string) : result pool_error Prefix :=
  match ParsePrefix raw with
  | Some p => Ok (prefix.Masked p)
  | None => Err (EParsePool ipv6 raw)
  end.
(** One iteration of the loop over the families. *)
Definition ensure_nat (ipv6 : bool) (s : State * gset Addr) : result pool_error (State * gset Addr) :=
  let '(st, used) := s in
  pool ← parse_pool ipv6 (pool_text ipv6 st);
  if validReservedIP (nat_ip ipv6 st) pool ipv6 used then Ok (st, {[nat_ip ipv6 st]} ∪ used)
  else
    let ip := firstFreePoolIP pool used in
    _ ← guard_err (negb (addr.IsValid ip)) (ENoFreeNAT ipv6 pool);
    Ok (set_nat_ip ipv6 st ip, {[ip]} ∪ used).
Definition ensure_dns (st : State) (used : gset Addr) : result pool_error State :=
  pool ← parse_pool false (st_SyntheticPool st);
  if validReservedIP (st_DNSIP st) pool false used then Ok st
  else
    let preferred := poolIPAtOffset pool 53 in
    let ip := if addr.IsValid preferred && negb (preferred ∈? used) then preferred
              else firstFreePoolIP pool used in
    _ ← guard_err (negb (addr.IsValid ip)) (ENoFreeDNS pool);
    Ok (set_DNSIP st ip).
Definition ensureHostIPs (st : State) : result pool_error State :=
  s ← ensure_nat false (st, leased_ips (st_Leases st));
  '(st, used) ← ensure_nat true s;
  ensure_dns st used.
End pools.

(** ** Pools *)

Section facts.
Context (ServiceIP : Addr).
Local Notation normalizeSyntheticPool := (normalizeSyntheticPool ServiceIP).
Local Notation configureSyntheticPools := (configureSyntheticPools ServiceIP).
Local Notation firstFreePoolIP := (firstFreePoolIP ServiceIP).
Local Notation ensureHostIPs := (ensureHostIPs ServiceIP).

Record pool_ok (ipv6 : bool) (p : Prefix) : Prop := {
  po_masked : masked p;
  po_valid : prefix.IsValid p = true;
  po_family : addr.Is6 (p_addr p) = ipv6;
  po_native : addr.Is4In6 (p_addr p) = false;
  po_unicast : addr.IsGlobalUnicast (p_addr p) = true;
  po_service : ipv6 = false → prefix.Contains p ServiceIP = false }.

(** Masking clears low bits, so it makes no IPv4-mapped address. *)
Lemma Masked_native p : prefix.wf p = true → prefix.IsValid p = true →
  addr.Is4In6 (p_addr p) = false → addr.Is4In6 (p_addr (prefix.Masked p)) = false.
Proof.
  intros Hwf Hv Hn. pose proof (wf_bits p Hwf Hv) as [Hb _]. unfold prefix.Masked. rewrite Hv. cbn [p_addr].
  destruct (p_addr p) as [|v|v z]; [done..|]. cbn [prefix.mask_addr addr.withoutZone] in *.
  unfold addr.Is4In6 in *. apply Z.eqb_neq. apply Z.eqb_neq in Hn. intros Heq.
  unfold prefix.mask_value in Heq. cbn [addr.BitLen] in Hb.
  destruct (Z.le_gt_cases (128 - p_bits p) 32) as [Hle|Hgt].
  - destruct Hn. rewrite <-Heq. rewrite !Z.shiftr_div_pow2, Z.shiftl_mul_pow2 by lia.
    replace 32 with (128 - p_bits p + (32 - (128 - p_bits p))) at 2 by lia.
    rewrite Z.pow_add_r, <-Z.div_div by (try apply Z.pow_pos_nonneg; lia).
    rewrite Z.div_mul by (apply Z.pow_nonzero; lia). rewrite Z.div_div by (try apply Z.pow_pos_nonneg; try apply Z.pow_nonzero; lia).
    rewrite <-Z.pow_add_r by lia. do 2 f_equal. lia.
  - rewrite Z.shiftr_shiftl_l in Heq by lia. set (k := 128 - p_bits p - 32) in *.
    rewrite Z.shiftl_mul_pow2 in Heq by lia. apply (f_equal Z.odd) in Heq. rewrite Z.odd_mul, Z.odd_pow in Heq by lia.
    by rewrite andb_false_r in Heq.
Qed.

Lemma normalize_ok ipv6 raw t : normalizeSyntheticPool ipv6 raw = Ok t ↔
  ∃ q, ParsePrefix (TrimSpace raw) = Some q ∧ addr.Is4In6 (p_addr q) = false ∧
       pool_ok ipv6 (prefix.Masked q) ∧ t = prefix_string (prefix.Masked q).
Proof.
  unfold HostPools.normalizeSyntheticPool. destruct (ParsePrefix _) as [q|] eqn:Hq; [|split; [done|by intros (? & ? & _)]].
  pose proof (ParsePrefix_wf _ _ Hq) as [Hwf Hv].
  assert (Hfam : addr.Is6 (p_addr (prefix.Masked q)) = addr.Is6 (p_addr q)).
  { unfold prefix.Masked. rewrite Hv. by destruct (p_addr q). }
  split.
  - intros H. ok_guard H as [Hn Hf%negb_false_iff%eqb_prop]%orb_false_iff.
    ok_guard H as Hu%negb_false_iff. ok_guard H as Hs. injection H as <-.
    exists q. split_and!; [done|done| |done]. constructor; auto using Masked_masked, Masked_IsValid, Masked_native; [congruence|].
    by intros ->.
  - intros (? & [= <-] & Hn & [Hm Hv' Hf _ Hu Hs] & ->). rewrite Hn, Hu. rewrite <-Hfam, Hf, eqb_reflx. cbn [orb negb guard_err mbind result_bind].
    destruct ipv6; cbn [negb andb]; [done|]. by rewrite Hs.
Qed.

Lemma prefix_string_spaces p : prefix.wf p = true → prefix.IsValid p = true →
  TrimSpace (prefix_string p) = prefix_string p.
Proof.
  intros Hwf Hv. pose proof (wf_bits p Hwf Hv) as [_ Ha]. apply TrimSpace_none. intros c. unfold prefix_string. rewrite Hv, !chars_app.
  unfold prefix.wf in Hwf. apply andb_true_iff in Hwf as [[_ Hz%negb_true_iff]%andb_true_iff _].
  assert (Hc : c = colon ∨ c = dot ∨ is_Some (hex_val c) → is_space c = false).
  { intros [->|[->|[d Hd]]]; [done..|]. destruct (is_space c) eqn:E; [|done].
    destruct c as [[] [] [] [] [] [] [] []]; done. }
  intros [H|[->|H]%elem_of_cons]%elem_of_app; [|done|].
  - apply Hc. destruct (p_addr p) as [|v|v z] eqn:E.
    + done.
    + change (addr_string (Addr4 v)) with (string4 v) in H. apply string4_chars in H. tauto.
    + simpl in Hz. apply negb_false_iff in Hz. rewrite addr_string6, Hz, chars_app, app_nil_r in H.
      by apply text6_chars in H.
  - apply FormatUint_digits in H. apply Hc. right. right. unfold hex_val. rewrite H. eauto.
Qed.
Lemma normalize_fix ipv6 p : pool_ok ipv6 p → normalizeSyntheticPool ipv6 (prefix_string p) = Ok (prefix_string p).
Proof.
  intros Hp. destruct Hp as [[Hm Hwf] Hv Hf Hn Hu Hs] eqn:E. apply normalize_ok. exists p.
  rewrite prefix_string_spaces, ParsePrefix_prefix_string, Hm by done. done.
Qed.
Lemma prefix_string_nonempty p : prefix_string p ≠ "".
Proof.
  intros E%(f_equal chars). unfold prefix_string in E. destruct (prefix.IsValid p); [|done].
  rewrite !chars_app in E. apply app_eq_nil in E as [_ E]. done.
Qed.

(** *** One family of [configureSyntheticPools] *)

(** The override replaces the pool in use. *)
Definition pool_changed (ipv6 : bool) (st : State) (override : string) (st' : State) : bool :=
  negb (String.eqb (TrimSpace override) "") &&
  negb (String.eqb (old_normalized ServiceIP ipv6 st) (pool_text ipv6 st')).

Lemma configure_family_ok ipv6 override st st' : configure_family ServiceIP ipv6 override st = Ok st' →
  ∃ p, pool_ok ipv6 p ∧
    st' = set_pool_text ipv6 (if pool_changed ipv6 st override st' then forget_family ipv6 st else st) (prefix_string p).
Proof.
  unfold configure_family. intros (t & Ht & [= <-])%bind_ok_inv.
  pose proof (proj1 (normalize_ok _ _ _) Ht) as (q & _ & _ & Hp & ->). exists (prefix.Masked q). split; [done|].
  unfold pool_changed. by destruct ipv6.
Qed.
(** Without an override, a normal pool is kept. *)
Lemma configure_family_fix ipv6 p st : pool_ok ipv6 p → pool_text ipv6 st = prefix_string p →
  configure_family ServiceIP ipv6 "" st = Ok st.
Proof.
  intros Hp Ht. unfold configure_family, selected_pool. change (TrimSpace "") with "". rewrite Ht. change (String.eqb "" "") with true. cbv iota zeta.
  rewrite (proj2 (String.eqb_neq _ _) (prefix_string_nonempty p)).
  rewrite normalize_fix by done. cbn [mbind result_bind negb andb]. f_equal. rewrite <-Ht. by destruct ipv6, st.
Qed.

Lemma elem_of_discard ls ipv6 l : l ∈ discardSyntheticLeases ls ipv6 ↔ l ∈ ls ∧ lease_of_family ipv6 l = false.
Proof. unfold discardSyntheticLeases. rewrite list_elem_of_filter. tauto. Qed.
Lemma lease_of_one_family l : lease_of_family true l = true → lease_of_family false l = false.
Proof. unfold lease_of_family. by destruct (addr.IsValid _), (addr.Is6 _). Qed.

(** The pools a start leaves, and that the next one keeps them. *)
Lemma configure_pools st o4 o6 st' : configureSyntheticPools st o4 o6 = Ok st' →
  ∃ p4 p6 st1, pool_ok false p4 ∧ pool_ok true p6 ∧
    st1 = set_pool_text false (if pool_changed false st o4 st1 then forget_family false st else st) (prefix_string p4) ∧
    st' = set_pool_text true (if pool_changed true st1 o6 st' then forget_family true st1 else st1) (prefix_string p6) ∧
    pool_text false st' = prefix_string p4 ∧ pool_text true st' = prefix_string p6.
Proof.
  intros H. unfold HostPools.configureSyntheticPools in H. ok_inv H as st1 H1.
  apply configure_family_ok in H1 as (p4 & Hp4 & E1). apply configure_family_ok in H as (p6 & Hp6 & E).
  exists p4, p6, st1. split_and!; try done; rewrite E; [|done]. by destruct (pool_changed true _ _ _); rewrite E1.
Qed.
Lemma configure_fix st p4 p6 : pool_ok false p4 → pool_ok true p6 → pool_text false st = prefix_string p4 →
  pool_text true st = prefix_string p6 → configureSyntheticPools st "" "" = Ok st.
Proof.
  intros Hp4 Hp6 H4 H6. unfold HostPools.configureSyntheticPools. rewrite (configure_family_fix _ _ _ Hp4 H4).
  cbn [mbind result_bind]. by apply (configure_family_fix _ p6).
Qed.

(** [configureSyntheticPools] leaves a normalized pool of unicast
    addresses in each family, the IPv4 one without the MagicDNS address; a
    family whose override names another pool loses exactly its leases and host
    addresses, every other lease and address stays; and the next start, without
    overrides, changes nothing. *)
Theorem configureSyntheticPools_sound (st st' : State) (o4 o6 : string) :
  configureSyntheticPools st o4 o6 = Ok st' →
  (∀ ipv6, ∃ p, pool_ok ipv6 p ∧ pool_text ipv6 st' = prefix_string p ∧ ParsePrefix (pool_text ipv6 st') = Some p) ∧
  (∀ l, l ∈ st_Leases st' ↔ l ∈ st_Leases st ∧
     ∀ ipv6, lease_of_family ipv6 l = true → pool_changed ipv6 st (if ipv6 then o6 else o4) st' = false) ∧
  (∀ ipv6, nat_ip ipv6 st' =
     if pool_changed ipv6 st (if ipv6 then o6 else o4) st' then AddrInvalid else nat_ip ipv6 st) ∧
  configureSyntheticPools st' "" "" = Ok st'.
Proof.
  intros (p4 & p6 & st1 & Hp4 & Hp6 & E1 & E & Ht4 & Ht6)%configure_pools.
  assert (Hc4 : pool_changed false st o4 st1 = pool_changed false st o4 st').
  { unfold pool_changed. rewrite Ht4. by rewrite E1. }
  assert (Hc6 : pool_changed true st1 o6 st' = pool_changed true st o6 st').
  { unfold pool_changed, old_normalized. do 3 f_equal; rewrite E1; by destruct (pool_changed false _ _ _). }
  rewrite Hc4 in E1. rewrite Hc6 in E.
  split_and!.
  - intros ipv6. exists (if ipv6 then p6 else p4).
    destruct ipv6; rewrite ?Ht4, ?Ht6; split_and!; try done; apply ParsePrefix_prefix_string; apply Hp4 || apply Hp6.
  - intros l. assert ((∀ ipv6, lease_of_family ipv6 l = true →
        pool_changed ipv6 st (if ipv6 then o6 else o4) st' = false) ↔
      (lease_of_family false l = true → pool_changed false st o4 st' = false) ∧
      (lease_of_family true l = true → pool_changed true st o6 st' = false)) as ->.
    { split; [intros Hall; split; apply Hall|]. intros [Ha Hb] []; done. }
    assert (st_Leases st' =
      let ls := if pool_changed false st o4 st' then discardSyntheticLeases (st_Leases st) false else st_Leases st in
      if pool_changed true st o6 st' then discardSyntheticLeases ls true else ls) as ->.
    { rewrite E at 1. rewrite E1. by destruct (pool_changed true st o6 st'), (pool_changed false st o4 st'). }
    destruct (pool_changed true st o6 st'), (pool_changed false st o4 st'); cbv zeta;
      rewrite ?elem_of_discard; destruct (lease_of_family true l), (lease_of_family false l); intuition congruence.
  - intros ipv6. rewrite E at 1. rewrite E1.
    by destruct ipv6, (pool_changed true st o6 st'), (pool_changed false st o4 st').
  - by apply (configure_fix _ p4 p6).
Qed.

(** *** The daemon's own addresses *)

Definition skipped (used : gset Addr) (ip : Addr) : bool := ip ∈? ({[ServiceIP]} ∪ used).
Lemma skipped_false used ip : skipped used ip = false ↔ ip ∉ used ∧ ip ≠ ServiceIP.
Proof. unfold skipped. rewrite bool_decide_eq_false. set_solver. Qed.
Lemma first_free_scan fuel p used ip : first_free_from ServiceIP fuel p used ip =
  match scan fuel p (skipped used) ip with
  | Found ip => Some ip | Exhausted => Some AddrInvalid | OutOfFuel => None
  end.
Proof.
  revert ip; induction fuel as [|fuel IH]; intros ip; simpl; [done|].
  destruct (prefix.Contains p ip) eqn:Hc; simpl; [|done]. rewrite (Contains_addr_valid _ _ Hc), IH. simpl.
  destruct (skipped used ip) eqn:E.
  - unfold skipped in E. apply bool_decide_eq_true, elem_of_union in E as [->%elem_of_singleton|?].
    + rewrite (bool_decide_true (ServiceIP = ServiceIP)) by done. by rewrite andb_false_r.
    + by rewrite bool_decide_true.
  - apply skipped_false in E as [??]. by rewrite !bool_decide_false.
Qed.

Section one_pool.
Context (p : Prefix) (Hm : masked p) (Hv : prefix.IsValid p = true).

Lemma contains_not_base ip : prefix.Contains p ip = true → ip ≠ p_addr p ↔ base p < addr.value ip.
Proof.
  intros Hc. pose proof Hc as (i & Hi & ->)%Contains_is_plus; [|done].
  destruct (addr_plus_in p i Hm Hv Hi) as [-> _]. rewrite (masked_first p Hm Hv) at 2. split; [|intros ? Heq].
  - intros Hne. assert (i ≠ 0); [|lia]. intros ->. done.
  - apply (addr_plus_inj p) in Heq; [lia|done|done|lia|lia].
Qed.
(** The first usable address after the base, or the pool is full. *)
Lemma firstFreePoolIP_spec used : let ip := firstFreePoolIP p used in
  (prefix.Contains p ip = true ∧ ip ≠ p_addr p ∧ ip ∉ used ∧ ip ≠ ServiceIP ∧
   ∀ ip', prefix.Contains p ip' = true → ip' ≠ p_addr p → ip' ∉ used → ip' ≠ ServiceIP →
          addr.value ip <= addr.value ip') ∨
  (ip = AddrInvalid ∧ ∀ ip', prefix.Contains p ip' = true → ip' ≠ p_addr p → ip' ∈ used ∨ ip' = ServiceIP).
Proof.
  cbv zeta. unfold HostPools.firstFreePoolIP. rewrite first_free_scan, (masked_first p Hm Hv), Next_addr_plus by done.
  set (known := {[ServiceIP]} ∪ used : gset Addr).
  pose proof (scan_least p (skipped used) Hm Hv known (S (size known)) 1 ltac:(done)
    ltac:(intros ip Hip; by apply bool_decide_eq_true in Hip) ltac:(apply Nat.lt_succ_diag_r)) as Hs.
  rewrite <-(masked_first p Hm Hv). change (0 + 1) with 1. destruct (scan _ _ _ _) as [ip| |]; [| |done]; cbn [default].
  - left. destruct Hs as (Hc & Hge & [Hu Hne]%skipped_false & Hmin). split_and!; [done| |done|done|].
    + apply (proj2 (contains_not_base ip Hc)). lia.
    + intros ip' Hc' Hb Hu' Hne'. apply Hmin; [done| |by apply skipped_false].
      apply (contains_not_base ip' Hc') in Hb. lia.
  - right. split; [done|]. intros ip' Hc' Hb. apply (contains_not_base ip' Hc') in Hb.
    specialize (Hs ip' Hc' ltac:(lia)). apply bool_decide_eq_true in Hs. set_solver.
Qed.
Lemma firstFreePoolIP_valid used : addr.IsValid (firstFreePoolIP p used) = true →
  prefix.Contains p (firstFreePoolIP p used) = true ∧ firstFreePoolIP p used ≠ p_addr p ∧
  firstFreePoolIP p used ∉ used ∧ firstFreePoolIP p used ≠ ServiceIP.
Proof. destruct (firstFreePoolIP_spec used) as [(? & ? & ? & ? & _)|[-> _]]; [done|]. done. Qed.
End one_pool.

Lemma next_times_plus n p i : 0 <= i → addr.IsValid (next_times n (addr_plus (p_addr p) i)) = true →
  next_times n (addr_plus (p_addr p) i) = addr_plus (p_addr p) (i + Z.of_nat n).
Proof.
  revert i; induction n as [|n IH]; intros i Hi; [by rewrite Z.add_0_r|]. cbn [next_times].
  rewrite Next_addr_plus by done. destruct (addr.IsValid (addr_plus (p_addr p) (i + 1))); cbn [negb]; [|done].
  intros Hn. rewrite IH by (done || lia). f_equal. lia.
Qed.
Lemma poolIPAtOffset_valid p n : masked p → prefix.IsValid p = true → (0 < n)%nat →
  addr.IsValid (poolIPAtOffset p n) = true →
  prefix.Contains p (poolIPAtOffset p n) = true ∧ poolIPAtOffset p n ≠ p_addr p.
Proof.
  intros Hm Hv Hn. unfold poolIPAtOffset. destruct (prefix.Contains p _) eqn:Hc; cbn [negb]; [|done].
  intros Hval. split; [done|]. apply (proj2 (contains_not_base p Hm Hv _ Hc)).
  rewrite (masked_first p Hm Hv) in Hval, Hc |- *. rewrite next_times_plus in Hc |- * by done.
  rewrite Contains_plus in Hc by (done || lia). destruct (addr_plus_in p (0 + Z.of_nat n) Hm Hv) as [-> _]; lia.
Qed.

(** The daemon may keep [ip] for itself. *)
Definition reservable (p : Prefix) (used : gset Addr) (ip : Addr) : Prop :=
  prefix.Contains p ip = true ∧ ip ≠ p_addr p ∧ ip ∉ used.
Lemma validReservedIP_spec ipv6 p used ip : pool_ok ipv6 p →
  validReservedIP ip p ipv6 used = true ↔ reservable p used ip.
Proof.
  intros Hp. unfold validReservedIP, reservable. rewrite !andb_true_iff, !negb_true_iff, !bool_decide_eq_false, eqb_true_iff.
  split; [tauto|]. intros (Hc & Hb & Hu). split_and!; [by eapply Contains_addr_valid|done| |done|done].
  rewrite <-(po_family _ _ Hp). apply Is6_BitLen. by eapply Contains_BitLen.
Qed.
(** The pools in use are what [configureSyntheticPools] leaves. *)
Definition pools_ok (st : State) (pool : bool → Prefix) : Prop :=
  ∀ ipv6, pool_ok ipv6 (pool ipv6) ∧ ParsePrefix (pool_text ipv6 st) = Some (pool ipv6).
Lemma parse_pool_ok ipv6 p raw : pool_ok ipv6 p → ParsePrefix raw = Some p → parse_pool ipv6 raw = Ok p.
Proof. intros [[Hm _] _ _ _ _ _] Hraw. unfold parse_pool. by rewrite Hraw, Hm. Qed.

Section ensure.
Context (pool : bool → Prefix).

Lemma pools_disjoint st ip : pools_ok st pool →
  prefix.Contains (pool false) ip = true → prefix.Contains (pool true) ip = true → False.
Proof.
  intros Hpools H4%Contains_BitLen H6%Contains_BitLen. rewrite H4 in H6. apply Is6_BitLen in H6.
  by rewrite (po_family _ _ (proj1 (Hpools false))), (po_family _ _ (proj1 (Hpools true))) in H6.
Qed.

Lemma ensure_nat_ok ipv6 st used st' used' : pools_ok st pool →
  ensure_nat ServiceIP ipv6 (st, used) = Ok (st', used') →
  ∃ ip, st' = set_nat_ip ipv6 st ip ∧ used' = {[ip]} ∪ used ∧ reservable (pool ipv6) used ip ∧
        (reservable (pool ipv6) used (nat_ip ipv6 st) → ip = nat_ip ipv6 st).
Proof.
  intros Hpools. destruct (Hpools ipv6) as [Hp Hparse]. unfold ensure_nat.
  rewrite (parse_pool_ok _ _ _ Hp Hparse). cbn [mbind result_bind].
  destruct (validReservedIP _ _ _ _) eqn:E.
  - intros [= <- <-]. apply validReservedIP_spec in E; [|done].
    exists (nat_ip ipv6 st). split_and!; [by destruct ipv6, st|done|done|done].
  - intros H. ok_guard H as Hval%negb_false_iff. injection H as <- <-. eexists. split_and!; [reflexivity..| |].
    + apply firstFreePoolIP_valid in Hval as (? & ? & ? & _); [|apply Hp..]. done.
    + intros Hr. apply (validReservedIP_spec _ _ _ _ Hp) in Hr. congruence.
Qed.
Lemma ensure_nat_fix ipv6 st used : pools_ok st pool → reservable (pool ipv6) used (nat_ip ipv6 st) →
  ensure_nat ServiceIP ipv6 (st, used) = Ok (st, {[nat_ip ipv6 st]} ∪ used).
Proof.
  intros Hpools Hr. destruct (Hpools ipv6) as [Hp Hparse]. unfold ensure_nat.
  rewrite (parse_pool_ok _ _ _ Hp Hparse). cbn [mbind result_bind].
  by rewrite (proj2 (validReservedIP_spec _ _ _ _ Hp) Hr).
Qed.
(** No address of the pool but its base is left. *)
Definition pool_full (p : Prefix) (used : gset Addr) : Prop :=
  ∀ ip, prefix.Contains p ip = true → ip ≠ p_addr p → ip ∈ used.
Lemma no_free_full ipv6 used : pool_ok ipv6 (pool ipv6) → prefix.Contains (pool ipv6) ServiceIP = false →
  addr.IsValid (firstFreePoolIP (pool ipv6) used) = false → pool_full (pool ipv6) used.
Proof.
  intros Hp Hs Hval ip Hc Hne.
  destruct (firstFreePoolIP_spec (pool ipv6) (po_masked _ _ Hp) (po_valid _ _ Hp) used) as [(Hc' & _)|[_ Hall]].
  - apply Contains_addr_valid in Hc'. congruence.
  - destruct (Hall ip Hc Hne) as [?| ->]; [done|congruence].
Qed.
Lemma ensure_nat_err ipv6 st used e : pools_ok st pool → prefix.Contains (pool ipv6) ServiceIP = false →
  ensure_nat ServiceIP ipv6 (st, used) = Err e → e = ENoFreeNAT ipv6 (pool ipv6) ∧ pool_full (pool ipv6) used.
Proof.
  intros Hpools Hs. destruct (Hpools ipv6) as [Hp Hparse]. unfold ensure_nat.
  rewrite (parse_pool_ok _ _ _ Hp Hparse). cbn [mbind result_bind].
  destruct (validReservedIP _ _ _ _); [done|].
  destruct (addr.IsValid (firstFreePoolIP (pool ipv6) used)) eqn:E; [done|].
  intros [= <-]. split; [done|]. by eapply no_free_full.
Qed.

Lemma ensure_dns_ok st used st' : pools_ok st pool → ensure_dns ServiceIP st used = Ok st' →
  ∃ ip, st' = set_DNSIP st ip ∧ reservable (pool false) used ip ∧
        (reservable (pool false) used (st_DNSIP st) → ip = st_DNSIP st).
Proof.
  intros Hpools. destruct (Hpools false) as [Hp Hparse]. unfold ensure_dns. cbn [pool_text] in Hparse.
  rewrite (parse_pool_ok _ _ _ Hp Hparse). cbn [mbind result_bind].
  destruct (validReservedIP _ _ _ _) eqn:E.
  - intros [= <-]. apply validReservedIP_spec in E; [|done]. exists (st_DNSIP st). split_and!; [by destruct st|done|done].
  - intros H. ok_guard H as Hval%negb_false_iff. injection H as <-. eexists. split_and!; [reflexivity| |].
    + destruct (addr.IsValid (poolIPAtOffset _ _) && _) eqn:Hpref.
      * apply andb_true_iff in Hpref as [Hv Hu%negb_true_iff%bool_decide_eq_false].
        apply poolIPAtOffset_valid in Hv as [? ?]; [|apply Hp..|lia]. done.
      * apply firstFreePoolIP_valid in Hval as (? & ? & ? & _); [|apply Hp..]. done.
    + intros Hr. apply (validReservedIP_spec _ _ _ _ Hp) in Hr. congruence.
Qed.
Lemma ensure_dns_fix st used : pools_ok st pool → reservable (pool false) used (st_DNSIP st) →
  ensure_dns ServiceIP st used = Ok st.
Proof.
  intros Hpools Hr. destruct (Hpools false) as [Hp Hparse]. unfold ensure_dns. cbn [pool_text] in Hparse.
  rewrite (parse_pool_ok _ _ _ Hp Hparse). cbn [mbind result_bind].
  by rewrite (proj2 (validReservedIP_spec _ _ _ _ Hp) Hr).
Qed.
Lemma ensure_dns_err st used e : pools_ok st pool →
  ensure_dns ServiceIP st used = Err e → e = ENoFreeDNS (pool false) ∧ pool_full (pool false) used.
Proof.
  intros Hpools. destruct (Hpools false) as [Hp Hparse]. unfold ensure_dns. cbn [pool_text] in Hparse.
  rewrite (parse_pool_ok _ _ _ Hp Hparse). cbn [mbind result_bind].
  destruct (validReservedIP _ _ _ _); [done|]. destruct (addr.IsValid (poolIPAtOffset _ _) && _) eqn:E.
  - apply andb_true_iff in E as [-> _]. done.
  - destruct (addr.IsValid (firstFreePoolIP (pool false) used)) eqn:E'; [done|].
    intros [= <-]. split; [done|]. eapply no_free_full; [done|by apply (po_service _ _ Hp)|done].
Qed.
Lemma pool_full_size ipv6 used : pool_ok ipv6 (pool ipv6) → pool_full (pool ipv6) used →
  psize (pool ipv6) <= Z.of_nat (size used) + 1.
Proof.
  intros [Hm Hv _ _ _ _] Hall. enough (psize (pool ipv6) - 1 <= Z.of_nat (size used)) by lia.
  apply full_pool_size; [done|done|done|]. intros h Hh.
  assert (Hc : prefix.Contains (pool ipv6) (addr_plus (p_addr (pool ipv6)) h) = true).
  { rewrite Contains_plus by (done || lia). lia. }
  apply Hall; [done|]. apply (proj2 (contains_not_base _ Hm Hv _ Hc)).
  destruct (addr_plus_in (pool ipv6) h Hm Hv) as [-> _]; lia.
Qed.

(** The three addresses, each chosen after the ones before it. *)
Lemma ensure_steps st st' : pools_ok st pool → ensureHostIPs st = Ok st' →
  let leased := leased_ips (st_Leases st) in
  ∃ a b c, st' = set_DNSIP (set_NATIPv6 (set_NATIP st a) b) c ∧
    reservable (pool false) leased a ∧ reservable (pool true) ({[a]} ∪ leased) b ∧
    reservable (pool false) ({[b]} ∪ ({[a]} ∪ leased)) c ∧
    (reservable (pool false) leased (st_NATIP st) → a = st_NATIP st) ∧
    (reservable (pool true) ({[a]} ∪ leased) (st_NATIPv6 st) → b = st_NATIPv6 st).
Proof.
  intros Hpools H leased. unfold HostPools.ensureHostIPs in H.
  apply bind_ok_inv in H as ([st1 used1] & H1 & H). apply bind_ok_inv in H as ([st2 used2] & H2 & H3).
  apply ensure_nat_ok in H1 as (a & -> & -> & Ha & Hka); [|done].
  assert (Hpools1 : pools_ok (set_nat_ip false st a) pool) by (intros ipv6; destruct (Hpools ipv6); by destruct ipv6).
  apply ensure_nat_ok in H2 as (b & -> & -> & Hb & Hkb); [|done].
  assert (Hpools2 : pools_ok (set_nat_ip true (set_nat_ip false st a) b) pool)
    by (intros ipv6; destruct (Hpools ipv6); by destruct ipv6).
  apply ensure_dns_ok in H3 as (c & -> & Hc & _); [|done]. by exists a, b, c.
Qed.
Lemma ensure_fix st : pools_ok st pool → let leased := leased_ips (st_Leases st) in
  reservable (pool false) leased (st_NATIP st) → reservable (pool true) ({[st_NATIP st]} ∪ leased) (st_NATIPv6 st) →
  reservable (pool false) ({[st_NATIPv6 st]} ∪ ({[st_NATIP st]} ∪ leased)) (st_DNSIP st) → ensureHostIPs st = Ok st.
Proof.
  intros Hpools leased Ha Hb Hc. unfold HostPools.ensureHostIPs.
  rewrite ensure_nat_fix by done. cbn [mbind result_bind nat_ip]. rewrite ensure_nat_fix by done.
  cbn [mbind result_bind nat_ip]. by apply ensure_dns_fix.
Qed.
(** What is set does not change the pools or the leases. *)
Lemma ensure_again st st' : pools_ok st pool → ensureHostIPs st = Ok st' → ensureHostIPs st' = Ok st'.
Proof.
  intros Hpools (a & b & c & -> & Ha & Hb & Hc & _)%ensure_steps; [|done].
  by apply ensure_fix.
Qed.
End ensure.

(** On the pools [configureSyntheticPools] leaves, [ensureHostIPs] gives the
    daemon an address of each family and a resolver address that lie in their
    pools, are not a pool's base, are pairwise distinct and leased to no node;
    an address that is good already is kept, nothing else changes, and a second
    call changes nothing. *)
Theorem ensureHostIPs_sound (st st' : State) (pool : bool → Prefix) :
  pools_ok st pool → ensureHostIPs st = Ok st' →
  let leased := leased_ips (st_Leases st) in
  (∀ ipv6, reservable (pool ipv6) leased (nat_ip ipv6 st')) ∧
  reservable (pool false) leased (st_DNSIP st') ∧ st_DNSIP st' ≠ st_NATIP st' ∧
  (∀ ipv6, reservable (pool ipv6) leased (nat_ip ipv6 st) → nat_ip ipv6 st' = nat_ip ipv6 st) ∧
  st' = set_DNSIP (set_NATIPv6 (set_NATIP st (st_NATIP st')) (st_NATIPv6 st')) (st_DNSIP st') ∧
  ensureHostIPs st' = Ok st'.
Proof.
  intros Hpools H leased. pose proof (ensure_again pool st st' Hpools H) as Hagain.
  apply (ensure_steps pool) in H as (a & b & c & -> & Ha & Hb & Hc & Hka & Hkb); [|done]. fold leased in Ha, Hb, Hc.
  split_and!; [| | | |done|done]; cbn [st_NATIP st_DNSIP set_DNSIP set_NATIP set_NATIPv6 st_NATIPv6].
  - intros []; cbn; [|done]. destruct Hb as (? & ? & ?). split_and!; [done..|set_solver].
  - destruct Hc as (? & ? & ?). split_and!; [done..|set_solver].
  - destruct Hc as (_ & _ & Hu). set_solver.
  - intros []; cbn; [|by intros ?%Hka]. intros (Hi & Hne & Hu). apply Hkb. split_and!; [done|done|].
    fold leased. intros [Heq%elem_of_singleton|?]%elem_of_union; [|done].
    apply (pools_disjoint pool st (st_NATIPv6 st) Hpools); [rewrite Heq; apply Ha|done].
Qed.

Lemma size_add (X : gset Addr) ip : (size ({[ip]} ∪ X) <= S (size X))%nat.
Proof.
  rewrite size_union_alt, size_singleton. pose proof (subseteq_size (X ∖ {[ip]}) X ltac:(set_solver)). lia.
Qed.
Lemma size_leased ls : (size (leased_ips ls) <= length ls)%nat.
Proof.
  unfold leased_ips. induction ls as [|l ls IH]; [done|]. rewrite fmap_cons, filter_cons.
  destruct (decide _); cbn [list_to_set length]; [|lia]. etrans; [apply size_add|]. lia.
Qed.

(** On such pools [ensureHostIPs] fails only when a pool is full: every
    address of it but the base is leased, or all but one that the host side of
    the NAT needs.  So three addresses more than there are leases, counting the
    base, always suffice. *)
Theorem ensureHostIPs_room (st : State) (pool : bool → Prefix) :
  addr.Is4 ServiceIP = true → pools_ok st pool →
  let leased := leased_ips (st_Leases st) in
  match ensureHostIPs st with
  | Ok _ => True
  | Err e => (∃ ipv6, e = ENoFreeNAT ipv6 (pool ipv6) ∧ pool_full (pool ipv6) leased) ∨
             (e = ENoFreeDNS (pool false) ∧ ∃ nat, pool_full (pool false) ({[nat]} ∪ leased))
  end ∧
  ((∀ ipv6, Z.of_nat (length (st_Leases st)) + 3 <= psize (pool ipv6)) → is_ok (ensureHostIPs st) = true).
Proof.
  intros H4 Hpools leased.
  assert (Hs : ∀ ipv6, prefix.Contains (pool ipv6) ServiceIP = false).
  { intros []; [|by apply (po_service _ _ (proj1 (Hpools false)))].
    destruct (prefix.Contains (pool true) ServiceIP) eqn:E; [|done]. apply Contains_BitLen, Is6_BitLen in E.
    rewrite (po_family _ _ (proj1 (Hpools true))) in E. by destruct ServiceIP. }
  assert (Herr : match ensureHostIPs st with
    | Ok _ => True
    | Err e => (∃ ipv6, e = ENoFreeNAT ipv6 (pool ipv6) ∧ pool_full (pool ipv6) leased) ∨
               (e = ENoFreeDNS (pool false) ∧ ∃ nat, pool_full (pool false) ({[nat]} ∪ leased))
    end).
  { unfold HostPools.ensureHostIPs. fold leased.
    destruct (ensure_nat ServiceIP false (st, leased)) as [[st1 used1]|e] eqn:E1; cbn [mbind result_bind].
    2:{ apply (ensure_nat_err pool) in E1 as [-> ?]; [|done..]. left. by exists false. }
    apply (ensure_nat_ok pool) in E1 as (a & E1 & -> & Ha & _); [|done].
    assert (Hpools1 : pools_ok st1 pool) by (intros ipv6; rewrite E1; destruct (Hpools ipv6); by destruct ipv6).
    destruct (ensure_nat ServiceIP true _) as [[st2 used2]|e] eqn:E2; cbn [mbind result_bind].
    2:{ apply (ensure_nat_err pool) in E2 as [-> Hfull]; [|done..]. left. exists true. split; [done|].
        intros ip Hc Hne. destruct (proj1 (elem_of_union _ _ _) (Hfull ip Hc Hne)) as [Heq%elem_of_singleton|?]; [|done].
        exfalso. apply (pools_disjoint pool st ip Hpools); [rewrite Heq; apply Ha|done]. }
    apply (ensure_nat_ok pool) in E2 as (b & E2 & -> & Hb & _); [|done].
    assert (Hpools2 : pools_ok st2 pool) by (intros ipv6; rewrite E2; destruct (Hpools1 ipv6); by destruct ipv6).
    destruct (ensure_dns ServiceIP st2 _) as [?|e] eqn:E3; [done|].
    apply (ensure_dns_err pool) in E3 as [-> Hfull]; [|done]. right. split; [done|]. exists a.
    intros ip Hc Hne. destruct (proj1 (elem_of_union _ _ _) (Hfull ip Hc Hne)) as [Heq%elem_of_singleton|?]; [|done].
    exfalso. apply (pools_disjoint pool st ip Hpools); [done|rewrite Heq; apply Hb]. }
  split; [done|]. intros Hroom. destruct (ensureHostIPs st) as [|e]; [done|]. exfalso.
  pose proof (size_leased (st_Leases st)) as Hsize. fold leased in Hsize.
  destruct Herr as [(ipv6 & _ & Hfull)|[_ [a Hfull]]]; apply pool_full_size in Hfull; try apply (proj1 (Hpools _)).
  - specialize (Hroom ipv6). lia.
  - specialize (Hroom false). pose proof (size_add leased a). lia.
Qed.
End facts.

(** ** Witnesses *)

Definition service_ip : Addr := Addr4 1684301156.
(** A fresh state on its default pools, and one lease. *)
Definition fresh_state : State :=
  set_Leases zero_state [MkEffectiveLease "work" "peer" (Addr4 1681915905) (Addr4 1686044673)].
Definition default_state : State :=
  set_SyntheticPoolV6 (set_SyntheticPool fresh_state "100.127.0.0/16") "fd6d:6e65:7400::/56".
Definition default_prefix (ipv6 : bool) : Prefix :=
  if ipv6 then MkPrefix (Addr6 336862882394165088819893769468467216384 "") 56 else MkPrefix (Addr4 1686044672) 16.
Lemma default_pools_ok : pools_ok service_ip default_state default_prefix.
Proof. intros []; split; [constructor; try split; done|by vm_compute|constructor; try split; done|by vm_compute]. Qed.

(** A fresh state with an override of the IPv4 pool. *)
Definition overridden : State :=
  match configureSyntheticPools service_ip fresh_state " 10.250.1.9/16" "" with Ok st => st | Err _ => zero_state end.
Lemma configureSyntheticPools_sound_witness :
  pool_text false overridden = "10.250.0.0/16" ∧ st_Leases overridden = [] ∧
  configureSyntheticPools service_ip overridden "" "" = Ok overridden.
Proof.
  split; [vm_compute; reflexivity|]. split; [vm_compute; reflexivity|].
  assert (H : configureSyntheticPools service_ip fresh_state " 10.250.1.9/16" "" = Ok overridden) by (vm_compute; reflexivity).
  exact (proj2 (proj2 (proj2 (configureSyntheticPools_sound service_ip fresh_state overridden _ _ H)))).
Defined.

Definition hosted : State := match ensureHostIPs service_ip default_state with Ok st => st | Err _ => zero_state end.
Lemma ensureHostIPs_sound_witness :
  st_DNSIP hosted = Addr4 1686044725 ∧ st_DNSIP hosted ≠ st_NATIP hosted ∧ ensureHostIPs service_ip hosted = Ok hosted.
Proof.
  split; [vm_compute; reflexivity|].
  assert (H : ensureHostIPs service_ip default_state = Ok hosted) by (vm_compute; reflexivity).
  pose proof (ensureHostIPs_sound service_ip default_state hosted default_prefix default_pools_ok H) as (_ & _ & Hne & _ & _ & Hfix).
  exact (conj Hne Hfix).
Defined.

Lemma ensureHostIPs_room_witness : is_ok (ensureHostIPs service_ip default_state) = true.
Proof.
  apply (ensureHostIPs_room service_ip default_state default_prefix eq_refl default_pools_ok).
  intros []; vm_compute; discriminate.
Defined.
