(* ===== verification/FilePath.v ===== *)
(** * File paths

    What the daemon uses of [path/filepath] on slash-separated paths ([Clean],
    [Join], [Dir], [Abs], [Rel]), and what these functions compute on the
    elements of a path.  The working directory is a parameter. *)

From S2P Require Import Prelude GoStrings DNSName.

Definition slash : Ascii.ascii := "/"%char.
Definition IsAbs (p : string) : bool := HasPrefix p "/".
(** An element of a path, on the stack of those before it: empty ones and dots
    vanish, two dots take the element before away. *)
Definition clean_step (rooted : bool) (stack : list string) (e : string) : list string :=
  if String.eqb e "" || String.eqb e "." then stack
  else if String.eqb e ".." then
    match stack with
    | [] => if rooted then [] else [".."]
    | top :: rest => if String.eqb top ".." then ".." :: stack else rest
    end
  else e :: stack.
Definition path_elements (p : string) : list string := reverse (foldl (clean_step (IsAbs p)) [] (Split p slash)).
Definition Clean (p : string) : string :=
  if IsAbs p then "/" +:+ JoinStr "/" (path_elements p)
  else match path_elements p with [] => "." | l => JoinStr "/" l end.
(** Leading empty elements are skipped. *)
Fixpoint Join (l : list string) : string :=
  match l with
  | [] => ""
  | e :: rest => if String.eqb e "" then Join rest else Clean (JoinStr "/" l)
  end.
Definition Dir (p : string) : string := Clean (TrimRight (λ c, negb (char_eqb c slash)) p).
(** [wd] is the working directory, if it is known. *)
Definition Abs (wd : option string) (p : string) : option string :=
  if IsAbs p then Some (Clean p) else wd ← wd; Some (Join [wd; p]).
Fixpoint drop_common (a b : list string) : list string * list string :=
  match a, b with
  | x :: a', y :: b' => if String.eqb x y then drop_common a' b' else (a, b)
  | _, _ => (a, b)
  end.
(** [filepath.Rel] from an absolute path; [None] when the other is relative. *)
Definition Rel (base targ : string) : option string :=
  if negb (IsAbs targ) then None
  else
    let '(up, down) := drop_common (path_elements base) (path_elements targ) in
    Some (match replicate (length up) ".." ++ down with [] => "." | l => JoinStr "/" l end).
(** [relative == ".." || strings.HasPrefix(relative, "../")]. *)
Definition outside (relative : string) : bool := String.eqb relative ".." || HasPrefix relative "../".

(** ** What the functions compute *)

(** An element of a cleaned absolute path. *)
Definition plain_elem (e : string) : Prop := e ≠ "" ∧ e ≠ "." ∧ e ≠ ".." ∧ slash ∉ chars e.
Definition absolute (p : string) : Prop := IsAbs p = true.
Lemma absolute_app p q : absolute p → absolute (p +:+ q).
Proof.
  unfold absolute, IsAbs, HasPrefix. rewrite chars_app. destruct (chars p) as [|c k]; cbn; [done|].
  done.
Qed.
(** [p] is [dir] or below it. *)
Definition within (dir p : string) : Prop := path_elements dir `prefix_of` path_elements p.

Lemma split_char_slashless l e : e ∈ split_char slash l → slash ∉ e.
Proof.
  revert e. induction l as [|x l IH]; intros e; cbn [split_char].
  - intros ->%list_elem_of_singleton. apply not_elem_of_nil.
  - destruct (char_eqb x slash) eqn:Ex.
    + intros [->|He]%elem_of_cons; [apply not_elem_of_nil|by apply IH].
    + apply char_eqb_neq in Ex. destruct (split_char slash l) as [|q qs].
      * intros ->%list_elem_of_singleton. rewrite not_elem_of_cons. split; [congruence|apply not_elem_of_nil].
      * intros [->|He]%elem_of_cons; [|apply IH; by right]. rewrite not_elem_of_cons. split; [congruence|]. apply IH. by left.
Qed.
Lemma split_char_mid a b : split_char slash (a ++ slash :: b) = split_char slash a ++ split_char slash b.
Proof.
  induction a as [|x a IH]; cbn [split_char app]; [done|]. rewrite IH. destruct (char_eqb x slash); [done|].
  destruct (split_char slash a) as [|q qs] eqn:E; [|done]. by destruct a as [|y a]; [|cbn in E; destruct (char_eqb y slash), (split_char slash a)].
Qed.
Lemma Split_mid a b : Split (a +:+ "/" +:+ b) slash = Split a slash ++ Split b slash.
Proof. unfold Split. rewrite !chars_app, <-fmap_app. f_equal. apply split_char_mid. Qed.
Lemma Split_none e : slash ∉ chars e → Split e slash = [e].
Proof. intros He. unfold Split. rewrite split_char_none; [|done]. cbn. by rewrite text_chars. Qed.
Lemma Split_slashless p e : e ∈ Split p slash → slash ∉ chars e.
Proof. intros (l & -> & Hl)%list_elem_of_fmap. rewrite chars_text. by eapply split_char_slashless. Qed.
Lemma Split_path l : l ≠ [] → Forall plain_elem l → Split (JoinStr "/" l) slash = l.
Proof.
  induction l as [|e [|e' l] IH]; intros Hne Hl; [done| |]; apply Forall_cons in Hl as [(_ & _ & _ & He) Hl].
  - by apply Split_none.
  - cbn [JoinStr] in *. rewrite Split_mid, Split_none, IH; [done..|exact He].
Qed.

Lemma clean_step_plain rooted stack e : plain_elem e → clean_step rooted stack e = e :: stack.
Proof.
  intros (H1 & H2 & H3 & _). unfold clean_step. by rewrite !(proj2 (String.eqb_neq _ _)).
Qed.
Lemma clean_foldl_plain rooted l stack : Forall plain_elem l → foldl (clean_step rooted) stack l = reverse l ++ stack.
Proof.
  revert stack. induction l as [|e l IH]; intros stack Hl; cbn [foldl]; [done|]. apply Forall_cons in Hl as [He Hl].
  rewrite clean_step_plain, IH, reverse_cons, <-app_assoc; done.
Qed.
Lemma clean_foldl_ok l stack : Forall plain_elem stack → (∀ e, e ∈ l → slash ∉ chars e) →
  Forall plain_elem (foldl (clean_step true) stack l).
Proof.
  revert stack. induction l as [|e l IH]; intros stack Hs Hl; cbn; [done|].
  apply IH; [|intros e' He'; apply Hl; by right]. unfold clean_step.
  destruct (String.eqb_spec e ""); [done|]. destruct (String.eqb_spec e "."); [done|]. cbn.
  destruct (String.eqb_spec e "..").
  - destruct stack as [|top rest]; [done|]. apply Forall_cons in Hs as [(_ & _ & Ht & _) Hs].
    by rewrite (proj2 (String.eqb_neq _ _)).
  - constructor; [|done]. split_and!; [done..|]. apply Hl. by left.
Qed.
Lemma elements_plain p : absolute p → Forall plain_elem (path_elements p).
Proof.
  intros Hp. unfold path_elements. rewrite Hp. apply Forall_reverse, clean_foldl_ok; [done|]. apply Split_slashless.
Qed.
Lemma clean_foldl_nonempty rooted l stack : Forall (λ e, e ≠ "") stack → Forall (λ e, e ≠ "") (foldl (clean_step rooted) stack l).
Proof.
  revert stack. induction l as [|e l IH]; intros stack Hs; cbn; [done|]. apply IH. unfold clean_step.
  destruct (String.eqb_spec e ""); [done|]. destruct (String.eqb e "."); [done|]. cbn. destruct (String.eqb e ".."); [|by constructor].
  destruct stack as [|top rest]; [by destruct rooted; repeat constructor|]. apply Forall_cons in Hs as [? ?].
  destruct (String.eqb top ".."); by repeat constructor.
Qed.
Lemma Clean_nonempty p : Clean p ≠ "".
Proof.
  unfold Clean, path_elements. destruct (IsAbs p); [done|].
  pose proof (proj2 (Forall_reverse _ _) (clean_foldl_nonempty false (Split p slash) [] ltac:(constructor))) as He.
  destruct (reverse _) as [|e [|e' l]]; [done| |]; apply Forall_cons in He as [He _]; [done|].
  cbn. by destruct e.
Qed.
(** Below an absolute path. *)
Lemma elements_below p l : absolute p → Forall plain_elem l → l ≠ [] →
  path_elements (p +:+ "/" +:+ JoinStr "/" l) = path_elements p ++ l ∧ absolute (p +:+ "/" +:+ JoinStr "/" l).
Proof.
  intros Hp Hl Hne. pose proof (absolute_app p ("/" +:+ JoinStr "/" l) Hp) as Ha.
  split; [|done]. unfold path_elements. unfold absolute in *. rewrite Ha, Hp, Split_mid, foldl_app, (Split_path l) by done. rewrite clean_foldl_plain by done.
  by rewrite reverse_app, reverse_involutive.
Qed.
Lemma elements_render l : Forall plain_elem l → path_elements ("/" +:+ JoinStr "/" l) = l.
Proof.
  intros Hl. destruct (decide (l = [])) as [->|Hne]; [reflexivity|].
  unfold path_elements. change (IsAbs ("/" +:+ JoinStr "/" l)) with true. rewrite (Split_mid "" (JoinStr "/" l) : Split ("/" +:+ _) _ = _).
  rewrite (Split_path l), foldl_app, clean_foldl_plain by done. cbn. by rewrite app_nil_r, reverse_involutive.
Qed.
Lemma Clean_render p : absolute p → Clean p = "/" +:+ JoinStr "/" (path_elements p).
Proof. intros Hp. unfold Clean. by rewrite Hp. Qed.
Lemma Clean_absolute p : absolute p → absolute (Clean p) ∧ path_elements (Clean p) = path_elements p ∧ Clean (Clean p) = Clean p.
Proof.
  intros Hp. rewrite !(Clean_render p Hp). pose proof (elements_render _ (elements_plain p Hp)) as He.
  split_and!; [done|done|]. by rewrite Clean_render, He.
Qed.
Lemma clean_eq p q : absolute p → absolute q → Clean p = p → Clean q = q → path_elements p = path_elements q → p = q.
Proof. intros Hp Hq Ep Eq He. by rewrite <-Ep, <-Eq, (Clean_render p Hp), (Clean_render q Hq), He. Qed.
Lemma Join_absolute d l : absolute d → Join (d :: l) = Clean (JoinStr "/" (d :: l)).
Proof. intros Hd. cbn [Join]. by rewrite (proj2 (String.eqb_neq d "")) by (by intros ->). Qed.

Definition wd_ok (wd : option string) : Prop := ∀ d, wd = Some d → absolute d.
Lemma Abs_ok wd p q : wd_ok wd → Abs wd p = Some q → absolute q ∧ Clean q = q.
Proof.
  intros Hwd. unfold Abs. destruct (IsAbs p) eqn:Hp.
  - intros [= <-]. destruct (Clean_absolute p Hp) as (? & _ & ?). done.
  - destruct wd as [d|]; [|done]. intros Hq. assert (q = Join [d; p]) as -> by (cbn -[Join] in Hq; congruence). pose proof (Hwd d eq_refl) as Hd.
    rewrite Join_absolute by done. pose proof (absolute_app d ("/" +:+ p) Hd : absolute (JoinStr "/" [d; p])) as Ha.
    destruct (Clean_absolute _ Ha) as (? & _ & ?). done.
Qed.

Lemma drop_common_spec a b : ∃ c, a = c ++ (drop_common a b).1 ∧ b = c ++ (drop_common a b).2 ∧
  match (drop_common a b).1, (drop_common a b).2 with x :: _, y :: _ => x ≠ y | _, _ => True end.
Proof.
  revert b. induction a as [|x a IH]; intros [|y b]; cbn [drop_common]; try (by exists []).
  destruct (String.eqb_spec x y) as [->|Hne]; [|by exists []].
  destruct (IH b) as (c & Ha & Hb & Hd). exists (y :: c). cbn. split_and!; [by f_equal|by f_equal|done].
Qed.
Lemma list_prefix_elem p l c : list_prefix p l = true → c ∈ p → c ∈ l.
Proof.
  revert l. induction p as [|a p IH]; intros [|b l]; cbn -[char_eqb]; try done; [by intros _ ?%elem_of_nil|].
  rewrite andb_true_iff, char_eqb_eq. intros [-> Hp] [->|Hc]%elem_of_cons; [by left|right; by apply IH].
Qed.
Lemma JoinStr_head x l : JoinStr "/" (x :: l) = x ∨ ∃ r, JoinStr "/" (x :: l) = x +:+ "/" +:+ r.
Proof. destruct l as [|y l]; [by left|right]. by eexists. Qed.
Lemma outside_head x l : slash ∉ chars x → outside (JoinStr "/" (x :: l)) = String.eqb x "..".
Proof.
  intros Hx. unfold outside. destruct (JoinStr_head x l) as [->|(r & ->)].
  - destruct (String.eqb_spec x ".."); [done|]. cbn [orb]. apply not_true_iff_false. intros Hp. unfold HasPrefix in Hp.
    apply Hx, (list_prefix_elem _ _ _ Hp). right. right. by left.
  - destruct (String.eqb_spec x "..") as [->|Hne]; [by rewrite orb_true_r|].
    assert (Hc : chars x ≠ ["."; "."]%char) by (intros Hc; apply Hne; by rewrite <-(text_chars x), Hc).
    rewrite orb_false_iff. split.
    + apply String.eqb_neq. intros Heq. apply (f_equal chars) in Heq. rewrite !chars_app in Heq.
      assert (Hin : slash ∈ chars "..") by (rewrite <-Heq; apply elem_of_app; right; by left).
      cbn in Hin. rewrite !elem_of_cons, elem_of_nil in Hin. by destruct Hin as [?|[?|[]]].
    + apply not_true_iff_false. unfold HasPrefix. rewrite !chars_app. change (chars "../") with ["."; "."; slash]%char.
      destruct (chars x) as [|a [|b [|c k]]]; cbn -[char_eqb]; rewrite ?andb_true_iff, ?char_eqb_eq; intros Hp;
        destruct_and?; simplify_eq; try done.
      apply Hx. right. right. by left.
Qed.
Lemma Rel_spec base targ : absolute base → absolute targ → ∃ r, Rel base targ = Some r ∧
  (outside r = false ↔ within base targ) ∧ (r = "." ↔ path_elements base = path_elements targ).
Proof.
  intros Hb Ht. unfold Rel, within. rewrite Ht. cbn [negb].
  destruct (drop_common_spec (path_elements base) (path_elements targ)) as (c & Eb & Et & Hd).
  pose proof (elements_plain _ Hb) as Pb. pose proof (elements_plain _ Ht) as Pt.
  destruct (drop_common _ _) as [up down]. cbn [fst snd] in *. rewrite Eb, Et in *. clear Eb Et.
  eexists. split; [done|]. apply Forall_app in Pb as [_ Pu]. apply Forall_app in Pt as [_ Pd].
  destruct up as [|u up]; cbn [length replicate app].
  - rewrite app_nil_r. split.
    + split; intros _; [by eexists|]. destruct down as [|d down]; [done|]. apply Forall_cons in Pd as [(_ & _ & Hd2 & Hs) _].
      rewrite outside_head by done. by apply String.eqb_neq.
    + destruct down as [|d down]; [by rewrite app_nil_r|]. apply Forall_cons in Pd as [(_ & Hd2 & _ & Hs) _].
      split; [|intros Hc; exfalso; apply (f_equal length) in Hc; rewrite length_app in Hc; cbn in Hc; lia].
      destruct (JoinStr_head d down) as [->|(r & ->)]; [done|]. intros Heq. apply (f_equal chars) in Heq. rewrite !chars_app in Heq.
      exfalso. assert (Hin : slash ∈ chars ".") by (rewrite <-Heq; apply elem_of_app; right; by left).
      cbn in Hin. by rewrite elem_of_cons, elem_of_nil in Hin; destruct Hin as [?|[]].
  - assert (Hout : outside (JoinStr "/" (".." :: (replicate (length up) ".." ++ down))) = true).
    { rewrite outside_head; [reflexivity|]. apply (bool_decide_unpack _). vm_compute. exact I. }
    assert (Hnp : ¬ c ++ u :: up `prefix_of` c ++ down).
    { intros Hp%prefix_app_inv. destruct Hp as (k & ->). cbn in Hd. congruence. }
    split; [rewrite Hout; split; [done|intros Hp; by destruct (Hnp Hp)]|]. split.
    + intros Hr. rewrite Hr in Hout. done.
    + intros Heq. destruct Hnp. by rewrite Heq.
Qed.
