(* ===== verification/ProfileSpec.v ===== *)
(** * Profile specifications and the start of the daemon

    cmd/tailmixd/main.go: the profiles of the command line ([parseProfileSpec]),
    how they combine with the stored ones ([resolveProfiles], [dnsLabel]), and
    the state a start computes from the loaded one ([run]).  The runtime profile
    leaves out its engine and TUN, which the supervisor fills in. *)

From S2P Require Import Prelude GoStrings FilePath Netip NetipText State HostPools.
Local Open Scope Z_scope.

Record profileSpec : Type := MkSpec {
  sp_ID : string; sp_Alias : string; sp_Dir : string; sp_Hostname : string;
  sp_MagicDNSSuffix : string; sp_AuthKeyEnv : string }.
Definition empty_spec : profileSpec := MkSpec "" "" "" "" "" "".

Inductive spec_error : Type :=
  | EEmptyConfig
  | ENotKeyValue (part : string)
  | EFieldEmpty (key : string)
  | EUnknownField (key : string)
  | ENoIDOrAlias
  | EStoredID.

(** ** parseProfileSpec *)

Inductive spec_field : Type := FID | FAlias | FDir | FHostname | FSuffix | FAuthKeyEnv.
Definition field_of (key : string) : option spec_field :=
  if String.eqb key "id" then Some FID
  else if String.eqb key "alias" then Some FAlias
  else if (key ∈? ["dir"; "state-dir"; "statedir"]) then Some FDir
  else if String.eqb key "hostname" then Some FHostname
  else if (key ∈? ["suffix"; "magicdns-suffix"; "magic-dns-suffix"]) then Some FSuffix
  else if (key ∈? ["auth-key-env"; "authkey-env"]) then Some FAuthKeyEnv
  else None.
Definition set_field (s : profileSpec) (f : spec_field) (v : string) : profileSpec :=
  let '(MkSpec i a d h m k) := s in
  match f with
  | FID => MkSpec v a d h m k
  | FAlias => MkSpec i v d h m k
  | FDir => MkSpec i a v h m k
  | FHostname => MkSpec i a d v m k
  | FSuffix => MkSpec i a d h v k
  | FAuthKeyEnv => MkSpec i a d h m v
  end.
Definition parse_part (spec : profileSpec) (part : string) : result spec_error profileSpec :=
  let '(key, value, ok) := Cut part "="%char in
  if negb ok then Err (ENotKeyValue part)
  else
    let key := ToLower (TrimSpace key) in
    let value := TrimSpace value in
    if String.eqb value "" then Err (EFieldEmpty key)
    else match field_of key with
         | Some f => Ok (set_field spec f value)
         | None => Err (EUnknownField key)
         end.
Definition parseProfileSpec (raw : string) : result spec_error profileSpec :=
  if String.eqb (TrimSpace raw) "" then Err EEmptyConfig
  else
    spec ← foldM parse_part (Split raw ","%char) empty_spec;
    let spec := if String.eqb (sp_ID spec) "" then set_field spec FID (sp_Alias spec) else spec in
    let spec := if String.eqb (sp_Alias spec) "" then set_field spec FAlias (sp_ID spec) else spec in
    if String.eqb (sp_ID spec) "" then Err ENoIDOrAlias else Ok spec.
(** [profileFlag.Set]. *)
Definition flag_Set (f : list profileSpec) (raw : string) : result spec_error (list profileSpec) :=
  spec ← parseProfileSpec raw; Ok (f ++ [spec]).

(** ** dnsLabel *)

Definition label_char (c : Ascii.ascii) : bool := is_lower c || is_digit c.
Definition hyphen : Ascii.ascii := "-"%char.
Definition is_hyphen (c : Ascii.ascii) : bool := char_eqb c hyphen.
(** One iteration; the text built so far is in reverse. *)
Definition label_step (s : list Ascii.ascii * bool) (r : Ascii.ascii) : list Ascii.ascii * bool :=
  let '(b, lastHyphen) := s in
  if label_char r then (r :: b, false)
  else if negb lastHyphen && (0 <? length b)%nat then (hyphen :: b, true)
  else s.
Definition dnsLabel (s : string) : string :=
  let b := text (reverse (foldl label_step ([], false) (chars (ToLower s))).1) in
  let label := Trim is_hyphen b in
  let label := if String.eqb label "" then "profile" else label in
  if (58 <? str_len label)%nat then TrimRight is_hyphen (text (take 58 (chars label))) else label.

(** ** resolveProfiles *)

Record runtimeProfile : Type := MkRuntime { rt_State : Profile; rt_AuthKeyEnv : string }.
Definition zero_profile : Profile := MkProfile "" "" "" "" "" "" "" false false false false None "" false.
Definition zero_runtime : runtimeProfile := MkRuntime zero_profile "".

Definition or_else (new old : string) : string := if String.eqb new "" then old else new.
Definition apply_spec (rp : runtimeProfile) (s : profileSpec) : runtimeProfile :=
  let p := rt_State rp in
  MkRuntime (MkProfile (if String.eqb (pr_ID p) "" then sp_ID s else pr_ID p) (pr_Name p)
    (or_else (sp_Alias s) (pr_Alias p)) (pr_Kind p) (or_else (sp_Dir s) (pr_StateDir p))
    (or_else (sp_Hostname s) (pr_Hostname p)) (or_else (sp_MagicDNSSuffix s) (pr_MagicDNSSuffix p))
    (pr_Disabled p) (pr_Removed p) (pr_AcceptAllRoutes p) (pr_AcceptAllDNSRoutes p) (pr_WireGuard p)
    (pr_WireGuardSecretFile p) (pr_WireGuardShieldsUp p)) (sp_AuthKeyEnv s).
Definition profile_defaults (baseDir : string) (rp : runtimeProfile) : runtimeProfile :=
  let p := rt_State rp in
  MkRuntime (MkProfile (pr_ID p) (pr_Name p) (or_else (pr_Alias p) (pr_ID p)) (pr_Kind p)
    (or_else (pr_StateDir p) (Join [baseDir; pr_ID p]))
    (or_else (pr_Hostname p) ("tailmix-" +:+ dnsLabel (pr_ID p))) (pr_MagicDNSSuffix p)
    (pr_Disabled p) (pr_Removed p) (pr_AcceptAllRoutes p) (pr_AcceptAllDNSRoutes p) (pr_WireGuard p)
    (pr_WireGuardSecretFile p) (pr_WireGuardShieldsUp p)) (rt_AuthKeyEnv rp).

Notation by_id := (gmap string runtimeProfile).
Definition add_stored (s : by_id * list string) (p : Profile) : result spec_error (by_id * list string) :=
  let '(byID, order) := s in
  if String.eqb (pr_ID p) "" then Err EStoredID
  else Ok (<[pr_ID p := MkRuntime p ""]> byID,
           match byID !! pr_ID p with Some _ => order | None => order ++ [pr_ID p] end).
Definition add_spec (s : by_id * list string) (spec : profileSpec) : by_id * list string :=
  let '(byID, order) := s in
  let rp := default zero_runtime (byID !! sp_ID spec) in
  (<[sp_ID spec := apply_spec rp spec]> byID,
   if String.eqb (pr_ID (rt_State rp)) "" then order ++ [sp_ID spec] else order).
Definition baseDir_of (statePath : string) : string := Join [Dir statePath; "profiles"].
Definition resolveProfiles (st : State) (specs : list profileSpec) (statePath : string) :
    result spec_error (list runtimeProfile) :=
  s ← foldM add_stored (st_Profiles st) (∅, []);
  let '(byID, order) := foldl add_spec s specs in
  let out := (λ id, profile_defaults (baseDir_of statePath) (default zero_runtime (byID !! id))) <$> order in
  Ok (go_sort (less_key (λ rp, pr_ID (rt_State rp))) out).

Definition stateProfiles (profiles : list runtimeProfile) : list Profile := rt_State <$> profiles.

(** ** The state a start computes *)

Inductive start_error : Type := EStartPools (e : pool_error) | EStartProfiles (e : spec_error).
Definition set_Updates (st : State) (x : UpdateState) : State :=
  MkState (st_Down st) (st_SyntheticPool st) (st_SyntheticPoolV6 st) (st_NATIP st) (st_NATIPv6 st) (st_DNSIP st)
    (st_Profiles st) (st_Leases st) (st_IPRouteBindings st) (st_DNSRouteBindings st) (st_SearchDomains st)
    (st_ExitNode st) x.
Definition reset_updates (st : State) : State :=
  let u := st_Updates st in
  if (u_State u ∈? ["checking"; "applying"; "restarting"])
  then set_Updates st (MkUpdateState (u_Disabled u) "" "idle" (u_LastChecked u) (u_LastError u)) else st.
(** From the loaded state to the one that is saved, before the supervisor runs. *)
Definition startup (ServiceIP : Addr) (st : State) (o4 o6 : string) (specs : list profileSpec) (statePath : string) :
    result start_error (State * list runtimeProfile) :=
  st ← wrap EStartPools (configureSyntheticPools ServiceIP (reset_updates st) o4 o6);
  runtimeProfiles ← wrap EStartProfiles (resolveProfiles st specs statePath);
  st ← wrap EStartPools (ensureHostIPs ServiceIP (set_Profiles st (stateProfiles runtimeProfiles)));
  Ok (st, runtimeProfiles).

(** ** Specifications *)

(** Every parsed specification has an identifier and an alias, so the lists
    that [resolveProfiles] is called with have identifiers throughout. *)
Lemma parseProfileSpec_id raw spec : parseProfileSpec raw = Ok spec → sp_ID spec ≠ "" ∧ sp_Alias spec ≠ "".
Proof.
  unfold parseProfileSpec. destruct (String.eqb (TrimSpace raw) ""); [done|]. intros H. ok_inv H as s Hs.
  destruct s as [i a d h m k]. cbn [sp_ID sp_Alias set_field] in H.
  destruct (String.eqb_spec i "") as [->|Hi], (String.eqb_spec a "") as [->|Ha]; cbn in H;
    repeat (first [rewrite (proj2 (String.eqb_neq _ _) Hi) in H | rewrite (proj2 (String.eqb_neq _ _) Ha) in H]; cbn in H);
    by simplify_eq.
Qed.
Lemma flag_Set_ids f raw f' : Forall (λ s, sp_ID s ≠ "") f → flag_Set f raw = Ok f' → Forall (λ s, sp_ID s ≠ "") f'.
Proof.
  unfold flag_Set. intros Hf H. ok_inv H as spec Hs. injection H as <-. apply Forall_app. split; [done|].
  constructor; [by apply parseProfileSpec_id in Hs as [? _]|constructor].
Qed.

(** ** DNS labels *)

(** Lower-case letters, digits and single hyphens, none after [prev]. *)
Fixpoint label_ok (prev : bool) (l : list Ascii.ascii) : bool :=
  match l with
  | [] => true
  | c :: l => if label_char c then label_ok false l else is_hyphen c && negb prev && label_ok true l
  end.
Definition ends_hyphen (prev : bool) (l : list Ascii.ascii) : bool :=
  match last l with Some c => is_hyphen c | None => prev end.
(** A label of at most 58 characters that neither begins nor ends with a hyphen. *)
Definition valid_label (s : string) : bool :=
  label_ok true (chars s) && negb (ends_hyphen true (chars s)) && (str_len s <=? 58)%nat.

Lemma label_char_hyphen c : label_char c = true → is_hyphen c = false.
Proof. intros H. destruct (is_hyphen c) eqn:E; [|done]. unfold is_hyphen in E. apply char_eqb_eq in E. by subst. Qed.
Lemma label_ok_snoc prev l c :
  label_ok prev (l ++ [c]) = label_ok prev l && (label_char c || is_hyphen c && negb (ends_hyphen prev l)).
Proof.
  unfold ends_hyphen. revert prev; induction l as [|d l IH]; intros prev; simpl.
  - by destruct (label_char c), (is_hyphen c), prev.
  - rewrite last_cons. destruct (label_char d) eqn:Hd; rewrite IH.
    + destruct (last l); [done|]. by rewrite (label_char_hyphen d).
    + destruct (is_hyphen d) eqn:Hh; [|done]. rewrite !andb_assoc. destruct (last l); [done|]. by rewrite Hh.
Qed.
Lemma label_ok_prefix prev l rest : label_ok prev (l ++ rest) = true → label_ok prev l = true.
Proof.
  induction rest as [|c rest IH] using rev_ind; [by rewrite app_nil_r|].
  rewrite app_assoc, label_ok_snoc. intros [H _]%andb_true_iff. by apply IH.
Qed.
Lemma trim_left_spec f l : ∃ cut, l = cut ++ trim_left f l ∧ Forall (λ c, f c = true) cut ∧
  match trim_left f l with c :: _ => f c = false | [] => True end.
Proof.
  induction l as [|c l (cut & E & Hc & Hh)]; simpl; [by exists []|].
  destruct (f c) eqn:Ef; [|by exists []]. exists (c :: cut). simpl. rewrite <-E. split_and!; [done|by constructor|done].
Qed.
Lemma trim_right_spec f l : ∃ cut, l = trim_right f l ++ cut ∧ Forall (λ c, f c = true) cut ∧
  match last (trim_right f l) with Some c => f c = false | None => True end.
Proof.
  destruct (trim_left_spec f (reverse l)) as (cut & E & Hc & Hh). exists (reverse cut). unfold trim_right.
  rewrite <-reverse_app, <-E, reverse_involutive, last_reverse. split_and!; [done|by rewrite reverse_Permutation|].
  by destruct (trim_left f (reverse l)).
Qed.
Lemma label_steps l b lastHyphen : label_ok true (reverse b) = true → lastHyphen = ends_hyphen false (reverse b) →
  let '(b', lastHyphen') := foldl label_step (b, lastHyphen) l in
  label_ok true (reverse b') = true ∧ lastHyphen' = ends_hyphen false (reverse b').
Proof.
  revert b lastHyphen; induction l as [|c l IH]; intros b h Hb ->; [done|]. simpl.
  destruct (label_char c) eqn:Hc; [|destruct (negb _ && _) eqn:Hg]; apply IH; try done.
  - by rewrite reverse_cons, label_ok_snoc, Hb, Hc.
  - unfold ends_hyphen. rewrite reverse_cons, last_snoc. by rewrite label_char_hyphen.
  - apply andb_true_iff in Hg as [Hg Hl]. rewrite reverse_cons, label_ok_snoc, Hb. cbn [andb].
    unfold ends_hyphen in *. destruct b as [|d b]; [done|]. rewrite last_reverse in Hg |- *. cbn [head] in *. by rewrite Hg, orb_true_r.
  - unfold ends_hyphen. by rewrite reverse_cons, last_snoc.
Qed.
(** Cutting a label short and trimming it leaves a label. *)
Lemma trim_label l : l ≠ [] → label_ok true l = true → let l' := trim_right is_hyphen l in
  l' ≠ [] ∧ label_ok true l' = true ∧ ends_hyphen true l' = false ∧ (length l' <= length l)%nat.
Proof.
  intros Hne Hl. destruct (trim_right_spec is_hyphen l) as (cut & E & Hc & Hlast). cbv zeta.
  set (l' := trim_right is_hyphen l) in *.
  assert (l' ≠ []) as Hne'.
  { intros Hnil. rewrite Hnil in E. simpl in E. subst l. destruct cut as [|c cut]; [done|].
    apply Forall_cons_1 in Hc as [Hc _]. simpl in Hl. rewrite Hc in Hl. simpl in Hl.
    destruct (label_char c) eqn:El; [|done]. apply label_char_hyphen in El. congruence. }
  split_and!; [done| | |].
  - rewrite E in Hl. by apply label_ok_prefix in Hl.
  - unfold ends_hyphen. destruct (last l') eqn:El; [done|]. by apply last_None in El.
  - rewrite E, length_app. lia.
Qed.

Lemma dnsLabel_valid s : valid_label (dnsLabel s) = true.
Proof.
  unfold dnsLabel, valid_label. pose proof (label_steps (chars (ToLower s)) [] false eq_refl eq_refl) as Hs.
  destruct (foldl label_step _ _) as [b h]. destruct Hs as [Hb _]. cbn [fst].
  assert (Htrim : Trim is_hyphen (text (reverse b)) = text (trim_right is_hyphen (reverse b))).
  { unfold Trim. rewrite chars_text. f_equal. f_equal. destruct (reverse b) as [|c l]; [done|]. simpl in *.
    destruct (is_hyphen c) eqn:E; [|done]. destruct (label_char c) eqn:El; [|done]. apply label_char_hyphen in El. congruence. }
  rewrite Htrim. set (label := if String.eqb _ "" then _ else _).
  assert (Hlabel : chars label ≠ [] ∧ label_ok true (chars label) = true ∧ ends_hyphen true (chars label) = false).
  { unfold label. destruct (String.eqb_spec (text (trim_right is_hyphen (reverse b))) "") as [|Hne]; [done|].
    rewrite chars_text. assert (reverse b ≠ []) as Hnb by (by intros E; rewrite E in Hne).
    destruct (trim_label (reverse b) Hnb Hb) as (? & ? & ? & _). done. }
  destruct Hlabel as (Hne & Hok & Hend). destruct (Nat.ltb_spec 58 (str_len label)) as [Hlt|Hle].
  - unfold TrimRight. rewrite str_len_chars, !chars_text.
    destruct (trim_label (take 58 (chars label))) as (Hne' & Hok' & Hend' & Hlen).
    + by destruct (chars label).
    + rewrite <-(take_drop 58 (chars label)) in Hok. by apply label_ok_prefix in Hok.
    + rewrite Hok', Hend'. cbn [andb negb]. apply Nat.leb_le. rewrite length_take in Hlen. lia.
  - rewrite Hok, Hend. cbn [andb negb]. by apply Nat.leb_le.
Qed.

Lemma label_char_lower c : label_char c || is_hyphen c = true → lower_char c = c.
Proof.
  intros H. unfold lower_char. destruct (is_upper c) eqn:E; [|done]. exfalso. unfold label_char, is_hyphen in H.
  destruct c as [[] [] [] [] [] [] [] []]; done.
Qed.
Lemma label_steps_id l b h : label_ok h l = true → (b = [] → label_ok true l = true) →
  (foldl label_step (b, h) l).1 = reverse l ++ b.
Proof.
  revert b h; induction l as [|c l IH]; intros b h Hl Hb; [done|]. simpl in *. rewrite reverse_cons, <-app_assoc. simpl.
  destruct (label_char c) eqn:Hc.
  - by apply IH.
  - apply andb_true_iff in Hl as [[Hh Hn]%andb_true_iff Hl]. rewrite Hn. destruct b as [|d b].
    { specialize (Hb eq_refl). by rewrite andb_false_r in Hb. }
    simpl. unfold is_hyphen in Hh. apply char_eqb_eq in Hh as ->. by apply IH.
Qed.
Lemma label_ok_weaken l : label_ok true l = true → label_ok false l = true.
Proof. destruct l as [|c l]; [done|]. simpl. destruct (label_char c); [done|]. by rewrite andb_false_r. Qed.
Lemma valid_label_fix s : valid_label s = true → dnsLabel s = s.
Proof.
  intros [[Hok Hend]%andb_true_iff Hlen%Nat.leb_le]%andb_true_iff. apply negb_true_iff in Hend. unfold dnsLabel.
  assert (Hchars : ∀ prev l, label_ok prev l = true → lower_char <$> l = l).
  { intros prev l; revert prev; induction l as [|c l IH]; intros prev Hl; [done|]. simpl in *.
    destruct (label_char c) eqn:Hc; [|apply andb_true_iff in Hl as [[Hh _]%andb_true_iff Hl]];
      (rewrite label_char_lower by (rewrite ?Hc, ?Hh; done)); f_equal; by eapply IH. }
  assert (ToLower s = s) as ->. { unfold ToLower. rewrite (Hchars true) by done. apply text_chars. }
  rewrite label_steps_id by (done || by apply label_ok_weaken). rewrite app_nil_r, reverse_involutive, text_chars.
  assert (Htrim : Trim is_hyphen s = s).
  { unfold Trim. destruct (chars s) as [|c l] eqn:E; [by destruct s|]. simpl in *.
    assert (is_hyphen c = false) as ->.
    { destruct (label_char c) eqn:El; [by apply label_char_hyphen|]. by rewrite andb_false_r in Hok. }
    destruct (trim_right_spec is_hyphen (c :: l)) as (cut & Ec & Hcut & _).
    assert (cut = []) as ->.
    { destruct cut as [|d cut _] using rev_ind; [done|]. exfalso. apply Forall_app in Hcut as [_ [Hd _]%Forall_cons_1].
      unfold ends_hyphen in Hend. rewrite Ec, app_assoc, last_snoc in Hend. congruence. }
    rewrite app_nil_r in Ec. rewrite <-Ec, <-E. apply text_chars. }
  rewrite Htrim. destruct (String.eqb_spec s "") as [->|_]; [done|].
  by rewrite (proj2 (Nat.ltb_ge _ _)).
Qed.

(** [dnsLabel] always returns a DNS label of at most 58 characters: letters,
    digits and single hyphens, none at either end.  On such labels it is the
    identity, so it is idempotent. *)
Theorem dnsLabel_label (s : string) :
  valid_label (dnsLabel s) = true ∧ (valid_label s = true → dnsLabel s = s) ∧ dnsLabel (dnsLabel s) = dnsLabel s.
Proof.
  pose proof (dnsLabel_valid s) as Hv. split_and!; [done|apply valid_label_fix|by apply valid_label_fix].
Qed.

(** ** Resolution *)

(** What the code computes for one profile: the last stored profile with the
    identifier, changed by every specification with that identifier in order. *)
Definition stored_of (ps : list Profile) (id : string) : option Profile := last (filter (λ p, pr_ID p = id) ps).
Definition resolved (ps : list Profile) (specs : list profileSpec) (id : string) : runtimeProfile :=
  foldl apply_spec (match stored_of ps id with Some p => MkRuntime p "" | None => zero_runtime end)
    (filter (λ s, sp_ID s = id) specs).
Definition known (ps : list Profile) (specs : list profileSpec) (id : string) : Prop :=
  id ∈ pr_ID <$> ps ∨ id ∈ sp_ID <$> specs.

Lemma stored_of_snoc ps p id :
  stored_of (ps ++ [p]) id = if decide (pr_ID p = id) then Some p else stored_of ps id.
Proof.
  unfold stored_of. rewrite filter_app, filter_cons, filter_nil.
  case_decide; [by rewrite last_snoc|by rewrite app_nil_r].
Qed.
Lemma stored_of_id ps id p : stored_of ps id = Some p → p ∈ ps ∧ pr_ID p = id.
Proof. unfold stored_of. intros [? ?]%last_Some_elem_of%list_elem_of_filter. done. Qed.
Lemma stored_of_known ps id : is_Some (stored_of ps id) ↔ id ∈ pr_ID <$> ps.
Proof.
  split.
  - intros [p [? <-]%stored_of_id]. by apply list_elem_of_fmap_2.
  - intros (p & -> & Hp)%list_elem_of_fmap. unfold stored_of. apply last_is_Some. intros E.
    assert (p ∈ filter (λ q, pr_ID q = pr_ID p) ps) as Hin by (by apply list_elem_of_filter). rewrite E in Hin. by apply elem_of_nil in Hin.
Qed.
Lemma resolved_snoc ps specs s id :
  resolved ps (specs ++ [s]) id = if decide (sp_ID s = id) then apply_spec (resolved ps specs id) s else resolved ps specs id.
Proof.
  unfold resolved. rewrite filter_app, filter_cons, filter_nil, foldl_app. case_decide; [done|]. done.
Qed.
Lemma apply_spec_id rp s : pr_ID (rt_State (apply_spec rp s)) = or_else (pr_ID (rt_State rp)) (sp_ID s).
Proof. done. Qed.
Lemma resolved_id ps specs id : id ≠ "" →
  pr_ID (rt_State (resolved ps specs id)) = if bool_decide (id ∈ pr_ID <$> ps) || bool_decide (id ∈ sp_ID <$> specs) then id else "".
Proof.
  intros Hne. induction specs as [|s specs IH] using rev_ind.
  - unfold resolved. simpl. rewrite orb_false_r. destruct (stored_of ps id) as [p|] eqn:E.
    + rewrite bool_decide_true by (apply stored_of_known; eauto). simpl. by apply stored_of_id in E as [_ ?].
    + rewrite bool_decide_false; [done|]. rewrite <-stored_of_known, E. by intros [? ?].
  - rewrite resolved_snoc, fmap_app. cbn [fmap list_fmap]. destruct (decide (sp_ID s = id)) as [Hs|Hs].
    + rewrite apply_spec_id, IH, Hs. rewrite (bool_decide_true (id ∈ (sp_ID <$> specs) ++ [id])), orb_true_r by (apply elem_of_snoc; auto).
      unfold or_else. destruct (_ || _); [|done]. by destruct (String.eqb_spec id "").
    + rewrite IH. rewrite (bool_decide_ext (id ∈ (sp_ID <$> specs) ++ [sp_ID s]) (id ∈ sp_ID <$> specs)); [done|].
      rewrite elem_of_snoc. split; [|auto]. intros [?| ->]; done.
Qed.

Lemma add_stored_result ps s : match foldM add_stored ps s with
  | Ok _ => Forall (λ p, pr_ID p ≠ "") ps
  | Err e => e = EStoredID ∧ Exists (λ p, pr_ID p = "") ps
  end.
Proof.
  revert s; induction ps as [|p ps IH]; intros [m o]; simpl; [done|].
  destruct (String.eqb_spec (pr_ID p) "") as [Hp|Hp]; simpl; [split; [done|by constructor]|].
  specialize (IH (<[pr_ID p:=MkRuntime p ""]> m, match m !! pr_ID p with Some _ => o | None => o ++ [pr_ID p] end)).
  destruct (foldM _ _ _); [by constructor|]. destruct IH. split; [done|by constructor].
Qed.
(** The table after the stored profiles and some specifications. *)
Record table_ok (ps : list Profile) (specs : list profileSpec) (s : by_id * list string) : Prop := {
  to_order : NoDup s.2;
  to_known id : id ∈ s.2 ↔ known ps specs id;
  to_found id : is_Some (s.1 !! id) ↔ id ∈ s.2;
  to_value id : default zero_runtime (s.1 !! id) = resolved ps specs id }.

Lemma add_stored_ok ps s : foldM add_stored ps (∅, []) = Ok s → table_ok ps [] s.
Proof.
  intros H. apply (foldM_ind (λ pre s, table_ok pre [] s) add_stored ps _ _ H).
  - constructor; simpl; [constructor|intros id..].
    + unfold known. simpl. rewrite !elem_of_nil. tauto.
    + rewrite lookup_empty, elem_of_nil. split; [by intros [? ?]|done].
    + by rewrite lookup_empty.
  - clear. intros pre p [m o] [m' o'] _ [Hnd Hk Hf Hv] E. unfold add_stored in E. simpl in *.
    destruct (String.eqb_spec (pr_ID p) "") as [|Hp]; [done|]. injection E as <- <-.
    assert (Ho : ∀ id, id ∈ match m !! pr_ID p with Some _ => o | None => o ++ [pr_ID p] end ↔ id ∈ o ∨ id = pr_ID p).
    { intros id. destruct (m !! pr_ID p) eqn:E; [|apply elem_of_snoc]. split; [auto|]. intros [?| ->]; [done|].
      apply Hf. rewrite E. eauto. }
    constructor; simpl.
    + destruct (m !! pr_ID p) eqn:E; [done|]. apply NoDup_snoc; [done|]. rewrite <-Hf, E. by intros [? ?].
    + intros id. rewrite Ho, Hk. unfold known. rewrite fmap_app. simpl. rewrite elem_of_snoc, elem_of_nil. tauto.
    + intros id. rewrite Ho, <-Hf, lookup_insert_is_Some'. naive_solver.
    + intros id. unfold resolved. simpl. rewrite stored_of_snoc. destruct (decide (pr_ID p = id)) as [<-|Hne].
      * by rewrite lookup_insert_eq.
      * rewrite lookup_insert_ne by done. apply Hv.
Qed.
Lemma add_spec_ok ps specs s0 : table_ok ps [] s0 → Forall (λ p, pr_ID p ≠ "") ps →
  Forall (λ s, sp_ID s ≠ "") specs → table_ok ps specs (foldl add_spec s0 specs).
Proof.
  intros H0 Hps. induction specs as [|s specs IH] using rev_ind; [done|].
  intros [Hspecs [Hs _]%Forall_cons_1]%Forall_app. rewrite foldl_app. simpl.
  destruct (IH Hspecs) as [Hnd Hk Hf Hv]. destruct (foldl add_spec s0 specs) as [m o]. unfold add_spec. simpl in *.
  set (id0 := sp_ID s) in *. set (rp := default zero_runtime (m !! id0)).
  assert (Hrp : rp = resolved ps specs id0) by apply Hv.
  assert (Ho : ∀ id, id ∈ (if String.eqb (pr_ID (rt_State rp)) "" then o ++ [id0] else o) ↔ id ∈ o ∨ id = id0).
  { intros id. destruct (String.eqb_spec (pr_ID (rt_State rp)) "") as [E|E]; [apply elem_of_snoc|].
    split; [auto|]. intros [?| ->]; [done|]. apply Hk. rewrite Hrp, resolved_id in E by done. unfold known.
    destruct (bool_decide_reflect (id0 ∈ pr_ID <$> ps)), (bool_decide_reflect (id0 ∈ sp_ID <$> specs)); auto; done. }
  constructor; simpl.
  - destruct (String.eqb_spec (pr_ID (rt_State rp)) "") as [E|E]; [|done]. apply NoDup_snoc; [done|].
    intros Hin. apply Hk in Hin. unfold known in Hin. rewrite Hrp, resolved_id in E by done.
    destruct (bool_decide_reflect (id0 ∈ pr_ID <$> ps)), (bool_decide_reflect (id0 ∈ sp_ID <$> specs)); tauto.
  - intros id. rewrite Ho, Hk. unfold known. rewrite fmap_app. simpl. rewrite elem_of_snoc. tauto.
  - intros id. rewrite Ho, <-Hf, lookup_insert_is_Some'. naive_solver.
  - intros id. rewrite resolved_snoc. fold id0. destruct (decide (id0 = id)) as [<-|Hne].
    + rewrite lookup_insert_eq. simpl. by rewrite Hrp.
    + rewrite lookup_insert_ne by done. apply Hv.
Qed.

(** *** The list of profiles *)

Definition profile_key : runtimeProfile → string := λ rp, pr_ID (rt_State rp).
Definition complete (p : Profile) : Prop := pr_ID p ≠ "" ∧ pr_Alias p ≠ "" ∧ pr_StateDir p ≠ "" ∧ pr_Hostname p ≠ "".

Lemma str_app_nonempty a b : b ≠ "" → a +:+ b ≠ "".
Proof. intros Hb E%(f_equal chars). rewrite chars_app in E. apply app_eq_nil in E as [_ E]. by destruct b. Qed.
Lemma Join_nonempty base id : id ≠ "" → Join [base; id] ≠ "".
Proof.
  intros Hid. simpl. destruct (String.eqb base ""); [|apply Clean_nonempty].
  rewrite (proj2 (String.eqb_neq id "") Hid). apply Clean_nonempty.
Qed.
Lemma or_else_nonempty a b : b ≠ "" → or_else a b ≠ "".
Proof. unfold or_else. by destruct (String.eqb_spec a ""). Qed.
Lemma or_else_keep a b : a ≠ "" → or_else a b = a.
Proof. unfold or_else. intros Ha. by destruct (String.eqb_spec a ""). Qed.

Lemma profile_defaults_complete base rp : pr_ID (rt_State rp) ≠ "" → complete (rt_State (profile_defaults base rp)).
Proof.
  intros Hid. unfold complete. simpl. split_and!; [done|..]; apply or_else_nonempty; [done|by apply Join_nonempty|].
  apply str_app_nonempty. intros E. pose proof (dnsLabel_valid (pr_ID (rt_State rp))) as Hv. by rewrite E in Hv.
Qed.
Lemma profile_defaults_fix base p : complete p → profile_defaults base (MkRuntime p "") = MkRuntime p "".
Proof.
  intros (Hid & Ha & Hd & Hh). unfold profile_defaults. cbn [rt_State rt_AuthKeyEnv]. rewrite !or_else_keep by done. by destruct p.
Qed.

Lemma resolveProfiles_table st specs path out : Forall (λ s, sp_ID s ≠ "") specs → resolveProfiles st specs path = Ok out →
  Forall (λ p, pr_ID p ≠ "") (st_Profiles st) ∧ ∃ order, NoDup order ∧
  (∀ id, id ∈ order ↔ known (st_Profiles st) specs id) ∧
  out = go_sort (less_key profile_key)
          ((λ id, profile_defaults (baseDir_of path) (resolved (st_Profiles st) specs id)) <$> order).
Proof.
  intros Hspecs. unfold resolveProfiles. pose proof (add_stored_result (st_Profiles st) (∅, [])) as Hr.
  destruct (foldM add_stored _ _) as [s0|] eqn:E0; cbn [mbind result_bind]; [|done].
  pose proof (add_spec_ok _ specs _ (add_stored_ok _ _ E0) Hr Hspecs) as [Hnd Hk _ Hv].
  destruct (foldl add_spec s0 specs) as [m o]. intros [= <-]. split; [done|]. exists o. split_and!; [done|done|].
  f_equal. apply list_fmap_ext. intros k id _. simpl. by rewrite <-Hv.
Qed.
Lemma known_nonempty ps specs id : Forall (λ p, pr_ID p ≠ "") ps → Forall (λ s, sp_ID s ≠ "") specs →
  known ps specs id → id ≠ "".
Proof.
  intros Hps Hspecs [(p & -> & Hp)%list_elem_of_fmap|(s & -> & Hs)%list_elem_of_fmap].
  - exact (proj1 (Forall_forall _ _) Hps p Hp).
  - exact (proj1 (Forall_forall _ _) Hspecs s Hs).
Qed.
Lemma resolved_key ps specs path id : Forall (λ p, pr_ID p ≠ "") ps → Forall (λ s, sp_ID s ≠ "") specs →
  known ps specs id → profile_key (profile_defaults path (resolved ps specs id)) = id.
Proof.
  intros Hps Hspecs Hk. unfold profile_key. simpl. pose proof (known_nonempty _ _ _ Hps Hspecs Hk) as Hne.
  rewrite resolved_id by done. destruct Hk as [Hk|Hk]; [by rewrite bool_decide_true|].
  by rewrite (bool_decide_true (id ∈ sp_ID <$> specs)), orb_true_r.
Qed.

(** Two sorted lists with distinct keys and the same elements are equal. *)
Lemma profiles_unique l1 l2 : NoDup (profile_key <$> l1) → l1 ≡ₚ l2 →
  go_sort (less_key profile_key) l1 = go_sort (less_key profile_key) l2.
Proof.
  intros Hnd Hp. apply go_sort_Permutation_eq; [apply _| |done]. intros x y Hx Hy H1 H2.
  pose proof (less_key_tie _ _ _ H1 H2) as Hkey.
  apply list_elem_of_lookup in Hx as [i Hi]. apply list_elem_of_lookup in Hy as [j Hj].
  assert (i = j) as ->; [|congruence]. apply (NoDup_lookup (profile_key <$> l1) i j (profile_key x) Hnd).
  - by rewrite list_lookup_fmap, Hi.
  - rewrite list_lookup_fmap, Hj. simpl. f_equal. exact (eq_sym Hkey).
Qed.
Definition forget_auth (rp : runtimeProfile) : runtimeProfile := MkRuntime (rt_State rp) "".

Record resolution (ps : list Profile) (specs : list profileSpec) (base : string) (out : list runtimeProfile) : Prop := {
  re_sorted : StronglySorted (not_after (less_key profile_key)) out;
  re_keys : NoDup (profile_key <$> out);
  re_elems rp : rp ∈ out ↔ ∃ id, known ps specs id ∧ rp = profile_defaults base (resolved ps specs id);
  re_complete rp : rp ∈ out → complete (rt_State rp) }.
Lemma resolveProfiles_ok st specs path out : Forall (λ s, sp_ID s ≠ "") specs → resolveProfiles st specs path = Ok out →
  Forall (λ p, pr_ID p ≠ "") (st_Profiles st) ∧ resolution (st_Profiles st) specs (baseDir_of path) out.
Proof.
  intros Hspecs (Hps & order & Hnd & Hk & ->)%resolveProfiles_table; [|done]. split; [done|].
  set (f := λ id, profile_defaults (baseDir_of path) (resolved (st_Profiles st) specs id)) in *.
  assert (Helem : ∀ rp, rp ∈ go_sort (less_key profile_key) (f <$> order) ↔ ∃ id, known (st_Profiles st) specs id ∧ rp = f id).
  { intros rp. rewrite elem_of_go_sort, list_elem_of_fmap. split; intros (id & H1 & H2); exists id;
      [apply Hk in H2|apply Hk in H1]; done. }
  constructor.
  - apply go_sort_sorted. apply _.
  - rewrite (fmap_Permutation profile_key _ _ (go_sort_Permutation _ _)), <-list_fmap_compose.
    rewrite <-(list_fmap_id order) in Hnd. erewrite list_fmap_ext; [exact Hnd|].
    intros i id Hi. apply resolved_key; [done..|]. apply Hk. by eapply list_elem_of_lookup_2.
  - exact Helem.
  - intros rp (id & Hid & ->)%Helem. apply profile_defaults_complete.
    pose proof (resolved_key _ _ (baseDir_of path) id Hps Hspecs Hid) as Hkey. unfold profile_key in Hkey. simpl in Hkey.
    rewrite Hkey. by apply (known_nonempty _ _ _ Hps Hspecs).
Qed.

(** The profiles that were resolved resolve to themselves at the next start. *)
Lemma resolveProfiles_again st specs path out : Forall (λ s, sp_ID s ≠ "") specs → resolveProfiles st specs path = Ok out →
  ∀ st', st_Profiles st' = stateProfiles out → resolveProfiles st' [] path = Ok (forget_auth <$> out).
Proof.
  intros Hspecs [_ [Hs Hnd _ Hc]]%resolveProfiles_ok st' Hst'; [|done].
  destruct (resolveProfiles st' [] path) as [out'|e] eqn:E.
  2:{ exfalso. unfold resolveProfiles in E. pose proof (add_stored_result (st_Profiles st') (∅, [])) as Hr.
      destruct (foldM add_stored _ _) as [[m o]|]; [done|]. destruct Hr as [_ (p & Hp & Hid)%Exists_exists].
      rewrite Hst' in Hp. unfold stateProfiles in Hp. apply list_elem_of_fmap in Hp as (rp & -> & Hrp). by apply Hc in Hrp as [? _]. }
  apply resolveProfiles_ok in E as [_ [Hs' Hnd' He' _]]; [|constructor]. rewrite Hst' in He'. f_equal.
  assert (Hkeys : profile_key <$> (forget_auth <$> out) = profile_key <$> out) by by rewrite <-list_fmap_compose.
  assert (Hres : ∀ rp, rp ∈ out → profile_defaults (baseDir_of path) (resolved (stateProfiles out) [] (profile_key rp)) = forget_auth rp).
  { intros rp Hrp. unfold resolved. simpl. destruct (stored_of (stateProfiles out) (profile_key rp)) as [p|] eqn:E.
    - apply stored_of_id in E as [(rp' & -> & Hrp')%list_elem_of_fmap Hid].
      assert (rp' = rp) as ->; [|by apply profile_defaults_fix, Hc].
      apply list_elem_of_lookup in Hrp as [i Hi]. apply list_elem_of_lookup in Hrp' as [j Hj].
      assert (i = j) as ->; [|congruence]. apply (NoDup_lookup (profile_key <$> out) i j (profile_key rp) Hnd).
      + by rewrite list_lookup_fmap, Hi.
      + rewrite list_lookup_fmap, Hj. simpl. by f_equal.
    - exfalso. assert (is_Some (stored_of (stateProfiles out) (profile_key rp))) as [p Hp]; [|congruence].
      apply stored_of_known. unfold stateProfiles. rewrite <-list_fmap_compose. by apply (list_elem_of_fmap_2 profile_key). }
  rewrite <-(go_sort_id (less_key profile_key) out') by done.
  assert (Hs1 : StronglySorted (not_after (less_key profile_key)) (forget_auth <$> out)) by (by apply (StronglySorted_fmap _ (not_after (less_key profile_key)) (not_after (less_key profile_key)))).
  rewrite <-(go_sort_id (less_key profile_key) (forget_auth <$> out)) by done.
  apply profiles_unique; [done|]. apply NoDup_Permutation.
  - by apply NoDup_fmap_1 in Hnd'.
  - rewrite <-Hkeys in Hnd. by apply NoDup_fmap_1 in Hnd.
  - intros rp. rewrite He', list_elem_of_fmap. split.
    + intros (id & [(p & -> & (rp' & -> & Hrp')%list_elem_of_fmap)%list_elem_of_fmap|Hid] & ->); [|by apply elem_of_nil in Hid].
      exists rp'. split; [|done]. by apply (Hres rp').
    + intros (rp' & -> & Hrp'). exists (profile_key rp'). split; [|by rewrite Hres].
      left. unfold stateProfiles. rewrite <-list_fmap_compose. by apply (list_elem_of_fmap_2 profile_key).
Qed.

(** [resolveProfiles] fails exactly on a stored profile without identifier.
    Otherwise it lists every stored or specified profile once, sorted by
    identifier, each being the last stored profile changed by its specifications
    in order and completed with an alias, a directory and a host name. *)
Theorem resolveProfiles_spec (st : State) (specs : list profileSpec) (path : string) :
  Forall (λ s, sp_ID s ≠ "") specs →
  match resolveProfiles st specs path with
  | Err e => e = EStoredID ∧ ∃ p, p ∈ st_Profiles st ∧ pr_ID p = ""
  | Ok out =>
    (∀ p, p ∈ st_Profiles st → pr_ID p ≠ "") ∧
    StronglySorted (not_after (less_key profile_key)) out ∧ NoDup (profile_key <$> out) ∧
    (∀ rp, rp ∈ out ↔ ∃ id, known (st_Profiles st) specs id ∧
       rp = profile_defaults (baseDir_of path) (resolved (st_Profiles st) specs id)) ∧
    (∀ rp, rp ∈ out → complete (rt_State rp))
  end.
Proof.
  intros Hspecs. destruct (resolveProfiles st specs path) as [out|e] eqn:E.
  - apply resolveProfiles_ok in E as [Hps [? ? ? ?]]; [|done]. split_and!; try done.
    intros p. apply (proj1 (Forall_forall _ _) Hps).
  - unfold resolveProfiles in E. pose proof (add_stored_result (st_Profiles st) (∅, [])) as Hr.
    destruct (foldM add_stored _ _) as [s0|e0]; cbn [mbind result_bind] in E.
    + by destruct (foldl add_spec s0 specs).
    + injection E as <-. destruct Hr as [-> (p & ? & ?)%Exists_exists]. eauto.
Qed.

(** ** Starting again *)

(** What a start saves is a fixed point: the next start, without flags,
    computes the same state and the same profiles (less the keys, which come
    from flags only), so the pools, the addresses of the daemon, its leases and
    its profiles survive restarts. *)
Theorem startup_stable (ServiceIP : Addr) (st st' : State) (o4 o6 : string) (specs : list profileSpec) (path : string)
    (rps : list runtimeProfile) :
  Forall (λ s, sp_ID s ≠ "") specs → startup ServiceIP st o4 o6 specs path = Ok (st', rps) →
  st_Profiles st' = stateProfiles rps ∧ startup ServiceIP st' "" "" [] path = Ok (st', forget_auth <$> rps).
Proof.
  intros Hspecs H. unfold startup in H. ok_inv H as st1 H1. ok_inv H as rps0 H2. ok_inv H as st3 H3.
  injection H as -> ->. apply wrap_ok_inv in H1, H2, H3.
  apply configure_pools in H1 as (p4 & p6 & st0 & Hp4 & Hp6 & E0 & E1 & Ht4 & Ht6).
  set (st2 := set_Profiles st1 (stateProfiles rps)) in *.
  set (pool := λ ipv6 : bool, if ipv6 then p6 else p4).
  assert (Hpools : pools_ok ServiceIP st2 pool).
  { intros []; (split; [done|]); cbn [pool_text st2 set_Profiles st_SyntheticPool st_SyntheticPoolV6] in *; simpl in Ht4, Ht6 |- *;
      rewrite ?Ht4, ?Ht6; apply ParsePrefix_prefix_string; apply Hp4 || apply Hp6. }
  pose proof (ensure_again ServiceIP pool st2 st' Hpools H3) as Hagain.
  apply (ensure_steps ServiceIP pool) in H3 as (a & b & c & -> & _); [|done]. split; [done|].
  assert (Hu : (u_State (st_Updates st1) ∈? ["checking"; "applying"; "restarting"]) = false).
  { assert (st_Updates st1 = st_Updates (reset_updates st)) as ->.
    { rewrite E1. destruct (pool_changed _ true _ _ _); simpl; rewrite E0; by destruct (pool_changed _ false _ _ _). }
    unfold reset_updates. destruct (u_State (st_Updates st) ∈? _) eqn:E; done. }
  unfold startup. unfold reset_updates at 1. cbn [st_Updates set_DNSIP set_NATIPv6 set_NATIP st2 set_Profiles]. rewrite Hu.
  rewrite (configure_fix ServiceIP _ p4 p6) by done. cbn [wrap mbind result_bind].
  rewrite (resolveProfiles_again st1 specs path rps Hspecs H2) by done. cbn [wrap mbind result_bind].
  assert (Hsame : stateProfiles (forget_auth <$> rps) = stateProfiles rps)
    by (unfold stateProfiles; by rewrite <-list_fmap_compose).
  rewrite Hsame. change (set_Profiles _ (stateProfiles rps)) with (set_DNSIP (set_NATIPv6 (set_NATIP st2 a) b) c).
  by rewrite Hagain.
Qed.

(** ** Witnesses *)

Definition flag_spec : profileSpec := MkSpec "lab" "" "/d" "" "lab.ts.net" "LAB_KEY".
Definition started_state : State := set_Profiles fresh_state [MkProfile "work" "" "" "" "" "" "" false false false false None "" false].
Definition started : State * list runtimeProfile :=
  match startup service_ip started_state "" "" [flag_spec] "/etc/tailmix/state.json" with
  | Ok r => r | Err _ => (zero_state, []) end.
Lemma startup_stable_witness :
  (pr_Hostname <$> st_Profiles started.1) = ["tailmix-lab"; "tailmix-work"] ∧
  startup service_ip started.1 "" "" [] "/etc/tailmix/state.json" = Ok (started.1, forget_auth <$> started.2).
Proof.
  split; [vm_compute; reflexivity|].
  assert (H : startup service_ip started_state "" "" [flag_spec] "/etc/tailmix/state.json" = Ok (started.1, started.2))
    by (vm_compute; reflexivity).
  assert (Hs : Forall (λ s, sp_ID s ≠ "") [flag_spec]) by (by repeat constructor).
  exact (proj2 (startup_stable service_ip started_state started.1 "" "" [flag_spec] "/etc/tailmix/state.json" started.2 Hs H)).
Defined.
Lemma resolveProfiles_spec_witness :
  match resolveProfiles started_state [flag_spec] "state.json" with
  | Ok out => NoDup (profile_key <$> out) ∧ profile_key <$> out = ["lab"; "work"]
  | Err _ => False
  end.
Proof.
  assert (Hs : Forall (λ s, sp_ID s ≠ "") [flag_spec]) by (by repeat constructor).
  pose proof (resolveProfiles_spec started_state [flag_spec] "state.json" Hs) as H.
  destruct (resolveProfiles started_state [flag_spec] "state.json") as [out|e] eqn:E; [|by vm_compute in E].
  split; [apply H|]. vm_compute in E. injection E as <-. reflexivity.
Defined.
