(* ===== verification/Types.v ===== *)
(** * Profile statuses and API resources

    The records of [src/profile/profile.go] (what an engine reports) and of
    [src/controlapi/types.go] (what the control API returns) that the policy
    components read and write.  A Go pointer that may be nil is an option, a
    nil slice is the empty list. *)

From S2P Require Import Prelude GoStrings Netip.

(** ** profile.Status *)

(** [dnstype.Resolver]: the fields the code copies. *)
Record Resolver : Type := MkResolver {
  res_Addr : string; res_BootstrapResolution : list Addr; res_UseWithExitNode : bool }.
Record RouteStatus : Type := MkRouteStatus { rs_Prefix : Prefix; rs_PrimaryRouter : string }.
Record DNSRouteStatus : Type := MkDNSRouteStatus {
  ds_Domain : string; ds_Source : string; ds_Resolvers : list (option Resolver) }.
Record PeerLocation : Type := MkPeerLocation {
  loc_Country : string; loc_CountryCode : string; loc_City : string; loc_CityCode : string;
  loc_Priority : Z }.
Record PeerStatus : Type := MkPeerStatus {
  ps_NodeID : string; ps_DNSName : string; ps_PublicKey : string; ps_Endpoint : string;
  ps_TailscaleIPs : list Addr; ps_Online : bool; ps_LastHandshake : Z;
  ps_RxBytes : Z; ps_TxBytes : Z; ps_ExitNode : bool; ps_ExitNodeOption : bool;
  ps_Location : option PeerLocation }.
Record ServiceStatus : Type := MkServiceStatus {
  sv_Name : string; sv_DNSName : string; sv_TailscaleIPs : list Addr }.
Record Status : Type := MkStatus {
  s_ProfileID : string; s_Alias : string; s_Kind : string; s_MagicDNSSuffix : string;
  s_BackendState : string; s_AuthURL : string; s_SelfNodeID : string; s_SelfDNSName : string;
  s_SelfIPs : list Addr; s_Peers : list PeerStatus; s_Services : list ServiceStatus;
  s_PeerCount : Z; s_ShieldsUp : bool; s_AvailableRoutes : list RouteStatus;
  s_DNSRoutes : list DNSRouteStatus; s_SearchDomains : list string; s_RouteAll : bool;
  s_ExitNodeID : string; s_PublicKey : string; s_ListenPort : Z }.

#[export] Instance Resolver_eq_dec : EqDecision Resolver.
Proof. solve_decision. Defined.
#[export] Instance PeerLocation_eq_dec : EqDecision PeerLocation.
Proof. solve_decision. Defined.

(** A status with only the fields the routing policy reads. *)
Definition simple_status (id : string) (routes : list RouteStatus) (dns : list DNSRouteStatus)
    (search : list string) (exit : string) : Status :=
  MkStatus id "" "tailscale" "" "Running" "" "" "" [] [] [] 0 false routes dns search true exit "" 0.

(** ** Control API resources *)

Module api.
Record AvailableIPRoute : Type := MkAvailableIPRoute {
  ai_Prefix : Prefix; ai_ProfileID : string; ai_ProfileName : string; ai_PrimaryRouter : string }.
Record IPRouteBinding : Type := MkIPRouteBinding {
  ir_Prefix : Prefix; ir_ProfileID : string; ir_ProfileName : string; ir_Policy : string;
  ir_State : string; ir_Reason : string; ir_CoveringRoute : Prefix; ir_PrimaryRouter : string;
  ir_OverriddenBy : Prefix; ir_OverrideProfileID : string; ir_OverrideProfileName : string }.
Record AcceptAllProfile : Type := MkAcceptAll {
  aa_ProfileID : string; aa_ProfileName : string; aa_State : string; aa_Reason : string }.
Record IPRoutes : Type := MkIPRoutes {
  AcceptAllProfiles : list AcceptAllProfile; Bindings : list IPRouteBinding;
  Imported : list IPRouteBinding; Available : list AvailableIPRoute }.

Record DNSResolver : Type := MkDNSResolver {
  dr_Addr : string; dr_BootstrapResolution : list Addr; dr_UseWithExitNode : bool }.
Record AvailableDNSRoute : Type := MkAvailableDNSRoute {
  ad_Domain : string; ad_ProfileID : string; ad_ProfileName : string; ad_Source : string;
  ad_Resolvers : list DNSResolver }.
Record DNSRouteBinding : Type := MkDNSRouteBinding {
  dn_Domain : string; dn_ProfileID : string; dn_ProfileName : string; dn_Policy : string;
  dn_Source : string; dn_State : string; dn_Reason : string; dn_CoveringRoute : string;
  dn_Resolvers : list DNSResolver; dn_OverriddenBy : string; dn_OverrideProfileID : string;
  dn_OverrideProfileName : string }.
Record DNSRoutes : Type := MkDNSRoutes {
  dr_AcceptAllProfiles : list AcceptAllProfile; dr_Bindings : list DNSRouteBinding;
  dr_Imported : list DNSRouteBinding; dr_Automatic : list DNSRouteBinding;
  dr_Available : list AvailableDNSRoute }.

Record InstalledSearchDomain : Type := MkInstalledSearch {
  is_Domain : string; is_ProfileID : string; is_ProfileName : string }.
Record WaitingSearchDomain : Type := MkWaitingSearch { ws_Domain : string; ws_Reason : string }.
Record AvailableSearchDomain : Type := MkAvailableSearch {
  as_Domain : string; as_ProfileID : string; as_ProfileName : string }.
Record SearchDomains : Type := MkSearchDomains {
  Desired : list string; Installed : list InstalledSearchDomain;
  Waiting : list WaitingSearchDomain; sd_Available : list AvailableSearchDomain }.

Record ExitNodeLocation : Type := MkExitNodeLocation {
  el_Country : string; el_CountryCode : string; el_City : string; el_CityCode : string;
  el_Priority : Z }.
Record AvailableExitNode : Type := MkAvailableExitNode {
  ae_ProfileID : string; ae_ProfileName : string; ae_NodeID : string; ae_DNSName : string;
  ae_IPs : list Addr; ae_Online : bool; ae_Location : option ExitNodeLocation }.
Record SelectedExitNode : Type := MkSelectedExitNode {
  se_ProfileID : string; se_ProfileName : string; se_NodeID : string; se_DNSName : string;
  se_PeerIP : Addr; se_Online : bool; se_Location : option ExitNodeLocation;
  se_State : string; se_Reason : string }.
Record ExitNodes : Type := MkExitNodes {
  Selected : option SelectedExitNode; en_Available : list AvailableExitNode }.
End api.
