(* ===== verification/LeasePlan.v ===== *)
(** * Effective addresses of the daemon's targets

    cmd/tailmixd/main.go, the leases of a plan: the targets engines report
    ([reachableTargets], [leaseTargets]), the leases they get in both families
    ([assignEffectiveIPs]) and what is persisted ([mergeLeases]); and leases.go,
    the reclamation of leases before a plan ([refreshLeasesLocked]). *)

From S2P Require Import Prelude GoStrings Netip EffectiveIP Activity State Types HostPools.
Import netip_facts.
Local Open Scope Z_scope.

(** A peer or a service. *)
Record reachableTarget : Type := MkTarget { t_ID : string; t_DNSName : string; t_IPs : list Addr }.
Definition reachableTargets (status : Status) : list reachableTarget :=
  ((λ p, MkTarget (ps_NodeID p) (ps_DNSName p) (ps_TailscaleIPs p)) <$> s_Peers status) ++
  ((λ s, MkTarget (sv_Name s) (sv_DNSName s) (sv_TailscaleIPs s)) <$> s_Services status).

Definition target_nodes (id : string) (t : reachableTarget) : list Node :=
  if String.eqb (t_ID t) "" then [] else (λ ip, MkNode id (t_ID t) ip) <$> t_IPs t.
Definition node_less : Node → Node → bool :=
  less_by n_ProfileID str_lt (less_by n_NodeID str_lt (less_by n_CanonicalIP addr.less less_end)).
Definition leaseTargets (statuses : list Status) : list Node :=
  go_sort node_less (statuses ≫= λ ps, reachableTargets ps ≫= target_nodes (s_ProfileID ps)).

Definition lease_malformed (l : EffectiveLease) : bool :=
  String.eqb (el_ProfileID l) "" || String.eqb (el_NodeID l) "" || negb (addr.IsValid (el_CanonicalIP l)) ||
  negb (addr.IsValid (el_EffectiveIP l)) || negb (eqb (addr.Is6 (el_CanonicalIP l)) (addr.Is6 (el_EffectiveIP l))).
Definition lease_from_state (l : EffectiveLease) : Lease :=
  MkLease (MkKey (el_ProfileID l) (el_NodeID l) (el_CanonicalIP l)) (el_EffectiveIP l).
Definition leasesFromState (ls : list EffectiveLease) : list Lease :=
  lease_from_state <$> filter (λ l, lease_malformed l = false) ls.
Definition lease_to_state (l : Lease) : EffectiveLease :=
  MkEffectiveLease (k_ProfileID (l_NodeKey l)) (k_NodeID (l_NodeKey l)) (k_CanonicalIP (l_NodeKey l)) (l_EffectiveIP l).
Definition leasesToState (ls : list Lease) : list EffectiveLease := lease_to_state <$> ls.

Inductive lease_error : Type :=
  | ELeasePool (ipv6 : bool) (raw : string)
  | ELeaseFamily (ipv6 : bool) (pool : Prefix)
  | EAssign (ipv6 : bool) (e : alloc_error).

Definition family_reserved (ipv6 : bool) (st : State) : list Addr :=
  if ipv6 then [st_NATIPv6 st] else [st_NATIP st; st_DNSIP st].
Definition of_family (ipv6 : bool) (l : Lease) : Prop := addr.Is6 (k_CanonicalIP (l_NodeKey l)) = ipv6.
#[export] Instance of_family_dec ipv6 l : Decision (of_family ipv6 l).
Proof. unfold of_family. apply _. Defined.
Definition assign_family (st : State) (nodes : list Node) (existing : list Lease) (ipv6 : bool) :
    result lease_error (list Lease) :=
  match ParsePrefix (pool_text ipv6 st) with
  | None => Err (ELeasePool ipv6 (pool_text ipv6 st))
  | Some pool =>
    _ ← guard_err (negb (eqb (addr.Is6 (p_addr pool)) ipv6)) (ELeaseFamily ipv6 pool);
    let familyNodes := filter (λ n, addr.Is6 (n_CanonicalIP n) = ipv6) nodes in
    let familyExisting := filter (of_family ipv6) existing in
    '(_, plan) ← wrap (EAssign ipv6)
      (Assign (NewAllocator pool familyExisting (family_reserved ipv6 st)) familyNodes);
    Ok (Leases plan)
  end.

Definition key_less : NodeKey → NodeKey → bool :=
  less_by k_ProfileID str_lt (less_by k_NodeID str_lt (less_by k_CanonicalIP addr.less less_end)).
Definition lease_key_less (a b : Lease) : bool := key_less (l_NodeKey a) (l_NodeKey b).
Definition insert_leases (m : gmap NodeKey Lease) (ls : list Lease) : gmap NodeKey Lease :=
  foldl (λ m l, <[l_NodeKey l := l]> m) m ls.
Definition mergeLeases (old active : list Lease) : list Lease :=
  go_sort lease_key_less (map_values (insert_leases (insert_leases ∅ old) active)).

Definition assignEffectiveIPs (st : State) (statuses : list Status) :
    result lease_error (list Lease * list Lease) :=
  let nodes := leaseTargets statuses in
  let existing := leasesFromState (st_Leases st) in
  active4 ← assign_family st nodes existing false;
  active6 ← assign_family st nodes existing true;
  let active := active4 ++ active6 in
  Ok (active, mergeLeases existing active).

(** ** Before a plan: refreshLeasesLocked *)

(** [fresh] is [statusFresh] of the managed profiles. *)
Definition status_observable (fresh : gmap string bool) (status : Status) : bool :=
  match fresh !! s_ProfileID status with
  | Some true => negb (bool_decide (s_SelfIPs status = []))
  | _ => false
  end.
Definition observable_profiles (fresh : gmap string bool) (statuses : list Status) : gset string :=
  list_to_set (s_ProfileID <$> filter (λ s, status_observable fresh s = true) statuses).
Definition present_targets (fresh : gmap string bool) (statuses : list Status) : gset NodeKey :=
  list_to_set (filter (λ s, status_observable fresh s = true) statuses ≫= λ s, node_key <$> leaseTargets [s]).
#[export] Instance EffectiveLease_eq_dec : EqDecision EffectiveLease.
Proof. solve_decision. Defined.
(** [save] is [store.Save], on the files [w]; a failure leaves the state in
    memory as it was, and the tracker without the dropped leases. *)
Definition refreshLeasesLocked {E W} (save : State → W → W * result E unit) (fresh : gmap string bool)
    (w : W) (st : State) (tracker : ActivityTracker) (statuses : list Status) (now : Z) :
    W * State * ActivityTracker * result E unit :=
  let '(tracker, retained) :=
    Retain tracker (leasesFromState (st_Leases st)) (present_targets fresh statuses)
      (observable_profiles fresh statuses) now in
  let next := leasesToState retained in
  if bool_decide (next = st_Leases st) then (w, st, tracker, Ok tt)
  else
    let st' := set_Leases st next in
    match save st' w with
    | (w, Err e) => (w, st, tracker, Err e)
    | (w, Ok _) => (w, st', tracker, Ok tt)
    end.

(** ** Leases that identify targets *)

(** One address per target and one target per address. *)
Definition leases_unique (ls : list Lease) : Prop := NoDup (l_NodeKey <$> ls) ∧ NoDup (l_EffectiveIP <$> ls).

#[export] Instance key_less_order : LessOrder key_less.
Proof. unfold key_less. apply _. Qed.
Lemma key_less_tie a b : key_less a b = false → key_less b a = false → a = b.
Proof.
  intros H1 H2. unfold key_less in *.
  apply less_by_tie in H1 as (? & H1 & H1'); [|apply _|done].
  apply less_by_tie in H1 as (? & H1 & H1''); [|apply _|done].
  apply less_by_tie in H1 as (? & _); [|apply _|done]. destruct a, b; simpl in *; congruence.
Qed.
#[export] Instance lease_key_less_order : LessOrder lease_key_less.
Proof. split; unfold lease_key_less; intros *; [apply less_asym|apply less_trans]. Qed.

Lemma NoDup_fmap_inj {A B} (f : A → B) l x y : NoDup (f <$> l) → x ∈ l → y ∈ l → f x = f y → x = y.
Proof.
  intros Hnd [i Hi]%list_elem_of_lookup [j Hj]%list_elem_of_lookup Hf.
  assert (i = j) as ->; [|congruence]. apply (NoDup_lookup (f <$> l) i j (f x) Hnd).
  - by rewrite list_lookup_fmap, Hi.
  - rewrite list_lookup_fmap, Hj, Hf. done.
Qed.
Lemma leases_unique_consistent ls : leases_unique ls → consistent_leases ls.
Proof.
  intros [_ Hnd] l1 l2 H1 H2 He. by rewrite (NoDup_fmap_inj l_EffectiveIP ls l1 l2).
Qed.
Lemma NoDup_fmap_filter {A B} (f : A → B) (P : A → Prop) `{∀ x, Decision (P x)} l :
  NoDup (f <$> l) → NoDup (f <$> filter P l).
Proof. intros Hnd. eapply sublist_NoDup; [exact Hnd|]. apply fmap_sublist, sublist_filter. Qed.

(** *** One family *)

Definition in_family_pool (st : State) (ipv6 : bool) (ip : Addr) : Prop :=
  ∃ pool, ParsePrefix (pool_text ipv6 st) = Some pool ∧ prefix.Contains pool ip = true.
(** What an existing lease must be to be kept. *)
Definition keepable (st : State) (l : Lease) : Prop :=
  addr.Is6 (k_CanonicalIP (l_NodeKey l)) = addr.Is6 (l_EffectiveIP l) ∧
  addr.IsValid (k_CanonicalIP (l_NodeKey l)) = true ∧
  in_family_pool st (addr.Is6 (l_EffectiveIP l)) (l_EffectiveIP l) ∧
  l_EffectiveIP l ∉ family_reserved (addr.Is6 (l_EffectiveIP l)) st.

Record family_plan (st : State) (nodes : list Node) (existing : list Lease) (ipv6 : bool) (out : list Lease) : Prop := {
  fp_nodes n : n ∈ nodes → addr.Is6 (n_CanonicalIP n) = ipv6 → ∃ ip, MkLease (node_key n) ip ∈ out;
  fp_key l : l ∈ out → ∃ n, n ∈ nodes ∧ node_key n = l_NodeKey l ∧ addr.Is6 (n_CanonicalIP n) = ipv6 ∧
                       addr.IsValid (n_CanonicalIP n) = true;
  fp_pool l : l ∈ out → in_family_pool st ipv6 (l_EffectiveIP l) ∧ l_EffectiveIP l ∉ family_reserved ipv6 st ∧
                        addr.Is6 (l_EffectiveIP l) = ipv6;
  fp_fun l l' : l ∈ out → l' ∈ out → l_NodeKey l = l_NodeKey l' → l = l';
  fp_inj l l' : l ∈ out → l' ∈ out → l_EffectiveIP l = l_EffectiveIP l' → l = l';
  (** No address of an existing lease goes to another target, and an existing
      lease of a target is its lease. *)
  fp_old l l' : l ∈ existing → keepable st l → l' ∈ out →
    l_EffectiveIP l = l_EffectiveIP l' ∨ l_NodeKey l = l_NodeKey l' → l = l' }.

Lemma assign_family_ok st nodes existing ipv6 out : leases_unique existing →
  assign_family st nodes existing ipv6 = Ok out → family_plan st nodes existing ipv6 out.
Proof.
  intros [Hnk Hni] H. unfold assign_family in H. destruct (ParsePrefix (pool_text ipv6 st)) as [pool|] eqn:Hp; [|done].
  ok_guard H as Hf%negb_false_iff%eqb_prop. apply bind_ok_inv in H as ([a' plan] & HA%wrap_ok_inv & [= <-]).
  set (ex := filter (of_family ipv6) existing) in *. set (fn := filter _ nodes) in *.
  pose proof (ParsePrefix_wf _ _ Hp) as [Hwf Hv].
  assert (Hu : leases_unique ex) by (split; by apply NoDup_fmap_filter).
  pose proof (NewAllocator_ok pool ex (family_reserved ipv6 st) Hwf (leases_unique_consistent _ Hu)) as Hok.
  destruct (NewAllocator_fields pool ex (family_reserved ipv6 st)) as [Epool Eres].
  pose proof (λ l, NewAllocator_leases pool ex (family_reserved ipv6 st) l (proj1 Hu)) as Hkeep.
  destruct (Assign_inv _ _ _ _ Hok HA) as [Ho [Hp' Hr'] Hg Hpl Hall Hls Hli _]. cbn [fst snd] in *.
  assert (Hpool : ∀ l, l ∈ Leases plan → prefix.Contains pool (l_EffectiveIP l) = true ∧
    l_EffectiveIP l ∉ family_reserved ipv6 st ∧ addr.Is6 (l_EffectiveIP l) = ipv6).
  { intros l Hl%Hls%Hpl. destruct Hl as [Hl _]. destruct (ok_leases _ Ho _ _ Hl) as [[Hc Hr] _].
    rewrite Hp', Epool, Contains_Masked in Hc by done. rewrite Hr', Eres, Contains_Masked in Hr by done.
    split_and!; [done|tauto|]. apply Contains_BitLen, Is6_BitLen in Hc. by rewrite Hc. }
  constructor.
  - intros n Hn Hfam. destruct (Hall n) as [ip Hip]; [by apply list_elem_of_filter|]. exists ip. by apply Hli.
  - intros l Hl%Hls%Hpl. destruct Hl as [_ (n & Hk & Hn)%list_elem_of_fmap].
    pose proof (Assign_checked _ _ _ _ HA Hn). apply list_elem_of_filter in Hn as [Hfam Hn]. eauto.
  - intros l Hl%Hpool. destruct Hl as (? & ? & ?). split_and!; [by exists pool|done|done].
  - intros [k ip] [k' ip'] H1%Hls H2%Hls. simpl in *. intros ->. congruence.
  - intros [k ip] [k' ip'] H1%Hls%Hpl H2%Hls%Hpl. simpl in *. intros ->. f_equal.
    apply (alloc_ok_inj a' _ _ ip' Ho); [apply H1|apply H2].
  - intros l l' Hl (Hfam & Hcv & (pool' & Hpp & Hc) & Hr) Hl' Heq.
    pose proof (Hpool l' Hl') as (_ & _ & Hf6). pose proof Hl' as [H2 (n & Hkey & [Hnf _]%list_elem_of_filter)%list_elem_of_fmap]%Hls%Hpl.
    assert (Hfl : addr.Is6 (l_EffectiveIP l) = ipv6).
    { destruct Heq as [Heq|Heq]; [by rewrite Heq|]. rewrite <-Hfam, Heq, Hkey. done. }
    rewrite Hfl in *. simplify_eq.
    assert (Hin : l ∈ ex) by (by apply list_elem_of_filter).
    assert (H1 : leases a' !! l_NodeKey l = Some (l_EffectiveIP l)).
    { eapply lookup_weaken; [|exact Hg]. apply Hkeep; [done|]. unfold usable_lease.
      rewrite Hcv, Hfam, Hfl, eqb_reflx, Contains_Masked, Hc, (Contains_addr_valid _ _ Hc) by done. cbn [andb].
      apply bool_decide_eq_true. rewrite Eres. tauto. }
    destruct l as [k ip], l' as [k' ip']. simpl in *. destruct Heq as [->| ->]; f_equal; [|congruence].
    by apply (alloc_ok_inj a' _ _ ip').
Qed.

(** *** Both families, and what is persisted *)

(** A list in which a key determines its lease. *)
Definition leases_fun (ls : list Lease) : Prop := ∀ l l', l ∈ ls → l' ∈ ls → l_NodeKey l = l_NodeKey l' → l = l'.
Lemma insert_leases_lookup m ls k l : leases_fun ls →
  insert_leases m ls !! k = Some l ↔ (l ∈ ls ∧ l_NodeKey l = k) ∨ (k ∉ l_NodeKey <$> ls ∧ m !! k = Some l).
Proof.
  unfold insert_leases. induction ls as [|x ls IH] using rev_ind; intros Hfun.
  { simpl. rewrite !elem_of_nil. tauto. }
  rewrite foldl_app. simpl. rewrite lookup_insert, fmap_app, !elem_of_snoc. simpl. rewrite elem_of_snoc. case_decide as Hk.
  - split.
    + intros [= <-]. auto.
    + intros [[Hin Hkl]|[Hno _]]; [|destruct Hno; auto]. f_equal. apply Hfun; [apply elem_of_snoc; auto..|congruence].
  - rewrite IH by (intros ????; apply Hfun; apply elem_of_snoc; auto). split.
    + intros [[? ?]|[? ?]]; [left; auto|right]. split; [|done]. intros [?|?]; done.
    + intros [[[?| ->] ?]|[? ?]]; [auto|done|right; auto].
Qed.
Lemma insert_leases_key m ls : (∀ k l, m !! k = Some l → l_NodeKey l = k) →
  ∀ k l, insert_leases m ls !! k = Some l → l_NodeKey l = k.
Proof.
  intros Hm. unfold insert_leases. induction ls as [|x ls IH] using rev_ind; [done|].
  intros k l. rewrite foldl_app. simpl. rewrite lookup_insert. case_decide; [intros [= <-]; done|apply IH].
Qed.
Lemma mergeLeases_ok old active : leases_fun old → leases_fun active →
  NoDup (l_NodeKey <$> mergeLeases old active) ∧
  ∀ l, l ∈ mergeLeases old active ↔ l ∈ active ∨ (l ∈ old ∧ l_NodeKey l ∉ l_NodeKey <$> active).
Proof.
  intros Ho Ha. unfold mergeLeases. set (m := insert_leases _ active).
  assert (Hkey : ∀ k l, m !! k = Some l → l_NodeKey l = k).
  { apply insert_leases_key, insert_leases_key. intros k l. by rewrite lookup_empty. }
  split.
  - rewrite (go_sort_Permutation lease_key_less). by apply (NoDup_map_values l_NodeKey).
  - intros l. rewrite elem_of_go_sort, (elem_of_map_values l_NodeKey) by done.
    unfold m. rewrite insert_leases_lookup, insert_leases_lookup, lookup_empty by done.
    split; [intros [[? _]|[? [[? _]|[_ ?]]]]|intros [?|[? ?]]]; auto; done.
Qed.

Lemma elem_of_leasesFromState ls l : l ∈ leasesFromState ls →
  addr.IsValid (k_CanonicalIP (l_NodeKey l)) = true ∧ addr.IsValid (l_EffectiveIP l) = true ∧
  addr.Is6 (k_CanonicalIP (l_NodeKey l)) = addr.Is6 (l_EffectiveIP l) ∧
  k_ProfileID (l_NodeKey l) ≠ "" ∧ k_NodeID (l_NodeKey l) ≠ "".
Proof.
  intros (x & -> & [Hx _]%list_elem_of_filter)%list_elem_of_fmap. unfold lease_malformed in Hx.
  rewrite !orb_false_iff, !negb_false_iff, eqb_true_iff in Hx. destruct Hx as [[[[Hp%String.eqb_neq Hn%String.eqb_neq] Hc] He] Hf].
  by simpl.
Qed.
Lemma leases_roundtrip ls : Forall (λ l, lease_malformed (lease_to_state l) = false) ls →
  leasesFromState (leasesToState ls) = ls.
Proof.
  unfold leasesFromState, leasesToState. induction 1 as [|[[p n c] e] ls Hl _ IH]; [done|].
  rewrite fmap_cons, filter_cons, decide_True by done. rewrite fmap_cons, IH. done.
Qed.
Lemma elem_of_leaseTargets statuses n : n ∈ leaseTargets statuses ↔
  ∃ s t, s ∈ statuses ∧ t ∈ reachableTargets s ∧ t_ID t ≠ "" ∧ n_ProfileID n = s_ProfileID s ∧
         n_NodeID n = t_ID t ∧ n_CanonicalIP n ∈ t_IPs t.
Proof.
  unfold leaseTargets. rewrite elem_of_go_sort, list_elem_of_bind. split.
  - intros (s & (t & Hn & Ht)%list_elem_of_bind & Hs). unfold target_nodes in Hn.
    destruct (String.eqb_spec (t_ID t) "") as [|Hid]; [by apply elem_of_nil in Hn|].
    apply list_elem_of_fmap in Hn as (ip & -> & Hip). exists s, t. done.
  - intros (s & t & Hs & Ht & Hid & Hp & Hn & Hip). exists s. split; [|done]. apply list_elem_of_bind. exists t.
    split; [|done]. unfold target_nodes. rewrite (proj2 (String.eqb_neq _ _) Hid). apply list_elem_of_fmap.
    exists (n_CanonicalIP n). destruct n. simpl in *. by subst.
Qed.

Record lease_plan (st : State) (nodes : list Node) (active all : list Lease) : Prop := {
  lp_nodes n : n ∈ nodes → ∃ ip, MkLease (node_key n) ip ∈ active;
  lp_key l : l ∈ active → ∃ n, n ∈ nodes ∧ node_key n = l_NodeKey l;
  lp_pool l : l ∈ active → addr.IsValid (k_CanonicalIP (l_NodeKey l)) = true ∧ keepable st l;
  lp_fun : leases_fun active;
  lp_inj l l' : l ∈ active → l' ∈ active → l_EffectiveIP l = l_EffectiveIP l' → l = l';
  lp_kept l : l ∈ leasesFromState (st_Leases st) → keepable st l → l_NodeKey l ∈ node_key <$> nodes → l ∈ active;
  lp_all l : l ∈ all ↔ l ∈ active ∨ (l ∈ leasesFromState (st_Leases st) ∧ l_NodeKey l ∉ node_key <$> nodes);
  lp_unique : leases_unique all;
  lp_sorted : StronglySorted (not_after lease_key_less) all }.

Section both.
Context (st : State) (nodes : list Node) (ex a4 a6 : list Lease).
Hypothesis H4 : family_plan st nodes ex false a4.
Hypothesis H6 : family_plan st nodes ex true a6.

Lemma both_family l : l ∈ a4 ++ a6 ↔ l ∈ if addr.Is6 (l_EffectiveIP l) then a6 else a4.
Proof using H4 H6.
  rewrite elem_of_app. split.
  - by intros [Hl|Hl]; [destruct (fp_pool _ _ _ _ _ H4 l Hl) as (_ & _ & ->)|destruct (fp_pool _ _ _ _ _ H6 l Hl) as (_ & _ & ->)].
  - destruct (addr.Is6 _); auto.
Qed.
Lemma both_plan ipv6 : family_plan st nodes ex ipv6 (if ipv6 then a6 else a4).
Proof using H4 H6. by destruct ipv6. Qed.
Lemma both_key l : l ∈ a4 ++ a6 → addr.Is6 (k_CanonicalIP (l_NodeKey l)) = addr.Is6 (l_EffectiveIP l) ∧
  addr.IsValid (k_CanonicalIP (l_NodeKey l)) = true ∧ ∃ n, n ∈ nodes ∧ node_key n = l_NodeKey l.
Proof using H4 H6.
  intros Hl%both_family. destruct (fp_key _ _ _ _ _ (both_plan _) l Hl) as (n & Hn & <- & Hf & Hv).
  split_and!; [done|done|eauto].
Qed.
Lemma both_fun : leases_fun (a4 ++ a6).
Proof using H4 H6.
  intros l l' Hl Hl' Hk. pose proof (both_key l Hl) as [Hf _]. pose proof (both_key l' Hl') as [Hf' _].
  apply both_family in Hl, Hl'. rewrite <-Hf' , <-Hk, Hf in Hl'. by apply (fp_fun _ _ _ _ _ (both_plan _) l l' Hl Hl').
Qed.
Lemma both_inj l l' : l ∈ a4 ++ a6 → l' ∈ a4 ++ a6 → l_EffectiveIP l = l_EffectiveIP l' → l = l'.
Proof using H4 H6.
  intros Hl%both_family Hl'%both_family He. rewrite <-He in Hl'. by apply (fp_inj _ _ _ _ _ (both_plan _) l l' Hl Hl').
Qed.
Lemma both_keepable l : l ∈ a4 ++ a6 → keepable st l.
Proof using H4 H6.
  intros Hl. pose proof (both_key l Hl) as (Hf & Hv & _). apply both_family in Hl.
  destruct (fp_pool _ _ _ _ _ (both_plan _) l Hl) as (? & ? & _). done.
Qed.
Lemma both_old l l' : l ∈ ex → keepable st l → l' ∈ a4 ++ a6 →
  l_EffectiveIP l = l_EffectiveIP l' ∨ l_NodeKey l = l_NodeKey l' → l = l'.
Proof using H4 H6. intros Hl Hk Hl'%both_family. by apply (fp_old _ _ _ _ _ (both_plan (addr.Is6 (l_EffectiveIP l')))). Qed.
Lemma both_nodes n : n ∈ nodes → ∃ ip, MkLease (node_key n) ip ∈ a4 ++ a6.
Proof using H4 H6.
  intros Hn. destruct (fp_nodes _ _ _ _ _ (both_plan (addr.Is6 (n_CanonicalIP n))) n Hn eq_refl) as [ip Hip].
  exists ip. apply elem_of_app. destruct (addr.Is6 (n_CanonicalIP n)); auto.
Qed.
Lemma both_keys k : k ∈ l_NodeKey <$> (a4 ++ a6) ↔ k ∈ node_key <$> nodes.
Proof using H4 H6.
  split.
  - intros (l & -> & (_ & _ & n & Hn & <-)%both_key)%list_elem_of_fmap. by apply list_elem_of_fmap_2.
  - intros (n & -> & [ip Hip]%both_nodes)%list_elem_of_fmap. by apply (list_elem_of_fmap_2 l_NodeKey) in Hip.
Qed.

(** An existing lease with the address of an active one could have been kept. *)
Lemma both_conflict l l' : l ∈ a4 ++ a6 → addr.IsValid (k_CanonicalIP (l_NodeKey l')) = true →
  addr.Is6 (k_CanonicalIP (l_NodeKey l')) = addr.Is6 (l_EffectiveIP l') →
  l_EffectiveIP l = l_EffectiveIP l' → keepable st l'.
Proof using H4 H6. intros Hl Hv Hf He. pose proof (both_keepable l Hl) as (_ & _ & Hp & Hr). rewrite He in Hp, Hr. by split_and!. Qed.

Lemma both_merged : leases_unique ex → (∀ l, l ∈ ex → addr.IsValid (k_CanonicalIP (l_NodeKey l)) = true ∧
    addr.Is6 (k_CanonicalIP (l_NodeKey l)) = addr.Is6 (l_EffectiveIP l)) →
  (∀ l, l ∈ mergeLeases ex (a4 ++ a6) ↔ l ∈ a4 ++ a6 ∨ (l ∈ ex ∧ l_NodeKey l ∉ node_key <$> nodes)) ∧
  leases_unique (mergeLeases ex (a4 ++ a6)).
Proof using H4 H6.
  intros [Hk Hi] Hex.
  assert (Hfex : leases_fun ex) by (intros l l' Hl Hl'; by apply (NoDup_fmap_inj l_NodeKey ex)).
  destruct (mergeLeases_ok ex (a4 ++ a6) Hfex both_fun) as [Hnd Hin].
  assert (Hin' : ∀ l, l ∈ mergeLeases ex (a4 ++ a6) ↔ l ∈ a4 ++ a6 ∨ (l ∈ ex ∧ l_NodeKey l ∉ node_key <$> nodes)).
  { intros l. by rewrite Hin, both_keys. }
  split; [done|]. split; [done|]. apply NoDup_fmap_2_strong; [|by apply NoDup_fmap_1 in Hnd].
  assert (Hcross : ∀ l l', l ∈ a4 ++ a6 → l' ∈ ex → l_EffectiveIP l = l_EffectiveIP l' → l' = l).
  { intros l l' Hl Hl' He. destruct (Hex l' Hl') as [Hv Hf]. apply (both_old l' l Hl'); [by apply (both_conflict l)|done|auto]. }
  intros l l' [Hl|[Hl _]]%Hin' [Hl'|[Hl' _]]%Hin' He; [by apply both_inj|symmetry; by apply Hcross|by apply Hcross|].
  by apply (NoDup_fmap_inj l_EffectiveIP ex).
Qed.
End both.

Lemma assign_plan st statuses active all : leases_unique (leasesFromState (st_Leases st)) →
  assignEffectiveIPs st statuses = Ok (active, all) → lease_plan st (leaseTargets statuses) active all.
Proof.
  intros Hu H. unfold assignEffectiveIPs in H. ok_inv H as a4 H4. ok_inv H as a6 H6. injection H as <- <-.
  apply assign_family_ok in H4; [|done]. apply assign_family_ok in H6; [|done].
  destruct (both_merged _ _ _ _ _ H4 H6 Hu) as [Hall Huall].
  { intros l (? & _ & ? & _)%elem_of_leasesFromState. done. }
  constructor; try done.
  - by apply (both_nodes _ _ _ _ _ H4 H6).
  - intros l (_ & _ & ?)%(both_key _ _ _ _ _ H4 H6). done.
  - intros l Hl. split; [|by apply (both_keepable _ _ _ _ _ H4 H6)].
    by apply (both_key _ _ _ _ _ H4 H6) in Hl as (_ & ? & _).
  - by apply (both_fun _ _ _ _ _ H4 H6).
  - by apply (both_inj _ _ _ _ _ H4 H6).
  - intros l Hl Hk (l' & Hkey & Hl')%(both_keys _ _ _ _ _ H4 H6)%list_elem_of_fmap.
    rewrite (both_old _ _ _ _ _ H4 H6 l l' Hl Hk Hl'); auto.
  - apply go_sort_sorted, _.
Qed.

(** The leases to persist are determined by what they are. *)
Lemma all_leases_unique st nodes active all st' nodes' active' all' :
  lease_plan st nodes active all → lease_plan st' nodes' active' all' → (∀ l, l ∈ all ↔ l ∈ all') → all = all'.
Proof.
  intros H H' Hin. destruct (lp_unique _ _ _ _ H) as [Hk _], (lp_unique _ _ _ _ H') as [Hk' _].
  apply (StronglySorted_unique_strong (not_after lease_key_less)).
  - intros x y Hx Hy H1 H2. apply Hin in Hy. apply (NoDup_fmap_inj l_NodeKey all); [done..|]. by apply key_less_tie.
  - apply (lp_sorted _ _ _ _ H).
  - apply (lp_sorted _ _ _ _ H').
  - apply NoDup_Permutation; [by apply NoDup_fmap_1 in Hk|by apply NoDup_fmap_1 in Hk'|done].
Qed.

(** What is persisted is read back. *)
Lemma plan_roundtrip st statuses active all : Forall (λ s, s_ProfileID s ≠ "") statuses →
  lease_plan st (leaseTargets statuses) active all → leasesFromState (leasesToState all) = all.
Proof.
  intros Hids [Hn Hk Hp Hf Hi Hkept Hall Huall _].
  apply leases_roundtrip, Forall_forall. intros l Hl. unfold lease_malformed. simpl.
  assert (Hids' : k_ProfileID (l_NodeKey l) ≠ "" ∧ k_NodeID (l_NodeKey l) ≠ "" ∧
    addr.IsValid (k_CanonicalIP (l_NodeKey l)) = true ∧ addr.IsValid (l_EffectiveIP l) = true ∧
    addr.Is6 (k_CanonicalIP (l_NodeKey l)) = addr.Is6 (l_EffectiveIP l)).
  { apply Hall in Hl as [Hl|[(? & ? & ? & ? & ?)%elem_of_leasesFromState _]]; [|done].
    destruct (Hk l Hl) as (n & (s & t & Hs & _ & Hid & Hpid & Hnid & _)%elem_of_leaseTargets & Heq).
    destruct (Hp l Hl) as (Hv & Hfam & _ & (pool & _ & Hc) & _). rewrite <-Heq in Hv, Hfam |- *.
    simpl. rewrite Hpid, Hnid.
    split_and!; [exact (proj1 (Forall_forall _ _) Hids s Hs)|done|done|by eapply Contains_addr_valid|done]. }
  destruct Hids' as (H1%String.eqb_neq & H2%String.eqb_neq & -> & -> & ->). by rewrite H1, H2, eqb_reflx.
Qed.

(** C30. If no two persisted leases share a target or an address, the plan gives
    every target of every profile exactly one effective address, of its family,
    in that family's pool and none of the daemon's own; no two targets share
    one; a persisted lease that still fits is kept.  The leases to persist are
    the active ones and those of absent targets, again without sharing, and
    reading them back gives the same leases: so this holds of every plan of a
    daemon that started without leases. *)
Theorem assignEffectiveIPs_sound (st : State) (statuses : list Status) (active all : list Lease) :
  leases_unique (leasesFromState (st_Leases st)) → Forall (λ s, s_ProfileID s ≠ "") statuses →
  assignEffectiveIPs st statuses = Ok (active, all) →
  (∀ n, n ∈ leaseTargets statuses → ∃ ip, ∀ ip', MkLease (node_key n) ip' ∈ active ↔ ip' = ip) ∧
  (∀ l l', l ∈ active → l' ∈ active → l_EffectiveIP l = l_EffectiveIP l' → l_NodeKey l = l_NodeKey l') ∧
  (∀ l, l ∈ active → l_NodeKey l ∈ node_key <$> leaseTargets statuses ∧ keepable st l) ∧
  (∀ l, l ∈ leasesFromState (st_Leases st) → keepable st l → l_NodeKey l ∈ node_key <$> leaseTargets statuses → l ∈ active) ∧
  (∀ l, l ∈ all ↔ l ∈ active ∨
     (l ∈ leasesFromState (st_Leases st) ∧ l_NodeKey l ∉ node_key <$> leaseTargets statuses)) ∧
  leasesFromState (leasesToState all) = all ∧ leases_unique (leasesFromState (leasesToState all)).
Proof.
  intros Hu Hids H. destruct (assign_plan _ _ _ _ Hu H) as [Hn Hk Hp Hf Hi Hkept Hall Huall _].
  pose proof (plan_roundtrip _ _ _ _ Hids (assign_plan _ _ _ _ Hu H)) as Hround.
  split_and!; try done.
  - intros n Hnn. destruct (Hn n Hnn) as [ip Hip]. exists ip. intros ip'. split; [|by intros ->].
    intros Hip'. by injection (Hf _ _ Hip Hip' eq_refl).
  - intros l l' Hl Hl' He. by rewrite (Hi l l' Hl Hl' He).
  - intros l Hl. destruct (Hk l Hl) as (n & Hnn & <-). split; [by apply list_elem_of_fmap_2|by apply Hp].
  - by rewrite Hround.
Qed.

(** *** Reclamation *)

Lemma elem_of_observable fresh statuses id : id ∈ observable_profiles fresh statuses ↔
  ∃ s, s ∈ statuses ∧ s_ProfileID s = id ∧ fresh !! id = Some true ∧ s_SelfIPs s ≠ [].
Proof.
  unfold observable_profiles. rewrite elem_of_list_to_set, list_elem_of_fmap. unfold status_observable. split.
  - intros (s & -> & [Ho Hs]%list_elem_of_filter). exists s. destruct (fresh !! s_ProfileID s) as [[]|]; [|done..].
    by apply negb_true_iff, bool_decide_eq_false in Ho.
  - intros (s & Hs & <- & Hf & Hself). exists s. split; [done|]. apply list_elem_of_filter. rewrite Hf. split; [|done].
    by apply negb_true_iff, bool_decide_eq_false.
Qed.
Lemma elem_of_present fresh statuses k : k ∈ present_targets fresh statuses →
  k_ProfileID k ∈ observable_profiles fresh statuses ∧ k ∈ node_key <$> leaseTargets statuses.
Proof.
  unfold present_targets. rewrite elem_of_list_to_set. intros (s & (n & -> & Hn)%list_elem_of_fmap & Hs)%list_elem_of_bind.
  apply elem_of_leaseTargets in Hn as (s' & t & ->%list_elem_of_singleton & Ht & Hid & Hp & Hnid & Hip). split.
  - unfold observable_profiles. rewrite elem_of_list_to_set. simpl. rewrite Hp. by apply (list_elem_of_fmap_2 s_ProfileID).
  - apply list_elem_of_fmap_2, elem_of_leaseTargets. apply list_elem_of_filter in Hs as [_ Hs].
    by exists s, t.
Qed.

Lemma refresh_saves {E W} (save : State → W → W * result E unit) fresh w st tracker statuses now w' st' tracker' r :
  refreshLeasesLocked save fresh w st tracker statuses now = (w', st', tracker', r) →
  w' = w ∧ st' = st ∧ r = Ok tt ∨
  ∃ ls, save (set_Leases st ls) w = (w', r) ∧ st' = (if is_ok r then set_Leases st ls else st).
Proof.
  unfold refreshLeasesLocked. destruct (Retain _ _ _ _ _) as [tr ret].
  destruct (bool_decide_reflect (leasesToState ret = st_Leases st)) as [He|He].
  { intros [= <- <- _ <-]. by left. }
  destruct (save _ _) as [w1 [[]|err]] eqn:Es; intros [= <- <- _ <-]; right; eauto.
Qed.
Lemma refresh_facts {E W} (save : State → W → W * result E unit) fresh w st tracker statuses now w' st' tracker' r ip l :
  refreshLeasesLocked save fresh w st tracker statuses now = (w', st', tracker', r) →
  (st' = st ∨ st' = set_Leases st (st_Leases st')) ∧
  sublist (leasesFromState (st_Leases st')) (leasesFromState (st_Leases st)) ∧
  (is_ok r = false → st' = st) ∧
  (is_ok r = true → sole_lease (leasesFromState (st_Leases st)) ip l →
   lease_to_state l ∉ st_Leases st' →
   l_NodeKey l ∉ present_targets fresh statuses ∧
   k_ProfileID (l_NodeKey l) ∈ observable_profiles fresh statuses ∧
   ∃ e, tracker !! ip = Some e ∧ e_key e = l_NodeKey l ∧ e_present e = false ∧ LeaseRetention <= now - e_lastSeen e).
Proof.
  unfold refreshLeasesLocked. set (ex := leasesFromState (st_Leases st)).
  set (pr := present_targets fresh statuses). set (ob := observable_profiles fresh statuses).
  pose proof (Retain_sublist tracker pr ob now ex) as Hsub.
  assert (Hret : sole_lease ex ip l → l ∉ (Retain tracker ex pr ob now).2 →
    l_NodeKey l ∉ pr ∧ k_ProfileID (l_NodeKey l) ∈ ob ∧
    ∃ e, tracker !! ip = Some e ∧ e_key e = l_NodeKey l ∧ e_present e = false ∧ LeaseRetention <= now - e_lastSeen e).
  { intros Hsole Hdrop. destruct (Retain_lookup tracker pr ob now ex ip l Hsole) as [_ Hin]. rewrite Hin in Hdrop.
    unfold retain_entry in Hdrop.
    destruct (bool_decide_reflect (l_NodeKey l ∈ pr)), (bool_decide_reflect (k_ProfileID (l_NodeKey l) ∈ ob));
      try (by destruct Hdrop; eauto). split_and!; [done|done|]. cbn [orb negb] in Hdrop. unfold known_entry in Hdrop.
    destruct (tracker !! ip) as [en|]; [|by destruct Hdrop; eauto]. exists en.
    destruct (decide (e_key en = l_NodeKey l)); [|by destruct Hdrop; eauto].
    destruct (e_present en); [by destruct Hdrop; eauto|]. destruct (Z.leb_spec LeaseRetention (now - e_lastSeen en)); [done|].
    by destruct Hdrop; eauto. }
  destruct (Retain tracker ex pr ob now) as [tr ret]. cbn [fst snd] in *.
  assert (Hround : leasesFromState (leasesToState ret) = ret).
  { apply leases_roundtrip, Forall_forall. intros x Hx. eapply elem_of_sublist in Hx; [|done].
    apply list_elem_of_fmap in Hx as (y & -> & [Hy _]%list_elem_of_filter). by destruct y. }
  assert (Hto : ∀ x, lease_to_state x ∉ leasesToState ret → x ∉ ret).
  { intros x Hx Hin. apply Hx. unfold leasesToState. by apply list_elem_of_fmap_2. }
  destruct (bool_decide_reflect (leasesToState ret = st_Leases st)) as [He|He].
  { intros [= <- <- <- <-]. rewrite <-He. split_and!; [by left|by rewrite Hround|done|]. auto. }
  destruct (save _ _) as [w1 [u|err]]; intros [= <- <- <- <-].
  - split_and!; [by right|by cbn [st_Leases set_Leases]; rewrite Hround|done|]. cbn [st_Leases set_Leases]. auto.
  - split_and!; [by left|done|done|done].
Qed.

(** Before a plan the daemon only drops leases, writes nothing else, and
    keeps its state when saving fails.  A lease survives unless its profile was
    observed (a fresh status with an address of its own) without the target, the
    tracker knows the lease, and it has been idle for [LeaseRetention]. *)
Theorem refreshLeases_keeps {E W} (save : State → W → W * result E unit) fresh w st tracker statuses now w' st' tracker' r ip l :
  refreshLeasesLocked save fresh w st tracker statuses now = (w', st', tracker', r) →
  (st' = st ∨ st' = set_Leases st (st_Leases st')) ∧
  sublist (leasesFromState (st_Leases st')) (leasesFromState (st_Leases st)) ∧
  (is_ok r = false → st' = st) ∧
  (is_ok r = true → sole_lease (leasesFromState (st_Leases st)) ip l →
   lease_to_state l ∉ st_Leases st' →
   l_NodeKey l ∉ present_targets fresh statuses ∧
   k_ProfileID (l_NodeKey l) ∈ observable_profiles fresh statuses ∧
   ∃ e, tracker !! ip = Some e ∧ e_key e = l_NodeKey l ∧ e_present e = false ∧ LeaseRetention <= now - e_lastSeen e).
Proof. apply refresh_facts. Qed.

(** ** A concrete plan *)

(** Two profiles of one tailnet; each also has a machine shared with it alone,
    and the state keeps the lease of a machine that is gone. *)
Definition peer_status (id name : string) (ip : Addr) : PeerStatus :=
  MkPeerStatus id name "" "" [ip] true 0 0 0 false false None.
Definition corp_status (id name : string) (peers : list PeerStatus) (routes : list RouteStatus) (exit : string) : Status :=
  MkStatus id "" "tailscale" "corp.ts.net" "Running" "" "" name [Addr4 1681915905] peers [] 2 false routes [] [] true exit "" 0.
Definition corp_statuses : list Status :=
  [corp_status "home" "me.corp.ts.net" [peer_status "n1" "db.corp.ts.net" (Addr4 1681915906);
                                        peer_status "n2" "box.alpha.ts.net" (Addr4 1681915907)] [] "";
   corp_status "work" "pc.corp.ts.net" [peer_status "n3" "box.beta.ts.net" (Addr4 1681915906)]
     [MkRouteStatus (MkPrefix (Addr4 167837696) 16) "n3"] ""].
Definition gone_lease : EffectiveLease := MkEffectiveLease "work" "gone" (Addr4 1681915913) (Addr4 1686044749).
Definition corp_profile (id : string) : Profile := MkProfile id id "" "tailscale" "" "" "" false false false false None "" false.
Definition corp_state : State :=
  set_IPRouteBindings (set_Leases (set_Profiles hosted [corp_profile "home"; corp_profile "work"]) [gone_lease])
    [MkIPBinding (MkPrefix (Addr4 167837696) 16) "work"].
Definition corp_leases : list Lease * list Lease :=
  match assignEffectiveIPs corp_state corp_statuses with Ok r => r | Err _ => ([], []) end.

Lemma corp_unique : leases_unique (leasesFromState (st_Leases corp_state)).
Proof. split; vm_compute; repeat constructor; by intros ?%elem_of_nil. Qed.
Lemma corp_ids : Forall (λ s, s_ProfileID s ≠ "") corp_statuses.
Proof. by repeat constructor. Qed.
Lemma assignEffectiveIPs_sound_witness :
  length corp_leases.1 = 3%nat ∧ leases_unique (leasesFromState (leasesToState corp_leases.2)).
Proof.
  split; [vm_compute; reflexivity|].
  assert (H : assignEffectiveIPs corp_state corp_statuses = Ok (corp_leases.1, corp_leases.2)) by (vm_compute; reflexivity).
  pose proof (assignEffectiveIPs_sound corp_state corp_statuses _ _ corp_unique corp_ids H) as (_ & _ & _ & _ & _ & _ & Hu).
  exact Hu.
Defined.

(** The machine that is gone was last used an hour ago. *)
Definition idle_tracker : ActivityTracker := {[ Addr4 1686044749 := MkEntry (MkKey "work" "gone" (Addr4 1681915913)) 0 false ]}.
Definition all_fresh : gmap string bool := <["home" := true]> (<["work" := true]> ∅).
Lemma refreshLeases_keeps_witness :
  let r := refreshLeasesLocked (λ _ _, (tt, Ok tt : result unit unit)) all_fresh tt corp_state idle_tracker corp_statuses LeaseRetention in
  st_Leases r.1.1.2 = [] ∧ "work" ∈ observable_profiles all_fresh corp_statuses.
Proof.
  intros r. split; [vm_compute; reflexivity|].
  set (l := lease_from_state gone_lease).
  assert (Hs : sole_lease (leasesFromState (st_Leases corp_state)) (Addr4 1686044749) l).
  { split; [vm_compute; reflexivity|]. exists [], []. split; [vm_compute; reflexivity|]. by intros x ?%elem_of_nil. }
  assert (Hn : lease_to_state l ∉ st_Leases r.1.1.2).
  { replace (st_Leases r.1.1.2) with (@nil EffectiveLease) by (vm_compute; reflexivity). apply not_elem_of_nil. }
  destruct (refreshLeases_keeps (λ _ _, (tt, Ok tt : result unit unit)) all_fresh tt corp_state idle_tracker corp_statuses
    LeaseRetention r.1.1.1 r.1.1.2 r.1.2 r.2 (Addr4 1686044749) l) as (_ & _ & _ & H).
  - unfold r. destruct (refreshLeasesLocked _ _ _ _ _ _ _) as [[[? ?] ?] ?]. reflexivity.
  - exact (proj1 (proj2 (H eq_refl Hs Hn))).
Defined.
