(* ===== verification/Candidates.v ===== *)
(** * Candidate tables

    Both route builders collect offers into a map from a key (a prefix or a
    domain) to candidate entries, at most one per profile, and install an entry
    only when its key has a single candidate.  This file states that pattern
    once: [add_candidate] is the loop of [addIPCandidate] and
    [addDNSCandidate], and [candidates_ok] is what the table satisfies. *)

From S2P Require Import Prelude.

Section candidates.
Context {K E O : Type} `{Countable K} (key : O → K) (entry : O → E) (id : E → string).
Context (better : E → E → bool).

(** [better c e]: the new entry [e] replaces the profile's candidate [c]. *)
Fixpoint add_candidate (candidates : list E) (e : E) : list E :=
  match candidates with
  | [] => [e]
  | c :: rest =>
    if negb (String.eqb (id c) (id e)) then c :: add_candidate rest e
    else if better c e then e :: rest else candidates
  end.
Definition add_offer (m : gmap K (list E)) (o : O) : gmap K (list E) :=
  <[key o := add_candidate (default [] (m !! key o)) (entry o)]> m.
Definition candidate_table (os : list O) : gmap K (list E) := foldl add_offer ∅ os.

Lemma add_candidate_ids l e :
  id <$> add_candidate l e =
    if decide (id e ∈ id <$> l) then id <$> l else (id <$> l) ++ [id e].
Proof.
  induction l as [|c l IH]; [rewrite decide_False; [done|by intros ?%elem_of_nil]|].
  cbn [add_candidate]. rewrite !fmap_cons.
  destruct (String.eqb_spec (id c) (id e)) as [He|Hne]; cbn [negb].
  - rewrite decide_True by (rewrite He; by left). clear IH.
    destruct (better c e); simpl; by rewrite ?He.
  - rewrite fmap_cons, IH.
    destruct (decide (id e ∈ id <$> l)) as [Hd|Hd];
      destruct (decide (id e ∈ id c :: (id <$> l))) as [Hd0|Hd0]; try done; exfalso.
    + apply Hd0. by right.
    + apply elem_of_cons in Hd0 as [?|?]; [congruence|done].
Qed.
Lemma add_candidate_elem l e x : x ∈ add_candidate l e → x = e ∨ x ∈ l.
Proof.
  induction l as [|c l IH]; simpl; [intros ->%list_elem_of_singleton; by left|].
  repeat case_match.
  - intros [->|Hx]%elem_of_cons; [right; by left|]. destruct (IH Hx); [by left|right; by right].
  - intros [->|Hx]%elem_of_cons; [by left|right; by right].
  - by right.
Qed.

(** Every key offered has its candidates: one per offering profile. *)
Record candidates_ok (os : list O) (m : gmap K (list E)) : Prop := {
  co_ids k l : m !! k = Some l → NoDup (id <$> l) ∧ l ≠ [];
  co_sound k l e : m !! k = Some l → e ∈ l → ∃ o, o ∈ os ∧ e = entry o ∧ key o = k;
  co_complete o : o ∈ os → ∃ l, m !! key o = Some l ∧ id (entry o) ∈ id <$> l }.

Lemma candidate_table_ok os : candidates_ok os (candidate_table os).
Proof.
  unfold candidate_table. induction os as [|o os IH] using rev_ind.
  { split; simpl.
    - intros k l. by rewrite lookup_empty.
    - intros k l e. by rewrite lookup_empty.
    - by intros o ?%elem_of_nil. }
  destruct IH as [Hids Hsound Hcomp]. rewrite foldl_app. simpl.
  set (m := foldl add_offer ∅ os) in *. unfold add_offer. set (q := key o).
  assert (Hold : NoDup (id <$> default [] (m !! q))).
  { destruct (m !! q) as [l|] eqn:El; simpl; [by apply (Hids q l)|apply NoDup_nil_2]. }
  pose proof (add_candidate_ids (default [] (m !! q)) (entry o)) as Hadd.
  pose proof (add_candidate_elem (default [] (m !! q)) (entry o)) as Helem.
  assert (id (entry o) ∈ id <$> add_candidate (default [] (m !! q)) (entry o)) as Hid.
  { rewrite Hadd. case_decide; [done|]. apply elem_of_app. right. by left. }
  revert Hadd Helem Hid. generalize (add_candidate (default [] (m !! q)) (entry o)).
  intros l0 Hadd Helem Hid. split.
  - intros k l. destruct (decide (q = k)) as [<-|Hne]; [|rewrite lookup_insert_ne by done; apply Hids].
    rewrite lookup_insert_eq. intros [= <-]. split.
    + rewrite Hadd. case_decide; [done|]. by apply NoDup_snoc.
    + intros Hnil. rewrite Hnil in Hid. by apply elem_of_nil in Hid.
  - intros k l e. destruct (decide (q = k)) as [<-|Hne].
    + rewrite lookup_insert_eq. intros [= <-] [->|Hin]%Helem.
      * exists o. split_and!; [apply elem_of_app; right; by left|done|done].
      * destruct (m !! q) as [l|] eqn:El; simpl in Hin; [|by apply elem_of_nil in Hin].
        destruct (Hsound q l e El Hin) as (o' & ? & ? & ?). exists o'.
        split_and!; [apply elem_of_app; by left|done|done].
    + rewrite lookup_insert_ne by done. intros Hl Hin.
      destruct (Hsound k l e Hl Hin) as (o' & ? & ? & ?). exists o'.
      split_and!; [apply elem_of_app; by left|done|done].
  - intros o' [Hin| ->%list_elem_of_singleton]%elem_of_app; [|exists l0; by rewrite lookup_insert_eq].
    destruct (Hcomp o' Hin) as (l & Hl & Hil). destruct (decide (q = key o')) as [He|Hne].
    + rewrite <-He in *. exists l0. rewrite lookup_insert_eq. split; [done|].
      rewrite Hl in Hadd. simpl in *. rewrite Hadd. case_decide; [done|]. apply elem_of_app. by left.
    + exists l. by rewrite lookup_insert_ne.
Qed.

(** The key [k] is offered by profile [p] and by nobody else. *)
Definition sole_offer (os : list O) (k : K) (p : string) : Prop :=
  (∃ o, o ∈ os ∧ key o = k ∧ id (entry o) = p) ∧
  ∀ o, o ∈ os → key o = k → id (entry o) = p.

(** A key has a single candidate exactly when a single profile offers it. *)
Lemma single_candidate os k l :
  candidate_table os !! k = Some l →
  (∀ e, l = [e] → sole_offer os k (id e) ∧ ∃ o, o ∈ os ∧ e = entry o ∧ key o = k) ∧
  (∀ p, sole_offer os k p → ∃ e, l = [e] ∧ id e = p).
Proof.
  intros Hl. destruct (candidate_table_ok os) as [Hids Hsound Hcomp].
  destruct (Hids k l Hl) as [Hnd Hne]. split.
  - intros e ->. destruct (Hsound k [e] e Hl ltac:(by left)) as (o & Ho & He & Hk).
    split; [split|by exists o].
    + exists o. by rewrite He.
    + intros o' Ho' Hk'. destruct (Hcomp o' Ho') as (l' & Hl' & Hin).
      rewrite Hk', Hl in Hl'. injection Hl' as <-. by apply list_elem_of_singleton in Hin.
  - intros p [_ Huniq]. destruct l as [|e1 [|e2 l]]; [done| |].
    + exists e1. split; [done|]. destruct (Hsound k [e1] e1 Hl ltac:(by left)) as (o & Ho & -> & Hk).
      by apply Huniq.
    + exfalso. destruct (Hsound k _ e1 Hl ltac:(by left)) as (o1 & Ho1 & -> & Hk1).
      destruct (Hsound k _ e2 Hl ltac:(by right; left)) as (o2 & Ho2 & -> & Hk2).
      pose proof (Huniq _ Ho1 Hk1) as E1. pose proof (Huniq _ Ho2 Hk2) as E2.
      rewrite !fmap_cons in Hnd. apply NoDup_cons in Hnd as [Hnd _]. apply Hnd.
      rewrite E1, E2. by left.
Qed.
Lemma table_key os k : is_Some (candidate_table os !! k) ↔ ∃ o, o ∈ os ∧ key o = k.
Proof.
  destruct (candidate_table_ok os) as [Hids Hsound Hcomp]. split.
  - intros [l Hl]. destruct (Hids k l Hl) as [_ Hne]. destruct l as [|e l]; [done|].
    destruct (Hsound k _ e Hl ltac:(by left)) as (o & ? & _ & ?). eauto.
  - intros (o & Ho & <-). destruct (Hcomp o Ho) as (l & Hl & _). eauto.
Qed.
End candidates.
