(* ===== verification/RoutingPolicy.v ===== *)
(** * The IP routing policy

    [src/routingpolicy/policy.go], the IP half: which profile each bound or
    imported prefix is routed to, and why an entry is inactive.  [BuildIP] is
    a function of the persisted state and of the statuses the running profiles
    report.  Go's iteration order over [importCandidates] is arbitrary; the
    entries are sorted afterwards, and the theorems do not depend on it. *)

From S2P Require Import Prelude GoStrings Netip RoutingTable DNSName State Types Candidates.
Import netip_facts.
Local Open Scope Z_scope.

Record IPEntry : Type := MkIPEntry {
  ie_Prefix : Prefix; ie_ProfileID : string; ie_Policy : string; ie_Active : bool;
  ie_Reason : string; ie_CoveringRoute : Prefix; ie_PrimaryRouter : string;
  ie_OverriddenBy : Prefix }.
Record IPPlan : Type := MkIPPlan {
  ip_Exact : list IPEntry; ip_Imported : list IPEntry; ip_Resource : api.IPRoutes }.
#[export] Instance IPEntry_eq_dec : EqDecision IPEntry.
Proof. solve_decision. Defined.

Definition profileName (p : Profile) : string :=
  if negb (String.eqb (pr_Name p) "") then pr_Name p else pr_ID p.
Definition profileAvailable (s : Status) : bool :=
  String.eqb (s_BackendState s) "" || String.eqb (s_BackendState s) "Running".

(** The lookup maps of both builders; a later element replaces an earlier one. *)
Definition profiles_by_id (ps : list Profile) : gmap string Profile :=
  foldl (λ m p, <[pr_ID p := p]> m) ∅ ps.
Definition names_by_id (ps : list Profile) : gmap string string :=
  foldl (λ m p, <[pr_ID p := profileName p]> m) ∅ ps.
Definition status_by_id (ss : list Status) : gmap string Status :=
  foldl (λ m s, <[s_ProfileID s := s]> m) ∅ ss.
Definition name_of (names : gmap string string) (id : string) : string := default "" (names !! id).

(** The status of a profile that can carry traffic: [active && profileAvailable]. *)
Definition active_status (statuses : gmap string Status) (id : string) : option Status :=
  match statuses !! id with
  | Some s => if profileAvailable s then Some s else None
  | None => None
  end.
Definition profile_off (p : Profile) : bool := pr_Removed p || pr_Disabled p.

(** ** Prefix arithmetic *)

Definition prefixesOverlap (a b : Prefix) : bool :=
  if negb (prefix.IsValid a) || negb (prefix.IsValid b) ||
     negb (addr.BitLen (p_addr a) =? addr.BitLen (p_addr b))
  then false
  else let a := prefix.Masked a in let b := prefix.Masked b in
       prefix.Contains a (p_addr b) || prefix.Contains b (p_addr a).

(** The loop of [coveringIPRoute]: the longest advertised route over [p]. *)
Definition cover_step (p : Prefix) (best : option RouteStatus) (route : RouteStatus) :
    option RouteStatus :=
  let candidate := prefix.Masked (rs_Prefix route) in
  if negb (prefix.IsValid candidate) || (p_bits candidate =? 0) ||
     negb (addr.BitLen (p_addr candidate) =? addr.BitLen (p_addr p)) ||
     negb (prefix.Contains candidate (p_addr p)) || (p_bits p <? p_bits candidate)
  then best
  else match best with
       | Some b => if p_bits (rs_Prefix b) <? p_bits candidate
                   then Some (MkRouteStatus candidate (rs_PrimaryRouter route)) else best
       | None => Some (MkRouteStatus candidate (rs_PrimaryRouter route))
       end.
Definition coveringIPRoute (p : Prefix) (routes : list RouteStatus) : option RouteStatus :=
  foldl (cover_step p) None routes.

(** [ipOverride]: the longest bound prefix that contains the imported one, and
    the shortest bound prefix strictly inside it. *)
Definition override_step (imported : Prefix) (s : Prefix * Prefix) (candidate : IPEntry) :
    Prefix * Prefix :=
  let '(full, partial) := s in
  let c := ie_Prefix candidate in
  if negb (addr.BitLen (p_addr c) =? addr.BitLen (p_addr imported)) then s
  else if prefix.Contains c (p_addr imported) && (p_bits c <=? p_bits imported) then
    if negb (prefix.IsValid full) || (p_bits full <? p_bits c) then (c, partial) else s
  else if prefix.Contains imported (p_addr c) && (p_bits imported <? p_bits c) then
    if negb (prefix.IsValid partial) || (p_bits c <? p_bits partial) then (full, c) else s
  else s.
Definition ipOverride (imported : Prefix) (exact : list IPEntry) : Prefix * Prefix :=
  foldl (override_step imported) (prefix.zero, prefix.zero) exact.

Definition ipOverrideOwner (p : Prefix) (overrides : list IPEntry) : string :=
  if negb (prefix.IsValid p) then ""
  else match List.find (λ e, bool_decide (ie_Prefix e = p)) overrides with
       | Some e => ie_ProfileID e
       | None => ""
       end.

(** One candidate per profile; [candidates[i] = entry] keeps the lowest named
    primary router. *)
Definition better_router (c entry : IPEntry) : bool :=
  String.eqb (ie_PrimaryRouter c) "" ||
  (negb (String.eqb (ie_PrimaryRouter entry) "") &&
   str_lt (ie_PrimaryRouter entry) (ie_PrimaryRouter c)).
Definition addIPCandidate : list IPEntry → IPEntry → list IPEntry :=
  add_candidate ie_ProfileID better_router.

Definition ipResource (e : IPEntry) (names : gmap string string) : api.IPRouteBinding :=
  let stateValue :=
    if ie_Active e then "installed"
    else if String.eqb (ie_Reason e) "explicit_override" || String.eqb (ie_Reason e) "policy_override"
         then "overridden" else "waiting" in
  api.MkIPRouteBinding (ie_Prefix e) (ie_ProfileID e) (name_of names (ie_ProfileID e)) (ie_Policy e)
    stateValue (ie_Reason e) (ie_CoveringRoute e) (ie_PrimaryRouter e) (ie_OverriddenBy e) "" "".
Definition with_override (r : api.IPRouteBinding) (id name : string) : api.IPRouteBinding :=
  api.MkIPRouteBinding (api.ir_Prefix r) (api.ir_ProfileID r) (api.ir_ProfileName r)
    (api.ir_Policy r) (api.ir_State r) (api.ir_Reason r) (api.ir_CoveringRoute r)
    (api.ir_PrimaryRouter r) (api.ir_OverriddenBy r) id name.

(** ** Sorting *)

Definition entry_less : IPEntry → IPEntry → bool := less_key (λ e, prefix_string (ie_Prefix e)).
Definition resource_less : api.IPRouteBinding → api.IPRouteBinding → bool :=
  less_key (λ r, prefix_string (api.ir_Prefix r)).
Definition available_less : api.AvailableIPRoute → api.AvailableIPRoute → bool :=
  less_by api.ai_Prefix (λ p q, str_lt (prefix_string p) (prefix_string q))
    (λ a b, str_lt (api.ai_ProfileName a) (api.ai_ProfileName b)).
Definition sortIPPlan (p : IPPlan) : IPPlan :=
  let r := ip_Resource p in
  MkIPPlan (go_sort entry_less (ip_Exact p)) (go_sort entry_less (ip_Imported p))
    (api.MkIPRoutes (go_sort (less_key api.aa_ProfileName) (api.AcceptAllProfiles r))
       (go_sort resource_less (api.Bindings r)) (go_sort resource_less (api.Imported r))
       (go_sort available_less (api.Available r))).

(** ** BuildIP *)

Section build.
(** [tsaddr.CGNATRange()] and [tsaddr.TailscaleULARange()]. *)
Context (CGNATRange TailscaleULARange : Prefix).

Definition routeOverlapsReserved (st : State) (p : Prefix) : bool :=
  existsb (prefixesOverlap p) [CGNATRange; TailscaleULARange] ||
  existsb (λ raw, match ParsePrefix raw with
                  | Some reserved => prefixesOverlap p reserved
                  | None => false
                  end) [st_SyntheticPool st; st_SyntheticPoolV6 st] ||
  existsb (λ a, addr.IsValid a && eqb (addr.Is6 a) (addr.Is6 (p_addr p)) && prefix.Contains p a)
    [st_NATIP st; st_NATIPv6 st].

Definition host_conflict (st : State) (e : IPEntry) : IPEntry :=
  if routeOverlapsReserved st (ie_Prefix e)
  then MkIPEntry (ie_Prefix e) (ie_ProfileID e) (ie_Policy e) false "host_route_conflict"
         (ie_CoveringRoute e) (ie_PrimaryRouter e) (ie_OverriddenBy e)
  else e.

(** One iteration of the loop over the bindings. *)
Definition exact_entry (st : State) (profiles : gmap string Profile) (statuses : gmap string Status)
    (b : IPRouteBinding) : IPEntry :=
  let p := prefix.Masked (ib_Prefix b) in
  let inactive reason :=
    MkIPEntry p (ib_ProfileID b) "bound" false reason prefix.zero "" prefix.zero in
  host_conflict st
    (match profiles !! ib_ProfileID b, active_status statuses (ib_ProfileID b) with
     | Some configured, Some status =>
       if profile_off configured then inactive "profile_unavailable"
       else match coveringIPRoute p (s_AvailableRoutes status) with
            | None => inactive "route_not_advertised"
            | Some cover => MkIPEntry p (ib_ProfileID b) "bound" true "" (rs_Prefix cover)
                              (rs_PrimaryRouter cover) prefix.zero
            end
     | _, _ => inactive "profile_unavailable"
     end).

Definition importable (r : RouteStatus) : bool :=
  prefix.IsValid (rs_Prefix r) && negb (p_bits (rs_Prefix r) =? 0).
Definition import_entry (st : State) (id : string) (r : RouteStatus) : IPEntry :=
  let p := prefix.Masked (rs_Prefix r) in
  host_conflict st (MkIPEntry p id "accept-all" true "" p (rs_PrimaryRouter r) prefix.zero).
Definition add_import (st : State) (id : string) (m : gmap Prefix (list IPEntry)) (r : RouteStatus) :
    gmap Prefix (list IPEntry) :=
  if importable r then
    let p := prefix.Masked (rs_Prefix r) in
    <[p := addIPCandidate (default [] (m !! p)) (import_entry st id r)]> m
  else m.

(** One iteration of the loop over the profiles that accept all routes. *)
Definition accept_profile (st : State) (statuses : gmap string Status)
    (s : gmap Prefix (list IPEntry) * list api.AcceptAllProfile) (p : Profile) :
    gmap Prefix (list IPEntry) * list api.AcceptAllProfile :=
  let '(candidates, accepts) := s in
  if negb (pr_AcceptAllRoutes p) then s
  else
    let accept := api.MkAcceptAll (pr_ID p) (profileName p) in
    match active_status statuses (pr_ID p) with
    | Some status =>
      if profile_off p then (candidates, accepts ++ [accept "waiting" "profile_unavailable"])
      else (foldl (add_import st (pr_ID p)) candidates (s_AvailableRoutes status),
            accepts ++ [accept "installed" ""])
    | None => (candidates, accepts ++ [accept "waiting" "profile_unavailable"])
    end.

Definition imported_entry (pc : Prefix * list IPEntry) : IPEntry :=
  match pc.2 with
  | [e] => e
  | _ => MkIPEntry pc.1 "" "accept-all" false "ambiguous_route" prefix.zero "" prefix.zero
  end.

(** The loop that lets bindings override imported entries. *)
Definition override_entry (exact : list IPEntry) (e : IPEntry) : IPEntry :=
  let '(full, partial) := ipOverride (ie_Prefix e) exact in
  if prefix.IsValid full then
    MkIPEntry (ie_Prefix e) (ie_ProfileID e) (ie_Policy e) false "explicit_override"
      (ie_CoveringRoute e) (ie_PrimaryRouter e) full
  else if prefix.IsValid partial && String.eqb (ie_Reason e) "" then
    MkIPEntry (ie_Prefix e) (ie_ProfileID e) (ie_Policy e) (ie_Active e) "partially_overridden"
      (ie_CoveringRoute e) (ie_PrimaryRouter e) partial
  else e.
Definition imported_resource (names : gmap string string) (exact : list IPEntry) (e : IPEntry) :
    api.IPRouteBinding :=
  let owner := ipOverrideOwner (ie_OverriddenBy e) exact in
  with_override (ipResource e names) owner (name_of names owner).

Definition available_resources (names : gmap string string) (statuses : list Status) :
    list api.AvailableIPRoute :=
  statuses ≫= λ s,
    (λ r, api.MkAvailableIPRoute (prefix.Masked (rs_Prefix r)) (s_ProfileID s)
            (name_of names (s_ProfileID s)) (rs_PrimaryRouter r)) <$>
    List.filter importable (s_AvailableRoutes s).

Definition BuildIP (st : State) (statuses : list Status) : IPPlan :=
  let profilesByID := profiles_by_id (st_Profiles st) in
  let names := names_by_id (st_Profiles st) in
  let statusByID := status_by_id statuses in
  let exact := exact_entry st profilesByID statusByID <$> st_IPRouteBindings st in
  let '(importCandidates, accepts) :=
    foldl (accept_profile st statusByID) (∅, []) (st_Profiles st) in
  let imported := override_entry exact <$> (imported_entry <$> map_to_list importCandidates) in
  sortIPPlan
    (MkIPPlan exact imported
       (api.MkIPRoutes accepts ((λ e, ipResource e names) <$> exact)
          (imported_resource names exact <$> imported)
          (available_resources names statuses))).
End build.

(** ** Covering routes *)

(** [c] covers [p]: what the guard of [coveringIPRoute] lets through. *)
Definition covers (c p : Prefix) : Prop :=
  prefix.IsValid c = true ∧ p_bits c ≠ 0 ∧ addr.BitLen (p_addr c) = addr.BitLen (p_addr p) ∧
  prefix.Contains c (p_addr p) = true ∧ p_bits c <= p_bits p.
#[export] Instance covers_dec c p : Decision (covers c p).
Proof. unfold covers. apply _. Defined.

Lemma cover_step_spec p best route :
  cover_step p best route =
    if decide (covers (prefix.Masked (rs_Prefix route)) p) then
      match best with
      | Some b => if p_bits (rs_Prefix b) <? p_bits (prefix.Masked (rs_Prefix route))
                  then Some (MkRouteStatus (prefix.Masked (rs_Prefix route)) (rs_PrimaryRouter route))
                  else best
      | None => Some (MkRouteStatus (prefix.Masked (rs_Prefix route)) (rs_PrimaryRouter route))
      end
    else best.
Proof.
  unfold cover_step, covers. destruct (_ || _) eqn:E.
  - rewrite decide_False; [done|]. intros (H1 & H2 & H3 & H4 & H5).
    rewrite H1, H4 in E. simpl in E. rewrite !orb_true_iff, negb_true_iff in E. lia.
  - rewrite decide_True; [done|]. rewrite !orb_false_iff, !negb_false_iff in E.
    destruct E as [[[[H1 H2] H3] H4] H5]. split_and!; [done|lia|lia|done|lia].
Qed.

(** The loop returns the longest covering route, with its prefix masked. *)
Definition best_cover (p : Prefix) (routes : list RouteStatus) (best : option RouteStatus) : Prop :=
  match best with
  | Some b =>
    (∃ r, r ∈ routes ∧ b = MkRouteStatus (prefix.Masked (rs_Prefix r)) (rs_PrimaryRouter r)) ∧
    covers (rs_Prefix b) p ∧
    ∀ r, r ∈ routes → covers (prefix.Masked (rs_Prefix r)) p →
      p_bits (prefix.Masked (rs_Prefix r)) <= p_bits (rs_Prefix b)
  | None => ∀ r, r ∈ routes → ¬ covers (prefix.Masked (rs_Prefix r)) p
  end.
Lemma coveringIPRoute_best p routes : best_cover p routes (coveringIPRoute p routes).
Proof.
  unfold coveringIPRoute. induction routes as [|r routes IH] using rev_ind.
  { by intros r ?%elem_of_nil. }
  rewrite foldl_app. simpl. rewrite cover_step_spec.
  assert (Hin : ∀ x, x ∈ routes ++ [r] ↔ x ∈ routes ∨ x = r).
  { intros x. apply elem_of_snoc. }
  destruct (decide _) as [Hc|Hc]; destruct (foldl _ _ routes) as [b|]; simpl in IH |- *.
  - destruct IH as ((r0 & Hr0 & Hb) & Hcb & Hmax).
    destruct (Z.ltb_spec (p_bits (rs_Prefix b)) (p_bits (prefix.Masked (rs_Prefix r)))); simpl.
    + split_and!; [|done|].
      * exists r. split; [apply Hin; by right|done].
      * intros x [Hx| ->]%Hin Hcx; [|done]. specialize (Hmax x Hx Hcx). lia.
    + split_and!; [|done|].
      * exists r0. split; [apply Hin; by left|done].
      * intros x [Hx| ->]%Hin Hcx; [by apply Hmax|lia].
  - split_and!; [|done|].
    + exists r. split; [apply Hin; by right|done].
    + intros x [Hx| ->]%Hin Hcx; [by destruct (IH x Hx)|done].
  - destruct IH as ((r0 & Hr0 & Hb) & Hcb & Hmax). split_and!; [|done|].
    + exists r0. split; [apply Hin; by left|done].
    + intros x [Hx| ->]%Hin Hcx; [by apply Hmax|done].
  - intros x [Hx| ->]%Hin; [by apply IH|done].
Qed.

(** A prefix is overridden in full when some bound prefix contains it. *)
Definition overridden_by (imported : Prefix) (c : Prefix) : Prop :=
  addr.BitLen (p_addr c) = addr.BitLen (p_addr imported) ∧
  prefix.Contains c (p_addr imported) = true ∧ p_bits c <= p_bits imported.
Lemma ipOverride_full imported exact :
  prefix.IsValid (ipOverride imported exact).1 = true ↔
  ∃ e, e ∈ exact ∧ overridden_by imported (ie_Prefix e).
Proof.
  unfold ipOverride. induction exact as [|e exact IH] using rev_ind.
  { split; [done|]. by intros (? & ?%elem_of_nil & _). }
  rewrite foldl_app. simpl. destruct (foldl _ _ exact) as [full partial]. simpl in IH.
  setoid_rewrite elem_of_snoc.
  assert (Hno : ¬ overridden_by imported (ie_Prefix e) →
    (∃ e0, (e0 ∈ exact ∨ e0 = e) ∧ overridden_by imported (ie_Prefix e0)) ↔
    ∃ e0, e0 ∈ exact ∧ overridden_by imported (ie_Prefix e0)).
  { intros Hn. split; [intros (x & [?| ->] & ?); [eauto|done]|intros (x & ? & ?); eauto]. }
  unfold override_step, overridden_by in *.
  destruct (Z.eqb_spec (addr.BitLen (p_addr (ie_Prefix e))) (addr.BitLen (p_addr imported)))
    as [Hl|Hl]; simpl.
  2:{ rewrite IH, Hno; [done|]. tauto. }
  destruct (prefix.Contains (ie_Prefix e) (p_addr imported)) eqn:Hc; simpl.
  - destruct (Z.leb_spec (p_bits (ie_Prefix e)) (p_bits imported)) as [Hb|Hb].
    + assert (∃ e0, (e0 ∈ exact ∨ e0 = e) ∧ overridden_by imported (ie_Prefix e0)) as Hex
        by (exists e; unfold overridden_by; auto).
      unfold overridden_by in Hex.
      destruct (prefix.IsValid full) eqn:Hf; simpl.
      * destruct (_ <? _); simpl; [|by rewrite Hf].
        split; [done|]. intros _. by eapply masked_IsValid.
      * split; [done|]. intros _. by eapply masked_IsValid.
    + rewrite Hno by lia. repeat case_match; simpl; try done; apply IH.
  - rewrite Hno by (by intros (_ & ? & _)). repeat case_match; simpl; try done; apply IH.
Qed.

(** ** The imported candidates *)

Section imports.
Context (CGNATRange TailscaleULARange : Prefix) (st : State) (statuses : gmap string Status).

(** The routes that the accepting profiles offer, in the order of the loops. *)
Definition offers_of (p : Profile) : list (string * RouteStatus) :=
  if negb (pr_AcceptAllRoutes p) then []
  else match active_status statuses (pr_ID p) with
       | Some s => if profile_off p then []
                   else (λ r, (pr_ID p, r)) <$> List.filter importable (s_AvailableRoutes s)
       | None => []
       end.
Definition offers (ps : list Profile) : list (string * RouteStatus) := ps ≫= offers_of.
Definition offer_key (o : string * RouteStatus) : Prefix := prefix.Masked (rs_Prefix o.2).
Definition offer_entry (o : string * RouteStatus) : IPEntry :=
  import_entry CGNATRange TailscaleULARange st o.1 o.2.
Definition add_ip_offer := add_offer offer_key offer_entry ie_ProfileID better_router.

Lemma foldl_importable id m routes :
  foldl (add_import CGNATRange TailscaleULARange st id) m routes =
  foldl add_ip_offer m ((λ r, (id, r)) <$> List.filter importable routes).
Proof.
  revert m; induction routes as [|r routes IH]; intros m; simpl; [done|].
  rewrite IH. destruct (importable r) eqn:E; simpl.
  { f_equal. unfold add_import. by rewrite E. }
  assert (add_import CGNATRange TailscaleULARange st id m r = m) as ->; [|done].
  unfold add_import. by rewrite E.
Qed.
Lemma candidates_offers ps m a :
  (foldl (accept_profile CGNATRange TailscaleULARange st statuses) (m, a) ps).1 =
  foldl add_ip_offer m (offers ps).
Proof.
  revert m a; induction ps as [|p ps IH]; intros m a; simpl; [done|].
  change (offers (p :: ps)) with (offers_of p ++ offers ps). rewrite foldl_app.
  unfold offers_of at 1. destruct (negb (pr_AcceptAllRoutes p)); [by rewrite IH|].
  destruct (active_status statuses (pr_ID p)); [|by rewrite IH].
  destruct (profile_off p); [by rewrite IH|]. by rewrite IH, foldl_importable.
Qed.

Lemma import_entry_fields id r :
  ie_ProfileID (import_entry CGNATRange TailscaleULARange st id r) = id ∧
  ie_Prefix (import_entry CGNATRange TailscaleULARange st id r) = prefix.Masked (rs_Prefix r) ∧
  ie_Active (import_entry CGNATRange TailscaleULARange st id r) =
    negb (routeOverlapsReserved CGNATRange TailscaleULARange st (prefix.Masked (rs_Prefix r))).
Proof. unfold import_entry, host_conflict. cbn [ie_Prefix]. by destruct (routeOverlapsReserved _ _ _ _). Qed.

End imports.

(** ** What the plan guarantees *)

Lemma prefixesOverlap_spec a b :
  prefix.wf a = true → prefix.wf b = true →
  prefixesOverlap a b = true ↔ ∃ x, prefix.Contains a x = true ∧ prefix.Contains b x = true.
Proof.
  intros Wa Wb. unfold prefixesOverlap.
  destruct (prefix.IsValid a) eqn:Va; simpl.
  2:{ split; [done|]. intros (x & Hx & _). by rewrite Contains_invalid in Hx. }
  destruct (prefix.IsValid b) eqn:Vb; simpl.
  2:{ split; [done|]. intros (x & _ & Hx). by rewrite Contains_invalid in Hx. }
  destruct (Z.eqb_spec (addr.BitLen (p_addr a)) (addr.BitLen (p_addr b))) as [Hl|Hl]; simpl.
  - rewrite masked_overlap by auto with tailmix.
    split; intros (x & H1 & H2); exists x; rewrite ?Contains_Masked in * by done; done.
  - split; [done|]. intros (x & Ha%Contains_BitLen & Hb%Contains_BitLen). congruence.
Qed.

Section plan.
Context (CGNATRange TailscaleULARange : Prefix).
Context (HC : prefix.wf CGNATRange = true) (HU : prefix.wf TailscaleULARange = true).
Notation BuildIP := (BuildIP CGNATRange TailscaleULARange).
Notation routeOverlapsReserved := (routeOverlapsReserved CGNATRange TailscaleULARange).

(** The addresses tailmix keeps for itself: the ranges tailnets number their
    nodes from, the pools of effective addresses and the host's own. *)
Definition reserved_address (st : State) (x : Addr) : Prop :=
  prefix.Contains CGNATRange x = true ∨ prefix.Contains TailscaleULARange x = true ∨
  (∃ raw p, raw ∈ [st_SyntheticPool st; st_SyntheticPoolV6 st] ∧ ParsePrefix raw = Some p ∧
            prefix.Contains p x = true) ∨
  x ∈ [st_NATIP st; st_NATIPv6 st].

Lemma routeOverlapsReserved_spec st p :
  prefix.wf p = true →
  routeOverlapsReserved st p = true ↔ ∃ x, prefix.Contains p x = true ∧ reserved_address st x.
Proof using HC HU.
  intros Wp. unfold routeOverlapsReserved, RoutingPolicy.routeOverlapsReserved, reserved_address.
  rewrite !orb_true_iff, !existsb_exists. split.
  - intros [[(r & Hr & Ho)|(raw & Hraw & Ho)]|(a & Ha & Ho)].
    + destruct Hr as [<-|[<-|[]]]; apply prefixesOverlap_spec in Ho as (x & ? & ?); eauto 10.
    + destruct (ParsePrefix raw) as [q|] eqn:Eq; [|done].
      pose proof (ParsePrefix_wf _ _ Eq) as [Wq _].
      apply prefixesOverlap_spec in Ho as (x & ? & ?); [|done..]. exists x. split; [done|].
      right; right; left. exists raw, q. split_and!; [by apply list_elem_of_In|done|done].
    + rewrite !andb_true_iff in Ho. destruct Ho as [_ Hc]. exists a. split; [done|].
      do 3 right. by apply list_elem_of_In.
  - intros (x & Hx & [Hr|[Hr|[(raw & q & Hin & Hq & Hr)|Hin]]]).
    + left; left. exists CGNATRange. split; [by left|]. apply prefixesOverlap_spec; eauto.
    + left; left. exists TailscaleULARange. split; [by right; left|]. apply prefixesOverlap_spec; eauto.
    + left; right. exists raw. split; [by apply list_elem_of_In|]. rewrite Hq.
      pose proof (ParsePrefix_wf _ _ Hq) as [Wq _]. apply prefixesOverlap_spec; eauto.
    + right. exists x. split; [by apply list_elem_of_In|]. rewrite Hx.
      rewrite (Contains_addr_valid _ _ Hx).
      rewrite (Is6_BitLen _ _ (Contains_BitLen _ _ Hx)), eqb_reflx. done.
Qed.

Definition exact_entries (st : State) (statuses : list Status) : list IPEntry :=
  exact_entry CGNATRange TailscaleULARange st (profiles_by_id (st_Profiles st))
    (status_by_id statuses) <$> st_IPRouteBindings st.
Definition plan_offers (st : State) (statuses : list Status) : list (string * RouteStatus) :=
  offers (status_by_id statuses) (st_Profiles st).
Definition candidates (st : State) (statuses : list Status) : gmap Prefix (list IPEntry) :=
  candidate_table offer_key (offer_entry CGNATRange TailscaleULARange st) ie_ProfileID better_router
    (plan_offers st statuses).

Lemma BuildIP_Exact_perm st ss : ip_Exact (BuildIP st ss) ≡ₚ exact_entries st ss.
Proof.
  unfold BuildIP, RoutingPolicy.BuildIP. destruct (foldl _ _ _). simpl. apply go_sort_Permutation.
Qed.
Lemma BuildIP_Imported_perm st ss :
  ip_Imported (BuildIP st ss) ≡ₚ
  override_entry (exact_entries st ss) <$> (imported_entry <$> map_to_list (candidates st ss)).
Proof.
  unfold BuildIP, RoutingPolicy.BuildIP.
  pose proof (candidates_offers CGNATRange TailscaleULARange st (status_by_id ss) (st_Profiles st) ∅ []) as Hc.
  destruct (foldl (accept_profile _ _ _ _) _ _) as [m a]. simpl in *.
  rewrite go_sort_Permutation. unfold candidates, plan_offers, candidate_table.
  unfold add_ip_offer in Hc. by rewrite <-Hc.
Qed.

Lemma exact_entry_fields st ps ss b :
  let e := exact_entry CGNATRange TailscaleULARange st ps ss b in
  ie_Prefix e = prefix.Masked (ib_Prefix b) ∧ ie_ProfileID e = ib_ProfileID b ∧
  (ie_Active e = true ↔
     routeOverlapsReserved st (prefix.Masked (ib_Prefix b)) = false ∧
     ∃ c s cover, ps !! ib_ProfileID b = Some c ∧ profile_off c = false ∧
       active_status ss (ib_ProfileID b) = Some s ∧
       coveringIPRoute (prefix.Masked (ib_Prefix b)) (s_AvailableRoutes s) = Some cover ∧
       ie_CoveringRoute e = rs_Prefix cover ∧ ie_PrimaryRouter e = rs_PrimaryRouter cover).
Proof.
  cbv zeta. unfold exact_entry. set (p := prefix.Masked (ib_Prefix b)).
  set (e0 := match _ with Some _ => _ | None => _ end).
  assert (Hp : ie_Prefix e0 = p ∧ ie_ProfileID e0 = ib_ProfileID b).
  { unfold e0. by repeat case_match. }
  assert (Ha : ie_Active e0 = true ↔ ∃ c s cover, ps !! ib_ProfileID b = Some c ∧
    profile_off c = false ∧ active_status ss (ib_ProfileID b) = Some s ∧
    coveringIPRoute p (s_AvailableRoutes s) = Some cover ∧
    ie_CoveringRoute e0 = rs_Prefix cover ∧ ie_PrimaryRouter e0 = rs_PrimaryRouter cover).
  { unfold e0. destruct (ps !! ib_ProfileID b) as [c|].
    2:{ split; [done|]. by intros (? & ? & ? & ? & _). }
    destruct (active_status ss (ib_ProfileID b)) as [s|].
    2:{ split; [done|]. by intros (? & ? & ? & ? & ? & ? & _). }
    destruct (profile_off c) eqn:Hoff.
    { split; [done|]. intros (? & ? & ? & ? & ? & _). congruence. }
    destruct (coveringIPRoute p (s_AvailableRoutes s)) as [cover|] eqn:Hcov.
    - split; [|done]. intros _. by exists c, s, cover.
    - split; [done|]. intros (? & ? & ? & ? & ? & ? & ? & _). congruence. }
  clearbody e0. unfold host_conflict. destruct Hp as [Hp Hid]. rewrite Hp.
  destruct (routeOverlapsReserved st p) eqn:Hr; cbn.
  - split_and!; [done|done|]. split; [done|]. intros [? _]. done.
  - split_and!; [done|done|]. tauto.
Qed.

(** The wf inputs: what JSON decoding and the engines provide. *)
Definition routes_wf (ss : list Status) : Prop :=
  Forall (λ s, Forall (λ r, prefix.wf (rs_Prefix r) = true) (s_AvailableRoutes s)) ss.
Definition bindings_wf (st : State) : Prop :=
  Forall (λ b, prefix.wf (ib_Prefix b) = true) (st_IPRouteBindings st).

Lemma status_by_id_elem ss id s : status_by_id ss !! id = Some s → s ∈ ss.
Proof.
  unfold status_by_id. induction ss as [|x ss IH] using rev_ind; [done|].
  rewrite foldl_app. simpl. rewrite lookup_insert_Some, elem_of_snoc.
  intros [[_ ->]|[_ H]]; [by right|left; auto].
Qed.
Lemma offers_elem st ss id r :
  (id, r) ∈ plan_offers st ss ↔
  ∃ c s, c ∈ st_Profiles st ∧ pr_ID c = id ∧ pr_AcceptAllRoutes c = true ∧ profile_off c = false ∧
    active_status (status_by_id ss) id = Some s ∧ r ∈ s_AvailableRoutes s ∧ importable r = true.
Proof.
  unfold plan_offers, offers. rewrite list_elem_of_bind. unfold offers_of. split.
  - intros (c & Ho & Hc). destruct (pr_AcceptAllRoutes c) eqn:Ea; simpl in Ho; [|by apply elem_of_nil in Ho].
    destruct (active_status _ _) as [s|] eqn:Es; [|by apply elem_of_nil in Ho].
    destruct (profile_off c) eqn:Eoff; [by apply elem_of_nil in Ho|].
    apply list_elem_of_fmap in Ho as (r' & [= -> ->] & Hr').
    apply list_elem_of_In, List.filter_In in Hr' as [Hr'%list_elem_of_In ?]. by exists c, s.
  - intros (c & s & Hc & <- & Ea & Eoff & Es & Hr & Hi). exists c. split; [|done].
    rewrite Ea, Es, Eoff. simpl. apply list_elem_of_fmap. exists r. split; [done|].
    apply list_elem_of_In, List.filter_In. split; [by apply list_elem_of_In|done].
Qed.
Lemma offers_wf st ss id r : routes_wf ss → (id, r) ∈ plan_offers st ss → prefix.wf (rs_Prefix r) = true.
Proof.
  intros Hwf (c & s & _ & _ & _ & _ & Hs & Hr & _)%offers_elem. unfold active_status in Hs.
  destruct (_ !! id) as [s'|] eqn:El; [|done]. apply status_by_id_elem in El.
  destruct (profileAvailable s'); [|done]. injection Hs as ->.
  unfold routes_wf in Hwf. rewrite Forall_forall in Hwf. specialize (Hwf s El). simpl in Hwf.
  rewrite Forall_forall in Hwf. by apply Hwf.
Qed.

(** Only profile [id] offers [p]. *)
Definition sole_ip_offer (st : State) (ss : list Status) (p : Prefix) (id : string) : Prop :=
  (∃ r, (id, r) ∈ plan_offers st ss ∧ prefix.Masked (rs_Prefix r) = p) ∧
  ∀ id' r', (id', r') ∈ plan_offers st ss → prefix.Masked (rs_Prefix r') = p → id' = id.
Lemma sole_ip_offer_iff st ss p id :
  sole_ip_offer st ss p id ↔
  sole_offer offer_key (offer_entry CGNATRange TailscaleULARange st) ie_ProfileID (plan_offers st ss) p id.
Proof.
  assert (Hid : ∀ id r, ie_ProfileID (offer_entry CGNATRange TailscaleULARange st (id, r)) = id).
  { intros id0 r. unfold offer_entry. simpl. apply import_entry_fields. }
  unfold sole_ip_offer, sole_offer. split; intros [Hex Hall]; split.
  - destruct Hex as (r & ? & ?). exists (id, r). by rewrite Hid.
  - intros [id' r'] Ho Hk. rewrite Hid. by eapply Hall.
  - destruct Hex as ([id' r'] & ? & ? & <-). exists r'. by rewrite Hid.
  - intros id' r' Ho Hk. rewrite <-(Hid id' r'). by apply (Hall (id', r')).
Qed.

(** An imported entry before overriding: the only candidate, or ambiguous. *)
Lemma imported_entry_spec st ss p l :
  candidates st ss !! p = Some l →
  let e := imported_entry (p, l) in
  ie_Prefix e = p ∧
  (ie_Active e = true → sole_ip_offer st ss p (ie_ProfileID e) ∧ routeOverlapsReserved st p = false) ∧
  (∀ id, sole_ip_offer st ss p id → routeOverlapsReserved st p = false →
     ie_Active e = true ∧ ie_ProfileID e = id).
Proof.
  intros Hl. pose proof (single_candidate _ _ _ _ _ _ _ Hl) as [Hone Hsole]. unfold imported_entry. simpl.
  destruct l as [|e [|e2 l]].
  - split_and!; [done|done|]. intros id Ho%sole_ip_offer_iff. by destruct (Hsole id Ho) as (? & ? & _).
  - destruct (Hone e eq_refl) as (Ho & [id r] & _ & He & Hk). unfold offer_key in Hk. simpl in Hk.
    pose proof (import_entry_fields CGNATRange TailscaleULARange st id r) as (H1 & H2 & H3).
    unfold offer_entry in He. simpl in He. rewrite <-He, Hk in H2, H3. rewrite <-He in H1.
    split_and!; [done| |].
    + intros Hact. rewrite Hact in H3. symmetry in H3. apply negb_true_iff in H3.
      split; [|done]. by apply sole_ip_offer_iff.
    + intros id' Ho'%sole_ip_offer_iff Hr. rewrite H3, Hr. split; [done|].
      destruct (Hsole id' Ho') as (? & [= <-] & <-). done.
  - split_and!; [done|done|]. intros id Ho%sole_ip_offer_iff. by destruct (Hsole id Ho) as (? & ? & _).
Qed.

Lemma override_entry_spec exact e :
  ie_Prefix (override_entry exact e) = ie_Prefix e ∧
  ie_ProfileID (override_entry exact e) = ie_ProfileID e ∧
  (ie_Active (override_entry exact e) = true ↔
     ie_Active e = true ∧ ¬ ∃ x, x ∈ exact ∧ overridden_by (ie_Prefix e) (ie_Prefix x)).
Proof.
  unfold override_entry. pose proof (ipOverride_full (ie_Prefix e) exact) as Hf.
  destruct (ipOverride (ie_Prefix e) exact) as [full partial]. simpl in Hf.
  destruct (prefix.IsValid full).
  - cbn. split_and!; [done|done|]. split; [done|]. intros [_ []]. by apply Hf.
  - assert (¬ ∃ x, x ∈ exact ∧ overridden_by (ie_Prefix e) (ie_Prefix x)).
    { intros H. by apply Hf in H. }
    destruct (_ && _); cbn; split_and!; tauto.
Qed.

Lemma exact_entry_prefix st ss e :
  bindings_wf st → e ∈ exact_entries st ss → prefix.wf (ie_Prefix e) = true.
Proof.
  unfold bindings_wf. rewrite Forall_forall. intros Hwf (b & -> & Hb)%list_elem_of_fmap.
  destruct (exact_entry_fields st (profiles_by_id (st_Profiles st)) (status_by_id ss) b) as [-> _].
  by apply Masked_masked, Hwf.
Qed.

(** Every imported entry is the overridden form of the entry of a candidate list. *)
Lemma Imported_elem st ss e :
  e ∈ ip_Imported (BuildIP st ss) ↔
  ∃ p l, candidates st ss !! p = Some l ∧ e = override_entry (exact_entries st ss) (imported_entry (p, l)).
Proof.
  rewrite BuildIP_Imported_perm, list_elem_of_fmap. split.
  - intros (e0 & -> & ([p l] & -> & Hpl%elem_of_map_to_list)%list_elem_of_fmap). eauto.
  - intros (p & l & Hpl & ->). eexists. split; [done|]. apply list_elem_of_fmap.
    exists (p, l). split; [done|]. by apply elem_of_map_to_list.
Qed.

(** No route into a reserved range.  Whatever the profiles advertise and
    the user binds, an active entry of the plan never routes an address of the
    tailnets' own ranges, of the pools of effective addresses, or of the host. *)
Theorem BuildIP_reserved st ss e x :
  bindings_wf st → routes_wf ss →
  e ∈ ip_Exact (BuildIP st ss) ++ ip_Imported (BuildIP st ss) → ie_Active e = true →
  prefix.Contains (ie_Prefix e) x = true → ¬ reserved_address st x.
Proof using HC HU.
  intros Hb Hr He Hact Hx Hres.
  assert (prefix.wf (ie_Prefix e) = true ∧ routeOverlapsReserved st (ie_Prefix e) = false) as [Hwf Ho].
  { apply elem_of_app in He as [He|He].
    - rewrite BuildIP_Exact_perm in He. split; [by eapply exact_entry_prefix|].
      apply list_elem_of_fmap in He as (b & -> & _).
      destruct (exact_entry_fields st (profiles_by_id (st_Profiles st)) (status_by_id ss) b)
        as (-> & _ & Ha). by apply Ha.
    - apply Imported_elem in He as (p & l & Hl & ->).
      destruct (override_entry_spec (exact_entries st ss) (imported_entry (p, l))) as (Hp & _ & Ha).
      apply Ha in Hact as [Hact _]. rewrite Hp.
      destruct (imported_entry_spec st ss p l Hl) as (-> & Hs & _).
      destruct (Hs Hact) as [((r & Hof & <-) & _) Hov]. split; [|done].
      by eapply Masked_masked, offers_wf. }
  apply not_true_iff_false in Ho. apply Ho. apply routeOverlapsReserved_spec; eauto.
Qed.

(** Bindings.  There is one entry per binding, for its masked prefix.  It is
    active exactly when the prefix is not reserved, its profile is configured,
    enabled and running, and that profile advertises a route that covers it;
    the covering route is then the longest one advertised. *)
Theorem BuildIP_bindings st ss b :
  b ∈ st_IPRouteBindings st →
  ∃ e, e ∈ ip_Exact (BuildIP st ss) ∧ ie_Prefix e = prefix.Masked (ib_Prefix b) ∧
    ie_ProfileID e = ib_ProfileID b ∧
    (ie_Active e = true ↔
      routeOverlapsReserved st (ie_Prefix e) = false ∧
      ∃ c s r, profiles_by_id (st_Profiles st) !! ib_ProfileID b = Some c ∧ profile_off c = false ∧
        active_status (status_by_id ss) (ib_ProfileID b) = Some s ∧
        r ∈ s_AvailableRoutes s ∧ covers (prefix.Masked (rs_Prefix r)) (ie_Prefix e)) ∧
    (ie_Active e = true →
      ∃ s cover, active_status (status_by_id ss) (ib_ProfileID b) = Some s ∧
        best_cover (ie_Prefix e) (s_AvailableRoutes s) (Some cover) ∧
        ie_CoveringRoute e = rs_Prefix cover ∧ ie_PrimaryRouter e = rs_PrimaryRouter cover).
Proof.
  intros Hb. exists (exact_entry CGNATRange TailscaleULARange st (profiles_by_id (st_Profiles st))
    (status_by_id ss) b).
  destruct (exact_entry_fields st (profiles_by_id (st_Profiles st)) (status_by_id ss) b)
    as (Hp & Hid & Ha). rewrite Hp, Hid. split_and!; [|done|done| |].
  - rewrite BuildIP_Exact_perm. apply list_elem_of_fmap. eauto.
  - rewrite Ha. split.
    + intros (Hr & c & s & cover & H1 & H2 & H3 & H4 & _). split; [done|].
      pose proof (coveringIPRoute_best (prefix.Masked (ib_Prefix b)) (s_AvailableRoutes s)) as Hbest.
      rewrite H4 in Hbest. destruct Hbest as ((r & Hin & ->) & Hc & _). by exists c, s, r.
    + intros (Hr & c & s & r & H1 & H2 & H3 & Hin & Hc). split; [done|].
      pose proof (coveringIPRoute_best (prefix.Masked (ib_Prefix b)) (s_AvailableRoutes s)) as Hbest.
      destruct (coveringIPRoute _ _) as [cover|] eqn:Hcov; [|by destruct (Hbest r Hin)].
      exists c, s, cover. split_and!; [done..| |].
      * unfold exact_entry. rewrite H1, H3, H2, Hcov. unfold host_conflict. by case_match.
      * unfold exact_entry. rewrite H1, H3, H2, Hcov. unfold host_conflict. by case_match.
  - intros (_ & c & s & cover & _ & _ & H3 & H4 & H5 & H6)%Ha. exists s, cover.
    split_and!; [done| |done|done].
    pose proof (coveringIPRoute_best (prefix.Masked (ib_Prefix b)) (s_AvailableRoutes s)) as Hbest.
    by rewrite H4 in Hbest.
Qed.

(** Imports.  Every prefix that an accepting profile offers has exactly one
    imported entry.  It is active exactly when a single profile offers it, it
    is not reserved and no binding covers it: ambiguous offers and overridden
    ones carry no traffic. *)
Theorem BuildIP_imports st ss :
  NoDup (ie_Prefix <$> ip_Imported (BuildIP st ss)) ∧
  (∀ p, (∃ e, e ∈ ip_Imported (BuildIP st ss) ∧ ie_Prefix e = p) ↔
        ∃ id r, (id, r) ∈ plan_offers st ss ∧ prefix.Masked (rs_Prefix r) = p) ∧
  (∀ e, e ∈ ip_Imported (BuildIP st ss) →
     (∀ id, ie_Active e = true ∧ ie_ProfileID e = id ↔
       sole_ip_offer st ss (ie_Prefix e) id ∧ routeOverlapsReserved st (ie_Prefix e) = false ∧
       ¬ ∃ b, b ∈ st_IPRouteBindings st ∧ overridden_by (ie_Prefix e) (prefix.Masked (ib_Prefix b)))).
Proof.
  assert (Hpre : ∀ p l, candidates st ss !! p = Some l →
    ie_Prefix (override_entry (exact_entries st ss) (imported_entry (p, l))) = p).
  { intros p l Hl. destruct (override_entry_spec (exact_entries st ss) (imported_entry (p, l))) as [-> _].
    by destruct (imported_entry_spec st ss p l Hl) as [-> _]. }
  split_and!.
  - rewrite BuildIP_Imported_perm, <-!list_fmap_compose.
    apply NoDup_fmap_2_strong; [|apply NoDup_map_to_list].
    intros [p1 l1] [p2 l2] H1%elem_of_map_to_list H2%elem_of_map_to_list. unfold compose.
    rewrite (Hpre _ _ H1), (Hpre _ _ H2). congruence.
  - intros p. pose proof (table_key offer_key (offer_entry CGNATRange TailscaleULARange st) ie_ProfileID
      better_router (plan_offers st ss)) as Hkey. fold (candidates st ss) in Hkey. split.
    + intros (e & (q & l & Hl & ->)%Imported_elem & <-). rewrite (Hpre _ _ Hl).
      destruct (proj1 (Hkey q) (mk_is_Some _ _ Hl)) as ([id r] & ? & ?). eauto.
    + intros (id & r & Ho & Hk). destruct (proj2 (Hkey p)) as [l Hl]; [by exists (id, r)|].
      eexists. split; [apply Imported_elem; eauto|]. by apply Hpre.
  - intros e (p & l & Hl & ->)%Imported_elem id. rewrite (Hpre _ _ Hl).
    destruct (override_entry_spec (exact_entries st ss) (imported_entry (p, l))) as (_ & -> & Ha).
    destruct (imported_entry_spec st ss p l Hl) as (Hp & Hs1 & Hs2). rewrite Ha, Hp.
    assert ((∃ x, x ∈ exact_entries st ss ∧ overridden_by p (ie_Prefix x)) ↔
      ∃ b, b ∈ st_IPRouteBindings st ∧ overridden_by p (prefix.Masked (ib_Prefix b))) as ->.
    { split.
      - intros (x & (b & -> & Hb)%list_elem_of_fmap & Ho). exists b. split; [done|].
        by destruct (exact_entry_fields st (profiles_by_id (st_Profiles st)) (status_by_id ss) b)
          as [<- _].
      - intros (b & Hb & Ho). eexists. split; [apply list_elem_of_fmap; eauto|].
        by destruct (exact_entry_fields st (profiles_by_id (st_Profiles st)) (status_by_id ss) b)
          as [-> _]. }
    split.
    + intros [[Hact Hno] <-]. destruct (Hs1 Hact). tauto.
    + intros (Hsole & Hr & Hno). destruct (Hs2 id Hsole Hr). tauto.
Qed.
End plan.

(** ** A concrete plan *)

Definition test_cgnat : Prefix := MkPrefix (Addr4 1681915904) 10.
Definition test_ula : Prefix := MkPrefix (Addr6 (Z.shiftl 0xfd7a115ca1e0 80) "") 48.
Definition accepting (id : string) : Profile :=
  MkProfile id id "" "tailscale" "" "" "" false false true true None "" false.
Definition plan_state : State :=
  MkState false "10.9.0.0/16" "" (Addr4 3232235521) AddrInvalid AddrInvalid
    [accepting "home"; accepting "work"] []
    [MkIPBinding (MkPrefix (Addr4 167837953) 24) "work"] [] [] None
    (MkUpdateState false "" "" "" "").
Definition plan_statuses : list Status :=
  [simple_status "home" [MkRouteStatus (MkPrefix (Addr4 168361984) 16) "h1";
                         MkRouteStatus (MkPrefix (Addr4 167772160) 8) "h1";
                         MkRouteStatus (MkPrefix (Addr4 167903232) 24) "h1"] [] [] "";
   simple_status "work" [MkRouteStatus (MkPrefix (Addr4 167837696) 16) "w1";
                         MkRouteStatus (MkPrefix (Addr4 167903232) 24) "w1"] [] [] ""].
Definition test_plan : IPPlan := BuildIP test_cgnat test_ula plan_state plan_statuses.

Definition plan_view (e : IPEntry) : string * string * bool * string :=
  (prefix_string (ie_Prefix e), ie_ProfileID e, ie_Active e, ie_Reason e).
Example test_plan_value :
  plan_view <$> (ip_Exact test_plan ++ ip_Imported test_plan) =
  [("10.1.1.0/24", "work", true, "");
   ("10.0.0.0/8", "home", false, "host_route_conflict");
   ("10.1.0.0/16", "work", true, "partially_overridden");
   ("10.2.0.0/24", "", false, "ambiguous_route");
   ("10.9.0.0/16", "home", false, "host_route_conflict")].
Proof. vm_compute. reflexivity. Qed.

Lemma plan_inputs_wf : bindings_wf plan_state ∧ routes_wf plan_statuses.
Proof.
  split; unfold bindings_wf, routes_wf, plan_state, plan_statuses, simple_status;
    cbn [st_IPRouteBindings s_AvailableRoutes]; rewrite !Forall_cons, Forall_nil;
    cbn [s_AvailableRoutes]; rewrite ?Forall_cons, ?Forall_nil; by vm_compute.
Qed.
Lemma BuildIP_reserved_witness :
  ∃ e, e ∈ ip_Exact test_plan ++ ip_Imported test_plan ∧ ie_Active e = true ∧
    ¬ reserved_address test_cgnat test_ula plan_state (Addr4 167837955).
Proof.
  destruct (ip_Exact test_plan) as [|e es] eqn:E; [exfalso; vm_compute in E; discriminate|].
  assert (Hin : e ∈ ip_Exact test_plan ++ ip_Imported test_plan) by (rewrite E; left).
  assert (Ha : ie_Active e = true ∧ prefix.Contains (ie_Prefix e) (Addr4 167837955) = true).
  { vm_compute in E. injection E as <- _. vm_compute. by split. }
  exists e. split; [rewrite <-E; exact Hin|]. split; [exact (proj1 Ha)|].
  exact (BuildIP_reserved test_cgnat test_ula eq_refl eq_refl plan_state plan_statuses e _
    (proj1 plan_inputs_wf) (proj2 plan_inputs_wf) Hin (proj1 Ha) (proj2 Ha)).
Defined.
Lemma BuildIP_bindings_witness :
  ∃ e, e ∈ ip_Exact test_plan ∧ ie_ProfileID e = "work".
Proof.
  destruct (BuildIP_bindings test_cgnat test_ula plan_state plan_statuses
    (MkIPBinding (MkPrefix (Addr4 167837953) 24) "work") ltac:(left)) as (e & He & _ & Hid & _).
  exists e. split; [exact He|exact Hid].
Defined.
