(* ===== verification/TUNTable.v ===== *)
(** * The packet table and host configuration of a plan

    cmd/tailmixd/main.go, [tunConfigWithPolicy]: from the leases, the statuses
    and the IP plan to the table the mapper uses ([PacketMap]) and the routes
    the host gets.  Every loop of the function is a fold with the table and the
    routes built so far, and every error return is an error of the fold. *)

From S2P Require Import Prelude GoStrings Netip RoutingTable PacketMap EffectiveIP State Types RoutingPolicy HostPools LeasePlan.
Import netip_facts.
Local Open Scope Z_scope.

(** [hosttun.Route] and [hosttun.Config]. *)
Record HostRoute : Type := MkHostRoute {
  hr_Destination : Prefix; hr_Source : Addr; hr_Exit : bool; hr_Optional : bool }.
Record HostConfig : Type := MkHostConfig { hc_LocalAddrs : list Prefix; hc_Routes : list HostRoute }.

Inductive tun_error : Type :=
  | EConflictingLease (k : NodeKey)
  | EManySelf (profile : string) (ip : Addr)
  | ENoHostNAT (profile : string) (ip : Addr)
  | ENoLease (profile target : string) (ip : Addr)
  | EManyTargets (effective : Addr)
  | EManyEffective (profile : string) (ip : Addr)
  | ENoSelf (profile : string) (ip : Addr)
  | EBoundReserved (p : Prefix)
  | EBoundNoSelf (profile : string) (p : Prefix)
  | EImportedNoSelf (profile : string) (p : Prefix)
  | ENoServiceIP
  | EServiceIsNAT (ip : Addr)
  | EServiceIsTarget (ip : Addr)
  | ENoNATIP.

Definition natIPFor (st : State) (canonical : Addr) : Addr := nat_ip (addr.Is6 canonical) st.
(** [netip.PrefixFrom(ip, ip.BitLen())]. *)
Definition host_prefix (ip : Addr) : Prefix := prefix.PrefixFrom ip (addr.BitLen ip).

Definition index_lease (m : gmap NodeKey Addr) (l : Lease) : result tun_error (gmap NodeKey Addr) :=
  match m !! l_NodeKey l with
  | Some existing =>
    if negb (bool_decide (existing = l_EffectiveIP l)) then Err (EConflictingLease (l_NodeKey l))
    else Ok (<[l_NodeKey l := l_EffectiveIP l]> m)
  | None => Ok (<[l_NodeKey l := l_EffectiveIP l]> m)
  end.

Definition activeExitProfile (st : State) (statuses : list Status) : string :=
  match st_ExitNode st with
  | None => ""
  | Some e =>
    match List.find (λ s, String.eqb (s_ProfileID s) (en_ProfileID e) && profileAvailable s &&
                          String.eqb (s_ExitNodeID s) (en_NodeID e)) statuses with
    | Some s => s_ProfileID s
    | None => ""
    end
  end.
Definition default_route (ipv6 : bool) : Prefix :=
  prefix.PrefixFrom (if ipv6 then addr.IPv6Unspecified else addr.IPv4Unspecified) 0.
Definition splitDefaultRoutes (ipv6 : bool) : list Prefix :=
  if ipv6 then [MkPrefix (Addr6 0 "") 1; MkPrefix (Addr6 (2 ^ 127) "") 1]
  else [MkPrefix (Addr4 0) 1; MkPrefix (Addr4 (2 ^ 31)) 1].

Section table.
Context {T : Type → Type} `{LPM T} (CGNATRange TailscaleULARange : Prefix) (ServiceIP : Addr).

(** The daemon's own check, which also knows the resolver addresses. *)
Definition routeOverlapsReserved (st : State) (p : Prefix) : bool :=
  existsb (prefixesOverlap p) [CGNATRange; TailscaleULARange] ||
  existsb (λ raw, match ParsePrefix raw with
                  | Some pool => prefixesOverlap p pool
                  | None => false
                  end) [st_SyntheticPool st; st_SyntheticPoolV6 st] ||
  existsb (λ a, addr.IsValid a && eqb (addr.Is6 (p_addr p)) (addr.Is6 a) && prefix.Contains p a)
    [st_NATIP st; st_NATIPv6 st; st_DNSIP st; ServiceIP].

(** What the loops build. *)
Record build : Type := MkBuild {
  b_Destinations : T Destination; b_ExactRoutes : T SubnetRoute; b_ImportedRoutes : T SubnetRoute;
  b_ExitRoutes : T SubnetRoute; b_Sources : gmap SourceKey Source; b_InboundPeers : gmap string (T Addr);
  b_Routes : list HostRoute }.
Definition empty_build : build := MkBuild lpm_new lpm_new lpm_new lpm_new ∅ ∅ [].
Definition add_route (b : build) (r : HostRoute) : build :=
  MkBuild (b_Destinations b) (b_ExactRoutes b) (b_ImportedRoutes b) (b_ExitRoutes b) (b_Sources b)
    (b_InboundPeers b) (b_Routes b ++ [r]).
Definition plain_route (p : Prefix) (source : Addr) : HostRoute := MkHostRoute p source false false.

Definition add_self (st : State) (id : string) (b : build) (canonical : Addr) : result tun_error build :=
  let k := sourceKey id canonical in
  _ ← guard_err (match b_Sources b !! k with
                 | Some existing => negb (bool_decide (s_CanonicalIP existing = canonical))
                 | None => false
                 end) (EManySelf id canonical);
  let hostIP := natIPFor st canonical in
  _ ← guard_err (negb (addr.IsValid hostIP)) (ENoHostNAT id canonical);
  Ok (MkBuild (b_Destinations b) (b_ExactRoutes b) (b_ImportedRoutes b) (b_ExitRoutes b)
        (<[k := MkSource hostIP canonical]> (b_Sources b)) (b_InboundPeers b) (b_Routes b)).

Definition add_target_ip (byKey : gmap NodeKey Addr) (id target : string) (b : build) (canonical : Addr) :
    result tun_error build :=
  match byKey !! MkKey id target canonical with
  | None => Err (ENoLease id target canonical)
  | Some effective =>
    let effectivePrefix := host_prefix effective in
    _ ← guard_err (match Get effectivePrefix (b_Destinations b) with
                   | Some existing => negb (String.eqb (d_ProfileID existing) id) ||
                                      negb (bool_decide (d_CanonicalIP existing = canonical))
                   | None => false
                   end) (EManyTargets effective);
    let destinations := Insert effectivePrefix (MkDestination id canonical) (b_Destinations b) in
    let inbound := default lpm_new (b_InboundPeers b !! id) in
    let canonicalPrefix := host_prefix canonical in
    _ ← guard_err (match Get canonicalPrefix inbound with
                   | Some existing => negb (bool_decide (existing = effective))
                   | None => false
                   end) (EManyEffective id canonical);
    let inbound := Insert canonicalPrefix effective inbound in
    match b_Sources b !! sourceKey id canonical with
    | None => Err (ENoSelf id canonical)
    | Some source =>
      Ok (MkBuild destinations (b_ExactRoutes b) (b_ImportedRoutes b) (b_ExitRoutes b) (b_Sources b)
            (<[id := inbound]> (b_InboundPeers b))
            (b_Routes b ++ [plain_route effectivePrefix (s_HostIP source)]))
    end
  end.
Definition add_target (byKey : gmap NodeKey Addr) (id : string) (b : build) (t : reachableTarget) :
    result tun_error build :=
  foldM (add_target_ip byKey id (t_ID t)) (t_IPs t) b.
Definition add_status (st : State) (byKey : gmap NodeKey Addr) (b : build) (ps : Status) : result tun_error build :=
  b ← foldM (add_self st (s_ProfileID ps)) (s_SelfIPs ps) b;
  foldM (add_target byKey (s_ProfileID ps)) (reachableTargets ps) b.

(** The loop over retained leases. *)
Definition add_retained (st : State) (b : build) (lease : EffectiveLease) : build :=
  let ip := el_EffectiveIP lease in
  if negb (addr.IsValid ip) then b
  else
    let p := host_prefix ip in
    match Get p (b_Destinations b) with
    | Some _ => b
    | None =>
      match ParsePrefix (pool_text (addr.Is6 ip) st) with
      | Some pool =>
        if prefix.Contains pool ip then
          MkBuild (b_Destinations b) (Insert p (MkSubnetRoute "" false) (b_ExactRoutes b)) (b_ImportedRoutes b)
            (b_ExitRoutes b) (b_Sources b) (b_InboundPeers b) (b_Routes b ++ [plain_route p (natIPFor st ip)])
        else b
      | None => b
      end
    end.

Definition has_source (b : build) (id : string) (ipv6 : bool) : bool :=
  match b_Sources b !! MkSourceKey id ipv6 with Some _ => true | None => false end.
Definition add_exact (st : State) (b : build) (entry : IPEntry) : result tun_error build :=
  let p := ie_Prefix entry in
  _ ← guard_err (routeOverlapsReserved st p) (EBoundReserved p);
  let b := MkBuild (b_Destinations b) (Insert p (MkSubnetRoute (ie_ProfileID entry) (ie_Active entry)) (b_ExactRoutes b))
             (b_ImportedRoutes b) (b_ExitRoutes b) (b_Sources b) (b_InboundPeers b) (b_Routes b) in
  if ie_Active entry then
    _ ← guard_err (negb (has_source b (ie_ProfileID entry) (addr.Is6 (p_addr p)))) (EBoundNoSelf (ie_ProfileID entry) p);
    Ok (add_route b (plain_route p (natIPFor st (p_addr p))))
  else Ok b.
Definition add_imported (st : State) (b : build) (entry : IPEntry) : result tun_error build :=
  let p := ie_Prefix entry in
  let active := ie_Active entry && negb (routeOverlapsReserved st p) in
  let b := MkBuild (b_Destinations b) (b_ExactRoutes b)
             (Insert p (MkSubnetRoute (ie_ProfileID entry) active) (b_ImportedRoutes b)) (b_ExitRoutes b)
             (b_Sources b) (b_InboundPeers b) (b_Routes b) in
  if active then
    _ ← guard_err (negb (has_source b (ie_ProfileID entry) (addr.Is6 (p_addr p)))) (EImportedNoSelf (ie_ProfileID entry) p);
    Ok (add_route b (plain_route p (natIPFor st (p_addr p))))
  else Ok b.
Definition add_exit (st : State) (exitProfileID : string) (b : build) (ipv6 : bool) : build :=
  if negb (has_source b exitProfileID ipv6) then b
  else
    let b := MkBuild (b_Destinations b) (b_ExactRoutes b) (b_ImportedRoutes b)
               (Insert (default_route ipv6) (MkSubnetRoute exitProfileID true) (b_ExitRoutes b))
               (b_Sources b) (b_InboundPeers b) (b_Routes b) in
    foldl (λ b route, add_route b (MkHostRoute route (natIPFor st (p_addr route)) true false)) b (splitDefaultRoutes ipv6).

Definition check_service (b : build) (serviceIP : Addr) : result tun_error unit :=
  _ ← guard_err (negb (addr.IsValid serviceIP)) ENoServiceIP;
  _ ← guard_err (existsb (λ s, bool_decide (s_HostIP s = serviceIP)) (map_to_list (b_Sources b)).*2) (EServiceIsNAT serviceIP);
  guard_err (match Lookup serviceIP (b_Destinations b) with Some _ => true | None => false end) (EServiceIsTarget serviceIP).

Definition needs_ipv6 (b : build) : bool :=
  existsb sk_IPv6 (map_to_list (b_Sources b)).*1 || existsb (λ r, addr.Is6 (hr_Source r)) (b_Routes b).
Definition host_config (st : State) (b : build) : HostConfig :=
  MkHostConfig
    (host_prefix (st_NATIP st) :: (if needs_ipv6 b then [host_prefix (st_NATIPv6 st)] else []))
    (b_Routes b ++
     [plain_route (host_prefix (st_DNSIP st)) (st_NATIP st);
      MkHostRoute (host_prefix ServiceIP) (st_NATIP st) false true]).
Definition table_of (b : build) : Table T :=
  MkTable (Some (b_Destinations b)) (Some (b_ExactRoutes b)) (Some (b_ImportedRoutes b)) (Some (b_ExitRoutes b))
    (b_Sources b) (b_InboundPeers b).

Definition add_exits (st : State) (statuses : list Status) (b : build) : build :=
  let exitProfileID := activeExitProfile st statuses in
  if String.eqb exitProfileID "" then b else foldl (add_exit st exitProfileID) b [false; true].
Definition tunConfigWithPolicy (st : State) (statuses : list Status) (leases : list Lease) (policy : IPPlan) :
    result tun_error (Table T * HostConfig) :=
  byKey ← foldM index_lease leases ∅;
  b ← foldM (add_status st byKey) statuses empty_build;
  let b := foldl (add_retained st) b (st_Leases st) in
  b ← foldM (add_exact st) (ip_Exact policy) b;
  b ← foldM (add_imported st) (ip_Imported policy) b;
  let b := add_exits st statuses b in
  _ ← foldM (λ _ ip, check_service b ip) [st_DNSIP st; ServiceIP] tt;
  _ ← guard_err (negb (addr.IsValid (st_NATIP st))) ENoNATIP;
  Ok (table_of b, host_config st b).
End table.
Arguments build : clear implicits.

(** ** Single addresses as prefixes *)

Lemma host_prefix_masked a : plain_addr a = true →
  masked (host_prefix a) ∧ p_addr (host_prefix a) = a ∧ p_bits (host_prefix a) = addr.BitLen a ∧
  prefix.IsValid (host_prefix a) = true.
Proof.
  unfold plain_addr, host_prefix, prefix.PrefixFrom. intros [[Hw Hv]%andb_true_iff Hz%negb_true_iff]%andb_true_iff.
  rewrite Hv, Z.leb_refl, andb_true_r. rewrite (proj2 (Z.leb_le 0 (addr.BitLen a))) by (by destruct a). cbn [andb p_addr p_bits].
  assert (Ha : addr.withoutZone a = a).
  { destruct a as [|v|v z]; [done..|]. simpl in Hz |- *. by apply negb_false_iff, String.eqb_eq in Hz as ->. }
  rewrite Ha. split_and!; [|done|done|by destruct a]. split.
  - unfold prefix.Masked. replace (prefix.IsValid _) with true by (by destruct a). cbn [p_addr p_bits]. f_equal.
    rewrite <-Ha at 2. f_equal. destruct a as [|v|v z]; [done|..]; simpl; unfold prefix.mask_value; simpl; by rewrite Z.shiftr_0_r.
  - unfold prefix.wf. cbn [p_addr p_bits]. rewrite Hw, Hz. replace (prefix.IsValid _) with true by (by destruct a). by rewrite Z.leb_refl.
Qed.
Lemma host_prefix_Contains a b : plain_addr a = true → prefix.Contains (host_prefix a) b = true ↔ b = a.
Proof.
  intros Ha. destruct (host_prefix_masked a Ha) as (Hm & Hpa & Hpb & Hv). rewrite Contains_masked by done.
  unfold base, psize. rewrite Hpa, Hpb, Z.sub_diag, Z.pow_0_r.
  assert (Hz : addr.hasZone a = false) by (unfold plain_addr in Ha; by apply andb_true_iff in Ha as [_ ?%negb_true_iff]).
  split; [|intros ->; split_and!; try done; lia]. intros (_ & Hzb & Hl & Hr). apply addr_eq_by_value; [done..|lia].
Qed.
Lemma host_prefix_inj a b : plain_addr a = true → plain_addr b = true →
  prefix.Masked (host_prefix a) = prefix.Masked (host_prefix b) → a = b.
Proof.
  intros Ha Hb. destruct (host_prefix_masked a Ha) as ([-> _] & Hpa & _). destruct (host_prefix_masked b Hb) as ([-> _] & Hpb & _).
  intros E. by rewrite <-Hpa, <-Hpb, E.
Qed.
Lemma Contains_plain p a : prefix.wf p = true → prefix.Contains p a = true → plain_addr a = true.
Proof.
  intros Hwf Hc. rewrite <-Contains_Masked in Hc by done. pose proof (Masked_masked p Hwf) as Hm.
  pose proof (masked_IsValid _ _ Hc) as Hv. pose proof (masked_end _ Hm Hv) as He. pose proof (prefix_wf_base _ (proj2 Hm) Hv) as [Hb _].
  pose proof (Contains_addr_valid _ _ Hc) as Hav. apply Contains_masked in Hc as (_ & Hz & Hl & Hr); [|done].
  unfold plain_addr. rewrite Hav, Hz, andb_true_r. cbn [negb andb]. unfold base in *. rewrite <-Hl in *.
  rewrite andb_true_r. destruct a as [|v|v z]; [done|..]; simpl in *; lia.
Qed.

(** ** What the loops establish *)

Section facts.
Context {T : Type → Type} `{LT : LPM T, !LPMLaws T} (CGNATRange TailscaleULARange : Prefix) (ServiceIP : Addr).
Context (st : State) (byKey : gmap NodeKey Addr).
(** The leases are addresses of the family of their target. *)
Hypothesis Hleases : ∀ k eff, byKey !! k = Some eff → plain_addr eff = true ∧ addr.Is6 eff = addr.Is6 (k_CanonicalIP k).
Local Notation build := (build T).

Record targets_ok (b : build) : Prop := {
  (** A destination is the address of a target whose reply translates back. *)
  bo_dest p d : Get p (b_Destinations b) = Some d → ∃ eff target t,
    prefix.Masked p = prefix.Masked (host_prefix eff) ∧ plain_addr (d_CanonicalIP d) = true ∧
    byKey !! MkKey (d_ProfileID d) target (d_CanonicalIP d) = Some eff ∧
    b_InboundPeers b !! d_ProfileID d = Some t ∧ Get (host_prefix (d_CanonicalIP d)) t = Some eff;
  bo_in id t p eff : b_InboundPeers b !! id = Some t → Get p t = Some eff → ∃ c target,
    prefix.Masked p = prefix.Masked (host_prefix c) ∧ plain_addr c = true ∧ byKey !! MkKey id target c = Some eff;
  bo_src k s : b_Sources b !! k = Some s →
    s_HostIP s = nat_ip (sk_IPv6 k) st ∧ addr.IsValid (s_HostIP s) = true ∧ addr.Is6 (s_CanonicalIP s) = sk_IPv6 k;
  bo_routes r : r ∈ b_Routes b → ∃ eff, plain_addr eff = true ∧ is_Some (Get (host_prefix eff) (b_Destinations b)) ∧ r = plain_route (host_prefix eff) (natIPFor st eff) }.
(** The target is in the tables, and the host has a route to it. *)
Definition target_done (b : build) (id target : string) (c : Addr) : Prop :=
  ∃ eff, byKey !! MkKey id target c = Some eff ∧ Get (host_prefix eff) (b_Destinations b) = Some (MkDestination id c) ∧
         is_Some (b_Sources b !! sourceKey id c) ∧ plain_route (host_prefix eff) (natIPFor st eff) ∈ b_Routes b.
Definition same_tiers (b b' : build) : Prop :=
  b_ExactRoutes b' = b_ExactRoutes b ∧ b_ImportedRoutes b' = b_ImportedRoutes b ∧ b_ExitRoutes b' = b_ExitRoutes b.
(** A loop keeps what was done. *)
Record extends (b b' : build) : Prop := {
  ex_tiers : same_tiers b b';
  ex_done id target c : target_done b id target c → target_done b' id target c;
  ex_sources k : is_Some (b_Sources b !! k) → is_Some (b_Sources b' !! k) }.
Lemma build_extends_refl b : extends b b.
Proof. by split. Qed.
Lemma build_extends_trans b1 b2 b3 : extends b1 b2 → extends b2 b3 → extends b1 b3.
Proof. intros [(?&?&?) ? ?] [(?&?&?) ? ?]. split; [split_and!; congruence|auto..]. Qed.

Lemma empty_ok : targets_ok empty_build.
Proof.
  split; simpl; intros *.
  - by rewrite Get_new.
  - by rewrite lookup_empty.
  - by rewrite lookup_empty.
  - by intros ?%elem_of_nil.
Qed.
Lemma add_self_ok id b c b' : targets_ok b → add_self st id b c = Ok b' →
  targets_ok b' ∧ extends b b' ∧ is_Some (b_Sources b' !! sourceKey id c).
Proof.
  intros [Hd Hi Hs Hr] H. unfold add_self in H. ok_guard H as Hex. ok_guard H as Hv%negb_false_iff. injection H as <-.
  split_and!.
  - split; try done. simpl. intros k s. rewrite lookup_insert. case_decide as Hk; [|apply Hs].
    intros [= <-]. subst k. simpl. done.
  - split; [done| |]; simpl.
    + intros id' tg c' (eff & H1 & H2 & H3 & H4). exists eff. split_and!; try done. simpl.
      rewrite lookup_insert. case_decide; [eauto|done].
    + intros k Hk. rewrite lookup_insert. case_decide; [eauto|done].
  - simpl. rewrite lookup_insert_eq. eauto.
Qed.

Lemma add_target_ip_ok id target b c b' : targets_ok b → plain_addr c = true →
  add_target_ip byKey id target b c = Ok b' → targets_ok b' ∧ extends b b' ∧ target_done b' id target c.
Proof.
  intros [Hd Hi Hs Hr] Hc H. unfold add_target_ip in H. destruct (byKey !! MkKey id target c) as [eff|] eqn:Hk; [|done].
  ok_guard H as Hdest. ok_guard H as Hin. set (inbound := default lpm_new (b_InboundPeers b !! id)) in *.
  destruct (b_Sources b !! sourceKey id c) as [source|] eqn:Hsrc; [|done]. injection H as <-.
  destruct (Hleases _ _ Hk) as [Hpe Hfam]. simpl in Hfam.
  destruct (host_prefix_masked eff Hpe) as (_ & Hpa & _ & Hpv). destruct (host_prefix_masked c Hc) as (_ & _ & _ & Hcv).
  assert (Hsource : s_HostIP source = natIPFor st eff).
  { destruct (Hs _ _ Hsrc) as [-> _]. unfold natIPFor. by rewrite Hfam. }
  assert (Hinb : ∀ p e, Get p inbound = Some e → ∃ t, b_InboundPeers b !! id = Some t ∧ Get p t = Some e).
  { intros p e. unfold inbound. destruct (b_InboundPeers b !! id) as [t|]; simpl; [eauto|]. by rewrite Get_new. }
  set (inbound' := Insert (host_prefix c) eff inbound).
  assert (Hkeep : ∀ p e, Get p inbound = Some e → Get p inbound' = Some e).
  { intros p e Hp. unfold inbound'. rewrite Get_Insert by done. case_decide as Hm; [|done].
    rewrite (Get_same _ _ inbound Hm) in Hp. rewrite Hp in Hin. apply negb_false_iff, bool_decide_eq_true in Hin. by subst. }
  assert (Hnew : Get (host_prefix c) inbound' = Some eff).
  { unfold inbound'. by rewrite Get_Insert, decide_True. }
  split_and!.
  - split; simpl.
    + intros p d. rewrite Get_Insert by done. case_decide as Hm.
      * intros [= <-]. simpl. exists eff, target, inbound'. split_and!; try done. by rewrite lookup_insert_eq.
      * intros (e & tg & t & ? & ? & ? & Ht & Hg)%Hd. destruct (decide (d_ProfileID d = id)) as [Heq|Hne].
        -- exists e, tg, inbound'. rewrite Heq, lookup_insert_eq. rewrite Heq in Ht. split_and!; try done; [by rewrite <-Heq|].
           apply Hkeep. unfold inbound. by rewrite Ht.
        -- exists e, tg, t. by rewrite lookup_insert_ne by done.
    + intros id' t p e. rewrite lookup_insert. case_decide as Hid; [|apply Hi]. intros [= <-]. subst id'.
      unfold inbound'. rewrite Get_Insert by done. case_decide as Hm.
      * intros [= <-]. by exists c, target.
      * intros (t & Ht & Hg)%Hinb. by apply (Hi _ t).
    + apply Hs.
    + intros r [(e & ? & [d He] & ->)%Hr| ->]%elem_of_snoc.
      * exists e. split_and!; [done| |done]. rewrite Get_Insert by done. case_decide; eauto.
      * exists eff. rewrite Get_Insert, decide_True, Hsource by done. eauto.
  - split; [done| |done]. intros id' tg c' (e & H1 & H2 & H3 & H4). exists e. simpl. split_and!; try done.
    + rewrite Get_Insert by done. case_decide as Hm; [|done]. rewrite (Get_same _ _ _ Hm) in H2. rewrite H2 in Hdest. simpl in Hdest.
      apply orb_false_iff in Hdest as [H5%negb_false_iff%String.eqb_eq H6%negb_false_iff%bool_decide_eq_true]. by subst.
    + apply elem_of_app. by left.
  - exists eff. simpl. split_and!; [done| |eauto|].
    + by rewrite Get_Insert, decide_True.
    + rewrite <-Hsource. apply elem_of_snoc. by right.
Qed.

(** Chaining the loops. *)
Lemma foldM_extends {A E} (P : A → Prop) (f : build → A → result E build) (done : build → A → Prop) l b b' :
  targets_ok b → foldM f l b = Ok b' → Forall P l →
  (∀ b x b', targets_ok b → P x → f b x = Ok b' → targets_ok b' ∧ extends b b' ∧ done b' x) →
  (∀ b b' x, extends b b' → done b x → done b' x) →
  targets_ok b' ∧ extends b b' ∧ Forall (done b') l.
Proof.
  intros Hb H HP Hstep Hmono. revert b Hb H. induction HP as [|x l Hx _ IH]; intros b Hb H; cbn [foldM] in H.
  { injection H as <-. split_and!; [done|apply build_extends_refl|constructor]. }
  ok_inv H as b1 H1. destruct (Hstep _ _ _ Hb Hx H1) as (Hb1 & He1 & Hd1).
  destruct (IH _ Hb1 H) as (Hb' & He' & Hd'). split_and!; [done|by eapply build_extends_trans|].
  constructor; [|done]. by apply (Hmono b1).
Qed.

Definition target_plain (t : reachableTarget) : Prop := Forall (λ c, plain_addr c = true) (t_IPs t).
Definition status_plain (s : Status) : Prop := Forall target_plain (reachableTargets s).
(** An engine's own addresses. *)
Definition self_plain (s : Status) : Prop := Forall (λ a, plain_addr a = true) (s_SelfIPs s).
Definition target_complete (b : build) (id : string) (t : reachableTarget) : Prop :=
  Forall (target_done b id (t_ID t)) (t_IPs t).
Definition status_complete (b : build) (s : Status) : Prop :=
  Forall (target_complete b (s_ProfileID s)) (reachableTargets s) ∧
  Forall (λ c, is_Some (b_Sources b !! sourceKey (s_ProfileID s) c)) (s_SelfIPs s).

Lemma target_complete_mono b b' id t : extends b b' → target_complete b id t → target_complete b' id t.
Proof. intros He Hc. eapply Forall_impl; [exact Hc|]. intros c. apply (ex_done _ _ He). Qed.
Lemma status_complete_mono b b' s : extends b b' → status_complete b s → status_complete b' s.
Proof.
  intros He [H1 H2]. split; eapply Forall_impl; [exact H1| |exact H2|].
  - intros t. by apply target_complete_mono.
  - intros c. apply (ex_sources _ _ He).
Qed.
Lemma add_target_ok id b t b' : targets_ok b → target_plain t → add_target byKey id b t = Ok b' →
  targets_ok b' ∧ extends b b' ∧ target_complete b' id t.
Proof.
  intros Hb Ht H. apply (foldM_extends (λ c, plain_addr c = true) _ (λ b c, target_done b id (t_ID t) c) _ _ _ Hb H Ht).
  - intros b0 c b1. apply add_target_ip_ok.
  - intros b0 b1 c He. apply (ex_done _ _ He).
Qed.
Lemma add_status_ok b s b' : targets_ok b → status_plain s → add_status st byKey b s = Ok b' →
  targets_ok b' ∧ extends b b' ∧ status_complete b' s.
Proof.
  intros Hb Hs H. unfold add_status in H. ok_inv H as b1 H1.
  destruct (foldM_extends (λ _, True) _ (λ b c, is_Some (b_Sources b !! sourceKey (s_ProfileID s) c)) _ _ _ Hb H1) as (Hb1 & He1 & Hd1).
  - by apply Forall_forall.
  - intros b0 c b2 H0 _. by apply add_self_ok.
  - intros b0 b2 c He. apply (ex_sources _ _ He).
  - destruct (foldM_extends target_plain _ (λ b t, target_complete b (s_ProfileID s) t) _ _ _ Hb1 H Hs) as (Hb' & He' & Hd').
    + intros b0 t b2. apply add_target_ok.
    + intros b0 b2 t. apply target_complete_mono.
    + split_and!; [done|by eapply build_extends_trans|]. split; [done|]. eapply Forall_impl; [exact Hd1|].
      intros c. apply (ex_sources _ _ He').
Qed.
Lemma add_statuses_ok statuses b' : Forall status_plain statuses → foldM (add_status st byKey) statuses empty_build = Ok b' →
  targets_ok b' ∧ same_tiers empty_build b' ∧ Forall (status_complete b') statuses.
Proof.
  intros Hs H. destruct (foldM_extends status_plain _ status_complete _ _ _ empty_ok H Hs) as (Hb & [He _ _] & Hd).
  - intros b0 s b1. apply add_status_ok.
  - intros b0 b1 s. apply status_complete_mono.
  - done.
Qed.

(** A source is one of its profile's own addresses. *)
Definition own_sources (statuses : list Status) (m : gmap SourceKey Source) : Prop := ∀ k s, m !! k = Some s →
  ∃ ps, ps ∈ statuses ∧ s_ProfileID ps = sk_ProfileID k ∧ s_CanonicalIP s ∈ s_SelfIPs ps.
Lemma foldM_sources {A E} (Q : SourceKey → Source → Prop) (f : build → A → result E build) l b b' :
  (∀ b x b', x ∈ l → f b x = Ok b' → ∀ k s, b_Sources b' !! k = Some s → b_Sources b !! k = Some s ∨ Q k s) →
  foldM f l b = Ok b' → ∀ k s, b_Sources b' !! k = Some s → b_Sources b !! k = Some s ∨ Q k s.
Proof using.
  revert b. induction l as [|x l IH]; intros b Hf H k s Hs; cbn [foldM] in H; [injection H as <-; by left|].
  ok_inv H as b1 H1. destruct (IH b1) with (k := k) (s := s) as [Hk|?]; [|done|done| |by right].
  - intros b2 y b3 Hy. apply Hf. by right.
  - apply (Hf b x b1); [by left|done..].
Qed.
Lemma add_target_sources id target b c b' : add_target_ip byKey id target b c = Ok b' → b_Sources b' = b_Sources b.
Proof using.
  unfold add_target_ip. destruct (byKey !! _) as [eff|]; [|done]. intros H. ok_guard H as Hdest. ok_guard H as Hin.
  destruct (b_Sources b !! sourceKey id c); [|done]. by injection H as <-.
Qed.
Lemma add_status_sources b ps b' : add_status st byKey b ps = Ok b' → ∀ k s, b_Sources b' !! k = Some s →
  b_Sources b !! k = Some s ∨ (s_ProfileID ps = sk_ProfileID k ∧ s_CanonicalIP s ∈ s_SelfIPs ps).
Proof using.
  intros H k s Hs. unfold add_status in H. ok_inv H as b1 H1.
  assert (b_Sources b1 !! k = Some s) as Hs1.
  { destruct (λ Hf, foldM_sources (λ _ _, False) _ _ _ _ Hf H k s Hs) as [?|[]]; [|done].
    intros b2 t b3 _ Ht k' s' Hs'. refine (foldM_sources (λ _ _, False) _ _ _ _ _ Ht k' s' Hs').
    intros b4 c b5 _ Hc k2 s2 H2. left. by rewrite <- (add_target_sources _ _ _ _ _ Hc). }
  refine (foldM_sources (λ k s, s_ProfileID ps = sk_ProfileID k ∧ s_CanonicalIP s ∈ s_SelfIPs ps) _ _ _ _ _ H1 k s Hs1).
  intros b2 c b3 Hc Ha k' s'. unfold add_self in Ha. ok_guard Ha as Hex. ok_guard Ha as Hv. injection Ha as <-. cbn.
  rewrite lookup_insert. case_decide as Hk; [|by left]. intros [= <-]. right. by subst k'.
Qed.
Lemma add_statuses_sources statuses b' : foldM (add_status st byKey) statuses empty_build = Ok b' → own_sources statuses (b_Sources b').
Proof using.
  intros H k s Hs. destruct (λ Hf, foldM_sources (λ k s, ∃ ps, ps ∈ statuses ∧ s_ProfileID ps = sk_ProfileID k ∧ s_CanonicalIP s ∈ s_SelfIPs ps) _ _ _ _
    Hf H k s Hs) as [Hn|?]; [|cbn in Hn; by rewrite lookup_empty in Hn|done].
  intros b ps b1 Hps H1 k' s' Hs'. destruct (add_status_sources b ps b1 H1 k' s' Hs') as [?|[? ?]]; [by left|right; by exists ps].
Qed.

(** *** The route tiers *)

(** The later loops leave the targets alone. *)
Record same_targets (b b' : build) : Prop := {
  sm_dest : b_Destinations b' = b_Destinations b;
  sm_in : b_InboundPeers b' = b_InboundPeers b;
  sm_src : b_Sources b' = b_Sources b;
  sm_routes : ∃ rs, b_Routes b' = b_Routes b ++ rs }.
#[global] Instance same_targets_refl : Reflexive same_targets.
Proof. intros b. split; try done. exists []. by rewrite app_nil_r. Qed.
#[global] Instance same_targets_trans : Transitive same_targets.
Proof.
  intros b1 b2 b3 [? ? ? [r1 E1]] [? ? ? [r2 E2]]. split; try congruence. exists (r1 ++ r2). by rewrite E2, E1, app_assoc.
Qed.

(** A retained lease that needs a route: of the pool, and not active. *)
Definition retained (b : build) (ip : Addr) : Prop :=
  addr.IsValid ip = true ∧ Get (host_prefix ip) (b_Destinations b) = None ∧ in_family_pool st (addr.Is6 ip) ip.
Lemma add_retained_ok b l : let b' := add_retained st b l in
  same_targets b b' ∧ b_ImportedRoutes b' = b_ImportedRoutes b ∧ b_ExitRoutes b' = b_ExitRoutes b ∧
  ((retained b (el_EffectiveIP l) ∧
     b_ExactRoutes b' = Insert (host_prefix (el_EffectiveIP l)) (MkSubnetRoute "" false) (b_ExactRoutes b) ∧
     b_Routes b' = b_Routes b ++ [plain_route (host_prefix (el_EffectiveIP l)) (natIPFor st (el_EffectiveIP l))]) ∨
   (¬ retained b (el_EffectiveIP l) ∧ b' = b)).
Proof.
  cbv zeta. unfold add_retained, retained, in_family_pool. set (ip := el_EffectiveIP l).
  destruct (addr.IsValid ip) eqn:Hv; cbn [negb].
  2:{ split_and!; try done. right. split; [|done]. by intros (? & _). }
  destruct (Get (host_prefix ip) (b_Destinations b)) eqn:Hg.
  { split_and!; try done. right. split; [|done]. by intros (_ & ? & _). }
  destruct (ParsePrefix _) as [pool|] eqn:Hp.
  2:{ split_and!; try done. right. split; [|done]. by intros (_ & _ & ? & ? & _). }
  destruct (prefix.Contains pool ip) eqn:Hc.
  - split_and!; try done; [split; try done; simpl; eauto|]. left. split_and!; eauto.
  - split_and!; try done. right. split; [|done]. intros (_ & _ & pool' & ? & ?). congruence.
Qed.

Lemma retained_plain b ip : retained b ip → plain_addr ip = true.
Proof. intros (_ & _ & pool & [Hwf _]%ParsePrefix_wf & Hc). by apply (Contains_plain pool). Qed.
Lemma same_targets_retained b b' ip : same_targets b b' → retained b' ip ↔ retained b ip.
Proof. intros [Hd _ _ _]. unfold retained. by rewrite Hd. Qed.

(** The tables after the loop over retained leases. *)
Record retained_ok (b b' : build) (ls : list EffectiveLease) : Prop := {
  rk_same : same_targets b b';
  rk_imported : b_ImportedRoutes b' = b_ImportedRoutes b;
  rk_exit : b_ExitRoutes b' = b_ExitRoutes b;
  rk_exact p r : Get p (b_ExactRoutes b') = Some r → Get p (b_ExactRoutes b) = Some r ∨
    (r = MkSubnetRoute "" false ∧ ∃ l, l ∈ ls ∧ retained b (el_EffectiveIP l) ∧
       prefix.Masked p = prefix.Masked (host_prefix (el_EffectiveIP l)));
  rk_retained l : l ∈ ls → retained b (el_EffectiveIP l) →
    Get (host_prefix (el_EffectiveIP l)) (b_ExactRoutes b') = Some (MkSubnetRoute "" false) ∧
    plain_route (host_prefix (el_EffectiveIP l)) (natIPFor st (el_EffectiveIP l)) ∈ b_Routes b';
  rk_routes r : r ∈ b_Routes b' → r ∈ b_Routes b ∨
    ∃ l, l ∈ ls ∧ plain_addr (el_EffectiveIP l) = true ∧ r = plain_route (host_prefix (el_EffectiveIP l)) (natIPFor st (el_EffectiveIP l)) }.
Lemma retained_loop b ls : retained_ok b (foldl (add_retained st) b ls) ls.
Proof.
  induction ls as [|l ls [Hs Hi He Hx Hr Hrs]] using rev_ind.
  { split; try done; auto. by intros l ?%elem_of_nil. }
  rewrite foldl_app. simpl. set (b1 := foldl (add_retained st) b ls) in *.
  destruct (add_retained_ok b1 l) as (Hs' & Hi' & He' & [(Hret' & Ex & Er)|[Hret' Heq]]).
  - pose proof (retained_plain _ _ Hret') as Hp.
    destruct (host_prefix_masked _ Hp) as (_ & _ & _ & Hv). apply (same_targets_retained b b1) in Hret'; [|done].
    split; try congruence.
    + by etrans.
    + intros p r. rewrite Ex, Get_Insert by done. case_decide as Hm.
      * intros [= <-]. right. split; [done|]. exists l. split_and!; [apply elem_of_snoc; auto|done|done].
      * intros [?|(-> & l' & ? & ? & ?)]%Hx; [auto|]. right. split; [done|]. exists l'. split_and!; [apply elem_of_snoc; auto|done|done].
    + intros l' [Hl'| ->]%elem_of_snoc Hr'.
      * destruct (Hr _ Hl' Hr') as [H1 H2]. rewrite Ex, Er, Get_Insert by done. split; [by case_decide|]. apply elem_of_app; auto.
      * rewrite Ex, Er, Get_Insert, decide_True by done. split; [done|]. apply elem_of_snoc; auto.
    + intros r. rewrite Er. intros [[?|(l' & ? & ?)]%Hrs| ->]%elem_of_snoc; [auto|right; exists l'|right; exists l]; (split; [apply elem_of_snoc; auto|done]).
  - rewrite Heq in *. split; try done.
    + intros p r [?|(-> & l' & ? & ? & ?)]%Hx; [auto|]. right. split; [done|]. exists l'. split_and!; [apply elem_of_snoc; auto|done|done].
    + intros l' [Hl'| ->]%elem_of_snoc Hr'; [by apply Hr|]. by apply (same_targets_retained b b1) in Hr'.
    + intros r [?|(l' & ? & ?)]%Hrs; [auto|]. right. exists l'. split; [apply elem_of_snoc; auto|done].
Qed.

(** The tables after the loop over the bindings. *)
Definition entry_route (e : IPEntry) : SubnetRoute := MkSubnetRoute (ie_ProfileID e) (ie_Active e).
Definition route_usable (b : build) (id : string) (p : Prefix) : Prop := has_source b id (addr.Is6 (p_addr p)) = true.
Local Notation overlaps := (routeOverlapsReserved CGNATRange TailscaleULARange ServiceIP st).

Record exact_ok (b b' : build) (es : list IPEntry) : Prop := {
  xk_same : same_targets b b';
  xk_imported : b_ImportedRoutes b' = b_ImportedRoutes b;
  xk_exit : b_ExitRoutes b' = b_ExitRoutes b;
  xk_free e : e ∈ es → overlaps (ie_Prefix e) = false ∧ (ie_Active e = true → route_usable b (ie_ProfileID e) (ie_Prefix e));
  xk_exact p r : Get p (b_ExactRoutes b') = Some r → Get p (b_ExactRoutes b) = Some r ∨
    ∃ e, e ∈ es ∧ prefix.Masked p = prefix.Masked (ie_Prefix e) ∧ r = entry_route e;
  xk_keep p r : Get p (b_ExactRoutes b) = Some r →
    (∀ e, e ∈ es → prefix.Masked p ≠ prefix.Masked (ie_Prefix e)) → Get p (b_ExactRoutes b') = Some r;
  xk_routes r : r ∈ b_Routes b' → r ∈ b_Routes b ∨
    ∃ e, e ∈ es ∧ ie_Active e = true ∧ r = plain_route (ie_Prefix e) (natIPFor st (p_addr (ie_Prefix e)));
  xk_route e : e ∈ es → ie_Active e = true → plain_route (ie_Prefix e) (natIPFor st (p_addr (ie_Prefix e))) ∈ b_Routes b' }.
Lemma Get_Insert_cases {V} p q (v w : V) (t : T V) : Get q (Insert p v t) = Some w →
  Get q t = Some w ∨ (prefix.Masked q = prefix.Masked p ∧ w = v).
Proof.
  destruct (prefix.IsValid p) eqn:Hv; [|rewrite Insert_invalid by done; auto].
  rewrite Get_Insert by done. case_decide; [|auto]. intros [= <-]. auto.
Qed.
Lemma Get_Insert_keep {V} p q (v w : V) (t : T V) : Get q t = Some w → prefix.Masked q ≠ prefix.Masked p →
  Get q (Insert p v t) = Some w.
Proof.
  destruct (prefix.IsValid p) eqn:Hv; [|by rewrite Insert_invalid].
  intros Hq Hne. by rewrite Get_Insert, decide_False.
Qed.
Lemma add_exact_ok b e b' : add_exact CGNATRange TailscaleULARange ServiceIP st b e = Ok b' →
  overlaps (ie_Prefix e) = false ∧ (ie_Active e = true → route_usable b (ie_ProfileID e) (ie_Prefix e)) ∧
  same_targets b b' ∧ b_ImportedRoutes b' = b_ImportedRoutes b ∧ b_ExitRoutes b' = b_ExitRoutes b ∧
  b_ExactRoutes b' = Insert (ie_Prefix e) (entry_route e) (b_ExactRoutes b) ∧
  b_Routes b' = b_Routes b ++ (if ie_Active e then [plain_route (ie_Prefix e) (natIPFor st (p_addr (ie_Prefix e)))] else []).
Proof.
  intros H. unfold add_exact in H. ok_guard H as Ho. unfold entry_route. destruct (ie_Active e) eqn:Ea.
  - ok_guard H as Hs%negb_false_iff. injection H as <-. split_and!; try done. split; simpl; eauto.
  - injection H as <-. simpl. rewrite app_nil_r. split_and!; try done. split; try done. simpl. exists []. by rewrite app_nil_r.
Qed.
Lemma exact_loop b es b' : foldM (add_exact CGNATRange TailscaleULARange ServiceIP st) es b = Ok b' → exact_ok b b' es.
Proof.
  intros H. apply (foldM_ind (λ pre b', exact_ok b b' pre) _ _ _ _ H).
  { split; try done; auto; by intros ? ?%elem_of_nil. }
  intros pre e b1 b2 _ [Hs Hi He Hf Hx Hk Hr Hrt]
    (Ho & Hu & Hs' & Hi' & He' & Ex & Er)%add_exact_ok.
  assert (Husable : ∀ id p, route_usable b1 id p ↔ route_usable b id p).
  { intros. unfold route_usable, has_source. by rewrite (sm_src _ _ Hs). }
  split; try congruence.
  - by etrans.
  - intros x [?| ->]%elem_of_snoc; [by apply Hf|]. split; [done|]. intros Ha. by apply Husable, Hu.
  - intros p r. rewrite Ex. intros [[?|(x & ? & ? & ?)]%Hx|[Hm ->]]%Get_Insert_cases; [auto| |].
    + right. exists x. split_and!; [apply elem_of_snoc; auto|done|done].
    + right. exists e. split_and!; [apply elem_of_snoc; auto|done|done].
  - intros p r Hg Hne. rewrite Ex. apply Get_Insert_keep.
    + apply Hk; [done|]. intros x Hx'. apply Hne, elem_of_snoc; auto.
    + apply Hne, elem_of_snoc; auto.
  - intros r. rewrite Er. intros [[?|(x & ? & ? & ?)]%Hr|Hin]%elem_of_app; [auto| |].
    + right. exists x. split_and!; [apply elem_of_snoc; auto|done|done].
    + destruct (ie_Active e) eqn:Ea; [|by apply elem_of_nil in Hin]. apply list_elem_of_singleton in Hin as ->.
      right. exists e. split_and!; [apply elem_of_snoc; auto|done|done].
  - intros x [Hin| ->]%elem_of_snoc Ha; rewrite Er; apply elem_of_app; [left; by apply Hrt|right]. rewrite Ha. by left.
Qed.

(** The tables after the loop over the imported routes. *)
Record imported_ok (b b' : build) (es : list IPEntry) : Prop := {
  mk_same : same_targets b b';
  mk_exact : b_ExactRoutes b' = b_ExactRoutes b;
  mk_exit : b_ExitRoutes b' = b_ExitRoutes b;
  mk_imported p r : Get p (b_ImportedRoutes b') = Some r → Get p (b_ImportedRoutes b) = Some r ∨
    ∃ e, e ∈ es ∧ prefix.Masked p = prefix.Masked (ie_Prefix e) ∧ r_ProfileID r = ie_ProfileID e ∧
      (r_Active r = true → ie_Active e = true ∧ overlaps (ie_Prefix e) = false ∧ route_usable b (ie_ProfileID e) (ie_Prefix e));
  mk_routes r : r ∈ b_Routes b' → r ∈ b_Routes b ∨
    ∃ e, e ∈ es ∧ (ie_Active e = true ∧ overlaps (ie_Prefix e) = false) ∧ r = plain_route (ie_Prefix e) (natIPFor st (p_addr (ie_Prefix e))) }.
Lemma add_imported_ok b e b' : add_imported CGNATRange TailscaleULARange ServiceIP st b e = Ok b' →
  let active := ie_Active e && negb (overlaps (ie_Prefix e)) in
  (active = true → route_usable b (ie_ProfileID e) (ie_Prefix e)) ∧
  same_targets b b' ∧ b_ExactRoutes b' = b_ExactRoutes b ∧ b_ExitRoutes b' = b_ExitRoutes b ∧
  b_ImportedRoutes b' = Insert (ie_Prefix e) (MkSubnetRoute (ie_ProfileID e) active) (b_ImportedRoutes b) ∧
  b_Routes b' = b_Routes b ++ (if active then [plain_route (ie_Prefix e) (natIPFor st (p_addr (ie_Prefix e)))] else []).
Proof.
  intros H active. unfold add_imported in H. fold active in H. destruct active eqn:Ea.
  - ok_guard H as Hs%negb_false_iff. injection H as <-. split_and!; try done. split; simpl; eauto.
  - injection H as <-. simpl. rewrite app_nil_r. split_and!; try done. split; try done. simpl. exists []. by rewrite app_nil_r.
Qed.
Lemma imported_loop b es b' : foldM (add_imported CGNATRange TailscaleULARange ServiceIP st) es b = Ok b' → imported_ok b b' es.
Proof.
  intros H. apply (foldM_ind (λ pre b', imported_ok b b' pre) _ _ _ _ H).
  { split; try done; auto. }
  intros pre e b1 b2 _ [Hs Hx He Hi Hr] (Hu & Hs' & Hx' & He' & Ei & Er)%add_imported_ok.
  assert (Husable : ∀ id p, route_usable b1 id p ↔ route_usable b id p).
  { intros. unfold route_usable, has_source. by rewrite (sm_src _ _ Hs). }
  split; try congruence.
  - by etrans.
  - intros p r. rewrite Ei. intros [[?|(x & ? & ? & ? & ?)]%Hi|[Hm ->]]%Get_Insert_cases; [auto| |].
    + right. exists x. split_and!; [apply elem_of_snoc; auto|done..].
    + right. exists e. split_and!; [apply elem_of_snoc; auto|done|done|]. cbn [r_Active]. intros Ha.
      split_and!; [by apply andb_true_iff in Ha as [? _]|by apply andb_true_iff in Ha as [_ ?%negb_true_iff]|by apply Husable, Hu].
  - intros r. rewrite Er. intros [[?|(x & ? & ? & ?)]%Hr|Hin]%elem_of_app; [auto| |].
    + right. exists x. split_and!; [apply elem_of_snoc; auto|tauto|tauto|done].
    + destruct (ie_Active e && _) eqn:Ea; [|by apply elem_of_nil in Hin]. apply list_elem_of_singleton in Hin as ->.
      apply andb_true_iff in Ea as [? ?%negb_true_iff]. right. exists e. split_and!; [apply elem_of_snoc; auto|done|done|done].
Qed.

(** The tables after the exit node. *)
Record exit_ok (b b' : build) (id : string) : Prop := {
  ek_same : same_targets b b';
  ek_exact : b_ExactRoutes b' = b_ExactRoutes b;
  ek_imported : b_ImportedRoutes b' = b_ImportedRoutes b;
  ek_exit p r : Get p (b_ExitRoutes b') = Some r → Get p (b_ExitRoutes b) = Some r ∨
    (id ≠ "" ∧ r = MkSubnetRoute id true ∧ ∃ ipv6, prefix.Masked p = prefix.Masked (default_route ipv6) ∧ has_source b id ipv6 = true);
  ek_routes r : r ∈ b_Routes b' → r ∈ b_Routes b ∨
    (id ≠ "" ∧ ∃ ipv6 p, p ∈ splitDefaultRoutes ipv6 ∧ r = MkHostRoute p (natIPFor st (p_addr p)) true false ∧ has_source b id ipv6 = true) }.
Lemma add_exit_ok id b ipv6 : id ≠ "" → exit_ok b (add_exit st id b ipv6) id.
Proof.
  intros Hid. unfold add_exit. destruct (has_source b id ipv6) eqn:Hs; simpl.
  2:{ split; try done; auto. }
  split; try by destruct ipv6.
  - split; try by destruct ipv6. destruct ipv6; simpl; rewrite <-app_assoc; eauto.
  - intros p r Hg. assert (Hg' : Get p (Insert (default_route ipv6) (MkSubnetRoute id true) (b_ExitRoutes b)) = Some r) by (by destruct ipv6).
    apply Get_Insert_cases in Hg' as [?|[Hm ->]]; [auto|]. right. split_and!; [done|done|eauto].
  - intros r Hr. assert (Hr' : r ∈ b_Routes b ++ ((λ p, MkHostRoute p (natIPFor st (p_addr p)) true false) <$> splitDefaultRoutes ipv6)).
    { destruct ipv6; simpl in Hr |- *; by rewrite <-app_assoc in Hr. }
    apply elem_of_app in Hr' as [?|(p & -> & Hp)%list_elem_of_fmap]; [auto|]. right. split; [done|]. exists ipv6, p. done.
Qed.
Lemma exit_ok_trans b1 b2 b3 id : exit_ok b1 b2 id → exit_ok b2 b3 id → exit_ok b1 b3 id.
Proof.
  intros [Hs Hx Hi He Hr] [Hs' Hx' Hi' He' Hr'].
  assert (Hsrc : ∀ ipv6, has_source b2 id ipv6 = has_source b1 id ipv6) by (intros; unfold has_source; by rewrite (sm_src _ _ Hs)).
  split; try congruence; [by etrans| |].
  - intros p r [?%He|(? & ? & ipv6 & ? & Hsr)]%He'; [done|]. right. split_and!; [done|done|]. exists ipv6. by rewrite <-Hsrc.
  - intros r [?%Hr|(? & ipv6 & p & ? & ? & Hsr)]%Hr'; [done|]. right. split; [done|]. exists ipv6, p. by rewrite <-Hsrc.
Qed.
Lemma exits_loop statuses b : exit_ok b (add_exits st statuses b) (activeExitProfile st statuses).
Proof.
  unfold add_exits. destruct (String.eqb_spec (activeExitProfile st statuses) "") as [Hid|Hid].
  - split; try done; auto.
  - simpl. eapply exit_ok_trans; by apply add_exit_ok.
Qed.
End facts.

(** ** The whole function *)

Lemma index_leases_ok leases byKey : foldM index_lease leases ∅ = Ok byKey →
  ∀ k eff, byKey !! k = Some eff ↔ MkLease k eff ∈ leases.
Proof.
  intros H. apply (foldM_ind (λ pre m, ∀ k eff, m !! k = Some eff ↔ MkLease k eff ∈ pre) _ _ _ _ H).
  { intros k eff. by rewrite lookup_empty, elem_of_nil. }
  clear H byKey. intros pre [k0 e0] m1 m2 _ Hm E k eff. unfold index_lease in E. simpl in E.
  assert (m2 = <[k0 := e0]> m1 ∧ (∀ e, m1 !! k0 = Some e → e = e0)) as [-> Hsame].
  { destruct (m1 !! k0) as [e|]; [|by injection E as <-]. destruct (bool_decide_reflect (e = e0)); [|done].
    injection E as <-. split; [done|]. by intros ? [= <-]. }
  rewrite lookup_insert, elem_of_snoc, <-Hm. case_decide as Hk.
  - subst. split; [intros [= <-]; auto|]. intros [?%Hsame|[= <-]]; [by subst|done].
  - split; [auto|]. intros [?|[= ? ?]]; [done|congruence].
Qed.
