(* ===== verification/TUNTableFacts.v ===== *)
(** * What the packet table of a plan does

    The table and routes of [tunConfigWithPolicy], read through the mapper:
    which address reaches which target, that replies come back, that departed
    targets fail closed, and that every usable route was asked for. *)

From S2P Require Import Prelude GoStrings Netip RoutingTable PacketMap EffectiveIP State Types RoutingPolicy HostPools LeasePlan TUNTable.
Import netip_facts.
Local Open Scope Z_scope.

(** ** Lookups of single addresses *)

Section lookup.
Context {T : Type → Type} `{LT : LPM T, !LPMLaws T} {V : Type}.

(** A full-length entry is the longest. *)
Lemma Lookup_host (t : T V) ip v : plain_addr ip = true → Get (host_prefix ip) t = Some v → Lookup ip t = Some v.
Proof.
  intros Hp Hg. destruct (host_prefix_masked ip Hp) as (Hm & Ha & Hb & Hv). apply Lookup_Some. exists (host_prefix ip).
  split; [|done]. split; [eauto|]. split; [by apply host_prefix_Contains|]. intros p' [Hm' _] Hc.
  pose proof (masked_IsValid _ _ Hc) as Hv'. destruct (wf_bits p' (proj2 Hm') Hv') as [Hbits _].
  rewrite Hb, (Contains_BitLen _ _ Hc). lia.
Qed.
(** In a table of single addresses a lookup finds the entry of the address. *)
Lemma Lookup_only_hosts (t : T V) ip v : (∀ p w, Get p t = Some w → ∃ a, plain_addr a = true ∧ prefix.Masked p = prefix.Masked (host_prefix a)) →
  Lookup ip t = Some v → plain_addr ip = true ∧ Get (host_prefix ip) t = Some v.
Proof.
  intros Hall (p & ([Hm _] & Hc & _) & Hg)%Lookup_Some. destruct (Hall p v Hg) as (a & Ha & Hpa).
  destruct (host_prefix_masked a Ha) as ([Hma _] & _). rewrite (proj1 Hm), Hma in Hpa. subst p.
  apply host_prefix_Contains in Hc; [|done]. by subst.
Qed.
End lookup.

(** ** What the loops left behind *)

Section config.
Context {T : Type → Type} `{LT : LPM T, !LPMLaws T} (CGNATRange TailscaleULARange : Prefix) (ServiceIP : Addr).
Local Notation tunConfigWithPolicy := (tunConfigWithPolicy (T:=T) CGNATRange TailscaleULARange ServiceIP).
Local Notation overlaps := (routeOverlapsReserved CGNATRange TailscaleULARange ServiceIP).

(** The leases and statuses a plan is made from. *)
Definition lease_plain (l : Lease) : Prop :=
  plain_addr (l_EffectiveIP l) = true ∧ addr.Is6 (l_EffectiveIP l) = addr.Is6 (k_CanonicalIP (l_NodeKey l)).

(** What every loop left behind, of the final tables [b]. *)
Record config (st : State) (statuses : list Status) (leases : list Lease) (policy : IPPlan)
    (cf_byKey : gmap NodeKey Addr) (b0 b : build T) : Prop := {
  cf_leases k eff : cf_byKey !! k = Some eff ↔ MkLease k eff ∈ leases;
  cf_targets : targets_ok st cf_byKey b0;
  cf_complete : Forall (status_complete st cf_byKey b0) statuses;
  cf_same : same_targets b0 b;
  cf_sources : own_sources statuses (b_Sources b0);
  cf_exact p r : Get p (b_ExactRoutes b) = Some r →
    (r = MkSubnetRoute "" false) ∨
    ∃ e, e ∈ ip_Exact policy ∧ prefix.Masked p = prefix.Masked (ie_Prefix e) ∧ r = entry_route e ∧
         overlaps st (ie_Prefix e) = false ∧ (ie_Active e = true → route_usable b0 (ie_ProfileID e) (ie_Prefix e));
  cf_retained l : l ∈ st_Leases st → retained st b0 (el_EffectiveIP l) →
    (∀ e, e ∈ ip_Exact policy → prefix.Masked (host_prefix (el_EffectiveIP l)) ≠ prefix.Masked (ie_Prefix e)) →
    Get (host_prefix (el_EffectiveIP l)) (b_ExactRoutes b) = Some (MkSubnetRoute "" false);
  cf_retained_route l : l ∈ st_Leases st → retained st b0 (el_EffectiveIP l) →
    plain_route (host_prefix (el_EffectiveIP l)) (natIPFor st (el_EffectiveIP l)) ∈ b_Routes b;
  cf_free e : e ∈ ip_Exact policy → overlaps st (ie_Prefix e) = false;
  cf_imported p r : Get p (b_ImportedRoutes b) = Some r →
    ∃ e, e ∈ ip_Imported policy ∧ prefix.Masked p = prefix.Masked (ie_Prefix e) ∧ r_ProfileID r = ie_ProfileID e ∧
      (r_Active r = true → ie_Active e = true ∧ overlaps st (ie_Prefix e) = false ∧ route_usable b0 (ie_ProfileID e) (ie_Prefix e));
  cf_exit p r : Get p (b_ExitRoutes b) = Some r →
    activeExitProfile st statuses ≠ "" ∧ r = MkSubnetRoute (activeExitProfile st statuses) true ∧
    ∃ ipv6, prefix.Masked p = prefix.Masked (default_route ipv6) ∧ has_source b0 (activeExitProfile st statuses) ipv6 = true;
  cf_routes r : r ∈ b_Routes b →
    (∃ a, plain_addr a = true ∧ (Lookup a (b_Destinations b) ≠ None ∨ ∃ l, l ∈ st_Leases st ∧ el_EffectiveIP l = a) ∧
       r = plain_route (host_prefix a) (natIPFor st a)) ∨
    (∃ e, e ∈ ip_Exact policy ++ ip_Imported policy ∧ ie_Active e = true ∧ overlaps st (ie_Prefix e) = false ∧
       r = plain_route (ie_Prefix e) (natIPFor st (p_addr (ie_Prefix e)))) ∨
    (activeExitProfile st statuses ≠ "" ∧ ∃ ipv6 p, p ∈ splitDefaultRoutes ipv6 ∧ r = MkHostRoute p (natIPFor st (p_addr p)) true false) }.
Lemma tunConfig_steps st statuses leases policy table host :
  Forall lease_plain leases → Forall status_plain statuses →
  tunConfigWithPolicy st statuses leases policy = Ok (table, host) →
  ∃ byKey b0 b, config st statuses leases policy byKey b0 b ∧ table = table_of b ∧ host = host_config ServiceIP st b ∧
    addr.IsValid (st_NATIP st) = true ∧
    ∀ ip, ip ∈ [st_DNSIP st; ServiceIP] → addr.IsValid ip = true ∧ Lookup ip (b_Destinations b) = None ∧
      ∀ k s, b_Sources b !! k = Some s → s_HostIP s ≠ ip.
Proof.
  intros Hl Hs H. unfold TUNTable.tunConfigWithPolicy in H. ok_inv H as byKey Hk. ok_inv H as b0 H0.
  set (b1 := foldl (add_retained st) b0 (st_Leases st)) in *. ok_inv H as b2 H2. ok_inv H as b3 H3.
  set (b := add_exits st statuses b3) in *. ok_inv H as u Hc. ok_guard H as Hn%negb_false_iff. injection H as <- <-.
  pose proof (index_leases_ok _ _ Hk) as Hbk.
  assert (Hleases : ∀ k eff, byKey !! k = Some eff → plain_addr eff = true ∧ addr.Is6 eff = addr.Is6 (k_CanonicalIP k)).
  { intros k eff Hin%Hbk. exact (proj1 (Forall_forall _ _) Hl _ Hin). }
  destruct (add_statuses_ok st byKey Hleases statuses b0 Hs H0) as (Ht & (Ex0 & Ei0 & Ee0) & Hd).
  pose proof (add_statuses_sources st byKey statuses b0 H0) as Hown.
  pose proof (retained_loop st b0 (st_Leases st)) as [Rs Ri Re Rx Rr Rrt]. fold b1 in Rs, Ri, Re, Rx, Rr, Rrt.
  apply exact_loop in H2 as [Xs Xi Xe Xf Xx Xk Xr Xrt]. apply imported_loop in H3 as [Ms Mx Me Mi Mr].
  pose proof (exits_loop st statuses b3) as [Es Ex Ei Ee Er]. fold b in Es, Ex, Ei, Ee, Er.
  assert (Hus : ∀ bx id p, same_targets b0 bx → route_usable bx id p ↔ route_usable b0 id p).
  { intros bx id p Hsx. unfold route_usable, has_source. by rewrite (sm_src _ _ Hsx). }
  assert (S2 : same_targets b0 b2) by (by transitivity b1). assert (S3 : same_targets b0 b3) by (by transitivity b2).
  assert (Hnil : ∀ (p : Prefix) (r : SubnetRoute), Get p (lpm_new : T SubnetRoute) = Some r → False) by (intros *; by rewrite Get_new).
  exists byKey, b0, b. split_and!; [|done|done|done|].
  - split; try done.
    + by transitivity b3.
    + intros p r. rewrite Ex, Mx. intros [[Hg|[-> _]]%Rx|(e & He & Hm & ->)]%Xx; [|by left|].
      * exfalso. rewrite Ex0 in Hg. by apply Hnil in Hg.
      * right. exists e. destruct (Xf e He) as [? Hu]. split_and!; try done. intros Ha. by apply (Hus b1), Hu.
    + intros l Hin Hr Hne. rewrite Ex, Mx. apply Xk; [|done]. by apply Rr.
    + intros l Hin Hr. destruct (Rr l Hin Hr) as [_ Hrt].
      assert (same_targets b1 b) as [_ _ _ [rs ->]] by (transitivity b2; [done|]; by transitivity b3). apply elem_of_app; auto.
    + intros e He. by apply Xf.
    + intros p r. rewrite Ei. intros [Hg|(e & He & Hm & Hid & Ha)]%Mi; [exfalso; rewrite Xi, Ri, Ei0 in Hg; by apply Hnil in Hg|].
      exists e. split_and!; try done. intros [? [? ?]]%Ha. split_and!; try done. by apply (Hus b2).
    + intros p r [Hg|(? & ? & ipv6 & ? & Hsrc)]%Ee; [exfalso; rewrite Me, Xe, Re, Ee0 in Hg; by apply Hnil in Hg|].
      split_and!; [done|done|]. exists ipv6. split; [done|]. unfold has_source in *. by rewrite <-(sm_src _ _ S3).
    + intros r [[[[(a & Ha & [d Hg] & ->)%(bo_routes _ _ _ Ht)|(l & ? & ? & ->)]%Rrt|(e & ? & ? & ->)]%Xr|(e & ? & [? ?] & ->)]%Mr|(? & ipv6 & p & ? & -> & _)]%Er.
      * left. exists a. split_and!; [done| |done]. left. assert (same_targets b0 b) as [-> _ _ _] by (by transitivity b3).
        by rewrite (Lookup_host _ _ _ Ha Hg).
      * left. eexists. split_and!; [done| |done]. right. eauto.
      * right. left. exists e. split_and!; [apply elem_of_app; auto|done| |done]. by apply Xf.
      * right. left. exists e. split_and!; [apply elem_of_app; auto|done..].
      * right. right. split; [done|]. by exists ipv6, p.
  - intros ip Hip. assert (Hc1 : check_service b ip = Ok tt).
    { cbn [foldM] in Hc. ok_inv Hc as u1 H1. ok_inv Hc as u2 H2. destruct u1, u2.
      apply elem_of_cons in Hip as [->|Hip]; [done|]. by apply list_elem_of_singleton in Hip as ->. }
    unfold check_service in Hc1. ok_guard Hc1 as Hv%negb_false_iff. ok_guard Hc1 as Hnat. apply guard_err_ok_inv in Hc1.
    split_and!; [done|by destruct (Lookup ip (b_Destinations b))|]. intros k s Hks Heq.
    assert (existsb (λ s, bool_decide (s_HostIP s = ip)) (map_to_list (b_Sources b)).*2 = true); [|congruence].
    apply existsb_exists. exists s. split; [|by apply bool_decide_eq_true].
    apply list_elem_of_In, list_elem_of_fmap. exists (k, s). split; [done|]. by apply elem_of_map_to_list.
Qed.
End config.

Lemma own_source_plain statuses m k src : Forall self_plain statuses → own_sources statuses m → m !! k = Some src → plain_addr (s_CanonicalIP src) = true.
Proof. intros Hs Hown (ps & Hps & _ & Hin)%Hown. exact (proj1 (Forall_forall _ _) (proj1 (Forall_forall _ _) Hs ps Hps) _ Hin). Qed.

Section facts.
Context {T : Type → Type} `{LT : LPM T, !LPMLaws T} (CGNATRange TailscaleULARange : Prefix) (ServiceIP : Addr).
Local Notation tunConfigWithPolicy := (tunConfigWithPolicy (T:=T) CGNATRange TailscaleULARange ServiceIP).
Local Notation overlaps := (routeOverlapsReserved CGNATRange TailscaleULARange ServiceIP).

Section of_config.
Context (st : State) (statuses : list Status) (leases : list Lease) (policy : IPPlan) (byKey : gmap NodeKey Addr) (b0 b : build T).
Hypothesis Hcfg : config CGNATRange TailscaleULARange ServiceIP st statuses leases policy byKey b0 b.
Hypothesis Hl : Forall lease_plain leases.

Lemma lease_is_plain k eff : byKey !! k = Some eff → plain_addr eff = true ∧ addr.Is6 eff = addr.Is6 (k_CanonicalIP k).
Proof using Hcfg Hl. intros Hin%(cf_leases _ _ _ _ _ _ _ _ _ _ Hcfg). exact (proj1 (Forall_forall _ _) Hl _ Hin). Qed.

(** Every destination is the address of a lease, linked to its way back. *)
Lemma destination_of_lease ip d : destination_of (table_of b) ip = Some d →
  ∃ target, MkLease (MkKey (d_ProfileID d) target (d_CanonicalIP d)) ip ∈ leases ∧ plain_addr (d_CanonicalIP d) = true ∧
    inbound_peer (table_of b) (d_ProfileID d) (d_CanonicalIP d) = Some ip.
Proof using Hcfg Hl LPMLaws0.
  pose proof (cf_targets _ _ _ _ _ _ _ _ _ _ Hcfg) as Ht. destruct (cf_same _ _ _ _ _ _ _ _ _ _ Hcfg) as [Sd Si _ _].
  unfold destination_of. cbn [table_of Destinations]. rewrite Sd. intros Hlook.
  apply Lookup_only_hosts in Hlook as [Hp Hg].
  2:{ intros p w (eff & tg & t & ? & _ & Hk & _)%(bo_dest _ _ _ Ht). exists eff. split; [by apply lease_is_plain in Hk as [? _]|done]. }
  destruct (bo_dest _ _ _ Ht _ _ Hg) as (eff & target & t & Hm & Hc & Hk & Hin & Hgt).
  assert (ip = eff) as ->. { apply host_prefix_inj; [done|by apply lease_is_plain in Hk as [? _]|done]. }
  exists target. split_and!; [by apply (cf_leases _ _ _ _ _ _ _ _ _ _ Hcfg)|done|].
  unfold inbound_peer. cbn [table_of InboundPeers]. rewrite Si, Hin. by apply Lookup_host.
Qed.
Lemma target_reachable s t c : s ∈ statuses → t ∈ reachableTargets s → c ∈ t_IPs t →
  ∃ eff src, MkLease (MkKey (s_ProfileID s) (t_ID t) c) eff ∈ leases ∧
    destination_of (table_of b) eff = Some (MkDestination (s_ProfileID s) c) ∧
    Sources (table_of b) !! sourceKey (s_ProfileID s) c = Some src ∧
    s_HostIP src = natIPFor st c ∧ addr.Is6 (s_CanonicalIP src) = addr.Is6 c ∧
    plain_route (host_prefix eff) (natIPFor st eff) ∈ b_Routes b.
Proof using Hcfg Hl LPMLaws0.
  intros Hs Ht Hc. pose proof (proj1 (Forall_forall _ _) (cf_complete _ _ _ _ _ _ _ _ _ _ Hcfg) s Hs) as [Hts _].
  pose proof (proj1 (Forall_forall _ _) (proj1 (Forall_forall _ _) Hts t Ht) c Hc) as (eff & Hk & Hd & [src Hsrc] & Hr).
  destruct (bo_src _ _ _ (cf_targets _ _ _ _ _ _ _ _ _ _ Hcfg) _ _ Hsrc) as (Hhost & _ & Hfam).
  destruct (cf_same _ _ _ _ _ _ _ _ _ _ Hcfg) as [Sd _ Ss [rs Sr]].
  exists eff, src. split_and!; [by apply (cf_leases _ _ _ _ _ _ _ _ _ _ Hcfg)| | |done|done|].
  - unfold destination_of. cbn [table_of Destinations]. rewrite Sd. apply Lookup_host; [|done]. by apply lease_is_plain in Hk as [? _].
  - cbn [table_of Sources]. by rewrite Ss.
  - rewrite Sr. apply elem_of_app. auto.
Qed.
End of_config.

(** The table of a plan reaches every target: each address of each target
    has a lease whose effective address maps to exactly that profile and
    address, a source of its family with the daemon's address as host side, and
    a host route.  Nothing else is a destination: an address that maps anywhere
    is leased to that target, and the same profile's return path maps back to it. *)
Theorem table_targets (st : State) (statuses : list Status) (leases : list Lease) (policy : IPPlan)
    (table : Table T) (host : HostConfig) :
  Forall lease_plain leases → Forall status_plain statuses →
  tunConfigWithPolicy st statuses leases policy = Ok (table, host) →
  (∀ s t c, s ∈ statuses → t ∈ reachableTargets s → c ∈ t_IPs t →
     ∃ eff src, MkLease (MkKey (s_ProfileID s) (t_ID t) c) eff ∈ leases ∧
       destination_of table eff = Some (MkDestination (s_ProfileID s) c) ∧
       Sources table !! sourceKey (s_ProfileID s) c = Some src ∧ s_HostIP src = natIPFor st c ∧
       plain_route (host_prefix eff) (natIPFor st eff) ∈ hc_Routes host) ∧
  (∀ ip d, destination_of table ip = Some d →
     (∃ target, MkLease (MkKey (d_ProfileID d) target (d_CanonicalIP d)) ip ∈ leases) ∧
     inbound_peer table (d_ProfileID d) (d_CanonicalIP d) = Some ip).
Proof.
  intros Hl Hs (byKey & b0 & b & Hcfg & -> & -> & _)%tunConfig_steps; [|done..]. split.
  - intros s t c Hin Ht Hc. destruct (target_reachable _ _ _ _ _ _ _ Hcfg Hl s t c Hin Ht Hc) as (eff & src & ? & ? & ? & ? & _ & ?).
    exists eff, src. split_and!; try done. apply elem_of_app. auto.
  - intros ip d (target & ? & _ & ?)%(destination_of_lease _ _ _ _ _ _ _ Hcfg Hl). eauto.
Qed.

(** The host's packet to a target's effective address goes out rewritten. *)
Lemma outbound_target {Pkt} `{PP : Packets Pkt, !PacketLaws Pkt} (m : Table T) (pkt : Pkt) id c src :
  Destinations m ≠ None → IPVersion (Decode pkt) ≠ 0%nat →
  destination_of m (Dst (Decode pkt)) = Some (MkDestination id c) →
  Sources m !! sourceKey id c = Some src → s_HostIP src = Src (Decode pkt) →
  plain_addr (s_CanonicalIP src) = true → plain_addr c = true →
  addr.Is6 (s_CanonicalIP src) = addr.Is6 c → addr.Is6 (Src (Decode pkt)) = addr.Is6 c → addr.Is6 (Dst (Decode pkt)) = addr.Is6 c →
  ∃ pkt', Outbound m pkt = (pkt', Ok (MkRoute id c false)) ∧
    Decode pkt' = MkParsed (IPVersion (Decode pkt)) (s_CanonicalIP src) c.
Proof.
  intros Hm Hv Hd Hsrc Hhost Hself Hplain Fc Fs Fd. unfold Outbound. rewrite (proj2 (Nat.eqb_neq _ _) Hv).
  destruct (Destinations m) as [dt|] eqn:Edt; [|done]. unfold outboundDestination. rewrite Hd. cbn [d_ProfileID d_CanonicalIP].
  assert (sourceKey id (Src (Decode pkt)) = sourceKey id c) as -> by (unfold sourceKey; by rewrite Fs).
  rewrite Hsrc, Hhost, Fs, Fd, Fc, !eqb_reflx. cbn [negb orb].
  eexists. split; [done|]. pose proof (Decode_UpdateSrc pkt (s_CanonicalIP src) Hv Hself ltac:(congruence)) as H1.
  rewrite Decode_UpdateDst; rewrite ?H1; [done|done|done|]. cbn. congruence.
Qed.

(** C8. Every target of a plan is reachable both ways.  A host packet from the
    daemon's address of the family to the target's effective address enters its
    profile as a packet from one of the profile's own addresses to the target's
    address, and the reply leaves as a packet from the effective address to the daemon's. *)
Theorem table_NAT {Pkt} `{PP : Packets Pkt, !PacketLaws Pkt} (st : State) (statuses : list Status) (leases : list Lease)
    (policy : IPPlan) (table : Table T) (host : HostConfig) :
  Forall lease_plain leases → Forall status_plain statuses → Forall self_plain statuses →
  addr.Is6 (st_NATIP st) = false → addr.Is6 (st_NATIPv6 st) = true →
  tunConfigWithPolicy st statuses leases policy = Ok (table, host) →
  ∀ s t c, s ∈ statuses → t ∈ reachableTargets s → c ∈ t_IPs t →
  ∃ eff self, MkLease (MkKey (s_ProfileID s) (t_ID t) c) eff ∈ leases ∧
    (∃ ps, ps ∈ statuses ∧ s_ProfileID ps = s_ProfileID s ∧ self ∈ s_SelfIPs ps) ∧
    ∀ (pkt : Pkt) v, Decode pkt = MkParsed v (natIPFor st c) eff → v ≠ 0%nat →
    ∃ pkt', Outbound table pkt = (pkt', Ok (MkRoute (s_ProfileID s) c false)) ∧ Decode pkt' = MkParsed v self c ∧
      ∀ reply : Pkt, Decode reply = MkParsed v c self →
      ∃ reply', Inbound table (s_ProfileID s) reply = (reply', Ok tt) ∧ Decode reply' = MkParsed v eff (natIPFor st c).
Proof.
  intros Hl Hs Hself H4 H6 (byKey & b0 & b & Hcfg & -> & -> & _)%tunConfig_steps s t c Hin Ht Hc; [|done..].
  assert (plain_addr c = true) as Hplain.
  { exact (proj1 (Forall_forall _ _) (proj1 (Forall_forall _ _) (proj1 (Forall_forall _ _) Hs s Hin) t Ht) c Hc). }
  assert (own_sources statuses (Sources (table_of b))) as Hown.
  { cbn [table_of Sources]. rewrite (sm_src _ _ (cf_same _ _ _ _ _ _ _ _ _ _ Hcfg)). apply (cf_sources _ _ _ _ _ _ _ _ _ _ Hcfg). }
  destruct (target_reachable _ _ _ _ _ _ _ Hcfg Hl s t c Hin Ht Hc) as (eff & src & Hlease & Hd & Hsrc & Hhost & Hfam & _).
  pose proof (proj2 (proj1 (Forall_forall _ _) Hl _ Hlease)) as Fe. simpl in Fe.
  assert (Fs : addr.Is6 (natIPFor st c) = addr.Is6 c) by (unfold natIPFor, nat_ip; by destruct (addr.Is6 c)).
  exists eff, (s_CanonicalIP src). split; [done|]. split; [exact (Hown _ _ Hsrc)|].
  pose proof (own_source_plain _ _ _ _ Hself Hown Hsrc) as Hsp. intros pkt v Hdec Hv.
  destruct (outbound_target (table_of b) pkt (s_ProfileID s) c src) as (pkt' & HO & Hdec'); rewrite ?Hdec; try done.
  rewrite Hdec in Hdec'. cbn [IPVersion] in Hdec'. exists pkt'. split_and!; [done|done|]. intros reply Hreply.
  destruct (destination_of_lease _ _ _ _ _ _ _ Hcfg Hl _ _ Hd) as (_ & _ & _ & Hin').
  unfold inbound_peer in Hin'. cbn [d_ProfileID d_CanonicalIP] in Hin'.
  destruct (InboundPeers (table_of b) !! s_ProfileID s) as [inbound|] eqn:Ein; [|done].
  destruct (NAT_roundtrip (table_of b) pkt pkt' reply _ inbound HO) as (reply' & HI & Hr); try done.
  - intros src'. rewrite Hdec. cbn [Src rt_ProfileID].
    assert (sourceKey (s_ProfileID s) (natIPFor st c) = sourceKey (s_ProfileID s) c) as -> by (unfold sourceKey; by rewrite Fs).
    intros Hsrc'. simplify_eq. done.
  - by rewrite Hdec.
  - by rewrite Hdec'.
  - exists reply'. rewrite Hdec in Hr. done.
Qed.

(** An address in the pool overlaps it, so no binding can be its entry. *)
Lemma overlaps_pool st ip p : plain_addr ip = true → in_family_pool st (addr.Is6 ip) ip → prefix.IsValid p = true →
  prefix.Masked (host_prefix ip) = prefix.Masked p → overlaps st p = true.
Proof.
  intros Hp (pool & Hpool & Hc) Hv Hm. pose proof (ParsePrefix_wf _ _ Hpool) as [Hwf Hpv].
  destruct (host_prefix_masked ip Hp) as ([Hmh _] & Hpa & _ & _). rewrite Hmh in Hm.
  unfold routeOverlapsReserved. apply orb_true_iff. left. apply orb_true_iff. right. apply existsb_exists.
  exists (pool_text (addr.Is6 ip) st). split; [by destruct (addr.Is6 ip); simpl; auto|]. rewrite Hpool.
  unfold prefixesOverlap. rewrite Hv, Hpv, <-Hm. cbn [negb orb].
  assert (addr.BitLen (p_addr p) = addr.BitLen (p_addr pool)) as ->.
  { rewrite <-(Contains_BitLen _ _ Hc). apply (f_equal p_addr) in Hm. rewrite Hpa in Hm. rewrite Hm.
    unfold prefix.Masked. rewrite Hv. simpl. by destruct (p_addr p). }
  rewrite Z.eqb_refl. cbn [negb]. rewrite Hpa, Contains_Masked, Hc by done. apply orb_true_r.
Qed.

(** C9. A retained lease fails closed: while its target is absent (no active
    lease has its address) the host routes the address to the daemon, and a
    packet to it is refused as unavailable, whatever bindings, imported routes or
    exit node the policy has. *)
Theorem retained_closed {Pkt} `{PP : Packets Pkt} (st : State) (statuses : list Status) (leases : list Lease)
    (policy : IPPlan) (table : Table T) (host : HostConfig) (l : EffectiveLease) (pkt : Pkt) :
  Forall lease_plain leases → Forall status_plain statuses →
  Forall (λ e, prefix.IsValid (ie_Prefix e) = true) (ip_Exact policy) →
  tunConfigWithPolicy st statuses leases policy = Ok (table, host) →
  l ∈ st_Leases st → in_family_pool st (addr.Is6 (el_EffectiveIP l)) (el_EffectiveIP l) →
  (∀ l', l' ∈ leases → l_EffectiveIP l' ≠ el_EffectiveIP l) →
  IPVersion (Decode pkt) ≠ 0%nat → Dst (Decode pkt) = el_EffectiveIP l →
  Outbound table pkt = (pkt, Err (ErrExactUnavailable (el_EffectiveIP l))) ∧
  plain_route (host_prefix (el_EffectiveIP l)) (natIPFor st (el_EffectiveIP l)) ∈ hc_Routes host.
Proof.
  intros Hl Hs He (byKey & b0 & b & Hcfg & -> & -> & _)%tunConfig_steps Hin Hpool Hno Hv Hdst; [|done..].
  set (ip := el_EffectiveIP l) in *. pose proof Hpool as (pool & Hpp & Hc).
  pose proof (ParsePrefix_wf _ _ Hpp) as [Hwf _]. pose proof (Contains_plain pool ip Hwf Hc) as Hp.
  assert (Hnone : destination_of (table_of b) ip = None).
  { destruct (destination_of (table_of b) ip) as [d|] eqn:E; [|done].
    apply (destination_of_lease _ _ _ _ _ _ _ Hcfg Hl) in E as (target & Hlease & _). by apply Hno in Hlease. }
  assert (Hret : retained st b0 ip).
  { split; [by eapply Contains_addr_valid|]. split; [|done]. destruct (Get (host_prefix ip) (b_Destinations b0)) as [d|] eqn:E; [|done].
    apply Lookup_host in E; [|done]. unfold destination_of in Hnone. cbn [table_of Destinations] in Hnone.
    rewrite (sm_dest _ _ (cf_same _ _ _ _ _ _ _ _ _ _ Hcfg)) in Hnone. congruence. }
  assert (Hexact : Get (host_prefix ip) (b_ExactRoutes b) = Some (MkSubnetRoute "" false)).
  { apply (cf_retained _ _ _ _ _ _ _ _ _ _ Hcfg l Hin Hret). intros e Hee Hm.
    pose proof (cf_free _ _ _ _ _ _ _ _ _ _ Hcfg e Hee) as Hfree.
    rewrite (overlaps_pool st ip (ie_Prefix e)) in Hfree; [done..|exact (proj1 (Forall_forall _ _) He e Hee)|done]. }
  split.
  - unfold Outbound. rewrite (proj2 (Nat.eqb_neq _ _) Hv). cbn [table_of Destinations]. rewrite Hdst.
    change (MkTable _ _ _ _ _ _) with (table_of b). unfold outboundDestination. rewrite Hnone. cbn [table_of ExactRoutes lookupSubnet].
    by rewrite (Lookup_host _ _ _ Hp Hexact).
  - apply elem_of_app. left. by apply (cf_retained_route _ _ _ _ _ _ _ _ _ _ Hcfg l).
Qed.

(** An entry of a tier that decides for [ip] contains it, and has its family. *)
Lemma tier_entry (t : T SubnetRoute) ip r : tier_route (Some t) ip r →
  ∃ p, Get p t = Some r ∧ prefix.Masked p = p ∧ prefix.Contains p ip = true.
Proof. intros (? & p & [= <-] & ([[Hm _] _] & Hc & _) & Hg). eauto. Qed.
Lemma masked_family p q ip : prefix.Masked q = q → prefix.Masked q = prefix.Masked p → prefix.Contains q ip = true →
  prefix.Contains (prefix.Masked p) ip = true ∧ addr.Is6 ip = addr.Is6 (p_addr p).
Proof.
  intros Hq Hm Hc. rewrite Hq in Hm. subst q. split; [done|]. apply Is6_BitLen. rewrite (Contains_BitLen _ _ Hc).
  apply masked_IsValid in Hc. unfold prefix.Masked in *. destruct (prefix.IsValid p); [|done]. simpl. by destruct (p_addr p).
Qed.

(** Every usable route the mapper can select was asked for and can be used:
    it belongs to an active binding or an active imported route that contains
    the address and meets no reserved range, or to the selected exit node; and
    the profile has an address of the family, so the mapper never fails for want
    of a source. *)
Theorem table_usable (st : State) (statuses : list Status) (leases : list Lease) (policy : IPPlan)
    (table : Table T) (host : HostConfig) ip r :
  Forall lease_plain leases → Forall status_plain statuses →
  tunConfigWithPolicy st statuses leases policy = Ok (table, host) →
  tier_decision table ip (Some r) → PacketMap.route_unusable r = false →
  is_Some (Sources table !! sourceKey (r_ProfileID r) ip) ∧
  ((∃ e, (e ∈ ip_Exact policy ∨ e ∈ ip_Imported policy) ∧ ie_Active e = true ∧ ie_ProfileID e = r_ProfileID r ∧
         prefix.Contains (prefix.Masked (ie_Prefix e)) ip = true ∧ overlaps st (ie_Prefix e) = false) ∨
   (activeExitProfile st statuses ≠ "" ∧ r_ProfileID r = activeExitProfile st statuses)).
Proof.
  intros Hl Hs (byKey & b0 & b & Hcfg & -> & -> & _)%tunConfig_steps Hd Hu; [|done..].
  assert (Hsrc : ∀ id ipv6, has_source b0 id ipv6 = true → is_Some (Sources (table_of b) !! MkSourceKey id ipv6)).
  { intros id ipv6 Hh. cbn [table_of Sources]. rewrite (sm_src _ _ (cf_same _ _ _ _ _ _ _ _ _ _ Hcfg)).
    unfold has_source in Hh. destruct (b_Sources b0 !! MkSourceKey id ipv6); [eauto|done]. }
  apply orb_false_iff in Hu as [Hact%negb_false_iff Hid%String.eqb_neq].
  inversion Hd as [r' H|r' _ H|r' _ _ H|]; subst r'; apply tier_entry in H as (p & Hg & Hm & Hc).
  - apply (cf_exact _ _ _ _ _ _ _ _ _ _ Hcfg) in Hg as [->|(e & He & Hme & -> & Hfree & Hus)]; [done|].
    destruct (masked_family _ _ _ Hm Hme Hc) as [Hce Hf]. cbn [entry_route r_ProfileID r_Active] in *. split.
    + unfold sourceKey. rewrite Hf. by apply Hsrc, Hus.
    + left. exists e. split_and!; auto.
  - apply (cf_imported _ _ _ _ _ _ _ _ _ _ Hcfg) in Hg as (e & He & Hme & Hpid & Ha).
    destruct (Ha Hact) as (Hea & Hfree & Hus). destruct (masked_family _ _ _ Hm Hme Hc) as [Hce Hf]. split.
    + unfold sourceKey. rewrite Hf, Hpid. by apply Hsrc.
    + left. exists e. split_and!; auto.
  - apply (cf_exit _ _ _ _ _ _ _ _ _ _ Hcfg) in Hg as (Hne & -> & ipv6 & Hme & Hh). cbn [r_ProfileID] in *.
    destruct (masked_family _ _ _ Hm Hme Hc) as [_ Hf]. split; [|by right].
    unfold sourceKey. rewrite Hf. apply Hsrc. by destruct ipv6.
Qed.

(** What the host is told is consistent: every route leaves from an address
    the host is given, and the addresses of the resolver are valid, no target's
    effective address and no profile's host side. *)
Theorem host_config_sound (st : State) (statuses : list Status) (leases : list Lease) (policy : IPPlan)
    (table : Table T) (host : HostConfig) :
  Forall lease_plain leases → Forall status_plain statuses →
  addr.Is6 (st_NATIP st) = false → addr.Is6 (st_NATIPv6 st) = true →
  tunConfigWithPolicy st statuses leases policy = Ok (table, host) →
  (∀ r, r ∈ hc_Routes host → hr_Source r ∈ [st_NATIP st; st_NATIPv6 st] ∧ host_prefix (hr_Source r) ∈ hc_LocalAddrs host) ∧
  (∀ ip, ip ∈ [st_DNSIP st; ServiceIP] → addr.IsValid ip = true ∧ destination_of table ip = None ∧
     ∀ k s, Sources table !! k = Some s → s_HostIP s ≠ ip).
Proof.
  intros Hl Hs H4 H6 (byKey & b0 & b & Hcfg & -> & -> & _ & Hsv)%tunConfig_steps; [|done..]. split; [|apply Hsv].
  intros r Hr. cbn [host_config hc_Routes hc_LocalAddrs] in *.
  assert (Hsrc : hr_Source r = st_NATIP st ∨ (hr_Source r = st_NATIPv6 st ∧ r ∈ b_Routes b)).
  { apply elem_of_app in Hr as [Hr|[->|[->|?%elem_of_nil]%elem_of_cons]%elem_of_cons]; [|by left..|done].
    assert (Hn : ∃ a, hr_Source r = natIPFor st a).
    { destruct (cf_routes _ _ _ _ _ _ _ _ _ _ Hcfg r Hr) as [(a & _ & _ & ->)|[(e & _ & _ & _ & ->)|(_ & ? & p & _ & ->)]]; by eexists. }
    destruct Hn as [a ->]. unfold natIPFor, nat_ip. destruct (addr.Is6 a); auto. }
  destruct Hsrc as [->|[Heq Hin]]; [split; left|]. rewrite Heq. split; [right; left|].
  assert (needs_ipv6 b = true) as ->; [|right; left].
  unfold needs_ipv6. apply orb_true_iff. right. apply existsb_exists. exists r. split; [by apply list_elem_of_In|]. by rewrite Heq.
Qed.
End facts.

(** ** Witnesses *)

Definition corp_ip : IPPlan := BuildIP test_cgnat test_ula corp_state corp_statuses.
Definition corp_tun : result tun_error (Table PrefixMap * HostConfig) :=
  tunConfigWithPolicy (T:=PrefixMap) test_cgnat test_ula service_ip corp_state corp_statuses corp_leases.1 corp_ip.
#[local] Instance lease_plain_dec l : Decision (lease_plain l).
Proof. unfold lease_plain. apply _. Defined.
Lemma corp_leases_plain : Forall lease_plain corp_leases.1.
Proof. apply (bool_decide_unpack _). vm_compute. exact I. Qed.
Lemma corp_tun_ok : is_ok corp_tun = true.
Proof. vm_compute. reflexivity. Qed.
Lemma corp_statuses_plain : Forall status_plain corp_statuses.
Proof. repeat constructor. Qed.
Lemma corp_selfs_plain : Forall self_plain corp_statuses.
Proof. repeat constructor. Qed.
(** The machine behind the first address of the pool. *)
Definition corp_home : Status := corp_status "home" "me.corp.ts.net" [peer_status "n1" "db.corp.ts.net" (Addr4 1681915906);
  peer_status "n2" "box.alpha.ts.net" (Addr4 1681915907)] [] "".
Definition corp_db : reachableTarget := MkTarget "n1" "db.corp.ts.net" [Addr4 1681915906].
Lemma table_targets_witness : ∃ table host eff, corp_tun = Ok (table, host) ∧
  destination_of table eff = Some (MkDestination "home" (Addr4 1681915906)).
Proof.
  pose proof corp_tun_ok as Hok. destruct corp_tun as [[table host]|] eqn:E; [|discriminate Hok]. unfold corp_tun in E.
  destruct (table_targets (LT:=PrefixMap_LPM) test_cgnat test_ula service_ip corp_state corp_statuses corp_leases.1 corp_ip table host
    corp_leases_plain corp_statuses_plain E) as [Ht _].
  destruct (Ht corp_home corp_db (Addr4 1681915906) ltac:(left) ltac:(left) ltac:(left)) as (eff & src & _ & Hd & _).
  exists table, host, eff. split; [reflexivity|exact Hd].
Defined.
Lemma table_NAT_witness : ∃ table host eff self, corp_tun = Ok (table, host) ∧
  ∃ pkt', Outbound table (MkParsed 4 (st_NATIP corp_state) eff, "") = (pkt', Ok (MkRoute "home" (Addr4 1681915906) false)) ∧
    Decode pkt' = MkParsed 4 self (Addr4 1681915906).
Proof.
  pose proof corp_tun_ok as Hok. destruct corp_tun as [[table host]|] eqn:E; [|discriminate Hok]. unfold corp_tun in E.
  destruct (table_NAT (LT:=PrefixMap_LPM) (Pkt:=Parsed * string) test_cgnat test_ula service_ip corp_state corp_statuses corp_leases.1 corp_ip table host
    corp_leases_plain corp_statuses_plain corp_selfs_plain ltac:(vm_compute; reflexivity) ltac:(vm_compute; reflexivity) E corp_home corp_db
    (Addr4 1681915906) ltac:(left) ltac:(left) ltac:(left)) as (eff & self & Hin & _ & H).
  exists table, host, eff, self. split; [reflexivity|].
  assert (Decode (MkParsed 4 (st_NATIP corp_state) eff, "") = MkParsed 4 (st_NATIP corp_state) eff) as Hdec.
  { pose proof (proj1 (proj1 (Forall_forall _ _) corp_leases_plain _ Hin)) as Hp. cbn in Hp. cbn. unfold decodable. cbn [Src Dst fst]. by rewrite Hp, andb_true_r. }
  destruct (H (MkParsed 4 (st_NATIP corp_state) eff, "") 4%nat Hdec ltac:(discriminate)) as (pkt' & HO & Hd & _).
  exists pkt'. exact (conj HO Hd).
Defined.
Lemma retained_closed_witness : ∃ table host, corp_tun = Ok (table, host) ∧
  Outbound table (MkParsed 4 (st_NATIP corp_state) (Addr4 1686044749), "") =
    ((MkParsed 4 (st_NATIP corp_state) (Addr4 1686044749), ""), Err (ErrExactUnavailable (Addr4 1686044749))).
Proof.
  pose proof corp_tun_ok as Hok. destruct corp_tun as [[table host]|] eqn:E; [|discriminate Hok]. unfold corp_tun in E.
  exists table, host. split; [reflexivity|].
  refine (proj1 (retained_closed (LT:=PrefixMap_LPM) (Pkt:=Parsed * string) test_cgnat test_ula service_ip corp_state corp_statuses corp_leases.1 corp_ip
    table host gone_lease (MkParsed 4 (st_NATIP corp_state) (Addr4 1686044749), "") corp_leases_plain corp_statuses_plain _ E _ _ _ _ eq_refl)).
  - apply (bool_decide_unpack _). vm_compute. exact I.
  - left.
  - exists (default_prefix false). split; vm_compute; reflexivity.
  - assert (Hno : forallb (λ l, negb (bool_decide (l_EffectiveIP l = Addr4 1686044749))) corp_leases.1 = true) by (vm_compute; reflexivity).
    intros l Hl Heq. rewrite forallb_forall in Hno. specialize (Hno l (proj1 (list_elem_of_In _ _) Hl)).
    apply negb_true_iff, bool_decide_eq_false in Hno. exact (Hno Heq).
  - vm_compute. discriminate.
Defined.

Lemma table_usable_witness : ∃ table host r, corp_tun = Ok (table, host) ∧
  tier_decision table (Addr4 167837697) (Some r) ∧ is_Some (Sources table !! sourceKey (r_ProfileID r) (Addr4 167837697)).
Proof.
  assert (Ht : match corp_tun with
               | Ok (t, _) => match tiers t (Addr4 167837697) with Some r => String.eqb (r_ProfileID r) "work" && r_Active r | None => false end
               | Err _ => false
               end = true) by (vm_compute; reflexivity).
  destruct corp_tun as [[table host]|] eqn:E; [|discriminate Ht].
  destruct (tiers table (Addr4 167837697)) as [r|] eqn:Hd; [|discriminate Ht].
  apply andb_true_iff in Ht as [Hw%String.eqb_eq Ha]. apply tiers_decision in Hd.
  assert (Hus : PacketMap.route_unusable r = false) by (unfold PacketMap.route_unusable; rewrite Ha, Hw; reflexivity).
  exists table, host, r. split; [reflexivity|]. split; [exact Hd|].
  unfold corp_tun in E.
  exact (proj1 (table_usable (LT:=PrefixMap_LPM) test_cgnat test_ula service_ip corp_state corp_statuses corp_leases.1 corp_ip table host
    (Addr4 167837697) r corp_leases_plain corp_statuses_plain E Hd Hus)).
Defined.
Lemma host_config_sound_witness : ∃ table host, corp_tun = Ok (table, host) ∧ destination_of table service_ip = None.
Proof.
  pose proof corp_tun_ok as Hok. destruct corp_tun as [[table host]|] eqn:E; [|discriminate Hok]. unfold corp_tun in E.
  exists table, host. split; [reflexivity|].
  destruct (host_config_sound (LT:=PrefixMap_LPM) test_cgnat test_ula service_ip corp_state corp_statuses corp_leases.1 corp_ip table host
    corp_leases_plain corp_statuses_plain ltac:(vm_compute; reflexivity) ltac:(vm_compute; reflexivity) E) as [_ H].
  exact (proj1 (proj2 (H service_ip ltac:(right; left)))).
Defined.
