(* ===== verification/DNSPolicy.v ===== *)
(** * The DNS routing policy

    [src/routingpolicy/policy.go], the DNS half: which profile's resolvers
    answer each domain ([BuildDNS]), the longest-suffix lookup ([Resolve]) and
    the search domains that follow from it.  As in the IP half, Go's arbitrary
    iteration order over the candidate maps is irrelevant: entries are sorted
    by their distinct domains afterwards. *)

From S2P Require Import Prelude GoStrings Netip DNSName State Types Candidates RoutingPolicy.

Record DNSEntry : Type := MkDNSEntry {
  de_Domain : string; de_ProfileID : string; de_Policy : string; de_Source : string;
  de_ProfileDNS : bool; de_Active : bool; de_Reason : string; de_CoveringRoute : string;
  de_Resolvers : list Resolver; de_OverriddenBy : string }.
Record DNSPlan : Type := MkDNSPlan {
  dp_Exact : list DNSEntry; dp_Imported : list DNSEntry; dp_Automatic : list DNSEntry;
  dp_Resource : api.DNSRoutes; dp_Search : api.SearchDomains }.
#[export] Instance DNSEntry_eq_dec : EqDecision DNSEntry.
Proof. solve_decision. Defined.

Definition cloneResolvers (l : list (option Resolver)) : list Resolver := omap id l.
Definition resolverResources (l : list Resolver) : list api.DNSResolver :=
  (λ r, api.MkDNSResolver (res_Addr r) (res_BootstrapResolution r) (res_UseWithExitNode r)) <$> l.

Definition dnsSourcePriority (source : string) : nat :=
  if String.eqb source "magicdns" then 0
  else if String.eqb source "split-dns" then 1
  else if String.eqb source "default" then 2 else 3.
Definition better_source (c entry : DNSEntry) : bool :=
  dnsSourcePriority (de_Source entry) <? dnsSourcePriority (de_Source c).
Definition addDNSCandidate : list DNSEntry → DNSEntry → list DNSEntry :=
  add_candidate de_ProfileID better_source.

Definition dnsOverrideOwner (domain : string) (overrides : list DNSEntry) : string :=
  if String.eqb domain "" then ""
  else match List.find (λ e, String.eqb (de_Domain e) domain) overrides with
       | Some e => de_ProfileID e
       | None => ""
       end.

Definition dnsResource (e : DNSEntry) (names : gmap string string) : api.DNSRouteBinding :=
  let stateValue :=
    if de_Active e then "installed"
    else if String.eqb (de_Reason e) "explicit_override" || String.eqb (de_Reason e) "policy_override"
         then "overridden" else "waiting" in
  api.MkDNSRouteBinding (de_Domain e) (de_ProfileID e) (name_of names (de_ProfileID e)) (de_Policy e)
    (de_Source e) stateValue (de_Reason e) (de_CoveringRoute e) (resolverResources (de_Resolvers e))
    (de_OverriddenBy e) "" "".
Definition with_dns_override (r : api.DNSRouteBinding) (id name : string) : api.DNSRouteBinding :=
  api.MkDNSRouteBinding (api.dn_Domain r) (api.dn_ProfileID r) (api.dn_ProfileName r)
    (api.dn_Policy r) (api.dn_Source r) (api.dn_State r) (api.dn_Reason r) (api.dn_CoveringRoute r)
    (api.dn_Resolvers r) (api.dn_OverriddenBy r) id name.

(** [activeDNSExitProfile]; the empty string is none. *)
Definition activeDNSExitProfile (st : State) (statuses : list Status) : string :=
  match st_ExitNode st with
  | None => ""
  | Some exit =>
    match List.find (λ s, String.eqb (s_ProfileID s) (en_ProfileID exit) && profileAvailable s &&
                          String.eqb (s_ExitNodeID s) (en_NodeID exit)) statuses with
    | Some s => s_ProfileID s
    | None => ""
    end
  end.

Section dns.
Context {F : Type} `{DNSName F}.

Definition NormalizeDomain (domain : string) : string :=
  let domain := ToLower (TrimSpace domain) in
  if String.eqb domain "" then ""
  else match ToFQDN domain with
       | None => ""
       | Some parsed => if decide (parsed = root) then "." else WithoutTrailingDot parsed
       end.

Definition DNSContains (suffix name : string) : bool :=
  let suffix := NormalizeDomain suffix in
  let name := NormalizeDomain name in
  if String.eqb suffix "" || String.eqb name "" then false
  else match ToFQDN suffix, ToFQDN name with
       | Some s, Some n => FQDNContains s n
       | _, _ => false
       end.

Definition dnsRoutesForStatus (s : Status) : list DNSRouteStatus :=
  let routes := s_DNSRoutes s in
  let suffix := NormalizeDomain (s_MagicDNSSuffix s) in
  if String.eqb suffix "" then routes
  else if existsb (λ r, String.eqb (ds_Source r) "magicdns" &&
                        String.eqb (NormalizeDomain (ds_Domain r)) suffix) routes
       then routes
       else routes ++ [MkDNSRouteStatus suffix "magicdns" []].

(** The two longest-match loops: a strictly longer domain replaces the best. *)
Definition longer_step {A} (domain_of : A → string) (domain : string) (best : option A) (x : A) :
    option A :=
  if negb (DNSContains (domain_of x) domain) then best
  else match best with
       | Some b => if str_len (domain_of x) <=? str_len (domain_of b) then best else Some x
       | None => Some x
       end.
Definition longest_match {A} (domain_of : A → string) (domain : string) (l : list A) : option A :=
  foldl (longer_step domain_of domain) None l.
Definition longestDNSMatch (domain : string) (entries : list DNSEntry) : option DNSEntry :=
  longest_match de_Domain domain entries.
Definition coveringDNSRoute (domain : string) (routes : list DNSRouteStatus) : option DNSRouteStatus :=
  longest_match ds_Domain domain
    ((λ r, MkDNSRouteStatus (NormalizeDomain (ds_Domain r)) (ds_Source r) (ds_Resolvers r)) <$> routes).

(** [dnsOverride]: the last override of the same domain, and the shortest
    override strictly below it. *)
Definition dns_override_step (imported : string) (s : string * string) (candidate : DNSEntry) :
    string * string :=
  let '(full, partial) := s in
  if String.eqb (de_Domain candidate) imported then (de_Domain candidate, partial)
  else if DNSContains imported (de_Domain candidate) then
    if String.eqb partial "" || (str_len (de_Domain candidate) <? str_len partial)
    then (full, de_Domain candidate) else s
  else s.
Definition dnsOverride (imported : string) (overrides : list DNSEntry) : string * string :=
  foldl (dns_override_step imported) ("", "") overrides.

(** ** The three tiers *)

Definition dns_exact_entry (profiles : gmap string Profile) (statuses : gmap string Status)
    (b : DNSRouteBinding) : DNSEntry :=
  let domain := NormalizeDomain (db_Domain b) in
  let inactive reason :=
    MkDNSEntry domain (db_ProfileID b) "bound" "" false false reason "" [] "" in
  match profiles !! db_ProfileID b, active_status statuses (db_ProfileID b) with
  | Some configured, Some status =>
    if profile_off configured then inactive "profile_unavailable"
    else match coveringDNSRoute domain (dnsRoutesForStatus status) with
         | None => inactive "dns_route_not_advertised"
         | Some cover => MkDNSEntry domain (db_ProfileID b) "bound" (ds_Source cover) false true ""
                           (NormalizeDomain (ds_Domain cover)) (cloneResolvers (ds_Resolvers cover)) ""
         end
  | _, _ => inactive "profile_unavailable"
  end.

(** An offer: a profile and a DNS route whose domain is valid. *)
Definition named_routes (s : Status) : list DNSRouteStatus :=
  List.filter (λ r, negb (String.eqb (NormalizeDomain (ds_Domain r)) "")) (dnsRoutesForStatus s).
Definition dns_offer_key (o : string * DNSRouteStatus) : string := NormalizeDomain (ds_Domain o.2).
Definition dns_import_entry (o : string * DNSRouteStatus) : DNSEntry :=
  let domain := dns_offer_key o in
  MkDNSEntry domain o.1 "accept-all" (ds_Source o.2) false true "" domain
    (cloneResolvers (ds_Resolvers o.2)) "".
Definition automatic_entry (o : string * DNSRouteStatus) : DNSEntry :=
  let domain := dns_offer_key o in
  MkDNSEntry domain o.1 "automatic" "magicdns" false true "" domain [] "".

(** What one accepting profile adds to the import candidates, and its line in
    [AcceptAllProfiles]. *)
Definition accept_state (statuses : gmap string Status) (p : Profile) : option Status :=
  match active_status statuses (pr_ID p) with
  | Some s => if profile_off p then None else Some s
  | None => None
  end.
Definition dns_import_offers (statuses : gmap string Status) (p : Profile) :
    list (string * DNSRouteStatus) :=
  if negb (pr_AcceptAllDNSRoutes p) then []
  else match accept_state statuses p with
       | Some s => (λ r, (pr_ID p, r)) <$> named_routes s
       | None => []
       end.
Definition accept_resource (statuses : gmap string Status) (p : Profile) : api.AcceptAllProfile :=
  match accept_state statuses p with
  | Some _ => api.MkAcceptAll (pr_ID p) (profileName p) "installed" ""
  | None => api.MkAcceptAll (pr_ID p) (profileName p) "waiting" "profile_unavailable"
  end.

(** What one status adds to the automatic candidates. *)
Definition automatic_offers (profiles : gmap string Profile) (s : Status) :
    list (string * DNSRouteStatus) :=
  match profiles !! s_ProfileID s with
  | None => []
  | Some configured =>
    if profile_off configured || negb (profileAvailable s) then []
    else (λ r, (s_ProfileID s, r)) <$>
         List.filter (λ r, String.eqb (ds_Source r) "magicdns") (named_routes s)
  end.
Definition exit_entry (id : string) : DNSEntry :=
  MkDNSEntry "." id "automatic" "exit-node" true true "" "." [] "".

Definition tier_entry (policy source : string) (dc : string * list DNSEntry) : DNSEntry :=
  match dc.2 with
  | [e] => e
  | _ => MkDNSEntry dc.1 "" policy source false false "ambiguous_route" "" [] ""
  end.

Definition override_dns_entry (reason : string) (overrides : list DNSEntry) (e : DNSEntry) : DNSEntry :=
  let '(full, partial) := dnsOverride (de_Domain e) overrides in
  let set active reason by_ :=
    MkDNSEntry (de_Domain e) (de_ProfileID e) (de_Policy e) (de_Source e) (de_ProfileDNS e) active
      reason (de_CoveringRoute e) (de_Resolvers e) by_ in
  if negb (String.eqb full "") then set false reason full
  else if negb (String.eqb partial "") && String.eqb (de_Reason e) ""
       then set (de_Active e) "partially_overridden" partial
       else e.

(** ** Resolve *)

(** The first tier whose longest match is strictly longer than the best. *)
Definition better_tier (domain : string) (best : option DNSEntry) (entries : list DNSEntry) :
    option DNSEntry :=
  match longestDNSMatch domain entries with
  | None => best
  | Some e => match best with
              | Some b => if str_len (de_Domain e) <=? str_len (de_Domain b) then best else Some e
              | None => Some e
              end
  end.
Definition resolve_in (exact imported automatic : list DNSEntry) (domain : string) : option DNSEntry :=
  foldl (better_tier (NormalizeDomain domain)) None [exact; imported; automatic].
Definition Resolve (p : DNSPlan) (domain : string) : option DNSEntry :=
  resolve_in (dp_Exact p) (dp_Imported p) (dp_Automatic p) domain.

(** ** BuildDNS *)

Definition dns_available (names : gmap string string) (s : Status) : list api.AvailableDNSRoute :=
  (λ r, api.MkAvailableDNSRoute (NormalizeDomain (ds_Domain r)) (s_ProfileID s)
          (name_of names (s_ProfileID s)) (ds_Source r)
          (resolverResources (cloneResolvers (ds_Resolvers r)))) <$> named_routes s.

(** Search domains offered; [availableSearch] is the set of keys seen. *)
Definition add_available_search (names : gmap string string) (id : string)
    (st : gset string * list api.AvailableSearchDomain) (raw : string) :
    gset string * list api.AvailableSearchDomain :=
  let '(seen, out) := st in
  let domain := NormalizeDomain raw in
  let key := id +:+ NUL +:+ domain in
  if String.eqb domain "" || String.eqb domain "." || (key ∈? seen) then st
  else ({[key]} ∪ seen, out ++ [api.MkAvailableSearch domain id (name_of names id)]).
Definition available_search (names : gmap string string) (statuses : list Status) :
    list api.AvailableSearchDomain :=
  (foldl (λ st s, foldl (add_available_search names (s_ProfileID s)) st (s_SearchDomains s))
     (∅, []) statuses).2.

(** The loop over the desired search domains. *)
Definition place_search (names : gmap string string) (resolve : string → option DNSEntry)
    (st : list api.InstalledSearchDomain * list api.WaitingSearchDomain) (domain : string) :
    list api.InstalledSearchDomain * list api.WaitingSearchDomain :=
  let '(installed, waiting) := st in
  match resolve domain with
  | Some e =>
    if de_Active e
    then (installed ++ [api.MkInstalledSearch domain (de_ProfileID e) (name_of names (de_ProfileID e))],
          waiting)
    else (installed, waiting ++ [api.MkWaitingSearch domain
            (if String.eqb (de_Reason e) "" then "no_active_route" else de_Reason e)])
  | None => (installed, waiting ++ [api.MkWaitingSearch domain "no_active_route"])
  end.

Definition by_domain : api.DNSRouteBinding → api.DNSRouteBinding → bool := less_key api.dn_Domain.
Definition sortDNSPlan (p : DNSPlan) : DNSPlan :=
  let r := dp_Resource p in
  let s := dp_Search p in
  MkDNSPlan (go_sort (less_key de_Domain) (dp_Exact p)) (go_sort (less_key de_Domain) (dp_Imported p))
    (go_sort (less_key de_Domain) (dp_Automatic p))
    (api.MkDNSRoutes (go_sort (less_key api.aa_ProfileName) (api.dr_AcceptAllProfiles r))
       (go_sort by_domain (api.dr_Bindings r)) (go_sort by_domain (api.dr_Imported r))
       (go_sort by_domain (api.dr_Automatic r))
       (go_sort (less_by api.ad_Domain str_lt (λ a b, str_lt (api.ad_ProfileName a) (api.ad_ProfileName b)))
          (api.dr_Available r)))
    (api.MkSearchDomains (api.Desired s) (api.Installed s) (api.Waiting s)
       (go_sort (less_by api.as_Domain str_lt (λ a b, str_lt (api.as_ProfileName a) (api.as_ProfileName b)))
          (api.sd_Available s))).

Definition dns_exact (st : State) (statuses : list Status) : list DNSEntry :=
  dns_exact_entry (profiles_by_id (st_Profiles st)) (status_by_id statuses) <$> st_DNSRouteBindings st.
Definition import_table (st : State) (statuses : list Status) : gmap string (list DNSEntry) :=
  candidate_table dns_offer_key dns_import_entry de_ProfileID better_source
    (st_Profiles st ≫= dns_import_offers (status_by_id statuses)).
Definition automatic_table (st : State) (statuses : list Status) : gmap string (list DNSEntry) :=
  let m := candidate_table dns_offer_key automatic_entry de_ProfileID better_source
             (statuses ≫= automatic_offers (profiles_by_id (st_Profiles st))) in
  let exit := activeDNSExitProfile st statuses in
  if negb (String.eqb exit "") then <["." := [exit_entry exit]]> m else m.
Definition dns_imported (st : State) (statuses : list Status) : list DNSEntry :=
  override_dns_entry "explicit_override" (dns_exact st statuses) <$>
    (tier_entry "accept-all" "" <$> map_to_list (import_table st statuses)).
Definition dns_automatic (st : State) (statuses : list Status) : list DNSEntry :=
  override_dns_entry "policy_override" (dns_exact st statuses ++ dns_imported st statuses) <$>
    (tier_entry "automatic" "magicdns" <$> map_to_list (automatic_table st statuses)).

Definition BuildDNS (st : State) (statuses : list Status) : DNSPlan :=
  let names := names_by_id (st_Profiles st) in
  let exact := dns_exact st statuses in
  let imported := dns_imported st statuses in
  let automatic := dns_automatic st statuses in
  let resource overrides e :=
    let owner := dnsOverrideOwner (de_OverriddenBy e) overrides in
    with_dns_override (dnsResource e names) owner (name_of names owner) in
  let '(installed, waiting) :=
    foldl (place_search names (resolve_in exact imported automatic)) ([], []) (st_SearchDomains st) in
  sortDNSPlan
    (MkDNSPlan exact imported automatic
       (api.MkDNSRoutes
          (accept_resource (status_by_id statuses) <$>
             List.filter pr_AcceptAllDNSRoutes (st_Profiles st))
          ((λ e, dnsResource e names) <$> exact)
          (resource exact <$> imported)
          (resource (exact ++ imported) <$> automatic)
          (statuses ≫= dns_available names))
       (api.MkSearchDomains (st_SearchDomains st) installed waiting (available_search names statuses))).
End dns.

(** ** Longest matches *)

Section dns_facts.
Context {F : Type} `{DN : DNSName F}.

Definition matches (domain_of : string) (domain : string) : Prop := DNSContains domain_of domain = true.

(** What the longest-match loops return: a matching element that no matching
    element is longer than, the first of its length. *)
Definition is_longest {A} (domain_of : A → string) (domain : string) (l : list A) (best : option A) : Prop :=
  match best with
  | Some x => x ∈ l ∧ matches (domain_of x) domain ∧
      ∀ y, y ∈ l → matches (domain_of y) domain → str_len (domain_of y) <= str_len (domain_of x)
  | None => ∀ y, y ∈ l → ¬ matches (domain_of y) domain
  end.
Lemma longest_match_spec {A} (domain_of : A → string) domain (l : list A) :
  is_longest domain_of domain l (longest_match domain_of domain l).
Proof.
  unfold longest_match. induction l as [|x l IH] using rev_ind; [by intros y ?%elem_of_nil|].
  rewrite foldl_app. simpl. unfold longer_step at 1.
  assert (Hin : ∀ y, y ∈ l ++ [x] ↔ y ∈ l ∨ y = x).
  { intros y. apply elem_of_snoc. }
  destruct (DNSContains (domain_of x) domain) eqn:Hc; simpl.
  - destruct (foldl _ _ l) as [b|]; simpl in IH |- *.
    + destruct IH as (Hb & Hm & Hmax).
      destruct (Nat.leb_spec (str_len (domain_of x)) (str_len (domain_of b))); simpl.
      * split_and!; [apply Hin; by left|done|]. intros y [Hy| ->]%Hin ?; [by apply Hmax|done].
      * split_and!; [apply Hin; by right|done|]. intros y [Hy| ->]%Hin ?; [|done].
        specialize (Hmax y Hy ltac:(done)). lia.
    + split_and!; [apply Hin; by right|done|]. intros y [Hy| ->]%Hin ?; [by destruct (IH y)|done].
  - destruct (foldl _ _ l) as [b|]; simpl in IH |- *.
    + destruct IH as (Hb & Hm & Hmax). split_and!; [apply Hin; by left|done|].
      intros y [Hy| ->]%Hin ?; [by apply Hmax|]. unfold matches in *. congruence.
    + intros y [Hy| ->]%Hin; [by apply IH|]. unfold matches. congruence.
Qed.

(** The tiers seen so far, in order. *)
Definition resolved (domain : string) (tiers : list (list DNSEntry)) (best : option DNSEntry) : Prop :=
  match best with
  | Some e => matches (de_Domain e) domain ∧
      ∃ pre tier post, tiers = pre ++ tier :: post ∧ e ∈ tier ∧
        (∀ t y, t ∈ tiers → y ∈ t → matches (de_Domain y) domain →
           str_len (de_Domain y) <= str_len (de_Domain e)) ∧
        (∀ t y, t ∈ pre → y ∈ t → matches (de_Domain y) domain →
           str_len (de_Domain y) < str_len (de_Domain e))
  | None => ∀ t y, t ∈ tiers → y ∈ t → ¬ matches (de_Domain y) domain
  end.
Lemma better_tier_spec domain tiers :
  resolved domain tiers (foldl (better_tier domain) None tiers).
Proof.
  induction tiers as [|tier tiers IH] using rev_ind; [by intros t y ?%elem_of_nil|].
  rewrite foldl_app. simpl. unfold better_tier at 1.
  pose proof (longest_match_spec de_Domain domain tier) as Hl. fold (longestDNSMatch domain tier) in Hl.
  assert (Hin : ∀ t, t ∈ tiers ++ [tier] ↔ t ∈ tiers ∨ t = tier).
  { intros y. apply elem_of_snoc. }
  destruct (longestDNSMatch domain tier) as [e|]; simpl in Hl.
  - destruct Hl as (He & Hm & Hmax). destruct (foldl _ _ tiers) as [b|]; simpl in IH |- *.
    + destruct IH as (Hbm & pre & t0 & post & Ht & Hb & Hbmax & Hbpre).
      destruct (Nat.leb_spec (str_len (de_Domain e)) (str_len (de_Domain b))) as [Hle|Hlt]; simpl.
      * split; [done|]. exists pre, t0, (post ++ [tier]). split_and!; [by rewrite Ht, <-app_assoc|done| |done].
        intros t y [Ht'| ->]%Hin Hy Hmy; [by eapply Hbmax|]. specialize (Hmax y Hy Hmy). lia.
      * split; [done|]. exists tiers, tier, []. split_and!; [done|done| |].
        -- intros t y [Ht'| ->]%Hin Hy Hmy; [|by apply Hmax]. specialize (Hbmax t y Ht' Hy Hmy). lia.
        -- intros t y Ht' Hy Hmy. specialize (Hbmax t y Ht' Hy Hmy). lia.
    + split; [done|]. exists tiers, tier, []. split_and!; [done|done| |].
      * intros t y [Ht'| ->]%Hin Hy Hmy; [by destruct (IH t y)|by apply Hmax].
      * intros t y Ht' Hy Hmy. by destruct (IH t y).
  - destruct (foldl _ _ tiers) as [b|]; simpl in IH |- *.
    + destruct IH as (Hbm & pre & t0 & post & Ht & Hb & Hbmax & Hbpre).
      split; [done|]. exists pre, t0, (post ++ [tier]). split_and!; [by rewrite Ht, <-app_assoc|done| |done].
      intros t y [Ht'| ->]%Hin Hy Hmy; [by eapply Hbmax|by destruct (Hl y Hy)].
    + intros t y [Ht'| ->]%Hin Hy Hmy; [by destruct (IH t y)|by destruct (Hl y Hy)].
Qed.

(** Which profile answers a name.  [Resolve] returns a matching entry whose
    domain no matching entry of any tier is longer than; among equally long
    ones a binding wins over an import and an import over an automatic entry;
    and it returns nothing only when no entry matches. *)
Theorem Resolve_longest (p : DNSPlan) (domain : string) :
  resolved (NormalizeDomain domain) [dp_Exact p; dp_Imported p; dp_Automatic p] (Resolve p domain).
Proof. apply better_tier_spec. Qed.

(** ** Overrides *)

Lemma dnsOverride_full imported overrides :
  imported ≠ "" →
  (dnsOverride imported overrides).1 ≠ "" ↔ ∃ e, e ∈ overrides ∧ de_Domain e = imported.
Proof.
  intros Hne. unfold dnsOverride. induction overrides as [|e l IH] using rev_ind.
  { simpl. split; [done|]. by intros (? & ?%elem_of_nil & _). }
  rewrite foldl_app. simpl. destruct (foldl _ _ l) as [full partial]. simpl in IH.
  setoid_rewrite elem_of_snoc.
  unfold dns_override_step. destruct (String.eqb_spec (de_Domain e) imported) as [He|He].
  - simpl. split; [|by rewrite He]. intros _. exists e. auto.
  - assert ((∃ x, (x ∈ l ∨ x = e) ∧ de_Domain x = imported) ↔ ∃ x, x ∈ l ∧ de_Domain x = imported) as ->.
    { split; [intros (x & [?| ->] & ?); [eauto|done]|intros (x & ? & ?); eauto]. }
    repeat case_match; simpl; try apply IH.
Qed.

Lemma override_dns_spec reason overrides e :
  de_Domain e ≠ "" →
  de_Domain (override_dns_entry reason overrides e) = de_Domain e ∧
  de_ProfileID (override_dns_entry reason overrides e) = de_ProfileID e ∧
  (de_Active (override_dns_entry reason overrides e) = true ↔
     de_Active e = true ∧ ¬ ∃ x, x ∈ overrides ∧ de_Domain x = de_Domain e).
Proof.
  intros Hne. unfold override_dns_entry. pose proof (dnsOverride_full (de_Domain e) overrides Hne) as Hf.
  destruct (dnsOverride (de_Domain e) overrides) as [full partial]. simpl in Hf.
  destruct (String.eqb_spec full "") as [Hfull|Hfull]; simpl.
  - assert (¬ ∃ x, x ∈ overrides ∧ de_Domain x = de_Domain e) by (intros H; by apply Hf in H).
    destruct (_ && _); cbn; split_and!; tauto.
  - cbn. split_and!; [done|done|]. split; [done|]. intros [_ []]. by apply Hf.
Qed.

(** ** The tiers of a plan *)

Lemma named_routes_domain s r : r ∈ named_routes s → NormalizeDomain (ds_Domain r) ≠ "".
Proof.
  unfold named_routes. intros H%list_elem_of_In%List.filter_In. destruct H as [_ H].
  by apply negb_true_iff, String.eqb_neq in H.
Qed.

(** A table of single candidates, overridden: one tier of the plan. *)
Lemma tier_entry_spec {O} (entry : O → DNSEntry) (os : list O) (okey : O → string) policy source k l :
  (∀ o, o ∈ os → de_Domain (entry o) = okey o ∧ de_Active (entry o) = true) →
  candidate_table okey entry de_ProfileID better_source os !! k = Some l →
  let e := tier_entry policy source (k, l) in
  de_Domain e = k ∧
  ∀ id, de_Active e = true ∧ de_ProfileID e = id ↔ sole_offer okey entry de_ProfileID os k id.
Proof.
  intros Hentry Hl. pose proof (single_candidate _ _ _ _ _ _ _ Hl) as [Hone Hsole].
  unfold tier_entry. simpl. destruct l as [|e [|e2 l]].
  - split; [done|]. intros id. split; [by intros [? _]|]. intros Ho. by destruct (Hsole id Ho) as (? & ? & _).
  - destruct (Hone e eq_refl) as (Ho & o & Hin & He & Hk). destruct (Hentry o Hin) as [Hd Ha].
    rewrite <-He in Hd, Ha. split; [congruence|]. intros id. split.
    + by intros [_ <-].
    + intros Ho'. destruct (Hsole id Ho') as (? & [= <-] & <-). done.
  - split; [done|]. intros id. split; [by intros [? _]|]. intros Ho. by destruct (Hsole id Ho) as (? & ? & _).
Qed.

Definition import_offers (st : State) (ss : list Status) : list (string * DNSRouteStatus) :=
  st_Profiles st ≫= dns_import_offers (status_by_id ss).
Lemma import_offers_domain st ss o : o ∈ import_offers st ss → dns_offer_key o ≠ "".
Proof.
  intros (p & Ho & _)%list_elem_of_bind. unfold dns_import_offers in Ho.
  destruct (negb _); [by apply elem_of_nil in Ho|].
  destruct (accept_state _ _); [|by apply elem_of_nil in Ho].
  apply list_elem_of_fmap in Ho as (r & -> & Hr). by apply named_routes_domain in Hr.
Qed.

Lemma BuildDNS_tiers st ss :
  dp_Exact (BuildDNS st ss) ≡ₚ dns_exact st ss ∧ dp_Imported (BuildDNS st ss) ≡ₚ dns_imported st ss ∧
  dp_Automatic (BuildDNS st ss) ≡ₚ dns_automatic st ss.
Proof.
  unfold BuildDNS. destruct (foldl _ _ _). simpl. split_and!; apply go_sort_Permutation.
Qed.
Lemma dns_exact_domain st ss d :
  (∃ x, x ∈ dns_exact st ss ∧ de_Domain x = d) ↔
  ∃ b, b ∈ st_DNSRouteBindings st ∧ NormalizeDomain (db_Domain b) = d.
Proof.
  assert (∀ ps ms b, de_Domain (dns_exact_entry ps ms b) = NormalizeDomain (db_Domain b)) as Hd.
  { intros ps ms b. unfold dns_exact_entry. by repeat case_match. }
  unfold dns_exact. split.
  - intros (x & (b & -> & Hb)%list_elem_of_fmap & <-). exists b. by rewrite Hd.
  - intros (b & Hb & <-). eexists. split; [apply list_elem_of_fmap; eauto|]. apply Hd.
Qed.

(** Imported DNS routes.  Every domain that an accepting profile offers has
    exactly one imported entry; it is active exactly when a single profile
    offers the domain and no binding is for that domain. *)
Theorem BuildDNS_imports (st : State) (ss : list Status) :
  NoDup (de_Domain <$> dp_Imported (BuildDNS st ss)) ∧
  (∀ d, (∃ e, e ∈ dp_Imported (BuildDNS st ss) ∧ de_Domain e = d) ↔
        ∃ o, o ∈ import_offers st ss ∧ dns_offer_key o = d) ∧
  (∀ e, e ∈ dp_Imported (BuildDNS st ss) → ∀ id,
     de_Active e = true ∧ de_ProfileID e = id ↔
     sole_offer dns_offer_key dns_import_entry de_ProfileID (import_offers st ss) (de_Domain e) id ∧
     ¬ ∃ b, b ∈ st_DNSRouteBindings st ∧ NormalizeDomain (db_Domain b) = de_Domain e).
Proof.
  destruct (BuildDNS_tiers st ss) as (_ & Hperm & _).
  pose proof (table_key dns_offer_key dns_import_entry de_ProfileID better_source (import_offers st ss)) as Hkey.
  fold (import_table st ss) in Hkey.
  assert (Hkl : ∀ k l, import_table st ss !! k = Some l → k ≠ "" ∧
    let e := tier_entry "accept-all" "" (k, l) in de_Domain e = k ∧
    ∀ id, de_Active e = true ∧ de_ProfileID e = id ↔
      sole_offer dns_offer_key dns_import_entry de_ProfileID (import_offers st ss) k id).
  { intros k l Hl. split.
    - destruct (proj1 (Hkey k) (mk_is_Some _ _ Hl)) as (o & Ho & <-). by eapply import_offers_domain.
    - eapply (tier_entry_spec dns_import_entry (import_offers st ss)); [|exact Hl]. done. }
  assert (Helem : ∀ e, e ∈ dp_Imported (BuildDNS st ss) ↔ ∃ k l, import_table st ss !! k = Some l ∧
    e = override_dns_entry "explicit_override" (dns_exact st ss) (tier_entry "accept-all" "" (k, l))).
  { intros e. rewrite Hperm. unfold dns_imported. rewrite list_elem_of_fmap. split.
    - intros (x & -> & ([k l] & -> & Hkl'%elem_of_map_to_list)%list_elem_of_fmap). eauto.
    - intros (k & l & Hl & ->). eexists. split; [done|]. apply list_elem_of_fmap.
      exists (k, l). split; [done|]. by apply elem_of_map_to_list. }
  assert (Hdom : ∀ k l, import_table st ss !! k = Some l →
    de_Domain (override_dns_entry "explicit_override" (dns_exact st ss) (tier_entry "accept-all" "" (k, l))) = k).
  { intros k l Hl. destruct (Hkl k l Hl) as (Hne & Hd & _).
    destruct (override_dns_spec "explicit_override" (dns_exact st ss) (tier_entry "accept-all" "" (k, l)))
      as [-> _]; congruence. }
  split_and!.
  - rewrite Hperm. unfold dns_imported. rewrite <-!list_fmap_compose.
    apply NoDup_fmap_2_strong; [|apply NoDup_map_to_list].
    intros [k1 l1] [k2 l2] H1%elem_of_map_to_list H2%elem_of_map_to_list. unfold compose.
    rewrite (Hdom _ _ H1), (Hdom _ _ H2). congruence.
  - intros d. split.
    + intros (e & (k & l & Hl & ->)%Helem & <-). rewrite (Hdom _ _ Hl). apply Hkey. eauto.
    + intros (o & Ho & Hd). destruct (proj2 (Hkey d)) as [l Hl]; [eauto|].
      eexists. split; [apply Helem; eauto|]. by apply Hdom.
  - intros e (k & l & Hl & ->)%Helem id. rewrite (Hdom _ _ Hl). destruct (Hkl k l Hl) as (Hne & Hd & Hs).
    destruct (override_dns_spec "explicit_override" (dns_exact st ss) (tier_entry "accept-all" "" (k, l)))
      as (_ & -> & Ha); [congruence|]. rewrite Ha, Hd, dns_exact_domain. rewrite <-Hs. tauto.
Qed.

(** Search domains.  Every desired search domain is placed exactly once, in
    the order desired: it is installed when its longest match is an active
    entry and waits otherwise. *)
Theorem BuildDNS_search (st : State) (ss : list Status) :
  let p := BuildDNS st ss in
  let active d := match resolve_in (dns_exact st ss) (dns_imported st ss) (dns_automatic st ss) d with
                  | Some e => de_Active e
                  | None => false
                  end in
  api.Desired (dp_Search p) = st_SearchDomains st ∧
  api.is_Domain <$> api.Installed (dp_Search p) = List.filter active (st_SearchDomains st) ∧
  api.ws_Domain <$> api.Waiting (dp_Search p) = List.filter (λ d, negb (active d)) (st_SearchDomains st).
Proof.
  cbv zeta. unfold BuildDNS.
  set (names := names_by_id (st_Profiles st)).
  set (resolve := resolve_in _ _ _).
  assert (Hgen : ∀ l i w, let '(i', w') := foldl (place_search names resolve) (i, w) l in
    api.is_Domain <$> i' = (api.is_Domain <$> i) ++ List.filter (λ d, match resolve d with
      | Some e => de_Active e | None => false end) l ∧
    api.ws_Domain <$> w' = (api.ws_Domain <$> w) ++ List.filter (λ d, negb (match resolve d with
      | Some e => de_Active e | None => false end)) l).
  { intros l. induction l as [|d l IH]; intros i w; [by rewrite !app_nil_r|]. cbn [foldl List.filter].
    unfold place_search at 2. destruct (resolve d) as [e|]; [destruct (de_Active e)|]; cbn [negb].
    - specialize (IH (i ++ [api.MkInstalledSearch d (de_ProfileID e) (name_of names (de_ProfileID e))]) w).
      destruct (foldl _ _ l) as [i' w']. destruct IH as [-> ->]. rewrite fmap_app, <-app_assoc. done.
    - specialize (IH i (w ++ [api.MkWaitingSearch d
        (if String.eqb (de_Reason e) "" then "no_active_route" else de_Reason e)])).
      destruct (foldl _ _ l) as [i' w']. destruct IH as [-> ->]. rewrite fmap_app, <-app_assoc. done.
    - specialize (IH i (w ++ [api.MkWaitingSearch d "no_active_route"])).
      destruct (foldl _ _ l) as [i' w']. destruct IH as [-> ->]. rewrite fmap_app, <-app_assoc. done. }
  specialize (Hgen (st_SearchDomains st) [] []). destruct (foldl _ _ _) as [i' w'].
  destruct Hgen as [Hi Hw]. simpl. split_and!; [done|exact Hi|exact Hw].
Qed.
End dns_facts.
