(* ===== verification/TUNDNS.v ===== *)
(** * The DNS configuration of a plan

    cmd/tailmixd/main.go, [tunDNSLiveConfig]: which names the resolver answers
    itself ([Record]), which profile's suffixes it is authoritative for
    ([Domain]) and where it sends the rest ([Route]), from the statuses, the
    leases and the DNS plan.  The maps the code ranges over end up in sorted
    lists; the theorems speak of what these contain. *)

From S2P Require Import Prelude GoStrings Netip DNSName EffectiveIP State Types HostPools LeasePlan RoutingPolicy TUNTable DNSPolicy.
Import netip_facts.

(** The records of src/dns: [Record], [Domain], [Route], [LiveConfig]. *)
Record DNSRecord : Type := MkRecord { rec_ProfileID : string; rec_Name : string; rec_EffectiveIP : Addr }.
Record DNSDomain : Type := MkDomain { dom_ProfileID : string; dom_Suffix : string; dom_AuthoritativeOnly : bool }.
Record DNSRoute : Type := MkDNSRoute {
  dr_Suffix : string; dr_ProfileID : string; dr_ProfileDNS : bool; dr_Resolvers : list Resolver }.
Record LiveConfig : Type := MkLiveConfig {
  lc_Domains : list DNSDomain; lc_Records : list DNSRecord; lc_Routes : list DNSRoute; lc_SearchDomains : list string }.

Inductive dns_error : Type :=
  | EDNSConflictingLease (e : tun_error)
  | EDNSNoLease (profile name : string) (ip : Addr)
  | EDNSNoNAT (profile name : string) (ip : Addr).

Record candidateRecord : Type := MkCandidate { cd_record : DNSRecord; cd_owner : string }.

(** ** Candidates *)

(** The closure [addRecords]; [node] is [None] for the profile itself. *)
Definition record_for (st : State) (byKey : gmap NodeKey Addr) (id : string) (node : option string) (name : string)
    (canonical : Addr) : result dns_error candidateRecord :=
  effective ← match node with
              | None => Ok (natIPFor st canonical)
              | Some node => match byKey !! MkKey id node canonical with
                             | Some effective => Ok effective
                             | None => Err (EDNSNoLease id name canonical)
                             end
              end;
  _ ← guard_err (negb (addr.IsValid effective)) (EDNSNoNAT id name canonical);
  Ok (MkCandidate (MkRecord id name effective) id).
Definition addRecords (st : State) (byKey : gmap NodeKey Addr) (id : string) (node : option string) (name : string)
    (ips : list Addr) : result dns_error (list candidateRecord) :=
  if String.eqb name "" then Ok [] else imapM (λ _ ip, record_for st byKey id node name ip) ips.
Definition status_candidates (st : State) (byKey : gmap NodeKey Addr) (ps : Status) : result dns_error (list candidateRecord) :=
  if String.eqb (s_MagicDNSSuffix ps) "" then Ok []
  else
    self ← addRecords st byKey (s_ProfileID ps) None (s_SelfDNSName ps) (s_SelfIPs ps);
    targets ← imapM (λ _ t, addRecords st byKey (s_ProfileID ps) (Some (t_ID t)) (t_DNSName t) (t_IPs t))
                (reachableTargets ps);
    Ok (self ++ concat targets).
Definition suffix_by_profile (statuses : list Status) : gmap string string :=
  foldl (λ m ps, if String.eqb (s_MagicDNSSuffix ps) "" then m else <[s_ProfileID ps := s_MagicDNSSuffix ps]> m) ∅ statuses.

Definition hasDNSPolicyDomain (domain : string) (entries : list DNSEntry) : bool :=
  existsb (λ e, String.eqb (de_Domain e) domain) entries.

Section dns.
Context {F : Type} `{DNSName F}.

(** ** Records *)

Record dns_build : Type := MkDNSBuild {
  bd_records : list DNSRecord; bd_owners : gset string; bd_shared : gmap string (gset string) }.
(** One iteration of the loop that asks the policy for each candidate. *)
Definition place_candidate (policy : DNSPlan) (b : dns_build) (c : candidateRecord) : dns_build :=
  let name := NormalizeDomain (rec_Name (cd_record c)) in
  match Resolve policy name with
  | Some entry =>
    if de_Active entry && String.eqb (de_ProfileID entry) (cd_owner c)
    then MkDNSBuild (bd_records b ++ [cd_record c]) ({[cd_owner c]} ∪ bd_owners b) (bd_shared b)
    else b
  | None =>
    MkDNSBuild (bd_records b) (bd_owners b)
      (<[name := {[cd_owner c]} ∪ default ∅ (bd_shared b !! name)]> (bd_shared b))
  end.

(** ** Routes *)

Definition policy_route (entry : DNSEntry) : DNSRoute :=
  MkDNSRoute (de_Domain entry) (de_ProfileID entry) (de_ProfileDNS entry && de_Active entry)
    (if de_Active entry then de_Resolvers entry else []).
Definition addPolicyRoute (s : gmap string DNSRoute * gset string) (entry : DNSEntry) : gmap string DNSRoute * gset string :=
  let '(routes, owners) := s in
  (<[de_Domain entry := policy_route entry]> routes,
   if de_Active entry && String.eqb (de_Source entry) "magicdns" && negb (String.eqb (de_ProfileID entry) "")
   then {[de_ProfileID entry]} ∪ owners else owners).
Definition installed_entries (policy : DNSPlan) : list DNSEntry :=
  filter (λ e, hasDNSPolicyDomain (de_Domain e) (dp_Exact policy) || hasDNSPolicyDomain (de_Domain e) (dp_Imported policy) = false)
    (dp_Automatic policy) ++
  filter (λ e, hasDNSPolicyDomain (de_Domain e) (dp_Exact policy) = false) (dp_Imported policy) ++
  dp_Exact policy.

(** One iteration over the names no route covers: a name with a single owner. *)
Definition sole (names : gset string) : option string := match elements names with [o] => Some o | _ => None end.
Definition named_by (owner name : string) (c : candidateRecord) : bool :=
  String.eqb (cd_owner c) owner && String.eqb (NormalizeDomain (rec_Name (cd_record c))) name.
Definition add_shared (candidates : list candidateRecord)
    (s : list DNSRecord * gset string * gmap string DNSRoute) (no : string * gset string) :
    list DNSRecord * gset string * gmap string DNSRoute :=
  let '(records, owners, routes) := s in
  let '(name, names) := no in
  match sole names with
  | Some owner =>
    let own := filter (λ c, named_by owner name c = true) candidates in
    (records ++ (cd_record <$> own), if bool_decide (own = []) then owners else {[owner]} ∪ owners,
     <[name := MkDNSRoute name "" false []]> routes)
  | None => s
  end.

Definition domain_less : DNSDomain → DNSDomain → bool :=
  less_by dom_Suffix str_lt (less_by dom_ProfileID str_lt less_end).
Definition record_less : DNSRecord → DNSRecord → bool :=
  less_by rec_Name str_lt (less_by rec_EffectiveIP addr.less less_end).
Definition owner_domain (suffixByProfile : gmap string string) (id : string) : option DNSDomain :=
  let suffix := default "" (suffixByProfile !! id) in
  if String.eqb suffix "" then None else Some (MkDomain id suffix true).

Definition tunDNSLiveConfig (st : State) (statuses : list Status) (leases : list Lease) (policy : DNSPlan) :
    result dns_error LiveConfig :=
  byKey ← wrap EDNSConflictingLease (foldM index_lease leases ∅);
  lists ← imapM (λ _ ps, status_candidates st byKey ps) statuses;
  let candidates := concat lists in
  let placed := foldl (place_candidate policy) (MkDNSBuild [] ∅ ∅) candidates in
  let '(routes, owners) := foldl addPolicyRoute (∅, bd_owners placed) (installed_entries policy) in
  let '(records, owners, routes) :=
    foldl (add_shared candidates) (bd_records placed, owners, routes) (map_to_list (bd_shared placed)) in
  Ok (MkLiveConfig
    (go_sort domain_less (omap (owner_domain (suffix_by_profile statuses)) (elements owners)))
    (go_sort record_less records)
    (go_sort (less_key dr_Suffix) (map_values routes))
    (api.is_Domain <$> api.Installed (dp_Search policy))).
End dns.

(** ** What the loops build *)

Lemma hasDNSPolicyDomain_true d l : hasDNSPolicyDomain d l = true ↔ d ∈ de_Domain <$> l.
Proof.
  unfold hasDNSPolicyDomain. rewrite existsb_exists, list_elem_of_fmap. split.
  - intros (e & He%list_elem_of_In & Hd%String.eqb_eq). by exists e.
  - intros (e & -> & He%list_elem_of_In). exists e. split; [done|]. by apply String.eqb_eq.
Qed.
Lemma hasDNSPolicyDomain_false d l : hasDNSPolicyDomain d l = false ↔ d ∉ de_Domain <$> l.
Proof. rewrite <-hasDNSPolicyDomain_true. by destruct (hasDNSPolicyDomain d l). Qed.

#[export] Instance record_less_order : LessOrder record_less.
Proof. unfold record_less. apply _. Qed.
Lemma sole_Some names o : sole names = Some o ↔ names = {[o]}.
Proof.
  unfold sole. split; [|intros ->; by rewrite elements_singleton].
  intros H. destruct (elements names) as [|x [|? ?]] eqn:E; [done| |done]. injection H as ->.
  apply leibniz_equiv, set_equiv. intros y. rewrite elem_of_singleton, <-elem_of_elements, E. apply list_elem_of_singleton.
Qed.

Section dns_facts.
Context {F : Type} `{DN : DNSName F}.
Implicit Types (c : candidateRecord) (r : DNSRecord) (e : DNSEntry).

Definition c_name c : string := NormalizeDomain (rec_Name (cd_record c)).
(** The policy gives the name to the owner of the candidate. *)
Definition placed (policy : DNSPlan) c : Prop :=
  ∃ e, Resolve policy (c_name c) = Some e ∧ de_Active e = true ∧ de_ProfileID e = cd_owner c.

Record placed_ok (policy : DNSPlan) (cs : list candidateRecord) (b : dns_build) : Prop := {
  pl_records r : r ∈ bd_records b ↔ ∃ c, c ∈ cs ∧ cd_record c = r ∧ placed policy c;
  pl_owners id : id ∈ bd_owners b ↔ ∃ c, c ∈ cs ∧ cd_owner c = id ∧ placed policy c;
  pl_shared name o : o ∈ default ∅ (bd_shared b !! name) ↔
    ∃ c, c ∈ cs ∧ c_name c = name ∧ cd_owner c = o ∧ Resolve policy name = None }.
Lemma place_candidates policy cs : placed_ok policy cs (foldl (place_candidate policy) (MkDNSBuild [] ∅ ∅) cs).
Proof.
  induction cs as [|c cs [Hr Ho Hs]] using rev_ind.
  { split; simpl; intros *.
    - split; [by intros ?%elem_of_nil|by intros (? & ?%elem_of_nil & _)].
    - split; [by intros ?%elem_of_empty|by intros (? & ?%elem_of_nil & _)].
    - rewrite lookup_empty. split; [by intros ?%elem_of_empty|by intros (? & ?%elem_of_nil & _)]. }
  rewrite foldl_app. simpl. revert Hr Ho Hs. generalize (foldl (place_candidate policy) (MkDNSBuild [] ∅ ∅) cs).
  intros b Hr Ho Hs. unfold place_candidate. fold (c_name c).
  destruct (Resolve policy (c_name c)) as [e|] eqn:E.
  - assert (Hsh : ∀ name o, o ∈ default ∅ (bd_shared b !! name) ↔
      ∃ c', c' ∈ cs ++ [c] ∧ c_name c' = name ∧ cd_owner c' = o ∧ Resolve policy name = None).
    { intros name o. rewrite Hs. setoid_rewrite elem_of_snoc. split; [intros (x & ? & ?); eauto|].
      intros (x & [Hx| ->] & Hn & Hrest); [eauto|]. rewrite <-Hn in Hrest. destruct Hrest. congruence. }
    destruct (de_Active e && String.eqb (de_ProfileID e) (cd_owner c)) eqn:Ea.
    + apply andb_true_iff in Ea as [Ha Hid%String.eqb_eq]. assert (placed policy c) by (by exists e).
      split; simpl; [intros r|intros id|done]; setoid_rewrite elem_of_snoc.
      * rewrite Hr. split.
        -- intros [(x & ? & ?)| ->]; eauto.
        -- intros (x & [Hx| ->] & <- & ?); eauto.
      * rewrite elem_of_union, elem_of_singleton, Ho. split.
        -- intros [->|(x & ? & ?)]; eauto.
        -- intros (x & [Hx| ->] & <- & ?); eauto.
    + assert (¬ placed policy c).
      { intros (e' & He & Ha & Hid). simplify_eq. by rewrite Ha, Hid, String.eqb_refl in Ea. }
      split; simpl; [intros r|intros id|done]; [rewrite Hr|rewrite Ho]; setoid_rewrite elem_of_snoc;
        (split; [intros (x & ? & ?); eauto|intros (x & [?| ->] & ? & ?); [eauto|done]]).
  - assert (¬ placed policy c) by (intros (e' & He & _); congruence).
    split; simpl; [intros r|intros id|intros name o].
    1,2: rewrite ?Hr, ?Ho; setoid_rewrite elem_of_snoc;
      (split; [intros (x & ? & ?); eauto|intros (x & [?| ->] & ? & ?); [eauto|done]]).
    setoid_rewrite elem_of_snoc. rewrite lookup_insert. case_decide as Hn; simpl.
    + subst name. rewrite elem_of_union, elem_of_singleton, Hs. split.
      * intros [->|(x & ? & ?)]; [exists c; auto|exists x; tauto].
      * intros (x & [?| ->] & ? & ? & ?); [right; eauto|by left].
    + rewrite Hs. split; [intros (x & ? & ?); eauto|intros (x & [?| ->] & ? & ?); [eauto|done]].
Qed.


(** The names no route covers that have a single owner. *)
Definition owned (l : list (string * gset string)) (name o : string) : Prop :=
  ∃ names, (name, names) ∈ l ∧ sole names = Some o.
Lemma owned_snoc l name names n o :
  owned (l ++ [(name, names)]) n o ↔ owned l n o ∨ (n = name ∧ sole names = Some o).
Proof.
  unfold owned. setoid_rewrite elem_of_snoc. split.
  - intros (ns & [?|[= -> ->]] & ?); eauto.
  - intros [(ns & ? & ?)|[-> ?]]; eauto.
Qed.
Lemma named_by_true c name o : named_by o name c = true ↔ cd_owner c = o ∧ c_name c = name.
Proof. unfold named_by. by rewrite andb_true_iff, !String.eqb_eq. Qed.

Section shared.
Context (cs : list candidateRecord).
Definition own_name (l : list (string * gset string)) c : Prop := owned l (c_name c) (cd_owner c).
Definition shared_ok (l : list (string * gset string)) (records : list DNSRecord) (owners : gset string) (routes : gmap string DNSRoute)
    (s : list DNSRecord * gset string * gmap string DNSRoute) : Prop :=
  (∀ r, r ∈ s.1.1 ↔ r ∈ records ∨ ∃ c, c ∈ cs ∧ cd_record c = r ∧ own_name l c) ∧
  (∀ id, id ∈ s.1.2 ↔ id ∈ owners ∨ ∃ c, c ∈ cs ∧ cd_owner c = id ∧ own_name l c) ∧
  (∀ d, (∃ o, owned l d o) ∧ s.2 !! d = Some (MkDNSRoute d "" false []) ∨
        (¬ ∃ o, owned l d o) ∧ s.2 !! d = routes !! d).
Lemma add_shared_ok l records owners routes :
  shared_ok l records owners routes (foldl (add_shared cs) (records, owners, routes) l).
Proof.
  assert (Hnil : ∀ n o, ¬ owned [] n o) by (by intros n o (? & ?%elem_of_nil & _)).
  induction l as [|[name names] l IH] using rev_ind.
  { split_and!; simpl.
    - intros r. split; [auto|]. by intros [?|(? & _ & _ & []%Hnil)].
    - intros r. split; [auto|]. by intros [?|(? & _ & _ & []%Hnil)].
    - intros d. right. split; [|done]. by intros [o []%Hnil]. }
  rewrite foldl_app. cbn [foldl]. destruct (foldl _ _ l) as [[rs os] ro]. destruct IH as (Hr & Ho & Hd).
  cbn [fst snd] in *. unfold add_shared, own_name. destruct (sole names) as [o|] eqn:Es.
  - assert (Hown : ∀ c, owned (l ++ [(name, names)]) (c_name c) (cd_owner c) ↔
      owned l (c_name c) (cd_owner c) ∨ named_by o name c = true).
    { intros c. rewrite owned_snoc, Es, named_by_true. split; intros [?|[? ?]]; [auto|right|auto|right]; split; congruence. }
    split_and!; cbn [fst snd].
    + intros r. rewrite elem_of_app, Hr, list_elem_of_fmap. setoid_rewrite Hown. setoid_rewrite list_elem_of_filter. split.
      * intros [[?|(c & ? & ? & ?)]|(c & -> & ? & ?)]; eauto 8.
      * intros [?|(c & ? & ? & [?|?])]; eauto 8.
    + intros id. setoid_rewrite Hown. destruct (bool_decide_reflect (filter (λ c, named_by o name c = true) cs = [])) as [He|He].
      * rewrite Ho. split; [intros [?|(c & ? & ? & ?)]; eauto 6|]. intros [?|(c & Hc & ? & [?|Hob])]; [eauto 6..|].
        assert (c ∈ filter (λ c, named_by o name c = true) cs) as Hin by (by apply list_elem_of_filter).
        rewrite He in Hin. by apply elem_of_nil in Hin.
      * rewrite elem_of_union, elem_of_singleton, Ho. split.
        -- intros [->|[?|(c & ? & ? & ?)]]; [|eauto 6..]. right.
           destruct (filter _ cs) as [|c fs] eqn:E; [done|]. exists c.
           assert (c ∈ c :: fs) as Hin by (by left). rewrite <-E in Hin. apply list_elem_of_filter in Hin as [Hob Hc].
           split_and!; [done| |auto]. by apply named_by_true in Hob as [? _].
        -- intros [?|(c & Hc & <- & [?|Hob])]; [eauto 6..|]. left. by apply named_by_true in Hob as [? _].
    + intros d. setoid_rewrite owned_snoc. rewrite lookup_insert. case_decide as Hn.
      * subst d. left. split; [exists o; auto|done].
      * destruct (Hd d) as [[[o' ?] ?]|[Hno ?]]; [left; eauto|right]. split; [|done].
        intros (o' & [?|[-> _]]); [apply Hno; eauto|done].
  - assert (Hown : ∀ n o, owned (l ++ [(name, names)]) n o ↔ owned l n o).
    { intros n o. rewrite owned_snoc, Es. split; [by intros [?|[_ ?]]|auto]. }
    split_and!; cbn [fst snd]; intros ?; setoid_rewrite Hown; auto.
Qed.
End shared.

(** The routes of the policy: one per domain, of the tier that decides it. *)
Definition tiers_distinct (policy : DNSPlan) : Prop :=
  NoDup (de_Domain <$> dp_Exact policy) ∧ NoDup (de_Domain <$> dp_Imported policy) ∧ NoDup (de_Domain <$> dp_Automatic policy).
Definition installs (policy : DNSPlan) e : Prop :=
  e ∈ dp_Exact policy ∨
  (e ∈ dp_Imported policy ∧ de_Domain e ∉ de_Domain <$> dp_Exact policy) ∨
  (e ∈ dp_Automatic policy ∧ de_Domain e ∉ de_Domain <$> dp_Exact policy ∧ de_Domain e ∉ de_Domain <$> dp_Imported policy).
Lemma elem_of_installed policy e : e ∈ installed_entries policy ↔ installs policy e.
Proof.
  unfold installed_entries, installs.
  rewrite !elem_of_app, !list_elem_of_filter, orb_false_iff, !hasDNSPolicyDomain_false. tauto.
Qed.
Lemma installed_distinct policy : tiers_distinct policy → NoDup (de_Domain <$> installed_entries policy).
Proof.
  intros (H1 & H2 & H3). unfold installed_entries. rewrite !fmap_app. apply NoDup_app. split_and!.
  - by apply NoDup_fmap_filter.
  - intros d (e & -> & [He _]%list_elem_of_filter)%list_elem_of_fmap.
    rewrite orb_false_iff, !hasDNSPolicyDomain_false in He. destruct He as [Hx Hi].
    rewrite elem_of_app. intros [(e' & Hd & [_ He']%list_elem_of_filter)%list_elem_of_fmap|?]; [|done].
    apply Hi. rewrite Hd. by apply list_elem_of_fmap_2.
  - apply NoDup_app. split_and!; [by apply NoDup_fmap_filter| |done].
    intros d (e & -> & [He%hasDNSPolicyDomain_false _]%list_elem_of_filter)%list_elem_of_fmap. done.
Qed.
Lemma policy_routes l ow : NoDup (de_Domain <$> l) →
  (∀ d rt, (foldl addPolicyRoute (∅, ow) l).1 !! d = Some rt ↔ ∃ e, e ∈ l ∧ de_Domain e = d ∧ rt = policy_route e) ∧
  (∀ id, id ∈ (foldl addPolicyRoute (∅, ow) l).2 ↔ id ∈ ow ∨ (id ≠ "" ∧
     ∃ e, e ∈ l ∧ de_Active e = true ∧ de_Source e = "magicdns" ∧ de_ProfileID e = id)).
Proof.
  induction l as [|e l IH] using rev_ind; intros Hnd.
  { simpl. split; intros *; [rewrite lookup_empty|]; split; try done; auto.
    - by intros (? & ?%elem_of_nil & _).
    - by intros [?|(_ & ? & ?%elem_of_nil & _)]. }
  rewrite fmap_app in Hnd. apply NoDup_app in Hnd as (Hl & Hdis & _). destruct (IH Hl) as [Hr Ho]. rewrite foldl_app. cbn [foldl].
  destruct (foldl _ _ l) as [ro os]. cbn [fst snd] in *. unfold addPolicyRoute. cbn [fst snd]. setoid_rewrite elem_of_snoc. split.
  - intros d rt. rewrite lookup_insert. case_decide as Hd.
    + split; [intros [= <-]; eauto|]. intros (x & [Hx| ->] & Hxd & ->); [|done]. exfalso.
      apply (Hdis d); [rewrite <-Hxd; by apply list_elem_of_fmap_2|]. rewrite <-Hd. by left.
    + rewrite Hr. split; [intros (x & ? & ?); eauto|]. intros (x & [?| ->] & ? & ?); [eauto|done].
  - intros id. destruct (de_Active e && String.eqb (de_Source e) "magicdns" && negb (String.eqb (de_ProfileID e) "")) eqn:Ec.
    + apply andb_true_iff in Ec as [[Ha Hs%String.eqb_eq]%andb_true_iff Hp%negb_true_iff%String.eqb_neq].
      rewrite elem_of_union, elem_of_singleton, Ho. split.
      * intros [->|[?|(? & x & ? & ?)]]; eauto 8.
      * intros [?|(? & x & [?| ->] & ? & ? & ?)]; eauto 8.
    + rewrite Ho. split; [intros [?|(? & x & ? & ?)]; eauto 8|]. intros [?|(Hid & x & [?| ->] & Ha & Hs & Hp)]; [eauto 8..|].
      rewrite Ha, Hs, Hp in Ec. cbn in Ec. apply negb_false_iff, String.eqb_eq in Ec. done.
Qed.

(** *** Names *)

(** The record [r] is one a status offers: its own name at the daemon's
    address, or a target's name at the effective address of its lease. *)
Definition offers (st : State) (leases : list Lease) (s : Status) r : Prop :=
  s_MagicDNSSuffix s ≠ "" ∧ rec_ProfileID r = s_ProfileID s ∧ rec_Name r ≠ "" ∧ addr.IsValid (rec_EffectiveIP r) = true ∧
  ((rec_Name r = s_SelfDNSName s ∧ ∃ ip, ip ∈ s_SelfIPs s ∧ rec_EffectiveIP r = natIPFor st ip) ∨
   ∃ t ip, t ∈ reachableTargets s ∧ rec_Name r = t_DNSName t ∧ ip ∈ t_IPs t ∧
          MkLease (MkKey (s_ProfileID s) (t_ID t) ip) (rec_EffectiveIP r) ∈ leases).
Definition offered (st : State) (leases : list Lease) (statuses : list Status) r : Prop :=
  ∃ s, s ∈ statuses ∧ offers st leases s r.

Lemma addRecords_ok st byKey id node name ips cs c : addRecords st byKey id node name ips = Ok cs →
  c ∈ cs ↔ name ≠ "" ∧ ∃ ip, ip ∈ ips ∧ record_for st byKey id node name ip = Ok c.
Proof.
  unfold addRecords. destruct (String.eqb_spec name "") as [Hn|Hn].
  - intros [= <-]. split; [by intros ?%elem_of_nil|by intros [? _]].
  - intros H. rewrite (imapM_elem _ _ _ _ H). tauto.
Qed.
Lemma record_for_ok st byKey id node name ip c : record_for st byKey id node name ip = Ok c ↔
  cd_owner c = id ∧ rec_ProfileID (cd_record c) = id ∧ rec_Name (cd_record c) = name ∧
  addr.IsValid (rec_EffectiveIP (cd_record c)) = true ∧
  match node with
  | None => rec_EffectiveIP (cd_record c) = natIPFor st ip
  | Some node => byKey !! MkKey id node ip = Some (rec_EffectiveIP (cd_record c))
  end.
Proof.
  unfold record_for. destruct c as [[p n e] o]. simpl. destruct node as [node|].
  - destruct (byKey !! _) as [eff|]; cbn; [|split; [done|by intros (_ & _ & _ & _ & ?)]].
    destruct (addr.IsValid eff) eqn:Hv; cbn; (split; [|intros (<- & <- & <- & ? & [= <-]); congruence]).
    + by intros [= <- <- <- <-].
    + done.
  - cbn. destruct (addr.IsValid (natIPFor st ip)) eqn:Hv; cbn; (split; [|intros (<- & <- & <- & ? & ->); congruence]).
    + by intros [= <- <- <- <-].
    + done.
Qed.
Lemma status_candidates_ok st leases byKey s cs c :
  (∀ k eff, byKey !! k = Some eff ↔ MkLease k eff ∈ leases) → status_candidates st byKey s = Ok cs →
  c ∈ cs ↔ offers st leases s (cd_record c) ∧ cd_owner c = s_ProfileID s.
Proof.
  intros Hk. unfold status_candidates, offers. destruct (String.eqb_spec (s_MagicDNSSuffix s) "") as [Hm|Hm].
  { intros [= <-]. split; [by intros ?%elem_of_nil|by intros [[? _] _]]. }
  intros H. ok_inv H as self Hself. ok_inv H as ts Hts. injection H as <-.
  rewrite elem_of_app, (addRecords_ok _ _ _ _ _ _ _ _ Hself), list_elem_of_In, in_concat.
  setoid_rewrite <-list_elem_of_In. setoid_rewrite (imapM_elem _ _ _ _ Hts). setoid_rewrite record_for_ok. split.
  - intros [(Hn & ip & Hip & ? & ? & Hname & ? & ?)|(l & (t & Ht & Hl) & Hc)].
    + rewrite <-Hname in Hn. split_and!; try done. left. eauto.
    + apply (addRecords_ok _ _ _ _ _ _ _ _ Hl) in Hc as (Hn & ip & Hip & (? & ? & Hname & ? & ?%Hk)%record_for_ok).
      rewrite <-Hname in Hn. split_and!; try done. right. exists t, ip. done.
  - intros ((_ & Hp & Hn & Hv & [(Hname & ip & Hip & He)|(t & ip & Ht & Hname & Hip & He%Hk)]) & Ho).
    + left. rewrite <-Hname. split; [done|]. exists ip. done.
    + right. destruct (imapM_elem_in _ _ _ _ Hts Ht) as (_ & l & _ & Hl). exists l. split; [by exists t|].
      apply (addRecords_ok _ _ _ _ _ _ _ _ Hl). rewrite <-Hname. split; [done|]. exists ip. split; [done|].
      by apply record_for_ok.
Qed.

Definition dns_candidates st leases statuses (cs : list candidateRecord) : Prop :=
  ∀ c, c ∈ cs ↔ offered st leases statuses (cd_record c) ∧ cd_owner c = rec_ProfileID (cd_record c).

(** A name no route of the policy covers, offered by one profile only. *)
Definition alone st leases statuses (name id : string) : Prop :=
  ∀ r, offered st leases statuses r → NormalizeDomain (rec_Name r) = name → rec_ProfileID r = id.
Definition uncovered (policy : DNSPlan) st leases statuses (name : string) : Prop :=
  Resolve policy name = None ∧
  ∃ r, offered st leases statuses r ∧ NormalizeDomain (rec_Name r) = name ∧ alone st leases statuses name (rec_ProfileID r).
(** The owner of the record is the one the policy gives its name to. *)
Definition answers (policy : DNSPlan) st leases statuses r : Prop :=
  match Resolve policy (NormalizeDomain (rec_Name r)) with
  | Some e => de_Active e = true ∧ de_ProfileID e = rec_ProfileID r
  | None => alone st leases statuses (NormalizeDomain (rec_Name r)) (rec_ProfileID r)
  end.

Section of_config.
Context (policy : DNSPlan) (st : State) (statuses : list Status) (leases : list Lease) (cs : list candidateRecord) (b : dns_build).
Hypothesis Hcs : dns_candidates st leases statuses cs.
Hypothesis Hb : placed_ok policy cs b.

Lemma sole_owner name o : owned (map_to_list (bd_shared b)) name o ↔
  Resolve policy name = None ∧ alone st leases statuses name o ∧ ∃ r, offered st leases statuses r ∧ NormalizeDomain (rec_Name r) = name.
Proof using Hcs Hb.
  unfold owned, alone. setoid_rewrite elem_of_map_to_list. setoid_rewrite sole_Some. split.
  - intros (names & Hl & ->). pose proof (pl_shared _ _ _ Hb name) as Hs. rewrite Hl in Hs. cbn [from_option] in Hs.
    destruct (proj1 (Hs o)) as (c & Hc & Hn & Ho & Hr); [by apply elem_of_singleton|]. split_and!; [done| |].
    + intros r Hoff Hname. apply (elem_of_singleton (C:=gset string)), Hs. exists (MkCandidate r (rec_ProfileID r)).
      split_and!; [by apply Hcs|done..].
    + exists (cd_record c). split; [by apply Hcs|done].
  - intros (Hr & Hall & r & Hoff & Hn). pose proof (pl_shared _ _ _ Hb name) as Hs.
    assert (Hin : o ∈ default ∅ (bd_shared b !! name)).
    { apply Hs. exists (MkCandidate r (rec_ProfileID r)). split_and!; [by apply Hcs|done|by apply Hall|done]. }
    destruct (bd_shared b !! name) as [names|]; [|by apply elem_of_empty in Hin]. exists names. split; [done|].
    apply leibniz_equiv, set_equiv. intros y. rewrite elem_of_singleton. split; [|by intros ->].
    intros (c & Hc & Hcn & <- & _)%Hs. apply Hcs in Hc as [Hoff' ->]. by apply Hall.
Qed.
Lemma own_answers c : c ∈ cs → placed policy c ∨ own_name (map_to_list (bd_shared b)) c ↔ answers policy st leases statuses (cd_record c).
Proof using Hcs Hb.
  intros [Hoff Ho]%Hcs. unfold own_name, answers, placed. rewrite sole_owner, Ho. fold (c_name c).
  destruct (Resolve policy (c_name c)) as [e|] eqn:E.
  - split.
    + intros [(e' & [= <-] & ? & ?)|[? _]]; done.
    + intros [? ?]. left. eauto.
  - split.
    + intros [(e' & ? & _)|(_ & ? & _)]; done.
    + intros ?. right. split_and!; [done..|]. eauto.
Qed.
Lemma uncovered_sole name : (∃ o, owned (map_to_list (bd_shared b)) name o) ↔ uncovered policy st leases statuses name.
Proof using Hcs Hb.
  setoid_rewrite sole_owner. unfold uncovered. split.
  - intros (o & Hr & Ha & r & Hoff & Hn). split; [done|]. exists r. split_and!; [done..|]. by rewrite (Ha r Hoff Hn).
  - intros (Hr & r & ? & ? & ?). exists (rec_ProfileID r). split_and!; eauto.
Qed.
End of_config.

Lemma candidates_ok st leases statuses byKey lists :
  (∀ k eff, byKey !! k = Some eff ↔ MkLease k eff ∈ leases) →
  imapM (λ _ ps, status_candidates st byKey ps) statuses = Ok lists →
  dns_candidates st leases statuses (concat lists).
Proof.
  intros Hk H c. rewrite list_elem_of_In, in_concat. setoid_rewrite <-list_elem_of_In.
  setoid_rewrite (imapM_elem _ _ _ _ H). unfold offered. split.
  - intros (l & (s & Hs & Hl) & Hc). apply (status_candidates_ok _ _ _ _ _ _ Hk Hl) in Hc as [Hoff ->].
    split; [by exists s|]. by destruct Hoff as (_ & -> & _).
  - intros [(s & Hs & Hoff) Ho]. destruct (imapM_elem_in _ _ _ _ H Hs) as (_ & l & _ & Hl).
    exists l. split; [by exists s|]. apply (status_candidates_ok _ _ _ _ _ _ Hk Hl). split; [done|].
    rewrite Ho. by destruct Hoff as (_ & -> & _).
Qed.

Record dns_config (policy : DNSPlan) st statuses leases (cfg : LiveConfig) : Prop := {
  dc_records r : r ∈ lc_Records cfg ↔ offered st leases statuses r ∧ answers policy st leases statuses r;
  dc_sorted : StronglySorted (not_after record_less) (lc_Records cfg);
  dc_routes : tiers_distinct policy → NoDup (dr_Suffix <$> lc_Routes cfg) ∧
    ∀ rt, rt ∈ lc_Routes cfg ↔
      (uncovered policy st leases statuses (dr_Suffix rt) ∧ rt = MkDNSRoute (dr_Suffix rt) "" false []) ∨
      (¬ uncovered policy st leases statuses (dr_Suffix rt) ∧ ∃ e, installs policy e ∧ rt = policy_route e);
  dc_routes_sorted : StronglySorted (not_after (less_key dr_Suffix)) (lc_Routes cfg);
  dc_domains d : tiers_distinct policy → d ∈ lc_Domains cfg ↔ dom_AuthoritativeOnly d = true ∧ dom_Suffix d ≠ "" ∧
    suffix_by_profile statuses !! dom_ProfileID d = Some (dom_Suffix d) ∧
    ((∃ r, r ∈ lc_Records cfg ∧ rec_ProfileID r = dom_ProfileID d) ∨
     (dom_ProfileID d ≠ "" ∧ ∃ e, installs policy e ∧ de_Active e = true ∧ de_Source e = "magicdns" ∧ de_ProfileID e = dom_ProfileID d));
  dc_domains_nodup : NoDup (dom_ProfileID <$> lc_Domains cfg);
  dc_search : lc_SearchDomains cfg = api.is_Domain <$> api.Installed (dp_Search policy) }.

(** The suffix of a profile is the last one its statuses report. *)
Lemma suffix_by_profile_nonempty statuses id s : suffix_by_profile statuses !! id = Some s → s ≠ "".
Proof.
  unfold suffix_by_profile. induction statuses as [|ps l IH] using rev_ind; [cbn [foldl]; by rewrite lookup_empty|].
  rewrite foldl_app. simpl. destruct (String.eqb_spec (s_MagicDNSSuffix ps) "") as [|Hne]; [done|].
  rewrite lookup_insert. case_decide; [intros [= <-]; done|done].
Qed.
Lemma elem_of_domains statuses (owners : gset string) d :
  d ∈ omap (owner_domain (suffix_by_profile statuses)) (elements owners) ↔
  dom_ProfileID d ∈ owners ∧ dom_AuthoritativeOnly d = true ∧ suffix_by_profile statuses !! dom_ProfileID d = Some (dom_Suffix d).
Proof.
  rewrite list_elem_of_omap. setoid_rewrite elem_of_elements. unfold owner_domain. split.
  - intros (p & Hp & Hd). destruct (suffix_by_profile statuses !! p) as [s|] eqn:E; [|done]. cbn [from_option] in Hd.
    destruct (String.eqb_spec (id s) ""); [done|]. injection Hd as <-. done.
  - intros (Hid & Ha & Hs). exists (dom_ProfileID d). split; [done|]. rewrite Hs. cbn [from_option].
    pose proof (proj2 (String.eqb_neq _ _) (suffix_by_profile_nonempty _ _ _ Hs)) as Hne. unfold id. rewrite Hne.
    destruct d. simpl in *. by subst.
Qed.
Lemma NoDup_domains statuses (owners : gset string) :
  NoDup (dom_ProfileID <$> omap (owner_domain (suffix_by_profile statuses)) (elements owners)).
Proof.
  pose proof (NoDup_elements owners) as Hnd. revert Hnd. generalize (elements owners). intros l Hnd.
  induction Hnd as [|id l Hid Hnd IH]; [apply NoDup_nil_2|]. cbn [omap list_omap]. unfold owner_domain at 1.
  destruct (String.eqb _ ""); [done|]. rewrite fmap_cons. apply NoDup_cons. split; [|done].
  intros (d & Hd' & (id' & Hin & Hd)%list_elem_of_omap)%list_elem_of_fmap. apply Hid. simpl in Hd'.
  unfold owner_domain in Hd. destruct (String.eqb _ ""); [done|]. injection Hd as <-. simpl in Hd'. by subst.
Qed.

Lemma policy_routes_key l ow d rt : (foldl addPolicyRoute (∅, ow) l).1 !! d = Some rt → dr_Suffix rt = d.
Proof.
  revert d rt. induction l as [|e l IH] using rev_ind; intros d rt; [cbn [foldl fst]; by rewrite lookup_empty|].
  rewrite foldl_app. cbn [foldl]. destruct (foldl _ _ l) as [ro os]. cbn [addPolicyRoute fst] in *.
  rewrite lookup_insert. case_decide; [intros [= <-]; done|apply IH].
Qed.

Lemma tunDNS_config st statuses leases policy cfg :
  tunDNSLiveConfig st statuses leases policy = Ok cfg → dns_config policy st statuses leases cfg.
Proof.
  intros H. unfold tunDNSLiveConfig in H. ok_inv H as byKey Hk%wrap_ok_inv. pose proof (index_leases_ok _ _ Hk) as Hbk.
  ok_inv H as lists Hl. pose proof (candidates_ok _ _ _ _ _ Hbk Hl) as Hcs. set (cs := concat lists) in *.
  pose proof (place_candidates policy cs) as Hb. set (b := foldl (place_candidate policy) _ cs) in *.
  pose proof (λ Hd, policy_routes (installed_entries policy) (bd_owners b) (installed_distinct policy Hd)) as Hpol.
  pose proof (policy_routes_key (installed_entries policy) (bd_owners b)) as Hkey.
  destruct (foldl addPolicyRoute _ _) as [ro os]. cbn [fst snd] in *.
  pose proof (add_shared_ok cs (map_to_list (bd_shared b)) (bd_records b) os ro) as (Hr & Ho & Hd).
  destruct (foldl (add_shared cs) _ _) as [[records owners] routes]. cbn [fst snd] in *. injection H as <-.
  assert (Hrec : ∀ r, r ∈ records ↔ offered st leases statuses r ∧ answers policy st leases statuses r).
  { intros r. rewrite Hr, (pl_records _ _ _ Hb). split.
    - intros [(c & Hc & <- & Hp)|(c & Hc & <- & Hp)]; (split; [by apply Hcs|]); apply (own_answers _ _ _ _ _ _ Hcs Hb c Hc); auto.
    - intros [Hoff Ha]. set (c := MkCandidate r (rec_ProfileID r)). assert (Hc : c ∈ cs) by (by apply Hcs).
      destruct (proj2 (own_answers _ _ _ _ _ _ Hcs Hb c Hc) Ha) as [Hp|Hp]; [left|right]; by exists c. }
  assert (Hrk : ∀ d rt, routes !! d = Some rt → dr_Suffix rt = d).
  { intros d rt Hrt. destruct (Hd d) as [[_ E]|[_ E]]; rewrite E in Hrt; [by injection Hrt as <-|by apply Hkey]. }
  constructor; cbn [lc_Records lc_Routes lc_Domains lc_SearchDomains].
  - intros r. by rewrite elem_of_go_sort, Hrec.
  - apply go_sort_sorted, _.
  - intros Hdis. split; [rewrite (go_sort_Permutation _ (map_values routes)); by apply NoDup_map_values|].
    intros rt. rewrite elem_of_go_sort, (elem_of_map_values dr_Suffix) by done.
    rewrite <-(uncovered_sole _ _ _ _ _ _ Hcs Hb). destruct (Hd (dr_Suffix rt)) as [[Hs ->]|[Hs ->]].
    + split; [intros [= Heq]; left; by rewrite Heq at 1|]. intros [[_ <-]|[? _]]; done.
    + rewrite (proj1 (Hpol Hdis)). setoid_rewrite elem_of_installed. split.
      * intros (e & ? & _ & ?). right. eauto.
      * intros [[? _]|(_ & e & ? & ->)]; [done|]. by exists e.
  - apply go_sort_sorted, _.
  - intros d Hdis. rewrite elem_of_go_sort, elem_of_domains, Ho, (proj2 (Hpol Hdis)), (pl_owners _ _ _ Hb).
    setoid_rewrite elem_of_installed. setoid_rewrite elem_of_go_sort.
    assert (Hown : ((∃ c, c ∈ cs ∧ cd_owner c = dom_ProfileID d ∧ placed policy c) ∨
      ∃ c, c ∈ cs ∧ cd_owner c = dom_ProfileID d ∧ own_name (map_to_list (bd_shared b)) c) ↔
      ∃ r, r ∈ records ∧ rec_ProfileID r = dom_ProfileID d).
    { setoid_rewrite Hr. setoid_rewrite (pl_records _ _ _ Hb). split.
      - intros [(c & Hc & Hid & Hp)|(c & Hc & Hid & Hp)]; exists (cd_record c); apply Hcs in Hc as Hc'; destruct Hc' as [_ <-]; eauto 8.
      - intros (r & [(c & Hc & <- & Hp)|(c & Hc & <- & Hp)] & Hid); apply Hcs in Hc as Hc'; destruct Hc' as [_ Hco];
          [left|right]; exists c; by rewrite Hco. }
    rewrite <-Hown. pose proof (suffix_by_profile_nonempty statuses (dom_ProfileID d) (dom_Suffix d)). tauto.
  - rewrite (go_sort_Permutation domain_less). apply NoDup_domains.
  - done.
Qed.

(** C10. Which names the resolver answers, and with what.  A record is installed
    exactly when a status offers it and its name is given to that status's
    profile: by the longest route of the policy that contains the name, or, for a
    name no route contains, because no other profile offers it.  So a name never
    mixes profiles, and every record is the daemon's own address or the
    effective address leased to that very target. *)
Theorem records_sound (st : State) (statuses : list Status) (leases : list Lease) (policy : DNSPlan) (cfg : LiveConfig) :
  tunDNSLiveConfig st statuses leases policy = Ok cfg →
  (∀ r, r ∈ lc_Records cfg ↔ offered st leases statuses r ∧ answers policy st leases statuses r) ∧
  (∀ r r', r ∈ lc_Records cfg → r' ∈ lc_Records cfg →
     NormalizeDomain (rec_Name r) = NormalizeDomain (rec_Name r') → rec_ProfileID r = rec_ProfileID r') ∧
  StronglySorted (not_after record_less) (lc_Records cfg).
Proof.
  intros Hc%tunDNS_config. split_and!; [apply Hc| |apply Hc].
  intros r r' [Hoff Ha]%(dc_records _ _ _ _ _ Hc) [Hoff' Ha']%(dc_records _ _ _ _ _ Hc) Hn.
  unfold answers in *. rewrite <-Hn in Ha'. destruct (Resolve policy _) as [e|].
  - destruct Ha as [_ <-], Ha' as [_ <-]. done.
  - symmetry. by apply Ha.
Qed.

(** C11. Where the resolver sends the rest.  There is one route per suffix: a
    name that is answered without a route of the policy is kept to itself, and
    every other suffix has the entry of the first tier that has one (a binding,
    then an imported route, then an automatic one); an entry that is not active
    keeps its suffix without resolvers, so its names fail closed.  A profile's
    MagicDNS suffix is claimed exactly when the profile owns a record or an
    active automatic MagicDNS entry. *)
Theorem routes_sound (st : State) (statuses : list Status) (leases : list Lease) (policy : DNSPlan) (cfg : LiveConfig) :
  tiers_distinct policy → tunDNSLiveConfig st statuses leases policy = Ok cfg →
  NoDup (dr_Suffix <$> lc_Routes cfg) ∧ StronglySorted (not_after (less_key dr_Suffix)) (lc_Routes cfg) ∧
  (∀ rt, rt ∈ lc_Routes cfg ↔
     (uncovered policy st leases statuses (dr_Suffix rt) ∧ rt = MkDNSRoute (dr_Suffix rt) "" false []) ∨
     (¬ uncovered policy st leases statuses (dr_Suffix rt) ∧ ∃ e, installs policy e ∧ rt = policy_route e)) ∧
  (∀ id suffix, (∃ d, d ∈ lc_Domains cfg ∧ dom_ProfileID d = id ∧ dom_Suffix d = suffix) ↔
     suffix_by_profile statuses !! id = Some suffix ∧
     ((∃ r, r ∈ lc_Records cfg ∧ rec_ProfileID r = id) ∨
      (id ≠ "" ∧ ∃ e, installs policy e ∧ de_Active e = true ∧ de_Source e = "magicdns" ∧ de_ProfileID e = id))).
Proof.
  intros Hdis Hc%tunDNS_config. destruct (dc_routes _ _ _ _ _ Hc Hdis) as [Hnd Hr].
  split_and!; [done|apply Hc|done|]. intros id suffix. split.
  - intros (d & (_ & _ & Hs & Hown)%(dc_domains _ _ _ _ _ Hc _ Hdis) & <- & <-). done.
  - intros [Hs Hown]. exists (MkDomain id suffix true). split; [|done].
    apply (dc_domains _ _ _ _ _ Hc _ Hdis). cbn. split_and!; try done. by apply suffix_by_profile_nonempty in Hs.
Qed.
End dns_facts.

(** ** A concrete configuration *)

(** Two profiles of one tailnet: the shared suffix has no owner, but each
    profile owns the name of the machine shared with it. *)
Definition corp_policy : DNSPlan := BuildDNS (F:=option (list string)) corp_state corp_statuses.
Definition corp_dns : LiveConfig :=
  match tunDNSLiveConfig (F:=option (list string)) corp_state corp_statuses corp_leases.1 corp_policy with
  | Ok cfg => cfg
  | Err _ => MkLiveConfig [] [] [] []
  end.
Lemma corp_dns_ok : tunDNSLiveConfig (F:=option (list string)) corp_state corp_statuses corp_leases.1 corp_policy = Ok corp_dns.
Proof. vm_compute. reflexivity. Qed.
Lemma corp_tiers : tiers_distinct corp_policy.
Proof. split_and!; vm_compute; repeat constructor; by intros ?%elem_of_nil. Qed.
Lemma records_sound_witness : ∃ r, lc_Records corp_dns !! 0%nat = Some r ∧ rec_Name r = "box.alpha.ts.net" ∧
  answers (F:=option (list string)) corp_policy corp_state corp_leases.1 corp_statuses r.
Proof.
  destruct (lc_Records corp_dns !! 0%nat) as [r|] eqn:E; [|vm_compute in E; discriminate].
  exists r. split; [reflexivity|]. split; [vm_compute in E; injection E as <-; reflexivity|].
  pose proof (records_sound corp_state corp_statuses corp_leases.1 corp_policy corp_dns corp_dns_ok) as (Hr & _ & _).
  exact (proj2 (proj1 (Hr r) (list_elem_of_lookup_2 _ _ _ E))).
Defined.
Lemma routes_sound_witness : length (lc_Routes corp_dns) = 3 ∧ NoDup (dr_Suffix <$> lc_Routes corp_dns).
Proof.
  split; [vm_compute; reflexivity|].
  exact (proj1 (routes_sound corp_state corp_statuses corp_leases.1 corp_policy corp_dns corp_tiers corp_dns_ok)).
Defined.
