(* ===== verification/DNSService.v ===== *)
(** * The resolver configuration

    src/dns/service.go, [configForService]: the live configuration of a plan
    turned into what the resolver library takes ([net/dns.Config]); and
    src/dns/resolver.go, the lookup by exact name.  The resolver library itself
    is not part of the repository: its configuration is the record [Config]. *)

From S2P Require Import Prelude GoStrings Netip DNSName EffectiveIP State Types HostPools LeasePlan RoutingPolicy TUNTable DNSPolicy TUNDNS.
Import netip_facts.

Inductive service_error : Type :=
  | ENoProfileID
  | ESuffixSyntax (profile suffix : string)
  | EManySuffixes (profile : string)
  | ESharedSuffix (owner profile : string)
  | ERecordIP (name : string)
  | ERecordProfile (name profile : string)
  | ERecordName (profile name : string)
  | ERouteSyntax (suffix : string)
  | EManyDefaults
  | ERouteConflict (suffix : string)
  | ESearchSyntax (domain : string).

Definition containsAddr (addrs : list Addr) (want : Addr) : bool := existsb (λ a, bool_decide (a = want)) addrs.
#[export] Instance Resolver_option_eq_dec : EqDecision (option Resolver) := _.
(** Nil pointers are equal to each other only. *)
Definition same_resolver (p : option Resolver * option Resolver) : bool :=
  match p with
  | (Some a, Some b) => bool_decide (a = b)
  | (None, None) => true
  | _ => false
  end.
Definition sameResolvers (a b : list (option Resolver)) : bool :=
  if negb (length a =? length b)%nat then false else forallb same_resolver (zip a b).
Definition cloneDNSResolvers (l : list (option Resolver)) : list Resolver := omap id l.

Section service.
Context {F : Type} `{DNSName F}.

(** [dnsname.ToFQDN(strings.ToLower(strings.TrimSpace(s)))]. *)
Definition fqdn_of (s : string) : option F := ToFQDN (ToLower (TrimSpace s)).

(** [tailscaledns.Config]; [DefaultResolvers] may be nil. *)
Record Config : Type := MkConfig {
  c_DefaultResolvers : option (list Resolver); c_Hosts : gmap F (list Addr);
  c_Routes : gmap F (list Resolver); c_SearchDomains : list F }.

Definition add_domain (s : gmap string F * gmap F string) (d : DNSDomain) : result service_error (gmap string F * gmap F string) :=
  let '(domainByProfile, ownerByDomain) := s in
  _ ← guard_err (String.eqb (dom_ProfileID d) "") ENoProfileID;
  match fqdn_of (dom_Suffix d) with
  | None => Err (ESuffixSyntax (dom_ProfileID d) (dom_Suffix d))
  | Some suffix =>
    _ ← guard_err (match domainByProfile !! dom_ProfileID d with
                   | Some existing => negb (bool_decide (existing = suffix))
                   | None => false
                   end) (EManySuffixes (dom_ProfileID d));
    _ ← match ownerByDomain !! suffix with
        | Some owner => guard_err (negb (String.eqb owner (dom_ProfileID d))) (ESharedSuffix owner (dom_ProfileID d))
        | None => Ok tt
        end;
    Ok (<[dom_ProfileID d := suffix]> domainByProfile, <[suffix := dom_ProfileID d]> ownerByDomain)
  end.

Definition add_record (domainByProfile : gmap string F) (s : gmap F (list Addr) * gset F) (r : DNSRecord) :
    result service_error (gmap F (list Addr) * gset F) :=
  let '(hosts, exactRoutes) := s in
  _ ← guard_err (negb (addr.IsValid (rec_EffectiveIP r))) (ERecordIP (rec_Name r));
  match domainByProfile !! rec_ProfileID r with
  | None => Err (ERecordProfile (rec_Name r) (rec_ProfileID r))
  | Some domain =>
    match fqdn_of (rec_Name r) with
    | None => Err (ERecordName (rec_ProfileID r) (rec_Name r))
    | Some name =>
      let exactRoutes := if FQDNContains domain name then exactRoutes else {[name]} ∪ exactRoutes in
      let addrs := default [] (hosts !! name) in
      Ok (if containsAddr addrs (rec_EffectiveIP r) then hosts else <[name := addrs ++ [rec_EffectiveIP r]]> hosts, exactRoutes)
    end
  end.

Definition add_own_route (routes : gmap F (list Resolver)) (d : DNSDomain) : gmap F (list Resolver) :=
  if dom_AuthoritativeOnly d then routes
  else <[default zero_fqdn (fqdn_of (dom_Suffix d)) := []]> routes.
Definition add_exact_route (ownerByDomain : gmap F string) (routes : gmap F (list Resolver)) (name : F) : gmap F (list Resolver) :=
  if existsb (λ d, FQDNContains d name) (map_to_list ownerByDomain).*1 then routes else <[name := []]> routes.

Definition add_config_route (s : option (list Resolver) * gmap F (list Resolver)) (route : DNSRoute) :
    result service_error (option (list Resolver) * gmap F (list Resolver)) :=
  let '(defaults, routes) := s in
  match fqdn_of (dr_Suffix route) with
  | None => Err (ERouteSyntax (dr_Suffix route))
  | Some suffix =>
    let resolvers := Some <$> dr_Resolvers route in
    if bool_decide (suffix = root) then
      _ ← guard_err (match defaults with Some d => negb (sameResolvers (Some <$> d) resolvers) | None => false end) EManyDefaults;
      Ok (Some (cloneDNSResolvers resolvers), routes)
    else
      _ ← guard_err (match routes !! suffix with Some r => negb (sameResolvers (Some <$> r) resolvers) | None => false end)
            (ERouteConflict (dr_Suffix route));
      Ok (defaults, <[suffix := cloneDNSResolvers resolvers]> routes)
  end.

Definition add_search_domain (s : list F * gset F) (raw : string) : result service_error (list F * gset F) :=
  let '(out, seen) := s in
  match fqdn_of raw with
  | None => Err (ESearchSyntax raw)
  | Some domain =>
    if bool_decide (domain = root) || bool_decide (domain ∈ seen) then Ok s else Ok (out ++ [domain], {[domain]} ∪ seen)
  end.

Definition configForService (cfg : LiveConfig) : result service_error Config :=
  '(domainByProfile, ownerByDomain) ← foldM add_domain (lc_Domains cfg) (∅, ∅);
  '(hosts, exactRoutes) ← foldM (add_record domainByProfile) (lc_Records cfg) (∅, ∅);
  let hosts := go_sort addr.less <$> hosts in
  let routes := foldl (add_exact_route ownerByDomain) (foldl add_own_route ∅ (lc_Domains cfg)) (elements exactRoutes) in
  '(defaults, routes) ← foldM add_config_route (lc_Routes cfg) (None, routes);
  '(search, _) ← foldM add_search_domain (lc_SearchDomains cfg) ([], ∅);
  Ok (MkConfig defaults hosts routes search).

(** ** resolver.go *)

Inductive resolve_error : Type := EInvalidName (name : string) | EUnqualified (name : string) | ENoRecord (name : string).
Definition NewResolver (records : list DNSRecord) : gmap F Addr :=
  foldl (λ m rec, match fqdn_of (rec_Name rec) with
                  | Some name => if bool_decide (name = root) then m else <[name := rec_EffectiveIP rec]> m
                  | None => m
                  end) ∅ records.
Definition Resolver_Resolve (records : gmap F Addr) (name : string) : result resolve_error Addr :=
  match fqdn_of name with
  | None => Err (EInvalidName name)
  | Some key =>
    _ ← guard_err (bool_decide (key = root)) (EInvalidName name);
    _ ← guard_err (NumLabels key <? 2)%nat (EUnqualified name);
    match records !! key with
    | Some ip => Ok ip
    | None => Err (ENoRecord name)
    end
  end.
End service.
Arguments Config F {_}.

(** ** What the loops build *)

Lemma containsAddr_true l a : containsAddr l a = true ↔ a ∈ l.
Proof.
  unfold containsAddr. rewrite existsb_exists. setoid_rewrite <-list_elem_of_In. setoid_rewrite bool_decide_eq_true.
  split; [by intros (x & ? & ->)|eauto].
Qed.
Lemma cloneDNSResolvers_Some l : cloneDNSResolvers (Some <$> l) = l.
Proof. induction l as [|r l IH]; [done|]. unfold cloneDNSResolvers in *. rewrite fmap_cons. cbn. by rewrite IH. Qed.
Lemma sameResolvers_Some a b : sameResolvers (Some <$> a) (Some <$> b) = true ↔ a = b.
Proof.
  unfold sameResolvers. rewrite !length_fmap. destruct (Nat.eqb_spec (length a) (length b)) as [Hl|Hl]; cbn [negb].
  - revert b Hl. induction a as [|x a IH]; intros [|y b] Hl; try done. rewrite !fmap_cons. cbn [zip_with forallb].
    rewrite andb_true_iff, IH by (simpl in Hl; lia). cbn [same_resolver]. rewrite bool_decide_eq_true.
    split; [by intros [-> ->]|intros [= -> ->]; done].
  - split; [done|]. intros ->. done.
Qed.

Section service_facts.
Context {F : Type} `{DN : DNSName F}.
Implicit Types (f name : F).

Record domains_ok (ds : list DNSDomain) (s : gmap string F * gmap F string) : Prop := {
  do_profile p f : s.1 !! p = Some f ↔ ∃ d, d ∈ ds ∧ dom_ProfileID d = p ∧ fqdn_of (dom_Suffix d) = Some f;
  do_owner f p : s.2 !! f = Some p ↔ ∃ d, d ∈ ds ∧ dom_ProfileID d = p ∧ fqdn_of (dom_Suffix d) = Some f;
  do_parsed d : d ∈ ds → dom_ProfileID d ≠ "" ∧ is_Some (fqdn_of (F:=F) (dom_Suffix d)) }.
Lemma add_domains ds s : foldM add_domain ds (∅, ∅) = Ok s → domains_ok ds s.
Proof.
  intros H. apply (foldM_ind domains_ok _ _ _ _ H).
  { split; cbn [fst snd]; intros *.
    - rewrite lookup_empty. split; [done|]. by intros (? & ?%elem_of_nil & _).
    - rewrite lookup_empty. split; [done|]. by intros (? & ?%elem_of_nil & _).
    - by intros ?%elem_of_nil. }
  clear H s. intros pre d [byP byD] s' _ [Hp Ho Hd] H. cbn [fst snd] in *. unfold add_domain in H. ok_guard H as Hid%String.eqb_neq.
  destruct (fqdn_of (dom_Suffix d)) as [f|] eqn:Ef; [|done]. ok_guard H as Hm. ok_inv H as [] Ho'. injection H as <-.
  assert (Hsame : ∀ g, byP !! dom_ProfileID d = Some g → g = f).
  { intros g Hg. rewrite Hg in Hm. by apply negb_false_iff, bool_decide_eq_true in Hm. }
  assert (Hown : ∀ p, byD !! f = Some p → p = dom_ProfileID d).
  { intros p Hg. rewrite Hg in Ho'. by apply guard_err_ok_inv, negb_false_iff, String.eqb_eq in Ho'. }
  split; cbn [fst snd].
  - intros q g. setoid_rewrite elem_of_snoc. rewrite lookup_insert. case_decide as Hk.
    + split; [intros [= <-]; eauto|]. intros (y & [Hy| ->] & Hyp & Hyf); [|congruence]. f_equal. symmetry. apply Hsame, Hp. rewrite Hk. eauto.
    + rewrite Hp. split; [intros (y & ? & ?); eauto|]. intros (y & [?| ->] & ? & ?); [eauto|done].
  - intros g q. setoid_rewrite elem_of_snoc. rewrite lookup_insert. case_decide as Hk.
    + split; [intros [= <-]; subst; eauto|]. intros (y & [Hy| ->] & Hyp & Hyf); [|congruence]. f_equal. symmetry. apply Hown, Ho. rewrite Hk. eauto.
    + rewrite Ho. split; [intros (y & ? & ?); eauto|]. intros (y & [?| ->] & ? & ?); [eauto|congruence].
  - intros y [?| ->]%elem_of_snoc; [auto|]. rewrite Ef. eauto.
Qed.

Record records_ok (byP : gmap string F) (rs : list DNSRecord) (s : gmap F (list Addr) * gset F) : Prop := {
  ro_hosts name ip : ip ∈ default [] (s.1 !! name) ↔ ∃ r, r ∈ rs ∧ fqdn_of (rec_Name r) = Some name ∧ rec_EffectiveIP r = ip;
  ro_nodup name : NoDup (default [] (s.1 !! name));
  ro_exact name : name ∈ s.2 ↔ ∃ r g, r ∈ rs ∧ fqdn_of (rec_Name r) = Some name ∧ byP !! rec_ProfileID r = Some g ∧ FQDNContains g name = false;
  ro_known r : r ∈ rs → addr.IsValid (rec_EffectiveIP r) = true ∧ is_Some (byP !! rec_ProfileID r) ∧ is_Some (fqdn_of (F:=F) (rec_Name r)) }.
Lemma add_records byP rs s : foldM (add_record byP) rs (∅, ∅) = Ok s → records_ok byP rs s.
Proof.
  intros H. apply (foldM_ind (records_ok byP) _ _ _ _ H).
  { split; cbn [fst snd]; intros *; rewrite ?lookup_empty.
    - split; [by intros ?%elem_of_nil|by intros (? & ?%elem_of_nil & _)].
    - apply NoDup_nil_2.
    - split; [by intros ?%elem_of_empty|by intros (? & ? & ?%elem_of_nil & _)].
    - by intros ?%elem_of_nil. }
  clear H s. intros pre r [hosts ex] s' _ [Hh Hn He Hk] H. cbn [fst snd] in *. unfold add_record in H. ok_guard H as Hv%negb_false_iff.
  destruct (byP !! rec_ProfileID r) as [g|] eqn:Eg; [|done]. destruct (fqdn_of (rec_Name r)) as [name|] eqn:En; [|done].
  injection H as <-. set (addrs := default [] (hosts !! name)).
  set (hosts' := if containsAddr addrs (rec_EffectiveIP r) then hosts else _).
  assert (Hl : ∀ x, default [] (hosts' !! x) =
    if decide (x = name) then (if containsAddr addrs (rec_EffectiveIP r) then addrs else addrs ++ [rec_EffectiveIP r]) else default [] (hosts !! x)).
  { intros z. unfold hosts'. destruct (containsAddr addrs _); [case_decide; by subst|].
    rewrite lookup_insert. destruct (decide (z = name)); [subst; by rewrite decide_True|by rewrite decide_False]. }
  split; cbn [fst snd].
  - intros z ip. rewrite Hl. setoid_rewrite elem_of_snoc. case_decide as Hz.
    + subst z. transitivity (ip ∈ addrs ∨ ip = rec_EffectiveIP r).
      * destruct (containsAddr addrs _) eqn:Ec; [|apply elem_of_snoc]. apply containsAddr_true in Ec. split; [auto|by intros [?| ->]].
      * unfold addrs. rewrite Hh. split; [intros [(y & ? & ?)| ->]; eauto|]. intros (y & [?| ->] & ? & ?); eauto.
    + rewrite Hh. split; [intros (y & ? & ?); eauto|]. intros (y & [?| ->] & ? & ?); [eauto|congruence].
  - intros z. rewrite Hl. case_decide; [|done]. destruct (containsAddr addrs _) eqn:Ec; [by apply Hn|].
    apply NoDup_snoc; [by apply Hn|]. intros Hin%containsAddr_true. congruence.
  - intros z. setoid_rewrite elem_of_snoc. destruct (FQDNContains g name) eqn:Ec.
    + rewrite He. split; [intros (y & h & ? & ?); eauto 8|]. intros (y & h & [?| ->] & ? & ? & ?); [eauto 8|congruence].
    + rewrite elem_of_union, elem_of_singleton, He. split.
      * intros [->|(y & h & ? & ?)]; [|eauto 8]. exists r, g. auto.
      * intros (y & h & [?| ->] & ? & ? & ?); [right; eauto 8|left; congruence].
  - intros y. rewrite elem_of_snoc. intros [?| ->]; [auto|]. rewrite Eg, En. eauto.
Qed.

(** The routes before those of the plan: to the resolver's own records. *)
Lemma own_routes ds f rs : foldl add_own_route ∅ ds !! f = Some rs ↔
  rs = [] ∧ ∃ d, d ∈ ds ∧ dom_AuthoritativeOnly d = false ∧ default zero_fqdn (fqdn_of (dom_Suffix d)) = f.
Proof.
  revert f rs. induction ds as [|d ds IH] using rev_ind; intros f rs.
  { cbn [foldl]. rewrite lookup_empty. split; [done|]. by intros (_ & ? & ?%elem_of_nil & _). }
  rewrite foldl_app. cbn [foldl]. setoid_rewrite elem_of_snoc. unfold add_own_route at 1. destruct (dom_AuthoritativeOnly d) eqn:Ea.
  - rewrite IH. split; [intros (? & y & ? & ?); eauto 8|]. intros (? & y & [?| ->] & ? & ?); [eauto 8|congruence].
  - rewrite lookup_insert. case_decide as Hf.
    + split; [intros [= <-]; eauto 8|]. by intros [-> _].
    + rewrite IH. split; [intros (? & y & ? & ?); eauto 8|]. intros (? & y & [?| ->] & ? & ?); [eauto 8|done].
Qed.
Definition owner_covers (byD : gmap F string) f : Prop := ∃ g p, byD !! g = Some p ∧ FQDNContains g f = true.
Lemma exact_routes (byD : gmap F string) l base f rs :
  (∀ g rs', base !! g = Some rs' → rs' = []) →
  foldl (add_exact_route byD) base l !! f = Some rs ↔ rs = [] ∧ (is_Some (base !! f) ∨ (f ∈ l ∧ ¬ owner_covers byD f)).
Proof.
  intros Hbase. revert rs. induction l as [|name l IH] using rev_ind; intros rs.
  { cbn [foldl]. rewrite elem_of_nil. split; [intros Hl; split; [by eapply Hbase|eauto]|].
    intros [-> [[rs' Hl]|[[] _]]]. by rewrite Hl, (Hbase _ _ Hl). }
  rewrite foldl_app. cbn [foldl]. rewrite elem_of_snoc. unfold add_exact_route at 1.
  assert (Hc : existsb (λ d, FQDNContains d name) (map_to_list byD).*1 = true ↔ owner_covers byD name).
  { rewrite existsb_exists. setoid_rewrite <-list_elem_of_In. setoid_rewrite list_elem_of_fmap. split.
    - intros (g & ([g' p] & -> & Hg%elem_of_map_to_list) & Hc). by exists g', p.
    - intros (g & p & Hg & Hc). exists g. split; [|done]. exists (g, p). split; [done|]. by apply elem_of_map_to_list. }
  destruct (existsb _ _).
  - rewrite IH. destruct Hc as [Hc _]. specialize (Hc eq_refl). split; [tauto|]. intros (? & [?|[[?| ->] ?]]); tauto.
  - assert (¬ owner_covers byD name) by (rewrite <-Hc; done). rewrite lookup_insert. case_decide as Hf.
    + subst f. split; [intros [= <-]; auto|]. by intros [-> _].
    + rewrite IH. split; [tauto|]. intros (? & [?|[[?| ->] ?]]); tauto.
Qed.

Record config_routes_ok (base : gmap F (list Resolver)) (rts : list DNSRoute) (s : option (list Resolver) * gmap F (list Resolver)) : Prop := {
  cr_defaults rs : s.1 = Some rs ↔ ∃ rt, rt ∈ rts ∧ fqdn_of (dr_Suffix rt) = Some root ∧ dr_Resolvers rt = rs;
  cr_routes f rs : s.2 !! f = Some rs ↔ (∃ rt, rt ∈ rts ∧ f ≠ root ∧ fqdn_of (dr_Suffix rt) = Some f ∧ dr_Resolvers rt = rs) ∨
    ((∀ rt, rt ∈ rts → fqdn_of (dr_Suffix rt) = Some f → f = root) ∧ base !! f = Some rs);
  cr_base f rs rt : base !! f = Some rs → rt ∈ rts → f ≠ root → fqdn_of (dr_Suffix rt) = Some f → dr_Resolvers rt = rs }.
Lemma add_config_routes base rts s : foldM add_config_route rts (None, base) = Ok s → config_routes_ok base rts s.
Proof.
  intros H. apply (foldM_ind (config_routes_ok base) _ _ _ _ H).
  { split; cbn [fst snd].
    - intros rs. split; [done|]. by intros (? & ?%elem_of_nil & _).
    - intros f rs. split; [|by intros [(? & ?%elem_of_nil & _)|[_ ?]]]. intros ?. right. split; [|done]. by intros ? ?%elem_of_nil.
    - by intros f rs rt _ ?%elem_of_nil. }
  clear H s. intros pre rt [defaults routes] s' _ [Hd Hr Hb] H. cbn [fst snd] in *. unfold add_config_route in H.
  destruct (fqdn_of (dr_Suffix rt)) as [f|] eqn:Ef; [|done]. case_bool_decide as Hroot.
  - subst f. ok_guard H as Hs. injection H as <-. rewrite cloneDNSResolvers_Some.
    assert (Hsame : ∀ rs, defaults = Some rs → rs = dr_Resolvers rt).
    { intros rs ->. by apply negb_false_iff, sameResolvers_Some in Hs. }
    split; cbn [fst snd].
    + intros rs. setoid_rewrite elem_of_snoc. split; [intros [= <-]; eauto|].
      intros (y & [Hy| ->] & Hyf & <-); [|done]. f_equal. symmetry. apply Hsame, Hd. eauto.
    + intros f rs. rewrite Hr. setoid_rewrite elem_of_snoc. split.
      * intros [(y & ? & ?)|[Hno ?]]; [eauto 8|]. right. split; [|done]. intros y [?| ->] ?; [eauto|congruence].
      * intros [(y & [?| ->] & ? & ? & ?)|[Hno ?]]; [eauto 8|congruence|]. right. split; [|done]. intros y Hy. apply Hno. auto.
    + intros f rs y Hy. rewrite elem_of_snoc. intros [?| ->] ? ?; [eauto|congruence].
  - ok_guard H as Hs. injection H as <-. rewrite cloneDNSResolvers_Some.
    assert (Hsame : ∀ rs, routes !! f = Some rs → dr_Resolvers rt = rs).
    { intros rs Hrs. rewrite Hrs in Hs. symmetry. by apply negb_false_iff, sameResolvers_Some in Hs. }
    split; cbn [fst snd].
    + intros rs. rewrite Hd. setoid_rewrite elem_of_snoc. split; [intros (y & ? & ?); eauto|].
      intros (y & [?| ->] & ? & ?); [eauto|congruence].
    + intros g rs. setoid_rewrite elem_of_snoc. rewrite lookup_insert. case_decide as Hg.
      * subst g. split; [intros [= <-]; left; eauto 8|].
        intros [(y & [Hy| ->] & _ & Hyf & <-)|[Hno _]]; [|done|destruct Hroot; by apply (Hno rt); [auto|]].
        f_equal. apply Hsame, Hr. left. eauto 8.
      * rewrite Hr. split.
        -- intros [(y & ? & ?)|[Hno ?]]; [eauto 8|]. right. split; [|done]. intros y [?| ->] ?; [eauto|congruence].
        -- intros [(y & [?| ->] & ? & ? & ?)|[Hno ?]]; [eauto 8|congruence|]. right. split; [|done]. intros y Hy. apply Hno. auto.
    + intros g rs y Hy. rewrite elem_of_snoc. intros [?| ->] ? ?; [eauto|]. assert (g = f) as -> by congruence.
      destruct (decide (Exists (λ y, fqdn_of (dr_Suffix y) = Some f) pre)) as [(y & Hin & Hyf)%Exists_exists|Hno].
      * apply Hsame, Hr. left. exists y. split_and!; [done..|]. by apply (Hb f rs y).
      * apply Hsame, Hr. right. split; [|done]. intros y Hin Hyf. destruct Hno. apply Exists_exists. eauto.
Qed.

Lemma add_search_domains raws s : foldM add_search_domain raws ([], ∅) = Ok s →
  NoDup s.1 ∧ (∀ f, f ∈ s.1 ↔ f ≠ root ∧ ∃ raw, raw ∈ raws ∧ fqdn_of raw = Some f) ∧ (∀ f, f ∈ s.2 ↔ f ∈ s.1).
Proof.
  intros H. apply (foldM_ind (λ raws s, NoDup s.1 ∧ (∀ f, f ∈ s.1 ↔ f ≠ root ∧ ∃ raw, raw ∈ raws ∧ fqdn_of raw = Some f) ∧
    (∀ f, f ∈ s.2 ↔ f ∈ s.1)) _ _ _ _ H).
  { cbn [fst snd]. split_and!; [apply NoDup_nil_2| |].
    - intros f. split; [by intros ?%elem_of_nil|by intros (_ & ? & ?%elem_of_nil & _)].
    - intros f. rewrite elem_of_empty, elem_of_nil. done. }
  clear H s. intros pre raw [out seen] s' _ (Hn & Hf & Hs) H. cbn [fst snd] in *. unfold add_search_domain in H.
  destruct (fqdn_of raw) as [f|] eqn:Ef; [|done]. setoid_rewrite elem_of_snoc.
  destruct (bool_decide_reflect (f = root)) as [Hr|Hr]; [|destruct (bool_decide_reflect (f ∈ seen)) as [Hin|Hin]];
    injection H as <-; cbn [fst snd].
  - split_and!; [done| |done]. intros g. rewrite Hf. split; [intros (? & y & ? & ?); eauto|].
    intros (? & y & [?| ->] & ?); [eauto|congruence].
  - split_and!; [done| |done]. intros g. rewrite Hf. split; [intros (? & y & ? & ?); eauto|].
    intros (? & y & [?| ->] & ?); [eauto|]. assert (g = f) as -> by congruence. by apply Hf, Hs.
  - split_and!.
    + apply NoDup_snoc; [done|]. by rewrite <-Hs.
    + intros g. rewrite elem_of_snoc, Hf. split.
      * intros [(? & y & ? & ?)| ->]; eauto.
      * intros (? & y & [?| ->] & ?); [left; eauto|right; congruence].
    + intros g. rewrite elem_of_union, elem_of_singleton, elem_of_snoc, Hs. tauto.
Qed.

(** The names the resolver is authoritative for without a route of the plan. *)
Definition local_name (cfg : LiveConfig) f : Prop :=
  (∃ d, d ∈ lc_Domains cfg ∧ dom_AuthoritativeOnly d = false ∧ fqdn_of (dom_Suffix d) = Some f) ∨
  ((∃ r, r ∈ lc_Records cfg ∧ fqdn_of (rec_Name r) = Some f) ∧
   ∀ d g, d ∈ lc_Domains cfg → fqdn_of (dom_Suffix d) = Some g → FQDNContains g f = false).

Record service_config (cfg : LiveConfig) (c : Config F) : Prop := {
  sc_domain d : d ∈ lc_Domains cfg → dom_ProfileID d ≠ "" ∧ is_Some (fqdn_of (F:=F) (dom_Suffix d));
  sc_domains d d' : d ∈ lc_Domains cfg → d' ∈ lc_Domains cfg →
    dom_ProfileID d = dom_ProfileID d' ↔ fqdn_of (F:=F) (dom_Suffix d) = fqdn_of (dom_Suffix d');
  sc_record r : r ∈ lc_Records cfg → addr.IsValid (rec_EffectiveIP r) = true ∧ is_Some (fqdn_of (F:=F) (rec_Name r)) ∧
    ∃ d, d ∈ lc_Domains cfg ∧ dom_ProfileID d = rec_ProfileID r;
  sc_hosts name ip : (∃ ips, c_Hosts c !! name = Some ips ∧ ip ∈ ips) ↔
    ∃ r, r ∈ lc_Records cfg ∧ fqdn_of (rec_Name r) = Some name ∧ rec_EffectiveIP r = ip;
  sc_hosts_sorted name ips : c_Hosts c !! name = Some ips → NoDup ips ∧ StronglySorted (not_after addr.less) ips;
  sc_routes f rs : c_Routes c !! f = Some rs ↔
    (∃ rt, rt ∈ lc_Routes cfg ∧ f ≠ root ∧ fqdn_of (dr_Suffix rt) = Some f ∧ dr_Resolvers rt = rs) ∨
    ((∀ rt, rt ∈ lc_Routes cfg → fqdn_of (dr_Suffix rt) = Some f → f = root) ∧ rs = [] ∧ local_name cfg f);
  sc_local f rt : local_name cfg f → rt ∈ lc_Routes cfg → f ≠ root → fqdn_of (dr_Suffix rt) = Some f → dr_Resolvers rt = [];
  sc_defaults rs : c_DefaultResolvers c = Some rs ↔ ∃ rt, rt ∈ lc_Routes cfg ∧ fqdn_of (F:=F) (dr_Suffix rt) = Some root ∧ dr_Resolvers rt = rs;
  sc_search_nodup : NoDup (c_SearchDomains c);
  sc_search f : f ∈ c_SearchDomains c ↔ f ≠ root ∧ ∃ raw, raw ∈ lc_SearchDomains cfg ∧ fqdn_of raw = Some f }.

Lemma base_routes cfg byP byD hosts ex f rs : domains_ok (lc_Domains cfg) (byP, byD) → records_ok byP (lc_Records cfg) (hosts, ex) →
  foldl (add_exact_route byD) (foldl add_own_route ∅ (lc_Domains cfg)) (elements ex) !! f = Some rs ↔ rs = [] ∧ local_name cfg f.
Proof.
  intros Hd Hr. rewrite exact_routes by (intros g rs' [-> _]%own_routes; done).
  assert (Hown : is_Some (foldl add_own_route ∅ (lc_Domains cfg) !! f) ↔
    ∃ d, d ∈ lc_Domains cfg ∧ dom_AuthoritativeOnly d = false ∧ fqdn_of (dom_Suffix d) = Some f).
  { unfold is_Some. setoid_rewrite own_routes. split.
    - intros (_ & _ & d & Hin & Ha & Hf). exists d. split_and!; [done..|].
      destruct (do_parsed _ _ Hd d Hin) as [_ [g Hg]]. rewrite Hg in Hf |- *. by subst.
    - intros (d & Hin & Ha & Hf). exists []. split; [done|]. exists d. by rewrite Hf. }
  assert (Hex : f ∈ elements ex ∧ ¬ owner_covers byD f ↔ (∃ r, r ∈ lc_Records cfg ∧ fqdn_of (rec_Name r) = Some f) ∧
    ∀ d g, d ∈ lc_Domains cfg → fqdn_of (dom_Suffix d) = Some g → FQDNContains g f = false).
  { rewrite elem_of_elements, (ro_exact _ _ _ Hr f). unfold owner_covers. split.
    - intros [(r & g & Hin & Hf & _) Hno]. split; [eauto|]. intros d h Hd' Hh. apply not_true_is_false. intros Hc.
      apply Hno. exists h, (dom_ProfileID d). split; [|done]. apply (do_owner _ _ Hd). eauto.
    - intros [(r & Hin & Hf) Hno]. split.
      + destruct (ro_known _ _ _ Hr r Hin) as (_ & [g Hg] & _). exists r, g. split_and!; [done..|].
        apply (do_profile _ _ Hd) in Hg as (d & Hd' & _ & Hg). by apply (Hno d g).
      + intros (g & p & Hg & Hc). apply (do_owner _ _ Hd) in Hg as (d & Hd' & _ & Hg). rewrite (Hno d g Hd' Hg) in Hc. done. }
  rewrite Hown, Hex. unfold local_name. tauto.
Qed.

Lemma configForService_steps cfg c : configForService cfg = Ok c → service_config cfg c.
Proof.
  intros H. unfold configForService in H.
  apply bind_ok_inv in H as ([byP byD] & Hd%add_domains & H). apply bind_ok_inv in H as ([hosts ex] & Hr%add_records & H).
  apply bind_ok_inv in H as ([defaults routes] & Hc%add_config_routes & H).
  apply bind_ok_inv in H as ([search seen] & (Hsn & Hsf & _)%add_search_domains & [= <-]).
  pose proof (base_routes cfg byP byD hosts ex) as Hbase.
  constructor; cbn [c_DefaultResolvers c_Hosts c_Routes c_SearchDomains fst snd] in *.
  - apply (do_parsed _ _ Hd).
  - intros d d' Hin Hin'. destruct (do_parsed _ _ Hd d Hin) as [_ [f Hf]], (do_parsed _ _ Hd d' Hin') as [_ [f' Hf']].
    rewrite Hf, Hf'. split.
    + intros Hid. rewrite <-(proj2 (do_profile _ _ Hd (dom_ProfileID d) f)) by eauto.
      rewrite <-(proj2 (do_profile _ _ Hd (dom_ProfileID d') f')) by eauto. by rewrite Hid.
    + intros [= ->]. assert (Some (dom_ProfileID d) = Some (dom_ProfileID d')) as [= ->]; [|done].
      rewrite <-(proj2 (do_owner _ _ Hd f' (dom_ProfileID d))) by eauto. apply (do_owner _ _ Hd). eauto.
  - intros r Hin. destruct (ro_known _ _ _ Hr r Hin) as (? & [g Hg] & ?). split_and!; [done..|].
    apply (do_profile _ _ Hd) in Hg as (d & ? & ? & _). eauto.
  - intros name ip. rewrite <-(ro_hosts _ _ _ Hr name ip). cbn [fst]. setoid_rewrite lookup_fmap.
    destruct (hosts !! name) as [ips|]; cbn [fmap option_fmap option_map from_option].
    + split; [intros (? & [= <-] & Hin); by apply elem_of_go_sort in Hin|]. intros Hin. eexists. split; [done|]. by apply elem_of_go_sort.
    + split; [by intros (? & ? & _)|]. by intros ?%elem_of_nil.
  - intros name ips. rewrite lookup_fmap. pose proof (ro_nodup _ _ _ Hr name) as Hn. cbn [fst] in Hn.
    destruct (hosts !! name) as [l|]; [|done]. cbn [fmap option_fmap option_map from_option] in *. intros [= <-].
    split; [by apply NoDup_go_sort|apply go_sort_sorted, _].
  - intros f rs. rewrite (cr_routes _ _ _ Hc), Hbase by done. done.
  - intros f rt Hl Hin Hf Hs. apply (cr_base _ _ _ Hc f [] rt); [|done..]. by apply Hbase.
  - apply (cr_defaults _ _ _ Hc).
  - done.
  - done.
Qed.

(** What the resolver library is given.  A configuration that is accepted
    gives each profile one suffix and each suffix one profile; a name resolves
    to exactly the addresses of its records, each once; a suffix is routed to
    the resolvers of its route, and to nobody (answered here or not at all) when
    it is a record's name outside every profile's suffix; the resolvers of the
    root route are the default ones; and the search list is the plan's, once each. *)
Theorem configForService_sound (cfg : LiveConfig) (c : Config F) :
  configForService cfg = Ok c →
  (∀ d d', d ∈ lc_Domains cfg → d' ∈ lc_Domains cfg →
     dom_ProfileID d = dom_ProfileID d' ↔ fqdn_of (F:=F) (dom_Suffix d) = fqdn_of (dom_Suffix d')) ∧
  (∀ name ip, (∃ ips, c_Hosts c !! name = Some ips ∧ ip ∈ ips) ↔
     ∃ r, r ∈ lc_Records cfg ∧ fqdn_of (rec_Name r) = Some name ∧ rec_EffectiveIP r = ip) ∧
  (∀ name ips, c_Hosts c !! name = Some ips → NoDup ips ∧ StronglySorted (not_after addr.less) ips) ∧
  (∀ f rs, c_Routes c !! f = Some rs ↔
     (∃ rt, rt ∈ lc_Routes cfg ∧ f ≠ root ∧ fqdn_of (dr_Suffix rt) = Some f ∧ dr_Resolvers rt = rs) ∨
     ((∀ rt, rt ∈ lc_Routes cfg → fqdn_of (dr_Suffix rt) = Some f → f = root) ∧ rs = [] ∧ local_name cfg f)) ∧
  (∀ rs, c_DefaultResolvers c = Some rs ↔ ∃ rt, rt ∈ lc_Routes cfg ∧ fqdn_of (F:=F) (dr_Suffix rt) = Some root ∧ dr_Resolvers rt = rs) ∧
  NoDup (c_SearchDomains c) ∧
  (∀ f, f ∈ c_SearchDomains c ↔ f ≠ root ∧ ∃ raw, raw ∈ lc_SearchDomains cfg ∧ fqdn_of raw = Some f).
Proof. intros H%configForService_steps. split_and!; apply H. Qed.

(** Two profiles in one tailnet.  When the statuses of two profiles report
    the same MagicDNS suffix and each owns a name (say, a machine shared with it
    alone), the plan's configuration is refused as a whole, although the plan
    gives every name a single owner. *)
Theorem shared_suffix_refused (st : State) (statuses : list Status) (leases : list Lease) (policy : DNSPlan)
    (cfg : LiveConfig) (p p' suffix suffix' : string) (r r' : DNSRecord) :
  tiers_distinct policy → tunDNSLiveConfig st statuses leases policy = Ok cfg → p ≠ p' →
  suffix_by_profile statuses !! p = Some suffix → suffix_by_profile statuses !! p' = Some suffix' →
  fqdn_of (F:=F) suffix = fqdn_of suffix' →
  r ∈ lc_Records cfg → rec_ProfileID r = p → r' ∈ lc_Records cfg → rec_ProfileID r' = p' →
  is_ok (configForService cfg) = false.
Proof.
  intros Hdis Hcfg Hne Hs Hs' Hf Hr Hp Hr' Hp'. apply tunDNS_config in Hcfg.
  destruct (configForService cfg) as [c|] eqn:H; [|done]. apply configForService_steps in H. exfalso.
  assert (Hd : MkDomain p suffix true ∈ lc_Domains cfg).
  { apply (dc_domains _ _ _ _ _ Hcfg _ Hdis). cbn. split_and!; [done|by eapply suffix_by_profile_nonempty|done|left; eauto]. }
  assert (Hd' : MkDomain p' suffix' true ∈ lc_Domains cfg).
  { apply (dc_domains _ _ _ _ _ Hcfg _ Hdis). cbn. split_and!; [done|by eapply suffix_by_profile_nonempty|done|left; eauto]. }
  apply Hne. exact (proj2 (sc_domains _ _ H _ _ Hd Hd') Hf).
Qed.
End service_facts.

(** ** A concrete configuration *)

Lemma shared_suffix_refused_witness : is_ok (configForService (F:=option (list string)) corp_dns) = false.
Proof.
  assert (H : match lc_Records corp_dns with
              | r :: r' :: _ => String.eqb (rec_ProfileID r) "home" && String.eqb (rec_ProfileID r') "work"
              | _ => false
              end = true) by (vm_compute; reflexivity).
  destruct (lc_Records corp_dns) as [|r [|r' l]] eqn:E; [discriminate H|discriminate H|].
  apply andb_true_iff in H as [Hp%String.eqb_eq Hp'%String.eqb_eq].
  assert (Hr : r ∈ lc_Records corp_dns) by (rewrite E; left).
  assert (Hr' : r' ∈ lc_Records corp_dns) by (rewrite E; right; left).
  assert (Hs : suffix_by_profile corp_statuses !! "home" = Some "corp.ts.net") by (vm_compute; reflexivity).
  assert (Hs' : suffix_by_profile corp_statuses !! "work" = Some "corp.ts.net") by (vm_compute; reflexivity).
  exact (shared_suffix_refused corp_state corp_statuses corp_leases.1 corp_policy corp_dns "home" "work" "corp.ts.net" "corp.ts.net" r r'
    corp_tiers corp_dns_ok ltac:(discriminate) Hs Hs' eq_refl Hr Hp Hr' Hp').
Defined.

(** One profile's half of it is accepted. *)
Definition alpha_config : LiveConfig :=
  MkLiveConfig [MkDomain "home" "corp.ts.net" true]
    [MkRecord "home" "db.corp.ts.net" (Addr4 1686044674); MkRecord "home" "box.alpha.ts.net" (Addr4 1686044675)]
    [MkDNSRoute "." "home" true [MkResolver "100.64.0.5" [] false]; MkDNSRoute "corp.ts.net" "home" false []] ["corp.ts.net"; " CORP.ts.net"].
Lemma alpha_ok : is_ok (configForService (F:=option (list string)) alpha_config) = true.
Proof. vm_compute. reflexivity. Qed.
Lemma configForService_sound_witness : ∃ c : Config (option (list string)), configForService alpha_config = Ok c ∧
  NoDup (c_SearchDomains c) ∧ c_DefaultResolvers c = Some [MkResolver "100.64.0.5" [] false].
Proof.
  pose proof alpha_ok as Hok.
  destruct (configForService (F:=option (list string)) alpha_config) as [c|] eqn:E; [|discriminate Hok].
  pose proof (configForService_sound alpha_config c E) as (_ & _ & _ & _ & Hd & Hn & _).
  exists c. split; [reflexivity|]. split; [exact Hn|].
  apply Hd. exists (MkDNSRoute "." "home" true [MkResolver "100.64.0.5" [] false]).
  split; [left|]. split; [vm_compute; reflexivity|reflexivity].
Defined.
