(* ===== verification/TUNPlan.v ===== *)
(** * The plan

    cmd/tailmixd/main.go, [buildTUNPlan]: the state a daemon persists, its
    leases, its policies, its packet table, its host configuration and its
    resolver configuration, from the state it had and the statuses its engines
    report.  Every part is the definition of another file; here they meet. *)

From S2P Require Import Prelude GoStrings Netip RoutingTable PacketMap EffectiveIP DNSName State Types HostPools LeasePlan RoutingPolicy TUNTable TUNTableFacts DNSPolicy TUNDNS.
Import netip_facts.
Local Open Scope Z_scope.

Inductive plan_error : Type :=
  | EPlanPool (e : pool_error)
  | EPlanLease (e : lease_error)
  | EPlanTable (e : tun_error)
  | EPlanDNS (e : dns_error).

(** A profile remembers the last MagicDNS suffix its engine reported. *)
Definition set_suffix (p : Profile) (suffix : string) : Profile :=
  MkProfile (pr_ID p) (pr_Name p) (pr_Alias p) (pr_Kind p) (pr_StateDir p) (pr_Hostname p) suffix (pr_Disabled p)
    (pr_Removed p) (pr_AcceptAllRoutes p) (pr_AcceptAllDNSRoutes p) (pr_WireGuard p) (pr_WireGuardSecretFile p)
    (pr_WireGuardShieldsUp p).
Definition update_suffix (byID : gmap string Status) (p : Profile) : Profile :=
  match byID !! pr_ID p with
  | Some ps => if negb (String.eqb (s_MagicDNSSuffix ps) "") then set_suffix p (s_MagicDNSSuffix ps) else p
  | None => p
  end.
Definition updateProfileMetadata (st : State) (statuses : list Status) : State :=
  set_Profiles st (update_suffix (status_by_id statuses) <$> st_Profiles st).

Section plan.
Context {T : Type → Type} `{LPM T} {F : Type} `{DNSName F} (CGNATRange TailscaleULARange : Prefix) (ServiceIP : Addr).

Record tunPlan : Type := MkPlan {
  pl_State : State; pl_Statuses : list Status; pl_ActiveLeases : list Lease; pl_IPPolicy : IPPlan;
  pl_DNSPolicy : DNSPlan; pl_Table : Table T; pl_HostConfig : HostConfig; pl_DNSConfig : LiveConfig;
  pl_Domains : list DNSDomain; pl_Records : list DNSRecord }.

Definition buildTUNPlan (st : State) (statuses : list Status) : result plan_error tunPlan :=
  let st := updateProfileMetadata st statuses in
  st ← wrap EPlanPool (ensureHostIPs ServiceIP st);
  '(activeLeases, allLeases) ← wrap EPlanLease (assignEffectiveIPs st statuses);
  let st := set_Leases st (leasesToState allLeases) in
  let ipPolicy := BuildIP CGNATRange TailscaleULARange st statuses in
  let dnsPolicy := BuildDNS st statuses in
  '(table, hostCfg) ← wrap EPlanTable
    (tunConfigWithPolicy (T:=T) CGNATRange TailscaleULARange ServiceIP st statuses activeLeases ipPolicy);
  dnsConfig ← wrap EPlanDNS (tunDNSLiveConfig st statuses activeLeases dnsPolicy);
  Ok (MkPlan st statuses activeLeases ipPolicy dnsPolicy table hostCfg dnsConfig (lc_Domains dnsConfig) (lc_Records dnsConfig)).

Definition tunDNSConfig (st : State) (statuses : list Status) (leases : list Lease) :
    result dns_error (list DNSDomain * list DNSRecord) :=
  cfg ← tunDNSLiveConfig st statuses leases (BuildDNS st statuses);
  Ok (lc_Domains cfg, lc_Records cfg).
Definition tunConfig (st : State) (statuses : list Status) (leases : list Lease) : result tun_error (Table T * HostConfig) :=
  tunConfigWithPolicy (T:=T) CGNATRange TailscaleULARange ServiceIP st statuses leases
    (BuildIP CGNATRange TailscaleULARange st statuses).
End plan.
Arguments tunPlan T : clear implicits.

Section facts.
Context {T : Type → Type} `{LT : LPM T, !LPMLaws T} {F : Type} `{DN : DNSName F}.
Context (CGNATRange TailscaleULARange : Prefix) (ServiceIP : Addr) (pool : bool → Prefix).
Local Notation buildTUNPlan := (buildTUNPlan (T:=T) (F:=F) CGNATRange TailscaleULARange ServiceIP).
Local Notation overlaps := (TUNTable.routeOverlapsReserved CGNATRange TailscaleULARange ServiceIP).

Record planned (st : State) (statuses : list Status) (p : tunPlan T) (st1 : State) (all : list Lease) : Prop := {
  pn_hosts : ensureHostIPs ServiceIP (updateProfileMetadata st statuses) = Ok st1;
  pn_leases : assignEffectiveIPs st1 statuses = Ok (pl_ActiveLeases p, all);
  pn_state : pl_State p = set_Leases st1 (leasesToState all);
  pn_ip : pl_IPPolicy p = BuildIP CGNATRange TailscaleULARange (pl_State p) statuses;
  pn_dns : pl_DNSPolicy p = BuildDNS (pl_State p) statuses;
  pn_table : tunConfigWithPolicy (T:=T) CGNATRange TailscaleULARange ServiceIP (pl_State p) statuses
    (pl_ActiveLeases p) (pl_IPPolicy p) = Ok (pl_Table p, pl_HostConfig p);
  pn_config : tunDNSLiveConfig (pl_State p) statuses (pl_ActiveLeases p) (pl_DNSPolicy p) = Ok (pl_DNSConfig p) }.
Lemma plan_steps st statuses p : buildTUNPlan st statuses = Ok p → ∃ st1 all, planned st statuses p st1 all.
Proof.
  intros H. unfold TUNPlan.buildTUNPlan in H. apply bind_ok_inv in H as (st1 & H1%wrap_ok_inv & H).
  apply bind_ok_inv in H as ([act all] & H2%wrap_ok_inv & H). apply bind_ok_inv in H as ([tb hc] & H3%wrap_ok_inv & H).
  apply bind_ok_inv in H as (dc & H4%wrap_ok_inv & [= <-]). by exists st1, all.
Qed.

(** *** What a plan changes in the state *)

Lemma update_suffix_again byID p : update_suffix byID (update_suffix byID p) = update_suffix byID p.
Proof.
  unfold update_suffix at 2 3. destruct (byID !! pr_ID p) as [ps|] eqn:E; [|unfold update_suffix; by rewrite E].
  destruct (negb _) eqn:En; unfold update_suffix; cbn [pr_ID set_suffix]; by rewrite E, En.
Qed.
Lemma updateProfileMetadata_again st st' statuses : st_Profiles st' = st_Profiles (updateProfileMetadata st statuses) →
  updateProfileMetadata st' statuses = st'.
Proof.
  intros E. unfold updateProfileMetadata. rewrite E. cbn [updateProfileMetadata st_Profiles set_Profiles].
  rewrite <-list_fmap_compose. rewrite (list_fmap_ext _ (update_suffix (status_by_id statuses))).
  2:{ intros _ x _. apply update_suffix_again. }
  destruct st'. cbn in *. by rewrite <-E.
Qed.

Section of_plan.
Context (st : State) (statuses : list Status) (p : tunPlan T) (st1 : State) (all : list Lease).
Hypothesis Hplan : planned st statuses p st1 all.
Hypothesis Hpools : pools_ok ServiceIP st pool.
Hypothesis Hu : leases_unique (leasesFromState (st_Leases st)).

Lemma pools_metadata : pools_ok ServiceIP (updateProfileMetadata st statuses) pool.
Proof using Hpools. intros ipv6. by destruct (Hpools ipv6), ipv6. Qed.
Lemma plan_hosts : ∃ a b c, let leased := leased_ips (st_Leases st) in
  st1 = set_DNSIP (set_NATIPv6 (set_NATIP (updateProfileMetadata st statuses) a) b) c ∧
  reservable (pool false) leased a ∧ reservable (pool true) ({[a]} ∪ leased) b ∧ reservable (pool false) ({[b]} ∪ ({[a]} ∪ leased)) c.
Proof using Hplan Hpools.
  destruct (ensure_steps ServiceIP pool _ _ pools_metadata (pn_hosts _ _ _ _ _ Hplan)) as (a & b & c & Hst & Ha & Hb & Hc & _).
  by exists a, b, c.
Qed.
Lemma plan_leases : lease_plan st1 (leaseTargets statuses) (pl_ActiveLeases p) all.
Proof using Hplan Hpools Hu.
  apply assign_plan; [|apply (pn_leases _ _ _ _ _ Hplan)]. destruct plan_hosts as (a & b & c & -> & _). exact Hu.
Qed.
Lemma plan_pools ipv6 : ParsePrefix (pool_text ipv6 (pl_State p)) = Some (pool ipv6).
Proof using Hplan Hpools.
  rewrite (pn_state _ _ _ _ _ Hplan). destruct plan_hosts as (a & b & c & -> & _). by destruct (Hpools ipv6), ipv6.
Qed.
Lemma pools_st1 ipv6 : pool_text ipv6 st1 = pool_text ipv6 (pl_State p).
Proof using Hplan. rewrite (pn_state _ _ _ _ _ Hplan). by destruct ipv6. Qed.
Lemma plan_nat : addr.Is6 (st_NATIP (pl_State p)) = false ∧ addr.Is6 (st_NATIPv6 (pl_State p)) = true.
Proof using Hplan Hpools.
  rewrite (pn_state _ _ _ _ _ Hplan). destruct plan_hosts as (a & b & c & -> & [Ha _] & [Hb _] & _). cbn.
  rewrite <-(po_family _ _ _ (proj1 (Hpools false))), <-(po_family _ _ _ (proj1 (Hpools true))).
  split; apply Is6_BitLen; by apply Contains_BitLen.
Qed.
Lemma plan_plain : Forall lease_plain (pl_ActiveLeases p).
Proof using Hplan Hpools Hu.
  apply Forall_forall. intros l Hl. destruct (lp_pool _ _ _ _ plan_leases l Hl) as (_ & Hf & _ & (q & Hq & Hc) & _).
  split; [|done]. eapply Contains_plain; [|exact Hc]. by apply ParsePrefix_wf in Hq as [? _].
Qed.

Lemma elem_of_leased_ips ls ip : ip ∈ leased_ips ls ↔ addr.IsValid ip = true ∧ ∃ l, l ∈ ls ∧ el_EffectiveIP l = ip.
Proof.
  unfold leased_ips. rewrite elem_of_list_to_set, list_elem_of_filter, list_elem_of_fmap.
  split; intros [? (l & ? & ?)]; split; eauto.
Qed.
(** What the daemon reserves stays reserved once the leases are made. *)
Lemma plan_leased ip : ip ∈ leased_ips (st_Leases (pl_State p)) → addr.IsValid ip = true ∧
  (ip ∈ leased_ips (st_Leases st) ∨ ip ∉ family_reserved (addr.Is6 ip) st1).
Proof using Hplan Hpools Hu.
  rewrite (pn_state _ _ _ _ _ Hplan). cbn [st_Leases set_Leases]. intros [Hv (x & (l & -> & Hl)%list_elem_of_fmap & <-)]%elem_of_leased_ips.
  split; [done|]. cbn [lease_to_state el_EffectiveIP] in *. apply (lp_all _ _ _ _ plan_leases) in Hl as [Hl|[Hl _]].
  - right. by destruct (lp_pool _ _ _ _ plan_leases l Hl) as (_ & _ & _ & _ & ?).
  - left. apply elem_of_leased_ips. split; [done|].
    destruct plan_hosts as (a & b & c & Hst & _). rewrite Hst in Hl. cbn in Hl.
    apply list_elem_of_fmap in Hl as (y & -> & [_ Hy]%list_elem_of_filter). by exists y.
Qed.
Lemma plan_hosts_again p' st1' all' : planned (pl_State p) statuses p' st1' all' → st1' = pl_State p.
Proof using Hplan Hpools Hu LPMLaws0.
  intros Hplan'. pose proof (pn_hosts _ _ _ _ _ Hplan') as H'. rewrite (updateProfileMetadata_again st) in H'.
  2:{ rewrite (pn_state _ _ _ _ _ Hplan). destruct plan_hosts as (a & b & c & -> & _). reflexivity. }
  assert (Hpl : pools_ok ServiceIP (pl_State p) pool) by (intros ipv6; split; [apply Hpools|apply plan_pools]).
  pose proof plan_leased as Hleased. destruct plan_hosts as (a & b & c & Est & (Ha & Hab & Hal) & (Hb & Hbb & Hbl) & (Hc & Hcb & Hcl)).
  assert (Hip : st_NATIP st1 = a ∧ st_NATIPv6 st1 = b ∧ st_DNSIP st1 = c) by (by rewrite Est).
  assert (Hfam : ∀ ipv6 ip, prefix.Contains (pool ipv6) ip = true → addr.Is6 ip = ipv6).
  { intros ipv6 ip Hip'%Contains_BitLen%Is6_BitLen. rewrite Hip'. exact (po_family ServiceIP _ _ (proj1 (Hpools ipv6))). }
  assert (Hno : ∀ ipv6 ip, prefix.Contains (pool ipv6) ip = true → ip ∉ leased_ips (st_Leases st) → ip ∈ family_reserved ipv6 st1 →
    ip ∉ leased_ips (st_Leases (pl_State p))).
  { intros ipv6 ip Hc1 Hl1 Hr1 [_ [?|Hr2]]%Hleased; [done|]. by rewrite (Hfam _ _ Hc1) in Hr2. }
  destruct Hip as (Ea & Eb & Ec). clear Est.
  rewrite (ensure_fix ServiceIP pool) in H'; [congruence|done|..]; rewrite (pn_state _ _ _ _ _ Hplan) in Hno |- *;
    cbn [st_NATIP st_NATIPv6 st_DNSIP set_Leases] in *; rewrite ?Ea, ?Eb, ?Ec; split_and!; try done.
  - apply (Hno false); [done..|]. cbn. rewrite Ea. left.
  - intros [Heq%elem_of_singleton|Hin]%elem_of_union; [set_solver|]. revert Hin. apply (Hno true); [done|set_solver|]. cbn. rewrite Eb. left.
  - intros [Heq%elem_of_singleton|[Heq%elem_of_singleton|Hin]%elem_of_union]%elem_of_union; [set_solver..|].
    revert Hin. apply (Hno false); [done|set_solver|]. cbn. rewrite Ec. right. left.
Qed.
(** The same targets get the same leases. *)
Lemma leases_again st2 active' all' : (∀ l, keepable st1 l → keepable st2 l) → leasesFromState (st_Leases st2) = all →
  lease_plan st2 (leaseTargets statuses) active' all' → ∀ l, l ∈ all ↔ l ∈ all'.
Proof using Hplan Hpools Hu.
  intros Hkeep Hall Hlp'. pose proof plan_leases as Hlp.
  assert (Hsub : ∀ l, l ∈ pl_ActiveLeases p → l ∈ active').
  { intros l Hl. apply (lp_kept _ _ _ _ Hlp').
    - rewrite Hall. apply (lp_all _ _ _ _ Hlp). by left.
    - apply Hkeep. by destruct (lp_pool _ _ _ _ Hlp l Hl).
    - destruct (lp_key _ _ _ _ Hlp l Hl) as (n & ? & <-). by apply list_elem_of_fmap_2. }
  assert (Hsup : ∀ l, l ∈ active' → l ∈ pl_ActiveLeases p).
  { intros l Hl. destruct (lp_key _ _ _ _ Hlp' l Hl) as (n & Hn & Hk). destruct (lp_nodes _ _ _ _ Hlp n Hn) as [ip Hip].
    by rewrite <-(lp_fun _ _ _ _ Hlp' _ _ (Hsub _ Hip) Hl Hk). }
  intros l. rewrite (lp_all _ _ _ _ Hlp'), Hall, (lp_all _ _ _ _ Hlp).
  split; [intros [?|[? ?]]|intros [?|[[?|[? ?]] ?]]]; auto.
Qed.
(** The target behind a leased address. *)
Lemma plan_lease_reaches s t c eff : Forall status_plain statuses → s ∈ statuses → t ∈ reachableTargets s → c ∈ t_IPs t →
  MkLease (MkKey (s_ProfileID s) (t_ID t) c) eff ∈ pl_ActiveLeases p →
  destination_of (pl_Table p) eff = Some (MkDestination (s_ProfileID s) c) ∧ addr.Is6 eff = addr.Is6 c ∧
  (∃ src, Sources (pl_Table p) !! sourceKey (s_ProfileID s) c = Some src ∧ s_HostIP src = natIPFor (pl_State p) c ∧
          addr.Is6 (s_CanonicalIP src) = addr.Is6 c) ∧
  plain_route (host_prefix eff) (natIPFor (pl_State p) eff) ∈ hc_Routes (pl_HostConfig p).
Proof using Hplan Hpools Hu LPMLaws0.
  intros Hs Hin Ht Hc Hlease. pose proof (pn_table _ _ _ _ _ Hplan) as Htab.
  apply tunConfig_steps in Htab as (byKey & b0 & b & Hcfg & -> & -> & _); [|apply plan_plain|done].
  destruct (target_reachable _ _ _ _ _ _ _ _ _ _ Hcfg plan_plain s t c Hin Ht Hc) as (eff' & src & Hl' & Hd & Hsrc & Hhost & Hfam & Hr).
  pose proof (lp_fun _ _ _ _ plan_leases _ _ Hlease Hl' eq_refl) as [= ->].
  pose proof (proj1 (Forall_forall _ _) plan_plain _ Hl') as [_ He]. split_and!; [done|done|by exists src|].
  apply elem_of_app. auto.
Qed.
End of_plan.

(** C6. A name leads to its machine.  Every record of the plan's resolver is the
    name of the daemon itself, at its own address of the family, or the name of
    a target of the record's profile, at an effective address that the plan's
    table maps to that profile and to that target's own address: the host has a
    route to it, and the host's packets to it go out there, rewritten. *)
Theorem name_reaches {Pkt} `{PP : Packets Pkt, !PacketLaws Pkt} (st : State) (statuses : list Status) (p : tunPlan T) (r : DNSRecord) :
  pools_ok ServiceIP st pool → leases_unique (leasesFromState (st_Leases st)) → Forall status_plain statuses → Forall self_plain statuses →
  buildTUNPlan st statuses = Ok p → r ∈ lc_Records (pl_DNSConfig p) →
  ∃ s, s ∈ statuses ∧ s_ProfileID s = rec_ProfileID r ∧
  ((rec_Name r = s_SelfDNSName s ∧ rec_EffectiveIP r ∈ [st_NATIP (pl_State p); st_NATIPv6 (pl_State p)]) ∨
   ∃ t c, t ∈ reachableTargets s ∧ rec_Name r = t_DNSName t ∧ c ∈ t_IPs t ∧
     plain_route (host_prefix (rec_EffectiveIP r)) (natIPFor (pl_State p) (rec_EffectiveIP r)) ∈ hc_Routes (pl_HostConfig p) ∧
     ∀ (pkt : Pkt) v, Decode pkt = MkParsed v (natIPFor (pl_State p) c) (rec_EffectiveIP r) → v ≠ 0%nat →
       ∃ pkt', Outbound (pl_Table p) pkt = (pkt', Ok (MkRoute (rec_ProfileID r) c false)) ∧ Dst (Decode pkt') = c).
Proof.
  intros Hpools Hu Hs Hself (st1 & all & Hplan)%plan_steps Hr.
  pose proof (tunDNS_config _ _ _ _ _ (pn_config _ _ _ _ _ Hplan)) as Hdns.
  apply (dc_records _ _ _ _ _ Hdns) in Hr as [(s & Hin & _ & Hid & _ & _ & Hoff) _]. exists s. split_and!; [done|done|].
  destruct Hoff as [(Hn & ip & _ & ->)|(t & c & Ht & Hn & Hc & Hl)]; [left; split; [done|]|right].
  { unfold natIPFor, nat_ip. destruct (addr.Is6 ip); [right; left|left]. }
  destruct (plan_lease_reaches _ _ _ _ _ Hplan Hpools Hu s t c _ Hs Hin Ht Hc Hl) as (Hd & Hf & (src & Hsrc & Hhost & Hfam) & Hroute).
  exists t, c. split_and!; [done..|]. intros pkt v Hdec Hv. destruct (plan_nat _ _ _ _ _ Hplan Hpools) as [H4 H6].
  assert (Fs : addr.Is6 (natIPFor (pl_State p) c) = addr.Is6 c) by (unfold natIPFor, nat_ip; by destruct (addr.Is6 c)).
  pose proof (pn_table _ _ _ _ _ Hplan) as Htab.
  apply tunConfig_steps in Htab as (byKey & b0 & b & Hcfg & Etab & _); [|by apply (plan_plain _ _ _ _ _ Hplan)|done]. rewrite Etab in *.
  assert (plain_addr c = true) as Hplain.
  { exact (proj1 (Forall_forall _ _) (proj1 (Forall_forall _ _) (proj1 (Forall_forall _ _) Hs s Hin) t Ht) c Hc). }
  assert (plain_addr (s_CanonicalIP src) = true) as Hsp.
  { apply (own_source_plain statuses (Sources (table_of b)) (sourceKey (s_ProfileID s) c)); [done| |done].
    cbn [table_of Sources]. rewrite (sm_src _ _ (cf_same _ _ _ _ _ _ _ _ _ _ Hcfg)). apply (cf_sources _ _ _ _ _ _ _ _ _ _ Hcfg). }
  destruct (outbound_target (table_of b) pkt (s_ProfileID s) c src) as (pkt' & HO & Hdec'); rewrite ?Hdec; try done.
  exists pkt'. rewrite Hid. split; [done|]. by rewrite Hdec'.
Qed.

(** C7. The state a plan persists is settled.  Its leases share no target and no
    address, its pools are those of the state before, and a plan made from it for
    the same statuses persists it unchanged: nothing moves until a status does. *)
Theorem plan_settled (st : State) (statuses : list Status) (p : tunPlan T) :
  pools_ok ServiceIP st pool → leases_unique (leasesFromState (st_Leases st)) → Forall (λ s, s_ProfileID s ≠ "") statuses →
  buildTUNPlan st statuses = Ok p →
  leases_unique (leasesFromState (st_Leases (pl_State p))) ∧ pools_ok ServiceIP (pl_State p) pool ∧
  ∀ p', buildTUNPlan (pl_State p) statuses = Ok p' → pl_State p' = pl_State p.
Proof.
  intros Hpools Hu Hids (st1 & all & Hplan)%plan_steps.
  pose proof (plan_leases _ _ _ _ _ Hplan Hpools Hu) as Hlp.
  assert (Hleases : leasesFromState (st_Leases (pl_State p)) = all).
  { rewrite (pn_state _ _ _ _ _ Hplan). by apply (plan_roundtrip _ _ _ _ Hids Hlp). }
  assert (Hu' : leases_unique (leasesFromState (st_Leases (pl_State p)))) by (rewrite Hleases; apply (lp_unique _ _ _ _ Hlp)).
  assert (Hpl : pools_ok ServiceIP (pl_State p) pool).
  { intros ipv6. split; [apply Hpools|by apply (plan_pools _ _ _ _ _ Hplan)]. }
  split_and!; [done|done|]. intros p' (st1' & all' & Hplan')%plan_steps.
  pose proof (plan_leases _ _ _ _ _ Hplan' Hpl Hu') as Hlp'.
  assert (Hst : st1' = pl_State p) by (by apply (plan_hosts_again _ _ _ _ _ Hplan Hpools Hu p' st1' all')).
  assert (Hall : all = all').
  { apply (all_leases_unique _ _ _ _ _ _ _ _ Hlp Hlp'). apply (leases_again _ _ _ _ _ Hplan Hpools Hu st1' (pl_ActiveLeases p') all'); [|by rewrite Hst|done].
    intros l. by rewrite Hst, (pn_state _ _ _ _ _ Hplan). }
  rewrite (pn_state _ _ _ _ _ Hplan'), Hst, <-Hall, (pn_state _ _ _ _ _ Hplan). done.
Qed.

(** One binding that meets a reserved range stops the whole plan: the routing
    policy keeps such a binding waiting, but the table refuses it, so no table,
    host configuration or resolver configuration is made for anybody. *)
Theorem conflict_refuses_plan (st : State) (statuses : list Status) (b : State.IPRouteBinding) (ipv6 : bool) :
  pools_ok ServiceIP st pool → b ∈ st_IPRouteBindings st → prefixesOverlap (prefix.Masked (ib_Prefix b)) (pool ipv6) = true →
  is_ok (buildTUNPlan st statuses) = false ∧
  ∃ e, e ∈ ip_Exact (BuildIP CGNATRange TailscaleULARange st statuses) ∧
       ie_Prefix e = prefix.Masked (ib_Prefix b) ∧ ie_Active e = false.
Proof.
  intros Hpools Hb Hov.
  assert (Hentry : ∀ st', ParsePrefix (pool_text ipv6 st') = Some (pool ipv6) → st_IPRouteBindings st' = st_IPRouteBindings st →
    ∃ e, e ∈ ip_Exact (BuildIP CGNATRange TailscaleULARange st' statuses) ∧
         ie_Prefix e = prefix.Masked (ib_Prefix b) ∧ ie_Active e = false).
  { intros st' Hp Hbs. eexists. split; [rewrite BuildIP_Exact_perm; unfold exact_entries; apply list_elem_of_fmap_2; by rewrite Hbs|].
    edestruct exact_entry_fields as (-> & _ & Ha). split; [done|]. apply not_true_is_false. intros [Hf _]%Ha.
    apply not_true_iff_false in Hf. apply Hf. unfold RoutingPolicy.routeOverlapsReserved. rewrite orb_true_iff. left. rewrite orb_true_iff. right.
    apply existsb_exists. exists (pool_text ipv6 st'). split; [destruct ipv6; simpl; auto|]. by rewrite Hp. }
  split; [|apply Hentry; [apply Hpools|done]]. destruct (buildTUNPlan st statuses) as [p|] eqn:H; [|done]. exfalso.
  apply plan_steps in H as (st1 & all & Hplan). pose proof (plan_pools _ _ _ _ _ Hplan Hpools ipv6) as Hpool.
  destruct (Hentry (pl_State p) Hpool) as (e & He & Hep & _).
  { rewrite (pn_state _ _ _ _ _ Hplan). by destruct (plan_hosts _ _ _ _ _ Hplan Hpools) as (? & ? & ? & -> & _). }
  rewrite <-(pn_ip _ _ _ _ _ Hplan) in He. pose proof (pn_table _ _ _ _ _ Hplan) as Htab.
  unfold tunConfigWithPolicy in Htab. ok_inv Htab as byKey _. ok_inv Htab as b0 _. ok_inv Htab as b2 Hx. clear Htab.
  apply exact_loop in Hx. destruct (xk_free _ _ _ _ _ _ _ Hx e He) as [Hfree _]. apply not_true_iff_false in Hfree. apply Hfree.
  unfold TUNTable.routeOverlapsReserved. rewrite orb_true_iff. left. rewrite orb_true_iff. right.
  apply existsb_exists. exists (pool_text ipv6 (pl_State p)). split; [destruct ipv6; simpl; auto|]. by rewrite Hpool, Hep.
Qed.
End facts.

(** ** A concrete plan *)

Definition corp_plan : result plan_error (tunPlan PrefixMap) :=
  buildTUNPlan (F:=option (list string)) test_cgnat test_ula service_ip corp_state corp_statuses.
Example corp_plan_value :
  match corp_plan with
  | Ok p => bool_decide (((λ r, (rec_ProfileID r, rec_Name r)) <$> pl_Records p) = [("home", "box.alpha.ts.net"); ("work", "box.beta.ts.net")]) &&
            bool_decide (dom_Suffix <$> pl_Domains p = ["corp.ts.net"; "corp.ts.net"])
  | Err _ => false
  end = true.
Proof. vm_compute. reflexivity. Qed.
Lemma corp_pools : pools_ok service_ip corp_state default_prefix.
Proof. intros ipv6. destruct (default_pools_ok ipv6) as [Hp _]. split; [exact Hp|]. by destruct ipv6; vm_compute. Qed.
Lemma corp_plan_ok : is_ok corp_plan = true.
Proof. vm_compute. reflexivity. Qed.
Lemma name_reaches_witness : ∃ p r s, corp_plan = Ok p ∧ rec_Name r = "box.alpha.ts.net" ∧ s ∈ corp_statuses ∧ s_ProfileID s = rec_ProfileID r.
Proof.
  assert (Hr : match corp_plan with
               | Ok p => match lc_Records (pl_DNSConfig p) !! 0%nat with Some r => String.eqb (rec_Name r) "box.alpha.ts.net" | None => false end
               | Err _ => false
               end = true) by (vm_compute; reflexivity).
  destruct corp_plan as [p|] eqn:E; [|discriminate Hr].
  destruct (lc_Records (pl_DNSConfig p) !! 0%nat) as [r|] eqn:Hl; [|discriminate Hr].
  apply String.eqb_eq in Hr as Hn. apply list_elem_of_lookup_2 in Hl. unfold corp_plan in E.
  destruct (name_reaches (LT:=PrefixMap_LPM) (Pkt:=Parsed * string) test_cgnat test_ula service_ip default_prefix corp_state corp_statuses p r
    corp_pools corp_unique corp_statuses_plain corp_selfs_plain E Hl) as (s & Hs & Hid & _).
  exists p, r, s. split_and!; [reflexivity|exact Hn|exact Hs|exact Hid].
Defined.
Lemma plan_settled_witness : ∃ p, corp_plan = Ok p ∧ leases_unique (leasesFromState (st_Leases (pl_State p))).
Proof.
  pose proof corp_plan_ok as Hok. destruct corp_plan as [p|] eqn:E; [|discriminate Hok]. unfold corp_plan in E.
  exists p. split; [reflexivity|].
  exact (proj1 (plan_settled (LT:=PrefixMap_LPM) test_cgnat test_ula service_ip default_prefix corp_state corp_statuses p
    corp_pools corp_unique corp_ids E)).
Defined.
(** A binding inside the IPv4 pool. *)
Definition conflict_binding : State.IPRouteBinding := MkIPBinding (MkPrefix (Addr4 1686044928) 24) "work".
Lemma conflict_refuses_plan_witness :
  is_ok (buildTUNPlan (T:=PrefixMap) (F:=option (list string)) test_cgnat test_ula service_ip
    (set_IPRouteBindings corp_state [conflict_binding]) corp_statuses) = false.
Proof.
  assert (Hp : pools_ok service_ip (set_IPRouteBindings corp_state [conflict_binding]) default_prefix).
  { intros ipv6. destruct (corp_pools ipv6) as [Hp Ht]. split; [exact Hp|]. destruct ipv6; exact Ht. }
  exact (proj1 (conflict_refuses_plan (LT:=PrefixMap_LPM) test_cgnat test_ula service_ip default_prefix
    (set_IPRouteBindings corp_state [conflict_binding]) corp_statuses conflict_binding false Hp ltac:(left) ltac:(vm_compute; reflexivity))).
Defined.
