(* ===== verification/HostTUN.v ===== *)
(** * The host's side of the TUN

    hosttun/hosttun.go: the configuration a host TUN is given, brought into
    normal form or refused, and the comparison of what a host has with what it
    should have.  The host configuration of a plan ([TUNTable]) meets it here. *)

From S2P Require Import Prelude GoStrings Netip RoutingTable PacketMap EffectiveIP State Types HostPools LeasePlan RoutingPolicy TUNTable TUNTableFacts.
Import netip_facts.
Local Open Scope Z_scope.

#[export] Instance HostRoute_eq_dec : EqDecision HostRoute.
Proof. solve_decision. Defined.

(** ** Normal form *)

Inductive host_error : Type :=
  | ELocalAddr (p : Prefix)
  | EDestination (p : Prefix)
  | ESourceFamily (destination : Prefix) (source : Addr)
  | ESourceLocal (destination : Prefix) (source : Addr)
  | EConflictSources (destination : Prefix) (a b : Addr)
  | EConflictRoutes (a b : HostRoute).

Definition local_step (locals : gmap Addr Prefix) (p : Prefix) : result host_error (gmap Addr Prefix) :=
  _ ← guard_err (negb (prefix.IsValid p) || negb (p_bits p =? addr.BitLen (p_addr p))) (ELocalAddr p);
  Ok (<[p_addr p := p]> locals).
Definition masked_route (r : HostRoute) : HostRoute :=
  MkHostRoute (prefix.Masked (hr_Destination r)) (hr_Source r) (hr_Exit r) (hr_Optional r).
Definition same_definition (existing route : HostRoute) : result host_error unit :=
  if bool_decide (existing = route) then Ok tt
  else if bool_decide (hr_Source existing = hr_Source route) then Err (EConflictRoutes existing route)
  else Err (EConflictSources (hr_Destination route) (hr_Source existing) (hr_Source route)).
Definition route_step (locals : gmap Addr Prefix) (routes : gmap Prefix HostRoute) (r : HostRoute) :
    result host_error (gmap Prefix HostRoute) :=
  _ ← guard_err (negb (prefix.IsValid (hr_Destination r))) (EDestination (hr_Destination r));
  let route := masked_route r in
  let destination := hr_Destination route in
  _ ← guard_err (negb (addr.IsValid (hr_Source route)) || negb (eqb (addr.Is6 (hr_Source route)) (addr.Is6 (p_addr destination))))
    (ESourceFamily destination (hr_Source route));
  _ ← guard_err (match locals !! hr_Source route with Some _ => false | None => true end) (ESourceLocal destination (hr_Source route));
  _ ← (match routes !! destination with Some existing => same_definition existing route | None => Ok tt end);
  Ok (<[destination := route]> routes).
Definition local_less (p q : Prefix) : bool := addr.less (p_addr p) (p_addr q).
Definition route_less (a b : HostRoute) : bool := prefix_less (hr_Destination a) (hr_Destination b).
Definition normalizeConfig (cfg : HostConfig) : result host_error (list Prefix * list HostRoute) :=
  locals ← foldM local_step (hc_LocalAddrs cfg) ∅;
  routes ← foldM (route_step locals) (hc_Routes cfg) ∅;
  Ok (go_sort local_less (map_to_list locals).*2, go_sort route_less (map_to_list routes).*2).

(** ** Comparison *)

Inductive verify_error : Type :=
  | EUnexpectedAddr (p : Prefix) | EMissingAddr (p : Prefix)
  | EUnexpectedRoute (destination : Prefix) | EWrongRoute (destination : Prefix) | EMissingRoute (destination : Prefix).
(** A map by destination, filled in order. *)
Definition by_destination (routes : list HostRoute) : gmap Prefix HostRoute :=
  foldl (λ m r, <[hr_Destination r := r]> m) ∅ routes.
Definition check_route (want : gmap Prefix HostRoute) (route : HostRoute) : list verify_error :=
  match want !! hr_Destination route with
  | None => [EUnexpectedRoute (hr_Destination route)]
  | Some w =>
    if hr_Optional w then []
    else if negb (bool_decide (hr_Source route = hr_Source w)) || negb (eqb (hr_Exit route) (hr_Exit w))
    then [EWrongRoute (hr_Destination route)] else []
  end.
Definition verifyHostConfig (wantAddrs : list Prefix) (wantRoutes : list HostRoute) (gotAddrs : list Prefix) (gotRoutes : list HostRoute) :
    list verify_error :=
  (gotAddrs ≫= λ p, if p ∈? wantAddrs then [] else [EUnexpectedAddr p]) ++
  (wantAddrs ≫= λ p, if p ∈? gotAddrs then [] else [EMissingAddr p]) ++
  (gotRoutes ≫= check_route (by_destination wantRoutes)) ++
  (wantRoutes ≫= λ w, if hr_Optional w then []
     else match by_destination gotRoutes !! hr_Destination w with Some _ => [] | None => [EMissingRoute (hr_Destination w)] end).

(** ** What a normal form is *)

Definition host_local (p : Prefix) : Prop := prefix.IsValid p = true ∧ p_bits p = addr.BitLen (p_addr p).
Definition route_ok (locals : list Prefix) (r : HostRoute) : Prop :=
  prefix.IsValid (hr_Destination r) = true ∧ addr.IsValid (hr_Source r) = true ∧
  addr.Is6 (hr_Source r) = addr.Is6 (p_addr (hr_Destination (masked_route r))) ∧ hr_Source r ∈ p_addr <$> locals.
(** The configurations that are accepted. *)
Record config_ok (cfg : HostConfig) : Prop := {
  co_locals : Forall host_local (hc_LocalAddrs cfg);
  co_routes : Forall (route_ok (hc_LocalAddrs cfg)) (hc_Routes cfg);
  co_conflicts r1 r2 : r1 ∈ hc_Routes cfg → r2 ∈ hc_Routes cfg →
    hr_Destination (masked_route r1) = hr_Destination (masked_route r2) → masked_route r1 = masked_route r2 }.

Lemma local_loop l locals : foldM local_step l ∅ = Ok locals →
  Forall host_local l ∧ ∀ a p, locals !! a = Some p ↔ p ∈ l ∧ p_addr p = a.
Proof.
  intros H. apply (foldM_ind (λ pre m, Forall host_local pre ∧ ∀ a p, m !! a = Some p ↔ p ∈ pre ∧ p_addr p = a) _ _ _ _ H).
  { split; [constructor|]. intros a p. rewrite lookup_empty, elem_of_nil. naive_solver. }
  clear H locals. intros pre x m1 m2 _ [Hf Hm] H. unfold local_step in H. apply bind_ok_inv in H as (u & Hg%guard_err_ok_inv & [= <-]).
  apply orb_false_iff in Hg as [Hv%negb_false_iff Hb%negb_false_iff%Z.eqb_eq].
  assert (Hf' : Forall host_local (pre ++ [x])) by (apply Forall_app; split; [done|by apply Forall_singleton]).
  split; [done|]. intros a p. rewrite lookup_insert_Some, Hm, elem_of_snoc. split; [naive_solver|].
  intros [[Hp| ->] Ha]; [|by left]. destruct (decide (p_addr x = a)) as [Hx|Hx]; [left|right; naive_solver]. split; [done|].
  rewrite Forall_forall in Hf. destruct (Hf p Hp) as [_ Hbp]. destruct p as [pa pb], x as [xa xb]. cbn in *. congruence.
Qed.
Lemma local_total l : Forall host_local l → is_ok (foldM local_step l ∅) = true.
Proof.
  intros Hl. destruct (foldM_total (λ _ _, True) local_step l ∅) as (s & -> & _); [done| |done].
  intros pre x m Hx _. rewrite Forall_forall in Hl. destruct (Hl x Hx) as [Hv Hb]. unfold local_step.
  rewrite Hv, Hb, Z.eqb_refl. cbn. eauto.
Qed.
Lemma same_definition_ok existing route u : same_definition existing route = Ok u ↔ existing = route.
Proof.
  unfold same_definition. destruct (bool_decide_reflect (existing = route)) as [->|Hne]; [by destruct u|].
  split; [|done]. by destruct (bool_decide _).
Qed.
(** What a step of the loop over routes requires of the map so far. *)
Definition fits (routes : gmap Prefix HostRoute) (r : HostRoute) : Prop :=
  ∀ r', routes !! hr_Destination (masked_route r) = Some r' → r' = masked_route r.
Lemma route_step_ok l locals routes r routes' : (∀ a p, locals !! a = Some p ↔ p ∈ l ∧ p_addr p = a) →
  route_step locals routes r = Ok routes' ↔ route_ok l r ∧ fits routes r ∧ routes' = <[hr_Destination (masked_route r) := masked_route r]> routes.
Proof.
  intros Hl. unfold route_step, route_ok, fits. cbv zeta.
  assert (Hsrc : hr_Source r ∈ p_addr <$> l ↔ is_Some (locals !! hr_Source r)).
  { rewrite list_elem_of_fmap. split; [intros (p & -> & Hp); exists p; by apply Hl|intros [p [Hp <-]%Hl]; eauto]. }
  rewrite Hsrc. cbn [hr_Source masked_route]. split.
  - intros H. apply bind_ok_inv in H as (? & Hd%guard_err_ok_inv%negb_false_iff & H).
    apply bind_ok_inv in H as (? & Hf%guard_err_ok_inv & H). apply orb_false_iff in Hf as [Hv%negb_false_iff H6%negb_false_iff%eqb_prop].
    apply bind_ok_inv in H as (? & Hs%guard_err_ok_inv & H). apply bind_ok_inv in H as (u & Hc & [= <-]).
    split_and!; try done; [by destruct (locals !! hr_Source r)|]. intros r' Hr'. rewrite Hr' in Hc. by apply same_definition_ok in Hc.
  - intros ((Hd & Hv & H6 & [p Hp]) & Hfit & ->). rewrite Hd, Hv, H6, eqb_reflx, Hp. cbn.
    destruct (routes !! _) as [r'|] eqn:E; [|done]. rewrite (Hfit r' eq_refl). by rewrite (proj2 (same_definition_ok _ _ tt)).
Qed.
(** The routes the loop has seen, by destination. *)
Record collected (l : list Prefix) (rs : list HostRoute) (routes : gmap Prefix HostRoute) : Prop := {
  cl_ok : Forall (route_ok l) rs;
  cl_in d r : routes !! d = Some r ↔ d = hr_Destination r ∧ ∃ r0, r0 ∈ rs ∧ r = masked_route r0;
  cl_same r1 r2 : r1 ∈ rs → r2 ∈ rs → hr_Destination (masked_route r1) = hr_Destination (masked_route r2) → masked_route r1 = masked_route r2 }.
Lemma collected_empty l : collected l [] ∅.
Proof.
  split; [constructor| |by intros r1 r2 ?%elem_of_nil]. intros d r. rewrite lookup_empty. split; [done|]. by intros (_ & r0 & ?%elem_of_nil & _).
Qed.
Lemma collected_snoc l rs routes r : collected l rs routes → route_ok l r → fits routes r →
  collected l (rs ++ [r]) (<[hr_Destination (masked_route r) := masked_route r]> routes).
Proof.
  intros [Hok Hin Hsame] Hr Hfit.
  assert (Hall : ∀ r', r' ∈ rs → hr_Destination (masked_route r') = hr_Destination (masked_route r) → masked_route r' = masked_route r).
  { intros r' Hr' Hd. apply Hfit. rewrite <-Hd. apply Hin. eauto. }
  split.
  - apply Forall_app. split; [done|]. by apply Forall_singleton.
  - intros d r'. rewrite lookup_insert_Some, Hin. split.
    + intros [[<- <-]|[_ (-> & r0 & Hr0 & ->)]]; (split; [done|]); eexists; (split; [|done]); apply elem_of_snoc; auto.
    + intros (-> & r0 & [Hr0| ->]%elem_of_snoc & ->); [|by left].
      destruct (decide (hr_Destination (masked_route r) = hr_Destination (masked_route r0))) as [Hd|Hd]; [left; by rewrite (Hall r0)|right; eauto].
  - intros r1 r2 [H1| ->]%elem_of_snoc [H2| ->]%elem_of_snoc Hd; [by apply Hsame|by apply Hall|symmetry; by apply Hall|done].
Qed.
Lemma route_loop l locals rs routes : (∀ a p, locals !! a = Some p ↔ p ∈ l ∧ p_addr p = a) →
  foldM (route_step locals) rs ∅ = Ok routes → collected l rs routes.
Proof.
  intros Hl H. apply (foldM_ind (collected l) _ _ _ _ H); [apply collected_empty|].
  intros pre r m1 m2 _ Hc (Hr & Hf & ->)%(route_step_ok l); [|done]. by apply collected_snoc.
Qed.
Lemma route_total l locals rs : (∀ a p, locals !! a = Some p ↔ p ∈ l ∧ p_addr p = a) → Forall (route_ok l) rs →
  (∀ r1 r2, r1 ∈ rs → r2 ∈ rs → hr_Destination (masked_route r1) = hr_Destination (masked_route r2) → masked_route r1 = masked_route r2) →
  is_ok (foldM (route_step locals) rs ∅) = true.
Proof.
  intros Hl Hok Hsame. destruct (foldM_total (λ pre m, collected l pre m ∧ ∀ r, r ∈ pre → r ∈ rs) (route_step locals) rs ∅) as (m & -> & _); [| |done].
  { split; [apply collected_empty|]. by intros r ?%elem_of_nil. }
  intros pre r m Hr [Hc Hpre]. rewrite Forall_forall in Hok. assert (Hfit : fits m r).
  { intros r' (Hd & r0 & H0 & ->)%(cl_in _ _ _ Hc). apply Hsame; auto. }
  eexists. split; [apply (route_step_ok l _ _ _ _ Hl); split_and!; [by apply Hok|exact Hfit|done]|].
  split; [apply collected_snoc; [done|by apply Hok|done]|]. intros r' [?| ->]%elem_of_snoc; [by apply Hpre|done].
Qed.

(** ** Sorting by a key *)

Definition by_key_less {A K} (key : A → K) (lt : K → K → bool) : A → A → bool := λ a b, lt (key a) (key b).
#[export] Instance key_less_order {A K} (key : A → K) lt `{!StrictTotal lt} : LessOrder (by_key_less key lt).
Proof. split; unfold by_key_less; intros *; [apply less_asym|apply less_trans]. Qed.
Definition strictly {A} (less : A → A → bool) : relation A := λ a b, less a b = true.
Lemma key_sorted {A K} (key : A → K) lt `{!StrictTotal lt} l : NoDup (key <$> l) → StronglySorted (strictly (by_key_less key lt)) (go_sort (by_key_less key lt) l).
Proof.
  intros Hn. assert (NoDup (key <$> go_sort (by_key_less key lt) l)) as Hn' by by rewrite go_sort_Permutation.
  pose proof (go_sort_sorted (by_key_less key lt) l) as Hs. induction Hs as [|a k Hs IH Hall]; [constructor|].
  apply NoDup_cons in Hn' as [Hnin Hn']. constructor; [by apply IH|]. apply Forall_forall. intros b Hb.
  rewrite Forall_forall in Hall. specialize (Hall b Hb). unfold not_after, strictly, by_key_less in *.
  destruct (lt (key a) (key b)) eqn:E; [done|]. destruct Hnin. rewrite (strict_tri _ _ E Hall). apply list_elem_of_fmap. eauto.
Qed.
Lemma key_sorted_unique {A K} (key : A → K) lt `{!StrictTotal lt} (l k : list A) : StronglySorted (strictly (by_key_less key lt)) l →
  StronglySorted (strictly (by_key_less key lt)) k → (∀ a, a ∈ l ↔ a ∈ k) → l = k.
Proof.
  intros Hl. revert k. induction Hl as [|a l Hl IH Ha]; intros k Hk Hin.
  - destruct k as [|b k]; [done|]. by destruct (proj1 (elem_of_nil b) (proj2 (Hin b) ltac:(by left))).
  - assert (Hirr : ∀ x, strictly (by_key_less key lt) x x → False) by (intros x Hx; unfold strictly, by_key_less in Hx; by rewrite (less_irrefl lt) in Hx).
    destruct Hk as [|b k Hk Hb]; [by destruct (proj1 (elem_of_nil a) (proj1 (Hin a) ltac:(by left)))|]. rewrite Forall_forall in Ha, Hb.
    assert (a = b) as <-.
    { destruct (proj1 (elem_of_cons _ _ _) (proj1 (Hin a) ltac:(by left))) as [|H1]; [done|].
      destruct (proj1 (elem_of_cons _ _ _) (proj2 (Hin b) ltac:(by left))) as [|H2]; [done|].
      specialize (Ha b ltac:(done)). specialize (Hb a ltac:(done)). unfold strictly, by_key_less in *. apply less_asym in Ha. congruence. }
    f_equal. apply IH; [done|]. intros x. specialize (Hin x). rewrite !elem_of_cons in Hin. split; intros Hx.
    + destruct (proj1 Hin ltac:(by right)) as [->|?]; [|done]. by destruct (Hirr a (Ha a Hx)).
    + destruct (proj2 Hin ltac:(by right)) as [->|?]; [|done]. by destruct (Hirr a (Hb a Hx)).
Qed.
(** The values of a map whose keys are theirs. *)
Lemma map_values_sorted {A K} `{Countable K} (key : A → K) lt `{!StrictTotal lt} (m : gmap K A) : (∀ k a, m !! k = Some a → key a = k) →
  let l := go_sort (by_key_less key lt) (map_to_list m).*2 in
  StronglySorted (strictly (by_key_less key lt)) l ∧ ∀ a, a ∈ l ↔ m !! key a = Some a.
Proof.
  intros Hkey l. split.
  - apply key_sorted; [apply _|]. assert (key <$> (map_to_list m).*2 = (map_to_list m).*1) as ->; [|apply NoDup_fst_map_to_list].
    rewrite <-list_fmap_compose. apply list_fmap_ext. intros i [k a] Hi. cbn. apply Hkey. apply elem_of_map_to_list. by eapply list_elem_of_lookup_2.
  - intros a. unfold l. rewrite elem_of_go_sort, list_elem_of_fmap. split.
    + intros ([k a'] & -> & Hin%elem_of_map_to_list). cbn. by rewrite (Hkey _ _ Hin).
    + intros Ha. exists (key a, a). split; [done|]. by apply elem_of_map_to_list.
Qed.
#[export] Instance prefix_less_total : StrictTotal prefix_less.
Proof. split; [apply _|apply prefix_less_tie]. Qed.

(** ** The normal form *)

Record normal_form (cfg : HostConfig) (addrs : list Prefix) (routes : list HostRoute) : Prop := {
  nf_addrs p : p ∈ addrs ↔ p ∈ hc_LocalAddrs cfg;
  nf_addrs_order : StronglySorted (strictly local_less) addrs;
  nf_routes r : r ∈ routes ↔ ∃ r0, r0 ∈ hc_Routes cfg ∧ r = masked_route r0;
  nf_routes_order : StronglySorted (strictly route_less) routes }.
Lemma normalizeConfig_ok cfg : config_ok cfg → ∃ x, normalizeConfig cfg = Ok x.
Proof.
  intros [Hl Hr Hc]. unfold normalizeConfig. destruct (foldM local_step (hc_LocalAddrs cfg) ∅) as [locals|] eqn:El.
  2:{ pose proof (local_total _ Hl) as Hx. by rewrite El in Hx. }
  cbn. destruct (foldM (route_step locals) (hc_Routes cfg) ∅) as [routes|] eqn:Er; [cbn; eauto|].
  pose proof (route_total _ locals _ (proj2 (local_loop _ _ El)) Hr Hc) as Hx. by rewrite Er in Hx.
Qed.
Lemma normalizeConfig_form cfg addrs routes : normalizeConfig cfg = Ok (addrs, routes) → config_ok cfg ∧ normal_form cfg addrs routes.
Proof.
  intros H. unfold normalizeConfig in H. apply bind_ok_inv in H as (locals & [Hl Hlm]%local_loop & H).
  apply bind_ok_inv in H as (rs & [Hok Hin Hsame]%(route_loop (hc_LocalAddrs cfg)) & [= <- <-]); [|done].
  destruct (map_values_sorted p_addr addr.less locals) as [Hs1 Hm1]; [by intros a p [_ ?]%Hlm|].
  destruct (map_values_sorted hr_Destination prefix_less rs) as [Hs2 Hm2]; [by intros d r [-> _]%Hin|].
  split; [by split|]. split; [|exact Hs1| |exact Hs2].
  - intros p. rewrite Hm1, Hlm. naive_solver.
  - intros r. rewrite Hm2, Hin. naive_solver.
Qed.
Lemma normal_form_unique cfg addrs routes addrs' routes' : normal_form cfg addrs routes → normal_form cfg addrs' routes' → addrs = addrs' ∧ routes = routes'.
Proof.
  intros [A1 O1 R1 P1] [A2 O2 R2 P2]. split.
  - apply (key_sorted_unique p_addr addr.less); [done|done|]. intros p. by rewrite A1, A2.
  - apply (key_sorted_unique hr_Destination prefix_less); [done|done|]. intros r. by rewrite R1, R2.
Qed.

(** ** The configuration of a plan *)

Lemma Masked_family p : prefix.IsValid p = true → addr.Is6 (p_addr (prefix.Masked p)) = addr.Is6 (p_addr p) ∧ p_bits (prefix.Masked p) = p_bits p.
Proof. intros Hv. unfold prefix.Masked. rewrite Hv. cbn. by destruct (p_addr p). Qed.
Lemma half_facts ipv6 p : p ∈ splitDefaultRoutes ipv6 → prefix.Masked p = p ∧ prefix.IsValid p = true ∧ p_bits p = 1 ∧ addr.Is6 (p_addr p) = ipv6.
Proof. destruct ipv6; intros [->|[->|[]%elem_of_nil]%elem_of_cons]%elem_of_cons; vm_compute; by split_and!. Qed.
Lemma natIPFor_family st a : addr.Is6 (st_NATIP st) = false → addr.Is6 (st_NATIPv6 st) = true → addr.Is6 (natIPFor st a) = addr.Is6 a.
Proof. intros H4 H6. unfold natIPFor, nat_ip. by destruct (addr.Is6 a). Qed.

Section plan.
Context {T : Type → Type} `{LT : LPM T, !LPMLaws T} (CGNATRange TailscaleULARange : Prefix) (ServiceIP : Addr) (st : State).
Local Notation overlaps := (routeOverlapsReserved CGNATRange TailscaleULARange ServiceIP st).

(** The addresses the daemon has chosen for itself. *)
Record own_addresses : Prop := {
  oa_nat : plain_addr (st_NATIP st) = true ∧ addr.Is6 (st_NATIP st) = false;
  oa_nat6 : plain_addr (st_NATIPv6 st) = true ∧ addr.Is6 (st_NATIPv6 st) = true;
  oa_dns : plain_addr (st_DNSIP st) = true ∧ addr.Is6 (st_DNSIP st) = false;
  oa_service : plain_addr ServiceIP = true ∧ addr.Is6 ServiceIP = false;
  oa_apart : st_DNSIP st ≠ ServiceIP;
  oa_leases l : l ∈ st_Leases st → el_EffectiveIP l ≠ ServiceIP }.
Hypothesis Hown : own_addresses.

(** The routes of a host configuration, by where they come from; [entries]
    are the active entries of the policy. *)
Inductive origin (entries : list IPEntry) (exit : bool) : HostRoute → Prop :=
  | from_target a : plain_addr a = true → a ≠ ServiceIP → origin entries exit (plain_route (host_prefix a) (natIPFor st a))
  | from_entry e : e ∈ entries → ie_Active e = true → overlaps (ie_Prefix e) = false →
      origin entries exit (plain_route (ie_Prefix e) (natIPFor st (p_addr (ie_Prefix e))))
  | from_exit ipv6 p : exit = true → p ∈ splitDefaultRoutes ipv6 → origin entries exit (MkHostRoute p (natIPFor st (p_addr p)) true false)
  | from_service : origin entries exit (MkHostRoute (host_prefix ServiceIP) (st_NATIP st) false true).
Definition entry_valid (e : IPEntry) : Prop := prefix.wf (ie_Prefix e) = true ∧ prefix.IsValid (ie_Prefix e) = true.
(** No active entry is a half of a default route. *)
Definition no_half (entries : list IPEntry) : Prop :=
  ∀ e ipv6, e ∈ entries → ie_Active e = true → prefix.Masked (ie_Prefix e) ∉ splitDefaultRoutes ipv6.

Lemma origin_fields entries exit r : Forall entry_valid entries → origin entries exit r →
  prefix.IsValid (hr_Destination r) = true ∧ hr_Source r = natIPFor st (p_addr (hr_Destination r)).
Proof using Hown.
  intros He Ho. rewrite Forall_forall in He. destruct Ho as [a Ha|e Hin|ipv6 p _ Hp|]; cbn [hr_Destination hr_Source plain_route].
  - destruct (host_prefix_masked a Ha) as (_ & -> & _ & ->). done.
  - by destruct (He e Hin).
  - by destruct (half_facts _ _ Hp) as (_ & -> & _).
  - destruct (oa_service Hown) as [Hs H4]. destruct (host_prefix_masked _ Hs) as (_ & -> & _ & ->). split; [done|]. unfold natIPFor, nat_ip. by rewrite H4.
Qed.
Lemma overlaps_service p : prefix.wf p = true → prefix.Masked p = host_prefix ServiceIP → overlaps p = true.
Proof using Hown.
  intros Hwf Hm. destruct (oa_service Hown) as [Hs H4]. destruct (host_prefix_masked _ Hs) as (_ & Hpa & _ & Hv).
  assert (Hvp : prefix.IsValid p = true). { destruct (prefix.IsValid p) eqn:E; [done|]. unfold prefix.Masked in Hm. rewrite E in Hm. by rewrite <-Hm in Hv. }
  destruct (Masked_family p Hvp) as [H6 _]. rewrite Hm, Hpa, H4 in H6.
  unfold routeOverlapsReserved. apply orb_true_iff. right. apply existsb_exists. exists ServiceIP. split; [right; right; right; by left|].
  rewrite H4, <-H6, <-(Contains_Masked p) by done. rewrite Hm, (proj2 (host_prefix_Contains _ _ Hs)) by done.
  unfold plain_addr in Hs. apply andb_true_iff in Hs as [[_ ->]%andb_true_iff _]. done.
Qed.
Lemma host_bits a ipv6 : plain_addr a = true → host_prefix a ∉ splitDefaultRoutes ipv6.
Proof using. clear. intros Ha (_ & _ & Hb & _)%half_facts. destruct (host_prefix_masked a Ha) as (_ & _ & Hb' & _). rewrite Hb' in Hb. by destruct a. Qed.
(** Two routes to one place are one route. *)
Lemma origin_same entries exit r1 r2 : Forall entry_valid entries → (exit = true → no_half entries) → origin entries exit r1 → origin entries exit r2 →
  prefix.Masked (hr_Destination r1) = prefix.Masked (hr_Destination r2) → masked_route r1 = masked_route r2.
Proof using Hown.
  intros He Hh H1 H2 Hd. destruct (origin_fields _ _ _ He H1) as [Hv1 Hs1], (origin_fields _ _ _ He H2) as [Hv2 Hs2].
  assert (Hsrc : hr_Source r1 = hr_Source r2).
  { rewrite Hs1, Hs2. unfold natIPFor. by rewrite <-(proj1 (Masked_family _ Hv1)), <-(proj1 (Masked_family _ Hv2)), Hd. }
  assert (hr_Exit r1 = hr_Exit r2 ∧ hr_Optional r1 = hr_Optional r2) as [Hx Ho]; [|unfold masked_route; by rewrite Hd, Hsrc, Hx, Ho].
  clear Hs1 Hs2 Hv1 Hv2 Hsrc. destruct (oa_service Hown) as [Hsv _]. destruct (host_prefix_masked _ Hsv) as ([Hms _] & _).
  assert (Hhalf : ∀ p ipv6, p ∈ splitDefaultRoutes ipv6 → prefix.Masked p = p) by (by intros p ipv6 [-> _]%half_facts).
  assert (Hhost : ∀ a, plain_addr a = true → prefix.Masked (host_prefix a) = host_prefix a) by (by intros a ([-> _] & _)%host_prefix_masked).
  rewrite Forall_forall in He.
  destruct H1 as [a Ha Hna|e Hin Ha Hov|ipv6 p Hex Hp|], H2 as [a' Ha' Hna'|e' Hin' Ha' Hov'|ipv6' p' Hex' Hp'|]; cbn [hr_Destination plain_route hr_Exit hr_Optional] in *; try done; exfalso.
  - rewrite Hhost, (Hhalf p' ipv6') in Hd by done. subst p'. by refine (host_bits _ _ _ Hp').
  - by apply host_prefix_inj in Hd.
  - rewrite (Hhalf p' ipv6') in Hd by done. subst p'. exact (Hh Hex' _ _ Hin Ha Hp').
  - destruct (He e Hin) as [Hwf _]. rewrite Hms in Hd. by rewrite overlaps_service in Hov.
  - rewrite Hhost, (Hhalf p ipv6) in Hd by done. subst p. by refine (host_bits _ _ _ Hp).
  - rewrite (Hhalf p ipv6) in Hd by done. subst p. exact (Hh Hex _ _ Hin' Ha' Hp).
  - rewrite Hms, (Hhalf p ipv6) in Hd by done. subst p. by refine (host_bits _ _ _ Hp).
  - symmetry in Hd. by apply host_prefix_inj in Hd.
  - destruct (He e' Hin') as [Hwf _]. rewrite Hms in Hd. symmetry in Hd. by rewrite overlaps_service in Hov'.
  - rewrite Hms, (Hhalf p' ipv6') in Hd by done. subst p'. by refine (host_bits _ _ _ Hp').
Qed.

Local Notation tunConfigWithPolicy := (tunConfigWithPolicy (T:=T) CGNATRange TailscaleULARange ServiceIP).
Lemma plan_origin statuses leases policy table host : Forall lease_plain leases → Forall status_plain statuses →
  tunConfigWithPolicy st statuses leases policy = Ok (table, host) →
  ∀ r, r ∈ hc_Routes host → origin (ip_Exact policy ++ ip_Imported policy) (negb (String.eqb (activeExitProfile st statuses) "")) r.
Proof using Hown LPMLaws0.
  intros Hl Hs (byKey & b0 & b & Hcfg & _ & -> & _ & Hsv)%tunConfig_steps; [|done..]. intros r. cbn [host_config hc_Routes].
  intros [Hr|[->|[->|[]%elem_of_nil]%elem_of_cons]%elem_of_cons]%elem_of_app.
  - destruct (cf_routes _ _ _ _ _ _ _ _ _ _ Hcfg r Hr) as [(a & Ha & Hd & ->)|[(e & He & Hact & Ho & ->)|(Hne & ipv6 & p & Hp & ->)]].
    + apply from_target; [done|]. intros ->. destruct Hd as [Hd|(l & Hin & Heq)]; [|by apply (oa_leases Hown l)].
      apply Hd. apply (Hsv ServiceIP). right. by left.
    + by apply from_entry.
    + apply (from_exit _ _ ipv6); [|done]. by apply negb_true_iff, String.eqb_neq.
  - destruct (oa_dns Hown) as [Hd H4]. replace (st_NATIP st) with (natIPFor st (st_DNSIP st)) by (unfold natIPFor, nat_ip; by rewrite H4).
    apply from_target; [done|apply (oa_apart Hown)].
  - apply from_service.
Qed.
Lemma plan_config_ok statuses leases policy table host : Forall lease_plain leases → Forall status_plain statuses →
  Forall entry_valid (ip_Exact policy ++ ip_Imported policy) →
  (activeExitProfile st statuses ≠ "" → no_half (ip_Exact policy ++ ip_Imported policy)) →
  tunConfigWithPolicy st statuses leases policy = Ok (table, host) → config_ok host.
Proof using Hown LPMLaws0.
  intros Hl Hs He Hh H. pose proof (plan_origin _ _ _ _ _ Hl Hs H) as Ho.
  destruct (oa_nat Hown) as [Hn4 H4], (oa_nat6 Hown) as [Hn6 H6].
  destruct (host_config_sound _ _ _ st statuses leases policy table host Hl Hs H4 H6 H) as [Hsrc _].
  assert (Hlocal : Forall host_local (hc_LocalAddrs host)).
  { apply tunConfig_steps in H as (byKey & b0 & b & _ & _ & -> & _); [|done..]. cbn [host_config hc_LocalAddrs].
    destruct (host_prefix_masked _ Hn4) as (_ & Hp4 & Hb4 & Hv4), (host_prefix_masked _ Hn6) as (_ & Hp6 & Hb6 & Hv6).
    constructor; [split; congruence|]. destruct (needs_ipv6 b); [|constructor]. apply Forall_singleton. split; congruence. }
  split; [done| |].
  - apply Forall_forall. intros r Hr. destruct (origin_fields _ _ _ He (Ho r Hr)) as [Hv Hs']. destruct (Hsrc r Hr) as [Hin Hloc].
    assert (Hpl : plain_addr (hr_Source r) = true) by (by apply elem_of_cons in Hin as [->|[->|[]%elem_of_nil]%elem_of_cons]).
    split_and!; [done|by apply andb_true_iff in Hpl as [[_ ?]%andb_true_iff _]| |].
    + cbn [hr_Destination masked_route]. rewrite (proj1 (Masked_family _ Hv)), Hs'. by apply natIPFor_family.
    + apply list_elem_of_fmap. exists (host_prefix (hr_Source r)). split; [|done]. symmetry. by apply host_prefix_masked.
  - intros r1 r2 H1 H2. refine (origin_same _ _ r1 r2 He _ (Ho r1 H1) (Ho r2 H2)).
    intros Hx%negb_true_iff%String.eqb_neq. by apply Hh.
Qed.
End plan.

(** ** What holds *)

(** A configuration is brought into normal form exactly when every local address
    is a single address, every route has a valid destination and a local source
    of its family, and no destination has two different routes.  The normal form
    has the same addresses and the same routes with their destinations masked,
    each once and in order: it depends on neither order nor repetitions. *)
Theorem normalizeConfig_sound (cfg : HostConfig) :
  (∀ addrs routes, normalizeConfig cfg = Ok (addrs, routes) ↔ config_ok cfg ∧ normal_form cfg addrs routes) ∧
  (is_ok (normalizeConfig cfg) = true ↔ config_ok cfg).
Proof.
  assert (Hiff : ∀ addrs routes, normalizeConfig cfg = Ok (addrs, routes) ↔ config_ok cfg ∧ normal_form cfg addrs routes).
  { intros addrs routes. split; [apply normalizeConfig_form|]. intros [Hok Hn]. destruct (normalizeConfig_ok cfg Hok) as [[a r] E].
    destruct (normalizeConfig_form _ _ _ E) as [_ Hn']. by destruct (normal_form_unique _ _ _ _ _ Hn Hn') as [-> ->]. }
  split; [exact Hiff|]. split; [|intros [x ->]%normalizeConfig_ok; done].
  destruct (normalizeConfig cfg) as [[addrs routes]|] eqn:E; [|done]. intros _. by apply (Hiff addrs routes).
Qed.

(** C19. The host takes what the daemon plans.  When the daemon's own addresses
    are usable and apart and no active route is a half of a default route while an
    exit node is selected, the host configuration of a plan has a normal form: the
    local addresses of the plan, and exactly its routes, each destination once. *)
Theorem plan_accepted {T : Type → Type} `{LT : LPM T, !LPMLaws T} (CGNATRange TailscaleULARange : Prefix) (ServiceIP : Addr)
    (st : State) (statuses : list Status) (leases : list Lease) (policy : IPPlan) (table : Table T) (host : HostConfig) :
  own_addresses ServiceIP st → Forall lease_plain leases → Forall status_plain statuses →
  Forall entry_valid (ip_Exact policy ++ ip_Imported policy) →
  (activeExitProfile st statuses ≠ "" → no_half (ip_Exact policy ++ ip_Imported policy)) →
  tunConfigWithPolicy (T:=T) CGNATRange TailscaleULARange ServiceIP st statuses leases policy = Ok (table, host) →
  ∃ addrs routes, normalizeConfig host = Ok (addrs, routes) ∧ normal_form host addrs routes.
Proof.
  intros Hown Hl Hs He Hh H. destruct (normalizeConfig_ok host) as [[addrs routes] E]; [by eapply plan_config_ok|].
  exists addrs, routes. split; [done|]. by apply normalizeConfig_form.
Qed.

(** ** Examples *)

#[local] Instance entry_valid_dec e : Decision (entry_valid e).
Proof. unfold entry_valid. apply _. Defined.
Lemma corp_own : own_addresses service_ip corp_state.
Proof.
  split; try (vm_compute; by split).
  - by apply (bool_decide_unpack _); vm_compute.
  - intros l Hl. assert (Hall : Forall (λ l, el_EffectiveIP l ≠ service_ip) (st_Leases corp_state)) by (apply (bool_decide_unpack _); vm_compute; exact I).
    by apply (proj1 (Forall_forall _ _) Hall).
Qed.
Lemma corp_entries : Forall entry_valid (ip_Exact corp_ip ++ ip_Imported corp_ip).
Proof. apply (bool_decide_unpack _). vm_compute. exact I. Qed.
Lemma corp_no_exit : activeExitProfile corp_state corp_statuses = "".
Proof. vm_compute. reflexivity. Qed.
Lemma plan_accepted_witness : ∃ table host addrs routes, corp_tun = Ok (table, host) ∧ normalizeConfig host = Ok (addrs, routes).
Proof.
  pose proof corp_tun_ok as Hok. destruct corp_tun as [[table host]|] eqn:E; [|discriminate Hok]. unfold corp_tun in E.
  destruct (plan_accepted (LT:=PrefixMap_LPM) test_cgnat test_ula service_ip corp_state corp_statuses corp_leases.1 corp_ip table host
    corp_own corp_leases_plain corp_statuses_plain corp_entries ltac:(intros H; destruct (H corp_no_exit)) E) as (addrs & routes & Hn & _).
  exists table, host, addrs, routes. split; [reflexivity|exact Hn].
Defined.

(** A half of the IPv6 default route is not reserved, so that it may be bound;
    the exit node's route to it then refuses the whole configuration. *)
Definition half6 : Prefix := MkPrefix (Addr6 0 "") 1.
Definition half_config : HostConfig :=
  MkHostConfig [host_prefix (st_NATIPv6 corp_state)]
    [plain_route half6 (natIPFor corp_state (p_addr half6)); MkHostRoute half6 (natIPFor corp_state (p_addr half6)) true false].
Example half_refused :
  routeOverlapsReserved test_cgnat test_ula service_ip corp_state half6 = false ∧
  normalizeConfig half_config = Err (EConflictRoutes (plain_route half6 (st_NATIPv6 corp_state)) (MkHostRoute half6 (st_NATIPv6 corp_state) true false)).
Proof. split; vm_compute; reflexivity. Qed.
