(* ===== verification/SocksRouter.v ===== *)
(** * The SOCKS router

    [src/socksproxy/router.go]: the router that userspace mode uses to choose a
    profile and a dial address for a SOCKS target.  The prefix tables are the
    [LPM] interface, DNS names the [DNSName] interface; a dialer is an opaque
    handle, and dialing is the request handed to it. *)

From S2P Require Import Prelude GoStrings Netip RoutingTable DNSName EffectiveIP Activity.

Record SocksProfile (D : Type) : Type := MkSocksProfile {
  sp_ID : string; sp_MagicDNSSuffix : string; sp_Dialer : option D }.
Arguments MkSocksProfile {D} _ _ _.
Arguments sp_ID {D} _.
Arguments sp_MagicDNSSuffix {D} _.
Arguments sp_Dialer {D} _.
Record Decision : Type := MkDecision { dc_ProfileID : string; dc_DialAddr : string }.
Record effectiveRoute : Type := MkEffectiveRoute { er_profileID : string; er_canonical : Addr }.
Record SubnetRoute : Type := MkSubnetRoute {
  sr_Prefix : Prefix; sr_ProfileID : string; sr_Active : bool; sr_Exact : bool }.
Record DomainRoute : Type := MkDomainRoute {
  do_Suffix : string; do_ProfileID : string; do_Active : bool; do_Exact : bool;
  do_Automatic : bool }.

Record Router (T : Type → Type) (D : Type) : Type := MkRouter {
  profilesByID : gmap string (SocksProfile D);
  suffixes : gmap string string;
  effectiveIPs : gmap Addr effectiveRoute;
  exactRoutes : T SubnetRoute;
  importedRoutes : T SubnetRoute;
  exitRoutes : T SubnetRoute;
  exactDNS : list DomainRoute;
  importedDNS : list DomainRoute;
  automaticDNS : list DomainRoute }.
Arguments MkRouter {T D} _ _ _ _ _ _ _ _ _.
Arguments profilesByID {T D} _.
Arguments suffixes {T D} _.
Arguments effectiveIPs {T D} _.
Arguments exactRoutes {T D} _.
Arguments importedRoutes {T D} _.
Arguments exitRoutes {T D} _.
Arguments exactDNS {T D} _.
Arguments importedDNS {T D} _.
Arguments automaticDNS {T D} _.

Inductive router_error : Type :=
  | ENoProfileID | ENoDialer (id : string) | EBadSuffix (id suffix : string)
  | ELeasedTwice (ip : Addr).
Inductive resolve_error : Type :=
  | ENetwork (network : string) | EHostPort
  | EExactUnavailable (ip : Addr) | EImportedUnavailable (ip : Addr) | EExitUnavailable (ip : Addr)
  | ECanonicalLiteral (ip : Addr)
  | EUnqualified (host : string) | EDomainUnavailable (host : string) | ENoSuffix (host : string).

(** [net.JoinHostPort]. *)
Definition JoinHostPort (host port : string) : string :=
  if has_char ":"%char (chars host) then "[" +:+ host +:+ "]:" +:+ port
  else host +:+ ":" +:+ port.

(** [literalTarget]: the zero address when the target is not a literal. *)
Definition literalTarget (target : string) : Addr :=
  match SplitHostPort target with
  | None => AddrInvalid
  | Some (host, _) => addr.Unmap (default AddrInvalid (ParseAddr host))
  end.

Section router.
Context {T : Type → Type} `{LPM T} {F : Type} `{DNSName F} {D : Type}.
Notation Router := (Router T D).

Definition normalizeDNSName (name : string) : string :=
  let name := ToLower (TrimSpace name) in
  if String.eqb name "" then ""
  else match ToFQDN name with
       | None => ""
       | Some parsed => if decide (parsed = root) then "" else WithoutTrailingDot parsed
       end.

(** ** Construction *)

Definition empty_router : Router :=
  MkRouter ∅ ∅ ∅ lpm_new lpm_new lpm_new [] [] [].

(** The loop over the profiles: the profile table and the suffix owners, the
    empty identifier standing for an ambiguous suffix. *)
Definition add_suffix (owners : gmap string string) (suffix id : string) : gmap string string :=
  match owners !! suffix with
  | Some existing => if negb (String.eqb existing id) then <[suffix := ""]> owners else owners
  | None => <[suffix := id]> owners
  end.
Definition add_profile (s : gmap string (SocksProfile D) * gmap string string) (p : SocksProfile D) :
    result router_error (gmap string (SocksProfile D) * gmap string string) :=
  let '(profiles, owners) := s in
  _ ← guard_err (String.eqb (sp_ID p) "") ENoProfileID;
  match sp_Dialer p with
  | None => Err (ENoDialer (sp_ID p))
  | Some _ =>
    let profiles := <[sp_ID p := p]> profiles in
    if String.eqb (sp_MagicDNSSuffix p) "" then Ok (profiles, owners)
    else
      let suffix := normalizeDNSName (sp_MagicDNSSuffix p) in
      if String.eqb suffix "" then Err (EBadSuffix (sp_ID p) (sp_MagicDNSSuffix p))
      else Ok (profiles, add_suffix owners suffix (sp_ID p))
  end.

Definition add_lease (profiles : gmap string (SocksProfile D)) (m : gmap Addr effectiveRoute)
    (l : Lease) : result router_error (gmap Addr effectiveRoute) :=
  let key := l_NodeKey l in
  if bool_decide (l_EffectiveIP l = k_CanonicalIP key) then Ok m
  else match profiles !! k_ProfileID key with
  | None => Ok m
  | Some _ =>
    let entry := MkEffectiveRoute (k_ProfileID key) (k_CanonicalIP key) in
    match m !! l_EffectiveIP l with
    | Some existing =>
      if negb (String.eqb (er_profileID existing) (k_ProfileID key)) ||
         negb (bool_decide (er_canonical existing = k_CanonicalIP key))
      then Err (ELeasedTwice (l_EffectiveIP l))
      else Ok (<[l_EffectiveIP l := entry]> m)
    | None => Ok (<[l_EffectiveIP l := entry]> m)
    end
  end.

(** A route of an unknown profile is kept but inactive. *)
Definition known_active (profiles : gmap string (SocksProfile D)) (id : string) (active : bool) : bool :=
  if negb (String.eqb id "") then
    match profiles !! id with Some _ => active | None => false end
  else active.
Definition add_subnet (profiles : gmap string (SocksProfile D))
    (t : T SubnetRoute * T SubnetRoute * T SubnetRoute) (r : SubnetRoute) :
    T SubnetRoute * T SubnetRoute * T SubnetRoute :=
  let '(exact, imported, exit) := t in
  if negb (prefix.IsValid (sr_Prefix r)) then t
  else
    let p := prefix.Masked (sr_Prefix r) in
    let r := MkSubnetRoute p (sr_ProfileID r) (known_active profiles (sr_ProfileID r) (sr_Active r))
               (sr_Exact r) in
    if (p_bits p =? 0)%Z then (exact, imported, Insert p r exit)
    else if sr_Exact r then (Insert p r exact, imported, exit)
    else (exact, Insert p r imported, exit).
Definition add_domain (profiles : gmap string (SocksProfile D))
    (t : list DomainRoute * list DomainRoute * list DomainRoute) (r : DomainRoute) :
    list DomainRoute * list DomainRoute * list DomainRoute :=
  let '(exact, imported, automatic) := t in
  let rawSuffix := TrimSpace (do_Suffix r) in
  let suffix := if String.eqb rawSuffix "." then "." else normalizeDNSName rawSuffix in
  if String.eqb suffix "" then t
  else
    let r := MkDomainRoute suffix (do_ProfileID r) (known_active profiles (do_ProfileID r) (do_Active r))
               (do_Exact r) (do_Automatic r) in
    if do_Exact r then (exact ++ [r], imported, automatic)
    else if do_Automatic r then (exact, imported, automatic ++ [r])
    else (exact, imported ++ [r], automatic).

Definition NewRouterWithPolicies (profiles : list (SocksProfile D)) (leases : list Lease)
    (subnetRoutes : list SubnetRoute) (domainRoutes : list DomainRoute) : result router_error Router :=
  '(byID, owners) ← foldM add_profile profiles (∅, ∅);
  effective ← foldM (add_lease byID) leases ∅;
  let '(exact, imported, exit) :=
    foldl (add_subnet byID) (lpm_new, lpm_new, lpm_new) subnetRoutes in
  let '(exactD, importedD, automaticD) := foldl (add_domain byID) ([], [], []) domainRoutes in
  Ok (MkRouter byID owners effective exact imported exit exactD importedD automaticD).
Definition NewRouterWithRoutes (profiles : list (SocksProfile D)) leases subnetRoutes :=
  NewRouterWithPolicies profiles leases subnetRoutes [].
Definition NewRouter (profiles : list (SocksProfile D)) leases := NewRouterWithRoutes profiles leases [].

(** ** Resolve *)

(** The loop keeps the route with the most labels so far, [-1] at the start. *)
Definition domain_step (nameFQDN : F) (best : option DomainRoute * Z) (r : DomainRoute) :
    option DomainRoute * Z :=
  match ToFQDN (do_Suffix r) with
  | None => best
  | Some suffix =>
    if negb (FQDNContains suffix nameFQDN) || (Z.of_nat (NumLabels suffix) <=? best.2)%Z then best
    else (Some r, Z.of_nat (NumLabels suffix))
  end.
Definition longestDomainRoute (name : string) (routes : list DomainRoute) : option DomainRoute :=
  match ToFQDN name with
  | None => None
  | Some nameFQDN => (foldl (domain_step nameFQDN) (None, -1)%Z routes).1
  end.

Definition suffix_step (nameFQDN : F) (best : string * string) (e : string * string) : string * string :=
  let '(suffix, profileID) := e in
  match ToFQDN suffix with
  | None => best
  | Some suffixFQDN =>
    if bool_decide (nameFQDN ≠ suffixFQDN) && FQDNContains suffixFQDN nameFQDN &&
       (str_len best.1 <? str_len suffix)%nat
    then (suffix, profileID) else best
  end.
(** The range loop over [r.suffixes], in the iteration order [order]. *)
Definition best_suffix (nameFQDN : F) (order : list (string * string)) : string * string :=
  foldl (suffix_step nameFQDN) ("", "") order.

Definition route_bad (r : SubnetRoute) : bool := negb (sr_Active r) || String.eqb (sr_ProfileID r) "".
Definition resolve_ip (r : Router) (ip : Addr) (port : string) : result resolve_error Decision :=
  let direct route := Ok (MkDecision (sr_ProfileID route) (JoinHostPort (addr_string ip) port)) in
  match effectiveIPs r !! ip with
  | Some route => Ok (MkDecision (er_profileID route) (JoinHostPort (addr_string (er_canonical route)) port))
  | None =>
    match Lookup ip (exactRoutes r) with
    | Some route => if route_bad route then Err (EExactUnavailable ip) else direct route
    | None =>
      match Lookup ip (importedRoutes r) with
      | Some route => if route_bad route then Err (EImportedUnavailable ip) else direct route
      | None =>
        match Lookup ip (exitRoutes r) with
        | Some route => if route_bad route then Err (EExitUnavailable ip) else direct route
        | None => Err (ECanonicalLiteral ip)
        end
      end
    end
  end.

(** The first tier with any match decides. *)
Fixpoint resolve_tiers (name : string) (tiers : list (list DomainRoute)) : option DomainRoute :=
  match tiers with
  | [] => None
  | tier :: tiers =>
    match longestDomainRoute name tier with
    | Some r => Some r
    | None => resolve_tiers name tiers
    end
  end.
Definition resolve_name (r : Router) (order : list (string * string)) (host port : string) :
    result resolve_error Decision :=
  let name := normalizeDNSName host in
  if negb (ContainsChar name "."%char) then Err (EUnqualified host)
  else match resolve_tiers name [exactDNS r; importedDNS r; automaticDNS r] with
  | Some route =>
    if negb (do_Active route) || String.eqb (do_ProfileID route) "" then Err (EDomainUnavailable host)
    else Ok (MkDecision (do_ProfileID route) (JoinHostPort name port))
  | None =>
    let nameFQDN := default zero_fqdn (ToFQDN name) in
    let '(_, bestProfileID) := best_suffix nameFQDN order in
    if negb (String.eqb bestProfileID "") then Ok (MkDecision bestProfileID (JoinHostPort name port))
    else Err (ENoSuffix host)
  end.

(** [Resolve], with the order in which the range loop visits [r.suffixes]. *)
Definition Resolve (r : Router) (order : list (string * string)) (network target : string) :
    result resolve_error Decision :=
  if negb (String.eqb network "tcp") && negb (String.eqb network "tcp4") && negb (String.eqb network "tcp6")
  then Err (ENetwork network)
  else match SplitHostPort target with
  | None => Err EHostPort
  | Some (host, port) =>
    match ParseAddr host with
    | Some ip => resolve_ip r ip port
    | None => resolve_name r order host port
    end
  end.

(** ** Dial *)

(** What a dial asks of a profile's dialer; [DialPanic] is the nil dereference
    of an absent profile's dialer. *)
Inductive dial_outcome : Type :=
  | DialErr (e : resolve_error) | DialUnconfigured | DialPanic
  | DialRequest (dialer : D) (network target : string).
Definition Dial (r : Router) (order : list (string * string)) (network target : string) : dial_outcome :=
  match Resolve r order network target with
  | Err e => DialErr e
  | Ok d => match profilesByID r !! dc_ProfileID d with
            | None => DialPanic
            | Some p => match sp_Dialer p with
                        | None => DialPanic
                        | Some dialer => DialRequest dialer network (dc_DialAddr d)
                        end
            end
  end.

(** [DynamicRouter]: the current router and the optional activity tracker. *)
Record DynamicRouter : Type := MkDynamic { current : option Router; activity : option ActivityTracker }.
Definition SetRouter (d : DynamicRouter) (r : Router) : DynamicRouter := MkDynamic (Some r) (activity d).
Definition DynamicDial (d : DynamicRouter) (order : list (string * string)) (now : Z)
    (network target : string) : DynamicRouter * dial_outcome :=
  let ip := literalTarget target in
  let tracker := match activity d with
                 | Some a => Some (if addr.IsValid ip then ObserveOutbound a ip now else a)
                 | None => None
                 end in
  (MkDynamic (current d) tracker,
   match current d with
   | None => DialUnconfigured
   | Some r => Dial r order network target
   end).
End router.
Arguments DynamicRouter T D : clear implicits.
Arguments dial_outcome D : clear implicits.

(** ** The router a configuration builds *)

Section router_facts.
Context {T : Type → Type} `{LPMLaws T} {F : Type} `{DNSNameLaws F} {D : Type}.
Notation Router := (Router T D).
Implicit Types (ps : gmap string (SocksProfile D)).

(** [id] names a profile that has a dialer. *)
Definition dialable ps (id : string) : Prop := ∃ p d, ps !! id = Some p ∧ sp_Dialer p = Some d.
Definition subnet_safe ps (r : SubnetRoute) : Prop := route_bad r = false → dialable ps (sr_ProfileID r).
Definition domain_safe ps (r : DomainRoute) : Prop :=
  do_Active r = true → do_ProfileID r ≠ "" → dialable ps (do_ProfileID r).
(** A suffix is the normal text of a name, owned by a profile or ambiguous. *)
Definition suffix_normal (s : string) : Prop := ∃ d, ToFQDN s = Some d ∧ WithoutTrailingDot d = s ∧ s ≠ "".
Definition suffix_safe ps (owners : gmap string string) : Prop :=
  ∀ s id, owners !! s = Some id → suffix_normal s ∧ (id ≠ "" → dialable ps id).

Record router_safe (r : Router) : Prop := {
  safe_suffixes : suffix_safe (profilesByID r) (suffixes r);
  safe_effective ip e : effectiveIPs r !! ip = Some e → dialable (profilesByID r) (er_profileID e);
  safe_exact : table_all (subnet_safe (profilesByID r)) (exactRoutes r);
  safe_imported : table_all (subnet_safe (profilesByID r)) (importedRoutes r);
  safe_exit : table_all (subnet_safe (profilesByID r)) (exitRoutes r);
  safe_exact_dns : Forall (domain_safe (profilesByID r)) (exactDNS r);
  safe_imported_dns : Forall (domain_safe (profilesByID r)) (importedDNS r);
  safe_automatic_dns : Forall (domain_safe (profilesByID r)) (automaticDNS r) }.

Lemma normalizeDNSName_normal s : normalizeDNSName s ≠ "" → suffix_normal (normalizeDNSName s).
Proof.
  unfold normalizeDNSName. cbv zeta. case_match; [done|].
  destruct (ToFQDN _) as [d|] eqn:Hd; [|done]. case_decide; [done|]. intros Hne.
  exists d. split_and!; [|done|done]. apply ToFQDN_canonical; [by eexists|done].
Qed.

Definition all_dialable ps : Prop := ∀ id p, ps !! id = Some p → is_Some (sp_Dialer p).
Lemma all_dialable_elim ps id : all_dialable ps → is_Some (ps !! id) → dialable ps id.
Proof. intros Hps [p Hp]. destruct (Hps _ _ Hp) as [d Hd]. by exists p, d. Qed.

Lemma add_profiles_safe l s :
  foldM (add_profile (D:=D)) l (∅, ∅) = Ok s → all_dialable s.1 ∧ suffix_safe s.1 s.2.
Proof.
  intros Hf.
  refine (foldM_ind (λ _ s, all_dialable s.1 ∧ suffix_safe s.1 s.2) _ _ _ _ Hf _ _).
  { split; intros ?? Hx; simpl in Hx; by rewrite lookup_empty in Hx. }
  intros pre p [ps owners] s2 _ [Hps Hown] Hstep. unfold add_profile in Hstep.
  ok_guard Hstep as Hid. apply String.eqb_neq in Hid.
  destruct (sp_Dialer p) as [d|] eqn:Hd; [|done].
  assert (all_dialable (<[sp_ID p:=p]> ps)) as Hps'.
  { intros id q. rewrite lookup_insert. case_decide; [by intros [= <-]; eauto|apply Hps]. }
  assert (Hmono : ∀ id, dialable ps id → dialable (<[sp_ID p:=p]> ps) id).
  { intros id (q & ? & Hq & _). apply all_dialable_elim; [done|]. rewrite lookup_insert.
    case_decide; eauto. }
  assert (suffix_safe (<[sp_ID p:=p]> ps) owners) as Hown'.
  { intros k id Hk. destruct (Hown k id Hk). auto. }
  case_match; [by simplify_eq|]. case_match eqn:Hn; [done|]. simplify_eq/=. split; [done|].
  apply String.eqb_neq, normalizeDNSName_normal in Hn.
  intros k id. unfold add_suffix. repeat case_match; try apply Hown';
    rewrite lookup_insert; (case_decide; [|apply Hown']); intros [= <-]; subst k; split; try done.
  intros _. exists p, d. by rewrite lookup_insert_eq.
Qed.

Lemma add_lease_safe ps l m :
  all_dialable ps → foldM (add_lease ps) l ∅ = Ok m →
  ∀ ip e, m !! ip = Some e → dialable ps (er_profileID e).
Proof.
  intros Hps Hf.
  refine (foldM_ind (λ _ m, ∀ ip e, m !! ip = Some e → dialable ps (er_profileID e)) _ _ _ _ Hf _ _).
  { intros ip e. by rewrite lookup_empty. }
  intros pre x m1 m2 _ IH Hstep. unfold add_lease in Hstep.
  case_match; [by simplify_eq|]. destruct (ps !! _) eqn:Hp; [|by simplify_eq].
  assert (m2 = <[l_EffectiveIP x := MkEffectiveRoute (k_ProfileID (l_NodeKey x)) (k_CanonicalIP (l_NodeKey x))]> m1)
    as -> by (repeat case_match; by simplify_eq).
  intros ip e. rewrite lookup_insert_Some. intros [[_ <-]|[_ He]]; [|by eapply IH].
  apply all_dialable_elim; eauto.
Qed.

Lemma known_active_dialable ps id active :
  all_dialable ps → known_active ps id active = true → id ≠ "" → dialable ps id.
Proof.
  intros Hps Ha Hid. apply all_dialable_elim; [done|]. unfold known_active in Ha.
  rewrite (proj2 (String.eqb_neq id "") Hid) in Ha. simpl in Ha. case_match; eauto. done.
Qed.

Lemma add_subnets_safe ps l :
  all_dialable ps →
  let '(exact, imported, exit) := foldl (add_subnet (T:=T) ps) (lpm_new, lpm_new, lpm_new) l in
  table_all (subnet_safe ps) exact ∧ table_all (subnet_safe ps) imported ∧ table_all (subnet_safe ps) exit.
Proof.
  intros Hps. induction l as [|x l IH] using rev_ind; [by split_and!; apply table_all_new|].
  rewrite foldl_app. cbn [foldl]. destruct (foldl _ _ l) as [[exact imported] exit].
  destruct IH as (? & ? & ?). unfold add_subnet.
  destruct (negb (prefix.IsValid (sr_Prefix x))); [done|].
  assert (subnet_safe ps (MkSubnetRoute (prefix.Masked (sr_Prefix x)) (sr_ProfileID x)
    (known_active ps (sr_ProfileID x) (sr_Active x)) (sr_Exact x))).
  { unfold subnet_safe, route_bad. simpl.
    intros [Ha%negb_false_iff Hi%String.eqb_neq]%orb_false_iff. by eapply known_active_dialable. }
  destruct (_ =? 0)%Z, (sr_Exact x); split_and!; auto using table_all_Insert.
Qed.

Lemma add_domains_safe ps l :
  all_dialable ps →
  let '(exact, imported, automatic) := foldl (add_domain ps) ([], [], []) l in
  Forall (domain_safe ps) exact ∧ Forall (domain_safe ps) imported ∧ Forall (domain_safe ps) automatic.
Proof.
  intros Hps. induction l as [|x l IH] using rev_ind; [by split_and!|].
  rewrite foldl_app. cbn [foldl]. destruct (foldl _ _ l) as [[exact imported] automatic].
  destruct IH as (? & ? & ?). unfold add_domain. cbv zeta. set (suffix := if String.eqb _ "." then _ else _).
  destruct (String.eqb suffix ""); [done|].
  assert (domain_safe ps (MkDomainRoute suffix (do_ProfileID x)
    (known_active ps (do_ProfileID x) (do_Active x)) (do_Exact x) (do_Automatic x))).
  { intros Ha Hi. by eapply known_active_dialable. }
  simpl. destruct (do_Exact x), (do_Automatic x); split_and!; try done;
    (apply Forall_app; split; [done|by apply Forall_singleton]).
Qed.

Lemma NewRouter_parts profiles leases subnets domains (r : Router) :
  NewRouterWithPolicies profiles leases subnets domains = Ok r →
  foldM add_profile profiles (∅, ∅) = Ok (profilesByID r, suffixes r) ∧
  foldM (add_lease (profilesByID r)) leases ∅ = Ok (effectiveIPs r) ∧
  foldl (add_subnet (profilesByID r)) (lpm_new, lpm_new, lpm_new) subnets =
    (exactRoutes r, importedRoutes r, exitRoutes r) ∧
  foldl (add_domain (profilesByID r)) ([], [], []) domains = (exactDNS r, importedDNS r, automaticDNS r).
Proof.
  unfold NewRouterWithPolicies. intros Hr.
  ok_inv Hr as [byID owners] Hps. ok_inv Hr as effective Hls.
  destruct (foldl (add_subnet byID) _ _) as [[exact imported] exit] eqn:Hsub.
  destruct (foldl (add_domain byID) _ _) as [[exactD importedD] automaticD] eqn:Hdom. by simplify_eq/=.
Qed.

Lemma NewRouter_safe profiles leases subnets domains (r : Router) :
  NewRouterWithPolicies profiles leases subnets domains = Ok r → router_safe r.
Proof.
  intros (Hp & Hl & Hs & Hd)%NewRouter_parts.
  destruct (add_profiles_safe _ _ Hp) as [Hps Hown]. simpl in *.
  pose proof (add_subnets_safe (profilesByID r) subnets Hps) as Hsub. rewrite Hs in Hsub.
  pose proof (add_domains_safe (profilesByID r) domains Hps) as Hdom. rewrite Hd in Hdom.
  destruct Hsub as (? & ? & ?), Hdom as (? & ? & ?). split; try done. by eapply add_lease_safe.
Qed.
End router_facts.

(** ** Resolution *)

Section resolve_facts.
Context {T : Type → Type} `{LPMLaws T} {F : Type} `{DNSNameLaws F} {D : Type}.
Notation Router := (Router T D).

(** [best] of a list by a strictly increasing measure: the first of the largest. *)
Definition domain_fits (name : F) (r : DomainRoute) : bool :=
  match ToFQDN (do_Suffix r) with Some s => FQDNContains s name | None => false end.
Definition domain_labels (r : DomainRoute) : nat :=
  match ToFQDN (FQDN:=F) (do_Suffix r) with Some s => NumLabels s | None => 0 end.
(** [r] is the first of the routes of [l] that contain [name] in the most labels. *)
Definition first_longest (name : F) (l : list DomainRoute) (r : DomainRoute) : Prop :=
  ∃ pre post, l = pre ++ r :: post ∧ domain_fits name r = true ∧
    (∀ x, x ∈ pre → domain_fits name x = true → domain_labels x < domain_labels r) ∧
    (∀ x, x ∈ post → domain_fits name x = true → domain_labels x ≤ domain_labels r).

Lemma domain_fold_spec name l :
  match foldl (domain_step name) (None, -1)%Z l with
  | (None, n) => n = (-1)%Z ∧ ∀ x, x ∈ l → domain_fits name x = false
  | (Some r, n) => n = Z.of_nat (domain_labels r) ∧ first_longest name l r
  end.
Proof.
  induction l as [|x l IH] using rev_ind; [by split; [|intros ? ?%elem_of_nil]|].
  rewrite foldl_app. cbn [foldl]. destruct (foldl _ _ l) as [best n]. unfold domain_step.
  destruct (ToFQDN (do_Suffix x)) as [s|] eqn:Hs; cycle 1.
  { assert (domain_fits name x = false) as Hx by (unfold domain_fits; by rewrite Hs).
    destruct best as [r|].
    - destruct IH as (Hn & pre & post & -> & Hr & Hpre & Hpost). split; [done|].
      exists pre, (post ++ [x]). rewrite <-app_assoc. split_and!; [done..|].
      intros y [Hy| ->%list_elem_of_singleton]%elem_of_app; [by apply Hpost|congruence].
    - destruct IH as [Hn Hall]. split; [done|].
      intros y [Hy| ->%list_elem_of_singleton]%elem_of_app; auto. }
  assert (domain_fits name x = FQDNContains s name) as Hx by (unfold domain_fits; by rewrite Hs).
  assert (domain_labels x = NumLabels s) as Hlx by (unfold domain_labels; by rewrite Hs).
  rewrite <-Hx, <-Hlx. cbn [snd]. destruct best as [r|].
  - destruct IH as (-> & pre & post & -> & Hr & Hpre & Hpost).
    destruct (_ || _) eqn:Hg.
    + split; [done|]. exists pre, (post ++ [x]). rewrite <-app_assoc. split_and!; [done..|].
      intros y [Hy| ->%list_elem_of_singleton]%elem_of_app; [by apply Hpost|]. intros Hf.
      rewrite Hf in Hg. simpl in Hg. lia.
    + apply orb_false_iff in Hg as [Hf%negb_false_iff Hlt%Z.leb_gt]. split; [done|].
      exists (pre ++ r :: post), []. split_and!; [done..| |by intros ? ?%elem_of_nil].
      intros y [Hy|[->|Hy]%elem_of_cons]%elem_of_app Hfy; [specialize (Hpre y Hy Hfy)| |
        specialize (Hpost y Hy Hfy)]; lia.
  - destruct IH as [-> Hall]. replace (Z.of_nat (domain_labels x) <=? -1)%Z with false by lia.
    rewrite orb_false_r. destruct (domain_fits name x) eqn:Hf; simpl.
    + split; [done|]. exists l, []. split_and!; [done..| |by intros ? ?%elem_of_nil].
      intros y Hy Hfy. rewrite Hall in Hfy by done. done.
    + split; [done|]. intros y [Hy| ->%list_elem_of_singleton]%elem_of_app; auto.
Qed.

Lemma longestDomainRoute_spec name d l :
  ToFQDN name = Some d →
  match longestDomainRoute name l with
  | Some r => first_longest d l r
  | None => ∀ x, x ∈ l → domain_fits d x = false
  end.
Proof.
  intros Hd. unfold longestDomainRoute. rewrite Hd. pose proof (domain_fold_spec d l) as Hs.
  destruct (foldl _ _ l) as [[r|] n]; simpl; by destruct Hs.
Qed.

Lemma first_longest_elem d l r : first_longest d l r → r ∈ l.
Proof. intros (pre & post & -> & _). set_solver. Qed.

Lemma longestDomainRoute_elem name l r : longestDomainRoute name l = Some r → r ∈ l.
Proof.
  destruct (ToFQDN name) as [d|] eqn:Hd; [|unfold longestDomainRoute; by rewrite Hd].
  pose proof (longestDomainRoute_spec name d l Hd) as Hs. intros Hr. rewrite Hr in Hs.
  by eapply first_longest_elem.
Qed.

Lemma resolve_tiers_elem name tiers r :
  resolve_tiers name tiers = Some r → ∃ t, t ∈ tiers ∧ r ∈ t.
Proof.
  induction tiers as [|t tiers IH]; simpl; [done|].
  destruct (longestDomainRoute name t) as [r'|] eqn:Ht.
  - intros [= ->]. exists t. split; [by left|by eapply longestDomainRoute_elem].
  - intros (t' & ? & ?)%IH. exists t'. split; [by right|done].
Qed.

(** The suffix the range loop ends with: a longest one that properly contains
    the name. *)
Definition suffix_fits (name : F) (e : string * string) : bool :=
  match ToFQDN e.1 with
  | Some s => bool_decide (name ≠ s) && FQDNContains s name
  | None => false
  end.
Lemma best_suffix_spec name order :
  Forall (λ e, e.1 ≠ "") order →
  let best := best_suffix name order in
  (∀ e, e ∈ order → suffix_fits name e = true → str_len e.1 ≤ str_len best.1) ∧
  (best = ("", "") ∧ (∀ e, e ∈ order → suffix_fits name e = false) ∨
   best ∈ order ∧ suffix_fits name best = true).
Proof.
  unfold best_suffix. induction order as [|e l IH] using rev_ind; intros Hne.
  { split; [by intros ? ?%elem_of_nil|]. left. split; [done|by intros ? ?%elem_of_nil]. }
  apply Forall_app in Hne as [Hl [He _]%Forall_cons_1]. specialize (IH Hl). simpl in IH.
  rewrite foldl_app. cbn [foldl]. destruct (foldl _ _ l) as [bs bi].
  assert (suffix_step name (bs, bi) e =
    if suffix_fits name e && (str_len bs <? str_len e.1)%nat then e else (bs, bi)) as ->.
  { destruct e as [s i]. unfold suffix_step, suffix_fits. simpl. by destruct (ToFQDN s). }
  destruct IH as [Hmax Hb]. simpl in Hmax.
  destruct (suffix_fits name e) eqn:Hf; simpl; cycle 1.
  { split; [intros y [Hy| ->%list_elem_of_singleton]%elem_of_app; [auto|congruence]|].
    destruct Hb as [[-> Hno]|[Hin Hfit]]; [left|right; set_solver].
    split; [done|]. intros y [Hy| ->%list_elem_of_singleton]%elem_of_app; auto. }
  destruct (Nat.ltb_spec (str_len bs) (str_len e.1)) as [Hlt|Hge]; simpl.
  - split; [|right; set_solver].
    intros y [Hy| ->%list_elem_of_singleton]%elem_of_app Hfy; [|done]. specialize (Hmax y Hy Hfy). lia.
  - split; [intros y [Hy| ->%list_elem_of_singleton]%elem_of_app; auto|].
    destruct Hb as [[[= -> ->] Hno]|[Hin Hfit]]; [|right; set_solver].
    exfalso. apply He. destruct (e.1); [done|simpl in Hge; lia].
Qed.

(** Two normal suffixes of a name with as many bytes are the same. *)
Lemma suffix_fits_same name s1 i1 s2 i2 :
  is_fqdn name → suffix_normal (F:=F) s1 → suffix_normal (F:=F) s2 →
  suffix_fits name (s1, i1) = true → suffix_fits name (s2, i2) = true →
  str_len s1 = str_len s2 → s1 = s2.
Proof.
  intros Hname (d1 & Hd1 & <- & _) (d2 & Hd2 & <- & _). unfold suffix_fits. simpl. rewrite Hd1, Hd2.
  intros [_ Hc1]%andb_true_iff [_ Hc2]%andb_true_iff Hlen.
  destruct (decide (d1 = d2)) as [->|Hne]; [done|]. exfalso.
  assert (is_fqdn d1) as F1 by by eexists. assert (is_fqdn d2) as F2 by by eexists.
  destruct (Nat.le_ge_cases (NumLabels d1) (NumLabels d2)) as [Hn|Hn].
  - pose proof (FQDNContains_length d1 d2 F1 F2 (FQDNContains_nested _ _ _ F1 F2 Hname Hc1 Hc2 Hn) Hne). lia.
  - pose proof (FQDNContains_length d2 d1 F2 F1 (FQDNContains_nested _ _ _ F2 F1 Hname Hc2 Hc1 Hn)
      (not_eq_sym Hne)). lia.
Qed.

(** The iteration order of the suffix map does not matter. *)
Lemma best_suffix_order name (owners : gmap string string) o1 o2 :
  is_fqdn name → (∀ s id, owners !! s = Some id → suffix_normal (F:=F) s) →
  o1 ≡ₚ map_to_list owners → o2 ≡ₚ map_to_list owners →
  best_suffix name o1 = best_suffix name o2.
Proof.
  intros Hname Hnorm P1 P2.
  assert (∀ o, o ≡ₚ map_to_list owners → ∀ e, e ∈ o ↔ owners !! e.1 = Some e.2) as Hin.
  { intros o Ho [s i]. by rewrite Ho, elem_of_map_to_list. }
  assert (∀ o, o ≡ₚ map_to_list owners → Forall (λ e, e.1 ≠ "") o) as Hne.
  { intros o Ho. apply Forall_forall. intros [s i] Hs%(Hin o Ho).
    by destruct (Hnorm _ _ Hs) as (? & _ & _ & ?). }
  pose proof (best_suffix_spec name o1 (Hne _ P1)) as [M1 B1].
  pose proof (best_suffix_spec name o2 (Hne _ P2)) as [M2 B2].
  destruct (best_suffix name o1) as [s1 i1], (best_suffix name o2) as [s2 i2].
  destruct B1 as [[[= -> ->] N1]|[I1 F1]], B2 as [[[= -> ->] N2]|[I2 F2]]; [done|..].
  - rewrite N1 in F2; [done|]. by apply (Hin _ P1), (Hin _ P2).
  - rewrite N2 in F1; [done|]. by apply (Hin _ P2), (Hin _ P1).
  - apply (Hin _ P1) in I1 as L1. apply (Hin _ P2) in I2 as L2. simpl in L1, L2.
    assert (s1 = s2) as ->; [|congruence].
    apply (suffix_fits_same name s1 i1 s2 i2); eauto. apply Nat.le_antisymm.
    + apply (M2 (s1, i1)); [|done]. by apply (Hin _ P2).
    + apply (M1 (s2, i2)); [|done]. by apply (Hin _ P1).
Qed.

Lemma safe_profiles l s id p :
  foldM (add_profile (D:=D)) l (∅, ∅) = Ok s → s.1 !! id = Some p → p ∈ l ∧ sp_ID p = id.
Proof.
  intros Hf. revert id p.
  refine (foldM_ind (λ l s, ∀ id p, s.1 !! id = Some p → p ∈ l ∧ sp_ID p = id) _ _ _ _ Hf _ _).
  { intros id p Hp. simpl in Hp. by rewrite lookup_empty in Hp. }
  intros pre x [ps owners] s2 _ IH Hstep id p Hp. unfold add_profile in Hstep.
  ok_guard Hstep as _. destruct (sp_Dialer x); [|done].
  assert (s2.1 = <[sp_ID x := x]> ps) as Hs2 by (repeat case_match; by simplify_eq/=).
  rewrite Hs2, lookup_insert_Some in Hp. destruct Hp as [[<- <-]|[_ Hp]]; [set_solver|].
  apply IH in Hp as [? ?]. set_solver.
Qed.

Lemma resolve_ip_dialable (r : Router) ip port d :
  router_safe r → resolve_ip r ip port = Ok d → dialable (profilesByID r) (dc_ProfileID d).
Proof.
  intros Hr. unfold resolve_ip. destruct (effectiveIPs r !! ip) eqn:He.
  { intros [= <-]. by eapply safe_effective. }
  assert (Hroute : ∀ t v, table_all (subnet_safe (profilesByID r)) t → Lookup ip t = Some v →
    ∀ e x, (if route_bad v then Err e else Ok (MkDecision (sr_ProfileID v) x) : result resolve_error Decision) = Ok d →
      dialable (profilesByID r) (dc_ProfileID d)).
  { intros t v Ht Hv e x. destruct (route_bad v) eqn:Hb; [done|]. intros [= <-].
    by eapply (table_all_Lookup _ _ _ _ Ht Hv). }
  destruct (Lookup ip (exactRoutes r)) eqn:Hx; [eapply Hroute; [by apply safe_exact|done]|].
  destruct (Lookup ip (importedRoutes r)) eqn:Hi; [eapply Hroute; [by apply safe_imported|done]|].
  destruct (Lookup ip (exitRoutes r)) eqn:Hy; [eapply Hroute; [by apply safe_exit|done]|done].
Qed.

Lemma dotted_name host :
  ContainsChar (normalizeDNSName host) "."%char = true → ∃ d, ToFQDN (normalizeDNSName host) = Some d.
Proof.
  intros Hdot. destruct (normalizeDNSName_normal host) as (d & Hd & _); [|by exists d].
  intros He. by rewrite He in Hdot.
Qed.

Lemma resolve_name_dialable (r : Router) order host port d :
  router_safe r → order ≡ₚ map_to_list (suffixes r) →
  resolve_name r order host port = Ok d → dialable (profilesByID r) (dc_ProfileID d).
Proof.
  intros Hr Ho. unfold resolve_name. cbv zeta.
  destruct (ContainsChar _ _) eqn:Hdot; [|done]. cbn [negb].
  destruct (resolve_tiers _ _) as [rt|] eqn:Ht.
  - destruct (_ || _) eqn:Hg; [done|]. apply orb_false_iff in Hg as [Ha%negb_false_iff Hi%String.eqb_neq].
    intros [= <-]. apply resolve_tiers_elem in Ht as (t & Ht & Hin). simpl.
    assert (Forall (domain_safe (profilesByID r)) t) as Hall.
    { destruct Hr. repeat (apply elem_of_cons in Ht as [->|Ht]; [done|]). by apply elem_of_nil in Ht. }
    rewrite Forall_forall in Hall. by apply (Hall _ Hin).
  - destruct (best_suffix _ order) as [bs bi] eqn:Hb. destruct (String.eqb_spec bi ""); [done|].
    intros [= <-]. cbn [negb dc_ProfileID].
    assert (∀ e, e ∈ order → suffixes r !! e.1 = Some e.2) as Hin.
    { intros [s i]. by rewrite Ho, elem_of_map_to_list. }
    destruct (best_suffix_spec (default zero_fqdn (ToFQDN (normalizeDNSName host))) order)
      as [_ [[Hz _]|[He _]]].
    + apply Forall_forall. intros e He%Hin. by destruct (safe_suffixes r Hr _ _ He) as [(? & _ & _ & ?) _].
    + rewrite Hb in Hz. by simplify_eq.
    + rewrite Hb in He. apply Hin in He. by apply (safe_suffixes r Hr _ _ He).
Qed.

Lemma Resolve_dialable (r : Router) order network target d :
  router_safe r → order ≡ₚ map_to_list (suffixes r) →
  Resolve r order network target = Ok d → dialable (profilesByID r) (dc_ProfileID d).
Proof.
  intros Hr Ho. unfold Resolve. case_match; [done|]. destruct (SplitHostPort target) as [[host port]|]; [|done].
  destruct (ParseAddr host); [by apply resolve_ip_dialable|by eapply resolve_name_dialable].
Qed.

(** A dial through a router either fails with the resolution error or is
    handed, with the network it asked for and the resolved address, to the
    dialer of one of the profiles the router was built from; it never reaches
    the absent profile or dialer whose use would panic. *)
Theorem Dial_configured profiles leases subnets domains (r : Router) order network target :
  NewRouterWithPolicies profiles leases subnets domains = Ok r →
  order ≡ₚ map_to_list (suffixes r) →
  match Dial r order network target with
  | DialErr e => Resolve r order network target = Err e
  | DialUnconfigured | DialPanic => False
  | DialRequest dialer net addr =>
    net = network ∧ ∃ p, p ∈ profiles ∧ sp_Dialer p = Some dialer ∧
      Resolve r order network target = Ok (MkDecision (sp_ID p) addr)
  end.
Proof.
  intros Hr Ho. unfold Dial. destruct (Resolve r order network target) as [d|e] eqn:Hres; [|done].
  destruct (Resolve_dialable r _ _ _ _ (NewRouter_safe _ _ _ _ _ Hr) Ho Hres) as (p & dl & Hp & Hd).
  rewrite Hp, Hd. split; [done|]. exists p. apply NewRouter_parts in Hr as (Hps & _).
  destruct (safe_profiles _ _ _ _ Hps Hp) as [? ->]. by destruct d.
Qed.

(** The decision does not depend on the order in which Go's map iteration
    visits the MagicDNS suffixes. *)
Theorem Resolve_order_free profiles leases subnets domains (r : Router) o1 o2 network target :
  NewRouterWithPolicies profiles leases subnets domains = Ok r →
  o1 ≡ₚ map_to_list (suffixes r) → o2 ≡ₚ map_to_list (suffixes r) →
  Resolve r o1 network target = Resolve r o2 network target.
Proof.
  intros Hr%NewRouter_safe P1 P2. unfold Resolve. case_match; [done|].
  destruct (SplitHostPort target) as [[host port]|]; [|done]. destruct (ParseAddr host); [done|].
  unfold resolve_name. cbv zeta. destruct (ContainsChar _ _) eqn:Hdot; [|done].
  destruct (dotted_name host Hdot) as [d Hd]. rewrite Hd.
  change (default zero_fqdn (Some d)) with d.
  rewrite (best_suffix_order d (suffixes r) o1 o2); [done| |  |done..]; [by eexists|].
  intros s id Hs. by apply (safe_suffixes r Hr) in Hs as [? _].
Qed.

Lemma add_lease_kept ps l0 l m m' x :
  foldM (add_lease (D:=D) ps) l m = Ok m' → m !! x = Some l0 → m' !! x = Some l0.
Proof.
  intros Hf Hx. refine (foldM_ind (λ _ m, m !! x = Some l0) _ _ _ _ Hf Hx _).
  clear. intros pre y m1 m2 _ Hx Hstep. unfold add_lease in Hstep.
  destruct (bool_decide _); [by simplify_eq|]. destruct (ps !! _); [|by simplify_eq].
  destruct (m1 !! l_EffectiveIP y) as [e|] eqn:He; [|simplify_eq; rewrite lookup_insert_ne; congruence].
  destruct (_ || _) eqn:Hg; [done|]. simplify_eq.
  apply orb_false_iff in Hg as [Hp%negb_false_iff%String.eqb_eq Hc%negb_false_iff%bool_decide_eq_true].
  rewrite lookup_insert. case_decide as Heq; [|done]. subst x. rewrite He in Hx. simplify_eq.
  destruct l0. simpl in *. congruence.
Qed.
Lemma add_lease_found ps ls m m' l :
  foldM (add_lease (D:=D) ps) ls m = Ok m' → l ∈ ls →
  l_EffectiveIP l ≠ k_CanonicalIP (l_NodeKey l) → is_Some (ps !! k_ProfileID (l_NodeKey l)) →
  m' !! l_EffectiveIP l = Some (MkEffectiveRoute (k_ProfileID (l_NodeKey l)) (k_CanonicalIP (l_NodeKey l))).
Proof.
  intros Hf Hin Hne [p Hp]. revert m Hf. induction Hin as [l ls|l x ls Hin IH]; intros m; simpl.
  - intros (m1 & Hs & Hf)%bind_ok_inv. eapply add_lease_kept; [exact Hf|].
    unfold add_lease in Hs. rewrite bool_decide_false, Hp in Hs by done.
    repeat case_match; simplify_eq; by rewrite lookup_insert_eq.
  - intros (m1 & _ & Hf)%bind_ok_inv. by eapply IH.
Qed.

Lemma tcp_network network : network ∈ ["tcp"; "tcp4"; "tcp6"] →
  negb (String.eqb network "tcp") && negb (String.eqb network "tcp4") && negb (String.eqb network "tcp6") = false.
Proof.
  intros Hn. repeat (apply elem_of_cons in Hn as [->|Hn]; [done|]). by apply elem_of_nil in Hn.
Qed.

(** A dial to the effective address of a lease of a configured profile
    goes to that profile, at the node's canonical address, whatever the route
    tables say; and one effective address never stands for two targets. *)
Theorem Resolve_leased profiles leases subnets domains (r : Router) order l network host port :
  NewRouterWithPolicies profiles leases subnets domains = Ok r →
  l ∈ leases → l_EffectiveIP l ≠ k_CanonicalIP (l_NodeKey l) →
  is_Some (profilesByID r !! k_ProfileID (l_NodeKey l)) →
  network ∈ ["tcp"; "tcp4"; "tcp6"] → ParseAddr host = Some (l_EffectiveIP l) →
  ∀ target, SplitHostPort target = Some (host, port) →
  Resolve r order network target =
    Ok (MkDecision (k_ProfileID (l_NodeKey l)) (JoinHostPort (addr_string (k_CanonicalIP (l_NodeKey l))) port)).
Proof.
  intros (_ & Hl & _)%NewRouter_parts Hin Hne Hp Hnet Hparse target Hsplit. unfold Resolve.
  rewrite tcp_network, Hsplit, Hparse by done. unfold resolve_ip. by rewrite (add_lease_found _ _ _ _ _ Hl Hin Hne Hp).
Qed.

Lemma no_match_None name d t :
  ToFQDN name = Some d → (∀ x, x ∈ t → domain_fits d x = false) → longestDomainRoute name t = None.
Proof.
  intros Hd Hno. pose proof (longestDomainRoute_spec name d t Hd) as Hs.
  destruct (longestDomainRoute name t) as [x|]; [|done].
  apply first_longest_elem in Hs as Hin. destruct Hs as (? & ? & _ & Hf & _). by rewrite Hno in Hf.
Qed.
Lemma first_longest_unique (d : F) t r1 r2 : first_longest d t r1 → first_longest d t r2 → r1 = r2.
Proof.
  intros (p1 & q1 & -> & F1 & A1 & B1) (p2 & q2 & Heq & F2 & A2 & B2).
  apply app_eq_app in Heq as [k [[-> Hk]|[-> Hk]]]; destruct k as [|y k]; simpl in Hk;
    injection Hk as Hy Hq; try done; subst y.
  - subst q2. specialize (A1 r2 ltac:(set_solver) F2). specialize (B2 r1 ltac:(set_solver) F1). lia.
  - subst q1. specialize (A2 r1 ltac:(set_solver) F1). specialize (B1 r2 ltac:(set_solver) F2). lia.
Qed.
Lemma resolve_tiers_spec name d tiers k t rt :
  ToFQDN name = Some d → tiers !! k = Some t → first_longest d t rt →
  (∀ j t', j < k → tiers !! j = Some t' → ∀ x, x ∈ t' → domain_fits d x = false) →
  resolve_tiers name tiers = Some rt.
Proof.
  intros Hd. revert k; induction tiers as [|t0 tiers IH]; intros k; [by rewrite lookup_nil|].
  destruct k as [|k]; simpl; intros Ht Hrt Hno.
  - simplify_eq. pose proof (longestDomainRoute_spec name d t Hd) as Hs.
    destruct (longestDomainRoute name t) as [x|].
    + f_equal. by eapply first_longest_unique.
    + apply first_longest_elem in Hrt as Hin. destruct Hrt as (? & ? & _ & Hf & _). by rewrite Hs in Hf.
  - rewrite (no_match_None name d t0 Hd) by (apply (Hno 0); [lia|done]).
    apply (IH k); [done..|]. intros j t' Hj. apply (Hno (S j)). lia.
Qed.

(** A DNS name is decided by the first tier (exact, imported, automatic)
    with a route that contains it, and in that tier by the first route with the
    most labels; when that route is not active the dial fails, whatever the
    other tiers and suffixes offer. *)
Theorem Resolve_tiered (r : Router) order network target host port d k tier rt :
  network ∈ ["tcp"; "tcp4"; "tcp6"] → SplitHostPort target = Some (host, port) → ParseAddr host = None →
  ContainsChar (normalizeDNSName host) "."%char = true → ToFQDN (normalizeDNSName host) = Some d →
  [exactDNS r; importedDNS r; automaticDNS r] !! k = Some tier → first_longest d tier rt →
  (∀ j t, j < k → [exactDNS r; importedDNS r; automaticDNS r] !! j = Some t →
     ∀ x, x ∈ t → domain_fits d x = false) →
  Resolve r order network target =
    if do_Active rt && negb (String.eqb (do_ProfileID rt) "")
    then Ok (MkDecision (do_ProfileID rt) (JoinHostPort (normalizeDNSName host) port))
    else Err (EDomainUnavailable host).
Proof.
  intros Hnet Hsplit Hparse Hdot Hd Ht Hrt Hno. unfold Resolve.
  rewrite tcp_network, Hsplit, Hparse by done. unfold resolve_name. cbv zeta. rewrite Hdot. cbn [negb].
  rewrite (resolve_tiers_spec _ _ _ _ _ _ Hd Ht Hrt Hno). by destruct (do_Active rt), (String.eqb _ "").
Qed.

(** A name that no DNS route contains goes to the profile whose MagicDNS
    suffix is the longest that properly contains it; a suffix two profiles
    share is ambiguous and refuses the dial. *)
Theorem Resolve_suffix profiles leases subnets domains (r : Router) order network target host port d s id :
  NewRouterWithPolicies profiles leases subnets domains = Ok r → order ≡ₚ map_to_list (suffixes r) →
  network ∈ ["tcp"; "tcp4"; "tcp6"] → SplitHostPort target = Some (host, port) → ParseAddr host = None →
  ContainsChar (normalizeDNSName host) "."%char = true → ToFQDN (normalizeDNSName host) = Some d →
  (∀ t, t ∈ [exactDNS r; importedDNS r; automaticDNS r] → ∀ x, x ∈ t → domain_fits d x = false) →
  suffixes r !! s = Some id → suffix_fits d (s, id) = true →
  (∀ s' id', suffixes r !! s' = Some id' → suffix_fits d (s', id') = true → str_len s' ≤ str_len s) →
  Resolve r order network target =
    if String.eqb id "" then Err (ENoSuffix host)
    else Ok (MkDecision id (JoinHostPort (normalizeDNSName host) port)).
Proof.
  intros Hr%NewRouter_safe Ho Hnet Hsplit Hparse Hdot Hd Hno Hs Hf Hmax. unfold Resolve.
  rewrite tcp_network, Hsplit, Hparse by done. unfold resolve_name. cbv zeta. rewrite Hdot, Hd. cbn [negb resolve_tiers].
  rewrite !(no_match_None _ d) by (try done; apply Hno; set_solver).
  change (default zero_fqdn (Some d)) with d.
  assert (∀ e, e ∈ order ↔ suffixes r !! e.1 = Some e.2) as Hin.
  { intros [s' i']. by rewrite Ho, elem_of_map_to_list. }
  destruct (best_suffix_spec d order) as [Hbest Hb].
  { apply Forall_forall. intros e He%Hin. by destruct (safe_suffixes r Hr _ _ He) as [(? & _ & _ & ?) _]. }
  assert (best_suffix d order = (s, id)) as ->; [|by destruct (String.eqb id "")].
  destruct (best_suffix d order) as [bs bi]. simpl in *.
  destruct Hb as [[_ Hno']|[Hbin Hbf]]; [rewrite (Hno' (s, id)) in Hf; [done|by apply Hin]|].
  apply Hin in Hbin. simpl in Hbin. assert (bs = s) as ->; [|congruence].
  apply (suffix_fits_same d bs bi s id); [by eexists|..|done|done|].
  - by apply (safe_suffixes r Hr _ _ Hbin).
  - by apply (safe_suffixes r Hr _ _ Hs).
  - apply Nat.le_antisymm; [by eapply Hmax|]. apply (Hbest (s, id)); [by apply Hin|done].
Qed.
End resolve_facts.

(** ** A concrete router *)

(** Two profiles, [work] with the suffix [corp.ts.net] and [home] with
    [home.ts.net]; an address of [work] leased as [100.96.0.7]; an exact DNS
    route for [net] and a longer imported one. *)
Definition ip_of (s : string) : Addr := default AddrInvalid (ParseAddr s).
Definition test_profiles : list (SocksProfile nat) :=
  [MkSocksProfile "work" "Corp.ts.net." (Some 1); MkSocksProfile "home" "home.ts.net" (Some 2)].
Definition test_lease : Lease :=
  MkLease (MkKey "work" "n1" (ip_of "100.64.0.1")) (ip_of "100.96.0.7").
Definition test_domains : list DomainRoute :=
  [MkDomainRoute "example" "home" true true false; MkDomainRoute "a.example" "work" true false false].
Definition test_subnets : list SubnetRoute := [MkSubnetRoute (MkPrefix (ip_of "10.0.0.0") 8) "home" true true].
Notation test_router :=
  (NewRouterWithPolicies (F:=option (list string)) test_profiles [test_lease] test_subnets test_domains).
Definition the_router : Router PrefixMap nat := match test_router with Ok r => r | Err _ => empty_router end.
Lemma test_router_ok : test_router = Ok the_router.
Proof. vm_compute. reflexivity. Qed.
Notation test_order := (map_to_list (suffixes the_router)).
Notation test_resolve := (Resolve (F:=option (list string)) the_router test_order "tcp").

Example test_resolutions :
  test_resolve <$> ["100.96.0.7:22"; "10.1.2.3:80"; "db.corp.ts.net:5432"; "100.64.0.1:22"; "host:1"] =
  [Ok (MkDecision "work" "100.64.0.1:22"); Ok (MkDecision "home" "10.1.2.3:80");
   Ok (MkDecision "work" "db.corp.ts.net:5432"); Err (ECanonicalLiteral (ip_of "100.64.0.1"));
   Err (EUnqualified "host")].
Proof. vm_compute. reflexivity. Qed.

(** The exact route for [example] decides [x.a.example], although the imported
    route [a.example] is longer. *)
Example tier_before_length : test_resolve "x.a.example:443" = Ok (MkDecision "home" "x.a.example:443").
Proof. vm_compute. reflexivity. Qed.

Lemma Dial_configured_witness :
  match Dial (F:=option (list string)) the_router test_order "tcp" "100.96.0.7:22" with
  | DialErr e => Resolve (F:=option (list string)) the_router test_order "tcp" "100.96.0.7:22" = Err e
  | DialUnconfigured | DialPanic => False
  | DialRequest dialer net addr =>
    net = "tcp" ∧ ∃ p, p ∈ test_profiles ∧ sp_Dialer p = Some dialer ∧
      test_resolve "100.96.0.7:22" = Ok (MkDecision (sp_ID p) addr)
  end.
Proof. exact (Dial_configured test_profiles [test_lease] test_subnets test_domains the_router test_order "tcp" "100.96.0.7:22" test_router_ok (reflexivity _)). Defined.

Lemma Resolve_order_free_witness :
  Resolve (F:=option (list string)) the_router (reverse test_order) "tcp" "db.corp.ts.net:5432" =
  test_resolve "db.corp.ts.net:5432".
Proof.
  apply (Resolve_order_free test_profiles [test_lease] test_subnets test_domains the_router (reverse test_order) test_order "tcp" "db.corp.ts.net:5432"
    test_router_ok); [apply reverse_Permutation|done].
Defined.

Lemma Resolve_leased_witness :
  test_resolve "100.96.0.7:22" = Ok (MkDecision "work" "100.64.0.1:22").
Proof.
  apply (Resolve_leased test_profiles [test_lease] test_subnets test_domains the_router test_order test_lease "tcp" "100.96.0.7" "22" test_router_ok).
  - by left.
  - by vm_compute.
  - vm_compute. by eexists.
  - by left.
  - by vm_compute.
  - by vm_compute.
Defined.

Lemma Resolve_tiered_witness :
  test_resolve "x.a.example:443" = Ok (MkDecision "home" "x.a.example:443").
Proof.
  eapply eq_trans; [apply (Resolve_tiered the_router test_order "tcp" "x.a.example:443" "x.a.example" "443"
    (Some ["x"; "a"; "example"]) 0
    [MkDomainRoute "example" "home" true true false] (MkDomainRoute "example" "home" true true false));
    [by left|by vm_compute..| |lia]|by vm_compute].
  exists [], []. split_and!; [by vm_compute..| |]; by intros x ?%elem_of_nil.
Defined.

Lemma Resolve_suffix_witness :
  test_resolve "db.corp.ts.net:5432" = Ok (MkDecision "work" "db.corp.ts.net:5432").
Proof.
  eapply eq_trans; [apply (Resolve_suffix test_profiles [test_lease] test_subnets test_domains the_router test_order "tcp" "db.corp.ts.net:5432" "db.corp.ts.net" "5432"
    (Some ["db"; "corp"; "ts"; "net"]) "corp.ts.net" "work" test_router_ok);
    [done|by left|by vm_compute..| |by vm_compute|by vm_compute|]|by vm_compute].
  - intros t Ht x Hx. revert t Ht x Hx. change (∀ t, t ∈ [exactDNS the_router; importedDNS the_router; automaticDNS the_router] → ∀ x, x ∈ t → domain_fits (Some ["db"; "corp"; "ts"; "net"]) x = false).
    intros t Ht x Hx.
    repeat (apply elem_of_cons in Ht as [->|Ht]; [vm_compute in Hx; set_solver|]). by apply elem_of_nil in Ht.
  - intros s' id' Hs%elem_of_map_to_list. vm_compute in Hs.
    repeat (apply elem_of_cons in Hs as [[= -> ->]|Hs]; [by vm_compute; lia|]). by apply elem_of_nil in Hs.
Defined.
