(* ===== verification/PacketPool.v ===== *)
(** * Owned packets

    [src/tunmux/packet.go]: the pooled buffers that carry packets between the
    host TUN and the profile TUNs.  Buffers and pools live in a [heap]; a
    [Packet] is a handle that names a buffer and the generation it was acquired
    in, so a copy kept after the release is detected.  A panic of the code is a
    value of [panic].

    [sync.Pool] is free to return any buffer that was put into it or a new one;
    [acquire] takes that choice as an argument.  Every operation is atomic: an
    acquired buffer is in no pool, and a released one enters its pool last. *)

From Stdlib Require Import Strings.Byte.
From S2P Require Import Prelude.
Local Open Scope Z_scope.

Record packetBuffer : Type := MkBuffer {
  pb_data : list byte; pb_owner : nat; pb_pooled : bool; pb_generation : Z; pb_inUse : bool }.
(** A pool, with the buffers [sync.Pool] holds. *)
Record packetPool : Type := MkPool { pp_headroom : Z; pp_mtu : Z; pp_buffers : list nat }.
Record heap : Type := MkHeap {
  h_buffers : gmap nat packetBuffer; h_pools : gmap nat packetPool }.
Record Packet : Type := MkPacket {
  pk_buffer : option nat; pk_generation : Z; pk_offset : Z; pk_size : Z }.

Inductive panic : Type :=
  | PanicNilPool | PanicNegativeSize | PanicOwnedBuffer
  | PanicReleased | PanicStale | PanicBounds | PanicUnowned.

#[export] Instance panic_eq_dec : EqDecision panic.
Proof. solve_decision. Defined.
#[export] Instance Packet_eq_dec : EqDecision Packet.
Proof. solve_decision. Defined.

Definition uint64 (z : Z) : Z := z `mod` 2 ^ 64.
(** [make([]byte, n)]. *)
Definition make_bytes (n : Z) : list byte := replicate (Z.to_nat n) x00.

Definition set_buffers (h : heap) (m : gmap nat packetBuffer) : heap := MkHeap m (h_pools h).
Definition set_free (h : heap) (pid : nat) (pool : packetPool) (l : list nat) : heap :=
  MkHeap (h_buffers h) (<[pid := MkPool (pp_headroom pool) (pp_mtu pool) l]> (h_pools h)).
Definition set_inUse (b : packetBuffer) (v : bool) : packetBuffer :=
  MkBuffer (pb_data b) (pb_owner b) (pb_pooled b) (pb_generation b) v.
Definition own (b : packetBuffer) : packetBuffer :=
  MkBuffer (pb_data b) (pb_owner b) (pb_pooled b) (uint64 (pb_generation b + 1)) true.
Definition set_data (b : packetBuffer) (d : list byte) : packetBuffer :=
  MkBuffer d (pb_owner b) (pb_pooled b) (pb_generation b) (pb_inUse b).

Definition newPacketPool (h : heap) (pid : nat) (headroom mtu : Z) : heap :=
  MkHeap (h_buffers h) (<[pid := MkPool headroom mtu []]> (h_pools h)).

(** [p.buffers.Get()]: the chosen buffer when the pool holds it, [New] otherwise. *)
Definition pool_get (h : heap) (pid : nat) (pool : packetPool) (choice : option nat) : nat * heap :=
  match choice with
  | Some id =>
    if (id ∈? pp_buffers pool)
    then (id, set_free h pid pool (List.filter (λ x, negb (x =? id)%nat) (pp_buffers pool)))
    else let id := fresh (dom (h_buffers h)) in
         (id, set_buffers h (<[id := MkBuffer (make_bytes (pp_headroom pool + pp_mtu pool)) pid true 0 false]>
                (h_buffers h)))
  | None =>
    let id := fresh (dom (h_buffers h)) in
    (id, set_buffers h (<[id := MkBuffer (make_bytes (pp_headroom pool + pp_mtu pool)) pid true 0 false]>
           (h_buffers h)))
  end.

(** The buffer for [size] bytes: a pooled one, or its own when it is too large. *)
Definition pick (h : heap) (pid : nat) (pool : packetPool) (size : Z) (choice : option nat) : nat * heap :=
  if size <=? pp_mtu pool then pool_get h pid pool choice
  else let id := fresh (dom (h_buffers h)) in
       (id, set_buffers h (<[id := MkBuffer (make_bytes (pp_headroom pool + size)) pid false 0 false]>
              (h_buffers h))).

Definition acquire (h : heap) (pid : nat) (size : Z) (choice : option nat) : result panic (Packet * heap) :=
  match h_pools h !! pid with
  | None => Err PanicNilPool
  | Some pool =>
    _ ← guard_err (size <? 0) PanicNegativeSize;
    let '(id, h) := pick h pid pool size choice in
    match h_buffers h !! id with
    | None => Err PanicNilPool
    | Some b =>
      _ ← guard_err (pb_inUse b) PanicOwnedBuffer;
      Ok (MkPacket (Some id) (uint64 (pb_generation b + 1)) (pp_headroom pool) size,
          set_buffers h (<[id := own b]> (h_buffers h)))
    end
  end.

Definition validate (h : heap) (p : Packet) : result panic (nat * packetBuffer) :=
  match pk_buffer p with
  | None => Err PanicReleased
  | Some id =>
    match h_buffers h !! id with
    | None => Err PanicReleased
    | Some b =>
      _ ← guard_err (negb (pk_generation p =? pb_generation b) || negb (pb_inUse b)) PanicStale;
      _ ← guard_err ((pk_offset p <? 0) || (pk_size p <? 0) ||
                     (Z.of_nat (length (pb_data b)) <? pk_offset p + pk_size p)) PanicBounds;
      Ok (id, b)
    end
  end.

(** [data[lo : hi]]. *)
Definition slice (l : list byte) (lo hi : Z) : list byte := take (Z.to_nat (hi - lo)) (drop (Z.to_nat lo) l).
Definition Bytes (h : heap) (p : Packet) : result panic (list byte) :=
  '(_, b) ← validate h p;
  Ok (slice (pb_data b) (pk_offset p) (pk_offset p + pk_size p)).
Definition writeBuffer (h : heap) (p : Packet) : result panic (list byte * Z) :=
  '(_, b) ← validate h p;
  Ok (slice (pb_data b) 0 (pk_offset p + pk_size p), pk_offset p).

(** Writing through the slice that [Bytes] returns: [copy(p.Bytes(), bs)]. *)
Definition overwrite (l : list byte) (at_ : nat) (bs : list byte) : list byte :=
  take at_ l ++ bs ++ drop (at_ + length bs) l.
Definition write_bytes (h : heap) (p : Packet) (bs : list byte) : result panic heap :=
  '(id, b) ← validate h p;
  Ok (set_buffers h (<[id := set_data b (overwrite (pb_data b) (Z.to_nat (pk_offset p))
        (take (Z.to_nat (pk_size p)) bs))]> (h_buffers h))).
Definition copy (h : heap) (pid : nat) (data : list byte) (choice : option nat) : result panic (Packet * heap) :=
  '(p, h) ← acquire h pid (Z.of_nat (length data)) choice;
  h ← write_bytes h p data;
  Ok (p, h).

(** [Release]: the handle it is called on becomes the zero packet. *)
Definition zero_packet : Packet := MkPacket None 0 0 0.
Definition Release (h : heap) (p : Packet) : result panic (Packet * heap) :=
  '(id, b) ← validate h p;
  _ ← guard_err (negb (pb_inUse b)) PanicUnowned;
  let h := set_buffers h (<[id := set_inUse b false]> (h_buffers h)) in
  if pb_pooled b then
    match h_pools h !! pb_owner b with
    | None => Err PanicNilPool
    | Some pool => Ok (zero_packet, set_free h (pb_owner b) pool (id :: pp_buffers pool))
    end
  else Ok (zero_packet, h).

(** A program's use of the pool, misuse included: any handle may be released or
    written, whoever holds it. *)
Inductive heap_step : heap → nat → heap → Prop :=
  | step_acquire h pid size choice p h' :
      acquire h pid size choice = Ok (p, h') → heap_step h 1 h'
  | step_release h p z h' : Release h p = Ok (z, h') → heap_step h 0 h'
  | step_write h p bs h' : write_bytes h p bs = Ok h' → heap_step h 0 h'.
(** [heap_steps h n h']: an execution with [n] acquisitions. *)
Inductive heap_steps : heap → nat → heap → Prop :=
  | steps_refl h : heap_steps h 0 h
  | steps_cons h h1 h2 n m : heap_step h n h1 → heap_steps h1 m h2 → heap_steps h (n + m) h2.

(** ** Ownership accounts *)

Definition live (h : heap) (p : Packet) : Prop := is_ok (validate h p) = true.
Definition params (h : heap) (pid : nat) : option (Z * Z) :=
  (λ pool, (pp_headroom pool, pp_mtu pool)) <$> h_pools h !! pid.

(** A buffer that a pool offers is free, its own and of the pool's size. *)
Definition offered (h : heap) (pid : nat) (pool : packetPool) (id : nat) : Prop :=
  ∃ b, h_buffers h !! id = Some b ∧ pb_inUse b = false ∧ pb_owner b = pid ∧ pb_pooled b = true.
Definition pooled_ok (h : heap) (b : packetBuffer) : Prop :=
  pb_pooled b = true → ∃ pool, h_pools h !! pb_owner b = Some pool ∧
    Z.of_nat (length (pb_data b)) = pp_headroom pool + pp_mtu pool.
Record pools_ok (h : heap) : Prop := {
  pools_sizes pid pool : h_pools h !! pid = Some pool → 0 ≤ pp_headroom pool ∧ 0 ≤ pp_mtu pool;
  pools_offered pid pool id : h_pools h !! pid = Some pool → id ∈ pp_buffers pool → offered h pid pool id;
  pools_pooled id b : h_buffers h !! id = Some b → pooled_ok h b }.

(** [accounts h ps]: the packets [ps] are owned, each by one holder, and they are
    all the owned packets of the heap. *)
Record accounts (h : heap) (ps : list Packet) : Prop := {
  acc_live : Forall (live h) ps;
  acc_nodup : NoDup (pk_buffer <$> ps);
  acc_used id b : h_buffers h !! id = Some b → pb_inUse b = true → Some id ∈ pk_buffer <$> ps;
  acc_pools : pools_ok h }.

Lemma accounts_perm h ps qs : ps ≡ₚ qs → accounts h ps → accounts h qs.
Proof. intros Hp []. split; [by rewrite <-Hp|by rewrite <-Hp| |done]. intros. rewrite <-Hp. eauto. Qed.

Lemma validate_Ok h p id b :
  validate h p = Ok (id, b) ↔
  pk_buffer p = Some id ∧ h_buffers h !! id = Some b ∧ pk_generation p = pb_generation b ∧
  pb_inUse b = true ∧ 0 ≤ pk_offset p ∧ 0 ≤ pk_size p ∧ pk_offset p + pk_size p ≤ Z.of_nat (length (pb_data b)).
Proof.
  unfold validate. destruct (pk_buffer p) as [i|]; [|by split; [|intros ([=] & _)]].
  destruct (h_buffers h !! i) as [b'|] eqn:Hb; cycle 1.
  { split; [done|]. intros ([= ->] & ? & _). congruence. }
  split.
  - intros Hv. ok_guard Hv as Hg. ok_guard Hv as Hr. simplify_eq.
    apply orb_false_iff in Hg as [Hg%negb_false_iff Hu%negb_false_iff]. split_and!; lia || done.
  - intros ([= ->] & Hb' & Hg & Hu & ? & ? & ?). rewrite Hb in Hb'. simplify_eq.
    rewrite Hg, Z.eqb_refl, Hu. simpl.
    replace (_ || _ || _) with false by lia. done.
Qed.
Lemma live_Ok h p : live h p → ∃ id b, validate h p = Ok (id, b).
Proof. unfold live. destruct (validate h p) as [[id b]|]; [eauto|done]. Qed.

(** Validation depends only on the handle's buffer. *)
Lemma validate_frame h h' p :
  (∀ id, pk_buffer p = Some id → h_buffers h' !! id = h_buffers h !! id) → validate h' p = validate h p.
Proof. intros Hf. unfold validate. destruct (pk_buffer p) as [id|]; [|done]. by rewrite Hf. Qed.

(** The buffer [acquire] picks, before it is owned. *)
Record picked (h : heap) (pid : nat) (pool : packetPool) (size : Z) (id : nat) (h1 : heap) (b : packetBuffer) : Prop := {
  pick_buffer : h_buffers h1 !! id = Some b;
  pick_free : pb_inUse b = false;
  pick_size : pp_headroom pool + size ≤ Z.of_nat (length (pb_data b));
  pick_frame j : j ≠ id → h_buffers h1 !! j = h_buffers h !! j;
  pick_unused b' : h_buffers h !! id = Some b' → pb_inUse b' = false;
  pick_params : ∀ q, params h1 q = params h q;
  pick_not_offered q pool' : h_pools h1 !! q = Some pool' → id ∉ pp_buffers pool';
  pick_pools : pools_ok h1 }.

Lemma length_make n : 0 ≤ n → Z.of_nat (length (make_bytes n)) = n.
Proof. intros. unfold make_bytes. rewrite length_replicate. lia. Qed.

Lemma picked_new h pid pool size cap pooled :
  pools_ok h → h_pools h !! pid = Some pool → 0 ≤ size → size ≤ cap →
  (pooled = true → cap = pp_mtu pool) →
  let id := fresh (dom (h_buffers h)) in
  let b := MkBuffer (make_bytes (pp_headroom pool + cap)) pid pooled 0 false in
  picked h pid pool size id (set_buffers h (<[id := b]> (h_buffers h))) b.
Proof.
  intros Hok Hp Hsize Hcap Hpooled id b. destruct (pools_sizes h Hok _ _ Hp).
  assert (h_buffers h !! id = None) as Hfresh.
  { apply not_elem_of_dom. apply is_fresh. }
  assert (Hlen : Z.of_nat (length (pb_data b)) = pp_headroom pool + cap) by (apply length_make; lia).
  split; simpl; try done.
  - by rewrite lookup_insert_eq.
  - rewrite length_make; lia.
  - intros j Hj. by rewrite lookup_insert_ne.
  - intros b'. by rewrite Hfresh.
  - intros q pool' Hq Hin. destruct (pools_offered h Hok _ _ _ Hq Hin) as (b' & Hb' & _). congruence.
  - split; simpl.
    + apply Hok.
    + intros q pool' j Hq Hin. destruct (pools_offered h Hok _ _ _ Hq Hin) as (b' & Hb' & ?).
      exists b'. simpl. rewrite lookup_insert_ne by congruence. done.
    + intros j b'. rewrite lookup_insert_Some. intros [[<- <-]|[_ Hb']]; [|by apply (pools_pooled h Hok j)].
      intros Ht. simpl in Ht. exists pool. split; [done|]. rewrite Hlen, Hpooled; done.
Qed.

Lemma picked_reuse h pid pool size id :
  pools_ok h → h_pools h !! pid = Some pool → size ≤ pp_mtu pool → id ∈ pp_buffers pool →
  ∃ b, picked h pid pool size id
    (set_free h pid pool (List.filter (λ x, negb (x =? id)%nat) (pp_buffers pool))) b.
Proof.
  intros Hok Hp Hsize Hin. destruct (pools_offered h Hok _ _ _ Hp Hin) as (b & Hb & Hf & Ho & Hpl).
  destruct (pools_pooled h Hok _ _ Hb Hpl) as (pool' & Hp' & Hlen). subst pid. simplify_eq.
  exists b. split; try done.
  - lia.
  - intros b' ?. by simplify_eq/=.
  - intros q. unfold params. simpl. destruct (decide (q = pb_owner b)) as [->|?].
    + by rewrite lookup_insert_eq, Hp.
    + by rewrite lookup_insert_ne.
  - intros q pool'. simpl. rewrite lookup_insert_Some. intros [[<- <-]|[Hq Hp']]; simpl.
    + intros [_ Hc]%list_elem_of_In%filter_In. by rewrite Nat.eqb_refl in Hc.
    + intros Hin'. destruct (pools_offered h Hok _ _ _ Hp' Hin') as (b' & ? & _ & ? & _). by simplify_eq.
  - split; simpl.
    + intros q pool'. rewrite lookup_insert_Some. intros [[<- <-]|[_ ?]]; simpl; by eapply pools_sizes.
    + intros q pool' j. rewrite lookup_insert_Some. intros [[<- <-]|[_ Hq]] Hj; simpl in *.
      * apply list_elem_of_In, filter_In in Hj as [Hj%list_elem_of_In _].
        apply (pools_offered h Hok _ _ _ Hp Hj).
      * apply (pools_offered h Hok _ _ _ Hq Hj).
    + intros j b' Hb' Ht. destruct (pools_pooled h Hok _ _ Hb' Ht) as (pool' & Hp' & Hl). simpl.
      destruct (decide (pb_owner b' = pb_owner b)) as [He|Hne].
      * rewrite He, lookup_insert_eq. rewrite He in Hp'. simplify_eq. by eexists.
      * rewrite lookup_insert_ne by done. by eexists.
Qed.

(** Changing one buffer that no pool offers keeps the pools in order. *)
Lemma pools_ok_insert h id b b' :
  pools_ok h → h_buffers h !! id = Some b →
  length (pb_data b') = length (pb_data b) → pb_owner b' = pb_owner b → pb_pooled b' = pb_pooled b →
  (pb_inUse b' = pb_inUse b ∨ ∀ pid pool, h_pools h !! pid = Some pool → id ∉ pp_buffers pool) →
  pools_ok (set_buffers h (<[id := b']> (h_buffers h))).
Proof.
  intros Hok Hb Hlen Hown Hpl Huse. split; simpl.
  - apply Hok.
  - intros pid pool j Hp Hj. destruct (pools_offered h Hok _ _ _ Hp Hj) as (bj & Hbj & Hf & ?).
    destruct (decide (j = id)) as [->|Hne].
    + exists b'. simpl. rewrite lookup_insert_eq. simplify_eq.
      destruct Huse as [Huse|Huse]; [|by destruct (Huse _ _ Hp)].
      split_and!; [done|congruence|naive_solver|naive_solver].
    + exists bj. simpl. by rewrite lookup_insert_ne.
  - intros j bj. rewrite lookup_insert_Some. intros [[<- <-]|[_ Hbj]]; [|by apply (pools_pooled h Hok j)].
    intros Ht. rewrite Hpl in Ht. destruct (pools_pooled h Hok _ _ Hb Ht) as (pool & Hp & Hl).
    exists pool. simpl. by rewrite Hown, Hlen.
Qed.

Lemma live_insert_other h id b q :
  pk_buffer q ≠ Some id → validate (set_buffers h (<[id := b]> (h_buffers h))) q = validate h q.
Proof.
  intros Hq. apply validate_frame. intros j Hj. simpl. rewrite lookup_insert_ne; [done|congruence].
Qed.

(** Acquiring never panics on a sound heap; the new packet has a buffer of its
    own and the other packets are as they were. *)
Lemma acquire_spec h ps pid pool size choice :
  accounts h ps → h_pools h !! pid = Some pool → 0 ≤ size →
  ∃ p h', acquire h pid size choice = Ok (p, h') ∧ accounts h' (p :: ps) ∧
    pk_size p = size ∧ pk_offset p = pp_headroom pool ∧
    (∀ q, q ∈ ps → validate h' q = validate h q) ∧ ∀ q, params h' q = params h q.
Proof.
  intros Hacc Hp Hsize. pose proof (acc_pools h ps Hacc) as Hok.
  unfold acquire. rewrite Hp, (proj2 (Z.ltb_ge size 0)) by lia. cbn [guard_err mbind result_bind].
  assert (∃ id h1 b, pick h pid pool size choice = (id, h1) ∧ picked h pid pool size id h1 b)
    as (id & h1 & b & -> & Hpick).
  { unfold pick. destruct (Z.leb_spec size (pp_mtu pool)) as [Hle|Hgt]; cycle 1.
    { do 3 eexists. split; [done|]. apply picked_new; try done; lia. }
    unfold pool_get. destruct choice as [id|]; [case_bool_decide as Hin|].
    - destruct (picked_reuse h pid pool size id Hok Hp Hle Hin) as [b Hpick]. do 3 eexists. by split.
    - do 3 eexists. split; [done|]. by apply picked_new.
    - do 3 eexists. split; [done|]. by apply picked_new. }
  destruct Hpick as [Hb Hfree Hlen Hframe Hunused Hparams Hoff Hok1].
  rewrite Hb, Hfree. cbn [guard_err mbind result_bind]. eexists _, _. split; [done|].
  assert (Hother : ∀ q, q ∈ ps → pk_buffer q ≠ Some id).
  { intros q Hq Hqid. pose proof (acc_live h ps Hacc) as Hl. rewrite Forall_forall in Hl.
    destruct (live_Ok _ _ (Hl q Hq)) as (i & b' & (Hi & Hb' & _ & Hu & _)%validate_Ok).
    assert (i = id) as -> by congruence. by rewrite (Hunused _ Hb') in Hu. }
  assert (Hval : ∀ q, q ∈ ps →
    validate (set_buffers h1 (<[id := own b]> (h_buffers h1))) q = validate h q).
  { intros q Hq. rewrite live_insert_other by auto. apply validate_frame.
    intros j Hj. apply Hframe. intros ->. by apply (Hother q). }
  split_and!; [|done|done|done|intros q; by rewrite <-Hparams].
  split.
  - constructor.
    + unfold live, validate. simpl. rewrite lookup_insert_eq. simpl. rewrite Z.eqb_refl. simpl.
      pose proof (pools_sizes h Hok _ _ Hp).
      replace (_ || _ || _) with false by lia. done.
    + apply Forall_forall. intros q Hq. unfold live. rewrite Hval by done.
      pose proof (acc_live h ps Hacc) as Hl. rewrite Forall_forall in Hl. by apply Hl.
  - simpl. constructor; [|apply Hacc]. intros (q & Hq & Hin)%list_elem_of_fmap. by apply (Hother q).
  - intros j bj. simpl. rewrite lookup_insert_Some. intros [[<- _]|[Hne Hbj]] Hu; [by left|right].
    rewrite Hframe in Hbj by done. by apply (acc_used h ps Hacc j bj).
  - eapply pools_ok_insert; eauto.
Qed.

Lemma length_overwrite l n bs : (n + length bs ≤ length l)%nat → length (overwrite l n bs) = length l.
Proof. intros. unfold overwrite. rewrite !length_app, length_take, length_drop. lia. Qed.
Lemma slice_overwrite l n bs : (n + length bs ≤ length l)%nat →
  slice (overwrite l n bs) (Z.of_nat n) (Z.of_nat n + Z.of_nat (length bs)) = bs.
Proof.
  intros. unfold slice, overwrite. replace (Z.of_nat n + _ - Z.of_nat n) with (Z.of_nat (length bs)) by lia.
  rewrite !Nat2Z.id. rewrite drop_app_length' by (rewrite length_take; lia). by rewrite take_app_length.
Qed.

(** Writing the whole packet keeps the accounts and is read back. *)
Lemma write_bytes_spec h ps p bs :
  accounts h (p :: ps) → pk_size p = Z.of_nat (length bs) →
  ∃ h', write_bytes h p bs = Ok h' ∧ accounts h' (p :: ps) ∧ Bytes h' p = Ok bs ∧
    (∀ q, q ∈ ps → validate h' q = validate h q) ∧ (∀ q, params h' q = params h q).
Proof.
  intros Hacc Hsize. pose proof (acc_live _ _ Hacc) as [Hlp Hl]%Forall_cons.
  destruct (live_Ok _ _ Hlp) as (id & b & Hv). apply validate_Ok in Hv as Hv'.
  destruct Hv' as (Hid & Hb & Hg & Hu & Ho & Hs & Hle).
  unfold write_bytes. rewrite Hv. cbn [mbind result_bind]. eexists. split; [done|].
  rewrite (take_ge bs) by lia. rewrite Hsize in Hle.
  set (b' := set_data b (overwrite (pb_data b) (Z.to_nat (pk_offset p)) bs)).
  assert (Hlen : length (pb_data b') = length (pb_data b)) by (apply length_overwrite; lia).
  assert (Hv' : validate (set_buffers h (<[id:=b']> (h_buffers h))) p = Ok (id, b')).
  { apply validate_Ok. simpl. rewrite lookup_insert_eq, length_overwrite by lia. split_and!; auto; lia. }
  assert (Hnd : NoDup (pk_buffer <$> p :: ps)) by apply Hacc. simpl in Hnd. apply NoDup_cons in Hnd as [Hni Hnd].
  assert (Hother : ∀ q, q ∈ ps → validate (set_buffers h (<[id:=b']> (h_buffers h))) q = validate h q).
  { intros q Hq. apply live_insert_other. intros Hqid. apply Hni. apply list_elem_of_fmap.
    exists q. split; [congruence|done]. }
  split_and!; [| |done|done].
  2:{ unfold Bytes. rewrite Hv'. cbn [mbind result_bind]. f_equal. rewrite Hsize. simpl.
      replace (pk_offset p) with (Z.of_nat (Z.to_nat (pk_offset p))) at 2 3 by lia.
      apply slice_overwrite. lia. }
  split.
  - constructor; [unfold live; by rewrite Hv'|]. eapply Forall_impl; [apply Forall_and; split; [exact Hl|]|].
    + apply Forall_forall. intros q Hq. exact (Hother q Hq).
    + intros q [Hq He]. unfold live. by rewrite He.
  - simpl. by constructor.
  - intros j bj. simpl. rewrite lookup_insert_Some. intros [[<- _]|[Hne Hbj]] Hu'; [rewrite Hid; by left|].
    by apply (acc_used h _ Hacc j bj).
  - apply (pools_ok_insert h id b b'); auto. apply Hacc.
Qed.

(** Releasing an owned packet never panics, keeps the others, and frees the
    buffer. *)
Lemma Release_spec h ps p :
  accounts h (p :: ps) →
  ∃ h', Release h p = Ok (zero_packet, h') ∧ accounts h' ps ∧
    (∀ q, q ∈ ps → validate h' q = validate h q) ∧ (∀ q, params h' q = params h q).
Proof.
  intros Hacc. pose proof (acc_live _ _ Hacc) as [Hlp Hl]%Forall_cons.
  pose proof (acc_pools _ _ Hacc) as Hok.
  destruct (live_Ok _ _ Hlp) as (id & b & Hv). apply validate_Ok in Hv as Hv'.
  destruct Hv' as (Hid & Hb & Hg & Hu & Ho & Hs & Hle).
  assert (Hnd : NoDup (pk_buffer <$> p :: ps)) by apply Hacc. simpl in Hnd. apply NoDup_cons in Hnd as [Hni Hnd].
  assert (Hq : ∀ q, q ∈ ps → pk_buffer q ≠ Some id).
  { intros q Hin Hqid. apply Hni. apply list_elem_of_fmap. exists q. split; [congruence|done]. }
  set (h1 := set_buffers h (<[id := set_inUse b false]> (h_buffers h))).
  assert (Hnoff : ∀ pid pool, h_pools h !! pid = Some pool → id ∉ pp_buffers pool).
  { intros pid pool Hp Hin. destruct (pools_offered h Hok _ _ _ Hp Hin) as (? & ? & ? & _). congruence. }
  assert (Hok1 : pools_ok h1) by (apply (pools_ok_insert h id b); auto).
  assert (Hacc1 : ∀ h', h_buffers h' = h_buffers h1 → pools_ok h' → accounts h' ps).
  { intros h' Hbuf Hok'.
    assert (Hval : ∀ q, q ∈ ps → validate h' q = validate h q).
    { intros q Hin. apply validate_frame. intros j Hj. rewrite Hbuf. simpl.
      rewrite lookup_insert_ne; [done|]. intros ->. by apply (Hq q). }
    split; [|done| |done].
    - apply Forall_forall. intros q Hin. unfold live. rewrite Hval by done.
      rewrite Forall_forall in Hl. by apply Hl.
    - intros j bj. rewrite Hbuf. simpl. rewrite lookup_insert_Some. intros [[<- <-]|[Hne Hbj]] Hu'; [done|].
      pose proof (acc_used h _ Hacc j bj Hbj Hu') as [Hj|?]%elem_of_cons; [congruence|done]. }
  unfold Release. rewrite Hv. cbn [mbind result_bind]. rewrite Hu. cbn [negb guard_err mbind result_bind].
  assert (Hfr : ∀ h' q, h_buffers h' = h_buffers h1 → q ∈ ps → validate h' q = validate h q).
  { intros h' q Hbuf Hin. apply validate_frame. intros j Hj. rewrite Hbuf. simpl.
    rewrite lookup_insert_ne; [done|]. intros ->. by apply (Hq q). }
  destruct (pb_pooled b) eqn:Hpl; cycle 1.
  { eexists. split; [done|]. split_and!; [by apply Hacc1|by intros; apply Hfr|done]. }
  destruct (pools_pooled h Hok _ _ Hb Hpl) as (pool & Hp & Hlen).
  change (h_pools (set_buffers h _)) with (h_pools h). rewrite Hp. eexists. split; [done|].
  split_and!; [apply Hacc1; [done|]|by intros; apply Hfr|].
  - split; simpl.
    + intros q pool'. rewrite lookup_insert_Some. intros [[<- <-]|[_ ?]]; simpl; by eapply (pools_sizes h Hok).
    + intros q pool' j. rewrite lookup_insert_Some. intros [[<- <-]|[_ Hp']] Hj; simpl in *.
      * apply elem_of_cons in Hj as [->|Hj]; [|by apply (pools_offered h1 Hok1 _ _ _ Hp)].
        exists (set_inUse b false). simpl. by rewrite lookup_insert_eq.
      * by apply (pools_offered h1 Hok1 _ _ _ Hp').
    + intros j bj Hbj Ht. destruct (pools_pooled h1 Hok1 _ _ Hbj Ht) as (pool' & Hp' & Hl'). simpl in *.
      unfold pooled_ok. simpl. destruct (decide (pb_owner bj = pb_owner b)) as [He|Hne].
      * rewrite He, lookup_insert_eq. rewrite He in Hp'. simplify_eq. by eexists.
      * rewrite lookup_insert_ne by done. by eexists.
  - intros q. unfold params. simpl. destruct (decide (q = pb_owner b)) as [->|?].
    + by rewrite lookup_insert_eq, Hp.
    + by rewrite lookup_insert_ne.
Qed.

Lemma copy_spec h ps pid pool data choice :
  accounts h ps → h_pools h !! pid = Some pool →
  ∃ p h', copy h pid data choice = Ok (p, h') ∧ accounts h' (p :: ps) ∧ Bytes h' p = Ok data ∧
    pk_offset p = pp_headroom pool ∧
    (∀ q, q ∈ ps → validate h' q = validate h q) ∧ ∀ q, params h' q = params h q.
Proof.
  intros Hacc Hp. unfold copy.
  destruct (acquire_spec h ps pid pool (Z.of_nat (length data)) choice Hacc Hp ltac:(lia))
    as (p & h1 & -> & Hacc1 & Hs & Ho & Hv1 & Hp1). cbn [mbind result_bind].
  destruct (write_bytes_spec h1 ps p data Hacc1 Hs) as (h2 & -> & Hacc2 & Hb & Hv2 & Hp2).
  exists p, h2. cbn [mbind result_bind]. split_and!; try done.
  - intros q Hq. by rewrite Hv2, Hv1.
  - intros q. by rewrite Hp2, Hp1.
Qed.
Lemma Bytes_frame h h' q : validate h' q = validate h q → Bytes h' q = Bytes h q.
Proof. unfold Bytes. by intros ->. Qed.
Lemma writeBuffer_Bytes h p bs :
  Bytes h p = Ok bs → ∃ pre, Z.of_nat (length pre) = pk_offset p ∧ writeBuffer h p = Ok (pre ++ bs, pk_offset p).
Proof.
  unfold Bytes, writeBuffer. destruct (validate h p) as [[id b]|] eqn:Hv; [|done]. cbn [mbind result_bind].
  apply validate_Ok in Hv as (_ & _ & _ & _ & Ho & Hs & Hle). intros [= <-].
  exists (take (Z.to_nat (pk_offset p)) (pb_data b)). rewrite length_take. split; [lia|].
  f_equal. f_equal. unfold slice. simpl. rewrite Z.sub_0_r, drop_0.
  replace (pk_offset p + pk_size p - pk_offset p) with (pk_size p) by lia.
  rewrite <-(firstn_skipn (Z.to_nat (pk_offset p)) (pb_data b)) at 1.
  rewrite take_app_ge by (rewrite length_take; lia). f_equal. rewrite length_take.
  f_equal. lia.
Qed.

(** A new pool offers nothing and disturbs nothing. *)
Lemma newPacketPool_accounts h ps pid headroom mtu :
  accounts h ps → h_pools h !! pid = None → 0 ≤ headroom → 0 ≤ mtu →
  accounts (newPacketPool h pid headroom mtu) ps.
Proof.
  intros [Hl Hnd Hu Hok] Hp Hh Hm. split; [done..|]. split; simpl.
  - intros q pool. rewrite lookup_insert_Some. intros [[<- <-]|[_ Hq]]; [done|by apply (pools_sizes h Hok q)].
  - intros q pool id. rewrite lookup_insert_Some. intros [[<- <-]|[_ Hq]] Hin; [by apply elem_of_nil in Hin|].
    by apply (pools_offered h Hok q pool).
  - intros id b Hb Ht. destruct (pools_pooled h Hok id b Hb Ht) as (pool & Hq & Hlen). exists pool. simpl.
    rewrite lookup_insert_ne by congruence. done.
Qed.
Lemma empty_accounts : accounts (MkHeap ∅ ∅) [].
Proof.
  split; [constructor|constructor| |split]; simpl.
  - intros id b. by rewrite lookup_empty.
  - intros q pool. by rewrite lookup_empty.
  - intros q pool id. by rewrite lookup_empty.
  - intros id b. by rewrite lookup_empty.
Qed.

(** Copying bytes into a packet never panics on a sound heap, whichever
    buffer the pool reuses: the new packet reads back as the bytes, leaves the
    pool's headroom before them, and no other owned packet changes. *)
Theorem copy_fresh h ps pid pool data choice :
  accounts h ps → h_pools h !! pid = Some pool →
  ∃ p h', copy h pid data choice = Ok (p, h') ∧ Bytes h' p = Ok data ∧
    (∃ pre, Z.of_nat (length pre) = pp_headroom pool ∧
       writeBuffer h' p = Ok (pre ++ data, pp_headroom pool)) ∧
    p ∉ ps ∧ accounts h' (p :: ps) ∧ ∀ q, q ∈ ps → Bytes h' q = Bytes h q.
Proof.
  intros Hacc Hp. destruct (copy_spec h ps pid pool data choice Hacc Hp) as (p & h' & -> & Hacc' & Hb & Ho & Hv & _).
  exists p, h'. split_and!; try done.
  - rewrite <-Ho. by apply writeBuffer_Bytes.
  - intros Hin. pose proof (acc_nodup _ _ Hacc') as [Hni _]%NoDup_cons. apply Hni. apply list_elem_of_fmap. eauto.
  - intros q Hq. apply Bytes_frame. auto.
Qed.

(** ** Stale handles *)

(** [aged h0 h id k]: since the buffer [id] was free in [h0], it was acquired
    [k] times, and it is free when it never was. *)
Definition aged (h0 h : heap) (id : nat) (k : nat) : Prop :=
  ∃ b0 b, h_buffers h0 !! id = Some b0 ∧ h_buffers h !! id = Some b ∧
    pb_generation b = (if decide (k = 0)%nat then pb_generation b0 else uint64 (pb_generation b0 + Z.of_nat k)) ∧
    (k = 0%nat → pb_inUse b = false).

Lemma pool_get_frame h pid pool choice id h1 j b :
  pool_get h pid pool choice = (id, h1) → h_buffers h !! j = Some b → h_buffers h1 !! j = Some b.
Proof.
  assert (∀ b', h_buffers h !! j = Some b → <[fresh (dom (h_buffers h)) := b']> (h_buffers h) !! j = Some b) as Hnew.
  { intros b' Hb. rewrite lookup_insert_ne; [done|]. intros <-.
    eapply (is_fresh (dom (h_buffers h))), elem_of_dom_2, Hb. }
  unfold pool_get. intros Hg Hb.
  destruct choice; [case_bool_decide|]; simplify_eq/=; auto.
Qed.
Lemma pick_frame_step h pid pool size choice id h1 j b :
  pick h pid pool size choice = (id, h1) → h_buffers h !! j = Some b → h_buffers h1 !! j = Some b.
Proof.
  unfold pick. destruct (_ <=? _); [apply pool_get_frame|].
  intros [= <- <-] Hb. simpl. rewrite lookup_insert_ne; [done|]. intros <-.
  eapply (is_fresh (dom (h_buffers h))), elem_of_dom_2, Hb.
Qed.

Lemma aged_step h0 h n h' id k :
  heap_step h n h' → aged h0 h id k → ∃ k', aged h0 h' id k' ∧ (k' ≤ k + n)%nat.
Proof.
  intros Hstep (b0 & b & Hb0 & Hb & Hg & Hfree). destruct Hstep as [h pid size choice p h' Ha|h p z h' Hr|h p bs h' Hw].
  - unfold acquire in Ha. destruct (h_pools h !! pid) as [pool|]; [|done]. ok_guard Ha as _.
    destruct (pick h pid pool size choice) as [i h1] eqn:Hpick.
    pose proof (pick_frame_step _ _ _ _ _ _ _ _ _ Hpick Hb) as Hb1.
    destruct (h_buffers h1 !! i) as [bi|] eqn:Hbi; [|done]. ok_guard Ha as Hu. simplify_eq.
    destruct (decide (i = id)) as [->|Hne].
    + exists (S k). split; [|lia]. exists b0, (own bi). simpl. rewrite lookup_insert_eq. simplify_eq.
      split_and!; try done. unfold uint64. rewrite Hg. case_decide as Hk.
      * by subst k.
      * unfold uint64. rewrite Zplus_mod_idemp_l. f_equal. lia.
    + exists k. split; [|lia]. exists b0, b. simpl. rewrite lookup_insert_ne by done. done.
  - unfold Release in Hr. destruct (validate h p) as [[i bi]|] eqn:Hv; [|done]. cbn [mbind result_bind] in Hr.
    ok_guard Hr as _. apply validate_Ok in Hv as (_ & Hbi & _ & Hu & _).
    assert (h_buffers h' = <[i := set_inUse bi false]> (h_buffers h)) as Hh'.
    { destruct (pb_pooled bi); [|by simplify_eq]. destruct (h_pools _ !! _); by simplify_eq. }
    exists k. split; [|lia]. exists b0. rewrite Hh'. destruct (decide (i = id)) as [->|Hne].
    + exists (set_inUse bi false). rewrite lookup_insert_eq. by simplify_eq.
    + exists b. by rewrite lookup_insert_ne.
  - unfold write_bytes in Hw. destruct (validate h p) as [[i bi]|] eqn:Hv; [|done]. simpl in Hw. simplify_eq.
    apply validate_Ok in Hv as (_ & Hbi & _ & Hu & _).
    exists k. split; [|lia]. exists b0. simpl. destruct (decide (i = id)) as [->|Hne].
    + assert (bi = b) as -> by congruence. eexists. rewrite lookup_insert_eq. done.
    + exists b. by rewrite lookup_insert_ne.
Qed.
Lemma aged_steps h0 h n h' id k :
  heap_steps h n h' → aged h0 h id k → ∃ k', aged h0 h' id k' ∧ (k' ≤ k + n)%nat.
Proof.
  intros Hs. revert k. induction Hs as [h|h h1 h2 n m Hstep _ IH]; intros k Ha; [exists k; split; [done|lia]|].
  destruct (aged_step _ _ _ _ _ _ Hstep Ha) as (k1 & Ha1 & Hle1).
  destruct (IH k1 Ha1) as (k2 & Ha2 & Hle2). exists k2. split; [done|lia].
Qed.

(** Once a packet is released, every copy of its handle is dead: after any
    use of the heap by anyone, correct or not, with fewer than 2^64
    acquisitions, its bytes, its write buffer and a second release all panic. *)
Theorem stale_use_panics h p z h0 n h' :
  Release h p = Ok (z, h0) → heap_steps h0 n h' → Z.of_nat n < 2 ^ 64 →
  Bytes h' p = Err PanicStale ∧ writeBuffer h' p = Err PanicStale ∧ Release h' p = Err PanicStale ∧
  Bytes h' z = Err PanicReleased ∧ Release h' z = Err PanicReleased.
Proof.
  intros Hr Hs Hn. unfold Release in Hr.
  destruct (validate h p) as [[id b]|] eqn:Hv; [|done]. cbn [mbind result_bind] in Hr. ok_guard Hr as _.
  apply validate_Ok in Hv as (Hid & Hb & Hg & _).
  assert (z = zero_packet ∧ h_buffers h0 = <[id := set_inUse b false]> (h_buffers h)) as [-> Hh0].
  { destruct (pb_pooled b); [|by simplify_eq]. destruct (h_pools _ !! _); by simplify_eq. }
  destruct (aged_steps h0 h0 n h' id 0 Hs) as (k & (b0 & b' & Hb0 & Hb' & Hg' & Hfree) & Hk).
  { exists (set_inUse b false), (set_inUse b false). rewrite Hh0, lookup_insert_eq. done. }
  rewrite Hh0, lookup_insert_eq in Hb0. simplify_eq.
  assert (validate h' p = Err PanicStale) as Hv; [|unfold Bytes, writeBuffer, Release; by rewrite Hv].
  unfold validate. rewrite Hid, Hb'. assert (negb (pk_generation p =? pb_generation b') || negb (pb_inUse b') = true) as ->;
    [|done].
  rewrite Hg, Hg'. simpl. case_decide as Hk0; [rewrite Hfree by done; by rewrite orb_true_r|].
  apply orb_true_iff. left. apply negb_true_iff, Z.eqb_neq. unfold uint64. intros He.
  pose proof (Z.mod_pos_bound (pb_generation b + Z.of_nat k) (2 ^ 64) ltac:(lia)).
  rewrite (Z.mod_eq _ (2 ^ 64)) in He by lia.
  assert (Z.of_nat k = 2 ^ 64 * ((pb_generation b + Z.of_nat k) / 2 ^ 64)) as Hkk by lia.
  assert (0 < (pb_generation b + Z.of_nat k) / 2 ^ 64 < 1) by nia. lia.
Qed.

(** ** A concrete heap *)

Definition test_heap : heap := newPacketPool (MkHeap ∅ ∅) 0 4 8.
Lemma test_heap_accounts : accounts test_heap [].
Proof. apply newPacketPool_accounts; [apply empty_accounts|done|lia|lia]. Qed.

Lemma copy_fresh_witness :
  ∃ p h', copy test_heap 0 [x01; x02] None = Ok (p, h') ∧ Bytes h' p = Ok [x01; x02] ∧
    (∃ pre, Z.of_nat (length pre) = 4 ∧ writeBuffer h' p = Ok (pre ++ [x01; x02], 4)) ∧
    p ∉ [] ∧ accounts h' [p] ∧ ∀ q, q ∈ [] → Bytes h' q = Bytes test_heap q.
Proof. exact (copy_fresh test_heap [] 0 (MkPool 4 8 []) [x01; x02] None test_heap_accounts eq_refl). Defined.

(** A packet is copied and released, and its buffer acquired again: the old
    handle is dead although its buffer is in use. *)
Definition test_packet : Packet := MkPacket (Some 0%nat) 1 4 2.
Definition heap_acquired : heap :=
  match copy test_heap 0 [x01; x02] None with Ok (_, h) => h | Err _ => test_heap end.
Definition heap_released : heap :=
  match Release heap_acquired test_packet with Ok (_, h) => h | Err _ => test_heap end.
Definition heap_reused : heap :=
  match acquire heap_released 0 3 (Some 0%nat) with Ok (_, h) => h | Err _ => test_heap end.
Example reused_generation :
  match acquire heap_released 0 3 (Some 0%nat) with Ok (p, h) => (p, is_ok (Bytes h p)) | Err _ => (zero_packet, false) end
  = (MkPacket (Some 0%nat) 2 4 3, true).
Proof. vm_compute. reflexivity. Qed.

Lemma stale_use_panics_witness :
  Bytes heap_reused test_packet = Err PanicStale ∧ writeBuffer heap_reused test_packet = Err PanicStale ∧
  Release heap_reused test_packet = Err PanicStale ∧
  Bytes heap_reused zero_packet = Err PanicReleased ∧ Release heap_reused zero_packet = Err PanicReleased.
Proof.
  apply (stale_use_panics heap_acquired test_packet zero_packet heap_released 1 heap_reused).
  - vm_compute. reflexivity.
  - apply (steps_cons _ heap_reused _ 1 0); [|constructor].
    apply (step_acquire _ 0 3 (Some 0%nat) (MkPacket (Some 0%nat) 2 4 3)). vm_compute. reflexivity.
  - vm_compute. reflexivity.
Defined.
