(* ===== verification/ChanTUN.v ===== *)
(** * The channel TUN

    [src/tunmux/chantun.go]: the in-memory TUN device between the mux and a
    profile engine.  Two views of it:
    - [Read], the engine's batched read, as a function on the packet heap, the
      slab and the outcomes of its channel receives;
    - the life cycle under concurrency, as a step relation: any number of
      senders ([Write], [InjectOutbound], [TryInjectOutbound],
      [tryInjectInboundPacket]), receivers and [Close], interleaved at the
      points where the code synchronises (the mutex, the wait group, the
      channel operations). *)

From Stdlib Require Import Strings.Byte.
From S2P Require Import Prelude PacketPool.

Definition chanTUNQueueSize : nat := 1024.
Definition chanTUNMTU : Z := 1280.

(** ** Reading a batch *)

Section read.
(** [tun.ReadPacketSpacing] and [conn.IdealBatchSize]. *)
Context (ReadPacketSpacing : Z) (IdealBatchSize : nat).
Local Open Scope Z_scope.

Record ReadPacket : Type := MkReadPacket { rp_Offset : Z; rp_Size : Z }.
(** The outcome of one receive from [t.outbound]; [Empty] is the default case. *)
Inductive recv : Type := Got (p : Packet) | Empty | ChanClosed.
Inductive read_error : Type := EOF | ErrTooManySegments.
(** What [Read] leaves: the heap, the slab, the packets it described and the
    error; [Blocked] is a first receive with nothing to receive. *)
Inductive read_outcome : Type :=
  | ReadDone (h : heap) (slab : list byte) (packets : list ReadPacket) (err : option read_error)
  | Blocked.

(** One iteration: the packet is released, copied into the slab when it fits
    with the gap behind it; its size then. *)
Definition read_one (h : heap) (slab : list byte) (offset : Z) (packet : Packet) :
    result panic (heap * option (list byte * Z)) :=
  data ← Bytes h packet;
  let size := Z.of_nat (length data) in
  if Z.of_nat (length slab) - offset - ReadPacketSpacing <? size then
    '(_, h) ← Release h packet; Ok (h, None)
  else
    let slab := overwrite slab (Z.to_nat offset) data in
    '(_, h) ← Release h packet; Ok (h, Some (slab, size)).

(** The loop of [Read] with [packet] received and room for [n] more packets
    after it. *)
Fixpoint read_loop (h : heap) (slab : list byte) (offset : Z) (out : list ReadPacket) (n : nat)
    (packet : Packet) (events : list recv) : result panic read_outcome :=
  '(h, copied) ← read_one h slab offset packet;
  match copied with
  | None => Ok (ReadDone h slab out (Some ErrTooManySegments))
  | Some (slab, size) =>
    let out := out ++ [MkReadPacket offset size] in
    match n, events with
    | S n, Got packet :: events =>
      read_loop h slab (offset + size + ReadPacketSpacing) out n packet events
    | _, _ => Ok (ReadDone h slab out None)
    end
  end.

Definition Read (h : heap) (slab : list byte) (packets : nat) (events : list recv) : result panic read_outcome :=
  match Nat.min packets IdealBatchSize with
  | O => Ok (ReadDone h slab [] None)
  | S n =>
    match events with
    | Got packet :: events => read_loop h slab ReadPacketSpacing [] n packet events
    | ChanClosed :: _ => Ok (ReadDone h slab [] (Some EOF))
    | _ => Ok Blocked
    end
  end.
End read.

(** ** Concurrent life cycle *)

(** A channel: its buffer, whether it is closed, and the logs of what was sent
    to it and taken from it. *)
Record chan : Type := MkChan {
  ch_queue : list Packet; ch_closed : bool; ch_sent : list Packet; ch_taken : list Packet }.
(** [Close] runs once: it marks the TUN, waits for the senders, closes the
    channels and drains them. *)
Inductive close_pc : Type := CloseIdle | CloseWaiting | CloseDraining | CloseDone.
#[export] Instance close_pc_eq_dec : EqDecision close_pc.
Proof. solve_decision. Defined.
Record ChanTUN : Type := MkChanTUN {
  inbound : chan; outbound : chan;
  closed : bool;        (* the channel [closed] is closed *)
  isClosed : bool; senders : nat; close_state : close_pc }.

Inductive direction : Type := Inbound | Outbound.
(** A single send: where, whether it may block, and whether it releases the
    packet itself when it fails. *)
Record send_op : Type := MkSendOp { so_dir : direction; so_blocking : bool; so_release : bool }.
Definition injectOutboundPacket : send_op := MkSendOp Outbound true false.
Definition TryInjectOutbound : send_op := MkSendOp Outbound false true.
Definition tryInjectInboundPacket : send_op := MkSendOp Inbound false false.
Inductive send_result : Type := Sent | TunClosed | Full.

(** A goroutine in one of the sending methods.  [TSelect] to [TExit], and
    [WLoop] to [WExit], are counted in the wait group. *)
Inductive thread : Type :=
  | TBegin (op : send_op) (p : Packet)
  | TSelect (op : send_op) (p : Packet)
  | TExit (r : send_result) (kept : option Packet)
  | TReturned (r : send_result) (kept : option Packet)
  | WBegin (bufs : list (list byte))
  | WLoop (bufs : list (list byte))
  | WSelect (p : Packet) (bufs : list (list byte))
  | WExit (ok : bool)
  | WReturned (ok : bool).

(** The TUN, its callers, the packets receivers own, the packets released, all
    the packets that ever entered, and whether a goroutine panicked by sending
    on a closed channel. *)
Record sys : Type := MkSys {
  tun : ChanTUN; threads : list thread; received : list Packet; released : list Packet;
  created : list Packet; panicked : bool }.

Definition get_chan (t : ChanTUN) (d : direction) : chan :=
  match d with Inbound => inbound t | Outbound => outbound t end.
Definition set_chan (t : ChanTUN) (d : direction) (c : chan) : ChanTUN :=
  match d with
  | Inbound => MkChanTUN c (outbound t) (closed t) (isClosed t) (senders t) (close_state t)
  | Outbound => MkChanTUN (inbound t) c (closed t) (isClosed t) (senders t) (close_state t)
  end.
Definition set_senders (t : ChanTUN) (n : nat) : ChanTUN :=
  MkChanTUN (inbound t) (outbound t) (closed t) (isClosed t) n (close_state t).
Definition set_close (t : ChanTUN) (pc : close_pc) : ChanTUN :=
  MkChanTUN (inbound t) (outbound t) (closed t) (isClosed t) (senders t) pc.
Definition push (c : chan) (p : Packet) : chan :=
  MkChan (ch_queue c ++ [p]) (ch_closed c) (ch_sent c ++ [p]) (ch_taken c).
Definition take_from (c : chan) (p : Packet) (q : list Packet) : chan :=
  MkChan q (ch_closed c) (ch_sent c) (ch_taken c ++ [p]).
Definition close_chan (c : chan) : chan := MkChan (ch_queue c) true (ch_sent c) (ch_taken c).
Definition empty_chan : chan := MkChan [] false [] [].
Definition NewChanTUN : ChanTUN := MkChanTUN empty_chan empty_chan false false 0 CloseIdle.
Definition initial : sys := MkSys NewChanTUN [] [] [] [] false.

Definition set_thread (s : sys) (i : nat) (t : thread) : sys :=
  MkSys (tun s) (<[i := t]> (threads s)) (received s) (released s) (created s) (panicked s).
Definition set_tun (s : sys) (t : ChanTUN) : sys :=
  MkSys t (threads s) (received s) (released s) (created s) (panicked s).
Definition release (s : sys) (p : Packet) : sys :=
  MkSys (tun s) (threads s) (received s) (p :: released s) (created s) (panicked s).
Definition create (s : sys) (p : Packet) : sys :=
  MkSys (tun s) (threads s) (received s) (released s) (p :: created s) (panicked s).
Definition spawn (s : sys) (t : thread) : sys :=
  MkSys (tun s) (threads s ++ [t]) (received s) (released s) (created s) (panicked s).
Definition set_panicked (s : sys) : sys :=
  MkSys (tun s) (threads s) (received s) (released s) (created s) true.

(** The failing exit of a single send: the packet is released or kept for the
    caller. *)
Definition fail_send (s : sys) (op : send_op) (p : Packet) : sys * option Packet :=
  if so_release op then (release s p, None) else (s, Some p).

(** Steps of goroutine [i]. *)
Inductive thread_step (s : sys) (i : nat) : thread → sys → Prop :=
  (** [beginSend]. *)
  | begin_closed op p s' kept :
      isClosed (tun s) = true → fail_send s op p = (s', kept) →
      thread_step s i (TBegin op p) (set_thread s' i (TReturned TunClosed kept))
  | begin_ok op p :
      isClosed (tun s) = false →
      thread_step s i (TBegin op p)
        (set_thread (set_tun s (set_senders (tun s) (S (senders (tun s))))) i (TSelect op p))
  (** The [select] of a single send. *)
  | select_closed op p s' kept :
      closed (tun s) = true → fail_send s op p = (s', kept) →
      thread_step s i (TSelect op p) (set_thread s' i (TExit TunClosed kept))
  | select_send op p :
      let c := get_chan (tun s) (so_dir op) in
      ch_closed c = false → length (ch_queue c) < chanTUNQueueSize →
      thread_step s i (TSelect op p)
        (set_thread (set_tun s (set_chan (tun s) (so_dir op) (push c p))) i (TExit Sent None))
  | select_panic op p :
      ch_closed (get_chan (tun s) (so_dir op)) = true →
      thread_step s i (TSelect op p) (set_panicked s)
  | select_default op p s' kept :
      let c := get_chan (tun s) (so_dir op) in
      so_blocking op = false → closed (tun s) = false → ch_closed c = false →
      chanTUNQueueSize ≤ length (ch_queue c) → fail_send s op p = (s', kept) →
      thread_step s i (TSelect op p) (set_thread s' i (TExit Full kept))
  | exit_send r kept :
      thread_step s i (TExit r kept)
        (set_thread (set_tun s (set_senders (tun s) (pred (senders (tun s))))) i (TReturned r kept))
  (** [Write]. *)
  | write_closed bufs :
      isClosed (tun s) = true → thread_step s i (WBegin bufs) (set_thread s i (WReturned false))
  | write_begin bufs :
      isClosed (tun s) = false →
      thread_step s i (WBegin bufs)
        (set_thread (set_tun s (set_senders (tun s) (S (senders (tun s))))) i (WLoop bufs))
  | write_done : thread_step s i (WLoop []) (set_thread s i (WExit true))
  | write_skip bufs : thread_step s i (WLoop ([] :: bufs)) (set_thread s i (WLoop bufs))
  | write_copy b bufs p :
      b ≠ [] → p ∉ created s →
      thread_step s i (WLoop (b :: bufs)) (set_thread (create s p) i (WSelect p bufs))
  | write_select_closed p bufs :
      closed (tun s) = true →
      thread_step s i (WSelect p bufs) (set_thread (release s p) i (WExit false))
  | write_send p bufs :
      ch_closed (inbound (tun s)) = false → length (ch_queue (inbound (tun s))) < chanTUNQueueSize →
      thread_step s i (WSelect p bufs)
        (set_thread (set_tun s (set_chan (tun s) Inbound (push (inbound (tun s)) p))) i (WLoop bufs))
  | write_panic p bufs :
      ch_closed (inbound (tun s)) = true → thread_step s i (WSelect p bufs) (set_panicked s)
  | write_drop p bufs :
      closed (tun s) = false → ch_closed (inbound (tun s)) = false →
      chanTUNQueueSize ≤ length (ch_queue (inbound (tun s))) →
      thread_step s i (WSelect p bufs) (set_thread (release s p) i (WLoop bufs))
  | exit_write ok :
      thread_step s i (WExit ok)
        (set_thread (set_tun s (set_senders (tun s) (pred (senders (tun s))))) i (WReturned ok)).

(** Steps of [Close], which [closeOnce] runs at most once. *)
Inductive close_step (s : sys) : sys → Prop :=
  | close_mark :
      close_state (tun s) = CloseIdle →
      close_step s (set_tun s (MkChanTUN (inbound (tun s)) (outbound (tun s)) true true
        (senders (tun s)) CloseWaiting))
  | close_channels :
      close_state (tun s) = CloseWaiting → senders (tun s) = 0 →
      close_step s (set_tun s (MkChanTUN (close_chan (inbound (tun s))) (close_chan (outbound (tun s)))
        (closed (tun s)) (isClosed (tun s)) 0 CloseDraining))
  | close_drain_inbound p q :
      close_state (tun s) = CloseDraining → ch_queue (inbound (tun s)) = p :: q →
      close_step s (release (set_tun s (set_chan (tun s) Inbound (take_from (inbound (tun s)) p q))) p)
  | close_drain_outbound p q :
      close_state (tun s) = CloseDraining → ch_queue (inbound (tun s)) = [] →
      ch_queue (outbound (tun s)) = p :: q →
      close_step s (release (set_tun s (set_chan (tun s) Outbound (take_from (outbound (tun s)) p q))) p)
  | close_finish :
      close_state (tun s) = CloseDraining → ch_queue (inbound (tun s)) = [] →
      ch_queue (outbound (tun s)) = [] →
      close_step s (set_tun s (set_close (tun s) CloseDone)).

(** All steps: callers arrive, goroutines run, receivers take packets and
    release them, [Close] proceeds. *)
Inductive step (s : sys) : sys → Prop :=
  | step_send op p : p ∉ created s → step s (spawn (create s p) (TBegin op p))
  | step_write bufs : step s (spawn s (WBegin bufs))
  | step_thread i t s' : threads s !! i = Some t → thread_step s i t s' → step s s'
  | step_return i r p :
      threads s !! i = Some (TReturned r (Some p)) →
      step s (set_thread (release s p) i (TReturned r None))
  | step_receive d p q :
      ch_queue (get_chan (tun s) d) = p :: q →
      step s (MkSys (set_chan (tun s) d (take_from (get_chan (tun s) d) p q)) (threads s)
                (p :: received s) (released s) (created s) (panicked s))
  | step_consume p l1 l2 :
      received s = l1 ++ p :: l2 →
      step s (MkSys (tun s) (threads s) (l1 ++ l2) (p :: released s) (created s) (panicked s))
  | step_close s' : close_step s s' → step s s'.

Definition steps : relation sys := rtc step.
Definition reachable (s : sys) : Prop := steps initial s.

(** ** The life-cycle invariant *)

(** Occurrences of a packet in a list. *)
Definition occ (p : Packet) (l : list Packet) : nat := count_occ (λ x y, decide (x = y)) l p.
Lemma occ_nil p : occ p [] = 0.
Proof. done. Qed.
Lemma occ_cons p x l : occ p (x :: l) = (if decide (x = p) then 1 else 0) + occ p l.
Proof. unfold occ. simpl. by case_decide. Qed.
Lemma occ_app p l k : occ p (l ++ k) = occ p l + occ p k.
Proof. apply count_occ_app. Qed.
Lemma occ_Permutation l k : (∀ p, occ p l = occ p k) → l ≡ₚ k.
Proof. intros H. by apply (Permutation_count_occ (λ x y, decide (x = y))). Qed.
Lemma occ_elem p l : p ∉ l → occ p l = 0.
Proof. intros Hn. apply count_occ_not_In. by rewrite <-list_elem_of_In. Qed.
#[local] Arguments occ : simpl never.

(** The goroutines the wait group counts, and the packet each one holds. *)
Definition counted (t : thread) : nat :=
  match t with TSelect _ _ | TExit _ _ | WLoop _ | WSelect _ _ | WExit _ => 1 | _ => 0 end.
Definition thread_packets (t : thread) : list Packet :=
  match t with
  | TBegin _ p | TSelect _ p | WSelect p _ => [p]
  | TExit _ (Some p) | TReturned _ (Some p) => [p]
  | _ => []
  end.

(** Sums over the goroutines, and the effect of a step of one of them. *)
Definition total (f : thread → nat) (l : list thread) : nat := sum_list_with f l.
Lemma total_insert f l i t t' : l !! i = Some t → total f (<[i:=t']> l) + f t = total f l + f t'.
Proof.
  unfold total. revert i. induction l as [|x l IH]; intros [|i]; simpl; try done.
  - intros [= ->]. lia.
  - intros Hi. specialize (IH i Hi). lia.
Qed.
Lemma total_app f l k : total f (l ++ k) = total f l + total f k.
Proof. apply sum_list_with_app. Qed.

Record inv (s : sys) : Prop := {
  (* every packet that entered is in exactly one place *)
  inv_places p :
    occ p (ch_queue (inbound (tun s))) + occ p (ch_queue (outbound (tun s))) +
    total (λ t, occ p (thread_packets t)) (threads s) + occ p (received s) + occ p (released s) =
    occ p (created s);
  inv_created : NoDup (created s);
  inv_senders : senders (tun s) = total counted (threads s);
  inv_closed : closed (tun s) = isClosed (tun s);
  inv_marked : isClosed (tun s) = true ↔ close_state (tun s) ≠ CloseIdle;
  inv_chans d : ch_closed (get_chan (tun s) d) = true ↔
    close_state (tun s) = CloseDraining ∨ close_state (tun s) = CloseDone;
  inv_waited d : ch_closed (get_chan (tun s) d) = true → senders (tun s) = 0;
  inv_done d : close_state (tun s) = CloseDone → ch_queue (get_chan (tun s) d) = [];
  inv_fifo d : ch_sent (get_chan (tun s) d) = ch_taken (get_chan (tun s) d) ++ ch_queue (get_chan (tun s) d);
  inv_capacity d : length (ch_queue (get_chan (tun s) d)) ≤ chanTUNQueueSize;
  inv_panicked : panicked s = false }.

Lemma inv_initial : inv initial.
Proof.
  split; simpl; try done.
  - constructor.
  - intros []; simpl; (split; [done|by intros [|]]).
  - by intros [].
  - intros []; simpl; unfold chanTUNQueueSize; lia.
Qed.

(** A counted goroutine keeps the channels open. *)
Lemma counted_open s i t d :
  inv s → threads s !! i = Some t → counted t = 1 → ch_closed (get_chan (tun s) d) = false.
Proof.
  intros Hinv Hi Ht. destruct (ch_closed _) eqn:Hc; [|done].
  pose proof (inv_waited s Hinv d Hc) as H0. rewrite (inv_senders s Hinv) in H0.
  pose proof (total_insert counted (threads s) i t (WReturned true) Hi). simpl in *. lia.
Qed.

(** [s'] is [s] after goroutine [i] moved to [t'], left the wait group at [n],
    released [rel] and brought [cr] in; the channels are untouched. *)
Record moved (s s' : sys) (i : nat) (t' : thread) (n : nat) (rel cr : list Packet) : Prop := {
  mv_threads : threads s' = <[i := t']> (threads s);
  mv_received : received s' = received s;
  mv_released : released s' = rel ++ released s;
  mv_created : created s' = cr ++ created s;
  mv_panicked : panicked s' = panicked s;
  mv_chans d : get_chan (tun s') d = get_chan (tun s) d;
  mv_closed : closed (tun s') = closed (tun s);
  mv_isClosed : isClosed (tun s') = isClosed (tun s);
  mv_close : close_state (tun s') = close_state (tun s);
  mv_senders : senders (tun s') = n }.

Lemma inv_moved s s' i t t' n rel cr :
  inv s → threads s !! i = Some t → moved s s' i t' n rel cr →
  n + counted t = senders (tun s) + counted t' →
  (n = senders (tun s) ∨ n = pred (senders (tun s)) ∨ isClosed (tun s) = false) →
  (∀ p, occ p (thread_packets t') + occ p rel = occ p (thread_packets t) + occ p cr) →
  NoDup (cr ++ created s) → inv s'.
Proof.
  intros [] Hi [? Hrec Hrel Hcr Hpan Hch Hcl His Hst Hn] Hcount Hopen Hpk Hnd.
  pose proof (Hch Inbound) as Hin. pose proof (Hch Outbound) as Hout. simpl in Hin, Hout.
  split; rewrite ?Hcl, ?His, ?Hst, ?Hpan; try done.
  - intros p. specialize (Hpk p). specialize (inv_places0 p).
    pose proof (total_insert (λ t, occ p (thread_packets t)) (threads s) i t t' Hi) as Ht. simpl in Ht.
    rewrite mv_threads0, Hin, Hout, Hrec, Hrel, Hcr, !occ_app. lia.
  - by rewrite Hcr.
  - pose proof (total_insert counted (threads s) i t t' Hi). rewrite mv_threads0, Hn. lia.
  - intros d. rewrite Hch. apply inv_chans0.
  - intros d Hc. rewrite Hch in Hc. rewrite Hn. pose proof (inv_waited0 d Hc) as H0.
    destruct Hopen as [->|[->|Hopen]]; [done|by rewrite H0|].
    exfalso. apply inv_chans0 in Hc. assert (close_state (tun s) = CloseIdle); [|by destruct Hc; congruence].
    destruct (close_state (tun s)) eqn:E; try done; by rewrite (proj2 inv_marked0) in Hopen.
  - intros d Hd. rewrite Hch. auto.
  - intros d. by rewrite Hch.
  - intros d. by rewrite Hch.
Qed.

(** A send: goroutine [i] moves [p] into the channel. *)
Lemma inv_pushed s i t t' d p :
  inv s → threads s !! i = Some t → counted t = 1 → counted t' = 1 →
  ch_closed (get_chan (tun s) d) = false → length (ch_queue (get_chan (tun s) d)) < chanTUNQueueSize →
  (∀ q, occ q (thread_packets t') + occ q [p] = occ q (thread_packets t)) →
  inv (set_thread (set_tun s (set_chan (tun s) d (push (get_chan (tun s) d) p))) i t').
Proof.
  intros [] Hi Ht Ht' Hopen Hroom Hpk.
  pose proof (total_insert counted (threads s) i t t' Hi) as Hc.
  split; simpl; try done.
  - intros q. specialize (Hpk q). specialize (inv_places0 q).
    pose proof (total_insert (λ t, occ q (thread_packets t)) (threads s) i t t' Hi) as Hq. simpl in Hq.
    destruct d; simpl; rewrite ?occ_app in *; lia.
  - destruct d; simpl; lia.
  - by destruct d.
  - by destruct d.
  - intros d'. specialize (inv_chans0 d'). by destruct d, d'.
  - intros d' Hd'. specialize (inv_waited0 d'). by destruct d, d'; auto.
  - intros d' Hd'. assert (ch_closed (get_chan (tun s) d) = true); [|congruence].
    apply inv_chans0. right. by destruct d.
  - intros d'. specialize (inv_fifo0 d'). destruct d, d'; simpl in *; try done; by rewrite app_assoc, inv_fifo0.
  - intros d'. specialize (inv_capacity0 d'). destruct d, d'; simpl in *; rewrite ?length_app; simpl; lia.
Qed.

Lemma counted_pos s i t : inv s → threads s !! i = Some t → counted t = 1 → 1 ≤ senders (tun s).
Proof.
  intros Hinv Hi Ht. rewrite (inv_senders s Hinv).
  pose proof (total_insert counted (threads s) i t (WReturned true) Hi). simpl in *. lia.
Qed.

(** Closes a step that only moves goroutine [i], with [R] released and [C] new. *)
Ltac move_by R C :=
  eapply (inv_moved _ _ _ _ _ _ R C);
  [eassumption|eassumption|split; try reflexivity; by intros []|simpl; lia|simpl; tauto
  |intros ?; rewrite ?occ_cons, ?occ_nil; simpl; rewrite ?occ_cons, ?occ_nil; lia
  |simpl; try (constructor; [assumption|]); by apply inv_created].

Lemma inv_thread s i t s' : inv s → threads s !! i = Some t → thread_step s i t s' → inv s'.
Proof.
  intros Hinv Hi Hstep. pose proof (counted_open s i t) as Hopen.
  destruct Hstep as [op p s' kept Hc Hf|op p Hc|op p s' kept Hc Hf|op p|op p Hc|op p s' kept c Hb Hc Hc' Hfull Hf
    |r kept|bufs Hc|bufs Hc| |bufs|b bufs p Hb Hp|p bufs Hc|p bufs Hc Hroom|p bufs Hc|p bufs Hc Hc' Hfull|ok];
    try (unfold fail_send in Hf; destruct (so_release op); injection Hf as <- <-).
  all: try (rewrite (Hopen _ Hinv Hi eq_refl) in Hc; done).
  all: try (pose proof (Hopen Inbound Hinv Hi eq_refl); simpl in *; congruence).
  all: try (eapply inv_pushed; [done|done|done|done|done|done|done]).
  all: pose proof (counted_pos s i _ Hinv Hi) as Hpos; simpl in Hpos.
  all: first [move_by (@nil Packet) (@nil Packet) | move_by [p] (@nil Packet) | move_by (@nil Packet) [p]].
Qed.

(** A receive: [p] leaves the channel for a receiver or is released. *)
Lemma inv_taken s s' d p q :
  inv s → ch_queue (get_chan (tun s) d) = p :: q →
  tun s' = set_chan (tun s) d (take_from (get_chan (tun s) d) p q) →
  threads s' = threads s → created s' = created s → panicked s' = panicked s →
  (∀ x, occ x (received s') + occ x (released s') = occ x (received s) + occ x (released s) + occ x [p]) →
  inv s'.
Proof.
  intros [] Hq Htun Hth Hcr Hpan Hocc. split; rewrite ?Htun, ?Hth, ?Hcr, ?Hpan; try done.
  - intros x. specialize (inv_places0 x). specialize (Hocc x).
    destruct d; simpl in *; rewrite Hq, ?occ_cons, ?occ_nil in *; lia.
  - by destruct d.
  - by destruct d.
  - by destruct d.
  - intros d'. specialize (inv_chans0 d'). by destruct d, d'.
  - intros d' Hd'. specialize (inv_waited0 d'). by destruct d, d'; auto.
  - intros d' Hd'. assert (ch_queue (get_chan (tun s) d) = []); [|congruence].
    apply inv_done0. by destruct d.
  - intros d'. specialize (inv_fifo0 d'). destruct d, d'; simpl in *; try done;
      by rewrite inv_fifo0, Hq, <-app_assoc.
  - intros d'. specialize (inv_capacity0 d'). destruct d, d'; simpl in *; rewrite ?Hq in *; simpl in *; lia.
Qed.

Lemma inv_close s s' : inv s → close_step s s' → inv s'.
Proof.
  intros Hinv Hstep. destruct Hstep as [Hst|Hst Hsn|p q Hst Hq|p q Hst Hqi Hq|Hst Hqi Hqo].
  - assert (Hno : ∀ d, ch_closed (get_chan (tun s) d) = false).
    { intros d. destruct (ch_closed _) eqn:Hc; [|done]. apply (inv_chans s Hinv) in Hc as [?|?]; congruence. }
    destruct Hinv. split; try done.
    + intros d. change (get_chan _ d) with (get_chan (tun s) d). rewrite Hno. simpl. split; [done|by intros [|]].
  - destruct Hinv. split; try done; simpl; rewrite <-?Hsn; try done.
    + rewrite inv_marked0, Hst. done.
    + intros []; simpl; tauto.
    + intros []; [apply (inv_fifo0 Inbound)|apply (inv_fifo0 Outbound)].
    + intros []; [apply (inv_capacity0 Inbound)|apply (inv_capacity0 Outbound)].
  - apply (inv_taken s _ Inbound p q); try done. intros x. simpl. rewrite !occ_cons, occ_nil. lia.
  - apply (inv_taken s _ Outbound p q); try done. intros x. simpl. rewrite !occ_cons, occ_nil. lia.
  - destruct Hinv. split; try done; simpl.
    + rewrite inv_marked0, Hst. done.
    + intros []; [rewrite (inv_chans0 Inbound)|rewrite (inv_chans0 Outbound)]; rewrite Hst; tauto.
    + by intros [] _.
Qed.

Lemma inv_spawn s t cr :
  inv s → counted t = 0 → (∀ p, occ p (thread_packets t) = occ p cr) → NoDup (cr ++ created s) →
  inv (MkSys (tun s) (threads s ++ [t]) (received s) (released s) (cr ++ created s) (panicked s)).
Proof.
  intros [] Ht Hp Hnd. split; simpl; try done.
  - intros p. specialize (inv_places0 p). specialize (Hp p). rewrite total_app, occ_app. simpl. lia.
  - rewrite total_app. simpl. lia.
Qed.

Lemma inv_step s s' : inv s → step s s' → inv s'.
Proof.
  intros Hinv Hstep. destruct Hstep as [op p Hp|bufs|i t s' Hi Hstep|i r p Hi|d p q Hq|p l1 l2 Hr|s' Hstep].
  - apply (inv_spawn s (TBegin op p) [p]); try done. constructor; [done|apply Hinv].
  - apply (inv_spawn s (WBegin bufs) []); try done. apply Hinv.
  - by eapply inv_thread.
  - move_by [p] (@nil Packet).
  - apply (inv_taken s _ d p q); try done. intros x. simpl. rewrite !occ_cons, occ_nil. lia.
  - destruct Hinv. split; simpl; try done. intros x. specialize (inv_places0 x).
    rewrite Hr in inv_places0. rewrite !occ_app, !occ_cons in *. lia.
  - by eapply inv_close.
Qed.
Lemma inv_reachable s : reachable s → inv s.
Proof. apply (rtc_ind_r inv initial); [apply inv_initial|]. intros. by eapply inv_step. Qed.

(** ** Closing *)

(** The steps the TUN takes by itself: goroutines inside a sending method and
    [Close]; no new caller arrives and nothing is received. *)
Inductive internal (s : sys) : sys → Prop :=
  | internal_thread i t s' :
      threads s !! i = Some t → counted t = 1 → thread_step s i t s' → internal s s'
  | internal_close s' : close_state (tun s) ≠ CloseIdle → close_step s s' → internal s s'.

Lemma internal_step s s' : internal s s' → step s s'.
Proof. intros [? ? ? ? _ ?|? _ ?]; [by eapply step_thread|by apply step_close]. Qed.

(** What each goroutine, and [Close], has left to do. *)
Definition weight (t : thread) : nat :=
  match t with
  | TSelect _ _ => 3 | TExit _ _ => 1
  | WLoop bufs => 4 * length bufs + 2 | WSelect _ bufs => 4 * length bufs + 5 | WExit _ => 1
  | _ => 0
  end.
Definition close_weight (c : close_pc) : nat :=
  match c with CloseIdle => 3 | CloseWaiting => 2 | CloseDraining => 1 | CloseDone => 0 end.
Definition work (s : sys) : nat :=
  total weight (threads s) + length (ch_queue (inbound (tun s))) + length (ch_queue (outbound (tun s))) +
  close_weight (close_state (tun s)).

Ltac weigh :=
  match goal with
  | Hi : threads ?s !! ?i = Some ?t |- context [total weight (<[?i := ?t']> _)] =>
    pose proof (total_insert weight (threads s) i t t' Hi); simpl in *; lia
  end.

Lemma internal_work s s' : inv s → internal s s' → work s' < work s.
Proof.
  intros Hinv [i t s1 Hi Ht Hstep|s1 _ Hstep]; unfold work.
  - pose proof (counted_open s i t) as Hopen.
    destruct Hstep as [op p s2 kept Hc Hf|op p Hc|op p s2 kept Hc Hf|op p|op p Hc|op p s2 kept c Hb Hc Hc' Hfull Hf
      |r kept|bufs Hc|bufs Hc| |bufs|b bufs p Hb Hp|p bufs Hc|p bufs Hc Hroom|p bufs Hc|p bufs Hc Hc' Hfull|ok];
      try done;
      try (unfold fail_send in Hf; destruct (so_release op); injection Hf as <- <-);
      try (rewrite (Hopen _ Hinv Hi eq_refl) in Hc; done);
      try (pose proof (Hopen Inbound Hinv Hi eq_refl); simpl in *; congruence).
    all: try (subst c; destruct (so_dir op)); simpl; rewrite ?length_app; simpl; weigh.
  - destruct Hstep as [Hst|Hst Hsn|p q Hst Hq|p q Hst Hqi Hq|Hst Hqi Hqo]; simpl; rewrite ?Hst, ?Hq; simpl; lia.
Qed.

Lemma fresh_packet (l : list Packet) : ∃ p, p ∉ l.
Proof.
  exists (MkPacket None (fresh (pk_generation <$> l)) 0 0). intros Hin.
  apply (infinite_is_fresh (pk_generation <$> l)), list_elem_of_fmap. eexists. split; [|exact Hin]. done.
Qed.

Lemma total_positive f l : 0 < total f l → ∃ i t, l !! i = Some t ∧ 0 < f t.
Proof.
  unfold total. induction l as [|x l IH]; simpl; [lia|]. intros Hp.
  destruct (decide (0 < f x)) as [Hx|Hx]; [by exists 0, x|].
  destruct IH as (i & t & ? & ?); [lia|]. by exists (S i), t.
Qed.

Lemma counted_progress s i t :
  inv s → threads s !! i = Some t → counted t = 1 → isClosed (tun s) = true → ∃ s', thread_step s i t s'.
Proof.
  intros Hinv Hi Ht Hcl. assert (closed (tun s) = true) as Hcl' by (by rewrite (inv_closed s Hinv)).
  destruct t as [| op p| | | |[|[|b bs] bufs]|p bufs| |]; try done.
  - destruct (fail_send s op p) as [s' kept] eqn:Hf. eexists. by apply (select_closed s i op p s' kept).
  - eexists. apply exit_send.
  - eexists. apply write_done.
  - eexists. apply write_skip.
  - destruct (fresh_packet (created s)) as [p Hp]. eexists. by apply write_copy.
  - eexists. by apply write_select_closed.
  - eexists. apply exit_write.
Qed.

Lemma internal_progress s :
  inv s → close_state (tun s) ≠ CloseIdle → close_state (tun s) ≠ CloseDone → ∃ s', internal s s'.
Proof.
  intros Hinv Hidle Hdone. destruct (close_state (tun s)) eqn:Hst; try done.
  - destruct (decide (senders (tun s) = 0)) as [H0|Hpos].
    + eexists. apply internal_close; [congruence|]. by apply close_channels.
    + rewrite (inv_senders s Hinv) in Hpos.
      destruct (total_positive counted (threads s)) as (i & t & Hi & Ht); [lia|].
      assert (counted t = 1) as Ht' by (destruct t; simpl in *; lia).
      destruct (counted_progress s i t Hinv Hi Ht') as [s' Hs'].
      { apply (inv_marked s Hinv). congruence. }
      exists s'. by eapply internal_thread.
  - destruct (ch_queue (inbound (tun s))) as [|p q] eqn:Hq; [|eexists; apply internal_close; [congruence|]; by apply close_drain_inbound].
    destruct (ch_queue (outbound (tun s))) as [|p q] eqn:Hq'; [|eexists; apply internal_close; [congruence|]; by eapply close_drain_outbound].
    eexists. apply internal_close; [congruence|]. by apply close_finish.
Qed.

Lemma internal_idle s s' : close_state (tun s) ≠ CloseIdle → step s s' → close_state (tun s') ≠ CloseIdle.
Proof.
  intros Hst Hstep. destruct Hstep as [| |i t s' Hi Hstep| | | |s' Hstep]; try done.
  - destruct Hstep; simpl; try done; unfold fail_send in *; repeat case_match; simplify_eq/=; try done;
      by destruct (so_dir op).
  - by destruct d.
  - by destruct Hstep.
Qed.
Lemma step_done s s' : close_state (tun s) = CloseDone → step s s' → close_state (tun s') = CloseDone.
Proof.
  intros Hst Hstep. destruct Hstep as [| |i t s' Hi Hstep| | | |s' Hstep]; try done.
  - destruct Hstep; simpl; try done; unfold fail_send in *; repeat case_match; simplify_eq/=; try done;
      by destruct (so_dir op).
  - by destruct d.
  - destruct Hstep; congruence.
Qed.

Lemma internal_acc s : inv s → Acc (flip internal) s.
Proof.
  remember (work s) as n eqn:Hn. revert s Hn. induction (lt_wf n) as [n _ IH]. intros s -> Hinv.
  constructor. intros s' Hs'. simpl in Hs'. eapply IH; [by apply internal_work|done|].
  eapply inv_step; [done|]. by apply internal_step.
Qed.

Lemma occ_threads p l : total (λ t, occ p (thread_packets t)) l = occ p (l ≫= thread_packets).
Proof. unfold total. induction l as [|t l IH]; simpl; [done|]. by rewrite occ_app, IH. Qed.

(** C38. Whatever the interleaving of senders, receivers and [Close], no
    goroutine ever sends on a closed channel, and every packet that entered is
    in exactly one place: a queue, a caller, a receiver, or released once. *)
Theorem ownership (s : sys) :
  reachable s →
  panicked s = false ∧ NoDup (created s) ∧
  ch_queue (inbound (tun s)) ++ ch_queue (outbound (tun s)) ++ (threads s ≫= thread_packets) ++
    received s ++ released s ≡ₚ created s.
Proof.
  intros Hinv%inv_reachable. split_and!; [apply Hinv..|]. apply occ_Permutation. intros p.
  rewrite <-(inv_places s Hinv p), !occ_app, occ_threads. lia.
Qed.

(** Both channels are bounded first-in first-out queues: what was taken is,
    in order, the beginning of what was sent, and nothing else is waiting. *)
Theorem queues_fifo (s : sys) (d : direction) :
  reachable s →
  ch_sent (get_chan (tun s) d) = ch_taken (get_chan (tun s) d) ++ ch_queue (get_chan (tun s) d) ∧
  length (ch_queue (get_chan (tun s) d)) ≤ chanTUNQueueSize.
Proof. intros Hinv%inv_reachable. split; apply Hinv. Qed.

(** C39. [Close] cannot hang: once it has marked the TUN, every run of the TUN's
    own goroutines is finite, blocked senders included, and a run can only stop
    when [Close] has returned. *)
Theorem Close_terminates (s : sys) :
  reachable s → close_state (tun s) ≠ CloseIdle →
  Acc (flip internal) s ∧
  ∀ s', rtc internal s s' → (¬ ∃ s'', internal s' s'') → close_state (tun s') = CloseDone.
Proof.
  intros Hinv%inv_reachable Hst. split; [by apply internal_acc|]. intros s' Hrun Hstuck.
  assert (inv s' ∧ close_state (tun s') ≠ CloseIdle) as [Hinv' Hst'].
  { clear Hstuck. induction Hrun as [|s s1 s2 Hs _ IH]; [done|]. apply internal_step in Hs.
    apply IH; [by eapply inv_step|by eapply internal_idle]. }
  destruct (decide (close_state (tun s') = CloseDone)) as [|Hd]; [done|].
  destruct Hstuck. by apply internal_progress.
Qed.

(** After [Close] returned, for good: no sender is inside, both queues are
    empty, and every packet is with a receiver, with a caller whose send failed
    or has not begun, or released. *)
Theorem Close_final (s s' : sys) :
  reachable s → close_state (tun s) = CloseDone → steps s s' →
  close_state (tun s') = CloseDone ∧ senders (tun s') = 0 ∧
  Forall (λ t, counted t = 0) (threads s') ∧
  (threads s' ≫= thread_packets) ++ received s' ++ released s' ≡ₚ created s'.
Proof.
  intros Hr Hd Hrun.
  assert (close_state (tun s') = CloseDone) as Hd'.
  { clear Hr. induction Hrun as [|s s1 s2 Hs _ IH]; [done|]. apply IH. by eapply step_done. }
  assert (inv s') as Hinv by (apply inv_reachable; unfold reachable, steps in *; by trans s).
  assert (senders (tun s') = 0) as H0.
  { apply (inv_waited s' Hinv Inbound). apply (inv_chans s' Hinv). by right. }
  split_and!; [done|done| |].
  - rewrite (inv_senders s' Hinv) in H0. apply Forall_forall. intros t [i Hi]%list_elem_of_lookup.
    pose proof (total_insert counted (threads s') i t (WReturned true) Hi). simpl in *. lia.
  - apply occ_Permutation. intros p. pose proof (inv_places s' Hinv p) as Hp.
    pose proof (inv_done s' Hinv Inbound Hd') as Hi. pose proof (inv_done s' Hinv Outbound Hd') as Ho. simpl in Hi, Ho.
    rewrite Hi, Ho, occ_threads, !occ_nil in Hp. rewrite !occ_app. lia.
Qed.

(** *** A run: a packet is queued, then [Close] marks the TUN. *)
Definition test_p : Packet := MkPacket (Some 0) 1 4 2.
Definition test_closing : sys :=
  MkSys (MkChanTUN empty_chan (MkChan [test_p] false [test_p] []) true true 0 CloseWaiting)
    [TReturned Sent None] [] [] [test_p] false.
Definition test_closed : sys :=
  MkSys (MkChanTUN (MkChan [] true [] []) (MkChan [] true [test_p] [test_p]) true true 0 CloseDone)
    [TReturned Sent None] [] [test_p] [test_p] false.
Lemma test_closing_reachable : reachable test_closing.
Proof.
  eapply rtc_l; [apply (step_send initial TryInjectOutbound test_p); by intros ?%elem_of_nil|].
  eapply rtc_l; [eapply (step_thread _ 0); [reflexivity|by eapply begin_ok]|].
  eapply rtc_l; [eapply (step_thread _ 0); [reflexivity|apply select_send; [done|unfold chanTUNQueueSize; simpl; lia]]|].
  eapply rtc_l; [eapply (step_thread _ 0); [reflexivity|apply exit_send]|].
  eapply rtc_l; [apply step_close; by apply close_mark|]. apply rtc_refl.
Qed.
Lemma test_close_run : steps test_closing test_closed.
Proof.
  eapply rtc_l; [apply step_close; by apply close_channels|].
  eapply rtc_l; [apply step_close; by eapply close_drain_outbound|].
  eapply rtc_l; [apply step_close; by apply close_finish|]. apply rtc_refl.
Qed.

Lemma ownership_witness :
  panicked test_closing = false ∧ NoDup (created test_closing) ∧ [test_p] ≡ₚ created test_closing.
Proof. exact (ownership test_closing test_closing_reachable). Defined.
Lemma queues_fifo_witness : [test_p] = [] ++ [test_p] ∧ 1 ≤ chanTUNQueueSize.
Proof. exact (queues_fifo test_closing Outbound test_closing_reachable). Defined.
Lemma Close_terminates_witness :
  Acc (flip internal) test_closing ∧
  ∀ s', rtc internal test_closing s' → (¬ ∃ s'', internal s' s'') → close_state (tun s') = CloseDone.
Proof. apply (Close_terminates test_closing test_closing_reachable). discriminate. Defined.
Lemma Close_final_witness :
  close_state (tun test_closed) = CloseDone ∧ senders (tun test_closed) = 0 ∧
  Forall (λ t, counted t = 0) (threads test_closed) ∧ [test_p] ≡ₚ created test_closed.
Proof.
  apply (Close_final test_closed test_closed); [|reflexivity|apply rtc_refl].
  unfold reachable. trans test_closing; [apply test_closing_reachable|apply test_close_run].
Defined.

(** ** What a batched read delivers *)

Section read_facts.
Context (spacing : Z) (ideal : nat).
Local Open Scope Z_scope.
Notation read_loop := (read_loop spacing).
Notation Read := (Read spacing ideal).

(** The packets among the receives. *)
Definition got (events : list recv) : list Packet :=
  omap (λ e, match e with Got p => Some p | _ => None end) events.

(** The receives that succeed before the first that does not. *)
Fixpoint lead (events : list recv) : nat :=
  match events with Got _ :: events => S (lead events) | _ => 0%nat end.

(** The descriptors are laid out from [off], a gap apart, inside [len]. *)
Fixpoint layout (len off : Z) (l : list ReadPacket) : Prop :=
  match l with
  | [] => True
  | rp :: l => rp_Offset rp = off ∧ 0 ≤ rp_Size rp ∧ off + rp_Size rp + spacing ≤ len ∧
               layout len (off + rp_Size rp + spacing) l
  end.
(** Descriptor [rp] of [slab] holds the bytes of [p]. *)
Definition holds (h : heap) (slab : list byte) (p : Packet) (rp : ReadPacket) : Prop :=
  Bytes h p = Ok (slice slab (rp_Offset rp) (rp_Offset rp + rp_Size rp)).

Lemma take_overwrite l n bs k : (n + length bs ≤ length l)%nat → (k ≤ n)%nat →
  take k (overwrite l n bs) = take k l.
Proof. intros. unfold overwrite. rewrite take_app_le by (rewrite length_take; lia). by rewrite take_take, Nat.min_l. Qed.
Lemma slice_take l l' k lo hi : (0 ≤ lo)%Z → lo ≤ hi → hi ≤ Z.of_nat k → take k l = take k l' →
  slice l lo hi = slice l' lo hi.
Proof.
  intros Hlo Hlh Hk Ht. unfold slice.
  assert (∀ x : list byte, take (Z.to_nat (hi - lo)) (drop (Z.to_nat lo) x) =
    take (Z.to_nat (hi - lo)) (drop (Z.to_nat lo) (take k x))) as Hx.
  { intros x. rewrite <-firstn_skipn_comm || idtac. rewrite skipn_firstn_comm, take_take. f_equal. lia. }
  by rewrite (Hx l), (Hx l'), Ht.
Qed.

Lemma read_one_spec h ps slab off packet :
  accounts h (packet :: ps) → 0 ≤ off → 0 ≤ spacing →
  ∃ h', accounts h' ps ∧ (∀ q, q ∈ ps → Bytes h' q = Bytes h q) ∧
    (read_one spacing h slab off packet = Ok (h', None) ∨
     ∃ bs, Bytes h packet = Ok bs ∧ let size := Z.of_nat (length bs) in
       off + size + spacing ≤ Z.of_nat (length slab) ∧
       read_one spacing h slab off packet = Ok (h', Some (overwrite slab (Z.to_nat off) bs, size))).
Proof.
  intros Hacc Hoff Hsp. destruct (Release_spec h _ packet Hacc) as (h1 & Hrel & Hacc1 & Hval & _).
  pose proof (acc_live _ _ Hacc) as [Hlp _]%Forall_cons. destruct (live_Ok _ _ Hlp) as (id & b & Hv).
  destruct (Bytes h packet) as [bs|] eqn:Hb; [|unfold Bytes in Hb; by rewrite Hv in Hb].
  exists h1. split_and!; [done|intros q Hq; by apply Bytes_frame, Hval|].
  unfold read_one. rewrite Hb. cbn [mbind result_bind]. cbv zeta.
  destruct (Z.ltb_spec (Z.of_nat (length slab) - off - spacing) (Z.of_nat (length bs))); rewrite Hrel.
  - by left.
  - right. exists bs. split_and!; [done|lia|done].
Qed.

Lemma read_loop_eq h slab off out n packet events :
  read_loop h slab off out n packet events =
  ('(h, copied) ← read_one spacing h slab off packet;
   match copied with
   | None => Ok (ReadDone h slab out (Some ErrTooManySegments))
   | Some (slab, size) =>
     match n, events with
     | S n, Got packet :: events =>
       read_loop h slab (off + size + spacing) (out ++ [MkReadPacket off size]) n packet events
     | _, _ => Ok (ReadDone h slab (out ++ [MkReadPacket off size]) None)
     end
   end).
Proof. by destruct n. Qed.

(** The postcondition of the loop: [new] describes the first of [ps], in order,
    every packet received is released, and without an error the batch stops only
    when it is full or the [k] ready packets are used up. *)
Definition delivered (h : heap) (rest : list Packet) (slab : list byte) (off : Z) (out : list ReadPacket) (n k : nat)
    (ps : list Packet) (res : result panic read_outcome) : Prop :=
  ∃ h' slab' new err, res = Ok (ReadDone h' slab' (out ++ new) err) ∧
    length slab' = length slab ∧ take (Z.to_nat off) slab' = take (Z.to_nat off) slab ∧
    (length new ≤ n)%nat ∧ layout (Z.of_nat (length slab)) off new ∧
    Forall2 (holds h slab') (take (length new) ps) new ∧
    (err = None ∧ length new = Nat.min n k ∧ accounts h' (drop (length new) ps ++ rest) ∨
     err = Some ErrTooManySegments ∧ accounts h' (drop (S (length new)) ps ++ rest)).

Lemma Forall2_impl_elem {A B} (P Q : A → B → Prop) l k :
  Forall2 P l k → (∀ x y, x ∈ l → P x y → Q x y) → Forall2 Q l k.
Proof. induction 1; intros Himp; constructor; [apply Himp; [by left|done]|]. apply IHForall2. intros. apply Himp; [by right|done]. Qed.

(** One more packet in front of a delivery. *)
Lemma delivered_cons h h1 rest slab off out n k packet ps bs res :
  Bytes h packet = Ok bs → (∀ q, q ∈ ps → Bytes h1 q = Bytes h q) → 0 ≤ off → 0 ≤ spacing →
  off + Z.of_nat (length bs) + spacing ≤ Z.of_nat (length slab) →
  delivered h1 rest (overwrite slab (Z.to_nat off) bs) (off + Z.of_nat (length bs) + spacing)
    (out ++ [MkReadPacket off (Z.of_nat (length bs))]) n k ps res →
  delivered h rest slab off out (S n) (S k) (packet :: ps) res.
Proof.
  intros Hb Hsame Hoff Hsp Hfit (h' & slab' & new & err & -> & Hlen & Htake & Hn & Hlay & Hall & Hfin).
  assert (length (overwrite slab (Z.to_nat off) bs) = length slab) as Hlen1 by (apply length_overwrite; lia).
  rewrite Hlen1 in *.
  exists h', slab', (MkReadPacket off (Z.of_nat (length bs)) :: new), err. rewrite <-app_assoc.
  split_and!; [done|done| |simpl; lia|simpl; split_and!; try done; lia| |].
  - apply (f_equal (take (Z.to_nat off))) in Htake. rewrite !take_take, !Nat.min_l in Htake by lia.
    rewrite Htake. apply take_overwrite; lia.
  - cbn [length take]. constructor.
    + unfold holds. simpl. rewrite Hb. f_equal.
      rewrite <-(slice_overwrite slab (Z.to_nat off) bs) at 1 by lia. rewrite Z2Nat.id by lia.
      apply (slice_take _ _ (Z.to_nat (off + Z.of_nat (length bs) + spacing))); [lia..|done].
    + eapply Forall2_impl_elem; [exact Hall|]. unfold holds.
      intros p rp (i & Hp & _)%elem_of_take Hh. rewrite <-Hsame; [done|]. by eapply list_elem_of_lookup_2.
  - destruct Hfin as [(-> & Hk & Ha)|[-> Ha]]; [left|right]; split_and!; try done. simpl. by rewrite Hk.
Qed.

Lemma read_loop_spec rest events h slab off out packet n :
  accounts h (packet :: got events ++ rest) → 0 ≤ spacing → 0 ≤ off →
  delivered h rest slab off out (S n) (S (lead events)) (packet :: got events) (read_loop h slab off out n packet events).
Proof.
  intros Hacc Hsp. revert h slab off out packet n Hacc.
  induction events as [|e events IH]; intros h slab off out packet n Hacc Hoff; rewrite read_loop_eq.
  all: destruct (read_one_spec h _ slab off packet Hacc Hoff Hsp) as (h1 & Hacc1 & Hsame & [->|(bs & Hb & Hfit & ->)]).
  all: cbn [mbind result_bind].
  1,3: exists h1, slab, [], (Some ErrTooManySegments); rewrite app_nil_r;
    split_and!; [done|done|done|simpl; lia|done|constructor|by right].
  all: eapply delivered_cons; [exact Hb|intros q Hq; apply Hsame; set_solver|done|done|done|].
  all: assert (Hlast : ∀ n k (ps : list Packet) slab out off, accounts h1 (ps ++ rest) → Nat.min n k = 0%nat →
    delivered h1 rest slab off out n k ps (Ok (ReadDone h1 slab out None))).
  1,3: intros n' k ps slab' out' off' Ha Hk; exists h1, slab', [], None; rewrite app_nil_r;
      split_and!; [done|done|done|simpl; lia|done|constructor|by left].
  - destruct n; by apply Hlast.
  - destruct n as [|n], e as [p| |]; try by apply Hlast.
    apply IH; [done|lia].
Qed.

(** A batched read never uses a stale packet and releases every packet it
    receives.  The descriptors it returns are the first packets of the queue in
    order, each with its bytes in the slab, laid out one gap apart and inside
    the slab; the batch is as large as room and queue allow, and only a packet
    that does not fit is dropped, with an error. *)
Theorem Read_delivers rest events h slab packets packet :
  accounts h (packet :: got events ++ rest) → 0 ≤ spacing → (0 < Nat.min packets ideal)%nat →
  ∃ h' slab' new err, Read h slab packets (Got packet :: events) = Ok (ReadDone h' slab' new err) ∧
    length slab' = length slab ∧ layout (Z.of_nat (length slab)) spacing new ∧
    Forall2 (holds h slab') (take (length new) (packet :: got events)) new ∧
    (err = None ∧ length new = Nat.min (Nat.min packets ideal) (S (lead events)) ∧
       accounts h' (drop (length new) (packet :: got events) ++ rest) ∨
     err = Some ErrTooManySegments ∧ accounts h' (drop (S (length new)) (packet :: got events) ++ rest)).
Proof.
  intros Hacc Hsp Hbatch. unfold ChanTUN.Read. destruct (Nat.min packets ideal) as [|n]; [lia|].
  destruct (read_loop_spec rest events h slab spacing [] packet n Hacc Hsp Hsp)
    as (h' & slab' & new & err & -> & Hlen & _ & _ & Hlay & Hall & Hfin).
  by exists h', slab', new, err.
Qed.
End read_facts.

(** Two packets read into a slab with room for both. *)
Definition read_heap : heap :=
  match copy test_heap 0 [x01; x02] None with
  | Ok (_, h) => match copy h 0 [x03] None with Ok (_, h) => h | Err _ => h end
  | Err _ => test_heap
  end.
Definition read_p1 : Packet := MkPacket (Some 0) 1 4 2.
Definition read_p2 : Packet := MkPacket (Some 1) 1 4 1.
Lemma read_heap_accounts : accounts read_heap [read_p2; read_p1].
Proof.
  destruct (copy_spec test_heap [] 0 (MkPool 4 8 []) [x01; x02] None test_heap_accounts eq_refl)
    as (p & h & Hc & Ha & _ & _ & _ & Hp).
  assert (p = read_p1 ∧ h = heap_acquired) as [-> ->] by (vm_compute in Hc; by simplify_eq).
  destruct (copy_spec heap_acquired [read_p1] 0 (MkPool 4 8 []) [x03] None Ha eq_refl)
    as (p & h & Hc' & Ha' & _).
  assert (p = read_p2 ∧ h = read_heap) as [-> ->] by (vm_compute in Hc'; by simplify_eq).
  done.
Qed.
Example read_value :
  match Read 2 128 read_heap (make_bytes 12) 8 [Got read_p1; Got read_p2; Empty] with
  | Ok (ReadDone _ slab rps err) => (slab, rps, err)
  | _ => ([], [], Some EOF)
  end = ([x00; x00; x01; x02; x00; x00; x03; x00; x00; x00; x00; x00],
         [MkReadPacket 2 2; MkReadPacket 6 1], None).
Proof. vm_compute. reflexivity. Qed.
Lemma Read_delivers_witness :
  ∃ h' slab' new err, Read 2 128 read_heap (make_bytes 12) 8 [Got read_p1; Got read_p2; Empty] =
      Ok (ReadDone h' slab' new err) ∧
    length slab' = 12 ∧ layout 2 12 2 new ∧
    Forall2 (holds read_heap slab') (take (length new) [read_p1; read_p2]) new ∧
    (err = None ∧ length new = 2 ∧ accounts h' (drop (length new) [read_p1; read_p2] ++ []) ∨
     err = Some ErrTooManySegments ∧ accounts h' (drop (S (length new)) [read_p1; read_p2] ++ [])).
Proof.
  apply (Read_delivers 2 128 [] [Got read_p2; Empty] read_heap (make_bytes 12) 8 read_p1); [|lia|vm_compute; lia].
  eapply accounts_perm; [|apply read_heap_accounts]. apply Permutation_swap.
Defined.
