(* ===== verification/Mux.v ===== *)
(** * The TUN mux

    [src/tunmux/mux.go]: the loops between the host TUN, the profile TUNs and
    the local service.  One iteration of each loop is a function on the packet
    heap; what the environment decides (which buffer the pool reuses, whether a
    TUN still accepts packets, what the channels hold, whether a write fails)
    is an argument.  The mapper rewrites packets in place, so its result is
    written back through the packet's bytes. *)

From Stdlib Require Import Strings.Byte.
From S2P Require Import Prelude GoStrings Netip EffectiveIP Activity RoutingTable PacketMap PacketPool ChanTUN.
Local Open Scope nat_scope.

(** Rewriting an address is in place. *)
Class InPlace `{Packets (list byte)} : Prop := {
  UpdateSrc_length pkt a : length (UpdateSrcAddr pkt a) = length pkt;
  UpdateDst_length pkt a : length (UpdateDstAddr pkt a) = length pkt }.

Record Mux (T : Type → Type) : Type := MkMux {
  mx_pool : nat; mapper : Table T; local : option (list byte → bool); activity : option ActivityTracker;
  profiles : gmap string nat; workers : gset string; running : bool }.
Arguments MkMux {T} _ _ _ _ _ _ _.
Arguments mx_pool {T} _.
Arguments mapper {T} _.
Arguments local {T} _.
Arguments activity {T} _.
Arguments profiles {T} _.
Arguments workers {T} _.
Arguments running {T} _.

Inductive add_error : Type := ErrRequired | ErrHasTUN (id : string).
Inductive run_error : Type := ErrAlreadyRunning.

Inductive mux_op (T : Type → Type) : Type :=
  | OpAdd (id : string) (tun : option nat) | OpRemove (id : string) | OpRun | OpSetMapper (t : Table T).
Arguments OpAdd {T} _ _.
Arguments OpRemove {T} _.
Arguments OpRun {T}.
Arguments OpSetMapper {T} _.

(** What the environment decides for one packet.  Others may change the mux at
    any time: [he_before] is done before the packet's mapper is loaded, and
    [he_between] before its profile is looked up under the lock. *)
Record host_env (T : Type → Type) : Type := MkHostEnv {
  he_data : list byte; he_choice : option nat; he_accepted : bool; he_now : Z;
  he_before : list (mux_op T); he_between : list (mux_op T) }.
Arguments MkHostEnv {T} _ _ _ _ _ _.
Arguments he_data {T} _.
Arguments he_choice {T} _.
Arguments he_accepted {T} _.
Arguments he_now {T} _.
Arguments he_before {T} _.
Arguments he_between {T} _.

Section mux.
Context {T : Type → Type} `{LPM T} `{Packets (list byte)}.
Notation Mux := (Mux T).
Notation host_env := (host_env T).

(** ** Profiles and workers *)

Definition NewMux (pool : nat) (profiles : gmap string nat) (mapper : Table T) : Mux :=
  MkMux pool mapper None None profiles ∅ false.
Definition SetMapper (m : Mux) (t : Table T) : Mux :=
  MkMux (mx_pool m) t (local m) (activity m) (profiles m) (workers m) (running m).
Definition with_profiles (m : Mux) (ps : gmap string nat) (ws : gset string) (r : bool) : Mux :=
  MkMux (mx_pool m) (mapper m) (local m) (activity m) ps ws r.
Definition AddProfile (m : Mux) (profileID : string) (tun : option nat) : result add_error Mux :=
  match tun with
  | None => Err ErrRequired
  | Some tun =>
    _ ← guard_err (String.eqb profileID "") ErrRequired;
    match profiles m !! profileID with
    | Some _ => Err (ErrHasTUN profileID)
    | None =>
      Ok (with_profiles m (<[profileID := tun]> (profiles m))
            (if running m then {[profileID]} ∪ workers m else workers m) (running m))
    end
  end.
Definition RemoveProfile (m : Mux) (profileID : string) : Mux :=
  with_profiles m (delete profileID (profiles m)) (workers m ∖ {[profileID]}) (running m).
(** The part of [Run] under the mutex. *)
Definition RunStart (m : Mux) : result run_error Mux :=
  _ ← guard_err (running m) ErrAlreadyRunning;
  Ok (with_profiles m (profiles m) (dom (profiles m) ∪ workers m) true).

(** An operation that fails leaves the mux as it was. *)
Definition apply_op (m : Mux) (op : mux_op T) : Mux :=
  match op with
  | OpAdd id tun => match AddProfile m id tun with Ok m => m | Err _ => m end
  | OpRemove id => RemoveProfile m id
  | OpRun => match RunStart m with Ok m => m | Err _ => m end
  | OpSetMapper t => SetMapper m t
  end.

(** ** Host to profiles *)

Definition observeDroppedOutbound (m : Mux) (pkt : list byte) (now : Z) : Mux :=
  match activity m with
  | None => m
  | Some a =>
    let parsed := Decode pkt in
    if (IPVersion parsed =? 0)%nat then m
    else MkMux (mx_pool m) (mapper m) (local m) (Some (ObserveOutbound a (Dst parsed) now))
           (profiles m) (workers m) (running m)
  end.

(** What became of a host packet. *)
Inductive host_outcome : Type :=
  | HostLocal | HostDropped (e : map_error) | HostMissing (id : string)
  | HostSent (id : string) (tun : nat) (packet : Packet)
  | HostFailed (id : string).
Definition host_packet (m : Mux) (h : heap) (e : host_env) : result panic (Mux * heap * host_outcome) :=
  '(packet, h) ← PacketPool.copy h (mx_pool m) (he_data e) (he_choice e);
  pkt ← Bytes h packet;
  if (match local m with Some handle => handle pkt | None => false end) then
    '(_, h) ← Release h packet; Ok (m, h, HostLocal)
  else
    let m := foldl apply_op m (he_before e) in
    let '(pkt, route) := PacketMap.Outbound (mapper m) pkt in
    h ← write_bytes h packet pkt;
    match route with
    | Err err =>
      let m := observeDroppedOutbound m pkt (he_now e) in
      '(_, h) ← Release h packet; Ok (m, h, HostDropped err)
    | Ok route =>
      let m := foldl apply_op m (he_between e) in
      match profiles m !! rt_ProfileID route with
      | None => '(_, h) ← Release h packet; Ok (m, h, HostMissing (rt_ProfileID route))
      | Some tun =>
        if he_accepted e then Ok (m, h, HostSent (rt_ProfileID route) tun packet)
        else '(_, h) ← Release h packet; Ok (m, h, HostFailed (rt_ProfileID route))
      end
    end.

(** The packets of one read: the loop ends at the first failed injection. *)
Fixpoint host_batch (m : Mux) (h : heap) (es : list host_env) : result panic (Mux * heap * list host_outcome) :=
  match es with
  | [] => Ok (m, h, [])
  | e :: es =>
    '(m, h, o) ← host_packet m h e;
    match o with
    | HostFailed _ => Ok (m, h, [o])
    | _ => '(m, h, os) ← host_batch m h es; Ok (m, h, o :: os)
    end
  end.

(** After a read: how the loop goes on. *)
Inductive host_read_error : Type := ReadOk | ReadTooManySegments | ReadEOF | ReadFailed.
Inductive loop_result : Type := Continue | ReturnNil | ReturnErr.
Definition host_iteration (m : Mux) (h : heap) (es : list host_env) (err : host_read_error) (ctx_done : bool) :
    result panic (Mux * heap * list host_outcome * loop_result) :=
  '(m, h, os) ← host_batch m h es;
  let failed := match last os with Some (HostFailed _) => true | _ => false end in
  Ok (m, h, os,
    if failed then (if ctx_done then ReturnNil else ReturnErr)
    else match err with
         | ReadOk | ReadTooManySegments => Continue
         | ReadEOF => ReturnNil
         | ReadFailed => if ctx_done then ReturnNil else ReturnErr
         end).

(** ** Profile to host *)

(** The receives of one batch: a blocking one, then those that are ready up to
    the batch size, and whether the channel was found closed. *)
Fixpoint drain (n : nat) (events : list recv) : list Packet * bool :=
  match n, events with
  | S n, Got p :: events => let '(ps, closed) := drain n events in (p :: ps, closed)
  | S _, ChanClosed :: _ => ([], true)
  | _, _ => ([], false)
  end.
Inductive gathered : Type := GatherBlocked | GatherClosed | Gathered (packets : list Packet) (closed : bool).
Definition gather (batchSize : nat) (events : list recv) : gathered :=
  match events with
  | Got p :: events => let '(ps, closed) := drain (Nat.pred batchSize) events in Gathered (p :: ps) closed
  | ChanClosed :: _ => GatherClosed
  | _ => GatherBlocked
  end.

(** The loop over the packets of a batch: the accepted ones with the buffers to
    write and the offset of the last.  What others do to the mux before the mapper
    of each packet is loaded is in [changes]. *)
Fixpoint accept_batch (m : Mux) (changes : list (list (mux_op T))) (profileID : string) (h : heap) (packets : list Packet)
    (accepted : list Packet) (bufs : list (list byte)) (offset : Z) :
    result panic (heap * (list Packet * list (list byte) * Z)) :=
  match packets with
  | [] => Ok (h, (accepted, bufs, offset))
  | packet :: packets =>
    pkt ← Bytes h packet;
    let m := foldl apply_op m (hd [] changes) in
    let '(pkt, r) := PacketMap.Inbound (mapper m) profileID pkt in
    h ← write_bytes h packet pkt;
    match r with
    | Err _ => '(_, h) ← Release h packet; accept_batch m (tl changes) profileID h packets accepted bufs offset
    | Ok _ =>
      '(buf, packetOffset) ← writeBuffer h packet;
      accept_batch m (tl changes) profileID h packets (accepted ++ [packet]) (bufs ++ [buf]) packetOffset
    end
  end.
Fixpoint release_all (h : heap) (packets : list Packet) : result panic heap :=
  match packets with
  | [] => Ok h
  | p :: packets => '(_, h) ← Release h p; release_all h packets
  end.

(** One iteration: the call of [host.Write], if any, and how the loop goes on. *)
Definition profile_iteration (m : Mux) (changes : list (list (mux_op T))) (profileID : string) (h : heap) (packets : list Packet) (closed : bool)
    (write_ok ctx_done : bool) : result panic (heap * option (list (list byte) * Z) * loop_result) :=
  '(h, (accepted, bufs, offset)) ← accept_batch m changes profileID h packets [] [] 0%Z;
  let stop := if ctx_done then ReturnNil else ReturnErr in
  match bufs with
  | [] => Ok (h, None, if closed then stop else Continue)
  | _ => h ← release_all h accepted;
         Ok (h, Some (bufs, offset), if write_ok then (if closed then stop else Continue) else stop)
  end.

(** A whole turn of [runProfileToHost]; [None] while it waits. *)
Definition profile_turn (m : Mux) (changes : list (list (mux_op T))) (profileID : string) (h : heap) (batchSize : Z) (events : list recv)
    (write_ok ctx_done : bool) : result panic (option (heap * option (list (list byte) * Z) * loop_result)) :=
  match gather (Z.to_nat (Z.max 1 batchSize)) events with
  | GatherBlocked => Ok (if ctx_done then Some (h, None, ReturnNil) else None)
  | GatherClosed => Ok (Some (h, None, if ctx_done then ReturnNil else ReturnErr))
  | Gathered packets closed => Some <$> profile_iteration m changes profileID h packets closed write_ok ctx_done
  end.

(** ** Local service to host *)

Fixpoint copy_all (pool : nat) (h : heap) (datas : list (list byte * option nat)) : result panic (heap * list Packet) :=
  match datas with
  | [] => Ok (h, [])
  | (data, choice) :: datas =>
    '(p, h) ← PacketPool.copy h pool data choice;
    '(h, ps) ← copy_all pool h datas;
    Ok (h, p :: ps)
  end.
Fixpoint write_buffers (h : heap) (packets : list Packet) (bufs : list (list byte)) (offset : Z) :
    result panic (list (list byte) * Z) :=
  match packets with
  | [] => Ok (bufs, offset)
  | p :: packets => '(buf, offset) ← writeBuffer h p; write_buffers h packets (bufs ++ [buf]) offset
  end.
Definition local_iteration (m : Mux) (h : heap) (datas : list (list byte * option nat)) (closed : bool)
    (write_ok ctx_done : bool) : result panic (heap * (list (list byte) * Z) * loop_result) :=
  '(h, packets) ← copy_all (mx_pool m) h datas;
  '(bufs, offset) ← write_buffers h packets [] 0%Z;
  h ← release_all h packets;
  let stop := if ctx_done then ReturnNil else ReturnErr in
  Ok (h, (bufs, offset), if write_ok then (if closed then stop else Continue) else stop).
End mux.

(** ** Correctness *)

Section mux_facts.
Context {T : Type → Type} `{LPM T} `{PK : Packets (list byte), !InPlace}.
Notation Mux := (Mux T).
Notation host_env := (host_env T).

Lemma Outbound_length (t : Table T) pkt : length (PacketMap.Outbound t pkt).1 = length pkt.
Proof.
  unfold PacketMap.Outbound. repeat case_match; simpl; rewrite ?UpdateDst_length, ?UpdateSrc_length; done.
Qed.
Lemma Inbound_length (t : Table T) id pkt : length (PacketMap.Inbound t id pkt).1 = length pkt.
Proof.
  unfold PacketMap.Inbound, inbound_subnet. repeat case_match; simplify_eq/=;
    rewrite ?UpdateDst_length, ?UpdateSrc_length; done.
Qed.
Lemma Bytes_length h p bs : Bytes h p = Ok bs → pk_size p = Z.of_nat (length bs).
Proof.
  unfold Bytes. destruct (validate h p) as [[id b]|] eqn:Hv; [|done]. cbn [mbind result_bind]. intros [= <-].
  apply validate_Ok in Hv as (_ & _ & _ & _ & Ho & Hs & Hle).
  unfold slice. rewrite length_take, length_drop. lia.
Qed.
Lemma accounts_Bytes h ps p : accounts h ps → p ∈ ps → ∃ bs, Bytes h p = Ok bs.
Proof.
  intros Hacc Hp. pose proof (acc_live h ps Hacc) as Hl. rewrite Forall_forall in Hl.
  destruct (live_Ok _ _ (Hl p Hp)) as (id & b & Hv). unfold Bytes. rewrite Hv. eexists. done.
Qed.

(** Two muxes with the same tables, whatever their activity and workers. *)
Definition same_tables (m m' : Mux) : Prop :=
  mx_pool m' = mx_pool m ∧ mapper m' = mapper m ∧ local m' = local m ∧ profiles m' = profiles m ∧ running m' = running m.
Lemma apply_op_same m m' op : same_tables m m' → same_tables (apply_op m op) (apply_op m' op).
Proof.
  destruct m as [p0 t0 l0 a0 ps0 ws0 r0], m' as [p t l a ps ws r]. unfold same_tables. cbn. intros (-> & -> & -> & -> & ->).
  destruct op as [id tun|id| |t']; cbn; [|by split_and!| |by split_and!].
  - unfold AddProfile. cbn. destruct tun; cbn; [|by split_and!]. destruct (String.eqb id ""); cbn; [by split_and!|]. by destruct (_ !! id).
  - unfold RunStart. cbn. by destruct r0.
Qed.
Lemma apply_ops_same ops (m m' : Mux) : same_tables m m' → same_tables (foldl apply_op m ops) (foldl apply_op m' ops).
Proof. revert m m'. induction ops as [|op ops IH]; intros m m' Hm; [done|]. by apply IH, apply_op_same. Qed.
(** Operations leave the pool and the local handler. *)
Lemma apply_ops_pool ops (m : Mux) : mx_pool (foldl apply_op m ops) = mx_pool m.
Proof.
  revert m. induction ops as [|op ops IH]; intros m; [done|]. cbn [foldl]. rewrite IH. destruct op as [id [tun|]|id| |t]; cbn; try done.
  - unfold AddProfile. cbn. destruct (String.eqb id ""); cbn; [done|]. by destruct (_ !! id).
  - unfold RunStart. by destruct (running m).
Qed.
(** The packets and heap seen by whoever owns [ps] are untouched. *)
Definition same_bytes (h h' : heap) (ps : list Packet) : Prop := ∀ q, q ∈ ps → Bytes h' q = Bytes h q.
Definition has_pool (h : heap) (pid : nat) : Prop := is_Some (h_pools h !! pid).

Lemma has_pool_params h h' pid : (∀ q, params h' q = params h q) → has_pool h pid → has_pool h' pid.
Proof.
  intros Hp [pool Hpool]. specialize (Hp pid). unfold params in Hp. rewrite Hpool in Hp.
  unfold has_pool. destruct (h_pools h' !! pid); [eauto|done].
Qed.

(** What the mux is for: the fate of a packet as a function of its bytes and of
    the mapper and the profile TUN the mux has when they are looked up. *)
Inductive verdict : Type :=
  | VLocal | VDropped (e : map_error) | VMissing (id : string)
  | VSent (id : string) (tun : nat) (bytes : list byte) | VFailed (id : string).
Definition host_verdict (m : Mux) (e : host_env) : Mux * verdict :=
  if (match local m with Some handle => handle (he_data e) | None => false end) then (m, VLocal)
  else
    let m := foldl apply_op m (he_before e) in
    match PacketMap.Outbound (mapper m) (he_data e) with
    | (_, Err err) => (m, VDropped err)
    | (pkt, Ok route) =>
      let m := foldl apply_op m (he_between e) in
      (m, match profiles m !! rt_ProfileID route with
          | None => VMissing (rt_ProfileID route)
          | Some tun => if he_accepted e then VSent (rt_ProfileID route) tun pkt else VFailed (rt_ProfileID route)
          end)
    end.
Fixpoint host_verdicts (m : Mux) (es : list host_env) : list verdict :=
  match es with
  | [] => []
  | e :: es =>
    match host_verdict m e with
    | (_, VFailed id) => [VFailed id]
    | (m, v) => v :: host_verdicts m es
    end
  end.
Definition outcome_ok (h : heap) (o : host_outcome) (v : verdict) : Prop :=
  match o, v with
  | HostLocal, VLocal => True
  | HostDropped e, VDropped e' => e = e'
  | HostMissing id, VMissing id' => id = id'
  | HostSent id tun p, VSent id' tun' bs => id = id' ∧ tun = tun' ∧ Bytes h p = Ok bs
  | HostFailed id, VFailed id' => id = id'
  | _, _ => False
  end.
Definition sent (os : list host_outcome) : list Packet :=
  omap (λ o, match o with HostSent _ _ p => Some p | _ => None end) os.

Lemma observe_same m pkt now : same_tables m (observeDroppedOutbound m pkt now).
Proof. unfold observeDroppedOutbound. by repeat case_match. Qed.

Lemma host_verdict_pool m e : mx_pool (host_verdict m e).1 = mx_pool m.
Proof using.
  unfold host_verdict. destruct (match local m with Some handle => handle (he_data e) | None => false end); [done|].
  destruct (PacketMap.Outbound _ _) as [pkt [route|err]]; cbn [fst]; by rewrite !apply_ops_pool.
Qed.
Lemma host_packet_spec m h ps e :
  accounts h ps → has_pool h (mx_pool m) →
  ∃ m' h' o, host_packet m h e = Ok (m', h', o) ∧ same_tables (host_verdict m e).1 m' ∧
    outcome_ok h' o (host_verdict m e).2 ∧ accounts h' (sent [o] ++ ps) ∧
    same_bytes h h' ps ∧ has_pool h' (mx_pool m).
Proof.
  intros Hacc [pool Hp].
  destruct (copy_spec h ps _ pool (he_data e) (he_choice e) Hacc Hp) as (p & h1 & Hc & Hacc1 & Hb & _ & Hv1 & Hp1).
  assert (Hpool1 : has_pool h1 (mx_pool m)) by (apply (has_pool_params h); [done|by exists pool]).
  assert (Hsame1 : same_bytes h h1 ps) by (intros q Hq; by apply Bytes_frame, Hv1).
  (* the packet is released at the end *)
  assert (Hrel : ∀ h2 m1 m' o v, accounts h2 (p :: ps) → same_bytes h1 h2 ps → (∀ q, params h2 q = params h1 q) →
    same_tables m1 m' → sent [o] = [] → (∀ h', outcome_ok h' o v) →
    ∃ m0 h' o0, ('(_, h) ← Release h2 p; Ok (m', h, o)) = @Ok panic _ (m0, h', o0) ∧ same_tables m1 m0 ∧
      outcome_ok h' o0 v ∧ accounts h' (sent [o0] ++ ps) ∧ same_bytes h h' ps ∧ has_pool h' (mx_pool m)).
  { intros h2 m1 m' o v Ha Hs Hpar Hm Ho Hout. destruct (Release_spec h2 ps p Ha) as (h3 & -> & Ha3 & Hv3 & Hp3).
    exists m', h3, o. rewrite Ho. split_and!; [done..| |].
    - intros q Hq. rewrite (Bytes_frame h2 h3) by auto. by rewrite Hs, Hsame1.
    - apply (has_pool_params h1); [|done]. intros q. by rewrite Hp3, Hpar. }
  unfold host_packet. rewrite Hc. cbn [mbind result_bind]. rewrite Hb. cbn [mbind result_bind].
  unfold host_verdict in *. cbv zeta.
  destruct (match local m with Some handle => handle (he_data e) | None => false end); [by apply Hrel|].
  set (mb := foldl apply_op m (he_before e)) in *.
  pose proof (Outbound_length (mapper mb) (he_data e)) as Hlen.
  destruct (PacketMap.Outbound (mapper mb) (he_data e)) as [pkt route]. simpl in Hlen.
  destruct (write_bytes_spec h1 ps p pkt Hacc1) as (h2 & -> & Hacc2 & Hb2 & Hv2 & Hp2).
  { rewrite (Bytes_length _ _ _ Hb). by rewrite Hlen. }
  cbn [mbind result_bind].
  assert (same_bytes h1 h2 ps) as Hsame2 by (intros q Hq; by apply Bytes_frame, Hv2).
  destruct route as [route|err]; cbn [fst snd]; [|apply Hrel; try done; apply observe_same].
  destruct (profiles _ !! rt_ProfileID route) as [tun|]; [|by apply Hrel].
  destruct (he_accepted e); [|by apply Hrel].
  eexists _, _, _. split; [done|]. split_and!; try done.
  - intros q Hq. by rewrite Hsame2, Hsame1.
  - by apply (has_pool_params h1).
Qed.

Lemma host_verdict_same m m' e : same_tables m m' → (host_verdict m' e).2 = (host_verdict m e).2 ∧ same_tables (host_verdict m e).1 (host_verdict m' e).1.
Proof using.
  intros Hm. pose proof (apply_ops_same (he_before e) m m' Hm) as Hb. pose proof (apply_ops_same (he_between e) _ _ Hb) as Hc.
  unfold host_verdict. cbv zeta. destruct Hm as (E1 & E2 & E3 & E4 & E5). rewrite E3.
  destruct (match local m with Some handle => handle (he_data e) | None => false end); [done|].
  assert (mapper (foldl apply_op m' (he_before e)) = mapper (foldl apply_op m (he_before e))) as -> by apply Hb.
  destruct (PacketMap.Outbound _ _) as [pkt [route|err]]; [|done]. cbn [fst snd]. split; [|done].
  by assert (profiles (foldl apply_op (foldl apply_op m' (he_before e)) (he_between e)) =
             profiles (foldl apply_op (foldl apply_op m (he_before e)) (he_between e))) as -> by apply Hc.
Qed.
Lemma host_verdicts_same es : ∀ m m', same_tables m m' → host_verdicts m' es = host_verdicts m es.
Proof using.
  induction es as [|e es IH]; intros m m' Hs; simpl; [done|]. destruct (host_verdict_same m m' e Hs) as [Hv Hm].
  destruct (host_verdict m e) as [m1 v], (host_verdict m' e) as [m1' v']. cbn in Hv, Hm. subst v'. by rewrite (IH m1 m1' Hm).
Qed.
Lemma outcome_ok_frame h h' o v :
  same_bytes h h' (sent [o]) → outcome_ok h o v → outcome_ok h' o v.
Proof.
  intros Hs. destruct o, v; simpl; try done. intros (-> & -> & Hb). split_and!; try done.
  rewrite Hs; [done|]. simpl. by left.
Qed.

Lemma host_batch_spec es : ∀ m h ps,
  accounts h ps → has_pool h (mx_pool m) →
  ∃ m' h' os, host_batch m h es = Ok (m', h', os) ∧
    Forall2 (outcome_ok h') os (host_verdicts m es) ∧ accounts h' (sent os ++ ps) ∧ same_bytes h h' ps.
Proof.
  induction es as [|e es IH]; intros m h ps Hacc Hpool; simpl.
  { exists m, h, []. split_and!; done. }
  destruct (host_packet_spec m h ps e Hacc Hpool) as (m1 & h1 & o & -> & Hm1 & Ho & Hacc1 & Hs1 & Hpool1).
  cbn [mbind result_bind]. pose proof (host_verdict_pool m e) as Hmp. destruct (host_verdict m e) as [mv v]. cbn [fst snd] in *.
  assert (Hmore : (∀ id, o ≠ HostFailed id) → ∃ m' h' os,
    ('(m, h, os) ← host_batch m1 h1 es; Ok (m, h, o :: os)) = @Ok panic _ (m', h', os) ∧
    Forall2 (outcome_ok h') os (v :: host_verdicts mv es) ∧ accounts h' (sent os ++ ps) ∧ same_bytes h h' ps).
  { intros _. destruct (IH m1 h1 (sent [o] ++ ps) Hacc1) as (m2 & h2 & os & -> & Hall & Hacc2 & Hs2).
    { destruct Hm1 as (E1 & _). by rewrite E1, Hmp. }
    exists m2, h2, (o :: os). split_and!; [done|..].
    - constructor.
      + eapply outcome_ok_frame; [|exact Ho]. intros q Hq. apply Hs2. set_solver.
      + by rewrite (host_verdicts_same es mv m1 Hm1) in Hall.
    - eapply accounts_perm; [|exact Hacc2]. rewrite app_assoc. f_equiv.
      rewrite Permutation_app_comm. unfold sent. by destruct o.
    - intros q Hq. rewrite Hs2 by set_solver. by apply Hs1. }
  destruct o as [|?|?|? ? ?|fid]; simpl in Ho; destruct v; try done; try (apply Hmore; done).
  simplify_eq. eexists m1, h1, [HostFailed _]. split_and!; try done. by constructor.
Qed.

(** C40. Host to profiles.  A batch of host packets is handled without a stale
    use or a leak, although the mapper and the profiles may be replaced at any
    time: every packet has the fate determined by its bytes, the mapper it loads
    and the profile TUN it then finds (handled locally, dropped, or handed with
    its rewritten bytes to the TUN of the profile the mapper chose), in order;
    only packets handed over are still owned, and what others own is untouched.
    The batch, as the code's, ends at the first packet a TUN does not take. *)
Theorem host_batch_refines (m : Mux) h ps es err ctx_done :
  accounts h ps → has_pool h (mx_pool m) →
  ∃ m' h' os res, host_iteration m h es err ctx_done = Ok (m', h', os, res) ∧
    Forall2 (outcome_ok h') os (host_verdicts m es) ∧
    accounts h' (sent os ++ ps) ∧ same_bytes h h' ps ∧
    (res = Continue → length os = length es ∧ (∀ id, VFailed id ∉ host_verdicts m es)).
Proof.
  intros Hacc Hpool. unfold host_iteration.
  destruct (host_batch_spec es m h ps Hacc Hpool) as (m' & h' & os & -> & Hall & Hacc' & Hs).
  cbn [mbind result_bind]. eexists _, _, _, _. split; [done|]. split_and!; [done..|].
  intros Hres. assert (Hnofail : ∀ id, last os ≠ Some (HostFailed id)).
  { intros id Hl. rewrite Hl in Hres. by destruct ctx_done. }
  assert (Hv : ∀ id, last (host_verdicts m es) ≠ Some (VFailed id)).
  { intros id Hl. assert (∃ o, last os = Some o ∧ outcome_ok h' o (VFailed id)) as (o & Ho & Hok).
    { revert Hl Hall. clear. intros Hl Hall. rewrite last_lookup in Hl.
      destruct (Forall2_lookup_r _ _ _ _ _ Hall Hl) as (o & Ho & Hok). exists o. split; [|done].
      rewrite last_lookup, (Forall2_length _ _ _ Hall). done. }
    destruct o; try done. simpl in Hok. subst. by apply (Hnofail id). }
  rewrite (Forall2_length _ _ _ Hall). clear -Hv. revert m Hv.
  induction es as [|e es IH]; intros m Hv; [split; [done|intros id; apply not_elem_of_nil]|]. simpl in *.
  destruct (host_verdict m e) as [m1 [| | | |id]] eqn:E; try (by destruct (Hv id)).
  all: destruct (IH m1) as [IHl IHn];
    [intros id' Hl; apply (Hv id'); rewrite last_cons, Hl; done|simpl; split; [by rewrite IHl|]].
  all: intros id' [?|?]%elem_of_cons; [done|by apply (IHn id')].
Qed.

(** What the mapper each packet finds lets through from a profile, rewritten, in
    order. *)
Fixpoint let_through (m : Mux) (changes : list (list (mux_op T))) (profileID : string) (bss : list (list byte)) : list (list byte) :=
  match bss with
  | [] => []
  | bs :: bss =>
    let m := foldl apply_op m (hd [] changes) in
    match PacketMap.Inbound (mapper m) profileID bs with
    | (pkt, Ok _) => pkt :: let_through m (tl changes) profileID bss
    | (_, Err _) => let_through m (tl changes) profileID bss
    end
  end.

Lemma Forall2_Bytes_frame h h' ps bss :
  same_bytes h h' ps → Forall2 (λ p bs, Bytes h p = Ok bs) ps bss → Forall2 (λ p bs, Bytes h' p = Ok bs) ps bss.
Proof.
  intros Hs Hall. eapply Forall2_impl_elem; [exact Hall|]. intros p bs Hp Hb. by rewrite Hs.
Qed.

Lemma accept_batch_spec m changes id hr packets bss h accepted rest bufs off :
  accounts h (packets ++ accepted ++ rest) → Forall2 (λ p bs, Bytes h p = Ok bs) packets bss →
  Forall (λ p, pk_offset p = hr) packets → (bufs ≠ [] → off = hr) → length accepted = length bufs →
  ∃ h' acc' bufs' off', accept_batch m changes id h packets accepted bufs off = Ok (h', (acc', bufs', off')) ∧
    accounts h' (acc' ++ rest) ∧ length acc' = length bufs' ∧ (bufs' ≠ [] → off' = hr) ∧ same_bytes h h' rest ∧
    ∃ new, bufs' = bufs ++ new ∧ drop (Z.to_nat hr) <$> new = let_through m changes id bss.
Proof.
  revert m changes bss h accepted bufs off.
  induction packets as [|p packets IH]; intros m changes bss h accepted bufs off Hacc Hall Hoffs Hoff Hlen.
  { apply Forall2_nil_inv_l in Hall as ->. exists h, accepted, bufs, off. simpl.
    split_and!; try done. exists []. by rewrite app_nil_r. }
  apply Forall2_cons_inv_l in Hall as (bs & bss' & Hb & Hall & ->).
  apply Forall_cons in Hoffs as [Hp Hoffs]. cbn [accept_batch]. rewrite Hb. cbn [mbind result_bind let_through]. cbv zeta.
  set (mc := foldl apply_op m (hd [] changes)) in *. pose proof (Inbound_length (mapper mc) id bs) as Hl.
  destruct (PacketMap.Inbound (mapper mc) id bs) as [pkt r] eqn:Hin.
  simpl in Hl.
  destruct (write_bytes_spec h (packets ++ accepted ++ rest) p pkt Hacc) as (h1 & -> & Hacc1 & Hb1 & Hv1 & _).
  { rewrite (Bytes_length _ _ _ Hb). by rewrite Hl. }
  assert (Hs1 : same_bytes h h1 (packets ++ accepted ++ rest)) by (intros q Hq; by apply Bytes_frame, Hv1).
  cbn [mbind result_bind]. destruct r as [u|e].
  - destruct (writeBuffer_Bytes h1 p pkt Hb1) as (pre & Hpre & ->). cbn [mbind result_bind].
    destruct (IH mc (tl changes) bss' h1 (accepted ++ [p]) (bufs ++ [pre ++ pkt]) (pk_offset p))
      as (h2 & acc' & bufs' & off' & -> & Hacc2 & Hl2 & Hoff2 & Hs2 & new & -> & Hnew).
    + eapply accounts_perm; [|exact Hacc1]. rewrite <-(app_assoc accepted). simpl.
      by rewrite (Permutation_middle packets), (Permutation_middle accepted).
    + eapply Forall2_Bytes_frame; [|exact Hall]. intros q Hq. apply Hs1. set_solver.
    + done.
    + done.
    + rewrite !length_app. simpl. lia.
    + eexists _, _, _, _. split; [done|]. split_and!; [done|done|done| |].
      * intros q Hq. rewrite Hs2 by done. apply Hs1. set_solver.
      * exists ((pre ++ pkt) :: new). rewrite <-app_assoc. split; [done|]. rewrite fmap_cons, Hnew. f_equal.
        rewrite drop_app_ge by lia. replace (_ - _) with 0 by lia. done.
  - destruct (Release_spec h1 (packets ++ accepted ++ rest) p Hacc1) as (h2 & -> & Hacc2 & Hv2 & _).
    cbn [mbind result_bind].
    destruct (IH mc (tl changes) bss' h2 accepted bufs off) as (h3 & acc' & bufs' & off' & -> & Hacc3 & Hl3 & Hoff3 & Hs3 & new & -> & Hnew);
      try done.
    + eapply Forall2_Bytes_frame; [|exact Hall]. intros q Hq.
      rewrite (Bytes_frame h1 h2) by (apply Hv2; set_solver). apply Hs1. set_solver.
    + eexists _, _, _, _. split; [done|]. split_and!; [done|done|done| |].
      * intros q Hq. rewrite Hs3 by done. rewrite (Bytes_frame h1 h2) by (apply Hv2; set_solver).
        apply Hs1. set_solver.
      * by exists new.
Qed.

Lemma release_all_spec packets h rest :
  accounts h (packets ++ rest) →
  ∃ h', release_all h packets = Ok h' ∧ accounts h' rest ∧ same_bytes h h' rest.
Proof.
  revert h. induction packets as [|p packets IH]; intros h Hacc; [by exists h|].
  destruct (Release_spec h (packets ++ rest) p Hacc) as (h1 & Hr & Hacc1 & Hv1 & _).
  destruct (IH h1 Hacc1) as (h2 & Hrs & Hacc2 & Hs2). exists h2. cbn [release_all]. rewrite Hr.
  split_and!; [done|done|]. intros q Hq. rewrite Hs2 by done. apply Bytes_frame, Hv1. set_solver.
Qed.

(** Profile to host.  An iteration writes to the host exactly the packets
    the mapper, as each finds it, accepts from that profile, rewritten and in order, in one call
    whose offset is right for every buffer; it writes nothing when none is
    accepted, and releases every packet of the batch, write error or not. *)
Theorem profile_batch_refines (m : Mux) changes id h packets rest bss hr closed write_ok ctx_done :
  accounts h (packets ++ rest) → Forall2 (λ p bs, Bytes h p = Ok bs) packets bss →
  Forall (λ p, pk_offset p = hr) packets →
  ∃ h' w res, profile_iteration m changes id h packets closed write_ok ctx_done = Ok (h', w, res) ∧
    accounts h' rest ∧ same_bytes h h' rest ∧
    match w with
    | None => let_through m changes id bss = []
    | Some (bufs, off) => off = hr ∧ drop (Z.to_nat off) <$> bufs = let_through m changes id bss ∧ bufs ≠ []
    end ∧
    (res = Continue ↔ closed = false ∧ (write_ok = true ∨ w = None)).
Proof.
  intros Hacc Hall Hoffs. unfold profile_iteration.
  destruct (accept_batch_spec m changes id hr packets bss h [] rest [] 0%Z Hacc Hall Hoffs)
    as (h1 & acc & bufs & off & -> & Hacc1 & Hl & Hoff & Hs1 & new & -> & Hnew); [done|done|].
  cbn [mbind result_bind app] in *. destruct new as [|b new].
  - destruct acc; [|done]. eexists _, _, _. split; [done|]. split_and!; try done.
    destruct closed, ctx_done; simpl; intuition congruence.
  - destruct (release_all_spec acc h1 rest Hacc1) as (h2 & -> & Hacc2 & Hs2). cbn [mbind result_bind].
    eexists _, _, _. split; [done|]. rewrite (Hoff ltac:(done)). split_and!; try done.
    + intros q Hq. rewrite Hs2 by done. by apply Hs1.
    + destruct write_ok, closed, ctx_done; simpl; intuition congruence.
Qed.

Lemma copy_all_spec pool datas h rest :
  accounts h rest → has_pool h pool →
  ∃ h' ps hr, copy_all pool h datas = Ok (h', ps) ∧ accounts h' (ps ++ rest) ∧ same_bytes h h' rest ∧
    Forall2 (λ p bs, Bytes h' p = Ok bs) ps datas.*1 ∧ Forall (λ p, pk_offset p = hr) ps ∧
    fst <$> params h pool = Some hr.
Proof.
  intros Hacc Hpool. revert h rest Hacc Hpool.
  induction datas as [|[d c] datas IH]; intros h rest Hacc [pl Hp].
  { exists h, [], (pp_headroom pl). unfold params. rewrite Hp. split_and!; try done; constructor. }
  destruct (copy_spec h rest pool pl d c Hacc Hp) as (p & h1 & Hc & Hacc1 & Hb & Ho & Hv1 & Hp1).
  destruct (IH h1 (p :: rest) Hacc1) as (h2 & ps & hr & Hcs & Hacc2 & Hs2 & Hall & Hoffs & Hhr).
  { apply (has_pool_params h); [done|by exists pl]. }
  cbn [copy_all]. rewrite Hc. cbn [mbind result_bind]. rewrite Hcs. cbn [mbind result_bind].
  assert (hr = pp_headroom pl) as ->.
  { rewrite Hp1 in Hhr. unfold params in Hhr. rewrite Hp in Hhr. by simplify_eq/=. }
  exists h2, (p :: ps), (pp_headroom pl). split_and!; try done.
  - eapply accounts_perm; [|exact Hacc2]. by rewrite <-Permutation_middle.
  - intros q Hq. rewrite Hs2 by set_solver. by apply Bytes_frame, Hv1.
  - constructor; [|done]. rewrite Hs2; [done|by left].
  - by constructor.
  - unfold params. by rewrite Hp.
Qed.
Lemma write_buffers_spec h hr ps bss bufs off :
  Forall2 (λ p bs, Bytes h p = Ok bs) ps bss → Forall (λ p, pk_offset p = hr) ps → (bufs ≠ [] → off = hr) →
  ∃ new off', write_buffers h ps bufs off = Ok (bufs ++ new, off') ∧ (bufs ++ new ≠ [] → off' = hr) ∧
    drop (Z.to_nat hr) <$> new = bss.
Proof.
  revert bss bufs off. induction ps as [|p ps IH]; intros bss bufs off Hall Hoffs Hoff.
  { apply Forall2_nil_inv_l in Hall as ->. exists [], off. rewrite app_nil_r. done. }
  apply Forall2_cons_inv_l in Hall as (bs & bss' & Hb & Hall & ->). apply Forall_cons in Hoffs as [Hp Hoffs].
  cbn [write_buffers]. destruct (writeBuffer_Bytes h p bs Hb) as (pre & Hpre & ->). cbn [mbind result_bind].
  destruct (IH bss' (bufs ++ [pre ++ bs]) (pk_offset p) Hall Hoffs) as (new & off' & -> & Hoff' & Hnew); [done|].
  exists ((pre ++ bs) :: new), off'. rewrite <-app_assoc in *. split_and!; [done|done|].
  rewrite fmap_cons, Hnew. f_equal. rewrite drop_app_ge by lia. replace (_ - _) with 0 by lia. done.
Qed.

(** Local service to host.  An iteration writes exactly the packets of the
    service, in order, and releases every buffer it took. *)
Theorem local_batch_refines (m : Mux) h rest datas closed write_ok ctx_done :
  accounts h rest → has_pool h (mx_pool m) → datas ≠ [] →
  ∃ h' bufs off res, local_iteration m h datas closed write_ok ctx_done = Ok (h', (bufs, off), res) ∧
    drop (Z.to_nat off) <$> bufs = datas.*1 ∧ accounts h' rest ∧ same_bytes h h' rest.
Proof.
  intros Hacc Hpool Hne. unfold local_iteration.
  destruct (copy_all_spec (mx_pool m) datas h rest Hacc Hpool) as (h1 & ps & hr & -> & Hacc1 & Hs1 & Hall & Hoffs & _).
  cbn [mbind result_bind].
  destruct (write_buffers_spec h1 hr ps datas.*1 [] 0%Z Hall Hoffs) as (bufs & off & -> & Hoff & Hbufs); [done|].
  cbn [mbind result_bind app] in *.
  destruct (release_all_spec ps h1 rest Hacc1) as (h2 & -> & Hacc2 & Hs2). cbn [mbind result_bind].
  assert (off = hr) as ->.
  { apply Hoff. intros ->. simpl in Hbufs. by destruct datas as [|[d c] ?]. }
  eexists _, _, _, _. split_and!; try done. intros q Hq. rewrite Hs2 by done. by apply Hs1.
Qed.
End mux_facts.

(** ** Workers follow profiles *)

Section workers_facts.
Context {T : Type → Type}.

(** Through any history of adding and removing profiles, replacing the
    mapper and running, the mux has a worker for exactly the profiles it has
    while it runs and none before; and it runs at most once. *)
Theorem workers_follow (pool : nat) (ps : gmap string nat) (t : Table T) (ops : list (mux_op T)) :
  let m := foldl apply_op (NewMux pool ps t) ops in
  workers m = (if running m then dom (profiles m) else ∅) ∧
  (OpRun ∈ ops → running m = true ∧ RunStart m = Err ErrAlreadyRunning).
Proof.
  cbv zeta. induction ops as [|op ops IH] using rev_ind; [split; [done|intros Hin; by apply elem_of_nil in Hin]|].
  rewrite foldl_app. cbn [foldl]. destruct (foldl _ _ ops) as [mp mt ml ma mps mws mr]. simpl in *.
  destruct IH as [Hw Hr]. subst mws.
  assert (Hkeep : op ≠ OpRun → OpRun ∈ ops ++ [op] → mr = true).
  { intros Hne [?|Heq%list_elem_of_singleton]%elem_of_app; [by apply Hr|congruence]. }
  destruct op as [id tun|id| |t']; simpl.
  - unfold AddProfile. destruct tun as [tun|]; simpl; [|split; [done|by intros Hin; rewrite (Hkeep ltac:(done) Hin)]].
    destruct (String.eqb id ""); simpl; [split; [done|by intros Hin; rewrite (Hkeep ltac:(done) Hin)]|].
    destruct (mps !! id); simpl; [split; [done|by intros Hin; rewrite (Hkeep ltac:(done) Hin)]|].
    split; [destruct mr; [by rewrite dom_insert_L|done]|by intros Hin; rewrite (Hkeep ltac:(done) Hin)].
  - split; [|by intros Hin; rewrite (Hkeep ltac:(done) Hin)].
    destruct mr; [by rewrite dom_delete_L|by rewrite empty_difference_L].
  - unfold RunStart. destruct mr; simpl; [done|]. split; [set_solver|done].
  - split; [done|by intros Hin; rewrite (Hkeep ltac:(done) Hin)].
Qed.
End workers_facts.

(** ** Concrete packets *)

(** A three-byte header (version, source, destination) as a packet format. *)
Definition byte_addr (b : byte) : Addr := Addr4 (Z.of_N (Byte.to_N b)).
Definition addr_byte (a : Addr) : byte :=
  match Byte.of_N (Z.to_N (addr.value a mod 256)) with Some b => b | None => x00 end.
#[local] Instance HeaderPackets : Packets (list byte) := {
  Decode p := match p with
              | v :: s :: d :: _ => MkParsed (N.to_nat (Byte.to_N v)) (byte_addr s) (byte_addr d)
              | _ => MkParsed 0 AddrInvalid AddrInvalid
              end;
  UpdateSrcAddr p a := match p with v :: _ :: l => v :: addr_byte a :: l | _ => p end;
  UpdateDstAddr p a := match p with v :: s :: _ :: l => v :: s :: addr_byte a :: l | _ => p end
}.
#[local] Instance HeaderInPlace : InPlace.
Proof. split; intros pkt a; by destruct pkt as [|? [|? [|? ?]]]. Qed.

Definition test_table : Table PrefixMap :=
  MkTable (Some (pm_insert (MkPrefix (Addr4 7) 32) (MkDestination "work" (Addr4 9)) (MkPrefixMap ∅)))
    None None None {[ MkSourceKey "work" false := MkSource (Addr4 1) (Addr4 5) ]}
    {[ "work" := pm_insert (MkPrefix (Addr4 9) 32) (Addr4 7) (MkPrefixMap ∅) ]}.
Definition test_mux : Mux PrefixMap := NewMux 0 {[ "work" := 3 ]} test_table.
Definition test_envs : list (host_env PrefixMap) :=
  [MkHostEnv [x04; x01; x07] None true 0 [] []; MkHostEnv [x04; x01; x08] None true 0 [] [OpRemove "work"]].

(** The first packet is rewritten and sent, the second has no route. *)
Example host_value :
  host_verdicts test_mux test_envs = [VSent "work" 3 [x04; x05; x09]; VDropped (ErrNoRoute (Addr4 8))].
Proof. vm_compute. reflexivity. Qed.
Lemma host_batch_refines_witness :
  ∃ m' h' os res, host_iteration test_mux test_heap test_envs ReadOk false = Ok (m', h', os, res) ∧
    Forall2 (outcome_ok h') os (host_verdicts test_mux test_envs) ∧
    accounts h' (sent os ++ []) ∧ same_bytes test_heap h' [] ∧
    (res = Continue → length os = 2 ∧ ∀ id, VFailed id ∉ host_verdicts test_mux test_envs).
Proof.
  apply (host_batch_refines test_mux test_heap [] test_envs ReadOk false); [apply test_heap_accounts|by eexists].
Defined.

(** A reply from the profile and a packet it must not send. *)
Definition reply_heap : heap :=
  match PacketPool.copy test_heap 0 [x04; x09; x05] None with
  | Ok (_, h) => match PacketPool.copy h 0 [x04; x03; x05] None with Ok (_, h) => h | Err _ => h end
  | Err _ => test_heap
  end.
Definition reply_packets : list Packet := [MkPacket (Some 0) 1 4 3; MkPacket (Some 1) 1 4 3].
Lemma reply_accounts : accounts reply_heap (reply_packets ++ []).
Proof.
  destruct (copy_spec test_heap [] 0 (MkPool 4 8 []) [x04; x09; x05] None test_heap_accounts eq_refl)
    as (p & h & Hc & Ha & _ & _ & _ & Hp).
  assert (p = MkPacket (Some 0) 1 4 3) as -> by (vm_compute in Hc; by simplify_eq).
  assert (h_pools h !! 0 = Some (MkPool 4 8 [])) as Hpool by (vm_compute in Hc; by simplify_eq).
  destruct (copy_spec h [MkPacket (Some 0) 1 4 3] 0 (MkPool 4 8 []) [x04; x03; x05] None Ha Hpool)
    as (p & h' & Hc' & Ha' & _).
  assert (p = MkPacket (Some 1) 1 4 3 ∧ h' = reply_heap) as [-> ->].
  { unfold reply_heap. rewrite Hc, Hc'. split; [|done]. clear Ha Ha'. vm_compute in Hc. injection Hc as <-.
    vm_compute in Hc'. by injection Hc'. }
  eapply accounts_perm; [|exact Ha']. apply Permutation_swap.
Qed.
Example reply_value :
  let_through test_mux [] "work" [[x04; x09; x05]; [x04; x03; x05]] = [[x04; x07; x01]].
Proof. vm_compute. reflexivity. Qed.
Lemma profile_batch_refines_witness :
  ∃ h' w res, profile_iteration test_mux [] "work" reply_heap reply_packets false true false = Ok (h', w, res) ∧
    accounts h' [] ∧ same_bytes reply_heap h' [] ∧
    match w with
    | None => let_through test_mux [] "work" [[x04; x09; x05]; [x04; x03; x05]] = []
    | Some (bufs, off) => off = 4%Z ∧ drop (Z.to_nat off) <$> bufs =
        let_through test_mux [] "work" [[x04; x09; x05]; [x04; x03; x05]] ∧ bufs ≠ []
    end ∧
    (res = Continue ↔ false = false ∧ (true = true ∨ w = None)).
Proof.
  apply (profile_batch_refines test_mux [] "work" reply_heap reply_packets [] [[x04; x09; x05]; [x04; x03; x05]] 4
    false true false reply_accounts).
  - repeat constructor; by vm_compute.
  - by repeat constructor.
Defined.
Lemma local_batch_refines_witness :
  ∃ h' bufs off res, local_iteration test_mux test_heap [([x01; x02], None)] false true false = Ok (h', (bufs, off), res) ∧
    drop (Z.to_nat off) <$> bufs = [[x01; x02]] ∧ accounts h' [] ∧ same_bytes test_heap h' [].
Proof.
  apply (local_batch_refines test_mux test_heap [] [([x01; x02], None)] false true false);
    [apply test_heap_accounts|by eexists|done].
Defined.
