(* ===== verification/IPSet.v ===== *)
(** * Address sets

    The interface of [go4.org/netipx] that the WireGuard filter uses: a builder
    that collects prefixes and sets, and the immutable set it yields.  The
    library is not part of the repository; the filter is written against the
    class [IPSets] and its documented laws.  [Tries] is an instance with one
    binary trie per family. *)

From S2P Require Import Prelude GoStrings Netip.
Import netip_facts.
Local Open Scope Z_scope.

Class IPSets (B S : Type) : Type := {
  new_builder : B;                       (* the zero [IPSetBuilder] *)
  AddPrefix : Prefix → B → B;
  RemovePrefix : Prefix → B → B;
  AddSet : option S → B → B;             (* a [*IPSet], which may be nil *)
  RemoveSet : S → B → B;
  Intersect : S → B → B;
  IPSet : B → option S;                  (* [None] is an error *)
  set_Contains : S → Addr → bool;
  Prefixes : S → list Prefix
}.

(** [builds b P]: the operations applied to [b] were all valid, and it holds the
    addresses that satisfy [P]. *)
Class IPSetLaws (B S : Type) `{IPSets B S} : Type := {
  builds : B → (Addr → Prop) → Prop;
  builds_ext b P Q : (∀ a, P a ↔ Q a) → builds b P → builds b Q;
  builds_new : builds new_builder (λ _, False);
  builds_AddPrefix b P p : masked p → prefix.IsValid p = true → builds b P →
    builds (AddPrefix p b) (λ a, P a ∨ prefix.Contains p a = true);
  builds_RemovePrefix b P p : masked p → prefix.IsValid p = true → builds b P →
    builds (RemovePrefix p b) (λ a, P a ∧ prefix.Contains p a = false);
  builds_AddSet b P s : builds b P →
    builds (AddSet s b) (λ a, P a ∨ ∃ s', s = Some s' ∧ set_Contains s' a = true);
  builds_RemoveSet b P s : builds b P → builds (RemoveSet s b) (λ a, P a ∧ set_Contains s a = false);
  builds_Intersect b P s : builds b P → builds (Intersect s b) (λ a, P a ∧ set_Contains s a = true);
  builds_IPSet b P : builds b P → ∃ s, IPSet b = Some s ∧ ∀ a, set_Contains s a = true ↔ P a;
  set_Prefixes s a : set_Contains s a = true ↔ ∃ p, p ∈ Prefixes s ∧ prefix.Contains p a = true;
  Prefixes_nonempty s p : p ∈ Prefixes s → prefix.Contains p (p_addr p) = true
}.

(** ** An instance *)

(** The values of [n] bits, by their bits from the top. *)
Inductive trie : Type := TNone | TAll | TNode (l r : trie).
Fixpoint t_in (t : trie) (n : nat) (v : Z) : bool :=
  match t with
  | TNone => false
  | TAll => true
  | TNode l r => match n with
                 | O => t_in l O v
                 | S n => if Z.testbit v (Z.of_nat n) then t_in r n v else t_in l n v
                 end
  end.
Fixpoint t_or (t u : trie) : trie :=
  match t, u with
  | TNone, _ => u
  | TAll, _ => TAll
  | _, TNone => t
  | _, TAll => TAll
  | TNode l r, TNode l' r' => TNode (t_or l l') (t_or r r')
  end.
Fixpoint t_not (t : trie) : trie :=
  match t with TNone => TAll | TAll => TNone | TNode l r => TNode (t_not l) (t_not r) end.
Definition t_and (t u : trie) : trie := t_not (t_or (t_not t) (t_not u)).
(** The values that agree with [v] on their first [bits] bits. *)
Fixpoint t_prefix (bits n : nat) (v : Z) : trie :=
  match bits, n with
  | S bits, S n => if Z.testbit v (Z.of_nat n) then TNode TNone (t_prefix bits n v)
                   else TNode (t_prefix bits n v) TNone
  | _, _ => TAll
  end.
(** The prefixes of a trie: their lengths and first bits. *)
Fixpoint t_leaves (t : trie) (n : nat) (d acc : Z) : list (Z * Z) :=
  match t with
  | TNone => []
  | TAll => [(d, acc)]
  | TNode l r => match n with
                 | O => t_leaves l O d acc
                 | S n => t_leaves l n (d + 1) (2 * acc) ++ t_leaves r n (d + 1) (2 * acc + 1)
                 end
  end.

Lemma t_in_or t u n v : t_in (t_or t u) n v = t_in t n v || t_in u n v.
Proof.
  revert u n; induction t as [| |l IHl r IHr]; intros [| |l' r'] n; simpl; rewrite ?orb_false_r, ?orb_true_r; try done.
  destruct n; [apply IHl|]. destruct (Z.testbit _ _); [apply IHr|apply IHl].
Qed.
Lemma t_in_not t n v : t_in (t_not t) n v = negb (t_in t n v).
Proof.
  revert n; induction t as [| |l IHl r IHr]; intros n; simpl; try done.
  destruct n; [apply IHl|]. destruct (Z.testbit _ _); [apply IHr|apply IHl].
Qed.
Lemma t_in_and t u n v : t_in (t_and t u) n v = t_in t n v && t_in u n v.
Proof. unfold t_and. by rewrite t_in_not, t_in_or, !t_in_not, negb_orb, !negb_involutive. Qed.
Lemma t_in_prefix bits n v w : (bits ≤ n)%nat →
  t_in (t_prefix bits n v) n w = true ↔
  ∀ i, Z.of_nat (n - bits) <= i < Z.of_nat n → Z.testbit w i = Z.testbit v i.
Proof.
  revert n; induction bits as [|bits IH]; intros [|n] Hle; simpl; try lia.
  - split; [intros _ i ?; lia|done].
  - split; [intros _ i ?; lia|done].
  - specialize (IH n ltac:(lia)).
    assert ((∀ i, Z.of_nat (n - bits) <= i < Z.of_nat (S n) → Z.testbit w i = Z.testbit v i) ↔
      Z.testbit w (Z.of_nat n) = Z.testbit v (Z.of_nat n) ∧ t_in (t_prefix bits n v) n w = true) as Hs.
    { rewrite IH. split.
      - intros Hall. split; [apply Hall; lia|]. intros i Hi. apply Hall. lia.
      - intros [Hn Hall] i Hi.
        destruct (decide (i = Z.of_nat n)) as [->|Hne]; [done|]. apply Hall. lia. }
    rewrite Hs. clear Hs.
    destruct (Z.testbit v (Z.of_nat n)) eqn:Hv; simpl; destruct (Z.testbit w (Z.of_nat n)) eqn:Hw; intuition congruence.
Qed.
Lemma shiftr_bits k len v w : 0 <= k → 0 <= v < 2 ^ len → 0 <= w < 2 ^ len →
  Z.shiftr v k = Z.shiftr w k ↔ ∀ i, k <= i < len → Z.testbit v i = Z.testbit w i.
Proof.
  intros Hk Hv Hw. split.
  - intros He i Hi. apply (f_equal (λ z, Z.testbit z (i - k))) in He. rewrite !Z.shiftr_spec in He by lia.
    by replace (i - k + k) with i in He by lia.
  - intros Hall. apply Z.bits_inj'. intros i Hi. rewrite !Z.shiftr_spec by lia.
    destruct (Z.lt_ge_cases (i + k) len); [apply Hall; lia|].
    assert (∀ x, 0 <= x < 2 ^ len → Z.testbit x (i + k) = false) as Hz; [|by rewrite !Hz].
    intros x Hx. destruct (decide (x = 0)) as [->|]; [apply Z.testbit_0_l|].
    apply Z.bits_above_log2; [lia|]. apply Z.log2_lt_pow2; [lia|].
    apply Z.lt_le_trans with (2 ^ len); [lia|]. apply Z.pow_le_mono_r; lia.
Qed.
Lemma shiftr_step v n : 0 <= n →
  Z.shiftr v n = 2 * Z.shiftr v (n + 1) + Z.b2z (Z.testbit v n).
Proof.
  intros Hn.
  rewrite (Z.div2_odd (Z.shiftr v n)) at 1. rewrite Z.div2_spec, Z.shiftr_shiftr by lia.
  f_equal. by rewrite <-Z.bit0_odd, Z.shiftr_spec by lia.
Qed.

Lemma t_leaves_spec t n d acc v : 0 <= d → 0 <= v →
  (∃ d' acc', (d', acc') ∈ t_leaves t n d acc ∧ d <= d' <= d + Z.of_nat n ∧
     Z.shiftr v (d + Z.of_nat n - d') = acc') ↔
  Z.shiftr v (Z.of_nat n) = acc ∧ t_in t n v = true.
Proof.
  revert n d acc. induction t as [| |l IHl r IHr]; intros n d acc Hd Hv; simpl.
  - split; [intros (? & ? & H & _); by apply elem_of_nil in H|by intros [_ ?]].
  - replace (d + Z.of_nat n - d) with (Z.of_nat n) by lia. split.
    + intros (d' & acc' & [= -> ->]%list_elem_of_singleton & _ & He). rewrite <-He.
      split; [|done]. f_equal. lia.
    + intros [<- _]. exists d, (Z.shiftr v (Z.of_nat n)). split; [by left|]. split; [lia|f_equal; lia].
  - destruct n as [|n]; [by apply IHl|].
    pose proof (shiftr_step v (Z.of_nat n) ltac:(lia)) as Hstep.
    replace (Z.of_nat n + 1) with (Z.of_nat (S n)) in Hstep by lia.
    specialize (IHl n (d + 1) (2 * acc) ltac:(lia) Hv). specialize (IHr n (d + 1) (2 * acc + 1) ltac:(lia) Hv).
    replace (d + 1 + Z.of_nat n) with (d + Z.of_nat (S n)) in IHl, IHr by lia.
    assert (Hsplit : (∃ d' acc', (d', acc') ∈ t_leaves l n (d + 1) (2 * acc) ++ t_leaves r n (d + 1) (2 * acc + 1) ∧
        d + 1 <= d' <= d + Z.of_nat (S n) ∧ Z.shiftr v (d + Z.of_nat (S n) - d') = acc') ↔
      (Z.shiftr v (Z.of_nat n) = 2 * acc ∧ t_in l n v = true) ∨
      (Z.shiftr v (Z.of_nat n) = 2 * acc + 1 ∧ t_in r n v = true)).
    { rewrite <-IHl, <-IHr. setoid_rewrite elem_of_app. clear. split.
      - intros (d' & acc' & [?|?] & ? & ?); [left|right]; by exists d', acc'.
      - intros [(d' & acc' & ? & ? & ?)|(d' & acc' & ? & ? & ?)]; exists d', acc'; tauto. }
    assert (Hlow : (∃ d' acc', (d', acc') ∈ t_leaves l n (d + 1) (2 * acc) ++ t_leaves r n (d + 1) (2 * acc + 1) ∧
        d <= d' <= d + Z.of_nat (S n) ∧ Z.shiftr v (d + Z.of_nat (S n) - d') = acc') ↔
      (∃ d' acc', (d', acc') ∈ t_leaves l n (d + 1) (2 * acc) ++ t_leaves r n (d + 1) (2 * acc + 1) ∧
        d + 1 <= d' <= d + Z.of_nat (S n) ∧ Z.shiftr v (d + Z.of_nat (S n) - d') = acc')).
    { split; intros (d' & acc' & Hin & Hr & He); exists d', acc'; split_and!; try done; try lia.
      assert (∀ t n d0 acc0, (d', acc') ∈ t_leaves t n d0 acc0 → d0 <= d') as Hge.
      { clear. induction t as [| |l IHl r IHr]; simpl; intros n d0 acc0.
        - by intros ?%elem_of_nil.
        - intros [= -> ->]%list_elem_of_singleton. lia.
        - destruct n; [apply IHl|]. intros [?%IHl|?%IHr]%elem_of_app; lia. }
      apply elem_of_app in Hin as [Hin|Hin]; by apply Hge in Hin. }
    rewrite Hlow, Hsplit, Hstep. clear.
    destruct (Z.testbit v (Z.of_nat n)); simpl; intuition lia.
Qed.

(** A trie for each family. *)
Definition tries : Type := trie * trie.
Definition v4_of (p : Prefix) : trie :=
  match p_addr p with Addr4 v => t_prefix (Z.to_nat (p_bits p)) 32 v | _ => TNone end.
Definition v6_of (p : Prefix) : trie :=
  match p_addr p with Addr6 v _ => t_prefix (Z.to_nat (p_bits p)) 128 v | _ => TNone end.
Definition trie_set (p : Prefix) : tries := (v4_of p, v6_of p).
Definition tries_in (s : tries) (a : Addr) : bool :=
  addr.wf a && negb (addr.hasZone a) &&
  match a with AddrInvalid => false | Addr4 v => t_in s.1 32 v | Addr6 v _ => t_in s.2 128 v end.
Definition leaf_prefix (mk : Z → Addr) (len : Z) (e : Z * Z) : Prefix :=
  MkPrefix (mk (Z.shiftl e.2 (len - e.1))) e.1.
#[export] Instance Tries : IPSets tries tries := {
  new_builder := (TNone, TNone);
  AddPrefix p b := (t_or b.1 (v4_of p), t_or b.2 (v6_of p));
  RemovePrefix p b := (t_and b.1 (t_not (v4_of p)), t_and b.2 (t_not (v6_of p)));
  AddSet s b := match s with Some s => (t_or b.1 s.1, t_or b.2 s.2) | None => b end;
  RemoveSet s b := (t_and b.1 (t_not s.1), t_and b.2 (t_not s.2));
  Intersect s b := (t_and b.1 s.1, t_and b.2 s.2);
  IPSet b := Some b;
  set_Contains := tries_in;
  Prefixes s := (leaf_prefix Addr4 32 <$> t_leaves s.1 32 0 0) ++
                (leaf_prefix (λ v, Addr6 v "") 128 <$> t_leaves s.2 128 0 0)
}.

Lemma tries_in_prefix p a : masked p → prefix.IsValid p = true →
  tries_in (trie_set p) a = prefix.Contains p a.
Proof.
  intros Hm Hv. apply eq_iff_eq_true. pose proof Hm as [_ Hwf].
  pose proof (wf_bits p Hwf Hv) as [Hb Ha]. pose proof (prefix_wf_base p Hwf Hv) as [Hbase Hz].
  assert (Hgen : ∀ len v w b, 0 <= b <= Z.of_nat len → 0 <= v < 2 ^ Z.of_nat len → 0 <= w < 2 ^ Z.of_nat len →
    t_in (t_prefix (Z.to_nat b) len v) len w = true ↔
    Z.shiftr w (Z.of_nat len - b) = Z.shiftr v (Z.of_nat len - b)).
  { intros len v w b Hbl Hvl Hwl. rewrite t_in_prefix by lia.
    rewrite (shiftr_bits _ (Z.of_nat len)) by lia.
    replace (Z.of_nat (len - Z.to_nat b)) with (Z.of_nat len - b) by lia. done. }
  assert (Hrange : prefix.Contains p a = true → addr.wf a = true).
  { intros (_ & _ & Hl & Hr)%Contains_masked; [|done]. pose proof (masked_end p Hm Hv).
    unfold base in *. destruct a, (p_addr p); simpl in *; lia. }
  unfold tries_in. rewrite !andb_true_iff, negb_true_iff.
  unfold prefix.Contains in *. rewrite Hv in *. simpl in Hrange |- *.
  unfold trie_set, v4_of, v6_of, base in *. simpl.
  destruct (p_addr p) as [|v|v zv], a as [|w|w zw]; simpl in *; try done; rewrite ?andb_false_r; try (intuition done).
  - rewrite !andb_true_iff, Z.eqb_eq in *. split.
    + intros [[Hw _] Hin]. by apply (Hgen 32%nat v w (p_bits p)) in Hin; [|lia..].
    + intros He. assert (0 <= w < 2 ^ 32) as Hw by (specialize (Hrange He); lia).
      split; [split; [lia|done]|]. by apply (Hgen 32%nat v w (p_bits p)); [lia..|].
  - rewrite !andb_true_iff, !negb_true_iff, !Z.eqb_eq in *. split.
    + intros [[Hw Hzw] Hin]. split; [by rewrite Hzw|].
      by apply (Hgen 128%nat v w (p_bits p)) in Hin; [|lia..].
    + intros He. assert (0 <= w < 2 ^ 128) as Hw by (specialize (Hrange He); lia). destruct He as [Hzw He].
      split; [split; [lia|intuition]|]. by apply (Hgen 128%nat v w (p_bits p)); [lia..|].
Qed.

Lemma t_leaves_bounds t n d acc d' acc' : 0 <= d → 0 <= acc < 2 ^ d →
  (d', acc') ∈ t_leaves t n d acc → d <= d' <= d + Z.of_nat n ∧ 0 <= acc' < 2 ^ d'.
Proof.
  revert n d acc. induction t as [| |l IHl r IHr]; simpl; intros n d acc Hd Hacc.
  - by intros ?%elem_of_nil.
  - intros [= -> ->]%list_elem_of_singleton. lia.
  - destruct n as [|n]; [by apply IHl|]. assert (2 ^ (d + 1) = 2 * 2 ^ d) as Hp by (rewrite Z.pow_add_r; lia).
    intros [Hin|Hin]%elem_of_app; [apply IHl in Hin|apply IHr in Hin]; lia.
Qed.

Lemma leaf_Contains (mk : Z → Addr) len d acc w :
  (∀ v, addr.BitLen (mk v) = len ∧ addr.value (mk v) = v ∧ addr.hasZone (mk v) = false) → 0 < len →
  0 <= d <= len →
  prefix.Contains (leaf_prefix mk len (d, acc)) (mk w) = true ↔ Z.shiftr w (len - d) = acc.
Proof.
  intros Hmk Hlen Hd. destruct (Hmk w) as (Hl & Hw & Hz), (Hmk (Z.shiftl acc (len - d))) as (Hl' & Hv & Hz').
  unfold prefix.Contains, leaf_prefix, prefix.IsValid. simpl. rewrite Hz, Hl, Hl', Hw, Hv.
  rewrite shiftr_shiftl_same by lia. rewrite !andb_true_iff, !negb_true_iff, !Z.eqb_neq, !Z.eqb_eq, Z.leb_le.
  intuition lia.
Qed.

(** The leaves of one family. *)
Lemma leaves_Contains (mk : Z → Addr) (n : nat) t w :
  (∀ v, addr.BitLen (mk v) = Z.of_nat n ∧ addr.value (mk v) = v ∧ addr.hasZone (mk v) = false) → (0 < n)%nat →
  (∃ p, p ∈ leaf_prefix mk (Z.of_nat n) <$> t_leaves t n 0 0 ∧ prefix.Contains p (mk w) = true) ↔
  0 <= w < 2 ^ Z.of_nat n ∧ t_in t n w = true.
Proof.
  intros Hmk Hn. split.
  - intros (p & ([d acc] & -> & Hin)%list_elem_of_fmap & Hc).
    destruct (t_leaves_bounds t n 0 0 d acc ltac:(lia) ltac:(lia) Hin) as [Hd Hacc].
    apply leaf_Contains in Hc; [|done|lia|lia].
    assert (0 <= w < 2 ^ Z.of_nat n) as Hw.
    { rewrite Z.shiftr_div_pow2 in Hc by lia. pose proof (Z.pow_pos_nonneg 2 (Z.of_nat n - d) ltac:(lia) ltac:(lia)).
      assert (2 ^ Z.of_nat n = 2 ^ d * 2 ^ (Z.of_nat n - d)) as Hp by (rewrite <-Z.pow_add_r by lia; f_equal; lia).
      pose proof (Z.div_mod w (2 ^ (Z.of_nat n - d)) ltac:(lia)).
      pose proof (Z.mod_pos_bound w (2 ^ (Z.of_nat n - d)) ltac:(lia)). rewrite Hc in *. nia. }
    split; [done|].
    apply (t_leaves_spec t n 0 0 w ltac:(lia) ltac:(lia)). exists d, acc. split_and!; try done; lia.
  - intros [Hw Hin].
    destruct (proj2 (t_leaves_spec t n 0 0 w ltac:(lia) ltac:(lia))) as (d & acc & Hin' & Hd & Hacc).
    { split; [|done]. rewrite Z.shiftr_div_pow2 by lia. apply Z.div_small. lia. }
    exists (leaf_prefix mk (Z.of_nat n) (d, acc)). split; [apply list_elem_of_fmap; eauto|].
    apply leaf_Contains; [done|lia|lia|]. by rewrite Z.add_0_l in Hacc.
Qed.

(** The prefixes of the other family contain nothing of this one. *)
Lemma leaf_family (mk : Z → Addr) len (l : list (Z * Z)) a p :
  p ∈ leaf_prefix mk len <$> l → prefix.Contains p a = true → ∃ v, addr.BitLen a = addr.BitLen (mk v).
Proof.
  intros (e & -> & _)%list_elem_of_fmap Hc%Contains_BitLen. simpl in Hc. eauto.
Qed.

#[export] Instance TriesLaws : IPSetLaws tries tries.
Proof.
  refine (Build_IPSetLaws tries tries Tries (λ b P, ∀ a, tries_in b a = true ↔ P a) _ _ _ _ _ _ _ _ _ _).
  all: assert (Hor : ∀ s u a, tries_in (t_or s.1 u.1, t_or s.2 u.2) a = tries_in s a || tries_in u a)
    by (intros s u a; unfold tries_in; destruct (addr.wf a && _), a; simpl; by rewrite ?t_in_or).
  all: assert (Hand : ∀ s u a, tries_in (t_and s.1 u.1, t_and s.2 u.2) a = tries_in s a && tries_in u a)
    by (intros s u a; unfold tries_in; destruct (addr.wf a && _), a; simpl; by rewrite ?t_in_and).
  all: assert (Hdiff : ∀ s u a, tries_in (t_and s.1 (t_not u.1), t_and s.2 (t_not u.2)) a = tries_in s a && negb (tries_in u a))
    by (intros s u a; unfold tries_in; destruct (addr.wf a && _), a; simpl; by rewrite ?t_in_and, ?t_in_not).
  - intros b P Q Heq Hb a. by rewrite Hb.
  - intros a. unfold tries_in. destruct a; simpl; by rewrite ?andb_false_r.
  - intros b P p Hm Hv Hb a. rewrite <-Hb, <-(tries_in_prefix p a Hm Hv), <-orb_true_iff. by rewrite <-Hor.
  - intros b P p Hm Hv Hb a. rewrite <-Hb, <-(tries_in_prefix p a Hm Hv), <-negb_true_iff, <-andb_true_iff. by rewrite <-Hdiff.
  - intros b P s Hb a. rewrite <-Hb. destruct s as [s|]; simpl.
    + rewrite Hor, orb_true_iff. split; intros [?|H]; auto; [right; eauto|]. destruct H as (s' & [= ->] & ?). auto.
    + split; [auto|]. intros [?|(? & ? & _)]; done.
  - intros b P s Hb a. rewrite <-Hb, <-negb_true_iff, <-andb_true_iff. simpl. by rewrite <-Hdiff.
  - intros b P s Hb a. rewrite <-Hb, <-andb_true_iff. simpl. by rewrite <-Hand.
  - intros b P Hb. by exists b.
  - intros s a. simpl. setoid_rewrite elem_of_app.
    assert (H4 : ∀ v, addr.BitLen (Addr4 v) = Z.of_nat 32 ∧ addr.value (Addr4 v) = v ∧ addr.hasZone (Addr4 v) = false) by done.
    assert (H6 : ∀ v, addr.BitLen (Addr6 v "") = Z.of_nat 128 ∧ addr.value (Addr6 v "") = v ∧
      addr.hasZone (Addr6 v "") = false) by done.
    destruct a as [|w|w z].
    + split; [done|]. intros (p & _ & Hc%Contains_addr_valid). done.
    + unfold tries_in. simpl. rewrite andb_true_r, andb_true_iff.
      pose proof (leaves_Contains Addr4 32 s.1 w H4 ltac:(lia)) as Hl. split.
      * intros [Hw Hin]. destruct (proj2 Hl) as (p & ? & ?); [split; [lia|done]|]. exists p. auto.
      * intros (p & [Hp|Hp] & Hc).
        -- destruct (proj1 Hl) as [? ?]; [eauto|]. split; [lia|done].
        -- by destruct (leaf_family _ _ _ _ _ Hp Hc).
    + unfold tries_in. destruct (String.eqb_spec z "") as [->|Hz].
      * simpl. rewrite andb_true_r, andb_true_iff.
        pose proof (leaves_Contains (λ v, Addr6 v "") 128 s.2 w H6 ltac:(lia)) as Hl. split.
        -- intros [Hw Hin]. destruct (proj2 Hl) as (p & ? & ?); [split; [lia|done]|]. exists p. auto.
        -- intros (p & [Hp|Hp] & Hc).
           ++ by destruct (leaf_family _ _ _ _ _ Hp Hc).
           ++ destruct (proj1 Hl) as [? ?]; [eauto|]. split; [lia|done].
      * assert (addr.hasZone (Addr6 w z) = true) as Hzone by (simpl; by rewrite (proj2 (String.eqb_neq z ""))).
        rewrite Hzone, andb_false_r. split; [done|]. intros (p & _ & Hc). unfold prefix.Contains in Hc.
        by rewrite Hzone, andb_false_r in Hc.
  - intros s p. simpl.
    assert (Hleaf : ∀ (mk : Z → Addr) n t, (∀ v, addr.BitLen (mk v) = Z.of_nat n ∧ addr.value (mk v) = v ∧
      addr.hasZone (mk v) = false) → (0 < n)%nat → p ∈ leaf_prefix mk (Z.of_nat n) <$> t_leaves t n 0 0 →
      prefix.Contains p (p_addr p) = true).
    { intros mk n t Hmk Hn ([d acc] & -> & Hin)%list_elem_of_fmap.
      destruct (t_leaves_bounds t n 0 0 d acc ltac:(lia) ltac:(lia) Hin) as [Hd _].
      simpl. apply leaf_Contains; [done|lia|lia|]. apply shiftr_shiftl_same. lia. }
    intros [Hp|Hp]%elem_of_app; [apply (Hleaf Addr4 32%nat s.1)|apply (Hleaf (λ v, Addr6 v "") 128%nat s.2)];
      (done || lia).
Qed.
