(* ===== verification/WireGuardFilter.v ===== *)
(** * The WireGuard packet filter

    [src/wireguardfilter/filter.go]: which addresses each peer of a WireGuard
    profile owns, the matches a packet filter compiles to, the state reported
    for each destination selector, and the filtered TUN.  Address sets are the
    [IPSets] interface; the stateful filter that evaluates matches
    ([tailscale.com/wgengine/filter]) is a parameter of the device. *)

From S2P Require Import Prelude GoStrings Netip RoutingTable PacketFilterCfg WireGuardCfg IPSet.
Import netip_facts.
Local Open Scope Z_scope.

Definition hostPrefix (a : Addr) : Prefix := prefix.PrefixFrom a (addr.BitLen a).

Record families : Type := MkFamilies { f_v4 : bool; f_v6 : bool }.
Definition addressFamilies (cfg : Config) : families :=
  foldl (λ r a, if addr.Is4 a then MkFamilies true (f_v6 r)
                else if addr.Is6 a then MkFamilies (f_v4 r) true else r)
    (MkFamilies false false) (c_Addresses cfg).

(** A prefix that routes to a peer: an address, a route or the whole internet. *)
Record prefixOwner : Type := MkOwner { po_peer : string; po_kind : SelectorKind; po_value : Prefix }.

(** The peer whose exit service is selected: the last that has the address. *)
Definition selected_peer (cfg : Config) (exitIP : Addr) : string :=
  foldl (λ selected peer,
    if addr.IsValid exitIP && ExitNode peer && (exitIP ∈? peer_Addresses peer)
    then peer_Name peer else selected) "" (c_Peers cfg).
Definition peer_declared (peer : Peer) : list prefixOwner :=
  ((λ a, MkOwner (peer_Name peer) SelectorPeer (hostPrefix a)) <$> peer_Addresses peer) ++
  ((λ r, MkOwner (peer_Name peer) SelectorRoutes (prefix.Masked r)) <$>
     List.filter (λ r, negb (p_bits r =? 0)) (peer_Routes peer)).
Definition internet4 : Prefix := MkPrefix (Addr4 0) 0.
Definition internet6 : Prefix := MkPrefix (Addr6 0 "") 0.
Definition declared_owners (cfg : Config) (exitIP : Addr) : list prefixOwner :=
  let selected := selected_peer cfg exitIP in
  (c_Peers cfg ≫= peer_declared) ++
  (if String.eqb selected "" then []
   else (if f_v4 (addressFamilies cfg) then [MkOwner selected SelectorInternet internet4] else []) ++
        (if f_v6 (addressFamilies cfg) then [MkOwner selected SelectorInternet internet6] else [])).

Section filter.
Context {B S : Type} `{IPSets B S}.

Definition selfSet (cfg : Config) : option S :=
  IPSet (foldl (λ b a, AddPrefix (hostPrefix a) b) new_builder (c_Addresses cfg)).

(** ** Ownership *)

Record ownership : Type := MkOwnership {
  o_all : S; o_peers : gmap string S; o_routes : gmap string S; o_allPeers : S; o_allRoutes : S }.

(** A longer prefix of another peer takes its addresses out of [item]. *)
Definition shadows (item other : prefixOwner) (name : string) : bool :=
  negb (String.eqb (po_peer other) name) &&
  (addr.BitLen (p_addr (po_value other)) =? addr.BitLen (p_addr (po_value item))) &&
  (p_bits (po_value item) <? p_bits (po_value other)) &&
  prefix.Contains (po_value item) (p_addr (po_value other)).
Definition effective_set (declared : list prefixOwner) (name : string) (item : prefixOwner) : option S :=
  let effective := AddPrefix (po_value item) new_builder in
  let effective := foldl (λ b other, if shadows item other name then RemovePrefix (po_value other) b else b)
                     effective declared in
  IPSet (if decide (po_kind item = SelectorRoutes)
         then foldl (λ b direct, if bool_decide (po_kind direct = SelectorPeer)
                                 then RemovePrefix (po_value direct) b else b)
                effective declared
         else effective).

(** The builders of one peer: what it owns, its addresses, its routes. *)
Definition own_item (declared : list prefixOwner) (name : string) (bs : option (B * B * B)) (item : prefixOwner) :
    option (B * B * B) :=
  '(owned, direct, routes) ← bs;
  if negb (String.eqb (po_peer item) name) then Some (owned, direct, routes)
  else
    set ← effective_set declared name item;
    Some (AddSet (Some set) owned,
          if decide (po_kind item = SelectorPeer) then AddSet (Some set) direct else direct,
          if decide (po_kind item = SelectorRoutes) then AddSet (Some set) routes else routes).
Definition own_peer (declared : list prefixOwner) (name : string) : option (S * S * S) :=
  '(owned, direct, routes) ← foldl (own_item declared name) (Some (new_builder, new_builder, new_builder)) declared;
  owned ← IPSet owned; direct ← IPSet direct; routes ← IPSet routes;
  Some (owned, direct, routes).

Record owner_state : Type := MkOwnerState {
  os_peers : gmap string S; os_routes : gmap string S; os_all : B; os_allPeers : B; os_allRoutes : B }.
Definition add_owner (declared : list prefixOwner) (st : option owner_state) (peer : Peer) : option owner_state :=
  st ← st;
  '(owned, direct, routes) ← own_peer declared (peer_Name peer);
  Some (MkOwnerState (<[peer_Name peer := direct]> (os_peers st)) (<[peer_Name peer := routes]> (os_routes st))
          (AddSet (Some owned) (os_all st)) (AddSet (Some direct) (os_allPeers st))
          (AddSet (Some routes) (os_allRoutes st))).
Definition buildOwnership (cfg : Config) (exitIP : Addr) : option ownership :=
  st ← foldl (add_owner (declared_owners cfg exitIP))
         (Some (MkOwnerState ∅ ∅ new_builder new_builder new_builder)) (c_Peers cfg);
  all ← IPSet (os_all st); allPeers ← IPSet (os_allPeers st); allRoutes ← IPSet (os_allRoutes st);
  Some (MkOwnership all (os_peers st) (os_routes st) allPeers allRoutes).

(** ** Matches *)

Inductive compile_error : Type :=
  | ESet                                        (* an address set is invalid *)
  | ESrc (grant i : nat) (e : selector_error) | ESrcKind (grant i : nat)
  | EDst (grant i : nat) (e : selector_error)
  | EPermission (grant : nat) (e : permission_error)
  | EResolution (grant : nat) (value : string) (e : selector_error).
Definition set_or {A} (o : option A) : result compile_error A :=
  match o with Some a => Ok a | None => Err ESet end.

Definition add_source (owned : ownership) (g i : nat) (b : B) (value : string) : result compile_error B :=
  selector ← wrap (ESrc g i) (ParseSourceSelector value);
  match sel_Kind selector with
  | SelectorAll => Ok (AddSet (Some (o_all owned)) b)
  | SelectorPeerAll => Ok (AddSet (Some (o_allPeers owned)) b)
  | SelectorPeer => Ok (AddSet (o_peers owned !! sel_Peer selector) b)
  | SelectorRoutesAll => Ok (AddSet (Some (o_allRoutes owned)) b)
  | SelectorRoutes => Ok (AddSet (o_routes owned !! sel_Peer selector) b)
  | SelectorPrefix =>
    let explicit := AddPrefix (sel_Prefix selector) new_builder in
    _ ← set_or (IPSet explicit);
    intersection ← set_or (IPSet (Intersect (o_all owned) explicit));
    Ok (AddSet (Some intersection) b)
  | _ => Err (ESrcKind g i)
  end.
Definition resolveSources (owned : ownership) (g : nat) (values : list string) : result compile_error S :=
  b ← ifoldM (λ i b v, add_source owned g i b v) values new_builder; set_or (IPSet b).

Definition add_destination (local : S) (g i : nat) (b : B) (value : string) : result compile_error B :=
  selector ← wrap (EDst g i) (ParseDestinationSelector value);
  match sel_Kind selector with
  | SelectorSelf | SelectorAll => Ok (AddSet (Some local) b)
  | SelectorPrefix =>
    set ← set_or (IPSet (Intersect local (AddPrefix (sel_Prefix selector) new_builder)));
    Ok (AddSet (Some set) b)
  | _ => Ok b
  end.
Definition resolveDestinations (local : S) (g : nat) (values : list string) : result compile_error S :=
  b ← ifoldM (λ i b v, add_destination local g i b v) values new_builder; set_or (IPSet b).

(** [ipproto.TSMP] is Tailscale's own protocol number, 99. *)
Definition TSMP : Z := 99.
Definition permissionProtocols (p : Permission) : list Z :=
  if AnyProtocol p then List.filter (λ v, negb (v =? TSMP)) (Z.of_nat <$> seq 1 254) else [Protocol p].

Record NetPortRange : Type := MkNetPortRange { np_Net : Prefix; np_First : Z; np_Last : Z }.
Record Match : Type := MkMatch { m_IPProto : list Z; m_Srcs : list Prefix; m_Dsts : list NetPortRange }.
Definition permission_match (sources destinations : S) (p : Permission) : Match :=
  let '(first, last) := if HasPorts p then (FirstPort p, LastPort p) else (0, 65535) in
  MkMatch (permissionProtocols p) (Prefixes sources)
    ((λ q, MkNetPortRange q first last) <$> Prefixes destinations).
Definition grant_matches (owned : ownership) (local : S) (i : nat) (matches : list Match) (g : Grant) :
    result compile_error (list Match) :=
  sources ← resolveSources owned i (g_Src g);
  destinations ← resolveDestinations local i (g_Dst g);
  if (length (Prefixes destinations) =? 0)%nat then Ok matches
  else foldM (λ ms text, p ← wrap (EPermission i) (ParsePermission text);
                         Ok (ms ++ [permission_match sources destinations p])) (g_IP g) matches.
Definition compileMatches (cfg : Config) (owned : ownership) (local : S) : result compile_error (list Match) :=
  ifoldM (grant_matches owned local) (Grants (c_PacketFilter cfg)) [].

(** [Compile], up to the filter it builds: the matches and the local addresses. *)
Definition Compile (cfg : Config) (exitIP : Addr) (restrictive : bool) : result compile_error (list Match * S) :=
  owned ← set_or (buildOwnership cfg exitIP);
  local ← set_or (selfSet cfg);
  matches ← (if restrictive then Ok [] else compileMatches cfg owned local);
  Ok (matches, local).

(** ** Destination states *)

Record DestinationResolution : Type := MkResolution {
  dr_GrantIndex : nat; dr_Selector : string; dr_State : string; dr_Reason : string }.
Definition forwardingUnavailable : string := "forwarding_unavailable".
Definition prefixDestinationState (p : Prefix) (local : S) : result compile_error string :=
  active ← set_or (IPSet (Intersect local (AddPrefix p new_builder)));
  if (length (Prefixes active) =? 0)%nat then Ok "inactive"
  else
    remainder ← set_or (IPSet (RemoveSet local (AddPrefix p new_builder)));
    Ok (if (length (Prefixes remainder) =? 0)%nat then "active" else "partial").
Definition destination_resolution (local : S) (grant : nat) (out : list DestinationResolution) (value : string) :
    result compile_error (list DestinationResolution) :=
  selector ← wrap (EResolution grant value) (ParseDestinationSelector value);
  '(state, reason) ←
    match sel_Kind selector with
    | SelectorSelf => Ok ("active", "")
    | SelectorAll => Ok ("partial", forwardingUnavailable)
    | SelectorPrefix =>
      state ← prefixDestinationState (sel_Prefix selector) local;
      Ok (state, if negb (String.eqb state "active") then forwardingUnavailable else "")
    | _ => Ok ("inactive", forwardingUnavailable)
    end;
  Ok (out ++ [MkResolution grant value state reason]).
Definition DestinationResolutions (cfg : Config) : result compile_error (list DestinationResolution) :=
  local ← set_or (selfSet cfg);
  ifoldM (λ i out g, foldM (destination_resolution local i) (g_Dst g) out) (Grants (c_PacketFilter cfg)) [].
End filter.
Arguments ownership S : clear implicits.

(** ** The filtered TUN *)

Section device.
(** A filter with the flow state its policies share: packets leaving and
    entering are judged and recorded. *)
Context {Flt St Pkt : Type} (RunOut RunIn : Flt → St → Pkt → bool * St).

(** A nil policy, or one without a filter, cannot be installed. *)
Definition Install (current : Flt) (policy : option (option Flt)) : result unit Flt :=
  match policy with Some (Some f) => Ok f | _ => Err tt end.

(** The loop over a batch, which moves what it accepts to the front of the
    array it ranges over.  [policies] is the policy loaded for each packet. *)
Definition compact_step {A} (run : Flt → St → Pkt → bool * St) (pkt_of : A → Pkt) (policies : list Flt)
    (s : St * list A * nat) (i : nat) : St * list A * nat :=
  let '(st, arr, accepted) := s in
  match arr !! i, policies !! i with
  | Some x, Some policy =>
    let '(ok, st) := run policy st (pkt_of x) in
    if ok then (st, <[accepted := x]> arr, Datatypes.S accepted) else (st, arr, accepted)
  | _, _ => s
  end.
Definition compact {A} (run : Flt → St → Pkt → bool * St) (pkt_of : A → Pkt) (policies : list Flt) (st : St)
    (arr : list A) : St * list A * nat :=
  foldl (compact_step run pkt_of policies) (st, arr, 0%nat) (seq 0 (length arr)).

(** [Write]: what reaches the underlying TUN, and the count returned. *)
Definition Write (policies : list Flt) (st : St) (bufs : list Pkt) (write_ok : bool) :
    St * option (list Pkt) * result unit nat :=
  let '(st, arr, accepted) := compact RunIn id policies st bufs in
  if (0 <? accepted)%nat then (st, Some (take accepted arr), if write_ok then Ok (length bufs) else Err tt)
  else (st, None, Ok (length bufs)).

(** [Read]: batches of the underlying TUN are read until one has an accepted
    packet or an error.  [None] is an endless wait: no batch left. *)
Fixpoint Read {A} (pkt_of : A → Pkt) (st : St) (batches : list (list A * list Flt * bool)) :
    option (St * list A * bool) :=
  match batches with
  | [] => None
  | (packets, policies, err) :: batches =>
    let '(st, arr, accepted) := compact RunOut pkt_of policies st packets in
    if (0 <? accepted)%nat || err then Some (st, take accepted arr, err)
    else Read pkt_of st batches
  end.
End device.

(** ** Who owns an address *)

(** The program's values: every address is within its width. *)
Record values_wf (cfg : Config) : Prop := {
  wf_own : Forall (λ a, addr.wf a = true) (c_Addresses cfg);
  wf_peers : Forall (λ p, Forall (λ a, addr.wf a = true) (peer_Addresses p) ∧
                          Forall (λ r, prefix.wf r = true) (peer_Routes p)) (c_Peers cfg) }.

Lemma hostPrefix_masked a : addr.wf a = true → addr.IsValid a = true →
  masked (hostPrefix a) ∧ prefix.IsValid (hostPrefix a) = true ∧ p_bits (hostPrefix a) = addr.BitLen a ∧
  addr.BitLen (p_addr (hostPrefix a)) = addr.BitLen a.
Proof.
  intros Hwf Hv. unfold hostPrefix, prefix.PrefixFrom. rewrite Hv, Z.leb_refl.
  assert (∀ len v, prefix.mask_value len len v = v) as Hfull.
  { intros len v. unfold prefix.mask_value. by rewrite Z.sub_diag, Z.shiftr_0_r, Z.shiftl_0_r. }
  destruct a as [|v|v z]; [done|..]; cbn in Hwf |- *; split_and!; try done; split.
  1, 3: unfold prefix.Masked; cbn -[prefix.mask_value]; by rewrite Hfull.
  all: unfold prefix.wf; cbn -[Z.pow]; by rewrite ?Hwf.
Qed.

Definition prefix_ok (p : Prefix) : Prop := masked p ∧ prefix.IsValid p = true.
Definition contains_of (d : prefixOwner) (a : Addr) : Prop := prefix.Contains (po_value d) a = true.
(** [d] is the longest declared prefix that contains [a]. *)
Definition lpm (declared : list prefixOwner) (a : Addr) (d : prefixOwner) : Prop :=
  d ∈ declared ∧ contains_of d a ∧ ∀ d', d' ∈ declared → contains_of d' a → p_bits (po_value d') <= p_bits (po_value d).
Definition is_direct (declared : list prefixOwner) (a : Addr) : Prop :=
  ∃ d, d ∈ declared ∧ po_kind d = SelectorPeer ∧ contains_of d a.

Lemma exists_lpm declared a d : d ∈ declared → contains_of d a → ∃ d', lpm declared a d'.
Proof.
  intros Hd Hc.
  assert ((∀ d, d ∈ declared → ¬ contains_of d a) ∨ ∃ d, lpm declared a d) as [Hno|?]; [|by destruct (Hno d)|done].
  clear d Hd Hc. induction declared as [|x l IH]; [left; by intros d ?%elem_of_nil|].
  destruct (prefix.Contains (po_value x) a) eqn:Hxa; cycle 1.
  { destruct IH as [Hno|(m & Hm & Hcm & Hmax)]; [left|right; exists m; split_and!; [by right|done|]].
    - intros d [->|?]%elem_of_cons; [unfold contains_of; congruence|auto].
    - intros d [->|?]%elem_of_cons ?; [unfold contains_of in *; congruence|auto]. }
  right. destruct IH as [Hno|(m & Hm & Hcm & Hmax)].
  { exists x. split_and!; [by left|done|]. intros d [->|Hd]%elem_of_cons Hc; [lia|]. by destruct (Hno d). }
  destruct (Z.le_gt_cases (p_bits (po_value x)) (p_bits (po_value m))) as [Hle|Hgt].
  - exists m. split_and!; [by right|done|]. intros d [->|?]%elem_of_cons ?; auto.
  - exists x. split_and!; [by left|done|]. intros d [->|Hd]%elem_of_cons Hc; [lia|].
    specialize (Hmax d Hd Hc). lia.
Qed.

(** What a configuration declares. *)
Lemma selected_peer_name cfg exitIP : selected_peer cfg exitIP ≠ "" →
  ∃ p, p ∈ c_Peers cfg ∧ peer_Name p = selected_peer cfg exitIP.
Proof.
  unfold selected_peer.
  assert (∀ l s, foldl (λ selected peer, if addr.IsValid exitIP && ExitNode peer &&
      (exitIP ∈? peer_Addresses peer) then peer_Name peer else selected) s l = s ∨
    ∃ p, p ∈ l ∧ peer_Name p = foldl (λ selected peer, if addr.IsValid exitIP && ExitNode peer &&
      (exitIP ∈? peer_Addresses peer) then peer_Name peer else selected) s l) as Hgen.
  { intros l. induction l as [|x l IH]; intros s; simpl; [by left|].
    destruct (IH (if addr.IsValid exitIP && ExitNode x && (exitIP ∈? peer_Addresses x)
      then peer_Name x else s)) as [->|(p & Hp & He)]; [|right; exists p; split; [by right|done]].
    destruct (_ && _); [right; exists x; split; [by left|done]|by left]. }
  intros Hne. destruct (Hgen (c_Peers cfg) "") as [He|?]; [by rewrite He in Hne|done].
Qed.

Lemma declared_elem cfg exitIP d :
  d ∈ declared_owners cfg exitIP →
  (∃ p, p ∈ c_Peers cfg ∧ po_peer d = peer_Name p ∧
     ((∃ a, a ∈ peer_Addresses p ∧ po_kind d = SelectorPeer ∧ po_value d = hostPrefix a) ∨
      (∃ r, r ∈ peer_Routes p ∧ po_kind d = SelectorRoutes ∧ po_value d = prefix.Masked r ∧ p_bits r ≠ 0))) ∨
  (po_kind d = SelectorInternet ∧ po_peer d = selected_peer cfg exitIP ∧ po_peer d ≠ "" ∧
   (po_value d = internet4 ∨ po_value d = internet6)).
Proof.
  unfold declared_owners. rewrite elem_of_app. intros [(p & Hd & Hp)%list_elem_of_bind|Hd].
  - left. exists p. split; [done|]. unfold peer_declared in Hd.
    apply elem_of_app in Hd as [(a & -> & Ha)%list_elem_of_fmap|(r & -> & Hr)%list_elem_of_fmap]; (split; [done|]).
    + left. by exists a.
    + right. apply list_elem_of_In, filter_In in Hr as [Hr%list_elem_of_In Hb%negb_true_iff%Z.eqb_neq]. by exists r.
  - right. destruct (String.eqb_spec (selected_peer cfg exitIP) "") as [|Hne]; [by apply elem_of_nil in Hd|].
    apply elem_of_app in Hd as [Hd|Hd]; [destruct (f_v4 _)|destruct (f_v6 _)]; try (by apply elem_of_nil in Hd);
      apply list_elem_of_singleton in Hd as ->; simpl; auto.
Qed.

Section owners.
Context (cfg : Config) (exitIP : Addr) (Hcfg : config_ok cfg) (Hwf : values_wf cfg).
Notation declared := (declared_owners cfg exitIP).

Lemma peer_value_ok p : p ∈ c_Peers cfg →
  (∀ a, a ∈ peer_Addresses p → addr.wf a = true ∧ addr.IsValid a = true) ∧
  (∀ r, r ∈ peer_Routes p → prefix_ok r ∧ prefix.Masked r = r ∧ 0 < p_bits r).
Proof.
  intros Hp. destruct (proj1 (Forall_forall _ _) (wf_peers cfg Hwf) p Hp) as [Ha Hr].
  destruct (proj1 (Forall_forall _ _) (ok_peers cfg Hcfg) p Hp) as [_ _ _ Haddr Hroutes]. split.
  - intros a Hin. split; [exact (proj1 (Forall_forall _ _) Ha a Hin)|].
    destruct (proj1 (Forall_forall _ _) Haddr a Hin) as [[[H4|H6] _] _]; by destruct a.
  - intros r Hin. destruct (proj1 (Forall_forall _ _) Hroutes r Hin) as (Hm & Hb & _).
    split; [split; [split; [done|exact (proj1 (Forall_forall _ _) Hr r Hin)]|]|done].
    unfold prefix.IsValid. lia.
Qed.

Lemma declared_ok d : d ∈ declared → prefix_ok (po_value d).
Proof.
  intros [(p & Hp & _ & [(a & Ha & _ & ->)|(r & Hr & _ & -> & _)])|(_ & _ & _ & [->| ->])]%declared_elem.
  - destruct (proj1 (peer_value_ok p Hp) a Ha) as [Hw Hv]. by destruct (hostPrefix_masked a Hw Hv) as (? & ? & _).
  - destruct (proj2 (peer_value_ok p Hp) r Hr) as (? & -> & _). done.
  - split; [split|]; by vm_compute.
  - split; [split|]; by vm_compute.
Qed.
(** A direct address is a longest prefix. *)
Lemma direct_bits d d' a : d ∈ declared → d' ∈ declared → po_kind d = SelectorPeer →
  contains_of d a → contains_of d' a → p_bits (po_value d') <= p_bits (po_value d).
Proof.
  intros Hd Hd' Hk Hc Hc'. destruct (declared_ok d' Hd') as [Hm' Hv'].
  pose proof (wf_bits _ (proj2 Hm') Hv') as [Hb' _].
  apply Contains_BitLen in Hc, Hc'.
  destruct (declared_elem _ _ _ Hd) as [(p & Hp & _ & [(x & Hx & _ & Hval)|(r & _ & Hk' & _)])|(Hk' & _)]; try congruence.
  destruct (proj1 (peer_value_ok p Hp) x Hx) as [Hw Hv]. destruct (hostPrefix_masked x Hw Hv) as (_ & _ & Hb & Hl).
  rewrite Hval in *. lia.
Qed.
(** Equal longest prefixes have one owner. *)
Lemma lpm_owner a d1 d2 : lpm declared a d1 → lpm declared a d2 → po_peer d1 = po_peer d2.
Proof.
  intros (H1 & C1 & M1) (H2 & C2 & M2).
  assert (po_value d1 = po_value d2) as Heq.
  { apply (masked_Contains_eq _ _ a); [by apply declared_ok..|done|done|].
    apply Z.le_antisymm; [by apply M2|by apply M1]. }
  assert (Hown : ∀ d p, po_kind d ≠ SelectorInternet → d ∈ declared → po_peer d = peer_Name p ∧ p ∈ c_Peers cfg ∧
    ((∃ a, a ∈ peer_Addresses p ∧ po_kind d = SelectorPeer ∧ po_value d = hostPrefix a) ∨
      (∃ r, r ∈ peer_Routes p ∧ po_kind d = SelectorRoutes ∧ po_value d = prefix.Masked r ∧ p_bits r ≠ 0)) →
    po_value d ∈ allowed_ips p ∧ p_bits (po_value d) ≠ 0).
  { intros d p _ _ (_ & Hp & [(x & Hx & _ & ->)|(r & Hr & _ & -> & Hb)]).
    - split; [apply elem_of_app; left; apply list_elem_of_fmap; eauto|].
      destruct (proj1 (peer_value_ok p Hp) x Hx) as [Hw Hv]. destruct (hostPrefix_masked x Hw Hv) as (_ & _ & -> & _).
      by destruct x.
    - destruct (proj2 (peer_value_ok p Hp) r Hr) as (_ & -> & _). split; [apply elem_of_app; by right|done]. }
  destruct (declared_elem _ _ _ H1) as [(p & Hp & Np & Kp)|(K1 & N1 & _ & V1)],
    (declared_elem _ _ _ H2) as [(q & Hq & Nq & Kq)|(K2 & N2 & _ & V2)]; [| | |congruence].
  - destruct (Hown d1 p) as [A1 _]; [|done|done|]; [destruct Kp as [(? & _ & K & _)|(? & _ & K & _)]; congruence|].
    destruct (Hown d2 q) as [A2 _]; [|done|done|]; [destruct Kq as [(? & _ & K & _)|(? & _ & K & _)]; congruence|].
    rewrite Heq in A1. rewrite Np, Nq. f_equal. by apply (ok_allowed cfg Hcfg p q _ Hp Hq A1).
  - destruct (Hown d1 p) as [_ A1]; [|done|done|]; [destruct Kp as [(? & _ & K & _)|(? & _ & K & _)]; congruence|].
    rewrite Heq in A1. by destruct V2 as [V|V]; rewrite V in A1.
  - destruct (Hown d2 q) as [_ A2]; [|done|done|]; [destruct Kq as [(? & _ & K & _)|(? & _ & K & _)]; congruence|].
    rewrite <-Heq in A2. by destruct V1 as [V|V]; rewrite V in A2.
Qed.
End owners.

(** ** The ownership that is built *)

Section ownership_facts.
Context {B S : Type} `{HL : IPSetLaws B S}.

Lemma builds_remove {A} (f : A → bool) (g : A → Prefix) l b (P : Addr → Prop) :
  (∀ x, x ∈ l → prefix_ok (g x)) → builds b P →
  builds (foldl (λ b x, if f x then RemovePrefix (g x) b else b) b l)
    (λ a, P a ∧ ∀ x, x ∈ l → f x = true → prefix.Contains (g x) a = false).
Proof.
  revert b P. induction l as [|x l IH]; intros b P Hok Hb; simpl.
  { eapply builds_ext, Hb. intros a. split; [|by intros [? _]]. intros ?. split; [done|]. by intros x ?%elem_of_nil. }
  destruct (f x) eqn:Hf.
  - destruct (Hok x ltac:(by left)) as [Hm Hv].
    eapply builds_ext; [|apply IH; [by intros ??; apply Hok; right|by apply builds_RemovePrefix]].
    intros a. simpl. setoid_rewrite elem_of_cons. split.
    + intros [[? ?] Hall]. split; [done|]. intros y [->|?]; auto.
    + intros [? Hall]. auto 6.
  - eapply builds_ext; [|apply IH; [by intros ??; apply Hok; right|exact Hb]].
    intros a. simpl. setoid_rewrite elem_of_cons. split.
    + intros [? Hall]. split; [done|]. intros y [->|?] ?; [congruence|auto].
    + intros [? Hall]. auto.
Qed.

(** What an item gives to its peer. *)
Definition gives (declared : list prefixOwner) (name : string) (item : prefixOwner) (a : Addr) : Prop :=
  contains_of item a ∧ (∀ other, other ∈ declared → shadows item other name = true → ¬ contains_of other a) ∧
  (po_kind item = SelectorRoutes → ¬ is_direct declared a).

Lemma effective_set_spec declared name item :
  (∀ d, d ∈ declared → prefix_ok (po_value d)) → item ∈ declared →
  ∃ s, effective_set (S:=S) declared name item = Some s ∧ ∀ a, set_Contains s a = true ↔ gives declared name item a.
Proof.
  intros Hok Hin. destruct (Hok item Hin) as [Hm Hv]. unfold effective_set.
  pose proof (builds_remove (λ other, shadows item other name) po_value declared _ _ Hok
    (builds_AddPrefix _ _ (po_value item) Hm Hv builds_new)) as Hb.
  destruct (decide (po_kind item = SelectorRoutes)) as [Hr|Hr].
  - apply (builds_remove (λ direct, bool_decide (po_kind direct = SelectorPeer)) po_value declared _ _ Hok) in Hb.
    destruct (builds_IPSet _ _ Hb) as (s & -> & Hs). exists s. split; [done|]. intros a. rewrite Hs.
    unfold gives, contains_of, is_direct. split.
    + intros [[[[]|Hc] Hsh] Hd]. split_and!; [done| |].
      * intros o Ho Hs' Hc'. by rewrite (Hsh o Ho Hs') in Hc'.
      * intros _ (d & Hd' & Hk & Hc'). unfold contains_of in Hc'. rewrite (Hd d Hd') in Hc'; [done|by apply bool_decide_eq_true].
    + intros (Hc & Hsh & Hd). split; [split; [by right|]|].
      * intros o Ho Hs'. apply not_true_is_false. by apply Hsh.
      * intros d Hd' Hk%bool_decide_eq_true. apply not_true_is_false. intros Hc'. apply (Hd Hr). by exists d.
  - destruct (builds_IPSet _ _ Hb) as (s & -> & Hs). exists s. split; [done|]. intros a. rewrite Hs.
    unfold gives, contains_of. split.
    + intros [[[]|Hc] Hsh]. split_and!; [done| |done]. intros o Ho Hs' Hc'. by rewrite (Hsh o Ho Hs') in Hc'.
    + intros (Hc & Hsh & _). split; [by right|]. intros o Ho Hs'. apply not_true_is_false. by apply Hsh.
Qed.

(** The three sets of a peer, by the items that fill each. *)
Definition given (declared : list prefixOwner) (name : string) (kinds : SelectorKind → Prop) (items : list prefixOwner)
    (a : Addr) : Prop :=
  ∃ item, item ∈ items ∧ po_peer item = name ∧ kinds (po_kind item) ∧ gives declared name item a.

Lemma given_nil declared name kinds a : given declared name kinds [] a ↔ False.
Proof. split; [by intros (? & ?%elem_of_nil & _)|done]. Qed.
Lemma given_snoc declared name kinds items x a :
  given declared name kinds (items ++ [x]) a ↔
  given declared name kinds items a ∨ (po_peer x = name ∧ kinds (po_kind x) ∧ gives declared name x a).
Proof.
  unfold given. setoid_rewrite elem_of_snoc. split.
  - intros (i & [?| ->] & ? & ? & ?); [left; by exists i|by right].
  - intros [(i & ? & ? & ? & ?)|(? & ? & ?)]; [exists i|exists x]; auto.
Qed.
(** Adding the set of an item whose kind qualifies. *)
Lemma builds_given declared name (kinds : SelectorKind → Prop) items x b s :
  builds b (given declared name kinds items) → po_peer x = name →
  (∀ a, set_Contains s a = true ↔ gives declared name x a) → kinds (po_kind x) →
  builds (AddSet (Some s) b) (given declared name kinds (items ++ [x])).
Proof.
  intros Hb Hx Hs Hk. eapply builds_ext; [|by apply builds_AddSet, Hb].
  intros a. simpl. rewrite given_snoc, <-Hs. split; [intros [?|(? & [= <-] & ?)]|intros [?|(_ & _ & ?)]]; eauto.
Qed.
Lemma builds_given_skip declared name (kinds : SelectorKind → Prop) items x b :
  builds b (given declared name kinds items) → (po_peer x = name → ¬ kinds (po_kind x)) →
  builds b (given declared name kinds (items ++ [x])).
Proof. intros Hb Hn. eapply builds_ext, Hb. intros a. rewrite given_snoc. intuition. Qed.

Lemma own_peer_spec declared name :
  (∀ d, d ∈ declared → prefix_ok (po_value d)) →
  ∃ o d r, own_peer (B:=B) (S:=S) declared name = Some (o, d, r) ∧
    (∀ a, set_Contains o a = true ↔ given declared name (λ _, True) declared a) ∧
    (∀ a, set_Contains d a = true ↔ given declared name (λ k, k = SelectorPeer) declared a) ∧
    (∀ a, set_Contains r a = true ↔ given declared name (λ k, k = SelectorRoutes) declared a).
Proof.
  intros Hok.
  assert (∀ pre rest o d r, pre ++ rest = declared →
    builds o (given declared name (λ _, True) pre) → builds d (given declared name (λ k, k = SelectorPeer) pre) →
    builds r (given declared name (λ k, k = SelectorRoutes) pre) →
    ∃ o' d' r', foldl (own_item (B:=B) (S:=S) declared name) (Some (o, d, r)) rest = Some (o', d', r') ∧
      builds o' (given declared name (λ _, True) declared) ∧
      builds d' (given declared name (λ k, k = SelectorPeer) declared) ∧
      builds r' (given declared name (λ k, k = SelectorRoutes) declared)) as Hloop.
  { intros pre rest. revert pre. induction rest as [|x rest IH]; intros pre o d r He Ho Hd Hr; simpl.
    { rewrite app_nil_r in He. subst pre. eauto 10. }
    assert (Hx : x ∈ declared) by (rewrite <-He; apply elem_of_app; right; by left).
    assert (He' : (pre ++ [x]) ++ rest = declared) by (by rewrite <-app_assoc).
    destruct (String.eqb_spec (po_peer x) name) as [Hn|Hn]; simpl.
    - destruct (effective_set_spec declared name x Hok Hx) as (s & -> & Hs). simpl.
      apply (IH (pre ++ [x]) _ _ _ He').
      + by apply builds_given.
      + destruct (decide _); [by apply builds_given|by apply builds_given_skip].
      + destruct (decide _); [by apply builds_given|by apply builds_given_skip].
    - apply (IH (pre ++ [x]) _ _ _ He'); by apply builds_given_skip. }
  assert (Hnil : ∀ kinds, builds (new_builder (B:=B) (S:=S)) (given declared name kinds [])).
  { intros kinds. eapply builds_ext, builds_new. intros a. by rewrite given_nil. }
  destruct (Hloop [] declared new_builder new_builder new_builder) as (o & d & r & He & Ho & Hd & Hr); [done|apply Hnil..|].
  unfold own_peer. rewrite He. simpl.
  destruct (builds_IPSet _ _ Ho) as (so & -> & Hso), (builds_IPSet _ _ Hd) as (sd & -> & Hsd),
    (builds_IPSet _ _ Hr) as (sr & -> & Hsr). by exists so, sd, sr.
Qed.
End ownership_facts.

Section ownership_lpm.
Context {B S : Type} `{HL : IPSetLaws B S}.
Context (cfg : Config) (exitIP : Addr) (Hcfg : config_ok cfg) (Hwf : values_wf cfg).
Notation declared := (declared_owners cfg exitIP).

Lemma lpm_gives a d : lpm declared a d → (po_kind d = SelectorRoutes → ¬ is_direct declared a) →
  gives declared (po_peer d) d a.
Proof.
  intros (Hd & Hc & Hmax) Hr. split_and!; [done| |done]. intros o Ho Hs Hc'. unfold shadows in Hs.
  apply andb_true_iff in Hs as [[[_ _]%andb_true_iff Hb%Z.ltb_lt]%andb_true_iff _]. specialize (Hmax o Ho Hc'). lia.
Qed.
Lemma gives_lpm_peer a d l : d ∈ declared → gives declared (po_peer d) d a → lpm declared a l → po_peer l = po_peer d.
Proof.
  intros Hd (Hc & Hs & _) Hl. pose proof Hl as (Hin & Hcl & Hmax).
  destruct (Z.le_gt_cases (p_bits (po_value l)) (p_bits (po_value d))) as [Hle|Hgt].
  { symmetry. apply (lpm_owner cfg exitIP Hcfg Hwf a); [|done]. split_and!; [done|done|].
    intros d' Hd' Hc'. specialize (Hmax d' Hd' Hc'). lia. }
  destruct (decide (po_peer l = po_peer d)) as [|Hne]; [done|]. destruct (Hs l Hin); [|done].
  unfold shadows. rewrite (proj2 (String.eqb_neq _ _) Hne). unfold contains_of in *.
  rewrite <-(Contains_BitLen _ _ Hc), <-(Contains_BitLen _ _ Hcl), Z.eqb_refl, (proj2 (Z.ltb_lt _ _)) by lia. simpl.
  destruct (declared_ok cfg exitIP Hcfg Hwf l Hin) as [Hml Hvl], (declared_ok cfg exitIP Hcfg Hwf d Hd) as [Hmd Hvd].
  apply (overlap_nested _ _ a); try done. lia.
Qed.

(** What a peer owns, its addresses and its routes, by longest prefix. *)
Definition owned_by (a : Addr) (name : string) : Prop := ∃ d, lpm declared a d ∧ po_peer d = name.

Lemma given_owned name a : given declared name (λ _, True) declared a ↔ owned_by a name.
Proof.
  split.
  - intros (d & Hd & <- & _ & Hg). destruct (exists_lpm declared a d Hd (proj1 Hg)) as (l & Hl).
    exists l. split; [done|]. by apply (gives_lpm_peer a d).
  - intros (d & Hl & <-). destruct (decide (po_kind d = SelectorRoutes)) as [Hr|Hr]; cycle 1.
    { exists d. split_and!; [apply Hl|done|done|]. by apply lpm_gives. }
    assert (is_direct declared a ∨ ¬ is_direct declared a) as [(x & Hx & Hk & Hc)|Hnd].
    { unfold is_direct, contains_of. clear. induction declared as [|x l [(d & ?)|IH]].
      - right. by intros (d & ?%elem_of_nil & _).
      - left. exists d. set_solver.
      - destruct (decide (po_kind x = SelectorPeer ∧ prefix.Contains (po_value x) a = true)) as [?|Hn].
        + left. exists x. set_solver.
        + right. intros (d & [->|?]%elem_of_cons & ?); [tauto|]. apply IH. by exists d. }
    + assert (Hlx : lpm declared a x).
      { split_and!; [done|done|]. intros d' Hd' Hc'. by apply (direct_bits cfg exitIP Hcfg Hwf x d' a). }
      exists x. pose proof (lpm_owner cfg exitIP Hcfg Hwf a x d Hlx Hl) as He. split_and!; [done|done|done|].
      rewrite <-He. apply lpm_gives; [done|congruence].
    + exists d. split_and!; [apply Hl|done|done|]. by apply lpm_gives.
Qed.
Lemma given_direct name a :
  given declared name (λ k, k = SelectorPeer) declared a ↔
  ∃ d, lpm declared a d ∧ po_peer d = name ∧ po_kind d = SelectorPeer.
Proof.
  split.
  - intros (d & Hd & <- & Hk & Hg). exists d. split_and!; [|done|done]. split_and!; [done|apply Hg|].
    intros d' Hd' Hc'. by apply (direct_bits cfg exitIP Hcfg Hwf d d' a Hd Hd' Hk (proj1 Hg)).
  - intros (d & Hl & <- & Hk). exists d. split_and!; [apply Hl|done|done|]. apply lpm_gives; [done|congruence].
Qed.
Lemma given_routes name a :
  given declared name (λ k, k = SelectorRoutes) declared a ↔
  ¬ is_direct declared a ∧ ∃ d, lpm declared a d ∧ po_peer d = name ∧ po_kind d = SelectorRoutes.
Proof.
  split.
  - intros (d & Hd & <- & Hk & Hg). pose proof (proj2 (proj2 Hg) Hk) as Hnd. split; [done|].
    destruct (exists_lpm declared a d Hd (proj1 Hg)) as (l & Hl). exists l. split; [done|].
    split; [by apply (gives_lpm_peer a d)|].
    destruct Hl as (Hin & Hcl & Hmax). pose proof (Hmax d Hd (proj1 Hg)) as Hle.
    destruct (declared_elem _ _ _ Hd) as [(p & Hp & _ & [(? & _ & ? & _)|(r & Hr & _ & Hv & Hb)])|(? & _)]; [congruence| |congruence].
    destruct (proj2 (peer_value_ok cfg Hcfg Hwf p Hp) r Hr) as (_ & Hm & Hpos). rewrite Hv, Hm in Hle.
    destruct (declared_elem _ _ _ Hin) as [(q & _ & _ & [(? & _ & Hk' & _)|(? & _ & ? & _)])|(_ & _ & _ & [Hv'|Hv'])].
    + destruct Hnd. by exists l.
    + done.
    + rewrite Hv' in Hle. simpl in Hle. lia.
    + rewrite Hv' in Hle. simpl in Hle. lia.
  - intros (Hnd & d & Hl & <- & Hk). exists d. split_and!; [apply Hl|done|done|]. by apply lpm_gives.
Qed.

Lemma owned_by_peer a name : owned_by a name → name ∈ peer_Name <$> c_Peers cfg.
Proof.
  intros (d & (Hd & _) & <-). apply list_elem_of_fmap.
  destruct (declared_elem _ _ _ Hd) as [(p & Hp & -> & _)|(_ & Hn & Hne & _)]; [eauto|].
  rewrite Hn in Hne. destruct (selected_peer_name cfg exitIP Hne) as (p & Hp & He). exists p. by rewrite Hn, He.
Qed.

(** The sets [buildOwnership] yields, for every address. *)
Record ownership_ok (o : ownership S) : Prop := {
  own_all a : set_Contains (o_all o) a = true ↔ ∃ d, lpm declared a d;
  own_allPeers a : set_Contains (o_allPeers o) a = true ↔ ∃ d, lpm declared a d ∧ po_kind d = SelectorPeer;
  own_allRoutes a : set_Contains (o_allRoutes o) a = true ↔
    ¬ is_direct declared a ∧ ∃ d, lpm declared a d ∧ po_kind d = SelectorRoutes;
  own_peers n a : (∃ s, o_peers o !! n = Some s ∧ set_Contains s a = true) ↔
    ∃ d, lpm declared a d ∧ po_peer d = n ∧ po_kind d = SelectorPeer;
  own_routes n a : (∃ s, o_routes o !! n = Some s ∧ set_Contains s a = true) ↔
    ¬ is_direct declared a ∧ ∃ d, lpm declared a d ∧ po_peer d = n ∧ po_kind d = SelectorRoutes;
  own_names n : is_Some (o_peers o !! n) ↔ n ∈ peer_Name <$> c_Peers cfg }.

Record owner_inv (names : list string) (st : owner_state) : Prop := {
  oi_all : builds (os_all st) (λ a, ∃ n, n ∈ names ∧ given declared n (λ _, True) declared a);
  oi_peers : builds (os_allPeers st) (λ a, ∃ n, n ∈ names ∧ given declared n (λ k, k = SelectorPeer) declared a);
  oi_routes : builds (os_allRoutes st) (λ a, ∃ n, n ∈ names ∧ given declared n (λ k, k = SelectorRoutes) declared a);
  oi_peer n : if decide (n ∈ names)
              then ∃ s, os_peers st !! n = Some s ∧
                ∀ a, set_Contains s a = true ↔ given declared n (λ k, k = SelectorPeer) declared a
              else os_peers st !! n = None;
  oi_route n : if decide (n ∈ names)
               then ∃ s, os_routes st !! n = Some s ∧
                 ∀ a, set_Contains s a = true ↔ given declared n (λ k, k = SelectorRoutes) declared a
               else os_routes st !! n = None }.

Lemma builds_snoc_name (Q : string → Addr → Prop) names n b s :
  builds b (λ a, ∃ m, m ∈ names ∧ Q m a) → (∀ a, set_Contains s a = true ↔ Q n a) →
  builds (AddSet (Some s) b) (λ a, ∃ m, m ∈ names ++ [n] ∧ Q m a).
Proof.
  intros Hb Hs. eapply builds_ext; [|by apply builds_AddSet, Hb]. intros a. simpl.
  setoid_rewrite elem_of_snoc. split.
  - intros [(m & ? & ?)|(? & [= <-] & ?%Hs)]; eauto.
  - intros (m & [?| ->] & ?); [eauto|]. right. exists s. by rewrite Hs.
Qed.
Lemma insert_name (Q : Addr → Prop) (m : gmap string S) (names : list string) n n' (s : S) (P : S → Prop) :
  (n' = n → P s) →
  (if decide (n' ∈ names) then ∃ s, m !! n' = Some s ∧ P s else m !! n' = None) →
  if decide (n' ∈ names ++ [n]) then ∃ s', <[n := s]> m !! n' = Some s' ∧ P s' else <[n := s]> m !! n' = None.
Proof.
  intros Hs Hm. destruct (decide (n' = n)) as [->|Hne].
  - rewrite decide_True by set_solver. exists s. rewrite lookup_insert_eq. auto.
  - rewrite lookup_insert_ne by done. destruct (decide (n' ∈ names)); [rewrite decide_True by set_solver|rewrite decide_False by set_solver]; done.
Qed.
Lemma add_owner_inv names st peer : owner_inv names st →
  ∃ st', add_owner (B:=B) declared (Some st) peer = Some st' ∧ owner_inv (names ++ [peer_Name peer]) st'.
Proof.
  intros [Ha Hp Hr Hop Hor].
  destruct (own_peer_spec (B:=B) (S:=S) declared (peer_Name peer) (declared_ok cfg exitIP Hcfg Hwf))
    as (o & d & r & He & Ho & Hd & Hrt).
  unfold add_owner. simpl. rewrite He. simpl. eexists. split; [done|]. split; simpl.
  - by apply builds_snoc_name.
  - by apply builds_snoc_name.
  - by apply builds_snoc_name.
  - intros n. apply (insert_name (λ _, True)); [by intros ->|apply Hop].
  - intros n. apply (insert_name (λ _, True)); [by intros ->|apply Hor].
Qed.

Lemma buildOwnership_ok : ∃ o, buildOwnership (B:=B) (S:=S) cfg exitIP = Some o ∧ ownership_ok o.
Proof.
  assert (Hloop : ∀ rest names st, owner_inv names st →
    ∃ st', foldl (add_owner (B:=B) declared) (Some st) rest = Some st' ∧ owner_inv (names ++ (peer_Name <$> rest)) st').
  { induction rest as [|p rest IH]; intros names st Hst; simpl; [rewrite app_nil_r; eauto|].
    destruct (add_owner_inv names st p Hst) as (st1 & He & Hst1). simpl in He. rewrite He.
    destruct (IH _ _ Hst1) as (st' & ? & Hst'). exists st'. by rewrite <-app_assoc in Hst'. }
  destruct (Hloop (c_Peers cfg) [] (MkOwnerState ∅ ∅ new_builder new_builder new_builder)) as (st & He & [Ha Hp Hr Hop Hor]).
  { split; cbn [os_all os_allPeers os_allRoutes os_peers os_routes].
    1-3: eapply builds_ext, builds_new; intros a; set_solver.
    all: intros n; rewrite decide_False by (by intros ?%elem_of_nil); apply lookup_empty. }
  simpl in *. unfold buildOwnership. rewrite He. simpl.
  destruct (builds_IPSet _ _ Ha) as (sa & -> & Hsa), (builds_IPSet _ _ Hp) as (sp & -> & Hsp),
    (builds_IPSet _ _ Hr) as (sr & -> & Hsr). simpl. eexists. split; [done|].
  assert (Hin : ∀ n a kinds, given declared n kinds declared a → n ∈ peer_Name <$> c_Peers cfg).
  { intros n a kinds (d & Hd & Hn & _ & Hg). apply (owned_by_peer a). apply given_owned. by exists d. }
  assert (Hmap : ∀ (m : gmap string S) kinds n a,
    (if decide (n ∈ peer_Name <$> c_Peers cfg)
     then ∃ s, m !! n = Some s ∧ ∀ a, set_Contains s a = true ↔ given declared n kinds declared a else m !! n = None) →
    (∃ s, m !! n = Some s ∧ set_Contains s a = true) ↔ given declared n kinds declared a).
  { intros m kinds n a Hm. destruct (decide _) as [|Hno].
    - destruct Hm as (s & -> & Hs). rewrite <-Hs. split; [by intros (? & [= <-] & ?)|eauto].
    - rewrite Hm. split; [by intros (? & ? & _)|]. by intros ?%Hin. }
  split; simpl.
  - intros a. rewrite Hsa. setoid_rewrite given_owned. split; [intros (n & _ & d & ? & _); eauto|].
    intros (d & Hd). exists (po_peer d). split; [apply (owned_by_peer a)|]; by exists d.
  - intros a. rewrite Hsp. setoid_rewrite given_direct. split; [intros (n & _ & d & ? & _ & ?); eauto|].
    intros (d & Hd & Hk). exists (po_peer d). split; [apply (owned_by_peer a); by exists d|by exists d].
  - intros a. rewrite Hsr. setoid_rewrite given_routes. split; [intros (n & _ & ? & d & ? & _ & ?); eauto|].
    intros (Hnd & d & Hd & Hk). exists (po_peer d). split; [apply (owned_by_peer a); by exists d|].
    split; [done|by exists d].
  - intros n a. rewrite <-given_direct. apply Hmap, Hop.
  - intros n a. rewrite <-given_routes. apply Hmap, Hor.
  - intros n. specialize (Hop n). destruct (decide _) as [Hn|Hn]; [destruct Hop as (s & -> & _); by split; [|eexists]|].
    rewrite Hop. split; [by intros [? ?]|done].
Qed.
End ownership_lpm.

(** ** What a compiled filter admits *)

(** [withoutZone x] is the address that prefixes can contain. *)
Definition local_address (cfg : Config) (a : Addr) : Prop := ∃ x, x ∈ c_Addresses cfg ∧ a = addr.withoutZone x.
Definition has_lpm (declared : list prefixOwner) (a : Addr) (Q : prefixOwner → Prop) : Prop :=
  ∃ d, lpm declared a d ∧ Q d.
Definition source_covers (declared : list prefixOwner) (sel : Selector) (a : Addr) : Prop :=
  match sel_Kind sel with
  | SelectorAll => has_lpm declared a (λ _, True)
  | SelectorPeerAll => has_lpm declared a (λ d, po_kind d = SelectorPeer)
  | SelectorPeer => has_lpm declared a (λ d, po_kind d = SelectorPeer ∧ po_peer d = sel_Peer sel)
  | SelectorRoutesAll => ¬ is_direct declared a ∧ has_lpm declared a (λ d, po_kind d = SelectorRoutes)
  | SelectorRoutes => ¬ is_direct declared a ∧
      has_lpm declared a (λ d, po_kind d = SelectorRoutes ∧ po_peer d = sel_Peer sel)
  | SelectorPrefix => prefix.Contains (sel_Prefix sel) a = true ∧ has_lpm declared a (λ _, True)
  | _ => False
  end.
Definition destination_covers (cfg : Config) (sel : Selector) (a : Addr) : Prop :=
  match sel_Kind sel with
  | SelectorSelf | SelectorAll => local_address cfg a
  | SelectorPrefix => prefix.Contains (sel_Prefix sel) a = true ∧ local_address cfg a
  | _ => False
  end.
Definition permission_covers (p : Permission) (proto port : Z) : Prop :=
  (if AnyProtocol p then 1 <= proto <= 254 ∧ proto ≠ TSMP else proto = Protocol p) ∧
  (HasPorts p = true → FirstPort p <= port <= LastPort p).
Definition grant_covers (cfg : Config) (exitIP : Addr) (g : Grant) (src dst : Addr) (proto port : Z) : Prop :=
  (∃ v sel, v ∈ g_Src g ∧ ParseSourceSelector v = Ok sel ∧ source_covers (declared_owners cfg exitIP) sel src) ∧
  (∃ v sel, v ∈ g_Dst g ∧ ParseDestinationSelector v = Ok sel ∧ destination_covers cfg sel dst) ∧
  (∃ v p, v ∈ g_IP g ∧ ParsePermission v = Ok p ∧ permission_covers p proto port).
(** The traffic a match names: its protocol, sources, and destinations with
    their ports.  How the stateful filter applies a match to a packet (replies,
    ICMP) is the library's. *)
Definition match_covers (m : Match) (src dst : Addr) (proto port : Z) : Prop :=
  proto ∈ m_IPProto m ∧ (∃ p, p ∈ m_Srcs m ∧ prefix.Contains p src = true) ∧
  ∃ r, r ∈ m_Dsts m ∧ prefix.Contains (np_Net r) dst = true ∧ np_First r <= port <= np_Last r.

(** *** Selectors and permissions of a normalized filter *)

Lemma parseSelector_prefix v source sel : parseSelector v source = Ok sel → sel_Kind sel = SelectorPrefix →
  prefix_ok (sel_Prefix sel).
Proof.
  unfold parseSelector. repeat (destruct (String.eqb v _); [first [destruct source; [done|]|idtac]; by intros [= <-]|]).
  destruct (Cut v ":"%char) as [[kind peer] ok].
  destruct (ok && _); [by intros [= <-]|]. destruct (ok && _); [by intros [= <-]|].
  destruct (ParseAddr v) as [a|] eqn:Ha.
  - intros [= <-] _. destruct (ParseAddr_wf v a Ha) as [Hw Hv]. by destruct (hostPrefix_masked a Hw Hv) as (? & ? & _).
  - destruct (ParsePrefix v) as [p|] eqn:Hp; [|done]. intros [= <-] _. destruct (ParsePrefix_wf v p Hp) as [Hw Hv].
    split; simpl; auto with tailmix.
Qed.
Lemma parseSelector_kind v source sel : parseSelector v source = Ok sel →
  match sel_Kind sel with SelectorSelf | SelectorInternet => source = false | _ => True end.
Proof.
  unfold parseSelector. repeat (destruct (String.eqb v _); [first [destruct source; [done|]|idtac]; by intros [= <-]|]).
  destruct (Cut v ":"%char) as [[kind peer] ok].
  destruct (ok && _); [by intros [= <-]|]. destruct (ok && _); [by intros [= <-]|].
  destruct (ParseAddr v); [by intros [= <-]|]. by destruct (ParsePrefix v); [intros [= <-]|].
Qed.
Lemma normalizeSelector_parses v source peers w : normalizeSelector v source peers = Ok w →
  ∃ sel, parseSelector v source = Ok sel.
Proof.
  unfold normalizeSelector, parseSelector.
  destruct (String.eqb_spec v "") as [|_]; [done|]. destruct (negb _); [done|].
  destruct (String.eqb_spec v "*") as [|H1]; [eauto|].
  destruct (String.eqb_spec v "self") as [->|H2]; [destruct source; [by vm_compute|eauto]|].
  destruct (String.eqb_spec v "peer:*") as [|H3]; [eauto|].
  destruct (String.eqb_spec v "routes:*") as [|H4]; [eauto|].
  destruct (String.eqb_spec v "internet") as [->|H5]; [destruct source; [by vm_compute|eauto]|].
  destruct (Cut v ":"%char) as [[kind peer] ok].
  destruct (ok && String.eqb kind "peer") eqn:Hk; [eauto|].
  destruct (ok && String.eqb kind "routes") eqn:Hr; [eauto|].
  destruct (ParseAddr v) as [a|]; [eauto|]. destruct (ParsePrefix v) as [p|]; [eauto|].
  destruct (negb _); [done|]. simpl. destruct ok; [|done]. simpl in Hk, Hr. by rewrite Hk, Hr.
Qed.
(** Everything in a normalized filter parses. *)
Record grant_parses (g : Grant) : Prop := {
  gp_src v : v ∈ g_Src g → ∃ sel, ParseSourceSelector v = Ok sel;
  gp_dst v : v ∈ g_Dst g → ∃ sel, ParseDestinationSelector v = Ok sel;
  gp_ip v : v ∈ g_IP g → ∃ p, ParsePermission v = Ok p }.
Lemma normalizeGrant_inv g peers g' : normalizeGrant g peers = Ok g' →
  (∀ v, v ∈ g_Src g → ∃ sel, ParseSourceSelector v = Ok sel) ∧
  (∀ v, v ∈ g_Dst g → ∃ sel, ParseDestinationSelector v = Ok sel) ∧
  (∀ v, v ∈ g_IP g' → ∃ p, ParsePermission v = Ok p).
Proof.
  unfold normalizeGrant.
  intros (_ & _ & (_ & _ & (_ & _ & (src & Hsrc & (dst & Hdst & (ip & Hip & [= <-])%bind_ok_inv)%bind_ok_inv)%bind_ok_inv
    )%bind_ok_inv)%bind_ok_inv)%bind_ok_inv. split_and!.
  - intros v Hv. destruct (imapM_elem_in _ _ _ v Hsrc Hv) as (i & y & _ & Hy).
    unfold normalize_source in Hy. apply bind_ok_inv in Hy as (w & Hw%wrap_ok_inv & _).
    by eapply normalizeSelector_parses.
  - intros v Hv. destruct (imapM_elem_in _ _ _ v Hdst Hv) as (i & y & _ & Hy%wrap_ok_inv).
    by eapply normalizeSelector_parses.
  - intros v Hv. simpl in Hv. unfold normalizePermissions in Hip.
    apply bind_ok_inv in Hip as (l & Hl & [= <-]).
    apply elem_of_CompactFunc in Hv. unfold SortStrings in Hv. autorewrite with tailmix in Hv.
    apply list_elem_of_join in Hv as (ps & Hv & Hps).
    destruct (imapM_elem_out _ _ _ ps Hl Hps) as (i & raw & _ & Hraw%wrap_ok_inv).
    destruct (normalizePermission_inv raw ps v Hraw Hv) as (p & Hp & ->). exists p. by apply ParsePermission_canonical.
Qed.
Lemma filter_parses f peers : NormalizePacketFilter f peers = Ok f → ∀ g, g ∈ Grants f → grant_parses g.
Proof.
  unfold NormalizePacketFilter. intros (gs & Hgs & [= He])%bind_ok_inv g Hg.
  destruct (imapM_elem_in _ _ _ g Hgs Hg) as (i & g' & _ & Hg'%wrap_ok_inv).
  destruct (normalizeGrant_inv _ _ _ Hg') as (Hs & Hd & _).
  assert (g ∈ gs) as Hin.
  { rewrite <-He in Hg. unfold canonicalPacketFilter in Hg. simpl in Hg.
    apply elem_of_CompactFunc in Hg. by apply elem_of_go_sort in Hg. }
  destruct (imapM_elem_out _ _ _ g Hgs Hin) as (j & g0 & _ & Hg0%wrap_ok_inv).
  destruct (normalizeGrant_inv _ _ _ Hg0) as (_ & _ & Hip). by split.
Qed.

Section compile_facts.
Context {B S : Type} `{HL : IPSetLaws B S}.
Context (cfg : Config) (exitIP : Addr) (Hcfg : config_ok cfg) (Hwf : values_wf cfg).
Notation declared := (declared_owners cfg exitIP).

Lemma hostPrefix_Contains x a : addr.wf x = true → addr.IsValid x = true →
  prefix.Contains (hostPrefix x) a = true ↔ a = addr.withoutZone x.
Proof.
  intros Hw Hv. destruct (hostPrefix_masked x Hw Hv) as (Hm & Hpv & Hb & Hl).
  rewrite Contains_masked by done. rewrite Hpv. unfold base, psize. rewrite Hb, Hl, Z.sub_diag.
  assert (p_addr (hostPrefix x) = addr.withoutZone x) as -> by done.
  split.
  - intros (_ & Hz & Hbl & Hval). destruct a as [|v|v z], x as [|u|u y]; simpl in *; try done; f_equal; try lia.
    destruct (String.eqb_spec z ""); [done|by simpl in Hz].
  - intros ->. split_and!; [done|by destruct x|by destruct x|lia..].
Qed.

Lemma selfSet_ok : ∃ local, selfSet (B:=B) (S:=S) cfg = Some local ∧
  ∀ a, set_Contains local a = true ↔ local_address cfg a.
Proof.
  assert (Hloop : ∀ l (b : B) (P : Addr → Prop), Forall (λ x, addr.wf x = true ∧ addr.IsValid x = true) l → builds b P →
    builds (foldl (λ b a, AddPrefix (hostPrefix a) b) b l) (λ a, P a ∨ ∃ x, x ∈ l ∧ a = addr.withoutZone x)).
  { induction l as [|x l IH]; intros b P Hl Hb; simpl.
    - eapply builds_ext, Hb. intros a. set_solver.
    - inversion_clear Hl as [|? ? [Hw Hv] Hrest]. destruct (hostPrefix_masked x Hw Hv) as (Hm & Hpv & _).
      eapply builds_ext; [|apply IH; [done|by apply builds_AddPrefix]].
      intros a. simpl. rewrite hostPrefix_Contains by done. set_solver. }
  assert (Hall : Forall (λ x, addr.wf x = true ∧ addr.IsValid x = true) (c_Addresses cfg)).
  { apply Forall_forall. intros x Hx. split; [by apply (proj1 (Forall_forall _ _) (wf_own cfg Hwf))|].
    destruct (proj1 (Forall_forall _ _) (ok_addresses cfg Hcfg) x Hx) as [[H4|H6] _]; by destruct x. }
  destruct (builds_IPSet _ _ (Hloop _ _ _ Hall builds_new)) as (s & He & Hs).
  exists s. unfold selfSet. rewrite He. split; [done|]. intros a. rewrite Hs. unfold local_address. intuition.
Qed.

Context (owned : ownership S) (Howned : ownership_ok cfg exitIP owned).
Context (local : S) (Hlocal : ∀ a, set_Contains local a = true ↔ local_address cfg a).

Lemma builds_or b (P Q : Addr → Prop) s : builds b P → (∀ a, set_Contains s a = true ↔ Q a) →
  builds (AddSet (Some s) b) (λ a, P a ∨ Q a).
Proof.
  intros Hb Hs. eapply builds_ext; [|by apply builds_AddSet, Hb]. intros a. simpl. rewrite <-Hs.
  split; intros [?|H']; auto; [by destruct H' as (? & [= <-] & ?); right|right; eauto].
Qed.
Lemma builds_or_opt b (P Q : Addr → Prop) (s : option S) : builds b P →
  (∀ a, (∃ s', s = Some s' ∧ set_Contains s' a = true) ↔ Q a) → builds (AddSet s b) (λ a, P a ∨ Q a).
Proof. intros Hb Hs. eapply builds_ext; [|by apply builds_AddSet, Hb]. intros a. simpl. by rewrite <-Hs. Qed.

Lemma add_source_ok g i (b : B) v sel P : ParseSourceSelector v = Ok sel → builds b P →
  ∃ b', add_source owned g i b v = Ok b' ∧ builds b' (λ a, P a ∨ source_covers declared sel a).
Proof.
  intros Hsel Hb. pose proof (parseSelector_kind _ _ _ Hsel) as Hk. pose proof (parseSelector_prefix _ _ _ Hsel) as Hp.
  pose proof Howned as [Hall Hap Har Hpe Hro _].
  unfold add_source, source_covers, has_lpm. rewrite Hsel. simpl. destruct (sel_Kind sel); try done.
  - eexists. split; [done|]. apply builds_or; [done|]. intros a. rewrite Hall. by setoid_rewrite (right_id True and).
  - eexists. split; [done|]. by apply builds_or.
  - eexists. split; [done|]. apply builds_or_opt; [done|]. intros a. rewrite Hpe. set_solver.
  - eexists. split; [done|]. by apply builds_or.
  - eexists. split; [done|]. apply builds_or_opt; [done|]. intros a. rewrite Hro. set_solver.
  - destruct (Hp eq_refl) as [Hm Hv]. pose proof (builds_AddPrefix _ _ (sel_Prefix sel) Hm Hv (builds_new (B:=B) (S:=S))) as He.
    destruct (builds_IPSet _ _ He) as (s0 & -> & _). simpl.
    destruct (builds_IPSet _ _ (builds_Intersect _ _ (o_all owned) He)) as (s & -> & Hs). simpl.
    eexists. split; [done|]. apply builds_or; [done|]. intros a. rewrite Hs, Hall. set_solver.
Qed.
Lemma resolveSources_ok g values : (∀ v, v ∈ values → ∃ sel, ParseSourceSelector v = Ok sel) →
  ∃ s, resolveSources (B:=B) owned g values = Ok s ∧
    ∀ a, set_Contains s a = true ↔ ∃ v sel, v ∈ values ∧ ParseSourceSelector v = Ok sel ∧ source_covers declared sel a.
Proof.
  intros Hv. unfold resolveSources.
  destruct (ifoldM_total (λ pre b, builds b (λ a, ∃ v sel, v ∈ pre ∧ ParseSourceSelector v = Ok sel ∧
    source_covers declared sel a)) (λ i b v, add_source owned g i b v) values new_builder) as (b & -> & Hb).
  - eapply builds_ext, builds_new. intros a. split; [done|]. by intros (? & ? & ?%elem_of_nil & _).
  - intros i pre v b Hin Hb. destruct (Hv v Hin) as (sel & Hsel).
    destruct (add_source_ok g i b v sel _ Hsel Hb) as (b' & He & Hb'). exists b'. split; [done|].
    eapply builds_ext, Hb'. intros a. simpl. setoid_rewrite elem_of_snoc. split.
    + intros [(w & sw & ? & ? & ?)|?]; [exists w, sw; auto|exists v, sel; auto].
    + intros (w & sw & [?| ->] & Hw & ?); [left; by exists w, sw|right]. congruence.
  - simpl. destruct (builds_IPSet _ _ Hb) as (s & -> & Hs). by exists s.
Qed.

Lemma add_destination_ok g i (b : B) v sel P : ParseDestinationSelector v = Ok sel → builds b P →
  ∃ b', add_destination local g i b v = Ok b' ∧ builds b' (λ a, P a ∨ destination_covers cfg sel a).
Proof.
  intros Hsel Hb. pose proof (parseSelector_prefix _ _ _ Hsel) as Hp.
  assert (Hno : builds b (λ a, P a ∨ False)) by (eapply builds_ext, Hb; tauto).
  unfold add_destination, destination_covers. rewrite Hsel. simpl. destruct (sel_Kind sel).
  all: try (eexists; split; [done|exact Hno]).
  all: try (eexists; split; [done|by apply builds_or]).
  destruct (Hp eq_refl) as [Hm Hv]. pose proof (builds_AddPrefix _ _ (sel_Prefix sel) Hm Hv (builds_new (B:=B) (S:=S))) as He.
  destruct (builds_IPSet _ _ (builds_Intersect _ _ local He)) as (s & -> & Hs). simpl.
  eexists. split; [done|]. apply builds_or; [done|]. intros a. rewrite Hs, Hlocal. set_solver.
Qed.
Lemma resolveDestinations_ok g values : (∀ v, v ∈ values → ∃ sel, ParseDestinationSelector v = Ok sel) →
  ∃ s, resolveDestinations (B:=B) local g values = Ok s ∧
    ∀ a, set_Contains s a = true ↔ ∃ v sel, v ∈ values ∧ ParseDestinationSelector v = Ok sel ∧ destination_covers cfg sel a.
Proof.
  intros Hv. unfold resolveDestinations.
  destruct (ifoldM_total (λ pre b, builds b (λ a, ∃ v sel, v ∈ pre ∧ ParseDestinationSelector v = Ok sel ∧
    destination_covers cfg sel a)) (λ i b v, add_destination local g i b v) values new_builder) as (b & -> & Hb).
  - eapply builds_ext, builds_new. intros a. split; [done|]. by intros (? & ? & ?%elem_of_nil & _).
  - intros i pre v b Hin Hb. destruct (Hv v Hin) as (sel & Hsel).
    destruct (add_destination_ok g i b v sel _ Hsel Hb) as (b' & He & Hb'). exists b'. split; [done|].
    eapply builds_ext, Hb'. intros a. simpl. setoid_rewrite elem_of_snoc. split.
    + intros [(w & sw & ? & ? & ?)|?]; [exists w, sw; auto|exists v, sel; auto].
    + intros (w & sw & [?| ->] & Hw & ?); [left; by exists w, sw|right]. congruence.
  - simpl. destruct (builds_IPSet _ _ Hb) as (s & -> & Hs). by exists s.
Qed.

Lemma permissionProtocols_elem p proto : proto ∈ permissionProtocols p ↔
  if AnyProtocol p then 1 <= proto <= 254 ∧ proto ≠ TSMP else proto = Protocol p.
Proof.
  unfold permissionProtocols. destruct (AnyProtocol p); [|apply list_elem_of_singleton].
  rewrite list_elem_of_In, filter_In, <-list_elem_of_In, negb_true_iff, Z.eqb_neq.
  split.
  - intros [(n & -> & Hn%elem_of_seq)%list_elem_of_fmap Hne]. split; [lia|done].
  - intros [Hr Hne]. split; [|done]. apply list_elem_of_fmap. exists (Z.to_nat proto).
    split; [lia|]. apply elem_of_seq. lia.
Qed.
Lemma permission_match_covers (s d : S) p src dst proto port : 0 <= port <= 65535 →
  match_covers (permission_match s d p) src dst proto port ↔
  set_Contains s src = true ∧ set_Contains d dst = true ∧ permission_covers p proto port.
Proof.
  intros Hport. unfold match_covers, permission_match, permission_covers.
  rewrite (set_Prefixes s), (set_Prefixes d), <-permissionProtocols_elem.
  destruct (HasPorts p); simpl; (split;
    [intros (Hp & Hs & (r & (q & -> & Hq)%list_elem_of_fmap & Hc & Hr)); simpl in *; split_and!; eauto; done
    |intros (Hs & (q & Hq & Hc) & Hp & Hr); split_and!; [done|done|];
     eexists; split; [apply list_elem_of_fmap; exists q; split; [reflexivity|done]|]; simpl; auto]).
Qed.

(** What a list of matches admits, against what a list of grants does. *)
Definition matches_for (ms : list Match) (Q : Addr → Addr → Z → Z → Prop) : Prop :=
  ∀ src dst proto port, 0 <= port <= 65535 →
    (∃ m, m ∈ ms ∧ match_covers m src dst proto port) ↔ Q src dst proto port.

Lemma matches_for_snoc ms Q m R : matches_for ms Q →
  (∀ src dst proto port, 0 <= port <= 65535 → match_covers m src dst proto port ↔ R src dst proto port) →
  matches_for (ms ++ [m]) (λ src dst proto port, Q src dst proto port ∨ R src dst proto port).
Proof.
  intros Hms Hm src dst proto port Hport. rewrite <-(Hms src dst proto port Hport), <-(Hm src dst proto port Hport).
  setoid_rewrite elem_of_snoc. split.
  - intros (x & [?| ->] & ?); [left; by exists x|by right].
  - intros [(x & ? & ?)|?]; eauto.
Qed.
Lemma matches_for_ext ms Q R : (∀ src dst proto port, Q src dst proto port ↔ R src dst proto port) →
  matches_for ms Q → matches_for ms R.
Proof. intros He Hms src dst proto port Hport. by rewrite <-He, (Hms src dst proto port Hport). Qed.

Lemma grant_matches_ok i ms g Q : grant_parses g → matches_for ms Q →
  ∃ ms', grant_matches (B:=B) owned local i ms g = Ok ms' ∧
    matches_for ms' (λ src dst proto port, Q src dst proto port ∨ grant_covers cfg exitIP g src dst proto port).
Proof.
  intros [Hsrc Hdst Hip] Hms. unfold grant_matches.
  destruct (resolveSources_ok i (g_Src g) Hsrc) as (s & -> & Hs). cbn [mbind result_bind].
  destruct (resolveDestinations_ok i (g_Dst g) Hdst) as (d & -> & Hd). cbn [mbind result_bind].
  destruct (Nat.eqb_spec (length (Prefixes d)) 0) as [Hlen|_].
  { exists ms. split; [done|]. eapply matches_for_ext, Hms. intros src dst proto port.
    split; [by left|]. intros [?|(_ & Hdc & _)]; [done|]. apply Hd, set_Prefixes in Hdc as (p & Hp & _).
    apply nil_length_inv in Hlen. rewrite Hlen in Hp. by apply elem_of_nil in Hp. }
  destruct (foldM_total (λ pre ms, matches_for ms (λ src dst proto port, Q src dst proto port ∨
      (set_Contains s src = true ∧ set_Contains d dst = true ∧
       ∃ v p, v ∈ pre ∧ ParsePermission v = Ok p ∧ permission_covers p proto port)))
    (λ ms text, p ← wrap (EPermission i) (ParsePermission text); Ok (ms ++ [permission_match s d p])) (g_IP g) ms)
    as (ms' & -> & Hms').
  - eapply matches_for_ext, Hms. intros. split; [by left|].
    intros [?|(_ & _ & ? & ? & ?%elem_of_nil & _)]; done.
  - intros pre v ms0 Hin Hms0. destruct (Hip v Hin) as (p & Hp). rewrite Hp. cbn. eexists. split; [done|].
    eapply matches_for_ext; [|apply (matches_for_snoc _ _ _ (λ src dst proto port, set_Contains s src = true ∧
      set_Contains d dst = true ∧ permission_covers p proto port) Hms0); intros; by apply permission_match_covers].
    intros src dst proto port. simpl. setoid_rewrite elem_of_snoc. split.
    + intros [[?|(? & ? & w & pw & ? & ? & ?)]|(? & ? & ?)]; [by left|right..]; (split_and!; [done|done|]).
      * exists w, pw. auto.
      * exists v, p. auto.
    + intros [?|(? & ? & w & pw & [?| ->] & ? & ?)]; [by left; left|left; right|right].
      * split_and!; [done|done|]. by exists w, pw.
      * split_and!; [done|done|congruence].
  - exists ms'. split; [done|]. eapply matches_for_ext, Hms'. intros src dst proto port. simpl.
    unfold grant_covers. by rewrite Hs, Hd.
Qed.

Lemma compileMatches_ok : ∃ ms, compileMatches (B:=B) cfg owned local = Ok ms ∧
  matches_for ms (λ src dst proto port, ∃ g, g ∈ Grants (c_PacketFilter cfg) ∧
    grant_covers cfg exitIP g src dst proto port).
Proof.
  pose proof (filter_parses _ _ (ok_filter cfg Hcfg)) as Hparse. unfold compileMatches.
  apply (ifoldM_total (λ pre ms, matches_for ms (λ src dst proto port, ∃ g, g ∈ pre ∧
    grant_covers cfg exitIP g src dst proto port))).
  - intros src dst proto port _. split; [by intros (? & ?%elem_of_nil & _)|by intros (? & ?%elem_of_nil & _)].
  - intros i pre g ms Hin Hms. destruct (grant_matches_ok i ms g _ (Hparse g Hin) Hms) as (ms' & He & Hms').
    exists ms'. split; [done|]. eapply matches_for_ext, Hms'. intros. simpl.
    setoid_rewrite elem_of_snoc. split.
    + intros [(x & ? & ?)|?]; eauto.
    + intros (x & [?| ->] & ?); eauto.
Qed.
End compile_facts.

(** *** Destination states *)

(** The state of a selector says how much of it is delivered locally. *)
Definition resolution_ok (cfg : Config) (r : DestinationResolution) : Prop :=
  ∃ sel, ParseDestinationSelector (dr_Selector r) = Ok sel ∧
    (dr_Reason r = if String.eqb (dr_State r) "active" then "" else forwardingUnavailable) ∧
    match sel_Kind sel with
    | SelectorSelf => dr_State r = "active"
    | SelectorAll => dr_State r = "partial"
    | SelectorPrefix =>
      let p := sel_Prefix sel in
      (dr_State r = "active" ∧ ∀ a, prefix.Contains p a = true → local_address cfg a) ∨
      (dr_State r = "partial" ∧ (∃ a, prefix.Contains p a = true ∧ local_address cfg a) ∧
                                ∃ a, prefix.Contains p a = true ∧ ¬ local_address cfg a) ∨
      (dr_State r = "inactive" ∧ ∀ a, prefix.Contains p a = true → ¬ local_address cfg a)
    | _ => dr_State r = "inactive"
    end.
Definition resolution_key (r : DestinationResolution) : nat * string := (dr_GrantIndex r, dr_Selector r).
Definition resolution_keys (grants : list Grant) : list (nat * string) :=
  mjoin (imap (λ i g, (λ v, (i, v)) <$> g_Dst g) grants).

Section resolution_facts.
Context {B S : Type} `{HL : IPSetLaws B S}.
Context (cfg : Config) (local : S) (Hlocal : ∀ a, set_Contains local a = true ↔ local_address cfg a).

Lemma Prefixes_empty (s : S) :
  (length (Prefixes s) = 0%nat ∧ ∀ a, set_Contains s a = false) ∨
  (length (Prefixes s) ≠ 0%nat ∧ ∃ a, set_Contains s a = true).
Proof.
  destruct (Prefixes s) as [|p l] eqn:He; [left|right]; (split; [done|]).
  - intros a. apply not_true_is_false. intros (p & Hp & _)%set_Prefixes. rewrite He in Hp. by apply elem_of_nil in Hp.
  - exists (p_addr p). apply set_Prefixes. exists p. split; [rewrite He; by left|].
    apply (Prefixes_nonempty s). rewrite He. by left.
Qed.

Lemma destination_resolution_ok i out v : (∃ sel, ParseDestinationSelector v = Ok sel) →
  ∃ r, destination_resolution (B:=B) local i out v = Ok (out ++ [r]) ∧ resolution_key r = (i, v) ∧ resolution_ok cfg r.
Proof.
  intros (sel & Hsel). unfold destination_resolution, resolution_ok. rewrite Hsel. cbn [wrap mbind result_bind].
  pose proof (parseSelector_prefix _ _ _ Hsel) as Hp.
  destruct (sel_Kind sel) eqn:Hk; cbn [mbind result_bind];
    try (eexists; (split; [reflexivity|]); (split; [reflexivity|]); exists sel; cbn [dr_Selector]; rewrite Hsel, Hk;
         split_and!; reflexivity).
  destruct (Hp eq_refl) as [Hm Hv]. unfold prefixDestinationState.
  pose proof (builds_AddPrefix _ _ (sel_Prefix sel) Hm Hv (builds_new (B:=B) (S:=S))) as Hb.
  destruct (builds_IPSet _ _ (builds_Intersect _ _ local Hb)) as (sa & -> & Hsa).
  destruct (builds_IPSet _ _ (builds_RemoveSet _ _ local Hb)) as (sr & -> & Hsr).
  cbn [set_or mbind result_bind].
  destruct (Prefixes_empty sa) as [[Ha Hno]|[Ha (x & Hx)]];
    [rewrite (proj2 (Nat.eqb_eq _ _) Ha)|rewrite (proj2 (Nat.eqb_neq _ _) Ha)]; cbn [mbind result_bind].
  { eexists. split; [done|]. split; [done|]. exists sel. cbn [dr_Selector]. rewrite Hsel, Hk. split_and!; [done|done|]. right; right.
    split; [done|]. intros a Hc Hl. specialize (Hno a). apply Bool.not_true_iff_false in Hno. apply Hno, Hsa.
    by rewrite Hlocal; auto. }
  apply Hsa in Hx as [[[]|Hx] Hxl]. rewrite Hlocal in Hxl.
  destruct (Prefixes_empty sr) as [[Hr Hno]|[Hr (y & Hy)]];
    [rewrite (proj2 (Nat.eqb_eq _ _) Hr)|rewrite (proj2 (Nat.eqb_neq _ _) Hr)]; cbn [mbind result_bind];
    (eexists; split; [done|]; split; [done|]; exists sel; cbn [dr_Selector]; rewrite Hsel, Hk; split_and!; [done|done|]).
  - left. split; [done|]. intros a Hc. specialize (Hno a). apply Bool.not_true_iff_false in Hno.
    destruct (set_Contains local a) eqn:Hl; [by apply Hlocal|]. destruct Hno. apply Hsr. auto.
  - right; left. apply Hsr in Hy as [[[]|Hy] Hyl]. split_and!; [done|by exists x|]. exists y. split; [done|].
    rewrite <-Hlocal. congruence.
Qed.
Lemma grant_resolution_ok i out g : grant_parses g →
  ∃ rs, foldM (destination_resolution (B:=B) local i) (g_Dst g) out = Ok (out ++ rs) ∧
    resolution_key <$> rs = (λ v, (i, v)) <$> g_Dst g ∧ Forall (resolution_ok cfg) rs.
Proof.
  intros [_ Hd _].
  destruct (foldM_total (λ pre o, ∃ rs, o = out ++ rs ∧ resolution_key <$> rs = (λ v, (i, v)) <$> pre ∧
    Forall (resolution_ok cfg) rs) (destination_resolution (B:=B) local i) (g_Dst g) out) as (o & -> & rs & -> & ?).
  - exists []. by rewrite app_nil_r.
  - intros pre v o Hin (rs & -> & Hk & Hall). destruct (destination_resolution_ok i (out ++ rs) v (Hd v Hin)) as (r & -> & Hr & Hok).
    eexists. split; [done|]. exists (rs ++ [r]). rewrite !fmap_app, Hk. simpl. rewrite Hr, app_assoc.
    split_and!; [done|done|]. apply Forall_app. by repeat constructor.
  - by exists rs.
Qed.
End resolution_facts.

(** Longest-prefix ownership.  For every valid configuration and selected
    exit address the address sets are built without an error, and they hold what
    the declared prefixes say by longest match: an address is owned when some
    declared prefix contains it, it is a peer's own when its longest prefix is
    an address of that peer, and it is routed to a peer when no peer has it as
    its address and its longest prefix is a route of that peer.  The owner is
    unique. *)
Theorem ownership_lpm {B S : Type} `{HL : IPSetLaws B S} cfg exitIP : config_ok cfg → values_wf cfg →
  (∃ o, buildOwnership (B:=B) (S:=S) cfg exitIP = Some o ∧ ownership_ok cfg exitIP o) ∧
  (∀ a d1 d2, lpm (declared_owners cfg exitIP) a d1 → lpm (declared_owners cfg exitIP) a d2 → po_peer d1 = po_peer d2).
Proof.
  intros Hcfg Hwf. split; [by apply buildOwnership_ok|]. intros a d1 d2. by apply lpm_owner.
Qed.

(** C35. The compiled filter enforces the grants.  [Compile] succeeds on every
    valid configuration.  In the ordinary mode a match of its result lets a
    packet in exactly when some grant covers the packet's source (by the
    longest-prefix ownership above), its destination (an address of the profile
    that the selector names) and its protocol and port; in the restrictive mode
    nothing is let in. *)
Theorem compile_covers {B S : Type} `{HL : IPSetLaws B S} cfg exitIP restrictive : config_ok cfg → values_wf cfg →
  ∃ ms local, Compile (B:=B) (S:=S) cfg exitIP restrictive = Ok (ms, local) ∧
    (∀ a, set_Contains local a = true ↔ local_address cfg a) ∧
    ∀ src dst proto port, 0 <= port <= 65535 →
      (∃ m, m ∈ ms ∧ match_covers m src dst proto port) ↔
      restrictive = false ∧ ∃ g, g ∈ Grants (c_PacketFilter cfg) ∧ grant_covers cfg exitIP g src dst proto port.
Proof.
  intros Hcfg Hwf. destruct (buildOwnership_ok (B:=B) (S:=S) cfg exitIP Hcfg Hwf) as (o & Ho & Hok).
  destruct (selfSet_ok (B:=B) (S:=S) cfg Hcfg Hwf) as (local & Hl & Hlocal).
  unfold Compile. rewrite Ho, Hl. cbn [set_or mbind result_bind]. destruct restrictive.
  - exists [], local. split_and!; [done|done|]. intros src dst proto port _.
    split; [by intros (? & ?%elem_of_nil & _)|by intros [? _]].
  - destruct (compileMatches_ok (B:=B) cfg exitIP Hcfg Hwf o Hok local Hlocal) as (ms & He & Hms). rewrite He.
    exists ms, local. split_and!; [done|done|]. intros src dst proto port Hport. rewrite (Hms src dst proto port Hport).
    split; [by split|by intros [_ ?]].
Qed.

(** Reported destination states.  [DestinationResolutions] succeeds on every
    valid configuration and reports one entry per destination selector, in the
    order of the grants; a prefix is active exactly when every address of it is
    delivered locally, inactive exactly when none is, partial otherwise, and a
    reason is given exactly when the state is not active. *)
Theorem destination_states {B S : Type} `{HL : IPSetLaws B S} cfg : config_ok cfg → values_wf cfg →
  ∃ out, DestinationResolutions (B:=B) (S:=S) cfg = Ok out ∧
    resolution_key <$> out = resolution_keys (Grants (c_PacketFilter cfg)) ∧ Forall (resolution_ok cfg) out.
Proof.
  intros Hcfg Hwf. destruct (selfSet_ok (B:=B) (S:=S) cfg Hcfg Hwf) as (local & Hl & Hlocal).
  pose proof (filter_parses _ _ (ok_filter cfg Hcfg)) as Hparse.
  unfold DestinationResolutions. rewrite Hl. cbn [set_or mbind result_bind]. unfold ifoldM, resolution_keys.
  assert (Hgen : ∀ l k out, (∀ g, g ∈ l → grant_parses g) →
    ∃ rs, ifoldM_from k (λ i out g, foldM (destination_resolution (B:=B) local i) (g_Dst g) out) l out = Ok (out ++ rs) ∧
      resolution_key <$> rs = mjoin (imap (λ i g, (λ v, ((k + i)%nat, v)) <$> g_Dst g) l) ∧ Forall (resolution_ok cfg) rs).
  { induction l as [|g l IH]; intros k out Hg; simpl.
    - exists []. by rewrite app_nil_r.
    - destruct (grant_resolution_ok (B:=B) cfg local Hlocal k out g (Hg g ltac:(by left))) as (rs & -> & Hk & Hok).
      cbn [mbind result_bind].
      destruct (IH (Datatypes.S k) (out ++ rs)) as (rs' & -> & Hk' & Hok'); [intros g' ?; apply Hg; by right|].
      exists (rs ++ rs'). rewrite fmap_app, Hk, Hk', app_assoc, Nat.add_0_r. split_and!; [done| |by apply Forall_app].
      f_equal. f_equal. apply imap_ext. intros i x _. simpl. by rewrite Nat.add_succ_r. }
  destruct (Hgen (Grants (c_PacketFilter cfg)) 0%nat [] Hparse) as (rs & -> & Hk & Hok). by exists rs.
Qed.

(** *** The filtered TUN *)

Section device_facts.
Context {Flt St Pkt : Type}.

(** Each packet judged in turn: the accepted ones, in order. *)
Fixpoint judge {A} (run : Flt → St → Pkt → bool * St) (pkt_of : A → Pkt) (policies : list Flt) (st : St) (l : list A) :
    St * list A :=
  match l, policies with
  | x :: l, policy :: policies =>
    let '(ok, st) := run policy st (pkt_of x) in
    let '(st, out) := judge run pkt_of policies st l in
    (st, if ok then x :: out else out)
  | _, _ => (st, [])
  end.

Lemma compact_judge {A} (run : Flt → St → Pkt → bool * St) (pkt_of : A → Pkt) policies st l :
  length policies = length l →
  ∃ arr n, compact run pkt_of policies st l = ((judge run pkt_of policies st l).1, arr, n) ∧
    take n arr = (judge run pkt_of policies st l).2 ∧ n = length (judge run pkt_of policies st l).2.
Proof.
  intros Hlen. unfold compact.
  assert (Hgen : ∀ l ps st arr n kept pre pps, length ps = length l → length pps = length pre →
    length arr = length (pre ++ l) → drop (length pre) arr = l → (n ≤ length pre)%nat → take n arr = kept → n = length kept →
    ∃ arr' n', foldl (compact_step run pkt_of (pps ++ ps)) (st, arr, n) (seq (length pre) (length l)) =
      ((judge run pkt_of ps st l).1, arr', n') ∧ take n' arr' = kept ++ (judge run pkt_of ps st l).2 ∧
      n' = length (kept ++ (judge run pkt_of ps st l).2)).
  { clear. induction l as [|x l IH]; intros ps st arr n kept pre pps Hps Hpps Harr Hdrop Hn Hk Hnk.
    { destruct ps; simpl; rewrite app_nil_r; eauto. }
    destruct ps as [|p ps]; [done|]. cbn [length seq foldl judge]. unfold compact_step at 2.
    assert (arr !! length pre = Some x) as ->.
    { rewrite <-(Nat.add_0_r (length pre)), <-lookup_drop, Hdrop. done. }
    assert ((pps ++ p :: ps) !! length pre = Some p) as -> by (rewrite <-Hpps; by apply list_lookup_middle).
    destruct (run p st (pkt_of x)) as [ok st1].
    destruct (judge run pkt_of ps st1 l) as [st2 out] eqn:Hj.
    assert (Hrest : drop (Datatypes.S (length pre)) arr = l).
    { rewrite <-Nat.add_1_r, <-drop_drop, Hdrop. done. }
    specialize (IH ps st1). rewrite Hj in IH. cbn [fst snd] in IH |- *.
    replace (pps ++ p :: ps) with ((pps ++ [p]) ++ ps) by by rewrite <-app_assoc.
    replace (Datatypes.S (length pre)) with (length (pre ++ [x])) in * by (rewrite length_app; simpl; lia).
    assert (Hlen1 : length (pps ++ [p]) = length (pre ++ [x])) by (rewrite !length_app; simpl; lia).
    rewrite length_app in *. simpl in *. destruct ok.
    - destruct (IH (<[n:=x]> arr) (Datatypes.S n) (kept ++ [x]) (pre ++ [x]) (pps ++ [p])) as (arr' & n' & He & Ht & Hl).
      + lia.
      + rewrite !length_app. simpl. lia.
      + rewrite length_insert, !length_app. simpl. lia.
      + rewrite length_app. simpl. rewrite drop_insert_lt by lia. done.
      + rewrite length_app. simpl. lia.
      + rewrite (take_S_r _ _ x) by (apply list_lookup_insert_eq; lia). by rewrite take_insert_ge, Hk by lia.
      + rewrite length_app. simpl. lia.
      + exists arr', n'. rewrite length_app in He. rewrite <-app_assoc in Ht, Hl. by split_and!.
    - destruct (IH arr n kept (pre ++ [x]) (pps ++ [p])) as (arr' & n' & He & Ht & Hl).
      + lia.
      + rewrite !length_app. simpl. lia.
      + rewrite !length_app. simpl. lia.
      + by rewrite length_app.
      + rewrite length_app. simpl. lia.
      + done.
      + done.
      + exists arr', n'. by rewrite length_app in He. }
  destruct (Hgen l policies st l 0%nat [] [] []) as (arr & n & He & Ht & Hn); [done..|lia|done|done|].
  simpl in *. by exists arr, n.
Qed.
End device_facts.

(** C36. The filtered TUN.  A write hands the underlying TUN exactly the packets
    the policies accept, in order and once, does not touch it when there is
    none, and reports the whole batch as written unless the TUN fails.  A read
    returns the accepted packets of the first batch that has one, or that ended
    with an error, with the error; every packet is judged once, by the policy
    installed then, with the flow state left by those before it. *)
Theorem Device_filters {Flt St Pkt A : Type} (RunOut RunIn : Flt → St → Pkt → bool * St) (pkt_of : A → Pkt)
    policies (st : St) bufs write_ok rpolicies packets err batches :
  length policies = length bufs → length rpolicies = length packets →
  (let '(st', out) := judge RunIn id policies st bufs in
   Write RunIn policies st bufs write_ok =
     (st', if (0 <? length out)%nat then Some out else None,
      if (length out =? 0)%nat || write_ok then Ok (length bufs) else Err tt)) ∧
  (let '(st', out) := judge RunOut pkt_of rpolicies st packets in
   Read RunOut pkt_of st ((packets, rpolicies, err) :: batches) =
     if (0 <? length out)%nat || err then Some (st', out, err) else Read RunOut pkt_of st' batches).
Proof.
  intros Hl Hr. split.
  - destruct (compact_judge RunIn id policies st bufs Hl) as (arr & n & He & Ht & ->).
    destruct (judge RunIn id policies st bufs) as [st' out]. simpl in *. unfold Write. rewrite He, Ht.
    by destruct out.
  - destruct (compact_judge RunOut pkt_of rpolicies st packets Hr) as (arr & n & He & Ht & ->).
    destruct (judge RunOut pkt_of rpolicies st packets) as [st' out]. simpl in *. by rewrite He, Ht.
Qed.

(** ** A concrete profile

    The one of the code's tests: beta's route is inside alpha's, and beta is the
    selected exit. *)
Definition test_raw_config : Config :=
  MkConfig 1 "home" "corp.example." [Addr4 167772161] 0
    (MkFilter [MkGrant ["routes:alpha"] ["self"; "10.0.0.0/30"] ["udp:53"];
               MkGrant ["peer:beta"; "203.0.113.7"] ["10.0.0.1"; "internet"] ["tcp:22"]])
    [MkPeer "alpha" (2 :: repeat 0 31) false "" 0 [Addr4 167772162] [MkPrefix (Addr4 3232235520) 16] false;
     MkPeer "beta" (3 :: repeat 0 31) false "" 0 [Addr4 167772163] [MkPrefix (Addr4 3232235776) 24] true].
Definition test_filter_config : Config :=
  match NormalizeConfig test_raw_config with Ok c => c | Err _ => test_raw_config end.
Definition test_exit : Addr := Addr4 167772163.
Lemma test_filter_config_ok : config_ok test_filter_config ∧ values_wf test_filter_config.
Proof.
  split; [apply Validate_config_ok; vm_compute; reflexivity|].
  split; repeat constructor.
Qed.

Definition covers_b (ms : list Match) (src dst : Addr) (proto port : Z) : bool :=
  existsb (λ m, existsb (Z.eqb proto) (m_IPProto m) && existsb (λ p, prefix.Contains p src) (m_Srcs m) &&
    existsb (λ r, prefix.Contains (np_Net r) dst && (np_First r <=? port) && (port <=? np_Last r)) (m_Dsts m)) ms.
Lemma covers_b_spec ms src dst proto port : covers_b ms src dst proto port = true →
  ∃ m, m ∈ ms ∧ match_covers m src dst proto port.
Proof.
  unfold covers_b, match_covers. rewrite existsb_exists. intros (m & Hm%list_elem_of_In & H). exists m. split; [done|].
  rewrite !andb_true_iff, !existsb_exists in H.
  destruct H as [[(x & Hx & ->%Z.eqb_eq) (p & Hp & Hc)] (r & Hr & Hd)]. rewrite <-!list_elem_of_In in *.
  rewrite !andb_true_iff, !Z.leb_le in Hd. split_and!; [done|by exists p|]. exists r. split; [done|]. tauto.
Qed.
(** The cases of [TestCompileEnforcesSelectorsAndLongestPrefixOwnership]. *)
Example test_compile :
  (match Compile (B:=tries) (S:=tries) test_filter_config test_exit false with
   | Ok (ms, _) =>
     [covers_b ms (Addr4 3232236033) (Addr4 167772161) 17 53;    (* an unshadowed route *)
      covers_b ms (Addr4 3232235796) (Addr4 167772161) 17 53;    (* a route shadowed by beta's *)
      covers_b ms (Addr4 167772162) (Addr4 167772161) 17 53;     (* alpha's own address *)
      covers_b ms (Addr4 167772163) (Addr4 167772161) 6 22;      (* a named peer *)
      covers_b ms (Addr4 3405803783) (Addr4 167772161) 6 22;     (* through the exit *)
      covers_b ms (Addr4 167772163) (Addr4 167772161) 6 23;      (* another port *)
      covers_b ms (Addr4 167772163) (Addr4 167772169) 6 22]      (* another destination *)
   | Err _ => []
   end) = [true; false; false; true; true; false; false].
Proof. vm_compute. reflexivity. Qed.

Lemma ownership_lpm_witness :
  ∃ o, buildOwnership (B:=tries) (S:=tries) test_filter_config test_exit = Some o ∧
    has_lpm (declared_owners test_filter_config test_exit) (Addr4 3405803783) (λ _, True) ∧
    ¬ ∃ d, lpm (declared_owners test_filter_config test_exit) (Addr4 3232235796) d ∧ po_peer d = "alpha".
Proof.
  destruct (ownership_lpm (B:=tries) (S:=tries) test_filter_config test_exit (proj1 test_filter_config_ok)
    (proj2 test_filter_config_ok)) as [(o & Ho & Hok) Huniq].
  exists o. split; [exact Ho|]. split.
  - destruct (proj1 (own_all _ _ o Hok (Addr4 3405803783))) as (d & Hd); [|exists d; exact (conj Hd I)].
    vm_compute in Ho. injection Ho as <-. vm_compute. reflexivity.
  - intros (d & Hd & Hn).
    assert (∃ e, lpm (declared_owners test_filter_config test_exit) (Addr4 3232235796) e ∧ po_peer e = "beta" ∧
      po_kind e = SelectorRoutes) as (e & He & Hn' & _).
    { apply (own_routes _ _ o Hok "beta" (Addr4 3232235796)).
      vm_compute in Ho. injection Ho as <-. eexists. split; [vm_compute; reflexivity|vm_compute; reflexivity]. }
    pose proof (Huniq _ _ _ Hd He) as Heq. rewrite Hn, Hn' in Heq. discriminate.
Defined.

Lemma compile_covers_witness :
  ∃ g, g ∈ Grants (c_PacketFilter test_filter_config) ∧
    grant_covers test_filter_config test_exit g (Addr4 3405803783) (Addr4 167772161) 6 22.
Proof.
  destruct (compile_covers (B:=tries) (S:=tries) test_filter_config test_exit false (proj1 test_filter_config_ok)
    (proj2 test_filter_config_ok)) as (ms & local & Hc & _ & Hms).
  apply (Hms (Addr4 3405803783) (Addr4 167772161) 6 22); [lia|].
  apply covers_b_spec. vm_compute in Hc. injection Hc as <- <-. vm_compute. reflexivity.
Defined.

Lemma destination_states_witness :
  ∃ out, DestinationResolutions (B:=tries) (S:=tries) test_filter_config = Ok out ∧
    ((λ r, (dr_Selector r, dr_State r)) <$> out) =
      [("10.0.0.1", "active"); ("internet", "inactive"); ("10.0.0.0/30", "partial"); ("self", "active")] ∧
    Forall (resolution_ok test_filter_config) out.
Proof.
  destruct (destination_states (B:=tries) (S:=tries) test_filter_config (proj1 test_filter_config_ok)
    (proj2 test_filter_config_ok)) as (out & Ho & _ & Hok).
  exists out. split; [exact Ho|]. split; [|exact Hok]. vm_compute in Ho. injection Ho as <-. reflexivity.
Defined.

(** A filter that admits replies to the ports it has seen leave. *)
Definition test_run_out (any : bool) (seen : list Z) (p : Z) : bool * list Z := (true, p :: seen).
Definition test_run_in (any : bool) (seen : list Z) (p : Z) : bool * list Z := (any || (p ∈? seen), seen).
Lemma Device_filters_witness :
  Write test_run_in [false; false; true] [53] [53; 80; 22] true = ([53], Some [53; 22], Ok 3%nat) ∧
  Read test_run_out id [] [([], [], false); ([53; 80], [true; true], false)] =
    Some ([80; 53], [53; 80], false).
Proof.
  split.
  - exact (proj1 (Device_filters (A:=Z) test_run_out test_run_in id [false; false; true] [53] [53; 80; 22] true
      [] [] false [] eq_refl eq_refl)).
  - exact (proj2 (Device_filters (A:=Z) test_run_out test_run_in id [] [] [] true
      [] [] false [([53; 80], [true; true], false)] eq_refl eq_refl)).
Defined.
