(* ===== verification/WireGuardUAPI.v ===== *)
(** * The configuration protocol of a WireGuard device

    The part of profile/wireguardengine.go that talks to the device: the full
    configuration and the difference between two configurations.  A message is a
    list of lines; [uapi_text] is its text.  What a device makes of a message is
    documented by the protocol (wireguard.com, "Cross-platform interface") and is
    the reference [uapi_run] that the statements about the device are made
    against. *)

From S2P Require Import Prelude GoStrings Netip WireGuardKey PacketFilterCfg WireGuardCfg WireGuardFilter.
Local Open Scope Z_scope.

Inductive uapi_line : Type :=
  | UPrivateKey (k : Key) | UFwmark (n : Z) | UListenPort (n : Z) | UReplacePeers
  | UPublicKey (k : Key) | URemove | UPresharedKey (k : Key) | UEndpoint (s : string) | UKeepalive (n : Z)
  | UReplaceAllowedIPs | UAllowedIP (p : Prefix).
#[export] Instance uapi_line_eq_dec : EqDecision uapi_line.
Proof. unfold EqDecision. unfold Key in *. solve_decision. Defined.
Definition newline : string := String (char_of 10) "".
Definition line_text (l : uapi_line) : string :=
  match l with
  | UPrivateKey k => "private_key=" +:+ UAPIHex k
  | UFwmark n => "fwmark=" +:+ FormatUint n
  | UListenPort n => "listen_port=" +:+ FormatUint n
  | UReplacePeers => "replace_peers=true"
  | UPublicKey k => "public_key=" +:+ UAPIHex k
  | URemove => "remove=true"
  | UPresharedKey k => "preshared_key=" +:+ UAPIHex k
  | UEndpoint s => "endpoint=" +:+ s
  | UKeepalive n => "persistent_keepalive_interval=" +:+ FormatUint n
  | UReplaceAllowedIPs => "replace_allowed_ips=true"
  | UAllowedIP p => "allowed_ip=" +:+ prefix_string p
  end +:+ newline.
Definition uapi_text (ls : list uapi_line) : string := String.concat "" (line_text <$> ls).

(** ** Messages *)

Definition peerHasAddress (peer : Peer) (ip : Addr) : bool := addr.IsValid ip && (ip ∈? peer_Addresses peer).
Definition validExitSelection (cfg : Config) (ip : Addr) : Addr :=
  if negb (addr.IsValid ip) then AddrInvalid
  else if existsb (λ p, ExitNode p && peerHasAddress p ip) (c_Peers cfg) then ip else AddrInvalid.
Definition wgAddressFamilies (cfg : Config) : bool * bool :=
  foldl (λ f a, if addr.Is4 a then (true, f.2) else if addr.Is6 a then (f.1, true) else f) (false, false) (c_Addresses cfg).
Definition wgAllowedIPs (peer : Peer) (selected allow4 allow6 : bool) : list Prefix :=
  CompactFunc (λ a b, bool_decide (a = b)) (go_sort (less_key prefix_string)
    (peer_Routes peer ++ (hostPrefix <$> peer_Addresses peer) ++
     (if selected then (if allow4 then [internet4] else []) ++ (if allow6 then [internet6] else []) else []))).
Definition writeWGPeer (peer : Peer) (psk : Key) (selected allow4 allow6 : bool) : list uapi_line :=
  [UPublicKey (PublicKey peer); UPresharedKey psk] ++
  (if negb (String.eqb (Endpoint peer) "") then [UEndpoint (Endpoint peer)] else []) ++
  [UKeepalive (Z.quot (Keepalive peer) Second); UReplaceAllowedIPs] ++
  (UAllowedIP <$> wgAllowedIPs peer selected allow4 allow6).
(** A key that a map of keys does not have is the zero key. *)
Definition psk_of (secrets : Secrets) (name : string) : Key := default zero_key (PresharedKeyByPeer secrets !! name).

Section messages.
(** [tsconst.LinuxBypassMarkNum]. *)
Context (LinuxBypassMarkNum : Z).

Definition fullWGConfig (cfg : Config) (secrets : Secrets) (exitIP : Addr) (bypassMark : bool) : list uapi_line :=
  let '(allow4, allow6) := wgAddressFamilies cfg in
  (match s_PrivateKey secrets with Some key => [UPrivateKey key] | None => [] end) ++
  (if bypassMark then [UFwmark LinuxBypassMarkNum] else []) ++
  [UListenPort (c_ListenPort cfg); UReplacePeers] ++
  (c_Peers cfg ≫= λ peer, writeWGPeer peer (psk_of secrets (peer_Name peer)) (peerHasAddress peer exitIP) allow4 allow6).
End messages.

Definition sameWGPeer (a b : Peer) : bool :=
  String.eqb (peer_Name a) (peer_Name b) && bool_decide (PublicKey a = PublicKey b) && eqb (HasPresharedKey a) (HasPresharedKey b) &&
  String.eqb (Endpoint a) (Endpoint b) && (Keepalive a =? Keepalive b) && eqb (ExitNode a) (ExitNode b) &&
  bool_decide (peer_Addresses a = peer_Addresses b) && bool_decide (peer_Routes a = peer_Routes b).
Definition peers_by_key (peers : list Peer) : gmap Key Peer := list_to_map ((λ p, (PublicKey p, p)) <$> reverse peers).
Definition zero_wg_peer : Peer := MkPeer "" zero_key false "" 0 [] [] false.
(** A peer whose endpoint goes away is replaced: the protocol cannot clear one. *)
Definition loses_endpoint (oldPeer : Peer) (newPeer : option Peer) : bool :=
  match newPeer with
  | Some newPeer => negb (String.eqb (Endpoint oldPeer) "") && String.eqb (Endpoint newPeer) ""
  | None => false
  end.
Definition removal (key : Key) : list uapi_line := [UPublicKey key; URemove].
(** [oldOrder] and [newOrder] are the orders in which Go ranges over the two
    maps of peers. *)
Definition diffWGConfig (oldOrder newOrder : list Key) (oldCfg : Config) (oldSecrets : Secrets) (oldExit : Addr)
    (newCfg : Config) (newSecrets : Secrets) (newExit : Addr) : list uapi_line :=
  let oldByKey := peers_by_key (c_Peers oldCfg) in
  let newByKey := peers_by_key (c_Peers newCfg) in
  let '(allow4, allow6) := wgAddressFamilies newCfg in
  let removeFirst := oldOrder ≫= λ key,
    match oldByKey !! key with
    | Some oldPeer => if loses_endpoint oldPeer (newByKey !! key) then removal key else []
    | None => []
    end in
  let removeLast := oldOrder ≫= λ key,
    match oldByKey !! key with
    | Some oldPeer => if loses_endpoint oldPeer (newByKey !! key) then [] else
                        match newByKey !! key with None => removal key | Some _ => [] end
    | None => []
    end in
  let written := newOrder ≫= λ key,
    match newByKey !! key with
    | None => []
    | Some peer =>
      let existed := bool_decide (is_Some (oldByKey !! key)) in
      let oldPeer := default zero_wg_peer (oldByKey !! key) in
      let oldPSK := psk_of oldSecrets (peer_Name oldPeer) in
      let newPSK := psk_of newSecrets (peer_Name peer) in
      let oldSelected := existed && peerHasAddress oldPeer oldExit in
      let newSelected := peerHasAddress peer newExit in
      let replaced := existed && negb (String.eqb (Endpoint oldPeer) "") && String.eqb (Endpoint peer) "" in
      if negb existed || replaced || negb (sameWGPeer oldPeer peer) || negb (bool_decide (oldPSK = newPSK)) ||
         negb (eqb oldSelected newSelected)
      then writeWGPeer peer newPSK newSelected allow4 allow6 else []
    end in
  (match s_PrivateKey oldSecrets, s_PrivateKey newSecrets with
   | Some old, Some new => if bool_decide (old = new) then [] else [UPrivateKey new]
   | _, _ => []
   end) ++
  (if c_ListenPort oldCfg =? c_ListenPort newCfg then [] else [UListenPort (c_ListenPort newCfg)]) ++
  removeFirst ++ written ++ removeLast.

(** ** What a device makes of a message *)

Record device_peer : Type := MkDevicePeer { dv_psk : Key; dv_endpoint : string; dv_keepalive : Z }.
Record device_state : Type := MkDevice {
  ds_key : option Key; ds_fwmark : Z; ds_port : Z;
  ds_peers : gmap Key device_peer;
  ds_allowed : gmap Prefix Key;       (* the peer every prefix is routed to *)
  ds_current : option Key }.          (* the peer the following lines are about *)
Definition new_device : device_state := MkDevice None 0 0 ∅ ∅ None.
Definition new_device_peer : device_peer := MkDevicePeer zero_key "" 0.
Definition on_peer (f : device_peer → device_peer) (d : device_state) : device_state :=
  match ds_current d with
  | Some k => MkDevice (ds_key d) (ds_fwmark d) (ds_port d) (alter f k (ds_peers d)) (ds_allowed d) (ds_current d)
  | None => d
  end.
Definition drop_allowed (k : Key) (m : gmap Prefix Key) : gmap Prefix Key := filter (λ e, e.2 ≠ k) m.
(** A device also drops, and does not take, a peer with its own public key.  That
    rule is left out: [validateWireGuardKeyOwnership] refuses a configuration with
    such a peer ([EPeerOwnKey] of WireGuardAPI.v) before its profile is saved. *)
Definition uapi_step (d : device_state) (l : uapi_line) : device_state :=
  match l with
  | UPrivateKey k => MkDevice (Some k) (ds_fwmark d) (ds_port d) (ds_peers d) (ds_allowed d) (ds_current d)
  | UFwmark n => MkDevice (ds_key d) n (ds_port d) (ds_peers d) (ds_allowed d) (ds_current d)
  | UListenPort n => MkDevice (ds_key d) (ds_fwmark d) n (ds_peers d) (ds_allowed d) (ds_current d)
  | UReplacePeers => MkDevice (ds_key d) (ds_fwmark d) (ds_port d) ∅ ∅ None
  | UPublicKey k =>
    MkDevice (ds_key d) (ds_fwmark d) (ds_port d)
      (match ds_peers d !! k with Some _ => ds_peers d | None => <[k := new_device_peer]> (ds_peers d) end) (ds_allowed d) (Some k)
  | URemove =>
    match ds_current d with
    | Some k => MkDevice (ds_key d) (ds_fwmark d) (ds_port d) (delete k (ds_peers d)) (drop_allowed k (ds_allowed d)) None
    | None => d
    end
  | UPresharedKey k => on_peer (λ p, MkDevicePeer k (dv_endpoint p) (dv_keepalive p)) d
  | UEndpoint s => on_peer (λ p, MkDevicePeer (dv_psk p) s (dv_keepalive p)) d
  | UKeepalive n => on_peer (λ p, MkDevicePeer (dv_psk p) (dv_endpoint p) n) d
  | UReplaceAllowedIPs =>
    match ds_current d with
    | Some k => MkDevice (ds_key d) (ds_fwmark d) (ds_port d) (ds_peers d) (drop_allowed k (ds_allowed d)) (ds_current d)
    | None => d
    end
  | UAllowedIP p =>
    match ds_current d with
    | Some k => MkDevice (ds_key d) (ds_fwmark d) (ds_port d) (ds_peers d) (<[p := k]> (ds_allowed d)) (ds_current d)
    | None => d
    end
  end.
(** A message starts outside of any peer. *)
Definition leave_peer (d : device_state) : device_state :=
  MkDevice (ds_key d) (ds_fwmark d) (ds_port d) (ds_peers d) (ds_allowed d) None.
Definition uapi_run (ls : list uapi_line) (d : device_state) : device_state := leave_peer (foldl uapi_step (leave_peer d) ls).

(** ** Effects of the parts of a message *)

Definition set_allowed (k : Key) (ps : list Prefix) (m : gmap Prefix Key) : gmap Prefix Key := foldl (λ m p, <[p := k]> m) m ps.
Lemma set_allowed_lookup k ps m x : set_allowed k ps m !! x = if bool_decide (x ∈ ps) then Some k else m !! x.
Proof.
  revert m. induction ps as [|p ps IH]; intros m; [done|].
  change (set_allowed k ps (<[p := k]> m) !! x = if bool_decide (x ∈ p :: ps) then Some k else m !! x). rewrite IH.
  destruct (decide (x ∈ ps)) as [Hx|Hx]; [rewrite !bool_decide_true by (try right; done); done|].
  rewrite (bool_decide_false (x ∈ ps)) by done. destruct (decide (x = p)) as [->|Hne].
  - by rewrite lookup_insert_eq, bool_decide_true by left.
  - rewrite lookup_insert_ne by done. rewrite bool_decide_false; [done|]. by intros [?|?]%elem_of_cons.
Qed.
Lemma drop_allowed_lookup k m x : drop_allowed k m !! x = match m !! x with Some j => if bool_decide (j = k) then None else Some j | None => None end.
Proof.
  unfold drop_allowed. rewrite map_lookup_filter. destruct (m !! x) as [j|]; cbn; [|done].
  destruct (decide (j = k)) as [->|Hne].
  - rewrite bool_decide_true by done. by rewrite option_guard_False by (intros Hc; by apply Hc).
  - rewrite bool_decide_false by done. by rewrite option_guard_True.
Qed.
Lemma allowed_lines k ps d : ds_current d = Some k →
  foldl uapi_step d (UAllowedIP <$> ps) = MkDevice (ds_key d) (ds_fwmark d) (ds_port d) (ds_peers d) (set_allowed k ps (ds_allowed d)) (Some k).
Proof.
  revert d. induction ps as [|p ps IH]; intros d Hc; cbn [fmap list_fmap foldl]; [destruct d; cbn in *; by subst|].
  cbn [uapi_step]. rewrite Hc. rewrite IH by done. done.
Qed.
(** What [writeWGPeer] makes of the peer the device may have under that key. *)
Definition written_peer (peer : Peer) (psk : Key) (old : option device_peer) : device_peer :=
  MkDevicePeer psk (if String.eqb (Endpoint peer) "" then dv_endpoint (default new_device_peer old) else Endpoint peer)
    (Z.quot (Keepalive peer) Second).
Lemma write_lines peer psk sel a4 a6 d : foldl uapi_step d (writeWGPeer peer psk sel a4 a6) =
  MkDevice (ds_key d) (ds_fwmark d) (ds_port d)
    (<[PublicKey peer := written_peer peer psk (ds_peers d !! PublicKey peer)]> (ds_peers d))
    (set_allowed (PublicKey peer) (wgAllowedIPs peer sel a4 a6) (drop_allowed (PublicKey peer) (ds_allowed d))) (Some (PublicKey peer)).
Proof.
  unfold writeWGPeer. rewrite !foldl_app. set (k := PublicKey peer). rewrite (allowed_lines k); cycle 1.
  { by destruct (negb _). }
  destruct (String.eqb (Endpoint peer) "") eqn:Ee; unfold written_peer; rewrite Ee; cbn; unfold on_peer; cbn; f_equal;
    (apply map_eq; intros j; destruct (decide (j = k)) as [->|Hne];
     [rewrite ?lookup_alter_eq, lookup_insert_eq; destruct (ds_peers d !! k) eqn:Ek; rewrite ?Ek, ?lookup_insert_eq; done
     |rewrite ?lookup_alter_ne, lookup_insert_ne by done; destruct (ds_peers d !! k); rewrite ?lookup_insert_ne; done]).
Qed.
Lemma removal_lines k d : foldl uapi_step d (removal k) =
  MkDevice (ds_key d) (ds_fwmark d) (ds_port d) (delete k (ds_peers d)) (drop_allowed k (ds_allowed d)) None.
Proof.
  cbn. f_equal. destruct (ds_peers d !! k) eqn:Ek; [done|]. apply map_eq. intros j.
  destruct (decide (j = k)) as [->|Hne]; [by rewrite !lookup_delete_eq|by rewrite !lookup_delete_ne, lookup_insert_ne by done].
Qed.

(** The fields that lines about peers leave alone. *)
Definition same_device (d d' : device_state) : Prop := ds_key d' = ds_key d ∧ ds_fwmark d' = ds_fwmark d ∧ ds_port d' = ds_port d.
Lemma removals_spec ks d : let d' := foldl uapi_step d (ks ≫= removal) in same_device d d' ∧
  (∀ k, ds_peers d' !! k = if bool_decide (k ∈ ks) then None else ds_peers d !! k) ∧
  (∀ x, ds_allowed d' !! x = match ds_allowed d !! x with Some k => if bool_decide (k ∈ ks) then None else Some k | None => None end).
Proof.
  revert d. induction ks as [|k ks IH]; intros d; cbn zeta.
  { split; [done|]. split; [done|]. intros x. cbn. by destruct (ds_allowed d !! x). }
  cbn [mbind list_bind]. rewrite foldl_app, removal_lines.
  match goal with |- context [foldl uapi_step ?dev _] => destruct (IH dev) as (Hs & Hp & Ha) end. split; [exact Hs|]. split.
  - intros j. rewrite Hp. cbn. destruct (decide (j ∈ ks)) as [Hj|Hj]; [rewrite !bool_decide_true by (try right; done); done|].
    rewrite bool_decide_false by done. destruct (decide (j = k)) as [->|Hne].
    + by rewrite lookup_delete_eq, bool_decide_true by left.
    + rewrite lookup_delete_ne by done. rewrite bool_decide_false; [done|]. by intros [?|?]%elem_of_cons.
  - intros x. rewrite Ha. cbn. rewrite drop_allowed_lookup. destruct (ds_allowed d !! x) as [j|]; [|done].
    destruct (decide (j = k)) as [->|Hne]; [by rewrite !bool_decide_true by (try left; done)|].
    rewrite (bool_decide_false (j = k)) by done. rewrite (bool_decide_ext (j ∈ k :: ks) (j ∈ ks)); [done|].
    rewrite elem_of_cons. tauto.
Qed.
Section writes.
Context (psk : Peer → Key) (sel : Peer → bool) (a4 a6 : bool).
Local Notation ips p := (wgAllowedIPs p (sel p) a4 a6).
Lemma writes_spec ws d : NoDup (PublicKey <$> ws) →
  (∀ p q x, p ∈ ws → q ∈ ws → x ∈ ips p → x ∈ ips q → p = q) →
  let d' := foldl uapi_step d (ws ≫= λ p, writeWGPeer p (psk p) (sel p) a4 a6) in same_device d d' ∧
  (∀ p, p ∈ ws → ds_peers d' !! PublicKey p = Some (written_peer p (psk p) (ds_peers d !! PublicKey p))) ∧
  (∀ k, k ∉ PublicKey <$> ws → ds_peers d' !! k = ds_peers d !! k) ∧
  (∀ p x, p ∈ ws → x ∈ ips p → ds_allowed d' !! x = Some (PublicKey p)) ∧
  (∀ x, (∀ p, p ∈ ws → x ∉ ips p) → ds_allowed d' !! x =
     match ds_allowed d !! x with Some k => if bool_decide (k ∈ PublicKey <$> ws) then None else Some k | None => None end).
Proof using.
  revert d. induction ws as [|p ws IH]; intros d Hnd Hdis; cbn zeta.
  { split; [done|]. split; [by intros p ?%elem_of_nil|]. split; [done|]. split; [by intros p x ?%elem_of_nil|].
    intros x _. cbn. by destruct (ds_allowed d !! x). }
  rewrite fmap_cons in Hnd. apply NoDup_cons in Hnd as [Hp Hnd]. cbn [mbind list_bind]. rewrite foldl_app, write_lines.
  match goal with |- context [foldl uapi_step ?dev _] => destruct (IH dev Hnd) as (Hs & Hp1 & Hp2 & Ha1 & Ha2) end.
  { intros p1 p2 x H1 H2. apply Hdis; by right. }
  split_and!; [exact Hs| | | |].
  - intros q [->|Hq]%elem_of_cons.
    + rewrite Hp2 by done. apply lookup_insert_eq.
    + rewrite Hp1 by done. cbn. rewrite lookup_insert_ne; [done|]. intros He. apply Hp. rewrite He. by apply list_elem_of_fmap_2.
  - intros k. rewrite fmap_cons, not_elem_of_cons. intros [Hne Hk]. rewrite Hp2 by done. cbn. by rewrite lookup_insert_ne.
  - intros q x [->|Hq]%elem_of_cons Hx; [|by apply Ha1].
    rewrite Ha2.
    2:{ intros q Hq Hx'. assert (p = q) as -> by (eapply Hdis; [by left|by right|done|done]). apply Hp. by apply list_elem_of_fmap_2. }
    cbn. rewrite set_allowed_lookup, bool_decide_true by done. by rewrite bool_decide_false.
  - intros x Hx. rewrite Ha2 by (intros q Hq; apply Hx; by right). cbn.
    rewrite set_allowed_lookup, bool_decide_false by (apply Hx; by left). rewrite drop_allowed_lookup.
    destruct (ds_allowed d !! x) as [j|]; [|done]. destruct (decide (j = PublicKey p)) as [->|Hne].
    + rewrite (bool_decide_true (PublicKey p = PublicKey p)) by done. rewrite bool_decide_true; [done|]. by left.
    + rewrite (bool_decide_false (j = PublicKey p)) by done.
      destruct (decide (j ∈ PublicKey <$> ws)) as [Hj|Hj];
        [rewrite !bool_decide_true by (try right; done); done|rewrite !bool_decide_false; [done| |done]].
      by intros [?|?]%elem_of_cons.
Qed.
End writes.

(** ** Configurations a device can route *)

(** What [config_ok] says of the peers, as far as a device is concerned. *)
Record routable (c : Config) : Prop := {
  rt_keys : NoDup (PublicKey <$> c_Peers c);
  rt_apart : ∀ p q r, p ∈ c_Peers c → q ∈ c_Peers c → r ∈ allowed_ips p → r ∈ allowed_ips q → p = q;
  rt_proper : ∀ p r, p ∈ c_Peers c → r ∈ allowed_ips p → r ≠ internet4 ∧ r ≠ internet6 }.
Lemma config_routable c : config_ok c → routable c.
Proof.
  intros Hok. split; [apply ok_keys; done|apply ok_allowed; done|].
  intros p r Hp Hr. pose proof (proj1 (Forall_forall _ _) (ok_peers c Hok) p Hp) as Hpo.
  assert (p_bits r ≠ 0) as Hb; [|by split; intros ->].
  unfold allowed_ips in Hr. apply elem_of_app in Hr as [(a & -> & Ha)%list_elem_of_fmap|Hr].
  - destruct (proj1 (Forall_forall _ _) (peer_addresses _ _ Hpo) a Ha) as [[Hfam _] _].
    unfold prefix.PrefixFrom. destruct a; cbn in *; (destruct Hfam; done || lia).
  - destruct (proj1 (Forall_forall _ _) (peer_routes _ _ Hpo) r Hr) as (_ & Hb & _). lia.
Qed.

Lemma elem_of_wgAllowedIPs p sel a4 a6 x : x ∈ wgAllowedIPs p sel a4 a6 ↔
  x ∈ allowed_ips p ∨ sel = true ∧ (a4 = true ∧ x = internet4 ∨ a6 = true ∧ x = internet6).
Proof.
  unfold wgAllowedIPs. transitivity (x ∈ peer_Routes p ++ (hostPrefix <$> peer_Addresses p) ++
     (if sel then (if a4 then [internet4] else []) ++ (if a6 then [internet6] else []) else [])).
  - split.
    + intros Hx%elem_of_CompactFunc. by rewrite go_sort_Permutation in Hx.
    + intros Hx. apply CompactFunc_elem; [by intros a b ?%bool_decide_eq_true|]. by rewrite go_sort_Permutation.
  - unfold allowed_ips. rewrite !elem_of_app. destruct sel, a4, a6; rewrite ?elem_of_app, ?list_elem_of_singleton, ?elem_of_nil;
      unfold hostPrefix; intuition congruence.
Qed.
Lemma selected_allowed p ip : peerHasAddress p ip = true → hostPrefix ip ∈ allowed_ips p.
Proof.
  unfold peerHasAddress. intros [_ Hin%bool_decide_eq_true]%andb_true_iff.
  apply elem_of_app. left. by apply list_elem_of_fmap_2.
Qed.
Lemma wgAllowedIPs_apart c ip a4 a6 p q x : routable c → p ∈ c_Peers c → q ∈ c_Peers c →
  x ∈ wgAllowedIPs p (peerHasAddress p ip) a4 a6 → x ∈ wgAllowedIPs q (peerHasAddress q ip) a4 a6 → p = q.
Proof.
  intros Hr Hp Hq. rewrite !elem_of_wgAllowedIPs.
  intros [Hx|[Hs Hx]] [Hy|[Ht Hy]].
  - by eapply rt_apart.
  - destruct (rt_proper c Hr p x Hp Hx). naive_solver.
  - destruct (rt_proper c Hr q x Hq Hy). naive_solver.
  - eapply (rt_apart c Hr); [done|done|by apply selected_allowed..].
Qed.
Lemma peers_by_key_Some c k p : routable c → peers_by_key (c_Peers c) !! k = Some p ↔ p ∈ c_Peers c ∧ PublicKey p = k.
Proof.
  intros Hr. unfold peers_by_key. rewrite <- elem_of_list_to_map.
  - rewrite list_elem_of_fmap. setoid_rewrite elem_of_reverse. naive_solver.
  - rewrite <- list_fmap_compose. change (NoDup (PublicKey <$> reverse (c_Peers c))).
    rewrite (reverse_Permutation (c_Peers c)). apply Hr.
Qed.
Lemma peers_by_key_None c k : routable c → peers_by_key (c_Peers c) !! k = None ↔ k ∉ PublicKey <$> c_Peers c.
Proof.
  intros Hr. rewrite eq_None_not_Some. apply not_iff_compat. split.
  - intros [p [Hp <-]%peers_by_key_Some]; [|done]. by apply list_elem_of_fmap_2.
  - intros (p & -> & Hp)%list_elem_of_fmap. exists p. by apply peers_by_key_Some.
Qed.

(** ** What the messages make of the device *)

Record in_force (c : Config) (secrets : Secrets) (ip : Addr) (d : device_state) : Prop := {
  if_port : ds_port d = c_ListenPort c;
  if_peers : ∀ p, p ∈ c_Peers c →
    ds_peers d !! PublicKey p = Some (written_peer p (psk_of secrets (peer_Name p)) None);
  if_others : ∀ k, k ∉ PublicKey <$> c_Peers c → ds_peers d !! k = None;
  if_allowed : ∀ p x, p ∈ c_Peers c → x ∈ wgAllowedIPs p (peerHasAddress p ip) (wgAddressFamilies c).1 (wgAddressFamilies c).2 →
    ds_allowed d !! x = Some (PublicKey p);
  if_rest : ∀ x, (∀ p, p ∈ c_Peers c → x ∉ wgAllowedIPs p (peerHasAddress p ip) (wgAddressFamilies c).1 (wgAddressFamilies c).2) →
    ds_allowed d !! x = None;
  if_current : ds_current d = None }.

(** A device is determined by the configuration in force. *)
Lemma in_force_eq c secrets ip d d' : in_force c secrets ip d → in_force c secrets ip d' →
  ds_key d = ds_key d' → ds_fwmark d = ds_fwmark d' → d = d'.
Proof.
  intros H1 H2 Hk Hf. pose proof (if_port _ _ _ _ H1). pose proof (if_port _ _ _ _ H2).
  pose proof (if_current _ _ _ _ H1). pose proof (if_current _ _ _ _ H2).
  assert (ds_peers d = ds_peers d') as Hp.
  { apply map_eq. intros k. destruct (decide (k ∈ PublicKey <$> c_Peers c)) as [(p & -> & Hp)%list_elem_of_fmap|Hn].
    - by rewrite (if_peers _ _ _ _ H1 p Hp), (if_peers _ _ _ _ H2 p Hp).
    - by rewrite (if_others _ _ _ _ H1 k Hn), (if_others _ _ _ _ H2 k Hn). }
  assert (ds_allowed d = ds_allowed d') as Ha.
  { apply map_eq. intros x.
    destruct (decide (Exists (λ p, x ∈ wgAllowedIPs p (peerHasAddress p ip) (wgAddressFamilies c).1 (wgAddressFamilies c).2) (c_Peers c)))
      as [(p & Hin & Hx)%Exists_exists|Hn].
    - by rewrite (if_allowed _ _ _ _ H1 p x Hin Hx), (if_allowed _ _ _ _ H2 p x Hin Hx).
    - assert (∀ p, p ∈ c_Peers c → x ∉ wgAllowedIPs p (peerHasAddress p ip) (wgAddressFamilies c).1 (wgAddressFamilies c).2) as Hno.
      { intros p Hin Hx. apply Hn. apply Exists_exists. by exists p. }
      by rewrite (if_rest _ _ _ _ H1 x Hno), (if_rest _ _ _ _ H2 x Hno). }
  destruct d, d'. cbn in *. congruence.
Qed.

Section devices.
Context (LinuxBypassMarkNum : Z).
Local Notation full := (fullWGConfig LinuxBypassMarkNum).

Lemma full_spec c secrets ip mark d : routable c → let d' := uapi_run (full c secrets ip mark) d in
  in_force c secrets ip d' ∧ ds_fwmark d' = (if mark then LinuxBypassMarkNum else ds_fwmark d) ∧
  ds_key d' = match s_PrivateKey secrets with Some k => Some k | None => ds_key d end.
Proof.
  intros Hr. cbn zeta. unfold uapi_run, fullWGConfig. rewrite (surjective_pairing (wgAddressFamilies c)).
  set (a4 := (wgAddressFamilies c).1). set (a6 := (wgAddressFamilies c).2).
  rewrite !foldl_app. cbn [foldl uapi_step].
  match goal with |- context [foldl uapi_step ?dev (c_Peers c ≫= _)] => set (d1 := dev) end.
  assert (ds_peers d1 = ∅) as Hp0 by (by destruct (s_PrivateKey secrets), mark).
  assert (ds_allowed d1 = ∅) as Ha0 by (by destruct (s_PrivateKey secrets), mark).
  destruct (writes_spec (λ p, psk_of secrets (peer_Name p)) (λ p, peerHasAddress p ip) a4 a6 (c_Peers c) d1 (rt_keys c Hr))
    as ((Hk & Hf & Hport) & Hp1 & Hp2 & Ha1 & Ha2).
  { intros p q x Hp Hq. by apply (wgAllowedIPs_apart c ip). }
  split; [|split].
  - split; cbn [leave_peer ds_port ds_peers ds_allowed ds_current].
    + rewrite Hport. by destruct (s_PrivateKey secrets), mark.
    + intros p Hp. rewrite Hp1 by done. by rewrite Hp0, lookup_empty.
    + intros k Hn. by rewrite Hp2, Hp0, lookup_empty.
    + intros p x Hp Hx. by apply Ha1.
    + intros x Hx. by rewrite Ha2, Ha0, lookup_empty.
    + done.
  - cbn [leave_peer ds_fwmark]. rewrite Hf. by destruct (s_PrivateKey secrets), mark.
  - cbn [leave_peer ds_key]. rewrite Hk. by destruct (s_PrivateKey secrets), mark.
Qed.
End devices.

(** ** The difference as removals and writes *)

Section difference.
Context (oldOrder newOrder : list Key) (oldCfg : Config) (oldSecrets : Secrets) (oldExit : Addr).
Context (newCfg : Config) (newSecrets : Secrets) (newExit : Addr).
Context (Hold : routable oldCfg) (Hnew : routable newCfg).
Context (Horder : oldOrder ≡ₚ PublicKey <$> c_Peers oldCfg) (Hnorder : newOrder ≡ₚ PublicKey <$> c_Peers newCfg).
Local Notation olds := (peers_by_key (c_Peers oldCfg)).
Local Notation news := (peers_by_key (c_Peers newCfg)).
Local Notation psk p := (psk_of newSecrets (peer_Name p)).
Local Notation sel p := (peerHasAddress p newExit).
Local Notation a4 := (wgAddressFamilies newCfg).1.
Local Notation a6 := (wgAddressFamilies newCfg).2.

Definition changed (key : Key) (peer : Peer) : bool :=
  let existed := bool_decide (is_Some (olds !! key)) in
  let oldPeer := default zero_wg_peer (olds !! key) in
  negb existed || (existed && negb (String.eqb (Endpoint oldPeer) "") && String.eqb (Endpoint peer) "") ||
  negb (sameWGPeer oldPeer peer) || negb (bool_decide (psk_of oldSecrets (peer_Name oldPeer) = psk peer)) ||
  negb (eqb (existed && peerHasAddress oldPeer oldExit) (sel peer)).
Definition removed_first : list Key :=
  oldOrder ≫= λ key, match olds !! key with Some p => if loses_endpoint p (news !! key) then [key] else [] | None => [] end.
Definition removed_last : list Key :=
  oldOrder ≫= λ key, match olds !! key with
    | Some p => if loses_endpoint p (news !! key) then [] else match news !! key with None => [key] | Some _ => [] end
    | None => [] end.
Definition rewritten : list Peer :=
  newOrder ≫= λ key, match news !! key with Some p => if changed key p then [p] else [] | None => [] end.

Lemma bind_bind {A C D} (f : A → list C) (g : C → list D) (l : list A) : (l ≫= f) ≫= g = l ≫= (λ x, f x ≫= g).
Proof using. induction l as [|x l IH]; [done|]. cbn. rewrite bind_app. by rewrite IH. Qed.

(** The lines about the device itself. *)
Definition head_of : list uapi_line * list uapi_line :=
  (match s_PrivateKey oldSecrets, s_PrivateKey newSecrets with
   | Some old, Some new => if bool_decide (old = new) then [] else [UPrivateKey new]
   | _, _ => []
   end, if c_ListenPort oldCfg =? c_ListenPort newCfg then [] else [UListenPort (c_ListenPort newCfg)]).
Lemma diff_parts : diffWGConfig oldOrder newOrder oldCfg oldSecrets oldExit newCfg newSecrets newExit =
  head_of.1 ++ head_of.2 ++
  (removed_first ≫= removal) ++ (rewritten ≫= λ p, writeWGPeer p (psk p) (sel p) a4 a6) ++ (removed_last ≫= removal).
Proof using.
  unfold diffWGConfig. rewrite (surjective_pairing (wgAddressFamilies newCfg)). cbv zeta.
  unfold removed_first, rewritten, removed_last. rewrite !bind_bind. do 2 f_equal.
  f_equal; [|f_equal].
  - apply list_bind_ext; [|done]. intros k. destruct (olds !! k) as [p|]; [|done]. by destruct (loses_endpoint p _).
  - apply list_bind_ext; [|done]. intros k. destruct (news !! k) as [p|]; [|done]. unfold changed.
    destruct (negb _ || _ || _ || _ || _); [|done]. symmetry. apply app_nil_r.
  - apply list_bind_ext; [|done]. intros k. destruct (olds !! k) as [p|]; [|done]. destruct (loses_endpoint p _); [done|]. by destruct (news !! k).
Qed.

Lemma elem_of_news p : p ∈ c_Peers newCfg → news !! PublicKey p = Some p.
Proof using Hnew. intros. by apply peers_by_key_Some. Qed.
Lemma elem_of_olds p : p ∈ c_Peers oldCfg → olds !! PublicKey p = Some p.
Proof using Hold. intros. by apply peers_by_key_Some. Qed.
Lemma elem_of_rewritten p : p ∈ rewritten ↔ p ∈ c_Peers newCfg ∧ changed (PublicKey p) p = true.
Proof using Hnew Hnorder.
  unfold rewritten. rewrite list_elem_of_bind. setoid_rewrite Hnorder. split.
  - intros (k & Hp & Hk). destruct (news !! k) as [q|] eqn:Eq; [|by apply elem_of_nil in Hp].
    apply peers_by_key_Some in Eq as [Hq <-]; [|done]. destruct (changed _ q) eqn:Ec; [|by apply elem_of_nil in Hp].
    by apply list_elem_of_singleton in Hp as ->.
  - intros [Hp Hc]. exists (PublicKey p). rewrite elem_of_news, Hc by done. split; [by left|by apply list_elem_of_fmap_2].
Qed.
Lemma rewritten_keys k : k ∈ PublicKey <$> rewritten ↔ ∃ p, news !! k = Some p ∧ changed k p = true.
Proof using Hnew Hnorder.
  rewrite list_elem_of_fmap. setoid_rewrite elem_of_rewritten. split.
  - intros (p & -> & Hp & Hc). exists p. by rewrite elem_of_news.
  - intros (p & [Hp <-]%peers_by_key_Some & Hc); [|done]. by exists p.
Qed.
Lemma rewritten_nodup : NoDup (PublicKey <$> rewritten).
Proof using Hnew Hnorder.
  assert (NoDup newOrder) as Hnd by (rewrite Hnorder; apply Hnew). unfold rewritten.
  clear Hnorder. induction newOrder as [|k l IH]; [constructor|]. apply NoDup_cons in Hnd as [Hk Hnd].
  cbn [mbind list_bind]. destruct (news !! k) as [q|] eqn:Eq; [|by apply IH]. destruct (changed k q); [|by apply IH].
  apply peers_by_key_Some in Eq as [Hq Hkq]; [|done]. cbn. apply NoDup_cons. split; [|by apply IH].
  rewrite Hkq. intros (p & -> & (j & Hp & Hj)%list_elem_of_bind)%list_elem_of_fmap.
  destruct (news !! j) as [q'|] eqn:Eq'; [|by apply elem_of_nil in Hp].
  apply peers_by_key_Some in Eq' as [Hq' <-]; [|done]. destruct (changed _ q'); [|by apply elem_of_nil in Hp].
  by apply list_elem_of_singleton in Hp as ->.
Qed.
Lemma elem_of_removed_first k : k ∈ removed_first ↔ ∃ p, olds !! k = Some p ∧ loses_endpoint p (news !! k) = true.
Proof using Hold Horder.
  unfold removed_first. rewrite list_elem_of_bind. setoid_rewrite Horder. split.
  - intros (j & Hk & Hj). destruct (olds !! j) as [p|] eqn:Ep; [|by apply elem_of_nil in Hk].
    destruct (loses_endpoint _ _) eqn:El; [|by apply elem_of_nil in Hk]. apply list_elem_of_singleton in Hk as ->. by exists p.
  - intros (p & Hp & Hl). exists k. rewrite Hp, Hl. split; [by left|].
    apply peers_by_key_Some in Hp as [Hp <-]; [|done]. by apply list_elem_of_fmap_2.
Qed.
Lemma elem_of_removed_last k : k ∈ removed_last ↔ is_Some (olds !! k) ∧ news !! k = None.
Proof using Hold Horder.
  unfold removed_last. rewrite list_elem_of_bind. setoid_rewrite Horder. split.
  - intros (j & Hk & Hj). destruct (olds !! j) as [p|] eqn:Ep; [|by apply elem_of_nil in Hk].
    destruct (loses_endpoint _ _) eqn:El; [by apply elem_of_nil in Hk|]. destruct (news !! j) eqn:En; [by apply elem_of_nil in Hk|].
    apply list_elem_of_singleton in Hk as ->. by rewrite Ep.
  - intros [[p Hp] Hn]. exists k. rewrite Hp, Hn. cbn. split; [by left|].
    apply peers_by_key_Some in Hp as [Hp <-]; [|done]. by apply list_elem_of_fmap_2.
Qed.

(** A peer that is not written again is the same one, with the same key and
    the same choice of exit. *)
Lemma unchanged p : p ∈ c_Peers newCfg → changed (PublicKey p) p = false →
  p ∈ c_Peers oldCfg ∧ psk_of oldSecrets (peer_Name p) = psk p ∧ peerHasAddress p oldExit = sel p.
Proof using Hold.
  intros Hp Hc. unfold changed in Hc. destruct (olds !! PublicKey p) as [q|] eqn:Eq; [|done].
  apply peers_by_key_Some in Eq as [Hq Hk]; [|done]. cbn in Hc.
  rewrite !orb_false_iff, !negb_false_iff in Hc. destruct Hc as ((( _ & Hsame) & Hpsk) & Hsel).
  assert (q = p) as ->.
  { unfold sameWGPeer in Hsame. rewrite !andb_true_iff in Hsame.
    destruct q, p; cbn in *. destruct Hsame as (((((((Hn & Hkk) & Hh) & He) & Hka) & Hx) & Ha) & Hr).
    apply String.eqb_eq in Hn, He. apply bool_decide_eq_true in Hkk, Ha, Hr. apply eqb_prop in Hh, Hx.
    apply Z.eqb_eq in Hka. by subst. }
  apply bool_decide_eq_true in Hpsk. by apply eqb_prop in Hsel.
Qed.
Lemma not_replaced p q : p ∈ c_Peers newCfg → q ∈ c_Peers oldCfg → PublicKey q = PublicKey p →
  PublicKey p ∉ removed_first → Endpoint p = "" → Endpoint q = "".
Proof using Hold Hnew Horder.
  intros Hp Hq Hk Hn He. destruct (decide (Endpoint q = "")) as [|Hne]; [done|]. destruct Hn. apply elem_of_removed_first.
  exists q. rewrite <- Hk at 1. split; [by apply elem_of_olds|]. rewrite elem_of_news by done. cbn.
  by rewrite (proj2 (String.eqb_neq _ _) Hne), He.
Qed.

(** Both sides agree on the address families, or no peer is the exit. *)
Definition families_kept : Prop :=
  wgAddressFamilies oldCfg = wgAddressFamilies newCfg ∨ ∀ p, p ∈ c_Peers newCfg → sel p = false.
Lemma kept_allowed p : families_kept → p ∈ c_Peers newCfg → changed (PublicKey p) p = false →
  ∀ x, x ∈ wgAllowedIPs p (peerHasAddress p oldExit) (wgAddressFamilies oldCfg).1 (wgAddressFamilies oldCfg).2 ↔
       x ∈ wgAllowedIPs p (sel p) a4 a6.
Proof using Hold.
  intros Hf Hp Hc x. destruct (unchanged p Hp Hc) as (_ & _ & ->). destruct Hf as [->|Hn]; [done|].
  rewrite !elem_of_wgAllowedIPs, (Hn p Hp). naive_solver.
Qed.

Lemma head_lines d : ds_port d = c_ListenPort oldCfg → let d1 := foldl uapi_step (foldl uapi_step (leave_peer d) head_of.1) head_of.2 in
  ds_peers d1 = ds_peers d ∧ ds_allowed d1 = ds_allowed d ∧ ds_fwmark d1 = ds_fwmark d ∧ ds_port d1 = c_ListenPort newCfg ∧
  ds_key d1 = match s_PrivateKey oldSecrets, s_PrivateKey newSecrets with
              | Some old, Some new => if bool_decide (old = new) then ds_key d else Some new
              | _, _ => ds_key d end.
Proof using.
  intros Hport. unfold head_of. destruct (Z.eqb_spec (c_ListenPort oldCfg) (c_ListenPort newCfg)) as [He|];
    (destruct (s_PrivateKey oldSecrets); [destruct (s_PrivateKey newSecrets); [case_bool_decide|]|]); cbn; rewrite ?Hport, ?He; done.
Qed.
Lemma not_removed p : p ∈ c_Peers newCfg → PublicKey p ∉ removed_last.
Proof using Hold Hnew Horder. intros Hp [_ Hn]%elem_of_removed_last. by rewrite elem_of_news in Hn. Qed.
(** No line is about a peer that is not written again. *)
Lemma quiet p : p ∈ c_Peers newCfg → changed (PublicKey p) p = false →
  PublicKey p ∉ removed_first ∧ PublicKey p ∉ PublicKey <$> rewritten.
Proof using Hold Hnew Horder Hnorder.
  intros Hp Hc. split.
  - intros (q & Hq & Hl)%elem_of_removed_first. unfold changed in Hc. rewrite Hq in Hc.
    rewrite elem_of_news in Hl by done. cbn in Hl, Hc. by rewrite Hl in Hc.
  - intros (q & Hq & Hc')%rewritten_keys. rewrite elem_of_news in Hq by done. congruence.
Qed.

Lemma diff_in_force d : families_kept → in_force oldCfg oldSecrets oldExit d →
  let d' := uapi_run (diffWGConfig oldOrder newOrder oldCfg oldSecrets oldExit newCfg newSecrets newExit) d in
  in_force newCfg newSecrets newExit d' ∧ ds_fwmark d' = ds_fwmark d ∧
  ds_key d' = match s_PrivateKey oldSecrets, s_PrivateKey newSecrets with
              | Some old, Some new => if bool_decide (old = new) then ds_key d else Some new
              | _, _ => ds_key d end.
Proof using Hold Hnew Horder Hnorder.
  intros Hfam Hd. cbn zeta. rewrite diff_parts. unfold uapi_run. rewrite !foldl_app.
  destruct (head_lines d (if_port _ _ _ _ Hd)) as (Hp0 & Ha0 & Hf0 & Hport0 & Hk0).
  set (d1 := foldl uapi_step (foldl uapi_step (leave_peer d) head_of.1) head_of.2) in *. clearbody d1.
  destruct (removals_spec removed_first d1) as ((Hk1 & Hf1 & Hport1) & Hp1 & Ha1).
  set (d2 := foldl uapi_step d1 (removed_first ≫= removal)) in *. clearbody d2.
  destruct (writes_spec (λ p, psk p) (λ p, sel p) a4 a6 rewritten d2 rewritten_nodup)
    as ((Hk2 & Hf2 & Hport2) & Hp2 & Hp2' & Ha2 & Ha2').
  { intros p q x [Hp _]%elem_of_rewritten [Hq _]%elem_of_rewritten. by apply (wgAllowedIPs_apart newCfg newExit). }
  set (d3 := foldl uapi_step d2 (rewritten ≫= _)) in *. clearbody d3.
  destruct (removals_spec removed_last d3) as ((Hk3 & Hf3 & Hport3) & Hp3 & Ha3).
  set (d4 := foldl uapi_step d3 (removed_last ≫= removal)) in *. clearbody d4.
  pose proof not_removed as Hstay. pose proof quiet as Hquiet.
  split; [|split; cbn; congruence].
  split; cbn [leave_peer ds_port ds_peers ds_allowed ds_current]; [congruence| | | | |done].
  - intros p Hp. rewrite Hp3, bool_decide_false by auto. destruct (changed (PublicKey p) p) eqn:Hc.
    + rewrite Hp2 by (by apply elem_of_rewritten). f_equal. rewrite Hp1, Hp0. unfold written_peer. f_equal.
      case_bool_decide as Hfirst; [done|]. destruct (String.eqb_spec (Endpoint p) "") as [He|]; [|done].
      destruct (decide (PublicKey p ∈ PublicKey <$> c_Peers oldCfg)) as [(q & Hkq & Hq)%list_elem_of_fmap|Hn];
        [|by rewrite (if_others _ _ _ _ Hd)].
      rewrite Hkq, (if_peers _ _ _ _ Hd q Hq). cbn. by rewrite (not_replaced p q).
    + destruct (Hquiet p Hp Hc) as [H1 H2]. rewrite Hp2', Hp1, bool_decide_false, Hp0 by done.
      destruct (unchanged p Hp Hc) as (Hpo & Hpsk & _). rewrite (if_peers _ _ _ _ Hd p Hpo). by rewrite Hpsk.
  - intros k Hn. rewrite Hp3. case_bool_decide as Hl; [done|].
    assert (news !! k = None) as Hnn by (by apply peers_by_key_None).
    rewrite Hp2' by (intros (p & Hp & _)%rewritten_keys; congruence). rewrite Hp1. case_bool_decide; [done|].
    rewrite Hp0. apply (if_others _ _ _ _ Hd). intros (q & -> & Hq)%list_elem_of_fmap. destruct Hl. apply elem_of_removed_last.
    by rewrite elem_of_olds.
  - intros p x Hp Hx. rewrite Ha3. destruct (changed (PublicKey p) p) eqn:Hc.
    + rewrite (Ha2 p x) by (by rewrite ?elem_of_rewritten). by rewrite bool_decide_false by auto.
    + destruct (Hquiet p Hp Hc) as [H1 H2]. destruct (unchanged p Hp Hc) as (Hpo & _ & _).
      rewrite Ha2'; cycle 1.
      { intros q [Hq Hcq]%elem_of_rewritten Hxq. assert (p = q) as <- by (by eapply (wgAllowedIPs_apart newCfg newExit)). congruence. }
      rewrite Ha1, Ha0, (if_allowed _ _ _ _ Hd p x Hpo) by (by apply kept_allowed).
      rewrite !bool_decide_false by auto. done.
  - intros x Hx. rewrite Ha3, Ha2' by (intros p [Hp _]%elem_of_rewritten; by apply Hx). rewrite Ha1, Ha0.
    destruct (decide (Exists (λ p, x ∈ wgAllowedIPs p (peerHasAddress p oldExit) (wgAddressFamilies oldCfg).1 (wgAddressFamilies oldCfg).2) (c_Peers oldCfg)))
      as [(p & Hp & Hxp)%Exists_exists|Hn].
    2:{ rewrite (if_rest _ _ _ _ Hd); [done|]. intros p Hp Hxp. apply Hn, Exists_exists. by exists p. }
    rewrite (if_allowed _ _ _ _ Hd p x Hp Hxp). case_bool_decide; [done|]. case_bool_decide as Hw; [done|].
    destruct (news !! PublicKey p) as [q|] eqn:Eq; cycle 1.
    { rewrite bool_decide_true; [done|]. apply elem_of_removed_last. by rewrite elem_of_olds. }
    exfalso. destruct (changed (PublicKey p) q) eqn:Hc; [apply Hw, rewritten_keys; by exists q|].
    apply peers_by_key_Some in Eq as [Hq Hkq]; [|done]. rewrite <- Hkq in Hc.
    destruct (unchanged q Hq Hc) as (Hqo & _ & _). assert (q = p) as ->.
    { pose proof (elem_of_olds q Hqo) as E1. rewrite Hkq, elem_of_olds in E1 by done. congruence. }
    apply (Hx p Hq). by apply kept_allowed.
Qed.
End difference.

(** A configuration differs from itself in nothing: an apply of what is in
    force sends an empty message. *)
Lemma diff_same order order' c secrets ip : routable c →
  diffWGConfig order order' c secrets ip c secrets ip = [].
Proof.
  intros Hr. assert (∀ (f : Key → list uapi_line) ks, (∀ k, f k = []) → ks ≫= f = []) as Hnil.
  { intros f ks Hf. induction ks as [|k ks IH]; [done|]. cbn. by rewrite Hf, IH. }
  unfold diffWGConfig. rewrite (surjective_pairing (wgAddressFamilies c)). rewrite Z.eqb_refl, !Hnil.
  - by destruct (s_PrivateKey secrets); rewrite ?bool_decide_true by done.
  - intros k. destruct (peers_by_key (c_Peers c) !! k) as [p|]; [|done]. cbn. by destruct (negb _ && _).
  - intros k. destruct (peers_by_key (c_Peers c) !! k) as [p|]; [|done]. cbn.
    assert (sameWGPeer p p = true) as ->.
    { unfold sameWGPeer. by rewrite !String.eqb_refl, !eqb_reflx, Z.eqb_refl, !bool_decide_true. }
    rewrite eqb_reflx, bool_decide_true by done. by destruct (String.eqb (Endpoint p) "").
  - intros k. destruct (peers_by_key (c_Peers c) !! k) as [p|]; [|done]. cbn. by destruct (String.eqb (Endpoint p) "").
Qed.

(** C17. An incremental update that keeps the address families of the profile, or
    selects no exit, does what a full one does: on a device that runs the old
    configuration, the difference leaves exactly the state that the full new
    configuration would — keys, port, mark, every peer with its preshared key,
    endpoint and keepalive, and the peer every prefix is routed to — in whatever
    order the maps are ranged over, although routes move between peers, endpoints
    go away and the exit changes in the same message.  Both configurations have a
    private key and routable prefixes, every peer its own key and addresses.  When
    the families change under a selected exit the difference misses the exit's
    route of the new family ([diff_misses_family]). *)
Theorem diff_equiv LinuxBypassMarkNum mark oldOrder newOrder oldCfg oldSecrets oldExit newCfg newSecrets newExit d :
  routable oldCfg → routable newCfg →
  oldOrder ≡ₚ PublicKey <$> c_Peers oldCfg → newOrder ≡ₚ PublicKey <$> c_Peers newCfg →
  is_Some (s_PrivateKey oldSecrets) → is_Some (s_PrivateKey newSecrets) →
  families_kept oldCfg newCfg newExit →
  uapi_run (diffWGConfig oldOrder newOrder oldCfg oldSecrets oldExit newCfg newSecrets newExit)
    (uapi_run (fullWGConfig LinuxBypassMarkNum oldCfg oldSecrets oldExit mark) d) =
  uapi_run (fullWGConfig LinuxBypassMarkNum newCfg newSecrets newExit mark) d.
Proof.
  intros Hold Hnew Ho Hn [ko Hko] [kn Hkn] Hf.
  destruct (full_spec LinuxBypassMarkNum oldCfg oldSecrets oldExit mark d Hold) as (H1 & Hf1 & Hk1).
  destruct (full_spec LinuxBypassMarkNum newCfg newSecrets newExit mark d Hnew) as (H2 & Hf2 & Hk2).
  destruct (diff_in_force oldOrder newOrder oldCfg oldSecrets oldExit newCfg newSecrets newExit Hold Hnew Ho Hn _ Hf H1)
    as (H3 & Hf3 & Hk3).
  apply (in_force_eq _ _ _ _ _ H3 H2); [|congruence].
  rewrite Hk3, Hk2, Hko, Hkn, Hk1, Hko. case_bool_decide; congruence.
Qed.

Definition test_uapi_peer (name : string) (n : Z) (endpoint : string) (a : Z) (routes : list Prefix) (exit : bool) : Peer :=
  MkPeer name (n :: repeat 0 31) false endpoint (25 * Second) [Addr4 a] routes exit.
Definition test_lan : Prefix := MkPrefix (Addr4 3232235776) 24.
Definition test_uapi_old : Config :=
  MkConfig 1 "home" "corp.example" [Addr4 167772161] 51820 (MkFilter [])
    [test_uapi_peer "laptop" 3 "" 167772163 [test_lan] false; test_uapi_peer "nas" 2 "192.0.2.1:51820" 167772162 [] true].
Definition test_uapi_new : Config :=
  MkConfig 1 "home" "corp.example" [Addr4 167772161] 51821 (MkFilter [])
    [test_uapi_peer "nas" 2 "" 167772162 [test_lan] true; test_uapi_peer "phone" 4 "" 167772164 [] false].
Definition test_uapi_secrets : Secrets := MkSecrets (Some (9 :: repeat 0 31)) ∅.
Lemma test_uapi_routable : routable test_uapi_old ∧ routable test_uapi_new.
Proof. split; apply config_routable, Validate_config_ok; vm_compute; reflexivity. Qed.
(** The lost endpoint costs a removal, the route moves, the laptop leaves last. *)
Example diff_order : diffWGConfig [2 :: repeat 0 31; 3 :: repeat 0 31] [4 :: repeat 0 31; 2 :: repeat 0 31]
    test_uapi_old test_uapi_secrets AddrInvalid test_uapi_new test_uapi_secrets AddrInvalid =
  [UListenPort 51821] ++ removal (2 :: repeat 0 31) ++
  [UPublicKey (4 :: repeat 0 31); UPresharedKey zero_key; UKeepalive 25; UReplaceAllowedIPs; UAllowedIP (MkPrefix (Addr4 167772164) 32);
   UPublicKey (2 :: repeat 0 31); UPresharedKey zero_key; UKeepalive 25; UReplaceAllowedIPs;
   UAllowedIP (MkPrefix (Addr4 167772162) 32); UAllowedIP test_lan] ++ removal (3 :: repeat 0 31).
Proof. vm_compute. reflexivity. Qed.
Lemma diff_equiv_witness : uapi_run (diffWGConfig (PublicKey <$> c_Peers test_uapi_old) (PublicKey <$> c_Peers test_uapi_new)
    test_uapi_old test_uapi_secrets AddrInvalid test_uapi_new test_uapi_secrets (Addr4 167772162))
    (uapi_run (fullWGConfig 524288 test_uapi_old test_uapi_secrets AddrInvalid true) new_device) =
  uapi_run (fullWGConfig 524288 test_uapi_new test_uapi_secrets (Addr4 167772162) true) new_device.
Proof.
  apply diff_equiv; [apply test_uapi_routable|apply test_uapi_routable|done|done|by eexists|by eexists|]. left. vm_compute. reflexivity.
Defined.

(** The same profile with an IPv6 address besides. *)
Definition test_uapi_dual : Config :=
  MkConfig 1 "home" "corp.example" [Addr4 167772161; Addr6 336294682933583715844663186250927177729 ""] 51820 (MkFilter [])
    (c_Peers test_uapi_old).
(** The case the condition of the equivalence leaves out is a real one: with
    an exit selected, adding an IPv6 address to a profile writes no peer again,
    so the exit is not given ::/0, which the full configuration of the same
    profile gives it; both configurations are valid. *)
Theorem diff_misses_family : let exit := Addr4 167772162 in let order := PublicKey <$> c_Peers test_uapi_old in
  let changed := uapi_run (diffWGConfig order order test_uapi_old test_uapi_secrets exit test_uapi_dual test_uapi_secrets exit)
    (uapi_run (fullWGConfig 524288 test_uapi_old test_uapi_secrets exit true) new_device) in
  let full := uapi_run (fullWGConfig 524288 test_uapi_dual test_uapi_secrets exit true) new_device in
  Validate test_uapi_old = Ok tt ∧ Validate test_uapi_dual = Ok tt ∧
  ds_allowed full !! internet6 = Some (2 :: repeat 0 31) ∧ ds_allowed changed !! internet6 = None.
Proof. vm_compute. repeat split. Qed.
