(* ===== verification/PolicyPatch.v ===== *)
(** * Changes to the routing policy

    cmd/tailmixd/policyapi.go, the part that computes: how a request changes
    the accept-all flags, the route and DNS bindings and the search domains of
    a copy of the state.  The bindings of both kinds are changed by the same
    two loops, written once for a kind of binding; their specification is a
    finite map from canonical keys to profiles. *)

From S2P Require Import Prelude GoStrings Netip DNSName State Types HostPools LeasePlan RoutingPolicy TUNTable DNSPolicy.
Import netip_facts.
Local Open Scope Z_scope.

(** One constructor per error the API reports. *)
Inductive policy_error : Type :=
  | EProfileNotFound (name : string)
  | EProfileRemoved (name : string)
  | EInvalidPrefix
  | EDefaultRoute (p : Prefix)
  | EReservedRoute (p : Prefix)
  | EEmptyDomain
  | EBadDomain (raw : string)
  | EMismatchIP (p : Prefix) (bound wanted : string)
  | EMismatchDNS (d : string) (bound wanted : string)
  | EConflictIP (p : Prefix) (bound : string)
  | EConflictDNS (d : string) (bound : string).

(** ** Profiles by name *)

Definition profileByName (ps : list Profile) (name : string) : result policy_error (nat * Profile) :=
  let name := TrimSpace name in
  match list_find (λ p, profileName p = name) ps with
  | Some ip => Ok ip
  | None => Err (EProfileNotFound name)
  end.
Definition profileNameByID (ps : list Profile) (id : string) : string :=
  match list_find (λ p, pr_ID p = id) ps with
  | Some (_, p) => profileName p
  | None => id
  end.

Definition set_AcceptAllRoutes (p : Profile) (x : bool) : Profile :=
  MkProfile (pr_ID p) (pr_Name p) (pr_Alias p) (pr_Kind p) (pr_StateDir p) (pr_Hostname p) (pr_MagicDNSSuffix p)
    (pr_Disabled p) (pr_Removed p) x (pr_AcceptAllDNSRoutes p) (pr_WireGuard p) (pr_WireGuardSecretFile p)
    (pr_WireGuardShieldsUp p).
Definition set_AcceptAllDNSRoutes (p : Profile) (x : bool) : Profile :=
  MkProfile (pr_ID p) (pr_Name p) (pr_Alias p) (pr_Kind p) (pr_StateDir p) (pr_Hostname p) (pr_MagicDNSSuffix p)
    (pr_Disabled p) (pr_Removed p) (pr_AcceptAllRoutes p) x (pr_WireGuard p) (pr_WireGuardSecretFile p)
    (pr_WireGuardShieldsUp p).

(** An iteration of the loop over [request.AcceptAll]. *)
Definition accept_step (set : Profile → bool → Profile) (ps : list Profile) (e : string * bool) :
    result policy_error (list Profile) :=
  '(i, configured) ← profileByName ps e.1;
  _ ← guard_err (pr_Removed configured) (EProfileRemoved e.1);
  Ok (<[i := set configured e.2]> ps).

(** [PatchIPRoutesRequest] and [PatchDNSRoutesRequest]: bindings to make and to
    drop, each a key and a profile name. *)
Record patch (R : Type) : Type := MkPatch {
  pt_Bind : list (R * string); pt_Unbind : list (R * string); pt_Replace : bool; pt_AcceptAll : gmap string bool }.
Arguments MkPatch {R} _ _ _ _.
Arguments pt_Bind {R} _.
Arguments pt_Unbind {R} _.
Arguments pt_Replace {R} _.
Arguments pt_AcceptAll {R} _.

(** ** The two loops over bindings *)

Section bindings.
Context {R K B : Type} `{Countable K} (canonical : R → result policy_error K) (bound_key : B → K)
  (b_profile : B → string) (mk : K → string → B) (set_profile : B → string → B)
  (mismatch : K → string → string → policy_error) (conflict : K → string → policy_error) (ps : list Profile).

Definition binding_index (bs : list B) (k : K) : option (nat * B) := list_find (λ b, bound_key b = k) bs.
Definition check_owner (k : K) (bound wanted : string) : result policy_error unit :=
  if String.eqb wanted "" then Ok tt
  else
    '(_, configured) ← profileByName ps wanted;
    guard_err (negb (String.eqb bound (pr_ID configured))) (mismatch k (profileNameByID ps bound) wanted).
Definition unbind (bs : list B) (m : R * string) : result policy_error (list B) :=
  k ← canonical m.1;
  match binding_index bs k with
  | None => Ok bs
  | Some (i, b) => _ ← check_owner k (b_profile b) m.2; Ok (delete i bs)
  end.
Definition bind (replace : bool) (bs : list B) (m : R * string) : result policy_error (list B) :=
  k ← canonical m.1;
  '(_, configured) ← profileByName ps m.2;
  _ ← guard_err (pr_Removed configured) (EProfileRemoved m.2);
  match binding_index bs k with
  | Some (i, existing) =>
    if String.eqb (b_profile existing) (pr_ID configured) then Ok bs
    else
      _ ← guard_err (negb replace) (conflict k (profileNameByID ps (b_profile existing)));
      Ok (<[i := set_profile existing (pr_ID configured)]> bs)
  | None => Ok (bs ++ [mk k (pr_ID configured)])
  end.
Definition patch_bindings (request : patch R) (bs : list B) : result policy_error (list B) :=
  bs ← foldM unbind (pt_Unbind request) bs;
  foldM (bind (pt_Replace request)) (pt_Bind request) bs.

(** The specification: a map from keys to profile identifiers. *)
Definition table_of (bs : list B) : gmap K string := list_to_map ((λ b, (bound_key b, b_profile b)) <$> bs).
Definition spec_unbind (t : gmap K string) (m : R * string) : result policy_error (gmap K string) :=
  k ← canonical m.1;
  match t !! k with
  | None => Ok t
  | Some id => _ ← check_owner k id m.2; Ok (delete k t)
  end.
Definition spec_bind (replace : bool) (t : gmap K string) (m : R * string) : result policy_error (gmap K string) :=
  k ← canonical m.1;
  '(_, configured) ← profileByName ps m.2;
  _ ← guard_err (pr_Removed configured) (EProfileRemoved m.2);
  match t !! k with
  | Some id =>
    _ ← guard_err (negb (String.eqb id (pr_ID configured)) && negb replace) (conflict k (profileNameByID ps id));
    Ok (<[k := pr_ID configured]> t)
  | None => Ok (<[k := pr_ID configured]> t)
  end.
Definition spec_patch (request : patch R) (t : gmap K string) : result policy_error (gmap K string) :=
  t ← foldM spec_unbind (pt_Unbind request) t;
  foldM (spec_bind (pt_Replace request)) (pt_Bind request) t.
End bindings.

(** ** The requests *)

Section policy.
Context {F : Type} `{DNSName F} (CGNATRange TailscaleULARange : Prefix) (ServiceIP : Addr).

Definition validatePolicyPrefix (st : State) (p : Prefix) : result policy_error Prefix :=
  _ ← guard_err (negb (prefix.IsValid p)) EInvalidPrefix;
  let p := prefix.Masked p in
  _ ← guard_err (p_bits p =? 0) (EDefaultRoute p);
  _ ← guard_err (TUNTable.routeOverlapsReserved CGNATRange TailscaleULARange ServiceIP st p) (EReservedRoute p);
  Ok p.
Definition canonicalDNSDomain (allowRoot : bool) (raw : string) : result policy_error string :=
  let raw := ToLower (TrimSpace raw) in
  _ ← guard_err (String.eqb raw "") EEmptyDomain;
  match ToFQDN raw with
  | None => Err (EBadDomain raw)
  | Some domain =>
    _ ← guard_err (bool_decide (domain = root) && negb allowRoot) (EBadDomain raw);
    if decide (domain = root) then Ok "." else Ok (WithoutTrailingDot domain)
  end.

Definition ip_bound_key (b : IPRouteBinding) : Prefix := prefix.Masked (ib_Prefix b).
Definition ip_set_profile (b : IPRouteBinding) (id : string) : IPRouteBinding := MkIPBinding (ib_Prefix b) id.
Definition dns_bound_key (b : DNSRouteBinding) : string := NormalizeDomain (db_Domain b).
Definition dns_set_profile (b : DNSRouteBinding) (id : string) : DNSRouteBinding := MkDNSBinding (db_Domain b) id.

(** [order] is the order in which Go ranges over [request.AcceptAll]. *)
Definition applyIPPatchLocked (next : State) (order : list (string * bool)) (request : patch Prefix) :
    result policy_error State :=
  ps ← foldM (accept_step set_AcceptAllRoutes) order (st_Profiles next);
  let next := set_Profiles next ps in
  bs ← patch_bindings (validatePolicyPrefix next) ip_bound_key ib_ProfileID MkIPBinding ip_set_profile
         EMismatchIP EConflictIP ps request (st_IPRouteBindings next);
  Ok (Normalize (set_IPRouteBindings next bs)).
Definition applyDNSPatchLocked (next : State) (order : list (string * bool)) (request : patch string) :
    result policy_error State :=
  ps ← foldM (accept_step set_AcceptAllDNSRoutes) order (st_Profiles next);
  let next := set_Profiles next ps in
  bs ← patch_bindings (canonicalDNSDomain true) dns_bound_key db_ProfileID MkDNSBinding dns_set_profile
         EMismatchDNS EConflictDNS ps request (st_DNSRouteBindings next);
  Ok (Normalize (set_DNSRouteBindings next bs)).

(** What [ReplaceIPRoutes] and [ReplaceDNSRoutes] start from and ask for. *)
Definition clear_ip (st : State) : State :=
  set_Profiles (set_IPRouteBindings st []) ((λ p, set_AcceptAllRoutes p false) <$> st_Profiles st).
Definition clear_dns (st : State) : State :=
  set_Profiles (set_DNSRouteBindings st []) ((λ p, set_AcceptAllDNSRoutes p false) <$> st_Profiles st).
Definition replace_patch {R} (bindings : list (R * string)) (acceptAll : list string) : patch R :=
  MkPatch bindings [] true (list_to_map ((λ name, (name, true)) <$> acceptAll)).

(** ** Search domains *)

Definition add_desired (s : list string * gset string) (raw : string) : result policy_error (list string * gset string) :=
  domain ← canonicalDNSDomain false raw;
  let '(desired, seen) := s in
  if domain ∈? seen then Ok s else Ok (desired ++ [domain], {[ domain ]} ∪ seen).
Definition replace_search (desired : list string) : result policy_error (list string) :=
  '(desired, _) ← foldM add_desired desired ([], ∅);
  Ok desired.
Definition patch_search (current add remove : list string) : result policy_error (list string) :=
  remove ← foldM (λ (m : gset string) raw, domain ← canonicalDNSDomain false raw; Ok ({[ domain ]} ∪ m)) remove ∅;
  let desired := filter (λ d, d ∉ remove) current in
  '(desired, _) ← foldM add_desired add (desired, list_to_set desired);
  Ok desired.
End policy.

(** ** The loops refine the map *)

Lemma foldM_refines {E A S S'} (R : S → S' → Prop) (f : S → A → result E S) (g : S' → A → result E S') l s s' :
  (∀ s s' x, x ∈ l → R s s' → match g s' x with Ok t' => ∃ t, f s x = Ok t ∧ R t t' | Err e => f s x = Err e end) →
  R s s' → match foldM g l s' with Ok t' => ∃ t, foldM f l s = Ok t ∧ R t t' | Err e => foldM f l s = Err e end.
Proof.
  intros Hstep. revert s s'. induction l as [|x l IH]; intros s s' HR; simpl; [eauto|].
  pose proof (Hstep s s' x ltac:(left) HR) as Hx. destruct (g s' x) as [t'|e]; simpl.
  - destruct Hx as (t & -> & Ht). simpl. apply IH; [|done]. intros. by apply Hstep; [right|].
  - by rewrite Hx.
Qed.

Lemma insert_middle {A} (l1 l2 : list A) x y : <[length l1 := y]> (l1 ++ x :: l2) = l1 ++ y :: l2.
Proof. induction l1 as [|z l1 IH]; simpl; [done|]. by rewrite IH. Qed.

Section refinement.
Context {R K B : Type} `{Countable K} (canonical : R → result policy_error K) (bound_key : B → K)
  (b_profile : B → string) (mk : K → string → B) (set_profile : B → string → B)
  (mismatch : K → string → string → policy_error) (ps : list Profile).
(** [good b]: a binding as normalization leaves it. *)
Context (good : B → Prop) (good_key : K → Prop).
Hypothesis Hmk : ∀ k id, good_key k → id ≠ "" → bound_key (mk k id) = k ∧ b_profile (mk k id) = id ∧ good (mk k id).
Hypothesis Hset : ∀ b id, good b → id ≠ "" →
  bound_key (set_profile b id) = bound_key b ∧ b_profile (set_profile b id) = id ∧ good (set_profile b id).
Hypothesis Hids : ∀ p, p ∈ ps → pr_ID p ≠ "".
Local Notation table_of := (table_of bound_key b_profile).
Local Notation index := (binding_index bound_key).

Lemma lookup_table_of bs k id : NoDup (bound_key <$> bs) →
  table_of bs !! k = Some id ↔ ∃ b, b ∈ bs ∧ bound_key b = k ∧ b_profile b = id.
Proof using.
  intros Hnd. unfold PolicyPatch.table_of. rewrite <-elem_of_list_to_map.
  2:{ by rewrite <-list_fmap_compose. }
  rewrite list_elem_of_fmap. split; [intros (b & [= -> ->] & Hb); eauto|intros (b & Hb & <- & <-); eauto].
Qed.
Lemma table_of_app l1 l2 : table_of (l1 ++ l2) = table_of l1 ∪ table_of l2.
Proof using. unfold PolicyPatch.table_of. by rewrite fmap_app, list_to_map_app. Qed.
Lemma table_of_cons b l : table_of (b :: l) = <[bound_key b := b_profile b]> (table_of l).
Proof using. done. Qed.
Lemma table_of_none bs k : table_of bs !! k = None ↔ k ∉ bound_key <$> bs.
Proof using.
  unfold PolicyPatch.table_of. rewrite <-not_elem_of_list_to_map. by rewrite <-list_fmap_compose.
Qed.
Lemma index_none bs k : index bs k = None → table_of bs !! k = None.
Proof using.
  intros Hf%list_find_None. apply table_of_none. intros (b & -> & Hb)%list_elem_of_fmap.
  rewrite Forall_forall in Hf. by apply (Hf b).
Qed.
Lemma index_some bs k i b : NoDup (bound_key <$> bs) → index bs k = Some (i, b) →
  ∃ l1 l2, bs = l1 ++ b :: l2 ∧ i = length l1 ∧ bound_key b = k ∧ k ∉ bound_key <$> l1 ∧ k ∉ bound_key <$> l2.
Proof using.
  intros Hnd (Hi & Hk & _)%list_find_Some. apply list_elem_of_split_length in Hi as (l1 & l2 & -> & ->).
  exists l1, l2. rewrite fmap_app, fmap_cons in Hnd. apply NoDup_app in Hnd as (_ & Hd & [Hn _]%NoDup_cons).
  rewrite Hk in Hd, Hn. split_and!; [done|done|done| |done]. intros Hk1. apply (Hd _ Hk1). left.
Qed.
Lemma index_lookup bs k i b : NoDup (bound_key <$> bs) → index bs k = Some (i, b) → table_of bs !! k = Some (b_profile b).
Proof using.
  intros Hnd Hi. apply lookup_table_of; [done|]. apply list_find_Some in Hi as (Hi & Hk & _). exists b.
  split; [by eapply list_elem_of_lookup_2|done].
Qed.

Definition tabled (bs : list B) (t : gmap K string) : Prop :=
  NoDup (bound_key <$> bs) ∧ Forall good bs ∧ table_of bs = t.

Lemma profileByName_in name i p : profileByName ps name = Ok (i, p) →
  ps !! i = Some p ∧ p ∈ ps ∧ profileName p = TrimSpace name.
Proof using.
  unfold profileByName. destruct (list_find _ ps) as [[j q]|] eqn:E; [|done]. intros [= <- <-].
  apply list_find_Some in E as (Hj & Hn & _). split_and!; [done|by eapply list_elem_of_lookup_2|done].
Qed.

Lemma unbind_refines bs t m : tabled bs t →
  match spec_unbind canonical mismatch ps t m with
  | Ok t' => ∃ bs', unbind canonical bound_key b_profile mismatch ps bs m = Ok bs' ∧ tabled bs' t'
  | Err e => unbind canonical bound_key b_profile mismatch ps bs m = Err e
  end.
Proof using.
  intros (Hnd & Hg & <-). unfold spec_unbind, unbind. destruct (canonical m.1) as [k|e]; simpl; [|done].
  destruct (index bs k) as [[i b]|] eqn:Ei.
  2:{ rewrite (index_none _ _ Ei). by exists bs. }
  rewrite (index_lookup _ _ _ _ Hnd Ei). destruct (check_owner mismatch ps k (b_profile b) m.2) as [u|e]; simpl; [|done].
  destruct (index_some _ _ _ _ Hnd Ei) as (l1 & l2 & -> & -> & Hk & Hn1 & Hn2). rewrite delete_middle.
  exists (l1 ++ l2). split; [done|]. split_and!.
  - rewrite fmap_app, fmap_cons in Hnd. rewrite fmap_app. eapply sublist_NoDup; [exact Hnd|].
    apply sublist_app; [done|by constructor].
  - rewrite Forall_app, Forall_cons in Hg. apply Forall_app. tauto.
  - rewrite !table_of_app, table_of_cons, Hk, delete_union.
    rewrite (delete_id (table_of l1)) by (by apply table_of_none).
    by rewrite delete_insert_id by (by apply table_of_none).
Qed.
Context (conflict : K → string → policy_error).
Lemma bind_refines replace bs t m : (∀ k, canonical m.1 = Ok k → good_key k) → tabled bs t →
  match spec_bind canonical conflict ps replace t m with
  | Ok t' => ∃ bs', bind canonical bound_key b_profile mk set_profile conflict ps replace bs m = Ok bs' ∧ tabled bs' t'
  | Err e => bind canonical bound_key b_profile mk set_profile conflict ps replace bs m = Err e
  end.
Proof using Hmk Hset Hids.
  intros Hc (Hnd & Hg & <-). unfold spec_bind, bind. destruct (canonical m.1) as [k|e] eqn:Ek; simpl; [|done].
  specialize (Hc k eq_refl). destruct (profileByName ps m.2) as [[j p]|e] eqn:Ep; simpl; [|done].
  apply profileByName_in in Ep as (_ & Hp%Hids & _).
  destruct (pr_Removed p); simpl; [done|]. destruct (index bs k) as [[i b]|] eqn:Ei.
  - rewrite (index_lookup _ _ _ _ Hnd Ei). pose proof (index_lookup _ _ _ _ Hnd Ei) as Hl.
    destruct (String.eqb_spec (b_profile b) (pr_ID p)) as [He|Hne]; simpl.
    { exists bs. split; [done|]. split_and!; [done|done|]. rewrite insert_id; [done|congruence]. }
    destruct replace; simpl; [|done].
    destruct (index_some _ _ _ _ Hnd Ei) as (l1 & l2 & -> & -> & Hk & Hn1 & Hn2).
    rewrite insert_middle. exists (l1 ++ set_profile b (pr_ID p) :: l2). split; [done|].
    rewrite Forall_app, Forall_cons in Hg. destruct Hg as (Hg1 & Hgb & Hg2).
    destruct (Hset b (pr_ID p) Hgb Hp) as (Ek' & Ei' & Hg'). split_and!.
    + rewrite fmap_app, fmap_cons in *. by rewrite Ek'.
    + apply Forall_app. split; [done|]. by apply Forall_cons.
    + rewrite !table_of_app, !table_of_cons, Ek', Ei', Hk.
      rewrite <-!insert_union_r by (by apply table_of_none). by rewrite insert_insert_eq.
  - pose proof (index_none _ _ Ei) as Hn. rewrite Hn. exists (bs ++ [mk k (pr_ID p)]). split; [done|].
    destruct (Hmk k (pr_ID p) Hc Hp) as (Ek' & Ei' & Hg'). apply table_of_none in Hn. split_and!.
    + rewrite fmap_app. cbn. rewrite Ek'. by apply NoDup_snoc.
    + apply Forall_app. split; [done|]. by apply Forall_singleton.
    + rewrite table_of_app, table_of_cons, Ek', Ei'. change (table_of []) with (∅ : gmap K string).
      rewrite <-insert_union_r by (by apply table_of_none). by rewrite map_union_empty.
Qed.
Lemma patch_refines request bs t : (∀ m k, m ∈ pt_Bind request → canonical m.1 = Ok k → good_key k) → tabled bs t →
  match spec_patch canonical mismatch conflict ps request t with
  | Ok t' => ∃ bs', patch_bindings canonical bound_key b_profile mk set_profile mismatch conflict ps request bs = Ok bs' ∧ tabled bs' t'
  | Err e => patch_bindings canonical bound_key b_profile mk set_profile mismatch conflict ps request bs = Err e
  end.
Proof using Hmk Hset Hids.
  intros Hc Ht. unfold spec_patch, patch_bindings.
  pose proof (foldM_refines tabled _ _ (pt_Unbind request) bs t (λ s s' x _, unbind_refines s s' x) Ht) as Hu.
  destruct (foldM (spec_unbind _ _ _) _ t) as [t1|e]; simpl.
  - destruct Hu as (bs1 & -> & Ht1). simpl.
    apply (foldM_refines tabled _ _ (pt_Bind request) bs1 t1 (λ s s' x Hx, bind_refines _ s s' x (λ k, Hc x k Hx)) Ht1).
  - by rewrite Hu.
Qed.
End refinement.

(** ** What a patch does to each key *)

Section effect.
Context {R K : Type} `{Countable K} (canonical : R → result policy_error K)
  (mismatch : K → string → string → policy_error) (conflict : K → string → policy_error) (ps : list Profile).

Definition key_is (k : K) (m : R * string) : Prop := canonical m.1 = Ok k.
#[export] Instance key_is_dec k m : Decision (key_is k m).
Proof.
  unfold key_is. destruct (canonical m.1) as [k'|]; [|by right].
  destruct (decide (k' = k)) as [->|]; [by left|right; congruence].
Defined.
Definition named (m : R * string) : string :=
  match profileByName ps m.2 with Ok (_, p) => pr_ID p | Err _ => "" end.
(** The last binding of a key decides, then whether it is unbound. *)
Definition patched (request : patch R) (t : gmap K string) (k : K) : option string :=
  match last (filter (key_is k) (pt_Bind request)) with
  | Some m => Some (named m)
  | None => if decide (Exists (key_is k) (pt_Unbind request)) then None else t !! k
  end.
(** A binding that a successful request makes. *)
Definition bindable (m : R * string) : Prop :=
  ∃ k i p, canonical m.1 = Ok k ∧ profileByName ps m.2 = Ok (i, p) ∧ pr_Removed p = false.

Lemma unbind_effect l t t' : foldM (spec_unbind canonical mismatch ps) l t = Ok t' →
  ∀ k, t' !! k = if decide (Exists (key_is k) l) then None else t !! k.
Proof.
  revert t'. induction l as [|m l IH] using rev_ind; intros t'.
  { intros [= <-] k. rewrite decide_False; [done|]. by intros ?%Exists_nil. }
  rewrite foldM_snoc. intros (t1 & H1 & H2)%bind_ok_inv k. pose proof (IH _ H1 k) as Hk. clear H1. rename Hk into H1.
  unfold spec_unbind in H2. apply bind_ok_inv in H2 as (k' & Hk' & H2).
  assert (Hex : Exists (key_is k) (l ++ [m]) ↔ Exists (key_is k) l ∨ k' = k).
  { rewrite Exists_app, Exists_cons, Exists_nil. unfold key_is at 2. rewrite Hk'. split; naive_solver congruence. }
  assert (Ht' : t' !! k = if decide (k' = k) then None else t1 !! k).
  { clear H1. destruct (decide (k' = k)) as [<-|Hne]; destruct (t1 !! k') as [id|] eqn:Et;
      try (injection H2 as <-; done); apply bind_ok_inv in H2 as (? & _ & [= <-]);
      [by rewrite lookup_delete_eq|by rewrite lookup_delete_ne]. }
  rewrite Ht', H1. clear H1 Ht'. repeat case_decide; tauto.
Qed.
Lemma bind_effect replace l t t' : foldM (spec_bind canonical conflict ps replace) l t = Ok t' →
  Forall bindable l ∧ ∀ k, t' !! k = match last (filter (key_is k) l) with Some m => Some (named m) | None => t !! k end.
Proof.
  revert t'. induction l as [|m l IH] using rev_ind; intros t'; [intros [= <-]; split; [constructor|done]|].
  rewrite foldM_snoc. intros (t1 & H1%IH & H2)%bind_ok_inv. destruct H1 as [Hall H1].
  unfold spec_bind in H2. apply bind_ok_inv in H2 as (k' & Hk' & H2).
  apply bind_ok_inv in H2 as ([i p] & Hp & H2). ok_guard H2 as Hr.
  assert (Ht' : t' = <[k' := pr_ID p]> t1).
  { destruct (t1 !! k'); [ok_guard H2 as Hg|]; by injection H2 as <-. }
  split.
  - apply Forall_app. split; [done|]. apply Forall_singleton. by exists k', i, p.
  - intros k. rewrite filter_app, Ht'. destruct (decide (k' = k)) as [<-|Hne].
    + rewrite lookup_insert_eq, (filter_cons_True (key_is k')) by done. rewrite filter_nil, last_snoc.
      unfold named. by rewrite Hp.
    + rewrite lookup_insert_ne by done. rewrite (filter_cons_False (key_is k)).
      2:{ unfold key_is. rewrite Hk'. congruence. }
      by rewrite filter_nil, app_nil_r.
Qed.
Lemma patch_effect request t t' : spec_patch canonical mismatch conflict ps request t = Ok t' →
  Forall bindable (pt_Bind request) ∧ ∀ k, t' !! k = patched request t k.
Proof.
  intros (t1 & Hu & Hb)%bind_ok_inv. pose proof (unbind_effect _ _ _ Hu) as H1.
  apply bind_effect in Hb as [Hall Hb]. split; [done|]. intros k. rewrite Hb. unfold patched.
  destruct (last _); [done|]. apply H1.
Qed.
End effect.

(** ** The accept-all flags *)

Section accept.
Context (set : Profile → bool → Profile).
Hypothesis set_name : ∀ p x, profileName (set p x) = profileName p.
Hypothesis set_removed : ∀ p x, pr_Removed (set p x) = pr_Removed p.
Hypothesis set_set : ∀ p x y, set (set p x) y = set p y.

Definition last_accept (order : list (string * bool)) (name : string) : option bool :=
  (last (filter (λ e, TrimSpace e.1 = name) order)) ≫= λ e, Some e.2.
Definition accepted (order : list (string * bool)) (p : Profile) : Profile :=
  match last_accept order (profileName p) with Some x => set p x | None => p end.
Lemma accepted_name order p : profileName (accepted order p) = profileName p.
Proof using set_name. unfold accepted. destruct (last_accept _ _); auto. Qed.
Lemma last_accept_snoc order e name :
  last_accept (order ++ [e]) name = if decide (TrimSpace e.1 = name) then Some e.2 else last_accept order name.
Proof using.
  unfold last_accept. rewrite filter_app. case_decide as Hd.
  - rewrite filter_cons_True, filter_nil, last_snoc by done. done.
  - rewrite filter_cons_False, filter_nil, app_nil_r by done. done.
Qed.
Lemma accept_effect order ps ps' : NoDup (profileName <$> ps) →
  foldM (accept_step set) order ps = Ok ps' → ps' = accepted order <$> ps.
Proof using set_name set_set.
  intros Hnd. revert ps'. induction order as [|e order IH] using rev_ind; intros ps'.
  { intros [= <-]. symmetry. apply list_fmap_id. }
  rewrite foldM_snoc. intros (ps1 & ->%IH & H2)%bind_ok_inv. unfold accept_step in H2.
  apply bind_ok_inv in H2 as ([i q] & Hq & H2). ok_guard H2 as Hr. injection H2 as <-.
  apply profileByName_in in Hq as (Hi & _ & Hn). apply list_lookup_fmap_Some in Hi as (p & -> & Hp).
  rewrite accepted_name in Hn. apply list_eq. intros j. rewrite list_lookup_fmap.
  destruct (decide (i = j)) as [<-|Hne].
  - rewrite list_lookup_insert_eq by (rewrite length_fmap; by eapply lookup_lt_Some). rewrite Hp. simpl. f_equal.
    unfold accepted. rewrite last_accept_snoc, decide_True by done.
    destruct (last_accept order _); [by rewrite set_set|done].
  - rewrite list_lookup_insert_ne, list_lookup_fmap by done. destruct (ps !! j) as [p'|] eqn:Ej; [|done]. simpl. f_equal.
    unfold accepted. rewrite last_accept_snoc, decide_False; [done|]. intros He. apply Hne.
    apply (NoDup_lookup (profileName <$> ps) i j (profileName p)); [done|..]; rewrite list_lookup_fmap; [by rewrite Hp|].
    rewrite Ej. simpl. congruence.
Qed.
End accept.

(** A map ranged over in any order: the flags and the success of the loop only
    depend on the entries when no two names are the same once trimmed. *)
Section accept_order.
Context (set : Profile → bool → Profile).
Hypothesis set_name : ∀ p x, profileName (set p x) = profileName p.
Hypothesis set_removed : ∀ p x, pr_Removed (set p x) = pr_Removed p.
Hypothesis set_set : ∀ p x y, set (set p x) y = set p y.

Definition trim_distinct (order : list (string * bool)) : Prop := NoDup ((λ e, TrimSpace e.1) <$> order).
Lemma last_accept_elem order e : trim_distinct order → e ∈ order → last_accept order (TrimSpace e.1) = Some e.2.
Proof using.
  intros Hd He. induction order as [|x order IH] using rev_ind; [by apply elem_of_nil in He|].
  unfold trim_distinct in *. rewrite fmap_app in Hd. apply NoDup_app in Hd as (Hd & Hx & _). rewrite last_accept_snoc.
  apply elem_of_snoc in He as [He| ->]; [|by rewrite decide_True].
  rewrite decide_False; [by apply IH|]. intros Heq. apply (Hx (TrimSpace e.1)).
  - by apply (list_elem_of_fmap_2 (λ e, TrimSpace e.1)).
  - rewrite <-Heq. left.
Qed.
Lemma last_accept_in order name x : last_accept order name = Some x → ∃ e, e ∈ order ∧ TrimSpace e.1 = name ∧ e.2 = x.
Proof using.
  unfold last_accept. destruct (last _) as [e|] eqn:E; [|done]. intros [= <-].
  apply last_Some_elem_of, list_elem_of_filter in E as [? ?]. by exists e.
Qed.
Lemma last_accept_perm o1 o2 name : o1 ≡ₚ o2 → trim_distinct o1 → last_accept o1 name = last_accept o2 name.
Proof using.
  intros Hp Hd. assert (Hd2 : trim_distinct o2) by (unfold trim_distinct; by rewrite <-Hp).
  apply option_eq. intros x. split; intros (e & He & <- & <-)%last_accept_in; (apply last_accept_elem; [done|]).
  - by rewrite <-Hp.
  - by rewrite Hp.
Qed.
(** A name the loop accepts. *)
Definition acceptable (ps : list Profile) (e : string * bool) : Prop :=
  ∃ i p, profileByName ps e.1 = Ok (i, p) ∧ pr_Removed p = false.
Lemma profileByName_accepted order ps name : profileByName (accepted set order <$> ps) name =
  match profileByName ps name with Ok (i, p) => Ok (i, accepted set order p) | Err e => Err e end.
Proof using set_name.
  unfold profileByName. cbv zeta. rewrite list_find_fmap.
  rewrite (list_find_ext _ (λ p, profileName p = TrimSpace name)).
  2:{ intros p. unfold compose. by rewrite accepted_name. }
  by destruct (list_find _ ps) as [[i p]|].
Qed.
Lemma accept_ok order ps : NoDup (profileName <$> ps) →
  is_ok (foldM (accept_step set) order ps) = true ↔ Forall (acceptable ps) order.
Proof using set_name set_removed set_set.
  intros Hnd. induction order as [|e order IH] using rev_ind; [split; [constructor|done]|].
  rewrite foldM_snoc, Forall_app, Forall_singleton.
  destruct (foldM (accept_step set) order ps) as [ps1|err] eqn:E; cbn [mbind result_bind].
  2:{ split; [done|]. by intros [?%IH _]. }
  apply accept_effect in E; [|done..]. subst ps1. unfold accept_step. rewrite profileByName_accepted.
  assert (Hr : ∀ p, pr_Removed (accepted set order p) = pr_Removed p).
  { intros p. unfold accepted. destruct (last_accept _ _); [by rewrite set_removed|done]. }
  unfold acceptable. destruct (profileByName ps e.1) as [[i p]|err]; cbn [mbind result_bind].
  - rewrite Hr. destruct (pr_Removed p) eqn:Er; cbn.
    + split; [done|]. intros [_ (? & ? & [= <- <-] & ?)]. congruence.
    + split; [|done]. intros _. split; [by apply IH|]. by exists i, p.
  - split; [done|]. by intros [_ (? & ? & ? & _)].
Qed.
Lemma accept_order_free o1 o2 ps ps1 : NoDup (profileName <$> ps) → o1 ≡ₚ o2 → trim_distinct o1 →
  foldM (accept_step set) o1 ps = Ok ps1 → foldM (accept_step set) o2 ps = Ok ps1.
Proof using set_name set_removed set_set.
  intros Hnd Hp Hd H1. assert (Hok : is_ok (foldM (accept_step set) o2 ps) = true).
  { apply accept_ok; [done|]. rewrite <-Hp. apply accept_ok; [done|]. by rewrite H1. }
  destruct (foldM _ o2 ps) as [ps2|] eqn:H2; [|done]. f_equal. apply accept_effect in H1, H2; [|done..]. subst.
  apply list_fmap_ext. intros _ p _. unfold accepted. by rewrite (last_accept_perm o1 o2).
Qed.
End accept_order.

(** ** States in normal form *)

Lemma StronglySorted_key {A} (key : A → string) l :
  StronglySorted (not_after (less_key key)) l ↔ StronglySorted (not_after str_lt) (key <$> l).
Proof.
  induction l as [|x l IH]; [split; constructor|]. cbn. split; intros [Hs Hx]%StronglySorted_inv; constructor.
  - by apply IH.
  - by apply Forall_fmap.
  - by apply IH.
  - apply (Forall_fmap key (not_after str_lt (key x)) l) in Hx. exact Hx.
Qed.
Lemma normalize_keep {A K} `{Countable K} (key : A → K) (entry : A → option (K * A)) bs :
  Forall (λ b, entry b = Some (key b, b)) bs → NoDup (key <$> bs) → map_values (build_map entry bs) ≡ₚ bs.
Proof.
  intros He Hnd. rewrite Forall_forall in He.
  assert (Hkey : ∀ k v, build_map entry bs !! k = Some v → key v = k ∧ v ∈ bs).
  { intros k v (x & Hx & Ex)%build_map_lookup%decides_elem. rewrite (He x Hx) in Ex. by injection Ex as <- <-. }
  apply NoDup_Permutation.
  - apply (NoDup_fmap_1 key). apply NoDup_map_values. by intros k v [? _]%Hkey.
  - by apply (NoDup_fmap_1 key).
  - intros v. rewrite (elem_of_map_values key) by (by intros ? ? [? _]%Hkey). split; [by intros [_ ?]%Hkey|].
    intros Hv. apply build_map_lookup. apply list_elem_of_split in Hv as Hs. destruct Hs as (l1 & l2 & ->).
    exists l1, v, l2. split_and!; [done|by apply He|]. intros y v' Hy Hy'.
    rewrite He in Hy' by (apply elem_of_app; right; by right). injection Hy' as Hk _.
    rewrite fmap_app, fmap_cons in Hnd. apply NoDup_app in Hnd as (_ & _ & [Hn _]%NoDup_cons).
    apply Hn. rewrite <-Hk. by apply list_elem_of_fmap_2.
Qed.

Section normal.
Context {F : Type} `{FL : DNSNameLaws F}.

Record policy_ok (st : State) : Prop := {
  ok_wf : state_wf st; ok_normal : Normalize st = st; ok_ids : ∀ p, p ∈ st_Profiles st → pr_ID p ≠ "" }.

Record normal_fields (st : State) : Prop := {
  nf_profiles : profiles_normal (st_Profiles st);
  nf_ip : normalize_ip_bindings (st_IPRouteBindings st) = st_IPRouteBindings st;
  nf_dns : normalize_dns_bindings (st_DNSRouteBindings st) = st_DNSRouteBindings st;
  nf_search : normalize_search (st_SearchDomains st) = st_SearchDomains st;
  nf_exit : normalize_exit (st_ExitNode st) = st_ExitNode st }.
Lemma normal_iff st : Normalize st = st ↔ normal_fields st.
Proof.
  split.
  - intros E. pose proof (Normalize_profiles_normal st) as Hp. rewrite E in Hp.
    split; [done|..]; [by apply (f_equal st_IPRouteBindings) in E|by apply (f_equal st_DNSRouteBindings) in E|
      by apply (f_equal st_SearchDomains) in E|by apply (f_equal st_ExitNode) in E].
  - intros [Hp H1 H2 H3 H4]. apply profiles_normal_fix in Hp. destruct st. unfold Normalize. cbn in *. congruence.
Qed.

Definition good_ip (b : IPRouteBinding) : Prop := prefix.wf (ib_Prefix b) = true ∧ ip_entry b = Some (ip_bound_key b, b).
Definition good_ip_key (k : Prefix) : Prop := prefix.wf k = true ∧ prefix.IsValid k = true ∧ prefix.Masked k = k.
Definition good_dns (b : DNSRouteBinding) : Prop := domain_clean (db_Domain b) ∧ dns_entry b = Some (dns_bound_key b, b).
Definition good_dns_key (k : string) : Prop := domain_clean k ∧ normalizeDomain k = k ∧ k ≠ "".

Lemma ip_entry_inv b k v : ip_entry b = Some (k, v) → v = MkIPBinding (prefix.Masked (ib_Prefix b)) (ib_ProfileID b) ∧
  k = prefix.Masked (ib_Prefix b) ∧ prefix.IsValid (ib_Prefix b) = true ∧ ib_ProfileID b ≠ "".
Proof.
  unfold ip_entry. destruct (prefix.IsValid (ib_Prefix b)); [|done]. destruct (String.eqb_spec (ib_ProfileID b) ""); [done|].
  by intros [= <- <-].
Qed.
Lemma good_ip_key_of b : good_ip b → ib_Prefix b = ip_bound_key b ∧ good_ip_key (ip_bound_key b) ∧ ib_ProfileID b ≠ "".
Proof.
  intros [Hwf He]. apply ip_entry_inv in He as (Hb & _ & Hv & Hid).
  assert (Hp : ib_Prefix b = prefix.Masked (ib_Prefix b)) by (rewrite Hb at 1; done).
  unfold ip_bound_key. rewrite <-!Hp. split_and!; done.
Qed.
Lemma ip_mk_good k id : good_ip_key k → id ≠ "" →
  ip_bound_key (MkIPBinding k id) = k ∧ ib_ProfileID (MkIPBinding k id) = id ∧ good_ip (MkIPBinding k id).
Proof.
  intros (Hwf & Hv & Hm) Hid. unfold ip_bound_key. cbn. split_and!; [done|done|]. split; [done|].
  unfold ip_entry, ip_bound_key. cbn. rewrite Hv, Hm. apply String.eqb_neq in Hid. by rewrite Hid.
Qed.
Lemma ip_set_good b id : good_ip b → id ≠ "" → ip_bound_key (ip_set_profile b id) = ip_bound_key b ∧
  ib_ProfileID (ip_set_profile b id) = id ∧ good_ip (ip_set_profile b id).
Proof.
  intros (Hb & Hk & _)%good_ip_key_of Hid. unfold ip_set_profile. rewrite Hb.
  destruct (ip_mk_good _ id Hk Hid) as (? & ? & ?). done.
Qed.

Lemma dns_entry_inv b k v : dns_entry b = Some (k, v) → v = MkDNSBinding (dns_bound_key b) (db_ProfileID b) ∧
  k = dns_bound_key b ∧ dns_bound_key b ≠ "" ∧ db_ProfileID b ≠ "".
Proof.
  unfold dns_entry. change (normalizeDomain (db_Domain b)) with (dns_bound_key b). cbv zeta.
  destruct (String.eqb_spec (dns_bound_key b) ""); [done|]. destruct (String.eqb_spec (db_ProfileID b) ""); [done|].
  by intros [= <- <-].
Qed.
Lemma good_dns_key_of b : good_dns b → db_Domain b = dns_bound_key b ∧ good_dns_key (dns_bound_key b) ∧ db_ProfileID b ≠ "".
Proof.
  intros [Hc He]. apply dns_entry_inv in He as (Hb & _ & Hn & Hid).
  assert (Hp : db_Domain b = dns_bound_key b) by (rewrite Hb at 1; done).
  split_and!; [done| |done]. rewrite <-Hp. split_and!; [done| |congruence]. symmetry. exact Hp.
Qed.
Lemma dns_mk_good k id : good_dns_key k → id ≠ "" →
  dns_bound_key (MkDNSBinding k id) = k ∧ db_ProfileID (MkDNSBinding k id) = id ∧ good_dns (MkDNSBinding k id).
Proof.
  intros (Hc & Hn & Hne) Hid. unfold good_dns, dns_entry. cbn [db_Domain db_ProfileID].
  change (dns_bound_key (MkDNSBinding k id)) with (normalizeDomain k). rewrite Hn.
  apply String.eqb_neq in Hne, Hid. rewrite Hne, Hid. done.
Qed.
Lemma dns_set_good b id : good_dns b → id ≠ "" → dns_bound_key (dns_set_profile b id) = dns_bound_key b ∧
  db_ProfileID (dns_set_profile b id) = id ∧ good_dns (dns_set_profile b id).
Proof.
  intros (Hb & Hk & _)%good_dns_key_of Hid. unfold dns_set_profile. rewrite Hb.
  destruct (dns_mk_good _ id Hk Hid) as (? & ? & ?). done.
Qed.
End normal.

Section tables.
Context {K B : Type} `{Countable K} (bound_key : B → K) (b_profile : B → string) (good : B → Prop).
Lemma tabled_perm bs bs' t : bs' ≡ₚ bs → tabled bound_key b_profile good bs t → tabled bound_key b_profile good bs' t.
Proof.
  intros Hp (Hnd & Hg & <-). assert (Hnd' : NoDup (bound_key <$> bs')) by (by rewrite Hp).
  split_and!; [done|by rewrite Hp|]. apply map_eq. intros k. apply option_eq. intros id.
  rewrite !lookup_table_of by done. by setoid_rewrite Hp.
Qed.
End tables.

Section guarantees.
Context {F : Type} `{FL : DNSNameLaws F} (CGNATRange TailscaleULARange : Prefix) (ServiceIP : Addr).
Local Notation validatePolicyPrefix := (validatePolicyPrefix CGNATRange TailscaleULARange ServiceIP).
Local Notation applyIPPatchLocked := (applyIPPatchLocked CGNATRange TailscaleULARange ServiceIP).

Definition ip_table (st : State) : gmap Prefix string := table_of ip_bound_key ib_ProfileID (st_IPRouteBindings st).
Definition dns_table (st : State) : gmap string string := table_of dns_bound_key db_ProfileID (st_DNSRouteBindings st).
Definition ip_tabled := tabled ip_bound_key ib_ProfileID good_ip.
Definition dns_tabled := tabled dns_bound_key db_ProfileID good_dns.

Lemma normalize_ip_tabled bs t : ip_tabled bs t → ip_tabled (normalize_ip_bindings bs) t.
Proof using FL.
  intros Ht. eapply tabled_perm; [|done]. destruct Ht as (Hnd & Hg & _). unfold normalize_ip_bindings.
  rewrite go_sort_Permutation. apply (normalize_keep ip_bound_key); [|done].
  eapply Forall_impl; [exact Hg|]. by intros b [_ ?].
Qed.
Lemma normalize_dns_tabled bs t : dns_tabled bs t → dns_tabled (normalize_dns_bindings bs) t.
Proof using FL.
  intros Ht. eapply tabled_perm; [|done]. destruct Ht as (Hnd & Hg & _). unfold normalize_dns_bindings.
  rewrite go_sort_Permutation. apply (normalize_keep dns_bound_key); [|done].
  eapply Forall_impl; [exact Hg|]. by intros b [_ ?].
Qed.
Lemma policy_ip_tabled st : policy_ok st → ip_tabled (st_IPRouteBindings st) (ip_table st).
Proof using FL.
  intros [[Hwf _ _] Hn _]. apply normal_iff in Hn as [_ Hn _ _ _].
  assert (Hin : ∀ b, b ∈ st_IPRouteBindings st → ip_entry b = Some (ip_bound_key b, b)).
  { intros b Hb. rewrite <-Hn in Hb. unfold normalize_ip_bindings, map_values in Hb.
    apply elem_of_go_sort, list_elem_of_fmap in Hb as ([k b'] & -> & Hb%elem_of_map_to_list). cbn.
    pose proof (ip_entry_fix _ _ k b' Hwf eq_refl Hb) as He. apply ip_entry_inv in He as Hi.
    destruct Hi as (_ & -> & _). exact He. }
  assert (Hg : Forall good_ip (st_IPRouteBindings st)).
  { rewrite Forall_forall in Hwf |- *. intros b Hb. split; [by apply Hwf|by apply Hin]. }
  split_and!; [|done|done]. rewrite <-Hn. unfold normalize_ip_bindings. rewrite go_sort_Permutation.
  apply NoDup_map_values. intros k v Hk. pose proof (ip_entry_fix _ _ k v Hwf eq_refl Hk) as He.
  by apply ip_entry_inv in He as (_ & -> & _).
Qed.
Lemma policy_dns_tabled st : policy_ok st → dns_tabled (st_DNSRouteBindings st) (dns_table st).
Proof using FL.
  intros [[_ Hwf _] Hn _]. apply normal_iff in Hn as [_ _ Hn _ _].
  assert (Hin : ∀ b, b ∈ st_DNSRouteBindings st → dns_entry b = Some (dns_bound_key b, b)).
  { intros b Hb. rewrite <-Hn in Hb. unfold normalize_dns_bindings, map_values in Hb.
    apply elem_of_go_sort, list_elem_of_fmap in Hb as ([k b'] & -> & Hb%elem_of_map_to_list). cbn.
    pose proof (dns_entry_fix _ _ k b' Hwf eq_refl Hb) as He. apply dns_entry_inv in He as Hi.
    destruct Hi as (_ & -> & _). exact He. }
  assert (Hg : Forall good_dns (st_DNSRouteBindings st)).
  { rewrite Forall_forall in Hwf |- *. intros b Hb. split; [by apply Hwf|by apply Hin]. }
  split_and!; [|done|done]. rewrite <-Hn. unfold normalize_dns_bindings. rewrite go_sort_Permutation.
  apply NoDup_map_values. intros k v Hk. pose proof (dns_entry_fix _ _ k v Hwf eq_refl Hk) as He.
  by apply dns_entry_inv in He as (_ & -> & _).
Qed.

(** The accept-all loop keeps the profile list in normal form. *)
Lemma accept_normal set ps order ps' :
  (∀ p x, pr_ID (set p x) = pr_ID p ∧ (default_profile p = p → default_profile (set p x) = set p x)) →
  foldM (accept_step set) order ps = Ok ps' → profiles_normal ps → profiles_normal ps' ∧ pr_ID <$> ps' = pr_ID <$> ps.
Proof using.
  intros Hset Hf [Hd Hs].
  enough (Forall (λ p, default_profile p = p) ps' ∧ pr_ID <$> ps' = pr_ID <$> ps) as [Hd' Hi].
  { split; [split|done]; [done|]. apply (StronglySorted_key pr_ID). rewrite Hi. by apply (StronglySorted_key pr_ID). }
  apply (foldM_ind (λ _ qs, Forall (λ p, default_profile p = p) qs ∧ pr_ID <$> qs = pr_ID <$> ps) _ _ _ _ Hf); [done|].
  intros _ e qs qs' _ [Hq Hi] Hst. unfold accept_step in Hst.
  apply bind_ok_inv in Hst as ([i p] & (Hl & Hp & _)%profileByName_in & Hst). ok_guard Hst as Hr. injection Hst as <-.
  rewrite Forall_forall in Hq. split.
  - apply Forall_insert; [by apply Forall_forall|]. apply Hset, Hq, Hp.
  - rewrite list_fmap_insert, <-Hi. destruct (Hset p e.2) as [-> _]. apply list_insert_id.
    rewrite list_lookup_fmap. by rewrite Hl.
Qed.
Lemma accept_ids (ps ps' : list Profile) : (∀ p, p ∈ ps → pr_ID p ≠ "") → pr_ID <$> ps' = pr_ID <$> ps → ∀ p, p ∈ ps' → pr_ID p ≠ "".
Proof using.
  intros Hids E p Hp%(list_elem_of_fmap_2 pr_ID). rewrite E in Hp. apply list_elem_of_fmap in Hp as (q & -> & Hq). auto.
Qed.
Lemma AcceptAllRoutes_keeps p x : pr_ID (set_AcceptAllRoutes p x) = pr_ID p ∧
  (default_profile p = p → default_profile (set_AcceptAllRoutes p x) = set_AcceptAllRoutes p x).
Proof using. split; [done|]. destruct p. unfold default_profile, set_AcceptAllRoutes. cbn. intros E. injection E. congruence. Qed.
Lemma AcceptAllDNSRoutes_keeps p x : pr_ID (set_AcceptAllDNSRoutes p x) = pr_ID p ∧
  (default_profile p = p → default_profile (set_AcceptAllDNSRoutes p x) = set_AcceptAllDNSRoutes p x).
Proof using. split; [done|]. destruct p. unfold default_profile, set_AcceptAllDNSRoutes. cbn. intros E. injection E. congruence. Qed.

(** Storing new bindings in a state in normal form. *)
Lemma store_ip st ps bs t : policy_ok st → profiles_normal ps → (∀ p, p ∈ ps → pr_ID p ≠ "") → ip_tabled bs t →
  let st' := set_IPRouteBindings (set_Profiles st ps) (normalize_ip_bindings bs) in
  Normalize (set_IPRouteBindings (set_Profiles st ps) bs) = st' ∧ policy_ok st' ∧ ip_table st' = t.
Proof using FL.
  intros [[Hw1 Hw2 Hw3] Hn _] Hps Hids Ht st'. apply normal_iff in Hn as [_ _ N2 N3 N4].
  pose proof (normalize_ip_tabled _ _ Ht) as (Hnd & Hg & Htab).
  assert (Hwf : Forall (λ b, prefix.wf (ib_Prefix b) = true) (normalize_ip_bindings bs)).
  { eapply Forall_impl; [exact Hg|]. by intros b [? _]. }
  split; [|split; [|done]].
  - unfold Normalize, st'. cbn -[normalize_search normalize_ip_bindings normalize_dns_bindings normalize_exit go_sort]. rewrite N2, N3, N4. by rewrite (profiles_normal_fix _ Hps).
  - split; [by split|apply normal_iff; split|]; try done. cbn. apply normalize_ip_idemp.
    destruct Ht as (_ & Hb & _). eapply Forall_impl; [exact Hb|]. by intros b [? _].
Qed.
Lemma store_dns st ps bs t : policy_ok st → profiles_normal ps → (∀ p, p ∈ ps → pr_ID p ≠ "") → dns_tabled bs t →
  let st' := set_DNSRouteBindings (set_Profiles st ps) (normalize_dns_bindings bs) in
  Normalize (set_DNSRouteBindings (set_Profiles st ps) bs) = st' ∧ policy_ok st' ∧ dns_table st' = t.
Proof using FL.
  intros [[Hw1 Hw2 Hw3] Hn _] Hps Hids Ht st'. apply normal_iff in Hn as [_ N1 _ N3 N4].
  pose proof (normalize_dns_tabled _ _ Ht) as (Hnd & Hg & Htab).
  assert (Hwf : Forall (λ b, domain_clean (db_Domain b)) (normalize_dns_bindings bs)).
  { eapply Forall_impl; [exact Hg|]. by intros b [? _]. }
  split; [|split; [|done]].
  - unfold Normalize, st'. cbn -[normalize_search normalize_ip_bindings normalize_dns_bindings normalize_exit go_sort]. rewrite N1, N3, N4. by rewrite (profiles_normal_fix _ Hps).
  - split; [by split|apply normal_iff; split|]; try done. cbn. apply normalize_dns_idemp.
    destruct Ht as (_ & Hb & _). eapply Forall_impl; [exact Hb|]. by intros b [? _].
Qed.

Lemma validatePolicyPrefix_inv st p k : validatePolicyPrefix st p = Ok k → prefix.wf p = true →
  good_ip_key k ∧ k = prefix.Masked p ∧ p_bits k ≠ 0 ∧
  TUNTable.routeOverlapsReserved CGNATRange TailscaleULARange ServiceIP st k = false.
Proof using.
  intros Hok Hwf. unfold PolicyPatch.validatePolicyPrefix in Hok. ok_guard Hok as Hv%negb_false_iff. ok_guard Hok as Hb.
  ok_guard Hok as Hr. injection Hok as <-. pose proof (netip_facts.Masked_masked _ Hwf) as [Hm Hwf'].
  split_and!; [|done|lia|done]. split_and!; [done|by apply (netip_facts.Masked_IsValid p)|done].
Qed.
Lemma normalizeDomain_clean raw : domain_clean raw → domain_clean (normalizeDomain raw).
Proof using. unfold domain_clean. intros Hc. by rewrite !Hc. Qed.
Lemma canonicalDNSDomain_ok allowRoot raw k : canonicalDNSDomain allowRoot raw = Ok k →
  k = normalizeDomain raw ∧ k ≠ "" ∧ (allowRoot = false → k ≠ ".").
Proof using FL.
  unfold canonicalDNSDomain, normalizeDomain. cbv zeta. set (r := ToLower (TrimSpace raw)).
  destruct (String.eqb r ""); cbn; [done|]. destruct (ToFQDN r) as [d|] eqn:Hd; [|done].
  intros Hok. ok_guard Hok as Hg. destruct (decide (d = root)) as [->|Hne]; injection Hok as <-.
  - split_and!; [done|done|]. intros ->. by rewrite bool_decide_true in Hg.
  - destruct (WithoutTrailingDot_nonempty d) as [? ?]; [by exists r|done|done].
Qed.
Lemma canonicalDNSDomain_good allowRoot raw k : domain_clean raw → canonicalDNSDomain allowRoot raw = Ok k → good_dns_key k.
Proof using FL.
  intros Hc (-> & Hne & _)%canonicalDNSDomain_ok. split_and!; [by apply normalizeDomain_clean|exact Hc|done].
Qed.

(** ** The guarantees *)

Lemma ip_binding_eq b b' : good_ip b → good_ip b' → ip_bound_key b = ip_bound_key b' → ib_ProfileID b = ib_ProfileID b' → b = b'.
Proof using.
  intros (H1 & _)%good_ip_key_of (H2 & _)%good_ip_key_of Hk Hi. destruct b, b'. cbn in *. congruence.
Qed.
Lemma dns_binding_eq b b' : good_dns b → good_dns b' → dns_bound_key b = dns_bound_key b' → db_ProfileID b = db_ProfileID b' → b = b'.
Proof using.
  intros (H1 & _)%good_dns_key_of (H2 & _)%good_dns_key_of Hk Hi. rewrite <-H1, <-H2 in Hk. clear H1 H2.
  destruct b, b'. simpl in *. congruence.
Qed.
Lemma ip_patch_bindings st ps request : policy_ok st → (∀ p, p ∈ ps → pr_ID p ≠ "") →
  Forall (λ m, prefix.wf m.1 = true) (pt_Bind request) →
  match spec_patch (validatePolicyPrefix st) EMismatchIP EConflictIP ps request (ip_table st) with
  | Err e => patch_bindings (validatePolicyPrefix st) ip_bound_key ib_ProfileID MkIPBinding ip_set_profile
               EMismatchIP EConflictIP ps request (st_IPRouteBindings st) = Err e
  | Ok t => ∃ bs, patch_bindings (validatePolicyPrefix st) ip_bound_key ib_ProfileID MkIPBinding ip_set_profile
               EMismatchIP EConflictIP ps request (st_IPRouteBindings st) = Ok bs ∧ ip_tabled bs t
  end.
Proof using FL.
  intros Hst Hids Hwf. eapply (patch_refines _ _ _ _ _ _ _ good_ip good_ip_key).
  - apply ip_mk_good.
  - apply ip_set_good.
  - exact Hids.
  - intros m k Hm Hk. rewrite Forall_forall in Hwf. by destruct (validatePolicyPrefix_inv _ _ _ Hk (Hwf m Hm)).
  - by apply policy_ip_tabled.
Qed.
Lemma dns_patch_bindings st ps request : policy_ok st → (∀ p, p ∈ ps → pr_ID p ≠ "") →
  Forall (λ m, domain_clean m.1) (pt_Bind request) →
  match spec_patch (canonicalDNSDomain true) EMismatchDNS EConflictDNS ps request (dns_table st) with
  | Err e => patch_bindings (canonicalDNSDomain true) dns_bound_key db_ProfileID MkDNSBinding dns_set_profile
               EMismatchDNS EConflictDNS ps request (st_DNSRouteBindings st) = Err e
  | Ok t => ∃ bs, patch_bindings (canonicalDNSDomain true) dns_bound_key db_ProfileID MkDNSBinding dns_set_profile
               EMismatchDNS EConflictDNS ps request (st_DNSRouteBindings st) = Ok bs ∧ dns_tabled bs t
  end.
Proof using FL.
  intros Hst Hids Hwf. eapply (patch_refines _ _ _ _ _ _ _ good_dns good_dns_key).
  - apply dns_mk_good.
  - apply dns_set_good.
  - exact Hids.
  - intros m k Hm Hk. rewrite Forall_forall in Hwf. by eapply canonicalDNSDomain_good, Hk; apply Hwf.
  - by apply policy_dns_tabled.
Qed.

(** The request as an operation on the abstract table. *)
Definition spec_ip (st : State) (order : list (string * bool)) (request : patch Prefix) :
    result policy_error (list Profile * gmap Prefix string) :=
  ps ← foldM (accept_step set_AcceptAllRoutes) order (st_Profiles st);
  t ← spec_patch (validatePolicyPrefix st) EMismatchIP EConflictIP ps request (ip_table st);
  Ok (ps, t).
Definition spec_dns (st : State) (order : list (string * bool)) (request : patch string) :
    result policy_error (list Profile * gmap string string) :=
  ps ← foldM (accept_step set_AcceptAllDNSRoutes) order (st_Profiles st);
  t ← spec_patch (canonicalDNSDomain true) EMismatchDNS EConflictDNS ps request (dns_table st);
  Ok (ps, t).
Lemma ip_patch_spec st order request : policy_ok st → Forall (λ m, prefix.wf m.1 = true) (pt_Bind request) →
  match spec_ip st order request with
  | Err e => applyIPPatchLocked st order request = Err e
  | Ok (ps, t) => ∃ bs, let st' := set_IPRouteBindings (set_Profiles st ps) bs in
                  applyIPPatchLocked st order request = Ok st' ∧ ip_table st' = t ∧ policy_ok st'
  end.
Proof using FL.
  intros Hst Hwf. unfold spec_ip, PolicyPatch.applyIPPatchLocked.
  destruct (foldM _ order _) as [ps|e] eqn:Ea; cbn; [|done].
  apply accept_normal in Ea as [Hps Hi]; [|apply AcceptAllRoutes_keeps|by apply normal_iff, Hst].
  pose proof (accept_ids _ _ (ok_ids _ Hst) Hi) as Hids.
  pose proof (ip_patch_bindings st ps request Hst Hids Hwf) as Hp.
  change (validatePolicyPrefix (set_Profiles st ps)) with (validatePolicyPrefix st).
  destruct (spec_patch _ _ _ _ _ _) as [t|e]; cbn.
  - destruct Hp as (bs & -> & Ht). destruct (store_ip st ps bs t Hst Hps Hids Ht) as (E & Hok & Htab).
    exists (normalize_ip_bindings bs). cbn [mbind result_bind]. by rewrite E.
  - by rewrite Hp.
Qed.
Lemma dns_patch_spec st order request : policy_ok st → Forall (λ m, domain_clean m.1) (pt_Bind request) →
  match spec_dns st order request with
  | Err e => applyDNSPatchLocked st order request = Err e
  | Ok (ps, t) => ∃ bs, let st' := set_DNSRouteBindings (set_Profiles st ps) bs in
                  applyDNSPatchLocked st order request = Ok st' ∧ dns_table st' = t ∧ policy_ok st'
  end.
Proof using FL.
  intros Hst Hwf. unfold spec_dns, PolicyPatch.applyDNSPatchLocked.
  destruct (foldM _ order _) as [ps|e] eqn:Ea; cbn; [|done].
  apply accept_normal in Ea as [Hps Hi]; [|apply AcceptAllDNSRoutes_keeps|by apply normal_iff, Hst].
  pose proof (accept_ids _ _ (ok_ids _ Hst) Hi) as Hids.
  pose proof (dns_patch_bindings st ps request Hst Hids Hwf) as Hp.
  destruct (spec_patch _ _ _ _ _ _) as [t|e]; cbn.
  - destruct Hp as (bs & -> & Ht). destruct (store_dns st ps bs t Hst Hps Hids Ht) as (E & Hok & Htab).
    exists (normalize_dns_bindings bs). cbn [mbind result_bind]. by rewrite E.
  - by rewrite Hp.
Qed.

(** C27. A request is an operation on a map.  On a state in normal form the loops
    over bindings do to the list exactly what their specification does to the
    map from prefixes to profiles, errors included; the new state is in normal
    form and differs from the old one only in the accept-all flags and the IP
    bindings. *)
Theorem applyIPPatchLocked_refines (st : State) order (request : patch Prefix) :
  policy_ok st → Forall (λ m, prefix.wf m.1 = true) (pt_Bind request) →
  match spec_ip st order request with
  | Err e => applyIPPatchLocked st order request = Err e
  | Ok (ps, t) => ∃ bs, let st' := set_IPRouteBindings (set_Profiles st ps) bs in
                  applyIPPatchLocked st order request = Ok st' ∧ ip_table st' = t ∧ policy_ok st'
  end.
Proof using FL. apply ip_patch_spec. Qed.

(** What a request for IP routes does.  When it succeeds, the last binding
    of a prefix decides it, else it is unbound when the request says so, else it
    is as before; the last accept-all entry of a profile's name decides its flag;
    every binding that is new avoids the reserved ranges; and nothing else of
    the state changes. *)
Theorem applyIPPatchLocked_effect (st st' : State) order (request : patch Prefix) :
  policy_ok st → NoDup (profileName <$> st_Profiles st) → Forall (λ m, prefix.wf m.1 = true) (pt_Bind request) →
  applyIPPatchLocked st order request = Ok st' →
  st' = set_IPRouteBindings (set_Profiles st (accepted set_AcceptAllRoutes order <$> st_Profiles st)) (st_IPRouteBindings st') ∧
  (∀ k, ip_table st' !! k = patched (validatePolicyPrefix st) (st_Profiles st') request (ip_table st) k) ∧
  (∀ b, b ∈ st_IPRouteBindings st' → b ∈ st_IPRouteBindings st ∨
     p_bits (ib_Prefix b) ≠ 0 ∧
     TUNTable.routeOverlapsReserved CGNATRange TailscaleULARange ServiceIP st (ib_Prefix b) = false).
Proof using FL.
  intros Hst Hnd Hwf Hap. pose proof (ip_patch_spec st order request Hst Hwf) as Hsp.
  destruct (spec_ip st order request) as [[ps t]|e] eqn:Es; [|congruence].
  destruct Hsp as (bs & Hap' & Htab & Hok). rewrite Hap in Hap'. injection Hap' as ->.
  unfold spec_ip in Es. apply bind_ok_inv in Es as (ps1 & Hacc & Es). apply bind_ok_inv in Es as (t1 & Hpt & Es).
  injection Es as -> ->. apply accept_effect in Hacc; [|done..]. apply patch_effect in Hpt as [Hall Hpt].
  pose proof (policy_ip_tabled _ Hok) as (Hnd' & Hg' & _). pose proof (policy_ip_tabled _ Hst) as (Hnd0 & Hg0 & _).
  split_and!; [by rewrite <-Hacc|intros k; rewrite Htab; apply Hpt|].
  intros b Hb. assert (Hk : ip_table (set_IPRouteBindings (set_Profiles st ps) bs) !! ip_bound_key b = Some (ib_ProfileID b)).
  { apply lookup_table_of; [done|]. by exists b. }
  rewrite Htab, Hpt in Hk. unfold patched in Hk. rewrite Forall_forall in Hg', Hg0. pose proof (Hg' b Hb) as Hgb.
  destruct (last _) as [m|] eqn:El.
  - right. apply last_Some_elem_of, list_elem_of_filter in El as [Hm Hin]. rewrite Forall_forall in Hwf.
    destruct (validatePolicyPrefix_inv _ _ _ Hm (Hwf m Hin)) as (_ & _ & Hbits & Hres).
    destruct (good_ip_key_of b Hgb) as [-> _]. done.
  - left. destruct (decide (Exists _ _)); [done|]. apply lookup_table_of in Hk as (b' & Hb' & Ek & Ei); [|done].
    by rewrite (ip_binding_eq b b' Hgb (Hg0 b' Hb')).
Qed.

(** DNS routes likewise: a request is its specification on the map from
    canonical domains to profiles, and when it succeeds the last binding of a
    domain decides it, else an unbinding, else the old binding. *)
Theorem applyDNSPatchLocked_refines (st : State) order (request : patch string) :
  policy_ok st → NoDup (profileName <$> st_Profiles st) → Forall (λ m, domain_clean m.1) (pt_Bind request) →
  match spec_dns st order request with
  | Err e => applyDNSPatchLocked st order request = Err e
  | Ok (ps, t) => ps = accepted set_AcceptAllDNSRoutes order <$> st_Profiles st ∧
      ∃ bs, let st' := set_DNSRouteBindings (set_Profiles st ps) bs in
      applyDNSPatchLocked st order request = Ok st' ∧ policy_ok st' ∧ dns_table st' = t ∧
      ∀ k, t !! k = patched (canonicalDNSDomain true) ps request (dns_table st) k
  end.
Proof using FL.
  intros Hst Hnd Hwf. pose proof (dns_patch_spec st order request Hst Hwf) as Hsp.
  destruct (spec_dns st order request) as [[ps t]|e] eqn:Es; [|done].
  destruct Hsp as (bs & Hap & Htab & Hok). unfold spec_dns in Es.
  apply bind_ok_inv in Es as (ps1 & Hacc & Es). apply bind_ok_inv in Es as (t1 & Hpt & Es). injection Es as -> ->.
  apply accept_effect in Hacc; [|done..]. apply patch_effect in Hpt as [_ Hpt]. split; [done|]. by exists bs.
Qed.

(** A binding that meets a reserved range cannot be unbound by name: its prefix
    is refused before the binding is looked up. *)
Theorem reserved_binding_stuck (st : State) order (request : patch Prefix) p name rest :
  foldM (accept_step set_AcceptAllRoutes) order (st_Profiles st) = Ok (st_Profiles st) →
  prefix.IsValid p = true → p_bits (prefix.Masked p) ≠ 0 →
  TUNTable.routeOverlapsReserved CGNATRange TailscaleULARange ServiceIP st (prefix.Masked p) = true →
  pt_Unbind request = (p, name) :: rest →
  applyIPPatchLocked st order request = Err (EReservedRoute (prefix.Masked p)).
Proof using.
  intros Ha Hv Hb Hr Hu. unfold PolicyPatch.applyIPPatchLocked, patch_bindings. rewrite Ha, Hu. cbn [mbind result_bind foldM].
  unfold unbind. cbn [fst]. unfold PolicyPatch.validatePolicyPrefix. rewrite Hv. cbn [negb guard_err mbind result_bind].
  apply Z.eqb_neq in Hb. rewrite Hb. cbn [guard_err mbind result_bind].
  change (TUNTable.routeOverlapsReserved CGNATRange TailscaleULARange ServiceIP (set_Profiles st (st_Profiles st)))
    with (TUNTable.routeOverlapsReserved CGNATRange TailscaleULARange ServiceIP st). by rewrite Hr.
Qed.

(** *** Search domains *)

(** What a loop that appends new domains adds. *)
Record desired_ok (l raws : list string) (s : list string * gset string) : Prop := {
  de_prefix : l `prefix_of` s.1; de_seen x : x ∈ s.2 ↔ x ∈ s.1; de_nodup : NoDup l → NoDup s.1;
  de_elem x : x ∈ s.1 ↔ x ∈ l ∨ ∃ raw, raw ∈ raws ∧ canonicalDNSDomain (F:=F) false raw = Ok x }.
Lemma add_desired_ok l raws s : foldM (add_desired (F:=F)) raws (l, list_to_set l) = Ok s → desired_ok l raws s.
Proof using.
  intros Hf. apply (foldM_ind (desired_ok l) _ _ _ _ Hf).
  { split; [done|intros x; apply elem_of_list_to_set|done|]. intros x. split; [by left|]. by intros [?|(? & ?%elem_of_nil & _)]. }
  intros pre raw [d seen] s2 _ [Hp Hs Hn He] Hst. unfold add_desired in Hst. apply bind_ok_inv in Hst as (x & Hx & Hst). cbn [fst snd] in *.
  assert (Hnew : ∀ y, (∃ r, r ∈ pre ++ [raw] ∧ canonicalDNSDomain (F:=F) false r = Ok y) ↔
    (∃ r, r ∈ pre ∧ canonicalDNSDomain (F:=F) false r = Ok y) ∨ y = x).
  { intros y. split.
    - intros (r & [Hr| ->]%elem_of_snoc & Hy); [left; eauto|right; congruence].
    - intros [(r & Hr & Hy)| ->]; [exists r|exists raw]; (split; [apply elem_of_snoc; by auto|done]). }
  case_bool_decide as Hd; injection Hst as <-; split; cbn [fst snd].
  - done.
  - exact Hs.
  - exact Hn.
  - intros y. rewrite He, Hnew. split; [tauto|]. intros [?|[?| ->]]; [by left|by right|]. by apply He, Hs.
  - by apply prefix_app_r.
  - intros y. rewrite elem_of_snoc, elem_of_union, elem_of_singleton, Hs. tauto.
  - intros Hl. apply NoDup_snoc; [auto|]. by rewrite <-Hs.
  - intros y. rewrite elem_of_snoc, He, Hnew. tauto.
Qed.
(** Search domains.  A replaced list holds each canonical domain of the
    request once; a patched list holds the current domains that are not removed,
    in their order, then the added ones that were not there; neither holds the
    root or a domain that is not canonical, and a bad name refuses the request. *)
Theorem patch_search_sound (current add remove desired : list string) :
  search_ok current → Forall domain_clean add → patch_search (F:=F) current add remove = Ok desired →
  search_ok desired ∧
  filter (λ d, Forall (λ raw, normalizeDomain raw ≠ d) remove) current `prefix_of` desired ∧
  (∀ d, d ∈ desired ↔ (d ∈ current ∧ Forall (λ raw, normalizeDomain raw ≠ d) remove) ∨ ∃ raw, raw ∈ add ∧ normalizeDomain raw = d) ∧
  Forall (λ raw, is_ok (canonicalDNSDomain (F:=F) false raw) = true) (add ++ remove).
Proof using FL.
  intros [Hnd Hcur] Hadd Hp. unfold patch_search in Hp. apply bind_ok_inv in Hp as (rm & Hrm & Hp).
  apply bind_ok_inv in Hp as ([d seen] & Hd & Hp). injection Hp as <-.
  assert (Hrm' : (∀ x, x ∈ rm ↔ ∃ raw, raw ∈ remove ∧ canonicalDNSDomain (F:=F) false raw = Ok x) ∧
    Forall (λ raw, is_ok (canonicalDNSDomain (F:=F) false raw) = true) remove).
  { apply (λ g h, foldM_ind (λ rs m, (∀ x, x ∈ m ↔ ∃ raw, raw ∈ rs ∧ canonicalDNSDomain (F:=F) false raw = Ok x) ∧
      Forall (λ raw, is_ok (canonicalDNSDomain (F:=F) false raw) = true) rs) _ _ _ _ Hrm g h).
    - split; [|constructor]. intros x. split; [by intros ?%elem_of_empty|]. by intros (? & ?%elem_of_nil & _).
    - intros pre raw m m' _ [Hm Hall] (y & Hy & [= <-])%bind_ok_inv. split.
      + intros x. rewrite elem_of_union, elem_of_singleton, Hm. split.
        * intros [->|(r & ? & ?)]; [exists raw|exists r]; (split; [apply elem_of_snoc; by auto|done]).
        * intros (r & [?| ->]%elem_of_snoc & ?); [right; eauto|left; congruence].
      + apply Forall_app. split; [done|]. apply Forall_singleton. by rewrite Hy. }
  destruct Hrm' as [Hrm' Hok]. apply add_desired_ok in Hd as Hde. destruct Hde as [Hpre Hseen Hdup Helem]. cbn [fst snd] in *.
  assert (Hout : ∀ x, x ∉ rm ↔ Forall (λ raw, normalizeDomain raw ≠ x) remove).
  { intros x. rewrite Hrm'. rewrite Forall_forall in Hok |- *. split.
    - intros Hx raw Hr Heq. apply Hx. exists raw. split; [done|]. specialize (Hok raw Hr).
      destruct (canonicalDNSDomain false raw) as [y|] eqn:Ey; [|done].
      apply canonicalDNSDomain_ok in Ey as (-> & _ & _). congruence.
    - intros Hx (raw & Hr & (-> & _ & _)%canonicalDNSDomain_ok). by apply (Hx raw). }
  assert (Hadd' : Forall (λ raw, is_ok (canonicalDNSDomain (F:=F) false raw) = true) add).
  { clear -Hd. revert Hd. generalize (filter (λ d, d ∉ rm) current) at 1. generalize (list_to_set (C:=gset string) (filter (λ d, d ∉ rm) current)).
    induction add as [|raw add IH]; intros S l; cbn; [constructor|]. intros ([l' S'] & Hst & Hd)%bind_ok_inv.
    constructor; [|by eapply IH]. unfold add_desired in Hst. by apply bind_ok_inv in Hst as (y & -> & _). }
  assert (Hel : ∀ x, x ∈ d ↔ (x ∈ current ∧ Forall (λ raw, normalizeDomain raw ≠ x) remove) ∨ ∃ raw, raw ∈ add ∧ normalizeDomain raw = x).
  { intros x. rewrite Helem, list_elem_of_filter, Hout. split; (intros [[? ?]|(raw & Hr & Hx)]; [by left|right; exists raw; split; [done|]]).
    - by apply canonicalDNSDomain_ok in Hx as (-> & _ & _).
    - rewrite Forall_forall in Hadd'. specialize (Hadd' raw Hr).
      destruct (canonicalDNSDomain false raw) as [y|] eqn:Ey; [|done]. apply canonicalDNSDomain_ok in Ey as (-> & _ & _). by f_equal. }
  split_and!.
  - split; [by apply Hdup, NoDup_filter|]. apply Forall_forall. intros x Hx%Helem. rewrite Forall_forall in Hcur, Hadd.
    destruct Hx as [[_ Hx]%list_elem_of_filter|(raw & Hr & Hx)]; [by apply Hcur|].
    pose proof (canonicalDNSDomain_good _ _ _ (Hadd raw Hr) Hx) as (_ & ? & ?).
    apply canonicalDNSDomain_ok in Hx as (_ & _ & Hroot). by split_and!; [| |apply Hroot].
  - erewrite list_filter_iff; [exact Hpre|]. intros x. by rewrite Hout.
  - exact Hel.
  - by apply Forall_app.
Qed.
End guarantees.

(** ** Concrete requests *)

Notation Labels := (option (list string)).
(** [ServiceIP] of the examples is the one of the host pools. *)
Definition corp_ip_request : patch Prefix :=
  MkPatch [(MkPrefix (Addr4 167837697) 16, "home"); (MkPrefix (Addr4 167838208) 24, " work ")] [] true (<["work" := true]> ∅).
Definition corp_dns_request : patch string :=
  MkPatch [("Corp.Example.", "home"); ("corp.example", "work")] [("gone.example", "")] true ∅.
Definition patched_ip : result policy_error State :=
  applyIPPatchLocked (F:=Labels) test_cgnat test_ula (Addr4 1684300900) corp_state [("work", true)] corp_ip_request.
Lemma corp_policy_ok : policy_ok (F:=Labels) corp_state.
Proof.
  split; [split; [apply (bool_decide_unpack _); vm_compute; exact I|constructor|constructor]| |].
  - apply (bool_decide_unpack _). vm_compute. exact I.
  - intros p Hp. assert (Hall : Forall (λ p, pr_ID p ≠ "") (st_Profiles corp_state)) by (repeat constructor; done).
    rewrite Forall_forall in Hall. by apply Hall.
Qed.
Lemma corp_names : NoDup (profileName <$> st_Profiles corp_state).
Proof. apply (bool_decide_unpack _). vm_compute. exact I. Qed.
Lemma corp_request_wf : Forall (λ m : Prefix * string, prefix.wf m.1 = true) (pt_Bind corp_ip_request).
Proof. repeat constructor. Qed.
Lemma applyIPPatchLocked_refines_witness :
  is_ok (spec_ip test_cgnat test_ula (Addr4 1684300900) corp_state [("work", true)] corp_ip_request) = true ∧
  is_ok patched_ip = true.
Proof.
  assert (Hok : is_ok (spec_ip test_cgnat test_ula (Addr4 1684300900) corp_state [("work", true)] corp_ip_request) = true)
    by (vm_compute; reflexivity).
  split; [exact Hok|].
  pose proof (applyIPPatchLocked_refines (F:=Labels) test_cgnat test_ula (Addr4 1684300900) corp_state [("work", true)]
    corp_ip_request corp_policy_ok corp_request_wf) as H.
  destruct (spec_ip _ _ _ _ _ _) as [[ps t]|]; [|discriminate Hok].
  destruct H as (bs & H & _). unfold patched_ip. rewrite H. reflexivity.
Defined.
Lemma applyIPPatchLocked_effect_witness :
  match patched_ip with
  | Ok st' => st_IPRouteBindings st' = [MkIPBinding (MkPrefix (Addr4 167837696) 16) "home"; MkIPBinding (MkPrefix (Addr4 167838208) 24) "work"] ∧
              ip_table st' !! MkPrefix (Addr4 167838208) 24 = Some "work"
  | Err _ => False
  end.
Proof.
  assert (Hok : is_ok patched_ip = true) by (vm_compute; reflexivity).
  assert (Hb : match patched_ip with Ok st' => st_IPRouteBindings st' | Err _ => [] end =
    [MkIPBinding (MkPrefix (Addr4 167837696) 16) "home"; MkIPBinding (MkPrefix (Addr4 167838208) 24) "work"])
    by (vm_compute; reflexivity).
  destruct patched_ip as [st'|] eqn:E; [|discriminate Hok]. unfold patched_ip in E. split; [exact Hb|].
  destruct (applyIPPatchLocked_effect (F:=Labels) test_cgnat test_ula (Addr4 1684300900) corp_state st' [("work", true)]
    corp_ip_request corp_policy_ok corp_names corp_request_wf E) as (Heq & Ht & _).
  apply (f_equal st_Profiles) in Heq. rewrite Ht, Heq. vm_compute. reflexivity.
Defined.
Definition patched_dns : result policy_error State := applyDNSPatchLocked (F:=Labels) corp_state [] corp_dns_request.
Lemma corp_domains_clean : Forall (λ m : string * string, domain_clean m.1) (pt_Bind corp_dns_request).
Proof.
  repeat constructor; vm_compute; reflexivity.
Qed.
Lemma applyDNSPatchLocked_refines_witness :
  match patched_dns with Ok st' => dns_table (F:=Labels) st' !! "corp.example" = Some "work" | Err _ => False end.
Proof.
  assert (Hok : is_ok (spec_dns (F:=Labels) corp_state [] corp_dns_request) = true) by (vm_compute; reflexivity).
  pose proof (applyDNSPatchLocked_refines (F:=Labels) corp_state [] corp_dns_request corp_policy_ok corp_names
    corp_domains_clean) as H.
  destruct (spec_dns corp_state [] corp_dns_request) as [[ps t]|]; [|discriminate Hok].
  destruct H as (-> & bs & H & _ & Ht & Hk). unfold patched_dns. rewrite H, Ht, Hk. vm_compute. reflexivity.
Defined.
Definition searched : list string := match patch_search (F:=Labels) ["a.example"; "b.example"] ["C.example"; "b.example."] ["A.example"] with
  | Ok l => l | Err _ => [] end.
Lemma patch_search_sound_witness : searched = ["b.example"; "c.example"] ∧ search_ok (F:=Labels) searched.
Proof.
  assert (E : patch_search (F:=Labels) ["a.example"; "b.example"] ["C.example"; "b.example."] ["A.example"] = Ok searched)
    by (vm_compute; reflexivity).
  split; [vm_compute; reflexivity|].
  apply (patch_search_sound (F:=Labels) ["a.example"; "b.example"] ["C.example"; "b.example."] ["A.example"] searched); [|..|exact E].
  - split; [apply (bool_decide_unpack _); vm_compute; exact I|]. repeat constructor; vm_compute; done.
  - repeat constructor; vm_compute; reflexivity.
Defined.

(** Two keys that differ by white space name one profile, and the order in which
    Go ranges over them decides its flag. *)
Example accept_order_matters :
  foldM (accept_step set_AcceptAllRoutes) [("work", true); (" work", false)] (st_Profiles corp_state) ≠
  foldM (accept_step set_AcceptAllRoutes) [(" work", false); ("work", true)] (st_Profiles corp_state).
Proof. vm_compute. discriminate. Qed.
