(* ===== verification/ExitNodes.v ===== *)
(** * Exit nodes

    cmd/tailmixd/policyapi.go, the exit node half: which peer a selector of
    [SetExitNode] means, which of its addresses is stored, and the view of the
    available and the selected exit node ([exitNodesLocked]). *)

From S2P Require Import Prelude GoStrings Netip State Types HostPools LeasePlan RoutingPolicy TUNTable PolicyPatch.
Local Open Scope Z_scope.

Inductive exit_error : Type :=
  | EExitPolicy (e : policy_error)
  | EExitDisabled (name : string)
  | EExitNotRunning (name : string)
  | EEmptySelector
  | EExitNotFound (selector alias : string)
  | EExitAmbiguous (selector alias : string)
  | EExitNoAddress (selector : string).

Definition exitNodeLocation (location : option PeerLocation) : option api.ExitNodeLocation :=
  (λ l, api.MkExitNodeLocation (loc_Country l) (loc_CountryCode l) (loc_City l) (loc_CityCode l) (loc_Priority l)) <$> location.

(** ** Selecting a peer *)

(** Whether an exit node is meant by the selector: its identifier, one of its
    addresses, its name or the first label of its name. *)
Definition peer_matches (selector selectorName : string) (selectorIP : Addr) (peer : PeerStatus) : bool :=
  let peerName := ToLower (TrimSuffix (ps_DNSName peer) ".") in
  let shortName := (Cut peerName "."%char).1.1 in
  String.eqb (ps_NodeID peer) selector ||
  (addr.IsValid selectorIP && existsb (λ ip, bool_decide (ip = selectorIP)) (ps_TailscaleIPs peer)) ||
  (negb (String.eqb peerName "") && (String.eqb selectorName peerName || String.eqb selectorName shortName)).
Definition match_step (selector selectorName : string) (selectorIP : Addr) (matches : gmap string PeerStatus)
    (peer : PeerStatus) : gmap string PeerStatus :=
  if negb (ps_ExitNodeOption peer) then matches
  else if peer_matches selector selectorName selectorIP peer then <[ps_NodeID peer := peer]> matches
  else matches.
Definition selectExitNodePeer (status : Status) (selector : string) : result exit_error PeerStatus :=
  let selector := TrimSpace selector in
  _ ← guard_err (String.eqb selector "") EEmptySelector;
  let selectorName := ToLower (TrimSuffix selector ".") in
  let selectorIP := default AddrInvalid (ParseAddr selector) in
  let matches := foldl (match_step selector selectorName selectorIP) ∅ (s_Peers status) in
  match map_to_list matches with
  | [] => Err (EExitNotFound selector (s_Alias status))
  | [(_, peer)] => Ok peer
  | _ => Err (EExitAmbiguous selector (s_Alias status))
  end.

(** The loop of [preferredPeerIP]; [first] is the first valid address so far. *)
Fixpoint preferred_from (first : Addr) (ips : list Addr) : Addr :=
  match ips with
  | [] => first
  | ip :: ips =>
    if negb (addr.IsValid ip) then preferred_from first ips
    else
      let first := if negb (addr.IsValid first) then ip else first in
      if addr.Is4 ip then ip else preferred_from first ips
  end.
Definition preferredPeerIP (ips : list Addr) : Addr := preferred_from AddrInvalid ips.

(** ** SetExitNode, up to the commit *)

Definition choose_exit_node (st : State) (statuses : list Status) (name selector : string) : result exit_error State :=
  '(_, configured) ← wrap EExitPolicy (profileByName (st_Profiles st) name);
  _ ← guard_err (pr_Removed configured) (EExitPolicy (EProfileRemoved name));
  _ ← guard_err (pr_Disabled configured) (EExitDisabled name);
  match list_find (λ s, s_ProfileID s = pr_ID configured) statuses with
  | None => Err (EExitNotRunning name)
  | Some (_, selectedStatus) =>
    _ ← guard_err (negb (String.eqb (s_BackendState selectedStatus) "Running")) (EExitNotRunning name);
    peer ← selectExitNodePeer selectedStatus selector;
    let peerIP := preferredPeerIP (ps_TailscaleIPs peer) in
    _ ← guard_err (negb (addr.IsValid peerIP)) (EExitNoAddress selector);
    Ok (set_ExitNode st (Some (MkExitNode (pr_ID configured) (ps_NodeID peer) peerIP)))
  end.

(** ** exitNodesLocked *)

Definition available_exits (st : State) (status : Status) : list api.AvailableExitNode :=
  (λ peer, api.MkAvailableExitNode (s_ProfileID status) (profileNameByID (st_Profiles st) (s_ProfileID status))
             (ps_NodeID peer) (ps_DNSName peer) (ps_TailscaleIPs peer) (ps_Online peer) (exitNodeLocation (ps_Location peer)))
  <$> filter (λ peer, ps_ExitNodeOption peer = true) (s_Peers status).
Definition available_exit_less : api.AvailableExitNode → api.AvailableExitNode → bool :=
  less_by api.ae_ProfileName str_lt (less_by api.ae_DNSName str_lt (less_by api.ae_NodeID str_lt less_end)).

(** The selected node in its waiting state, then with what its peer says. *)
Definition waiting_exit (st : State) (e : ExitNodeState) (reason : string) : api.SelectedExitNode :=
  api.MkSelectedExitNode (en_ProfileID e) (profileNameByID (st_Profiles st) (en_ProfileID e)) (en_NodeID e) "" (en_PeerIP e)
    false None "waiting" reason.
Definition found_exit (st : State) (e : ExitNodeState) (status : Status) (peer : PeerStatus) : api.SelectedExitNode :=
  let '(state, reason) :=
    if negb (ps_ExitNodeOption peer) then ("waiting", "exit_node_unavailable")
    else if String.eqb (s_ExitNodeID status) (en_NodeID e) then ("installed", "")
    else ("waiting", "exit_node_not_applied") in
  api.MkSelectedExitNode (en_ProfileID e) (profileNameByID (st_Profiles st) (en_ProfileID e)) (en_NodeID e) (ps_DNSName peer)
    (en_PeerIP e) (ps_Online peer) (exitNodeLocation (ps_Location peer)) state reason.
Definition selected_exit (st : State) (statuses : list Status) (e : ExitNodeState) : api.SelectedExitNode :=
  match list_find (λ p, pr_ID p = en_ProfileID e) (st_Profiles st) with
  | None => waiting_exit st e "profile_unavailable"
  | Some (_, configured) =>
    if pr_Disabled configured || pr_Removed configured then waiting_exit st e "profile_unavailable"
    else match list_find (λ s, s_ProfileID s = en_ProfileID e) statuses with
    | None => waiting_exit st e "profile_unavailable"
    | Some (_, status) =>
      if negb (String.eqb (s_BackendState status) "Running") then waiting_exit st e "profile_unavailable"
      else match list_find (λ p, ps_NodeID p = en_NodeID e) (s_Peers status) with
      | Some (_, peer) => found_exit st e status peer
      | None => waiting_exit st e "exit_node_unavailable"
      end
    end
  end.
Definition exitNodesLocked (st : State) (statuses : list Status) : api.ExitNodes :=
  api.MkExitNodes (selected_exit st statuses <$> st_ExitNode st)
    (go_sort available_exit_less (statuses ≫= available_exits st)).

(** ** What a selector finds *)

(** A peer the selector means. *)
Definition selected_by (selector : string) (peer : PeerStatus) : Prop :=
  ps_ExitNodeOption peer = true ∧
  peer_matches (TrimSpace selector) (ToLower (TrimSuffix (TrimSpace selector) "."))
    (default AddrInvalid (ParseAddr (TrimSpace selector))) peer = true.

Lemma matches_lookup selector selectorName ip peers id p :
  foldl (match_step selector selectorName ip) ∅ peers !! id = Some p →
  p ∈ peers ∧ ps_NodeID p = id ∧ ps_ExitNodeOption p = true ∧ peer_matches selector selectorName ip p = true.
Proof.
  induction peers as [|q peers IH] using rev_ind; [done|]. rewrite foldl_app. cbn [foldl]. unfold match_step at 1.
  assert (Hold : foldl (match_step selector selectorName ip) ∅ peers !! id = Some p → p ∈ peers ++ [q] ∧ ps_NodeID p = id ∧
    ps_ExitNodeOption p = true ∧ peer_matches selector selectorName ip p = true).
  { intros (? & ? & ? & ?)%IH. split_and!; [apply elem_of_snoc; by left|done..]. }
  destruct (ps_ExitNodeOption q) eqn:Ho; cbn [negb]; [|done]. destruct (peer_matches _ _ _ q) eqn:Hm; [|done].
  intros [[<- <-]|[_ ?]]%lookup_insert_Some; [|by apply Hold]. split_and!; [apply elem_of_snoc; by right|done..].
Qed.
Lemma matches_complete selector selectorName ip peers p : p ∈ peers → ps_ExitNodeOption p = true →
  peer_matches selector selectorName ip p = true → is_Some (foldl (match_step selector selectorName ip) ∅ peers !! ps_NodeID p).
Proof.
  intros Hp Ho Hm. induction peers as [|q peers IH] using rev_ind; [by apply elem_of_nil in Hp|].
  rewrite foldl_app. cbn [foldl]. unfold match_step at 1. apply elem_of_snoc in Hp as [Hp| ->].
  - specialize (IH Hp). destruct (negb (ps_ExitNodeOption q)); [done|]. destruct (peer_matches _ _ _ q); [|done].
    destruct (decide (ps_NodeID q = ps_NodeID p)) as [->|Hne]; [by rewrite lookup_insert_eq|by rewrite lookup_insert_ne].
  - rewrite Ho, Hm. cbn. by rewrite lookup_insert_eq.
Qed.
Lemma select_cases status selector : TrimSpace selector ≠ "" →
  match selectExitNodePeer status selector with
  | Ok p => p ∈ s_Peers status ∧ selected_by selector p ∧
            ∀ q, q ∈ s_Peers status → selected_by selector q → ps_NodeID q = ps_NodeID p
  | Err (EExitNotFound _ _) => ∀ q, q ∈ s_Peers status → ¬ selected_by selector q
  | Err (EExitAmbiguous _ _) => ∃ p q, p ∈ s_Peers status ∧ q ∈ s_Peers status ∧ selected_by selector p ∧
            selected_by selector q ∧ ps_NodeID p ≠ ps_NodeID q
  | Err _ => False
  end.
Proof.
  intros Hne. apply String.eqb_neq in Hne. unfold selectExitNodePeer. rewrite Hne. cbn [guard_err mbind result_bind].
  set (m := foldl _ ∅ (s_Peers status)).
  assert (Hin : ∀ kv, kv ∈ map_to_list m → kv.2 ∈ s_Peers status ∧ ps_NodeID kv.2 = kv.1 ∧ selected_by selector kv.2).
  { intros [id p] (? & ? & ? & ?)%elem_of_map_to_list%matches_lookup. done. }
  assert (Hall : ∀ q, q ∈ s_Peers status → selected_by selector q → ∃ p, (ps_NodeID q, p) ∈ map_to_list m).
  { intros q Hq [Ho Hm]. destruct (matches_complete _ _ _ _ _ Hq Ho Hm) as [p Hp]. exists p. by apply elem_of_map_to_list. }
  pose proof (NoDup_fst_map_to_list m) as Hnd.
  destruct (map_to_list m) as [|[id p] [|[id' p'] l]] eqn:E.
  - intros q Hq [p' Hp']%Hall; [|done]. by apply elem_of_nil in Hp'.
  - destruct (Hin (id, p)) as (Hp & Hid & Hs); [left|]. cbn in *. split_and!; [done|done|].
    intros q Hq [p' Hp']%Hall; [|done]. apply list_elem_of_singleton in Hp' as [= Hn _]. congruence.
  - destruct (Hin (id, p)) as (Hp & Hid & Hs); [left|]. destruct (Hin (id', p')) as (Hp' & Hid' & Hs'); [right; left|].
    cbn in *. exists p, p'. split_and!; [done..|]. rewrite Hid, Hid'. apply NoDup_cons in Hnd as [Hn _].
    intros ->. apply Hn. left.
Qed.

(** ** The preferred address *)

Lemma preferred_from_cases first ips : let r := preferred_from first ips in
  (addr.IsValid r = false → addr.IsValid first = false ∧ Forall (λ ip, addr.IsValid ip = false) ips) ∧
  (r = first ∨ r ∈ ips) ∧ (∀ ip, ip ∈ ips → addr.Is4 ip = true → addr.Is4 r = true).
Proof.
  revert first. induction ips as [|ip ips IH]; intros first; cbn [preferred_from].
  { split_and!; [done|by left|by intros ? ?%elem_of_nil]. }
  destruct (addr.IsValid ip) eqn:Hv; cbn [negb].
  2:{ destruct (IH first) as (H1 & H2 & H3). split_and!.
      - intros Hr. destruct (H1 Hr). split; [done|]. by constructor.
      - destruct H2; [by left|right; by right].
      - intros x [->|Hx]%elem_of_cons H4; [by destruct ip|by apply (H3 x)]. }
  destruct (addr.Is4 ip) eqn:H4.
  { split_and!; [congruence|right; left|done]. }
  set (first' := if negb (addr.IsValid first) then ip else first).
  assert (Hf : addr.IsValid first' = true) by (unfold first'; destruct (addr.IsValid first) eqn:?; done).
  destruct (IH first') as (H1 & H2 & H3). split_and!.
  - intros Hr%H1. destruct Hr. congruence.
  - destruct H2 as [->|]; [|right; by right]. unfold first'. destruct (addr.IsValid first); [by left|right; left].
  - intros x [->|Hx]%elem_of_cons Hx4; [congruence|by apply (H3 x)].
Qed.
Lemma preferredPeerIP_cases ips : let r := preferredPeerIP ips in
  (addr.IsValid r = true → r ∈ ips) ∧ (addr.IsValid r = false → Forall (λ ip, addr.IsValid ip = false) ips) ∧
  (∀ ip, ip ∈ ips → addr.Is4 ip = true → addr.Is4 r = true).
Proof.
  destruct (preferred_from_cases AddrInvalid ips) as (H1 & H2 & H3). unfold preferredPeerIP. split_and!.
  - destruct H2 as [->|]; [done|done].
  - intros Hr. by destruct (H1 Hr).
  - exact H3.
Qed.

(** ** The guarantees *)

Lemma list_find_elem {A} (P : A → Prop) `{∀ x, Decision (P x)} l i x : list_find P l = Some (i, x) → x ∈ l ∧ P x.
Proof. intros (Hl & Hp & _)%list_find_Some. split; [by eapply list_elem_of_lookup_2|done]. Qed.

(** C29. Selecting an exit node.  A selection succeeds only for a profile that is
    there, enabled and running, and picks an exit node of that profile that the
    selector means, the only such node; the address stored is a valid address of
    the node, an IPv4 one when it has any.  Only the exit node of the state
    changes. *)
Theorem choose_exit_node_sound (st st' : State) (statuses : list Status) (name selector : string) :
  choose_exit_node st statuses name selector = Ok st' →
  ∃ p s peer ip, st' = set_ExitNode st (Some (MkExitNode (pr_ID p) (ps_NodeID peer) ip)) ∧
    p ∈ st_Profiles st ∧ profileName p = TrimSpace name ∧ pr_Removed p = false ∧ pr_Disabled p = false ∧
    s ∈ statuses ∧ s_ProfileID s = pr_ID p ∧ s_BackendState s = "Running" ∧
    peer ∈ s_Peers s ∧ selected_by selector peer ∧
    (∀ q, q ∈ s_Peers s → selected_by selector q → ps_NodeID q = ps_NodeID peer) ∧
    ip ∈ ps_TailscaleIPs peer ∧ addr.IsValid ip = true ∧
    (∀ ip', ip' ∈ ps_TailscaleIPs peer → addr.Is4 ip' = true → addr.Is4 ip = true).
Proof.
  intros Hc. unfold choose_exit_node in Hc. apply bind_ok_inv in Hc as ([i p] & (_ & Hp & Hn)%wrap_ok_inv%profileByName_in & Hc).
  ok_guard Hc as Hr. ok_guard Hc as Hd. destruct (list_find _ statuses) as [[j s]|] eqn:Es; [|done].
  apply list_find_elem in Es as [Hs Hid]. ok_guard Hc as Hrun%negb_false_iff%String.eqb_eq.
  apply bind_ok_inv in Hc as (peer & Hpeer & Hc). ok_guard Hc as Hv%negb_false_iff. injection Hc as <-.
  assert (Hne : TrimSpace selector ≠ "").
  { intros E. unfold selectExitNodePeer in Hpeer. by rewrite E in Hpeer. }
  pose proof (select_cases s selector Hne) as Hsel. rewrite Hpeer in Hsel. destruct Hsel as (Hin & Hby & Hu).
  destruct (preferredPeerIP_cases (ps_TailscaleIPs peer)) as (Hip & _ & H4).
  exists p, s, peer, (preferredPeerIP (ps_TailscaleIPs peer)). split_and!; auto.
Qed.

Lemma active_exit st statuses e s : st_ExitNode st = Some e → NoDup (s_ProfileID <$> statuses) → s ∈ statuses →
  s_ProfileID s = en_ProfileID e → profileAvailable s = true → s_ExitNodeID s = en_NodeID e →
  activeExitProfile st statuses = en_ProfileID e.
Proof.
  intros He Hnd Hs Hid Hav Hex. unfold activeExitProfile. rewrite He.
  destruct (List.find _ statuses) as [s'|] eqn:Ef.
  - apply List.find_some in Ef as [_ Ef]. apply andb_true_iff in Ef as [[Ef%String.eqb_eq _]%andb_true_iff _]. done.
  - apply list_elem_of_In in Hs. pose proof (List.find_none _ _ Ef s Hs) as Hf%andb_false_iff.
    destruct Hf as [Hf%andb_false_iff|Hf%String.eqb_neq]; [|congruence].
    destruct Hf as [Hf%String.eqb_neq|Hf]; congruence.
Qed.

(** What the exit node view promises.  It names the selected node of the
    state; it says installed exactly when the profile is enabled, its engine is
    running and has applied the node and the node is still an exit node, and
    gives a reason otherwise; and when it says installed, the plan routes the
    default routes to that profile. *)
Theorem exit_view_sound (st : State) (statuses : list Status) (e : ExitNodeState) (v : api.SelectedExitNode) :
  st_ExitNode st = Some e → NoDup (pr_ID <$> st_Profiles st) → NoDup (s_ProfileID <$> statuses) →
  api.Selected (exitNodesLocked st statuses) = Some v →
  (api.se_ProfileID v, api.se_NodeID v, api.se_PeerIP v) = (en_ProfileID e, en_NodeID e, en_PeerIP e) ∧
  (api.se_State v = "installed" ∧ api.se_Reason v = "" ∨ api.se_State v = "waiting" ∧ api.se_Reason v ≠ "") ∧
  (api.se_State v = "installed" ↔ ∃ p s peer, p ∈ st_Profiles st ∧ pr_ID p = en_ProfileID e ∧ profile_off p = false ∧
     s ∈ statuses ∧ s_ProfileID s = en_ProfileID e ∧ s_BackendState s = "Running" ∧ s_ExitNodeID s = en_NodeID e ∧
     (∃ i, list_find (λ p, ps_NodeID p = en_NodeID e) (s_Peers s) = Some (i, peer)) ∧ ps_ExitNodeOption peer = true) ∧
  (api.se_State v = "installed" → activeExitProfile st statuses = en_ProfileID e).
Proof.
  intros He Hnp Hns Hv. unfold exitNodesLocked in Hv. cbn [api.Selected] in Hv. rewrite He in Hv. injection Hv as <-.
  assert (Hoff : ∀ p, p ∈ st_Profiles st → pr_ID p = en_ProfileID e → ∃ i, list_find (λ p, pr_ID p = en_ProfileID e) (st_Profiles st) = Some (i, p)).
  { intros p Hp Hid. destruct (list_find_elem_of (λ p, pr_ID p = en_ProfileID e) (st_Profiles st) p) as [[i q] Eq]; [done|done|].
    apply list_find_elem in Eq as Hq. destruct Hq as [Hq Hidq]. exists i. rewrite Eq. do 2 f_equal.
    apply (NoDup_fmap_inj pr_ID (st_Profiles st)); [done..|congruence]. }
  assert (Hst : ∀ s, s ∈ statuses → s_ProfileID s = en_ProfileID e → ∃ i, list_find (λ s, s_ProfileID s = en_ProfileID e) statuses = Some (i, s)).
  { intros s Hs Hid. destruct (list_find_elem_of (λ s, s_ProfileID s = en_ProfileID e) statuses s) as [[i q] Eq]; [done|done|].
    apply list_find_elem in Eq as Hq. destruct Hq as [Hq Hidq]. exists i. rewrite Eq. do 2 f_equal.
    apply (NoDup_fmap_inj s_ProfileID statuses); [done..|congruence]. }
  assert (Hiff : api.se_State (selected_exit st statuses e) = "installed" ↔ ∃ p s peer, p ∈ st_Profiles st ∧ pr_ID p = en_ProfileID e ∧
     profile_off p = false ∧ s ∈ statuses ∧ s_ProfileID s = en_ProfileID e ∧ s_BackendState s = "Running" ∧ s_ExitNodeID s = en_NodeID e ∧
     (∃ i, list_find (λ p, ps_NodeID p = en_NodeID e) (s_Peers s) = Some (i, peer)) ∧ ps_ExitNodeOption peer = true).
  { split.
    - unfold selected_exit. destruct (list_find _ (st_Profiles st)) as [[i p]|] eqn:Ep; [|done]. destruct (_ || _) eqn:Eo; [done|].
      destruct (list_find _ statuses) as [[j s]|] eqn:Es; [|done]. destruct (String.eqb_spec (s_BackendState s) "Running") as [Hr|]; [|done].
      cbn [negb]. destruct (list_find _ (s_Peers s)) as [[k q]|] eqn:Eq; [|done]. unfold found_exit.
      destruct (ps_ExitNodeOption q) eqn:Hq; [|done]. cbn [negb]. destruct (String.eqb_spec (s_ExitNodeID s) (en_NodeID e)); [|done].
      intros _. apply list_find_elem in Ep as [? ?], Es as [? ?]. exists p, s, q. rewrite orb_comm in Eo. split_and!; try done. by exists k.
    - intros (p & s & q & Hp & Hid & Ho & Hs & Hsid & Hr & Hex & [k Hq] & Hopt). unfold selected_exit.
      destruct (Hoff p Hp Hid) as [i ->]. unfold profile_off in Ho. rewrite orb_comm, Ho. destruct (Hst s Hs Hsid) as [j ->].
      rewrite Hr. change (negb (String.eqb "Running" "Running")) with false. cbv iota. rewrite Hq.
      unfold found_exit. rewrite Hopt, Hex, String.eqb_refl. done. }
  split_and!.
  - unfold selected_exit, found_exit. repeat case_match; done.
  - unfold selected_exit, found_exit. repeat case_match; simplify_eq; cbn; auto.
  - exact Hiff.
  - intros (p & s & q & _ & _ & _ & Hs & Hid & Hr & Hex & _)%Hiff. apply (active_exit _ _ _ s); try done.
    unfold profileAvailable. rewrite Hr. done.
Qed.

(** ** Concrete exit nodes *)

Definition exit_peer : PeerStatus :=
  MkPeerStatus "n9" "Exit.corp.ts.net." "" "" [Addr6 (2 ^ 120) ""; Addr4 1681915911] true 0 0 0 false true None.
Definition exit_statuses (applied : string) : list Status :=
  [corp_status "home" "me.corp.ts.net" [peer_status "n1" "db.corp.ts.net" (Addr4 1681915906); exit_peer] [] applied].
Definition exit_state : State :=
  match choose_exit_node corp_state (exit_statuses "") "home" "EXIT" with Ok st => st | Err _ => zero_state end.
Lemma choose_exit_node_sound_witness : st_ExitNode exit_state = Some (MkExitNode "home" "n9" (Addr4 1681915911)) ∧
  selected_by "EXIT" exit_peer.
Proof.
  assert (E : choose_exit_node corp_state (exit_statuses "") "home" "EXIT" = Ok exit_state) by (vm_compute; reflexivity).
  split; [vm_compute; reflexivity|].
  destruct (choose_exit_node_sound corp_state exit_state (exit_statuses "") "home" "EXIT" E) as (p & s & peer & ip & _ & _ & _ & _ & _ & Hs & _ & _ & Hp & Hb & _).
  apply list_elem_of_singleton in Hs as ->. cbn [exit_statuses corp_status s_Peers] in Hp.
  apply elem_of_cons in Hp as [->|Hp]; [destruct Hb as [Hb _]; discriminate Hb|].
  apply list_elem_of_singleton in Hp as ->. exact Hb.
Defined.
Lemma exit_view_sound_witness : match api.Selected (exitNodesLocked exit_state (exit_statuses "n9")) with
  | Some v => api.se_State v = "installed" ∧ activeExitProfile exit_state (exit_statuses "n9") = "home"
  | None => False end.
Proof.
  assert (E : match api.Selected (exitNodesLocked exit_state (exit_statuses "n9")) with
    | Some v => api.se_State v | None => "" end = "installed") by (vm_compute; reflexivity).
  destruct (api.Selected (exitNodesLocked exit_state (exit_statuses "n9"))) as [v|] eqn:Ev; [|discriminate E].
  split; [exact E|].
  destruct (exit_view_sound exit_state (exit_statuses "n9") (MkExitNode "home" "n9" (Addr4 1681915911)) v) as (_ & _ & _ & H).
  - vm_compute. reflexivity.
  - apply (bool_decide_unpack _). vm_compute. exact I.
  - apply (bool_decide_unpack _). vm_compute. exact I.
  - exact Ev.
  - exact (H E).
Defined.
