(* ===== verification/Effects.v ===== *)
(** * Code with a receiver

    A method that changes its receiver and may return an error: a function from
    the state to the state and a result.  An error returns the state as it is
    at that point, like an early return in Go; nothing is rolled back.  The file
    has the operations of the monad, loops, and two ways to reason: inversion of
    a run that succeeded, and relations between the states before and after
    that every step respects. *)

From S2P Require Import Prelude.

Definition stm (S E A : Type) : Type := S → S * result E A.

Section effects.
Context {S E : Type}.
Local Notation M := (stm S E).

#[export] Instance stm_ret : MRet M := λ A a s, (s, Ok a).
#[export] Instance stm_bind : MBind M := λ A B f m s,
  let '(s', r) := m s in match r with Ok a => f a s' | Err e => (s', Err e) end.

Definition gets {A} (f : S → A) : M A := λ s, (s, Ok (f s)).
Definition modify (f : S → S) : M unit := λ s, (f s, Ok tt).
Definition fail {A} (e : E) : M A := λ s, (s, Err e).
Definition fail_if (b : bool) (e : E) : M unit := if b then fail e else mret tt.
Definition lift {A} (r : result E A) : M A := λ s, (s, r).
(** [if err := m(); err != nil { ... }] with the error at hand. *)
Definition try {A} (m : M A) : M (result E A) := λ s, let '(s', r) := m s in (s', Ok r).

(** [for _, x := range l { ... }] that returns on the first error, and the loop
    that collects what the body yields. *)
Fixpoint for_each {A} (f : A → M unit) (l : list A) : M unit :=
  match l with
  | [] => mret tt
  | x :: l => _ ← f x; for_each f l
  end.
Fixpoint collect {A B} (f : A → M B) (l : list A) : M (list B) :=
  match l with
  | [] => mret []
  | x :: l => y ← f x; ys ← collect f l; mret (y :: ys)
  end.

(** ** Inversion of runs *)

Lemma bind_run {A B} (m : M A) (f : A → M B) s :
  (m ≫= f) s = match (m s).2 with Ok a => f a (m s).1 | Err e => ((m s).1, Err e) end.
Proof. unfold mbind, stm_bind. by destruct (m s) as [s' []]. Qed.
Lemma bind_ok {A B} (m : M A) (f : A → M B) s s' b :
  (m ≫= f) s = (s', Ok b) → ∃ s1 a, m s = (s1, Ok a) ∧ f a s1 = (s', Ok b).
Proof. unfold mbind, stm_bind. destruct (m s) as [s1 [a|e]]; [eauto|done]. Qed.
Lemma bind_err {A B} (m : M A) (f : A → M B) s s' e :
  (m ≫= f) s = (s', Err e) → m s = (s', Err e) ∨ ∃ s1 a, m s = (s1, Ok a) ∧ f a s1 = (s', Err e).
Proof. unfold mbind, stm_bind. destruct (m s) as [s1 [a|e']]; [eauto|]. intros [= <- <-]. by left. Qed.
Lemma fail_if_ok b e s s' u : fail_if b e s = (s', Ok u) → b = false ∧ s' = s.
Proof. by destruct b; [|intros [= <- _]]. Qed.
Lemma lift_ok {A} (r : result E A) s s' a : lift r s = (s', Ok a) → s' = s ∧ r = Ok a.
Proof. by intros [= <- ->]. Qed.

(** ** Symbolic runs

    [wp m Q s]: running [m] in [s] ends with a result and a state that satisfy
    [Q], error or not. *)

Definition wp {A} (m : M A) (Q : result E A → S → Prop) (s : S) : Prop := Q (m s).2 (m s).1.
Lemma wp_run {A} (m : M A) Q s s' r : wp m Q s → m s = (s', r) → Q r s'.
Proof. unfold wp. intros HQ Hm. by rewrite Hm in HQ. Qed.
Lemma wp_mono {A} (m : M A) (P Q : result E A → S → Prop) s : wp m P s → (∀ r s', P r s' → Q r s') → wp m Q s.
Proof. unfold wp. auto. Qed.
Lemma wp_any {A} (m : M A) (Q : result E A → S → Prop) s : (∀ r s', Q r s') → wp m Q s.
Proof. intros HQ. apply HQ. Qed.
Lemma wp_bind {A B} (m : M A) (f : A → M B) Q s :
  wp m (λ r s', match r with Ok a => wp (f a) Q s' | Err e => Q (Err e) s' end) s → wp (m ≫= f) Q s.
Proof. unfold wp. rewrite bind_run. by destruct ((m s).2). Qed.
Lemma wp_ret {A} (a : A) (Q : result E A → S → Prop) s : Q (Ok a) s → wp (mret a) Q s.
Proof. done. Qed.
Lemma wp_gets {A} (f : S → A) (Q : result E A → S → Prop) s : Q (Ok (f s)) s → wp (gets f) Q s.
Proof. done. Qed.
Lemma wp_modify f (Q : result E unit → S → Prop) s : Q (Ok tt) (f s) → wp (modify f) Q s.
Proof. done. Qed.
Lemma wp_fail {A} e (Q : result E A → S → Prop) s : Q (Err e) s → wp (fail e) Q s.
Proof. done. Qed.
Lemma wp_fail_if b e (Q : result E unit → S → Prop) s :
  (b = true → Q (Err e) s) → (b = false → Q (Ok tt) s) → wp (fail_if b e) Q s.
Proof. intros H1 H2. unfold wp, fail_if. destruct b; [by apply H1|by apply H2]. Qed.
Lemma wp_lift {A} (r : result E A) (Q : result E A → S → Prop) s : Q r s → wp (lift r) Q s.
Proof. done. Qed.

Lemma wp_and {A} (m : M A) (P Q : result E A → S → Prop) s : wp m P s → wp m Q s → wp m (λ r s', P r s' ∧ Q r s') s.
Proof. done. Qed.
Lemma wp_try {A} (m : M A) (Q : result E (result E A) → S → Prop) s : wp m (λ r s', Q (Ok r) s') s → wp (try m) Q s.
Proof. unfold wp, try. by destruct (m s). Qed.

(** ** Relations that every step respects *)

Definition respects {A} (R : relation S) (m : M A) : Prop := ∀ s, R s (m s).1.

Lemma wp_respects {A} (R : relation S) (m : M A) (Q : result E A → S → Prop) s :
  respects R m → (∀ r s', R s s' → Q r s') → wp m Q s.
Proof. intros Hm HQ. apply HQ, Hm. Qed.

(** The frame rule: a relation every step respects comes for free. *)
Lemma wp_frame {A} (R : relation S) (m : M A) (P Q : result E A → S → Prop) s :
  respects R m → wp m P s → (∀ r s', R s s' → P r s' → Q r s') → wp m Q s.
Proof. intros Hm HP HQ. apply HQ; [apply Hm|apply HP]. Qed.

(** A loop whose body has no error has none. *)
Definition never_fails {A} (m : M A) : Prop := ∀ s, is_ok (m s).2 = true.
Lemma never_fails_for_each {A} (f : A → M unit) l : (∀ x, never_fails (f x)) → never_fails (for_each f l).
Proof.
  intros Hf. induction l as [|x l IH]; intros s; cbn [for_each]; [done|]. rewrite bind_run.
  specialize (Hf x s). destruct ((f x s).2); [apply IH|done].
Qed.
Lemma wp_never_fails {A} (m : M A) (Q : result E A → S → Prop) s :
  never_fails m → wp m (λ r s', ∀ a, r = Ok a → Q r s') s → wp m Q s.
Proof. unfold wp. intros Hm. specialize (Hm s). destruct ((m s).2); [eauto|done]. Qed.

Section respects.
Context (R : relation S) `{!PreOrder R}.
Lemma respects_ret {A} (a : A) : respects R (mret a).
Proof using PreOrder0. intros s. reflexivity. Qed.
Lemma respects_gets {A} (f : S → A) : respects R (gets f).
Proof using PreOrder0. intros s. reflexivity. Qed.
Lemma respects_fail {A} (e : E) : respects R (fail (A:=A) e).
Proof using PreOrder0. intros s. reflexivity. Qed.
Lemma respects_fail_if b (e : E) : respects R (fail_if b e).
Proof using PreOrder0. destruct b; intros s; reflexivity. Qed.
Lemma respects_lift {A} (r : result E A) : respects R (lift r).
Proof using PreOrder0. intros s. reflexivity. Qed.
Lemma respects_modify f : (∀ s, R s (f s)) → respects R (modify f).
Proof using. intros Hf s. apply Hf. Qed.
Lemma respects_try {A} (m : M A) : respects R m → respects R (try m).
Proof using. intros Hm s. unfold try. specialize (Hm s). by destruct (m s). Qed.
Lemma respects_bind {A B} (m : M A) (f : A → M B) :
  respects R m → (∀ a, respects R (f a)) → respects R (m ≫= f).
Proof using PreOrder0.
  intros Hm Hf s. rewrite bind_run. specialize (Hm s). destruct ((m s).2); [|done]. by etrans; [|apply Hf].
Qed.
Lemma respects_for_each {A} (f : A → M unit) l : (∀ a, respects R (f a)) → respects R (for_each f l).
Proof using PreOrder0.
  intros Hf. induction l as [|x l IH]; cbn; [apply respects_ret|]. apply respects_bind; [apply Hf|done].
Qed.
Lemma respects_collect {A B} (f : A → M B) l : (∀ a, respects R (f a)) → respects R (collect f l).
Proof using PreOrder0.
  intros Hf. induction l as [|x l IH]; cbn; [apply respects_ret|].
  apply respects_bind; [apply Hf|]. intros y. apply respects_bind; [done|]. intros ys. apply respects_ret.
Qed.
End respects.
End effects.

#[export] Hint Resolve respects_ret respects_gets respects_fail respects_fail_if respects_lift : tailmix.

(** [ok_run H as s1 a Ha] splits the first step off a run that succeeded. *)
Tactic Notation "ok_run" hyp(H) "as" simple_intropattern(s) simple_intropattern(a) simple_intropattern(q) :=
  apply bind_ok in H as (s & a & q & H).
(** Splits a goal [respects R m] along the structure of [m]. *)
Ltac respects_step :=
  match goal with
  | |- respects _ (_ ≫= _) => apply (respects_bind _); [|intros ?]
  | |- respects _ (mret _) => apply (respects_ret _)
  | |- respects _ (gets _) => apply (respects_gets _)
  | |- respects _ (fail _) => apply (respects_fail _)
  | |- respects _ (fail_if _ _) => apply (respects_fail_if _)
  | |- respects _ (lift _) => apply (respects_lift _)
  | |- respects _ (try _) => apply (respects_try _)
  | |- respects _ (for_each _ _) => apply (respects_for_each _); intros ?
  | |- respects _ (collect _ _) => apply (respects_collect _); intros ?
  | |- respects _ (match ?x with _ => _ end) => destruct x eqn:?
  end.
Ltac respects_go := repeat respects_step.
(** Runs the first step of a goal [wp m Q s]. *)
Ltac wp_step :=
  match goal with
  | |- wp (_ ≫= _) _ _ => apply wp_bind
  | |- wp (mret _) _ _ => apply wp_ret
  | |- wp (gets _) _ _ => apply wp_gets
  | |- wp (modify _) _ _ => apply wp_modify
  | |- wp (fail _) _ _ => apply wp_fail
  | |- wp (lift _) _ _ => apply wp_lift
  end.
