(* ===== verification/HostTUNLinux.v ===== *)
(** * The host TUN on Linux

    hosttun/hosttun_linux.go: how a host is brought to a configuration, and
    cleaned up.  The kernel is the class [Netlink] over an abstract world: what
    it lists and what an operation does to it, which may fail; the fields of
    routes and rules that the code never reads are left out.  Every operation is
    recorded with its outcome, for the statements only. *)

From S2P Require Import Prelude GoStrings Netip TUNTable HostTUN Effects.
Local Open Scope Z_scope.

Definition tailmixExitRouteTable : Z := 527.
Definition tailmixExitRulePref : Z := 5300.
Definition linuxIPv6Priority : Z := 1024.
(** [unix.AF_INET], [unix.AF_INET6], [unix.RTPROT_KERNEL], [unix.RTN_UNICAST] and
    [netlink.SCOPE_UNIVERSE]; table 0 is the main table. *)
Definition AF_INET : Z := 2.
Definition AF_INET6 : Z := 10.
Definition RTPROT_KERNEL : Z := 2.
Definition RTN_UNICAST : Z := 1.
Definition SCOPE_UNIVERSE : Z := 0.
Definition main_table : Z := 0.

(** ** The kernel *)

(** A route: [nr_Dst] is [None] for no destination and [Some None] for a network
    that is no prefix; [nr_Src] the preferred source; the four flags say whether
    the route has these attributes. *)
Record nl_route : Type := MkNlRoute {
  nr_Dst : option (option Prefix); nr_Src : Addr; nr_Gw : bool; nr_MultiPath : bool; nr_Via : bool; nr_Encap : bool;
  nr_Type : Z; nr_Scope : Z; nr_Priority : Z; nr_Tos : Z; nr_Protocol : Z }.
Record nl_rule : Type := MkNlRule {
  ru_Family : Z; ru_Priority : Z; ru_Table : Z; ru_Mark : Z; ru_Mask : Z; ru_Invert : bool;
  ru_Src : option Prefix; ru_Dst : option Prefix; ru_IifName : string; ru_OifName : string }.
Inductive nl_op : Type :=
  | OpAddrReplace (p : Prefix) | OpAddrDel (p : Prefix)
  | OpRouteReplace (table : Z) (destination : Prefix) (source : Addr) (priority : Z)
  | OpRouteDel (table : Z) (destination : Prefix)
  | OpRuleAdd (r : nl_rule) | OpRuleDel (r : nl_rule).
(** Errors the code tells apart: EEXIST, ENOENT or ESRCH, and any other. *)
Inductive nl_outcome : Type := Done | Exists | NotExist | Failed.
Class Netlink (W : Type) : Type := {
  AddrList : W → option (list (option Prefix));
  RouteList : Z → Z → W → option (list nl_route);
  RuleList : Z → W → option (list nl_rule);
  nl_exec : nl_op → W → W * nl_outcome;
  dev_Close : W → W * bool }.

Record linuxInstalledRoute : Type := MkInstalled { ir_Route : HostRoute; ir_controlled : bool }.
Definition ir_dst (r : linuxInstalledRoute) : Prefix := hr_Destination (ir_Route r).
Record linuxInstalledState : Type := MkInstalledState {
  is_localAddrs : list Prefix; is_mainRoutes : list linuxInstalledRoute; is_tableRoutes : list linuxInstalledRoute;
  is_rules : list nl_rule }.

Inductive linux_verify : Type :=
  | VAddr (e : verify_error)
  | VUnexpectedRoute (table : Z) (destination : Prefix) | VWrongRoute (table : Z) (destination : Prefix) | VMissingRoute (table : Z) (destination : Prefix)
  | VUnexpectedRule (r : nl_rule) | VMissingRule (r : nl_rule) | VDuplicateRule (r : nl_rule).
Inductive linux_error : Type :=
  | ENormalize (e : host_error) | EClosed
  | EListAddrs | EListRoutes (table family : Z) | EListRules (family : Z)
  | ERemoveRule (family : Z) | EAddAddr (p : Prefix) | ERemoveStale (table : Z) (destination : Prefix)
  | EReplaceRoute (table : Z) (destination : Prefix) | EAddRule (family : Z) | ERemoveAddr (p : Prefix)
  | EVerify (errs : list linux_verify)
  | EReadBeforeClose (e : linux_error) | ECloseDevice.
Inductive log_line : Type := LNotInstalled (table : Z) (destination : Prefix) | LIncorrect (table : Z) (destination : Prefix).

(** ** Reading *)

Definition linuxRoutePriority (ipv6 : bool) : Z := if ipv6 then linuxIPv6Priority else 0.
Definition plain_unicast (route : nl_route) : bool :=
  negb (nr_Gw route) && negb (nr_MultiPath route) && negb (nr_Via route) && negb (nr_Encap route) &&
  ((nr_Type route =? 0) || (nr_Type route =? RTN_UNICAST)).
Definition linuxAddressRoute (route : nl_route) (locals : list Prefix) (want : gmap Prefix HostRoute) : bool :=
  match nr_Dst route with
  | Some (Some p) =>
    (nr_Protocol route =? RTPROT_KERNEL) && plain_unicast route && (p_bits p =? addr.BitLen (p_addr p)) && (p ∈? locals) &&
    match want !! p with Some _ => false | None => true end
  | _ => false
  end.
Definition route_destination (route : nl_route) (family : Z) : option Prefix :=
  match nr_Dst route with
  | None => Some (prefix.PrefixFrom (if family =? AF_INET6 then addr.IPv6Unspecified else addr.IPv4Unspecified) 0)
  | Some p => p
  end.
Definition linuxRouteFromNetlink (route : nl_route) (family : Z) (want : gmap Prefix HostRoute) : option linuxInstalledRoute :=
  destination ← route_destination route family;
  let source := addr.Unmap (nr_Src route) in
  let controlled := plain_unicast route && (nr_Scope route =? SCOPE_UNIVERSE) &&
    (nr_Priority route =? linuxRoutePriority (addr.Is6 (p_addr destination))) && (nr_Tos route =? 0) in
  let '(exit, optional) := match want !! prefix.Masked destination with
                           | Some desired => (hr_Exit desired, hr_Optional desired)
                           | None => (false, false)
                           end in
  Some (MkInstalled (MkHostRoute (prefix.Masked destination) source exit optional) controlled).
Definition appendLinuxRoutes (routes : list nl_route) (family : Z) (want : gmap Prefix HostRoute) (locals : list Prefix) : list linuxInstalledRoute :=
  routes ≫= λ route, if linuxAddressRoute route locals want then []
                     else match linuxRouteFromNetlink route family want with Some installed => [installed] | None => [] end.
Definition family_rules (family : Z) (rules : list nl_rule) : list nl_rule :=
  rules ≫= λ r, if ru_Priority r =? tailmixExitRulePref
    then [if ru_Family r =? 0 then MkNlRule family (ru_Priority r) (ru_Table r) (ru_Mark r) (ru_Mask r) (ru_Invert r) (ru_Src r) (ru_Dst r) (ru_IifName r) (ru_OifName r) else r]
    else [].
Definition or_err {A} (x : option A) (e : linux_error) : result linux_error A := match x with Some a => Ok a | None => Err e end.
Section read.
Context {W : Type} `{Netlink W}.
Definition read_family (want : gmap Prefix HostRoute) (w : W) (st : linuxInstalledState) (family : Z) : result linux_error linuxInstalledState :=
  mainRoutes ← or_err (RouteList main_table family w) (EListRoutes main_table family);
  tableRoutes ← or_err (RouteList tailmixExitRouteTable family w) (EListRoutes tailmixExitRouteTable family);
  rules ← or_err (RuleList family w) (EListRules family);
  Ok (MkInstalledState (is_localAddrs st) (is_mainRoutes st ++ appendLinuxRoutes mainRoutes family want (is_localAddrs st))
        (is_tableRoutes st ++ appendLinuxRoutes tableRoutes family want (is_localAddrs st)) (is_rules st ++ family_rules family rules)).
Definition global_addrs (addrs : list (option Prefix)) : list Prefix :=
  addrs ≫= λ a, match a with Some p => if addr.IsGlobalUnicast (p_addr p) then [p] else [] | None => [] end.
Definition readInstalledState (wantRoutes : list HostRoute) (w : W) : result linux_error linuxInstalledState :=
  addrs ← or_err (AddrList w) EListAddrs;
  foldM (read_family (by_destination wantRoutes) w) [AF_INET; AF_INET6] (MkInstalledState (global_addrs addrs) [] [] []).
End read.

(** ** What is wanted *)

Definition hasExitRoutes (routes : list HostRoute) : bool := existsb hr_Exit routes.
Definition desiredLinuxRoutes (routes : list HostRoute) : list HostRoute * list HostRoute :=
  (List.filter (λ r, negb (hr_Exit r)) routes, if hasExitRoutes routes then routes else []).
Definition logicalLinuxRoutes (st : linuxInstalledState) (want : list HostRoute) : list HostRoute :=
  let select (exit : bool) (l : list linuxInstalledRoute) := l ≫= λ i,
    match by_destination want !! ir_dst i with
    | Some desired => if eqb (hr_Exit desired) exit then [ir_Route i] else []
    | None => []
    end in
  select false (is_mainRoutes st) ++ select true (is_tableRoutes st).
Definition sameLinuxRule (a b : nl_rule) : bool :=
  (ru_Family a =? ru_Family b) && (ru_Priority a =? ru_Priority b) && (ru_Table a =? ru_Table b) &&
  (ru_Mark a =? ru_Mark b) && (ru_Mask a =? ru_Mask b) && eqb (ru_Invert a) (ru_Invert b) &&
  bool_decide (ru_Src a = None) && bool_decide (ru_Src b = None) && bool_decide (ru_Dst a = None) && bool_decide (ru_Dst b = None) &&
  String.eqb (ru_IifName a) "" && String.eqb (ru_IifName b) "" && String.eqb (ru_OifName a) "" && String.eqb (ru_OifName b) "".
Definition containsLinuxRule (rules : list nl_rule) (want : nl_rule) : bool := existsb (λ r, sameLinuxRule r want) rules.

Section want.
(** [tsconst.LinuxBypassMarkNum] and [tsconst.LinuxFwmarkMaskNum]. *)
Context (LinuxBypassMarkNum LinuxFwmarkMaskNum : Z).
Definition tailmixExitRule (family : Z) : nl_rule :=
  MkNlRule family tailmixExitRulePref tailmixExitRouteTable LinuxBypassMarkNum LinuxFwmarkMaskNum true None None "" "".
Definition desiredLinuxRules (routes : list HostRoute) : list nl_rule :=
  if hasExitRoutes routes then [tailmixExitRule AF_INET; tailmixExitRule AF_INET6] else [].

Definition by_dst (installed : list linuxInstalledRoute) : gmap Prefix linuxInstalledRoute :=
  foldl (λ m r, <[ir_dst r := r]> m) ∅ installed.
Definition verify_route (table : Z) (want : gmap Prefix HostRoute) (i : linuxInstalledRoute) : list linux_verify :=
  match want !! ir_dst i with
  | None => [VUnexpectedRoute table (ir_dst i)]
  | Some desired =>
    if hr_Optional desired then []
    else if negb (ir_controlled i) || negb (bool_decide (hr_Source (ir_Route i) = hr_Source desired)) then [VWrongRoute table (ir_dst i)] else []
  end.
Definition verifyLinuxRouteTable (table : Z) (want : list HostRoute) (got : list linuxInstalledRoute) : list linux_verify :=
  (got ≫= verify_route table (by_destination want)) ++
  (want ≫= λ w, if hr_Optional w then []
     else match by_dst got !! hr_Destination w with Some _ => [] | None => [VMissingRoute table (hr_Destination w)] end).
Definition verifyLinuxState (wantAddrs : list Prefix) (wantRoutes : list HostRoute) (got : linuxInstalledState) : list linux_verify :=
  let '(mainRoutes, tableRoutes) := desiredLinuxRoutes wantRoutes in
  let wantRules := desiredLinuxRules wantRoutes in
  (VAddr <$> verifyHostConfig wantAddrs [] (is_localAddrs got) []) ++
  verifyLinuxRouteTable main_table mainRoutes (is_mainRoutes got) ++
  verifyLinuxRouteTable tailmixExitRouteTable tableRoutes (is_tableRoutes got) ++
  (is_rules got ≫= λ r, if containsLinuxRule wantRules r then [] else [VUnexpectedRule r]) ++
  (wantRules ≫= λ r, match length (List.filter (λ a, sameLinuxRule a r) (is_rules got)) with
                     | O => [VMissingRule r] | S O => [] | _ => [VDuplicateRule r] end).

(** ** The host *)

Section host.
Context {W : Type} `{Netlink W}.

(** [h_once] is [closeOnce]; [h_ops] and [h_log] are for the statements. *)
Record linuxHost : Type := MkHost {
  h_localAddrs : list Prefix; h_routes : list HostRoute; h_closed : bool; h_once : bool; h_closeErr : list linux_error;
  h_world : W; h_ops : list (nl_op * nl_outcome); h_log : list log_line }.
Notation M := (stm linuxHost linux_error).
Definition set_installed (addrs : list Prefix) (routes : list HostRoute) (h : linuxHost) : linuxHost :=
  MkHost addrs routes (h_closed h) (h_once h) (h_closeErr h) (h_world h) (h_ops h) (h_log h).
Definition set_closed (h : linuxHost) : linuxHost :=
  MkHost [] [] true (h_once h) (h_closeErr h) (h_world h) (h_ops h) (h_log h).
Definition set_once (h : linuxHost) : linuxHost :=
  MkHost (h_localAddrs h) (h_routes h) (h_closed h) true (h_closeErr h) (h_world h) (h_ops h) (h_log h).
Definition set_closeErr (errs : list linux_error) (h : linuxHost) : linuxHost :=
  MkHost (h_localAddrs h) (h_routes h) (h_closed h) (h_once h) errs (h_world h) (h_ops h) (h_log h).
Definition set_world (w : W) (ops : list (nl_op * nl_outcome)) (h : linuxHost) : linuxHost :=
  MkHost (h_localAddrs h) (h_routes h) (h_closed h) (h_once h) (h_closeErr h) w ops (h_log h).
Definition add_log (l : log_line) (h : linuxHost) : linuxHost :=
  MkHost (h_localAddrs h) (h_routes h) (h_closed h) (h_once h) (h_closeErr h) (h_world h) (h_ops h) (h_log h ++ [l]).

Definition exec (op : nl_op) : M nl_outcome := λ h,
  let '(w, o) := nl_exec op (h_world h) in (set_world w (h_ops h ++ [(op, o)]) h, Ok o).
Definition logf (l : log_line) : M unit := modify (add_log l).
Definition installedState (wantRoutes : list HostRoute) : M linuxInstalledState := λ h, (h, readInstalledState wantRoutes (h_world h)).

Definition replaceRouteInTable (route : HostRoute) (table : Z) : M unit :=
  o ← exec (OpRouteReplace table (hr_Destination route) (hr_Source route) (linuxRoutePriority (addr.Is6 (p_addr (hr_Destination route)))));
  match o with Done => mret tt | _ => fail (EReplaceRoute table (hr_Destination route)) end.
Definition deleteRouteFromTable (route : HostRoute) (table : Z) : M unit :=
  o ← exec (OpRouteDel table (hr_Destination route));
  match o with Done | NotExist => mret tt | _ => fail (ERemoveStale table (hr_Destination route)) end.

Definition stale_routes (want : list HostRoute) (installed : list linuxInstalledRoute) : list linuxInstalledRoute :=
  List.filter (λ i, match by_destination want !! ir_dst i with Some _ => false | None => true end) installed.
(** A wanted route that is there already. *)
Definition in_place (installed : gmap Prefix linuxInstalledRoute) (route : HostRoute) : bool :=
  match installed !! hr_Destination route with
  | Some current => ir_controlled current && bool_decide (hr_Source (ir_Route current) = hr_Source route)
  | None => false
  end.
Definition put_route (table : Z) (installed : gmap Prefix linuxInstalledRoute) (route : HostRoute) : M unit :=
  if in_place installed route then mret tt
  else
    replaced ← try (replaceRouteInTable route table);
    match replaced with
    | Ok _ => mret tt
    | Err e => if hr_Optional route then logf (LNotInstalled table (hr_Destination route)) else fail e
    end.
Definition reconcileRouteTable (table : Z) (installed : list linuxInstalledRoute) (want : list HostRoute) : M unit :=
  _ ← for_each (λ i, deleteRouteFromTable (ir_Route i) table) (stale_routes want installed);
  for_each (put_route table (by_dst installed)) want.

Definition remove_rule (r : nl_rule) : M unit :=
  o ← exec (OpRuleDel r);
  match o with Done | NotExist => mret tt | _ => fail (ERemoveRule (ru_Family r)) end.
Definition removeUnexpectedRules (installed : list nl_rule) (routes : list HostRoute) : M unit :=
  for_each (λ r, if containsLinuxRule (desiredLinuxRules routes) r then mret tt else remove_rule r) installed.
Definition take_back (added : list nl_rule) : M unit := for_each (λ r, _ ← exec (OpRuleDel r); mret tt) added.
Fixpoint add_rules (installed added want : list nl_rule) : M unit :=
  match want with
  | [] => mret tt
  | r :: want =>
    if containsLinuxRule installed r then add_rules installed added want
    else
      o ← exec (OpRuleAdd r);
      match o with
      | Exists => add_rules installed added want
      | Done => add_rules installed (added ++ [r]) want
      | _ => _ ← take_back added; fail (EAddRule (ru_Family r))
      end
  end.
Definition addMissingRules (installed : list nl_rule) (routes : list HostRoute) : M unit :=
  add_rules installed [] (desiredLinuxRules routes).

Definition addr_in_place (installed : list Prefix) (p : Prefix) : bool :=
  match (foldl (λ m q, <[p_addr q := q]> m) (∅ : gmap Addr Prefix) installed) !! p_addr p with
  | Some current => bool_decide (current = p)
  | None => false
  end.
Definition put_addr (installed : list Prefix) (p : Prefix) : M unit :=
  if addr_in_place installed p then mret tt
  else o ← exec (OpAddrReplace p); match o with Done => mret tt | _ => fail (EAddAddr p) end.
Definition drop_addr (want : list Prefix) (p : Prefix) : M unit :=
  if existsb (λ q, bool_decide (p_addr q = p_addr p)) want then mret tt
  else o ← exec (OpAddrDel p); match o with Done => mret tt | _ => fail (ERemoveAddr p) end.

Definition warn_table (table : Z) (got : list linuxInstalledRoute) (route : HostRoute) : M unit :=
  if hr_Optional route && negb (in_place (by_dst got) route) then logf (LIncorrect table (hr_Destination route)) else mret tt.
Definition logOptionalRouteWarnings (routes : list HostRoute) (st : linuxInstalledState) : M unit :=
  let '(mainRoutes, tableRoutes) := desiredLinuxRoutes routes in
  _ ← for_each (warn_table main_table (is_mainRoutes st)) mainRoutes;
  for_each (warn_table tailmixExitRouteTable (is_tableRoutes st)) tableRoutes.

(** The operations of [Configure], from the state it has read. *)
Definition reconcile_host (localAddrs : list Prefix) (routes : list HostRoute) (installed : linuxInstalledState) : M unit :=
  _ ← removeUnexpectedRules (is_rules installed) routes;
  _ ← for_each (put_addr (is_localAddrs installed)) localAddrs;
  let '(mainRoutes, tableRoutes) := desiredLinuxRoutes routes in
  _ ← reconcileRouteTable main_table (is_mainRoutes installed) mainRoutes;
  _ ← reconcileRouteTable tailmixExitRouteTable (is_tableRoutes installed) tableRoutes;
  _ ← addMissingRules (is_rules installed) routes;
  for_each (drop_addr localAddrs) (is_localAddrs installed).
Definition note_installed (routes : list HostRoute) (st : linuxInstalledState) : M unit :=
  modify (set_installed (is_localAddrs st) (logicalLinuxRoutes st routes)).
Definition finish_host (localAddrs : list Prefix) (routes : list HostRoute) : M unit :=
  actual ← installedState routes;
  _ ← note_installed routes actual;
  let errs := verifyLinuxState localAddrs routes actual in
  _ ← fail_if (match errs with [] => false | _ => true end) (EVerify errs);
  logOptionalRouteWarnings routes actual.
Definition Configure (cfg : HostConfig) : M unit :=
  '(localAddrs, routes) ← lift (wrap ENormalize (normalizeConfig cfg));
  closed ← gets h_closed;
  _ ← fail_if closed EClosed;
  installed ← installedState routes;
  _ ← note_installed routes installed;
  _ ← reconcile_host localAddrs routes installed;
  finish_host localAddrs routes.

Definition close_rule (r : nl_rule) : M (list linux_error) :=
  o ← exec (OpRuleDel r); mret (match o with Done | NotExist => [] | _ => [ERemoveRule (ru_Family r)] end).
Definition close_route (table : Z) (i : linuxInstalledRoute) : M (list linux_error) :=
  r ← try (deleteRouteFromTable (ir_Route i) table); mret (match r with Ok _ => [] | Err e => [e] end).
Definition close_addr (p : Prefix) : M (list linux_error) :=
  o ← exec (OpAddrDel p); mret (match o with Done | NotExist => [] | _ => [ERemoveAddr p] end).
Definition close_device : M (list linux_error) := λ h,
  let '(w, ok) := dev_Close (h_world h) in (set_world w (h_ops h) h, Ok (if ok : bool then [] else [ECloseDevice])).
(** What is taken to be installed when it cannot be read. *)
Definition assumed_state (h : linuxHost) : linuxInstalledState :=
  let '(mainRoutes, tableRoutes) := desiredLinuxRoutes (h_routes h) in
  MkInstalledState (h_localAddrs h) ((λ r, MkInstalled r true) <$> mainRoutes) ((λ r, MkInstalled r true) <$> tableRoutes)
    (desiredLinuxRules (h_routes h)).
Definition Close : M (list linux_error) :=
  once ← gets h_once;
  if once : bool then gets h_closeErr
  else
    _ ← modify set_once;
    routes ← gets h_routes;
    assumed ← gets assumed_state;
    read ← try (installedState routes);
    let '(st, e0) := match read with Ok st => (st, []) | Err e => (assumed, [EReadBeforeClose e]) end in
    e1 ← collect close_rule (is_rules st);
    e2 ← collect (close_route tailmixExitRouteTable) (rev (is_tableRoutes st));
    e3 ← collect (close_route main_table) (rev (is_mainRoutes st));
    e4 ← collect close_addr (rev (is_localAddrs st));
    _ ← modify set_closed;
    e5 ← close_device;
    _ ← modify (set_closeErr (e0 ++ concat e1 ++ concat e2 ++ concat e3 ++ concat e4 ++ e5));
    gets h_closeErr.
End host.
End want.
