(* ===== verification/HostTUNFacts.v ===== *)
(** * What the host TUN guarantees

    A configuration that succeeds is in force, exactly and verified; it runs a
    plan of operations made from what was installed, in an order that never
    diverts traffic to routes that are not there; it does nothing when nothing
    is left to do; and closing removes all that can be removed. *)

From S2P Require Import Prelude GoStrings Netip TUNTable HostTUN Effects HostTUNLinux.
Import netip_facts.
Local Open Scope Z_scope.

(** ** What verification means *)

Lemma bind_nil {A B} (f : A → list B) l : l ≫= f = [] ↔ ∀ x, x ∈ l → f x = [].
Proof.
  induction l as [|x l IH]; [split; [by intros _ x ?%elem_of_nil|done]|]. cbn [mbind list_bind]. split.
  - intros [Hx Hl]%app_eq_nil y [->|Hy]%elem_of_cons; [done|]. by apply IH.
  - intros Hall. rewrite (Hall x) by by left. apply IH. intros y Hy. apply Hall. by right.
Qed.
(** Maps filled in order, by a key. *)
Lemma fill_lookup {A K} `{Countable K} (key : A → K) l (m : gmap K A) k a : foldl (λ m r, <[key r := r]> m) m l !! k = Some a →
  m !! k = Some a ∨ (a ∈ l ∧ key a = k).
Proof.
  revert m. induction l as [|x l IH]; intros m Hl; [by left|]. apply IH in Hl as [Hl|[? ?]]; [|right; split; [by right|done]].
  apply lookup_insert_Some in Hl as [[? <-]|[_ ?]]; [right; split; [by left|done]|by left].
Qed.
Lemma fill_some {A K} `{Countable K} (key : A → K) l (m : gmap K A) a : a ∈ l → is_Some (foldl (λ m r, <[key r := r]> m) m l !! key a).
Proof.
  revert m. induction l as [|x l IH]; intros m Hin; [by apply elem_of_nil in Hin|]. cbn [foldl].
  assert (Hmono : ∀ l (m : gmap K A) k, is_Some (m !! k) → is_Some (foldl (λ m r, <[key r := r]> m) m l !! k)).
  { clear. induction l as [|y l IH]; intros m k Hk; [done|]. apply IH. rewrite lookup_insert. case_decide; eauto. }
  apply elem_of_cons in Hin as [->|Hin]; [|by apply IH]. apply Hmono. rewrite lookup_insert_eq. eauto.
Qed.
(** With keys that differ the map has every element. *)
Lemma fill_unique {A K} `{Countable K} (key : A → K) l a : NoDup (key <$> l) → a ∈ l → foldl (λ m r, <[key r := r]> m) (∅ : gmap K A) l !! key a = Some a.
Proof.
  intros Hn Ha. destruct (fill_some key l ∅ a Ha) as [b Hb]. rewrite Hb. apply fill_lookup in Hb as [Hb|[Hb Hk]]; [by rewrite lookup_empty in Hb|].
  f_equal. apply list_elem_of_lookup in Ha as [i Hi], Hb as [j Hj]. assert (i = j) as ->; [|congruence].
  eapply (NoDup_lookup (key <$> l) i j (key a)); [done| |]; rewrite list_lookup_fmap; [by rewrite Hi|by rewrite Hj, <-Hk].
Qed.

(** What is installed in a table is what is wanted there; an optional route may be
    missing or different. *)
Record table_matches (want : list HostRoute) (got : list linuxInstalledRoute) : Prop := {
  tm_got i : i ∈ got → ∃ w, w ∈ want ∧ hr_Destination w = ir_dst i ∧
    (hr_Optional w = true ∨ (ir_controlled i = true ∧ hr_Source (ir_Route i) = hr_Source w));
  tm_want w : w ∈ want → hr_Optional w = false → ∃ i, i ∈ got ∧ ir_dst i = hr_Destination w }.
Lemma verify_table table want got : NoDup (hr_Destination <$> want) → verifyLinuxRouteTable table want got = [] ↔ table_matches want got.
Proof.
  intros Hn. unfold verifyLinuxRouteTable. split.
  - intros [Hg Hw]%app_eq_nil. rewrite bind_nil in Hg. rewrite bind_nil in Hw. split.
    + intros i Hi. specialize (Hg i Hi). unfold verify_route in Hg. destruct (by_destination want !! ir_dst i) as [w|] eqn:E; [|done].
      apply fill_lookup in E as [E|[Hin Hd]]; [by rewrite lookup_empty in E|]. exists w. split; [done|]. split; [done|].
      destruct (hr_Optional w); [by left|]. right. destruct (ir_controlled i); [|done]. by case_bool_decide.
    + intros w Hin Ho. specialize (Hw w Hin). cbn in Hw. rewrite Ho in Hw. destruct (by_dst got !! hr_Destination w) as [i|] eqn:E; [|done].
      apply fill_lookup in E as [E|[Hi Hd]]; [by rewrite lookup_empty in E|]. eauto.
  - intros [Hg Hw]. apply app_nil. split; apply bind_nil.
    + intros i Hi. destruct (Hg i Hi) as (w & Hin & Hd & Ho). unfold verify_route, by_destination. rewrite <-Hd, fill_unique by done.
      destruct Ho as [-> | [-> ->]]; [done|]. rewrite bool_decide_true by done. by destruct (hr_Optional w).
    + intros w Hin. destruct (hr_Optional w) eqn:Ho; [done|]. destruct (Hw w Hin Ho) as (i & Hi & Hd).
      unfold by_dst. rewrite <-Hd. destruct (fill_some ir_dst got ∅ i Hi) as [? ->]. done.
Qed.

Section facts.
Context (mark mask : Z) {W : Type} `{Netlink W}.
Local Notation tailmixExitRule := (tailmixExitRule mark mask).
Local Notation desiredLinuxRules := (desiredLinuxRules mark mask).
Local Notation verifyLinuxState := (verifyLinuxState mark mask).

(** The state that a configuration in normal form asks for. *)
Record host_matches (localAddrs : list Prefix) (routes : list HostRoute) (st : linuxInstalledState) : Prop := {
  hm_addrs p : p ∈ is_localAddrs st ↔ p ∈ localAddrs;
  hm_main : table_matches (List.filter (λ r, negb (hr_Exit r)) routes) (is_mainRoutes st);
  hm_table : table_matches (if hasExitRoutes routes then routes else []) (is_tableRoutes st);
  hm_rules r : r ∈ is_rules st → containsLinuxRule (desiredLinuxRules routes) r = true;
  hm_once r : r ∈ desiredLinuxRules routes → length (List.filter (λ a, sameLinuxRule a r) (is_rules st)) = 1%nat }.
Lemma verify_addrs want got : verifyHostConfig want [] got [] = [] ↔ ∀ p, p ∈ got ↔ p ∈ want.
Proof.
  unfold verifyHostConfig. rewrite !app_nil_r. split.
  - intros [Hg Hw]%app_eq_nil p. rewrite bind_nil in Hg. rewrite bind_nil in Hw. split; intros Hp.
    + specialize (Hg p Hp). cbn in Hg. by case_bool_decide.
    + specialize (Hw p Hp). cbn in Hw. by case_bool_decide.
  - intros Hall. apply app_nil. split; apply bind_nil; intros p Hp; rewrite bool_decide_true; [done|by apply Hall|done|by apply Hall].
Qed.
Lemma filter_dsts (P : HostRoute → bool) routes : NoDup (hr_Destination <$> routes) → NoDup (hr_Destination <$> List.filter P routes).
Proof.
  induction routes as [|r l IH]; [done|]. cbn [fmap list_fmap List.filter]. intros [Hn Hl]%NoDup_cons. destruct (P r); [|by apply IH].
  cbn [fmap list_fmap]. apply NoDup_cons. split; [|by apply IH]. contradict Hn. apply list_elem_of_fmap in Hn as (x & -> & Hx).
  apply list_elem_of_fmap. exists x. split; [done|]. by apply list_elem_of_In, filter_In in Hx as [?%list_elem_of_In _].
Qed.
Lemma verify_state localAddrs routes st : NoDup (hr_Destination <$> routes) → verifyLinuxState localAddrs routes st = [] ↔ host_matches localAddrs routes st.
Proof.
  intros Hn. unfold HostTUNLinux.verifyLinuxState. cbn [desiredLinuxRoutes]. set (rules := desiredLinuxRules routes).
  assert (Hm := verify_table main_table (List.filter (λ r, negb (hr_Exit r)) routes) (is_mainRoutes st) (filter_dsts _ _ Hn)).
  assert (Ht : verifyLinuxRouteTable tailmixExitRouteTable (if hasExitRoutes routes then routes else []) (is_tableRoutes st) = [] ↔
    table_matches (if hasExitRoutes routes then routes else []) (is_tableRoutes st)).
  { apply verify_table. by destruct (hasExitRoutes routes); [|constructor]. }
  split.
  - intros [Ha [H1 [H2 [H3 H4]%app_eq_nil]%app_eq_nil]%app_eq_nil]%app_eq_nil. rewrite bind_nil in H3. rewrite bind_nil in H4.
    split; [|by apply Hm|by apply Ht| |].
    + apply verify_addrs. by destruct (verifyHostConfig _ _ _ _).
    + intros r Hr. specialize (H3 r Hr). cbn in H3. by destruct (containsLinuxRule _ r).
    + intros r Hr. specialize (H4 r Hr). cbn in H4. by destruct (length _) as [|[|]].
  - intros [Ha H1%Hm H2%Ht H3 H4]. rewrite H1, H2. apply verify_addrs in Ha. rewrite Ha. cbn [fmap list_fmap app].
    apply app_nil. split; apply bind_nil; intros r Hr; [by rewrite H3|by rewrite H4].
Qed.

(** ** The plan of operations *)

Definition skip_or (b : bool) (op : nl_op) : list nl_op := if b then [] else [op].
Definition rule_dels (installed : list nl_rule) (routes : list HostRoute) : list nl_op :=
  installed ≫= λ r, skip_or (containsLinuxRule (desiredLinuxRules routes) r) (OpRuleDel r).
Definition addr_puts (installed localAddrs : list Prefix) : list nl_op :=
  localAddrs ≫= λ p, skip_or (addr_in_place installed p) (OpAddrReplace p).
Definition route_op (table : Z) (route : HostRoute) : nl_op :=
  OpRouteReplace table (hr_Destination route) (hr_Source route) (linuxRoutePriority (addr.Is6 (p_addr (hr_Destination route)))).
Definition route_dels (table : Z) (want : list HostRoute) (installed : list linuxInstalledRoute) : list nl_op :=
  stale_routes want installed ≫= λ i, [OpRouteDel table (ir_dst i)].
Definition route_puts (table : Z) (want : list HostRoute) (installed : list linuxInstalledRoute) : list nl_op :=
  want ≫= λ w, skip_or (in_place (by_dst installed) w) (route_op table w).
Definition rule_puts (installed : list nl_rule) (want : list nl_rule) : list nl_op :=
  want ≫= λ r, skip_or (containsLinuxRule installed r) (OpRuleAdd r).
Definition addr_dels (localAddrs installed : list Prefix) : list nl_op :=
  installed ≫= λ p, skip_or (existsb (λ q, bool_decide (p_addr q = p_addr p)) localAddrs) (OpAddrDel p).
Definition table_plan (table : Z) (want : list HostRoute) (installed : list linuxInstalledRoute) : list nl_op :=
  route_dels table want installed ++ route_puts table want installed.
Definition plan_ops (localAddrs : list Prefix) (routes : list HostRoute) (st : linuxInstalledState) : list nl_op :=
  rule_dels (is_rules st) routes ++ addr_puts (is_localAddrs st) localAddrs ++
  table_plan main_table (desiredLinuxRoutes routes).1 (is_mainRoutes st) ++
  table_plan tailmixExitRouteTable (desiredLinuxRoutes routes).2 (is_tableRoutes st) ++
  rule_puts (is_rules st) (desiredLinuxRules routes) ++ addr_dels localAddrs (is_localAddrs st).

Section runs.
(** The optional routes, whose failures are only logged. *)
Context (optional : Prefix → bool).
Notation host := (linuxHost (W:=W)).
Notation M := (stm host linux_error).

(** The outcomes that [Configure] goes on after. *)
Definition accepted (x : nl_op * nl_outcome) : bool :=
  match x with
  | (OpRuleDel _, (Done | NotExist)) | (OpRouteDel _ _, (Done | NotExist)) | (OpAddrReplace _, Done) | (OpAddrDel _, Done)
  | (OpRuleAdd _, (Done | Exists)) | (OpRouteReplace _ _ _ _, Done) => true
  | (OpRouteReplace _ d _ _, _) => optional d
  | _ => false
  end.
Definition added_rules (t : list (nl_op * nl_outcome)) : list nl_rule :=
  t ≫= λ x, match x with (OpRuleAdd r, Done) => [r] | _ => [] end.
(** The rules that were added are taken back when one cannot be. *)
Definition rollback (t : list (nl_op * nl_outcome)) (op : nl_op) : list nl_op :=
  match op with OpRuleAdd _ => OpRuleDel <$> added_rules t | _ => [] end.
(** [m] runs [plan], up to the first operation it does not accept. *)
Definition ran (plan : list nl_op) (t : list (nl_op * nl_outcome)) (r : result linux_error unit) : Prop :=
  match r with
  | Ok _ => t.*1 = plan ∧ Forall (λ x, accepted x = true) t
  | Err _ => ∃ t0 x roll rest, t = t0 ++ x :: roll ∧ plan = t0.*1 ++ x.1 :: rest ∧
      Forall (λ x, accepted x = true) t0 ∧ accepted x = false ∧ roll.*1 = rollback t0 x.1
  end.
Definition emits (m : M unit) (plan : list nl_op) : Prop :=
  ∀ s, ∃ t, h_ops (m s).1 = h_ops s ++ t ∧ ran plan t (m s).2.
Definition is_add (op : nl_op) : bool := match op with OpRuleAdd _ => true | _ => false end.
Definition no_add (l : list nl_op) : Prop := Forall (λ op, is_add op = false) l.

Lemma no_added t : no_add t.*1 → added_rules t = [].
Proof using.
  intros Ht. unfold added_rules. apply bind_nil. intros [op o] Hx. unfold no_add in Ht. rewrite Forall_forall in Ht.
  specialize (Ht op). rewrite list_elem_of_fmap in Ht. specialize (Ht ltac:(by exists (op, o))). by destruct op.
Qed.
Lemma emits_ret : emits (mret tt) [].
Proof using. intros s. exists []. cbn. rewrite app_nil_r. by split_and!. Qed.
Lemma emits_log l : emits (logf l) [].
Proof using. intros s. exists []. cbn. rewrite app_nil_r. by split_and!. Qed.
Lemma emits_bind (m : M unit) (f : unit → M unit) l1 l2 : no_add l1 ∨ no_add l2 → emits m l1 → emits (f tt) l2 → emits (m ≫= f) (l1 ++ l2).
Proof using.
  intros Hna Hm Hf s. rewrite bind_run. destruct (Hm s) as (t1 & E1 & R1). destruct ((m s).2) as [[]|e].
  2:{ exists t1. split; [exact E1|]. destruct R1 as (t0 & x & roll & rest & -> & -> & Ha & Hx & Hr). exists t0, x, roll, (rest ++ l2).
      by rewrite <-app_assoc. }
  destruct R1 as [Et Ha]. destruct (Hf (m s).1) as (t2 & E2 & R2). exists (t1 ++ t2). rewrite E2, E1, app_assoc. split; [done|].
  destruct ((f tt (m s).1).2) as [[]|e]; cbn [ran] in *.
  - destruct R2 as [Et2 Ha2]. rewrite fmap_app, Et, Et2. split; [done|]. by apply Forall_app.
  - destruct R2 as (t0 & x & roll & rest & -> & -> & Ha2 & Hx & Hr). exists (t1 ++ t0), x, roll, rest.
    rewrite fmap_app, Et, <-!app_assoc. split_and!; [done|done|by apply Forall_app|done|]. rewrite Hr. unfold rollback.
    destruct x.1 eqn:Ex; try done. f_equal. unfold added_rules. rewrite bind_app. destruct Hna as [Hna|Hna].
    + rewrite <-Et in Hna. apply no_added in Hna. unfold added_rules in Hna. by rewrite Hna.
    + exfalso. unfold no_add in Hna. apply Forall_app in Hna as [_ [Hna _]%Forall_cons]. done.
Qed.
Lemma emits_for_each {A} (f : A → M unit) (g : A → list nl_op) l : (∀ x, x ∈ l → emits (f x) (g x) ∧ no_add (g x)) → emits (for_each f l) (l ≫= g).
Proof using.
  induction l as [|x l IH]; intros Hf; [apply emits_ret|]. cbn [for_each mbind list_bind].
  destruct (Hf x ltac:(by left)) as [Hx Hn]. apply emits_bind; [by left|done|]. apply IH. intros y Hy. apply Hf. by right.
Qed.
(** One operation, and what is made of its outcome. *)
Lemma emits_exec op (f : nl_outcome → M unit) : is_add op = false →
  (∀ o s, h_ops (f o s).1 = h_ops s ∧ is_ok (f o s).2 = accepted (op, o)) → emits (exec op ≫= f) [op].
Proof using.
  intros Hna Hf s. rewrite bind_run. unfold exec. destruct (nl_exec op (h_world s)) as [w o] eqn:E. cbn [fst snd].
  set (s1 := set_world w (h_ops s ++ [(op, o)]) s). destruct (Hf o s1) as [Ho Hr]. exists [(op, o)]. split; [by rewrite Ho|].
  destruct ((f o s1).2) as [[]|e]; cbn [is_ok] in Hr.
  - split; [done|]. by apply Forall_singleton.
  - exists [], (op, o), [], []. split_and!; [done|done|constructor|done|]. cbn. by destruct op.
Qed.
Local Ltac one_op := apply emits_exec; [done|intros [] ?; by split].
Lemma emits_skip b op (m : M unit) : emits m [op] → emits (if b : bool then mret tt else m) (skip_or b op).
Proof using. intros Hm. destruct b; [apply emits_ret|done]. Qed.
Lemma skip_no_add b op : is_add op = false → no_add (skip_or b op).
Proof using. intros Ho. destruct b; [constructor|by apply Forall_singleton]. Qed.
Lemma bind_no_add {A} (g : A → list nl_op) l : (∀ x, x ∈ l → no_add (g x)) → no_add (l ≫= g).
Proof using.
  intros Hg. apply Forall_forall. intros op (x & Hop & Hx)%list_elem_of_bind. exact (proj1 (Forall_forall _ _) (Hg x Hx) op Hop).
Qed.
Lemma emits_rule_dels installed routes : emits (removeUnexpectedRules mark mask installed routes) (rule_dels installed routes).
Proof using. apply emits_for_each. intros r _. split; [apply emits_skip; one_op|by apply skip_no_add]. Qed.
Lemma emits_addr_puts installed localAddrs : emits (for_each (put_addr installed) localAddrs) (addr_puts installed localAddrs).
Proof using. apply emits_for_each. intros p _. split; [apply emits_skip; one_op|by apply skip_no_add]. Qed.
Lemma emits_addr_dels localAddrs installed : emits (for_each (drop_addr localAddrs) installed) (addr_dels localAddrs installed).
Proof using. apply emits_for_each. intros p _. split; [apply emits_skip; one_op|by apply skip_no_add]. Qed.
Lemma emits_put_route table installed w : optional (hr_Destination w) = hr_Optional w →
  emits (put_route table installed w) (skip_or (in_place installed w) (route_op table w)).
Proof using.
  intros Ho. unfold put_route. apply emits_skip. intros s. rewrite bind_run. unfold try, replaceRouteInTable. rewrite bind_run.
  unfold exec. destruct (nl_exec _ (h_world s)) as [w' o] eqn:E. cbn [fst snd].
  exists [(route_op table w, o)]. destruct o, (hr_Optional w) eqn:Hw; cbn; (split; [done|]);
    first [split; [done|apply Forall_singleton; cbn; congruence]
          |eexists [], (_, _), [], []; split_and!; [reflexivity|reflexivity|constructor|cbn; congruence|reflexivity]].
Qed.
Lemma emits_table table installed want : (∀ w, w ∈ want → optional (hr_Destination w) = hr_Optional w) →
  emits (reconcileRouteTable table installed want) (table_plan table want installed).
Proof using.
  intros Ho. apply emits_bind.
  - left. apply bind_no_add. intros i _. by apply Forall_singleton.
  - apply emits_for_each. intros i _. split; [one_op|by apply Forall_singleton].
  - apply emits_for_each. intros w Hw. split; [apply emits_put_route; by apply Ho|by apply skip_no_add].
Qed.
Lemma table_no_add table want installed : no_add (table_plan table want installed).
Proof using. apply Forall_app. split; apply bind_no_add; intros x _; [by apply Forall_singleton|by apply skip_no_add]. Qed.
Lemma exec_bind {A} op (f : nl_outcome → M A) s : (exec op ≫= f) s =
  f (nl_exec op (h_world s)).2 (set_world (nl_exec op (h_world s)).1 (h_ops s ++ [(op, (nl_exec op (h_world s)).2)]) s).
Proof using. rewrite bind_run. unfold exec. by destruct (nl_exec op (h_world s)). Qed.
Lemma take_back_ops added s : ∃ roll, h_ops (take_back added s).1 = h_ops s ++ roll ∧ roll.*1 = OpRuleDel <$> added ∧ (take_back added s).2 = Ok tt.
Proof using.
  revert s. induction added as [|r l IH]; intros s; [exists []; by rewrite app_nil_r|]. unfold take_back in *. cbn [for_each].
  rewrite bind_run, exec_bind. destruct (nl_exec (OpRuleDel r) (h_world s)) as [w o].
  destruct (IH (set_world w (h_ops s ++ [(OpRuleDel r, o)]) s)) as (roll & Hr & Hm & Hok). exists ((OpRuleDel r, o) :: roll).
  cbn [fst snd mret stm_ret]. rewrite Hr, Hok. cbn [h_ops set_world]. rewrite <-app_assoc. split_and!; [done|cbn; by rewrite Hm|done].
Qed.
(** A run that adds rules after [base] and takes back these and the [added]. *)
Definition adds (added : list nl_rule) (plan : list nl_op) (base : list (nl_op * nl_outcome)) (x : host * result linux_error unit) : Prop :=
  ∃ t, h_ops x.1 = base ++ t ∧
  match x.2 with
  | Ok _ => t.*1 = plan ∧ Forall (λ x, accepted x = true) t
  | Err _ => ∃ t0 x roll rest, t = t0 ++ x :: roll ∧ plan = t0.*1 ++ x.1 :: rest ∧
      Forall (λ x, accepted x = true) t0 ∧ accepted x = false ∧ roll.*1 = OpRuleDel <$> (added ++ added_rules t0) ∧ is_add x.1 = true
  end.
Lemma adds_cons added r o plan base x : accepted (OpRuleAdd r, o) = true →
  adds (added ++ added_rules [(OpRuleAdd r, o)]) plan (base ++ [(OpRuleAdd r, o)]) x → adds added (OpRuleAdd r :: plan) base x.
Proof using.
  intros Ha (t & Ho & Ht). exists ((OpRuleAdd r, o) :: t). split; [by rewrite Ho, <-app_assoc|]. destruct (x.2) as [u|e].
  - destruct Ht as [Ht1 Ht]. split; [cbn; by rewrite Ht1|]. by constructor.
  - destruct Ht as (t0 & y & roll & rest & -> & Hp & Ht0 & Hy & Hroll & Hadd). exists ((OpRuleAdd r, o) :: t0), y, roll, rest.
    split_and!; [done|cbn; by rewrite Hp|by constructor|done| |done]. rewrite Hroll, <-app_assoc. f_equal. f_equal.
    change ((OpRuleAdd r, o) :: t0) with ([(OpRuleAdd r, o)] ++ t0). unfold added_rules. by rewrite bind_app.
Qed.
Lemma adds_fail added r o plan base s e : accepted (OpRuleAdd r, o) = false → h_ops s = base ++ [(OpRuleAdd r, o)] →
  adds added (OpRuleAdd r :: plan) base ((take_back added ≫= λ _, fail e) s).
Proof using.
  intros Ha Hs. rewrite bind_run. destruct (take_back_ops added s) as (roll & Hr & Hm & Hok). rewrite Hok.
  exists ((OpRuleAdd r, o) :: roll). cbn [fst snd fail]. split; [by rewrite Hr, Hs, <-app_assoc|].
  exists [], (OpRuleAdd r, o), roll, plan. split_and!; [done|done|constructor|done| |done]. by rewrite app_nil_r.
Qed.
Lemma add_rules_ops installed added want s : adds added (rule_puts installed want) (h_ops s) (add_rules installed added want s).
Proof using.
  revert added s. induction want as [|r want IH]; intros added s; [exists []; rewrite app_nil_r; by split_and!|].
  unfold rule_puts. cbn [add_rules mbind list_bind]. destruct (containsLinuxRule installed r); [apply IH|]. cbn [skip_or app].
  rewrite exec_bind. destruct (nl_exec (OpRuleAdd r) (h_world s)) as [w o]. cbn [fst snd].
  destruct o; [apply (adds_cons _ _ Done); [done|apply IH]|apply (adds_cons _ _ Exists); [done|cbn [added_rules mbind list_bind]; rewrite app_nil_r; apply IH]
    |by eapply (adds_fail _ _ NotExist)|by eapply (adds_fail _ _ Failed)].
Qed.
Lemma emits_rules installed routes : emits (addMissingRules mark mask installed routes) (rule_puts installed (desiredLinuxRules routes)).
Proof using.
  intros s. destruct (add_rules_ops installed [] (desiredLinuxRules routes) s) as (t & Ht & Hr). exists t. split; [exact Ht|].
  unfold addMissingRules. destruct ((add_rules _ _ _ s).2) as [[]|e]; [done|]. destruct Hr as (t0 & x & roll & rest & -> & Hp & Ha & Hx & Hroll & Hadd).
  exists t0, x, roll, rest. split_and!; try done. rewrite Hroll. cbn [app]. unfold rollback. by destruct x.1.
Qed.
Lemma emits_reconcile localAddrs routes st : (∀ w, w ∈ routes → optional (hr_Destination w) = hr_Optional w) →
  emits (reconcile_host mark mask localAddrs routes st) (plan_ops localAddrs routes st).
Proof using.
  intros Ho. unfold reconcile_host, plan_ops. cbn [desiredLinuxRoutes fst snd].
  assert (Hm : ∀ w, w ∈ List.filter (λ r, negb (hr_Exit r)) routes → optional (hr_Destination w) = hr_Optional w).
  { intros w [Hw _]%list_elem_of_In%filter_In. by apply Ho, list_elem_of_In. }
  assert (Ht : ∀ w, w ∈ (if hasExitRoutes routes then routes else []) → optional (hr_Destination w) = hr_Optional w).
  { destruct (hasExitRoutes routes); [done|by intros w ?%elem_of_nil]. }
  apply emits_bind; [left; apply bind_no_add; intros; by apply skip_no_add|apply emits_rule_dels|].
  apply emits_bind; [left; apply bind_no_add; intros; by apply skip_no_add|apply emits_addr_puts|].
  apply emits_bind; [left; apply table_no_add|by apply emits_table|].
  apply emits_bind; [left; apply table_no_add|by apply emits_table|].
  apply emits_bind; [right; apply bind_no_add; intros; by apply skip_no_add|apply emits_rules|apply emits_addr_dels].
Qed.
End runs.

(** Steps that change no more than the world, the record of operations and the log. *)
Definition same_host (h h' : linuxHost (W:=W)) : Prop :=
  h_localAddrs h' = h_localAddrs h ∧ h_routes h' = h_routes h ∧ h_closed h' = h_closed h ∧ h_once h' = h_once h ∧ h_closeErr h' = h_closeErr h.
#[local] Instance same_host_preorder : PreOrder same_host.
Proof. split; [by intros h; split_and!|]. intros a b c (?&?&?&?&?) (?&?&?&?&?). split_and!; congruence. Qed.
Lemma exec_same op : respects same_host (exec op : stm (linuxHost (W:=W)) linux_error nl_outcome).
Proof. intros s. unfold exec. by destruct (nl_exec op (h_world s)). Qed.
Lemma log_same l : respects same_host (logf l : stm (linuxHost (W:=W)) linux_error unit).
Proof. apply respects_modify. intros s. by split_and!. Qed.
Ltac same_go := respects_go; first [apply exec_same|apply log_same|idtac].
Lemma add_rules_same installed added want : respects same_host (add_rules installed added want : stm (linuxHost (W:=W)) linux_error unit).
Proof.
  revert added. induction want as [|r want IH]; intros added; cbn [add_rules]; [apply (respects_ret _)|].
  destruct (containsLinuxRule installed r); [apply IH|]. unfold take_back. same_go; apply IH.
Qed.
Lemma reconcile_same localAddrs routes st : respects same_host (reconcile_host mark mask localAddrs routes st : stm (linuxHost (W:=W)) linux_error unit).
Proof.
  unfold reconcile_host, removeUnexpectedRules, remove_rule, put_addr, drop_addr, reconcileRouteTable, deleteRouteFromTable, put_route, replaceRouteInTable, addMissingRules.
  cbn [desiredLinuxRoutes]. same_go. apply add_rules_same.
Qed.
Lemma warn_ops routes st : respects (λ h h', h_ops h' = h_ops h ∧ h_world h' = h_world h ∧ same_host h h') (logOptionalRouteWarnings routes st : stm (linuxHost (W:=W)) linux_error unit).
Proof.
  assert (PreOrder (λ h h' : linuxHost (W:=W), h_ops h' = h_ops h ∧ h_world h' = h_world h ∧ same_host h h')).
  { split; [by intros h; split_and!|]. intros a b c (?&?&?) (?&?&?). split_and!; [congruence|congruence|by etrans]. }
  unfold logOptionalRouteWarnings, warn_table, logf. cbn [desiredLinuxRoutes]. respects_go; apply respects_modify; intros s; by split_and!.
Qed.
Lemma warn_never_fails routes st : never_fails (logOptionalRouteWarnings routes st : stm (linuxHost (W:=W)) linux_error unit).
Proof.
  unfold logOptionalRouteWarnings. cbn [desiredLinuxRoutes]. intros s. rewrite bind_run.
  assert (Hf : ∀ t got l, never_fails (for_each (warn_table t got) l : stm (linuxHost (W:=W)) linux_error unit)).
  { intros t got l. apply never_fails_for_each. intros w s'. unfold warn_table. by destruct (_ && _). }
  specialize (Hf main_table (is_mainRoutes st) (List.filter (λ r, negb (hr_Exit r)) routes) s) as H1.
  destruct ((for_each _ _ s).2); [apply Hf|done].
Qed.

(** ** A whole run *)

Notation host := (linuxHost (W:=W)).
Lemma Configure_run cfg (h : host) : Configure mark mask cfg h =
  match normalizeConfig cfg with
  | Err e => (h, Err (ENormalize e))
  | Ok (localAddrs, routes) =>
    if h_closed h then (h, Err EClosed)
    else match readInstalledState routes (h_world h) with
    | Err e => (h, Err e)
    | Ok st => (reconcile_host mark mask localAddrs routes st ≫= λ _, finish_host mark mask localAddrs routes)
        (set_installed (is_localAddrs st) (logicalLinuxRoutes st routes) h)
    end
  end.
Proof.
  unfold Configure. rewrite bind_run. unfold lift, wrap. destruct (normalizeConfig cfg) as [[localAddrs routes]|e]; [|done]. cbn [fst snd].
  rewrite bind_run. cbn [gets fst snd]. rewrite bind_run. destruct (h_closed h); [done|]. cbn [fail_if mret stm_ret fst snd].
  rewrite bind_run. unfold installedState at 1 2 3. cbn [fst snd]. by destruct (readInstalledState routes (h_world h)).
Qed.
Definition optional_in (routes : list HostRoute) (d : Prefix) : bool :=
  match by_destination routes !! d with Some w => hr_Optional w | None => false end.
Lemma normal_NoDup cfg localAddrs routes : normal_form cfg localAddrs routes → NoDup (p_addr <$> localAddrs) ∧ NoDup (hr_Destination <$> routes).
Proof.
  assert (Hgen : ∀ A K (key : A → K) lt `{!StrictTotal lt} l, StronglySorted (strictly (by_key_less key lt)) l → NoDup (key <$> l)).
  { intros A K key lt Hlt l Hl. induction Hl as [|a l _ IH Ha]; [constructor|]. cbn [fmap list_fmap]. apply NoDup_cons. split; [|done].
    intros (b & Hb & Hin)%list_elem_of_fmap. rewrite Forall_forall in Ha. specialize (Ha b Hin). unfold strictly, by_key_less in Ha.
    by rewrite Hb, (less_irrefl lt) in Ha. }
  intros [_ Hl _ Hr]. split; [exact (Hgen _ _ p_addr addr.less _ _ Hl)|exact (Hgen _ _ hr_Destination prefix_less _ _ Hr)].
Qed.
Lemma optional_normal cfg localAddrs routes w : normal_form cfg localAddrs routes → w ∈ routes → optional_in routes (hr_Destination w) = hr_Optional w.
Proof. intros [_ Hn]%normal_NoDup Hw. unfold optional_in, by_destination. by rewrite fill_unique. Qed.

(** After the operations the host is read again, and compared. *)
Definition checked (localAddrs : list Prefix) (routes : list HostRoute) (h' : host) (r : result linux_error unit) : Prop :=
  match readInstalledState routes (h_world h') with
  | Ok actual => h_localAddrs h' = is_localAddrs actual ∧ h_routes h' = logicalLinuxRoutes actual routes ∧ (is_ok r = true ↔ host_matches localAddrs routes actual)
  | Err e => r = Err e
  end.
Lemma finish_run localAddrs routes (h : host) : finish_host mark mask localAddrs routes h =
  match readInstalledState routes (h_world h) with
  | Err e => (h, Err e)
  | Ok actual =>
    let h1 := set_installed (is_localAddrs actual) (logicalLinuxRoutes actual routes) h in
    match verifyLinuxState localAddrs routes actual with
    | [] => logOptionalRouteWarnings routes actual h1
    | errs => (h1, Err (EVerify errs))
    end
  end.
Proof.
  unfold finish_host. rewrite bind_run. unfold installedState. cbn [fst snd]. destruct (readInstalledState routes (h_world h)) as [actual|e]; [|done].
  rewrite bind_run. cbn [note_installed modify fst snd]. rewrite bind_run. by destruct (verifyLinuxState localAddrs routes actual).
Qed.
Lemma finish_checked localAddrs routes (h h' : host) r : NoDup (hr_Destination <$> routes) → finish_host mark mask localAddrs routes h = (h', r) →
  h_ops h' = h_ops h ∧ checked localAddrs routes h' r.
Proof.
  intros Hn. rewrite finish_run. unfold checked. destruct (readInstalledState routes (h_world h)) as [actual|e] eqn:E; [|intros [= <- <-]; by rewrite E].
  cbv zeta. set (h1 := set_installed _ _ h). pose proof (verify_state localAddrs routes actual Hn) as Hv.
  destruct (verifyLinuxState localAddrs routes actual) as [|x l].
  - pose proof (warn_ops routes actual h1) as (Ho & Hw & Hla & Hro & _). pose proof (warn_never_fails routes actual h1) as Hok. intros Hrun.
    rewrite Hrun in *. cbn [fst snd] in *. rewrite Ho, Hw, Hla, Hro, Hok. cbn [h1 h_world set_installed h_localAddrs h_routes h_ops]. rewrite E.
    split; [done|]. split_and!; [done|done|]. by rewrite <-Hv.
  - intros [= <- <-]. cbn [h1 h_world set_installed h_localAddrs h_routes h_ops]. rewrite E. split; [done|]. split_and!; [done|done|]. by rewrite <-Hv.
Qed.
Lemma reconcile_ran cfg localAddrs routes st (h h' : host) r : normal_form cfg localAddrs routes → reconcile_host mark mask localAddrs routes st h = (h', r) →
  ∃ t, h_ops h' = h_ops h ++ t ∧ ran (optional_in routes) (plan_ops localAddrs routes st) t r ∧ same_host h h'.
Proof.
  intros Hn Hrun. destruct (emits_reconcile (optional_in routes) localAddrs routes st (λ w, optional_normal cfg localAddrs routes w Hn) h) as (t & Ht & Hr).
  pose proof (reconcile_same localAddrs routes st h) as Hs. rewrite Hrun in *. by exists t.
Qed.

(** ** When nothing is left to do *)

Lemma unique_by {A K} (key : A → K) l a b : NoDup (key <$> l) → a ∈ l → b ∈ l → key a = key b → a = b.
Proof.
  intros Hn [i Hi]%list_elem_of_lookup [j Hj]%list_elem_of_lookup Hk. assert (i = j) as ->; [|congruence].
  eapply (NoDup_lookup (key <$> l) i j (key a)); [done| |]; rewrite list_lookup_fmap; [by rewrite Hi|by rewrite Hj, Hk].
Qed.
Lemma skip_elem b op x : x ∈ skip_or b op → b = false ∧ x = op.
Proof. destruct b; [by intros ?%elem_of_nil|by intros ->%list_elem_of_singleton]. Qed.
Lemma table_settled table want got op : NoDup (hr_Destination <$> want) → table_matches want got → op ∈ table_plan table want got →
  ∃ w, w ∈ want ∧ hr_Optional w = true ∧ in_place (by_dst got) w = false ∧ op = route_op table w.
Proof.
  intros Hn [Hg Hw] [Hop|Hop]%elem_of_app; apply list_elem_of_bind in Hop as (x & Hx & Hin).
  - exfalso. apply list_elem_of_In, filter_In in Hin as [Hin%list_elem_of_In Hs]. destruct (Hg x Hin) as (w & Hwin & Hd & _).
    unfold by_destination in Hs. rewrite <-Hd in Hs. by destruct (fill_some hr_Destination want ∅ w Hwin) as [? Hs']; rewrite Hs' in Hs.
  - apply skip_elem in Hx as [Hp ->]. exists x. split_and!; [done| |done|done]. destruct (hr_Optional x) eqn:Ho; [done|]. exfalso.
    destruct (Hw x Hin Ho) as (i & Hi & Hd). unfold in_place, by_dst in Hp. rewrite <-Hd in Hp.
    destruct (fill_some ir_dst got ∅ i Hi) as [i' Hi']. rewrite Hi' in Hp. apply fill_lookup in Hi' as [Hi'|[Hi' Hd']]; [by rewrite lookup_empty in Hi'|].
    destruct (Hg i' Hi') as (w' & Hw' & Hdw & [Hopt|[Hc Hs]]); (assert (w' = x) as -> by (apply (unique_by hr_Destination want); [done..|congruence])).
    + congruence.
    + by rewrite Hc, Hs, bool_decide_true in Hp.
Qed.
Lemma settled_plan cfg localAddrs routes st op : normal_form cfg localAddrs routes → host_matches localAddrs routes st → op ∈ plan_ops localAddrs routes st →
  ∃ table w, w ∈ routes ∧ hr_Optional w = true ∧ op = route_op table w.
Proof.
  intros [Hna Hnr]%normal_NoDup [Ha Hm Ht Hr Hc]. unfold plan_ops. cbn [desiredLinuxRoutes fst snd].
  intros [H1|[H2|[H3|[H4|[H5|H6]%elem_of_app]%elem_of_app]%elem_of_app]%elem_of_app]%elem_of_app.
  - apply list_elem_of_bind in H1 as (x & [Hx _]%skip_elem & Hin). by rewrite Hr in Hx.
  - apply list_elem_of_bind in H2 as (p & [Hp _]%skip_elem & Hin). exfalso. unfold addr_in_place in Hp.
    destruct (fill_some p_addr (is_localAddrs st) ∅ p) as [q Hq]; [by apply Ha|]. rewrite Hq in Hp.
    apply fill_lookup in Hq as [Hq|[Hq Hk]]; [by rewrite lookup_empty in Hq|]. apply Ha in Hq.
    apply bool_decide_eq_false in Hp. apply Hp. by apply (unique_by p_addr localAddrs).
  - apply (table_settled _ _ _ _ (filter_dsts _ _ Hnr) Hm) in H3 as (w & [Hw _]%list_elem_of_In%filter_In & Ho & _ & ->).
    exists main_table, w. split; [by apply list_elem_of_In|done].
  - destruct (hasExitRoutes routes) eqn:Hx.
    + apply (table_settled _ _ _ _ Hnr Ht) in H4 as (w & Hw & Ho & _ & ->). by exists tailmixExitRouteTable, w.
    + apply (table_settled _ [] _ _ NoDup_nil_2 Ht) in H4 as (w & Hw & _). by apply elem_of_nil in Hw.
  - apply list_elem_of_bind in H5 as (x & [Hx _]%skip_elem & Hin). exfalso. specialize (Hc x Hin).
    destruct (List.filter (λ a, sameLinuxRule a x) (is_rules st)) as [|a l] eqn:Ef; [done|]. assert (In a (List.filter (λ a, sameLinuxRule a x) (is_rules st))) as Hain by (rewrite Ef; by left).
    apply filter_In in Hain as [Hain Hs]. assert (containsLinuxRule (is_rules st) x = true); [|congruence]. apply existsb_exists. eauto.
  - apply list_elem_of_bind in H6 as (p & [Hp _]%skip_elem & Hin%Ha). exfalso.
    assert (existsb (λ q, bool_decide (p_addr q = p_addr p)) localAddrs = true); [|congruence].
    apply existsb_exists. exists p. split; [by apply list_elem_of_In|by apply bool_decide_eq_true].
Qed.

(** ** In what order *)

Lemma ran_before opt plan t r pre op o post : ran opt plan t r → t = pre ++ (op, o) :: post → (∀ x, op ≠ OpRuleDel x) →
  ∃ rest, plan = pre.*1 ++ op :: rest ∧ Forall (λ x, accepted opt x = true) pre.
Proof.
  intros Hr -> Hop. destruct r as [u|e]; cbn [ran] in Hr.
  - destruct Hr as [<- Ha]. rewrite fmap_app. apply Forall_app in Ha as [Ha _]. by exists post.*1.
  - destruct Hr as (t0 & x & roll & rest & E & -> & Ha & Hx & Hroll).
    assert (Hnr : (op, o) ∉ roll).
    { intros Hin. assert (op ∈ roll.*1) as Hin' by (apply list_elem_of_fmap; by exists (op, o)). rewrite Hroll in Hin'. unfold rollback in Hin'.
      destruct x.1; try (by apply elem_of_nil in Hin'). apply list_elem_of_fmap in Hin' as (y & -> & _). by apply (Hop y). }
    apply app_eq_inv in E as [(k & -> & E)|(k & -> & E)].
    + destruct k as [|y k]; cbn in E; injection E as E0 E; subst.
      * exists rest. split; [by rewrite app_nil_r|]. by rewrite app_nil_r.
      * destruct Hnr. apply elem_of_app. right. by left.
    + destruct k as [|y k]; cbn in E; injection E as E0 E; subst.
      * exists rest. split; [by rewrite app_nil_r|]. by rewrite app_nil_r in Ha.
      * rewrite fmap_app. cbn [fmap list_fmap fst]. exists (k.*1 ++ x.1 :: rest). rewrite <-app_assoc. apply Forall_app in Ha as [Ha _]. by split.
Qed.
(** An operation of the rest of a plan comes after all of its beginning. *)
Lemma ran_after opt A B t r pre op o post x : ran opt (A ++ B) t r → t = pre ++ (op, o) :: post → (∀ y, op ≠ OpRuleDel y) → op ∉ A → x ∈ A →
  ∃ o', (x, o') ∈ pre ∧ accepted opt (x, o') = true.
Proof.
  intros Hr Ht Hop Hna Hx. destruct (ran_before _ _ _ _ _ _ _ _ Hr Ht Hop) as (rest & E & Ha).
  assert (x ∈ pre.*1) as Hin.
  { apply app_eq_inv in E as [(k & -> & E)|(k & -> & E)]; [|apply elem_of_app; auto].
    destruct k as [|y k]; [by rewrite app_nil_r in Hx|]. cbn in E. injection E as <- _. destruct Hna. apply elem_of_app. right. by left. }
  apply list_elem_of_fmap in Hin as ([x' o'] & -> & Hin). exists o'. split; [done|]. by apply (proj1 (Forall_forall _ _) Ha).
Qed.

(** ** Closing *)

(** What [Close] accepts of a removal. *)
Definition removed (x : nl_op * nl_outcome) : bool := match x.2 with Done | NotExist => true | _ => false end.
Definition close_plan (st : linuxInstalledState) : list nl_op :=
  (OpRuleDel <$> is_rules st) ++ ((λ i, OpRouteDel tailmixExitRouteTable (ir_dst i)) <$> rev (is_tableRoutes st)) ++
  ((λ i, OpRouteDel main_table (ir_dst i)) <$> rev (is_mainRoutes st)) ++ (OpAddrDel <$> rev (is_localAddrs st)).
(** A loop of removals: each is tried, and the errors are those of the ones that
    were not accepted. *)
Definition removes {A} (f : A → stm host linux_error (list linux_error)) (op : A → nl_op) : Prop :=
  ∀ x h, let o := (nl_exec (op x) (h_world h)).2 in
    ∃ errs, f x h = (set_world (nl_exec (op x) (h_world h)).1 (h_ops h ++ [(op x, o)]) h, Ok errs) ∧ (errs = [] ↔ removed (op x, o) = true).
Lemma removes_rule : removes close_rule OpRuleDel.
Proof. intros r h. unfold close_rule. rewrite exec_bind. eexists. split; [done|]. by destruct (nl_exec _ _).2. Qed.
Lemma removes_addr : removes close_addr OpAddrDel.
Proof. intros r h. unfold close_addr. rewrite exec_bind. eexists. split; [done|]. by destruct (nl_exec _ _).2. Qed.
Lemma removes_route table : removes (close_route table) (λ i, OpRouteDel table (ir_dst i)).
Proof.
  intros i h. unfold close_route. rewrite bind_run. unfold try, deleteRouteFromTable. rewrite exec_bind. cbv zeta. unfold ir_dst.
  destruct (nl_exec _ _) as [w o]. cbn [fst snd]. destruct o; eexists; split; done.
Qed.
(** What a run of removals did: [t] with the errors [errs]. *)
Definition removing (plan : list nl_op) (h h' : host) (errs : list linux_error) : Prop :=
  same_host h h' ∧ ∃ t, h_ops h' = h_ops h ++ t ∧ t.*1 = plan ∧ (errs = [] ↔ Forall (λ x, removed x = true) t).
Lemma collect_removes {A} (f : A → stm host linux_error (list linux_error)) op l h : removes f op →
  ∃ h' es, collect f l h = (h', Ok es) ∧ removing (op <$> l) h h' (concat es).
Proof.
  intros Hf. revert h. induction l as [|x l IH]; intros h.
  { exists h, []. split; [done|]. split; [by split_and!|]. exists []. rewrite app_nil_r. by split_and!. }
  destruct (Hf x h) as (e & He & Hiff). cbn [collect]. rewrite bind_run, He. cbn [fst snd]. set (h1 := set_world _ _ h).
  destruct (IH h1) as (h' & es & Hc & Hs & t & Ho & Ht & Hes). rewrite bind_run, Hc. cbn [fst snd]. exists h', (e :: es). split; [done|].
  split; [exact Hs|]. eexists (_ :: t). rewrite Ho. cbn [h1 h_ops set_world]. rewrite <-app_assoc. split; [done|]. split; [cbn; by rewrite Ht|].
  cbn [concat]. rewrite app_nil, Hes, Hiff. by rewrite Forall_cons.
Qed.
Lemma removing_trans p1 p2 h1 h2 h3 e1 e2 : removing p1 h1 h2 e1 → removing p2 h2 h3 e2 → removing (p1 ++ p2) h1 h3 (e1 ++ e2).
Proof.
  intros (S1 & t1 & O1 & P1 & E1) (S2 & t2 & O2 & P2 & E2). split; [by etrans|]. exists (t1 ++ t2).
  rewrite O2, O1, app_assoc, fmap_app, P1, P2, app_nil, Forall_app, E1, E2. by split_and!.
Qed.
Definition close_state (h : host) : linuxInstalledState * list linux_error :=
  match readInstalledState (h_routes h) (h_world h) with Ok st => (st, []) | Err e => (assumed_state mark mask h, [EReadBeforeClose e]) end.
Lemma bind_ok_run {A B} (m : stm host linux_error A) (f : A → stm host linux_error B) s s1 a : m s = (s1, Ok a) → (m ≫= f) s = f a s1.
Proof. intros E. by rewrite bind_run, E. Qed.
Lemma Close_run (h : host) : h_once h = false → ∃ h1 errs eclose, removing (close_plan (close_state h).1) (set_once h) h1 errs ∧
  (eclose = [] ↔ (dev_Close (h_world h1)).2 = true) ∧
  let all := (close_state h).2 ++ errs ++ eclose in
  Close mark mask h = (set_closeErr all (set_world (dev_Close (h_world h1)).1 (h_ops h1) (set_closed h1)), Ok all).
Proof.
  intros Honce. unfold Close, close_state. rewrite (bind_ok_run _ _ h h false) by (unfold gets; by rewrite Honce).
  rewrite (bind_ok_run _ _ h (set_once h) tt) by done. set (h0 := set_once h). rewrite (bind_ok_run _ _ h0 h0 (h_routes h)) by done.
  rewrite (bind_ok_run _ _ h0 h0 (assumed_state mark mask h)) by done.
  rewrite (bind_ok_run _ _ h0 h0 (readInstalledState (h_routes h) (h_world h))) by done.
  destruct (readInstalledState (h_routes h) (h_world h)) as [st|e];
    [set (st0 := st); set (e0 := @nil linux_error)|set (st0 := assumed_state mark mask h); set (e0 := [EReadBeforeClose e])]; cbn [fst snd];
    (destruct (collect_removes close_rule OpRuleDel (is_rules st0) h0 removes_rule) as (ha & e1 & C1 & R1);
     destruct (collect_removes (close_route tailmixExitRouteTable) _ (rev (is_tableRoutes st0)) ha (removes_route _)) as (hb & e2 & C2 & R2);
     destruct (collect_removes (close_route main_table) _ (rev (is_mainRoutes st0)) hb (removes_route _)) as (hc & e3 & C3 & R3);
     destruct (collect_removes close_addr OpAddrDel (rev (is_localAddrs st0)) hc removes_addr) as (hd & e4 & C4 & R4);
     rewrite (bind_ok_run _ _ _ _ _ C1), (bind_ok_run _ _ _ _ _ C2), (bind_ok_run _ _ _ _ _ C3), (bind_ok_run _ _ _ _ _ C4);
     rewrite (bind_ok_run _ _ hd (set_closed hd) tt) by done;
     destruct (dev_Close (h_world hd)) as [w ok] eqn:Ed;
     exists hd, (concat e1 ++ concat e2 ++ concat e3 ++ concat e4), (if ok then [] else [ECloseDevice]);
     split; [exact (removing_trans _ _ _ _ _ _ _ R1 (removing_trans _ _ _ _ _ _ _ R2 (removing_trans _ _ _ _ _ _ _ R3 R4)))|];
     split; [rewrite Ed; by destruct ok|]; cbv zeta; rewrite Ed;
     rewrite (bind_ok_run _ _ (set_closed hd) (set_world w (h_ops hd) (set_closed hd)) (if ok then [] else [ECloseDevice]))
       by (unfold close_device; cbn [h_world set_closed]; by rewrite Ed);
     rewrite (bind_ok_run _ _ _ _ _ eq_refl); unfold gets; cbn [fst snd h_closeErr set_closeErr]; by rewrite <-!app_assoc).
Qed.

(** ** What holds *)

(** The cases of [Configure]: nothing is done, or the plan is run from what was
    read and then checked. *)
Definition refused (cfg : HostConfig) (h : host) (r : result linux_error unit) : Prop :=
  is_ok r = false ∧ ((∃ e, normalizeConfig cfg = Err e) ∨ h_closed h = true ∨
    ∃ localAddrs routes e, normalizeConfig cfg = Ok (localAddrs, routes) ∧ readInstalledState routes (h_world h) = Err e).
Record configured (h : host) (localAddrs : list Prefix) (routes : list HostRoute) (st : linuxInstalledState) (t : list (nl_op * nl_outcome))
    (h' : host) (r : result linux_error unit) : Prop := {
  cd_open : h_closed h = false ∧ h_closed h' = false;
  cd_read : readInstalledState routes (h_world h) = Ok st;
  cd_ops : h_ops h' = h_ops h ++ t;
  cd_ran : (is_ok r = false ∧ ran (optional_in routes) (plan_ops localAddrs routes st) t r) ∨
    (ran (optional_in routes) (plan_ops localAddrs routes st) t (Ok tt) ∧ checked localAddrs routes h' r) }.
Lemma finish_closed localAddrs routes (h : host) : h_closed (finish_host mark mask localAddrs routes h).1 = h_closed h.
Proof.
  rewrite finish_run. destruct (readInstalledState routes (h_world h)) as [actual|e]; [|done]. cbv zeta.
  destruct (verifyLinuxState localAddrs routes actual); [|done]. by destruct (warn_ops routes actual (set_installed (is_localAddrs actual) (logicalLinuxRoutes actual routes) h)) as (_ & _ & _ & _ & -> & _).
Qed.
Lemma Configure_cases cfg (h h' : host) r : Configure mark mask cfg h = (h', r) →
  (h' = h ∧ refused cfg h r) ∨
  ∃ localAddrs routes st t, normalizeConfig cfg = Ok (localAddrs, routes) ∧ normal_form cfg localAddrs routes ∧ configured h localAddrs routes st t h' r.
Proof.
  rewrite Configure_run. unfold refused. destruct (normalizeConfig cfg) as [[localAddrs routes]|e] eqn:En; [|intros [= <- <-]; left; naive_solver].
  destruct (h_closed h) eqn:Hc; [intros [= <- <-]; left; naive_solver|].
  destruct (readInstalledState routes (h_world h)) as [st|e] eqn:Er; [|intros [= <- <-]; left; naive_solver].
  pose proof (proj2 (normalizeConfig_form _ _ _ En)) as Hn. rewrite bind_run. set (h0 := set_installed _ _ h).
  destruct (reconcile_host mark mask localAddrs routes st h0) as [h1 r1] eqn:E1. destruct (reconcile_ran _ _ _ _ _ _ _ Hn E1) as (t & Ho & Hr & _ & _ & Hc1 & _).
  change (h_closed h0) with (h_closed h) in Hc1. change (h_ops h0) with (h_ops h) in Ho.
  cbn [fst snd]. intros H2. right. exists localAddrs, routes, st, t. split; [done|]. split; [done|]. destruct r1 as [[]|e].
  - pose proof (finish_closed localAddrs routes h1) as Hc2. rewrite H2 in Hc2. cbn [fst] in Hc2.
    apply finish_checked in H2 as [Ho2 Hck]; [|by eapply normal_NoDup]. split; [split; [done|congruence]|done|congruence|by right].
  - injection H2 as <- <-. split; [split; [done|congruence]|done|done|by left].
Qed.

(** C21. Configuring a Linux host is all that it should be.  It is refused with
    nothing done for an invalid configuration, a closed host or a kernel that
    cannot be read.  Otherwise it runs its plan, made from what is installed, up
    to the first operation that fails (the installation of an optional route may
    fail), taking back the policy rules it has added when one cannot be added;
    when all went through it reads the kernel again and succeeds exactly if
    addresses, routes and rules are those of the configuration.  Configuring the
    same again then does nothing, but for optional routes. *)
Theorem Configure_sound (cfg : HostConfig) (h h' : host) (r : result linux_error unit) : Configure mark mask cfg h = (h', r) →
  (h' = h ∧ refused cfg h r) ∨
  ∃ localAddrs routes st t, normalizeConfig cfg = Ok (localAddrs, routes) ∧ configured h localAddrs routes st t h' r ∧
    (is_ok r = true → ∀ h2 r2, Configure mark mask cfg h' = (h2, r2) → ∃ t2, h_ops h2 = h_ops h' ++ t2 ∧
       ∀ op, op ∈ t2.*1 → ∃ table w, w ∈ routes ∧ hr_Optional w = true ∧ op = route_op table w).
Proof.
  intros [Hl|(localAddrs & routes & st & t & En & Hn & Hcd)]%Configure_cases; [by left|]. right. exists localAddrs, routes, st, t.
  split; [done|]. split; [done|]. intros Hok h2 r2 [[-> _]|(localAddrs' & routes' & st' & t2 & En' & _ & [_ Hr' Ho Hrun])]%Configure_cases.
  { exists []. rewrite app_nil_r. split; [done|]. by intros op ?%elem_of_nil. }
  assert (localAddrs' = localAddrs ∧ routes' = routes) as [-> ->] by (split; congruence).
  destruct (cd_ran _ _ _ _ _ _ _ Hcd) as [[Hf _]|[_ Hck]]; [congruence|]. unfold checked in Hck. rewrite Hr' in Hck. destruct Hck as (_ & _ & Hm).
  assert (Hplan := λ op, settled_plan cfg localAddrs routes st' op Hn (proj1 Hm Hok)). exists t2. split; [done|].
  assert (Hgen : ∀ r0, ran (optional_in routes) (plan_ops localAddrs routes st') t2 r0 → ∀ op, op ∈ t2.*1 → ∃ table w, w ∈ routes ∧ hr_Optional w = true ∧ op = route_op table w).
  { intros [u|e] Hran op Hop; [destruct Hran as [Hran _]; apply Hplan; by rewrite <-Hran|].
    destruct Hran as (t0 & x & roll & rest & -> & Hp & _ & _ & Hroll). rewrite Hp in Hplan.
    destruct (Hplan x.1) as (table & w & Hw & Hopt & Hx); [apply elem_of_app; right; by left|].
    rewrite Hx in Hroll. cbn in Hroll. apply fmap_nil_inv in Hroll as ->. apply Hplan. rewrite fmap_app in Hop.
    apply elem_of_app in Hop as [?|[->|[]%elem_of_nil]%elem_of_cons]; apply elem_of_app; [auto|right; by left]. }
  destruct Hrun as [[_ Hrun]|[Hrun _]]; by eapply Hgen.
Qed.

(** C20. In what order a host is configured.  A policy rule that sends traffic to
    the exit table is added only when an exit is wanted and every required route
    of that table is there, from before or just installed; before anything else
    is done every rule that is not wanted has been removed, so that the routes it
    leads to go after it; and an address is removed only after the routes and
    rules of the new configuration are there, from before or just installed. *)
Theorem Configure_ordered (cfg : HostConfig) (h h' : host) r localAddrs routes st t pre op o post : normal_form cfg localAddrs routes →
  configured h localAddrs routes st t h' r → t = pre ++ (op, o) :: post →
  (∀ x, op = OpRuleAdd x → hasExitRoutes routes = true ∧ x ∈ desiredLinuxRules routes ∧
     ∀ w, w ∈ routes → hr_Optional w = false → in_place (by_dst (is_tableRoutes st)) w = true ∨ (route_op tailmixExitRouteTable w, Done) ∈ pre) ∧
  ((∀ x, op ≠ OpRuleDel x) → ∀ x, x ∈ is_rules st → containsLinuxRule (desiredLinuxRules routes) x = false →
     (OpRuleDel x, Done) ∈ pre ∨ (OpRuleDel x, NotExist) ∈ pre) ∧
  (∀ p, op = OpAddrDel p → p ∈ is_localAddrs st ∧ p_addr p ∉ p_addr <$> localAddrs ∧
     ∀ table want got, (table, want, got) ∈ [(main_table, (desiredLinuxRoutes routes).1, is_mainRoutes st); (tailmixExitRouteTable, (desiredLinuxRoutes routes).2, is_tableRoutes st)] →
       ∀ w, w ∈ want → hr_Optional w = false → in_place (by_dst got) w = true ∨ (route_op table w, Done) ∈ pre).
Proof.
  intros Hn [_ _ _ Hrun] Ht.
  assert (∃ r0, ran (optional_in routes) (plan_ops localAddrs routes st) t r0) as [r0 Hr] by (destruct Hrun as [[_ ?]|[? _]]; eauto).
  assert (Hput : ∀ table want got w, w ∈ want → w ∈ routes → hr_Optional w = false → in_place (by_dst got) w = false → route_op table w ∈ table_plan table want got).
  { intros table want got w Hw _ _ Hp. apply elem_of_app. right. apply list_elem_of_bind. exists w. split; [|done]. rewrite Hp. by left. }
  assert (Hdone : ∀ table w o', w ∈ routes → hr_Optional w = false → accepted (optional_in routes) (route_op table w, o') = true → o' = Done).
  { intros table w o' Hw Ho Ha. cbn in Ha. rewrite (optional_normal _ _ _ _ Hn Hw), Ho in Ha. by destruct o'. }
  set (P1 := rule_dels (is_rules st) routes). set (P2 := addr_puts (is_localAddrs st) localAddrs).
  set (P3 := table_plan main_table (desiredLinuxRoutes routes).1 (is_mainRoutes st)).
  set (P4 := table_plan tailmixExitRouteTable (desiredLinuxRoutes routes).2 (is_tableRoutes st)).
  set (P5 := rule_puts (is_rules st) (desiredLinuxRules routes)). set (P6 := addr_dels localAddrs (is_localAddrs st)).
  assert (H1d : P1 = rule_dels (is_rules st) routes) by done. assert (H3d : P3 = table_plan main_table (desiredLinuxRoutes routes).1 (is_mainRoutes st)) by done.
  assert (H4d : P4 = table_plan tailmixExitRouteTable (desiredLinuxRoutes routes).2 (is_tableRoutes st)) by done.
  assert (Hplan : plan_ops localAddrs routes st = P1 ++ P2 ++ P3 ++ P4 ++ P5 ++ P6) by done.
  assert (Hmain : ∀ w, w ∈ (desiredLinuxRoutes routes).1 → w ∈ routes) by (intros w [Hw _]%list_elem_of_In%filter_In; by apply list_elem_of_In).
  assert (Htab : ∀ w, w ∈ (desiredLinuxRoutes routes).2 → w ∈ routes) by (cbn [desiredLinuxRoutes snd]; intros w; by destruct (hasExitRoutes routes); [|intros ?%elem_of_nil]).
  assert (K1 : ∀ y, y ∈ P1 → ∃ z, y = OpRuleDel z) by (intros y (z & [_ ->]%skip_elem & _)%list_elem_of_bind; eauto).
  assert (K2 : ∀ y, y ∈ P2 → ∃ z, y = OpAddrReplace z) by (intros y (z & [_ ->]%skip_elem & _)%list_elem_of_bind; eauto).
  assert (K34 : ∀ table want got y, y ∈ table_plan table want got → (∃ d, y = OpRouteDel table d) ∨ ∃ w, y = route_op table w).
  { intros table want got y [(z & Hz & _)%list_elem_of_bind|(z & [_ ->]%skip_elem & _)%list_elem_of_bind]%elem_of_app; [|eauto].
    apply list_elem_of_singleton in Hz as ->. eauto. }
  assert (K5 : ∀ y, y ∈ P5 → ∃ z, y = OpRuleAdd z ∧ z ∈ desiredLinuxRules routes) by (intros y (z & [_ ->]%skip_elem & ?)%list_elem_of_bind; eauto).
  assert (K6 : ∀ y, y ∈ P6 → ∃ z, y = OpAddrDel z ∧ z ∈ is_localAddrs st ∧ p_addr z ∉ p_addr <$> localAddrs).
  { intros y (z & [Hz ->]%skip_elem & ?)%list_elem_of_bind. exists z. split_and!; [done|done|]. intros (q & Hq & Hin)%list_elem_of_fmap.
    assert (existsb (λ q, bool_decide (p_addr q = p_addr z)) localAddrs = true); [|congruence]. apply existsb_exists. exists q.
    split; [by apply list_elem_of_In|by apply bool_decide_eq_true]. }
  assert (K3 : ∀ y, y ∈ P3 → (∃ d, y = OpRouteDel main_table d) ∨ ∃ w, y = route_op main_table w) by apply K34.
  assert (K4 : ∀ y, y ∈ P4 → (∃ d, y = OpRouteDel tailmixExitRouteTable d) ∨ ∃ w, y = route_op tailmixExitRouteTable w) by apply K34.
  clearbody P1 P2 P3 P4 P5 P6. rewrite Hplan in Hr.
  split_and!.
  - intros x ->. assert (Hnx : ∀ y, OpRuleAdd x ≠ OpRuleDel y) by done. rewrite !app_assoc, <-(app_assoc _ P5 P6) in Hr.
    assert (Hna : OpRuleAdd x ∉ ((P1 ++ P2) ++ P3) ++ P4).
    { rewrite !elem_of_app. intros [[[[? ?]%K1|[? ?]%K2]|[[? ?]|[? ?]]%K3]|[[? ?]|[? ?]]%K4]; done. }
    destruct (ran_before _ _ _ _ _ _ _ _ Hr Ht Hnx) as (rest & E & _).
    assert (Hin : OpRuleAdd x ∈ P5 ++ P6).
    { assert (OpRuleAdd x ∈ (((P1 ++ P2) ++ P3) ++ P4) ++ P5 ++ P6) as [?|?]%elem_of_app; [|done..]. rewrite E. apply elem_of_app. right. by left. }
    apply elem_of_app in Hin as [(z & [= ->] & Hz)%K5|(z & ? & _)%K6]; [|done].
    assert (Hx : hasExitRoutes routes = true) by (unfold HostTUNLinux.desiredLinuxRules in Hz; destruct (hasExitRoutes routes); [done|by apply elem_of_nil in Hz]).
    split_and!; [done|done|]. intros w Hw Ho. destruct (in_place _ w) eqn:Hp; [by left|right].
    destruct (ran_after _ _ _ _ _ _ _ _ _ (route_op tailmixExitRouteTable w) Hr Ht Hnx Hna) as (o' & Hpre & Ha).
    { apply elem_of_app. right. rewrite H4d. apply Hput; [cbn [desiredLinuxRoutes snd]; by rewrite Hx|done..]. }
    by rewrite (Hdone _ _ _ Hw Ho Ha) in Hpre.
  - intros Hnd x Hx Hc. assert (Hna : op ∉ P1) by (intros [z ->]%K1; by apply (Hnd z)).
    destruct (ran_after _ _ _ _ _ _ _ _ _ (OpRuleDel x) Hr Ht Hnd Hna) as (o' & Hpre & Ha).
    { rewrite H1d. apply list_elem_of_bind. exists x. rewrite Hc. split; [by left|done]. }
    destruct o'; [by left|done|by right|done].
  - intros p ->. assert (Hnx : ∀ y, OpAddrDel p ≠ OpRuleDel y) by done. rewrite !app_assoc in Hr.
    assert (Hna : OpAddrDel p ∉ (((P1 ++ P2) ++ P3) ++ P4) ++ P5).
    { rewrite !elem_of_app. intros [[[[[? ?]%K1|[? ?]%K2]|[[? ?]|[? ?]]%K3]|[[? ?]|[? ?]]%K4]|(? & ? & _)%K5]; done. }
    destruct (ran_before _ _ _ _ _ _ _ _ Hr Ht Hnx) as (rest & E & _).
    assert (Hin : OpAddrDel p ∈ P6).
    { assert (OpAddrDel p ∈ ((((P1 ++ P2) ++ P3) ++ P4) ++ P5) ++ P6) as [?|?]%elem_of_app; [|done..]. rewrite E. apply elem_of_app. right. by left. }
    destruct (K6 _ Hin) as (z & [= <-] & Hz & Hzn). split_and!; [done|done|].
    assert (Hgo : ∀ table want got, table_plan table want got ⊆ (((P1 ++ P2) ++ P3) ++ P4) ++ P5 → (∀ w, w ∈ want → w ∈ routes) →
      ∀ w, w ∈ want → hr_Optional w = false → in_place (by_dst got) w = true ∨ (route_op table w, Done) ∈ pre).
    { intros table want got Hsub Hr' w Hw Ho. destruct (in_place _ w) eqn:Hp; [by left|right].
      destruct (ran_after _ _ _ _ _ _ _ _ _ (route_op table w) Hr Ht Hnx Hna) as (o' & Hpre & Ha); [apply Hsub, Hput; auto|].
      by rewrite (Hdone _ _ _ (Hr' w Hw) Ho Ha) in Hpre. }
    intros table want got [[= -> -> ->]|[[= -> -> ->]|[]%elem_of_nil]%elem_of_cons]%elem_of_cons; apply Hgo; try done; intros y Hy; rewrite !elem_of_app.
    + left. left. right. rewrite H3d. exact Hy.
    + left. right. rewrite H4d. exact Hy.
Qed.

(** C22. Closing a Linux host cleans up as far as the kernel lets it.  The first
    [Close] removes, whatever fails, every rule, route and address that is
    installed (what it believes to be installed when the kernel cannot be read),
    rules first and addresses last, and then closes the device; it returns no
    error exactly when the kernel could be read and all of this went through.
    From then on the host is closed: a second [Close] returns the same errors and
    no configuration does anything. *)
Theorem Close_sound (h : host) : h_once h = false →
  ∃ h' errs t w, Close mark mask h = (h', Ok errs) ∧ h_ops h' = h_ops h ++ t ∧ t.*1 = close_plan (close_state h).1 ∧
    h_world h' = (dev_Close w).1 ∧
    (errs = [] ↔ is_ok (readInstalledState (h_routes h) (h_world h)) = true ∧ Forall (λ x, removed x = true) t ∧ (dev_Close w).2 = true) ∧
    h_closed h' = true ∧ h_localAddrs h' = [] ∧ h_routes h' = [] ∧
    Close mark mask h' = (h', Ok errs) ∧ (∀ cfg h2 r, Configure mark mask cfg h' = (h2, r) → h2 = h' ∧ is_ok r = false).
Proof.
  intros Honce. destruct (Close_run h Honce) as (h1 & errs & eclose & (Hs & t & Ho & Ht & He) & Hd & Hrun). cbv zeta in Hrun.
  set (all := (close_state h).2 ++ errs ++ eclose) in *. set (h' := set_closeErr all _) in *.
  assert (Honce' : h_once h' = true) by (destruct Hs as (_ & _ & _ & Hx & _); exact Hx).
  exists h', all, t, (h_world h1). split; [exact Hrun|]. split; [exact Ho|]. split; [exact Ht|]. split; [done|]. split.
  { unfold all. rewrite !app_nil, He, Hd. unfold close_state. by destruct (readInstalledState (h_routes h) (h_world h)); naive_solver. }
  split_and!; [done..| |].
  - unfold Close. rewrite (bind_ok_run _ _ h' h' true) by (unfold gets; by rewrite Honce'). done.
  - intros cfg h2 r. rewrite Configure_run. destruct (normalizeConfig cfg) as [[la rs]|e]; [|by intros [= <- <-]].
    by intros [= <- <-].
Qed.
End facts.

(** ** A kernel *)

(** A small kernel: its faults are the outcomes of the next operations. *)
Record kernel : Type := MkKernel {
  k_addrs : list Prefix; k_routes : list (Z * nl_route); k_rules : list nl_rule; k_faults : list nl_outcome }.
Definition new_route (d : Prefix) (source : Addr) (priority : Z) : nl_route :=
  MkNlRoute (Some (Some d)) source false false false false RTN_UNICAST SCOPE_UNIVERSE priority 0 3.
Definition route_at (table : Z) (d : Prefix) (x : Z * nl_route) : bool := (x.1 =? table) && bool_decide (nr_Dst x.2 = Some (Some d)).
#[export] Instance nl_rule_eq_dec : EqDecision nl_rule.
Proof. solve_decision. Defined.
Definition kernel_do (op : nl_op) (k : kernel) : kernel * nl_outcome :=
  let 'MkKernel addrs routes rules faults := k in
  match op with
  | OpAddrReplace p => (MkKernel (if p ∈? addrs then addrs else addrs ++ [p]) routes rules faults, Done)
  | OpAddrDel p => if p ∈? addrs then (MkKernel (List.filter (λ q, negb (bool_decide (q = p))) addrs) routes rules faults, Done) else (k, Failed)
  | OpRouteReplace table d source priority =>
    if existsb (λ p, bool_decide (p_addr p = source)) addrs
    then (MkKernel addrs (List.filter (λ x, negb (route_at table d x)) routes ++ [(table, new_route d source priority)]) rules faults, Done)
    else (k, Failed)
  | OpRouteDel table d =>
    if existsb (route_at table d) routes then (MkKernel addrs (List.filter (λ x, negb (route_at table d x)) routes) rules faults, Done) else (k, NotExist)
  | OpRuleAdd r => if r ∈? rules then (k, Exists) else (MkKernel addrs routes (rules ++ [r]) faults, Done)
  | OpRuleDel r => if r ∈? rules then (MkKernel addrs routes (List.filter (λ x, negb (bool_decide (x = r))) rules) faults, Done) else (k, NotExist)
  end.
#[export] Instance toy_kernel : Netlink kernel := {|
  AddrList k := Some (Some <$> k_addrs k);
  RouteList table family k := Some (k_routes k ≫= λ x,
    if (x.1 =? table) && match nr_Dst x.2 with Some (Some d) => eqb (addr.Is6 (p_addr d)) (family =? AF_INET6) | _ => true end then [x.2] else []);
  RuleList family k := Some (List.filter (λ r, ru_Family r =? family) (k_rules k));
  nl_exec op k :=
    match k_faults k with
    | (NotExist | Failed) as o :: faults => (MkKernel (k_addrs k) (k_routes k) (k_rules k) faults, o)
    | _ :: faults => kernel_do op (MkKernel (k_addrs k) (k_routes k) (k_rules k) faults)
    | [] => kernel_do op k
    end;
  dev_Close k := (k, true) |}.

(** One address, a route into the overlay and an exit node. *)
Definition toy_nat : Prefix := MkPrefix (Addr4 1681915905) 32.
Definition toy_exit (p : Prefix) : HostRoute := MkHostRoute p (p_addr toy_nat) true false.
Definition toy_cfg : HostConfig :=
  MkHostConfig [toy_nat] (plain_route (MkPrefix (Addr4 167772160) 8) (p_addr toy_nat) :: (toy_exit <$> splitDefaultRoutes false)).
Definition toy_host (faults : list nl_outcome) : linuxHost (W:=kernel) := MkHost [] [] false false [] (MkKernel [] [] [] faults) [] [].
Definition toy_run (faults : list nl_outcome) := Configure 524288 16711680 toy_cfg (toy_host faults).
Lemma toy_up : (toy_run []).2 = Ok tt ∧ length (h_ops (toy_run []).1) = 7%nat.
Proof. split; vm_compute; reflexivity. Qed.
(** When the second rule cannot be added the first is taken back. *)
Example toy_rolled_back :
  (toy_run [Done; Done; Done; Done; Done; Done; Failed]).2 = Err (EAddRule AF_INET6) ∧
  k_rules (h_world (toy_run [Done; Done; Done; Done; Done; Done; Failed]).1) = [] ∧
  (Configure 524288 16711680 toy_cfg (toy_run [Done; Done; Done; Done; Done; Done; Failed]).1).2 = Ok tt.
Proof. split_and!; vm_compute; reflexivity. Qed.

Lemma Configure_sound_witness : ∃ localAddrs routes st t, normalizeConfig toy_cfg = Ok (localAddrs, routes) ∧
  configured 524288 16711680 (toy_host []) localAddrs routes st t (toy_run []).1 (Ok tt).
Proof.
  assert (E : toy_run [] = ((toy_run []).1, Ok tt)) by (rewrite <-(proj1 toy_up); apply surjective_pairing).
  destruct (Configure_sound 524288 16711680 toy_cfg (toy_host []) (toy_run []).1 (Ok tt) E) as [[_ [Hf _]]|(la & rs & st & t & H1 & H2 & _)]; [discriminate Hf|].
  exists la, rs, st, t. exact (conj H1 H2).
Defined.
Lemma toy_ops : h_ops (toy_run []).1 = take 5 (h_ops (toy_run []).1) ++ (OpRuleAdd (tailmixExitRule 524288 16711680 AF_INET), Done) :: drop 6 (h_ops (toy_run []).1).
Proof. vm_compute. reflexivity. Qed.
Lemma Configure_ordered_witness : ∃ routes, hasExitRoutes routes = true ∧ tailmixExitRule 524288 16711680 AF_INET ∈ desiredLinuxRules 524288 16711680 routes.
Proof.
  assert (E : toy_run [] = ((toy_run []).1, Ok tt)) by (rewrite <-(proj1 toy_up); apply surjective_pairing).
  destruct (Configure_cases 524288 16711680 toy_cfg (toy_host []) (toy_run []).1 (Ok tt) E) as [[_ [Hf _]]|(la & rs & st & t & _ & Hn & Hc)]; [discriminate Hf|].
  assert (Ht : t = take 5 (h_ops (toy_run []).1) ++ (OpRuleAdd (tailmixExitRule 524288 16711680 AF_INET), Done) :: drop 6 (h_ops (toy_run []).1)).
  { rewrite <-toy_ops. symmetry. exact (cd_ops _ _ _ _ _ _ _ _ _ Hc). }
  destruct (Configure_ordered 524288 16711680 toy_cfg _ _ _ _ _ _ _ _ _ _ _ Hn Hc Ht) as [Hadd _].
  exists rs. destruct (Hadd _ eq_refl) as (Hx & Hin & _). exact (conj Hx Hin).
Defined.
Lemma Close_sound_witness : ∃ h', Close 524288 16711680 (toy_run []).1 = (h', Ok []) ∧ h_closed h' = true.
Proof.
  assert (Honce : h_once (toy_run []).1 = false) by (vm_compute; reflexivity).
  assert (Herr : (Close 524288 16711680 (toy_run []).1).2 = Ok []) by (vm_compute; reflexivity).
  destruct (Close_sound 524288 16711680 (toy_run []).1 Honce) as (h' & errs & t & w & Hrun & _ & _ & _ & _ & Hcl & _).
  exists h'. split; [|exact Hcl]. rewrite Hrun in Herr |- *. cbn [snd] in Herr. rewrite Herr. reflexivity.
Defined.
