(* ===== verification/WireGuardEngine.v ===== *)
(** * The WireGuard engine

    profile/wireguardengine.go: the engine of a running WireGuard profile.  Each
    method that takes the engine's lock is one step; a method that lets go of it
    in between ([SetExitNodeIP]) is two, so that the steps of concurrent callers
    can be interleaved between them, as they can between preparing, applying and
    committing an update.  Policies are compared by identity, as the code's
    pointers are, and carry the identity of the flow table they share.  The
    device is the reference device of WireGuardUAPI.v; it may refuse a message
    after any of its lines, the resolver answers as it likes, and maps are ranged
    over in any order: these are arguments of the steps. *)

From S2P Require Import Prelude GoStrings Netip NetipText WireGuardKey PacketFilterCfg WireGuardCfg IPSet WireGuardFilter WireGuardUAPI.
From S2P Require Import Effects Types.
Local Open Scope Z_scope.

(** ** Secrets and configurations *)

Inductive engine_error : Type :=
  | EContext | ERestrictive (e : compile_error) | EFilterCompile (e : compile_error)
  | EEngineClosed | ENoTUN | EPrivateKey | EPeerKey
  | EConfigureDevice | EStartDevice | EStagedStart | ENotStarted
  | EStagedApply | EApplyDevice | ENotApplied | EFilterChanged
  | EStagedShields | EShieldsNotInstalled | EShieldsRollback
  | EIneligible | EStagedExit | ESetExit | ESetExitRestore | EReadStatus
  | ENilPolicy.                                   (* the filtered TUN refuses a nil policy *)

Definition effective_psk (old : Secrets) (initial : bool) (keys : gmap string Key) (peer : Peer) :
    result engine_error (gmap string Key) :=
  if negb (HasPresharedKey peer) then Ok (delete (peer_Name peer) keys)
  else if bool_decide (is_Some (keys !! peer_Name peer)) then Ok keys
  else match PresharedKeyByPeer old !! peer_Name peer with
       | Some key => if initial then Err EPeerKey else Ok (<[peer_Name peer := key]> keys)
       | None => Err EPeerKey
       end.
Definition effectiveWGSecrets (old : Secrets) (cfg : Config) (supplied : Secrets) (initial : bool) : result engine_error Secrets :=
  match (match s_PrivateKey supplied with
         | Some key => Some key
         | None => if initial then None else s_PrivateKey old
         end) with
  | None => Err EPrivateKey
  | Some key => keys ← foldM (effective_psk old initial) (c_Peers cfg) (PresharedKeyByPeer supplied); Ok (MkSecrets (Some key) keys)
  end.

Definition sameGrant (a b : Grant) : bool :=
  bool_decide (g_Src a = g_Src b) && bool_decide (g_Dst a = g_Dst b) && bool_decide (g_IP a = g_IP b).
Fixpoint all2 {A} (f : A → A → bool) (l k : list A) : bool :=
  match l, k with
  | [], [] => true
  | a :: l, b :: k => f a b && all2 f l k
  | _, _ => false
  end.
Definition sameWGPacketFilter (a b : PacketFilter) : bool := all2 sameGrant (Grants a) (Grants b).
Definition sameOptionalWGKey (a b : option Key) : bool :=
  match a, b with Some a, Some b => bool_decide (a = b) | None, None => true | _, _ => false end.
Definition sameIdentityPeer (oldSecrets newSecrets : Secrets) (oldPeer newPeer : Peer) : bool :=
  String.eqb (peer_Name oldPeer) (peer_Name newPeer) && bool_decide (PublicKey oldPeer = PublicKey newPeer) &&
  eqb (ExitNode oldPeer) (ExitNode newPeer) && bool_decide (peer_Addresses oldPeer = peer_Addresses newPeer) &&
  bool_decide (peer_Routes oldPeer = peer_Routes newPeer) &&
  bool_decide (psk_of oldSecrets (peer_Name oldPeer) = psk_of newSecrets (peer_Name newPeer)).
Definition sameWGFilterIdentity (oldConfig : Config) (oldSecrets : Secrets) (oldExit : Addr) (newConfig : Config) (newSecrets : Secrets)
    (newExit : Addr) : bool :=
  bool_decide (c_Addresses oldConfig = c_Addresses newConfig) && bool_decide (oldExit = newExit) &&
  sameOptionalWGKey (s_PrivateKey oldSecrets) (s_PrivateKey newSecrets) &&
  all2 (sameIdentityPeer oldSecrets newSecrets) (c_Peers oldConfig) (c_Peers newConfig).

(** ** Endpoints *)

(** [strconv.ParseUint] and [strconv.ParseInt] with the error dropped: the
    nearest value when the number is out of range, and zero when it is not one.
    The digits after those that overflow are not looked at. *)
Fixpoint parse_saturated (max acc : Z) (l : list Ascii.ascii) : Z :=
  match l with
  | [] => acc
  | c :: l =>
    if is_digit c then let n := acc * 10 + digit_val c in if max <? n then max else parse_saturated max n l
    else 0
  end.
Definition ParseUint_value (s : string) (bits : Z) : Z := parse_saturated (2 ^ bits - 1) 0 (chars s).
Definition ParseInt_value (s : string) : Z :=
  let '(neg, digits) := match chars s with
                        | c :: l => if char_eqb c "+"%char then (false, l) else if char_eqb c "-"%char then (true, l) else (false, c :: l)
                        | [] => (false, [])
                        end in
  let un := parse_saturated (2 ^ 64 - 1) 0 digits in
  if neg then - Z.min un (2 ^ 63) else Z.min un (2 ^ 63 - 1).
Definition with_endpoint (p : Peer) (endpoint : string) : Peer :=
  MkPeer (peer_Name p) (PublicKey p) (HasPresharedKey p) endpoint (Keepalive p) (peer_Addresses p) (peer_Routes p) (ExitNode p).
Definition with_peers (c : Config) (peers : list Peer) : Config :=
  MkConfig (c_Version c) (c_Name c) (c_DNSSuffix c) (c_Addresses c) (c_ListenPort c) (c_PacketFilter c) peers.

Section resolve.
(** [net.DefaultResolver.LookupNetIP]: [None] is an error; and whether the
    context is done by the time a lookup has failed. *)
Context (LookupNetIP : string → option (list Addr)) (done_after : string → bool).

Definition resolve_endpoint (p : Peer) : result engine_error Peer :=
  let endpoint := Endpoint p in
  if String.eqb endpoint "" then Ok p
  else match SplitHostPort endpoint with
  | None => Ok (with_endpoint p "")
  | Some (host, portText) =>
    let port := ParseUint_value portText 16 in
    match ParseAddr host with
    | Some a => Ok (with_endpoint p (addrport_string a port))
    | None =>
      match LookupNetIP host with
      | Some (a :: addrs) =>
        match go_sort addr.less (a :: addrs) with
        | a :: _ => Ok (with_endpoint p (addrport_string (addr.Unmap a) port))
        | [] => Ok (with_endpoint p "")
        end
      | _ => if done_after host then Err EContext else Ok (with_endpoint p "")
      end
    end
  end.
Definition resolveWGConfigEndpoints (cfg : Config) : result engine_error Config :=
  peers ← imapM (λ _, resolve_endpoint) (c_Peers cfg); Ok (with_peers cfg peers).
End resolve.

(** ** The status of the device *)

(** [bufio.Scanner] over lines: a last line without a line break counts, an
    empty one does not, and a line that does not fit the buffer ends the scan. *)
Definition max_token : nat := 65536.
Definition drop_cr (l : string) : string := TrimSuffix l (String (char_of 13) "").
Fixpoint scan_lines (ls : list string) : list string :=
  match ls with
  | [] => []
  | [l] => if String.eqb l "" || (max_token <=? str_len l)%nat then [] else [drop_cr l]
  | l :: ls => if (max_token <=? str_len l)%nat then [] else drop_cr l :: scan_lines ls
  end.
Definition ScanLines (s : string) : list string := scan_lines (Split s (char_of 10)).

(** An instant is a number of nanoseconds from Go's zero time. *)
Definition unixToInternal : Z := 62135596800.
Definition time_Unix (sec nsec : Z) : Z :=
  int64 (sec + nsec / Second + unixToInternal) * Second + nsec mod Second.
Record wgPeerRuntime : Type := MkWGPeerRuntime { pr_lastHandshake : Z; pr_rxBytes : Z; pr_txBytes : Z }.
Definition no_runtime : wgPeerRuntime := MkWGPeerRuntime 0 0 0.
Record wgDeviceRuntime : Type := MkWGDeviceRuntime { dr_listenPort : Z; dr_peers : gmap string wgPeerRuntime }.
(** The variables of the loop. *)
Record status_scan : Type := MkScan { sc_result : wgDeviceRuntime; sc_key : string; sc_peer : wgPeerRuntime; sc_sec : Z; sc_nsec : Z }.
Definition flush (s : status_scan) : status_scan :=
  if String.eqb (sc_key s) "" then s
  else
    let peer := if sc_sec s =? 0 then sc_peer s
                else MkWGPeerRuntime (time_Unix (sc_sec s) (sc_nsec s)) (pr_rxBytes (sc_peer s)) (pr_txBytes (sc_peer s)) in
    MkScan (MkWGDeviceRuntime (dr_listenPort (sc_result s)) (<[sc_key s := peer]> (dr_peers (sc_result s)))) (sc_key s) peer
      (sc_sec s) (sc_nsec s).
Definition scan_status (s : status_scan) (line : string) : status_scan :=
  let '(name, value, ok) := Cut line "="%char in
  if negb ok then s
  else if String.eqb name "listen_port" then
    MkScan (MkWGDeviceRuntime (ParseUint_value value 16) (dr_peers (sc_result s))) (sc_key s) (sc_peer s) (sc_sec s) (sc_nsec s)
  else if String.eqb name "public_key" then MkScan (sc_result (flush s)) value no_runtime 0 0
  else if String.eqb name "last_handshake_time_sec" then
    MkScan (sc_result s) (sc_key s) (sc_peer s) (ParseInt_value value) (sc_nsec s)
  else if String.eqb name "last_handshake_time_nsec" then
    MkScan (sc_result s) (sc_key s) (sc_peer s) (sc_sec s) (ParseInt_value value)
  else if String.eqb name "rx_bytes" then
    MkScan (sc_result s) (sc_key s) (MkWGPeerRuntime (pr_lastHandshake (sc_peer s)) (ParseUint_value value 64) (pr_txBytes (sc_peer s)))
      (sc_sec s) (sc_nsec s)
  else if String.eqb name "tx_bytes" then
    MkScan (sc_result s) (sc_key s) (MkWGPeerRuntime (pr_lastHandshake (sc_peer s)) (pr_rxBytes (sc_peer s)) (ParseUint_value value 64))
      (sc_sec s) (sc_nsec s)
  else s.
Definition parseWGDeviceStatus (uapi : string) : wgDeviceRuntime :=
  sc_result (flush (foldl scan_status (MkScan (MkWGDeviceRuntime 0 ∅) "" no_runtime 0 0) (ScanLines uapi))).
Definition wgDNSName (name suffix : string) : string :=
  if String.eqb name "" || String.eqb suffix "" then ""
  else TrimSuffix name "." +:+ "." +:+ Trim (λ c, char_eqb c "."%char) suffix.

(** ** The engine *)

Section engine.
Context {Builder Sets : Type} `{IPSets Builder Sets}.

Record Policy : Type := MkPolicy { pol_id : nat; pol_flows : nat; pol_matches : list Match; pol_local : Sets }.
Definition same_policy (a b : option Policy) : bool :=
  match a, b with Some a, Some b => (pol_id a =? pol_id b)%nat | None, None => true | _, _ => false end.

Record Engine : Type := MkEngine {
  e_profileID : string; e_alias : string; e_tun : bool; e_bind : bool; e_startRestricted : bool;
  e_filteredTun : option Policy;        (* the policy the filtered TUN has *)
  e_policy : option Policy; e_pending : option Policy;
  e_bypassMark : bool; e_dev : option device_state; e_setConfig : bool;
  e_config : Config; e_runtime : Config; e_secrets : Secrets; e_exitIP : Addr;
  e_shieldsUp : bool; e_applyDegraded : bool; e_started : bool; e_closed : bool;
  e_updates : nat;                      (* how often the update channel was closed *)
  e_next : nat }.                       (* the next fresh identity *)
Definition zero_config : Config := MkConfig 0 "" "" [] 0 (MkFilter []) [].
Definition NewWireGuardEngine (profileID alias : string) (cfg : Config) (secrets : Secrets) (tun bind shieldsUp startRestricted : bool) : Engine :=
  MkEngine profileID alias tun bind startRestricted None None None false None false cfg zero_config secrets AddrInvalid shieldsUp false
    false false 0 0.

Local Notation M := (stm Engine engine_error).
Definition bump (e : Engine) : Engine :=
  MkEngine (e_profileID e) (e_alias e) (e_tun e) (e_bind e) (e_startRestricted e) (e_filteredTun e) (e_policy e) (e_pending e)
    (e_bypassMark e) (e_dev e) (e_setConfig e) (e_config e) (e_runtime e) (e_secrets e) (e_exitIP e) (e_shieldsUp e) (e_applyDegraded e)
    (e_started e) (e_closed e) (e_updates e) (S (e_next e)).
Definition notifyLocked (e : Engine) : Engine :=
  MkEngine (e_profileID e) (e_alias e) (e_tun e) (e_bind e) (e_startRestricted e) (e_filteredTun e) (e_policy e) (e_pending e)
    (e_bypassMark e) (e_dev e) (e_setConfig e) (e_config e) (e_runtime e) (e_secrets e) (e_exitIP e) (e_shieldsUp e) (e_applyDegraded e)
    (e_started e) (e_closed e) (S (e_updates e)) (e_next e).
(** [filteredTun.Install(p)] and then [e.policy = p].  Both are done under [e.mu],
    under which alone [e.policy] is read, and the loops of the packets read only
    what is installed: nobody sees the engine between the two. *)
Definition set_policy (p : option Policy) (e : Engine) : Engine :=
  MkEngine (e_profileID e) (e_alias e) (e_tun e) (e_bind e) (e_startRestricted e) p p (e_pending e)
    (e_bypassMark e) (e_dev e) (e_setConfig e) (e_config e) (e_runtime e) (e_secrets e) (e_exitIP e) (e_shieldsUp e) (e_applyDegraded e)
    (e_started e) (e_closed e) (e_updates e) (e_next e).
Definition set_pending (p : option Policy) (e : Engine) : Engine :=
  MkEngine (e_profileID e) (e_alias e) (e_tun e) (e_bind e) (e_startRestricted e) (e_filteredTun e) (e_policy e) p
    (e_bypassMark e) (e_dev e) (e_setConfig e) (e_config e) (e_runtime e) (e_secrets e) (e_exitIP e) (e_shieldsUp e) (e_applyDegraded e)
    (e_started e) (e_closed e) (e_updates e) (e_next e).
Definition set_degraded (b : bool) (e : Engine) : Engine :=
  MkEngine (e_profileID e) (e_alias e) (e_tun e) (e_bind e) (e_startRestricted e) (e_filteredTun e) (e_policy e) (e_pending e)
    (e_bypassMark e) (e_dev e) (e_setConfig e) (e_config e) (e_runtime e) (e_secrets e) (e_exitIP e) (e_shieldsUp e) b
    (e_started e) (e_closed e) (e_updates e) (e_next e).
Definition set_dev (d : option device_state) (e : Engine) : Engine :=
  MkEngine (e_profileID e) (e_alias e) (e_tun e) (e_bind e) (e_startRestricted e) (e_filteredTun e) (e_policy e) (e_pending e)
    (e_bypassMark e) d (e_setConfig e) (e_config e) (e_runtime e) (e_secrets e) (e_exitIP e) (e_shieldsUp e) (e_applyDegraded e)
    (e_started e) (e_closed e) (e_updates e) (e_next e).
Definition set_desired (config runtime : Config) (secrets : Secrets) (exit : Addr) (e : Engine) : Engine :=
  MkEngine (e_profileID e) (e_alias e) (e_tun e) (e_bind e) (e_startRestricted e) (e_filteredTun e) (e_policy e) (e_pending e)
    (e_bypassMark e) (e_dev e) (e_setConfig e) config runtime secrets exit (e_shieldsUp e) (e_applyDegraded e)
    (e_started e) (e_closed e) (e_updates e) (e_next e).
Definition set_shieldsUp (b : bool) (e : Engine) : Engine :=
  MkEngine (e_profileID e) (e_alias e) (e_tun e) (e_bind e) (e_startRestricted e) (e_filteredTun e) (e_policy e) (e_pending e)
    (e_bypassMark e) (e_dev e) (e_setConfig e) (e_config e) (e_runtime e) (e_secrets e) (e_exitIP e) b (e_applyDegraded e)
    (e_started e) (e_closed e) (e_updates e) (e_next e).
Definition stopped (e : Engine) : Engine :=
  MkEngine (e_profileID e) (e_alias e) (e_tun e) (e_bind e) (e_startRestricted e) None None None
    (e_bypassMark e) None false (e_config e) (e_runtime e) (e_secrets e) (e_exitIP e) (e_shieldsUp e) false
    false true (e_updates e) (e_next e).
(** What [Start] leaves. *)
Definition running (policy pending : option Policy) (mark : bool) (d : device_state) (runtime : Config) (secrets : Secrets)
    (e : Engine) : Engine :=
  MkEngine (e_profileID e) (e_alias e) (e_tun e) true (e_startRestricted e) policy policy pending
    mark (Some d) true (e_config e) runtime secrets (e_exitIP e) (e_shieldsUp e) (e_startRestricted e || e_applyDegraded e)
    true (e_closed e) (e_updates e) (e_next e).

Context (LinuxBypassMarkNum : Z) (linux : bool).

Definition compile (cfg : Config) (exit : Addr) (restrictive : bool) (share : option Policy) (err : compile_error → engine_error) : M Policy :=
  λ e, match Compile cfg exit restrictive with
       | Ok (matches, local) =>
         (bump e, Ok (MkPolicy (e_next e) (match share with Some p => pol_flows p | None => e_next e end) matches local))
       | Err c => (e, Err (err c))
       end.
(** [dev.IpcSet]: [None] is success, [Some n] an error after [n] lines. *)
Definition IpcSet (fault : option nat) (ls : list uapi_line) (e : Engine) : Engine :=
  set_dev ((uapi_run (match fault with Some n => take n ls | None => ls end)) <$> e_dev e) e.
Definition failed {A} (o : option A) : bool := match o with Some _ => true | None => false end.
Definition is_nil {A} (o : option A) : bool := negb (failed o).
Definition not_running (e : Engine) : bool := negb (e_started e) || is_nil (e_dev e) || is_nil (e_filteredTun e) || is_nil (e_policy e).

(** What a step meets outside: whether the context is done, the resolver, and
    the faults of the device. *)
Record outside : Type := MkOutside {
  x_done : bool; x_lookup : string → option (list Addr); x_done_after : string → bool;
  x_fault : option nat; x_fault2 : option nat; x_up : bool }.

Definition Start (x : outside) : M unit :=
  _ ← fail_if (x_done x) EContext;
  cfg ← gets e_config;
  runtime ← lift (resolveWGConfigEndpoints (x_lookup x) (x_done_after x) cfg);
  transition ← compile cfg AddrInvalid true None ERestrictive;
  shieldsUp ← gets e_shieldsUp;
  policy ← compile cfg AddrInvalid shieldsUp (Some transition) EFilterCompile;
  e ← gets id;
  if e_closed e then fail EEngineClosed
  else if e_started e then mret tt
  else if negb (e_tun e) then fail ENoTUN
  else
    secrets ← lift (effectiveWGSecrets (MkSecrets None ∅) cfg (e_secrets e) true);
    let mark := linux && negb (e_bind e) in
    _ ← fail_if (failed (x_fault x)) EConfigureDevice;
    _ ← fail_if (negb (x_up x)) EStartDevice;
    let d := uapi_run (fullWGConfig LinuxBypassMarkNum runtime secrets AddrInvalid mark) new_device in
    _ ← modify (if e_startRestricted e then running (Some transition) (Some policy) mark d runtime secrets
                else running (Some policy) (e_pending e) mark d runtime secrets);
    modify notifyLocked.

Definition CommitStartPolicy : M unit :=
  e ← gets id;
  match e_pending e with
  | None => mret tt
  | Some p =>
    if negb (e_started e) || is_nil (e_filteredTun e) || is_nil (e_policy e) then fail EStagedStart
    else modify (λ e, notifyLocked (set_degraded false (set_pending None (set_policy (Some p) e))))
  end.
Definition ApplyDegraded (e : Engine) : bool := e_applyDegraded e.
Definition Close : M unit := modify (λ e, if e_closed e then e else notifyLocked (stopped e)).

(** *** Updates of the configuration *)

Record WireGuardApply : Type := MkApply {
  a_oldPolicy : option Policy;
  a_newConfig : Config; a_newRuntime : Config; a_newSecrets : Secrets; a_newExit : Addr;
  a_forward : list uapi_line; a_transition : option Policy; a_final : option Policy;
  a_filterTransition : bool; a_applied : bool }.
Definition applied_now (a : WireGuardApply) : WireGuardApply :=
  MkApply (a_oldPolicy a) (a_newConfig a) (a_newRuntime a) (a_newSecrets a) (a_newExit a) (a_forward a) (a_transition a) (a_final a)
    (a_filterTransition a) true.

(** [orders] are the orders in which the difference ranges over its maps. *)
Definition PrepareApply (x : outside) (orders : list Key * list Key) (cfg : Config) (supplied : Secrets) : M WireGuardApply :=
  _ ← fail_if (x_done x) EContext;
  runtime ← lift (resolveWGConfigEndpoints (x_lookup x) (x_done_after x) cfg);
  e ← gets id;
  _ ← fail_if (not_running e) ENotStarted;
  secrets ← lift (effectiveWGSecrets (e_secrets e) cfg supplied false);
  let newExit := validExitSelection cfg (e_exitIP e) in
  let forward := diffWGConfig orders.1 orders.2 (e_runtime e) (e_secrets e) (e_exitIP e) runtime secrets newExit in
  let identityChanged := negb (sameWGFilterIdentity (e_config e) (e_secrets e) (e_exitIP e) cfg secrets newExit) in
  let policyChanged := negb (sameWGPacketFilter (c_PacketFilter (e_config e)) (c_PacketFilter cfg)) in
  let filterTransition := negb (bool_decide (forward = [])) || identityChanged || policyChanged || e_applyDegraded e in
  if filterTransition then
    transition ← compile cfg newExit true (if identityChanged then None else e_policy e) ERestrictive;
    final ← compile cfg newExit (e_shieldsUp e) (Some transition) EFilterCompile;
    mret (MkApply (e_policy e) cfg runtime secrets newExit forward (Some transition) (Some final) true false)
  else mret (MkApply (e_policy e) cfg runtime secrets newExit forward None None false false).

Definition Apply_staged (x : outside) (a : WireGuardApply) : M WireGuardApply :=
  if a_applied a then mret a
  else
    e ← gets id;
    _ ← fail_if (not_running e || negb (e_setConfig e) || negb (same_policy (e_policy e) (a_oldPolicy a))) EStagedApply;
    _ ← (if a_filterTransition a then
           match a_transition a with
           | None => fail ENilPolicy
           | Some p => modify (λ e, set_degraded true (set_policy (Some p) e))
           end
         else mret tt);
    _ ← (if bool_decide (a_forward a = []) then mret tt
         else
           _ ← modify (IpcSet (x_fault x) (a_forward a));
           if failed (x_fault x) then _ ← modify notifyLocked; fail EApplyDevice else mret tt);
    _ ← modify (set_desired (a_newConfig a) (a_newRuntime a) (a_newSecrets a) (a_newExit a));
    _ ← modify notifyLocked;
    mret (applied_now a).
Definition Commit_staged (a : WireGuardApply) : M unit :=
  e ← gets id;
  if negb (a_applied a) then fail ENotApplied
  else if negb (a_filterTransition a) then mret tt
  else if negb (same_policy (e_policy e) (a_transition a)) then fail EFilterChanged
  else match a_final a with
       | None => fail ENilPolicy
       | Some p => modify (λ e, notifyLocked (set_degraded false (set_pending None (set_policy (Some p) e))))
       end.
Definition Apply (x : outside) (orders : list Key * list Key) (cfg : Config) (supplied : Secrets) : M unit :=
  a ← PrepareApply x orders cfg supplied;
  a ← Apply_staged x a;
  Commit_staged a.

(** *** Shields *)

Record WireGuardShieldsUpdate : Type := MkShields {
  u_old : option Policy; u_target : option Policy; u_enabled : bool; u_applied : bool; u_noop : bool }.
Definition shields_applied (b : bool) (u : WireGuardShieldsUpdate) : WireGuardShieldsUpdate :=
  MkShields (u_old u) (u_target u) (u_enabled u) b (u_noop u).
Definition PrepareShieldsUp (enabled : bool) : M WireGuardShieldsUpdate :=
  e ← gets id;
  _ ← fail_if (not_running e) ENotStarted;
  if eqb (e_shieldsUp e) enabled then mret (MkShields (e_policy e) None enabled false true)
  else
    policy ← compile (e_config e) (e_exitIP e) enabled (e_policy e) EFilterCompile;
    mret (MkShields (e_policy e) (Some policy) enabled false false).
Definition install (p : option Policy) : M unit :=
  match p with None => fail ENilPolicy | Some p => modify (set_policy (Some p)) end.
Definition ApplyBeforeSave (u : WireGuardShieldsUpdate) : M WireGuardShieldsUpdate :=
  if u_noop u || negb (u_enabled u) then mret u
  else
    e ← gets id;
    _ ← fail_if (negb (same_policy (e_policy e) (u_old u))) EStagedShields;
    _ ← install (u_target u);
    mret (shields_applied true u).
Definition CommitShields (u : WireGuardShieldsUpdate) : M unit :=
  e ← gets id;
  if u_noop u then mret tt
  else
    _ ← (if u_enabled u then fail_if (negb (u_applied u) || negb (same_policy (e_policy e) (u_target u))) EShieldsNotInstalled
         else
           _ ← fail_if (negb (same_policy (e_policy e) (u_old u))) EStagedShields;
           install (u_target u));
    modify (λ e, notifyLocked (set_shieldsUp (u_enabled u) e)).
Definition Rollback (u : WireGuardShieldsUpdate) : M WireGuardShieldsUpdate :=
  if u_noop u || negb (u_applied u) then mret u
  else
    e ← gets id;
    _ ← fail_if (negb (same_policy (e_policy e) (u_target u))) EShieldsRollback;
    _ ← install (u_old u);
    mret (shields_applied false u).

(** *** The exit node

    The lock is released while the policies are compiled. *)

Record staged_exit : Type := MkStagedExit {
  x_ip : Addr; x_oldExit : Addr; x_oldPolicy : option Policy; x_transition : Policy; x_final : Policy }.
Definition SetExitNodeIP_stage (x : outside) (ip : Addr) : M (option staged_exit) :=
  _ ← fail_if (x_done x) EContext;
  e ← gets id;
  _ ← fail_if (not_running e) ENotStarted;
  _ ← fail_if (addr.IsValid ip && negb (addr.IsValid (validExitSelection (e_config e) ip))) EIneligible;
  if bool_decide (ip = e_exitIP e) then mret None
  else
    transition ← compile (e_config e) ip true None ERestrictive;
    final ← compile (e_config e) ip (e_shieldsUp e) (Some transition) EFilterCompile;
    mret (Some (MkStagedExit ip (e_exitIP e) (e_policy e) transition final)).
Definition SetExitNodeIP_install (x : outside) (orders : list Key * list Key) (t : staged_exit) : M unit :=
  e ← gets id;
  _ ← fail_if (not_running e || negb (same_policy (e_policy e) (x_oldPolicy t)) || negb (bool_decide (e_exitIP e = x_oldExit t))) EStagedExit;
  _ ← modify (set_policy (Some (x_transition t)));
  _ ← modify (IpcSet (x_fault x)
        (diffWGConfig orders.1 orders.2 (e_runtime e) (e_secrets e) (x_oldExit t) (e_runtime e) (e_secrets e) (x_ip t)));
  if failed (x_fault x) then
    _ ← modify (IpcSet (x_fault2 x) (fullWGConfig LinuxBypassMarkNum (e_runtime e) (e_secrets e) (x_oldExit t) (e_bypassMark e)));
    if failed (x_fault2 x) then fail ESetExitRestore
    else _ ← modify (set_policy (x_oldPolicy t)); fail ESetExit
  else
    _ ← modify (λ e, set_desired (e_config e) (e_runtime e) (e_secrets e) (x_ip t) e);
    _ ← modify (set_policy (Some (x_final t)));
    modify notifyLocked.
Definition SetExitNodeIP (x : outside) (orders : list Key * list Key) (ip : Addr) : M unit :=
  t ← SetExitNodeIP_stage x ip;
  match t with Some t => SetExitNodeIP_install x orders t | None => mret tt end.

(** *** Status

    [Public] is the public key of a private one, [None] when the curve refuses
    it; [uapi] is what the device answers, [None] an error. *)
Definition online_window : Z := 3 * 60 * Second.
Definition peer_status_of (e : Engine) (runtime : wgDeviceRuntime) (now : Z) (peer : Peer) : PeerStatus :=
  let peerRuntime := default no_runtime (dr_peers runtime !! UAPIHex (PublicKey peer)) in
  let handshake := pr_lastHandshake peerRuntime in
  MkPeerStatus (peer_Name peer) (wgDNSName (peer_Name peer) (c_DNSSuffix (e_config e))) (key_String (PublicKey peer)) (Endpoint peer)
    (peer_Addresses peer) (negb (handshake =? 0) && (now - handshake <=? online_window)) handshake
    (pr_rxBytes peerRuntime) (pr_txBytes peerRuntime) (peerHasAddress peer (e_exitIP e)) (ExitNode peer) None.
Definition peer_routes_of (peer : Peer) : list RouteStatus :=
  (λ p, MkRouteStatus (prefix.Masked p) (peer_Name peer)) <$>
    List.filter (λ p, prefix.IsValid p && negb (p_bits p =? 0)) (peer_Routes peer).
Definition exit_id (e : Engine) : string :=
  foldl (λ id peer, if peerHasAddress peer (e_exitIP e) then peer_Name peer else id) "" (c_Peers (e_config e)).
Definition route_status_less (a b : RouteStatus) : bool :=
  if bool_decide (rs_Prefix a = rs_Prefix b) then str_lt (rs_PrimaryRouter a) (rs_PrimaryRouter b)
  else str_lt (prefix_string (rs_Prefix a)) (prefix_string (rs_Prefix b)).
Definition EngineStatus (Public : Key → option Key) (done : bool) (uapi : option string) (now : Z) (e : Engine) : result engine_error Status :=
  if done then Err EContext
  else
    let st state public port peers count routes exit :=
      MkStatus (e_profileID e) (e_alias e) "wireguard" (c_DNSSuffix (e_config e)) state "" (c_Name (e_config e)) ""
        (c_Addresses (e_config e)) peers [] count (e_shieldsUp e) routes [] [] true exit public port in
    if negb (e_started e) || is_nil (e_dev e) then Ok (st "" "" 0 [] 0 [] "")
    else match uapi with
    | None => Err EReadStatus
    | Some uapi =>
      let runtime := parseWGDeviceStatus uapi in
      let peers := peer_status_of e runtime now <$> c_Peers (e_config e) in
      Ok (st "Running" (match s_PrivateKey (e_secrets e) with
                        | Some key => match Public key with Some k => key_String k | None => "" end
                        | None => ""                      (* the engine is not started without a key *)
                        end) (dr_listenPort runtime)
            (go_sort (less_key ps_NodeID) peers) (Z.of_nat (length peers))
            (go_sort route_status_less (c_Peers (e_config e) ≫= peer_routes_of)) (exit_id e))
    end.
End engine.

(** ** Policies depend on the identity of a configuration *)

Section identity.
Context {Builder Sets : Type} `{IPSets Builder Sets}.

Definition alike (a b : Peer) : Prop :=
  peer_Name a = peer_Name b ∧ ExitNode a = ExitNode b ∧ peer_Addresses a = peer_Addresses b ∧ peer_Routes a = peer_Routes b.
Lemma all2_Forall2 {A} (f : A → A → bool) l k : all2 f l k = true → Forall2 (λ a b, f a b = true) l k.
Proof using.
  revert k. induction l as [|a l IH]; intros [|b k]; cbn; try done; intros Hl.
  apply andb_true_iff in Hl as [Hf Hl]. constructor; auto.
Qed.
Lemma foldl_Forall2 {A C} (R : A → A → Prop) (f g : C → A → C) l k c :
  Forall2 R l k → (∀ c a b, R a b → f c a = g c b) → foldl f c l = foldl g c k.
Proof using. intros Hl Hf. revert c. induction Hl as [|a b l k Hab _ IH]; intros c; cbn; [done|]. by rewrite (Hf c a b Hab). Qed.
Lemma alike_selected c c' ip : Forall2 alike (c_Peers c) (c_Peers c') → selected_peer c ip = selected_peer c' ip.
Proof using. intros Hl. eapply foldl_Forall2; [exact Hl|]. by intros s a b (-> & -> & -> & _). Qed.
Lemma alike_declared c c' ip : c_Addresses c = c_Addresses c' → Forall2 alike (c_Peers c) (c_Peers c') →
  declared_owners c ip = declared_owners c' ip.
Proof using.
  intros Ha Hl. unfold declared_owners, addressFamilies. rewrite (alike_selected c c' ip Hl), Ha. f_equal.
  induction Hl as [|a b l k Hab _ IH]; [done|]. cbn. rewrite IH. f_equal.
  unfold peer_declared. by destruct Hab as (-> & _ & -> & ->).
Qed.
Lemma Compile_alike c c' ip restrictive : c_Addresses c = c_Addresses c' → Forall2 alike (c_Peers c) (c_Peers c') →
  Grants (c_PacketFilter c) = Grants (c_PacketFilter c') →
  Compile (B:=Builder) (S:=Sets) c ip restrictive = Compile c' ip restrictive.
Proof using.
  intros Ha Hl Hg. unfold Compile, compileMatches, selfSet, buildOwnership. rewrite Ha, Hg, (alike_declared c c' ip Ha Hl).
  erewrite (foldl_Forall2 alike); [reflexivity|exact Hl|]. intros st a b (Hn & _). unfold add_owner. by rewrite Hn.
Qed.
Lemma sameWGFilterIdentity_alike c s ip c' s' ip' : sameWGFilterIdentity c s ip c' s' ip' = true →
  c_Addresses c = c_Addresses c' ∧ ip = ip' ∧ Forall2 alike (c_Peers c) (c_Peers c').
Proof using.
  unfold sameWGFilterIdentity. rewrite !andb_true_iff. intros [[[Ha%bool_decide_eq_true Hi%bool_decide_eq_true] _] Hp].
  split_and!; [done|done|]. apply all2_Forall2 in Hp. eapply Forall2_impl; [exact Hp|]. intros a b.
  unfold sameIdentityPeer, alike. rewrite !andb_true_iff, !bool_decide_eq_true, String.eqb_eq.
  intros (((((-> & _) & He) & ->) & ->) & _). by apply eqb_prop in He.
Qed.
Lemma sameWGPacketFilter_eq a b : sameWGPacketFilter a b = true → Grants a = Grants b.
Proof using.
  unfold sameWGPacketFilter. intros Hf%all2_Forall2. apply list_eq_Forall2. eapply Forall2_impl; [exact Hf|].
  intros [s1 d1 i1] [s2 d2 i2]. unfold sameGrant. rewrite !andb_true_iff, !bool_decide_eq_true. cbn. by intros [[-> ->] ->].
Qed.
End identity.
