(* ===== verification/WireGuardEngineFacts.v ===== *)
(** * What the WireGuard engine guarantees

    Whatever the order of its callers' steps: packets are judged by the policy the
    engine believes in, nothing is running once it is closed, and an engine that
    failed to finish an update, or has not been told to open, lets nothing in.
    And for one caller after another: every operation, its faults included, takes
    a settled engine, one whose device and policy are those of its configuration
    and exit, to a settled one or to a restricted one. *)

From S2P Require Import Prelude GoStrings Netip WireGuardKey PacketFilterCfg WireGuardCfg IPSet WireGuardFilter WireGuardUAPI.
From S2P Require Import Effects Types WireGuardEngine.
Local Open Scope Z_scope.

Create HintDb engine.

Section facts.
Context {Builder Sets : Type} `{IPSets Builder Sets}.
Context (LinuxBypassMarkNum : Z) (linux : bool).
Local Notation Engine := (Engine (Sets:=Sets)).
Local Notation Policy := (Policy (Sets:=Sets)).
Local Notation Apply_ := (WireGuardApply (Sets:=Sets)).
Local Notation Shields := (WireGuardShieldsUpdate (Sets:=Sets)).
Local Notation Exit := (staged_exit (Sets:=Sets)).
Local Notation Start := (Start (Builder:=Builder) LinuxBypassMarkNum linux).
Local Notation PrepareApply := (PrepareApply (Builder:=Builder) (Sets:=Sets)).
Local Notation PrepareShieldsUp := (PrepareShieldsUp (Builder:=Builder) (Sets:=Sets)).
Local Notation SetExitNodeIP_stage := (SetExitNodeIP_stage (Builder:=Builder) (Sets:=Sets)).
Local Notation SetExitNodeIP_install := (SetExitNodeIP_install (Sets:=Sets) LinuxBypassMarkNum).
Local Notation compile := (compile (Builder:=Builder) (Sets:=Sets)).

(** ** The steps of concurrent callers *)

(** The engine, and what callers have prepared and not yet finished with. *)
Record system : Type := MkSystem {
  sy_engine : Engine; sy_applies : list Apply_; sy_shields : list Shields; sy_exits : list Exit }.
Definition kept {A} (r : result engine_error A) (l : list A) : list A := match r with Ok a => l ++ [a] | Err _ => l end.
Definition updated {A} (i : nat) (r : result engine_error A) (l : list A) : list A := match r with Ok a => <[i := a]> l | Err _ => l end.

(** Steps of the first kind start, update and stop the engine; those of the
    second kind are about shields and the exit. *)
Inductive step : bool → system → system → Prop :=
  | step_start x s : step false s (MkSystem (Start x (sy_engine s)).1 (sy_applies s) (sy_shields s) (sy_exits s))
  | step_commit_start s : step false s (MkSystem (CommitStartPolicy (sy_engine s)).1 (sy_applies s) (sy_shields s) (sy_exits s))
  | step_close s : step false s (MkSystem (Close (sy_engine s)).1 (sy_applies s) (sy_shields s) (sy_exits s))
  | step_prepare x orders cfg supplied s e r : PrepareApply x orders cfg supplied (sy_engine s) = (e, r) →
      step false s (MkSystem e (kept r (sy_applies s)) (sy_shields s) (sy_exits s))
  | step_apply x i a s e r : sy_applies s !! i = Some a → Apply_staged x a (sy_engine s) = (e, r) →
      step false s (MkSystem e (updated i r (sy_applies s)) (sy_shields s) (sy_exits s))
  | step_commit i a s : sy_applies s !! i = Some a →
      step false s (MkSystem (Commit_staged a (sy_engine s)).1 (sy_applies s) (sy_shields s) (sy_exits s))
  | step_shields enabled s e r : PrepareShieldsUp enabled (sy_engine s) = (e, r) →
      step true s (MkSystem e (sy_applies s) (kept r (sy_shields s)) (sy_exits s))
  | step_before_save i u s e r : sy_shields s !! i = Some u → ApplyBeforeSave u (sy_engine s) = (e, r) →
      step true s (MkSystem e (sy_applies s) (updated i r (sy_shields s)) (sy_exits s))
  | step_commit_shields i u s : sy_shields s !! i = Some u →
      step true s (MkSystem (CommitShields u (sy_engine s)).1 (sy_applies s) (sy_shields s) (sy_exits s))
  | step_rollback i u s e r : sy_shields s !! i = Some u → Rollback u (sy_engine s) = (e, r) →
      step true s (MkSystem e (sy_applies s) (updated i r (sy_shields s)) (sy_exits s))
  | step_stage x ip s e t : SetExitNodeIP_stage x ip (sy_engine s) = (e, Ok (Some t)) →
      step true s (MkSystem e (sy_applies s) (sy_shields s) (sy_exits s ++ [t]))
  | step_stage_none x ip s e r : SetExitNodeIP_stage x ip (sy_engine s) = (e, r) → (∀ t, r ≠ Ok (Some t)) →
      step true s (MkSystem e (sy_applies s) (sy_shields s) (sy_exits s))
  | step_exit x orders i t s : sy_exits s !! i = Some t →
      step true s (MkSystem (SetExitNodeIP_install x orders t (sy_engine s)).1 (sy_applies s) (sy_shields s) (delete i (sy_exits s))).

(** ** Walking through an operation *)

Lemma wp_compile cfg exit restrictive share err (Q : result engine_error Policy → Engine → Prop) e :
  (∀ matches local, Compile cfg exit restrictive = Ok (matches, local) →
     Q (Ok (MkPolicy (e_next e) (match share with Some p => pol_flows p | None => e_next e end) matches local)) (bump e)) →
  (∀ c, Compile (B:=Builder) (S:=Sets) cfg exit restrictive = Err c → Q (Err (err c)) e) → wp (compile cfg exit restrictive share err) Q e.
Proof using.
  intros Hok Herr. unfold wp, WireGuardEngine.compile. destruct (Compile cfg exit restrictive) as [[ms local]|c] eqn:Ec; [by apply Hok|by apply Herr].
Qed.
Lemma restrictive_matches cfg exit ms local : Compile (B:=Builder) (S:=Sets) cfg exit true = Ok (ms, local) → ms = [].
Proof using.
  unfold Compile. destruct (set_or (buildOwnership cfg exit)); [|done]. destruct (set_or (selfSet cfg)); [|done]. cbn. by intros [= <- _].
Qed.

Ltac walk_step :=
  match goal with
  | |- wp (_ ≫= _) _ _ => apply wp_bind; cbv beta
  | |- wp (gets _) _ _ => apply wp_gets; cbv beta iota
  | |- wp (modify _) _ _ => apply wp_modify; cbv beta iota
  | |- wp (mret _) _ _ => apply wp_ret; cbv beta iota
  | |- wp (fail _) _ _ => apply wp_fail; cbv beta iota
  | |- wp (fail_if ?b _) _ _ => apply wp_fail_if; intros ?; cbv beta iota
  | |- wp (lift ?r) _ _ => apply wp_lift; destruct r eqn:?; cbv beta iota
  | |- wp (WireGuardEngine.compile _ _ _ _ _) _ _ => apply wp_compile; [intros ?ms ?local ?Hcompile|intros ?c ?Hcompile]; cbv beta iota zeta
  | |- wp (install ?p) _ _ => unfold install
  | |- wp (if ?b then _ else _) _ _ => destruct b eqn:?
  | |- wp (match ?o with _ => _ end) _ _ => destruct o eqn:?
  | |- wp (let _ := _ in _) _ _ => cbv zeta
  end.
Ltac walk := repeat walk_step.

(** ** The engine's own invariant *)

Record engine_ok (e : Engine) : Prop := {
  ok_installed : e_filteredTun e = e_policy e;
  ok_running : e_started e = true → is_Some (e_policy e) ∧ is_Some (e_dev e) ∧ e_setConfig e = true ∧ e_closed e = false;
  ok_stopped : e_started e = false → e_policy e = None ∧ e_dev e = None ∧ e_pending e = None ∧ e_applyDegraded e = false;
  ok_pending : is_Some (e_pending e) → e_applyDegraded e = true }.

Lemma not_running_started (e : Engine) : not_running e = false → e_started e = true.
Proof using. unfold not_running. rewrite !orb_false_iff, negb_false_iff. tauto. Qed.
Lemma running_not (e : Engine) : engine_ok e → e_started e = true → not_running e = false.
Proof using.
  intros Hok Hs. destruct (ok_running e Hok Hs) as ([p Hp] & [d Hd] & _). unfold not_running. by rewrite (ok_installed e Hok), Hs, Hp, Hd.
Qed.
Lemma bump_ok e : engine_ok e → engine_ok (bump e).
Proof using. by intros []. Qed.
Lemma notify_ok e : engine_ok e → engine_ok (notifyLocked e).
Proof using. by intros []. Qed.
Lemma set_policy_ok p e : e_started e = true → engine_ok e → engine_ok (set_policy (Some p) e).
Proof using. intros Hs []. split; cbn; [done| |congruence|done]. intros _. split; [by eexists|]. by destruct (ok_running0 Hs). Qed.
Lemma set_degraded_ok e : e_started e = true → engine_ok e → engine_ok (set_degraded true e).
Proof using. intros Hs []. split; cbn; auto; congruence. Qed.
Lemma uncommitted_ok e : e_started e = true → engine_ok e → engine_ok (set_degraded false (set_pending None e)).
Proof using. intros Hs []. split; cbn; auto; [congruence|]. by intros []. Qed.
Lemma IpcSet_ok fault ls e : engine_ok e → engine_ok (IpcSet fault ls e).
Proof using.
  intros []. split; cbn; [done| | |done].
  - intros Hs. destruct (ok_running0 Hs) as (? & [d ->] & ?). naive_solver eauto.
  - intros Hs. destruct (ok_stopped0 Hs) as (? & -> & ?). tauto.
Qed.
Lemma set_desired_ok c r s x e : engine_ok e → engine_ok (set_desired c r s x e).
Proof using. by intros []. Qed.
Lemma set_shieldsUp_ok b e : engine_ok e → engine_ok (set_shieldsUp b e).
Proof using. by intros []. Qed.
Lemma stopped_ok e : engine_ok (stopped e).
Proof using. split; cbn; done. Qed.
Lemma running_ok policy pending mark d runtime secrets e : e_closed e = false → (is_Some pending → e_startRestricted e || e_applyDegraded e = true) →
  engine_ok (running (Some policy) pending mark d runtime secrets e).
Proof using. intros Hc Hp. split; cbn; try done. Qed.
Lemma same_policy_started e p : engine_ok e → same_policy (e_policy e) (Some p) = true → e_started e = true.
Proof using.
  intros Hok Hs. destruct (e_started e) eqn:E; [done|]. destruct (ok_stopped e Hok E) as (Hn & _). by rewrite Hn in Hs.
Qed.

#[local] Hint Resolve bump_ok notify_ok set_policy_ok set_degraded_ok uncommitted_ok IpcSet_ok set_desired_ok set_shieldsUp_ok stopped_ok
  running_ok : engine.

(** Every operation keeps it, error or not. *)
Definition keeps {A} (m : stm Engine engine_error A) : Prop := ∀ e, engine_ok e → engine_ok (m e).1.
Lemma keeps_wp {A} (m : stm Engine engine_error A) : (∀ e, engine_ok e → wp m (λ _ e', engine_ok e') e) → keeps m.
Proof using. done. Qed.
Lemma Start_keeps x : keeps (Start x).
Proof using.
  apply keeps_wp. intros e Hok. unfold WireGuardEngine.Start. walk; eauto 6 with engine.
  apply notify_ok. unfold id in *. cbn [bump e_startRestricted e_closed e_started e_pending] in *.
  destruct (e_startRestricted e) eqn:Hr; apply running_ok; cbn; rewrite ?Hr; try done. apply Hok.
Qed.
Lemma CommitStartPolicy_keeps : keeps CommitStartPolicy.
Proof using.
  apply keeps_wp. intros e Hok. unfold CommitStartPolicy. walk; eauto. unfold id in *.
  match goal with Hb : _ || _ || _ = false |- _ => rewrite !orb_false_iff, negb_false_iff in Hb; destruct Hb as [[Hs _] _] end.
  by apply notify_ok, uncommitted_ok, set_policy_ok.
Qed.
Lemma Close_keeps : keeps Close.
Proof using.
  intros e Hok. cbn. destruct (e_closed e); [done|]. apply notify_ok, stopped_ok.
Qed.
Lemma PrepareApply_keeps x orders cfg supplied : keeps (PrepareApply x orders cfg supplied).
Proof using. apply keeps_wp. intros e Hok. unfold WireGuardEngine.PrepareApply. walk; eauto 6 with engine. Qed.
Lemma PrepareShieldsUp_keeps enabled : keeps (PrepareShieldsUp enabled).
Proof using. apply keeps_wp. intros e Hok. unfold WireGuardEngine.PrepareShieldsUp. walk; eauto 6 with engine. Qed.
Lemma SetExitNodeIP_stage_keeps x ip : keeps (SetExitNodeIP_stage x ip).
Proof using. apply keeps_wp. intros e Hok. unfold WireGuardEngine.SetExitNodeIP_stage. walk; eauto 6 with engine. Qed.
Lemma Apply_staged_keeps x (a : Apply_) : keeps (Apply_staged x a).
Proof using.
  apply keeps_wp. intros e Hok. unfold Apply_staged. walk; eauto. all: unfold id in *.
  all: match goal with Hb : not_running _ || _ || _ = false |- _ =>
    rewrite !orb_false_iff in Hb; destruct Hb as [[Hs%not_running_started _] _] end.
  all: eauto 8 with engine.
Qed.

(** What is staged is complete, and its transition is restrictive. *)
Definition apply_ok (a : Apply_) : Prop := a_filterTransition a = true →
  ∃ t f, a_transition a = Some t ∧ pol_matches t = [] ∧ a_final a = Some f.
Definition shields_ok (u : Shields) : Prop := u_noop u = false → is_Some (u_old u) ∧ is_Some (u_target u).

Lemma Commit_staged_keeps (a : Apply_) : apply_ok a → keeps (Commit_staged a).
Proof using.
  intros Ha. apply keeps_wp. intros e Hok. unfold Commit_staged. walk; eauto. unfold id in *.
  destruct Ha as (t & f & Ht & _); [by apply negb_false_iff|]. rewrite Ht in *.
  assert (e_started e = true) by (eapply same_policy_started; [done|by apply negb_false_iff]).
  by apply notify_ok, uncommitted_ok, set_policy_ok.
Qed.
Lemma ApplyBeforeSave_keeps (u : Shields) : shields_ok u → keeps (ApplyBeforeSave u).
Proof using.
  intros Hu. apply keeps_wp. intros e Hok. unfold ApplyBeforeSave. walk; eauto. unfold id in *.
  destruct Hu as [[o Ho] _]; [by apply orb_false_iff in Heqb as []|]. rewrite Ho in *.
  apply set_policy_ok; [|done]. eapply same_policy_started; [done|by apply negb_false_iff].
Qed.
Lemma CommitShields_keeps (u : Shields) : shields_ok u → keeps (CommitShields u).
Proof using.
  intros Hu. apply keeps_wp. intros e Hok. unfold CommitShields. walk; eauto with engine. unfold id in *.
  destruct (Hu Heqb) as [[o Ho] _]. rewrite Ho in *.
  apply notify_ok, set_shieldsUp_ok, set_policy_ok; [|done]. eapply same_policy_started; [done|by apply negb_false_iff].
Qed.
Lemma Rollback_keeps (u : Shields) : shields_ok u → keeps (Rollback u).
Proof using.
  intros Hu. apply keeps_wp. intros e Hok. unfold Rollback. walk; eauto with engine. unfold id in *.
  destruct Hu as [_ [t Ht]]; [by apply orb_false_iff in Heqb as []|]. rewrite Ht in *.
  apply set_policy_ok; [|done]. eapply same_policy_started; [done|by apply negb_false_iff].
Qed.
Lemma SetExitNodeIP_install_keeps x orders (t : Exit) : keeps (SetExitNodeIP_install x orders t).
Proof using.
  apply keeps_wp. intros e Hok. unfold WireGuardEngine.SetExitNodeIP_install. walk; unfold id in *; eauto.
  all: match goal with Hb : not_running _ || _ || _ = false |- _ =>
    rewrite !orb_false_iff in Hb; destruct Hb as [[Hs%not_running_started Hsame%negb_false_iff] _] end.
  all: eauto 8 with engine.
  assert (is_Some (x_oldPolicy t)) as [o Ho].
  { destruct (ok_running e Hok Hs) as ([p Hp] & _). rewrite Hp in Hsame. by destruct (x_oldPolicy t). }
  rewrite Ho. eauto 8 with engine.
Qed.

Lemma wp_staged_ok x orders cfg supplied (e : Engine) : wp (PrepareApply x orders cfg supplied) (λ r _, ∀ a, r = Ok a → apply_ok a) e.
Proof using.
  unfold WireGuardEngine.PrepareApply. walk; intros a'; try (intros [=]; subst); try done.
  intros _. cbn. do 2 eexists. split_and!; [done| |done]. cbn. by apply restrictive_matches in Hcompile.
Qed.
Lemma wp_shields_ok enabled (e : Engine) : engine_ok e → wp (PrepareShieldsUp enabled) (λ r _, ∀ u, r = Ok u → shields_ok u) e.
Proof using.
  intros Hok. unfold WireGuardEngine.PrepareShieldsUp. walk; intros u; try (intros [=]; subst); try done.
  intros _. cbn. unfold id in *. split; [|done]. by destruct (ok_running e Hok) as (? & _); [by apply not_running_started|].
Qed.
Lemma wp_Apply_ok x (a : Apply_) (e : Engine) : apply_ok a → wp (Apply_staged x a) (λ r _, ∀ a', r = Ok a' → apply_ok a') e.
Proof using. intros Ha. unfold Apply_staged. walk; intros a'; try (intros [=]; subst); done. Qed.
Lemma wp_Before_ok (u : Shields) (e : Engine) : shields_ok u → wp (ApplyBeforeSave u) (λ r _, ∀ u', r = Ok u' → shields_ok u') e.
Proof using. intros Hu. unfold ApplyBeforeSave. walk; intros u'; try (intros [=]; subst); done. Qed.
Lemma wp_Rollback_ok (u : Shields) (e : Engine) : shields_ok u → wp (Rollback u) (λ r _, ∀ u', r = Ok u' → shields_ok u') e.
Proof using. intros Hu. unfold Rollback. walk; intros u'; try (intros [=]; subst); done. Qed.

(** ** Whatever the order *)

Record system_ok (s : system) : Prop := {
  so_engine : engine_ok (sy_engine s); so_applies : Forall apply_ok (sy_applies s); so_shields : Forall shields_ok (sy_shields s) }.
Lemma kept_Forall {A} (P : A → Prop) r l : Forall P l → (∀ a, r = Ok a → P a) → Forall P (kept r l).
Proof using. intros Hl Hr. destruct r as [a|]; cbn; [|done]. apply Forall_app. split; [done|]. constructor; auto. Qed.
Lemma updated_Forall {A} (P : A → Prop) i r l : Forall P l → (∀ a, r = Ok a → P a) → Forall P (updated i r l).
Proof using. intros Hl Hr. destruct r as [a|]; cbn; [|done]. apply Forall_insert; auto. Qed.
Lemma keeps_run {A} (m : stm Engine engine_error A) e e' r : keeps m → m e = (e', r) → engine_ok e → engine_ok e'.
Proof using. intros Hm He Hok. specialize (Hm e Hok). by rewrite He in Hm. Qed.

Lemma yields {A} (P : A → Prop) (m : stm Engine engine_error A) e e' r :
  m e = (e', r) → wp m (λ r _, ∀ a, r = Ok a → P a) e → ∀ a, r = Ok a → P a.
Proof using. intros Hm Hw. exact (wp_run _ _ _ _ _ Hw Hm). Qed.

Lemma step_ok k s s' : step k s s' → system_ok s → system_ok s'.
Proof using.
  intros Hs [He Ha Hu]. destruct Hs; split; cbn; try done.
  - by apply Start_keeps.
  - by apply CommitStartPolicy_keeps.
  - by apply Close_keeps.
  - eapply keeps_run; [apply PrepareApply_keeps|done|done].
  - apply kept_Forall; [done|]. eapply yields; [done|apply wp_staged_ok].
  - eapply keeps_run; [apply Apply_staged_keeps|done|done].
  - apply updated_Forall; [done|]. eapply yields; [done|]. apply wp_Apply_ok. by eapply Forall_lookup_1.
  - apply Commit_staged_keeps; [by eapply Forall_lookup_1|done].
  - eapply keeps_run; [apply PrepareShieldsUp_keeps|done|done].
  - apply kept_Forall; [done|]. eapply yields; [done|by apply wp_shields_ok].
  - eapply keeps_run; [apply ApplyBeforeSave_keeps|done|done]. by eapply Forall_lookup_1.
  - apply updated_Forall; [done|]. eapply yields; [done|]. apply wp_Before_ok. by eapply Forall_lookup_1.
  - apply CommitShields_keeps; [by eapply Forall_lookup_1|done].
  - eapply keeps_run; [apply Rollback_keeps|done|done]. by eapply Forall_lookup_1.
  - apply updated_Forall; [done|]. eapply yields; [done|]. apply wp_Rollback_ok. by eapply Forall_lookup_1.
  - eapply keeps_run; [apply SetExitNodeIP_stage_keeps|done|done].
  - eapply keeps_run; [apply SetExitNodeIP_stage_keeps|done|done].
  - by apply SetExitNodeIP_install_keeps.
Qed.

(** A closed engine stays closed. *)
Lemma closed_step k s s' : step k s s' → e_closed (sy_engine s) = true → e_closed (sy_engine s') = true.
Proof using.
  assert (∀ A (m : stm Engine engine_error A) e e' r, m e = (e', r) → wp m (λ _ e', e_closed e' = e_closed e ∨ e_closed e' = true) e →
    e_closed e = true → e_closed e' = true) as Hrun.
  { intros A m e e' r Hm Hw Hc. destruct (wp_run _ _ _ _ _ Hw Hm) as [->|?]; done. }
  intros Hs Hc. destruct Hs; cbn [sy_engine]; try (eapply Hrun; [apply surjective_pairing| |exact Hc]); try (eapply Hrun; [eassumption| |exact Hc]).
  - unfold WireGuardEngine.Start. walk; cbn; auto. unfold id. by destruct (e_startRestricted _); left.
  - unfold CommitStartPolicy. walk; cbn; auto.
  - apply wp_modify. rewrite Hc. by left.
  - unfold WireGuardEngine.PrepareApply. walk; cbn; auto.
  - unfold Apply_staged. walk; cbn; auto.
  - unfold Commit_staged. walk; cbn; auto.
  - unfold WireGuardEngine.PrepareShieldsUp. walk; cbn; auto.
  - unfold ApplyBeforeSave. walk; cbn; auto.
  - unfold CommitShields. walk; cbn; auto.
  - unfold Rollback. walk; cbn; auto.
  - unfold WireGuardEngine.SetExitNodeIP_stage. walk; cbn; auto.
  - unfold WireGuardEngine.SetExitNodeIP_stage. walk; cbn; auto.
  - unfold WireGuardEngine.SetExitNodeIP_install. walk; cbn; auto.
Qed.

(** *** Restricted until committed *)

Definition restricted (e : Engine) : Prop := e_applyDegraded e = true → ∃ p, e_policy e = Some p ∧ pol_matches p = [].
Lemma restricted_step s s' : step false s s' → system_ok s → restricted (sy_engine s) → restricted (sy_engine s').
Proof using.
  assert (∀ A (m : stm Engine engine_error A) e e' r, m e = (e', r) → wp m (λ _ e', restricted e') e → restricted e') as Hrun.
  { intros A m e e' r Hm Hw. exact (wp_run _ _ _ _ _ Hw Hm). }
  intros Hs [Hok Ha _] Hr. remember false as k. destruct Hs; try done; cbn [sy_engine]; try (eapply Hrun; [apply surjective_pairing|]); try (eapply Hrun; [eassumption|]).
  - unfold WireGuardEngine.Start. walk; try exact Hr. unfold id in *. unfold restricted. cbn [bump notifyLocked e_startRestricted] in *.
    destruct (e_startRestricted _) eqn:Hsr; cbn; rewrite ?Hsr; cbn.
    + intros _. eexists. split; [done|]. cbn. by apply restrictive_matches in Hcompile.
    + intros Hd. destruct (ok_stopped _ Hok) as (_ & _ & _ & Hn); [done|]. congruence.
  - unfold CommitStartPolicy. walk; try exact Hr. done.
  - apply wp_modify. destruct (e_closed _); [exact Hr|done].
  - unfold WireGuardEngine.PrepareApply. walk; exact Hr.
  - assert (apply_ok a) as Hao by (by eapply Forall_lookup_1). unfold Apply_staged. walk; try exact Hr.
    all: destruct (Hao ltac:(done)) as (t & f & Ht & Hm & _); rewrite Ht in *; unfold restricted; cbn; intros _; eexists; split; [reflexivity|congruence].
  - unfold Commit_staged. walk; try exact Hr. done.
Qed.

(** ** One caller after another *)

(** The device runs the configuration the engine believes in. *)
Definition device_follows (e : Engine) : Prop := ∃ d key,
  e_dev e = Some d ∧ in_force (e_runtime e) (e_secrets e) (e_exitIP e) d ∧
  s_PrivateKey (e_secrets e) = Some key ∧ ds_key d = Some key ∧
  (e_bypassMark e = true → ds_fwmark d = LinuxBypassMarkNum).
(** The policy is the one of the engine's configuration, exit and shields. *)
Definition policy_follows (e : Engine) : Prop := ∃ p, e_policy e = Some p ∧
  Compile (B:=Builder) (e_config e) (e_exitIP e) (e_shieldsUp e) = Ok (pol_matches p, pol_local p).
Record running_ok_ (e : Engine) : Prop := {
  ro_ok : engine_ok e; ro_started : e_started e = true; ro_routable : routable (e_runtime e); ro_device : device_follows e }.
Record settled (e : Engine) : Prop := {
  se_running : running_ok_ e; se_open : e_applyDegraded e = false; se_policy : policy_follows e }.

(** Resolution only touches endpoints. *)
Definition same_but_endpoint (p q : Peer) : Prop := q = with_endpoint p (Endpoint q).
Lemma resolve_endpoint_same lookup after p q : resolve_endpoint lookup after p = Ok q → same_but_endpoint p q.
Proof using.
  unfold resolve_endpoint, same_but_endpoint. intros Hr.
  repeat match type of Hr with
  | (match ?t with _ => _ end) = _ => destruct t
  | (let _ := _ in _) = _ => cbv zeta in Hr
  end; try done; injection Hr as <-; by destruct p.
Qed.
Lemma imapM_Forall2 {A C} (f : A → result engine_error C) l i ys :
  imapM_from i (λ _, f) l = Ok ys → Forall2 (λ a b, f a = Ok b) l ys.
Proof using.
  revert i ys. induction l as [|a l IH]; intros i ys; cbn; [intros [= <-]; constructor|].
  intros (b & Hb & (bs & Hbs & [= <-])%bind_ok_inv)%bind_ok_inv. constructor; [done|by eapply IH].
Qed.
Lemma resolve_same lookup after cfg r : resolveWGConfigEndpoints lookup after cfg = Ok r →
  c_Addresses r = c_Addresses cfg ∧ c_ListenPort r = c_ListenPort cfg ∧ Forall2 same_but_endpoint (c_Peers cfg) (c_Peers r).
Proof using.
  unfold resolveWGConfigEndpoints. intros (ps & Hps & [= <-])%bind_ok_inv. split_and!; [done|done|]. cbn.
  eapply Forall2_impl; [by eapply imapM_Forall2|]. intros p q. apply resolve_endpoint_same.
Qed.
Lemma same_keys ps qs : Forall2 same_but_endpoint ps qs → PublicKey <$> ps = PublicKey <$> qs.
Proof using. induction 1 as [|p q ps qs Hpq _ IH]; [done|]. cbn. rewrite IH, Hpq. done. Qed.
Lemma nodup_keys_inj (ps : list Peer) p q : NoDup (PublicKey <$> ps) → p ∈ ps → q ∈ ps → PublicKey p = PublicKey q → p = q.
Proof using.
  intros Hnd (i & Hi)%list_elem_of_lookup (j & Hj)%list_elem_of_lookup He.
  assert (i = j) as <-.
  { eapply (NoDup_lookup _ i j (PublicKey p) Hnd); rewrite list_lookup_fmap; [by rewrite Hi|]. by rewrite Hj, He. }
  congruence.
Qed.
Lemma resolve_routable lookup after cfg r : resolveWGConfigEndpoints lookup after cfg = Ok r → routable cfg → routable r.
Proof using.
  intros (_ & _ & Hps)%resolve_same [Hk Ha Hp].
  assert (∀ q, q ∈ c_Peers r → ∃ p, p ∈ c_Peers cfg ∧ q = with_endpoint p (Endpoint q)) as Hback.
  { intros q (i & Hq)%list_elem_of_lookup. destruct (Forall2_lookup_r _ _ _ _ _ Hps Hq) as (p & Hi & Hpq).
    exists p. split; [by eapply list_elem_of_lookup_2|done]. }
  split.
  - by rewrite <- (same_keys _ _ Hps).
  - intros p q x Hp0 Hq0 Hx Hy. destruct (Hback p Hp0) as (p' & Hp' & Ep), (Hback q Hq0) as (q' & Hq' & Eq).
    assert (p' = q') as <-.
    { apply (Ha p' q' x Hp' Hq'); [by rewrite Ep in Hx|by rewrite Eq in Hy]. }
    rewrite (same_keys _ _ Hps) in Hk. apply (nodup_keys_inj (c_Peers r)); [done..|]. by rewrite Ep, Eq.
  - intros q x Hq Hx. destruct (Hback q Hq) as (p & Hp' & Ep). apply (Hp p x Hp'). by rewrite Ep in Hx.
Qed.

Lemma effective_key old cfg supplied initial s : effectiveWGSecrets old cfg supplied initial = Ok s → is_Some (s_PrivateKey s).
Proof using.
  unfold effectiveWGSecrets. destruct (match s_PrivateKey supplied with Some _ => _ | None => _ end) as [key|]; [|done].
  intros (keys & _ & [= <-])%bind_ok_inv. by eexists.
Qed.

(** The engine but for the identities it has handed out. *)
Inductive only_bumped (e : Engine) : Engine → Prop :=
  | bumped_0 : only_bumped e e
  | bumped_1 : only_bumped e (bump e)
  | bumped_2 : only_bumped e (bump (bump e)).
#[local] Hint Constructors only_bumped : engine.

Definition identity_kept (e : Engine) (a : Apply_) : bool :=
  sameWGFilterIdentity (e_config e) (e_secrets e) (e_exitIP e) (a_newConfig a) (a_newSecrets a) (a_newExit a).
Record prepared (x : outside) (orders : list Key * list Key) (cfg : Config) (supplied : Secrets) (e : Engine) (a : Apply_) : Prop := {
  pp_old : a_oldPolicy a = e_policy e;
  pp_config : a_newConfig a = cfg;
  pp_runtime : resolveWGConfigEndpoints (x_lookup x) (x_done_after x) cfg = Ok (a_newRuntime a);
  pp_secrets : effectiveWGSecrets (e_secrets e) cfg supplied false = Ok (a_newSecrets a);
  pp_exit : a_newExit a = validExitSelection cfg (e_exitIP e);
  pp_forward : a_forward a = diffWGConfig orders.1 orders.2 (e_runtime e) (e_secrets e) (e_exitIP e) (a_newRuntime a) (a_newSecrets a) (a_newExit a);
  pp_applied : a_applied a = false;
  pp_filter : if a_filterTransition a
    then ∃ t f, a_transition a = Some t ∧ a_final a = Some f ∧ pol_matches t = [] ∧
      Compile (B:=Builder) cfg (a_newExit a) (e_shieldsUp e) = Ok (pol_matches f, pol_local f) ∧ pol_flows f = pol_flows t ∧
      (if identity_kept e a then ∃ p, e_policy e = Some p ∧ pol_flows t = pol_flows p else pol_flows t = e_next e)
    else a_forward a = [] ∧ identity_kept e a = true ∧ sameWGPacketFilter (c_PacketFilter (e_config e)) (c_PacketFilter cfg) = true ∧
      e_applyDegraded e = false }.

(** The reasons for which an update is refused before anything is changed. *)
Definition refusal (x : outside) (cfg : Config) (supplied : Secrets) (e : Engine) (err : engine_error) : Prop :=
  match err with
  | EContext => x_done x = true ∨ resolveWGConfigEndpoints (x_lookup x) (x_done_after x) cfg = Err EContext
  | EPrivateKey | EPeerKey => effectiveWGSecrets (e_secrets e) cfg supplied false = Err err
  | ERestrictive c => Compile (B:=Builder) (S:=Sets) cfg (validExitSelection cfg (e_exitIP e)) true = Err c
  | EFilterCompile c => Compile (B:=Builder) (S:=Sets) cfg (validExitSelection cfg (e_exitIP e)) (e_shieldsUp e) = Err c
  | _ => False
  end.
Lemma resolve_refuses lookup after cfg err : resolveWGConfigEndpoints lookup after cfg = Err err → err = EContext.
Proof using.
  unfold resolveWGConfigEndpoints, imapM. generalize 0%nat. intros i Hr.
  destruct (imapM_from i (λ _, resolve_endpoint lookup after) (c_Peers cfg)) as [|err'] eqn:Em; [done|]. injection Hr as ->.
  revert i Em. induction (c_Peers cfg) as [|p ps IH]; intros i; cbn; [done|].
  destruct (resolve_endpoint lookup after p) as [q|err'] eqn:Ep; cbn.
  - destruct (imapM_from (S i) _ ps) eqn:Em; cbn; [done|]. intros [= ->]. by eapply IH.
  - intros [= ->]. unfold resolve_endpoint in Ep.
    repeat match type of Ep with
    | (match ?t with _ => _ end) = _ => destruct t
    | (let _ := _ in _) = _ => cbv zeta in Ep
    end; congruence.
Qed.
Lemma effective_refuses old cfg supplied initial err : effectiveWGSecrets old cfg supplied initial = Err err → err = EPrivateKey ∨ err = EPeerKey.
Proof using.
  unfold effectiveWGSecrets. destruct (match s_PrivateKey supplied with Some _ => _ | None => _ end) as [key|]; [|intros [= <-]; by left].
  intros Hf. right. destruct (foldM (effective_psk old initial) (c_Peers cfg) (PresharedKeyByPeer supplied)) as [|err'] eqn:Em; [done|].
  injection Hf as ->. revert Em. generalize (PresharedKeyByPeer supplied). induction (c_Peers cfg) as [|p ps IH]; intros m; cbn; [done|].
  destruct (effective_psk old initial m p) as [m'|err'] eqn:Ep; cbn; [apply IH|]. intros [= ->]. unfold effective_psk in Ep.
  repeat match type of Ep with (match ?t with _ => _ end) = _ => destruct t end; congruence.
Qed.

Lemma wp_PrepareApply x orders cfg supplied (e : Engine) : engine_ok e → e_started e = true →
  wp (PrepareApply x orders cfg supplied) (λ r e', only_bumped e e' ∧
    match r with Ok a => prepared x orders cfg supplied e a | Err err => refusal x cfg supplied e err end) e.
Proof using.
  intros Hok Hs. unfold WireGuardEngine.PrepareApply. walk; unfold id in *; (split; [by constructor|]); cbn -[Compile].
  - by left.
  - by rewrite running_not in H1.
  - split; cbn [a_oldPolicy a_newConfig a_newRuntime a_newSecrets a_newExit a_forward a_applied a_filterTransition]; try done.
    do 2 eexists. cbn [a_transition a_final]. split_and!; [done|done|by eapply restrictive_matches|done|done|].
    unfold identity_kept. cbn [a_newConfig a_newSecrets a_newExit]. cbn [pol_flows]. destruct (sameWGFilterIdentity _ _ _ _ _ _); [|done].
    destruct (ok_running e Hok Hs) as ([p Hp] & _). exists p. cbn. by rewrite Hp.
  - done.
  - done.
  - rewrite !orb_false_iff, !negb_false_iff in Heqb. destruct Heqb as (((Hf & Hi) & Hp) & Hd). split; cbn; try done.
    split_and!; try done. by apply bool_decide_eq_true in Hf.
  - destruct (effective_refuses _ _ _ _ _ Heqr0) as [-> | ->]; done.
  - rewrite (resolve_refuses _ _ _ _ Heqr). right. by rewrite <- (resolve_refuses _ _ _ _ Heqr).
Qed.

(** What a caller of [Apply] has to see to, and gets. *)
Record apply_input (orders : list Key * list Key) (cfg : Config) (e : Engine) : Prop := {
  ai_routable : routable cfg;
  ai_old : orders.1 ≡ₚ PublicKey <$> c_Peers (e_runtime e);
  ai_new : orders.2 ≡ₚ PublicKey <$> c_Peers cfg;
  ai_families : wgAddressFamilies (e_runtime e) = wgAddressFamilies cfg ∨
    ∀ p, p ∈ c_Peers cfg → peerHasAddress p (validExitSelection cfg (e_exitIP e)) = false }.
Definition unchanged_engine (e e' : Engine) : Prop := only_bumped e e'.
Definition applied_outcome (x : outside) (cfg : Config) (supplied : Secrets) (e : Engine) (r : result engine_error unit) (e' : Engine) : Prop :=
  match r with
  | Ok _ => settled e' ∧ e_config e' = cfg ∧ e_exitIP e' = validExitSelection cfg (e_exitIP e) ∧ e_shieldsUp e' = e_shieldsUp e ∧
      resolveWGConfigEndpoints (x_lookup x) (x_done_after x) cfg = Ok (e_runtime e') ∧
      effectiveWGSecrets (e_secrets e) cfg supplied false = Ok (e_secrets e')
  | Err EApplyDevice => failed (x_fault x) = true ∧ engine_ok e' ∧ e_applyDegraded e' = true ∧ restricted e' ∧
      e_config e' = e_config e ∧ e_secrets e' = e_secrets e ∧ e_exitIP e' = e_exitIP e
  | Err err => refusal x cfg supplied e err ∧ only_bumped e e'
  end.

Lemma diff_follows orders rt s ip rt' s' ip' d key key' : routable rt → routable rt' →
  orders.1 ≡ₚ PublicKey <$> c_Peers rt → orders.2 ≡ₚ PublicKey <$> c_Peers rt' → families_kept rt rt' ip' →
  in_force rt s ip d → s_PrivateKey s = Some key → ds_key d = Some key → s_PrivateKey s' = Some key' →
  let d' := uapi_run (diffWGConfig orders.1 orders.2 rt s ip rt' s' ip') d in
  in_force rt' s' ip' d' ∧ ds_key d' = Some key' ∧ ds_fwmark d' = ds_fwmark d.
Proof using.
  intros Hr Hr' Ho Hn Hf Hd Hk Hdk Hk'.
  destruct (diff_in_force orders.1 orders.2 rt s ip rt' s' ip' Hr Hr' Ho Hn d Hf Hd) as (Hi & Hm & Hkey). cbn zeta.
  split_and!; [done| |done]. rewrite Hkey, Hk, Hk'. case_bool_decide; congruence.
Qed.
Lemma no_lines c s ip d : in_force c s ip d → uapi_run [] d = d.
Proof using. intros Hd. pose proof (if_current _ _ _ _ Hd) as Hc. unfold uapi_run. cbn. destruct d. cbn in *. by rewrite Hc. Qed.
Lemma resolved_families lookup after cfg rt rt' ip : resolveWGConfigEndpoints lookup after cfg = Ok rt' →
  (wgAddressFamilies rt = wgAddressFamilies cfg ∨ ∀ p, p ∈ c_Peers cfg → peerHasAddress p ip = false) → families_kept rt rt' ip.
Proof using.
  intros (Ha & _ & Hps)%resolve_same [Hf|Hn]; [left|right].
  - unfold wgAddressFamilies in *. by rewrite Ha.
  - intros q (i & Hq)%list_elem_of_lookup. destruct (Forall2_lookup_r _ _ _ _ _ Hps Hq) as (p & Hi & Hpq).
    rewrite Hpq. apply (Hn p). by eapply list_elem_of_lookup_2.
Qed.

(** The device after the lines of a prepared update. *)
Lemma prepared_device x orders cfg supplied e (a : Apply_) d : running_ok_ e → apply_input orders cfg e → prepared x orders cfg supplied e a →
  e_dev e = Some d → ∃ key, let d' := uapi_run (a_forward a) d in
  in_force (a_newRuntime a) (a_newSecrets a) (a_newExit a) d' ∧ s_PrivateKey (a_newSecrets a) = Some key ∧ ds_key d' = Some key ∧
  (e_bypassMark e = true → ds_fwmark d' = LinuxBypassMarkNum).
Proof using.
  intros Hrun Hin Hp Hd. destruct (ro_device e Hrun) as (d0 & key & Hd0 & Hf & Hk & Hdk & Hm).
  assert (d0 = d) as -> by congruence. destruct (effective_key _ _ _ _ _ (pp_secrets _ _ _ _ _ _ Hp)) as [key' Hk'].
  pose proof (resolve_same _ _ _ _ (pp_runtime _ _ _ _ _ _ Hp)) as (_ & _ & Hps). apply same_keys in Hps.
  destruct (diff_follows orders (e_runtime e) (e_secrets e) (e_exitIP e) (a_newRuntime a) (a_newSecrets a) (a_newExit a) d key key')
    as (H1 & H2 & H3); try done.
  - apply Hrun.
  - eapply resolve_routable; [apply Hp|apply Hin].
  - apply Hin.
  - rewrite <- Hps. apply Hin.
  - eapply resolved_families; [apply Hp|]. rewrite (pp_exit _ _ _ _ _ _ Hp). apply Hin.
  - exists key'. cbn zeta. rewrite (pp_forward _ _ _ _ _ _ Hp). split_and!; try done. by rewrite H3.
Qed.
(** The policy that stays is the one of the new configuration as well. *)
Lemma prepared_policy x orders cfg supplied e (a : Apply_) : prepared x orders cfg supplied e a → a_filterTransition a = false →
  policy_follows e → ∃ p, e_policy e = Some p ∧ Compile (B:=Builder) cfg (a_newExit a) (e_shieldsUp e) = Ok (pol_matches p, pol_local p).
Proof using.
  intros Hp Hft (p & Hpol & Hc). exists p. split; [done|]. pose proof (pp_filter _ _ _ _ _ _ Hp) as Hpf. rewrite Hft in Hpf.
  destruct Hpf as (_ & Hid & Hg & _). unfold identity_kept in Hid. rewrite (pp_config _ _ _ _ _ _ Hp) in Hid.
  apply sameWGFilterIdentity_alike in Hid as (Ha & Hi & Hl). rewrite <- Hc, <- Hi. symmetry.
  apply Compile_alike; [done|done|by apply sameWGPacketFilter_eq].
Qed.

Lemma only_bumped_ok e e' : only_bumped e e' → engine_ok e → engine_ok e'.
Proof using. intros []; eauto with engine. Qed.
Lemma same_policy_refl (e : Engine) : engine_ok e → e_started e = true → same_policy (e_policy e) (e_policy e) = true.
Proof using. intros Hok Hs. destruct (ok_running e Hok Hs) as ([p ->] & _). cbn. apply Nat.eqb_refl. Qed.

(** [Apply] of what was prepared, on an engine that has not changed since. *)
Definition installed (a : Apply_) (e : Engine) : Engine :=
  if a_filterTransition a then set_degraded true (set_policy (a_transition a) e) else e.
Definition configured (fault : option nat) (a : Apply_) (e : Engine) : Engine :=
  if bool_decide (a_forward a = []) then e else IpcSet fault (a_forward a) e.
Definition taken (a : Apply_) (e : Engine) : Engine :=
  notifyLocked (set_desired (a_newConfig a) (a_newRuntime a) (a_newSecrets a) (a_newExit a) (configured None a (installed a e))).
Lemma wp_Apply_staged x orders cfg supplied e (a : Apply_) e1 : engine_ok e → e_started e = true →
  prepared x orders cfg supplied e a → only_bumped e e1 →
  wp (Apply_staged x a) (λ r e', match r with
    | Ok a' => a' = applied_now a ∧ e' = taken a e1
    | Err err => err = EApplyDevice ∧ failed (x_fault x) = true ∧ e' = notifyLocked (IpcSet (x_fault x) (a_forward a) (installed a e1)) ∧
        a_forward a ≠ [] end) e1.
Proof using.
  intros Hok Hs Hp Hb. assert (e_policy e1 = e_policy e ∧ e_started e1 = true) as [Hpol Hs1] by (by destruct Hb).
  pose proof (only_bumped_ok e e1 Hb Hok) as Hok1. pose proof (pp_filter _ _ _ _ _ _ Hp) as Hpf.
  destruct (ok_running e1 Hok1 Hs1) as (_ & _ & Hset & _).
  unfold Apply_staged. rewrite (pp_applied _ _ _ _ _ _ Hp). apply wp_bind, wp_gets, wp_bind, wp_fail_if; unfold id.
  { rewrite running_not, Hset, (pp_old _ _ _ _ _ _ Hp), Hpol, same_policy_refl by done. done. }
  intros _. unfold taken, configured, installed. destruct (a_filterTransition a).
  - destruct Hpf as (t & f & -> & _). apply wp_bind, wp_modify. case_bool_decide as Hfw.
    + walk. done.
    + walk; destruct (x_fault x); done.
  - destruct Hpf as (-> & _). walk; done.
Qed.
Lemma wp_Commit_staged (a : Apply_) e1 : (if a_filterTransition a then is_Some (a_transition a) ∧ is_Some (a_final a) else True) →
  wp (Commit_staged (applied_now a)) (λ r e', r = Ok tt ∧ e' = if a_filterTransition a
    then notifyLocked (set_degraded false (set_pending None (set_policy (a_final a) (taken a e1)))) else taken a e1) (taken a e1).
Proof using.
  intros Ha. unfold Commit_staged. apply wp_bind, wp_gets. unfold id. cbn [a_applied applied_now a_filterTransition negb].
  destruct (a_filterTransition a) eqn:Hft; cbn [negb]; [|by walk]. destruct Ha as [[t Ht] [f Hf]].
  assert (same_policy (e_policy (taken a e1)) (a_transition (applied_now a)) = true) as ->.
  { unfold taken, configured, installed. rewrite Hft. destruct (bool_decide _); cbn; rewrite Ht; cbn; apply Nat.eqb_refl. }
  cbn [negb]. cbn [a_final applied_now]. rewrite Hf. by apply wp_modify.
Qed.
Lemma taken_fields (a : Apply_) e1 :
  e_config (taken a e1) = a_newConfig a ∧ e_runtime (taken a e1) = a_newRuntime a ∧ e_secrets (taken a e1) = a_newSecrets a ∧
  e_exitIP (taken a e1) = a_newExit a ∧ e_shieldsUp (taken a e1) = e_shieldsUp e1 ∧ e_started (taken a e1) = e_started e1 ∧
  e_bypassMark (taken a e1) = e_bypassMark e1 ∧
  e_dev (taken a e1) = (if bool_decide (a_forward a = []) then e_dev e1 else uapi_run (a_forward a) <$> e_dev e1) ∧
  e_policy (taken a e1) = (if a_filterTransition a then a_transition a else e_policy e1) ∧
  e_applyDegraded (taken a e1) = (if a_filterTransition a then true else e_applyDegraded e1).
Proof using. unfold taken, configured, installed. by destruct (a_filterTransition a), (bool_decide _). Qed.
Lemma installed_ok (a : Apply_) e1 : engine_ok e1 → e_started e1 = true → (a_filterTransition a = true → is_Some (a_transition a)) →
  engine_ok (installed a e1).
Proof using.
  intros Hok Hs Ha. unfold installed. destruct (a_filterTransition a); [|done]. destruct Ha as [t ->]; [done|]. eauto with engine.
Qed.
Lemma taken_ok (a : Apply_) e1 : engine_ok e1 → e_started e1 = true → (a_filterTransition a = true → is_Some (a_transition a)) →
  engine_ok (taken a e1).
Proof using.
  intros Hok Hs Ha. apply notify_ok, set_desired_ok. unfold configured. destruct (bool_decide _); [|apply IpcSet_ok]; by apply installed_ok.
Qed.
Definition committed (a : Apply_) (e : Engine) : Engine :=
  if a_filterTransition a then notifyLocked (set_degraded false (set_pending None (set_policy (a_final a) e))) else e.
Lemma committed_fields (a : Apply_) e : e_config (committed a e) = e_config e ∧ e_runtime (committed a e) = e_runtime e ∧
  e_secrets (committed a e) = e_secrets e ∧ e_exitIP (committed a e) = e_exitIP e ∧ e_shieldsUp (committed a e) = e_shieldsUp e.
Proof using. unfold committed. by destruct (a_filterTransition a). Qed.
Lemma committed_settled x orders cfg supplied e (a : Apply_) e1 : running_ok_ e → apply_input orders cfg e →
  (e_applyDegraded e = false → policy_follows e) → prepared x orders cfg supplied e a → only_bumped e e1 → settled (committed a (taken a e1)).
Proof using.
  intros Hrun Hin Hpol Hp Hb. pose proof (ro_ok e Hrun) as Hok. pose proof (ro_started e Hrun) as Hs.
  assert (engine_ok e1) as Hok1 by (by eapply only_bumped_ok).
  assert (e_started e1 = true ∧ e_dev e1 = e_dev e ∧ e_bypassMark e1 = e_bypassMark e ∧ e_policy e1 = e_policy e ∧ e_shieldsUp e1 = e_shieldsUp e ∧
    e_applyDegraded e1 = e_applyDegraded e) as (Hs1 & Hd1 & Hm1 & Hp1 & Hu1 & Hg1) by (by destruct Hb).
  destruct (ro_device e Hrun) as (d & key & Hd & Hf & _ & _). rewrite Hd in Hd1.
  destruct (prepared_device x orders cfg supplied e a d Hrun Hin Hp Hd) as (key' & Hf' & Hk' & Hdk' & Hmark).
  pose proof (taken_fields a e1) as (Tc & Tr & Ts & Tx & Tu & Tst & Tm & Td & Tp & Tg). pose proof (pp_filter _ _ _ _ _ _ Hp) as Hpf.
  assert (e_dev (taken a e1) = Some (uapi_run (a_forward a) d)) as Td'.
  { rewrite Td, Hd1. case_bool_decide as Hnil; [|done]. by rewrite Hnil, (no_lines _ _ _ _ Hf). }
  assert (engine_ok (taken a e1)) as Hokt.
  { apply taken_ok; [done|done|]. intros Hft. rewrite Hft in Hpf. destruct Hpf as (t & f & -> & _). by eexists. }
  assert (routable (a_newRuntime a)) as Hrt by (eapply resolve_routable; [apply Hp|apply Hin]).
  assert (device_follows (taken a e1)) as Hdev.
  { exists (uapi_run (a_forward a) d), key'. rewrite Tr, Ts, Tx, Tm, Hm1. by split_and!. }
  unfold committed. destruct (a_filterTransition a) eqn:Hft.
  - destruct Hpf as (t & f & Ht & Hfin & _ & Hc & _). split; [split|done|].
    + rewrite Hfin. apply notify_ok, uncommitted_ok, set_policy_ok; [change (e_started (taken a e1) = true); congruence|congruence|done].
    + change (e_started (taken a e1) = true). congruence.
    + change (routable (e_runtime (taken a e1))). by rewrite Tr.
    + exact Hdev.
    + exists f. split; [done|]. change (Compile (B:=Builder) (e_config (taken a e1)) (e_exitIP (taken a e1)) (e_shieldsUp (taken a e1)) =
        Ok (pol_matches f, pol_local f)). by rewrite Tc, Tx, Tu, Hu1, (pp_config _ _ _ _ _ _ Hp).
  - destruct Hpf as (_ & _ & _ & Hdeg). split; [split|congruence|].
    + done.
    + congruence.
    + by rewrite Tr.
    + done.
    + destruct (prepared_policy _ _ _ _ _ _ Hp Hft (Hpol Hdeg)) as (p & Hep & Hc).
      exists p. rewrite Tp, Tc, Tx, Tu, Hu1, Hp1, (pp_config _ _ _ _ _ _ Hp). done.
Qed.
Lemma wp_Apply x orders cfg supplied e : running_ok_ e → apply_input orders cfg e → (e_applyDegraded e = false → policy_follows e) →
  wp (Apply (Builder:=Builder) x orders cfg supplied) (applied_outcome x cfg supplied e) e.
Proof using.
  intros Hrun Hin Hpol. pose proof (ro_ok e Hrun) as Hok. pose proof (ro_started e Hrun) as Hs. unfold Apply. apply wp_bind.
  eapply wp_mono; [by apply wp_PrepareApply|]. intros [a|err] e1 [Hb Hr]; [|by destruct err].
  pose proof (pp_filter _ _ _ _ _ _ Hr) as Hpf. apply wp_bind. eapply wp_mono; [by eapply wp_Apply_staged|]. cbv beta. intros [a'|err] e2.
  - intros [-> ->]. eapply wp_mono; [apply wp_Commit_staged|].
    { destruct (a_filterTransition a); [|done]. destruct Hpf as (t & f & -> & -> & _). split; by eexists. }
    cbv beta. intros r e3 [-> ->]. change (applied_outcome x cfg supplied e (Ok tt) (committed a (taken a e1))).
    pose proof (taken_fields a e1) as (Tc & Tr & Ts & Tx & Tu & _). cbn. split; [by eapply committed_settled|].
    assert (e_shieldsUp e1 = e_shieldsUp e) as Hu1 by (by destruct Hb). destruct Hr.
    pose proof (committed_fields a (taken a e1)) as (Cc & Cr & Cs & Cx & Cu). split_and!; congruence.
  - intros (-> & Hfault & -> & Hnil). cbn. assert (e_started e1 = true) as Hs1 by (by destruct Hb).
    assert (engine_ok e1) as Hok1 by (by eapply only_bumped_ok). destruct (a_filterTransition a) eqn:Hft; [|by destruct Hpf].
    destruct Hpf as (t & f & Ht & _ & Hm & _).
    split_and!; [done| | | |by unfold installed; rewrite Hft; destruct Hb..].
    + apply notify_ok, IpcSet_ok, installed_ok; [done|done|]. by eexists.
    + unfold installed. by rewrite Hft.
    + intros _. exists t. unfold installed. by rewrite Hft, Ht.
Qed.

(** *** Start *)

Definition startable (e : Engine) : Prop :=
  engine_ok e ∧ e_started e = false ∧ e_closed e = false ∧ e_tun e = true ∧ e_exitIP e = AddrInvalid ∧ routable (e_config e).
Definition start_refusal (x : outside) (e : Engine) (err : engine_error) : Prop :=
  match err with
  | EContext => x_done x = true ∨ resolveWGConfigEndpoints (x_lookup x) (x_done_after x) (e_config e) = Err EContext
  | EPrivateKey | EPeerKey => effectiveWGSecrets (MkSecrets None ∅) (e_config e) (e_secrets e) true = Err err
  | ERestrictive c => Compile (B:=Builder) (S:=Sets) (e_config e) AddrInvalid true = Err c
  | EFilterCompile c => Compile (B:=Builder) (S:=Sets) (e_config e) AddrInvalid (e_shieldsUp e) = Err c
  | EConfigureDevice => failed (x_fault x) = true
  | EStartDevice => x_up x = false
  | _ => False
  end.
Definition start_outcome (x : outside) (e : Engine) (r : result engine_error unit) (e' : Engine) : Prop :=
  match r with
  | Ok _ => e_config e' = e_config e ∧ e_exitIP e' = AddrInvalid ∧
      if e_startRestricted e
      then running_ok_ e' ∧ e_applyDegraded e' = true ∧ restricted e' ∧
        (CommitStartPolicy e').2 = Ok tt ∧ settled (CommitStartPolicy e').1
      else settled e'
  | Err err => start_refusal x e err ∧ only_bumped e e'
  end.
Lemma full_follows rt secrets ip mark key d : routable rt → s_PrivateKey secrets = Some key →
  let d' := uapi_run (fullWGConfig LinuxBypassMarkNum rt secrets ip mark) d in
  in_force rt secrets ip d' ∧ ds_key d' = Some key ∧ ds_fwmark d' = (if mark then LinuxBypassMarkNum else ds_fwmark d).
Proof using.
  intros Hr Hk. destruct (full_spec LinuxBypassMarkNum rt secrets ip mark d Hr) as (Hf & Hm & Hkey). rewrite Hk in Hkey. by split_and!.
Qed.
Lemma running_runs e p pending mark runtime secrets : engine_ok e → e_started e = false → e_closed e = false → e_exitIP e = AddrInvalid →
  routable runtime → is_Some (s_PrivateKey secrets) → (is_Some pending → e_startRestricted e = true) →
  running_ok_ (notifyLocked (running (Some p) pending mark (uapi_run (fullWGConfig LinuxBypassMarkNum runtime secrets AddrInvalid mark) new_device)
    runtime secrets e)).
Proof using.
  intros Hok Hs Hc Hx Hr [key Hk] Hp. destruct (full_follows runtime secrets AddrInvalid mark key new_device Hr Hk) as (Hf & Hdk & Hm).
  split; [|done|done|].
  - apply notify_ok, running_ok; [done|]. intros Hpend. by rewrite (Hp Hpend).
  - exists (uapi_run (fullWGConfig LinuxBypassMarkNum runtime secrets AddrInvalid mark) new_device), key.
    split_and!; try done; [|intros Hb; cbn in Hb; by rewrite Hb in Hm |- *].
    change (in_force runtime secrets (e_exitIP e) (uapi_run (fullWGConfig LinuxBypassMarkNum runtime secrets AddrInvalid mark) new_device)).
    by rewrite Hx.
Qed.
Lemma commit_start_settles e p : running_ok_ e → e_pending e = Some p →
  Compile (B:=Builder) (e_config e) (e_exitIP e) (e_shieldsUp e) = Ok (pol_matches p, pol_local p) →
  (CommitStartPolicy e).2 = Ok tt ∧ settled (CommitStartPolicy e).1.
Proof using.
  intros Hrun Hp Hc. pose proof (ro_ok e Hrun) as Hok. pose proof (ro_started e Hrun) as Hs.
  destruct (ok_running e Hok Hs) as ([q Hq] & _). unfold CommitStartPolicy. rewrite bind_run. cbn [gets fst snd]. unfold id.
  rewrite Hp, Hs, (ok_installed e Hok), Hq. cbn. split; [done|]. split; [|done|by exists p].
  destruct Hrun. split; try done. apply notify_ok, uncommitted_ok, set_policy_ok; done.
Qed.
Lemma wp_Start x e : startable e → wp (Start x) (start_outcome x e) e.
Proof using.
  intros (Hok & Hs & Hc & Htun & Hx & Hrt). destruct (ok_stopped e Hok Hs) as (_ & _ & Hpend & Hdeg).
  unfold WireGuardEngine.Start. walk; unfold id in *;
    cbn [bump e_closed e_started e_tun e_config e_secrets e_startRestricted e_shieldsUp e_pending] in *; try congruence.
  - split; [by left|constructor].
  - by rewrite Htun in Heqb1.
  - split; [done|constructor].
  - split; [by apply negb_true_iff in H2|constructor].
  - rename a into runtime, a0 into secrets. pose proof (effective_key _ _ _ _ _ Heqr0) as Hkey.
    assert (routable runtime) as Hr by (by eapply resolve_routable). unfold start_outcome. rewrite Hpend.
    destruct (e_startRestricted e) eqn:Hsr; (split; [done|]); (split; [exact Hx|]).
    + split; [|split; [|split]].
      * apply (running_runs (bump (bump e))); try done. by apply bump_ok, bump_ok.
      * cbn. by rewrite Hsr.
      * intros _. eexists. split; [done|]. by eapply restrictive_matches.
      * eapply commit_start_settles; [|done|]; [apply (running_runs (bump (bump e))); try done; by apply bump_ok, bump_ok|].
        cbn. by rewrite Hx.
    + split.
      * apply (running_runs (bump (bump e))); try done; by apply bump_ok, bump_ok.
      * cbn. by rewrite Hsr, Hdeg.
      * eexists. split; [done|]. cbn. by rewrite Hx.
  - split; [|constructor]. destruct (effective_refuses _ _ _ _ _ Heqr0) as [-> | ->]; done.
  - split; [done|constructor].
  - split; [done|constructor].
  - split; [|constructor]. rewrite (resolve_refuses _ _ _ _ Heqr). right. by rewrite <- (resolve_refuses _ _ _ _ Heqr).
Qed.

(** *** Exit and shields *)

Definition exit_refusal (x : outside) (ip : Addr) (e : Engine) (err : engine_error) : Prop :=
  match err with
  | EContext => x_done x = true
  | EIneligible => addr.IsValid ip = true ∧ ∀ p, p ∈ c_Peers (e_config e) → ExitNode p && peerHasAddress p ip = false
  | ERestrictive c => Compile (B:=Builder) (S:=Sets) (e_config e) ip true = Err c
  | EFilterCompile c => Compile (B:=Builder) (S:=Sets) (e_config e) ip (e_shieldsUp e) = Err c
  | _ => False
  end.
Definition same_desired (e e' : Engine) : Prop :=
  e_config e' = e_config e ∧ e_runtime e' = e_runtime e ∧ e_secrets e' = e_secrets e.
(** What is left once the policies are compiled. *)
Definition install_outcome (x : outside) (ip : Addr) (e : Engine) (r : result engine_error unit) (e' : Engine) : Prop :=
  match r with
  | Ok _ => settled e' ∧ e_exitIP e' = ip ∧ same_desired e e' ∧ e_shieldsUp e' = e_shieldsUp e
  | Err ESetExit => failed (x_fault x) = true ∧ settled e' ∧ e_exitIP e' = e_exitIP e ∧ e_policy e' = e_policy e ∧ same_desired e e'
  | Err ESetExitRestore => failed (x_fault x) = true ∧ failed (x_fault2 x) = true ∧ engine_ok e' ∧ same_desired e e' ∧
      ∃ p, e_policy e' = Some p ∧ pol_matches p = []
  | Err _ => False
  end.
Definition exit_outcome (x : outside) (ip : Addr) (e : Engine) (r : result engine_error unit) (e' : Engine) : Prop :=
  install_outcome x ip e r e' ∨ ∃ err, r = Err err ∧ exit_refusal x ip e err ∧ only_bumped e e'.
Lemma ineligible cfg ip : addr.IsValid ip && negb (addr.IsValid (validExitSelection cfg ip)) = true →
  addr.IsValid ip = true ∧ ∀ p, p ∈ c_Peers cfg → ExitNode p && peerHasAddress p ip = false.
Proof using.
  intros [Hv Hn%negb_true_iff]%andb_true_iff. split; [done|]. intros p Hp. unfold validExitSelection in Hn. rewrite Hv in Hn. cbn in Hn.
  destruct (existsb _ _) eqn:Hex; [congruence|]. destruct (ExitNode p && peerHasAddress p ip) eqn:E; [|done].
  assert (existsb (λ p, ExitNode p && peerHasAddress p ip) (c_Peers cfg) = true); [|congruence].
  apply existsb_exists. exists p. split; [by apply list_elem_of_In|done].
Qed.
(** The second part, on the engine the first part left. *)
Lemma wp_exit_install x orders (t : Exit) e : settled e → orders.1 ≡ₚ PublicKey <$> c_Peers (e_runtime e) →
  orders.2 ≡ₚ PublicKey <$> c_Peers (e_runtime e) → x_oldPolicy t = e_policy e → x_oldExit t = e_exitIP e →
  pol_matches (x_transition t) = [] →
  Compile (B:=Builder) (e_config e) (x_ip t) (e_shieldsUp e) = Ok (pol_matches (x_final t), pol_local (x_final t)) →
  wp (SetExitNodeIP_install x orders t) (install_outcome x (x_ip t) e) e.
Proof using.
  intros [Hrun Hopen Hpol] Ho Hn Hp Hx Hm Hc. pose proof (ro_ok e Hrun) as Hok. pose proof (ro_started e Hrun) as Hs.
  destruct (ro_device e Hrun) as (d & key & Hd & Hf & Hk & Hdk & Hmark).
  assert (keeps (SetExitNodeIP_install x orders t)) as Hkeeps by apply SetExitNodeIP_install_keeps.
  eapply wp_mono; [apply (wp_and _ (λ _ e', engine_ok e'))|]; [by apply Hkeeps| |].
  - instantiate (1 := λ r e', engine_ok e' → install_outcome x (x_ip t) e r e').
    unfold WireGuardEngine.SetExitNodeIP_install. apply wp_bind, wp_gets, wp_bind, wp_fail_if; unfold id.
    { by rewrite running_not, Hp, Hx, same_policy_refl, bool_decide_true. }
    intros _. apply wp_bind, wp_modify, wp_bind, wp_modify. rewrite Hx. destruct (x_fault x) as [n|] eqn:Hfault; cbn [failed].
    + apply wp_bind, wp_modify. destruct (x_fault2 x) eqn:Hfault2; cbn [failed].
      * apply wp_fail. intros Hok'. cbn. rewrite Hfault, Hfault2. split_and!; try done. by eexists.
      * apply wp_bind, wp_modify, wp_fail. intros Hok'. unfold install_outcome. rewrite Hfault.
        match goal with |- context [set_policy _ (IpcSet None _ ?mid)] => assert (∃ d1, e_dev mid = Some d1) as [d1 Hd1] end.
        { cbn. rewrite Hd. by eexists. }
        destruct (full_follows (e_runtime e) (e_secrets e) (e_exitIP e) (e_bypassMark e) key d1) as (H1 & H2 & H3); [apply Hrun|done|].
        split; [done|]. split; [|split_and!; cbn; done]. split; [split|done|].
        -- done.
        -- done.
        -- apply Hrun.
        -- eexists _, key. split; [cbn in Hd1 |- *; rewrite Hd1; reflexivity|]. split_and!; [done|done|done|].
           intros Hb. cbn in Hb. by rewrite H3, Hb.
        -- destruct Hpol as (p & Hep & Hcp). exists p. rewrite Hp. by split.
    + apply wp_bind, wp_modify, wp_bind, wp_modify, wp_modify. intros Hok'.
      destruct (diff_follows orders (e_runtime e) (e_secrets e) (e_exitIP e) (e_runtime e) (e_secrets e) (x_ip t) d key key)
        as (H1 & H2 & H3); try done; [apply Hrun|apply Hrun|by left|].
      split; [|done]. split; [split|done|].
      * done.
      * done.
      * apply Hrun.
      * eexists _, key. cbn. rewrite Hd. split_and!; [reflexivity|done|done|done|by rewrite H3].
      * exists (x_final t). by split.
  - cbv beta. intros r e' [H1 H2]. auto.
Qed.
Lemma settled_bumped e e1 : only_bumped e e1 → settled e → settled e1.
Proof using.
  intros Hb [[Hok Hs Hr Hd] Ho Hp]. pose proof (only_bumped_ok e e1 Hb Hok). destruct Hb; (split; [split|..]; assumption).
Qed.
Lemma wp_SetExitNodeIP x orders ip e : settled e → orders.1 ≡ₚ PublicKey <$> c_Peers (e_runtime e) →
  orders.2 ≡ₚ PublicKey <$> c_Peers (e_runtime e) →
  wp (SetExitNodeIP (Builder:=Builder) LinuxBypassMarkNum x orders ip) (exit_outcome x ip e) e.
Proof using.
  intros Hset Ho Hn. pose proof (ro_ok e (se_running e Hset)) as Hok. pose proof (ro_started e (se_running e Hset)) as Hs.
  unfold SetExitNodeIP. apply wp_bind.
  eapply (wp_mono _ (λ r e', match r with
    | Ok None => ip = e_exitIP e ∧ e' = e
    | Ok (Some t) => only_bumped e e' ∧ x_ip t = ip ∧ x_oldPolicy t = e_policy e ∧ x_oldExit t = e_exitIP e ∧ pol_matches (x_transition t) = [] ∧
        Compile (B:=Builder) (e_config e) ip (e_shieldsUp e) = Ok (pol_matches (x_final t), pol_local (x_final t))
    | Err err => exit_refusal x ip e err ∧ only_bumped e e' end)).
  - unfold WireGuardEngine.SetExitNodeIP_stage. walk; unfold id in *.
    + by split; [|constructor].
    + by rewrite running_not in H1.
    + split; [by apply ineligible|constructor].
    + by apply bool_decide_eq_true in Heqb.
    + split; [constructor|]. split_and!; try done. by eapply restrictive_matches.
    + by split; [|constructor].
    + by split; [|constructor].
  - intros [[t|]|err] e1.
    + intros (Hb & <- & Hp & Hx & Hm & Hc).
      assert (e_policy e1 = e_policy e ∧ e_runtime e1 = e_runtime e ∧ e_exitIP e1 = e_exitIP e ∧ e_config e1 = e_config e ∧
        e_secrets e1 = e_secrets e ∧ e_shieldsUp e1 = e_shieldsUp e) as (E1 & E2 & E3 & E4 & E5 & E6) by (by destruct Hb).
      eapply wp_mono; [apply wp_exit_install|]; rewrite ?E1, ?E2, ?E3, ?E4, ?E6; try done; [by eapply settled_bumped|].
      intros r e' Hr. left. unfold install_outcome, same_desired in *. by rewrite E1, E2, E3, E4, E5, E6 in Hr.
    + intros [-> ->]. apply wp_ret. left. split; [done|]. by split.
    + intros [Hr Hb]. right. by exists err.
Qed.

Lemma running_bump e : running_ok_ e → running_ok_ (bump e).
Proof using. intros []. split; try done. by apply bump_ok. Qed.
Lemma repolicy_runs e q : running_ok_ e → running_ok_ (set_policy (Some q) e).
Proof using. intros []. split; try done. by apply set_policy_ok. Qed.
Lemma repolicy_back e q : running_ok_ e → e_applyDegraded e = false →
  Compile (B:=Builder) (e_config e) (e_exitIP e) (e_shieldsUp e) = Ok (pol_matches q, pol_local q) → settled (set_policy (Some q) e).
Proof using. intros Hr Hd Hc. split; [by apply repolicy_runs|done|by exists q]. Qed.
Lemma repolicy e b q : running_ok_ e → e_applyDegraded e = false →
  Compile (B:=Builder) (e_config e) (e_exitIP e) b = Ok (pol_matches q, pol_local q) →
  settled (notifyLocked (set_shieldsUp b (set_policy (Some q) e))).
Proof using.
  intros Hr Hd Hc. split; [|done|by exists q]. destruct (repolicy_runs e q Hr) as [Hok Hs Hrt Hdev].
  split; [|exact Hs|exact Hrt|exact Hdev]. by apply notify_ok, set_shieldsUp_ok.
Qed.

Lemma exit_installed x ip e e' : exit_outcome x ip e (Ok tt) e' → e_exitIP e' = ip.
Proof using. intros [(_ & He & _)|(err & He & _)]; [exact He|discriminate]. Qed.

(** A caller that stages shields, saves, and commits, or rolls back when it
    could not save. *)
Definition SetShields (enabled saved : bool) : stm Engine engine_error unit :=
  u ← PrepareShieldsUp enabled;
  u ← ApplyBeforeSave u;
  if saved then CommitShields u else (_ ← Rollback u; mret tt).
Definition shields_outcome (enabled saved : bool) (e : Engine) (r : result engine_error unit) (e' : Engine) : Prop :=
  match r with
  | Ok _ => settled e' ∧ e_shieldsUp e' = (if saved then enabled else e_shieldsUp e) ∧ e_exitIP e' = e_exitIP e ∧ same_desired e e' ∧
      (saved = false → e_policy e' = e_policy e) ∧
      (∀ p p', e_policy e = Some p → e_policy e' = Some p' → pol_flows p' = pol_flows p)
  | Err (EFilterCompile c) => Compile (B:=Builder) (S:=Sets) (e_config e) (e_exitIP e) enabled = Err c ∧ e' = e
  | Err _ => False
  end.
Lemma shields_done (enabled saved : bool) e p p' e' : settled e' → e_shieldsUp e' = (if saved then enabled else e_shieldsUp e) →
  e_exitIP e' = e_exitIP e → same_desired e e' → e_policy e = Some p → e_policy e' = Some p' → pol_flows p' = pol_flows p →
  (saved = false → p' = p) → shields_outcome enabled saved e (Ok tt) e'.
Proof using.
  intros Hs Hu Hx Hd Hp Hp' Hf Hsame. split; [done|]. split_and!; [done|done|done| |].
  - intros Hsv. rewrite Hp, Hp'. by rewrite (Hsame Hsv).
  - intros q q' Hq Hq'. congruence.
Qed.
Lemma wp_SetShields enabled saved e : settled e → wp (SetShields enabled saved) (shields_outcome enabled saved e) e.
Proof using.
  intros Hset. destruct Hset as [Hrun Hopen Hpol]. pose proof (ro_ok e Hrun) as Hok. pose proof (ro_started e Hrun) as Hs.
  pose proof Hpol as (p & Hp & Hc). unfold SetShields, WireGuardEngine.PrepareShieldsUp.
  apply wp_bind, wp_bind, wp_gets, wp_bind, wp_fail_if; unfold id; [by rewrite running_not|]. intros _.
  destruct (eqb (e_shieldsUp e) enabled) eqn:Heq.
  { apply eqb_prop in Heq. subst enabled. apply wp_ret, wp_bind, wp_ret.
    assert (shields_outcome (e_shieldsUp e) saved e (Ok tt) e) as Hdone.
    { split; [by split|]. split_and!; [by destruct saved|done|done|done|]. intros; congruence. }
    by destruct saved. }
  apply wp_bind, wp_compile; [|done]. intros ms local Hcomp. apply wp_ret. rewrite Hp.
  set (target := MkPolicy _ _ ms local).
  assert (∀ q : Policy, same_policy (Some q) (Some q) = true) as Hsame by (intros q; apply Nat.eqb_refl).
  unfold ApplyBeforeSave, CommitShields, Rollback.
  destruct enabled, saved; cbn [u_noop u_enabled negb orb u_old u_target u_applied shields_applied]; walk; unfold id in *;
    cbn [bump set_policy e_policy] in *; rewrite ?Hp, ?Hsame in *; try done.
  all: repeat match goal with
    | Ho : u_old _ = Some _ |- _ => cbn in Ho; injection Ho as <-
    | Ho : u_target _ = Some _ |- _ => cbn in Ho; injection Ho as <-
    end.
  - apply (shields_done true true e p target); try done. apply (repolicy (bump e) true target); [by apply running_bump|done|done].
  - apply (shields_done true false e p p); try done.
    apply (repolicy_back (set_policy (Some target) (bump e)) p); [|done|done]. apply (repolicy_runs (bump e)). by apply running_bump.
  - apply (shields_done false true e p target); try done. apply (repolicy (bump e) false target); [by apply running_bump|done|done].
  - apply (shields_done false false e p p); try done. split; [by apply running_bump|done|by exists p].
Qed.

(** *** A new engine *)

Definition fresh_engine (e : Engine) : Prop := ∃ profileID alias cfg secrets tun bind shieldsUp startRestricted,
  e = NewWireGuardEngine profileID alias cfg secrets tun bind shieldsUp startRestricted.
Lemma new_ok e : fresh_engine e → engine_ok e.
Proof using. intros (?&?&?&?&?&?&?&?&->). split; cbn; try done. Qed.
Lemma new_startable profileID alias cfg secrets bind shieldsUp startRestricted : routable cfg →
  startable (NewWireGuardEngine profileID alias cfg secrets true bind shieldsUp startRestricted).
Proof using. intros Hr. split; [apply new_ok; by do 8 eexists|]. by split_and!. Qed.
Definition unattended (e : Engine) : system := MkSystem e [] [] [].
Lemma unattended_ok e : fresh_engine e → system_ok (unattended e).
Proof using. intros He. split; cbn; [by apply new_ok|constructor|constructor]. Qed.
Lemma reachable_ok s s' : rtc (λ s s', ∃ k, step k s s') s s' → system_ok s → system_ok s'.
Proof using. intros Hr. induction Hr as [|s s1 s2 [k Hk] _ IH]; [done|]. intros Hok. apply IH. by eapply step_ok. Qed.
Lemma reachable_closed s s' : rtc (λ s s', ∃ k, step k s s') s s' → e_closed (sy_engine s) = true → e_closed (sy_engine s') = true.
Proof using. intros Hr. induction Hr as [|s s1 s2 [k Hk] _ IH]; [done|]. intros Hc. apply IH. by eapply closed_step. Qed.
Lemma closed_stopped e : engine_ok e → e_closed e = true → e_started e = false.
Proof using. intros Hok Hc. destruct (e_started e) eqn:Hs; [|done]. destruct (ok_running e Hok Hs) as (_ & _ & _ & Hn). congruence. Qed.
Lemma reachable_restricted s s' : rtc (step false) s s' → system_ok s → restricted (sy_engine s) → restricted (sy_engine s').
Proof using.
  intros Hr. induction Hr as [|s s1 s2 Hk _ IH]; [done|]. intros Hok Hres. apply IH; [by eapply step_ok|by eapply restricted_step].
Qed.
End facts.

(** C18. Whatever callers do to an engine and in whatever order their prepared
    updates, shields and exits are applied, committed or rolled back, and
    whatever fails: packets are judged by the policy the engine believes in; a
    started engine has a policy and a device, one that is not has neither; a
    start policy is only pending on an engine that reports itself degraded; and
    once closed it stays closed, filters nothing and configures nothing. *)
Theorem engine_published {Builder Sets : Type} `{IPSets Builder Sets} LinuxBypassMarkNum linux (e : Engine (Sets:=Sets)) s s' :
  fresh_engine e → rtc (λ s s', ∃ k, step LinuxBypassMarkNum linux k s s') (unattended e) s →
  rtc (λ s s', ∃ k, step LinuxBypassMarkNum linux k s s') s s' →
  engine_ok (sy_engine s) ∧
  (e_closed (sy_engine s) = true → e_closed (sy_engine s') = true ∧ e_started (sy_engine s') = false ∧
     e_filteredTun (sy_engine s') = None ∧ e_policy (sy_engine s') = None ∧ e_dev (sy_engine s') = None).
Proof.
  intros He Hs Hs'. pose proof (reachable_ok _ _ _ _ Hs (unattended_ok e He)) as Hok. split; [apply Hok|]. intros Hc.
  pose proof (so_engine _ (reachable_ok _ _ _ _ Hs' Hok)) as Hok'. pose proof (reachable_closed _ _ _ _ Hs' Hc) as Hc'.
  pose proof (closed_stopped _ Hok' Hc') as Hst. destruct (ok_stopped _ Hok' Hst) as (Hp & Hd & _).
  split_and!; try done. by rewrite (ok_installed _ Hok').
Qed.

(** C16. An engine that waits for its start policy, or whose update was applied
    and not committed, or failed in the device, lets no packet in: as long as
    callers only start, update and close it, in any interleaving and with any
    faults, the policy of a degraded engine has no match. *)
Theorem fail_closed {Builder Sets : Type} `{IPSets Builder Sets} LinuxBypassMarkNum linux (e : Engine (Sets:=Sets)) s :
  fresh_engine e → rtc (step LinuxBypassMarkNum linux false) (unattended e) s → ApplyDegraded (sy_engine s) = true →
  ∃ p, e_filteredTun (sy_engine s) = Some p ∧ pol_matches p = [].
Proof.
  intros He Hs Hd. assert (restricted (sy_engine (unattended e))) as Hr by (by destruct He as (?&?&?&?&?&?&?&?&->)).
  pose proof (reachable_restricted _ _ _ _ Hs (unattended_ok e He) Hr Hd) as (p & Hp & Hm). exists p. split; [|done].
  rewrite (ok_installed (sy_engine s)); [done|]. apply (reachable_ok LinuxBypassMarkNum linux (unattended e)); [|by apply unattended_ok].
  eapply rtc_subrel; [|exact Hs]. intros x y ?. by exists false.
Qed.

(** A start.  It is refused, for the reasons [start_refusal] lists and with
    the engine as it was, or the device runs the full configuration, resolved,
    and the policy is that of the configuration, at once or, for an engine that
    starts restricted, once [CommitStartPolicy] is called, which succeeds. *)
Theorem start_settles {Builder Sets : Type} `{IPSets Builder Sets} LinuxBypassMarkNum linux x (e : Engine (Sets:=Sets)) :
  startable e → start_outcome LinuxBypassMarkNum x e (Start LinuxBypassMarkNum linux x e).2 (Start LinuxBypassMarkNum linux x e).1.
Proof. apply wp_Start. Qed.


(** Selecting an exit and setting shields take a settled engine to a settled
    one.  A device that refuses the exit gets the old configuration back and the
    engine its old policy; when it refuses that as well, nothing is let in.
    Shields keep the flow table, and a rollback the policy itself. *)
Theorem exit_and_shields_settle {Builder Sets : Type} `{IPSets Builder Sets} LinuxBypassMarkNum x orders ip enabled saved (e : Engine (Sets:=Sets)) :
  settled LinuxBypassMarkNum e →
  (orders.1 ≡ₚ PublicKey <$> c_Peers (e_runtime e) → orders.2 ≡ₚ PublicKey <$> c_Peers (e_runtime e) →
   exit_outcome LinuxBypassMarkNum x ip e (SetExitNodeIP LinuxBypassMarkNum x orders ip e).2 (SetExitNodeIP LinuxBypassMarkNum x orders ip e).1) ∧
  shields_outcome LinuxBypassMarkNum enabled saved e (SetShields enabled saved e).2 (SetShields enabled saved e).1.
Proof. intros He. split; [intros Ho Hn; by apply wp_SetExitNodeIP|by apply wp_SetShields]. Qed.

(** ** A concrete engine *)

Definition calm : outside := MkOutside false (λ _, None) (λ _, false) None None true.
Definition test_orders : list Key * list Key := (PublicKey <$> c_Peers test_filter_config, PublicKey <$> c_Peers test_filter_config).
Definition new_test_engine (startRestricted : bool) : Engine (Sets:=tries) :=
  NewWireGuardEngine "p_home" "home" test_filter_config test_uapi_secrets true false false startRestricted.
Definition started_engine (startRestricted : bool) : Engine (Sets:=tries) :=
  (Start (Builder:=tries) 524288 true calm (new_test_engine startRestricted)).1.
Definition policy_covers (e : Engine (Sets:=tries)) (src dst : Addr) (proto port : Z) : bool :=
  match e_policy e with Some p => covers_b (pol_matches p) src dst proto port | None => false end.

Lemma test_startable startRestricted : startable (new_test_engine startRestricted).
Proof. apply new_startable, config_routable. apply test_filter_config_ok. Qed.
Lemma test_started startRestricted : (Start (Builder:=tries) 524288 true calm (new_test_engine startRestricted)).2 = Ok tt.
Proof. destruct startRestricted; vm_compute; reflexivity. Qed.

Lemma start_settles_witness : settled (Builder:=tries) 524288 (started_engine false) ∧
  settled (Builder:=tries) 524288 (CommitStartPolicy (started_engine true)).1.
Proof.
  split.
  - pose proof (start_settles (Builder:=tries) 524288 true calm (new_test_engine false) (test_startable false)) as Hs.
    rewrite test_started in Hs. apply Hs.
  - pose proof (start_settles (Builder:=tries) 524288 true calm (new_test_engine true) (test_startable true)) as Hs.
    rewrite test_started in Hs. apply Hs.
Defined.
Lemma test_settled : settled (Builder:=tries) 524288 (started_engine false).
Proof.
  pose proof (wp_Start (Builder:=tries) 524288 true calm (new_test_engine false) (test_startable false)) as Hs.
  unfold wp in Hs. rewrite test_started in Hs. apply Hs.
Qed.

Definition restarted : system (Sets:=tries) := MkSystem (started_engine true) [] [] [].
Lemma restarted_step : step (Builder:=tries) 524288 true false (unattended (new_test_engine true)) restarted.
Proof. apply (step_start 524288 true calm (unattended (new_test_engine true))). Qed.
Lemma engine_published_witness : engine_ok (sy_engine restarted) ∧
  e_filteredTun (sy_engine (MkSystem (Close (started_engine true)).1 [] [] [])) = None.
Proof.
  assert (rtc (λ s s', ∃ k, step (Builder:=tries) 524288 true k s s') (unattended (new_test_engine true)) restarted) as Hs
    by (apply rtc_once; exists false; exact restarted_step).
  assert (rtc (λ s s', ∃ k, step (Builder:=tries) 524288 true k s s') (unattended (new_test_engine true))
    (MkSystem (Close (started_engine true)).1 [] [] [])) as Hc.
  { eapply rtc_r; [exact Hs|]. exists false. apply (step_close 524288 true restarted). }
  assert (fresh_engine (new_test_engine true)) as Hn by (by do 8 eexists).
  split; [exact (proj1 (engine_published 524288 true _ _ _ Hn Hs (rtc_refl _ _)))|].
  apply (proj2 (engine_published 524288 true _ _ _ Hn Hc (rtc_refl _ _))). vm_compute. reflexivity.
Defined.
Lemma fail_closed_witness : ∃ p, e_filteredTun (started_engine true) = Some p ∧ pol_matches p = [].
Proof.
  apply (fail_closed (Builder:=tries) 524288 true (new_test_engine true) restarted); [by do 8 eexists|apply rtc_once, restarted_step|].
  vm_compute. reflexivity.
Defined.

(** The same profile without the packet filter's second grant. *)
Definition test_update : Config :=
  MkConfig (c_Version test_filter_config) (c_Name test_filter_config) (c_DNSSuffix test_filter_config) (c_Addresses test_filter_config)
    (c_ListenPort test_filter_config) (MkFilter (take 1 (Grants (c_PacketFilter test_filter_config)))) (c_Peers test_filter_config).
Lemma test_update_routable : routable test_update.
Proof. apply config_routable, Validate_config_ok. vm_compute. reflexivity. Qed.
Lemma test_orders_ok startRestricted : test_orders.1 ≡ₚ PublicKey <$> c_Peers (e_runtime (started_engine startRestricted)).
Proof. destruct startRestricted; vm_compute; reflexivity. Qed.
Lemma test_apply_ok : (Apply (Builder:=tries) calm test_orders test_update (MkSecrets None ∅) (started_engine false)).2 = Ok tt.
Proof. vm_compute. reflexivity. Qed.
Lemma test_exit_ok : (SetExitNodeIP (Builder:=tries) 524288 calm test_orders test_exit (started_engine false)).2 = Ok tt.
Proof. vm_compute. reflexivity. Qed.
Lemma exit_and_shields_settle_witness :
  e_exitIP (SetExitNodeIP (Builder:=tries) 524288 calm test_orders test_exit (started_engine false)).1 = test_exit ∧
  shields_outcome (Builder:=tries) 524288 true false (started_engine false) (SetShields (Builder:=tries) true false (started_engine false)).2
    (SetShields (Builder:=tries) true false (started_engine false)).1.
Proof.
  destruct (exit_and_shields_settle 524288 calm test_orders test_exit true false (started_engine false) test_settled) as [Hx Hs].
  split; [|exact Hs]. specialize (Hx (test_orders_ok false) (test_orders_ok false)). rewrite test_exit_ok in Hx.
  exact (exit_installed _ _ _ _ _ Hx).
Defined.

(** An exit selected while the start policy is pending lets packets in before
    [CommitStartPolicy], and [CommitStartPolicy] then installs the policy that
    was compiled without an exit: the source behind the exit, which the policy of
    the configuration and its exit lets in, stays out, the engine does not report
    itself degraded, and selecting the exit again changes nothing. *)
Definition early_exit : Engine (Sets:=tries) := (SetExitNodeIP (Builder:=tries) 524288 calm test_orders test_exit (started_engine true)).1.
Definition late_commit : Engine (Sets:=tries) := (CommitStartPolicy early_exit).1.
Theorem exit_opens_pending_start : let behind := Addr4 3405803783 in let self := Addr4 167772161 in
  ApplyDegraded (started_engine true) = true ∧ policy_covers (started_engine true) behind self 6 22 = false ∧
  ApplyDegraded early_exit = true ∧ policy_covers early_exit behind self 6 22 = true ∧
  ApplyDegraded late_commit = false ∧ e_exitIP late_commit = test_exit ∧ policy_covers late_commit behind self 6 22 = false ∧
  policy_covers (SetExitNodeIP (Builder:=tries) 524288 calm test_orders test_exit late_commit).1 behind self 6 22 = false.
Proof. vm_compute. repeat split. Qed.
