(* ===== verification/ExitNodeView.v ===== *)
(** * The list of exit nodes that is shown

    exitnodeview/view.go: the exit nodes of the control API as rows of a display,
    one per city and country, the way `tailscale exit-node list` shows them.  Maps
    are ranged over in the order of [map_to_list]; everything that comes out of
    one is sorted by an order without ties. *)

From S2P Require Import Prelude GoStrings Netip Types.
Local Open Scope Z_scope.

Record Node : Type := MkNode {
  n_ProfileID : string; n_ProfileName : string; n_NodeID : string; n_DNSName : string;
  n_IPs : list Addr; n_PeerIP : Addr; n_Online : bool; n_Location : option api.ExitNodeLocation;
  n_Selected : bool; n_State : string; n_Reason : string }.
Definition peer_key (profileID nodeID : string) : string := profileID +:+ NUL +:+ nodeID.
Definition node_Key (n : Node) : string := peer_key (n_ProfileID n) (n_NodeID n).
Record Item : Type := MkItem {
  it_Node : Node; it_Country : string; it_CountryCode : string; it_City : string; it_CityCode : string; it_Any : bool }.
Definition item_Key (i : Item) : string :=
  JoinStr NUL [node_Key (it_Node i); it_CountryCode i; it_Country i; (if it_Any i then "any" else "city"); it_CityCode i; it_City i].

(** ** Orders *)

Definition node_name_less : Node → Node → bool := less_by n_DNSName str_lt (less_by n_NodeID str_lt less_end).
Definition node_less : Node → Node → bool :=
  less_by (λ n, ToLower (n_ProfileName n)) str_lt (less_by n_ProfileID str_lt node_name_less).
Definition priority (n : Node) : Z := match n_Location n with Some l => api.el_Priority l | None => 0 end.
Definition descending (x y : Z) : bool := y <? x.
#[export] Instance descending_total : StrictTotal descending.
Proof. split; [split|]; unfold descending; intros *; lia. Qed.
Definition node_priority_less : Node → Node → bool := less_by priority descending node_name_less.

(** ** Nodes *)

Definition available_node (a : api.AvailableExitNode) : Node :=
  MkNode (api.ae_ProfileID a) (api.ae_ProfileName a) (api.ae_NodeID a) (api.ae_DNSName a) (api.ae_IPs a) AddrInvalid (api.ae_Online a)
    (api.ae_Location a) false "" "".
Definition select_node (s : api.SelectedExitNode) (n : Node) : Node :=
  MkNode (n_ProfileID n) (n_ProfileName n) (n_NodeID n) (if String.eqb (n_DNSName n) "" then api.se_DNSName s else n_DNSName n)
    (n_IPs n) (api.se_PeerIP s) (n_Online n)
    (match n_Location n with Some l => Some l | None => api.se_Location s end) true (api.se_State s) (api.se_Reason s).
Definition selected_node (s : api.SelectedExitNode) : Node :=
  MkNode (api.se_ProfileID s) (api.se_ProfileName s) (api.se_NodeID s) (api.se_DNSName s) [] AddrInvalid (api.se_Online s)
    (api.se_Location s) false "" "".
Definition nodes_by_key (resource : api.ExitNodes) : gmap string Node :=
  let byKey := foldl (λ m a, <[node_Key (available_node a) := available_node a]> m) ∅ (api.en_Available resource) in
  match api.Selected resource with
  | Some s =>
    let key := peer_key (api.se_ProfileID s) (api.se_NodeID s) in
    <[key := select_node s (default (selected_node s) (byKey !! key))]> byKey
  | None => byKey
  end.
Definition Nodes (resource : api.ExitNodes) : list Node := go_sort node_less (map_to_list (nodes_by_key resource)).*2.

Definition locationMatchesCountry (location : option api.ExitNodeLocation) (country : string) : bool :=
  match location with Some l => EqualFold (api.el_Country l) country | None => false end.

(** ** Groups *)

Record cityGroup : Type := MkCity { cg_name : string; cg_code : string; cg_any : bool; cg_nodes : list Node }.
Record countryGroup : Type := MkCountry { cn_name : string; cn_code : string; cn_cities : gmap string cityGroup }.
Definition location_of (n : Node) : string * string * string * string :=
  match n_Location n with
  | Some l => (api.el_Country l, api.el_CountryCode l, api.el_City l, api.el_CityCode l)
  | None => ("", "", "", "")
  end.
Definition country_key (code : string) : string := "country" +:+ NUL +:+ code.
Definition city_key (code : string) : string := "city" +:+ NUL +:+ code.
Definition add_node (groups : gmap string countryGroup) (n : Node) : gmap string countryGroup :=
  let '(countryName, countryCode, cityName, cityCode) := location_of n in
  let country := default (MkCountry countryName countryCode ∅) (groups !! country_key countryCode) in
  let city := default (MkCity cityName cityCode false []) (cn_cities country !! city_key cityCode) in
  <[country_key countryCode :=
      MkCountry (cn_name country) (cn_code country)
        (<[city_key cityCode := MkCity (cg_name city) (cg_code city) (cg_any city) (cg_nodes city ++ [n])]> (cn_cities country))]> groups.
(** The first of the sorted nodes of a city, and the selected one. *)
Definition reduced (nodes : list Node) : list Node :=
  match nodes with n :: nodes => n :: List.filter n_Selected nodes | [] => [] end.
Definition city_items (country : countryGroup) (city : cityGroup) : list Item :=
  (λ n, MkItem n (cn_name country) (cn_code country) (cg_name city) (cg_code city) (cg_any city)) <$> cg_nodes city.
Definition country_items (showAll : bool) (country : countryGroup) : list Item :=
  let cities := go_sort (less_by cg_name str_lt (less_by cg_code str_lt less_end)) (map_to_list (cn_cities country)).*2 in
  let cities :=
    if negb (String.eqb (cn_name country) "") && negb showAll then
      let sorted := (λ c, MkCity (cg_name c) (cg_code c) (cg_any c) (go_sort node_priority_less (cg_nodes c))) <$> cities in
      let countryNodes := go_sort node_priority_less (sorted ≫= cg_nodes) in
      let cities := (λ c, MkCity (cg_name c) (cg_code c) (cg_any c) (reduced (cg_nodes c))) <$> sorted in
      if (1 <? length cities)%nat then MkCity "Any" "" true (take 1 countryNodes) :: cities else cities
    else cities in
  cities ≫= city_items country.
Definition locationFilteredItems (nodes : list Node) (showAll : bool) : list Item :=
  let countries := go_sort (less_by cn_name str_lt (less_by cn_code str_lt less_end)) (map_to_list (foldl add_node ∅ nodes)).*2 in
  countries ≫= country_items showAll.

(** ** Rows *)

Definition shown (filterCountry : string) (n : Node) : bool :=
  String.eqb filterCountry "" || locationMatchesCountry (n_Location n) filterCountry.
Definition nodes_by_profile (nodes : list Node) : gmap string (list Node) :=
  foldl (λ m n, <[n_ProfileID n := default [] (m !! n_ProfileID n) ++ [n]]> m) ∅ nodes.
Definition profile_names (nodes : list Node) : gmap string string := foldl (λ m n, <[n_ProfileID n := n_ProfileName n]> m) ∅ nodes.
Definition Items (resource : api.ExitNodes) (filterCountry : string) : list Item :=
  let filterCountry := TrimSpace filterCountry in
  let nodes := List.filter (shown filterCountry) (Nodes resource) in
  let byProfile := nodes_by_profile nodes in
  let names := profile_names nodes in
  let profileIDs := go_sort (less_by (λ id, ToLower (default "" (names !! id))) str_lt str_lt) (map_to_list byProfile).*1 in
  profileIDs ≫= λ id,
    locationFilteredItems (go_sort node_name_less (default [] (byProfile !! id))) (negb (String.eqb filterCountry "")).

(** The resource and its reconcile error. *)
Definition FilterCountry (resource : api.ExitNodes * string) (country : string) : api.ExitNodes * string :=
  let country := TrimSpace country in
  if String.eqb country "" then resource
  else
    let matching := List.filter (λ a, locationMatchesCountry (api.ae_Location a) country) (api.en_Available resource.1) in
    let keys : gset string := list_to_set ((λ a, peer_key (api.ae_ProfileID a) (api.ae_NodeID a)) <$> matching) in
    (api.MkExitNodes
       (match api.Selected resource.1 with
        | Some s =>
          if bool_decide (peer_key (api.se_ProfileID s) (api.se_NodeID s) ∈ keys) || locationMatchesCountry (api.se_Location s) country
          then Some s else None
        | None => None
        end) matching, resource.2).

(** ** Grouping keeps the nodes *)

(** The values of a map, flattened. *)
Definition flat {A C} (f : A → list C) (m : gmap string A) : list C := (map_to_list m).*2 ≫= f.
Lemma flat_empty {A C} (f : A → list C) : flat f ∅ = [].
Proof. unfold flat. by rewrite map_to_list_empty. Qed.
Lemma flat_insert {A C} (f : A → list C) m k v : m !! k = None → flat f (<[k := v]> m) ≡ₚ f v ++ flat f m.
Proof. intros Hk. unfold flat. by rewrite (map_to_list_insert m k v Hk). Qed.
Lemma flat_update {A C} (f : A → list C) m k v0 v x : m !! k = Some v0 → f v ≡ₚ x :: f v0 → flat f (<[k := v]> m) ≡ₚ x :: flat f m.
Proof.
  intros Hk Hv. rewrite <- (insert_delete_id m k v0 Hk) at 2. rewrite <- insert_delete_eq.
  rewrite !flat_insert by apply lookup_delete_eq. by rewrite Hv.
Qed.
Lemma elem_of_flat {A C} (f : A → list C) m x : x ∈ flat f m ↔ ∃ k v, m !! k = Some v ∧ x ∈ f v.
Proof.
  unfold flat. rewrite list_elem_of_bind. setoid_rewrite list_elem_of_fmap. split.
  - intros (v & Hx & [k v'] & -> & Hk). apply elem_of_map_to_list in Hk. eauto.
  - intros (k & v & Hk & Hx). exists v. split; [done|]. exists (k, v). split; [done|]. by apply elem_of_map_to_list.
Qed.
Definition country_nodes (c : countryGroup) : list Node := flat cg_nodes (cn_cities c).
Definition all_nodes (groups : gmap string countryGroup) : list Node := flat country_nodes groups.

Lemma add_node_nodes groups n : all_nodes (add_node groups n) ≡ₚ n :: all_nodes groups.
Proof.
  unfold add_node. destruct (location_of n) as [[[countryName countryCode] cityName] cityCode].
  set (country := default (MkCountry countryName countryCode ∅) (groups !! country_key countryCode)). cbv zeta.
  match goal with |- context [<[_ := ?v]> groups] => set (country' := v) end.
  assert (country_nodes country' ≡ₚ n :: country_nodes country) as Hc.
  { unfold country_nodes, country'. cbn [cn_cities]. destruct (cn_cities country !! city_key cityCode) as [city|] eqn:Ec; cbn [default].
    - apply (flat_update _ _ _ city); [done|]. cbn. by rewrite (comm _ (cg_nodes city) [n]).
    - rewrite flat_insert by done. done. }
  destruct (groups !! country_key countryCode) as [c|] eqn:Ec; cbn in country.
  - by apply (flat_update _ _ _ c).
  - unfold all_nodes. rewrite flat_insert, Hc by done. cbn. unfold country_nodes. cbn. by rewrite flat_empty.
Qed.
Lemma grouped_nodes nodes : all_nodes (foldl add_node ∅ nodes) ≡ₚ nodes.
Proof.
  assert (∀ groups, all_nodes (foldl add_node groups nodes) ≡ₚ nodes ++ all_nodes groups) as Hg.
  { induction nodes as [|n nodes IH]; intros groups; cbn; [done|]. rewrite IH, add_node_nodes. by rewrite Permutation_middle. }
  rewrite Hg. unfold all_nodes. by rewrite flat_empty, app_nil_r.
Qed.

(** Every group holds the nodes of its codes; only the Any row is made later. *)
Definition codes (n : Node) : string * string := let '(_, countryCode, _, cityCode) := location_of n in (countryCode, cityCode).
Definition grouped (groups : gmap string countryGroup) : Prop := ∀ k c, groups !! k = Some c → ∀ j city, cn_cities c !! j = Some city →
  cg_any city = false ∧ ∀ n, n ∈ cg_nodes city → k = country_key (codes n).1 ∧ j = city_key (codes n).2.
Lemma add_node_grouped groups n : grouped groups → grouped (add_node groups n).
Proof.
  intros Hg k c. unfold add_node. assert (codes n = ((location_of n).1.1.2, (location_of n).2)) as Hcodes.
  { unfold codes. by destruct (location_of n) as [[[? ?] ?] ?]. }
  destruct (location_of n) as [[[countryName countryCode] cityName] cityCode]. cbn in Hcodes. cbv zeta.
  destruct (decide (k = country_key countryCode)) as [->|Hk]; [|rewrite lookup_insert_ne by done; apply Hg].
  rewrite lookup_insert_eq. intros [= <-] j city. cbn [cn_cities]. set (country := default _ (groups !! _)).
  assert (∀ j city, cn_cities country !! j = Some city → cg_any city = false ∧
    ∀ n, n ∈ cg_nodes city → country_key countryCode = country_key (codes n).1 ∧ j = city_key (codes n).2) as Hold.
  { intros j' city' Hj. unfold country in Hj. destruct (groups !! country_key countryCode) as [c|] eqn:Ec; cbn in Hj; [|done].
    by apply (Hg _ _ Ec). }
  destruct (decide (j = city_key cityCode)) as [->|Hj]; [|rewrite lookup_insert_ne by done; apply Hold].
  rewrite lookup_insert_eq. intros [= <-]. cbn [cg_any cg_nodes].
  destruct (cn_cities country !! city_key cityCode) as [old|] eqn:Eo; cbn [default cg_any cg_nodes].
  - destruct (Hold _ _ Eo) as [Ha Hn]. split; [done|]. intros m [Hm| ->%list_elem_of_singleton]%elem_of_app; [by apply Hn|]. by rewrite Hcodes.
  - split; [done|]. intros m Hm. apply list_elem_of_singleton in Hm as ->. by rewrite Hcodes.
Qed.
Lemma grouped_all nodes : grouped (foldl add_node ∅ nodes).
Proof.
  assert (grouped ∅) as Hg by by intros k c. revert Hg. generalize (∅ : gmap string countryGroup).
  induction nodes as [|n nodes IH]; intros groups Hg; cbn; [done|]. by apply IH, add_node_grouped.
Qed.

(** A country is named by the first of the nodes with its code, and every group is
    filed under its own code. *)
Definition country_of (n : Node) : string := (location_of n).1.1.1.
Definition of_country (code : string) (nodes : list Node) : list Node := filter (λ n, (codes n).1 = code) nodes.
Definition described_city (code : string) (j : string) (city : cityGroup) : Prop :=
  j = city_key (cg_code city) ∧ cg_nodes city ≠ [] ∧ ∀ n, n ∈ cg_nodes city → codes n = (code, cg_code city).
Definition described_country (nodes : list Node) (k : string) (c : countryGroup) : Prop :=
  k = country_key (cn_code c) ∧ Some (cn_name c) = country_of <$> head (of_country (cn_code c) nodes) ∧
  ∀ j city, cn_cities c !! j = Some city → described_city (cn_code c) j city.
Definition described (nodes : list Node) (groups : gmap string countryGroup) : Prop :=
  (∀ k c, groups !! k = Some c → described_country nodes k c) ∧
  (∀ code, groups !! country_key code = None → of_country code nodes = []).
Lemma key_inj (p a b : string) : p +:+ a = p +:+ b → a = b.
Proof. induction p as [|x p IH]; cbn; [done|]. intros [= Hp]. by apply IH. Qed.
Lemma country_key_inj a b : country_key a = country_key b → a = b.
Proof. unfold country_key. by intros ?%key_inj%key_inj. Qed.
Lemma of_country_snoc code nodes n : of_country code (nodes ++ [n]) = of_country code nodes ++ (if decide ((codes n).1 = code) then [n] else []).
Proof. unfold of_country. by rewrite filter_app, filter_cons, filter_nil. Qed.
Lemma described_snoc nodes n k c : described_country nodes k c → described_country (nodes ++ [n]) k c.
Proof.
  intros (Hk & Hname & Hcities). split; [done|]. split; [|done]. rewrite of_country_snoc.
  by destruct (of_country (cn_code c) nodes).
Qed.
Lemma add_node_described nodes groups n : described nodes groups → described (nodes ++ [n]) (add_node groups n).
Proof.
  intros [Hd Hn]. unfold add_node. assert (codes n = ((location_of n).1.1.2, (location_of n).2) ∧ country_of n = (location_of n).1.1.1) as [Hcodes Hco].
  { unfold codes, country_of. by destruct (location_of n) as [[[? ?] ?] ?]. }
  destruct (location_of n) as [[[countryName countryCode] cityName] cityCode]. cbn in Hcodes, Hco. cbv zeta.
  split.
  2: { intros code. destruct (decide (code = countryCode)) as [->|Hne]; [by rewrite lookup_insert_eq|].
       rewrite lookup_insert_ne by by intros ?%country_key_inj. intros Hc%Hn. rewrite of_country_snoc, Hc, Hcodes. cbn. by rewrite decide_False. }
  intros k c. destruct (decide (k = country_key countryCode)) as [->|Hk]; [|rewrite lookup_insert_ne by done; intros Hc%Hd; by apply described_snoc].
  rewrite lookup_insert_eq. intros [= <-]. set (country := default _ (groups !! _)).
  assert (described_country (nodes ++ [n]) (country_key countryCode) country ∧ cn_code country = countryCode) as [(_ & Hname & Hcities) Hcode].
  { unfold country. destruct (groups !! country_key countryCode) as [c|] eqn:Ec; cbn [default].
    - pose proof (Hd _ _ Ec) as Hc. split; [by apply described_snoc|]. symmetry. by apply country_key_inj, Hc.
    - split; [|done]. split; [done|]. split; [|done]. cbn [cn_code cn_name]. rewrite of_country_snoc, (Hn _ Ec), Hcodes. cbn. rewrite decide_True by done. cbn. by rewrite Hco. }
  unfold described_country. cbn [cn_code cn_name cn_cities]. rewrite Hcode in *. split; [done|]. split; [done|]. intros j city.
  destruct (decide (j = city_key cityCode)) as [->|Hj]; [|rewrite lookup_insert_ne by done; apply Hcities].
  rewrite lookup_insert_eq. intros [= <-]. unfold described_city. cbn [cg_code cg_nodes].
  destruct (cn_cities country !! city_key cityCode) as [old|] eqn:Eo; cbn.
  - destruct (Hcities _ _ Eo) as (Hkey & _ & Hold). assert (cg_code old = cityCode) as Hcc by (unfold city_key in Hkey; by apply key_inj, key_inj in Hkey).
    rewrite Hcc in *. split; [done|]. split; [by destruct (cg_nodes old)|]. intros m [Hm| ->%list_elem_of_singleton]%elem_of_app; [by apply Hold|done].
  - do 2 (split; [done|]). by intros m ->%list_elem_of_singleton.
Qed.
Lemma described_all nodes : described nodes (foldl add_node ∅ nodes).
Proof.
  induction nodes as [|n nodes IH] using rev_ind; [by split|]. rewrite foldl_app. by apply add_node_described.
Qed.

(** ** What a country shows *)

Definition sorted_cities (c : countryGroup) : list cityGroup :=
  go_sort (less_by cg_name str_lt (less_by cg_code str_lt less_end)) (map_to_list (cn_cities c)).*2.
Lemma sorted_cities_nodes c : sorted_cities c ≫= cg_nodes ≡ₚ country_nodes c.
Proof. unfold sorted_cities, country_nodes, flat. by rewrite go_sort_Permutation. Qed.
Lemma elem_of_sorted_cities c city : city ∈ sorted_cities c ↔ ∃ j, cn_cities c !! j = Some city.
Proof.
  unfold sorted_cities. rewrite go_sort_Permutation, list_elem_of_fmap. split.
  - intros ([j city'] & -> & Hj%elem_of_map_to_list). by exists j.
  - intros [j Hj]. exists (j, city). split; [done|]. by apply elem_of_map_to_list.
Qed.
Lemma city_items_nodes c city : it_Node <$> city_items c city = cg_nodes city.
Proof. unfold city_items. rewrite <- list_fmap_compose. apply list_fmap_id. Qed.
Lemma cities_items_nodes c cities : it_Node <$> (cities ≫= city_items c) = cities ≫= cg_nodes.
Proof. induction cities as [|city cities IH]; [done|]. cbn. by rewrite fmap_app, city_items_nodes, IH. Qed.

(** A row of a country, from one of the cities that are shown. *)
Definition prioritised (city : cityGroup) : cityGroup :=
  MkCity (cg_name city) (cg_code city) (cg_any city) (go_sort node_priority_less (cg_nodes city)).
Definition collapsed (city : cityGroup) : cityGroup := MkCity (cg_name city) (cg_code city) (cg_any city) (reduced (cg_nodes city)).
Definition any_city (c : countryGroup) : cityGroup :=
  MkCity "Any" "" true (take 1 (go_sort node_priority_less ((prioritised <$> sorted_cities c) ≫= cg_nodes))).
Definition shown_cities (showAll : bool) (c : countryGroup) : list cityGroup :=
  if negb (String.eqb (cn_name c) "") && negb showAll then
    (if (1 <? length (sorted_cities c))%nat then [any_city c] else []) ++ (collapsed <$> (prioritised <$> sorted_cities c))
  else sorted_cities c.
Lemma country_items_shown showAll c : country_items showAll c = shown_cities showAll c ≫= city_items c.
Proof.
  unfold country_items, shown_cities. fold (sorted_cities c). cbv zeta. destruct (negb (String.eqb (cn_name c) "") && negb showAll); [|done].
  rewrite !length_fmap. by destruct (1 <? length (sorted_cities c))%nat.
Qed.
Lemma reduced_elem nodes n : n ∈ reduced nodes → n ∈ nodes.
Proof.
  destruct nodes as [|m nodes]; [done|]. cbn. intros [->|Hn]%elem_of_cons; [by left|]. right.
  apply list_elem_of_In, filter_In in Hn as [Hn _]. by apply list_elem_of_In.
Qed.
Lemma reduced_selected nodes n : n ∈ nodes → n_Selected n = true → n ∈ reduced nodes.
Proof.
  destruct nodes as [|m nodes]; [done|]. cbn. intros [->|Hn]%elem_of_cons Hs; [by left|]. right.
  apply list_elem_of_In, filter_In. split; [by apply list_elem_of_In|done].
Qed.
Lemma reduced_best nodes n : n ∈ nodes → ∃ m, m ∈ reduced (go_sort node_priority_less nodes) ∧ node_priority_less n m = false.
Proof.
  intros Hn. pose proof (go_sort_sorted node_priority_less nodes) as Hs. pose proof (go_sort_Permutation node_priority_less nodes) as Hp.
  destruct (go_sort node_priority_less nodes) as [|m ms] eqn:E.
  - apply Permutation_nil_l in Hp. subst. by apply elem_of_nil in Hn.
  - exists m. split; [by left|]. rewrite <- Hp in Hn. apply elem_of_cons in Hn as [->|Hn]; [apply (less_irrefl node_priority_less)|].
    inversion Hs as [|? ? _ Hall]; subst. exact (proj1 (Forall_forall _ _) Hall n Hn).
Qed.

Lemma reduced_kept nodes n : n ∈ reduced (go_sort node_priority_less nodes) → n_Selected n = true ∨ ∀ m, m ∈ nodes → node_priority_less m n = false.
Proof.
  pose proof (go_sort_sorted node_priority_less nodes) as Hs. pose proof (go_sort_Permutation node_priority_less nodes) as Hp.
  destruct (go_sort node_priority_less nodes) as [|b bs]; [by intros ?%elem_of_nil|]. cbn.
  intros [->|Hn]%elem_of_cons; [right|left; apply list_elem_of_In, filter_In in Hn; tauto].
  intros m. rewrite <- Hp. intros [->|Hm]%elem_of_cons; [apply (less_irrefl node_priority_less)|].
  inversion Hs as [|? ? _ Hall]; subst. exact (proj1 (Forall_forall _ _) Hall m Hm).
Qed.
Lemma take_elem {A} k (l : list A) x : x ∈ take k l → x ∈ l.
Proof. intros Hx. rewrite <- (take_drop k l). apply elem_of_app. by left. Qed.

Section country.
Context (c : countryGroup) (Hany : ∀ j city, cn_cities c !! j = Some city → cg_any city = false).

Lemma city_of_node n : n ∈ country_nodes c ↔ ∃ city, city ∈ sorted_cities c ∧ n ∈ cg_nodes city.
Proof using.
  rewrite <- sorted_cities_nodes, list_elem_of_bind. naive_solver.
Qed.
Lemma elem_of_shown showAll city : city ∈ shown_cities showAll c → ∀ n, n ∈ cg_nodes city → n ∈ country_nodes c.
Proof using.
  unfold shown_cities. destruct (negb _ && negb showAll).
  - rewrite elem_of_app. intros [Hc|Hc] n Hn.
    + destruct (1 <? _)%nat; [|by apply elem_of_nil in Hc]. apply list_elem_of_singleton in Hc as ->.
      cbn [any_city cg_nodes] in Hn. apply take_elem in Hn. rewrite go_sort_Permutation in Hn.
      apply list_elem_of_bind in Hn as (city & Hn & (old & -> & Ho)%list_elem_of_fmap). cbn in Hn. rewrite go_sort_Permutation in Hn.
      apply city_of_node. by exists old.
    + apply list_elem_of_fmap in Hc as (p & -> & (old & -> & Ho)%list_elem_of_fmap). apply reduced_elem in Hn. cbn in Hn.
      rewrite go_sort_Permutation in Hn. apply city_of_node. by exists old.
  - intros Hc n Hn. apply city_of_node. by exists city.
Qed.
Lemma country_items_in showAll i : i ∈ country_items showAll c → it_Node i ∈ country_nodes c.
Proof using.
  rewrite country_items_shown. intros (city & (n & -> & Hn)%list_elem_of_fmap & Hc)%list_elem_of_bind. by eapply elem_of_shown.
Qed.
Lemma shown_all showAll : showAll = true ∨ cn_name c = "" → it_Node <$> country_items showAll c ≡ₚ country_nodes c.
Proof using.
  intros Hs. rewrite country_items_shown, cities_items_nodes, <- sorted_cities_nodes. unfold shown_cities.
  by destruct Hs as [-> | ->]; rewrite ?andb_false_r.
Qed.
(** Every node is represented in its own city by one that is not worse, and a
    selected node by itself. *)
Lemma shown_for showAll city n : city ∈ sorted_cities c → n ∈ cg_nodes city →
  ∃ i, i ∈ country_items showAll c ∧ it_Any i = false ∧ it_Node i ∈ cg_nodes city ∧ node_priority_less n (it_Node i) = false ∧
    (n_Selected n = true → it_Node i = n).
Proof using Hany.
  intros Hc Hn. assert (cg_any city = false) as Ha by (apply elem_of_sorted_cities in Hc as [j Hj]; by eapply Hany).
  rewrite country_items_shown. setoid_rewrite list_elem_of_bind. unfold shown_cities. destruct (negb _ && negb showAll).
  - assert (∃ m, m ∈ reduced (go_sort node_priority_less (cg_nodes city)) ∧ node_priority_less n m = false ∧ (n_Selected n = true → m = n))
      as (m & Hm & Hless & Hsel).
    { destruct (n_Selected n) eqn:Es.
      - exists n. split; [|split; [apply (less_irrefl node_priority_less)|done]]. apply reduced_selected; [|done]. by rewrite go_sort_Permutation.
      - destruct (reduced_best _ n Hn) as (m & Hm & Hl). by exists m. }
    exists (MkItem m (cn_name c) (cn_code c) (cg_name city) (cg_code city) (cg_any city)). split; [|split_and!; try done].
    + exists (collapsed (prioritised city)). split; [by apply (list_elem_of_fmap_2 (λ n, MkItem n _ _ _ _ _))|].
      apply elem_of_app. right. by apply list_elem_of_fmap_2, list_elem_of_fmap_2.
    + apply reduced_elem in Hm. by rewrite go_sort_Permutation in Hm.
  - exists (MkItem n (cn_name c) (cn_code c) (cg_name city) (cg_code city) (cg_any city)).
    split; [exists city; split; [by apply (list_elem_of_fmap_2 (λ n, MkItem n _ _ _ _ _))|done]|]. split_and!; try done.
    apply (less_irrefl node_priority_less).
Qed.

Definition plain_rows (l : list Item) : list Item := List.filter (λ i, negb (it_Any i)) l.
Lemma plain_rows_app l k : plain_rows (l ++ k) = plain_rows l ++ plain_rows k.
Proof using. apply List.filter_app. Qed.
Lemma plain_city city : it_Node <$> plain_rows (city_items c city) = if cg_any city then [] else cg_nodes city.
Proof using.
  unfold city_items, plain_rows. induction (cg_nodes city) as [|n l IH]; [by destruct (cg_any city)|]. cbn.
  destruct (cg_any city); cbn in *; [done|by rewrite IH].
Qed.
Lemma plain_cities cities : it_Node <$> plain_rows (cities ≫= city_items c) = cities ≫= (λ city, if cg_any city then [] else cg_nodes city).
Proof using.
  induction cities as [|city cities IH]; [done|]. cbn [mbind list_bind]. by rewrite plain_rows_app, fmap_app, IH, (plain_city city).
Qed.
Lemma reduced_sub nodes : reduced nodes ⊆+ nodes.
Proof using.
  destruct nodes as [|n nodes]; [done|]. cbn. apply submseteq_skip. apply sublist_submseteq.
  induction nodes as [|m nodes IH]; cbn; [constructor|]. destruct (n_Selected m); by constructor.
Qed.
Lemma plain_once showAll : it_Node <$> plain_rows (country_items showAll c) ⊆+ country_nodes c.
Proof using Hany.
  rewrite country_items_shown, plain_cities, <- sorted_cities_nodes. unfold shown_cities.
  assert (∀ cities, (∀ city, city ∈ cities → cg_any city = false) →
    (collapsed <$> (prioritised <$> cities)) ≫= (λ city, if cg_any city then [] else cg_nodes city) ⊆+ cities ≫= cg_nodes) as Hcol.
  { induction cities as [|city cities IH]; intros Hc; [done|]. cbn. rewrite (Hc city) by by left.
    apply submseteq_app; [|apply IH; intros; apply Hc; by right]. etrans; [apply reduced_sub|]. by rewrite go_sort_Permutation. }
  assert (∀ city, city ∈ sorted_cities c → cg_any city = false) as Hno.
  { intros city [j Hj]%elem_of_sorted_cities. by eapply Hany. }
  destruct (negb _ && negb showAll).
  - rewrite bind_app. destruct (1 <? _)%nat; cbn; by apply Hcol.
  - assert (∀ cities, (∀ city, city ∈ cities → cg_any city = false) →
      cities ≫= (λ city, if cg_any city then [] else cg_nodes city) = cities ≫= cg_nodes) as ->; [|done|done].
    induction cities as [|city cities IH]; intros Hc; [done|]. cbn. rewrite (Hc city) by by left. rewrite IH; [done|]. intros; apply Hc; by right.
Qed.

(** The Any row of a country: its best node. *)
Definition any_rows (l : list Item) : list Item := List.filter it_Any l.
Lemma any_nodes_perm : go_sort node_priority_less ((prioritised <$> sorted_cities c) ≫= cg_nodes) ≡ₚ country_nodes c.
Proof using.
  rewrite go_sort_Permutation, <- sorted_cities_nodes. induction (sorted_cities c) as [|city l IH]; [done|]. cbn. by rewrite IH, go_sort_Permutation.
Qed.
Lemma any_best n : n ∈ cg_nodes (any_city c) → n ∈ country_nodes c ∧ ∀ m, m ∈ country_nodes c → node_priority_less m n = false.
Proof using.
  cbn [any_city cg_nodes]. pose proof any_nodes_perm as Hp. set (all := (prioritised <$> sorted_cities c) ≫= cg_nodes) in *.
  pose proof (go_sort_sorted node_priority_less all) as Hs. destruct (go_sort node_priority_less all) as [|b bs]; [by intros ?%elem_of_nil|].
  cbn. intros ->%list_elem_of_singleton. split; [rewrite <- Hp; by left|]. intros m. rewrite <- Hp.
  intros [->|Hm]%elem_of_cons; [apply (less_irrefl node_priority_less)|].
  inversion Hs as [|? ? _ Hall]; subst. exact (proj1 (Forall_forall _ _) Hall m Hm).
Qed.
(** A row shows a node of a city of its country, where rows are collapsed a
    selected node or the best of the city, or it is the Any row. *)
Definition plain_row (showAll : bool) (i : Item) : Prop := ∃ city, city ∈ sorted_cities c ∧ it_Node i ∈ cg_nodes city ∧ it_Any i = false ∧
  it_City i = cg_name city ∧ it_CityCode i = cg_code city ∧
  (showAll = false → cn_name c ≠ "" → n_Selected (it_Node i) = true ∨ ∀ m, m ∈ cg_nodes city → node_priority_less m (it_Node i) = false).
Definition any_row (showAll : bool) (i : Item) : Prop := showAll = false ∧ cn_name c ≠ "" ∧ (1 < length (sorted_cities c))%nat ∧ it_Any i = true ∧
  it_City i = "Any" ∧ it_CityCode i = "" ∧ it_Node i ∈ country_nodes c ∧ ∀ m, m ∈ country_nodes c → node_priority_less m (it_Node i) = false.
Lemma country_row showAll i : i ∈ country_items showAll c → it_Country i = cn_name c ∧ it_CountryCode i = cn_code c ∧ (plain_row showAll i ∨ any_row showAll i).
Proof using Hany.
  rewrite country_items_shown. intros (city & (n & -> & Hn)%list_elem_of_fmap & Hc)%list_elem_of_bind. cbn [it_Country it_CountryCode]. do 2 (split; [done|]).
  unfold shown_cities in Hc. destruct (negb (String.eqb (cn_name c) "") && negb showAll) eqn:E.
  - apply andb_true_iff in E as [Hname%negb_true_iff%String.eqb_neq Hall%negb_true_iff]. apply elem_of_app in Hc as [Hc|Hc].
    + right. destruct (1 <? length (sorted_cities c))%nat eqn:El; [|by apply elem_of_nil in Hc]. apply Nat.ltb_lt in El.
      apply list_elem_of_singleton in Hc as ->. destruct (any_best n Hn). by split_and!.
    + left. apply list_elem_of_fmap in Hc as (p & -> & (old & -> & Ho)%list_elem_of_fmap). cbn in Hn. exists old. cbn. split; [done|].
      split; [apply reduced_elem in Hn; by rewrite go_sort_Permutation in Hn|].
      split; [apply elem_of_sorted_cities in Ho as [j Hj]; by eapply Hany|]. do 2 (split; [done|]). intros _ _. by apply reduced_kept.
  - left. exists city. cbn. split; [done|]. split; [done|]. split; [apply elem_of_sorted_cities in Hc as [j Hj]; by eapply Hany|].
    do 2 (split; [done|]). intros -> Hname. rewrite andb_true_r in E. by apply negb_false_iff, String.eqb_eq in E.
Qed.
Lemma any_exists : cn_name c ≠ "" → (1 < length (sorted_cities c))%nat → country_nodes c ≠ [] → ∃ i, i ∈ country_items false c ∧ it_Any i = true.
Proof using.
  intros Hname Hl Hne. pose proof any_nodes_perm as Hp. rewrite country_items_shown. unfold shown_cities.
  rewrite (proj2 (String.eqb_neq _ _) Hname), (proj2 (Nat.ltb_lt _ _) Hl). cbn [negb andb app mbind list_bind].
  destruct (go_sort node_priority_less ((prioritised <$> sorted_cities c) ≫= cg_nodes)) as [|b bs] eqn:E; [by apply Permutation_nil_l in Hp|].
  eexists. split; [apply elem_of_app; left; unfold city_items, any_city; rewrite E; by left|done].
Qed.
Lemma any_once showAll : it_Node <$> any_rows (country_items showAll c) ⊆+ country_nodes c.
Proof using Hany.
  assert (∀ cities, (∀ city, city ∈ cities → cg_any city = false) → any_rows (cities ≫= city_items c) = []) as Hno.
  { induction cities as [|city cities IH]; intros Hc; [done|]. cbn [mbind list_bind]. unfold any_rows in *. rewrite List.filter_app, IH by (intros; apply Hc; by right).
    rewrite app_nil_r. unfold city_items. rewrite (Hc city) by by left. by induction (cg_nodes city) as [|n l IHl]. }
  assert (∀ city, city ∈ sorted_cities c → cg_any city = false) as Hf by (intros city [j Hj]%elem_of_sorted_cities; by eapply Hany).
  rewrite country_items_shown. unfold shown_cities. destruct (negb _ && negb showAll); [|rewrite Hno by done; apply submseteq_nil_l].
  assert (any_rows ((collapsed <$> (prioritised <$> sorted_cities c)) ≫= city_items c) = []) as Hcol.
  { apply Hno. intros city (p & -> & (old & -> & Ho)%list_elem_of_fmap)%list_elem_of_fmap. cbn. exact (Hf old Ho). }
  rewrite bind_app. unfold any_rows in *. rewrite List.filter_app, Hcol, app_nil_r. destruct (1 <? _)%nat; [|apply submseteq_nil_l].
  cbn [mbind list_bind]. rewrite app_nil_r, <- any_nodes_perm. unfold city_items, any_city. cbn [cg_nodes cg_any].
  destruct (go_sort _ _) as [|b bs]; [apply submseteq_nil_l|]. cbn. apply submseteq_skip, submseteq_nil_l.
Qed.
End country.

(** ** What a profile shows *)

Definition sorted_countries (nodes : list Node) : list countryGroup :=
  go_sort (less_by cn_name str_lt (less_by cn_code str_lt less_end)) (map_to_list (foldl add_node ∅ nodes)).*2.
Lemma sorted_countries_nodes nodes : sorted_countries nodes ≫= country_nodes ≡ₚ nodes.
Proof. unfold sorted_countries. rewrite go_sort_Permutation. apply grouped_nodes. Qed.
Lemma elem_of_sorted_countries nodes c : c ∈ sorted_countries nodes ↔ ∃ k, (foldl add_node ∅ nodes : gmap string countryGroup) !! k = Some c.
Proof.
  unfold sorted_countries. rewrite go_sort_Permutation, list_elem_of_fmap. split.
  - intros ([k c'] & -> & Hk%elem_of_map_to_list). by exists k.
  - intros [k Hk]. exists (k, c). split; [done|]. by apply elem_of_map_to_list.
Qed.
Lemma country_any nodes c : c ∈ sorted_countries nodes → ∀ j city, cn_cities c !! j = Some city → cg_any city = false.
Proof. intros [k Hk]%elem_of_sorted_countries j city Hj. by apply (grouped_all nodes k c Hk j). Qed.
Lemma same_city nodes c city n m : c ∈ sorted_countries nodes → city ∈ sorted_cities c → n ∈ cg_nodes city → m ∈ cg_nodes city → codes n = codes m.
Proof.
  intros [k Hk]%elem_of_sorted_countries [j Hj]%elem_of_sorted_cities Hn Hm.
  destruct (grouped_all nodes k c Hk j city Hj) as [_ Hall]. destruct (Hall n Hn) as [E1 E2], (Hall m Hm) as [E3 E4].
  rewrite E1 in E3. rewrite E2 in E4. unfold country_key, city_key in *. apply key_inj, key_inj in E3, E4.
  destruct (codes n), (codes m). cbn in *. by subst.
Qed.

Lemma bind_perm {A C} (f g : A → list C) l : (∀ x, x ∈ l → f x ≡ₚ g x) → l ≫= f ≡ₚ l ≫= g.
Proof.
  induction l as [|x l IH]; intros Hf; [done|]. cbn. rewrite (Hf x) by by left. by rewrite IH by (intros; apply Hf; by right).
Qed.
Lemma bind_sub {A C} (f g : A → list C) l : (∀ x, x ∈ l → f x ⊆+ g x) → l ≫= f ⊆+ l ≫= g.
Proof.
  induction l as [|x l IH]; intros Hf; [done|]. cbn. apply submseteq_app; [apply Hf; by left|apply IH; intros; apply Hf; by right].
Qed.
Lemma fmap_bind_ {A C D} (f : A → list C) (h : C → D) l : h <$> (l ≫= f) = l ≫= (λ x, h <$> f x).
Proof. induction l as [|x l IH]; [done|]. cbn. by rewrite fmap_app, IH. Qed.
Lemma plain_bind {A} (f : A → list Item) l : plain_rows (l ≫= f) = l ≫= (λ x, plain_rows (f x)).
Proof. induction l as [|x l IH]; [done|]. cbn [mbind list_bind]. by rewrite plain_rows_app, IH. Qed.

Lemma located_in nodes showAll i : i ∈ locationFilteredItems nodes showAll → it_Node i ∈ nodes.
Proof.
  intros (c & Hi & Hc)%list_elem_of_bind. rewrite <- (sorted_countries_nodes nodes). apply list_elem_of_bind. exists c.
  split; [by eapply country_items_in|exact Hc].
Qed.
Lemma located_all nodes : it_Node <$> locationFilteredItems nodes true ≡ₚ nodes.
Proof.
  unfold locationFilteredItems. fold (sorted_countries nodes). rewrite fmap_bind_. rewrite <- (sorted_countries_nodes nodes) at 2.
  apply bind_perm. intros c _. apply shown_all. by left.
Qed.
Lemma located_for nodes showAll n : n ∈ nodes → ∃ i, i ∈ locationFilteredItems nodes showAll ∧ it_Any i = false ∧
  codes (it_Node i) = codes n ∧ node_priority_less n (it_Node i) = false ∧ (n_Selected n = true → it_Node i = n).
Proof.
  intros Hn. rewrite <- (sorted_countries_nodes nodes) in Hn. apply list_elem_of_bind in Hn as (c & Hn & Hc).
  apply city_of_node in Hn as (city & Hcity & Hn).
  destruct (shown_for c (country_any nodes c Hc) showAll city n Hcity Hn) as (i & Hi & Ha & Hin & Hl & Hs).
  exists i. split; [apply list_elem_of_bind; by exists c|]. split_and!; try done. by eapply same_city.
Qed.
Lemma located_once nodes showAll : it_Node <$> plain_rows (locationFilteredItems nodes showAll) ⊆+ nodes.
Proof.
  unfold locationFilteredItems. fold (sorted_countries nodes). rewrite plain_bind, fmap_bind_.
  rewrite <- (sorted_countries_nodes nodes) at 2. apply bind_sub. intros c Hc. exact (plain_once c (country_any nodes c Hc) showAll).
Qed.

(** The country name of a node's group: that of the first node with its code. *)
Definition first_country (l : list Node) (n : Node) : string := default "" (country_of <$> head (of_country (codes n).1 l)).
Lemma country_described l c : c ∈ sorted_countries l → described_country l (country_key (cn_code c)) c ∧ (foldl add_node ∅ l : gmap string countryGroup) !! country_key (cn_code c) = Some c.
Proof.
  intros [k Hk]%elem_of_sorted_countries. pose proof (proj1 (described_all l) k c Hk) as Hd. pose proof (proj1 Hd) as Hkey. by subst k.
Qed.
Lemma city_described l c city : c ∈ sorted_countries l → city ∈ sorted_cities c → described_city (cn_code c) (city_key (cg_code city)) city ∧
  cn_cities c !! city_key (cg_code city) = Some city.
Proof.
  intros [(_ & _ & Hd) _]%country_described [j Hj]%elem_of_sorted_cities. pose proof (Hd j city Hj) as Hc. pose proof (proj1 Hc) as Hkey. by subst j.
Qed.
Lemma country_node l c n : c ∈ sorted_countries l → n ∈ country_nodes c → (codes n).1 = cn_code c ∧ first_country l n = cn_name c.
Proof.
  intros Hc (city & Hcity & Hn)%city_of_node. pose proof (proj1 (city_described l c city Hc Hcity)) as (_ & _ & Hcodes).
  pose proof (proj1 (country_described l c Hc)) as (_ & Hname & _). unfold first_country. rewrite (Hcodes n Hn). cbn. split; [done|]. by rewrite <- Hname.
Qed.
Lemma in_country l c n : c ∈ sorted_countries l → n ∈ l → (codes n).1 = cn_code c → n ∈ country_nodes c.
Proof.
  intros Hc Hn Hcode. rewrite <- (sorted_countries_nodes l) in Hn. apply list_elem_of_bind in Hn as (c' & Hn & Hc').
  destruct (country_node l c' n Hc' Hn) as [Hcode' _]. pose proof (proj2 (country_described l c Hc)) as E. pose proof (proj2 (country_described l c' Hc')) as E'.
  assert (c' = c) as ->; [|done]. rewrite <- Hcode' in E'. rewrite <- Hcode in E. congruence.
Qed.
Lemma in_city l c city n : c ∈ sorted_countries l → city ∈ sorted_cities c → n ∈ l → codes n = (cn_code c, cg_code city) → n ∈ cg_nodes city.
Proof.
  intros Hc Hcity Hn Hcodes. assert (n ∈ country_nodes c) as (city' & Hcity' & Hn')%city_of_node by (apply (in_country l); [done..|]; by rewrite Hcodes).
  destruct (city_described l c city Hc Hcity) as [_ E], (city_described l c city' Hc Hcity') as [(_ & _ & Hall) E'].
  rewrite (Hall n Hn') in Hcodes. injection Hcodes as Hcode. rewrite Hcode in E'. congruence.
Qed.
(** A country with two rows of cities has two cities with nodes. *)
Lemma other_city l c code : c ∈ sorted_countries l → (1 < length (sorted_cities c))%nat →
  ∃ n, n ∈ country_nodes c ∧ (codes n).2 ≠ code.
Proof.
  intros Hc Hl. assert (∃ city, city ∈ sorted_cities c ∧ cg_code city ≠ code) as (city & Hcity & Hne).
  { pose proof (go_sort_Permutation (less_by cg_name str_lt (less_by cg_code str_lt less_end)) (map_to_list (cn_cities c)).*2) as Hp.
    fold (sorted_cities c) in Hp. rewrite Hp, length_fmap in Hl.
    assert (∀ k v, (k, v) ∈ map_to_list (cn_cities c) → v ∈ sorted_cities c ∧ k = city_key (cg_code v)) as Hm.
    { intros k v Hk%elem_of_map_to_list. split; [apply elem_of_sorted_cities; by exists k|].
      pose proof (proj1 (country_described l c Hc)) as (_ & _ & Hd). apply (Hd k v Hk). }
    pose proof (NoDup_fst_map_to_list (cn_cities c)) as Hnd. destruct (map_to_list (cn_cities c)) as [|[k1 v1] [|[k2 v2] m]]; [cbn in Hl; lia..|].
    destruct (Hm k1 v1) as [H1 ->]; [by left|]. destruct (Hm k2 v2) as [H2 ->]; [by right; left|].
    destruct (decide (cg_code v1 = code)) as [E1|]; [|by exists v1]. exists v2. split; [done|]. intros E2.
    apply NoDup_cons in Hnd as [Hnd _]. apply Hnd, elem_of_cons. left. cbn. by rewrite E1, E2. }
  destruct (city_described l c city Hc Hcity) as [(_ & Hnil & Hcodes) _]. destruct (cg_nodes city) as [|n ns] eqn:E; [done|].
  exists n. split; [apply city_of_node; exists city; rewrite E; split; [done|by left]|]. rewrite (Hcodes n) by by left. done.
Qed.

(** A row of a profile. *)
Definition row_of_city (l : list Node) (showAll : bool) (i : Item) : Prop := it_Any i = false ∧ it_CityCode i = (codes (it_Node i)).2 ∧
  (showAll = false → first_country l (it_Node i) ≠ "" →
   n_Selected (it_Node i) = true ∨ ∀ m, m ∈ l → codes m = codes (it_Node i) → node_priority_less m (it_Node i) = false).
Definition row_of_country (l : list Node) (showAll : bool) (i : Item) : Prop := it_Any i = true ∧ showAll = false ∧
  first_country l (it_Node i) ≠ "" ∧ it_City i = "Any" ∧ it_CityCode i = "" ∧
  (∀ m, m ∈ l → (codes m).1 = (codes (it_Node i)).1 → node_priority_less m (it_Node i) = false) ∧
  ∃ m, m ∈ l ∧ (codes m).1 = (codes (it_Node i)).1 ∧ (codes m).2 ≠ (codes (it_Node i)).2.
Lemma country_in l c n : c ∈ sorted_countries l → n ∈ country_nodes c → n ∈ l.
Proof. intros Hc Hn. rewrite <- (sorted_countries_nodes l). apply list_elem_of_bind. by exists c. Qed.
Lemma located_row l showAll i : i ∈ locationFilteredItems l showAll →
  it_Country i = first_country l (it_Node i) ∧ it_CountryCode i = (codes (it_Node i)).1 ∧ (row_of_city l showAll i ∨ row_of_country l showAll i).
Proof.
  intros (c & Hi & Hc)%list_elem_of_bind. change (c ∈ sorted_countries l) in Hc. pose proof (country_items_in c showAll i Hi) as Hin.
  destruct (country_node l c (it_Node i) Hc Hin) as [Hcode Hname].
  destruct (country_row c (country_any l c Hc) showAll i Hi) as (-> & -> & Hrow). rewrite Hcode, Hname. do 2 (split; [done|]).
  destruct Hrow as [(city & Hcity & Hn & Ha & _ & Hcc & Hbest)|(Hall & Hne & Hl & Ha & HA & Hcc & _ & Hbest)]; [left|right].
  - destruct (city_described l c city Hc Hcity) as [(_ & _ & Hcodes) _]. unfold row_of_city. rewrite Hname, Hcc. rewrite (Hcodes _ Hn). cbn. do 2 (split; [done|]).
    intros Hs Hne. destruct (Hbest Hs Hne) as [?|Hb]; [by left|right]. intros m Hm Hmc. apply Hb. by apply (in_city l c city m).
  - unfold row_of_country. rewrite Hname, Hcode. do 5 (split; [done|]). split; [intros m Hm Hmc; apply Hbest; by apply (in_country l)|].
    destruct (other_city l c (codes (it_Node i)).2 Hc Hl) as (m & Hm & Hmc). exists m. split; [by apply (country_in l c)|].
    split; [by apply (country_node l c m Hc Hm)|done].
Qed.
Lemma located_any l n m : n ∈ l → m ∈ l → (codes m).1 = (codes n).1 → (codes m).2 ≠ (codes n).2 → first_country l n ≠ "" →
  ∃ i, i ∈ locationFilteredItems l false ∧ it_Any i = true ∧ (codes (it_Node i)).1 = (codes n).1.
Proof.
  intros Hn Hm Hc1 Hc2 Hname. pose proof Hn as Hn'. rewrite <- (sorted_countries_nodes l) in Hn'. apply list_elem_of_bind in Hn' as (c & Hnc & Hc).
  destruct (country_node l c n Hc Hnc) as [Hcode Hf]. assert (m ∈ country_nodes c) as Hmc by (apply (in_country l); [done..|congruence]).
  destruct (any_exists c) as (i & Hi & Ha); [congruence| |by intros E; rewrite E in Hnc; apply elem_of_nil in Hnc|].
  - apply city_of_node in Hnc as (c1 & H1 & Hn1), Hmc as (c2 & H2 & Hm2).
    assert (c1 ≠ c2) as Hne.
    { intros ->. destruct (city_described l c c2 Hc H2) as [(_ & _ & Hcodes) _]. rewrite (Hcodes n Hn1), (Hcodes m Hm2) in Hc2. done. }
    destruct (sorted_cities c) as [|x [|y xs]]; [by apply elem_of_nil in H1| |cbn; lia]. apply list_elem_of_singleton in H1, H2. congruence.
  - exists i. split; [apply list_elem_of_bind; by exists c|]. split; [done|]. rewrite Hcode. apply (country_node l c); [done|]. by eapply country_items_in.
Qed.
Lemma located_own l showAll n : n ∈ l → showAll = true ∨ first_country l n = "" → ∃ i, i ∈ locationFilteredItems l showAll ∧ it_Any i = false ∧ it_Node i = n.
Proof.
  intros Hn Hs. pose proof Hn as Hn'. rewrite <- (sorted_countries_nodes l) in Hn'. apply list_elem_of_bind in Hn' as (c & Hnc & Hc).
  destruct (country_node l c n Hc Hnc) as [_ Hf]. rewrite Hf in Hs. rewrite <- (shown_all c showAll Hs) in Hnc.
  apply list_elem_of_fmap in Hnc as (i & -> & Hi). exists i. split; [apply list_elem_of_bind; by exists c|]. split; [|done].
  destruct (country_row c (country_any l c Hc) showAll i Hi) as (_ & _ & [(? & _ & _ & Ha & _)|(Hall & Hne & _)]); [done|]. destruct Hs; congruence.
Qed.
Lemma located_any_once l showAll : it_Node <$> any_rows (locationFilteredItems l showAll) ⊆+ l.
Proof.
  unfold locationFilteredItems. fold (sorted_countries l). unfold any_rows.
  assert (∀ cs, List.filter it_Any (cs ≫= country_items showAll) = cs ≫= (λ c, any_rows (country_items showAll c))) as ->.
  { induction cs as [|c cs IH]; [done|]. cbn [mbind list_bind]. by rewrite List.filter_app, IH. }
  rewrite fmap_bind_. etrans; [|apply Permutation_submseteq, (sorted_countries_nodes l)]. apply bind_sub. intros c Hc. exact (any_once c (country_any l c Hc) showAll).
Qed.

(** ** What is shown *)

Lemma by_profile_lookup nodes id :
  nodes_by_profile nodes !! id = match List.filter (λ n, bool_decide (n_ProfileID n = id)) nodes with [] => None | l => Some l end.
Proof.
  induction nodes as [|n nodes IH] using rev_ind; [done|]. unfold nodes_by_profile in *. rewrite foldl_app, List.filter_app. cbn [foldl List.filter].
  destruct (decide (id = n_ProfileID n)) as [->|Hne].
  - rewrite lookup_insert_eq, bool_decide_true by done. rewrite IH. by destruct (List.filter _ nodes).
  - rewrite lookup_insert_ne, bool_decide_false by done. rewrite IH, app_nil_r. done.
Qed.
Lemma by_profile_nodes nodes : flat id (nodes_by_profile nodes) ≡ₚ nodes.
Proof.
  assert (∀ m, flat id (foldl (λ m n, <[n_ProfileID n := default [] (m !! n_ProfileID n) ++ [n]]> m) m nodes) ≡ₚ nodes ++ flat id m) as Hg.
  { induction nodes as [|n nodes IH]; intros m; cbn; [done|]. rewrite IH. rewrite Permutation_middle. f_equiv.
    destruct (m !! n_ProfileID n) as [l|] eqn:El; cbn.
    - apply (flat_update _ _ _ l); [done|]. cbn. by rewrite (comm _ l [n]).
    - by rewrite flat_insert. }
  unfold nodes_by_profile. rewrite (Hg ∅), flat_empty. by rewrite app_nil_r.
Qed.
(** The profiles in their order, each with its nodes. *)
Lemma over_profiles nodes ids : ids ≡ₚ (map_to_list (nodes_by_profile nodes)).*1 →
  (ids ≫= λ id, default [] (nodes_by_profile nodes !! id)) ≡ₚ nodes.
Proof.
  intros Hids. rewrite Hids. etrans; [|apply by_profile_nodes]. unfold flat.
  assert (∀ l, (∀ e, e ∈ l → nodes_by_profile nodes !! e.1 = Some e.2) →
    l.*1 ≫= (λ id, default [] (nodes_by_profile nodes !! id)) = l.*2 ≫= id) as Hl.
  { induction l as [|e l IH]; intros He; [done|]. cbn. rewrite (He e) by by left. cbn. f_equal. apply IH. intros; apply He; by right. }
  rewrite Hl; [done|]. intros [k v] Hk. by apply elem_of_map_to_list.
Qed.

(** The rows of one profile, in the order of the profiles. *)
Definition profile_rows (nodes : list Node) (showAll : bool) (id : string) : list Item :=
  locationFilteredItems (go_sort node_name_less (default [] (nodes_by_profile nodes !! id))) showAll.
Definition profile_order (nodes : list Node) : list string :=
  go_sort (less_by (λ id, ToLower (default "" (profile_names nodes !! id))) str_lt str_lt) (map_to_list (nodes_by_profile nodes)).*1.
Definition visible (resource : api.ExitNodes) (country : string) : list Node := List.filter (shown (TrimSpace country)) (Nodes resource).
Lemma Items_rows resource country : Items resource country =
  profile_order (visible resource country) ≫= profile_rows (visible resource country) (negb (String.eqb (TrimSpace country) "")).
Proof. done. Qed.
Lemma over_order nodes : (profile_order nodes ≫= λ id, default [] (nodes_by_profile nodes !! id)) ≡ₚ nodes.
Proof. apply over_profiles. unfold profile_order. by rewrite go_sort_Permutation. Qed.
Lemma profile_of nodes n : n ∈ nodes → n_ProfileID n ∈ profile_order nodes ∧ n ∈ default [] (nodes_by_profile nodes !! n_ProfileID n).
Proof.
  intros Hn. assert (n ∈ List.filter (λ m, bool_decide (n_ProfileID m = n_ProfileID n)) nodes) as Hin.
  { apply list_elem_of_In, filter_In. split; [by apply list_elem_of_In|]. by apply bool_decide_eq_true. }
  pose proof (by_profile_lookup nodes (n_ProfileID n)) as Hl.
  destruct (List.filter _ nodes) as [|m l]; [by apply elem_of_nil in Hin|]. split.
  - unfold profile_order. rewrite go_sort_Permutation, list_elem_of_fmap. exists (n_ProfileID n, m :: l). split; [done|].
    by apply elem_of_map_to_list.
  - by rewrite Hl.
Qed.
Lemma in_profile nodes id n : n ∈ default [] (nodes_by_profile nodes !! id) → n_ProfileID n = id ∧ n ∈ nodes.
Proof.
  rewrite by_profile_lookup. destruct (List.filter _ nodes) as [|m l] eqn:E; cbn [default]; [by intros ?%elem_of_nil|]. rewrite <- E.
  intros Hn%list_elem_of_In%filter_In. rewrite bool_decide_eq_true, <- list_elem_of_In in Hn. tauto.
Qed.

(** ** Nodes *)

Lemma nodes_by_key_key resource k n : nodes_by_key resource !! k = Some n → node_Key n = k.
Proof.
  assert (∀ l (m : gmap string Node), (∀ k n, m !! k = Some n → node_Key n = k) → ∀ k n,
    foldl (λ m a, <[node_Key (available_node a) := available_node a]> m) m l !! k = Some n → node_Key n = k) as Hf.
  { induction l as [|a l IH]; intros m Hm; cbn; [done|]. apply IH. intros k' n'.
    destruct (decide (k' = node_Key (available_node a))) as [->|Hne]; [rewrite lookup_insert_eq; by intros [= <-]|].
    rewrite lookup_insert_ne by done. apply Hm. }
  unfold nodes_by_key. set (byKey := foldl _ ∅ _).
  assert (∀ k n, byKey !! k = Some n → node_Key n = k) as Hb by (apply Hf; intros ? ? [=]).
  destruct (api.Selected resource) as [s|]; [|by apply Hb]. set (key := peer_key _ _).
  destruct (decide (k = key)) as [->|Hne]; [|rewrite lookup_insert_ne by done; by apply Hb]. rewrite lookup_insert_eq. intros [= <-].
  destruct (byKey !! key) as [n0|] eqn:E; [|done]. by apply Hb in E.
Qed.
Lemma elem_of_Nodes resource n : n ∈ Nodes resource ↔ nodes_by_key resource !! node_Key n = Some n.
Proof.
  unfold Nodes. rewrite go_sort_Permutation, list_elem_of_fmap. split.
  - intros ([k m] & -> & Hk%elem_of_map_to_list). cbn in *. by rewrite (nodes_by_key_key _ _ _ Hk).
  - intros Hk. exists (node_Key n, n). split; [done|]. by apply elem_of_map_to_list.
Qed.
Lemma Nodes_nodup resource : NoDup (node_Key <$> Nodes resource).
Proof.
  unfold Nodes. rewrite go_sort_Permutation. pose proof (NoDup_fst_map_to_list (nodes_by_key resource)) as Hnd.
  assert (node_Key <$> (map_to_list (nodes_by_key resource)).*2 = (map_to_list (nodes_by_key resource)).*1) as ->; [|done].
  rewrite <- list_fmap_compose. apply list_fmap_ext. intros i [k n] Hi. cbn. apply nodes_by_key_key with resource.
  apply elem_of_map_to_list. by eapply list_elem_of_lookup_2.
Qed.

(** The nodes of a profile, by name, and the name that the country of a node goes
    by: that of the first of them with its country code. *)
Definition profile_nodes (nodes : list Node) (id : string) : list Node :=
  go_sort node_name_less (List.filter (λ m, bool_decide (n_ProfileID m = id)) nodes).
Definition country_name (nodes : list Node) (n : Node) : string := first_country (profile_nodes nodes (n_ProfileID n)) n.
Definition same_country (m n : Node) : Prop := n_ProfileID m = n_ProfileID n ∧ (codes m).1 = (codes n).1.
Definition same_place (m n : Node) : Prop := n_ProfileID m = n_ProfileID n ∧ codes m = codes n.
Lemma elem_of_profile_nodes nodes id n : n ∈ profile_nodes nodes id ↔ n ∈ nodes ∧ n_ProfileID n = id.
Proof. unfold profile_nodes. rewrite go_sort_Permutation, list_elem_of_In, filter_In, bool_decide_eq_true, <- list_elem_of_In. done. Qed.
Lemma profile_rows_nodes nodes all id : profile_rows nodes all id = locationFilteredItems (profile_nodes nodes id) all.
Proof. unfold profile_rows, profile_nodes. rewrite by_profile_lookup. by destruct (List.filter _ nodes). Qed.
Lemma elem_of_Items resource country i : i ∈ Items resource country ↔
  ∃ id, i ∈ locationFilteredItems (profile_nodes (visible resource country) id) (negb (String.eqb (TrimSpace country) "")).
Proof.
  rewrite Items_rows, list_elem_of_bind. setoid_rewrite profile_rows_nodes. split; [intros (id & Hi & _); by exists id|].
  intros [id Hi]. exists id. split; [done|]. pose proof (located_in _ _ _ Hi) as [Hn <-]%elem_of_profile_nodes. by apply profile_of.
Qed.
(** Without a country, nodes of a country without a name have their own rows. *)
Lemma unlocated_country nodes n : n_Location n = None →
  (∀ m l, m ∈ nodes → n_ProfileID m = n_ProfileID n → n_Location m = Some l → api.el_CountryCode l ≠ "") → country_name nodes n = "".
Proof.
  intros Hn Hl. unfold country_name, first_country, codes, location_of. rewrite Hn. cbn.
  destruct (of_country "" _) as [|m ms] eqn:E; [done|]. cbn. unfold country_of, location_of. destruct (n_Location m) as [lm|] eqn:Em; [|done].
  assert (m ∈ of_country "" (profile_nodes nodes (n_ProfileID n))) as [Hcode [Hm Hid]%elem_of_profile_nodes]%list_elem_of_filter by (rewrite E; by left).
  destruct (Hl m lm Hm Hid Em). unfold codes, location_of in Hcode. by rewrite Em in Hcode.
Qed.
Lemma Items_nodup (f : list Item → list Item) resource country :
  (∀ l k, f (l ++ k) = f l ++ f k) → f [] = [] → (∀ l all, it_Node <$> f (locationFilteredItems l all) ⊆+ l) →
  NoDup (node_Key <$> (it_Node <$> f (Items resource country))).
Proof.
  intros Happ Hnil Hf. rewrite Items_rows. set (nodes := visible resource country). set (all := negb _). unfold profile_rows.
  assert (∀ ids (g : string → list Item), f (ids ≫= g) = ids ≫= (λ id, f (g id))) as Hbind.
  { induction ids as [|id ids IH]; intros g; [done|]. cbn [mbind list_bind]. by rewrite Happ, IH. }
  assert (it_Node <$> f (profile_order nodes ≫= λ id, locationFilteredItems (go_sort node_name_less
    (default [] (nodes_by_profile nodes !! id))) all) ⊆+ nodes) as Hsub.
  { rewrite Hbind, fmap_bind_. etrans; [|apply Permutation_submseteq, (over_order nodes)]. apply bind_sub. intros id _.
    etrans; [apply Hf|]. by rewrite go_sort_Permutation. }
  assert (nodes ⊆+ Nodes resource) as Hsub'.
  { apply sublist_submseteq. unfold nodes, visible. clear. induction (Nodes resource) as [|n l IH]; cbn; [constructor|].
    destruct (shown _ n); by constructor. }
  destruct (submseteq_Permutation _ _ (transitivity Hsub Hsub')) as [k Hk].
  pose proof (Nodes_nodup resource) as Hnd. rewrite Hk, fmap_app in Hnd. by apply NoDup_app in Hnd as [Hnd _].
Qed.

(** C33. The display of exit nodes.  Every row shows an exit node that is
    available or selected and matches the country, under its country's name.

    With a country filter every such node has exactly one row.  Without one, a
    node of a country without a name has a row of its own; a node without a
    location is one, as long as its profile has no located node without a country
    code.  In a country with a name a row of a city shows the selected node or the
    one that is best by priority and name in its profile, country and city; every
    node is so represented, the selected one by itself, and apart from the Any
    rows no node has two.  A country has an Any row exactly when it has a name and
    nodes of two cities; it shows the best node of the profile's country, which no
    other Any row shows. *)
Theorem Items_sound (resource : api.ExitNodes) (country : string) :
  let nodes := visible resource country in let rows := Items resource country in
  (∀ i, i ∈ rows → it_Node i ∈ nodes ∧ it_Country i = country_name nodes (it_Node i) ∧ it_CountryCode i = (codes (it_Node i)).1) ∧
  (TrimSpace country ≠ "" → it_Node <$> rows ≡ₚ nodes) ∧
  (∀ n, n ∈ nodes → country_name nodes n = "" → ∃ i, i ∈ rows ∧ it_Any i = false ∧ it_Node i = n) ∧
  (∀ n, n ∈ nodes → n_Location n = None →
     (∀ m l, m ∈ nodes → n_ProfileID m = n_ProfileID n → n_Location m = Some l → api.el_CountryCode l ≠ "") →
     ∃ i, i ∈ rows ∧ it_Any i = false ∧ it_Node i = n) ∧
  (∀ n, n ∈ nodes → ∃ i, i ∈ rows ∧ it_Any i = false ∧ n_ProfileID (it_Node i) = n_ProfileID n ∧ codes (it_Node i) = codes n ∧
     node_priority_less n (it_Node i) = false ∧ (n_Selected n = true → it_Node i = n)) ∧
  (∀ i, i ∈ rows → it_Any i = false → it_CityCode i = (codes (it_Node i)).2 ∧
     (TrimSpace country = "" → country_name nodes (it_Node i) ≠ "" → n_Selected (it_Node i) = true ∨
        ∀ m, m ∈ nodes → same_place m (it_Node i) → node_priority_less m (it_Node i) = false)) ∧
  NoDup (node_Key <$> (it_Node <$> plain_rows rows)) ∧
  (∀ i, i ∈ rows → it_Any i = true → TrimSpace country = "" ∧ country_name nodes (it_Node i) ≠ "" ∧ it_City i = "Any" ∧ it_CityCode i = "" ∧
     (∀ m, m ∈ nodes → same_country m (it_Node i) → node_priority_less m (it_Node i) = false) ∧
     ∃ m, m ∈ nodes ∧ same_country m (it_Node i) ∧ (codes m).2 ≠ (codes (it_Node i)).2) ∧
  (∀ n m, TrimSpace country = "" → n ∈ nodes → m ∈ nodes → same_country m n → (codes m).2 ≠ (codes n).2 → country_name nodes n ≠ "" →
     ∃ i, i ∈ rows ∧ it_Any i = true ∧ same_country (it_Node i) n) ∧
  NoDup (node_Key <$> (it_Node <$> any_rows rows)).
Proof.
  cbv zeta. set (nodes := visible resource country).
  assert (∀ n, n ∈ nodes → n ∈ profile_nodes nodes (n_ProfileID n)) as Hin by (intros n Hn; by apply elem_of_profile_nodes).
  assert (∀ i id, i ∈ locationFilteredItems (profile_nodes nodes id) (negb (String.eqb (TrimSpace country) "")) →
    it_Node i ∈ nodes ∧ n_ProfileID (it_Node i) = id) as Hrow by (intros i id Hi; by apply elem_of_profile_nodes, (located_in _ _ _ Hi)).
  assert (∀ n, n ∈ nodes → country_name nodes n = "" → ∃ i, i ∈ Items resource country ∧ it_Any i = false ∧ it_Node i = n) as Hown.
  { intros n Hn Hc. destruct (located_own (profile_nodes nodes (n_ProfileID n)) (negb (String.eqb (TrimSpace country) "")) n (Hin n Hn)) as (i & Hi & Ha & Hni).
    { by right. }
    exists i. split_and!; [|done..]. apply elem_of_Items. by exists (n_ProfileID n). }
  split_and!.
  - intros i [id Hi]%elem_of_Items. destruct (Hrow i id Hi) as [Hn Hid]. destruct (located_row _ _ _ Hi) as (-> & -> & _).
    split; [done|]. split; [|done]. unfold country_name. by rewrite Hid.
  - intros Hc. rewrite Items_rows. unfold profile_rows. rewrite fmap_bind_. etrans; [|apply (over_order nodes)]. apply bind_perm. intros id _.
    rewrite (proj2 (String.eqb_neq _ _) Hc). cbn [negb]. by rewrite located_all, go_sort_Permutation.
  - exact Hown.
  - intros n Hn Hloc Hcodes. apply Hown; [done|]. by apply unlocated_country.
  - intros n Hn. destruct (located_for _ (negb (String.eqb (TrimSpace country) "")) n (Hin n Hn)) as (i & Hi & Ha & Hcodes & Hl & Hs).
    exists i. split; [apply elem_of_Items; by exists (n_ProfileID n)|]. split_and!; try done. by apply Hrow.
  - intros i [id Hi]%elem_of_Items Ha. destruct (Hrow i id Hi) as [Hn Hid]. destruct (located_row _ _ _ Hi) as (_ & _ & [(_ & Hcc & Hbest)|(? & _)]); [|congruence].
    split; [done|]. intros Ht Hname. destruct Hbest as [?|Hbest]; [by rewrite Ht|unfold country_name in Hname; by rewrite Hid in Hname|by left|right].
    intros m Hm [Hp Hcodes]. apply Hbest; [|done]. apply elem_of_profile_nodes. by rewrite Hp.
  - apply Items_nodup; [apply plain_rows_app|done|apply located_once].
  - intros i [id Hi]%elem_of_Items Ha. destruct (Hrow i id Hi) as [Hn Hid].
    destruct (located_row _ _ _ Hi) as (_ & _ & [(? & _)|(_ & Hs & Hname & HA & Hcc & Hbest & m & Hm & Hm1 & Hm2)]); [congruence|].
    split; [by apply negb_false_iff, String.eqb_eq in Hs|]. split; [unfold country_name; by rewrite Hid|]. do 2 (split; [done|]). split.
    + intros k Hk [Hp Hc]. apply Hbest; [|done]. apply elem_of_profile_nodes. by rewrite Hp.
    + apply elem_of_profile_nodes in Hm as [Hm Hp]. exists m. unfold same_country. by rewrite Hp.
  - intros n m Ht Hn Hm [Hp Hc1] Hc2 Hname. destruct (located_any (profile_nodes nodes (n_ProfileID n)) n m) as (i & Hi & Ha & Hc); [by apply Hin| |done..|].
    { apply elem_of_profile_nodes. by rewrite Hp. }
    assert (negb (String.eqb (TrimSpace country) "") = false) as Hf by by rewrite Ht.
    exists i. rewrite <- Hf in Hi. split; [apply elem_of_Items; by exists (n_ProfileID n)|]. split; [done|]. split; [|done]. by apply Hrow.
  - apply Items_nodup; [intros; apply List.filter_app|done|apply located_any_once].
Qed.

(** The filtered resource offers exactly the matching nodes, in their order, and
    keeps a selection that matches or is of an offered node; its display is the
    display of the whole resource under the same filter whenever the selection is
    kept. *)
Lemma FilterCountry_spec (resource : api.ExitNodes * string) country : TrimSpace country ≠ "" →
  (FilterCountry resource country).2 = resource.2 ∧
  (∀ a, a ∈ api.en_Available (FilterCountry resource country).1 ↔
     a ∈ api.en_Available resource.1 ∧ locationMatchesCountry (api.ae_Location a) (TrimSpace country) = true) ∧
  (∀ s, api.Selected (FilterCountry resource country).1 = Some s ↔
     api.Selected resource.1 = Some s ∧
     ((∃ a, a ∈ api.en_Available (FilterCountry resource country).1 ∧
         peer_key (api.ae_ProfileID a) (api.ae_NodeID a) = peer_key (api.se_ProfileID s) (api.se_NodeID s)) ∨
      locationMatchesCountry (api.se_Location s) (TrimSpace country) = true)).
Proof.
  intros Hc. unfold FilterCountry. rewrite (proj2 (String.eqb_neq _ _) Hc). cbn -[locationMatchesCountry]. split_and!; [done| |].
  - intros a. rewrite list_elem_of_In, filter_In, <- list_elem_of_In. tauto.
  - intros s. destruct (api.Selected resource.1) as [s0|]; [|naive_solver]. set (offered := List.filter _ _).
    assert (peer_key (api.se_ProfileID s0) (api.se_NodeID s0) ∈ (list_to_set ((λ a, peer_key (api.ae_ProfileID a) (api.ae_NodeID a)) <$> offered) : gset string) ↔
      ∃ a, a ∈ offered ∧ peer_key (api.ae_ProfileID a) (api.ae_NodeID a) = peer_key (api.se_ProfileID s0) (api.se_NodeID s0)) as Hk.
    { rewrite elem_of_list_to_set, list_elem_of_fmap. naive_solver. }
    destruct (bool_decide _ || _) eqn:E; [apply orb_true_iff in E|apply orb_false_iff in E]; rewrite ?bool_decide_eq_true, ?bool_decide_eq_false in E.
    + split; [intros [= ->]|naive_solver]. split; [done|]. rewrite <- Hk. exact E.
    + split; [done|]. intros [[= ->] [Hl|Hl]]; [|destruct E as [_ E]; congruence]. rewrite <- Hk in Hl. by destruct E.
Qed.

(** ** A concrete resource *)

Definition test_location (country code city citycode : string) (prio : Z) : option api.ExitNodeLocation :=
  Some (api.MkExitNodeLocation country code city citycode prio).
Definition test_exits : api.ExitNodes :=
  api.MkExitNodes (Some (api.MkSelectedExitNode "p1" "work" "n2" "b.ts.net." AddrInvalid true None "installed" ""))
    [api.MkAvailableExitNode "p1" "work" "n1" "a.ts.net." [] true (test_location "Sweden" "SE" "Malmo" "MMA" 10);
     api.MkAvailableExitNode "p1" "work" "n2" "b.ts.net." [] true (test_location "Sweden" "SE" "Malmo" "MMA" 5);
     api.MkAvailableExitNode "p1" "work" "n3" "c.ts.net." [] true (test_location "Sweden" "SE" "Malmo" "MMA" 7);
     api.MkAvailableExitNode "p1" "work" "n4" "d.ts.net." [] true (test_location "Sweden" "SE" "Stockholm" "STO" 20);
     api.MkAvailableExitNode "p1" "work" "n5" "home." [] true None].
Definition row (i : Item) : string * string * bool := (n_NodeID (it_Node i), it_City i, it_Any i).
Example test_rows : row <$> Items test_exits "" =
  [("n5", "", false); ("n4", "Any", true); ("n1", "Malmo", false); ("n2", "Malmo", false); ("n4", "Stockholm", false)].
Proof. vm_compute. reflexivity. Qed.
Definition test_home : Node := available_node (api.MkAvailableExitNode "p1" "work" "n5" "home." [] true None).
Lemma test_home_visible : test_home ∈ visible test_exits "".
Proof. apply list_elem_of_lookup. exists 4%nat. vm_compute. reflexivity. Qed.
Lemma Items_sound_witness : it_Node <$> Items test_exits " sweden " ≡ₚ visible test_exits " sweden " ∧
  length (visible test_exits " sweden ") = 4%nat ∧
  (∃ i, i ∈ Items test_exits "" ∧ it_Any i = false ∧ it_Node i = test_home) ∧ NoDup (node_Key <$> (it_Node <$> any_rows (Items test_exits ""))).
Proof.
  destruct (Items_sound test_exits " sweden ") as (_ & Hall & _). destruct (Items_sound test_exits "") as (_ & _ & Hown & _ & _ & _ & _ & _ & _ & Hany).
  split; [apply Hall; vm_compute; discriminate|]. split; [vm_compute; reflexivity|]. split; [|exact Hany].
  apply Hown; [exact test_home_visible|vm_compute; reflexivity].
Defined.

(** A peer without a location shares a group with located peers whose country
    has no code, and is collapsed with them when one of those comes first. *)
Definition codeless_exits : api.ExitNodes :=
  api.MkExitNodes None
    [api.MkAvailableExitNode "p1" "work" "n1" "a.ts.net." [] true (test_location "Sweden" "" "Malmo" "" 10);
     api.MkAvailableExitNode "p1" "work" "n5" "home." [] true None].
Example codeless_collapses : row <$> Items codeless_exits "" = [("n1", "Malmo", false)].
Proof. vm_compute. reflexivity. Qed.
