(* ===== verification/DNSForwarder.v ===== *)
(** * The forwarder of a profile's DNS

    dns/forwarder.go: a loopback endpoint that answers classic DNS queries
    through a profile; its shutdown is in DNSForwarderLife.v.  Messages are read and written by
    golang.org/x/net/dns/dnsmessage, which is an interface here, with its
    documented behaviour as laws; connections, the HTTP client and the profile's
    resolver are parameters.  A connection is what comes back for all that was
    written to it, [None] an error or a deadline. *)

From S2P Require Import Prelude GoStrings Netip NetipText Types SocksRouter.
Local Open Scope Z_scope.

Definition bytes : Type := list Z.

(** ** Messages *)

Record Header : Type := MkHeader {
  h_ID : Z; h_Response : bool; h_OpCode : Z; h_Authoritative : bool; h_Truncated : bool; h_RecursionDesired : bool;
  h_RecursionAvailable : bool; h_AuthenticData : bool; h_CheckingDisabled : bool; h_RCode : Z }.
Record Question : Type := MkQuestion { q_Name : string; q_Type : Z; q_Class : Z }.
Record Message {Sections : Type} : Type := MkMessage { m_Header : Header; m_Questions : list Question; m_Sections : Sections }.
Arguments Message : clear implicits.
Arguments MkMessage {_}.
(** The answers, authorities and additionals are one opaque part. *)
Class DNSMessages (Sections : Type) : Type := {
  no_sections : Sections;
  Unpack : bytes → option (Message Sections);
  Pack : Message Sections → option bytes }.
Definition header_ok (h : Header) : Prop := 0 <= h_ID h < 2 ^ 16 ∧ 0 <= h_OpCode h < 16 ∧ 0 <= h_RCode h < 16.
Class DNSMessagesLaws (Sections : Type) `{DNSMessages Sections} : Prop := {
  Unpack_header b m : Unpack b = Some m → header_ok (m_Header m);
  Unpack_Pack h qs b : header_ok h → Pack (MkMessage h qs no_sections) = Some b → Unpack b = Some (MkMessage h qs no_sections);
  (* a header, a name of at most 255 bytes, a type and a class *)
  Pack_one_question h q b : Pack (MkMessage h [q] no_sections) = Some b → Z.of_nat (length b) <= 12 + 255 + 4 }.
Definition ClassINET : Z := 1.
Definition RCodeServerFailure : Z := 2.

(** [binary.BigEndian]. *)
Definition put_uint16 (n : Z) : bytes := [Z.shiftr n 8 mod 256; n mod 256].
Definition get_uint16 (b : bytes) : option (Z * bytes) :=
  match b with hi :: lo :: rest => Some (hi * 256 + lo, rest) | _ => None end.
(** A message on a stream: its length, truncated to 16 bits, and the message. *)
Definition write_frame (b : bytes) : bytes := put_uint16 (Z.of_nat (length b)) ++ b.
Definition read_frame (stream : bytes) : option (bytes * bytes) :=
  '(size, rest) ← get_uint16 stream;
  if (length rest <? Z.to_nat size)%nat then None else Some (take (Z.to_nat size) rest, drop (Z.to_nat size) rest).

Section forwarder.
Context {Sections : Type} `{DNSMessages Sections}.

Definition parseQuery (query : bytes) : option (Message Sections) :=
  msg ← Unpack query;
  if h_Response (m_Header msg) || negb (h_OpCode (m_Header msg) =? 0) then None
  else match m_Questions msg with
       | [q] => if q_Class q =? ClassINET then Some msg else None
       | _ => None
       end.
Definition failureResponse (query : bytes) : option bytes :=
  msg ← parseQuery query;
  let h := m_Header msg in
  Pack (MkMessage (MkHeader (h_ID h) true (h_OpCode h) false false (h_RecursionDesired h) true false (h_CheckingDisabled h)
                     RCodeServerFailure) (m_Questions msg) no_sections).
Definition validateResponse (query response : bytes) : bool :=
  match parseQuery query with
  | None => false
  | Some request =>
    if (65535 <? Z.of_nat (length response)) then false
    else match Unpack response with
    | None => false
    | Some reply =>
      if negb (h_Response (m_Header reply)) || negb (h_ID (m_Header reply) =? h_ID (m_Header request)) ||
         negb (h_OpCode (m_Header reply) =? h_OpCode (m_Header request)) then false
      else match m_Questions reply, m_Questions request with
           | [b], a :: _ => EqualFold (q_Name a) (q_Name b) && (q_Type a =? q_Type b) && (q_Class a =? q_Class b)
           | _, _ => false
           end
    end
  end.

(** ** Exchange *)

Definition conn : Type := bytes → option bytes.
Context (Dial : string → string → option conn).
(** The HTTP client: a POST of a DNS message, over connections dialled with the
    given function; the status code and the body. *)
Context (url_Parse : string → option string) (client_Do : (string → string → option conn) → string → bytes → option (Z * bytes)).
(** [queryer] of a profile: the effective configuration's answer. *)
Context (queryer : option (string → Z → option bytes)) (resolvers : list (option Resolver)).

Definition exchangeProfileDNS (QueryDNS : string → Z → option bytes) (query : bytes) : option bytes :=
  msg ← parseQuery query;
  match m_Questions msg with
  | [] => None
  | question :: _ =>
    response ← QueryDNS (q_Name question) (q_Type question);
    if (length response <? 2)%nat then None else Some (put_uint16 (h_ID (m_Header msg)) ++ drop 2 response)
  end.
Definition max_datagram : nat := Z.to_nat (64 * 1024).
Definition exchangeClassic (network : string) (resolver : Resolver) (query : bytes) : option bytes :=
  let address := match ParseAddr (res_Addr resolver) with Some ip => addrport_string ip 53 | None => res_Addr resolver end in
  c ← Dial network address;
  if String.eqb network "tcp" then
    if (65535 <? Z.of_nat (length query)) then None
    else reply ← c (write_frame query); '(response, _) ← read_frame reply; Some response
  else reply ← c query; Some (take max_datagram reply).
Fixpoint dial_first (network port : string) (ips : list Addr) : option conn :=
  match ips with
  | [] => None
  | ip :: ips => match Dial network (JoinHostPort (addr_string ip) port) with Some c => Some c | None => dial_first network port ips end
  end.
Definition bootstrap_dial (resolver : Resolver) (network address : string) : option conn :=
  match res_BootstrapResolution resolver with
  | [] => Dial network address
  | ips => '(_, port) ← SplitHostPort address; dial_first network port ips
  end.
Definition StatusOK : Z := 200.
Definition exchangeHTTP (resolver : Resolver) (query : bytes) : option bytes :=
  endpoint ← url_Parse (res_Addr resolver);
  '(status, body) ← client_Do (bootstrap_dial resolver) endpoint query;
  if negb (status =? StatusOK) then None else Some (take max_datagram body).
Definition is_http (addr : string) : bool := HasPrefix addr "http://" || HasPrefix addr "https://".
Definition exchange_with (network : string) (query : bytes) (resolver : option Resolver) : option bytes :=
  match resolver with
  | None => None
  | Some resolver =>
    if String.eqb (res_Addr resolver) "" then None
    else
      response ← (if is_http (res_Addr resolver) then exchangeHTTP resolver query else exchangeClassic network resolver query);
      if validateResponse query response then Some response else None
  end.
Fixpoint first_valid (network : string) (query : bytes) (l : list (option Resolver)) : option bytes :=
  match l with
  | [] => None
  | resolver :: l => match exchange_with network query resolver with Some response => Some response | None => first_valid network query l end
  end.
Definition exchange (network : string) (query : bytes) : option bytes :=
  _ ← parseQuery query;
  match queryer with
  | Some QueryDNS => response ← exchangeProfileDNS QueryDNS query; if validateResponse query response then Some response else None
  | None => first_valid network query resolvers
  end.
Definition answer (network : string) (query : bytes) : option bytes :=
  match parseQuery query with
  | None => None
  | Some _ => match exchange network query with Some response => Some response | None => failureResponse query end
  end.
(** A connection of the TCP server: queries until one has no answer. *)
Fixpoint serve_stream (fuel : nat) (stream : bytes) : bytes :=
  match fuel with
  | O => []
  | S fuel =>
    match read_frame stream with
    | None => []
    | Some (query, rest) =>
      match answer "tcp" query with
      | None => []
      | Some response => write_frame response ++ serve_stream fuel rest
      end
    end
  end.
End forwarder.

(** ** Frames *)

Lemma get_put_uint16 n rest : 0 <= n < 2 ^ 16 → get_uint16 (put_uint16 n ++ rest) = Some (n, rest).
Proof.
  intros Hn. cbn. do 2 f_equal. rewrite Z.shiftr_div_pow2 by lia. change (2 ^ 8) with 256.
  rewrite (Z.mod_small (n / 256)) by (split; [apply Z.div_pos; lia|apply Z.div_lt_upper_bound; lia]).
  rewrite Z.mul_comm. symmetry. apply Z.div_mod. lia.
Qed.
Lemma read_write_frame b rest : Z.of_nat (length b) <= 65535 → read_frame (write_frame b ++ rest) = Some (b, rest).
Proof.
  intros Hb. unfold read_frame, write_frame. rewrite <- (assoc_L (++)). rewrite get_put_uint16 by (change (2 ^ 16) with 65536; lia). cbn [mbind option_bind].
  rewrite Nat2Z.id. rewrite (proj2 (Nat.ltb_ge _ _)) by (rewrite length_app; lia). by rewrite take_app_length, drop_app_length.
Qed.
Lemma read_frame_length stream b rest : read_frame stream = Some (b, rest) → length stream = (2 + length b + length rest)%nat.
Proof.
  unfold read_frame. destruct stream as [|hi [|lo l]]; [done|done|]. cbn [get_uint16 mbind option_bind].
  destruct (length l <? _)%nat eqn:E; [done|]. apply Nat.ltb_ge in E. intros [= <- <-]. cbn [length]. rewrite length_take, length_drop. lia.
Qed.

Section facts.
Context {Sections : Type} `{DNSMessagesLaws Sections}.
Context (Dial : string → string → option conn) (url_Parse : string → option string).
Context (client_Do : (string → string → option conn) → string → bytes → option (Z * bytes)).
Context (queryer : option (string → Z → option bytes)) (resolvers : list (option Resolver)).
Local Notation answer := (answer Dial url_Parse client_Do queryer resolvers).
Local Notation exchange := (exchange Dial url_Parse client_Do queryer resolvers).
Local Notation serve_stream := (serve_stream Dial url_Parse client_Do queryer resolvers).

(** A reply to a query: the same identifier, operation and question. *)
Definition replies (query response : bytes) : Prop := ∃ (request reply : Message Sections) a b,
  parseQuery query = Some request ∧ Unpack response = Some reply ∧ h_Response (m_Header reply) = true ∧
  h_ID (m_Header reply) = h_ID (m_Header request) ∧ h_OpCode (m_Header reply) = h_OpCode (m_Header request) ∧
  m_Questions request = [a] ∧ m_Questions reply = [b] ∧
  EqualFold (q_Name a) (q_Name b) = true ∧ q_Type a = q_Type b ∧ q_Class a = q_Class b.

Lemma parseQuery_spec query (request : Message Sections) : parseQuery query = Some request →
  Unpack query = Some request ∧ h_Response (m_Header request) = false ∧ h_OpCode (m_Header request) = 0 ∧
  ∃ a, m_Questions request = [a] ∧ q_Class a = ClassINET.
Proof using.
  unfold parseQuery. destruct (Unpack query) as [msg|]; [|done]. cbn [mbind option_bind].
  destruct (h_Response (m_Header msg)) eqn:Er; [done|]. cbn [orb]. destruct (Z.eqb_spec (h_OpCode (m_Header msg)) 0) as [Ho|]; [|done].
  cbn [negb]. destruct (m_Questions msg) as [|a [|]] eqn:Eq; try done. destruct (Z.eqb_spec (q_Class a) ClassINET); [|done].
  intros [= <-]. split_and!; try done. by exists a.
Qed.
Local Ltac refused :=
  split; [done|]; intros [(req & rep & ? & ? & Hreq & Hrep & Hresp & Hid & Hop & Ha & Hb & _) _]; simplify_eq; congruence.
Lemma validateResponse_spec query response : validateResponse (Sections:=Sections) query response = true ↔
  replies query response ∧ Z.of_nat (length response) <= 65535.
Proof using.
  unfold validateResponse, replies. destruct (parseQuery query) as [request|] eqn:Ep; [|refused].
  pose proof (parseQuery_spec query request Ep) as (_ & _ & _ & a0 & Ha0 & _).
  destruct (65535 <? Z.of_nat (length response)) eqn:El; [apply Z.ltb_lt in El; split; [done|lia]|apply Z.ltb_ge in El].
  destruct (Unpack response) as [reply|] eqn:Eu; [|refused]. rewrite Ha0.
  destruct (h_Response (m_Header reply)) eqn:E1; cbn [negb orb]; [|refused].
  destruct (Z.eqb_spec (h_ID (m_Header reply)) (h_ID (m_Header request))); cbn [negb orb]; [|refused].
  destruct (Z.eqb_spec (h_OpCode (m_Header reply)) (h_OpCode (m_Header request))); cbn [negb orb]; [|refused].
  destruct (m_Questions reply) as [|b [|]] eqn:Eb; [refused| |refused].
  rewrite !andb_true_iff, !Z.eqb_eq. split.
  - intros [[He Ht] Hc]. split; [|done]. exists request, reply, a0, b. by split_and!.
  - intros [(req & rep & a & b' & Hreq & Hrep & _ & _ & _ & Ha & Hb & He & Ht & Hc) _]. simplify_eq. assert (a0 = a) as -> by congruence. assert (b = b') as -> by congruence. done.
Qed.

(** The failure says nothing but the question. *)
Definition server_failure (query response : bytes) : Prop := ∃ (request : Message Sections) h,
  parseQuery query = Some request ∧ Unpack response = Some (MkMessage h (m_Questions request) no_sections) ∧ h_RCode h = RCodeServerFailure ∧
  h_Authoritative h = false ∧ h_AuthenticData h = false ∧ h_Truncated h = false.
Lemma failureResponse_spec query response : failureResponse (Sections:=Sections) query = Some response →
  replies query response ∧ server_failure query response ∧ Z.of_nat (length response) <= 65535.
Proof using H0.
  unfold failureResponse. destruct (parseQuery query) as [request|] eqn:Ep; [|done]. cbn [mbind option_bind]. intros Hp.
  pose proof (parseQuery_spec query request Ep) as (Hu & _ & Ho & a & Ha & _). rewrite Ha in Hp.
  pose proof (Unpack_header query request Hu) as (Hid & Hop & _).
  assert (Unpack response = Some (MkMessage (MkHeader (h_ID (m_Header request)) true (h_OpCode (m_Header request)) false false
    (h_RecursionDesired (m_Header request)) true false (h_CheckingDisabled (m_Header request)) RCodeServerFailure) [a] no_sections)) as Hr.
  { apply Unpack_Pack; [|done]. split_and!; cbn; lia || done. }
  split; [|split].
  - eexists request, _, a, a. split_and!; try done. unfold EqualFold. apply String.eqb_refl.
  - eexists request, _. rewrite Ha. by split_and!.
  - apply Pack_one_question in Hp. lia.
Qed.

(** The first resolver of the list whose response is valid decides. *)
Lemma first_valid_spec network query l response :
  first_valid (Sections:=Sections) Dial url_Parse client_Do network query l = Some response ↔
  ∃ pre r post, l = pre ++ r :: post ∧ exchange_with (Sections:=Sections) Dial url_Parse client_Do network query r = Some response ∧
    Forall (λ r, exchange_with (Sections:=Sections) Dial url_Parse client_Do network query r = None) pre.
Proof using.
  induction l as [|r l IH]; cbn [first_valid]; [split; [done|]; intros ([]&?&?&?&?); done|].
  destruct (exchange_with _ _ _ _ _ r) as [resp|] eqn:Er.
  - split; [intros [= <-]; exists [], r, l; by split_and!|]. intros ([|r' pre] & r0 & post & [= <- ->] & He & Hpre); [congruence|].
    apply Forall_cons in Hpre as [Hpre _]. congruence.
  - rewrite IH. split; intros (pre & r0 & post & Hl & He & Hpre).
    + subst. exists (r :: pre), r0, post. by repeat constructor.
    + destruct pre as [|r' pre]; [injection Hl as -> ->; congruence|]. injection Hl as -> ->.
      apply Forall_cons in Hpre as [_ Hpre]. by exists pre, r0, post.
Qed.
Lemma exchange_with_valid network query r response :
  exchange_with (Sections:=Sections) Dial url_Parse client_Do network query r = Some response →
  validateResponse (Sections:=Sections) query response = true.
Proof using.
  unfold exchange_with. destruct r as [r|]; [|done]. destruct (String.eqb _ _); [done|].
  match goal with |- (?m ≫= _) = _ → _ => destruct m as [resp|]; [|done] end. cbn [mbind option_bind].
  destruct (validateResponse query resp) eqn:Ev; [|done]. by intros [= <-].
Qed.
Lemma exchange_valid network query response : exchange network query = Some response →
  validateResponse (Sections:=Sections) query response = true.
Proof using.
  unfold DNSForwarder.exchange. destruct (parseQuery query) as [request|]; [|done]. cbn [mbind option_bind]. destruct queryer as [QueryDNS|].
  - destruct (exchangeProfileDNS QueryDNS query) as [resp|]; [|done]. cbn [mbind option_bind].
    destruct (validateResponse query resp) eqn:Ev; [|done]. intros [= <-]. exact Ev.
  - intros (pre & r & post & _ & He & _)%first_valid_spec. by eapply exchange_with_valid.
Qed.
Lemma answer_bounded network query response : answer network query = Some response →
  replies query response ∧ Z.of_nat (length response) <= 65535.
Proof using H0.
  unfold DNSForwarder.answer. destruct (parseQuery query) as [request|] eqn:Ep; [|done].
  destruct (exchange network query) as [resp|] eqn:Ex.
  - intros [= <-]. apply validateResponse_spec. by eapply exchange_valid.
  - intros (Hr & _ & Hl)%failureResponse_spec. done.
Qed.

Lemma answer_first network query pre r post response : queryer = None → resolvers = pre ++ r :: post →
  exchange_with (Sections:=Sections) Dial url_Parse client_Do network query r = Some response →
  Forall (λ r, exchange_with (Sections:=Sections) Dial url_Parse client_Do network query r = None) pre → answer network query = Some response.
Proof using.
  intros Hq Hr He Hpre. pose proof (exchange_with_valid network query r response He) as Hv.
  apply validateResponse_spec in Hv as [(request & _ & _ & _ & Hp & _) _]. unfold DNSForwarder.answer, DNSForwarder.exchange.
  rewrite Hp, Hq. cbn [mbind option_bind]. assert (first_valid (Sections:=Sections) Dial url_Parse client_Do network query resolvers = Some response) as ->.
  { apply first_valid_spec. by exists pre, r, post. }
  done.
Qed.

(** With a profile that answers queries the resolvers are not asked. *)
Definition stamped (request : Message Sections) (response : bytes) : bytes := put_uint16 (h_ID (m_Header request)) ++ drop 2 response.
Definition usable (query : bytes) (request : Message Sections) (response : bytes) : Prop :=
  (2 <= length response)%nat ∧ replies query (stamped request response) ∧ Z.of_nat (length (stamped request response)) <= 65535.
Lemma answer_profile network query QueryDNS request q : queryer = Some QueryDNS → parseQuery query = Some request → m_Questions request = [q] →
  let response := QueryDNS (q_Name q) (q_Type q) in
  (∀ r, response = Some r → usable query request r → answer network query = Some (stamped request r)) ∧
  ((∀ r, response = Some r → ¬ usable query request r) → answer network query = failureResponse query).
Proof using.
  intros Hq Hp Hm response. assert (exchange network query = match response with
    | Some r => if (length r <? 2)%nat then None else if validateResponse query (stamped request r) then Some (stamped request r) else None
    | None => None end) as Hx.
  { unfold DNSForwarder.exchange, exchangeProfileDNS. rewrite Hq, Hp. cbn [mbind option_bind]. rewrite Hm. fold response.
    destruct response as [r|]; [|done]. cbn [mbind option_bind]. by destruct (length r <? 2)%nat. }
  unfold DNSForwarder.answer. rewrite Hp, Hx. split.
  - intros r -> (Hl & Hr & Hb). rewrite (proj2 (Nat.ltb_ge _ _)) by done. by rewrite (proj2 (validateResponse_spec _ _) (conj Hr Hb)).
  - intros Hn. destruct response as [r|]; [|done]. destruct (length r <? 2)%nat eqn:El; [done|]. apply Nat.ltb_ge in El.
    destruct (validateResponse query (stamped request r)) eqn:Ev; [|done]. apply validateResponse_spec in Ev as [Hr Hb]. by destruct (Hn r eq_refl).
Qed.

(** The answers to the queries of a connection, up to the first without one. *)
Fixpoint answers (queries : list bytes) : list bytes :=
  match queries with
  | [] => []
  | query :: queries => match answer "tcp" query with Some response => response :: answers queries | None => [] end
  end.
Definition frames (l : list bytes) : bytes := l ≫= write_frame.
Fixpoint read_frames (fuel : nat) (stream : bytes) : list bytes :=
  match fuel with
  | O => []
  | S fuel => match read_frame stream with Some (b, rest) => b :: read_frames fuel rest | None => [] end
  end.
Lemma write_frame_length b : length (write_frame b) = S (S (length b)).
Proof using. done. Qed.
Lemma read_frames_frames l fuel : Forall (λ b, Z.of_nat (length b) <= 65535) l → (length (frames l) < fuel)%nat → read_frames fuel (frames l) = l.
Proof using.
  intros Hl. revert fuel. induction Hl as [|b l Hb _ IH]; intros [|fuel] Hf; try (cbn in *; lia); [done|]. cbn [frames mbind list_bind] in *.
  cbn [read_frames]. rewrite read_write_frame by done. f_equal. apply IH. rewrite length_app, write_frame_length in Hf. unfold frames. lia.
Qed.
Lemma answers_bounded queries : Forall (λ b, Z.of_nat (length b) <= 65535) (answers queries).
Proof using H0.
  induction queries as [|q queries IH]; cbn [answers]; [constructor|]. destruct (answer "tcp" q) as [r|] eqn:E; [|constructor].
  constructor; [|done]. by apply answer_bounded in E as [_ E].
Qed.
Lemma serve_stream_answers queries fuel : Forall (λ b, Z.of_nat (length b) <= 65535) queries → (length (frames queries) < fuel)%nat →
  serve_stream fuel (frames queries) = frames (answers queries).
Proof using.
  intros Hl. revert fuel. induction Hl as [|q queries Hq _ IH]; intros [|fuel] Hf; try (cbn in *; lia); [done|]. cbn [frames mbind list_bind] in *.
  cbn [DNSForwarder.serve_stream]. rewrite read_write_frame by done. cbn [answers]. destruct (answer "tcp" q) as [r|]; [|done].
  change (frames (r :: answers queries)) with (write_frame r ++ frames (answers queries)). f_equal. apply IH.
  rewrite length_app, write_frame_length in Hf. unfold frames. lia.
Qed.
End facts.

(** A toy format that meets the laws. *)
Definition toy_header (h : Header) : list Z :=
  put_uint16 (h_ID h) ++ [Z.b2z (h_Response h); h_OpCode h; Z.b2z (h_Authoritative h); Z.b2z (h_Truncated h); Z.b2z (h_RecursionDesired h);
    Z.b2z (h_RecursionAvailable h); Z.b2z (h_AuthenticData h); Z.b2z (h_CheckingDisabled h); h_RCode h].
Definition toy_pack (m : Message unit) : option bytes :=
  match m_Questions m with
  | [q] => if (String.length (q_Name q) <=? 200)%nat
           then Some (toy_header (m_Header m) ++ q_Type q :: q_Class q :: map (Z.of_nat ∘ Ascii.nat_of_ascii) (String.list_ascii_of_string (q_Name q)))
           else None
  | _ => None
  end.
Definition toy_unpack (b : bytes) : option (Message unit) :=
  '(id, b) ← get_uint16 b;
  match b with
  | r :: op :: aa :: tc :: rd :: ra :: ad :: cd :: rc :: ty :: cl :: name =>
    if (0 <=? id) && (id <? 65536) && (0 <=? op) && (op <? 16) && (0 <=? rc) && (rc <? 16)
    then Some (MkMessage (MkHeader id (r =? 1) op (aa =? 1) (tc =? 1) (rd =? 1) (ra =? 1) (ad =? 1) (cd =? 1) rc)
           [MkQuestion (String.string_of_list_ascii (map (Ascii.ascii_of_nat ∘ Z.to_nat) name)) ty cl] tt)
    else None
  | _ => None
  end.
#[local] Instance toy_messages : DNSMessages unit := {| no_sections := tt; Unpack := toy_unpack; Pack := toy_pack |}.
Lemma toy_header_ok h : header_ok h →
  ((0 <=? h_ID h) && (h_ID h <? 65536) && (0 <=? h_OpCode h) && (h_OpCode h <? 16) && (0 <=? h_RCode h) && (h_RCode h <? 16)) = true.
Proof. intros ([? ?] & [? ?] & [? ?]). change (2 ^ 16) with 65536 in *. rewrite !andb_true_iff, !Z.leb_le, !Z.ltb_lt. lia. Qed.
Lemma toy_unpack_pack h q : header_ok h →
  toy_unpack (toy_header h ++ q_Type q :: q_Class q :: map (Z.of_nat ∘ Ascii.nat_of_ascii) (String.list_ascii_of_string (q_Name q))) = Some (MkMessage h [q] tt).
Proof.
  intros Hh. unfold toy_unpack, toy_header. rewrite <- app_assoc, get_put_uint16 by apply Hh. cbn [mbind option_bind app].
  rewrite toy_header_ok by done. do 2 f_equal.
  - destruct h as [? [] ? [] [] [] [] [] [] ?]; done.
  - f_equal. destruct q as [n ty cl]. cbn [q_Name q_Type q_Class]. f_equal. rewrite map_map, (map_ext _ id), map_id, String.string_of_list_ascii_of_string; [done|].
    intros c. cbn. by rewrite Nat2Z.id, Ascii.ascii_nat_embedding.
Qed.
#[local] Instance toy_laws : DNSMessagesLaws unit.
Proof.
  constructor.
  - intros b m. cbn. unfold toy_unpack. destruct (get_uint16 b) as [[id l]|]; [|done]. cbn [mbind option_bind].
    do 11 (destruct l as [|? l]; [done|]).
    match goal with |- (if ?c then _ else _) = _ → _ => destruct c eqn:E; [|done] end. intros [= <-].
    rewrite !andb_true_iff, !Z.leb_le, !Z.ltb_lt in E. unfold header_ok. cbn. change (2 ^ 16) with 65536. lia.
  - intros h qs b Hh. cbn. unfold toy_pack. cbn [m_Questions m_Header]. destruct qs as [|q [|]]; [done| |done]. destruct (_ <=? _)%nat; [|done]. intros [= <-].
    apply toy_unpack_pack. done.
  - intros h q b. cbn. unfold toy_pack. cbn [m_Questions m_Header]. destruct (_ <=? _)%nat eqn:E; [|done]. apply Nat.leb_le in E. intros [= <-].
    cbn [length]. rewrite length_map.
    assert (∀ s, length (String.list_ascii_of_string s) = String.length s) as Hl by (induction s; cbn; congruence). rewrite Hl. lia.
Qed.
(** One resolver forges identifiers, one answers, one cannot be dialled. *)
Definition toy_query (id : Z) (op : Z) : bytes :=
  put_uint16 id ++ [0; op; 0; 0; 1; 0; 0; 0; 0; 1; ClassINET] ++ map (Z.of_nat ∘ Ascii.nat_of_ascii) (String.list_ascii_of_string "host.example.").
Definition toy_reply (forge : bool) (query : bytes) : bytes :=
  match query with hi :: lo :: _ :: l => hi :: (if forge then lo + 1 else lo) :: 1 :: l | _ => [] end.
Definition toy_dial (network address : string) : option conn :=
  if String.eqb address "10.0.0.1:53" then Some (λ q, if String.eqb network "tcp" then '(q, _) ← read_frame q; Some (write_frame (toy_reply true q)) else Some (toy_reply true q))
  else if String.eqb address "10.0.0.2:53" then Some (λ q, if String.eqb network "tcp" then '(q, _) ← read_frame q; Some (write_frame (toy_reply false q)) else Some (toy_reply false q))
  else None.
Definition toy_resolvers : list (option Resolver) :=
  [None; Some (MkResolver "10.0.0.1" [] false); Some (MkResolver "10.0.0.9" [] false)].
Definition toy_resolver : option Resolver := Some (MkResolver "10.0.0.2" [] false).
Definition toy_answer := answer (Sections:=unit) toy_dial (λ _, None) (λ _ _ _, None) None.

(** C23. What a client of the forwarder gets.  A message that is not a plain query
    with one question of class IN has no answer.  Every answer is a response to
    the query: the same identifier, operation and question, so a resolver can
    neither answer another question nor forge an identifier, and at most 65535
    bytes, so that its length fits the two bytes in front of it on a stream: a
    client that sends queries in frames reads back exactly the answers, up to the
    first query without one.  A forwarder of a profile that answers queries gives
    the profile's response, with the identifier of the query, whenever that is a
    reply to the query, and a server failure otherwise: the resolvers are never
    asked.  Without such a profile the first resolver with a valid response
    decides.  When there is no valid response, the answer is a server failure that
    carries the question and nothing else. *)
Theorem answer_sound {Sections : Type} `{DNSMessagesLaws Sections} Dial url_Parse client_Do queryer resolvers network query :
  let answer := answer (Sections:=Sections) Dial url_Parse client_Do queryer resolvers in
  (parseQuery (Sections:=Sections) query = None → answer network query = None) ∧
  (∀ response, answer network query = Some response →
     replies (Sections:=Sections) query response ∧ Z.of_nat (length response) <= 65535) ∧
  (∀ QueryDNS request q, queryer = Some QueryDNS → parseQuery (Sections:=Sections) query = Some request → m_Questions request = [q] →
     let response := QueryDNS (q_Name q) (q_Type q) in
     (∀ r, response = Some r → usable (Sections:=Sections) query request r → answer network query = Some (stamped request r)) ∧
     ((∀ r, response = Some r → ¬ usable (Sections:=Sections) query request r) →
        answer network query = failureResponse (Sections:=Sections) query)) ∧
  (∀ pre r post response, queryer = None → resolvers = pre ++ r :: post →
     exchange_with (Sections:=Sections) Dial url_Parse client_Do network query r = Some response →
     Forall (λ r, exchange_with (Sections:=Sections) Dial url_Parse client_Do network query r = None) pre → answer network query = Some response) ∧
  (∀ response, exchange (Sections:=Sections) Dial url_Parse client_Do queryer resolvers network query = None →
     answer network query = Some response → server_failure (Sections:=Sections) query response) ∧
  (∀ queries, Forall (λ b, Z.of_nat (length b) <= 65535) queries →
     let stream := serve_stream (Sections:=Sections) Dial url_Parse client_Do queryer resolvers (S (length (frames queries))) (frames queries) in
     read_frames (S (length stream)) stream = answers (Sections:=Sections) Dial url_Parse client_Do queryer resolvers queries).
Proof.
  cbv zeta. split_and!.
  - intros Hp. unfold answer. by rewrite Hp.
  - intros response. apply answer_bounded.
  - intros QueryDNS request q. apply answer_profile.
  - intros pre r post response. apply answer_first.
  - intros response Hx. unfold answer. rewrite Hx. destruct (parseQuery query); [|done]. intros (_ & Hf & _)%failureResponse_spec. exact Hf.
  - intros queries Hq. rewrite serve_stream_answers by (done || lia). apply read_frames_frames; [apply answers_bounded|lia].
Qed.

Lemma toy_fails : Forall (λ r, exchange_with (Sections:=unit) toy_dial (λ _, None) (λ _ _ _, None) "udp" (toy_query 4660 0) r = None) toy_resolvers.
Proof. repeat (apply Forall_cons; split; [vm_compute; reflexivity|]). apply Forall_nil. done. Qed.
(** A profile that answers, and one that does not; the resolver would. *)
Definition toy_profile (name : string) (type : Z) : option bytes := if String.eqb name "host.example." then Some (toy_reply false (toy_query 0 0)) else None.
Definition toy_request (id : Z) : Message unit :=
  MkMessage (MkHeader id false 0 false false true false false false 0) [MkQuestion "host.example." 1 ClassINET] tt.
Lemma toy_usable : usable (Sections:=unit) (toy_query 4660 0) (toy_request 4660) (toy_reply false (toy_query 0 0)).
Proof.
  split; [cbn; lia|]. apply validateResponse_spec. vm_compute. reflexivity.
Qed.
Lemma answer_sound_witness :
  answer (Sections:=unit) toy_dial (λ _, None) (λ _ _ _, None) (Some toy_profile) [toy_resolver] "udp" (toy_query 4660 0) =
    Some (toy_reply false (toy_query 4660 0)) ∧
  answer (Sections:=unit) toy_dial (λ _, None) (λ _ _ _, None) (Some (λ _ _, None)) [toy_resolver] "udp" (toy_query 4660 0) =
    failureResponse (Sections:=unit) (toy_query 4660 0) ∧
  toy_answer [] "udp" (toy_query 4660 2) = None ∧
  toy_answer (toy_resolvers ++ [toy_resolver]) "udp" (toy_query 4660 0) = Some (toy_reply false (toy_query 4660 0)) ∧
  (∃ response, toy_answer toy_resolvers "udp" (toy_query 4660 0) = Some response ∧
     server_failure (Sections:=unit) (toy_query 4660 0) response ∧ replies (Sections:=unit) (toy_query 4660 0) response) ∧
  let queries := [toy_query 1 0; toy_query 2 0; toy_query 3 2; toy_query 4 0] in
  let stream := serve_stream (Sections:=unit) toy_dial (λ _, None) (λ _ _ _, None) None [toy_resolver] (S (length (frames queries))) (frames queries) in
  read_frames (S (length stream)) stream = answers (Sections:=unit) toy_dial (λ _, None) (λ _ _ _, None) None [toy_resolver] queries ∧
  answers (Sections:=unit) toy_dial (λ _, None) (λ _ _ _, None) None [toy_resolver] queries = [toy_reply false (toy_query 1 0); toy_reply false (toy_query 2 0)].
Proof.
  cbv zeta. split_and!.
  - destruct (answer_sound toy_dial (λ _, None) (λ _ _ _, None) (Some toy_profile) [toy_resolver] "udp" (toy_query 4660 0)) as (_ & _ & Hp & _).
    destruct (Hp toy_profile (toy_request 4660) (MkQuestion "host.example." 1 ClassINET)) as [Hr _]; [reflexivity|vm_compute; reflexivity|reflexivity|].
    exact (Hr (toy_reply false (toy_query 0 0)) eq_refl toy_usable).
  - destruct (answer_sound toy_dial (λ _, None) (λ _ _ _, None) (Some (λ _ _, None)) [toy_resolver] "udp" (toy_query 4660 0)) as (_ & _ & Hp & _).
    destruct (Hp (λ _ _, None) (toy_request 4660) (MkQuestion "host.example." 1 ClassINET)) as [_ Hn]; [reflexivity|vm_compute; reflexivity|reflexivity|].
    apply Hn. discriminate.
  - apply (answer_sound toy_dial (λ _, None) (λ _ _ _, None) None [] "udp" (toy_query 4660 2)). vm_compute. reflexivity.
  - apply (answer_sound toy_dial (λ _, None) (λ _ _ _, None) None (toy_resolvers ++ [toy_resolver]) "udp" (toy_query 4660 0)) with (pre := toy_resolvers) (r := toy_resolver) (post := []);
      [reflexivity|reflexivity|vm_compute; reflexivity|exact toy_fails].
  - destruct (answer_sound toy_dial (λ _, None) (λ _ _ _, None) None toy_resolvers "udp" (toy_query 4660 0)) as (_ & Hb & _ & _ & Hf & _).
    eexists. split; [vm_compute; reflexivity|]. split; [apply Hf; vm_compute; reflexivity|apply Hb; vm_compute; reflexivity].
  - destruct (answer_sound toy_dial (λ _, None) (λ _ _ _, None) None [toy_resolver] "tcp" []) as (_ & _ & _ & _ & _ & Hs). apply Hs.
    repeat (apply Forall_cons; split; [vm_compute; discriminate|]). by apply Forall_nil.
  - vm_compute. reflexivity.
Defined.
