(* ===== verification/DNSForwarderLife.v ===== *)
(** * The life of a DNS forwarder

    dns/forwarder.go: the sockets, goroutines and locks of a [Forwarder], how it
    retires, stops and bounds the work it has handed to a resolver that cannot be
    cancelled, as a transition system over every interleaving; and the choice of
    its port.  Critical sections of [mu] are one step, but for those of [Retire]
    and [stop], which work on one socket after the other while they hold it.  A
    deadline that passes is a step that is always there. *)

From S2P Require Import Prelude.

(** ** The port *)

Definition forwarderListenAttempts : nat := 10.
Inductive listen_error : Type := ECtx | EListenUDP | EListenTCP | EAddrInUse.
Inductive tcp_listen : Type := TcpOpen | TcpInUse | TcpFails.
(** By attempt: the context, the port of the UDP socket, and the TCP socket of
    that port.  To the port with open sockets or the error, with the UDP sockets
    that were closed again. *)
Section listen.
Context (ctx_Err : nat → bool) (listenUDP : nat → option nat) (listenTCP : nat → nat → tcp_listen).
Fixpoint listen_from (attempts k : nat) (closed : list nat) : result listen_error nat * list nat :=
  match attempts with
  | O => (Err EAddrInUse, closed)
  | S attempts =>
    if ctx_Err k then (Err ECtx, closed)
    else match listenUDP k with
    | None => (Err EListenUDP, closed)
    | Some port =>
      match listenTCP k port with
      | TcpOpen => (Ok port, closed)
      | TcpInUse => listen_from attempts (S k) (closed ++ [port])
      | TcpFails => (Err EListenTCP, closed ++ [port])
      end
    end
  end.
Definition listenForwarder : result listen_error nat * list nat := listen_from forwarderListenAttempts 0 [].

(** Attempt [k] found its port taken by another TCP socket. *)
Definition in_use (k port : nat) : Prop := ctx_Err k = false ∧ listenUDP k = Some port ∧ listenTCP k port = TcpInUse.
(** The result [r] of attempts [0 .. n-1] with the sockets [closed]: on success
    one attempt's UDP socket is open, the ones before it are closed. *)
Definition listened (n : nat) (r : result listen_error nat) (closed : list nat) : Prop :=
  let k := length closed in
  match r with
  | Ok port => k < n ∧ ctx_Err k = false ∧ listenUDP k = Some port ∧ listenTCP k port = TcpOpen ∧ (∀ j p, closed !! j = Some p → in_use j p)
  | Err ECtx => k < n ∧ ctx_Err k = true ∧ (∀ j p, closed !! j = Some p → in_use j p)
  | Err EListenUDP => k < n ∧ listenUDP k = None ∧ (∀ j p, closed !! j = Some p → in_use j p)
  | Err EListenTCP => ∃ before port, closed = before ++ [port] ∧ k ≤ n ∧ listenUDP (length before) = Some port ∧
      listenTCP (length before) port = TcpFails ∧ (∀ j p, before !! j = Some p → in_use j p)
  | Err EAddrInUse => k = n ∧ (∀ j p, closed !! j = Some p → in_use j p)
  end.
Lemma in_use_snoc closed port : (∀ j p, closed !! j = Some p → in_use j p) → in_use (length closed) port →
  ∀ j p, (closed ++ [port]) !! j = Some p → in_use j p.
Proof.
  intros Hall Hp j p Hj. apply lookup_app_Some in Hj as [Hj|[Hge Hj]]; [by apply Hall|].
  apply list_lookup_singleton_Some in Hj as [Hj <-]. by replace j with (length closed) by lia.
Qed.
Lemma listen_from_sound attempts closed : (∀ j p, closed !! j = Some p → in_use j p) →
  let '(r, closed') := listen_from attempts (length closed) closed in listened (length closed + attempts) r closed'.
Proof.
  revert closed. induction attempts as [|n IH]; intros closed Hall; [cbn; split; [lia|done]|]. cbn [listen_from].
  destruct (ctx_Err (length closed)) eqn:Hctx; [cbn; split_and!; [lia|done|done]|].
  destruct (listenUDP (length closed)) as [port|] eqn:Hu; [|cbn; split_and!; [lia|done|done]].
  destruct (listenTCP (length closed) port) eqn:Ht; [cbn; split_and!; [lia|done..]| |].
  - specialize (IH (closed ++ [port]) (in_use_snoc _ _ Hall (conj Hctx (conj Hu Ht)))).
    rewrite length_app in IH. cbn [length] in IH. replace (length closed + 1) with (S (length closed)) in IH by lia.
    by replace (length closed + S n) with (S (length closed) + n) by lia.
  - exists closed, port. rewrite length_app. cbn [length]. split_and!; [done|lia|done|done|done].
Qed.
End listen.

(** ** Goroutines *)

(** Where [answer] is: before its exchange, waiting for a slot, waiting for the
    query that has one. *)
Inductive answer_pc : Type := ABegin | ASlot | ADone.
Inductive thread : Type :=
  | UdpRead | UdpGot | UdpAnswer (a : answer_pc) | UdpWrite
  | TcpAccept | TcpGot (c : nat)
  | ConnTop (c : nat) | ConnRead (c : nat) | ConnAnswer (c : nat) (a : answer_pc) | ConnWrite (c : nat)
  | ConnClose (c : nat) | ConnDelete (c : nat)
  | Gone.
#[export] Instance answer_pc_eq_dec : EqDecision answer_pc.
Proof. solve_decision. Defined.
#[export] Instance thread_eq_dec : EqDecision thread.
Proof. solve_decision. Defined.
(** What [Retire] and [stop] set the deadline of, or close. *)
Inductive socket : Type := SUdp | STcp | SConn (c : nat).
#[export] Instance socket_eq_dec : EqDecision socket.
Proof. solve_decision. Defined.

(** [holder]: who holds [mu] over several steps, and the sockets it has left.
    [expired]: the sockets reads of which fail.  [slots]: the goroutines of
    queries that cannot be cancelled.  [accepted]: the queries taken so far. *)
Record fwd : Type := MkFwd {
  retired : bool; stopped : bool; holder : option (list socket); expired : list socket; conns : list nat;
  fresh : nat; threads : list thread; slots : nat; accepted : nat; done : bool }.
Definition querySlots : nat := 16.
Definition startForwarder : fwd := MkFwd false false None [] [] 0 [UdpRead; TcpAccept] 0 0 false.

Definition set_thread (i : nat) (t : thread) (s : fwd) : fwd :=
  MkFwd (retired s) (stopped s) (holder s) (expired s) (conns s) (fresh s) (<[i := t]> (threads s)) (slots s) (accepted s) (done s).
Definition spawn (t : thread) (s : fwd) : fwd :=
  MkFwd (retired s) (stopped s) (holder s) (expired s) (conns s) (fresh s) (threads s ++ [t]) (slots s) (accepted s) (done s).
Definition set_conns (x : list nat) (s : fwd) : fwd :=
  MkFwd (retired s) (stopped s) (holder s) (expired s) x (fresh s) (threads s) (slots s) (accepted s) (done s).
Definition set_expired (x : list socket) (s : fwd) : fwd :=
  MkFwd (retired s) (stopped s) (holder s) x (conns s) (fresh s) (threads s) (slots s) (accepted s) (done s).
Definition set_slots (n : nat) (s : fwd) : fwd :=
  MkFwd (retired s) (stopped s) (holder s) (expired s) (conns s) (fresh s) (threads s) n (accepted s) (done s).
Definition set_holder (x : option (list socket)) (s : fwd) : fwd :=
  MkFwd (retired s) (stopped s) x (expired s) (conns s) (fresh s) (threads s) (slots s) (accepted s) (done s).
Definition take_conn (s : fwd) : fwd :=
  MkFwd (retired s) (stopped s) (holder s) (expired s) (conns s) (S (fresh s)) (threads s) (slots s) (accepted s) (done s).
Definition accept_query (s : fwd) : fwd :=
  MkFwd (retired s) (stopped s) (holder s) (expired s) (conns s) (fresh s) (threads s) (slots s) (S (accepted s)) (done s).
(** [Retire] and [stop] hold [mu] from here on. *)
Definition set_retired (stop : bool) (order : list socket) (s : fwd) : fwd :=
  MkFwd true (stop || stopped s) (Some order) (expired s) (conns s) (fresh s) (threads s) (slots s) (accepted s) (done s).
(** [wg.Wait], the last [stop] and the end of [Close]. *)
Definition finished (s : fwd) : fwd :=
  MkFwd true true (holder s) (SUdp :: STcp :: expired s) (conns s) (fresh s) (threads s) (slots s) (accepted s) true.

(** A step of [answer]: on with it, or back with an answer or none. *)
Inductive answer_step (legacy : bool) (s : fwd) : answer_pc → fwd → option answer_pc → bool → Prop :=
  | answer_now answered : answer_step legacy s ABegin s None answered
  | answer_queue : legacy = true → answer_step legacy s ABegin s (Some ASlot) true
  | answer_slot : slots s < querySlots → answer_step legacy s ASlot (set_slots (S (slots s)) s) (Some ADone) true
  | answer_no_slot answered : answer_step legacy s ASlot s None answered
  | answer_result answered : answer_step legacy s ADone s None answered.

Definition goes (legacy : bool) (s : fwd) (i : nat) (a : answer_pc) (on : answer_pc → thread) (reply none : thread) (s' : fwd) : Prop :=
  ∃ s1 next answered, answer_step legacy s a s1 next answered ∧
    s' = set_thread i (match next with Some a' => on a' | None => if answered then reply else none end) s1.
(** Steps of goroutine [i]. *)
Inductive thread_step (legacy : bool) (s : fwd) (i : nat) : thread → fwd → Prop :=
  | udp_read : SUdp ∉ expired s → thread_step legacy s i UdpRead (set_thread i UdpGot s)
  | udp_error : thread_step legacy s i UdpRead (set_thread i Gone s)
  | udp_retired : holder s = None → retired s = true → thread_step legacy s i UdpGot (set_thread i Gone s)
  | udp_query : holder s = None → retired s = false →
      thread_step legacy s i UdpGot (accept_query (spawn (UdpAnswer ABegin) (set_thread i UdpRead s)))
  | udp_answer a s' : goes legacy s i a UdpAnswer UdpWrite Gone s' → thread_step legacy s i (UdpAnswer a) s'
  | udp_write : thread_step legacy s i UdpWrite (set_thread i Gone s)
  | tcp_accept : STcp ∉ expired s → thread_step legacy s i TcpAccept (take_conn (set_thread i (TcpGot (fresh s)) s))
  | tcp_error : thread_step legacy s i TcpAccept (set_thread i Gone s)
  | tcp_retired c : holder s = None → retired s = true → thread_step legacy s i (TcpGot c) (set_thread i Gone s)
  | tcp_conn c : holder s = None → retired s = false →
      thread_step legacy s i (TcpGot c) (spawn (ConnTop c) (set_conns (c :: conns s) (set_thread i TcpAccept s)))
  | conn_retired c : holder s = None → retired s = true → thread_step legacy s i (ConnTop c) (set_thread i (ConnClose c) s)
  | conn_deadline c : holder s = None → retired s = false → thread_step legacy s i (ConnTop c) (set_thread i (ConnRead c) s)
  | conn_read c : SConn c ∉ expired s → thread_step legacy s i (ConnRead c) (accept_query (set_thread i (ConnAnswer c ABegin) s))
  | conn_read_error c : thread_step legacy s i (ConnRead c) (set_thread i (ConnClose c) s)
  | conn_answer c a s' : goes legacy s i a (ConnAnswer c) (ConnWrite c) (ConnClose c) s' → thread_step legacy s i (ConnAnswer c a) s'
  | conn_write c : thread_step legacy s i (ConnWrite c) (set_thread i (ConnTop c) s)
  | conn_write_error c : thread_step legacy s i (ConnWrite c) (set_thread i (ConnClose c) s)
  | conn_close c : thread_step legacy s i (ConnClose c) (set_thread i (ConnDelete c) s)
  | conn_delete c : holder s = None → thread_step legacy s i (ConnDelete c) (set_thread i Gone (set_conns (filter (λ x, x ≠ c) (conns s)) s)).

(** Steps without anyone asking for something new. *)
Inductive internal (legacy : bool) (s : fwd) : fwd → Prop :=
  | int_thread i t s' : threads s !! i = Some t → thread_step legacy s i t s' → internal legacy s s'
  | int_sweep x l : holder s = Some (x :: l) → internal legacy s (set_holder (Some l) (set_expired (x :: expired s) s))
  | int_release : holder s = Some [] → internal legacy s (set_holder None s)
  | int_finish : done s = false → holder s = None → Forall (λ t, t = Gone) (threads s) → internal legacy s (finished s).
Inductive step (legacy : bool) (s : fwd) : fwd → Prop :=
  | step_internal s' : internal legacy s s' → step legacy s s'
  | step_Retire order : holder s = None → retired s = false → order ≡ₚ SConn <$> conns s → step legacy s (set_retired false (SUdp :: STcp :: order) s)
  | step_stop order : holder s = None → stopped s = false → order ≡ₚ SConn <$> conns s → step legacy s (set_retired true (SUdp :: STcp :: order) s)
  (** a query that cannot be cancelled comes back and leaves its slot *)
  | step_slot : 0 < slots s → step legacy s (set_slots (pred (slots s)) s).
Inductive steps (legacy : bool) (s : fwd) : fwd → Prop :=
  | steps_refl : steps legacy s s
  | steps_trans s1 s2 : steps legacy s s1 → step legacy s1 s2 → steps legacy s s2.

(** ** Invariant *)

Definition id_of (t : thread) : option nat :=
  match t with
  | TcpGot c | ConnTop c | ConnRead c | ConnAnswer c _ | ConnWrite c | ConnClose c | ConnDelete c => Some c
  | _ => None
  end.
Definition conn_of (t : thread) : option nat := match t with TcpGot _ => None | _ => id_of t end.
Record inv (s : fwd) : Prop := {
  inv_slots : slots s <= querySlots;
  inv_fresh i t c : threads s !! i = Some t → id_of t = Some c → c < fresh s;
  inv_unique i j t t' c : threads s !! i = Some t → threads s !! j = Some t' → id_of t = Some c → id_of t' = Some c → i = j;
  inv_conns c : c ∈ conns s ↔ ∃ i t, threads s !! i = Some t ∧ conn_of t = Some c;
  inv_holder : holder s ≠ None → retired s = true;
  inv_expired x : retired s = true → x ∈ SUdp :: STcp :: (SConn <$> conns s) → x ∈ expired s ∨ x ∈ default [] (holder s);
  inv_done : done s = true → retired s = true ∧ stopped s = true ∧ holder s = None ∧ Forall (λ t, t = Gone) (threads s) }.

(** A goroutine that goes on as the same connection, or as none. *)
Lemma inv_set_thread s i t t' : inv s → done s = false → threads s !! i = Some t → id_of t' = None ∧ conn_of t = None ∨ id_of t' = id_of t ∧ conn_of t' = conn_of t →
  inv (set_thread i t' s).
Proof.
  intros [Hs Hf Hu Hc Hh He Hd] Hnd Ht Hid. assert (Hl : ∀ j x, <[i := t']> (threads s) !! j = Some x → j = i ∧ x = t' ∨ j ≠ i ∧ threads s !! j = Some x).
  { intros j x Hx. apply list_lookup_insert_Some in Hx as [(-> & -> & _)|[Hne Hx]]; auto. }
  assert (Hold : ∀ c, id_of t' = Some c → id_of t = Some c) by (intros c Hx; destruct Hid as [[? _]|[<- _]]; congruence).
  assert (Hsub : ∀ j x c, <[i := t']> (threads s) !! j = Some x → id_of x = Some c → ∃ y, threads s !! j = Some y ∧ id_of y = Some c).
  { intros j x c Hx Hc'. destruct (Hl j x Hx) as [[-> ->]|[_ Hx']]; eauto. }
  constructor; cbn; try done.
  - intros j x c Hx Hc'. destruct (Hsub j x c Hx Hc') as (y & Hy & Hyc). by eapply Hf.
  - intros j k x y c Hx Hy Hxc Hyc. destruct (Hsub j x c Hx Hxc) as (x' & Hx' & Hxc'), (Hsub k y c Hy Hyc) as (y' & Hy' & Hyc'). by eapply Hu.
  - intros c. rewrite Hc. split.
    + intros (j & x & Hx & Hxc). destruct (decide (j = i)) as [->|Hne].
      * exists i, t'. rewrite list_lookup_insert_eq by (by eapply lookup_lt_Some). split; [done|]. simplify_eq. destruct Hid as [[_ ?]|[_ ->]]; congruence.
      * exists j, x. by rewrite list_lookup_insert_ne.
    + intros (j & x & Hx & Hxc). destruct (Hl j x Hx) as [[-> ->]|[_ Hx']]; [|eauto]. exists i, t. split; [done|].
      destruct Hid as [[Hn _]|[_ <-]]; [|done]. by destruct t'.
  - congruence.
Qed.
Lemma inv_answer legacy s a s' next b : inv s → answer_step legacy s a s' next b →
  slots s' <= querySlots ∧ s' = set_slots (slots s') s.
Proof.
  intros [Hs _ _ _ _ _ _]. assert (s = set_slots (slots s) s) as Hid by by destruct s.
  destruct 1; cbn; try (split; [done|exact Hid]). split; [unfold querySlots in *; lia|done].
Qed.
Lemma inv_set_slots n s : inv s → n <= querySlots → inv (set_slots n s).
Proof. intros [Hs Hf Hu Hc Hh He Hd] Hn. by constructor. Qed.
Lemma inv_accept s : inv s → inv (accept_query s).
Proof. intros [Hs Hf Hu Hc Hh He Hd]. by constructor. Qed.
(** A new goroutine of a new connection, or of none. *)
Lemma inv_new_thread s t : inv s → done s = false → id_of t = None → inv (spawn t s).
Proof.
  intros [Hs Hf Hu Hc Hh He Hd] Hnd Hid. assert (Hl : ∀ j x c, (threads s ++ [t]) !! j = Some x → id_of x = Some c → threads s !! j = Some x).
  { intros j x c Hx Hxc. apply lookup_app_Some in Hx as [Hx|[_ Hx]]; [done|]. apply list_lookup_singleton_Some in Hx as [_ <-]. congruence. }
  constructor; cbn; try done.
  - intros i x c Hx Hxc. eapply Hf; [by eapply Hl|done].
  - intros i j x y c Hx Hy Hxc Hyc. eapply Hu; [by eapply Hl|by eapply Hl|done|done].
  - intros c. rewrite Hc. split; intros (i & x & Hx & Hxc).
    + exists i, x. split; [|done]. apply lookup_app_Some. by left.
    + exists i, x. split; [|done]. eapply Hl; [done|]. by destruct x.
  - congruence.
Qed.
Lemma inv_goes legacy s i a on reply none s' t c : inv s → done s = false → threads s !! i = Some t →
  goes legacy s i a on reply none s' → id_of t = c → conn_of t = c → (∀ a, id_of (on a) = c ∧ conn_of (on a) = c) →
  (id_of reply = None ∧ c = None ∨ id_of reply = c ∧ conn_of reply = c) → (id_of none = None ∧ c = None ∨ id_of none = c ∧ conn_of none = c) → inv s'.
Proof.
  intros Hi Hnd Ht (s1 & next & b & Ha & ->) Htid Htc Hon Hr Hn. destruct (inv_answer _ _ _ _ _ _ Hi Ha) as [Hs ->].
  eapply inv_set_thread; [by apply inv_set_slots|done|exact Ht|]. rewrite Htid, Htc. destruct next as [a'|]; [right; apply Hon|destruct b; tauto].
Qed.
Lemma not_gone s i t : inv s → threads s !! i = Some t → t ≠ Gone → done s = false.
Proof.
  intros Hi Ht Hne. destruct (done s) eqn:E; [|done]. destruct (inv_done s Hi E) as (_ & _ & _ & Hall).
  rewrite Forall_lookup in Hall. by specialize (Hall i t Ht).
Qed.
Lemma inv_take_conn s i : inv s → done s = false → threads s !! i = Some TcpAccept → inv (take_conn (set_thread i (TcpGot (fresh s)) s)).
Proof.
  intros [Hs Hf Hu Hc Hh He Hd] Hnd Ht.
  assert (Hl : ∀ j x, <[i := TcpGot (fresh s)]> (threads s) !! j = Some x → j = i ∧ x = TcpGot (fresh s) ∨ j ≠ i ∧ threads s !! j = Some x).
  { intros j x Hx. apply list_lookup_insert_Some in Hx as [(-> & -> & _)|[Hne Hx]]; auto. }
  constructor; cbn; try done.
  - intros j x c Hx Hxc. destruct (Hl j x Hx) as [[-> ->]|[_ Hx']]; [injection Hxc as <-; lia|]. specialize (Hf j x c Hx' Hxc). lia.
  - intros j k x y c Hx Hy Hxc Hyc. destruct (Hl j x Hx) as [[-> ->]|[_ Hx']], (Hl k y Hy) as [[-> ->]|[_ Hy']]; [done|..].
    + injection Hxc as <-. specialize (Hf k y _ Hy' Hyc). lia.
    + injection Hyc as <-. specialize (Hf j x _ Hx' Hxc). lia.
    + by eapply Hu.
  - intros c. rewrite Hc. split; intros (j & x & Hx & Hxc).
    + exists j, x. split; [|done]. rewrite list_lookup_insert_ne; [done|]. intros ->. by simplify_eq.
    + destruct (Hl j x Hx) as [[-> ->]|[_ Hx']]; [done|]. eauto.
  - congruence.
Qed.
Lemma inv_tcp_conn s i c : inv s → done s = false → retired s = false → threads s !! i = Some (TcpGot c) →
  inv (spawn (ConnTop c) (set_conns (c :: conns s) (set_thread i TcpAccept s))).
Proof.
  intros [Hs Hf Hu Hc Hh He Hd] Hnd Hr Ht. set (l := <[i := TcpAccept]> (threads s)).
  assert (Hl : ∀ j x, (l ++ [ConnTop c]) !! j = Some x → (j = length (threads s) ∧ x = ConnTop c) ∨ (j = i ∧ x = TcpAccept) ∨ (j ≠ i ∧ threads s !! j = Some x)).
  { intros j x Hx. apply lookup_app_Some in Hx as [Hx|[Hge Hx]].
    - right. apply list_lookup_insert_Some in Hx as [(-> & -> & _)|[Hne Hx]]; auto.
    - left. unfold l in *. rewrite length_insert in *. destruct (j - length (threads s)) eqn:Ej; [|done]. injection Hx as <-. split; [lia|done]. }
  assert (Hid : ∀ j x c', threads s !! j = Some x → id_of x = Some c' → j ≠ i → c' ≠ c) by (intros j x c' Hx Hxc Hne ->; by apply Hne; eapply Hu).
  constructor; cbn; try done.
  - intros j x c' Hx Hxc. destruct (Hl j x Hx) as [[-> ->]|[[-> ->]|[_ Hx']]]; [injection Hxc as <-; by eapply Hf|done|by eapply Hf].
  - intros j k x y c' Hx Hy Hxc Hyc. destruct (Hl j x Hx) as [[-> ->]|[[-> ->]|[Hj Hx']]], (Hl k y Hy) as [[-> ->]|[[-> ->]|[Hk Hy']]]; try done.
    + injection Hxc as <-. by destruct (Hid k y c Hy' Hyc Hk).
    + injection Hyc as <-. by destruct (Hid j x c Hx' Hxc Hj).
    + by eapply Hu.
  - intros c'. rewrite elem_of_cons, Hc. split.
    + intros [->|(j & x & Hx & Hxc)].
      * exists (length l), (ConnTop c). split; [|done]. by apply list_lookup_middle.
      * exists j, x. split; [|done]. apply lookup_app_Some. left. unfold l. rewrite list_lookup_insert_ne; [done|]. intros ->. by simplify_eq.
    + intros (j & x & Hx & Hxc). destruct (Hl j x Hx) as [[-> ->]|[[-> ->]|[_ Hx']]]; [injection Hxc as <-; by left|done|right; eauto].
  - congruence.
  - congruence.
Qed.
Lemma inv_conn_delete s i c : inv s → done s = false → threads s !! i = Some (ConnDelete c) → inv (set_thread i Gone (set_conns (filter (λ x, x ≠ c) (conns s)) s)).
Proof.
  intros [Hs Hf Hu Hc Hh He Hd] Hnd Ht.
  assert (Hl : ∀ j x, <[i := Gone]> (threads s) !! j = Some x → j = i ∧ x = Gone ∨ j ≠ i ∧ threads s !! j = Some x).
  { intros j x Hx. apply list_lookup_insert_Some in Hx as [(-> & -> & _)|[Hne Hx]]; auto. }
  constructor; cbn; try done.
  - intros j x c' Hx Hxc. destruct (Hl j x Hx) as [[-> ->]|[_ Hx']]; [done|by eapply Hf].
  - intros j k x y c' Hx Hy Hxc Hyc. destruct (Hl j x Hx) as [[-> ->]|[_ Hx']], (Hl k y Hy) as [[-> ->]|[_ Hy']]; try done. by eapply Hu.
  - intros c'. rewrite list_elem_of_filter, Hc. split.
    + intros [Hne (j & x & Hx & Hxc)]. exists j, x. split; [|done]. rewrite list_lookup_insert_ne; [done|]. intros ->. simplify_eq. by injection Hxc as ->.
    + intros (j & x & Hx & Hxc). destruct (Hl j x Hx) as [[-> ->]|[Hne Hx']]; [done|]. split; [|eauto]. intros ->. apply Hne. eapply Hu; [done|done| |done].
      by destruct x.
  - intros x Hr Hx. apply He; [done|]. revert Hx. rewrite !elem_of_cons, !list_elem_of_fmap. intros [->|[->|(y & -> & Hy)]]; [auto..|].
    apply list_elem_of_filter in Hy as [_ Hy]. right. right. eauto.
  - congruence.
Qed.
Lemma thread_step_inv legacy s i t s' : inv s → threads s !! i = Some t → thread_step legacy s i t s' → inv s'.
Proof.
  intros Hi Ht Hstep. assert (Hnd : done s = false) by (eapply not_gone; [done|exact Ht|]; by destruct Hstep).
  destruct Hstep; try (eapply inv_set_thread; [done|done|exact Ht|]; first [by left|by right]).
  - apply inv_accept, inv_new_thread; [|done|done]. eapply inv_set_thread; [done|done|exact Ht|by left].
  - eapply (inv_goes _ _ _ _ _ _ _ _ _ _ Hi Hnd Ht); [eassumption|reflexivity|reflexivity|done|by left|by left].
  - by apply inv_take_conn.
  - by apply inv_tcp_conn.
  - apply inv_accept. eapply inv_set_thread; [done|done|exact Ht|by right].
  - eapply (inv_goes _ _ _ _ _ _ _ _ _ _ Hi Hnd Ht); [eassumption|reflexivity|reflexivity|done|by right|by right].
  - by apply inv_conn_delete.
Qed.
Lemma inv_retired (stop : bool) order s : inv s → holder s = None → (if stop then stopped s else retired s) = false → order ≡ₚ SConn <$> conns s →
  inv (set_retired stop (SUdp :: STcp :: order) s).
Proof.
  intros Hi Hh Hr Hp. assert (Hnd : done s = false).
  { destruct (done s) eqn:E; [|done]. destruct (inv_done s Hi E) as (H1 & H2 & _). destruct stop; congruence. }
  destruct Hi as [Hs Hf Hu Hc _ He Hd]. constructor; cbn; try done; [|congruence]. intros x _. rewrite Hp. auto.
Qed.
Lemma internal_inv legacy s s' : inv s → internal legacy s s' → inv s'.
Proof.
  intros Hi [i t s1 Ht Hs|x l Hh|Hh|Hnd Hh Hg]; [by eapply thread_step_inv|..]; destruct Hi as [Hs Hf Hu Hc Hr He Hd]; constructor; cbn; try done.
  - intros _. apply Hr. by rewrite Hh.
  - intros y Hre Hy. destruct (He y Hre Hy) as [?|Hx]; [left; by right|]. rewrite Hh in Hx. apply elem_of_cons in Hx as [->|?]; [left; by left|by right].
  - intros E. destruct (Hd E) as (_ & _ & H' & _). congruence.
  - intros y Hre Hy. destruct (He y Hre Hy) as [?|Hx]; [by left|]. rewrite Hh in Hx. by apply elem_of_nil in Hx.
  - intros E. destruct (Hd E) as (? & ? & _ & ?). by split_and!.
  - intros y _ Hy. left. rewrite !elem_of_cons in Hy. destruct Hy as [->|[->|Hy]]; [by left|right; by left|]. exfalso.
    apply list_elem_of_fmap in Hy as (c & -> & Hy). apply Hc in Hy as (i & t & Ht & Htc). rewrite Forall_lookup in Hg. by rewrite (Hg i t Ht) in Htc.
Qed.
Lemma step_inv legacy s s' : inv s → step legacy s s' → inv s'.
Proof.
  intros Hi [s1 Hs|order Hh Hr Hp|order Hh Hr Hp|Hs]; [by eapply internal_inv|by apply inv_retired|by apply inv_retired|].
  apply inv_set_slots; [done|]. pose proof (inv_slots s Hi). lia.
Qed.
Lemma start_inv : inv startForwarder.
Proof.
  constructor; cbn; try done; [unfold querySlots; lia|..].
  - intros [|[|i]] t c; cbn; intros; by simplify_eq.
  - intros [|[|i]] j t t' c; cbn; intros; by simplify_eq.
  - intros c. split; [by intros ?%elem_of_nil|]. intros ([|[|i]] & t & Ht & Htc); by simplify_eq/=.
Qed.
Lemma steps_inv legacy s s' : inv s → steps legacy s s' → inv s'.
Proof. intros Hi Hs. induction Hs as [|s1 s2 _ IH Hs]; [done|]. by eapply step_inv. Qed.

(** ** After [Retire] *)

Lemma thread_rest legacy s i t s' : thread_step legacy s i t s' → retired s' = retired s ∧ holder s' = holder s ∧ done s' = done s.
Proof. destruct 1; try done; destruct H as (s1 & next & b & Ha & ->); by destruct Ha. Qed.
(** Nothing is taken any more, whatever happens next: [mu] may be held again by
    [stop]. *)
Definition closed_in (s : fwd) : Prop := retired s = true ∧ ∀ x, x ∈ SUdp :: STcp :: (SConn <$> conns s) → x ∈ expired s.
Lemma closed_in_step legacy s s' : inv s → closed_in s → step legacy s s' → accepted s' = accepted s ∧ closed_in s'.
Proof.
  intros Hi [Hr He] Hstep. pose proof (step_inv _ _ _ Hi Hstep) as Hi'.
  destruct Hstep as [s1 [i t s2 Ht Hs|x l Hx|Hx|_ _ Hg]|order _ Hr' _|order _ _ _|_]; try done; try congruence.
  - destruct Hs; try done; try congruence.
    + destruct H as (s3 & next & b & Ha & ->). by destruct Ha.
    + exfalso. apply H. apply He. do 2 right. apply list_elem_of_fmap. exists c. split; [done|]. apply (inv_conns s Hi). eauto.
    + destruct H as (s3 & next & b & Ha & ->). by destruct Ha.
    + split; [done|]. split; [done|]. intros x Hx. apply He. revert Hx. cbn. rewrite !elem_of_cons, !list_elem_of_fmap. intros [->|[->|(y & -> & Hy)]]; [auto..|].
      apply list_elem_of_filter in Hy as [_ Hy]. right. right. eauto.
  - split; [done|]. split; [done|]. intros y Hy. right. by apply He.
  - split; [done|]. split; [done|]. intros y Hy. right. right. by apply He.
Qed.

(** ** Termination *)

Definition answer_weight (a : answer_pc) : nat := match a with ABegin => 3 | ASlot => 2 | ADone => 1 end.
Definition weight (t : thread) : nat :=
  match t with
  | UdpRead => 2 | UdpGot => 1 | UdpAnswer a => 1 + answer_weight a | UdpWrite => 1
  | TcpAccept => 2 | TcpGot _ => 1
  | ConnRead _ => 8 | ConnAnswer _ a => 4 + answer_weight a | ConnWrite _ => 4 | ConnTop _ => 3 | ConnClose _ => 2 | ConnDelete _ => 1
  | Gone => 0
  end.
Definition total (l : list thread) : nat := sum_list (weight <$> l).
(** What the goroutines, the holder of [mu] and the last goroutine have to do. *)
Definition measure (s : fwd) : nat :=
  total (threads s) + match holder s with Some l => S (length l) | None => 0 end + (if done s then 0 else 1).
Lemma total_set l i t t' : l !! i = Some t → total (<[i := t']> l) + weight t = total l + weight t'.
Proof.
  assert (Hcons : ∀ x k, total (x :: k) = weight x + total k) by done.
  revert i. induction l as [|x l IH]; intros [|i] Ht; [done..| |].
  - injection Ht as ->. change (<[0 := t']> (t :: l)) with (t' :: l). rewrite !Hcons. lia.
  - change (<[S i := t']> (x :: l)) with (x :: <[i := t']> l). rewrite !Hcons. specialize (IH i Ht). lia.
Qed.
Lemma total_less l i t t' : l !! i = Some t → weight t' < weight t → total (<[i := t']> l) < total l.
Proof. intros Ht Hw. pose proof (total_set l i t t' Ht). lia. Qed.
Lemma goes_less legacy s i a on reply none s' t : threads s !! i = Some t → goes legacy s i a on reply none s' →
  (∀ a', answer_weight a' < answer_weight a → weight (on a') < weight t) → weight reply < weight t → weight none < weight t →
  total (threads s') < total (threads s) ∧ holder s' = holder s ∧ done s' = done s.
Proof.
  intros Ht (s3 & next & b & Ha & ->) Hon Hr Hn. assert (threads s3 = threads s ∧ holder s3 = holder s ∧ done s3 = done s) as (Hts & Hh & Hd) by by destruct Ha.
  set (t' := match next with Some a' => on a' | None => if b then reply else none end).
  assert (weight t' < weight t). { subst t'. destruct Ha; cbn; [by destruct answered|apply Hon; cbn; lia|apply Hon; cbn; lia|by destruct answered|by destruct answered]. }
  cbn [threads holder done set_thread]. rewrite Hts. split; [|done]. by eapply total_less.
Qed.
Lemma internal_less legacy s s' : inv s → retired s = true → internal legacy s s' → measure s' < measure s ∧ retired s' = true.
Proof.
  intros Hi Hr [i t s1 Ht Hs|x l Hh|Hh|Hd Hh _]; unfold measure.
  - destruct (thread_rest _ _ _ _ _ Hs) as (-> & Hh & Hd). split; [|done]. rewrite Hh, Hd.
    assert (total (threads s1) < total (threads s)); [|lia].
    destruct Hs; try congruence; try (eapply total_less; [exact Ht|cbn; lia]).
    + eapply (goes_less _ _ _ _ _ _ _ _ _ Ht); [eassumption|intros a' Ha; cbn [weight] in *; lia|destruct a; cbn; lia..].
    + eapply (goes_less _ _ _ _ _ _ _ _ _ Ht); [eassumption|intros a' Ha; cbn [weight] in *; lia|destruct a; cbn; lia..].
  - cbn [threads holder done set_holder set_expired]. rewrite Hh. split; [destruct (done s); cbn [length]; lia|done].
  - cbn [threads holder done set_holder]. rewrite Hh. split; [destruct (done s); cbn [length]; lia|done].
  - cbn [threads holder done finished]. rewrite Hh, Hd. split; [lia|done].
Qed.
Lemma goes_back legacy s i a on reply none : goes legacy s i a on reply none (set_thread i reply s).
Proof. exists s, None, true. split; [|done]. destruct a; constructor. Qed.
Lemma progress legacy s : inv s → done s = false → ∃ s', internal legacy s s'.
Proof.
  intros Hi Hd. destruct (holder s) as [[|x l]|] eqn:Hh; [eexists; by apply int_release|eexists; by eapply int_sweep|].
  destruct (decide (Forall (λ t, t = Gone) (threads s))) as [Hg|Hg]; [eexists; by apply int_finish|].
  apply not_Forall_Exists in Hg; [|intros t; solve_decision]. apply Exists_exists in Hg as (t & Hin & Hne). apply list_elem_of_lookup in Hin as [i Ht].
  cbn in Hne. destruct (retired s) eqn:Hr; destruct t; try (by destruct Hne); eexists; (eapply int_thread; [exact Ht|]);
    first [by apply udp_error|by apply udp_retired|by apply udp_query|by apply tcp_error|by apply tcp_retired|by apply tcp_conn|by apply udp_write
      |by apply conn_retired|by apply conn_deadline|by apply conn_read_error|by apply conn_write_error|by apply conn_close|by apply conn_delete
      |apply udp_answer, goes_back|apply conn_answer, goes_back].
Qed.
Inductive run (legacy : bool) : nat → fwd → fwd → Prop :=
  | run_nil s : run legacy 0 s s
  | run_cons n s s1 s2 : internal legacy s s1 → run legacy n s1 s2 → run legacy (S n) s s2.
Lemma run_bounded legacy n s s' : inv s → retired s = true → run legacy n s s' → n + measure s' ≤ measure s ∧ inv s' ∧ retired s' = true.
Proof.
  intros Hi Hr Hrun. induction Hrun as [s|n s s1 s2 Hs _ IH]; [done|]. destruct (internal_less _ _ _ Hi Hr Hs) as [Hl Hr1].
  destruct (IH (internal_inv _ _ _ Hi Hs) Hr1) as (Hn & Hx). split; [lia|done].
Qed.

Lemma closed_in_steps legacy s s' : inv s → closed_in s → steps legacy s s' → accepted s' = accepted s ∧ retired s' = true.
Proof.
  intros Hi Hc Hs. assert (accepted s' = accepted s ∧ closed_in s') as [-> [-> _]]; [|done].
  induction Hs as [|s1 s2 Hs IH Hstep]; [done|]. destruct IH as [<- Hc1]. eapply closed_in_step; [by eapply steps_inv|done|done].
Qed.
Lemma retired_closed s : inv s → retired s = true → holder s = None → closed_in s.
Proof.
  intros Hi Hr Hh. split; [done|]. intros x Hx. destruct (inv_expired s Hi x Hr Hx) as [?|Hn]; [done|].
  rewrite Hh in Hn. by apply elem_of_nil in Hn.
Qed.
Lemma done_empty s : inv s → done s = true → Forall (λ t, t = Gone) (threads s) ∧ conns s = [].
Proof.
  intros Hi Hd. destruct (inv_done s Hi Hd) as (_ & _ & _ & Hg). split; [done|]. destruct (conns s) as [|c l] eqn:E; [done|].
  assert (c ∈ conns s) as Hc by (rewrite E; by left). apply (inv_conns s Hi) in Hc as (i & t & Ht & Htc).
  rewrite Forall_lookup in Hg. by rewrite (Hg i t Ht) in Htc.
Qed.

(** ** What holds *)

(** C24. In every interleaving of goroutines, [Retire] and [stop] a forwarder has
    at most sixteen queries that it cannot cancel; once [Retire] or [stop] has
    returned no query is taken any more, whatever happens next; and when [Close]
    returns all goroutines of the sockets and their connections are gone.  The
    goroutines of queries that a profile cannot cancel, at most sixteen, may
    outlive [Close]: nothing waits for them ([slots] need not be zero then).  The
    port is chosen in at most ten attempts: one UDP socket is open in the end,
    or none, and every other that was opened is closed. *)
Theorem forwarder_bounded :
  (∀ legacy s, steps legacy startForwarder s →
    slots s ≤ 16 ∧
    (done s = true → Forall (λ t, t = Gone) (threads s) ∧ conns s = []) ∧
    (retired s = true → holder s = None → ∀ s', steps legacy s s' → accepted s' = accepted s ∧ retired s' = true)) ∧
  (∀ ctx_Err listenUDP listenTCP, let '(r, closed) := listenForwarder ctx_Err listenUDP listenTCP in
    listened ctx_Err listenUDP listenTCP 10 r closed).
Proof.
  split.
  - intros legacy s Hs. assert (Hi := steps_inv _ _ _ start_inv Hs). split_and!; [apply (inv_slots s Hi)|by apply done_empty|].
    intros Hr Hh s' Hs'. apply (closed_in_steps legacy s s' Hi); [by apply retired_closed|done].
  - intros c u t. by apply (listen_from_sound c u t 10 []).
Qed.

(** A forwarder that retires or stops comes to its end: from then on a
    run of its goroutines has no more steps than [measure] counts, from every
    state some step is left until [done] is closed, and so every run that is not
    cut off closes it, with or without clients and whatever resolvers do. *)
Theorem forwarder_terminates legacy s : steps legacy startForwarder s → retired s = true →
  (∀ n s', run legacy n s s' → n ≤ measure s ∧ (done s' = true ∨ ∃ s2, internal legacy s' s2)) ∧
  (∃ n s', run legacy n s s' ∧ done s' = true).
Proof.
  intros Hs Hr. pose proof (steps_inv _ _ _ start_inv Hs) as Hi. clear Hs. split.
  - intros n s' Hrun. destruct (run_bounded _ _ _ _ Hi Hr Hrun) as (Hn & Hi' & _). split; [lia|].
    destruct (done s') eqn:E; [by left|right; by apply progress].
  - remember (measure s) as m eqn:Em. revert s Em Hi Hr. induction m as [m IH] using lt_wf_ind. intros s -> Hi Hr.
    destruct (done s) eqn:E; [exists 0, s; split; [constructor|done]|]. destruct (progress legacy s Hi E) as [s1 H1].
    destruct (internal_less _ _ _ Hi Hr H1) as [Hl Hr1]. destruct (IH _ Hl s1 eq_refl (internal_inv _ _ _ Hi H1) Hr1) as (n & s' & Hrun & Hd).
    exists (S n), s'. split; [by econstructor|done].
Qed.

(** A forwarder that is retired before its first query, has closed its two
    sockets, and whose goroutines then end. *)
Definition retiring : fwd := set_retired false [SUdp; STcp] startForwarder.
Definition retired_idle : fwd := set_holder None (set_holder (Some []) (set_expired [STcp; SUdp] retiring)).
Lemma retiring_steps : steps true startForwarder retiring.
Proof. eapply steps_trans; [apply steps_refl|]. by apply (step_Retire true startForwarder []). Qed.
Lemma retired_idle_steps : steps true startForwarder retired_idle.
Proof.
  eapply steps_trans; [eapply steps_trans; [eapply steps_trans; [exact retiring_steps|]|]|]; apply step_internal.
  - by apply (int_sweep true retiring SUdp [STcp]).
  - by eapply int_sweep.
  - by apply int_release.
Qed.
Lemma retired_idle_next : steps true retired_idle (set_thread 0 Gone retired_idle).
Proof. eapply steps_trans; [apply steps_refl|]. apply step_internal. by apply (int_thread true _ 0 UdpRead); [|apply udp_error]. Qed.

(** Two ports that other sockets have for TCP, then a free one. *)
Definition taken_port (k _ : nat) : tcp_listen := if k <? 2 then TcpInUse else TcpOpen.
Lemma third_port : listenForwarder (λ _, false) (λ k, Some (20 + k)) taken_port = (Ok 22, [20; 21]).
Proof. reflexivity. Qed.

Lemma forwarder_bounded_witness :
  accepted (set_thread 0 Gone retired_idle) = accepted retired_idle ∧
  listened (λ _, false) (λ k, Some (20 + k)) taken_port 10 (Ok 22) [20; 21].
Proof.
  destruct forwarder_bounded as [Hall Hlisten]. split.
  - destruct (Hall true retired_idle retired_idle_steps) as (_ & _ & Hq). apply (Hq eq_refl eq_refl _ retired_idle_next).
  - specialize (Hlisten (λ _, false) (λ k, Some (20 + k)) taken_port). rewrite third_port in Hlisten. exact Hlisten.
Defined.
Lemma forwarder_terminates_witness : ∃ n s', run true n retiring s' ∧ done s' = true.
Proof. apply (forwarder_terminates true retiring); [exact retiring_steps|reflexivity]. Defined.
