(* ===== verification/SocksDial.v ===== *)
(** * Dialing a name in a profile

    profile/socksdial.go: the lookup of a name through a profile's own resolver,
    which follows aliases by itself with one bound for its queries and its hops.
    An error of the query, of its context included, is a query without a response;
    the message format is the interface of [DNSForwarder]. *)

From S2P Require Import Prelude GoStrings Netip NetipText SocksRouter DNSForwarder.
Local Open Scope Z_scope.

Definition TypeA : Z := 1.
Definition TypeAAAA : Z := 28.
Definition RCodeSuccess : Z := 0.
Inductive socks_error : Type := errSOCKSTarget | errSOCKSDNS | errSOCKSDial.

(** ** Lookup *)

(** An answer: its owner, class, and what the code tells apart of its body. *)
Inductive body : Type := BodyA (a : Z) | BodyAAAA (v : Z) | BodyCNAME (name : string) | BodyOther.
Record resource : Type := MkResource { rr_Name : string; rr_Class : Z; rr_Body : body }.
Definition answer_of (name : string) (r : resource) : bool := (rr_Class r =? ClassINET) && EqualFold (rr_Name r) name.

Section lookup.
(** The messages of [DNSForwarder], with the answers of their sections; and the
    profile's resolver, by the number of the query. *)
Context {Sections : Type} `{DNSMessages Sections} (m_Answers : Sections → list resource).
Context (QueryDNSContext : nat → string → Z → option bytes).

(** The addresses a name owns, and its alias, the last one. *)
Definition answer_fold (name : string) (typ : Z) (s : list Addr * string) (r : resource) : list Addr * string :=
  let '(ips, cname) := s in
  if negb (answer_of name r) then (ips, cname)
  else match rr_Body r with
  | BodyA a => if typ =? TypeA then (ips ++ [Addr4 a], cname) else (ips, cname)
  | BodyAAAA v => if (typ =? TypeAAAA) && negb (addr.Is4In6 (Addr6 v "")) then (ips ++ [Addr6 v ""], cname) else (ips, cname)
  | BodyCNAME name => (ips, name)
  | BodyOther => (ips, cname)
  end.
Definition read_answers (name : string) (typ : Z) (answers : list resource) : list Addr * string :=
  foldl (answer_fold name typ) ([], "") answers.
(** The response to a question for [name]. *)
Definition read_response (name : string) (typ : Z) (wire : option bytes) : option (string * list resource) :=
  wire ← wire;
  if (65535 <? Z.of_nat (length wire)) then None
  else
    msg ← Unpack wire;
    let h := m_Header msg in
    if negb (h_Response h) || h_Truncated h || negb (h_OpCode h =? 0) || negb (h_RCode h =? RCodeSuccess) then None
    else match m_Questions msg with
    | [q] => if EqualFold (q_Name q) name && (q_Type q =? typ) && (q_Class q =? ClassINET) then Some (q_Name q, m_Answers (m_Sections msg)) else None
    | _ => None
    end.

(** Where the aliases of one response lead: to addresses, to nothing, or to a
    name that has to be asked for, with the hops that are left. *)
Inductive followed : Type := Found (ips : list Addr) | Nothing | Ask (name : string) (seen : gset string) (room : nat).
Fixpoint follow (room : nat) (asked : string) (typ : Z) (answers : list resource) (seen : gset string) (name : string) : followed :=
  match room with
  | O => Ask name seen O
  | S room' =>
    let key := ToLower name in
    if key ∈? seen then Nothing
    else
      let '(ips, cname) := read_answers name typ answers in
      match ips with
      | _ :: _ => Found ips
      | [] =>
        if String.eqb cname "" then
          if negb (EqualFold name asked) then Ask name seen room else Nothing
        else follow room' asked typ answers ({[key]} ∪ seen) cname
      end
  end.
(** [None]: out of fuel. *)
Fixpoint lookup_from (fuel k room : nat) (seen : gset string) (name : string) (typ : Z) : option (result socks_error (list Addr)) :=
  match room, fuel with
  | O, _ => Some (Err errSOCKSDNS)
  | _, O => None
  | _, S fuel =>
    match read_response name typ (QueryDNSContext k name typ) with
    | None => Some (Err errSOCKSDNS)
    | Some (asked, answers) =>
      match follow room asked typ answers seen name with
      | Found ips => Some (Ok ips)
      | Nothing => Some (Err errSOCKSDNS)
      | Ask name seen room => lookup_from fuel (S k) room seen name typ
      end
    end
  end.
Definition max_hops : nat := 8.
Definition socksLookup (name : string) (typ : Z) : option (result socks_error (list Addr)) := lookup_from max_hops 0 max_hops ∅ name typ.

(** ** What a lookup may answer *)

(** A response to the [k]-th query of the lookup that was accepted. *)
Definition accepted_response (typ : Z) (k : nat) (name : string) (answers : list resource) : Prop :=
  ∃ asked, read_response name typ (QueryDNSContext k name typ) = Some (asked, answers).
(** Name [cname] is an alias that [name] owns in an accepted response to one of
    the first [n] queries; [ip] is an address it owns in one. *)
Definition alias (typ : Z) (n : nat) (name cname : string) : Prop :=
  ∃ k asked_name answers r, (k < n)%nat ∧ accepted_response typ k asked_name answers ∧ r ∈ answers ∧ answer_of name r = true ∧ rr_Body r = BodyCNAME cname.
Definition address_of (typ : Z) (n : nat) (name : string) (ip : Addr) : Prop :=
  ∃ k asked_name answers r, (k < n)%nat ∧ accepted_response typ k asked_name answers ∧ r ∈ answers ∧ answer_of name r = true ∧
    ((typ = TypeA ∧ ∃ a, rr_Body r = BodyA a ∧ ip = Addr4 a) ∨ (typ = TypeAAAA ∧ ∃ v, rr_Body r = BodyAAAA v ∧ ip = Addr6 v "" ∧ addr.Is4In6 ip = false)).
(** From [start] over the names of [path] to [name], each the alias of the one before. *)
Inductive chain (typ : Z) (n : nat) (start : string) : list string → string → Prop :=
  | chain_start : chain typ n start [] start
  | chain_alias path name cname : chain typ n start path name → alias typ n name cname → chain typ n start (path ++ [name]) cname.

Lemma read_answers_spec name typ answers ips cname : read_answers name typ answers = (ips, cname) →
  (∀ ip, ip ∈ ips → ∃ r, r ∈ answers ∧ answer_of name r = true ∧
     ((typ = TypeA ∧ ∃ a, rr_Body r = BodyA a ∧ ip = Addr4 a) ∨ (typ = TypeAAAA ∧ ∃ v, rr_Body r = BodyAAAA v ∧ ip = Addr6 v "" ∧ addr.Is4In6 ip = false))) ∧
  (cname ≠ "" → ∃ r, r ∈ answers ∧ answer_of name r = true ∧ rr_Body r = BodyCNAME cname).
Proof.
  unfold read_answers. revert ips cname. induction answers as [|r l IH] using rev_ind; intros ips cname.
  { cbn. intros [= <- <-]. split; [by intros ip ?%elem_of_nil|done]. }
  rewrite foldl_snoc. destruct (foldl _ _ l) as [ips0 cname0] eqn:E. destruct (IH ips0 cname0 eq_refl) as [Hi Hc]. clear IH E.
  assert (Hi' : ∀ ip, ip ∈ ips0 → ∃ r', r' ∈ l ++ [r] ∧ answer_of name r' = true ∧
     ((typ = TypeA ∧ ∃ a, rr_Body r' = BodyA a ∧ ip = Addr4 a) ∨ (typ = TypeAAAA ∧ ∃ v, rr_Body r' = BodyAAAA v ∧ ip = Addr6 v "" ∧ addr.Is4In6 ip = false))).
  { intros ip (r' & Hr & Hx)%Hi. exists r'. split; [apply elem_of_app; auto|done]. }
  assert (Hc' : cname0 ≠ "" → ∃ r', r' ∈ l ++ [r] ∧ answer_of name r' = true ∧ rr_Body r' = BodyCNAME cname0).
  { intros (r' & Hr & Hx)%Hc. exists r'. split; [apply elem_of_app; auto|done]. }
  unfold answer_fold. destruct (answer_of name r) eqn:Ho; cbn [negb]; [|intros [= <- <-]; by split].
  assert (Hin : r ∈ l ++ [r]) by (apply elem_of_app; right; by left).
  destruct (rr_Body r) as [a|v|c|] eqn:Eb; [| | |intros [= <- <-]; by split].
  - destruct (Z.eqb_spec typ TypeA) as [->|]; intros [= <- <-]; (split; [|done]); [|done].
    intros ip [?| ->]%elem_of_snoc; [by apply Hi'|]. exists r. split_and!; [done|done|]. left. eauto.
  - destruct (_ && _) eqn:Ea; intros [= <- <-]; (split; [|done]); [|done]. apply andb_true_iff in Ea as [->%Z.eqb_eq H4%negb_true_iff].
    intros ip [?| ->]%elem_of_snoc; [by apply Hi'|]. exists r. split_and!; [done|done|]. right. eauto.
  - intros [= <- <-]. split; [done|]. eauto.
Qed.

Lemma follow_room room asked typ answers seen name name' seen' room' : follow room asked typ answers seen name = Ask name' seen' room' →
  (room' ≤ room)%nat ∧ (EqualFold name asked = true → room = O ∨ (room' < room)%nat).
Proof.
  revert seen name. induction room as [|room IH]; intros seen name; cbn [follow]; [intros [= _ _ <-]; by auto|].
  destruct (_ ∈? _); [done|]. destruct (read_answers name typ answers) as [[|ip ips] cname]; [|done].
  destruct (String.eqb cname ""); [destruct (EqualFold name asked) eqn:Ef; cbn [negb]; [done|]|].
  - intros [= <- <- <-]. split; [done|congruence].
  - intros [Hl _]%IH. lia.
Qed.
(** The search has come over [path] to [name]. *)
Record searching (typ : Z) (n : nat) (start : string) (path : list string) (seen : gset string) (room : nat) (name : string) : Prop := {
  se_chain : chain typ n start path name;
  se_nodup : NoDup (ToLower <$> path);
  se_seen : seen = list_to_set (ToLower <$> path);
  se_room : (length path + room = max_hops)%nat }.
Lemma chain_more typ n n' start path name : (n ≤ n')%nat → chain typ n start path name → chain typ n' start path name.
Proof.
  intros Hn. induction 1 as [|path name cname _ IH (k & q & a & r & Hk & Hx)]; [constructor|]. econstructor; [done|].
  exists k, q, a, r. split; [lia|done].
Qed.
Lemma searching_more typ n n' start path seen room name : (n ≤ n')%nat → searching typ n start path seen room name → searching typ n' start path seen room name.
Proof. intros Hn [Hc ? ? ?]. split; [by eapply chain_more|done..]. Qed.
(** What is found: addresses of the last name of a chain without repetitions. *)
Definition found (typ : Z) (n : nat) (start : string) (ips : list Addr) : Prop :=
  ips ≠ [] ∧ ∃ path last, chain typ n start path last ∧ NoDup (ToLower <$> (path ++ [last])) ∧ (length path < max_hops)%nat ∧
    ∀ ip, ip ∈ ips → address_of typ n last ip.
Lemma follow_searching room asked asked_name typ answers k start path seen name : accepted_response typ k asked_name answers →
  searching typ (S k) start path seen room name →
  match follow room asked typ answers seen name with
  | Found ips => found typ (S k) start ips
  | Nothing => True
  | Ask name' seen' room' => ∃ path', searching typ (S k) start path' seen' room' name'
  end.
Proof.
  intros Hacc. revert path seen name. induction room as [|room IH]; intros path seen name Hs; cbn [follow]; [by exists path|].
  destruct (bool_decide_reflect (ToLower name ∈ seen)) as [|Hns]; [done|]. destruct Hs as [Hc Hn -> Hr].
  assert (Hn' : NoDup (ToLower <$> (path ++ [name]))).
  { rewrite fmap_app. apply NoDup_snoc; [done|]. by rewrite elem_of_list_to_set in Hns. }
  destruct (read_answers name typ answers) as [ips cname] eqn:Ea. apply read_answers_spec in Ea as [Hi Hcn].
  destruct ips as [|ip ips].
  - destruct (String.eqb_spec cname "") as [_|Hne]; [destruct (EqualFold name asked); [done|by exists path]|].
    apply (IH (path ++ [name])). destruct (Hcn Hne) as (r & Hin & Ho & Hb). split.
    + econstructor; [done|]. exists k, asked_name, answers, r. split_and!; [lia|done..].
    + done.
    + rewrite fmap_app, list_to_set_app_L. cbn. set_solver.
    + rewrite length_app. cbn. lia.
  - split; [done|]. exists path, name. split_and!; [done|done|lia|]. intros ip' (r & Hin & Ho & Hx)%Hi.
    exists k, asked_name, answers, r. split_and!; [lia|done..].
Qed.
Lemma lookup_searching fuel k room seen start path name typ : (room ≤ fuel)%nat → searching typ k start path seen room name →
  ∃ r, lookup_from fuel k room seen name typ = Some r ∧
    match r with Ok ips => ∃ n, (n ≤ k + fuel)%nat ∧ found typ n start ips | Err e => e = errSOCKSDNS end.
Proof.
  revert k room seen path name. induction fuel as [|fuel IH]; intros k room seen path name Hf Hs.
  { assert (room = O) as -> by lia. cbn. by eexists. }
  destruct room as [|room]; [cbn; by eexists|]. cbn [lookup_from].
  destruct (read_response name typ (QueryDNSContext k name typ)) as [[asked answers]|] eqn:Er; [|by eexists].
  assert (Hacc : accepted_response typ k name answers) by by exists asked.
  assert (Hasked : EqualFold name asked = true).
  { unfold read_response in Er. destruct (QueryDNSContext k name typ) as [wire|]; [|done]. cbn in Er. destruct (65535 <? _); [done|].
    destruct (Unpack wire) as [msg|]; [|done]. cbn in Er. destruct (_ || _ || _ || _); [done|]. destruct (m_Questions msg) as [|q [|]]; [done| |done].
    destruct (EqualFold (q_Name q) name) eqn:Ef; [|done]. cbn in Er. destruct (_ && _); [|done]. injection Er as <- _.
    unfold EqualFold in *. apply String.eqb_eq in Ef. rewrite Ef. apply String.eqb_refl. }
  pose proof (follow_searching (S room) asked name typ answers k start path seen name Hacc (searching_more _ _ _ _ _ _ _ _ (Nat.le_succ_diag_r k) Hs)) as Hfol.
  destruct (follow (S room) asked typ answers seen name) as [ips| |name' seen' room'] eqn:Efo.
  - eexists. split; [done|]. exists (S k). split; [lia|done].
  - by eexists.
  - apply follow_room in Efo as [_ Hless]. destruct (Hless Hasked) as [|Hless']; [done|]. destruct Hfol as [path' Hs'].
    destruct (IH (S k) room' seen' path' name') as (r & -> & Hr); [lia|done|]. exists r. split; [done|].
    destruct r as [ips|e]; [|done]. destruct Hr as (n & Hn & Hfd). exists n. split; [lia|done].
Qed.
Lemma found_more typ n n' start ips : (n ≤ n')%nat → found typ n start ips → found typ n' start ips.
Proof.
  intros Hn (Hne & path & last & Hc & Hnd & Hl & Hall). split; [done|]. exists path, last. split_and!; [by eapply chain_more|done|done|].
  intros ip (k & q & a & r & Hk & Hx)%Hall. exists k, q, a, r. split; [lia|done].
Qed.

(** The addresses a name owns, in the order of the answers. *)
Definition address_in (name : string) (typ : Z) (r : resource) : option Addr :=
  if negb (answer_of name r) then None
  else match rr_Body r with
  | BodyA a => if typ =? TypeA then Some (Addr4 a) else None
  | BodyAAAA v => if (typ =? TypeAAAA) && negb (addr.Is4In6 (Addr6 v "")) then Some (Addr6 v "") else None
  | _ => None
  end.
Lemma read_answers_addresses name typ answers : (read_answers name typ answers).1 = omap (address_in name typ) answers.
Proof.
  unfold read_answers. induction answers as [|r l IH] using rev_ind; [done|]. rewrite foldl_snoc, omap_app, <- IH.
  destruct (foldl _ _ l) as [ips cname]. cbn. unfold answer_fold, address_in.
  destruct (answer_of name r); cbn [negb]; [|by rewrite app_nil_r].
  destruct (rr_Body r) as [a|v|c|]; [destruct (typ =? TypeA)|destruct ((typ =? TypeAAAA) && _)| |]; cbn; by rewrite ?app_nil_r.
Qed.
(** A response whose name has addresses is the answer. *)
Lemma lookup_direct name typ asked answers : read_response name typ (QueryDNSContext 0 name typ) = Some (asked, answers) →
  omap (address_in name typ) answers ≠ [] → socksLookup name typ = Some (Ok (omap (address_in name typ) answers)).
Proof.
  intros Hr Hne. unfold socksLookup, max_hops. cbn [lookup_from]. rewrite Hr. cbn [follow].
  rewrite bool_decide_eq_false_2 by set_solver. rewrite <- read_answers_addresses in *.
  destruct (read_answers name typ answers) as [ips cname]. cbn in *. by destruct ips.
Qed.
End lookup.

Section bound.
Context {Sections : Type} `{DNSMessages Sections} (m_Answers : Sections → list resource).
(** The lookup asks at most [fuel] queries: resolvers that agree on them cannot be told apart. *)
Lemma lookup_from_ext query query' fuel k room seen name typ : (∀ k' name typ, (k' < k + fuel)%nat → query k' name typ = query' k' name typ) →
  lookup_from m_Answers query fuel k room seen name typ = lookup_from m_Answers query' fuel k room seen name typ.
Proof.
  revert k room seen name. induction fuel as [|fuel IH]; intros k room seen name Heq; [by destruct room|].
  destruct room as [|room]; [done|]. cbn [lookup_from]. rewrite (Heq k) by lia.
  destruct (read_response _ _ _ _) as [[asked answers]|]; [|done]. destruct (follow _ _ _ _ _ _); [done|done|].
  apply IH. intros. apply Heq. lia.
Qed.

(** C25. The lookup of a name through its profile's resolver, whatever the resolver
    answers: it comes to an end, with the addresses it found or with the error for a
    failed resolution, and only the first eight queries matter. Addresses it returns
    are addresses of the family that was asked for (no IPv4 address in IPv6 form),
    owned in an accepted response by the last name of a chain of at most seven aliases
    that starts at the name, each owned by the name before it, without a name twice
    in whatever case. A first response that is accepted and has addresses for the name
    is answered with all of them, in their order. *)
Theorem socksLookup_sound (query : nat → string → Z → option bytes) (name : string) (typ : Z) :
  (∃ r, socksLookup m_Answers query name typ = Some r ∧
     match r with Ok ips => found m_Answers query typ max_hops name ips | Err e => e = errSOCKSDNS end) ∧
  (∀ query', (∀ k name typ, (k < 8)%nat → query k name typ = query' k name typ) →
     socksLookup m_Answers query' name typ = socksLookup m_Answers query name typ) ∧
  (∀ asked answers, read_response m_Answers name typ (query 0%nat name typ) = Some (asked, answers) →
     omap (address_in name typ) answers ≠ [] →
     socksLookup m_Answers query name typ = Some (Ok (omap (address_in name typ) answers))).
Proof.
  split_and!; [| |apply lookup_direct].
  - destruct (lookup_searching m_Answers query max_hops 0 max_hops ∅ name [] name typ) as (r & Hr & Hx); [done| |].
    { split; [constructor|constructor|done|done]. }
    exists r. split; [done|]. destruct r as [ips|e]; [|done]. destruct Hx as (n & Hn & Hf). by eapply found_more.
  - intros query' Heq. symmetry. apply lookup_from_ext. intros k ?? Hk. apply Heq. exact Hk.
Qed.
End bound.

(** A toy format: a message of one byte. *)
Definition toy_answers : list resource :=
  [MkResource "other.net." ClassINET (BodyA 7); MkResource "WWW.example." ClassINET (BodyCNAME "host.example.");
   MkResource "host.example." ClassINET (BodyAAAA 9); MkResource "Host.Example." ClassINET (BodyA 10);
   MkResource "host.example." ClassINET (BodyA 11); MkResource "host.example." 3 (BodyA 12)].
Definition toy_message (qname : string) (rs : list resource) : Message (list resource) :=
  MkMessage (MkHeader 0 true 0 false false false false false false 0) [MkQuestion qname TypeA ClassINET] rs.
#[local] Instance toy_messages : DNSMessages (list resource) := {|
  no_sections := [];
  Unpack b := match b with
              | [0] => Some (toy_message "www.example." toy_answers)
              | [1] => Some (toy_message "loop.example." [MkResource "loop.example." ClassINET (BodyCNAME "LOOP.example.")])
              | [2] => Some (toy_message "host.example." toy_answers)
              | _ => None
              end;
  Pack _ := None |}.
Definition toy_query (_ : nat) (name : string) (_ : Z) : option bytes :=
  if String.eqb name "www.example." then Some [0] else if String.eqb name "loop.example." then Some [1]
  else if String.eqb name "host.example." then Some [2] else None.
Lemma socksLookup_sound_witness :
  socksLookup id toy_query "www.example." TypeA = Some (Ok [Addr4 10; Addr4 11]) ∧
  found id toy_query TypeA max_hops "www.example." [Addr4 10; Addr4 11] ∧
  socksLookup id toy_query "loop.example." TypeA = Some (Err errSOCKSDNS) ∧
  socksLookup id (λ k name typ, if (k <? 8)%nat then toy_query k name typ else Some [2]) "www.example." TypeA = Some (Ok [Addr4 10; Addr4 11]) ∧
  socksLookup id toy_query "host.example." TypeA = Some (Ok [Addr4 10; Addr4 11]).
Proof.
  split_and!; [vm_compute; reflexivity| |vm_compute; reflexivity| |].
  - destruct (socksLookup_sound id toy_query "www.example." TypeA) as ((r & Hr & Hx) & _).
    assert (Some r = Some (Ok [Addr4 10; Addr4 11])) as [= ->] by (rewrite <- Hr; vm_compute; reflexivity). exact Hx.
  - destruct (socksLookup_sound id toy_query "www.example." TypeA) as (_ & He & _). rewrite He; [vm_compute; reflexivity|].
    intros k name typ Hk. by rewrite (proj2 (Nat.ltb_lt k 8) Hk).
  - destruct (socksLookup_sound id toy_query "host.example." TypeA) as (_ & _ & Hd).
    apply (Hd "host.example." toy_answers); [vm_compute; reflexivity|vm_compute; discriminate].
Defined.
