(* ===== verification/Update.v ===== *)
(** * Installing an update

    update/update.go: finding the latest release, verifying its archive, and
    installing the pair of binaries under an install root: a directory
    [versions] with a directory per version, and a link [current] to one of
    them.  A run is driven by hints, one per system call: the call succeeds,
    fails, or the process dies in it, in the two last cases with part of its
    work done when the call is not atomic.  The HTTP client, the decoder of the
    release document, SHA-256, the archive readers and golang.org/x/mod/semver
    are parameters. *)

From S2P Require Import Prelude GoStrings FilePath.
Local Open Scope Z_scope.

Inductive update_error : Type :=
  | EHTTP (url : string) | EDecodeRelease | EStableTag (tag : string) | EMultipleArchives | ELacksAssets (tag : string)
  | EInvalidVersions | ENoRoot | EInvalidVersion (version : string)
  | EScan | EChecksumMissing (name : string) | EChecksumMismatch (name : string)
  | EArchive | EMemberDuplicate (base : string) | EMemberRead | EArchiveLacks
  | EExisting (e : update_error) | EInspect | EPublish (e : update_error) | ENoTarget | EEscapes
  (** what a system call reports *)
  | ENotExist | EExist | EIO.

Record Release : Type := MkRelease { Version : string; ArchiveURL : string; ArchiveName : string; ChecksumsURL : string }.
Record githubAsset : Type := MkAsset { a_Name : string; a_BrowserDownloadURL : string }.
Record githubRelease : Type := MkGithubRelease { g_TagName : string; g_Draft : bool; g_Prerelease : bool; g_Assets : list githubAsset }.
Record Client : Type := MkClient { c_APIURL : string; c_Root : string; c_GOOS : string; c_GOARCH : string }.
(** A member of an archive: whether it can be opened, what its reader yields
    before an end of file or an error, and whether closing it succeeds. *)
Record Member : Type := MkMember {
  mb_Name : string; mb_Dir : bool; mb_Regular : bool; mb_Opens : bool; mb_Data : string; mb_Clean : bool; mb_Closes : bool }.

Class Semver : Type := { IsValid : string → bool; Compare : string → string → Z }.
(** Its documentation: a version begins with [v] and has the characters of a
    semantic version, no slash among them. *)
Class SemverLaws `{Semver} : Prop := {
  IsValid_v v : IsValid v = true → HasPrefix v "v" = true;
  IsValid_slash v : IsValid v = true → slash ∉ chars v }.
Class Archives : Type := {
  (** the members, and whether the archive ends without an error *)
  zip_members : string → option (list Member);
  tar_members : string → option (list Member * bool);
  sha256_hex : string → string;
  UnmarshalRelease : string → option githubRelease;
  runtime_GOOS : string;
  runtime_GOARCH : string }.
(** What the server answers during one run, by the URL: a run asks for each of its
    three documents once, and the next run may get other answers. *)
Class Server : Type := { http_Do : string → option (Z * string) }.

Definition defaultAPIURL : string := "https://api.github.com/repos/maisem/tailmix/releases/latest".
(** [io.LimitReader]. *)
Definition limit (n : Z) (s : string) : string := if Z.of_nat (String.length s) <=? n then s else String.substring 0 (Z.to_nat n) s.
Definition MaxBody : Z := 256 * 2 ^ 20.
Definition MaxBinary : Z := 128 * 2 ^ 20.
Definition MaxToken : Z := 64 * 2 ^ 10.
(** [strings.Fields]. *)
Fixpoint fields_from (word : list Ascii.ascii) (l : list Ascii.ascii) : list string :=
  match l with
  | [] => if decide (word = []) then [] else [text (reverse word)]
  | c :: l => if is_space c then (if decide (word = []) then fields_from [] l else text (reverse word) :: fields_from [] l)
              else fields_from (c :: word) l
  end.
Definition Fields (s : string) : list string := fields_from [] (chars s).
Definition NL : Ascii.ascii := char_of 10.
Definition CR : string := String (char_of 13) "".
(** [filepath.Base]. *)
Definition Base (p : string) : string :=
  if String.eqb p "" then "."
  else match TrimRight (char_eqb slash) p with
       | "" => "/"
       | p => default "" (last (Split p slash))
       end.

Section release.
Context `{Semver} `{Archives} `{SV : Server}.

Definition defaults (c : Client) : Client :=
  MkClient (if String.eqb (c_APIURL c) "" then defaultAPIURL else c_APIURL c) (c_Root c)
    (if String.eqb (c_GOOS c) "" then runtime_GOOS else c_GOOS c) (if String.eqb (c_GOARCH c) "" then runtime_GOARCH else c_GOARCH c).
Definition get (url : string) : result update_error string :=
  match http_Do url with
  | Some (status, body) => if negb (status =? 200) then Err (EHTTP url) else Ok (limit MaxBody body)
  | None => Err (EHTTP url)
  end.
Definition getJSON (url : string) : result update_error githubRelease :=
  b ← get url;
  match UnmarshalRelease b with Some g => Ok g | None => Err EDecodeRelease end.
Definition latest_asset (goos goarch : string) (r : Release) (a : githubAsset) : result update_error Release :=
  let suffix := if String.eqb goos "windows" then ".zip" else ".tar.gz" in
  let needle := "_" +:+ goos +:+ "_" +:+ goarch in
  if String.eqb (a_Name a) "checksums.txt" || HasSuffix (a_Name a) "_checksums.txt"
  then Ok (MkRelease (Version r) (ArchiveURL r) (ArchiveName r) (a_BrowserDownloadURL a))
  else if StrContains (a_Name a) needle && HasSuffix (a_Name a) suffix
  then if negb (String.eqb (ArchiveURL r) "") then Err EMultipleArchives
       else Ok (MkRelease (Version r) (a_BrowserDownloadURL a) (a_Name a) (ChecksumsURL r))
  else Ok r.
Definition Latest (c : Client) : result update_error Release :=
  let c := defaults c in
  gr ← getJSON (c_APIURL c);
  if g_Draft gr || g_Prerelease gr || negb (IsValid (g_TagName gr)) then Err (EStableTag (g_TagName gr))
  else
    r ← foldM (latest_asset (c_GOOS c) (c_GOARCH c)) (g_Assets gr) (MkRelease (g_TagName gr) "" "" "");
    if String.eqb (ArchiveURL r) "" || String.eqb (ChecksumsURL r) "" then Err (ELacksAssets (g_TagName gr)) else Ok r.
Definition Newer (current latest : string) : result update_error bool :=
  let current := if HasPrefix current "v" then current else "v" +:+ current in
  if negb (IsValid current) || negb (IsValid latest) then Err EInvalidVersions else Ok (0 <? Compare latest current).
Definition zero_release : Release := MkRelease "" "" "" "".
Definition Check_ (c : Client) (current : string) : Release * bool * option update_error :=
  match Latest c with
  | Err e => (zero_release, false, Some e)
  | Ok r => match Newer current (Version r) with Ok newer => (r, newer, None) | Err e => (r, false, Some e) end
  end.

(** The first line with two fields that names the archive decides. *)
Fixpoint find_checksum (name : string) (lines : list string) : result update_error string :=
  match lines with
  | [] => Ok ""
  | line :: lines =>
    if MaxToken <=? Z.of_nat (String.length line) then Err EScan
    else match Fields (TrimSuffix line CR) with
         | [sum; file] => if String.eqb (TrimPrefix file "*") name then Ok sum else find_checksum name lines
         | _ => find_checksum name lines
         end
  end.
Definition verifyChecksum (name data sums : string) : result update_error unit :=
  want ← find_checksum name (Split sums NL);
  if String.eqb want "" then Err (EChecksumMissing name)
  else if negb (EqualFold want (sha256_hex data)) then Err (EChecksumMismatch name) else Ok tt.
End release.

(** ** The install root and its system calls *)

(** The files of a version, by name. *)
Notation dir := (gmap string string).
(** [None]: no such entry.  [r_new] is the link .current.new. *)
Record Root : Type := MkRoot { r_versions : option (gmap string dir); r_current : option string; r_new : option string }.
Definition set_versions (x : option (gmap string dir)) (r : Root) : Root := MkRoot x (r_current r) (r_new r).
Definition set_current (x : option string) (r : Root) : Root := MkRoot (r_versions r) x (r_new r).
Definition set_new (x : option string) (r : Root) : Root := MkRoot (r_versions r) (r_current r) x.
Definition versions (r : Root) : gmap string dir := default ∅ (r_versions r).
Definition alter_dir (f : dir → dir) (name : string) (r : Root) : Root := set_versions (alter f name <$> r_versions r) r.

Inductive decision : Type := Fine | Fails (n : nat) | Dies (n : nat).
(** [w_temp]: the names [os.MkdirTemp] tries. *)
Record world : Type := MkWorld { w_root : Root; w_hints : list decision; w_temp : list string }.
Inductive outcome (A : Type) : Type :=
  | Returned (r : result update_error A) (w : world)
  | Dead (root : Root).
Arguments Returned {A} _ _.
Arguments Dead {A} _.
Definition M (A : Type) : Type := world → outcome A.
#[export] Instance M_ret : MRet M := λ _ a w, Returned (Ok a) w.
#[export] Instance M_bind : MBind M := λ _ _ f m w,
  match m w with
  | Returned (Ok a) w' => f a w'
  | Returned (Err e) w' => Returned (Err e) w'
  | Dead root => Dead root
  end.
Definition lift {A} (r : result update_error A) : M A := λ w, Returned r w.
Definition fail {A} (e : update_error) : M A := lift (Err e).
(** The error as a value, as Go has it. *)
Definition try_ {A} (m : M A) : M (result update_error A) := λ w,
  match m w with Returned r w' => Returned (Ok r) w' | Dead root => Dead root end.
Definition ignore {A} (m : M A) : M unit := _ ← try_ m; mret tt.
Definition syscall {A} (part : nat → Root → Root) (call : Root → result update_error (Root * A)) : M A := λ w,
  let '(d, hints) := match w_hints w with [] => (Fine, []) | d :: hints => (d, hints) end in
  match d with
  | Fine => match call (w_root w) with
            | Ok (root, a) => Returned (Ok a) (MkWorld root hints (w_temp w))
            | Err e => Returned (Err e) (MkWorld (w_root w) hints (w_temp w))
            end
  | Fails n => Returned (Err EIO) (MkWorld (part n (w_root w)) hints (w_temp w))
  | Dies n => Dead (part n (w_root w))
  end.
Definition atomic {A} (call : Root → result update_error (Root * A)) : M A := syscall (λ _ r, r) call.

Definition MkdirAll_versions : M unit := atomic (λ r, Ok (set_versions (Some (versions r)) r, tt)).
(** A new directory of versions with the first free name. *)
Definition MkdirTemp (prefix : string) : M string := λ w,
  atomic (λ r,
    match r_versions r with
    | None => Err ENotExist
    | Some vs => match list_find (λ name, vs !! name = None) (map (String.append prefix) (w_temp w)) with
                 | Some (_, name) => Ok (set_versions (Some (<[name := ∅]> vs)) r, name)
                 | None => Err EExist
                 end
    end) w.
(** [os.ReadDir] sorts by name. *)
Definition ReadDir_versions : M (list string) :=
  atomic (λ r, match r_versions r with Some vs => Ok (r, SortStrings (elements (dom vs))) | None => Err ENotExist end).
(** A directory of versions with its files; what does not exist is no error. *)
Definition drop_files (n : nat) (d : dir) : dir := list_to_map (drop n (map_to_list d)).
Definition RemoveAll_version (name : string) : M unit :=
  syscall (λ n, alter_dir (drop_files n) name) (λ r, Ok (set_versions (delete name <$> r_versions r) r, tt)).
Definition dir_call (name : string) (f : dir → result update_error dir) : M unit :=
  atomic (λ r, match versions r !! name with
               | Some d => d ← f d; Ok (alter_dir (λ _, d) name r, tt)
               | None => Err ENotExist
               end).
Definition Stat_version (name : string) : M unit := atomic (λ r, match versions r !! name with Some _ => Ok (r, tt) | None => Err ENotExist end).
Definition Chmod_version (name : string) : M unit := Stat_version name.
Definition Rename_version (old new : string) : M unit :=
  atomic (λ r,
    match versions r !! old, versions r !! new with
    | Some d, None => Ok (set_versions (Some (<[new := d]> (delete old (versions r)))) r, tt)
    | Some d, Some d' => if decide (d' = ∅) then Ok (set_versions (Some (<[new := d]> (delete old (versions r)))) r, tt) else Err EExist
    | None, _ => Err ENotExist
    end).
Definition Readlink_current : M string := atomic (λ r, match r_current r with Some t => Ok (r, t) | None => Err ENotExist end).
Definition Remove_new : M unit := atomic (λ r, match r_new r with Some _ => Ok (set_new None r, tt) | None => Err ENotExist end).
Definition Symlink_new (target : string) : M unit :=
  atomic (λ r, match r_new r with Some _ => Err EExist | None => Ok (set_new (Some target) r, tt) end).
Definition Rename_new : M unit :=
  atomic (λ r, match r_new r with Some t => Ok (set_new None (set_current (Some t) r), tt) | None => Err ENotExist end).
(** Opening, syncing and closing a directory or a file, as far as the entries
    see it. *)
Definition sync_ : M unit := atomic (λ r, Ok (r, tt)).
(** The directory of versions a path below the root leads to.  Names are those
    of [versions] and [current]; links are followed as far as [fuel]. *)
Fixpoint dir_at (fuel : nat) (r : Root) (p : string) : option dir :=
  match Split p slash with
  | ["versions"; v] => versions r !! v
  | ["current"] => match fuel with
                   | O => None
                   | S fuel => t ← r_current r; if IsAbs t then None else dir_at fuel r (Clean t)
                   end
  | _ => None
  end.
Definition link_fuel : nat := 40.
Definition Stat_file (p name : string) : M unit :=
  atomic (λ r, match d ← dir_at link_fuel r p; d !! name with Some _ => Ok (r, tt) | None => Err ENotExist end).

Definition create (name : string) (d : dir) : result update_error dir :=
  match d !! name with Some _ => Err EExist | None => Ok (<[name := ""]> d) end.
(** [io.Copy] of a reader that yields [data] and then an end of file, or an
    error when it is not [clean]. *)
Definition copy (stage name data : string) (clean : bool) : M unit :=
  _ ← syscall (λ n, alter_dir <[name := String.substring 0 n data]> stage)
    (λ r, Ok (alter_dir <[name := data]> stage r, tt));
  if clean then mret tt else fail EMemberRead.

(** ** Unpacking *)

Definition writeBinary (stage name data : string) (clean : bool) : M unit :=
  _ ← dir_call stage (create name);
  copied ← try_ (copy stage name (limit MaxBinary data) (clean || (MaxBinary <=? Z.of_nat (String.length data))));
  synced ← (match copied with Ok _ => try_ sync_ | Err e => mret (Err e) end);
  closed ← try_ sync_;
  match synced with Ok _ => lift closed | Err e => fail e end.
Definition wanted (base : string) : bool := String.eqb base "tailmix" || String.eqb base "tailmixd".
Definition zip_base (m : Member) : string := TrimSuffix (Base (mb_Name m)) ".exe".
Definition zip_wants (m : Member) : bool := wanted (zip_base m) && negb (mb_Dir m).
Definition tar_base (m : Member) : string := Base (mb_Name m).
Definition tar_wants (m : Member) : bool := wanted (tar_base m) && mb_Regular m.
(** The members in order; [found] is the map [wanted] of the code. *)
Fixpoint unpack_zip (stage : string) (found : gset string) (l : list Member) : M (gset string) :=
  match l with
  | [] => mret found
  | m :: l =>
    if negb (zip_wants m) then unpack_zip stage found l
    else if bool_decide (zip_base m ∈ found) then fail (EMemberDuplicate (zip_base m))
    else if negb (mb_Opens m) then fail EMemberRead
    else
      written ← try_ (writeBinary stage (zip_base m +:+ ".exe") (mb_Data m) (mb_Clean m));
      _ ← lift written;
      if negb (mb_Closes m) then fail EMemberRead else unpack_zip stage ({[zip_base m]} ∪ found) l
  end.
Fixpoint unpack_tar (stage : string) (found : gset string) (l : list Member) : M (gset string) :=
  match l with
  | [] => mret found
  | m :: l =>
    if negb (tar_wants m) then unpack_tar stage found l
    else if bool_decide (tar_base m ∈ found) then fail (EMemberDuplicate (tar_base m))
    else _ ← writeBinary stage (tar_base m) (mb_Data m) (mb_Clean m); unpack_tar stage ({[tar_base m]} ∪ found) l
  end.
Definition extractPair `{Archives} (stage name data : string) : M unit :=
  found ← (if HasSuffix name ".zip" then
             match zip_members data with Some l => unpack_zip stage ∅ l | None => fail EArchive end
           else match tar_members data with
                | Some (l, clean) => found ← unpack_tar stage ∅ l; if clean : bool then mret found else fail EArchive
                | None => fail EArchive
                end);
  if bool_decide ("tailmix" ∈ found) && bool_decide ("tailmixd" ∈ found) then mret tt else fail EArchiveLacks.

(** ** Installing *)

Definition exe (goos : string) : string := if String.eqb goos "windows" then ".exe" else "".
Definition validatePair (p goos : string) : M unit :=
  _ ← Stat_file p ("tailmix" +:+ exe goos); Stat_file p ("tailmixd" +:+ exe goos).
Definition switchLink (target : string) : M unit :=
  _ ← ignore Remove_new;
  _ ← Symlink_new target;
  renamed ← try_ Rename_new;
  match renamed with
  | Err e => _ ← ignore Remove_new; fail e
  | Ok _ => sync_
  end.
Definition stage_prefix : string := ".stage-".
Fixpoint remove_stages (names : list string) : M unit :=
  match names with
  | [] => mret tt
  | name :: names => if HasPrefix name stage_prefix then _ ← RemoveAll_version name; remove_stages names else remove_stages names
  end.
Definition Recover (c : Client) : M unit :=
  if String.eqb (c_Root c) "" then fail ENoRoot
  else
    listed ← try_ ReadDir_versions;
    names ← (match listed with Ok names => mret names | Err ENotExist => mret [] | Err e => fail e end);
    _ ← remove_stages names;
    removed ← try_ Remove_new;
    match removed with Ok _ | Err ENotExist => mret tt | Err e => fail e end.
Definition Rollback `{Archives} (c : Client) (target : string) : M unit :=
  let c := defaults c in
  if String.eqb (c_Root c) "" || String.eqb target "" then fail ENoTarget
  else
    let clean := Clean target in
    if IsAbs clean || outside clean then fail EEscapes
    else _ ← validatePair clean (c_GOOS c); switchLink clean.
Definition version_path (version : string) : string := Join ["versions"; version].
(** The body of [Install] once the staging directory exists. *)
Definition publish `{Archives} (c : Client) (r : Release) (stage archive : string) : M string :=
  _ ← extractPair stage (ArchiveName r) archive;
  _ ← Chmod_version stage;
  _ ← sync_;
  existing ← try_ (Stat_version (Version r));
  _ ← (match existing with
       | Ok _ =>
         valid ← try_ (validatePair (version_path (Version r)) (c_GOOS c));
         match valid with Err e => fail (EExisting e) | Ok _ => ignore (RemoveAll_version stage) end
       | Err ENotExist =>
         renamed ← try_ (Rename_version stage (Version r));
         match renamed with Err e => fail (EPublish e) | Ok _ => mret tt end
       | Err _ => fail EInspect
       end);
  _ ← sync_;
  linked ← try_ Readlink_current;
  old ← (match linked with Ok t => mret t | Err ENotExist => mret "" | Err e => fail e end);
  _ ← switchLink (version_path (Version r));
  mret old.
Definition Install `{Semver, Archives, SV : Server} (c : Client) (r : Release) : M string :=
  let c := defaults c in
  if String.eqb (c_Root c) "" then fail ENoRoot
  else if negb (IsValid (Version r)) then fail (EInvalidVersion (Version r))
  else
    archive ← lift (get (ArchiveURL r));
    sums ← lift (get (ChecksumsURL r));
    _ ← lift (verifyChecksum (ArchiveName r) archive sums);
    _ ← Recover c;
    _ ← MkdirAll_versions;
    stage ← MkdirTemp stage_prefix;
    published ← try_ (publish c r stage archive);
    match published with
    | Ok old => mret old
    | Err e => _ ← ignore (RemoveAll_version stage); fail e
    end.
(** The release, the old target, whether it was installed, and the error. *)
Definition Apply `{Semver, Archives, SV : Server} (c : Client) (current : string) : M (Release * string * bool * option update_error) :=
  match Check_ c current with
  | (r, newer, Some e) => mret (r, "", false, Some e)
  | (r, false, None) => mret (r, "", false, None)
  | (r, true, None) =>
    installed ← try_ (Install c r);
    match installed with Ok old => mret (r, old, true, None) | Err e => mret (r, "", false, Some e) end
  end.

(** What an archive holds, as a reference for [extractPair]: the wanted members
    with their names, each once and readable, cut at the limit. *)
Definition readable (zipped : bool) (m : Member) : bool :=
  (mb_Clean m || (MaxBinary <=? Z.of_nat (String.length (mb_Data m)))) && (negb zipped || (mb_Opens m && mb_Closes m)).
Definition wanted_zip (l : list Member) : list (string * Member) := (λ m, (zip_base m, m)) <$> filter (λ m, zip_wants m = true) l.
Definition wanted_tar (l : list Member) : list (string * Member) := (λ m, (tar_base m, m)) <$> filter (λ m, tar_wants m = true) l.
Definition place (suffix : string) (d : dir) (x : string * Member) : dir := <[x.1 +:+ suffix := limit MaxBinary (mb_Data x.2)]> d.
Definition archive_members `{Archives} (name data : string) : option (list (string * Member)) :=
  if HasSuffix name ".zip" then wanted_zip <$> zip_members data
  else '(l, clean) ← tar_members data; if clean : bool then Some (wanted_tar l) else None.
Definition pair_of `{Archives} (name data : string) : option dir :=
  l ← archive_members name data;
  if bool_decide (NoDup l.*1) && bool_decide ("tailmix" ∈ l.*1) && bool_decide ("tailmixd" ∈ l.*1) &&
     forallb (λ x, readable (HasSuffix name ".zip") x.2) l
  then Some (foldl (place (if HasSuffix name ".zip" then ".exe" else "")) ∅ l) else None.

(** ** Reasoning about interrupted runs *)

(** From a root in [P], a run that returns ends in [Q] and one that dies leaves
    the root in [C], whatever the hints. *)
Definition triple {A} (P : Root → Prop) (m : M A) (Q : result update_error A → Root → Prop) (C : Root → Prop) : Prop :=
  ∀ w, P (w_root w) → match m w with Returned r w' => Q r (w_root w') | Dead root => C root end.

Section triples.
Implicit Types (P C : Root → Prop).
Lemma triple_conseq {A} P P' (m : M A) Q Q' C C' :
  triple P' m Q' C' → (∀ r, P r → P' r) → (∀ a r, Q' a r → Q a r) → (∀ r, C' r → C r) → triple P m Q C.
Proof using. intros Hm HP HQ HC w Hw. specialize (Hm w (HP _ Hw)). destruct (m w); auto. Qed.
Lemma triple_pre {A} P P' (m : M A) Q C : (∀ r, P r → P' r) → triple P' m Q C → triple P m Q C.
Proof using. intros HP Hm w Hw. exact (Hm w (HP _ Hw)). Qed.
Lemma triple_pure {A} (φ : Prop) P (m : M A) Q C : (∀ r, P r → φ) → (φ → triple P m Q C) → triple P m Q C.
Proof using. intros Hφ Hm w Hw. exact (Hm (Hφ _ Hw) w Hw). Qed.
Lemma triple_ret {A} (a : A) P Q C : (∀ r, P r → Q (Ok a) r) → triple P (mret a) Q C.
Proof using. intros HQ w Hw. cbn. auto. Qed.
Lemma triple_lift {A} (x : result update_error A) P Q C : (∀ r, P r → Q x r) → triple P (lift x) Q C.
Proof using. intros HQ w Hw. cbn. auto. Qed.
Lemma triple_bind {A B} P (m : M A) (f : A → M B) R Q C :
  triple P m (λ x r, match x with Ok a => R a r | Err e => Q (Err e) r end) C → (∀ a, triple (R a) (f a) Q C) → triple P (m ≫= f) Q C.
Proof using.
  intros Hm Hf w Hw. specialize (Hm w Hw). unfold mbind, M_bind. destruct (m w) as [[a|e] w'|root]; [|done..]. by apply Hf.
Qed.
Lemma triple_try {A} P (m : M A) Q C : triple P m (λ x r, Q (Ok x) r) C → triple P (try_ m) Q C.
Proof using. intros Hm w Hw. specialize (Hm w Hw). unfold try_. by destruct (m w). Qed.
Lemma triple_syscall {A} P part (call : Root → result update_error (Root * A)) Q C :
  (∀ r, P r → match call r with Ok (r', a) => Q (Ok a) r' | Err e => Q (Err e) r end) →
  (∀ n r, P r → Q (Err EIO) (part n r) ∧ C (part n r)) → triple P (syscall part call) Q C.
Proof using.
  intros Hc Hp w Hw. unfold syscall. destruct (w_hints w) as [|d hints].
  - specialize (Hc _ Hw). by destruct (call (w_root w)) as [[r' a]|e].
  - destruct d as [|n|n]; [|apply (Hp n _ Hw)..]. specialize (Hc _ Hw). by destruct (call (w_root w)) as [[r' a]|e].
Qed.
Lemma triple_atomic {A} P (call : Root → result update_error (Root * A)) Q C :
  (∀ r, P r → match call r with Ok (r', a) => Q (Ok a) r' | Err e => Q (Err e) r end) →
  (∀ r, P r → Q (Err EIO) r ∧ C r) → triple P (atomic call) Q C.
Proof using. intros Hc Hp. by apply triple_syscall; [|intros _]. Qed.
Lemma triple_ignore {A} P (m : M A) Q C : triple P m (λ _ r, Q (Ok tt) r) C → triple P (ignore m) Q C.
Proof using.
  intros Hm. unfold ignore. apply (triple_bind _ _ _ (λ _, Q (Ok tt))); [|intros a; by apply triple_ret].
  by apply triple_try.
Qed.
End triples.

(** What an interrupted run may not disturb: the versions other than staging
    directories, and the link. *)
Definition is_stage (v : string) : bool := HasPrefix v stage_prefix.
Definition live_versions (r : Root) : gmap string dir := filter (λ x, is_stage x.1 = false) (versions r).
Definition live (r : Root) : gmap string dir * option string := (live_versions r, r_current r).
Definition keeps {A} (L : gmap string dir * option string) (m : M A) : Prop :=
  triple (λ r, live r = L) m (λ _ r, live r = L) (λ r, live r = L).
(** ... and the staging directory holds [d]. *)
Definition staged (L : gmap string dir * option string) (stage : string) (d : dir) (r : Root) : Prop :=
  live r = L ∧ versions r !! stage = Some d.

Lemma live_lookup r v : live_versions r !! v = if is_stage v then None else versions r !! v.
Proof.
  unfold live_versions. apply option_eq. intros d. rewrite map_lookup_filter_Some. cbn [fst].
  destruct (is_stage v); split; [by intros []|done|by intros []|done].
Qed.
Lemma live_eq r r' : (∀ v, is_stage v = false → versions r' !! v = versions r !! v) → r_current r' = r_current r → live r' = live r.
Proof. intros Hv Hc. unfold live. f_equal; [|done]. apply map_eq. intros v. rewrite !live_lookup. destruct (is_stage v) eqn:E; auto. Qed.
Lemma versions_alter f name r : versions (alter_dir f name r) = alter f name (versions r).
Proof. unfold versions, alter_dir. cbn. destruct (r_versions r); cbn; [done|]. apply map_eq. intros i.
  destruct (decide (name = i)) as [->|]; [rewrite lookup_alter_eq|rewrite lookup_alter_ne by done]; by rewrite !lookup_empty.
Qed.
Lemma versions_delete name r : versions (set_versions (delete name <$> r_versions r) r) = delete name (versions r).
Proof. unfold versions. cbn. destruct (r_versions r); cbn; [done|]. by rewrite delete_empty. Qed.
Lemma live_alter f name r : is_stage name = true → live (alter_dir f name r) = live r.
Proof.
  intros Hs. apply live_eq; [|done]. intros v Hv. rewrite versions_alter, lookup_alter_ne; [done|congruence].
Qed.
Lemma live_delete name r : is_stage name = true → live (set_versions (delete name <$> r_versions r) r) = live r.
Proof.
  intros Hs. apply live_eq; [|done]. intros v Hv. rewrite versions_delete, lookup_delete_ne; [done|congruence].
Qed.
Lemma live_new x r : live (set_new x r) = live r.
Proof. done. Qed.
#[export] Hint Rewrite live_alter live_delete using done : live.

Lemma keeps_bind {A B} L (m : M A) (f : A → M B) : keeps L m → (∀ a, keeps L (f a)) → keeps L (m ≫= f).
Proof. intros Hm Hf. apply (triple_bind _ _ _ (λ _ r, live r = L)); [|done]. eapply triple_conseq; [exact Hm|done| |done]. by intros []. Qed.
Lemma keeps_ret {A} L (a : A) : keeps L (mret a).
Proof. by apply triple_ret. Qed.
Lemma keeps_lift {A} L (x : result update_error A) : keeps L (lift x).
Proof. by apply triple_lift. Qed.
Lemma keeps_try {A} L (m : M A) : keeps L m → keeps L (try_ m).
Proof. intros Hm. apply (triple_try _ _ (λ _ r, live r = L)). exact Hm. Qed.
Lemma keeps_ignore {A} L (m : M A) : keeps L m → keeps L (ignore m).
Proof. intros Hm. apply (triple_ignore _ _ (λ _ r, live r = L)). exact Hm. Qed.
Lemma keeps_syscall {A} L part (call : Root → result update_error (Root * A)) :
  (∀ r r' a, call r = Ok (r', a) → live r' = live r) → (∀ n r, live (part n r) = live r) → keeps L (syscall part call).
Proof.
  intros Hc Hp. apply triple_syscall; [|intros n r <-; auto]. intros r <-. destruct (call r) as [[r' a]|e] eqn:E; [eauto|done].
Qed.
Lemma keeps_atomic {A} L (call : Root → result update_error (Root * A)) : (∀ r r' a, call r = Ok (r', a) → live r' = live r) → keeps L (atomic call).
Proof. intros Hc. by apply keeps_syscall. Qed.
Create HintDb keeps discriminated.
#[export] Hint Resolve keeps_bind keeps_ret keeps_lift keeps_try keeps_ignore : keeps.

Lemma keeps_MkdirAll L : keeps L MkdirAll_versions.
Proof. apply keeps_atomic. intros r r' a [= <- <-]. by apply live_eq. Qed.
Lemma keeps_ReadDir L : keeps L ReadDir_versions.
Proof. apply keeps_atomic. intros r r' a. destruct (r_versions r); [|done]. by intros [= <- <-]. Qed.
Lemma keeps_RemoveAll L name : is_stage name = true → keeps L (RemoveAll_version name).
Proof.
  intros Hs. apply keeps_syscall; [|intros n r; by apply live_alter]. intros r r' a [= <- <-]. by apply live_delete.
Qed.
Lemma keeps_dir_call L name f : is_stage name = true → keeps L (dir_call name f).
Proof.
  intros Hs. apply keeps_atomic. intros r r' a. destruct (versions r !! name) as [d|]; [|done]. destruct (f d) as [d'|]; [|done].
  intros [= <- <-]. by apply live_alter.
Qed.
Lemma keeps_Remove_new L : keeps L Remove_new.
Proof. apply keeps_atomic. intros r r' a. destruct (r_new r); [|done]. by intros [= <- <-]. Qed.
Lemma keeps_sync L : keeps L sync_.
Proof. apply keeps_atomic. by intros r r' a [= <- <-]. Qed.
#[export] Hint Resolve keeps_MkdirAll keeps_ReadDir keeps_RemoveAll keeps_dir_call keeps_Remove_new keeps_sync : keeps.
Lemma keeps_stages L names : keeps L (remove_stages names).
Proof. induction names as [|name names IH]; cbn [remove_stages]; [apply keeps_ret|]. destruct (HasPrefix name stage_prefix) eqn:E; auto with keeps. Qed.
#[export] Hint Resolve keeps_stages : keeps.
Lemma keeps_Recover L c : keeps L (Recover c).
Proof.
  unfold Recover. destruct (String.eqb _ _); [apply keeps_lift|]. apply keeps_bind; [auto with keeps|]. intros listed. apply keeps_bind.
  - destruct listed as [|[]]; auto with keeps; apply keeps_lift.
  - intros names. apply keeps_bind; [auto with keeps|]. intros _. apply keeps_bind; [auto with keeps|]. intros [|[]]; auto with keeps; apply keeps_lift.
Qed.

(** A run that leaves what is live alone and, when it succeeds, ends in [R]. *)
Definition does {A} (L : gmap string dir * option string) (P : Root → Prop) (m : M A) (R : A → Root → Prop) : Prop :=
  triple (λ r, live r = L ∧ P r) m (λ x r, live r = L ∧ ∀ a, x = Ok a → R a r) (λ r, live r = L).
Lemma append_empty (s : string) : s +:+ "" = s.
Proof. induction s as [|c s IH]; [done|]. exact (f_equal (String c) IH). Qed.
(** What a loop over members found, as a relation to the wanted ones. *)
Definition taken (zipped : bool) (found : gset string) (l : list (string * Member)) (found' : gset string) : Prop :=
  (∀ b, b ∈ l.*1 → b ∉ found) ∧ NoDup l.*1 ∧ forallb (λ x, readable zipped x.2) l = true ∧ found' = list_to_set l.*1 ∪ found.
Lemma taken_nil zipped found : taken zipped found [] found.
Proof. split_and!; [by intros b ?%elem_of_nil|constructor|done|]. cbn. by rewrite (left_id_L ∅ (∪)). Qed.
Lemma taken_cons zipped found b m l found' :
  b ∉ found → readable zipped m = true → taken zipped ({[b]} ∪ found) l found' → taken zipped found ((b, m) :: l) found'.
Proof.
  intros Hb Hm (Hn & Hd & Hr & ->). unfold taken. rewrite fmap_cons. cbn [fst]. split_and!.
  - intros x [->|Hx]%elem_of_cons; [done|]. specialize (Hn x Hx). set_solver.
  - constructor; [|done]. intros Hx. specialize (Hn b Hx). set_solver.
  - cbn [forallb snd]. by rewrite Hm, Hr.
  - cbn [list_to_set]. set_solver.
Qed.

Section does.
Context (L : gmap string dir * option string).
Implicit Types (P : Root → Prop).
Lemma does_bind {A B} P (m : M A) (f : A → M B) R R' : does L P m R → (∀ a, does L (R a) (f a) R') → does L P (m ≫= f) R'.
Proof using.
  intros Hm Hf. apply (triple_bind _ _ _ (λ a r, live r = L ∧ R a r)); [|exact Hf].
  eapply triple_conseq; [exact Hm|done| |done]. intros [a|e] r [Hl HR]; split; auto; done.
Qed.
Lemma does_ret {A} P (a : A) (R : A → Root → Prop) : (∀ r, P r → R a r) → does L P (mret a) R.
Proof using. intros HR. apply triple_ret. intros r [Hl HP]. split; [done|]. intros ? [= <-]. auto. Qed.
Lemma does_lift {A} P (x : result update_error A) (R : A → Root → Prop) : (∀ r a, x = Ok a → P r → R a r) → does L P (lift x) R.
Proof using. intros HR. apply triple_lift. intros r [Hl HP]. split; [done|]. intros a Ha. eauto. Qed.
Lemma does_fail {A} P e (R : A → Root → Prop) : does L P (fail e) R.
Proof using. by apply does_lift. Qed.
Lemma does_bind_lift {A B} P (x : result update_error A) (f : A → M B) R : (∀ a, x = Ok a → does L P (f a) R) → does L P (lift x ≫= f) R.
Proof using. intros Hf w Hw. destruct x as [a|e]; [exact (Hf a eq_refl w Hw)|]. cbn. by split; [destruct Hw|]. Qed.
Lemma does_try {A} P (m : M A) R : does L P m R → does L P (try_ m) (λ x r, ∀ a, x = Ok a → R a r).
Proof using.
  intros Hm. apply triple_try. eapply triple_conseq; [exact Hm|done| |done]. intros x r [Hl HR]. split; [done|]. by intros ? [= <-].
Qed.
Lemma does_syscall {A} P part (call : Root → result update_error (Root * A)) (R : A → Root → Prop) :
  (∀ r r' a, P r → call r = Ok (r', a) → live r' = live r ∧ R a r') → (∀ n r, live (part n r) = live r) → does L P (syscall part call) R.
Proof using.
  intros Hc Hp. apply triple_syscall.
  - intros r [Hl HP]. destruct (call r) as [[r' a]|e] eqn:E; [|done]. destruct (Hc r r' a HP E) as [Hl' HR]. split; [congruence|]. by intros ? [= <-].
  - intros n r [Hl HP]. rewrite Hp. done.
Qed.
Lemma does_atomic {A} P (call : Root → result update_error (Root * A)) (R : A → Root → Prop) :
  (∀ r r' a, P r → call r = Ok (r', a) → live r' = live r ∧ R a r') → does L P (atomic call) R.
Proof using. intros Hc. by apply does_syscall. Qed.
Lemma does_keeps {A} P (m : M A) : keeps L m → does L P m (λ _ _, True).
Proof using. intros Hm. eapply triple_conseq; [exact Hm|by intros r []|done|done]. Qed.
Lemma does_conseq {A} P P' (m : M A) R R' : does L P' m R' → (∀ r, P r → P' r) → (∀ a r, R' a r → R a r) → does L P m R.
Proof using.
  intros Hm HP HR. eapply triple_conseq; [exact Hm| | |done]; [intros r []; auto|]. intros x r [Hl Hx]. split; [done|]. intros a Ha. auto.
Qed.
Lemma does_pure {A} (φ : Prop) P (m : M A) R : (∀ r, P r → φ) → (φ → does L P m R) → does L P m R.
Proof using. intros Hφ Hm. apply (triple_pure φ); [|done]. intros r []. eauto. Qed.
Lemma does_pre {A} P (m : M A) P' R : (∀ r, P r → P' r) → does L P' m R → does L P m R.
Proof using. intros HP Hm. by eapply does_conseq. Qed.
Lemma does_frame {A} P (m : M A) R (φ : Prop) : does L P m R → does L (λ r, P r ∧ φ) m (λ a r, R a r ∧ φ).
Proof using. intros Hm. apply (does_pure φ); [by intros r []|]. intros Hφ. eapply does_conseq; [exact Hm|by intros r []|auto]. Qed.

Context (stage : string) (Hstage : is_stage stage = true).
Definition dir_is (d : dir) (r : Root) : Prop := versions r !! stage = Some d.
Lemma does_try_sync P : does L P (try_ sync_) (λ _, P).
Proof using.
  apply triple_try, triple_atomic; intros r [Hl HP]; [|split; [|done]]; (split; [done|]); by intros ? [= <-].
Qed.
Lemma does_dir_call d (f : dir → result update_error dir) : does L (dir_is d) (dir_call stage f) (λ _ r, ∃ d', f d = Ok d' ∧ dir_is d' r).
Proof using Hstage.
  apply does_atomic. intros r r' a Hd. unfold dir_is in Hd. rewrite Hd. destruct (f d) as [d'|] eqn:E; [|done]. intros [= <- <-]. split; [by apply live_alter|].
  exists d'. split; [done|]. unfold dir_is. rewrite versions_alter, lookup_alter_eq, Hd. done.
Qed.
Lemma does_copy d name data clean :
  does L (dir_is d) (copy stage name data clean) (λ _ r, clean = true ∧ dir_is (<[name := data]> d) r).
Proof using Hstage.
  unfold copy. apply (does_bind _ _ _ (λ _, dir_is (<[name := data]> d))).
  - apply does_syscall; [|intros n r; by apply live_alter]. intros r r' a Hd [= <- <-]. split; [by apply live_alter|].
    unfold dir_is in *. rewrite versions_alter, lookup_alter_eq, Hd. done.
  - intros _. destruct clean; [|apply does_fail]. by apply does_ret.
Qed.
Lemma does_writeBinary d name data clean :
  does L (dir_is d) (writeBinary stage name data clean) (λ _ r, (d !! name = None ∧ clean || (MaxBinary <=? Z.of_nat (String.length data)) = true) ∧
    dir_is (<[name := limit MaxBinary data]> d) r).
Proof using Hstage.
  unfold writeBinary. set (ok := clean || _). set (d' := <[name := limit MaxBinary data]> d).
  apply (does_bind _ _ _ (λ _ r, dir_is (<[name := ""]> d) r ∧ d !! name = None)).
  { eapply does_conseq; [apply does_dir_call|done|]. intros _ r (x & Hx & Hr). unfold create in Hx. destruct (d !! name); [done|]. by injection Hx as <-. }
  intros _. apply (does_pure (d !! name = None)); [by intros r []|]. intros Hn.
  apply (does_bind _ _ _ (λ x r, ∀ u, x = Ok u → ok = true ∧ dir_is d' r)).
  { apply (does_try _ _ (λ _ r, ok = true ∧ dir_is d' r)). eapply does_conseq; [apply does_copy|by intros r []|]. intros u r [Ho Hr]. by rewrite insert_insert_eq in Hr. }
  intros copied. apply (does_bind _ _ _ (λ x r, ∀ u, x = Ok u → ok = true ∧ dir_is d' r)).
  { destruct copied as [u|e]; [|by apply does_ret]. eapply does_conseq; [apply (does_try_sync (λ r, ok = true ∧ dir_is d' r))|intros r Hr; exact (Hr u eq_refl)|auto]. }
  intros synced. apply (does_bind _ _ _ (λ _ r, ∀ u, synced = Ok u → ok = true ∧ dir_is d' r)); [apply does_try_sync|].
  intros closed. destruct synced as [u|e]; [|apply does_fail]. apply does_lift. intros r a _ Hr. destruct (Hr u eq_refl). by split.
Qed.

Lemma does_unpack_zip l : ∀ found d, does L (dir_is d) (unpack_zip stage found l)
  (λ found' r, taken true found (wanted_zip l) found' ∧ dir_is (foldl (place ".exe") d (wanted_zip l)) r).
Proof using Hstage.
  induction l as [|m l IH]; intros found d; cbn [unpack_zip].
  { apply does_ret. intros r Hr. split; [apply taken_nil|done]. }
  destruct (zip_wants m) eqn:Ew; cbn [negb].
  2: { assert (wanted_zip (m :: l) = wanted_zip l) as -> by (unfold wanted_zip; by rewrite filter_cons_False by congruence). apply IH. }
  assert (wanted_zip (m :: l) = (zip_base m, m) :: wanted_zip l) as -> by (unfold wanted_zip; by rewrite filter_cons_True by done).
  case_bool_decide as Hf; [apply does_fail|]. destruct (mb_Opens m) eqn:Eo; cbn [negb]; [|apply does_fail].
  eapply does_bind; [apply does_try, does_writeBinary|]. intros written. apply does_bind_lift. intros u ->.
  apply (does_pre _ _ (λ r, (d !! (zip_base m +:+ ".exe") = None ∧ mb_Clean m || (MaxBinary <=? Z.of_nat (String.length (mb_Data m))) = true) ∧
    dir_is (<[zip_base m +:+ ".exe" := limit MaxBinary (mb_Data m)]> d) r)); [intros r Hr; exact (Hr u eq_refl)|].
  destruct (mb_Closes m) eqn:Ec; cbn [negb]; [|apply does_fail].
  match goal with |- does _ (λ r, (?a ∧ ?b) ∧ _) _ _ => apply (does_pure (a ∧ b)); [by intros r []|]; intros [_ Hclean] end.
  eapply does_conseq; [apply IH|by intros r []|]. intros found' r [Ht Hr]. split; [|exact Hr].
  apply taken_cons; [done| |done]. unfold readable. by rewrite Hclean, Eo, Ec.
Qed.
Lemma does_unpack_tar l : ∀ found d, does L (dir_is d) (unpack_tar stage found l)
  (λ found' r, taken false found (wanted_tar l) found' ∧ dir_is (foldl (place "") d (wanted_tar l)) r).
Proof using Hstage.
  induction l as [|m l IH]; intros found d; cbn [unpack_tar].
  { apply does_ret. intros r Hr. split; [apply taken_nil|done]. }
  destruct (tar_wants m) eqn:Ew; cbn [negb].
  2: { assert (wanted_tar (m :: l) = wanted_tar l) as -> by (unfold wanted_tar; by rewrite filter_cons_False by congruence). apply IH. }
  assert (wanted_tar (m :: l) = (tar_base m, m) :: wanted_tar l) as -> by (unfold wanted_tar; by rewrite filter_cons_True by done).
  case_bool_decide as Hf; [apply does_fail|].
  eapply does_bind; [apply does_writeBinary|]. intros u. cbv beta.
  match goal with |- does _ (λ r, (?a ∧ ?b) ∧ _) _ _ => apply (does_pure (a ∧ b)); [by intros r []|]; intros [_ Hclean] end.
  eapply does_conseq; [apply IH|intros r [_ Hr]; exact Hr|]. intros found' r [Ht Hr]. split.
  - apply taken_cons; [done| |done]. unfold readable. by rewrite Hclean.
  - cbn [foldl]. unfold place at 2. cbn [fst snd]. rewrite append_empty. exact Hr.
Qed.
Lemma does_extractPair `{Archives} name data :
  does L (dir_is ∅) (extractPair stage name data) (λ _ r, ∃ d, pair_of name data = Some d ∧ dir_is d r).
Proof using Hstage.
  unfold extractPair, pair_of, archive_members.
  set (zipped := HasSuffix name ".zip"). set (suffix := if zipped then ".exe" else "").
  apply (does_bind _ _ _ (λ found r, ∃ l, (if zipped then wanted_zip <$> zip_members data
      else '(l, clean) ← tar_members data; if clean : bool then Some (wanted_tar l) else None) = Some l ∧
    taken zipped ∅ l found ∧ dir_is (foldl (place suffix) ∅ l) r)).
  - destruct zipped.
    + destruct (zip_members data) as [l|]; [|apply does_fail]. eapply does_conseq; [apply does_unpack_zip|done|].
      intros found r [Ht Hr]. by exists (wanted_zip l).
    + destruct (tar_members data) as [[l clean]|]; [|apply does_fail]. eapply does_bind; [apply does_unpack_tar|]. intros found.
      destruct clean; [|apply does_fail]. apply does_ret. intros r [Ht Hr]. by exists (wanted_tar l).
  - intros found. case_bool_decide as H1; [|apply does_fail]. case_bool_decide as H2; [|apply does_fail]. cbn [andb].
    apply does_ret. intros r (l & Hl & (_ & Hd & Hread & ->) & Hr). rewrite Hl. cbn [mbind option_bind].
    rewrite (right_id_L ∅ (∪)), elem_of_list_to_set in H1, H2. rewrite !bool_decide_eq_true_2, Hread by done. cbn [andb]. eauto.
Qed.
End does.
