(* ===== verification/UpdateFacts.v ===== *)
(** * What an update can do to an installation

    The install root is sound when every version has both binaries and the link
    leads to a version.  An update that is interrupted anywhere leaves a sound
    root, with every version and the link as they were or the verified release
    besides. *)

From S2P Require Import Prelude GoStrings FilePath DNSName Update.
Local Open Scope Z_scope.

Definition has_pair (goos : string) (d : dir) : Prop := is_Some (d !! ("tailmix" +:+ exe goos)) ∧ is_Some (d !! ("tailmixd" +:+ exe goos)).
Definition version_name (v : string) : Prop := plain_elem v ∧ is_stage v = false.
Definition sound_live (goos : string) (L : gmap string dir * option string) : Prop :=
  (∀ v d, L.1 !! v = Some d → has_pair goos d) ∧
  (∀ t, L.2 = Some t → ∃ v, t = version_path v ∧ version_name v ∧ is_Some (L.1 !! v)).
Definition sound (goos : string) (r : Root) : Prop := sound_live goos (live r).
(** The root a run leaves, whether it returned or died. *)
Definition after {A} (o : outcome A) : Root := match o with Returned _ w => w_root w | Dead r => r end.
Lemma triple_after {A} P (m : M A) (Q : Root → Prop) w : triple P m (λ _, Q) Q → P (w_root w) → Q (after (m w)).
Proof. intros Hm Hw. specialize (Hm w Hw). by destruct (m w). Qed.

(** ** Paths *)

Lemma version_path_eq v : plain_elem v → version_path v = "versions/" +:+ v ∧ Split (version_path v) slash = ["versions"; v] ∧
  Clean (version_path v) = version_path v ∧ IsAbs (version_path v) = false ∧ outside (version_path v) = false ∧ version_path v ≠ "".
Proof.
  intros Hv. assert (Hl : Forall plain_elem ["versions"; v]).
  { constructor; [|by constructor]. split_and!; [done..|]. apply (bool_decide_unpack _). vm_compute. exact I. }
  assert (Hs : Split ("versions/" +:+ v) slash = ["versions"; v]) by exact (Split_path ["versions"; v] ltac:(done) Hl).
  assert (Hc : Clean ("versions/" +:+ v) = "versions/" +:+ v).
  { unfold Clean, path_elements. change (IsAbs ("versions/" +:+ v)) with false. rewrite Hs, clean_foldl_plain, app_nil_r, reverse_involutive by done. done. }
  assert (version_path v = "versions/" +:+ v) as -> by exact Hc.
  split_and!; done.
Qed.
Lemma dir_at_version r v fuel : plain_elem v → dir_at fuel r (version_path v) = versions r !! v.
Proof. intros Hv. destruct (version_path_eq v Hv) as (_ & Hs & _). destruct fuel; cbn [dir_at]; by rewrite Hs. Qed.
Lemma v_not_stage v : HasPrefix v "v" = true → is_stage v = false.
Proof. unfold is_stage, HasPrefix. intros [k Hk]%list_prefix_spec. rewrite Hk. done. Qed.
Lemma v_plain v : HasPrefix v "v" = true → slash ∉ chars v → version_name v.
Proof.
  intros Hv Hs. split; [|by apply v_not_stage]. split_and!; [..|done]; intros ->; vm_compute in Hv; congruence.
Qed.

(** ** More rules *)

Definition stable {A} (m : M A) : Prop := ∀ P, triple P m (λ _, P) P.
Lemma stable_atomic {A} (call : Root → result update_error (Root * A)) : (∀ r r' a, call r = Ok (r', a) → r' = r) → stable (atomic call).
Proof. intros Hc P. apply triple_atomic; [|auto]. intros r Hr. destruct (call r) as [[r' a]|] eqn:E; [|done]. by rewrite (Hc _ _ _ E). Qed.
Lemma stable_bind {A B} (m : M A) (f : A → M B) : stable m → (∀ a, stable (f a)) → stable (m ≫= f).
Proof. intros Hm Hf P. apply (triple_bind _ _ _ (λ _, P)); [|intros a; apply Hf]. eapply triple_conseq; [apply Hm|done| |done]. by intros []. Qed.
Lemma stable_try {A} (m : M A) : stable m → stable (try_ m).
Proof. intros Hm P. apply (triple_try _ _ (λ _, P)). apply Hm. Qed.
Lemma stable_sync : stable sync_.
Proof. apply stable_atomic. by intros r r' a [= <- _]. Qed.
Lemma stable_Stat_file p name : stable (Stat_file p name).
Proof. apply stable_atomic. intros r r' a. destruct (_ ≫= _); [|done]. by intros [= <- _]. Qed.
Lemma stable_Stat_version name : stable (Stat_version name).
Proof. apply stable_atomic. intros r r' a. destruct (versions r !! name); [|done]. by intros [= <- _]. Qed.
Lemma stable_Readlink : stable Readlink_current.
Proof. apply stable_atomic. intros r r' a. destruct (r_current r); [|done]. by intros [= <- _]. Qed.
Lemma stable_validatePair p goos : stable (validatePair p goos).
Proof. apply stable_bind; [|intros _]; apply stable_Stat_file. Qed.
Lemma triple_seq {A B} P (m : M A) (f : A → M B) Q C :
  stable m → (∀ r, P r → C r) → (∀ e r, P r → Q (Err e) r) → (∀ a, triple P (f a) Q C) → triple P (m ≫= f) Q C.
Proof.
  intros Hm HC HQ Hf. apply (triple_bind _ _ _ (λ _, P)); [|exact Hf]. eapply triple_conseq; [apply (Hm P)|done| |done]. intros [] r Hr; auto.
Qed.
Lemma triple_bind_lift {A B} P (x : result update_error A) (f : A → M B) Q C :
  (∀ a, x = Ok a → triple P (f a) Q C) → (∀ e r, P r → Q (Err e) r) → triple P (lift x ≫= f) Q C.
Proof. intros Hf He w Hw. destruct x as [a|e]; [exact (Hf a eq_refl w Hw)|exact (He e _ Hw)]. Qed.
Lemma triple_exists {A X} (P : X → Root → Prop) (m : M A) Q C : (∀ x, triple (P x) m Q C) → triple (λ r, ∃ x, P x r) m Q C.
Proof. intros Hm w [x Hx]. exact (Hm x w Hx). Qed.
Lemma triple_and {A} P (m : M A) Q1 Q2 C1 C2 : triple P m Q1 C1 → triple P m Q2 C2 → triple P m (λ x r, Q1 x r ∧ Q2 x r) (λ r, C1 r ∧ C2 r).
Proof. intros H1 H2 w Hw. specialize (H1 w Hw). specialize (H2 w Hw). by destruct (m w). Qed.
(** A check that succeeded held. *)
Lemma stat_file_spec (P : Root → Prop) p name : triple P (Stat_file p name)
  (λ x r, P r ∧ (x = Ok tt → is_Some (d ← dir_at link_fuel r p; d !! name))) P.
Proof.
  apply triple_atomic; [|intros r Hr; by split]. intros r Hr. destruct (_ ≫= _) eqn:E; [|done]. split; [done|]. intros _. rewrite E. eauto.
Qed.
Lemma validatePair_spec (P : Root → Prop) p goos : triple P (validatePair p goos)
  (λ x r, P r ∧ (x = Ok tt → ∃ d, dir_at link_fuel r p = Some d ∧ has_pair goos d)) P.
Proof.
  apply (triple_bind _ _ _ (λ _ r, P r ∧ is_Some (d ← dir_at link_fuel r p; d !! ("tailmix" +:+ exe goos)))).
  - eapply triple_conseq; [apply stat_file_spec|done| |done]. intros [[]|e] r [Hr Hx]; split; auto; done.
  - intros _. eapply triple_conseq; [apply (stat_file_spec (λ r, P r ∧ is_Some (d ← dir_at link_fuel r p; d !! ("tailmix" +:+ exe goos))))|done| |by intros r []]. intros x r [[Hr [y1 H1]] Hx]. split; [done|].
    intros ->. destruct (Hx eq_refl) as [y2 H2]. destruct (dir_at link_fuel r p) as [d|]; [|done]. exists d. cbn in H1, H2. split; [done|]. by split; eexists.
Qed.

(** ** The switch of the link *)

Definition switched (vs : gmap string dir) (cur : option string) (target : string) (r : Root) : Prop :=
  live r = (vs, cur) ∨ live r = (vs, Some target).
Lemma switchLink_spec vs cur target : triple (λ r, live r = (vs, cur)) (switchLink target)
  (λ x r, switched vs cur target r ∧ (x = Ok tt → live r = (vs, Some target))) (switched vs cur target).
Proof.
  unfold switchLink. set (L := (vs, cur)).
  apply (triple_bind _ _ _ (λ _ r, live r = L)).
  { eapply triple_conseq; [apply (keeps_ignore L), keeps_Remove_new|done| |by left]. intros [[]|e] r Hr; [done|]. split; [by left|done]. }
  intros _. apply (triple_bind _ _ _ (λ _ r, live r = L ∧ r_new r = Some target)).
  { apply triple_atomic; [|intros r Hr; split; [split|]; by try left]. intros r Hr. destruct (r_new r); [split; [by left|done]|]. by split. }
  intros _. apply (triple_bind _ _ _ (λ x r, if is_ok x then live r = (vs, Some target) else live r = L)).
  { apply triple_try, triple_atomic; [|intros r [Hr _]; split; [done|by left]]. intros r [Hr ->]. unfold L in Hr. injection Hr as Hv _. unfold live. by rewrite <- Hv. }
  intros [u|e]; cbn [is_ok].
  - eapply triple_conseq; [apply stable_sync|intros r Hr; exact Hr| |by right]. intros x r Hr. split; [by right|done].
  - apply (triple_bind _ _ _ (λ _ r, live r = L)).
    + eapply triple_conseq; [apply (keeps_ignore L), keeps_Remove_new|done| |by left]. intros [[]|e'] r Hr; [done|]. split; [by left|done].
    + intros _. apply triple_lift. intros r Hr. split; [by left|done].
Qed.

(** ** Installing *)

Section installs.
Context `{Archives}.

(** An archive whose kind is that of the platform, as [Latest] picks it. *)
Definition fits (goos name : string) : Prop := HasSuffix name ".zip" = String.eqb goos "windows".
Lemma place_lookup suffix (l : list (string * Member)) b : ∀ d, is_Some (d !! (b +:+ suffix)) ∨ b ∈ l.*1 → is_Some (foldl (place suffix) d l !! (b +:+ suffix)).
Proof using.
  induction l as [|[b' m] l IH]; intros d; cbn [foldl fmap list_fmap fst]; [intros [?|?%elem_of_nil]; done|].
  intros [Hd|[->|Hl]%elem_of_cons]; apply IH; [left|left|by right]; unfold place; cbn [fst snd].
  - destruct (decide (b' +:+ suffix = b +:+ suffix)) as [->|]; [rewrite lookup_insert_eq; eauto|by rewrite lookup_insert_ne].
  - rewrite lookup_insert_eq. eauto.
Qed.
Lemma pair_of_has_pair goos name data d : fits goos name → pair_of name data = Some d → has_pair goos d.
Proof using.
  unfold fits, pair_of, has_pair, exe. intros Hf. destruct (archive_members name data) as [l|]; [|done]. cbn [mbind option_bind]. rewrite Hf.
  case_bool_decide; [|done]. case_bool_decide as Hb1; [|done]. case_bool_decide as Hb2; [|done]. cbn [andb].
  destruct (forallb _ l); [|done]. intros [= <-]. split; (destruct (String.eqb goos "windows"); apply place_lookup; by right).
Qed.

Definition published (L : gmap string dir * option string) (r : Release) (archive : string) (vs : gmap string dir) : Prop :=
  vs = L.1 ∨ (L.1 !! Version r = None ∧ ∃ d, pair_of (ArchiveName r) archive = Some d ∧ vs = <[Version r := d]> L.1).
Definition installs_live (goos : string) (L : gmap string dir * option string) (r : Release) (archive : string) (l : gmap string dir * option string) : Prop :=
  ∃ vs cur, l = (vs, cur) ∧ published L r archive vs ∧
    (cur = L.2 ∨ (cur = Some (version_path (Version r)) ∧ ∃ d, vs !! Version r = Some d ∧ has_pair goos d)).
Definition installs (goos : string) (L : gmap string dir * option string) (r : Release) (archive : string) (root : Root) : Prop :=
  installs_live goos L r archive (live root).
Lemma installs_nothing goos L r archive root : live root = L → installs goos L r archive root.
Proof using. intros <-. exists (live_versions root), (r_current root). split_and!; [done|by left|by left]. Qed.
(** The version is there with its pair, and the link is still the old one. *)
Definition ready (goos : string) (L : gmap string dir * option string) (r : Release) (archive : string) (root : Root) : Prop :=
  ∃ vs, live root = (vs, L.2) ∧ published L r archive vs ∧ ∃ d, vs !! Version r = Some d ∧ has_pair goos d.
Lemma ready_installs goos L r archive root : ready goos L r archive root → installs goos L r archive root.
Proof using. intros (vs & Hl & Hp & _). exists vs, L.2. split_and!; [done..|by left]. Qed.
End installs.
#[export] Hint Resolve installs_nothing ready_installs : core.

Section install.
Context `{Archives}.
Context (goos : string) (L : gmap string dir * option string) (r : Release) (archive stage : string).
Context (Hstage : is_stage stage = true) (Hversion : version_name (Version r)) (Hfits : fits goos (ArchiveName r)).
Local Notation installs := (installs goos L r archive).
Local Notation ready := (ready goos L r archive).

Lemma stage_not_version : stage ≠ Version r.
Proof using Hstage Hversion. intros ->. destruct Hversion as [_ ?]. congruence. Qed.
Lemma live_version root : live_versions root !! Version r = versions root !! Version r.
Proof using Hversion. rewrite live_lookup. by rewrite (proj2 Hversion). Qed.
Lemma rename_spec d : pair_of (ArchiveName r) archive = Some d →
  triple (λ root, live root = L ∧ dir_is stage d root ∧ versions root !! Version r = None) (Rename_version stage (Version r))
    (λ x root, match x with Ok _ => ready root | Err _ => live root = L end) (λ root, live root = L).
Proof using Hstage Hversion Hfits.
  intros Hd. apply triple_atomic; [|by intros root []]. intros root (<- & Hs & Hv). unfold dir_is in Hs. rewrite Hs, Hv.
  exists (<[Version r := d]> (live_versions root)). split; [|split].
  - unfold live. f_equal. apply map_eq. intros v. rewrite live_lookup.
    match goal with |- context [versions (set_versions (Some ?x) root)] => change (versions (set_versions (Some x) root)) with x end.
    destruct (decide (v = Version r)) as [->|Hne].
    + rewrite !lookup_insert_eq. by rewrite (proj2 Hversion).
    + rewrite !lookup_insert_ne, live_lookup by done. destruct (is_stage v) eqn:E; [done|]. rewrite lookup_delete_ne; [done|]. intros ->. congruence.
  - unfold published, live. cbn [fst]. right. rewrite live_version. eauto.
  - exists d. rewrite lookup_insert_eq. split; [done|]. by eapply pair_of_has_pair.
Qed.
Lemma existing_spec d : triple (λ root, live root = L ∧ dir_is stage d root) (try_ (Stat_version (Version r)))
    (λ x root, ∃ y, x = Ok y ∧ live root = L ∧ (y = Err ENotExist → dir_is stage d root ∧ versions root !! Version r = None)) (λ root, live root = L).
Proof using.
  apply triple_try, triple_atomic; [|intros root [Hl Hs]; split; [by exists (Err EIO)|done]]. intros root [Hl Hs].
  destruct (versions root !! Version r) as [d0|] eqn:E; eexists; by split_and!.
Qed.
Lemma placed_spec (c : Client) d (y : result update_error unit) : pair_of (ArchiveName r) archive = Some d → c_GOOS c = goos →
  triple (λ root, live root = L ∧ (y = Err ENotExist → dir_is stage d root ∧ versions root !! Version r = None))
    (match y with
     | Ok _ =>
       valid ← try_ (validatePair (version_path (Version r)) (c_GOOS c));
       match valid with Err e => fail (EExisting e) | Ok _ => ignore (RemoveAll_version stage) end
     | Err ENotExist =>
       renamed ← try_ (Rename_version stage (Version r));
       match renamed with Err e => fail (EPublish e) | Ok _ => mret tt end
     | Err _ => fail EInspect
     end) (λ x root, match x with Ok _ => ready root | Err _ => live root = L end) (λ root, live root = L).
Proof using Hstage Hversion Hfits.
  intros Hd Hc. rewrite Hc. assert (Hfail : ∀ P e, (∀ root, P root → live root = L) →
    triple P (fail (A:=unit) e) (λ x root, match x with Ok _ => ready root | Err _ => live root = L end) (λ root, live root = L)).
  { intros P e HP. by apply triple_lift. }
  destruct y as [u|[]]; try (apply Hfail; by intros root []).
  - apply (triple_bind _ _ _ (λ valid root, live root = L ∧ (valid = Ok tt → ∃ d, L.1 !! Version r = Some d ∧ has_pair goos d))).
    + apply triple_try. eapply triple_conseq; [apply (validatePair_spec (λ root, live root = L))|by intros root []| |done].
      intros x root [Hl Hx]. split; [done|]. intros ->. destruct (Hx eq_refl) as (d' & Hd' & Hp). exists d'. split; [|done].
      rewrite <- Hl. change (live root).1 with (live_versions root). rewrite live_version, <- (dir_at_version _ _ link_fuel) by apply Hversion. done.
    + intros [[]|e]; [|apply Hfail; by intros root []]. apply (triple_pure (∃ d, L.1 !! Version r = Some d ∧ has_pair goos d)); [intros root []; auto|]. intros Hp.
      eapply triple_conseq; [apply (keeps_ignore L), keeps_RemoveAll, Hstage|by intros root []| |done].
      intros [[]|e] root Hl; [|done]. exists L.1. split; [by rewrite Hl; destruct L|]. split; [by left|done].
  - apply (triple_bind _ _ _ (λ x root, match x with Ok _ => ready root | Err _ => live root = L end)).
    + apply triple_try. eapply triple_conseq; [by apply rename_spec|intros root [Hl Hr]; destruct (Hr eq_refl); by split_and!|done|done].
    + intros [[]|e]; [by apply triple_ret|by apply Hfail].
Qed.
Lemma readlink_spec : triple ready (try_ Readlink_current)
  (λ x root, ∃ y, x = Ok y ∧ ready root ∧ match y with Ok t => L.2 = Some t | Err ENotExist => L.2 = None | Err _ => True end) ready.
Proof using.
  apply triple_try, triple_atomic; [|intros root Hr; split; [by exists (Err EIO)|done]]. intros root Hr.
  destruct Hr as (vs & Hl & Hr). pose proof Hl as [= _ Hc].
  destruct (r_current root) eqn:E; eexists; (split; [done|]); (split; [by exists vs; rewrite <- E in *; split|done]).
Qed.
Lemma switch_ready : triple ready (switchLink (version_path (Version r)))
  (λ x root, installs root ∧ (x = Ok tt → r_current root = Some (version_path (Version r)))) installs.
Proof using.
  apply triple_exists. intros vs. apply (triple_pure (published L r archive vs ∧ ∃ d, vs !! Version r = Some d ∧ has_pair goos d)); [by intros root []|]. intros [Hp Hd].
  assert (∀ root, switched vs L.2 (version_path (Version r)) root → installs root) as Hs.
  { intros root [Hl|Hl]; [exists vs, L.2; split_and!; [done..|by left]|exists vs, (Some (version_path (Version r))); split_and!; [done..|by right]]. }
  eapply triple_conseq; [apply (switchLink_spec vs L.2)|by intros root []| |exact Hs]. intros x root [Hx Ho]. split; [auto|]. intros ->.
  by injection (Ho eq_refl).
Qed.
Lemma publish_spec (c : Client) : c_GOOS c = goos →
  triple (λ root, live root = L ∧ dir_is stage ∅ root) (publish c r stage archive)
    (λ x root, installs root ∧ ∀ old, x = Ok old → r_current root = Some (version_path (Version r)) ∧ old = default "" L.2) installs.
Proof using Hstage Hversion Hfits.
  intros Hc. assert (Hno : ∀ e root, live root = L → installs root ∧ ∀ old, (Err e : result update_error string) = Ok old → r_current root = Some (version_path (Version r)) ∧ old = default "" L.2).
  { intros e root Hl. by split; [apply installs_nothing|]. }
  unfold publish. apply (triple_bind _ _ _ (λ _ root, ∃ d, pair_of (ArchiveName r) archive = Some d ∧ live root = L ∧ dir_is stage d root)).
  { eapply triple_conseq; [apply (does_extractPair L stage Hstage)|done| |intros root Hl; by apply installs_nothing].
    intros [[]|e] root [Hl Hx]; [|auto]. destruct (Hx () eq_refl) as (d & Hd & Hr). eauto. }
  intros _. apply triple_exists. intros d. apply (triple_pure (pair_of (ArchiveName r) archive = Some d)); [by intros root []|]. intros Hd.
  apply (triple_pre _ (λ root, live root = L ∧ dir_is stage d root)); [by intros root (_ & ? & ?)|].
  apply triple_seq; [apply stable_Stat_version|intros root []; by apply installs_nothing|intros e root []; auto|]. intros _.
  apply triple_seq; [apply stable_sync|intros root []; by apply installs_nothing|intros e root []; auto|]. intros _.
  apply (triple_bind _ _ _ (λ y root, live root = L ∧ (y = Err ENotExist → dir_is stage d root ∧ versions root !! Version r = None))).
  { eapply triple_conseq; [apply (existing_spec d)|done| |intros root Hl; by apply installs_nothing]. by intros x root (? & -> & Hx). }
  intros y. apply (triple_bind _ _ _ (λ _, ready)).
  { eapply triple_conseq; [by apply (placed_spec c d y)|done| |intros root Hl; by apply installs_nothing]. intros [[]|e] root Hx; auto. }
  intros _. apply triple_seq; [apply stable_sync|intros root Hr; by apply ready_installs|intros e root Hr; by split; [apply ready_installs|]|]. intros _.
  apply (triple_bind _ _ _ (λ y root, ready root ∧ match y with Ok t => L.2 = Some t | Err ENotExist => L.2 = None | Err _ => True end)).
  { eapply triple_conseq; [apply readlink_spec|done| |apply ready_installs]. by intros x root (? & -> & Hx). }
  intros linked. apply (triple_bind _ _ _ (λ old root, ready root ∧ old = default "" L.2)).
  { destruct linked as [t|[]]; first [apply triple_ret; by intros root [Hr ->]|apply triple_lift; intros root [Hr _]; by split; [apply ready_installs|]]. }
  intros old. apply (triple_pure (old = default "" L.2)); [by intros root []|]. intros ->.
  apply (triple_bind _ _ _ (λ _ root, installs root ∧ r_current root = Some (version_path (Version r)))).
  { eapply triple_conseq; [apply switch_ready|by intros root []| |done]. intros [[]|e] root [Hi Ho]; (split; [done|]); [by apply Ho|done]. }
  intros _. apply triple_ret. intros root [Hi Ho]. split; [done|]. by intros ? [= <-].
Qed.
End install.

(** What [Latest] returns fits the platform. *)
Lemma zip_not_targz s : HasSuffix s ".tar.gz" = true → HasSuffix s ".zip" = false.
Proof.
  unfold HasSuffix. intros [k Hk]%list_prefix_spec. rewrite Hk. done.
Qed.
Lemma Latest_fits `{Semver, Archives, SV : Server} c r : Latest c = Ok r → fits (c_GOOS (defaults c)) (ArchiveName r) ∧ IsValid (Version r) = true.
Proof.
  unfold Latest, fits. set (goos := c_GOOS (defaults c)). set (goarch := c_GOARCH (defaults c)).
  destruct (getJSON _) as [gr|]; [|done]. cbn [mbind result_bind]. destruct (g_Draft gr || g_Prerelease gr || negb (IsValid (g_TagName gr))) eqn:Eg; [done|].
  destruct (foldM _ _ _) as [r0|] eqn:Ef; [|done]. cbn [mbind result_bind]. destruct (String.eqb (ArchiveURL r0) "" || _) eqn:Eu; [done|]. intros [= <-].
  apply orb_false_iff in Eu as [Eu _]. apply String.eqb_neq in Eu. apply orb_false_iff in Eg as [_ Eg]. apply negb_false_iff in Eg.
  cut (Version r0 = g_TagName gr ∧ (ArchiveURL r0 ≠ "" → HasSuffix (ArchiveName r0) (if String.eqb goos "windows" then ".zip" else ".tar.gz") = true)).
  { intros [-> Hs]. split; [|done]. specialize (Hs Eu). destruct (String.eqb goos "windows"); [done|by apply zip_not_targz]. }
  apply (foldM_ind (λ _ r, Version r = g_TagName gr ∧ (ArchiveURL r ≠ "" → HasSuffix (ArchiveName r) (if String.eqb goos "windows" then ".zip" else ".tar.gz") = true)) _ _ _ _ Ef); [done|].
  intros l a r1 r2 _ [Hv Hu]. unfold latest_asset. destruct (String.eqb (a_Name a) "checksums.txt" || _); [by intros [= <-]|].
  destruct (StrContains _ _); cbn [andb]; [|by intros [= <-]].
  destruct (HasSuffix (a_Name a) _) eqn:E; [|by intros [= <-]]. destruct (negb _); [done|]. by intros [= <-].
Qed.
Lemma Check_valid `{Semver, Archives, SV : Server} c current r : Check_ c current = (r, true, None) → fits (c_GOOS (defaults c)) (ArchiveName r) ∧ IsValid (Version r) = true.
Proof.
  unfold Check_. destruct (Latest c) as [r0|] eqn:E; [|done]. destruct (Newer _ _); [|done]. intros [= <- _]. by apply Latest_fits.
Qed.

Section safety.
Context `{SemverLaws} `{Archives}.
(** The release came with a checksum of its archive, and was installed that far. *)
Definition touched `{SV : Server} (goos : string) (L : gmap string dir * option string) (r : Release) (root : Root) : Prop :=
  live root = L ∨ ∃ archive sums, get (ArchiveURL r) = Ok archive ∧ get (ChecksumsURL r) = Ok sums ∧
    verifyChecksum (ArchiveName r) archive sums = Ok tt ∧ installs goos L r archive root.
Lemma keeps_live {A} (φ : gmap string dir * option string → Prop) (m : M A) : (∀ L, keeps L m) →
  triple (λ r, φ (live r)) m (λ _ r, φ (live r)) (λ r, φ (live r)).
Proof using. intros Hm w Hw. specialize (Hm (live (w_root w)) w eq_refl). destruct (m w); by rewrite Hm. Qed.
Lemma MkdirTemp_spec L : does L (λ _, True) (MkdirTemp stage_prefix) (λ stage r, is_stage stage = true ∧ dir_is stage ∅ r).
Proof using.
  intros w [Hl _]. unfold MkdirTemp. revert w Hl. intros w.
  match goal with |- _ → match atomic ?call w with _ => _ end => intros Hl; assert (does L (λ _, True) (atomic call) (λ stage r, is_stage stage = true ∧ dir_is stage ∅ r)) as Hd end; [|by apply Hd].
  apply does_atomic. intros r r' name _. unfold dir_is. destruct (r_versions r) as [vs|] eqn:Ev; [|done].
  destruct (list_find _ _) as [[i n]|] eqn:Ef; [|done]. intros [= <- <-]. apply list_find_Some in Ef as (Hi & Hn & _).
  apply list_elem_of_lookup_2, list_elem_of_In, in_map_iff in Hi as (t & <- & _).
  assert (is_stage (stage_prefix +:+ t) = true) as Hs by (unfold is_stage, HasPrefix; rewrite chars_app; apply list_prefix_self).
  split; [|split; [done|]; cbn; apply lookup_insert_eq]. apply live_eq; [|done]. intros v Hv. unfold versions. rewrite Ev. cbn. rewrite lookup_insert_ne; [done|congruence].
Qed.
Lemma Install_spec `{SV : Server} c r L : fits (c_GOOS (defaults c)) (ArchiveName r) →
  triple (λ root, live root = L) (Install c r)
    (λ x root, touched (c_GOOS (defaults c)) L r root ∧
       ∀ old, x = Ok old → r_current root = Some (version_path (Version r)) ∧ old = default "" L.2) (touched (c_GOOS (defaults c)) L r).
Proof using Type*.
  intros Hf. assert (Hno : ∀ (e : update_error) root, live root = L → touched (c_GOOS (defaults c)) L r root ∧
    ∀ old, (Err e : result update_error string) = Ok old → r_current root = Some (version_path (Version r)) ∧ old = default "" L.2).
  { intros e root Hl. split; [by left|done]. }
  unfold Install. set (goos := c_GOOS (defaults c)) in *. destruct (String.eqb _ _); [apply triple_lift; auto|].
  destruct (IsValid (Version r)) eqn:Ev; cbn [negb]; [|apply triple_lift; auto].
  assert (Hn : version_name (Version r)) by (apply v_plain; [by apply IsValid_v|by apply IsValid_slash]).
  apply triple_bind_lift; [|auto]. intros archive Ea. apply triple_bind_lift; [|auto]. intros sums Es. apply triple_bind_lift; [|auto]. intros [] Ec.
  assert (Hi : ∀ root, installs goos L r archive root → touched goos L r root) by (intros root Hi; right; eauto 8).
  assert (Hk : ∀ A (m : M A) (f : A → M string), keeps L m → (∀ a, triple (λ root, live root = L) (f a)
      (λ x root, touched goos L r root ∧ ∀ old, x = Ok old → r_current root = Some (version_path (Version r)) ∧ old = default "" L.2) (touched goos L r)) → triple (λ root, live root = L) (m ≫= f)
    (λ x root, touched goos L r root ∧ ∀ old, x = Ok old → r_current root = Some (version_path (Version r)) ∧ old = default "" L.2) (touched goos L r)).
  { intros A m f Hm Hk. apply (triple_bind _ _ _ (λ _ root, live root = L)); [|exact Hk].
    eapply triple_conseq; [exact Hm|done| |by left]. intros [a|e] root Hl; auto. }
  apply Hk; [apply keeps_Recover|]. intros _. apply Hk; [apply keeps_MkdirAll|]. intros _.
  apply (triple_bind _ _ _ (λ stage root, live root = L ∧ is_stage stage = true ∧ dir_is stage ∅ root)).
  { eapply triple_conseq; [apply (MkdirTemp_spec L)|done| |by left]. intros [stage|e] root [Hl Hx]; auto. }
  intros stage. apply (triple_pure (is_stage stage = true)); [by intros root (_ & ? & _)|]. intros Hs.
  apply (triple_bind _ _ _ (λ x root, installs goos L r archive root ∧ ∀ old, x = Ok old → r_current root = Some (version_path (Version r)) ∧ old = default "" L.2)).
  { apply triple_try. eapply triple_conseq; [by apply (publish_spec goos L r archive stage Hs Hn Hf (defaults c))|by intros root (? & _ & ?)|done|exact Hi]. }
  intros [old|e]; [apply triple_ret; intros root [Hx Ho]; auto|].
  apply (triple_pre _ (installs goos L r archive)); [by intros root []|].
  apply (triple_bind _ _ _ (λ _, installs goos L r archive)).
  - eapply triple_conseq; [apply (keeps_live (installs_live goos L r archive)); intros L'; by apply keeps_ignore, keeps_RemoveAll|done| |exact Hi].
    intros [[]|e'] root Hx; [done|]. split; [auto|done].
  - intros _. apply triple_lift. intros root Hx. split; [auto|done].
Qed.

(** ** Soundness *)

Lemma installs_sound goos L r archive root : version_name (Version r) → fits goos (ArchiveName r) → sound_live goos L →
  installs goos L r archive root → sound goos root.
Proof using Type*.
  intros Hn Hf [Hv Hc] (vs & cur & Hl & Hp & Hcur). unfold sound. rewrite Hl. split; cbn [fst snd].
  - intros v d Hd. destruct Hp as [->|(_ & d' & Hd' & ->)]; [by eapply Hv|].
    apply lookup_insert_Some in Hd as [[_ <-]|[_ Hd]]; [by eapply pair_of_has_pair|by eapply Hv].
  - intros t Ht. destruct Hcur as [->|[-> (d & Hd & _)]].
    + destruct (Hc t Ht) as (v & -> & Hvn & Hs). exists v. split_and!; [done..|]. destruct Hp as [->|(Hno & d' & _ & ->)]; [done|].
      rewrite lookup_insert_ne; [done|]. intros Hx. rewrite Hx in Hno. rewrite Hno in Hs. by destruct Hs.
    + injection Ht as <-. exists (Version r). split_and!; [done..|eauto].
Qed.
Lemma installs_kept goos L r archive root v d : installs goos L r archive root → L.1 !! v = Some d → live_versions root !! v = Some d.
Proof using.
  intros (vs & cur & Hl & Hp & _) Hd. injection Hl as -> _. destruct Hp as [->|(Hno & d' & _ & ->)]; [done|].
  rewrite lookup_insert_ne; [done|]. congruence.
Qed.
Lemma Apply_spec `{SV : Server} c current L : triple (λ root, live root = L) (Apply c current)
  (λ x root, (live root = L ∨ ∃ r, Check_ c current = (r, true, None) ∧ touched (c_GOOS (defaults c)) L r root) ∧
     ∀ r old, x = Ok (r, old, true, None) → r_current root = Some (version_path (Version r)) ∧ old = default "" L.2)
  (λ root, live root = L ∨ ∃ r, Check_ c current = (r, true, None) ∧ touched (c_GOOS (defaults c)) L r root).
Proof using Type*.
  unfold Apply. destruct (Check_ c current) as [[r []] [e|]] eqn:Ec; try (apply triple_ret; intros root Hl; split; [by left|done]).
  destruct (Check_valid c current r Ec) as [Hf Hv].
  apply (triple_bind _ _ _ (λ x root, touched (c_GOOS (defaults c)) L r root ∧
    ∀ old, x = Ok old → r_current root = Some (version_path (Version r)) ∧ old = default "" L.2)).
  - apply triple_try. eapply triple_conseq; [by apply (Install_spec c r L)|done|intros a root Ha; exact Ha|eauto].
  - intros [old|e]; apply triple_ret; intros root [Ht Ho]; (split; [eauto|]); [by intros ? ? [= <- <-]; apply Ho|done].
Qed.
Lemma touched_sound `{SV : Server} goos L r root : IsValid (Version r) = true → fits goos (ArchiveName r) → sound_live goos L → touched goos L r root → sound goos root.
Proof using Type*.
  intros Hv Hf Hs [Hl|(archive & sums & _ & _ & _ & Hi)]; [unfold sound; by rewrite Hl|].
  eapply installs_sound; [|done..]. apply v_plain; [by apply IsValid_v|by apply IsValid_slash].
Qed.
Lemma touched_kept `{SV : Server} goos L r root v d : touched goos L r root → L.1 !! v = Some d → live_versions root !! v = Some d.
Proof using. intros [Hl|(archive & sums & _ & _ & _ & Hi)] Hd; [by rewrite <- Hd, <- Hl|by eapply installs_kept]. Qed.
Lemma Rollback_spec c v L : version_name v → triple (λ root, live root = L) (Rollback c (version_path v))
  (λ x root, (live root = L ∨ (is_Some (L.1 !! v) ∧ live root = (L.1, Some (version_path v)))) ∧ (x = Ok tt → live root = (L.1, Some (version_path v))))
  (λ root, live root = L ∨ (is_Some (L.1 !! v) ∧ live root = (L.1, Some (version_path v)))).
Proof using.
  intros [Hp Hn]. destruct (version_path_eq v Hp) as (_ & _ & Hc & Ha & Ho & Hne). unfold Rollback. cbv zeta. rewrite Hc, Ha, Ho.
  destruct (_ || String.eqb _ ""); [apply triple_lift; intros root Hl; split; [by left|done]|]. cbn [orb].
  apply (triple_bind _ _ _ (λ _ root, live root = L ∧ is_Some (L.1 !! v))).
  - eapply triple_conseq; [apply (validatePair_spec (λ root, live root = L))|done| |by left].
    intros [[]|e] root [Hl Hx]; [|split; [by left|done]]. split; [done|]. destruct (Hx eq_refl) as (d & Hd & _). rewrite dir_at_version in Hd by done.
    rewrite <- Hl. change (live root).1 with (live_versions root). rewrite live_lookup, Hn. eauto.
  - intros _. apply (triple_pure (is_Some (L.1 !! v))); [by intros root []|]. intros Hs. destruct L as [vs cur]. cbn [fst] in *.
    eapply triple_conseq; [apply (switchLink_spec vs cur)|by intros root []| |]; unfold switched.
    + intros x root [[Hw|Hw] Hx]; (split; [auto|done]).
    + intros root [Hw|Hw]; auto.
Qed.
(** A life of the installation: updates and rollbacks to versions, each with its
    own outcome of every system call and answers of the server.  The versions in
    [running] update themselves. *)
Inductive history (c : Client) (running : string → Prop) (root0 : Root) : Root → Prop :=
  | history_start : history c running root0 root0
  | history_apply (SV : Server) current hints temp root : running current → history c running root0 root →
      history c running root0 (after (Apply c current (MkWorld root hints temp)))
  | history_rollback v hints temp root : version_name v → history c running root0 root →
      history c running root0 (after (Rollback c (version_path v) (MkWorld root hints temp))).
(** Directory [d] was made from a release newer than one in [running], out of an
    archive with the checksum the release publishes for it: its two binaries, each
    cut at 128 MiB. *)
Definition released (c : Client) (running : string → Prop) (v : string) (d : dir) : Prop :=
  ∃ (SV : Server) current r archive sums, running current ∧ Check_ c current = (r, true, None) ∧ Version r = v ∧
    get (ArchiveURL r) = Ok archive ∧ get (ChecksumsURL r) = Ok sums ∧ verifyChecksum (ArchiveName r) archive sums = Ok tt ∧
    pair_of (ArchiveName r) archive = Some d.
(** Where every version comes from. *)
Definition origin (c : Client) (running : string → Prop) (root0 root : Root) : Prop :=
  ∀ v d, live_versions root !! v = Some d → live_versions root0 !! v = Some d ∨ released c running v d.
Lemma touched_origin `{SV : Server} c (running : string → Prop) current L r root v d : running current → Check_ c current = (r, true, None) →
  touched (c_GOOS (defaults c)) L r root → live_versions root !! v = Some d → L.1 !! v = Some d ∨ released c running v d.
Proof using.
  intros Hrun Hr [<-|(archive & sums & Ha & Hs & Hc & vs & cur & Hl & Hp & _)] Hd; [by left|]. injection Hl as Hl _.
  rewrite Hl in Hd. destruct Hp as [->|(_ & d' & Hd' & ->)]; [by left|].
  apply lookup_insert_Some in Hd as [[<- <-]|[_ Hd]]; [|by left]. right. exists SV, current, r, archive, sums. by split_and!.
Qed.
Lemma history_sound c running root0 root : sound (c_GOOS (defaults c)) root0 → history c running root0 root →
  sound (c_GOOS (defaults c)) root ∧ (∀ v d, live_versions root0 !! v = Some d → live_versions root !! v = Some d) ∧ origin c running root0 root.
Proof using Type*.
  intros Hs Hh. set (Q root' := sound (c_GOOS (defaults c)) root' ∧ (∀ v d, live_versions root0 !! v = Some d → live_versions root' !! v = Some d) ∧
    origin c running root0 root').
  induction Hh as [|SV current hints temp root Hrun _ (IHs & IHk & IHo)|v hints temp root Hv _ (IHs & IHk & IHo)]; [by split; [|split; [|by left]]|..].
  - apply (triple_after (λ root', live root' = live root) (Apply c current) Q (MkWorld root hints temp)); [|done].
    assert (∀ root', live root' = live root ∨ (∃ r, Check_ c current = (r, true, None) ∧ touched (c_GOOS (defaults c)) (live root) r root') → Q root') as Hx.
    { intros root' [Hl|(r & Hr & Ht)].
      - unfold Q, sound, origin. rewrite Hl. injection Hl as -> _. done.
      - destruct (Check_valid c current r Hr) as [Hf Hv]. split; [by eapply touched_sound|]. split.
        + intros v d Hd. eapply touched_kept; [done|]. by apply IHk.
        + intros v d Hd. destruct (touched_origin c running current _ r root' v d Hrun Hr Ht Hd) as [Hd'|?]; [by apply IHo|by right]. }
    eapply triple_conseq; [apply (Apply_spec c current (live root))|done| |exact Hx]. intros x root' [Hr _]. auto.
  - apply (triple_after (λ root', live root' = live root) (Rollback c (version_path v)) Q (MkWorld root hints temp)); [|done].
    assert (∀ root', live root' = live root ∨ (is_Some ((live root).1 !! v) ∧ live root' = ((live root).1, Some (version_path v))) → Q root') as Hx.
    { intros root' [Hl|[Hv' Hl]]; unfold Q, sound, origin; rewrite Hl; injection Hl as -> _; [done|]. split; [|done].
      split; [apply IHs|]. cbn [snd]. intros t [= <-]. by exists v. }
    eapply triple_conseq; [by apply (Rollback_spec c v (live root))|done| |exact Hx]. intros x root' [Hr _]. auto.
Qed.
End safety.

(** A link is never lost. *)
Lemma history_linked `{SemverLaws} `{Archives} c running root0 root : history c running root0 root → r_current root0 ≠ None → r_current root ≠ None.
Proof.
  intros Hh H0'. induction Hh as [|SV current hints temp root _ _ IH|v hints temp root Hv _ IH]; [done|..].
  - apply (triple_after (λ root', live root' = live root) (Apply c current) (λ root', r_current root' ≠ None) (MkWorld root hints temp)); [|done].
    assert (∀ root', live root' = live root ∨ (∃ r, Check_ c current = (r, true, None) ∧ touched (c_GOOS (defaults c)) (live root) r root') → r_current root' ≠ None) as Hx.
    { intros root' [[= _ ->]|(r & _ & [[= _ ->]|(archive & sums & _ & _ & _ & vs & cur & [= _ ->] & _ & [->|[-> _]])])]; done. }
    eapply triple_conseq; [apply (Apply_spec c current (live root))|done| |exact Hx]. intros x root' [Hr _]. auto.
  - apply (triple_after (λ root', live root' = live root) (Rollback c (version_path v)) (λ root', r_current root' ≠ None) (MkWorld root hints temp)); [|done].
    assert (∀ root', live root' = live root ∨ (is_Some ((live root).1 !! v) ∧ live root' = ((live root).1, Some (version_path v))) → r_current root' ≠ None) as Hx.
    { intros root' [[= _ ->]|[_ [= _ ->]]]; done. }
    eapply triple_conseq; [by apply (Rollback_spec c v (live root))|done| |exact Hx]. intros x root' [Hr _]. auto.
Qed.

(** The version a sound link leads to. *)
Lemma sound_link goos root t : sound goos root → r_current root = Some t → ∃ v d, t = version_path v ∧ live_versions root !! v = Some d ∧
  dir_at link_fuel root t = Some d ∧ has_pair goos d.
Proof.
  intros [Hv Hc] Ht. destruct (Hc t Ht) as (v & -> & [Hp Hn] & d & Hd). exists v, d. split_and!; [done|exact Hd| |by eapply Hv].
  rewrite dir_at_version by done. change (live_versions root !! v = Some d) in Hd. by rewrite live_lookup, Hn in Hd.
Qed.

(** C4. An update may be interrupted anywhere.  Whatever each of its system calls
    does (succeed, fail, or be the last one before the process dies, part of its
    work done), whatever earlier updates and rollbacks went through and whatever
    the server answered, an installation that was sound stays sound: the link
    leads to a version with a file for both binaries, and every version that was
    there at first is there with its files.  Every other version was made from an
    archive with the checksum its release publishes and holds that archive's two
    binaries, each cut at 128 MiB as the code reads it ([released]).  All that one
    update may change is one version and the link to it, for a release that is
    newer and whose archive has its checksum; a directory of that version that was
    there before is taken as it is. *)
Theorem update_safe `{SemverLaws} `{Archives} `{SV : Server} (c : Client) (running : string → Prop) (current : string) (root0 root : Root)
    (hints : list decision) (temp : list string) :
  let goos := c_GOOS (defaults c) in
  let root' := after (Apply c current (MkWorld root hints temp)) in
  sound goos root0 → running current → history c running root0 root →
  sound goos root' ∧
  (∀ t, r_current root' = Some t → ∃ v d, t = version_path v ∧ live_versions root' !! v = Some d ∧
     dir_at link_fuel root' t = Some d ∧ has_pair goos d ∧ (live_versions root0 !! v = Some d ∨ released c running v d)) ∧
  (∀ v d, live_versions root0 !! v = Some d → live_versions root' !! v = Some d) ∧
  (∀ v d, live_versions root' !! v = Some d → live_versions root0 !! v = Some d ∨ released c running v d) ∧
  (live root' = live root ∨ ∃ r archive sums,
     Check_ c current = (r, true, None) ∧ get (ArchiveURL r) = Ok archive ∧ get (ChecksumsURL r) = Ok sums ∧
     verifyChecksum (ArchiveName r) archive sums = Ok tt ∧
     (∀ v, v ≠ Version r → live_versions root' !! v = live_versions root !! v) ∧
     (live_versions root' !! Version r = live_versions root !! Version r ∨ pair_of (ArchiveName r) archive = live_versions root' !! Version r) ∧
     (r_current root' = r_current root ∨ r_current root' = Some (version_path (Version r)))).
Proof.
  intros goos root' Hs Hrun Hh. assert (history c running root0 root') as Hh' by by constructor.
  destruct (history_sound c running root0 root' Hs Hh') as (Hs' & Hk & Ho). split; [done|]. split; [|split; [done|split; [done|]]].
  - intros t Ht. destruct (sound_link goos root' t Hs' Ht) as (v & d & ? & Hd & ? & ?). exists v, d. split_and!; try done. by apply Ho.
  - assert (live root' = live root ∨ ∃ r, Check_ c current = (r, true, None) ∧ touched goos (live root) r root') as [Hl|(r & Hr & [Hl|Ht])]; [|by left|by left|].
    { apply (triple_after (λ r, live r = live root) (Apply c current) (λ root', live root' = live root ∨ ∃ r, Check_ c current = (r, true, None) ∧ touched goos (live root) r root')
        (MkWorld root hints temp)); [|done]. eapply triple_conseq; [apply (Apply_spec c current (live root))|done| |done]. by intros x root1 [? _]. }
    right. destruct Ht as (archive & sums & Ha & Hsu & Hc & vs & cur & Hl & Hp & Hcur). injection Hl as Hvs Hcu. exists r, archive, sums.
    rewrite Hvs, Hcu. split_and!; [done..| | |].
    + intros v Hne. destruct Hp as [->|(_ & d & _ & ->)]; [done|]. by rewrite lookup_insert_ne.
    + destruct Hp as [->|(_ & d & Hd & ->)]; [by left|]. right. by rewrite lookup_insert_eq.
    + destruct Hcur as [->|[-> _]]; [by left|by right].
Qed.

(** A release server with one release, and an installation to update. *)
#[local] Instance toy_semver : Semver := {|
  IsValid v := HasPrefix v "v" && negb (ContainsChar v slash);
  Compare a b := if str_lt b a then 1 else if str_lt a b then -1 else 0 |}.
#[local] Instance toy_semver_laws : SemverLaws.
Proof.
  split; intros v [Hp Hs]%andb_true_iff; [done|]. apply negb_true_iff in Hs. by apply ContainsChar_false.
Qed.
Definition toy_members : list Member :=
  [MkMember "README" false true true "hello" true true; MkMember "dist/tailmix" false true true "client 2" true true;
   MkMember "dist/tailmixd" false true true "daemon 2" true true].
#[local] Instance toy_archives : Archives := {|
  zip_members _ := None;
  tar_members data := if String.eqb data "TAR" then Some (toy_members, true) else None;
  sha256_hex data := if String.eqb data "TAR" then "0a1b" else "ffff";
  UnmarshalRelease b := if String.eqb b "JSON"
    then Some (MkGithubRelease "v1.2.0" false false [MkAsset "checksums.txt" "sums"; MkAsset "tailmix_1.2.0_linux_amd64.tar.gz" "archive"]) else None;
  runtime_GOOS := "linux"; runtime_GOARCH := "amd64" |}.
#[local] Instance toy_server : Server := {|
  http_Do url := if String.eqb url "api" then Some (200, "JSON") else if String.eqb url "archive" then Some (200, "TAR")
    else if String.eqb url "sums" then Some (200, "0A1B  *tailmix_1.2.0_linux_amd64.tar.gz" +:+ String NL "") else None |}.
Definition toy_client : Client := MkClient "api" "/opt/tailmix" "" "".
Definition toy_old : dir := {["tailmix" := "client 1"; "tailmixd" := "daemon 1"]}.
Definition toy_new : dir := {["tailmix" := "client 2"; "tailmixd" := "daemon 2"]}.
Definition toy_root : Root := MkRoot (Some {["v1.1.0" := toy_old]}) (Some "versions/v1.1.0") None.
(** It dies writing the second binary; the next one between the two renames. *)
Definition toy_broken : Root := after (Apply toy_client "1.1.0" (MkWorld toy_root (replicate 9 Fine ++ [Dies 3]) ["1"])).
Definition toy_between : list decision := replicate 21 Fine ++ [Dies 0].
Local Notation toy_goos := (c_GOOS (defaults toy_client)).
Lemma toy_sound : sound toy_goos toy_root.
Proof.
  split.
  - intros v d Hd. change (live_versions toy_root !! v = Some d) in Hd. rewrite live_lookup in Hd. destruct (is_stage v); [done|].
    change (({["v1.1.0" := toy_old]} : gmap string dir) !! v = Some d) in Hd. apply lookup_singleton_Some in Hd as [_ <-]. split; eexists; reflexivity.
  - intros t [= <-]. exists "v1.1.0". split; [reflexivity|]. split; [apply v_plain; [reflexivity|]|].
    + apply (bool_decide_unpack _). vm_compute. exact I.
    + change (is_Some (live_versions toy_root !! "v1.1.0")). rewrite live_lookup. eexists. reflexivity.
Qed.
Local Notation toy_dead := (after (Apply toy_client "1.1.0" (MkWorld toy_broken toy_between ["1"]))).
Lemma toy_history : history toy_client (λ _, True) toy_root toy_broken.
Proof. exact (history_apply toy_client (λ _, True) toy_root toy_server "1.1.0" (replicate 9 Fine ++ [Dies 3]) ["1"] toy_root I (history_start _ _ _)). Qed.
Lemma update_safe_witness :
  versions toy_broken !! ".stage-1" = Some {["tailmix" := "client 2"; "tailmixd" := "dae"]} ∧ r_new toy_dead = Some "versions/v1.2.0" ∧
  sound toy_goos toy_dead ∧
  (∃ v d, "versions/v1.1.0" = version_path v ∧ live_versions toy_dead !! v = Some d ∧ dir_at link_fuel toy_dead "versions/v1.1.0" = Some d ∧
     has_pair toy_goos d ∧ (live_versions toy_root !! v = Some d ∨ released toy_client (λ _, True) v d)) ∧
  live_versions toy_dead !! "v1.1.0" = Some toy_old ∧ released toy_client (λ _, True) "v1.2.0" toy_new.
Proof.
  split; [vm_compute; reflexivity|]. split; [vm_compute; reflexivity|].
  destruct (update_safe toy_client (λ _, True) "1.1.0" toy_root toy_broken toy_between ["1"] toy_sound I toy_history) as (Hs & Hc & Hk & Ho & _).
  split; [exact Hs|]. split; [apply Hc; vm_compute; reflexivity|]. split; [apply Hk; vm_compute; reflexivity|].
  destruct (Ho "v1.2.0" toy_new) as [Hx|Hx]; [vm_compute; reflexivity|vm_compute in Hx; discriminate Hx|exact Hx].
Defined.
