(* ===== verification/UpdateRuns.v ===== *)
(** * Updates that are not interrupted

    When nothing fails, an update whose archive holds both binaries installs it,
    whatever an earlier one left behind, and a rollback to the target it returns
    takes the link back. *)

From S2P Require Import Prelude GoStrings FilePath DNSName Update UpdateFacts.
Local Open Scope Z_scope.

(** [m] run from [r] without a failure succeeds, with [Q]. *)
Definition calm {A} (m : M A) (r : Root) (Q : A → Root → Prop) : Prop :=
  ∀ temp, temp ≠ [] → ∃ a r', m (MkWorld r [] temp) = Returned (Ok a) (MkWorld r' [] temp) ∧ Q a r'.
Lemma calm_bind {A B} (m : M A) (f : A → M B) r (R : A → Root → Prop) Q :
  calm m r R → (∀ a r', R a r' → calm (f a) r' Q) → calm (m ≫= f) r Q.
Proof.
  intros Hm Hf temp Ht. destruct (Hm temp Ht) as (a & r' & E & HR). destruct (Hf a r' HR temp Ht) as (b & r'' & E' & HQ).
  exists b, r''. unfold mbind, M_bind. by rewrite E.
Qed.
Lemma calm_ret {A} (a : A) r (Q : A → Root → Prop) : Q a r → calm (mret a) r Q.
Proof. intros HQ temp _. by exists a, r. Qed.
Lemma calm_lift {A B} (x : result update_error A) (f : A → M B) a r Q : x = Ok a → calm (f a) r Q → calm (lift x ≫= f) r Q.
Proof. by intros ->. Qed.
Lemma calm_syscall {A} part (call : Root → result update_error (Root * A)) r r' a (Q : A → Root → Prop) :
  call r = Ok (r', a) → Q a r' → calm (syscall part call) r Q.
Proof. intros Hc HQ temp _. exists a, r'. unfold syscall. cbn. by rewrite Hc. Qed.
Lemma calm_atomic {A} (call : Root → result update_error (Root * A)) r r' a (Q : A → Root → Prop) :
  call r = Ok (r', a) → Q a r' → calm (atomic call) r Q.
Proof. apply calm_syscall. Qed.
Lemma calm_conseq {A} (m : M A) r (Q Q' : A → Root → Prop) : calm m r Q' → (∀ a r', Q' a r' → Q a r') → calm m r Q.
Proof. intros Hm HQ temp Ht. destruct (Hm temp Ht) as (a & r' & E & Hq). exists a, r'. auto. Qed.
Lemma calm_try {A} (m : M A) r (Q : A → Root → Prop) : calm m r Q → calm (try_ m) r (λ x r', ∃ a, x = Ok a ∧ Q a r').
Proof. intros Hm temp Ht. destruct (Hm temp Ht) as (a & r' & E & HQ). exists (Ok a), r'. unfold try_. rewrite E. eauto. Qed.
(** A call that may report an error and then changes nothing. *)
Lemma calm_try_atomic {A} (call : Root → result update_error (Root * A)) r (Q : result update_error A → Root → Prop) :
  match call r with Ok (r', a) => Q (Ok a) r' | Err e => Q (Err e) r end → calm (try_ (atomic call)) r Q.
Proof.
  intros HQ temp _. unfold try_, atomic, syscall. cbn. destruct (call r) as [[r' a]|e]; eexists _, _; by split.
Qed.
Lemma calm_ignore_atomic {A} (call : Root → result update_error (Root * A)) r (Q : Root → Prop) :
  match call r with Ok (r', _) => Q r' | Err _ => Q r end → calm (ignore (atomic call)) r (λ _, Q).
Proof.
  intros HQ. unfold ignore. apply (calm_bind _ _ _ (λ _, Q)); [|intros a r' Hr; by apply (calm_ret tt r' (λ _, Q))]. apply calm_try_atomic. by destruct (call r) as [[]|].
Qed.
Lemma calm_sync r (Q : unit → Root → Prop) : Q tt r → calm sync_ r Q.
Proof. by eapply calm_atomic. Qed.

Lemma append_inj (a b x : string) : a +:+ x = b +:+ x → a = b.
Proof. intros Hx%(f_equal chars). rewrite !chars_app in Hx. apply app_inv_tail in Hx. by rewrite <- (text_chars a), Hx, text_chars. Qed.
(** What is left to place finds its names free. *)
Definition fresh_names (suffix : string) (d : dir) (found : gset string) (l : list (string * Member)) : Prop :=
  NoDup l.*1 ∧ ∀ b, b ∈ l.*1 → b ∉ found ∧ d !! (b +:+ suffix) = None.
Lemma fresh_cons suffix d found b m l : fresh_names suffix d found ((b, m) :: l) →
  b ∉ found ∧ d !! (b +:+ suffix) = None ∧ fresh_names suffix (place suffix d (b, m)) ({[b]} ∪ found) l.
Proof.
  intros [[Hb Hd]%NoDup_cons Hn]. cbn [fmap list_fmap fst] in *. destruct (Hn b) as [Hf Hx]; [by left|]. split_and!; [done..|]. split; [done|].
  intros b' Hb'. destruct (Hn b') as [Hf' Hx']; [by right|]. assert (b' ≠ b) by (intros ->; done). split; [set_solver|].
  unfold place. cbn [fst snd]. rewrite lookup_insert_ne; [done|]. by intros ?%append_inj.
Qed.

(** The staging directory as it is filled. *)
Section unpack.
Context (stage : string).
Definition put (d : dir) (r : Root) : Root := alter_dir (λ _, d) stage r.
Lemma put_put d d' r : put d' (put d r) = put d' r.
Proof using.
  unfold put, alter_dir, set_versions. cbn. f_equal. destruct (r_versions r) as [vs|]; [|done]. cbn. f_equal. apply map_eq. intros v.
  destruct (decide (stage = v)) as [->|]; [rewrite !lookup_alter_eq; by destruct (vs !! v)|by rewrite !lookup_alter_ne].
Qed.
Lemma put_alter f d r : alter_dir f stage (put d r) = put (f d) r.
Proof using.
  unfold put, alter_dir, set_versions. cbn. f_equal. destruct (r_versions r) as [vs|]; [|done]. cbn. f_equal. apply map_eq. intros v.
  destruct (decide (stage = v)) as [->|]; [rewrite !lookup_alter_eq; by destruct (vs !! v)|by rewrite !lookup_alter_ne].
Qed.
Lemma put_lookup d r : is_Some (versions r !! stage) → versions (put d r) !! stage = Some d.
Proof using. intros [d0 Hd]. unfold put. by rewrite versions_alter, lookup_alter_eq, Hd. Qed.
Lemma put_self d r : versions r !! stage = Some d → put d r = r.
Proof using.
  intros Hd. destruct r as [[vs|] cur new]; [|done]. unfold put, alter_dir, set_versions. cbn in *. do 2 f_equal. apply map_eq. intros v.
  destruct (decide (stage = v)) as [->|]; [by rewrite lookup_alter_eq, Hd|by rewrite lookup_alter_ne].
Qed.
Context (r : Root) (Hstage : is_Some (versions r !! stage)).
Lemma calm_dir_call d (f : dir → result update_error dir) d' : f d = Ok d' → calm (dir_call stage f) (put d r) (λ _ r', r' = put d' r).
Proof using Hstage. intros Hf. eapply calm_atomic; [|done]. rewrite put_lookup by done. rewrite Hf. cbn [mbind result_bind]. do 2 f_equal. apply put_put. Qed.
Lemma calm_writeBinary d name data clean : d !! name = None → clean || (MaxBinary <=? Z.of_nat (String.length data)) = true →
  calm (writeBinary stage name data clean) (put d r) (λ _ r', r' = put (<[name := limit MaxBinary data]> d) r).
Proof using Hstage.
  intros Hn Hc. unfold writeBinary. rewrite Hc. apply (calm_bind _ _ _ (λ _ r', r' = put (<[name := ""]> d) r)).
  { apply calm_dir_call. unfold create. by rewrite Hn. }
  intros _ r' ->. apply (calm_bind _ _ _ (λ x r', ∃ u, x = Ok u ∧ r' = put (<[name := limit MaxBinary data]> d) r)).
  { apply (calm_try _ _ (λ _ r', r' = put (<[name := limit MaxBinary data]> d) r)). unfold copy.
    apply (calm_bind _ _ _ (λ _ r', r' = put (<[name := limit MaxBinary data]> d) r)); [|intros _ r' ->; by apply calm_ret].
    eapply calm_syscall; [done|]. rewrite put_alter. by rewrite insert_insert_eq. }
  intros x r' (u & -> & ->). apply (calm_bind _ _ _ (λ x r', x = Ok tt ∧ r' = put (<[name := limit MaxBinary data]> d) r)); [by apply calm_try_atomic|].
  intros x r' [-> ->]. apply (calm_bind _ _ _ (λ x r', x = Ok tt ∧ r' = put (<[name := limit MaxBinary data]> d) r)); [by apply calm_try_atomic|].
  intros x r' [-> ->]. by apply (calm_ret tt).
Qed.
Lemma calm_unpack_zip l : ∀ found d, fresh_names ".exe" d found (wanted_zip l) → forallb (λ x, readable true x.2) (wanted_zip l) = true →
  calm (unpack_zip stage found l) (put d r) (λ found' r', found' = list_to_set (wanted_zip l).*1 ∪ found ∧ r' = put (foldl (place ".exe") d (wanted_zip l)) r).
Proof using Hstage.
  induction l as [|m l IH]; intros found d Hf Hr; cbn [unpack_zip].
  { apply calm_ret. cbn. by rewrite (left_id_L ∅ (∪)). }
  destruct (zip_wants m) eqn:Ew; cbn [negb].
  2: { assert (wanted_zip (m :: l) = wanted_zip l) as Hw by (unfold wanted_zip; by rewrite filter_cons_False by congruence). rewrite Hw in *. by apply IH. }
  assert (wanted_zip (m :: l) = (zip_base m, m) :: wanted_zip l) as Hw by (unfold wanted_zip; by rewrite filter_cons_True by done). rewrite Hw in *.
  apply fresh_cons in Hf as (Hb & Hd & Hf). cbn [forallb snd] in Hr. apply andb_true_iff in Hr as [Hm Hr].
  unfold readable in Hm. cbn [negb orb] in Hm. rewrite !andb_true_iff in Hm. destruct Hm as (Hclean & Ho & Hc).
  rewrite bool_decide_eq_false_2, Ho, Hc by done. cbn [negb].
  eapply calm_bind; [apply calm_try, calm_writeBinary; done|]. intros x r' ([] & -> & ->). apply (calm_lift _ _ ()); [done|].
  eapply calm_conseq; [by apply IH|]. intros found' r' [-> ->]. rewrite fmap_cons. cbn [fst list_to_set foldl]. split; [|done].
  by rewrite (assoc_L (∪)), (comm_L (∪) (list_to_set _)).
Qed.
Lemma calm_unpack_tar l : ∀ found d, fresh_names "" d found (wanted_tar l) → forallb (λ x, readable false x.2) (wanted_tar l) = true →
  calm (unpack_tar stage found l) (put d r) (λ found' r', found' = list_to_set (wanted_tar l).*1 ∪ found ∧ r' = put (foldl (place "") d (wanted_tar l)) r).
Proof using Hstage.
  induction l as [|m l IH]; intros found d Hf Hr; cbn [unpack_tar].
  { apply calm_ret. cbn. by rewrite (left_id_L ∅ (∪)). }
  destruct (tar_wants m) eqn:Ew; cbn [negb].
  2: { assert (wanted_tar (m :: l) = wanted_tar l) as Hw by (unfold wanted_tar; by rewrite filter_cons_False by congruence). rewrite Hw in *. by apply IH. }
  assert (wanted_tar (m :: l) = (tar_base m, m) :: wanted_tar l) as Hw by (unfold wanted_tar; by rewrite filter_cons_True by done). rewrite Hw in *.
  apply fresh_cons in Hf as (Hb & Hd & Hf). cbn [forallb snd] in Hr. apply andb_true_iff in Hr as [Hm Hr].
  unfold readable in Hm. cbn [negb orb] in Hm. rewrite andb_true_r in Hm. rewrite append_empty in Hd.
  rewrite bool_decide_eq_false_2 by done.
  eapply calm_bind; [by apply calm_writeBinary|]. intros [] r' ->. unfold place at 1 in Hf. cbn [fst snd] in Hf. rewrite append_empty in Hf.
  eapply calm_conseq; [by apply IH|]. intros found' r' [-> ->]. rewrite fmap_cons. cbn [fst list_to_set foldl]. split; [by rewrite (assoc_L (∪)), (comm_L (∪) (list_to_set _))|].
  unfold place at 3. cbn [fst snd]. by rewrite append_empty.
Qed.
Lemma calm_extractPair `{Archives} name data d : pair_of name data = Some d → calm (extractPair stage name data) (put ∅ r) (λ _ r', r' = put d r).
Proof using Hstage.
  unfold extractPair, pair_of, archive_members. intros Hp. destruct (HasSuffix name ".zip") eqn:Ez.
  - destruct (zip_members data) as [l|]; [|done]. cbn [fmap option_fmap option_map mbind option_bind] in Hp.
    case_bool_decide as Hd; [|done]. case_bool_decide as Hb1; [|done]. case_bool_decide as Hb2; [|done]. cbn [andb] in Hp.
    destruct (forallb _ _) eqn:Er; [|done]. injection Hp as <-.
    eapply calm_bind; [apply calm_unpack_zip; [split; [done|]; intros b _; split; [apply not_elem_of_empty|apply lookup_empty]|done]|].
    intros found r' [-> ->]. rewrite (right_id_L ∅ (∪)), !bool_decide_eq_true_2 by (by apply elem_of_list_to_set). by apply (calm_ret tt).
  - destruct (tar_members data) as [[l []]|]; [|done..]. cbn [mbind option_bind] in Hp.
    case_bool_decide as Hd; [|done]. case_bool_decide as Hb1; [|done]. case_bool_decide as Hb2; [|done]. cbn [andb] in Hp.
    destruct (forallb _ _) eqn:Er; [|done]. injection Hp as <-.
    eapply calm_bind; [eapply calm_bind; [apply calm_unpack_tar; [split; [done|]; intros b _; split; [apply not_elem_of_empty|apply lookup_empty]|done]|]|].
    + intros found r' Hx. apply calm_ret. exact Hx.
    + intros found r' [-> ->]. rewrite (right_id_L ∅ (∪)), !bool_decide_eq_true_2 by (by apply elem_of_list_to_set). by apply (calm_ret tt).
Qed.
End unpack.

(** ** Leftovers, the link and the version *)

Definition tidy (r : Root) : Prop := r_new r = None ∧ ∀ v, is_stage v = true → versions r !! v = None.
Lemma calm_ignore {A} (m : M A) r (Q : Root → Prop) : calm m r (λ _, Q) → calm (ignore m) r (λ _, Q).
Proof.
  intros Hm. unfold ignore. apply (calm_bind _ _ _ (λ _, Q)); [|intros a r' Hr; by apply (calm_ret tt r' (λ _, Q))].
  eapply calm_conseq; [by apply calm_try|]. by intros ? ? (? & _ & ?).
Qed.
Lemma calm_RemoveAll name r : calm (RemoveAll_version name) r (λ _ r', r' = set_versions (delete name <$> r_versions r) r).
Proof. by eapply calm_syscall. Qed.
Lemma calm_remove_stages names : ∀ r, (∀ v, is_stage v = true → versions r !! v ≠ None → v ∈ names) →
  calm (remove_stages names) r (λ _ r', live r' = live r ∧ r_new r' = r_new r ∧ ∀ v, is_stage v = true → versions r' !! v = None).
Proof.
  induction names as [|name names IH]; intros r Hr; cbn [remove_stages].
  { apply calm_ret. split_and!; [done..|]. intros v Hv. destruct (versions r !! v) as [d|] eqn:E; [|done].
    assert (v ∈ []) as Hx by (apply Hr; [done|by rewrite E]). by apply elem_of_nil in Hx. }
  destruct (HasPrefix name stage_prefix) eqn:Es.
  - eapply calm_bind; [apply calm_RemoveAll|]. intros _ r' ->. eapply calm_conseq; [apply IH|].
    + intros v Hv Hd. rewrite versions_delete in Hd. destruct (decide (v = name)) as [->|Hne]; [by rewrite lookup_delete_eq in Hd|].
      rewrite lookup_delete_ne in Hd by done. by destruct (proj1 (elem_of_cons _ _ _) (Hr v Hv Hd)) as [?|?].
    + intros _ r' (Hl & Hn & Hx). rewrite Hl. split_and!; [by apply live_delete|done..].
  - apply IH. intros v Hv Hd. destruct (proj1 (elem_of_cons _ _ _) (Hr v Hv Hd)) as [->|?]; [|done]. unfold is_stage in Hv. congruence.
Qed.
Lemma calm_Recover c r : c_Root c ≠ "" → calm (Recover c) r (λ _ r', live r' = live r ∧ tidy r').
Proof.
  intros Hc. unfold Recover. rewrite (proj2 (String.eqb_neq _ _)) by done.
  apply (calm_bind _ _ _ (λ x r', r' = r ∧ match x with Ok names => ∀ v, is_Some (versions r !! v) → v ∈ names | Err e => e = ENotExist ∧ versions r = ∅ end)).
  { apply calm_try_atomic. unfold versions. destruct (r_versions r) as [vs|]; [|done]. split; [done|]. intros v Hv.
    apply elem_of_go_sort, elem_of_elements, elem_of_dom. exact Hv. }
  intros x r' [-> Hx]. apply (calm_bind _ _ _ (λ names r', r' = r ∧ ∀ v, is_Some (versions r !! v) → v ∈ names)).
  { destruct x as [names|e]; [by apply calm_ret|]. destruct Hx as [-> Hx]. apply calm_ret. split; [done|]. rewrite Hx. intros v [d Hd]. by rewrite lookup_empty in Hd. }
  intros names r' [-> Hn]. eapply calm_bind; [apply calm_remove_stages|].
  { intros v _ Hd. apply Hn. by apply not_eq_None_Some. }
  intros _ r' (Hl & _ & Hv). apply (calm_bind _ _ _ (λ x r'', (x = Ok tt ∨ x = Err ENotExist) ∧ r'' = set_new None r')).
  { apply calm_try_atomic. destruct (r_new r') eqn:E; [by split; [left|]|]. split; [by right|]. destruct r'; cbn in *. by rewrite E. }
  intros y r'' [Hy ->]. destruct Hy as [->| ->]; by apply (calm_ret tt).
Qed.
Lemma calm_MkdirTemp vs r : r_versions r = Some vs → tidy r →
  calm (MkdirTemp stage_prefix) r (λ stage r', is_stage stage = true ∧ r' = set_versions (Some (<[stage := ∅]> vs)) r).
Proof.
  intros Hv [_ Hs] temp Ht. destruct temp as [|t temp]; [done|]. exists (stage_prefix +:+ t).
  assert (is_stage (stage_prefix +:+ t) = true) as Hx by (unfold is_stage, HasPrefix; rewrite chars_app; apply list_prefix_self).
  exists (set_versions (Some (<[stage_prefix +:+ t := ∅]> vs)) r). split; [|done]. unfold MkdirTemp, atomic, syscall. cbn [w_hints w_root w_temp]. rewrite Hv.
  specialize (Hs _ Hx). unfold versions in Hs. rewrite Hv in Hs. cbn [default from_option] in Hs. unfold id in Hs.
  assert (list_find (λ name, vs !! name = None) (map (String.append stage_prefix) (t :: temp)) = Some (0%nat, stage_prefix +:+ t)) as ->; [|done].
  cbn [map list_find]. by rewrite decide_True.
Qed.
Lemma calm_switchLink t r : r_new r = None → calm (switchLink t) r (λ _ r', r' = set_current (Some t) r).
Proof.
  intros Hn. unfold switchLink. apply (calm_bind _ _ _ (λ _ r', r' = r)); [apply calm_ignore_atomic; by rewrite Hn|].
  intros _ r' ->. apply (calm_bind _ _ _ (λ _ r', r' = set_new (Some t) r)); [eapply calm_atomic; [by rewrite Hn|done]|].
  intros _ r' ->. apply (calm_bind _ _ _ (λ x r', x = Ok tt ∧ r' = set_current (Some t) r)); [|intros x r' [-> ->]; by apply calm_sync].
  apply calm_try_atomic. cbn. split; [done|]. destruct r; cbn in *. by rewrite Hn.
Qed.
Lemma calm_validatePair p goos r d : dir_at link_fuel r p = Some d → has_pair goos d → calm (validatePair p goos) r (λ _ r', r' = r).
Proof.
  intros Hd [[x Hx] [y Hy]]. unfold validatePair. apply (calm_bind _ _ _ (λ _ r', r' = r)).
  - eapply calm_atomic; [|done]. rewrite Hd. cbn [mbind option_bind]. by rewrite Hx.
  - intros _ r' ->. eapply calm_atomic; [|done]. rewrite Hd. cbn [mbind option_bind]. by rewrite Hy.
Qed.

Section run.
Context `{SemverLaws} `{Archives} `{SV : Server}.
Context (c : Client) (r : Release) (archive : string) (d : dir) (L : gmap string dir * option string).
Context (Hversion : version_name (Version r)) (Hpair : pair_of (ArchiveName r) archive = Some d) (Hsound : sound_live (c_GOOS c) L).
(** The version is there, and the link leads to it. *)
Definition installed : gmap string dir * option string :=
  (<[Version r := default d (L.1 !! Version r)]> L.1, Some (version_path (Version r))).
Lemma put_live stage d' root : is_stage stage = true → live (put stage d' root) = live root.
Proof using. apply live_alter. Qed.
(** The steps of [publish] once the archive is unpacked. *)
Lemma calm_place stage root vs : is_stage stage = true → r_versions root = Some vs → live root = L → versions root !! stage = Some d →
  r_new root = None → (∀ v, is_stage v = true → v ≠ stage → versions root !! v = None) →
  calm (existing ← try_ (Stat_version (Version r));
        match existing with
        | Ok _ =>
          valid ← try_ (validatePair (version_path (Version r)) (c_GOOS c));
          match valid with Err e => fail (EExisting e) | Ok _ => ignore (RemoveAll_version stage) end
        | Err ENotExist =>
          renamed ← try_ (Rename_version stage (Version r));
          match renamed with Err e => fail (EPublish e) | Ok _ => mret tt end
        | Err _ => fail EInspect
        end) root
    (λ _ r', live r' = (installed.1, L.2) ∧ tidy r').
Proof using Type*.
  intros Hs Hv Hl Hd Hn Ho. assert (Hlv : L.1 !! Version r = versions root !! Version r).
  { rewrite <- Hl. change (live root).1 with (live_versions root). by rewrite live_lookup, (proj2 Hversion). }
  apply (calm_bind _ _ _ (λ x r', r' = root ∧ match L.1 !! Version r with Some _ => x = Ok tt | None => x = Err ENotExist end)).
  { apply calm_try_atomic. rewrite Hlv. by destruct (versions root !! Version r). }
  intros x r' [-> Hx]. unfold installed. cbn [fst]. destruct (L.1 !! Version r) as [d0|] eqn:E; subst x.
  - apply (calm_bind _ _ _ (λ x r', x = Ok tt ∧ r' = root)).
    { eapply calm_conseq; [eapply calm_try, (calm_validatePair _ _ root d0); [rewrite dir_at_version by apply Hversion; congruence|by eapply Hsound]|].
      by intros x r' ([] & -> & ->). }
    intros x r' [-> ->]. apply calm_ignore. eapply calm_conseq; [apply calm_RemoveAll|]. intros _ r' ->. split; [|split; [done|]].
    + rewrite live_delete, Hl by done. cbn [default from_option]. unfold id. rewrite insert_id by done. by destruct L.
    + intros v Hvs. rewrite versions_delete. destruct (decide (v = stage)) as [->|]; [apply lookup_delete_eq|rewrite lookup_delete_ne by done; auto].
  - apply (calm_bind _ _ _ (λ x r', x = Ok tt ∧ r' = set_versions (Some (<[Version r := d]> (delete stage (versions root)))) root)).
    { apply calm_try_atomic. by rewrite Hd, <- Hlv. }
    intros x r' [-> ->]. apply (calm_ret tt). cbn [default from_option]. split; [|split; [done|]].
    + rewrite <- Hl. unfold live. cbn [fst snd]. f_equal. apply map_eq. intros v. rewrite live_lookup.
      match goal with |- context [versions (set_versions (Some ?x) root)] => change (versions (set_versions (Some x) root)) with x end.
      destruct (decide (v = Version r)) as [->|Hne]; [rewrite !lookup_insert_eq; by rewrite (proj2 Hversion)|].
      rewrite !lookup_insert_ne, live_lookup by done. destruct (is_stage v) eqn:Ev; [done|]. rewrite lookup_delete_ne; [done|]. intros ->. congruence.
    + intros v Hvs. match goal with |- versions (set_versions (Some ?x) root) !! _ = _ => change (x !! v = None) end.
      rewrite lookup_insert_ne by (intros <-; destruct Hversion; congruence).
      destruct (decide (v = stage)) as [->|]; [apply lookup_delete_eq|rewrite lookup_delete_ne by done; auto].
Qed.
Lemma calm_publish stage vs root : is_stage stage = true → r_versions root = Some vs → live root = L → versions root !! stage = Some ∅ →
  r_new root = None → (∀ v, is_stage v = true → v ≠ stage → versions root !! v = None) →
  calm (publish c r stage archive) root (λ old r', old = default "" L.2 ∧ live r' = installed ∧ tidy r').
Proof using Type*.
  intros Hs Hv Hl Hd Hn Ho. unfold publish. rewrite <- (put_self stage ∅ root Hd).
  eapply calm_bind; [apply calm_extractPair; [by rewrite Hd; eexists|exact Hpair]|]. intros _ r' ->.
  assert (Hd' : versions (put stage d root) !! stage = Some d) by (apply put_lookup; by rewrite Hd; eexists).
  apply (calm_bind _ _ _ (λ _ r', r' = put stage d root)); [eapply calm_atomic; [by rewrite Hd'|done]|]. intros _ r' ->.
  apply (calm_bind _ _ _ (λ _ r', r' = put stage d root)); [by apply calm_sync|]. intros _ r' ->.
  assert (Hplace := calm_place stage (put stage d root) (alter (λ _, d) stage vs) Hs ltac:(unfold put, alter_dir; cbn; by rewrite Hv)
    ltac:(by rewrite put_live) Hd' Hn).
  assert (∀ (A B C : Type) (m : M A) (f : A → M B) (g : B → M C) root Q, calm ((m ≫= f) ≫= g) root Q → calm (x ← m; y ← f x; g y) root Q) as Hassoc.
  { intros A B C m f g root' Q Hm temp Ht. specialize (Hm temp Ht). unfold mbind, M_bind in *. by destruct (m _) as [[]|]. }
  apply Hassoc. eapply calm_bind; [apply Hplace|].
  { intros v Hvs Hne. unfold put. rewrite versions_alter, lookup_alter_ne by done. auto. }
  intros _ r' [Hl' Ht']. apply (calm_bind _ _ _ (λ _ r'', r'' = r')); [by apply calm_sync|]. intros _ r'' ->.
  pose proof Hl' as [= _ Hcur].
  apply (calm_bind _ _ _ (λ x r'', r'' = r' ∧ x = match L.2 with Some t => Ok t | None => Err ENotExist end)).
  { apply calm_try_atomic. rewrite <- Hcur. by destruct (r_current r'). }
  intros x r'' [-> ->]. apply (calm_bind _ _ _ (λ old r'', r'' = r' ∧ old = default "" L.2)).
  { destruct L.2; by apply calm_ret. }
  intros old r'' [-> ->]. apply (calm_bind _ _ _ (λ _ r'', r'' = set_current (Some (version_path (Version r))) r')); [apply calm_switchLink, Ht'|].
  intros _ r'' ->. apply calm_ret. split_and!; [done| |exact Ht']. injection Hl' as Hvs _. unfold live, installed. cbn [fst snd].
  by rewrite <- Hvs.
Qed.
Lemma calm_Install root sums : c_Root c ≠ "" → IsValid (Version r) = true → c_GOOS (defaults c) = c_GOOS c →
  get (ArchiveURL r) = Ok archive → get (ChecksumsURL r) = Ok sums → verifyChecksum (ArchiveName r) archive sums = Ok tt → live root = L →
  calm (Install c r) root (λ old r', old = default "" L.2 ∧ live r' = installed ∧ tidy r').
Proof using Type*.
  intros Hroot Hvalid Hgoos Ha Hsu Hc Hl. unfold Install. cbv zeta.
  assert (c_Root (defaults c) = c_Root c) as Hr' by done. rewrite Hr', (proj2 (String.eqb_neq _ _)) by done. rewrite Hvalid. cbn [negb].
  apply (calm_lift _ _ archive); [done|]. apply (calm_lift _ _ sums); [done|]. apply (calm_lift _ _ ()); [done|].
  eapply calm_bind; [by apply calm_Recover|]. intros _ r1 (Hl1 & Hn1 & Hs1).
  apply (calm_bind _ _ _ (λ _ r', r' = set_versions (Some (versions r1)) r1)); [by eapply calm_atomic|]. intros _ r2 ->.
  eapply calm_bind; [by apply (calm_MkdirTemp (versions r1))|]. intros stage r2 [Hs ->].
  apply (calm_bind _ _ _ (λ x r', ∃ old, x = Ok old ∧ old = default "" L.2 ∧ live r' = installed ∧ tidy r')).
  2: { intros x r' (old & -> & Hx). by apply (calm_ret old). }
  apply calm_try. change (calm (publish (defaults c) r stage archive)
    (set_versions (Some (<[stage:=∅]> (versions r1))) r1) (λ old r', old = default "" L.2 ∧ live r' = installed ∧ tidy r')).
  assert (publish (defaults c) r stage archive = publish c r stage archive) as -> by (unfold publish; by rewrite Hgoos).
  eapply calm_publish; [done|reflexivity| | |done|].
  - rewrite <- Hl, <- Hl1. apply live_eq; [|done]. intros v Hv. match goal with |- versions (set_versions (Some ?x) _) !! _ = _ => change (x !! v = versions r1 !! v) end.
    rewrite lookup_insert_ne; [done|]. intros ->. congruence.
  - match goal with |- versions (set_versions (Some ?x) _) !! _ = _ => change (x !! stage = Some ∅) end. apply lookup_insert_eq.
  - intros v Hv Hne. match goal with |- versions (set_versions (Some ?x) _) !! _ = _ => change (x !! v = None) end. rewrite lookup_insert_ne by done. auto.
Qed.
End run.

Lemma default_idem (a b : string) : (if String.eqb (if String.eqb a "" then b else a) "" then b else if String.eqb a "" then b else a) = if String.eqb a "" then b else a.
Proof. destruct (String.eqb a "") eqn:Ea; [by destruct (String.eqb b "")|by rewrite Ea]. Qed.
Lemma defaults_idem `{Archives} c : defaults (defaults c) = defaults c.
Proof. unfold defaults. cbn [c_APIURL c_Root c_GOOS c_GOARCH]. by rewrite !default_idem. Qed.
Lemma calm_Apply `{SemverLaws} `{Archives} `{SV : Server} c current root r archive sums d :
  sound (c_GOOS (defaults c)) root → c_Root c ≠ "" → Check_ c current = (r, true, None) →
  get (ArchiveURL r) = Ok archive → get (ChecksumsURL r) = Ok sums → verifyChecksum (ArchiveName r) archive sums = Ok tt →
  pair_of (ArchiveName r) archive = Some d →
  calm (Apply c current) root (λ x r', x = (r, default "" (r_current root), true, None) ∧ live r' = installed r d (live root) ∧ tidy r').
Proof.
  intros Hs Hroot Hch Ha Hsu Hc Hp. destruct (Check_valid c current r Hch) as [_ Hv].
  assert (Hn : version_name (Version r)) by (apply v_plain; [by apply IsValid_v|by apply IsValid_slash]).
  unfold Apply. rewrite Hch. eapply calm_bind.
  - apply calm_try. assert (Install c r = Install (defaults c) r) as -> by (unfold Install; by rewrite defaults_idem).
    eapply (calm_Install (defaults c) r archive d (live root)); [done|done|exact Hs|exact Hroot|done|by rewrite defaults_idem|done..].
  - intros x r' (old & -> & -> & Hl & Ht). by apply calm_ret.
Qed.
Lemma calm_Rollback `{Archives} c v root : sound (c_GOOS (defaults c)) root → tidy root → c_Root c ≠ "" → version_name v → is_Some (live_versions root !! v) →
  calm (Rollback c (version_path v)) root (λ _ r', live r' = (live_versions root, Some (version_path v)) ∧ tidy r').
Proof.
  intros [Hs _] [Hnew Hst] Hroot [Hp Hn] [d Hd]. destruct (version_path_eq v Hp) as (_ & _ & Hc & Ha & Ho & Hne). unfold Rollback. cbv zeta. rewrite Hc, Ha, Ho.
  assert (c_Root (defaults c) = c_Root c) as -> by done. rewrite (proj2 (String.eqb_neq _ _) Hroot), (proj2 (String.eqb_neq _ _) Hne). cbn [orb].
  assert (versions root !! v = Some d) as Hd' by (rewrite live_lookup, Hn in Hd; exact Hd).
  eapply calm_bind; [eapply (calm_validatePair _ _ _ d); [by rewrite dir_at_version|by apply (Hs v)]|].
  intros _ r' ->. eapply calm_conseq; [by apply calm_switchLink|]. by intros _ r' ->.
Qed.

(** C28. Updates get through.  Whatever earlier updates, wherever they died, and
    rollbacks went before, an update that nothing interrupts, to a newer release
    whose archive matches its checksum and holds both binaries, succeeds: it
    returns the link's old target, and leaves the release's version with the
    archive's binaries, each cut at 128 MiB as the code reads it (or the directory
    it already had), the link on it, every other version as it was, and no leftover of this or an earlier update.  A
    rollback to the returned target then takes the link back. *)
Theorem update_completes `{SemverLaws} `{Archives} `{SV : Server} (c : Client) (current : string) (root0 root : Root) r archive sums d temp :
  sound (c_GOOS (defaults c)) root0 → history c (λ _, True) root0 root → c_Root c ≠ "" → temp ≠ [] →
  Check_ c current = (r, true, None) → get (ArchiveURL r) = Ok archive → get (ChecksumsURL r) = Ok sums →
  verifyChecksum (ArchiveName r) archive sums = Ok tt → pair_of (ArchiveName r) archive = Some d →
  let old := default "" (r_current root) in
  ∃ root', Apply c current (MkWorld root [] temp) = Returned (Ok (r, old, true, None)) (MkWorld root' [] temp) ∧
    live root' = (<[Version r := default d (live_versions root !! Version r)]> (live_versions root), Some (version_path (Version r))) ∧ tidy root' ∧
    (r_current root ≠ None → ∃ root'', Rollback c old (MkWorld root' [] temp) = Returned (Ok tt) (MkWorld root'' [] temp) ∧
       live root'' = (live_versions root', r_current root) ∧ tidy root'').
Proof.
  intros Hs Hh Hroot Ht Hch Ha Hsu Hc Hp old. destruct (history_sound c (λ _, True) root0 root Hs Hh) as [Hs1 _].
  destruct (calm_Apply c current root r archive sums d Hs1 Hroot Hch Ha Hsu Hc Hp temp Ht) as (x & root' & E & -> & Hl & Htidy).
  exists root'. split; [exact E|]. split; [exact Hl|]. split; [exact Htidy|].
  destruct (r_current root) as [t|] eqn:Ecur; [|done]. intros _. subst old. cbn [default from_option]. unfold id.
  assert (sound (c_GOOS (defaults c)) root') as Hs2.
  { destruct (history_sound c (λ _, True) root0 root' Hs) as [Hx _]; [|exact Hx].
    pose proof (history_apply c (λ _, True) root0 SV current [] temp root I Hh) as Hx. rewrite E in Hx. exact Hx. }
  destruct (proj2 Hs1 t) as (v & -> & Hv & Hsv); [exact Ecur|].
  destruct (calm_Rollback c v root' Hs2 Htidy Hroot Hv) with (temp := temp) as (u & root'' & E2 & Hl2 & Ht2); [|done|].
  { injection Hl as -> _. unfold installed. cbn [fst]. destruct (decide (v = Version r)) as [->|]; [by rewrite lookup_insert_eq|by rewrite lookup_insert_ne]. }
  exists root''. destruct u. by split_and!.
Qed.

#[local] Existing Instance toy_semver.
#[local] Existing Instance toy_semver_laws.
#[local] Existing Instance toy_archives.
#[local] Existing Instance toy_server.
Definition toy_release : Release := MkRelease "v1.2.0" "archive" "tailmix_1.2.0_linux_amd64.tar.gz" "sums".
Lemma toy_check : Check_ toy_client "1.1.0" = (toy_release, true, None).
Proof. vm_compute. reflexivity. Qed.
Lemma toy_pair : pair_of (ArchiveName toy_release) "TAR" = Some toy_new.
Proof. vm_compute. reflexivity. Qed.
Lemma toy_gets : get (ArchiveURL toy_release) = Ok "TAR" ∧ get (ChecksumsURL toy_release) = Ok ("0A1B  *tailmix_1.2.0_linux_amd64.tar.gz" +:+ String NL "") ∧
  verifyChecksum (ArchiveName toy_release) "TAR" ("0A1B  *tailmix_1.2.0_linux_amd64.tar.gz" +:+ String NL "") = Ok ().
Proof. vm_compute. split_and!; reflexivity. Qed.
Lemma toy_names : c_Root toy_client ≠ "" ∧ ["1"] ≠ [].
Proof. by split. Qed.
Lemma update_completes_witness :
  versions toy_broken !! ".stage-1" ≠ None ∧
  ∃ root', Apply toy_client "1.1.0" (MkWorld toy_broken [] ["1"]) =
      Returned (Ok (toy_release, default "" (r_current toy_broken), true, None)) (MkWorld root' [] ["1"]) ∧
    r_current root' = Some (version_path (Version toy_release)) ∧ tidy root'.
Proof.
  split; [vm_compute; discriminate|]. destruct toy_gets as (Ha & Hs & Hc). destruct toy_names as [Hr Ht].
  destruct (update_completes toy_client "1.1.0" toy_root toy_broken toy_release "TAR" ("0A1B  *tailmix_1.2.0_linux_amd64.tar.gz" +:+ String NL "") toy_new ["1"]
    toy_sound toy_history Hr Ht toy_check Ha Hs Hc toy_pair) as (root' & E & Hl & Htidy & _).
  exists root'. split; [exact E|]. split; [exact (f_equal snd Hl)|exact Htidy].
Defined.

(** The needle of the platform is looked for anywhere in a name: a 32-bit ARM
    installation takes a 64-bit archive. *)
Example arm_takes_arm64 :
  latest_asset "linux" "arm" (MkRelease "v1.2.0" "" "" "") (MkAsset "tailmix_1.2.0_linux_arm64.tar.gz" "u") =
    Ok (MkRelease "v1.2.0" "u" "tailmix_1.2.0_linux_arm64.tar.gz" "").
Proof. reflexivity. Qed.
