(* ===== verification/Paths.v ===== *)
(** * Directories of profiles

    The checks of cmd/tailmixd/supervisor.go before a profile is added
    ([validateNewStateDirLocked]) and before its directory is deleted
    ([validatePurgeLocked]).  The working directory and
    [filepath.EvalSymlinks] are parameters. *)

From S2P Require Import Prelude GoStrings FilePath State RoutingPolicy.

Inductive path_error : Type :=
  | EUnsafeDir (dir : string) | EContainsState | EDirInUse (dir name : string)
  | ERoot | EOutsideRoot (dir root : string) | EShared (dir : string).

Section dirs.
Context (wd : option string) (EvalSymlinks : string → option string) (storePath : string).

Definition defaultProfileStateDir (profileID : string) : string := Join [Dir storePath; "profiles"; profileID].

Definition contains_state (target : string) : bool :=
  match Rel target (default "" (Abs wd storePath)) with Some relative => negb (outside relative) | None => false end.
Definition validateNewStateDirLocked (profiles : list Profile) (raw : string) : result path_error string :=
  match Abs wd (TrimSpace raw) with
  | None => Err (EUnsafeDir raw)
  | Some target =>
    _ ← guard_err (String.eqb (TrimSpace raw) "" || String.eqb target "/") (EUnsafeDir raw);
    _ ← guard_err (contains_state target) EContainsState;
    match List.find (λ p, String.eqb (default "" (Abs wd (pr_StateDir p))) target) profiles with
    | Some p => Err (EDirInUse target (profileName p))
    | None => Ok target
    end
  end.

Definition validatePurgeLocked (profiles : list Profile) (configured : Profile) : result path_error unit :=
  match Abs wd (pr_StateDir configured) with
  | None => Err (EUnsafeDir (pr_StateDir configured))
  | Some target =>
    _ ← guard_err (String.eqb (TrimSpace (pr_StateDir configured)) "") (EUnsafeDir (pr_StateDir configured));
    match Abs wd (Join [Dir storePath; "profiles"]) with
    | None => Err ERoot
    | Some root =>
      let root := default root (EvalSymlinks root) in
      let target := default target (EvalSymlinks target) in
      _ ← match Rel root target with
          | None => Err (EOutsideRoot target root)
          | Some relative => guard_err (String.eqb relative "." || outside relative) (EOutsideRoot target root)
          end;
      _ ← guard_err (existsb (λ other, negb (String.eqb (pr_ID other) (pr_ID configured)) &&
                                       String.eqb (default "" (Abs wd (pr_StateDir other))) target) profiles) (EShared target);
      guard_err (contains_state target) EContainsState
    end
  end.
End dirs.

(** ** What the checks guarantee *)

Section guarantees.
Context (wd : option string) (EvalSymlinks : string → option string) (storePath : string).
Context (Hwd : wd_ok wd).
(** [filepath.EvalSymlinks] of an absolute path is a cleaned absolute path. *)
Context (links_absolute : ∀ p q, absolute p → EvalSymlinks p = Some q → absolute q ∧ Clean q = q).

Lemma contains_state_spec target : absolute target →
  contains_state wd storePath target = true ↔ ∃ sp, Abs wd storePath = Some sp ∧ within target sp.
Proof using Hwd.
  intros Ht. unfold contains_state. destruct (Abs wd storePath) as [sp|] eqn:Esp; cbn [default from_option id].
  - destruct (Abs_ok _ _ _ Hwd Esp) as [Ha _]. destruct (Rel_spec target sp Ht Ha) as (r & -> & Hin & _).
    rewrite negb_true_iff, Hin. split; [eauto|]. by intros (? & [= <-] & ?).
  - split; [done|]. by intros (? & ? & _).
Qed.
Lemma same_dir p target : absolute target → String.eqb (default "" (Abs wd p)) target = true ↔ Abs wd p = Some target.
Proof using.
  intros Ht. rewrite String.eqb_eq. destruct (Abs wd p) as [q|]; cbn; [split; congruence|]. split; [by intros <-|done].
Qed.

Lemma new_dir_spec profiles raw target : validateNewStateDirLocked wd storePath profiles raw = Ok target →
  absolute target ∧ Clean target = target ∧ Abs wd (TrimSpace raw) = Some target ∧ path_elements target ≠ [] ∧
  (∀ sp, Abs wd storePath = Some sp → ¬ within target sp) ∧ (∀ p, p ∈ profiles → Abs wd (pr_StateDir p) ≠ Some target).
Proof using Hwd.
  unfold validateNewStateDirLocked. destruct (Abs wd (TrimSpace raw)) as [t|] eqn:Et; [|done]. intros Hok.
  destruct (Abs_ok _ _ _ Hwd Et) as [Ha Hc]. ok_guard Hok as [_ Hroot]%orb_false_iff. ok_guard Hok as Hst.
  destruct (List.find _ profiles) as [p|] eqn:Ef; [done|]. injection Hok as <-. split_and!; [done..| | |].
  - intros He. apply String.eqb_neq in Hroot. apply Hroot. rewrite <-Hc, (Clean_render _ Ha), He. done.
  - intros sp Hsp Hw. enough (contains_state wd storePath t = true) by congruence. apply contains_state_spec; eauto.
  - intros p Hp%list_elem_of_In Hd. pose proof (List.find_none _ _ Ef p Hp) as Hf. cbn beta in Hf.
    apply (same_dir _ _ Ha) in Hd. congruence.
Qed.

(** What a check before a purge found. *)
Record purgeable (profiles : list Profile) (configured : Profile) (root target : string) : Prop := {
  pu_absolute : absolute root ∧ absolute target;
  pu_target : ∃ t, Abs wd (pr_StateDir configured) = Some t ∧ target = default t (EvalSymlinks t);
  pu_root : ∃ r, Abs wd (Join [Dir storePath; "profiles"]) = Some r ∧ root = default r (EvalSymlinks r);
  pu_below : within root target ∧ path_elements target ≠ path_elements root;
  pu_unshared : ∀ p, p ∈ profiles → pr_ID p ≠ pr_ID configured → Abs wd (pr_StateDir p) ≠ Some target;
  pu_state : ∀ sp, Abs wd storePath = Some sp → ¬ within target sp }.
Lemma resolved p t : Abs wd p = Some t → absolute (default t (EvalSymlinks t)).
Proof using links_absolute Hwd.
  intros Ht. destruct (Abs_ok _ _ _ Hwd Ht) as [Ha _]. destruct (EvalSymlinks t) as [q|] eqn:Eq; [|done].
  by destruct (links_absolute _ _ Ha Eq).
Qed.
Lemma purge_spec profiles configured : is_ok (validatePurgeLocked wd EvalSymlinks storePath profiles configured) = true ↔
  TrimSpace (pr_StateDir configured) ≠ "" ∧ ∃ root target, purgeable profiles configured root target.
Proof using links_absolute Hwd.
  unfold validatePurgeLocked. destruct (Abs wd (pr_StateDir configured)) as [t|] eqn:Et.
  2:{ split; [done|]. intros (_ & r & tt & [_ (t & ? & _) _ _ _ _]). congruence. }
  destruct (String.eqb_spec (TrimSpace (pr_StateDir configured)) "") as [He|He]; [by split; [|intros []]|].
  destruct (Abs wd (Join [Dir storePath; "profiles"])) as [r|] eqn:Er.
  2:{ split; [done|]. intros (_ & r & tt & [_ _ (rr & ? & _) _ _ _]). congruence. }
  pose proof (resolved _ _ Et) as Ht. pose proof (resolved _ _ Er) as Hr. cbn [guard_err mbind result_bind].
  set (target := default t (EvalSymlinks t)) in *. set (root := default r (EvalSymlinks r)) in *.
  destruct (Rel_spec root target Hr Ht) as (rel & -> & Hin & Heq).
  assert (Hothers : existsb (λ other, negb (String.eqb (pr_ID other) (pr_ID configured)) &&
      String.eqb (default "" (Abs wd (pr_StateDir other))) target) profiles = false ↔
    ∀ p, p ∈ profiles → pr_ID p ≠ pr_ID configured → Abs wd (pr_StateDir p) ≠ Some target).
  { rewrite <-not_true_iff_false, existsb_exists. split.
    - intros Hno p Hp Hid Hd. apply Hno. exists p. split; [by apply list_elem_of_In|].
      apply andb_true_iff. split; [by apply negb_true_iff, String.eqb_neq|by apply same_dir].
    - intros Hall (p & Hp%list_elem_of_In & [Hid%negb_true_iff%String.eqb_neq Hd]%andb_true_iff).
      apply same_dir in Hd; [|done]. by apply (Hall p). }
  assert (Hstate : contains_state wd storePath target = false ↔ ∀ sp, Abs wd storePath = Some sp → ¬ within target sp).
  { rewrite <-not_true_iff_false, contains_state_spec by done. naive_solver. }
  transitivity ((rel ≠ "." ∧ outside rel = false) ∧
    (∀ p, p ∈ profiles → pr_ID p ≠ pr_ID configured → Abs wd (pr_StateDir p) ≠ Some target) ∧
    (∀ sp, Abs wd storePath = Some sp → ¬ within target sp)).
  - rewrite <-Hothers, <-Hstate. unfold guard_err.
    destruct (String.eqb_spec rel "."), (outside rel), (existsb _ profiles), (contains_state _ _ target); cbn; naive_solver.
  - split.
    + intros ((Hd & Ho) & Hu & Hs). split; [done|]. exists root, target. split; [done|by exists t|by exists r| |done|done].
      split; [by apply Hin|]. intros Hc. by apply Hd, Heq.
    + intros (_ & root' & target' & [_ (t' & Ht' & ->) (r' & Hr' & ->) [Hw Hne] Hu Hs]). simplify_eq.
      split_and!; [|by apply Hin|done|done]. intros Hd%Heq. exact (Hne (eq_sym Hd)).
Qed.

(** What a new profile's directory may be.  A directory that is accepted is a
    cleaned absolute path, not the root, that no stored profile has and that the
    daemon's state file is not in.  Before a purge the directory, with its
    symbolic links resolved, lies strictly below the profiles directory next to
    the state file, no other profile has it and the state file is not in it; and
    the check refuses nothing else but an empty directory. *)
Theorem state_dirs_sound (profiles : list Profile) (raw target : string) (configured : Profile) :
  (validateNewStateDirLocked wd storePath profiles raw = Ok target →
   absolute target ∧ Clean target = target ∧ path_elements target ≠ [] ∧
   (∀ sp, Abs wd storePath = Some sp → ¬ within target sp) ∧ (∀ p, p ∈ profiles → Abs wd (pr_StateDir p) ≠ Some target)) ∧
  (is_ok (validatePurgeLocked wd EvalSymlinks storePath profiles configured) = true ↔
   TrimSpace (pr_StateDir configured) ≠ "" ∧ ∃ root target, purgeable profiles configured root target).
Proof using links_absolute Hwd.
  split; [|apply purge_spec]. intros (? & ? & _ & ? & ? & ?)%new_dir_spec. by split_and!.
Qed.

(** The directory a profile gets by default can be deleted again. *)
Lemma default_dir_elements profileID d : absolute storePath → plain_elem profileID →
  Abs wd (defaultProfileStateDir storePath profileID) = Some d →
  ∃ root, Abs wd (Join [Dir storePath; "profiles"]) = Some root ∧ absolute root ∧ path_elements d = path_elements root ++ [profileID].
Proof using Hwd.
  intros Hs Hid. assert (Hd : absolute (Dir storePath)).
  { unfold Dir. apply Clean_absolute. unfold absolute, IsAbs, HasPrefix, TrimRight in *. rewrite chars_text.
    destruct (chars storePath) as [|c k]; [done|]. cbn -[char_eqb] in Hs. rewrite andb_true_r in Hs. apply char_eqb_eq in Hs as <-.
    assert (∃ k', trim_right (λ c0, negb (char_eqb c0 slash)) ("/"%char :: k) = "/"%char :: k') as [k' ->]; [|done].
    unfold trim_right. rewrite reverse_cons. generalize (reverse k). clear. intros l. induction l as [|x l IH]; [by eexists|].
    cbn -[char_eqb reverse]. destruct (negb _); [apply IH|]. rewrite reverse_cons, reverse_app. cbn. by eexists. }
  assert (Hpp : plain_elem "profiles") by (split_and!; [done..|]; apply (bool_decide_unpack _); vm_compute; exact I).
  unfold defaultProfileStateDir. rewrite !Join_absolute by done.
  destruct (elements_below (Dir storePath) ["profiles"; profileID] Hd) as [E2 A2]; [by do 2 (constructor; [done|])|done|].
  destruct (elements_below (Dir storePath) ["profiles"] Hd) as [E1 A1]; [by constructor|done|].
  change (JoinStr "/" [Dir storePath; "profiles"; profileID]) with (Dir storePath +:+ "/" +:+ JoinStr "/" ["profiles"; profileID]).
  change (JoinStr "/" [Dir storePath; "profiles"]) with (Dir storePath +:+ "/" +:+ JoinStr "/" ["profiles"]).
  destruct (Clean_absolute _ A2) as (C2 & F2 & G2). destruct (Clean_absolute _ A1) as (C1 & F1 & G1).
  unfold Abs. rewrite C2, C1, G2, G1. intros Hdd. eexists. split_and!; [done|done|].
  assert (d = Clean (Dir storePath +:+ "/" +:+ JoinStr "/" ["profiles"; profileID])) as -> by congruence.
  by rewrite F2, F1, E2, E1, <-app_assoc.
Qed.
Theorem default_dir_purgeable (profiles : list Profile) (configured : Profile) :
  absolute storePath → plain_elem (pr_ID configured) → (∀ p, EvalSymlinks p = Some p) →
  validateNewStateDirLocked wd storePath
    (filter (λ p, pr_ID p ≠ pr_ID configured) profiles) (defaultProfileStateDir storePath (pr_ID configured)) = Ok (pr_StateDir configured) →
  TrimSpace (pr_StateDir configured) = pr_StateDir configured →
  TrimSpace (defaultProfileStateDir storePath (pr_ID configured)) = defaultProfileStateDir storePath (pr_ID configured) →
  validatePurgeLocked wd EvalSymlinks storePath profiles configured = Ok tt.
Proof using links_absolute Hwd.
  intros Hs Hid Hln Hnew Htrim Hdtrim. destruct (new_dir_spec _ _ _ Hnew) as (Ha & Hc & Hd & Hne & Hst & Hother).
  rewrite Hdtrim in Hd. destruct (default_dir_elements _ _ Hs Hid Hd) as (root & Hroot & Hra & He).
  enough (Hok : is_ok (validatePurgeLocked wd EvalSymlinks storePath profiles configured) = true).
  { by destruct (validatePurgeLocked _ _ _ _ _) as [[]|]. }
  apply purge_spec. rewrite Htrim. split; [by intros E0; rewrite E0 in Ha|].
  exists root, (pr_StateDir configured). split.
  - done.
  - exists (pr_StateDir configured). rewrite Hln. split; [|done]. unfold Abs. by rewrite Ha, Hc.
  - exists root. by rewrite Hln.
  - split; [eexists; exact He|]. intros Heq. rewrite He in Heq. apply (f_equal length) in Heq. rewrite length_app in Heq. cbn in Heq. lia.
  - intros p Hp Hpid. apply Hother. by apply list_elem_of_filter.
  - done.
Qed.
End guarantees.

(** ** Concrete paths *)

Example clean_paths : Clean <$> [""; "/"; "a//b/./c/.."; "/../a"; "../../a/.."; "/var/lib/tailmix/"; "./"] =
  ["."; "/"; "a/b"; "/a"; "../.."; "/var/lib/tailmix"; "."].
Proof. reflexivity. Qed.
Example dir_paths : Dir <$> ["/var/lib/state.json"; "state.json"; "/state.json"; "a/b/"] = ["/var/lib"; "."; "/"; "a/b"].
Proof. reflexivity. Qed.
Example rel_paths : Rel "/a/b" <$> ["/a/b/c/d"; "/a/b"; "/a/bc"; "/"; "x"] =
  [Some "c/d"; Some "."; Some "../bc"; Some "../.."; None].
Proof. reflexivity. Qed.

Definition dir_profile (id dir : string) : Profile := MkProfile id id "" "tailscale" dir "" "" false false false false None "" false.
Definition dir_store : string := "/var/lib/tailmix/state.json".
Definition dir_profiles : list Profile := [dir_profile "p_1" "/var/lib/tailmix/profiles/p_1"; dir_profile "p_2" "/srv/p_2"].
Definition no_links (p : string) : option string := Some (Clean p).
Lemma state_dirs_sound_witness :
  (path_elements "/var/lib/tailmix/profiles/p_3" ≠ [] ∧ ¬ within "/var/lib/tailmix/profiles/p_3" dir_store) ∧
  (∃ root target, purgeable (Some "/root") no_links dir_store dir_profiles (dir_profile "p_1" "/var/lib/tailmix/profiles/p_1") root target).
Proof.
  assert (Hwd : wd_ok (Some "/root")) by (by intros d [= <-]).
  assert (Hln : ∀ p q, absolute p → no_links p = Some q → absolute q ∧ Clean q = q).
  { intros p q Hp [= <-]. destruct (Clean_absolute p Hp) as (? & _ & ?). done. }
  destruct (state_dirs_sound (Some "/root") no_links dir_store Hwd Hln dir_profiles
    (defaultProfileStateDir dir_store "p_3") "/var/lib/tailmix/profiles/p_3"
    (dir_profile "p_1" "/var/lib/tailmix/profiles/p_1")) as [Hnew Hpurge].
  destruct (Hnew ltac:(vm_compute; reflexivity)) as (_ & _ & Hne & Hst & _). split; [split; [exact Hne|]|].
  - apply (Hst dir_store). vm_compute. reflexivity.
  - exact (proj2 (proj1 Hpurge ltac:(vm_compute; reflexivity))).
Defined.
(** The check for sharing compares the directories of the others as they are
    written with the resolved directory of the profile: below a linked
    [/var] a directory two profiles have passes. *)
Definition var_link (p : string) : option string := Some (if HasPrefix p "/var" then "/private" +:+ p else p).
Example shared_link : validatePurgeLocked None var_link dir_store
  [dir_profile "p_1" "/var/lib/tailmix/profiles/x"; dir_profile "p_2" "/var/lib/tailmix/profiles/x"]
  (dir_profile "p_1" "/var/lib/tailmix/profiles/x") = Ok tt.
Proof. vm_compute. reflexivity. Qed.
(** Sharing is equality: a directory inside another profile's is accepted, and
    the purge of the outer one deletes it. *)
Example nested_dirs :
  validateNewStateDirLocked None dir_store dir_profiles "/var/lib/tailmix/profiles/p_1/inner" = Ok "/var/lib/tailmix/profiles/p_1/inner" ∧
  validatePurgeLocked None no_links dir_store
    (dir_profiles ++ [dir_profile "p_4" "/var/lib/tailmix/profiles/p_1/inner"])
    (dir_profile "p_1" "/var/lib/tailmix/profiles/p_1") = Ok tt.
Proof. split; vm_compute; reflexivity. Qed.
