(* ===== verification/ProfileView.v ===== *)
(** * Profiles as the control API shows them

    [projectProfileLocked], [listProfilesLocked] and [resolverResourcesForAPI] of
    cmd/tailmixd/supervisor.go, and the socket paths of profilesocket/path.go and
    profilesocket/control.go.  A profile's last error is a value instead of its
    text.  SHA-256 is a parameter. *)

From S2P Require Import Prelude GoStrings FilePath Netip State Types DNSName Paths RoutingPolicy DNSPolicy.

(** ** Sockets *)

Definition socket_char (r : Ascii.ascii) : bool :=
  is_lower r || is_digit r || char_eqb r "-"%char || char_eqb r "_"%char.
(** The loop of [socketLabel]; the bytes written so far are reversed. *)
Fixpoint label_loop (l b : list Ascii.ascii) (lastHyphen : bool) : list Ascii.ascii :=
  match l with
  | [] => b
  | r :: l =>
    let '(b, lastHyphen) :=
      if socket_char r then (r :: b, char_eqb r "-"%char)
      else if (0 <? length b)%nat && negb lastHyphen then ("-"%char :: b, true)
      else (b, lastHyphen) in
    if (24 <=? length b)%nat then b else label_loop l b lastHyphen
  end.
Definition socketLabel (profileID : string) : string :=
  let b := text (reverse (label_loop (chars (ToLower profileID)) [] false)) in
  let label := Trim (λ c, char_eqb c "-"%char || char_eqb c "_"%char) b in
  if String.eqb label "" then "profile" else label.

(** [hex.EncodeToString], also the [%x] of a byte slice. *)
Definition EncodeToString (bytes : list Z) : string :=
  text (bytes ≫= λ b, [hex_char (Z.shiftr b 4); hex_char (Z.land b 15)]).

Definition EnvDir : string := "TAILMIX_SOCKET_DIR".
Definition DefaultDir (Getenv : string → string) : string :=
  let dir := TrimSpace (Getenv EnvDir) in if negb (String.eqb dir "") then dir else "/var/run/tailmix".
Definition ControlPath (dir : string) : string := Join [dir; "tailmixd.sock"].
Section sockets.
Context (Sum256 : string → list Z).
(** [None] is an error. *)
Definition Path (dir profileID : string) : option string :=
  if String.eqb (TrimSpace dir) "" then None
  else if String.eqb profileID "" then None
  else Some (Join [dir; socketLabel profileID +:+ "-" +:+ EncodeToString (take 6 (Sum256 profileID)) +:+ ".sock"]).
End sockets.

(** ** Profiles *)

Record APIProfile (Err : Type) : Type := MkAPIProfile {
  ap_ID : string; ap_Name : string; ap_Kind : string; ap_StateDir : string; ap_Hostname : string;
  ap_Enabled : bool; ap_Removed : bool; ap_AcceptAllRoutes : bool; ap_AcceptAllDNSRoutes : bool;
  ap_RuntimeState : string; ap_BackendState : string; ap_MagicDNSSuffix : string; ap_SelfDNSName : string;
  ap_SelfIPs : list Addr; ap_PeerCount : Z; ap_ShieldsUp : bool; ap_AuthURL : string; ap_LocalAPISocket : string;
  ap_AvailableRoutes : list api.AvailableIPRoute; ap_AvailableDNSRoutes : list api.AvailableDNSRoute;
  ap_AvailableSearchDomains : list api.AvailableSearchDomain; ap_LastError : option Err }.
Arguments MkAPIProfile {Err} _ _ _ _ _ _ _ _ _ _ _ _ _ _ _ _ _ _ _ _ _ _.
Arguments ap_ID {Err} _.
Arguments ap_Name {Err} _.
Arguments ap_Kind {Err} _.
Arguments ap_StateDir {Err} _.
Arguments ap_Hostname {Err} _.
Arguments ap_Enabled {Err} _.
Arguments ap_Removed {Err} _.
Arguments ap_AcceptAllRoutes {Err} _.
Arguments ap_AcceptAllDNSRoutes {Err} _.
Arguments ap_RuntimeState {Err} _.
Arguments ap_BackendState {Err} _.
Arguments ap_MagicDNSSuffix {Err} _.
Arguments ap_SelfDNSName {Err} _.
Arguments ap_SelfIPs {Err} _.
Arguments ap_PeerCount {Err} _.
Arguments ap_ShieldsUp {Err} _.
Arguments ap_AuthURL {Err} _.
Arguments ap_LocalAPISocket {Err} _.
Arguments ap_AvailableRoutes {Err} _.
Arguments ap_AvailableDNSRoutes {Err} _.
Arguments ap_AvailableSearchDomains {Err} _.
Arguments ap_LastError {Err} _.

Definition resolverResourcesForAPI (resolvers : list (option Resolver)) : list api.DNSResolver :=
  omap (λ r, r ← r; Some (api.MkDNSResolver (res_Addr r) (res_BootstrapResolution r) (res_UseWithExitNode r))) resolvers.

Section view.
Context {F : Type} `{DNSName F} {Err : Type}.

(** The state of an enabled profile with a runtime. *)
Definition running_state (status : Status) (degraded : bool) (lastError : option Err) : string :=
  if degraded then "error"
  else if String.eqb (s_BackendState status) "Running" then "running"
  else if negb (String.eqb (s_AuthURL status) "") || StrContains (ToLower (s_BackendState status)) "needslogin" then "needs-login"
  else match lastError with Some _ => "error" | None => "starting" end.
Definition available_search (configured : Profile) (domain : string) : option api.AvailableSearchDomain :=
  let domain := NormalizeDomain domain in
  if String.eqb domain "" || String.eqb domain "." then None
  else Some (api.MkAvailableSearch domain (pr_ID configured) (profileName configured)).

(** [runtime] is the status of the profile's engine and whether its last
    configuration was only partly applied; [socket] is what [Path] gave. *)
Definition projectProfile (down : bool) (runtime : option (Status * bool)) (lastError : option Err) (socket : option string)
    (configured : Profile) : APIProfile Err :=
  let kind := if String.eqb (pr_Kind configured) "" then ProfileKindTailscale else pr_Kind configured in
  let local := if String.eqb kind ProfileKindTailscale then default "" socket else "" in
  let plain state :=
    MkAPIProfile (pr_ID configured) (profileName configured) kind (pr_StateDir configured) (pr_Hostname configured)
      (negb (pr_Disabled configured) && negb (pr_Removed configured)) (pr_Removed configured)
      (pr_AcceptAllRoutes configured) (pr_AcceptAllDNSRoutes configured) state "" "" "" [] 0%Z
      (String.eqb (pr_Kind configured) ProfileKindWireGuard && pr_WireGuardShieldsUp configured) "" local [] [] [] lastError in
  if pr_Removed configured then plain "removed"
  else if pr_Disabled configured then plain "disabled"
  else if down then plain "down"
  else
    match runtime with
    | None => plain "error"
    | Some (status, degraded) =>
      MkAPIProfile (pr_ID configured) (profileName configured) kind (pr_StateDir configured) (pr_Hostname configured)
        true false (pr_AcceptAllRoutes configured) (pr_AcceptAllDNSRoutes configured)
        (running_state status degraded lastError)
        (s_BackendState status) (s_MagicDNSSuffix status) (s_SelfDNSName status) (s_SelfIPs status) (s_PeerCount status)
        (s_ShieldsUp status) (s_AuthURL status) local
        ((λ r, api.MkAvailableIPRoute (rs_Prefix r) (pr_ID configured) (profileName configured) (rs_PrimaryRouter r)) <$> s_AvailableRoutes status)
        ((λ r, api.MkAvailableDNSRoute (NormalizeDomain (ds_Domain r)) (pr_ID configured) (profileName configured) (ds_Source r)
                 (resolverResourcesForAPI (ds_Resolvers r))) <$> s_DNSRoutes status)
        (omap (available_search configured) (s_SearchDomains status)) lastError
    end.
End view.

(** ** What the view says *)

Section facts.
Context {F : Type} `{DNSName F} {Err : Type}.

(** The five states of the enabled profile of a daemon that is up, by what its
    engine reports. *)
Lemma view_state (down : bool) (runtime : option (Status * bool)) (lastError : option Err) socket (p : Profile) :
  ap_RuntimeState (projectProfile down runtime lastError socket p) =
  if pr_Removed p then "removed" else if pr_Disabled p then "disabled" else if down then "down"
  else match runtime with None => "error" | Some (status, degraded) => running_state status degraded lastError end.
Proof. unfold projectProfile. destruct (pr_Removed p), (pr_Disabled p), down, runtime as [[]|]; done. Qed.

(** The engine whose status the view shows: the daemon is up, and the profile is
    enabled and has a runtime. *)
Definition shown_engine (down : bool) (runtime : option (Status * bool)) (p : Profile) : option (Status * bool) :=
  if pr_Removed p || pr_Disabled p || down then None else runtime.
(** A view without anything of an engine. *)
Definition nothing_of_engine (v : APIProfile Err) : Prop :=
  ap_BackendState v = "" ∧ ap_MagicDNSSuffix v = "" ∧ ap_SelfDNSName v = "" ∧ ap_SelfIPs v = [] ∧ ap_PeerCount v = 0%Z ∧ ap_AuthURL v = "" ∧
  ap_AvailableRoutes v = [] ∧ ap_AvailableDNSRoutes v = [] ∧ ap_AvailableSearchDomains v = [].
(** A view of an engine's status: what it offers is the profile's, in order, and
    its domains are in canonical form. *)
Definition all_of_engine (status : Status) (p : Profile) (v : APIProfile Err) : Prop :=
  ap_BackendState v = s_BackendState status ∧ ap_MagicDNSSuffix v = s_MagicDNSSuffix status ∧ ap_SelfDNSName v = s_SelfDNSName status ∧
  ap_SelfIPs v = s_SelfIPs status ∧ ap_PeerCount v = s_PeerCount status ∧ ap_AuthURL v = s_AuthURL status ∧ ap_ShieldsUp v = s_ShieldsUp status ∧
  api.ai_Prefix <$> ap_AvailableRoutes v = rs_Prefix <$> s_AvailableRoutes status ∧
  api.ai_PrimaryRouter <$> ap_AvailableRoutes v = rs_PrimaryRouter <$> s_AvailableRoutes status ∧
  api.ad_Domain <$> ap_AvailableDNSRoutes v = NormalizeDomain ∘ ds_Domain <$> s_DNSRoutes status ∧
  api.ad_Source <$> ap_AvailableDNSRoutes v = ds_Source <$> s_DNSRoutes status ∧
  api.ad_Resolvers <$> ap_AvailableDNSRoutes v = resolverResourcesForAPI ∘ ds_Resolvers <$> s_DNSRoutes status ∧
  api.as_Domain <$> ap_AvailableSearchDomains v = filter (λ d, d ≠ "" ∧ d ≠ ".") (NormalizeDomain <$> s_SearchDomains status) ∧
  Forall (λ r, api.ai_ProfileID r = pr_ID p ∧ api.ai_ProfileName r = profileName p) (ap_AvailableRoutes v) ∧
  Forall (λ r, api.ad_ProfileID r = pr_ID p ∧ api.ad_ProfileName r = profileName p) (ap_AvailableDNSRoutes v) ∧
  Forall (λ r, api.as_ProfileID r = pr_ID p ∧ api.as_ProfileName r = profileName p) (ap_AvailableSearchDomains v).
Definition asks_login (status : Status) : Prop := s_AuthURL status ≠ "" ∨ StrContains (ToLower (s_BackendState status)) "needslogin" = true.
(** What each of the seven states means. *)
Definition state_means (down : bool) (engine : option (Status * bool)) (lastError : option Err) (p : Profile) (state : string) : Prop :=
  (state = "removed" ∧ pr_Removed p = true) ∨
  (state = "disabled" ∧ pr_Removed p = false ∧ pr_Disabled p = true) ∨
  (pr_Removed p = false ∧ pr_Disabled p = false ∧
   (state = "down" ∧ down = true ∨
    down = false ∧
    (state = "error" ∧ (engine = None ∨ ∃ status degraded, engine = Some (status, degraded) ∧
       (degraded = true ∨ s_BackendState status ≠ "Running" ∧ ¬ asks_login status ∧ lastError ≠ None)) ∨
     ∃ status, engine = Some (status, false) ∧
       (state = "running" ∧ s_BackendState status = "Running" ∨
        s_BackendState status ≠ "Running" ∧
        (state = "needs-login" ∧ asks_login status ∨ state = "starting" ∧ ¬ asks_login status ∧ lastError = None))))).
Lemma running_state_means down engine lastError p status degraded : pr_Removed p = false → pr_Disabled p = false → down = false →
  engine = Some (status, degraded) → state_means down engine lastError p (running_state status degraded lastError).
Proof using.
  intros Hr Hd Hdown ->. unfold state_means, running_state. right. right. do 2 (split; [done|]). right. split; [done|].
  destruct degraded; [left; split; [done|]; right; eauto 10|].
  destruct (String.eqb_spec (s_BackendState status) "Running") as [Hb|Hb]; [right; exists status; split; [done|by left]|].
  destruct (negb (String.eqb (s_AuthURL status) "") || StrContains (ToLower (s_BackendState status)) "needslogin") eqn:Ea.
  - right. exists status. split; [done|]. right. split; [done|]. left. split; [done|].
    apply orb_true_iff in Ea as [Ea|Ea]; [left; by apply negb_true_iff, String.eqb_neq in Ea|by right].
  - apply orb_false_iff in Ea as [Ea1%negb_false_iff%String.eqb_eq Ea2].
    assert (¬ asks_login status) as Hn by (unfold asks_login; rewrite Ea2; intros [?|?]; done).
    destruct lastError; [left; split; [done|]; right; exists status, false; split; [done|]; by right|].
    right. exists status. split; [done|]. right. split; [done|]. by right.
Qed.
Lemma search_domains (p : Profile) (l : list string) :
  api.as_Domain <$> omap (available_search p) l = filter (λ d, d ≠ "" ∧ d ≠ ".") (NormalizeDomain <$> l) ∧
  Forall (λ r, api.as_ProfileID r = pr_ID p ∧ api.as_ProfileName r = profileName p) (omap (available_search p) l).
Proof using.
  induction l as [|d l [IH1 IH2]]; [done|]. cbn [omap list_omap fmap list_fmap]. unfold available_search.
  destruct (String.eqb_spec (NormalizeDomain d) "") as [E|E]; cbn [orb]; [by rewrite filter_cons_False by naive_solver|].
  destruct (String.eqb_spec (NormalizeDomain d) ".") as [E'|E']; [by rewrite filter_cons_False by naive_solver|].
  rewrite filter_cons_True by done. cbn [fmap list_fmap api.as_Domain]. split; [by f_equal|by constructor].
Qed.

(** C26. The control API's view of a profile.  It has one of seven states, each of
    which means what [state_means] says; it is running exactly for an enabled
    profile of a daemon that is up whose engine runs and holds its whole
    configuration.  Without an engine to show (removed, disabled, daemon down, or
    no runtime) no field of the view holds anything of an engine and the shields
    are the stored ones of a WireGuard profile; with one, the view holds exactly
    the engine's status, its offers as the profile's own, search domains only in
    canonical form and never the root.  What identifies the profile comes from
    the state, and a socket is named only for a Tailscale profile. *)
Theorem projectProfile_sound (down : bool) (runtime : option (Status * bool)) (lastError : option Err) socket (p : Profile) :
  let v := projectProfile down runtime lastError socket p in
  let engine := shown_engine down runtime p in
  state_means down engine lastError p (ap_RuntimeState v) ∧
  (ap_RuntimeState v = "running" ↔ ∃ status, engine = Some (status, false) ∧ s_BackendState status = "Running") ∧
  (engine = None → nothing_of_engine v ∧ (ap_ShieldsUp v = true ↔ pr_Kind p = ProfileKindWireGuard ∧ pr_WireGuardShieldsUp p = true)) ∧
  (∀ status degraded, engine = Some (status, degraded) → all_of_engine status p v) ∧
  (ap_Enabled v = true ↔ pr_Disabled p = false ∧ pr_Removed p = false) ∧ ap_Removed v = pr_Removed p ∧
  ap_ID v = pr_ID p ∧ ap_Name v = profileName p ∧ ap_Kind v = (if String.eqb (pr_Kind p) "" then ProfileKindTailscale else pr_Kind p) ∧
  ap_StateDir v = pr_StateDir p ∧ ap_Hostname v = pr_Hostname p ∧ ap_LastError v = lastError ∧
  ap_AcceptAllRoutes v = pr_AcceptAllRoutes p ∧ ap_AcceptAllDNSRoutes v = pr_AcceptAllDNSRoutes p ∧
  ap_LocalAPISocket v = (if String.eqb (ap_Kind v) ProfileKindTailscale then default "" socket else "").
Proof.
  assert (Hshields : String.eqb (pr_Kind p) ProfileKindWireGuard && pr_WireGuardShieldsUp p = true ↔
    pr_Kind p = ProfileKindWireGuard ∧ pr_WireGuardShieldsUp p = true) by (rewrite andb_true_iff; by rewrite String.eqb_eq).
  cbv zeta. rewrite view_state. unfold shown_engine, projectProfile.
  destruct (pr_Removed p) eqn:Er, (pr_Disabled p) eqn:Ed, down; cbn [orb].
  8: destruct runtime as [[status degraded]|].
  8: { split; [by eapply running_state_means|]. split; [|split; [done|split]].
    - unfold running_state. split.
      + destruct degraded; [done|]. destruct (String.eqb_spec (s_BackendState status) "Running"); [eauto|]. destruct (_ || _); [done|]. by destruct lastError.
      + intros (status' & [= <- ->] & ->). done.
    - intros status' degraded' [= <- <-]. destruct (search_domains p (s_SearchDomains status)) as [Hs Hf].
      unfold all_of_engine. cbn. rewrite <- !list_fmap_compose. split_and!; try done; apply Forall_fmap, Forall_true; done.
    - cbn. split_and!; try done. }
  all: split; [unfold state_means; cbn; rewrite Er, ?Ed; naive_solver|].
  all: split; [split; [done|intros (? & ? & _); done]|].
  all: split; [intros _; split; [by split_and!|exact Hshields]|].
  all: split; [done|]; cbn; rewrite ?Er, ?Ed; split_and!; try done; naive_solver.
Qed.
End facts.

(** A profile with a running engine, and the same one disabled. *)
Definition test_view_profile (disabled : bool) : Profile :=
  MkProfile "p_home" "home" "" "" "/state/home" "" "" disabled false true false None "" false.
Definition test_view_status : Status :=
  MkStatus "p_home" "home" "tailscale" "tail.example" "Running" "" "n1" "laptop.tail.example." [Addr4 1681915905] [] [] 2 true
    [MkRouteStatus (MkPrefix (Addr4 167772160) 8) "n2"] [] ["Corp.Example."; "."] true "" "" 0.
Definition test_view (disabled : bool) : APIProfile unit :=
  projectProfile false (Some (test_view_status, false)) None (Some "/run/home.sock") (test_view_profile disabled).
Lemma projectProfile_sound_witness :
  ap_RuntimeState (test_view false) = "running" ∧ all_of_engine test_view_status (test_view_profile false) (test_view false) ∧
  api.as_Domain <$> ap_AvailableSearchDomains (test_view false) = ["corp.example"] ∧
  ap_RuntimeState (test_view true) = "disabled" ∧ nothing_of_engine (test_view true).
Proof.
  destruct (projectProfile_sound (Err:=unit) false (Some (test_view_status, false)) None (Some "/run/home.sock") (test_view_profile false))
    as (_ & Hr & _ & Ha & _).
  destruct (projectProfile_sound (Err:=unit) false (Some (test_view_status, false)) None (Some "/run/home.sock") (test_view_profile true))
    as (_ & _ & Hn & _).
  split; [apply Hr; exists test_view_status; split; reflexivity|]. split; [apply (Ha test_view_status false); reflexivity|].
  split; [vm_compute; reflexivity|]. split; [vm_compute; reflexivity|]. apply Hn. reflexivity.
Defined.
