(* ===== verification/Runtime.v ===== *)
(** * What the daemon drives

    Engines of profiles, the multiplexer, the API and DNS forwarders of a
    profile, the host's routes and resolver, files, randomness and time, as
    operations on an abstract world. *)

From S2P Require Import Prelude GoStrings Netip WireGuardKey PacketFilterCfg WireGuardCfg State Types HostPools TUNTable TUNDNS.
Local Open Scope Z_scope.

(** [tailmixprofile.TSNetConfig]: the fields that are not loggers or devices. *)
Record TSNetConfig : Type := MkTSNetConfig {
  ts_ProfileID : string; ts_Alias : string; ts_Dir : string; ts_Hostname : string; ts_AuthKey : string;
  ts_MagicDNSSuffix : string }.

(** ** What the supervisor drives

    Each operation takes the world and returns the world it leaves and its
    result; [false] and [None] are errors.  A type assertion to an optional
    interface of an engine is an option. *)
Class Runtime (E Fw W : Type) : Type := {
  Getenv : string → W → string;
  NewTSNetEngine : TSNetConfig → W → W * E;
  NewWireGuardEngine : Profile → Config → Secrets → bool → W → W * E;
  engine_Start : E → W → W * bool;
  engine_Close : E → W → W * bool;
  engine_Status : E → W → W * option Status;
  engine_ApplyDegraded : E → W → bool;
  engine_SetRouteAll : E → option (W → W * bool);
  engine_SetExitNodeIP : E → option (Addr → W → W * bool);
  engine_LocalAPI : E → bool;
  mux_AddProfile : string → W → W * bool;
  mux_RemoveProfile : string → W → W;
  api_Start : string → E → W → W * bool;
  api_Stop : string → W → W * bool;
  StartProfileDNSForwarder : E → option (W → W * option Fw);
  StartForwarder : E → list Resolver → W → W * option Fw;
  forwarder_Resolver : Fw → Resolver;
  forwarder_Close : Fw → W → W;
  forwarder_Retire : Fw → W → W;
  host_Configure : HostConfig → W → W * bool;
  dns_ConfigureFull : LiveConfig → W → W * bool;
  save_outcome : W → W * save_env;
  (** The order in which Go ranges over a map with these keys. *)
  range_order : gset string → W → list string;
  time_Now : W → Z;
  rand_Read : nat → W → W * option (list Z);
  os_Getwd : W → option string;
  os_EvalSymlinks : W → string → option string;
  (** Deletes a profile's directory, which is part of the world. *)
  os_RemoveAll : string → W → W * bool;
  (** The files of a profile, which are part of the world; [os_OpenExcl] is a
      creation that fails when the file exists, [file_Write] a write, a sync and a
      close. *)
  os_MkdirAll : string → W → W * bool;
  os_OpenExcl : string → W → W * bool;
  file_Write : string → string → W → W * bool;
  os_ReadFile : string → W → option string;
  os_Remove : string → W → W * bool;
  (** [json.Marshal] and the strict decoding of a secret file. *)
  MarshalSecrets : Secrets → option string;
  DecodeSecrets : string → option Secrets;
  (** [Key.Public]. *)
  Key_Public : Key → option Key;
  (** A WireGuard engine, and the update under way on it: the supervisor
      prepares, applies and commits one at a time. *)
  engine_WireGuard : E → bool;
  engine_PrepareApply : E → Config → Secrets → W → W * bool;
  apply_Apply : E → W → W * bool;
  apply_Commit : E → W → W * bool;
  engine_CommitStartPolicy : E → W → W * bool;
  engine_PrepareShieldsUp : E → bool → W → W * bool;
  shields_ApplyBeforeSave : E → W → W * bool;
  shields_Rollback : E → W → W;
  shields_Commit : E → W → W * bool
}.
Class RuntimeLaws (E Fw W : Type) `{Runtime E Fw W} : Prop := {
  range_order_perm keys w : range_order keys w ≡ₚ elements keys;
  random_bytes n w w' b : rand_Read n w = (w', Some b) → length b = n ∧ Forall is_byte b
}.
