(* ===== verification/RigWorld.v ===== *)
(** * A world for examples

    A concrete instance of what the daemon drives: an engine is the identifier of
    its profile and reports that profile's status of the example of [LeasePlan], or
    for a WireGuard profile that it starts;
    the world is the list of the operations that still have to fail, each once,
    and the files of the profiles.  The codec knows a list of secrets, and a file
    holds the position of one in it. *)

From S2P Require Import Prelude GoStrings Netip WireGuardKey PacketFilterCfg WireGuardCfg State Types HostPools LeasePlan TUNTable TUNDNS Runtime.
Local Open Scope Z_scope.

Record world : Type := MkWorld { w_fails : list string; w_files : gmap string string }.
Definition failing (ops : list string) : world := MkWorld ops ∅.
(** Runs an operation: it fails if it still has to. *)
Fixpoint take_op (op : string) (l : list string) : list string * bool :=
  match l with
  | [] => ([], true)
  | x :: l => if String.eqb x op then (l, false) else let r := take_op op l in (x :: r.1, r.2)
  end.
Definition trip (op : string) (w : world) : world * bool :=
  let r := take_op op (w_fails w) in (MkWorld r.1 (w_files w), r.2).
Definition attempt {A} (op : string) (a : A) (w : world) : world * option A :=
  let r := trip op w in (r.1, if r.2 then Some a else None).
Definition set_file (path : string) (data : option string) (w : world) : world :=
  MkWorld (w_fails w) (partial_alter (λ _, data) path (w_files w)).

#[export] Instance Secrets_eq_dec : EqDecision Secrets.
Proof. unfold Key. solve_decision. Defined.
Fixpoint tally (n : nat) : string := match n with O => "" | S n => String (char_of 46) (tally n) end.
Lemma tally_length n : String.length (tally n +:+ NEWLINE) = S n.
Proof. induction n as [|n IH]; [done|]. cbn [tally]. change (S (String.length (tally n +:+ NEWLINE)) = S (S n)). by rewrite IH. Qed.
(** The text of an element of a list, and the way back. *)
Definition position {A} `{EqDecision A} (l : list A) (x : A) : option string := (λ r, tally r.1) <$> list_find (λ y, y = x) l.
Definition at_position {A} (l : list A) (b : string) : option A := l !! Nat.pred (String.length b).
Lemma position_found {A} `{EqDecision A} (l : list A) x b : position l x = Some b → at_position l (b +:+ NEWLINE) = Some x.
Proof.
  intros ([i y] & (Hi & -> & _)%list_find_Some & ->)%fmap_Some. unfold at_position. cbn [fst]. by rewrite tally_length.
Qed.
Definition drawn_key : Key := clamp (replicate key_size 0).
Definition rig_secrets : list Secrets := [MkSecrets (Some drawn_key) ∅; MkSecrets (Some (replicate key_size 7)) ∅; MkSecrets None ∅].

Definition rig_status (id : string) : option Status :=
  if HasPrefix id "p_" then Some (MkStatus id "" "wireguard" "" "Starting" "" "" "" [] [] [] 0 false [] [] [] false "" "" 0)
  else snd <$> list_find (λ s, s_ProfileID s = id) corp_statuses.
#[export] Instance rig_runtime : Runtime string unit world := {
  Getenv _ _ := "";
  NewTSNetEngine c w := (w, ts_ProfileID c);
  NewWireGuardEngine p _ _ _ w := (w, pr_ID p);
  engine_Start _ := trip "start";
  engine_Close _ := trip "close";
  engine_Status id w := (w, rig_status id);
  engine_ApplyDegraded _ _ := false;
  engine_SetRouteAll _ := Some (trip "route all");
  engine_SetExitNodeIP _ := Some (λ _, trip "exit node");
  engine_LocalAPI _ := true;
  mux_AddProfile _ := trip "mux";
  mux_RemoveProfile _ w := w;
  api_Start _ _ := trip "api start";
  api_Stop _ := trip "api stop";
  StartProfileDNSForwarder _ := Some (attempt "forward" tt);
  StartForwarder _ _ := attempt "forward" tt;
  forwarder_Resolver _ := MkResolver "100.100.100.100:53" [] false;
  forwarder_Close _ w := w;
  forwarder_Retire _ w := w;
  host_Configure _ := trip "host";
  dns_ConfigureFull _ := trip "dns";
  save_outcome w := let r := trip "save" w in (r.1, MkSaveEnv r.2 FsOk FsOk);
  range_order keys _ := elements keys;
  time_Now _ := 1000;
  rand_Read n := attempt "random" (replicate n 0);
  os_Getwd _ := Some "/";
  os_EvalSymlinks _ dir := Some dir;
  os_RemoveAll _ := trip "remove";
  os_MkdirAll _ := trip "mkdir";
  os_OpenExcl path w := match w_files w !! path with Some _ => (w, false) | None => trip "open" (set_file path (Some "") w) end;
  file_Write path data w := trip "write" (set_file path (Some data) w);
  os_ReadFile path w := w_files w !! path;
  os_Remove path w := (set_file path None w, bool_decide (is_Some (w_files w !! path)));
  MarshalSecrets := position rig_secrets;
  DecodeSecrets := at_position rig_secrets;
  Key_Public k := Some k;
  engine_WireGuard id := HasPrefix id "p_";
  engine_PrepareApply _ _ _ := trip "prepare";
  apply_Apply _ := trip "apply";
  apply_Commit _ := trip "commit";
  engine_CommitStartPolicy _ := trip "commit start";
  engine_PrepareShieldsUp _ _ := trip "prepare shields";
  shields_ApplyBeforeSave _ := trip "apply shields";
  shields_Rollback _ w := w;
  shields_Commit _ := trip "commit shields"
}.
#[export] Instance rig_laws : RuntimeLaws string unit world.
Proof.
  split; [done|]. intros n w w' b. cbn. unfold attempt. destruct (trip "random" w) as [w1 []]; [|done]. intros [= _ <-].
  split; [apply length_replicate|]. apply Forall_replicate. done.
Qed.
