(* ===== verification/UpdateDaemon.v ===== *)
(** * The updates of the daemon

    cmd/tailmixd/update.go: the update policy and activity of the supervisor, its
    update requests, the loop that updates on its own, and the restart into an
    installed release.  The requests and the loop exclude each other with a mutex
    around all of their work, so they are functions on the daemon's state.  What
    installs is the interface [Updater], which update/update.go implements; a
    process may die in it. *)

From S2P Require Import Prelude GoStrings FilePath DNSName State ProfileSpec RigWorld Update UpdateFacts.
Local Open Scope Z_scope.

Record UpdateStatus : Type := MkUpdateStatus {
  us_Enabled : bool; us_CurrentVersion : string; us_AvailableVersion : string; us_State : string;
  us_LastChecked : string; us_LastError : string }.
Definition zero_update_status : UpdateStatus := MkUpdateStatus false "" "" "" "" "".
Inductive daemon_error : Type :=
  | EUpdatesUnsupported | ESavePolicy (e : store_error) | ESaveStatus (e : store_error)
  | EUpdater (message : string) | EJoined (message : string) (e : daemon_error).

(** What an operation of the updater comes to. *)
Inductive ran (U A : Type) : Type := Ran (u : U) (a : A) | Killed (u : U).
Arguments Ran {U A} _ _.
Arguments Killed {U A} _.
(** [binaryUpdater]; an error is its message. *)
Class Updater (U : Type) : Type := {
  up_Check : string → U → ran U (Release * bool * option string);
  up_Apply : string → U → ran U (Release * string * bool * option string);
  up_Rollback : string → U → ran U (option string) }.

(** [d_envs]: what the file system does in the saves to come.  [d_wake]: the
    channel [updateWake] of capacity one holds a wake-up.  [d_restarts]: the old
    targets of the restarts that were scheduled. *)
Record daemon (U : Type) : Type := MkDaemon {
  d_st : State; d_fs : gmap string string; d_envs : list save_env; d_wake : bool; d_restarts : list string; d_up : U }.
Arguments MkDaemon {U} _ _ _ _ _ _.
Arguments d_st {U} _.
Arguments d_fs {U} _.
Arguments d_envs {U} _.
Arguments d_wake {U} _.
Arguments d_restarts {U} _.
Arguments d_up {U} _.
Definition save_works : save_env := MkSaveEnv true FsOk FsOk.

Section daemon.
Context {F : Type} `{DNSName F} `{StateJSON} (path : string).
Context {U : Type} `{Updater U} (has_updater : bool) (version : string).
Implicit Types (s : daemon U).

(** A handler; [None]: the process died. *)
Definition D (A : Type) : Type := daemon U → daemon U * option A.
#[export] Instance D_ret : MRet D := λ _ a s, (s, Some a).
#[export] Instance D_bind : MBind D := λ _ _ f m s, match m s with (s, Some a) => f a s | (s, None) => (s, None) end.
Definition up {A} (f : U → ran U A) : D A := λ s,
  match f (d_up s) with
  | Ran u a => (MkDaemon (d_st s) (d_fs s) (d_envs s) (d_wake s) (d_restarts s) u, Some a)
  | Killed u => (MkDaemon (d_st s) (d_fs s) (d_envs s) (d_wake s) (d_restarts s) u, None)
  end.
Definition save_ : D (option store_error) := λ s,
  let '(env, envs) := match d_envs s with [] => (save_works, []) | env :: envs => (env, envs) end in
  let '(fs, r) := Save path env (d_fs s) (d_st s) in
  (MkDaemon (d_st s) fs envs (d_wake s) (d_restarts s) (d_up s), Some (match r with Ok _ => None | Err e => Some e end)).
Definition modify_updates (f : UpdateState → UpdateState) : D unit := λ s,
  (MkDaemon (set_Updates (d_st s) (f (st_Updates (d_st s)))) (d_fs s) (d_envs s) (d_wake s) (d_restarts s) (d_up s), Some tt).
Definition wake_up : D unit := λ s, (MkDaemon (d_st s) (d_fs s) (d_envs s) true (d_restarts s) (d_up s), Some tt).
Definition schedule (oldTarget : string) : D unit := λ s,
  (MkDaemon (d_st s) (d_fs s) (d_envs s) (d_wake s) (d_restarts s ++ [oldTarget]) (d_up s), Some tt).

Definition updateStatusLocked (st : State) : UpdateStatus :=
  let u := st_Updates st in
  MkUpdateStatus (has_updater && negb (u_Disabled u)) version (u_AvailableVersion u)
    (if has_updater then (if String.eqb (u_State u) "" then "idle" else u_State u) else "unsupported") (u_LastChecked u) (u_LastError u).
Definition updatesEnabled (st : State) : bool := has_updater && negb (u_Disabled (st_Updates st)).
Definition UpdateStatus_ : D UpdateStatus := λ s, (s, Some (updateStatusLocked (d_st s))).
Definition restartingUpdateStatus : D (UpdateStatus * bool) := λ s,
  (s, Some (updateStatusLocked (d_st s), String.eqb (u_State (st_Updates (d_st s))) "restarting")).
(** [checked]: the time, when the activity is a check. *)
Definition setUpdateActivity (activity available lastError : string) (checked : option string) : D (option daemon_error) :=
  _ ← modify_updates (λ u, MkUpdateState (u_Disabled u) available activity (default (u_LastChecked u) checked) lastError);
  e ← save_;
  mret (ESaveStatus <$> e).
Definition SetUpdatesEnabled (enabled : bool) : D (UpdateStatus * option daemon_error) :=
  if negb has_updater then mret (zero_update_status, Some EUpdatesUnsupported)
  else
    _ ← modify_updates (λ u, MkUpdateState (negb enabled) (u_AvailableVersion u) (if String.eqb (u_State u) "" then "idle" else u_State u)
          (u_LastChecked u) (u_LastError u));
    err ← save_;
    status ← UpdateStatus_;
    match err with
    | Some e => mret (zero_update_status, Some (ESavePolicy e))
    | None => _ ← wake_up; mret (status, None)
    end.
Definition join (err : option string) (e : daemon_error) : daemon_error := match err with Some m => EJoined m e | None => e end.
Definition CheckForUpdate (now : string) : D (UpdateStatus * option daemon_error) :=
  if negb has_updater then mret (zero_update_status, Some EUpdatesUnsupported)
  else
    '(status, restarting) ← restartingUpdateStatus;
    if restarting : bool then mret (status, None)
    else
      err ← setUpdateActivity "checking" "" "" None;
      match err with
      | Some e => mret (zero_update_status, Some e)
      | None =>
        '(release, newer, err) ← up (up_Check version);
        let available := if newer : bool then Version release else "" in
        let stateName := match err with Some _ => "error" | None => if newer : bool then "available" else "idle" end in
        saveErr ← setUpdateActivity stateName available (default "" err) (Some now);
        match saveErr with
        | Some e => mret (zero_update_status, Some (join err e))
        | None => status ← UpdateStatus_; mret (status, EUpdater <$> err)
        end
      end.
Definition applyUpdate (now : string) : D (UpdateStatus * option daemon_error) :=
  if negb has_updater then mret (zero_update_status, Some EUpdatesUnsupported)
  else
    '(status, restarting) ← restartingUpdateStatus;
    if restarting : bool then mret (status, None)
    else
      err ← setUpdateActivity "applying" "" "" None;
      match err with
      | Some e => mret (zero_update_status, Some e)
      | None =>
        '(release, oldTarget, updated, err) ← up (up_Apply version);
        let '(stateName, available, lastError) :=
          match err with
          | Some m => ("error", "", m)
          | None => if updated : bool then ("restarting", Version release, "") else ("idle", "", "")
          end in
        saveErr ← setUpdateActivity stateName available lastError (Some now);
        match saveErr with
        | Some e =>
          _ ← (if updated : bool then _ ← up (up_Rollback oldTarget); mret tt else mret tt);
          mret (zero_update_status, Some (join err e))
        | None =>
          status ← UpdateStatus_;
          match err with
          | Some m => mret (status, Some (EUpdater m))
          | None => _ ← (if updated : bool then schedule oldTarget else mret tt); mret (status, None)
          end
        end
      end.

(** [updateRestart.exec]: [first] and [second] are whether the process is
    replaced by the binary [current] leads to. *)
Inductive exec_end : Type := Replaced | RollbackFailed (m : string) | RetryFailed.
Definition exec_ (oldTarget : string) (first second : bool) : D exec_end :=
  if first then mret Replaced
  else
    rolled ← up (up_Rollback oldTarget);
    match rolled with
    | Some m => mret (RollbackFailed m)
    | None => mret (if second then Replaced else RetryFailed)
    end.

(** ** The loop *)

(** Where [runUpdateLoop] waits: for a wake-up while updates are off, or for a
    timer armed with the first delay or a later one. *)
Inductive loop_at : Type := LoopOff (initial : bool) | LoopArmed (initial : bool) | LoopDone.
Inductive loop_event : Type := CtxDone | Wake | Timer (now : string).
Definition loop_top (initial : bool) (s : daemon U) : loop_at := if updatesEnabled (d_st s) then LoopArmed initial else LoopOff initial.
(** One branch of the [select] the loop waits in, to where it waits next;
    nothing where it does not listen to the event. *)
Definition loop_step (pc : loop_at) (e : loop_event) (s : daemon U) : option (daemon U * option loop_at) :=
  let woken := MkDaemon (d_st s) (d_fs s) (d_envs s) false (d_restarts s) (d_up s) in
  match pc, e with
  | LoopDone, _ | LoopOff _, Timer _ => None
  | (LoopOff _ | LoopArmed _), CtxDone => Some (s, Some LoopDone)
  | (LoopOff initial | LoopArmed initial), Wake => if d_wake s then Some (woken, Some (loop_top initial woken)) else None
  | LoopArmed _, Timer now =>
    match applyUpdate now s with
    | (s, None) => Some (s, None)
    | (s, Some (_, Some _)) => Some (s, Some (loop_top false s))
    | (s, Some (status, None)) => Some (s, Some (if String.eqb (us_State status) "restarting" then LoopDone else loop_top false s))
    end
  end.
(** The delay of the loop's timer, in seconds: [draw n] is below [n]. *)
Definition defaultUpdateDelay (draw : Z → Z) (initial : bool) : Z :=
  if initial then 5 * 60 + draw (25 * 60) else 23 * 3600 + draw (2 * 3600).
End daemon.
Arguments D : clear implicits.

(** ** The updater of an install root *)

Section updater.
Context `{Semver, Archives, SV : Server} (c : Client) (render : update_error → string).
Definition of_outcome {A B} (f : result update_error A → B) (o : outcome A) : ran world B :=
  match o with Returned r w => Ran w (f r) | Dead root => Killed (MkWorld root [] []) end.
(** [tailmixupdate.Client] as the daemon's updater. *)
#[export] Instance client_updater : Updater world := {|
  up_Check current w := let '(r, newer, e) := Check_ c current in Ran w (r, newer, render <$> e);
  up_Apply current w := of_outcome (λ x, match x with
    | Ok (r, old, updated, e) => (r, old, updated, render <$> e)
    | Err e => (zero_release, "", false, Some (render e))
    end) (Apply c current w);
  up_Rollback target w := of_outcome (λ x, match x with Ok _ => None | Err e => Some (render e) end) (Rollback c target w) |}.
End updater.

(** ** Handlers as relations *)

Section facts.
Context {F : Type} `{DNSName F} `{StateJSON} (path : string).
Context {U : Type} `{Updater U} (has_updater : bool) (version : string).
Implicit Types (s : daemon U).
Local Notation applyUpdate := (applyUpdate (F:=F) (U:=U) path has_updater version).
Local Notation CheckForUpdate := (CheckForUpdate (F:=F) (U:=U) path has_updater version).
Local Notation SetUpdatesEnabled := (SetUpdatesEnabled (F:=F) (U:=U) path has_updater version).
Local Notation loop_step := (loop_step (F:=F) (U:=U) path has_updater version).
Local Notation activity s := (u_State (st_Updates (d_st s))).

(** Anything the daemon does about updates, a request or a branch of the loop,
    and whether it lived. *)
Inductive action (s : daemon U) : daemon U → bool → Prop :=
  | act_enable enabled s' r : SetUpdatesEnabled enabled s = (s', r) → action s s' (bool_decide (is_Some r))
  | act_check now s' r : CheckForUpdate now s = (s', r) → action s s' (bool_decide (is_Some r))
  | act_apply now s' r : applyUpdate now s = (s', r) → action s s' (bool_decide (is_Some r))
  | act_loop pc e s' pc' : loop_step pc e s = Some (s', pc') → action s s' (bool_decide (is_Some pc')).
Inductive actions (s : daemon U) : daemon U → Prop :=
  | actions_refl : actions s s
  | actions_step s1 s2 : actions s s1 → action s1 s2 true → actions s s2.

(** The activity was changed, and the state saved or not. *)
Definition noted (f : UpdateState → UpdateState) (s s' : daemon U) (e : option store_error) : Prop :=
  d_st s' = set_Updates (d_st s) (f (st_Updates (d_st s))) ∧ d_restarts s' = d_restarts s ∧ d_up s' = d_up s ∧ d_wake s' = d_wake s ∧
  ∃ env, Save (F:=F) path env (d_fs s) (d_st s') = (d_fs s', match e with None => Ok tt | Some e => Err e end).
Definition activity_of (activity available lastError : string) (checked : option string) (u : UpdateState) : UpdateState :=
  MkUpdateState (u_Disabled u) available activity (default (u_LastChecked u) checked) lastError.
Definition set_up (u : U) (s : daemon U) : daemon U := MkDaemon (d_st s) (d_fs s) (d_envs s) (d_wake s) (d_restarts s) u.
Definition scheduled (old : string) (s : daemon U) : daemon U := MkDaemon (d_st s) (d_fs s) (d_envs s) (d_wake s) (d_restarts s ++ [old]) (d_up s).
Lemma modify_save_spec f s : ∃ s' e, (_ ← modify_updates (U:=U) f; save_ (F:=F) path) s = (s', Some e) ∧ noted f s s' e.
Proof using.
  unfold save_, modify_updates, noted, mbind, D_bind. cbn [d_st d_fs d_envs d_wake d_restarts d_up].
  destruct (match d_envs s with [] => (save_works, []) | env :: envs => (env, envs) end) as [env envs].
  destruct (Save path env (d_fs s) (set_Updates (d_st s) (f (st_Updates (d_st s))))) as [fs r] eqn:E.
  eexists _, _. split; [done|]. split_and!; try done. exists env. cbn [d_st d_fs]. rewrite E. by destruct r as [[]|].
Qed.
Lemma setUpdateActivity_spec a v m t s : ∃ s' e,
  setUpdateActivity (F:=F) path a v m t s = (s', Some (ESaveStatus <$> e)) ∧ noted (activity_of a v m t) s s' e.
Proof using.
  destruct (modify_save_spec (activity_of a v m t) s) as (s' & e & E & Hn). exists s', e. split; [|done].
  change (setUpdateActivity path a v m t s) with ((e ← (_ ← modify_updates (activity_of a v m t); save_ (F:=F) path); mret (ESaveStatus <$> e)) s).
  unfold mbind at 1, D_bind at 1. by rewrite E.
Qed.

(** ** What applying an update does *)

(** The activity that is noted after the updater came back. *)
Definition apply_note (release : Release) (updated : bool) (err : option string) (now : string) : UpdateState → UpdateState :=
  match err with
  | Some m => activity_of "error" "" m (Some now)
  | None => if updated then activity_of "restarting" (Version release) "" (Some now) else activity_of "idle" "" "" (Some now)
  end.
Lemma applyUpdate_cases now s s' r : applyUpdate now s = (s', r) →
  (s' = s ∧ ((has_updater = false ∧ r = Some (zero_update_status, Some EUpdatesUnsupported)) ∨
             (has_updater = true ∧ activity s = "restarting" ∧ r = Some (updateStatusLocked has_updater version (d_st s), None)))) ∨
  (has_updater = true ∧ activity s ≠ "restarting" ∧ ∃ s1 e1, noted (activity_of "applying" "" "" None) s s1 e1 ∧
    ((∃ e, e1 = Some e ∧ s' = s1 ∧ r = Some (zero_update_status, Some (ESaveStatus e))) ∨
     (e1 = None ∧ ∃ u, up_Apply version (d_up s1) = Killed u ∧ s' = set_up u s1 ∧ r = None) ∨
     (e1 = None ∧ ∃ u release old updated err s2 e2, up_Apply version (d_up s1) = Ran u (release, old, updated, err) ∧
        noted (apply_note release updated err now) (set_up u s1) s2 e2 ∧
        match e2 with
        | None => s' = (if updated && bool_decide (err = None) then scheduled old s2 else s2) ∧
                  r = Some (updateStatusLocked has_updater version (d_st s2), EUpdater <$> err)
        | Some e => if updated then match up_Rollback old u with
                                    | Ran u' _ => s' = set_up u' s2 ∧ r = Some (zero_update_status, Some (join err (ESaveStatus e)))
                                    | Killed u' => s' = set_up u' s2 ∧ r = None
                                    end
                    else s' = s2 ∧ r = Some (zero_update_status, Some (join err (ESaveStatus e)))
        end))).
Proof using.
  unfold UpdateDaemon.applyUpdate. destruct has_updater; cbn [negb]; [|intros [= <- <-]; left; auto].
  unfold restartingUpdateStatus. unfold mbind at 1, D_bind at 1. cbv beta iota. destruct (String.eqb_spec (activity s) "restarting") as [Ha|Ha]; [intros [= <- <-]; left; auto 6|].
  intros E. right. split; [done|]. split; [done|]. revert E. unfold mbind at 1, D_bind at 1.
  destruct (setUpdateActivity_spec "applying" "" "" None s) as (s1 & e1 & -> & Hn1). intros E. exists s1, e1. split; [done|].
  destruct e1 as [e1|]; [injection E as <- <-; left; eauto|]. right. revert E. cbn [fmap option_fmap option_map]. unfold mbind at 1, D_bind at 1, up at 1.
  destruct (up_Apply version (d_up s1)) as [u [[[release old] updated] err]|u] eqn:Eu; [|intros [= <- <-]; left; split; [done|]; exists u; by split_and!].
  intros E. right. split; [done|]. exists u, release, old, updated, err.
  fold (set_up u s1) in E.
  assert (∃ a v m, match err with Some m => ("error", "", m) | None => if updated then ("restarting", Version release, "") else ("idle", "", "") end = (a, v, m) ∧
    apply_note release updated err now = activity_of a v m (Some now)) as (a & v & m & Em & ->) by (unfold apply_note; destruct err; [|destruct updated]; eauto 6).
  rewrite Em in E. revert E. unfold mbind at 1, D_bind at 1.
  destruct (setUpdateActivity_spec a v m (Some now) (set_up u s1)) as (s2 & e2 & -> & Hn2). intros E. exists s2, e2. split; [done|]. split; [done|].
  destruct e2 as [e2|]; cbn [fmap option_fmap option_map] in E.
  - assert (Hup : d_up s2 = u) by (destruct Hn2 as (_ & _ & -> & _); done).
    destruct updated; [|by injection E as <- <-]. revert E. unfold mbind at 1, D_bind at 1. unfold mbind at 1, D_bind at 1. unfold up. rewrite Hup.
    destruct (up_Rollback old u) as [u' x|u']; by intros [= <- <-].
  - revert E. unfold UpdateStatus_, mbind, D_bind. destruct err as [err|]; [intros [= <- <-]; rewrite bool_decide_eq_false_2, andb_false_r by done; by split|].
    rewrite bool_decide_eq_true_2 by done. destruct updated; by intros [= <- <-].
Qed.

Lemma CheckForUpdate_cases now s s' r : CheckForUpdate now s = (s', r) →
  (s' = s ∧ (has_updater = false ∨ activity s = "restarting")) ∨
  (activity s ≠ "restarting" ∧ d_restarts s' = d_restarts s ∧
   (d_up s' = d_up s ∨ (∃ x, up_Check version (d_up s) = Ran (d_up s') x) ∨ up_Check version (d_up s) = Killed (d_up s'))).
Proof using.
  unfold UpdateDaemon.CheckForUpdate. destruct has_updater; cbn [negb]; [|intros [= <- <-]; left; auto].
  unfold restartingUpdateStatus. unfold mbind at 1, D_bind at 1. cbv beta iota. destruct (String.eqb_spec (activity s) "restarting") as [Ha|Ha]; [intros [= <- <-]; left; auto 6|].
  intros E. right. split; [done|]. revert E. unfold mbind at 1, D_bind at 1.
  destruct (setUpdateActivity_spec "checking" "" "" None s) as (s1 & e1 & -> & _ & Hr1 & Hu1 & _).
  destruct e1 as [e1|]; [intros [= <- _]; auto|]. cbn [fmap option_fmap option_map]. unfold mbind at 1, D_bind at 1, up at 1. rewrite Hu1.
  destruct (up_Check version (d_up s)) as [u [[release newer] err]|u] eqn:Eu; [|intros [= <- _]; cbn; auto].
  unfold mbind at 1, D_bind at 1. fold (set_up u s1).
  match goal with |- context [setUpdateActivity path ?a ?v ?m ?t (set_up u s1)] => destruct (setUpdateActivity_spec a v m t (set_up u s1)) as (s2 & e2 & -> & _ & Hr2 & Hu2 & _) end.
  intros E. assert (s' = s2) as -> by (destruct e2; by injection E as <- _). rewrite Hr2, Hu2. cbn. eauto.
Qed.
Lemma SetUpdatesEnabled_cases enabled s s' r : SetUpdatesEnabled enabled s = (s', r) →
  (has_updater = false ∧ s' = s) ∨
  (has_updater = true ∧ d_restarts s' = d_restarts s ∧ d_up s' = d_up s ∧ u_Disabled (st_Updates (d_st s')) = negb enabled ∧
   activity s' = (if String.eqb (activity s) "" then "idle" else activity s) ∧
   ((∃ e, r = Some (zero_update_status, Some (ESavePolicy e))) ∨ (d_wake s' = true ∧ r = Some (updateStatusLocked has_updater version (d_st s'), None)))).
Proof using.
  unfold UpdateDaemon.SetUpdatesEnabled. destruct has_updater; cbn [negb]; [|intros [= <- <-]; by left]. intros E. right. split; [done|].
  set (f := λ u, MkUpdateState (negb enabled) (u_AvailableVersion u) (if String.eqb (u_State u) "" then "idle" else u_State u) (u_LastChecked u) (u_LastError u)) in E.
  destruct (modify_save_spec f s) as (s1 & e & E1 & Hs & Hr & Hu & _). unfold mbind at 1, D_bind at 1 in E1. unfold mbind at 1, D_bind at 1 in E.
  destruct (modify_updates f s) as [s0 [[]|]]; [|done]. unfold mbind at 1, D_bind at 1 in E. rewrite E1 in E. unfold UpdateStatus_ in E. unfold mbind at 1, D_bind at 1 in E.
  destruct e as [e|].
  - injection E as <- <-. rewrite Hr, Hu, Hs. split_and!; eauto.
  - unfold wake_up, mbind, D_bind in E. injection E as <- <-. cbn. rewrite Hr, Hu, Hs. split_and!; eauto.
Qed.
(** A branch of the loop only runs [applyUpdate], or takes the wake-up. *)
Lemma loop_step_cases pc e s s' pc' : loop_step pc e s = Some (s', pc') →
  (∃ now r, applyUpdate now s = (s', r) ∧ (is_Some pc' ↔ is_Some r)) ∨
  (d_st s' = d_st s ∧ d_fs s' = d_fs s ∧ d_restarts s' = d_restarts s ∧ d_up s' = d_up s ∧ is_Some pc').
Proof using.
  destruct pc as [i|i|], e as [| |now]; cbn; try done; try (intros [= <- <-]; right; by split_and!);
    try (destruct (d_wake s); [|done]; intros [= <- <-]; right; by split_and!).
  destruct (applyUpdate now s) as [s1 [[status [e|]]|]] eqn:E; intros [= <- <-]; left; eexists _, _; (split; [exact E|]); by split; intros [].
Qed.
Lemma action_restarting s s' alive : action s s' alive → activity s = "restarting" → d_restarts s' = d_restarts s ∧ d_up s' = d_up s ∧ activity s' = "restarting".
Proof using.
  assert (Happly : ∀ now s' r, applyUpdate now s = (s', r) → activity s = "restarting" → d_restarts s' = d_restarts s ∧ d_up s' = d_up s ∧ activity s' = "restarting").
  { intros now s1 r E Ha. destruct (applyUpdate_cases now s s1 r E) as [[-> _]|(_ & Hn & _)]; [done|congruence]. }
  intros [en s1 r E|now s1 r E|now s1 r E|pc e s1 pc' E] Ha.
  - destruct (SetUpdatesEnabled_cases en s s1 r E) as [[_ ->]|(_ & -> & -> & _ & -> & _)]; [done|]. by rewrite Ha.
  - destruct (CheckForUpdate_cases now s s1 r E) as [[-> _]|(Hn & _)]; [done|congruence].
  - eauto.
  - destruct (loop_step_cases pc e s s1 pc' E) as [(now & r & Er & _)|(-> & _ & -> & -> & _)]; eauto.
Qed.
Definition at_most_one (s : daemon U) : Prop := (length (d_restarts s) <= 1)%nat ∧ (d_restarts s ≠ [] → activity s = "restarting").
Lemma apply_at_most_one now s s' r : applyUpdate now s = (s', r) → at_most_one s → at_most_one s'.
Proof using.
  intros E [Hl Hr]. destruct (applyUpdate_cases now s s' r E) as [[-> _]|(_ & Ha & s1 & e1 & (Hs1 & Hr1 & Hu1 & _) & Hc)]; [done|].
  assert (d_restarts s = []) as Hnil by (destruct (d_restarts s); [done|]; exfalso; apply Ha; by apply Hr). rewrite Hnil in *.
  assert (∀ s2, d_restarts s2 = [] → at_most_one s2) as Hno by (intros s2 Hs2; unfold at_most_one; rewrite Hs2; cbn; split; [lia|done]).
  destruct Hc as [(e & _ & -> & _)|[(_ & u & _ & -> & _)|(_ & u & release & old & updated & err & s2 & e2 & _ & (Hs2 & Hr2 & _) & Hc)]]; [by apply Hno..|].
  cbn in Hr2. rewrite Hr1 in Hr2. destruct e2 as [e2|].
  - destruct updated; [|destruct Hc as [-> _]; by apply Hno]. by destruct (up_Rollback old u); destruct Hc as [-> _]; apply Hno.
  - destruct Hc as [-> _]. destruct updated; cbn [andb]; [|by apply Hno]. case_bool_decide as He; [|by apply Hno]. subst err. unfold at_most_one, scheduled. cbn. rewrite Hr2. cbn.
    split; [lia|]. intros _. by rewrite Hs2.
Qed.
Lemma actions_at_most_one s s' : at_most_one s → actions s s' → at_most_one s'.
Proof using.
  intros Hs Ha. induction Ha as [|s1 s2 _ IH Hstep]; [done|]. remember true as alive eqn:Et. clear Et.
  destruct IH as [Hl Hr]. destruct Hstep as [en s2 r E|now s2 r E|now s2 r E|pc e s2 pc' E].
  - destruct (SetUpdatesEnabled_cases en s1 s2 r E) as [[_ ->]|(_ & Hrs & _ & _ & Hact & _)]; [done|]. unfold at_most_one. rewrite Hrs, Hact. split; [done|].
    intros Hne. by rewrite (Hr Hne).
  - destruct (CheckForUpdate_cases now s1 s2 r E) as [[-> _]|(Hn & Hrs & _)]; [done|]. unfold at_most_one. rewrite Hrs. split; [done|]. intros Hne. by destruct Hn, Hr.
  - by eapply apply_at_most_one.
  - destruct (loop_step_cases pc e s1 s2 pc' E) as [(now & r & Er & _)|(Hst & _ & Hrs & _)]; [by eapply apply_at_most_one|]. unfold at_most_one. by rewrite Hrs, Hst.
Qed.
End facts.

Lemma state_wf_updates {F : Type} `{DNSName F} st x : state_wf (F:=F) st → state_wf (F:=F) (set_Updates st x).
Proof. by intros []. Qed.
(** What a save records about updates is read back. *)
Lemma saved_updates {F : Type} `{DNSNameLaws F} `{StateJSONLaws} path env fs fs' st : state_wf (F:=F) st → Save (F:=F) path env fs st = (fs', Ok tt) →
  ∃ st', stored (F:=F) path fs' st' ∧ st_Updates st' = st_Updates st.
Proof.
  intros Hwf HS. destruct (Save_cases path env fs fs' st (Ok tt) Hwf HS) as (st' & Hv & Hl). exists st'. split; [done|].
  destruct (validateProfiles_fix _ _ Hv (Normalize_profiles_normal st)) as (ps & -> & _). done.
Qed.

(** C12. The daemon restarts at most once, and not into something it forgot.
    Whatever requests and rounds of the loop went before, at most one restart is
    scheduled, and once one is the activity is [restarting] and nothing of the
    updates runs any more: no request and no round of the loop touches the
    updater again.  When the updater has installed a release, [applyUpdate]
    schedules the restart with the old target only once the state file says
    so, and otherwise has asked for the rollback and reports an error. *)
Theorem updates_once {F : Type} `{DNSNameLaws F} `{StateJSONLaws} path {U : Type} `{Updater U} has_updater version (s0 s : daemon U) :
  let action := action (F:=F) path has_updater version in
  let activity s := u_State (st_Updates (d_st s)) in
  d_restarts s0 = [] → actions (F:=F) path has_updater version s0 s →
  (length (d_restarts s) <= 1)%nat ∧
  (d_restarts s ≠ [] → activity s = "restarting" ∧
     ∀ s' alive, action s s' alive → d_restarts s' = d_restarts s ∧ d_up s' = d_up s ∧ activity s' = "restarting") ∧
  (∀ now s' r u release old, state_wf (F:=F) (d_st s) → has_updater = true → activity s ≠ "restarting" →
     applyUpdate (F:=F) path has_updater version now s = (s', Some r) → up_Apply version (d_up s) = Ran u (release, old, true, None) →
     (d_up s' = d_up s ∧ d_restarts s' = [] ∧ ∃ e, r.2 = Some e) ∨
     (d_up s' = u ∧ d_restarts s' = [old] ∧ r.2 = None ∧ us_State r.1 = "restarting" ∧ us_AvailableVersion r.1 = Version release ∧
      ∃ st', stored (F:=F) path (d_fs s') st' ∧ st_Updates st' = st_Updates (d_st s')) ∨
     (d_restarts s' = [] ∧ (∃ e, r.2 = Some e) ∧ ∃ x, up_Rollback old u = Ran (d_up s') x)).
Proof.
  cbv zeta. intros H0' Ha. assert (at_most_one s) as [Hl Hr].
  { eapply actions_at_most_one; [|exact Ha]. split; [rewrite H0'; cbn; lia|congruence]. }
  split; [done|]. split.
  { intros Hne. split; [by apply Hr|]. intros s' alive Hact. apply (action_restarting path has_updater version s s' alive Hact). by apply Hr. }
  intros now s' r u release old Hwf Hu Hact E Eu.
  assert (Hnil : d_restarts s = []) by (destruct (d_restarts s); [done|]; exfalso; apply Hact; by apply Hr).
  destruct (applyUpdate_cases path has_updater version now s s' (Some r) E) as [[-> [[? _]|(_ & ? & _)]]|(_ & _ & s1 & e1 & (Hs1 & Hr1 & Hu1 & _) & Hc)]; [congruence|done|].
  rewrite Hu1, Eu in Hc. rewrite Hnil in Hr1. destruct Hc as [(e & _ & -> & [= ->])|[(_ & u' & [=] & _)|(_ & u' & rel' & old' & upd' & err' & s2 & e2 & [= <- <- <- <- <-] & Hn2 & Hc)]].
  - left. rewrite Hu1, Hr1. eauto.
  - destruct Hn2 as (Hs2 & Hr2 & Hu2 & _ & env & HS). cbn in Hr2, Hu2. rewrite Hr1 in Hr2. right. destruct e2 as [e2|].
    + right. destruct (up_Rollback old u) as [u2 x|u2]; [|destruct Hc; done]. destruct Hc as [-> [= ->]]. cbn. split_and!; eauto.
    + left. assert (∃ st', stored (F:=F) path (d_fs s2) st' ∧ st_Updates st' = st_Updates (d_st s2)) as HL.
      { eapply saved_updates; [|exact HS]. rewrite Hs2. apply state_wf_updates. cbn. rewrite Hs1. by apply state_wf_updates. }
      assert (st_Updates (d_st s2) = apply_note release true None now (st_Updates (d_st s1))) as Hup by (by rewrite Hs2).
      destruct Hc as [-> [= ->]]. cbn [andb]. rewrite bool_decide_eq_true_2 by done. unfold scheduled, updateStatusLocked.
      cbn [d_up d_restarts d_st d_fs fst snd us_State us_AvailableVersion]. rewrite Hr2, Hu2, Hup, Hu. split_and!; [done..|]. by rewrite <- Hup.
Qed.

(** A daemon with an updater that installs one release, and a codec that knows
    the states it saves. *)
Definition toy_update (st : State) (activity available : string) (checked : option string) : State :=
  set_Updates st (activity_of activity available "" checked (st_Updates st)).
Definition toy_states : list State :=
  [toy_update zero_state "applying" "" None; toy_update (toy_update zero_state "applying" "" None) "restarting" "v1.2.0" (Some "noon")].
#[local] Instance toy_codec : StateJSON := { MarshalIndent := position toy_states; Unmarshal := at_position toy_states }.
#[local] Instance toy_codec_laws : StateJSONLaws.
Proof. split. intros st b _. apply position_found. Qed.
(** The number of releases installed and not rolled back. *)
#[local] Instance toy_updater : Updater Z := {|
  up_Check _ u := Ran u (MkRelease "v1.2.0" "" "" "", true, None);
  up_Apply _ u := Ran (u + 1) (MkRelease "v1.2.0" "" "" "", "versions/v1.1.0", true, None);
  up_Rollback _ u := Ran (u - 1) None |}.
Definition toy_daemon (envs : list save_env) : daemon Z := MkDaemon zero_state ∅ envs false [] 0.
Definition disk_full : save_env := MkSaveEnv true (FsFail None) FsOk.
Definition toy_apply := applyUpdate (F:=option (list string)) (U:=Z) "state.json" true "1.1.0" "noon".
Lemma zero_state_wf : state_wf (F:=option (list string)) zero_state.
Proof. by split. Qed.
Definition toy_done : daemon Z := (toy_apply (toy_daemon [])).1.
Lemma toy_done_eq : toy_apply (toy_daemon []) = (toy_done, Some (updateStatusLocked true "1.1.0" (d_st toy_done), None)).
Proof. vm_compute. reflexivity. Qed.
Lemma updates_once_witness :
  (∃ s', toy_apply (toy_daemon []) = (s', Some (updateStatusLocked true "1.1.0" (d_st s'), None)) ∧ d_restarts s' = ["versions/v1.1.0"] ∧ d_up s' = 1 ∧
     ∃ st', stored (F:=option (list string)) "state.json" (d_fs s') st' ∧ u_State (st_Updates st') = "restarting") ∧
  (∃ s' r e, toy_apply (toy_daemon [save_works; disk_full]) = (s', Some (r, Some e)) ∧ d_restarts s' = [] ∧ d_up s' = 0).
Proof.
  destruct (updates_once (F:=option (list string)) "state.json" true "1.1.0" (toy_daemon []) (toy_daemon []) eq_refl (actions_refl _ _ _ _)) as (_ & _ & Ha).
  destruct (updates_once (F:=option (list string)) "state.json" true "1.1.0" (toy_daemon [save_works; disk_full]) (toy_daemon [save_works; disk_full])
    eq_refl (actions_refl _ _ _ _)) as (_ & _ & Hb).
  split.
  - destruct (Ha "noon" toy_done (updateStatusLocked true "1.1.0" (d_st toy_done), None) 1 (MkRelease "v1.2.0" "" "" "") "versions/v1.1.0" zero_state_wf eq_refl
      ltac:(vm_compute; discriminate) toy_done_eq eq_refl) as [(Hu & _)|[(Hu & Hr & _ & _ & _ & st' & Hl & He)|(Hr & _)]];
      [vm_compute in Hu; discriminate Hu| |vm_compute in Hr; discriminate Hr].
    exists toy_done. split; [exact toy_done_eq|]. split; [exact Hr|]. split; [exact Hu|]. exists st'. split; [exact Hl|]. rewrite He. vm_compute. reflexivity.
  - destruct (toy_apply (toy_daemon [save_works; disk_full])) as [s' [r|]] eqn:E; [|vm_compute in E; discriminate].
    destruct (Hb "noon" s' r 1 (MkRelease "v1.2.0" "" "" "") "versions/v1.1.0" zero_state_wf eq_refl ltac:(vm_compute; discriminate) E eq_refl)
      as [(Hu & Hr & e & He)|[(_ & Hr & _)|(Hr & [e He] & x & Hx)]].
    + exists s', r.1, e. rewrite <- He. destruct r. by split_and!.
    + vm_compute in E. injection E as <- <-. vm_compute in Hr. discriminate Hr.
    + exists s', r.1, e. rewrite <- He. destruct r. split_and!; [done..|]. by injection Hx.
Defined.
