(* ===== verification/UpdateLife.v ===== *)
(** * The daemon, its updates and the installation

    The loop that updates on its own, what a failed save leaves behind, and the
    composition of the daemon's update requests with the install root they work
    on, over restarts and deaths of the process. *)

From S2P Require Import Prelude GoStrings FilePath DNSName State ProfileSpec RigWorld Update UpdateFacts UpdateDaemon.
Local Open Scope Z_scope.

Section loop.
Context {F : Type} `{DNSName F} `{StateJSON} (path : string).
Context {U : Type} `{Updater U} (has_updater : bool) (version : string).
Implicit Types (s : daemon U).
Local Notation applyUpdate := (applyUpdate (F:=F) (U:=U) path has_updater version).
Local Notation SetUpdatesEnabled := (SetUpdatesEnabled (F:=F) (U:=U) path has_updater version).
Local Notation loop_step := (loop_step (F:=F) (U:=U) path has_updater version).
Local Notation activity s := (u_State (st_Updates (d_st s))).

(** A release that was installed but could not be recorded is rolled back, and
    yet the activity stays [restarting]: until the daemon is started again every
    request to check or apply reports a restart that is not coming. *)
Lemma unrecorded_update_sticks now s s' r e u release old : has_updater = true → activity s ≠ "restarting" →
  applyUpdate now s = (s', Some (r, Some e)) → up_Apply version (d_up s) = Ran u (release, old, true, None) → d_up s' ≠ d_up s →
  d_restarts s' = d_restarts s ∧ (∃ x, up_Rollback old u = Ran (d_up s') x) ∧
  ∀ now', applyUpdate now' s' = (s', Some (updateStatusLocked has_updater version (d_st s'), None)) ∧
          us_State (updateStatusLocked has_updater version (d_st s')) = "restarting".
Proof using.
  intros Hu Ha E Eu Hne. destruct (applyUpdate_cases path has_updater version now s s' _ E) as [[-> _]|(_ & _ & s1 & e1 & (Hs1 & Hr1 & Hu1 & _) & Hc)]; [done|].
  rewrite Hu1, Eu in Hc. destruct Hc as [(e' & _ & -> & _)|[(_ & u' & [=] & _)|(_ & u' & rel' & old' & upd' & err' & s2 & e2 & [= <- <- <- <- <-] & (Hs2 & Hr2 & _) & Hc)]]; [congruence|].
  destruct e2 as [e2|]; [|by destruct Hc as [_ [=]]]. destruct (up_Rollback old u) as [u2 x|u2] eqn:Er; [|by destruct Hc]. destruct Hc as [-> _].
  assert (Hact : activity (set_up u2 s2) = "restarting") by (cbn; by rewrite Hs2).
  cbn [set_up d_restarts d_up] in *. rewrite Hr2, Hr1. split; [done|]. split; [eauto|]. intros now'.
  destruct (applyUpdate now' (set_up u2 s2)) as [s3 r3] eqn:E3.
  destruct (applyUpdate_cases path has_updater version now' (set_up u2 s2) s3 r3 E3) as [[-> [[? _]|(_ & _ & ->)]]|(_ & Hn & _)]; [congruence| |congruence].
  split; [done|]. unfold updateStatusLocked. cbn [us_State]. rewrite Hu, Hact. done.
Qed.
(** The timer and a wake-up may both be there; the timer's branch does not look
    at the policy, so an update can begin after updates were disabled. *)
Lemma disabled_yet_applied initial now s s' r : applyUpdate now s = (s', Some r) → u_Disabled (st_Updates (d_st s)) = true →
  ∃ pc, loop_step (LoopArmed initial) (Timer now) s = Some (s', Some pc).
Proof using. intros E _. cbn. rewrite E. destruct r as [status [e|]]; eauto. Qed.

(** The loop follows the policy.  A change of the policy that succeeds leaves
    a wake-up behind, which the loop takes wherever it waits; it then waits for a
    timer exactly when updates are on, and off it takes no timer at all.  A
    failed round is retried, a round that installed nothing too, and the loop
    ends only with its context or when a restart is due.  The first delay is
    between 5 and 30 minutes, a later one between 23 and 25 hours. *)
Theorem loop_follows_policy s :
  (∀ enabled s' status, SetUpdatesEnabled enabled s = (s', Some (status, None)) →
     us_Enabled status = enabled ∧ updatesEnabled has_updater (d_st s') = enabled ∧
     ∀ pc initial, pc = LoopOff initial ∨ pc = LoopArmed initial → ∃ s'', loop_step pc Wake s' = Some (s'', Some (if enabled then LoopArmed initial else LoopOff initial)) ∧
       d_wake s'' = false ∧ d_st s'' = d_st s' ∧ d_up s'' = d_up s') ∧
  (∀ initial now, loop_step (LoopOff initial) (Timer now) s = None) ∧
  (∀ initial now s' pc, loop_step (LoopArmed initial) (Timer now) s = Some (s', Some pc) →
     pc = LoopDone ∧ activity s' = "restarting" ∨ pc = (if updatesEnabled has_updater (d_st s') then LoopArmed false else LoopOff false)) ∧
  (∀ draw, (∀ n, 0 < n → 0 <= draw n < n) →
     5 * 60 <= defaultUpdateDelay draw true < 30 * 60 ∧ 23 * 3600 <= defaultUpdateDelay draw false < 25 * 3600).
Proof using.
  split_and!; [|done| |].
  - intros enabled s' status E. destruct (SetUpdatesEnabled_cases path has_updater version enabled s s' _ E) as [[Hu ->]|(Hu & _ & Hup & Hd & _ & Hc)].
    { unfold UpdateDaemon.SetUpdatesEnabled in E. rewrite Hu in E. discriminate E. }
    destruct Hc as [[e [=]]|[Hw [= ->]]]. assert (He : updatesEnabled has_updater (d_st s') = enabled) by (unfold updatesEnabled; rewrite Hu, Hd; by destruct enabled).
    split; [exact He|]. split; [exact He|]. intros pc initial Hpc.
    exists (MkDaemon (d_st s') (d_fs s') (d_envs s') false (d_restarts s') (d_up s')).
    destruct Hpc as [->| ->]; cbn; rewrite Hw; unfold loop_top; cbn [d_st]; rewrite He; by split_and!.
  - intros initial now s' pc. cbn. destruct (applyUpdate now s) as [s1 [[status [e|]]|]] eqn:E; intros [= <- <-]; [by right|]. unfold loop_top.
    destruct (String.eqb_spec (us_State status) "restarting") as [Hr|]; [left|by right]. split; [done|].
    destruct (applyUpdate_cases path has_updater version now s s1 _ E) as [[-> [[_ [=]]|(Hu & Ha & _)]]|(Hu & _ & s2 & e1 & _ & Hc)]; [done|].
    destruct Hc as [(e' & _ & _ & [=])|[(_ & u' & _ & _ & [=])|(_ & u' & rel' & old' & upd' & err' & s3 & e2 & _ & _ & Hc)]].
    destruct e2 as [e2|]; [destruct upd'; [destruct (up_Rollback old' u')|]; destruct Hc as [_ [=]]|]. destruct Hc as [-> [= -> _]].
    unfold updateStatusLocked in Hr. cbn [us_State] in Hr. rewrite Hu in Hr. assert (activity s3 = "restarting").
    { destruct (String.eqb (activity s3) ""); [done|exact Hr]. }
    by destruct (upd' && _).
  - intros draw Hd. unfold defaultUpdateDelay. pose proof (Hd (25 * 60) ltac:(lia)). pose proof (Hd (2 * 3600) ltac:(lia)). lia.
Qed.
End loop.

(** ** The daemon on its installation *)

Section life.
Context {F : Type} `{DNSName F} `{StateJSON} (path : string) `{SemverLaws} `{Archives} (c : Client) (render : update_error → string) (running : string → Prop).
#[local] Existing Instance client_updater.
Implicit Types (s : daemon world).
(** A life of the daemon from an install root: its requests and rounds of the
    loop, in a process of a version in [running] and with any answers of the
    server, in which it may die; its restart into the release it scheduled one
    for; and a new process, with whatever state, saves and hints. *)
Inductive life (root0 : Root) : daemon world → Prop :=
  | life_start s : w_root (d_up s) = root0 → d_restarts s = [] → life root0 s
  | life_action (SV : Server) version s s' alive : running version → life root0 s →
      action (F:=F) (U:=world) (H1:=client_updater c render) path true version s s' alive → life root0 s'
  | life_exec (SV : Server) s old first second s' r : life root0 s → old ∈ d_restarts s →
      exec_ (U:=world) (H1:=client_updater c render) old first second s = (s', r) → life root0 s'
  | life_boot s s' : life root0 s → w_root (d_up s') = w_root (d_up s) → d_restarts s' = [] → life root0 s'.

Definition target_ok (old : string) : Prop := old = "" ∨ ∃ v, old = version_path v ∧ version_name v.
Lemma rollback_history root0 root w old : target_ok old → w_root w = root → history c running root0 root → history c running root0 (after (Rollback c old w)).
Proof using.
  intros [->|(v & -> & Hv)] <- Hh.
  - assert (after (Rollback c "" w) = w_root w) as ->; [|done]. unfold Rollback. cbv zeta. rewrite orb_true_r. done.
  - destruct w as [root hints temp]. by apply history_rollback.
Qed.
Definition installation_ok (root0 : Root) (s : daemon world) : Prop :=
  history c running root0 (w_root (d_up s)) ∧ Forall target_ok (d_restarts s).
Lemma ran_root {A B} (f : result update_error A → B) (o : outcome A) w x :
  (of_outcome f o = Ran w x → after o = w_root w ∧ ∃ r, o = Returned r w ∧ f r = x) ∧ (of_outcome f o = Killed w → after o = w_root w).
Proof using. destruct o as [r w'|root]; cbn; split; try done; [|by intros [= <-]]. intros [= <- <-]. eauto. Qed.
Lemma up_rollback_ok `{SV : Server} root0 old w : target_ok old → history c running root0 (w_root w) →
  match up_Rollback (Updater:=client_updater c render) old w with Ran w' _ | Killed w' => history c running root0 (w_root w') end.
Proof using.
  intros Ho Hh. cbn. pose proof (rollback_history root0 _ w old Ho eq_refl Hh) as Hx. by destruct (Rollback c old w).
Qed.
Lemma up_apply_ok `{SV : Server} version root0 w : running version → sound (c_GOOS (defaults c)) root0 → history c running root0 (w_root w) →
  match up_Apply (Updater:=client_updater c render) version w with
  | Ran w' (release, old, updated, err) => history c running root0 (w_root w') ∧ target_ok old
  | Killed w' => history c running root0 (w_root w')
  end.
Proof using H2.
  intros Hrun Hs Hh. cbn. destruct w as [root hints temp]. cbn [w_root] in Hh.
  pose proof (history_apply c running root0 SV version hints temp root Hrun Hh) as Hx.
  destruct (history_sound c running root0 root Hs Hh) as [[_ Hcur] _].
  pose proof (Apply_spec c version (live root) (MkWorld root hints temp) eq_refl) as Ha.
  unfold Apply in *. destruct (Check_ c version) as [[r []] [e|]]; try (cbn in *; split; [exact Hx|by left]).
  unfold mbind, M_bind, try_ in *. destruct (Install c r (MkWorld root hints temp)) as [[old|e] w|root1]; cbn in *; [|split; [exact Hx|by left]|exact Hx].
  split; [exact Hx|]. destruct Ha as [_ Ha]. destruct (Ha r old eq_refl) as [_ ->]. unfold target_ok.
  destruct (r_current root) as [t|]; [|by left]. destruct (Hcur t eq_refl) as (v & -> & Hv & _). right. by exists v.
Qed.
Lemma applied_ok `{SV : Server} version root0 now s s' r : running version → sound (c_GOOS (defaults c)) root0 →
  applyUpdate (F:=F) (U:=world) (H1:=client_updater c render) path true version now s = (s', r) → installation_ok root0 s → installation_ok root0 s'.
Proof using H2.
  intros Hrun Hs E [Hh Hr]. destruct (applyUpdate_cases (H1:=client_updater c render) path true version now s s' r E) as [[-> _]|(_ & _ & s1 & e1 & (_ & Hr1 & Hu1 & _) & Hc)]; [done|].
  pose proof (up_apply_ok version root0 (d_up s) Hrun Hs Hh) as Ha. rewrite Hu1 in Hc.
  destruct Hc as [(e & _ & -> & _)|[(_ & u & Eu & -> & _)|(_ & u & rel & old & upd & err & s2 & e2 & Eu & (_ & Hr2 & Hu2 & _) & Hc)]].
  - split; [by rewrite Hu1|by rewrite Hr1].
  - rewrite Eu in Ha. split; [exact Ha|]. cbn. by rewrite Hr1.
  - rewrite Eu in Ha. destruct Ha as [Hh' Ho]. cbn [set_up d_restarts d_up] in Hr2, Hu2. rewrite Hr1 in Hr2.
    assert (installation_ok root0 s2) as Hok2 by (split; [by rewrite Hu2|by rewrite Hr2]).
    destruct e2 as [e2|].
    + destruct upd; [|by destruct Hc as [-> _]]. pose proof (up_rollback_ok root0 old u Ho Hh') as Hrb.
      destruct (up_Rollback old u) as [u' x|u']; destruct Hc as [-> _]; (split; [exact Hrb|cbn; by rewrite Hr2]).
    + destruct Hc as [-> _]. destruct (upd && _); [|done]. split; [cbn; by rewrite Hu2|]. cbn. rewrite Hr2. apply Forall_app. by split; [|constructor].
Qed.
Lemma life_ok root0 s : sound (c_GOOS (defaults c)) root0 → life root0 s → installation_ok root0 s.
Proof using H2.
  intros Hs Hl. induction Hl as [s <- Hr|SV version s s' alive Hrun _ IH Hact|SV s old first second s' r _ [Hh Hr] Ho E|s s' _ [Hh Hr] Hroot Hr'].
  - split; [constructor|by rewrite Hr].
  - destruct Hact as [en s1 r E|now s1 r E|now s1 r E|pc e s1 pc' E].
    + destruct (SetUpdatesEnabled_cases path true version en s s1 r E) as [[_ ->]|(_ & Hr & Hu & _)]; [done|].
      destruct IH. split; [by rewrite Hu|by rewrite Hr].
    + destruct (CheckForUpdate_cases (H1:=client_updater c render) path true version now s s1 r E) as [[-> _]|(_ & Hr & Hu)]; [done|].
      destruct IH. split; [|by rewrite Hr]. destruct Hu as [->|[[x Hx]|Hx]]; [done|..]; cbn in Hx; destruct (Check_ c version) as [[]]; [|done].
      injection Hx as <- _. done.
    + by eapply applied_ok.
    + destruct (loop_step_cases (H1:=client_updater c render) path true version pc e s s1 pc' E) as [(now & r & Er & _)|(_ & _ & Hr & Hu & _)]; [by eapply applied_ok|].
      destruct IH. split; [by rewrite Hu|by rewrite Hr].
  - pose proof (up_rollback_ok root0 old (d_up s) (proj1 (Forall_forall _ _) Hr old Ho) Hh) as Hrb.
    unfold exec_ in E. destruct first; [by injection E as <- _|]. revert E. unfold mbind, D_bind, up.
    destruct (up_Rollback old (d_up s)) as [u [m|]|u]; intros [= <- _]; by split.
  - split; [by rewrite Hroot|by rewrite Hr'].
Qed.
End life.

(** C5. Updating never breaks the installation.  Over any life of the daemon on a
    sound install root, its requests and the rounds of its loop, the restarts
    into new releases and back, processes that die anywhere in an update and ones
    that start again with any state, and whatever the server answers, the root
    stays sound and every version that was installed is there with its files.
    The link the service is started through is never lost, and leads to a
    directory with both binaries; that directory, as any other version that came
    since, was there at first or was made from an archive with the checksum its
    release publishes, and holds that archive's two binaries, each cut at 128 MiB
    ([released]).  What the directory of a version that was there before holds is
    not looked at beyond the names of the two binaries. *)
Theorem daemon_keeps_installation {F : Type} `{DNSName F} `{StateJSON} path `{SemverLaws} `{Archives} c render running root0 (s : daemon world) :
  let root := w_root (d_up s) in
  sound (c_GOOS (defaults c)) root0 → life (F:=F) path c render running root0 s →
  sound (c_GOOS (defaults c)) root ∧
  (∀ t, r_current root = Some t → ∃ v d, t = version_path v ∧ live_versions root !! v = Some d ∧ dir_at link_fuel root t = Some d ∧
     has_pair (c_GOOS (defaults c)) d ∧ (live_versions root0 !! v = Some d ∨ released c running v d)) ∧
  (∀ v d, live_versions root0 !! v = Some d → live_versions root !! v = Some d) ∧
  (∀ v d, live_versions root !! v = Some d → live_versions root0 !! v = Some d ∨ released c running v d) ∧
  (r_current root0 ≠ None → r_current root ≠ None).
Proof.
  intros root Hs Hl. destruct (life_ok path c render running root0 s Hs Hl) as [Hh _].
  destruct (history_sound c running root0 root Hs Hh) as (Hs' & Hk & Ho).
  split; [done|]. split; [|split; [done|split; [done|by apply (history_linked c running root0)]]].
  intros t Ht. destruct (sound_link _ root t Hs' Ht) as (v & d & ? & Hd & ? & ?). exists v, d. split_and!; try done. by apply Ho.
Qed.

#[local] Existing Instance toy_semver.
#[local] Existing Instance toy_semver_laws.
#[local] Existing Instance toy_archives.
#[local] Existing Instance toy_server.
#[local] Existing Instance toy_codec.
(** The process dies writing the second binary, and starts again. *)
Definition toy_render (_ : update_error) : string := "failed".
Definition toy_process (root : Root) (hints : list decision) : daemon world := MkDaemon zero_state ∅ [] false [] (MkWorld root hints ["1"]).
Definition toy_fatal : list decision := replicate 9 Fine ++ [Dies 3].
Definition toy_round (s : daemon world) : daemon world * option (UpdateStatus * option daemon_error) :=
  applyUpdate (F:=option (list string)) (U:=world) (H1:=client_updater toy_client toy_render) "state.json" true "1.1.0" "noon" s.
Definition toy_second : daemon world := toy_process (w_root (d_up (toy_round (toy_process toy_root toy_fatal)).1)) [].
Definition toy_running (v : string) : Prop := v = "1.1.0".
Lemma toy_life : life (F:=option (list string)) "state.json" toy_client toy_render toy_running toy_root (toy_round toy_second).1.
Proof.
  assert (∀ s, life (F:=option (list string)) "state.json" toy_client toy_render toy_running toy_root s →
    life (F:=option (list string)) "state.json" toy_client toy_render toy_running toy_root (toy_round s).1) as Hround.
  { intros s Hs. destruct (toy_round s) as [s' r] eqn:E. eapply (life_action _ _ _ _ _ toy_server "1.1.0"); [reflexivity|exact Hs|].
    apply (act_apply _ _ _ s "noon" s' r). exact E. }
  apply Hround. eapply life_boot; [apply (Hround (toy_process toy_root toy_fatal)), life_start; reflexivity|reflexivity|reflexivity].
Qed.
Lemma daemon_keeps_installation_witness :
  versions (w_root (d_up toy_second)) !! ".stage-1" ≠ None ∧ d_restarts (toy_round toy_second).1 = ["versions/v1.1.0"] ∧
  let root := w_root (d_up (toy_round toy_second).1) in
  sound (c_GOOS (defaults toy_client)) root ∧ r_current root = Some "versions/v1.2.0" ∧
  live_versions root !! "v1.1.0" = Some toy_old ∧ released toy_client toy_running "v1.2.0" toy_new.
Proof.
  split; [vm_compute; discriminate|]. split; [vm_compute; reflexivity|]. intros root.
  destruct (daemon_keeps_installation (F:=option (list string)) "state.json" toy_client toy_render toy_running toy_root (toy_round toy_second).1 toy_sound toy_life)
    as (Hs & _ & Hk & Ho & _).
  split; [exact Hs|]. split; [vm_compute; reflexivity|]. split; [apply Hk; vm_compute; reflexivity|].
  destruct (Ho "v1.2.0" toy_new) as [Hx|Hx]; [vm_compute; reflexivity|vm_compute in Hx; discriminate Hx|exact Hx].
Defined.
