(* ===== verification/WireGuardSecrets.v ===== *)
(** * Secret files of WireGuard profiles

    cmd/tailmixd/wireguardsecrets.go: which keys a profile gets, and the file
    they are kept in, which is never rewritten: a new one is created under a
    random name. *)

From S2P Require Import Prelude GoStrings FilePath Netip NetipText DNSName WireGuardKey PacketFilterCfg WireGuardCfg State Types ProfileView Runtime RigWorld.
Local Open Scope Z_scope.

Definition wireGuardSecretPrefix : string := "wireguard-secrets-".

Inductive secrets_error : Type := ESecretRandom | ENoPrivateKey | ENoPresharedKey (peer : string).

Section secrets.
Context {E Fw W : Type} `{Runtime E Fw W}.

(** The preshared key of one peer. *)
Definition add_preshared (supplied existing : Secrets) (keys : gmap string Key) (peer : Peer) : result secrets_error (gmap string Key) :=
  if negb (HasPresharedKey peer) then Ok keys
  else
    match PresharedKeyByPeer supplied !! peer_Name peer with
    | Some key => Ok (<[peer_Name peer := key]> keys)
    | None =>
      match PresharedKeyByPeer existing !! peer_Name peer with
      | Some key => Ok (<[peer_Name peer := key]> keys)
      | None => Err (ENoPresharedKey (peer_Name peer))
      end
    end.
Definition completeWireGuardSecrets (config : Config) (supplied existing : Secrets) (create : bool) (w : W) :
    W * result secrets_error Secrets :=
  let '(w, private) :=
    match s_PrivateKey supplied, s_PrivateKey existing with
    | Some key, _ => (w, Ok key)
    | None, Some key => (w, Ok key)
    | None, None =>
      if create then
        let '(w, random) := rand_Read key_size w in
        (w, match GeneratePrivateKey random with Some key => Ok key | None => Err ESecretRandom end)
      else (w, Err ENoPrivateKey)
    end in
  (w, key ← private;
      keys ← foldM (add_preshared supplied existing) (c_Peers config) ∅;
      Ok (MkSecrets (Some key) keys)).

(** The name of the new file, or an error. *)
Definition writeWireGuardSecrets (stateDir : string) (secrets : Secrets) (w : W) : W * option string :=
  match s_PrivateKey secrets with
  | None => (w, None)
  | Some _ =>
    let '(w, ok) := os_MkdirAll stateDir w in
    if negb ok then (w, None)
    else
      let '(w, random) := rand_Read 8 w in
      match random with
      | None => (w, None)
      | Some buffer =>
        let name := wireGuardSecretPrefix +:+ EncodeToString buffer +:+ ".json" in
        let path := Join [stateDir; name] in
        let '(w, ok) := os_OpenExcl path w in
        if negb ok then (w, None)
        else
          match MarshalSecrets secrets with
          | None => ((os_Remove path w).1, None)
          | Some data =>
            let '(w, ok) := file_Write path (data +:+ NEWLINE) w in
            if ok then (w, Some name) else ((os_Remove path w).1, None)
          end
      end
  end.
Definition bad_reference (name : string) : bool := negb (String.eqb (Base name) name) || negb (HasPrefix name wireGuardSecretPrefix).
Definition readWireGuardSecrets (stateDir name : string) (w : W) : option Secrets :=
  if bad_reference name then None
  else
    data ← os_ReadFile (Join [stateDir; name]) w;
    secrets ← DecodeSecrets data;
    match s_PrivateKey secrets with None => None | Some _ => Some secrets end.
(** Its error is ignored everywhere. *)
Definition removeWireGuardSecrets (stateDir name : string) (w : W) : W :=
  if bad_reference name then w else (os_Remove (Join [stateDir; name]) w).1.
End secrets.

(** ** What is read is what was written *)

(** Keys a decoder accepts. *)
Definition secrets_ok (s : Secrets) : Prop :=
  (∀ k, s_PrivateKey s = Some k → key_ok k ∧ isZero k = false) ∧
  map_Forall (λ _ k, key_ok k ∧ isZero k = false) (PresharedKeyByPeer s).
(** What the files and [encoding/json] are relied on for. *)
Class SecretLaws (E Fw W : Type) `{Runtime E Fw W} : Prop := {
  file_kept path data w w' : file_Write path data w = (w', true) → os_ReadFile path w' = Some data;
  secrets_decoded s data : secrets_ok s → MarshalSecrets s = Some data → DecodeSecrets (data +:+ NEWLINE) = Some s
}.

Lemma slashless_Base s : slash ∉ chars s → s ≠ "" → Base s = s.
Proof.
  intros Hs Hne. unfold Base. rewrite (proj2 (String.eqb_neq s "")) by done.
  assert (Ht : trim_right (λ c, char_eqb c "/"%char) (chars s) = chars s).
  { unfold trim_right. assert (Hl : trim_left (λ c, char_eqb c "/"%char) (reverse (chars s)) = reverse (chars s)).
    { destruct (reverse (chars s)) as [|c l] eqn:Er; [done|]. cbn -[char_eqb]. destruct (char_eqb c "/"%char) eqn:Ec; [|done].
      apply char_eqb_eq in Ec as ->. destruct Hs. apply elem_of_reverse. rewrite Er. by left. }
    by rewrite Hl, reverse_involutive. }
  rewrite Ht, cut_char_none by (by rewrite elem_of_reverse). rewrite text_chars.
  destruct (decide (chars s = [])) as [E0|]; [|done]. destruct Hne. by rewrite <-(text_chars s), E0.
Qed.
Lemma hex_char_plain d : 0 <= d < 16 → hex_char d ≠ slash.
Proof.
  intros Hd Heq. enough (Hs : negb (char_eqb (hex_char d) slash) = true) by (rewrite Heq in Hs; discriminate Hs).
  apply (below_forall (λ d, negb (char_eqb (hex_char d) slash)) 16); [by vm_compute|done].
Qed.
Lemma EncodeToString_plain l : Forall is_byte l → slash ∉ chars (EncodeToString l).
Proof.
  intros Hl. unfold EncodeToString. rewrite chars_text. intros (b & Hc & Hb)%list_elem_of_bind.
  rewrite Forall_forall in Hl. specialize (Hl b Hb). unfold is_byte in Hl.
  pose proof (Z.shiftr_div_pow2 b 4 ltac:(lia)) as E1. pose proof (Z.land_ones b 4 ltac:(lia)) as E2. change (Z.ones 4) with 15 in E2.
  rewrite !elem_of_cons, elem_of_nil in Hc.
  destruct Hc as [Hc|[Hc|[]]]; eapply hex_char_plain; [|symmetry; exact Hc| |symmetry; exact Hc]; rewrite ?E1, ?E2; simpl (2 ^ 4).
  - split; [apply Z.div_pos; lia|apply Z.div_lt_upper_bound; lia].
  - apply Z.mod_pos_bound. lia.
Qed.

Section facts.
Context {E Fw W : Type} `{RT : Runtime E Fw W, !RuntimeLaws E Fw W, !SecretLaws E Fw W}.
Implicit Types (w : W).

(** The name of a new secret file is one the state accepts. *)
Lemma secret_name_ok b : Forall is_byte b → let name := wireGuardSecretPrefix +:+ EncodeToString b +:+ ".json" in
  bad_reference name = false ∧ secret_file_bad name = false.
Proof using.
  intros Hb name. assert (HB : Base name = name).
  { apply slashless_Base; [|done]. unfold name. rewrite !chars_app, !not_elem_of_app. split_and!; [|by apply EncodeToString_plain|];
      apply (bool_decide_unpack _); vm_compute; exact I. }
  assert (HP : HasPrefix name wireGuardSecretPrefix = true).
  { unfold HasPrefix, name. rewrite chars_app. apply list_prefix_self. }
  unfold bad_reference, secret_file_bad. change "wireguard-secrets-" with wireGuardSecretPrefix. rewrite HB, String.eqb_refl, HP.
  split; [done|]. cbn [negb orb]. apply negb_false_iff. unfold HasSuffix, name. rewrite !chars_app, app_assoc, reverse_app.
  apply list_prefix_self.
Qed.

(** A file that was written has such a name. *)
Lemma written_name stateDir secrets w w' name : writeWireGuardSecrets stateDir secrets w = (w', Some name) →
  name ≠ "" ∧ secret_file_bad name = false.
Proof using RuntimeLaws0.
  unfold writeWireGuardSecrets. destruct (s_PrivateKey secrets); [|done]. destruct (os_MkdirAll _ w) as [w1 []]; [|done].
  cbn [negb]. destruct (rand_Read 8 w1) as [w2 [b|]] eqn:Er; [|done]. destruct (random_bytes _ _ _ _ Er) as [_ Hb].
  destruct (os_OpenExcl _ w2) as [w3 []]; [|done]. cbn [negb]. destruct (MarshalSecrets secrets); [|done].
  destruct (file_Write _ _ w3) as [w4 []]; [|done]. intros [= _ <-]. split; [done|by apply secret_name_ok].
Qed.

(** What is read from a secret file is what was written: after
    [writeWireGuardSecrets] the file it names, which the state accepts as a
    reference, reads back as exactly the keys that were given to it. *)
Theorem secrets_roundtrip (stateDir name : string) (secrets : Secrets) w w' :
  secrets_ok secrets → writeWireGuardSecrets stateDir secrets w = (w', Some name) →
  readWireGuardSecrets stateDir name w' = Some secrets ∧ secret_file_bad name = false.
Proof using All.
  intros Hok. unfold writeWireGuardSecrets. destruct (s_PrivateKey secrets) as [key|] eqn:Ek; [|done].
  destruct (os_MkdirAll stateDir w) as [w1 []]; [|done]. cbn [negb]. destruct (rand_Read 8 w1) as [w2 [b|]] eqn:Er; [|done].
  destruct (random_bytes _ _ _ _ Er) as [_ Hb]. destruct (secret_name_ok b Hb) as [Hbad Hfile].
  destruct (os_OpenExcl _ w2) as [w3 []]; [|done]. cbn [negb]. destruct (MarshalSecrets secrets) as [data|] eqn:Em; [|done].
  destruct (file_Write _ _ w3) as [w4 []] eqn:Ew; [|done]. intros [= <- <-]. split; [|exact Hfile].
  unfold readWireGuardSecrets. rewrite Hbad, (file_kept _ _ _ _ Ew). cbn [mbind option_bind].
  rewrite (secrets_decoded _ _ Hok Em). cbn [mbind option_bind]. by rewrite Ek.
Qed.

(** Where the keys of a profile come from. *)
Definition key_source (supplied existing : Secrets) (peer : string) : option Key :=
  match PresharedKeyByPeer supplied !! peer with Some key => Some key | None => PresharedKeyByPeer existing !! peer end.
Lemma preshared_keys supplied existing peers keys keys' : foldM (add_preshared supplied existing) peers keys = Ok keys' →
  ∀ name, keys' !! name = if bool_decide (Exists (λ p, peer_Name p = name ∧ HasPresharedKey p = true) peers)
    then key_source supplied existing name else keys !! name.
Proof using.
  revert keys. induction peers as [|p peers IH]; intros keys Hf name; cbn [foldM] in Hf.
  - injection Hf as <-. rewrite bool_decide_false; [done|]. by intros ?%Exists_nil.
  - apply bind_ok_inv in Hf as (keys1 & H1 & Hf). rewrite (IH _ Hf). clear IH Hf. unfold add_preshared in H1.
    rewrite (bool_decide_ext (Exists _ (p :: peers)) _ (Exists_cons _ _ _)).
    destruct (decide (Exists (λ p, peer_Name p = name ∧ HasPresharedKey p = true) peers)) as [He|He];
      [rewrite !bool_decide_true by auto; done|]. rewrite (bool_decide_false (Exists _ peers)) by done.
    destruct (HasPresharedKey p) eqn:Ep; cbn [negb] in H1.
    + destruct (decide (peer_Name p = name)) as [<-|Hne].
      * rewrite bool_decide_true by auto. unfold key_source.
        destruct (PresharedKeyByPeer supplied !! _); [|destruct (PresharedKeyByPeer existing !! _); [|done]];
          injection H1 as <-; apply lookup_insert_eq.
      * rewrite bool_decide_false by naive_solver.
        destruct (PresharedKeyByPeer supplied !! _); [|destruct (PresharedKeyByPeer existing !! _); [|done]];
          injection H1 as <-; by apply lookup_insert_ne.
    + injection H1 as <-. rewrite bool_decide_false by naive_solver. done.
Qed.
Lemma preshared_fail supplied existing peers keys e : foldM (add_preshared supplied existing) peers keys = Err e →
  ∃ p, p ∈ peers ∧ HasPresharedKey p = true ∧ key_source supplied existing (peer_Name p) = None ∧ e = ENoPresharedKey (peer_Name p).
Proof using.
  revert keys. induction peers as [|p peers IH]; intros keys Hf; cbn [foldM] in Hf; [done|].
  destruct (add_preshared supplied existing keys p) as [keys1|e1] eqn:E1; cbn [mbind result_bind] in Hf.
  - destruct (IH _ Hf) as (q & Hq & ?). exists q. split; [by right|done].
  - injection Hf as ->. unfold add_preshared in E1. destruct (HasPresharedKey p) eqn:Ep; [|done]. cbn [negb] in E1.
    exists p. split; [by left|]. split; [done|]. unfold key_source. destruct (PresharedKeyByPeer supplied !! _); [done|].
    destruct (PresharedKeyByPeer existing !! _); [done|]. by injection E1 as <-.
Qed.

(** The keys of an applied configuration: the private key is the supplied
    one, else the one the profile has, else, for a new profile only, a fresh one
    clamped for X25519; exactly the peers marked in the configuration get a
    preshared key, the supplied one before the one they have; and it fails only
    for a profile without private key, a peer without its preshared key or
    without random bytes. *)
Theorem completeWireGuardSecrets_sound (config : Config) (supplied existing : Secrets) (create : bool) w w' r :
  completeWireGuardSecrets config supplied existing create w = (w', r) →
  match r with
  | Ok s =>
      (∃ key, s_PrivateKey s = Some key ∧
        (s_PrivateKey supplied = Some key ∨
         s_PrivateKey supplied = None ∧ s_PrivateKey existing = Some key ∨
         s_PrivateKey supplied = None ∧ s_PrivateKey existing = None ∧ create = true ∧ ∃ b, rand_Read key_size w = (w', Some b) ∧ key = clamp b)) ∧
      ∀ name, PresharedKeyByPeer s !! name =
        if bool_decide (Exists (λ p, peer_Name p = name ∧ HasPresharedKey p = true) (c_Peers config)) then key_source supplied existing name else None
  | Err ESecretRandom => create = true
  | Err ENoPrivateKey => s_PrivateKey supplied = None ∧ s_PrivateKey existing = None ∧ create = false
  | Err (ENoPresharedKey name) =>
      ∃ p, p ∈ c_Peers config ∧ peer_Name p = name ∧ HasPresharedKey p = true ∧ key_source supplied existing name = None
  end.
Proof using.
  assert (Hkeys : ∀ private r, (key ← private; keys ← foldM (add_preshared supplied existing) (c_Peers config) ∅; Ok (MkSecrets (Some key) keys)) = r →
    match r with
    | Ok s => ∃ key, private = Ok key ∧ s_PrivateKey s = Some key ∧ ∀ name, PresharedKeyByPeer s !! name =
        if bool_decide (Exists (λ p, peer_Name p = name ∧ HasPresharedKey p = true) (c_Peers config)) then key_source supplied existing name else None
    | Err e => private = Err e ∨ ∃ p, p ∈ c_Peers config ∧ HasPresharedKey p = true ∧
        key_source supplied existing (peer_Name p) = None ∧ e = ENoPresharedKey (peer_Name p)
    end).
  { intros private r0 <-. destruct private as [key|e]; cbn [mbind result_bind]; [|by left].
    destruct (foldM _ _ _) as [keys|e] eqn:Ef; cbn [mbind result_bind]; [|right; by eapply preshared_fail].
    exists key. split_and!; [done..|]. intros name. cbn [PresharedKeyByPeer]. rewrite (preshared_keys _ _ _ _ _ Ef). by rewrite lookup_empty. }
  unfold completeWireGuardSecrets.
  destruct (s_PrivateKey supplied) as [key|] eqn:Es; [|destruct (s_PrivateKey existing) as [key|] eqn:Ee; [|destruct create eqn:Ec]].
  - intros Hc. pose proof (Hkeys (Ok key) r (f_equal snd Hc)) as Hr. destruct r as [s|e].
    + destruct Hr as (k & [= <-] & Hp & Hn). split; [exists key; auto|done].
    + destruct Hr as [Hr|(p & Hp & Hm & Hn & ->)]; [done|by exists p].
  - intros Hc. pose proof (Hkeys (Ok key) r (f_equal snd Hc)) as Hr. destruct r as [s|e].
    + destruct Hr as (k & [= <-] & Hp & Hn). split; [exists key; auto|done].
    + destruct Hr as [Hr|(p & Hp & Hm & Hn & ->)]; [done|by exists p].
  - destruct (rand_Read key_size w) as [w1 random]. intros Hc. assert (w1 = w') as -> by (exact (f_equal fst Hc)).
    pose proof (Hkeys _ r (f_equal snd Hc)) as Hr. destruct r as [s|e].
    + destruct Hr as (key & Hk & Hp & Hn). split; [|done]. exists key. split; [done|]. right. right. split_and!; [done..|].
      destruct random as [b|]; [|done]. exists b. split; [done|]. by injection Hk as <-.
    + destruct Hr as [Hr|(p & Hp & Hm & Hn & ->)]; [|by exists p]. destruct random; [done|]. by injection Hr as <-.
  - intros Hc. assert (r = Err ENoPrivateKey) as -> by (exact (eq_sym (f_equal snd Hc))). done.
Qed.
End facts.

(** ** A concrete file *)

#[export] Instance rig_secret_laws : SecretLaws string unit world.
Proof.
  split.
  - intros path data w w'. cbn. unfold trip, set_file. cbn. intros [= <- _]. cbn. apply lookup_partial_alter_eq.
  - intros s data _. apply position_found.
Qed.
Definition drawn_secrets : Secrets := MkSecrets (Some drawn_key) ∅.
Lemma drawn_ok : secrets_ok drawn_secrets.
Proof.
  split; [|apply map_Forall_empty]. intros k [= <-]. split; [|by vm_compute].
  assert (Hk : length drawn_key = key_size ∧ forallb (λ b, (0 <=? b) && (b <? 256)) drawn_key = true) by (vm_compute; done).
  destruct Hk as [Hl Hb]. split; [done|]. apply Forall_forall. intros b Hin%list_elem_of_In. rewrite forallb_forall in Hb.
  specialize (Hb b Hin). unfold is_byte. lia.
Qed.
Lemma secrets_roundtrip_witness :
  ∃ w' name, writeWireGuardSecrets "/srv/vpn" drawn_secrets (failing []) = (w', Some name) ∧
    readWireGuardSecrets "/srv/vpn" name w' = Some drawn_secrets.
Proof.
  assert (Hok : bool_decide (is_Some (writeWireGuardSecrets "/srv/vpn" drawn_secrets (failing [])).2) = true) by (vm_compute; reflexivity).
  destruct (writeWireGuardSecrets "/srv/vpn" drawn_secrets (failing [])) as [w' [name|]] eqn:Ew; [|discriminate Hok].
  exists w', name. split; [reflexivity|].
  exact (proj1 (secrets_roundtrip (E:=string) (Fw:=unit) "/srv/vpn" name drawn_secrets (failing []) w' drawn_ok Ew)).
Defined.
Lemma completeWireGuardSecrets_sound_witness :
  ∃ w' s, completeWireGuardSecrets test_config (MkSecrets None {[ "nas" := replicate 32%nat 9 ]}) (MkSecrets None ∅) true (failing []) = (w', Ok s) ∧
    s_PrivateKey s = Some drawn_key.
Proof.
  destruct (completeWireGuardSecrets test_config (MkSecrets None {[ "nas" := replicate 32%nat 9 ]}) (MkSecrets None ∅) true (failing [])) as [w' r] eqn:Ec.
  pose proof (completeWireGuardSecrets_sound (E:=string) (Fw:=unit) test_config (MkSecrets None {[ "nas" := replicate 32%nat 9 ]}) (MkSecrets None ∅) true (failing []) w' r Ec) as Hs.
  destruct r as [s|e].
  - exists w', s. split; [reflexivity|]. destruct Hs as [(key & Hk & [Hs|[(_ & Hs)|(_ & _ & _ & b & Hb & Hkey)]]) _]; [discriminate Hs|discriminate Hs|].
    rewrite Hk. injection Hb as _ <-. rewrite Hkey. reflexivity.
  - exfalso. vm_compute in Ec. discriminate Ec.
Defined.
