(* ===== verification/Supervisor.v ===== *)
(** * The supervisor

    cmd/tailmixd/supervisor.go: the single owner of the daemon's desired state
    and live networking.  Its fields are a record, a method that may fail is a
    function in the monad of [Effects], and everything it drives is the interface
    of [Runtime] over an abstract world.  This file has the state, the start and
    stop of profiles and the reconciliation. *)

From S2P Require Import Prelude Effects GoStrings FilePath Netip RoutingTable PacketMap EffectiveIP Activity DNSName WireGuardCfg State Types HostPools ProfileSpec LeasePlan RoutingPolicy TUNTable DNSPolicy TUNDNS TUNPlan SocksRouter IPSet WireGuardFilter PolicyPatch ExitNodes Paths ProfileView Runtime WireGuardSecrets.
Local Open Scope Z_scope.

(** One constructor per error of the supervisor and its API. *)
Inductive sup_error : Type :=
  | ESupPlan (e : plan_error) | ESupPool (e : pool_error) | ESupLease (e : lease_error)
  | ESupRouter (e : router_error) | ESupStore (e : store_error) | ESupObservations (e : store_error)
  | ERouteUnsupported (profile : string) | ERouteFailed (profile : string)
  | EExitUnsupported (profile : string) | EExitFailed (profile : string)
  | EHostConfigure | EDNSConfigure
  | EDNSProfile (suffix profile : string) | EDNSNoResolver (profile : string) | EDNSForwarder (profile : string)
  | EEngineStatus (profile : string)
  | EAuthKeyEnv (profile env : string) | EWireGuardMode | ENoWireGuard | EWireGuardSecrets | EBadKind (kind : string)
  | EEngineStart | EMuxAdd (profile : string) | EProfileAPI (profile : string)
  | ERuntimeStop (profiles : list string)
  | EPolicy (e : policy_error) | EExitNode (e : exit_error)
  | EReconcileFailed (e : sup_error)
  | EDaemonDown | EInvalidName (name : string) | EProfileExists (name : string) | ENoProfile (name : string)
  | ERemoved (name : string) | EDisabled (name : string) | EHasBindings (name : string) | ENotTailscale (name : string)
  | EWatch (profile : string) | EDegraded (e : sup_error)
  | ERandom | EPath (e : path_error) | EPurgeRemove (dir : string) | EPurgeSave (e : store_error)
  | EApplyConfig (e : cfg_error) | EWireGuardUnsupported | EOwnEndpoint | ENotWireGuard (name : string) | EWireGuardState
  | ESecrets (e : secrets_error) | EKeyRequired | EKeyDerive | EPeerOwnKey | EWriteSecrets | EDisappeared | EIncompatibleEngine
  | EPrepareApply | EApplyFailed | EStartFailed (e : sup_error) | EPublishFilter | EResolutions (e : compile_error)
  | ECompileFilter (e : option compile_error) | EShieldsApply | EShieldsCommit
  (** a panic of the handler *)
  | ENilPointer.

Record managedProfile (E : Type) : Type := MkManaged {
  m_State : Profile; m_Engine : E; m_status : Status; m_fresh : bool }.
Arguments MkManaged {E} _ _ _ _.
Arguments m_State {E} _.
Arguments m_Engine {E} _.
Arguments m_status {E} _.
Arguments m_fresh {E} _.
Definition set_status {E} (x : Status) (m : managedProfile E) : managedProfile E :=
  MkManaged (m_State m) (m_Engine m) x (m_fresh m).
Definition set_fresh {E} (x : bool) (m : managedProfile E) : managedProfile E :=
  MkManaged (m_State m) (m_Engine m) (m_status m) x.
Definition set_RouteAll (x : bool) (s : Status) : Status :=
  MkStatus (s_ProfileID s) (s_Alias s) (s_Kind s) (s_MagicDNSSuffix s) (s_BackendState s) (s_AuthURL s) (s_SelfNodeID s)
    (s_SelfDNSName s) (s_SelfIPs s) (s_Peers s) (s_Services s) (s_PeerCount s) (s_ShieldsUp s) (s_AvailableRoutes s)
    (s_DNSRoutes s) (s_SearchDomains s) x (s_ExitNodeID s) (s_PublicKey s) (s_ListenPort s).
(** [tailmixprofile.Status{}]. *)
Definition zero_status : Status := MkStatus "" "" "" "" "" "" "" "" [] [] [] 0 false [] [] [] false "" "" 0.

Definition usableStatuses (statuses : list Status) : list Status :=
  filter (λ s, String.eqb (s_BackendState s) "" || String.eqb (s_BackendState s) "Running" = true) statuses.

(** What the outside sees of a reconciliation, in order: the packet policy, the
    host routes, the resolver and the saved state. *)
Inductive event (T : Type → Type) : Type :=
  | EvMapper (t : Table T)
  | EvHost (c : HostConfig)
  | EvDNS (c : LiveConfig)
  | EvSave (st : State).
Arguments EvMapper {T} _.
Arguments EvHost {T} _.
Arguments EvDNS {T} _.
Arguments EvSave {T} _.

Section supervisor.
Context {T : Type → Type} `{LPM T} {F : Type} `{DNSName F} `{StateJSON} {E Fw W : Type} `{Runtime E Fw W}.
Context (CGNATRange TailscaleULARange : Prefix) (ServiceIP : Addr) (path : string) (tun_mode : bool).

(** The fields of the supervisor, the files ([sv_fs]), the world it drives
    ([sv_ext]) and, for the statements below, what was published ([sv_trace]). *)
Record supervisor : Type := MkSupervisor {
  sv_st : State;
  sv_runtimes : gmap string (managedProfile E);
  sv_lastErrors : gmap string sup_error;
  sv_ipPolicy : IPPlan;
  sv_dnsPolicy : DNSPlan;
  sv_reconcileErr : option sup_error;
  sv_mapper : Table T;
  sv_forwarders : list Fw;
  sv_router : option (Router T E);
  sv_activity : ActivityTracker;
  sv_fs : gmap string string;
  sv_ext : W;
  sv_trace : list (event T) }.
Definition set_st (x : State) (s : supervisor) : supervisor :=
  MkSupervisor x (sv_runtimes s) (sv_lastErrors s) (sv_ipPolicy s) (sv_dnsPolicy s) (sv_reconcileErr s) (sv_mapper s) (sv_forwarders s) (sv_router s) (sv_activity s) (sv_fs s) (sv_ext s) (sv_trace s).
Definition set_runtimes (x : gmap string (managedProfile E)) (s : supervisor) : supervisor :=
  MkSupervisor (sv_st s) x (sv_lastErrors s) (sv_ipPolicy s) (sv_dnsPolicy s) (sv_reconcileErr s) (sv_mapper s) (sv_forwarders s) (sv_router s) (sv_activity s) (sv_fs s) (sv_ext s) (sv_trace s).
Definition set_lastErrors (x : gmap string sup_error) (s : supervisor) : supervisor :=
  MkSupervisor (sv_st s) (sv_runtimes s) x (sv_ipPolicy s) (sv_dnsPolicy s) (sv_reconcileErr s) (sv_mapper s) (sv_forwarders s) (sv_router s) (sv_activity s) (sv_fs s) (sv_ext s) (sv_trace s).
Definition set_ipPolicy (x : IPPlan) (s : supervisor) : supervisor :=
  MkSupervisor (sv_st s) (sv_runtimes s) (sv_lastErrors s) x (sv_dnsPolicy s) (sv_reconcileErr s) (sv_mapper s) (sv_forwarders s) (sv_router s) (sv_activity s) (sv_fs s) (sv_ext s) (sv_trace s).
Definition set_dnsPolicy (x : DNSPlan) (s : supervisor) : supervisor :=
  MkSupervisor (sv_st s) (sv_runtimes s) (sv_lastErrors s) (sv_ipPolicy s) x (sv_reconcileErr s) (sv_mapper s) (sv_forwarders s) (sv_router s) (sv_activity s) (sv_fs s) (sv_ext s) (sv_trace s).
Definition set_reconcileErr (x : option sup_error) (s : supervisor) : supervisor :=
  MkSupervisor (sv_st s) (sv_runtimes s) (sv_lastErrors s) (sv_ipPolicy s) (sv_dnsPolicy s) x (sv_mapper s) (sv_forwarders s) (sv_router s) (sv_activity s) (sv_fs s) (sv_ext s) (sv_trace s).
Definition set_mapper (x : Table T) (s : supervisor) : supervisor :=
  MkSupervisor (sv_st s) (sv_runtimes s) (sv_lastErrors s) (sv_ipPolicy s) (sv_dnsPolicy s) (sv_reconcileErr s) x (sv_forwarders s) (sv_router s) (sv_activity s) (sv_fs s) (sv_ext s) (sv_trace s).
Definition set_forwarders (x : list Fw) (s : supervisor) : supervisor :=
  MkSupervisor (sv_st s) (sv_runtimes s) (sv_lastErrors s) (sv_ipPolicy s) (sv_dnsPolicy s) (sv_reconcileErr s) (sv_mapper s) x (sv_router s) (sv_activity s) (sv_fs s) (sv_ext s) (sv_trace s).
Definition set_router (x : option (Router T E)) (s : supervisor) : supervisor :=
  MkSupervisor (sv_st s) (sv_runtimes s) (sv_lastErrors s) (sv_ipPolicy s) (sv_dnsPolicy s) (sv_reconcileErr s) (sv_mapper s) (sv_forwarders s) x (sv_activity s) (sv_fs s) (sv_ext s) (sv_trace s).
Definition set_activity (x : ActivityTracker) (s : supervisor) : supervisor :=
  MkSupervisor (sv_st s) (sv_runtimes s) (sv_lastErrors s) (sv_ipPolicy s) (sv_dnsPolicy s) (sv_reconcileErr s) (sv_mapper s) (sv_forwarders s) (sv_router s) x (sv_fs s) (sv_ext s) (sv_trace s).
Definition set_fs (x : gmap string string) (s : supervisor) : supervisor :=
  MkSupervisor (sv_st s) (sv_runtimes s) (sv_lastErrors s) (sv_ipPolicy s) (sv_dnsPolicy s) (sv_reconcileErr s) (sv_mapper s) (sv_forwarders s) (sv_router s) (sv_activity s) x (sv_ext s) (sv_trace s).
Definition set_ext (x : W) (s : supervisor) : supervisor :=
  MkSupervisor (sv_st s) (sv_runtimes s) (sv_lastErrors s) (sv_ipPolicy s) (sv_dnsPolicy s) (sv_reconcileErr s) (sv_mapper s) (sv_forwarders s) (sv_router s) (sv_activity s) (sv_fs s) x (sv_trace s).
Definition set_trace (x : list (event T)) (s : supervisor) : supervisor :=
  MkSupervisor (sv_st s) (sv_runtimes s) (sv_lastErrors s) (sv_ipPolicy s) (sv_dnsPolicy s) (sv_reconcileErr s) (sv_mapper s) (sv_forwarders s) (sv_router s) (sv_activity s) (sv_fs s) (sv_ext s) x.
Local Notation M := (stm supervisor sup_error).

(** Running an operation of the world, and looking at it. *)
Definition ext {A} (f : W → W * A) : M A := λ s, let '(w, a) := f (sv_ext s) in (set_ext w s, Ok a).
Definition ext_ (f : W → W) : M unit := modify (λ s, set_ext (f (sv_ext s)) s).
Definition peek {A} (f : W → A) : M A := gets (λ s, f (sv_ext s)).
Definition emit (e : event T) : M unit := modify (λ s, set_trace (sv_trace s ++ [e]) s).
Definition update_managed (id : string) (f : managedProfile E → managedProfile E) : M unit :=
  modify (λ s, set_runtimes (alter f id (sv_runtimes s)) s).
Definition set_lastError (id : string) (e : sup_error) : M unit :=
  modify (λ s, set_lastErrors (<[id := e]> (sv_lastErrors s)) s).
Definition clear_lastError (id : string) : M unit :=
  modify (λ s, set_lastErrors (delete id (sv_lastErrors s)) s).
(** [for id := range s.runtimes]. *)
Definition runtime_ids : M (list string) := gets (λ s, range_order (dom (sv_runtimes s)) (sv_ext s)).
Definition SetActivity (leases : list EffectiveLease) : M unit :=
  modify (λ s, set_activity (SetLeases (sv_activity s) (leasesFromState leases) (time_Now (sv_ext s))) s).

(** [s.store.Save(st)]. *)
Definition store_Save (st : State) : M (result store_error unit) := λ s,
  let '(w, env) := save_outcome (sv_ext s) in
  let '(fs, r) := Save path env (sv_fs s) st in
  let s := set_fs fs (set_ext w s) in
  (match r with Ok _ => set_trace (sv_trace s ++ [EvSave st]) s | Err _ => s end, Ok r).

Definition empty_ip_plan : IPPlan := MkIPPlan [] [] (api.MkIPRoutes [] [] [] []).
Definition empty_dns_plan : DNSPlan := MkDNSPlan [] [] [] (api.MkDNSRoutes [] [] [] [] []) (api.MkSearchDomains [] [] [] []).
Definition newSupervisor (st : State) (fs : gmap string string) (w : W) : supervisor :=
  MkSupervisor st ∅ ∅ empty_ip_plan empty_dns_plan None (MkTable None None None None ∅ ∅) [] None
    (SetLeases ∅ (leasesFromState (st_Leases st)) (time_Now w)) fs w [].

(** ** Statuses *)

(** An iteration of the loop of [statusesLocked]: nothing for a profile that is
    off, has no runtime, or has never reported. *)
Definition observe (configured : Profile) : M (option Status) :=
  let profileID := pr_ID configured in
  if pr_Disabled configured || pr_Removed configured then mret None
  else
    runtimes ← gets sv_runtimes;
    match runtimes !! profileID with
    | None => mret None
    | Some managed =>
      r ← ext (engine_Status (m_Engine managed));
      status ←
        match r with
        | None =>
          _ ← update_managed profileID (set_fresh false);
          _ ← set_lastError profileID (EEngineStatus profileID);
          mret (m_status managed)
        | Some status =>
          _ ← update_managed profileID (λ m, set_fresh true (set_status status m));
          degraded ← peek (engine_ApplyDegraded (m_Engine managed));
          _ ← (if degraded : bool then mret tt else clear_lastError profileID);
          mret status
        end;
      mret (if negb (String.eqb (s_ProfileID status) "") then Some status else None)
    end.
Definition statusesLocked : M (list Status) :=
  st ← gets sv_st;
  if st_Down st then mret []
  else
    statuses ← collect observe (st_Profiles st);
    mret (go_sort (less_key s_ProfileID) (omap (λ s, s) statuses)).

(** ** Preferences *)

Definition prefer_routes (profileID : string) : M unit :=
  runtimes ← gets sv_runtimes;
  match runtimes !! profileID with
  | None => mret tt
  | Some managed =>
    if s_RouteAll (m_status managed) then mret tt
    else if negb (String.eqb (s_BackendState (m_status managed)) "Running") then mret tt
    else
      match engine_SetRouteAll (m_Engine managed) with
      | None => fail (ERouteUnsupported profileID)
      | Some set =>
        ok ← ext set;
        if ok : bool then update_managed profileID (λ m, set_status (set_RouteAll true (m_status m)) m)
        else _ ← set_lastError profileID (ERouteFailed profileID); fail (ERouteFailed profileID)
      end
  end.
Definition setRoutePreferencesLocked : M unit :=
  ids ← runtime_ids;
  for_each prefer_routes ids.

(** The exit node a profile should use: identifier and address. *)
Definition wanted_exit (st : State) (profileID : string) : string * Addr :=
  match st_ExitNode st with
  | Some e => if String.eqb (en_ProfileID e) profileID then (en_NodeID e, en_PeerIP e) else ("", AddrInvalid)
  | None => ("", AddrInvalid)
  end.
Definition prefer_exit (current : gmap string string) (profileID : string) : M unit :=
  st ← gets sv_st;
  runtimes ← gets sv_runtimes;
  match runtimes !! profileID with
  | None => mret tt
  | Some managed =>
    let '(wantID, wantIP) := wanted_exit st profileID in
    if String.eqb (default "" (current !! profileID)) wantID then mret tt
    else if negb (String.eqb (s_BackendState (m_status managed)) "Running") then mret tt
    else
      match engine_SetExitNodeIP (m_Engine managed) with
      | None => if String.eqb wantID "" then mret tt else fail (EExitUnsupported profileID)
      | Some set =>
        ok ← ext (set wantIP);
        if ok : bool then mret tt
        else _ ← set_lastError profileID (EExitFailed profileID); fail (EExitFailed profileID)
      end
  end.
Definition setExitNodePreferencesLocked (statuses : list Status) : M unit :=
  let current := foldl (λ m s, <[s_ProfileID s := s_ExitNodeID s]> m) ∅ statuses in
  ids ← runtime_ids;
  for_each (prefer_exit current) ids.

(** ** Leases *)

Definition refreshLeases (statuses : list Status) : M unit := λ s,
  let '(w, env) := save_outcome (sv_ext s) in
  let fresh := m_fresh <$> sv_runtimes s in
  let '(fs, st, tracker, r) :=
    refreshLeasesLocked (λ st fs, Save path env fs st) fresh (sv_fs s) (sv_st s) (sv_activity s) statuses (time_Now (sv_ext s)) in
  let trace := if bool_decide (st = sv_st s) then sv_trace s else sv_trace s ++ [EvSave st] in
  (set_trace trace (set_st st (set_activity tracker (set_fs fs (set_ext w s)))),
   wrap ESupObservations r).

(** ** The resolver *)

Definition closeForwarders (forwarders : list Fw) : M unit := for_each (λ f, ext_ (forwarder_Close f)) forwarders.
Definition with_resolvers (route : DNSRoute) (resolvers : list Resolver) : DNSRoute :=
  MkDNSRoute (dr_Suffix route) (dr_ProfileID route) (dr_ProfileDNS route) resolvers.

(** An iteration over [cfg.Routes]: the routes so far, with the forwarders that
    were started; every error closes those. *)
Definition forward_route (s : list DNSRoute * list Fw) (route : DNSRoute) : M (list DNSRoute * list Fw) :=
  let '(routes, forwarders) := s in
  runtimes ← gets sv_runtimes;
  let abort e := _ ← closeForwarders forwarders; fail e in
  let started (forwarder : option Fw) :=
    match forwarder with
    | None => abort (EDNSForwarder (dr_ProfileID route))
    | Some forwarder => mret (routes ++ [with_resolvers route [forwarder_Resolver forwarder]], forwarders ++ [forwarder])
    end in
  if dr_ProfileDNS route then
    match runtimes !! dr_ProfileID route with
    | None => abort (EDNSProfile (dr_Suffix route) (dr_ProfileID route))
    | Some managed =>
      match StartProfileDNSForwarder (m_Engine managed) with
      | None => abort (EDNSNoResolver (dr_ProfileID route))
      | Some start => f ← ext start; started f
      end
    end
  else
    match dr_Resolvers route with
    | [] => mret (routes ++ [route], forwarders)
    | resolvers =>
      match runtimes !! dr_ProfileID route with
      | None => abort (EDNSProfile (dr_Suffix route) (dr_ProfileID route))
      | Some managed => f ← ext (StartForwarder (m_Engine managed) resolvers); started f
      end
    end.
Fixpoint forward_routes (s : list DNSRoute * list Fw) (routes : list DNSRoute) : M (list DNSRoute * list Fw) :=
  match routes with
  | [] => mret s
  | route :: routes => s ← forward_route s route; forward_routes s routes
  end.
Definition configureDNSLocked (cfg : LiveConfig) : M unit :=
  '(routes, nextForwarders) ← forward_routes ([], []) (lc_Routes cfg);
  let cfg := MkLiveConfig (lc_Domains cfg) (lc_Records cfg) routes (lc_SearchDomains cfg) in
  ok ← ext (dns_ConfigureFull cfg);
  if negb ok then _ ← closeForwarders nextForwarders; fail EDNSConfigure
  else
    old ← gets sv_forwarders;
    _ ← modify (set_forwarders nextForwarders);
    _ ← emit (EvDNS cfg);
    for_each (λ f, ext_ (forwarder_Retire f)) old.

(** ** Reconciliation *)

Definition publish_mapper (t : Table T) : M unit :=
  _ ← modify (set_mapper t);
  emit (EvMapper t).
Definition configure_host (c : HostConfig) : M unit :=
  ok ← ext (host_Configure c);
  _ ← fail_if (negb ok) EHostConfigure;
  emit (EvHost c).
Definition reconcile_tun (statuses : list Status) : M unit :=
  st ← gets sv_st;
  plan ← lift (wrap ESupPlan (buildTUNPlan (T:=T) (F:=F) CGNATRange TailscaleULARange ServiceIP st statuses));
  _ ← SetActivity (st_Leases (pl_State plan));
  _ ← publish_mapper (pl_Table plan);
  _ ← configure_host (pl_HostConfig plan);
  _ ← configureDNSLocked (pl_DNSConfig plan);
  _ ← modify (set_st (pl_State plan));
  _ ← modify (set_ipPolicy (pl_IPPolicy plan));
  modify (set_dnsPolicy (pl_DNSPolicy plan)).

(** What the SOCKS router is built from. *)
Definition socks_profiles (runtimes : gmap string (managedProfile E)) (statuses : list Status) : list (SocksProfile E) :=
  omap (λ status, managed ← runtimes !! s_ProfileID status;
                  Some (MkSocksProfile (s_ProfileID status) (s_MagicDNSSuffix status) (Some (m_Engine managed)))) statuses.
Definition subnet_routes (policy : IPPlan) (exitProfileID : string) : list SocksRouter.SubnetRoute :=
  ((λ e, SocksRouter.MkSubnetRoute (ie_Prefix e) (ie_ProfileID e) (ie_Active e) true) <$> ip_Exact policy) ++
  ((λ e, SocksRouter.MkSubnetRoute (ie_Prefix e) (ie_ProfileID e) (ie_Active e) false) <$> ip_Imported policy) ++
  (if negb (String.eqb exitProfileID "") then
     [SocksRouter.MkSubnetRoute (prefix.PrefixFrom addr.IPv4Unspecified 0) exitProfileID true false;
      SocksRouter.MkSubnetRoute (prefix.PrefixFrom addr.IPv6Unspecified 0) exitProfileID true false]
   else []).
Definition domain_routes (policy : DNSPlan) (exitProfileID : string) : list DomainRoute :=
  ((λ e, MkDomainRoute (de_Domain e) (de_ProfileID e) (de_Active e) true false) <$> dp_Exact policy) ++
  ((λ e, MkDomainRoute (de_Domain e) (de_ProfileID e) (de_Active e) false false) <$> dp_Imported policy) ++
  ((λ e, MkDomainRoute (de_Domain e) (de_ProfileID e) (de_Active e) false true) <$> dp_Automatic policy) ++
  (if negb (String.eqb exitProfileID "") then [MkDomainRoute "." exitProfileID true false true] else []).
Definition reconcile_socks (statuses : list Status) : M unit :=
  st ← gets sv_st;
  runtimes ← gets sv_runtimes;
  ipPolicy ← gets sv_ipPolicy;
  dnsPolicy ← gets sv_dnsPolicy;
  next ← lift (wrap ESupPool (ensureHostIPs ServiceIP (updateProfileMetadata st statuses)));
  '(active, all) ← lift (wrap ESupLease (assignEffectiveIPs next statuses));
  let next := set_Leases next (leasesToState all) in
  let exitProfileID := activeExitProfile st statuses in
  router ← lift (wrap ESupRouter (NewRouterWithPolicies (T:=T) (F:=F) (socks_profiles runtimes statuses) active
                                    (subnet_routes ipPolicy exitProfileID) (domain_routes dnsPolicy exitProfileID)));
  _ ← SetActivity (st_Leases next);
  _ ← modify (set_router (Some router));
  modify (set_st next).

Definition reconcile_body : M unit :=
  observedStatuses ← statusesLocked;
  st ← gets sv_st;
  _ ← modify (set_ipPolicy (BuildIP CGNATRange TailscaleULARange st observedStatuses));
  _ ← modify (set_dnsPolicy (BuildDNS (F:=F) st observedStatuses));
  _ ← setRoutePreferencesLocked;
  _ ← setExitNodePreferencesLocked observedStatuses;
  statuses ← statusesLocked;
  let statuses := usableStatuses statuses in
  _ ← refreshLeases statuses;
  _ ← (if tun_mode then reconcile_tun statuses else reconcile_socks statuses);
  st ← gets sv_st;
  _ ← SetActivity (st_Leases st);
  r ← store_Save st;
  lift (wrap ESupStore r).
(** The deferred function records the outcome. *)
Definition reconcileLocked : M unit := λ s,
  let '(s, r) := reconcile_body s in
  (set_reconcileErr (match r with Ok _ => None | Err e => Some e end) s, r).

(** ** Starting and stopping a profile *)

Definition tsnetConfig (configured : Profile) (authKeyEnv : string) (w : W) : result sup_error TSNetConfig :=
  let authKey := if negb (String.eqb authKeyEnv "") then Getenv authKeyEnv w else "" in
  _ ← guard_err (negb (String.eqb authKeyEnv "") && String.eqb authKey "") (EAuthKeyEnv (pr_ID configured) authKeyEnv);
  Ok (MkTSNetConfig (pr_ID configured) (pr_Alias configured) (pr_StateDir configured) (pr_Hostname configured) authKey
        (pr_MagicDNSSuffix configured)).
Definition with_AuthKey (c : TSNetConfig) (authKey : string) : TSNetConfig :=
  MkTSNetConfig (ts_ProfileID c) (ts_Alias c) (ts_Dir c) (ts_Hostname c) authKey (ts_MagicDNSSuffix c).
Definition new_engine (configured : Profile) (authKey authKeyEnv : string) (wireGuardTransition : bool) : M E :=
  if String.eqb (pr_Kind configured) "" || String.eqb (pr_Kind configured) ProfileKindTailscale then
    w ← gets sv_ext;
    cfg ← lift (tsnetConfig configured authKeyEnv w);
    let cfg := if negb (String.eqb authKey "") then with_AuthKey cfg authKey else cfg in
    ext (NewTSNetEngine cfg)
  else if String.eqb (pr_Kind configured) ProfileKindWireGuard then
    _ ← fail_if (negb tun_mode) EWireGuardMode;
    match pr_WireGuard configured with
    | None => fail ENoWireGuard
    | Some config =>
      secrets ← peek (readWireGuardSecrets (pr_StateDir configured) (pr_WireGuardSecretFile configured));
      match secrets with
      | None => fail EWireGuardSecrets
      | Some secrets => ext (NewWireGuardEngine configured config secrets wireGuardTransition)
      end
    end
  else fail (EBadKind (pr_Kind configured)).

Definition startProfileLockedWithWireGuardTransition (configured : Profile) (authKey authKeyEnv : string)
    (wireGuardTransition : bool) : M unit :=
  let profileID := pr_ID configured in
  runtimes ← gets sv_runtimes;
  match runtimes !! profileID with
  | Some _ => mret tt
  | None =>
    engine ← new_engine configured authKey authKeyEnv wireGuardTransition;
    let undo (e : sup_error) :=
      _ ← modify (λ s, set_runtimes (delete profileID (sv_runtimes s)) s);
      _ ← ext (engine_Close engine);
      fail (A:=unit) e in
    ok ← ext (engine_Start engine);
    if negb ok then _ ← ext (engine_Close engine); fail EEngineStart
    else
      _ ← modify (λ s, set_runtimes (<[profileID := MkManaged configured engine zero_status false]> (sv_runtimes s)) s);
      ok ← (if tun_mode then ext (mux_AddProfile profileID) else mret true);
      if negb ok then undo (EMuxAdd profileID)
      else
        ok ← (if engine_LocalAPI engine then ext (api_Start profileID engine) else mret true);
        if negb ok then
          _ ← (if tun_mode then ext_ (mux_RemoveProfile profileID) else mret tt);
          undo (EProfileAPI profileID)
        else
          status ← ext (engine_Status engine);
          match status with
          | Some status => _ ← update_managed profileID (set_status status); clear_lastError profileID
          | None => set_lastError profileID (EEngineStatus profileID)
          end
  end.
Definition startProfileLocked (configured : Profile) (authKey authKeyEnv : string) : M unit :=
  startProfileLockedWithWireGuardTransition configured authKey authKeyEnv false.

Definition stopProfileLocked (profileID : string) : M bool :=
  runtimes ← gets sv_runtimes;
  match runtimes !! profileID with
  | None => mret true
  | Some managed =>
    _ ← modify (λ s, set_runtimes (delete profileID (sv_runtimes s)) s);
    _ ← (if tun_mode then ext_ (mux_RemoveProfile profileID) else mret tt);
    api ← ext (api_Stop profileID);
    engine ← ext (engine_Close (m_Engine managed));
    mret (api && engine)
  end.
End supervisor.
