(* ===== verification/Rig.v ===== *)
(** * A supervisor for examples

    The states the examples go through, a codec that knows them, and the
    supervisor of the first one in the world of [RigWorld]. *)

From S2P Require Import Prelude Effects GoStrings FilePath Netip RoutingTable PacketMap DNSName WireGuardKey PacketFilterCfg WireGuardCfg State Types HostPools ProfileSpec LeasePlan RoutingPolicy TUNTable TUNDNS TUNPlan SocksRouter PolicyPatch Runtime RigWorld WireGuardSecrets Supervisor.
Local Open Scope Z_scope.

(** The states of the examples: those the daemon starts from, plain or with the
    defaults a start adds, those it has once both profiles report, and each of
    them with the first profile disabled or the daemon down. *)
Definition planned (st : State) : State :=
  match buildTUNPlan (T:=PrefixMap) (F:=Labels) test_cgnat test_ula service_ip st corp_statuses with Ok p => pl_State p | Err _ => zero_state end.
Definition rig_path : string := "/var/lib/tailmix/state.json".
Definition started_corp : State :=
  match startup service_ip corp_state "" "" [] rig_path with Ok r => r.1 | Err _ => zero_state end.
Definition first_disabled (st : State) : State :=
  set_Profiles st (match st_Profiles st with
    | p :: ps => MkProfile (pr_ID p) (pr_Name p) (pr_Alias p) (pr_Kind p) (pr_StateDir p) (pr_Hostname p) (pr_MagicDNSSuffix p) true
                   (pr_Removed p) (pr_AcceptAllRoutes p) (pr_AcceptAllDNSRoutes p) (pr_WireGuard p) (pr_WireGuardSecretFile p)
                   (pr_WireGuardShieldsUp p) :: ps
    | [] => [] end).
Definition down (st : State) : State :=
  MkState true (st_SyntheticPool st) (st_SyntheticPoolV6 st) (st_NATIP st) (st_NATIPv6 st) (st_DNSIP st) (st_Profiles st) (st_Leases st)
    (st_IPRouteBindings st) (st_DNSRouteBindings st) (st_SearchDomains st) (st_ExitNode st) (st_Updates st).
(** A WireGuard profile that is added to the first of them, before and after the
    reconciliation, with no profile reporting. *)
Definition wg_config : Config :=
  MkConfig 1 "vpn" "vpn.example" [Addr4 167772161] 0 (MkFilter [])
    [MkPeer "nas" (2 :: repeat 0 31) false "" 0 [Addr4 167772162] [] false].
Definition wg_profile : Profile :=
  MkProfile "p_0000000000000000" "vpn" "" ProfileKindWireGuard "/var/lib/tailmix/profiles/p_0000000000000000" "" "vpn.example"
    false false false false (Some wg_config) "wireguard-secrets-0000000000000000.json" false.
Definition wg_state : State := set_Profiles corp_state [corp_profile "home"; wg_profile; corp_profile "work"].
Definition wg_planned : State :=
  match buildTUNPlan (T:=PrefixMap) (F:=Labels) test_cgnat test_ula service_ip wg_state [] with Ok p => pl_State p | Err _ => zero_state end.
Definition rig_states : list State :=
  let base := [corp_state; planned corp_state; started_corp; planned started_corp] in
  base ++ (first_disabled <$> base) ++ (down <$> base) ++ [wg_state; wg_planned].
#[export] Instance rig_codec : StateJSON := { MarshalIndent := position rig_states; Unmarshal := at_position rig_states }.
#[export] Instance rig_codec_laws : StateJSONLaws.
Proof. split. intros st b _. apply position_found. Qed.

Definition rig_fs : gmap string string := {[ rig_path := NEWLINE ]}.
Definition rig_supervisor (ops : list string) : supervisor (T:=PrefixMap) (E:=string) (Fw:=unit) (W:=world) :=
  newSupervisor corp_state rig_fs (failing ops).
