(* ===== verification/SupervisorFacts.v ===== *)
(** * Facts about the supervisor

    What a reconciliation keeps and what it publishes: the phases that only
    observe leave the state, the files and the published tables alone; the
    packet policy is in force before the host routes that rely on it, and those
    before the resolver; the state stays in normal form with leases that
    identify targets. *)

From S2P Require Import Prelude Effects GoStrings Netip RoutingTable PacketMap EffectiveIP Activity DNSName WireGuardCfg State Types HostPools ProfileSpec LeasePlan RoutingPolicy TUNTable TUNTableFacts DNSPolicy TUNDNS TUNPlan SocksRouter PolicyPatch ExitNodes Runtime RigWorld WireGuardSecrets Supervisor Rig.
Local Open Scope Z_scope.

Section facts.
Context {T : Type → Type} `{LT : LPM T, !LPMLaws T} {F : Type} `{DN : DNSName F, !DNSNameLaws F} `{SJ : StateJSON, SJL : !StateJSONLaws}.
Context {E Fw W : Type} `{RT : Runtime E Fw W, !RuntimeLaws E Fw W}.
Context (CGNATRange TailscaleULARange : Prefix) (ServiceIP : Addr) (path : string) (tun_mode : bool).
Local Notation supervisor := (supervisor (T:=T) (E:=E) (Fw:=Fw) (W:=W)).
Local Notation M := (stm supervisor sup_error).
Local Notation statusesLocked := (statusesLocked (T:=T) (E:=E) (Fw:=Fw) (W:=W)).
Local Notation reconcile_tun := (reconcile_tun (T:=T) (F:=F) CGNATRange TailscaleULARange ServiceIP).
Local Notation reconcile_socks := (reconcile_socks (T:=T) (F:=F) ServiceIP).
Local Notation reconcile_body := (reconcile_body (T:=T) (F:=F) CGNATRange TailscaleULARange ServiceIP path tun_mode).
Local Notation reconcileLocked := (reconcileLocked (T:=T) (F:=F) CGNATRange TailscaleULARange ServiceIP path tun_mode).

(** ** Phases that only observe *)

(** The runtimes are the same engines for the same profiles. *)
Definition same_runtimes (r r' : gmap string (managedProfile E)) : Prop :=
  (λ m, (m_State m, m_Engine m)) <$> r = (λ m, (m_State m, m_Engine m)) <$> r'.
Record observes (s s' : supervisor) : Prop := {
  ob_st : sv_st s' = sv_st s;
  ob_fs : sv_fs s' = sv_fs s;
  ob_mapper : sv_mapper s' = sv_mapper s;
  ob_forwarders : sv_forwarders s' = sv_forwarders s;
  ob_router : sv_router s' = sv_router s;
  ob_activity : sv_activity s' = sv_activity s;
  ob_trace : sv_trace s' = sv_trace s;
  ob_runtimes : same_runtimes (sv_runtimes s) (sv_runtimes s') }.
#[export] Instance observes_preorder : PreOrder observes.
Proof using.
  split; [by intros s|]. intros s1 s2 s3 [] []. split; unfold same_runtimes in *; congruence.
Qed.

Lemma ext_observes {A} (f : W → W * A) : respects observes (ext f : M A).
Proof using. intros s. unfold ext. by destruct (f (sv_ext s)). Qed.
Lemma ext__observes f : respects observes (ext_ f : M unit).
Proof using. by apply respects_modify. Qed.
Lemma update_managed_observes k f : (∀ m, m_State (f m) = m_State m ∧ m_Engine (f m) = m_Engine m) →
  respects observes (update_managed k f : M unit).
Proof using.
  intros Hf. apply respects_modify. intros s. split; try done. unfold same_runtimes. cbn [sv_runtimes set_runtimes].
  apply map_eq. intros i. rewrite !lookup_fmap. destruct (decide (i = k)) as [->|Hne].
  - rewrite lookup_alter_eq. destruct (sv_runtimes s !! k) as [m|]; [|done]. cbn. destruct (Hf m) as [-> ->]. done.
  - by rewrite lookup_alter_ne.
Qed.
Lemma set_lastError_observes k e : respects observes (set_lastError k e : M unit).
Proof using. by apply respects_modify. Qed.
Lemma clear_lastError_observes k : respects observes (clear_lastError k : M unit).
Proof using. by apply respects_modify. Qed.
Lemma closeForwarders_observes l : respects observes (closeForwarders l : M unit).
Proof using. unfold closeForwarders. respects_go. apply ext__observes. Qed.

Local Ltac observe_go := repeat (respects_step || match goal with
  | |- respects observes (ext _) => apply ext_observes
  | |- respects observes (ext_ _) => apply ext__observes
  | |- respects observes (peek _) => apply (respects_gets _)
  | |- respects observes (update_managed _ _) => apply update_managed_observes; done
  | |- respects observes (set_lastError _ _) => apply set_lastError_observes
  | |- respects observes (clear_lastError _) => apply clear_lastError_observes
  | |- respects observes (closeForwarders _) => apply closeForwarders_observes
  end).

Lemma observe_observes p : respects observes (observe p : M (option Status)).
Proof using. unfold observe. cbv zeta. observe_go. Qed.
Lemma statusesLocked_observes : respects observes statusesLocked.
Proof using. unfold Supervisor.statusesLocked. observe_go. apply observe_observes. Qed.
Lemma setRoutePreferencesLocked_observes : respects observes (setRoutePreferencesLocked : M unit).
Proof using. unfold setRoutePreferencesLocked, runtime_ids, prefer_routes. observe_go. Qed.
Lemma setExitNodePreferencesLocked_observes statuses : respects observes (setExitNodePreferencesLocked statuses : M unit).
Proof using. unfold setExitNodePreferencesLocked, runtime_ids, prefer_exit. observe_go. Qed.
Lemma forward_route_observes s r : respects observes (forward_route s r : M _).
Proof using. unfold forward_route. cbv zeta. observe_go. Qed.
Lemma forward_routes_observes s rs : respects observes (forward_routes s rs : M _).
Proof using.
  revert s. induction rs as [|r rs IH]; intros s; cbn [forward_routes]; respects_go; [apply forward_route_observes|apply IH].
Qed.

(** ** The state stays in normal form *)

(** A profile that [validateProfiles] accepts as it is. *)
Definition valid_profile (p : Profile) : Prop := validateProfile p = Ok p.
Record st_ok (pool : bool → Prefix) (st : State) : Prop := {
  so_policy : policy_ok (F:=F) st;
  so_valid : Forall valid_profile (st_Profiles st);
  so_pools : pools_ok ServiceIP st pool;
  so_leases : leases_unique (leasesFromState (st_Leases st)) }.

(** Saving such a state writes it as it is: what [Save] normalizes in place
    through the slices it shares with its caller does not change. *)
Lemma valid_profiles st : Forall valid_profile (st_Profiles st) → validateProfiles st = Ok st.
Proof using.
  intros Hv. unfold validateProfiles. enough (imapM (λ _ p, validateProfile p) (st_Profiles st) = Ok (st_Profiles st)) as ->.
  { by destruct st. }
  unfold imapM. generalize 0%nat. induction Hv as [|p ps Hp Hv IH]; intros i; simpl; [done|]. rewrite Hp. simpl. by rewrite IH.
Qed.
Lemma saved_as_is st : policy_ok (F:=F) st → Forall valid_profile (st_Profiles st) → validateProfiles (Normalize (F:=F) st) = Ok st.
Proof using. intros [_ -> _] Hv. by apply valid_profiles. Qed.
Lemma valid_suffix p x : valid_profile p → valid_profile (set_suffix p x).
Proof using.
  unfold valid_profile, validateProfile. destruct p as [id nm al ki sd hn sx di re ar ad wg sf su]. cbn. intros Hp.
  destruct (String.eqb ki ProfileKindTailscale). { by destruct (_ || _). }
  destruct (String.eqb ki ProfileKindWireGuard); [|done]. destruct wg as [c|]; [|done].
  ok_inv Hp as c' Hc. ok_guard Hp as Hn. ok_guard Hp as Hs. ok_guard Hp as Hb. rewrite Hc. cbn. rewrite Hn, Hs, Hb. cbn.
  unfold set_WireGuard in Hp. cbn in Hp. by simplify_eq.
Qed.

(** The part of a state in normal form that a plan may change. *)
Lemma policy_ok_ext st st' : policy_ok (F:=F) st → st_IPRouteBindings st' = st_IPRouteBindings st →
  st_DNSRouteBindings st' = st_DNSRouteBindings st → st_SearchDomains st' = st_SearchDomains st →
  normalize_exit (st_ExitNode st') = st_ExitNode st' → profiles_normal (st_Profiles st') →
  (∀ p, p ∈ st_Profiles st' → pr_ID p ≠ "") → policy_ok (F:=F) st'.
Proof using.
  intros [[W1 W2 W3] Hn _] E1 E2 E3 E4 Hp Hi. apply normal_iff in Hn as [_ N1 N2 N3 _].
  split; [split; congruence| |done]. apply normal_iff. split; congruence.
Qed.
Lemma set_Leases_ok st ls : policy_ok (F:=F) st → policy_ok (F:=F) (set_Leases st ls).
Proof using.
  intros Hst. pose proof (proj1 (normal_iff st) (ok_normal _ Hst)) as [? _ _ _ ?].
  apply (policy_ok_ext st); try done. apply Hst.
Qed.
Lemma update_suffix_keeps m p : pr_ID (update_suffix m p) = pr_ID p ∧
  (default_profile p = p → default_profile (update_suffix m p) = update_suffix m p).
Proof using.
  unfold update_suffix. destruct (m !! pr_ID p) as [s|]; [|done]. destruct (negb _); [|done].
  split; [done|]. destruct p. unfold default_profile, set_suffix. cbn. intros E0. injection E0. congruence.
Qed.
Lemma map_profiles_normal (f : Profile → Profile) ps :
  (∀ p, pr_ID (f p) = pr_ID p ∧ (default_profile p = p → default_profile (f p) = f p)) →
  profiles_normal ps → profiles_normal (f <$> ps).
Proof using.
  intros Hf [Hd Hs]. split.
  - apply Forall_fmap. eapply Forall_impl; [exact Hd|]. intros p Hp. by apply Hf.
  - apply (StronglySorted_key pr_ID). rewrite <-list_fmap_compose.
    rewrite (list_fmap_ext _ pr_ID); [by apply (StronglySorted_key pr_ID)|]. intros _ p _. apply Hf.
Qed.
Lemma updateProfileMetadata_ok st statuses : policy_ok (F:=F) st → policy_ok (F:=F) (updateProfileMetadata st statuses).
Proof using.
  intros Hst. pose proof (proj1 (normal_iff st) (ok_normal _ Hst)) as [? _ _ _ ?].
  apply (policy_ok_ext st); try done.
  - apply map_profiles_normal; [apply update_suffix_keeps|done].
  - intros p (q & -> & Hq)%list_elem_of_fmap. rewrite (proj1 (update_suffix_keeps _ q)). by apply Hst.
Qed.
Lemma updateProfileMetadata_valid st statuses : Forall valid_profile (st_Profiles st) →
  Forall valid_profile (st_Profiles (updateProfileMetadata st statuses)).
Proof using.
  intros Hv. apply Forall_fmap. eapply Forall_impl; [exact Hv|]. intros p Hp. cbn. unfold update_suffix.
  destruct (_ !! pr_ID p) as [x|]; [|done]. destruct (negb _); [by apply valid_suffix|done].
Qed.
Lemma pools_ext pool st st' : st_SyntheticPool st' = st_SyntheticPool st → st_SyntheticPoolV6 st' = st_SyntheticPoolV6 st →
  pools_ok ServiceIP st pool → pools_ok ServiceIP st' pool.
Proof using. intros E4 E6 Hp ipv6. destruct (Hp ipv6) as [? Ht]. split; [done|]. destruct ipv6; cbn in *; congruence. Qed.

(** The common core of a plan in both modes: daemon addresses and leases. *)
Lemma settle_ok pool st statuses st1 active all : st_ok pool st → Forall (λ s, s_ProfileID s ≠ "") statuses →
  ensureHostIPs ServiceIP (updateProfileMetadata st statuses) = Ok st1 → assignEffectiveIPs st1 statuses = Ok (active, all) →
  st_ok pool (set_Leases st1 (leasesToState all)).
Proof using.
  intros [Hpol Hval Hpools Hu] Hids He Ha.
  assert (Hpm : pools_ok ServiceIP (updateProfileMetadata st statuses) pool) by (by apply (pools_ext pool st)).
  destruct (ensure_steps ServiceIP pool _ _ Hpm He) as (a & b & c & Est & _).
  assert (Hu1 : leases_unique (leasesFromState (st_Leases st1))) by (by rewrite Est).
  pose proof (assign_plan _ _ _ _ Hu1 Ha) as Hlp. split.
  - apply set_Leases_ok. rewrite Est. pose proof (updateProfileMetadata_ok st statuses Hpol) as Hok.
    pose proof (proj1 (normal_iff _) (ok_normal _ Hok)) as [? _ _ _ ?].
    apply (policy_ok_ext (updateProfileMetadata st statuses)); try done. apply Hok.
  - rewrite Est. by apply (updateProfileMetadata_valid st statuses).
  - apply (pools_ext pool (updateProfileMetadata st statuses)); [by rewrite Est..|done].
  - cbn [st_Leases set_Leases]. rewrite (plan_roundtrip _ _ _ _ Hids Hlp). apply (lp_unique _ _ _ _ Hlp).
Qed.
Lemma plan_ok pool st statuses p : st_ok pool st → Forall (λ s, s_ProfileID s ≠ "") statuses →
  buildTUNPlan (T:=T) (F:=F) CGNATRange TailscaleULARange ServiceIP st statuses = Ok p → st_ok pool (pl_State p).
Proof using.
  intros Hst Hids (st1 & all & Hplan)%plan_steps. rewrite (pn_state _ _ _ _ _ _ _ _ Hplan).
  eapply settle_ok; [done|done|apply (pn_hosts _ _ _ _ _ _ _ _ Hplan)|apply (pn_leases _ _ _ _ _ _ _ _ Hplan)].
Qed.

(** ** Statuses *)

Definition identified (statuses : list Status) : Prop := Forall (λ s, s_ProfileID s ≠ "") statuses.
Lemma observe_identified p s : wp (observe p : M _) (λ r _, match r with Ok (Some status) => s_ProfileID status ≠ "" | _ => True end) s.
Proof using.
  unfold observe. cbv zeta. destruct (_ || _); [done|]. apply wp_bind, wp_gets. destruct (sv_runtimes s !! pr_ID p) as [m|]; [|done].
  apply wp_bind, wp_any. intros [r|e] s1; [|done]. apply wp_bind, wp_any. intros [status|e] s2; [|done]. apply wp_ret.
  destruct (String.eqb_spec (s_ProfileID status) ""); cbn; done.
Qed.
Lemma collect_observe ps s : wp (collect observe ps : M _) (λ r _, match r with
  | Ok l => Forall (λ o, match o with Some status => s_ProfileID status ≠ "" | None => True end) l | Err _ => True end) s.
Proof using.
  revert s. induction ps as [|p ps IH]; intros s; cbn [collect]; [constructor|].
  apply wp_bind. eapply wp_mono; [apply observe_identified|]. intros [o|e] s1 Ho; [|done].
  apply wp_bind. eapply wp_mono; [apply IH|]. intros [l|e] s2 Hl; [|done]. by constructor.
Qed.
Lemma statusesLocked_identified s : wp statusesLocked (λ r _, match r with Ok l => identified l | Err _ => True end) s.
Proof using.
  unfold Supervisor.statusesLocked. apply wp_bind, wp_gets. destruct (st_Down _); [constructor|].
  apply wp_bind. eapply wp_mono; [apply collect_observe|]. intros [l|e] s1 Hl; [|done]. apply wp_ret.
  unfold identified. rewrite go_sort_Permutation. apply Forall_forall. intros x (o & Ho & ->)%list_elem_of_omap.
  rewrite Forall_forall in Hl. by apply (Hl (Some x)).
Qed.
Lemma usable_identified l : identified l → identified (usableStatuses l).
Proof using.
  unfold identified. rewrite !Forall_forall. intros Hl x [_ Hx]%list_elem_of_filter. auto.
Qed.

(** ** What is published *)

(** The forwarder of a route belongs to the profile of the route. *)
Definition started_by (e : E) (f : Fw) : Prop :=
  (∃ start w w', StartProfileDNSForwarder e = Some start ∧ start w = (w', Some f)) ∨
  (∃ rs w w', StartForwarder e rs w = (w', Some f)).
(** A route as the resolver gets it: without resolvers, or with the address of
    one forwarder of its own profile, never a resolver a profile reported. *)
Definition scoped_route (runtimes : gmap string (managedProfile E)) (r r' : DNSRoute) : Prop :=
  dr_Suffix r' = dr_Suffix r ∧ dr_ProfileID r' = dr_ProfileID r ∧ dr_ProfileDNS r' = dr_ProfileDNS r ∧
  (dr_Resolvers r' = [] ∧ dr_Resolvers r = [] ∧ dr_ProfileDNS r = false ∨
   ∃ m f, runtimes !! dr_ProfileID r = Some m ∧ started_by (m_Engine m) f ∧ dr_Resolvers r' = [forwarder_Resolver f]).
Record forwarded (runtimes : gmap string (managedProfile E)) (c c' : LiveConfig) : Prop := {
  fw_domains : lc_Domains c' = lc_Domains c;
  fw_records : lc_Records c' = lc_Records c;
  fw_search : lc_SearchDomains c' = lc_SearchDomains c;
  fw_routes : Forall2 (scoped_route runtimes) (lc_Routes c) (lc_Routes c') }.
Lemma same_runtimes_lookup r r' k m : same_runtimes r r' → r' !! k = Some m → ∃ m', r !! k = Some m' ∧ m_Engine m' = m_Engine m.
Proof using.
  intros Hs Hk. apply (f_equal (.!! k)) in Hs. rewrite !lookup_fmap, Hk in Hs.
  destruct (r !! k) as [m'|]; [|done]. injection Hs as _ ?. by exists m'.
Qed.
Lemma scoped_same r r' a b : same_runtimes r r' → scoped_route r' a b → scoped_route r a b.
Proof using.
  intros Hs (? & ? & ? & Hr). split_and!; [done..|]. destruct Hr as [?|(m & f & Hm & Hf & ?)]; [by left|right].
  destruct (same_runtimes_lookup _ _ _ _ Hs Hm) as (m' & Hm' & He). exists m', f. by rewrite He.
Qed.

Lemma forward_route_scoped st r s : wp (forward_route st r : M _) (λ res s', match res with
  | Ok st' => observes s s' ∧ ∃ r', st'.1 = st.1 ++ [r'] ∧ scoped_route (sv_runtimes s) r r' | Err _ => True end) s.
Proof using.
  destruct st as [routes fws]. unfold forward_route. cbv zeta. apply wp_bind, wp_gets.
  assert (Habort : ∀ e (Q : result sup_error (list DNSRoute * list Fw) → supervisor → Prop) s1, (∀ s2 e', Q (Err e') s2) →
    wp ((_ ← closeForwarders fws; fail e) : M _) Q s1).
  { intros e Q s1 HQ. apply wp_bind, wp_any. intros [u|e'] s2; [apply HQ|apply HQ]. }
  assert (Hrun : ∀ (g : W → W * option Fw) m, sv_runtimes s !! dr_ProfileID r = Some m →
    (∀ w w' f, g w = (w', Some f) → started_by (m_Engine m) f) →
    wp ((f ← ext g; match f with
       | None => _ ← closeForwarders fws; fail (EDNSForwarder (dr_ProfileID r))
       | Some f => mret (routes ++ [with_resolvers r [forwarder_Resolver f]], fws ++ [f]) end) : M _)
      (λ res s', match res with
       | Ok st' => observes s s' ∧ ∃ r', st'.1 = (routes, fws).1 ++ [r'] ∧ scoped_route (sv_runtimes s) r r' | Err _ => True end) s).
  { intros g m Hm Hg. apply wp_bind. unfold wp at 1, ext. destruct (g (sv_ext s)) as [w' [f|]] eqn:Eg; cbn [fst snd].
    - apply wp_ret. split; [done|]. exists (with_resolvers r [forwarder_Resolver f]). split; [done|].
      split_and!; [done..|]. right. exists m, f. split_and!; [done|by eapply Hg|done].
    - by apply Habort. }
  destruct (dr_ProfileDNS r) eqn:Ed.
  - destruct (sv_runtimes s !! dr_ProfileID r) as [m|] eqn:Em; [|by apply Habort].
    destruct (StartProfileDNSForwarder (m_Engine m)) as [start|] eqn:Es; [|by apply Habort].
    apply (Hrun start m eq_refl). intros w w' f Hf. left. by exists start, w, w'.
  - destruct (dr_Resolvers r) as [|x rs] eqn:Er.
    + apply wp_ret. split; [done|]. exists r. split; [done|]. split_and!; [done..|]. by left.
    + destruct (sv_runtimes s !! dr_ProfileID r) as [m|] eqn:Em; [|by apply Habort].
      apply (Hrun _ m eq_refl). intros w w' f Hf. right. by exists (x :: rs), w, w'.
Qed.
Lemma forward_routes_scoped rs st s : wp (forward_routes st rs : M _) (λ res s', match res with
  | Ok st' => ∃ rs', st'.1 = st.1 ++ rs' ∧ Forall2 (scoped_route (sv_runtimes s)) rs rs' | Err _ => True end) s.
Proof using.
  revert st s. induction rs as [|r rs IH]; intros st s; cbn [forward_routes].
  { apply wp_ret. exists []. split; [by rewrite app_nil_r|constructor]. }
  apply wp_bind. eapply wp_mono; [apply forward_route_scoped|]. intros [st1|e] s1; [|done].
  intros (Hob & r' & E1 & Hr'). eapply wp_mono; [apply IH|]. intros [st2|e] s2; [|done].
  intros (rs' & E2 & Hrs'). exists (r' :: rs'). rewrite E2, E1, <-app_assoc. split; [done|]. constructor; [done|].
  eapply Forall2_impl; [exact Hrs'|]. intros a b. apply scoped_same, Hob.
Qed.


(** ** Reconciliation *)

Definition pool_plan := tunPlan T.
(** A plan made from a state in normal form. *)
Definition built (pool : bool → Prefix) (p : tunPlan T) : Prop :=
  ∃ st statuses, st_ok pool st ∧ identified statuses ∧
    buildTUNPlan (T:=T) (F:=F) CGNATRange TailscaleULARange ServiceIP st statuses = Ok p.
(** What a reconciliation publishes of a plan, up to where it fails. *)
Inductive partial_block (runtimes : gmap string (managedProfile E)) (p : tunPlan T) : list (event T) → Prop :=
  | block_mapper : partial_block runtimes p [EvMapper (pl_Table p)]
  | block_host : partial_block runtimes p [EvMapper (pl_Table p); EvHost (pl_HostConfig p)]
  | block_dns cfg : forwarded runtimes (pl_DNSConfig p) cfg →
      partial_block runtimes p [EvMapper (pl_Table p); EvHost (pl_HostConfig p); EvDNS cfg].
Inductive published (pool : bool → Prefix) : list (event T) → Prop :=
  | pub_nil : published pool []
  | pub_save tr st : published pool tr → published pool (tr ++ [EvSave st])
  | pub_block tr runtimes p evs : published pool tr → built pool p → partial_block runtimes p evs → published pool (tr ++ evs).

Record quiet (s s' : supervisor) : Prop := {
  qu_st : sv_st s' = sv_st s;
  qu_fs : sv_fs s' = sv_fs s;
  qu_mapper : sv_mapper s' = sv_mapper s;
  qu_router : sv_router s' = sv_router s;
  qu_runtimes : same_runtimes (sv_runtimes s) (sv_runtimes s') }.
#[export] Instance quiet_preorder : PreOrder quiet.
Proof using. split; [by intros s|]. intros s1 s2 s3 [] []. split; unfold same_runtimes in *; congruence. Qed.
Lemma observes_quiet s s' : observes s s' → quiet s s'.
Proof using. by intros []. Qed.

Lemma configureDNSLocked_spec cfg s : wp (configureDNSLocked cfg : M unit) (λ r s', quiet s s' ∧
  match r with
  | Ok _ => ∃ cfg', forwarded (sv_runtimes s) cfg cfg' ∧ sv_trace s' = sv_trace s ++ [EvDNS cfg']
  | Err _ => sv_trace s' = sv_trace s
  end) s.
Proof using.
  unfold configureDNSLocked. apply wp_bind.
  eapply (wp_frame observes); [apply forward_routes_observes|apply (forward_routes_scoped _ ([], []))|].
  intros [[rs fws]|e] s1 Hob; [|by intros _; split; [apply observes_quiet|apply Hob]].
  intros (rs' & Ers & Hrs). cbn [app fst] in Ers. subst rs'. apply wp_bind.
  apply (wp_respects observes); [apply ext_observes|]. intros [ok|e] s2 Hob2.
  2:{ split; [apply observes_quiet; by etrans|by rewrite (ob_trace _ _ Hob2), (ob_trace _ _ Hob)]. }
  destruct ok; cbn [negb].
  - apply wp_bind, wp_gets, wp_bind, wp_modify, wp_bind, wp_modify. apply wp_never_fails.
    { apply never_fails_for_each. by intros f s3. }
    apply (wp_respects observes); [respects_go; apply ext__observes|]. intros r s4 Hob4 u ->. split.
    + etrans; [apply observes_quiet; etrans; [exact Hob|exact Hob2]|]. etrans; [|apply observes_quiet; exact Hob4]. by split.
    + eexists. split; [|rewrite (ob_trace _ _ Hob4); cbn; by rewrite (ob_trace _ _ Hob2), (ob_trace _ _ Hob)]. by split.
  - apply wp_bind. apply (wp_respects observes); [apply closeForwarders_observes|]. intros r s3 Hob3.
    assert (Hob' : observes s s3) by (etrans; [exact Hob|]; etrans; [exact Hob2|exact Hob3]).
    destruct r as [u|e]; [apply wp_fail|]; (split; [by apply observes_quiet|by rewrite (ob_trace _ _ Hob')]).
Qed.

(** Steps that touch neither the state, the files nor what is published. *)
Lemma SetActivity_spec ls s : wp (SetActivity ls : M unit) (λ r s', r = Ok tt ∧ quiet s s' ∧ sv_trace s' = sv_trace s) s.
Proof using. unfold SetActivity. apply wp_modify. split_and!; [done| |done]. by split. Qed.
Lemma host_spec c s : wp (configure_host c : M unit) (λ r s', quiet s s' ∧
  match r with Ok _ => sv_trace s' = sv_trace s ++ [EvHost c] | Err _ => sv_trace s' = sv_trace s end) s.
Proof using.
  unfold configure_host. apply wp_bind, (wp_respects observes); [apply ext_observes|]. intros [ok|e] s1 Hob.
  2:{ split; [by apply observes_quiet|apply Hob]. }
  apply wp_bind, wp_fail_if; intros _; [split; [by apply observes_quiet|apply Hob]|]. unfold emit. apply wp_modify. split.
  - etrans; [apply observes_quiet; exact Hob|]. by split.
  - cbn. by rewrite (ob_trace _ _ Hob).
Qed.

(** The fields a step of the reconciliation leaves alone in any case. *)
Record steady (s s' : supervisor) : Prop := {
  sd_fs : sv_fs s' = sv_fs s;
  sd_runtimes : same_runtimes (sv_runtimes s) (sv_runtimes s') }.
Lemma quiet_steady s s' : quiet s s' → steady s s'.
Proof using. by intros []. Qed.
#[export] Instance steady_preorder : PreOrder steady.
Proof using. split; [by intros s|]. intros s1 s2 s3 [] []. split; unfold same_runtimes in *; congruence. Qed.

Definition tun_outcome (s s' : supervisor) (statuses : list Status) (r : result sup_error unit) : Prop :=
  match buildTUNPlan (T:=T) (F:=F) CGNATRange TailscaleULARange ServiceIP (sv_st s) statuses with
  | Err e => r = Err (ESupPlan e) ∧ sv_st s' = sv_st s ∧ sv_mapper s' = sv_mapper s ∧ sv_trace s' = sv_trace s
  | Ok p => sv_mapper s' = pl_Table p ∧ ∃ evs, partial_block (sv_runtimes s) p evs ∧ sv_trace s' = sv_trace s ++ evs ∧
      match r with
      | Ok _ => sv_st s' = pl_State p ∧ sv_ipPolicy s' = pl_IPPolicy p ∧ sv_dnsPolicy s' = pl_DNSPolicy p ∧ length evs = 3%nat
      | Err _ => sv_st s' = sv_st s
      end
  end.
Lemma reconcile_tun_spec statuses s :
  wp (reconcile_tun statuses : M unit) (λ r s', steady s s' ∧ sv_router s' = sv_router s ∧ tun_outcome s s' statuses r) s.
Proof using.
  unfold Supervisor.reconcile_tun. apply wp_bind, wp_gets, wp_bind, wp_lift. unfold tun_outcome.
  destruct (buildTUNPlan _ _ _ _ statuses) as [p|e]; cbn [wrap]; [|done].
  apply wp_bind. eapply wp_mono; [apply SetActivity_spec|]. intros r s1 (-> & Hq1 & Ht1).
  apply wp_bind. unfold publish_mapper, emit. apply wp_bind, wp_modify, wp_modify.
  set (s2 := set_trace _ _). assert (Hs2 : steady s s2) by (etrans; [by apply quiet_steady|by split]).
  assert (Ht2 : sv_trace s2 = sv_trace s ++ [EvMapper (pl_Table p)]) by (unfold s2; cbn; by rewrite Ht1).
  assert (Hst2 : sv_st s2 = sv_st s) by apply Hq1. assert (Hr2 : sv_router s2 = sv_router s) by apply Hq1.
  assert (Hm2 : sv_mapper s2 = pl_Table p) by done. clearbody s2.
  apply wp_bind. eapply wp_mono; [apply host_spec|]. intros [u|e] s3 [Hq3 Ht3].
  2:{ split_and!; [etrans; [exact Hs2|by apply quiet_steady]|by rewrite (qu_router _ _ Hq3)|by rewrite (qu_mapper _ _ Hq3)|].
      eexists. split_and!; [apply block_mapper|by rewrite Ht3|by rewrite (qu_st _ _ Hq3)]. }
  apply wp_bind. eapply wp_mono; [apply configureDNSLocked_spec|]. intros r s4 [Hq4 Ht4].
  assert (Hq : quiet s2 s4) by (etrans; [exact Hq3|exact Hq4]).
  assert (Hs4 : steady s s4) by (etrans; [exact Hs2|by apply quiet_steady]).
  destruct r as [u'|e].
  - destruct Ht4 as (cfg & Hcfg & Ht4). apply wp_bind, wp_modify, wp_bind, wp_modify, wp_modify.
    split_and!; [by destruct Hs4; split|by cbn; rewrite (qu_router _ _ Hq)|by cbn; rewrite (qu_mapper _ _ Hq)|].
    exists [EvMapper (pl_Table p); EvHost (pl_HostConfig p); EvDNS cfg]. split_and!; try done.
    + apply block_dns. destruct Hcfg as [? ? ? Hr]. split; [done..|]. eapply Forall2_impl; [exact Hr|].
      intros a b. apply scoped_same. assert (Hs3 : steady s s3).
      { etrans; [exact Hs2|]. by apply quiet_steady. }
      apply Hs3.
    + cbn. by rewrite Ht4, Ht3, Ht2, <-!app_assoc.
  - split_and!; [done|by rewrite (qu_router _ _ Hq)|by rewrite (qu_mapper _ _ Hq)|].
    eexists. split_and!; [apply block_host|by rewrite Ht4, Ht3, Ht2, <-!app_assoc|by rewrite (qu_st _ _ Hq)].
Qed.

(** *** What a reconciliation never changes *)

(** The desired state: all but leases, the daemon's addresses and the remembered
    MagicDNS suffixes. *)
Record same_desired (st st' : State) : Prop := {
  de_down : st_Down st' = st_Down st;
  de_pool4 : st_SyntheticPool st' = st_SyntheticPool st;
  de_pool6 : st_SyntheticPoolV6 st' = st_SyntheticPoolV6 st;
  de_profiles : (λ p, set_suffix p "") <$> st_Profiles st' = (λ p, set_suffix p "") <$> st_Profiles st;
  de_ip : st_IPRouteBindings st' = st_IPRouteBindings st;
  de_dns : st_DNSRouteBindings st' = st_DNSRouteBindings st;
  de_search : st_SearchDomains st' = st_SearchDomains st;
  de_exit : st_ExitNode st' = st_ExitNode st;
  de_updates : st_Updates st' = st_Updates st }.
#[export] Instance same_desired_preorder : PreOrder same_desired.
Proof using. split; [by intros st|]. intros ??? [] []. split; congruence. Qed.
#[export] Instance same_desired_symmetric : Symmetric same_desired.
Proof using. intros ?? []. split; congruence. Qed.
Lemma update_suffix_desired m p : set_suffix (update_suffix m p) "" = set_suffix p "".
Proof using. unfold update_suffix. destruct (m !! pr_ID p); [|done]. by destruct (negb _). Qed.
Lemma settle_desired pool st statuses st1 active all : st_ok pool st →
  ensureHostIPs ServiceIP (updateProfileMetadata st statuses) = Ok st1 → assignEffectiveIPs st1 statuses = Ok (active, all) →
  same_desired st (set_Leases st1 (leasesToState all)).
Proof using.
  intros [_ _ Hpools _] He _.
  assert (Hpm : pools_ok ServiceIP (updateProfileMetadata st statuses) pool) by (by apply (pools_ext pool st)).
  destruct (ensure_steps ServiceIP pool _ _ Hpm He) as (a & b & c & -> & _). split; try done. cbn.
  rewrite <-list_fmap_compose. apply list_fmap_ext. intros _ p _. apply update_suffix_desired.
Qed.
Lemma plan_desired pool st statuses p : st_ok pool st →
  buildTUNPlan (T:=T) (F:=F) CGNATRange TailscaleULARange ServiceIP st statuses = Ok p → same_desired st (pl_State p).
Proof using.
  intros Hst (st1 & all & Hplan)%plan_steps. rewrite (pn_state _ _ _ _ _ _ _ _ Hplan).
  eapply settle_desired; [done|apply (pn_hosts _ _ _ _ _ _ _ _ Hplan)|apply (pn_leases _ _ _ _ _ _ _ _ Hplan)].
Qed.

Lemma reconcile_socks_spec pool statuses s : st_ok pool (sv_st s) → identified statuses →
  wp (reconcile_socks statuses : M unit) (λ r s', steady s s' ∧ sv_mapper s' = sv_mapper s ∧ sv_trace s' = sv_trace s ∧
    match r with
    | Ok _ => st_ok pool (sv_st s') ∧ same_desired (sv_st s) (sv_st s') ∧ ∃ router, sv_router s' = Some router
    | Err _ => sv_st s' = sv_st s ∧ sv_router s' = sv_router s
    end) s.
Proof using.
  intros Hst Hids. unfold Supervisor.reconcile_socks. do 4 apply wp_bind, wp_gets. apply wp_bind, wp_lift.
  destruct (ensureHostIPs _ _) as [st1|e] eqn:E1; cbn [wrap]; [|done]. apply wp_bind, wp_lift.
  destruct (assignEffectiveIPs st1 statuses) as [[active all]|e] eqn:E2; cbn [wrap]; [|done].
  pose proof (settle_ok _ _ _ _ _ _ Hst Hids E1 E2) as Hok. pose proof (settle_desired _ _ _ _ _ _ Hst E1 E2) as Hde.
  apply wp_bind, wp_lift.
  destruct (NewRouterWithPolicies _ _ _ _) as [router|e]; cbn [wrap]; [|done].
  apply wp_bind. eapply wp_mono; [apply SetActivity_spec|]. intros r s1 (-> & Hq & Ht).
  apply wp_bind, wp_modify, wp_modify. apply quiet_steady in Hq as Hsd. destruct Hq.
  split_and!; [by destruct Hsd; split|done|done|done|exact Hde|by exists router].
Qed.

(** *** Saving *)

(** The state file holds this very state. *)
Definition persisted (st : State) (fs : gmap string string) : Prop := stored (F:=F) path fs st.
Lemma store_Save_spec st s : state_wf (F:=F) st → wp (store_Save (F:=F) path st : M (result store_error unit)) (λ r s',
  sv_st s' = sv_st s ∧ sv_mapper s' = sv_mapper s ∧ sv_router s' = sv_router s ∧ sv_runtimes s' = sv_runtimes s ∧
  sv_ipPolicy s' = sv_ipPolicy s ∧ sv_dnsPolicy s' = sv_dnsPolicy s ∧ sv_reconcileErr s' = sv_reconcileErr s ∧
  match r with
  | Ok (Ok _) => (∀ st', validateProfiles (Normalize (F:=F) st) = Ok st' → persisted st' (sv_fs s')) ∧
                 sv_trace s' = sv_trace s ++ [EvSave st]
  | Ok (Err _) => sv_trace s' = sv_trace s ∧ sv_fs s' !! path = sv_fs s !! path
  | Err _ => False
  end) s.
Proof using SJL DNSNameLaws0.
  intros Hwf. unfold wp, store_Save. destruct (save_outcome (sv_ext s)) as [w env].
  destruct (Save path env (sv_fs s) st) as [fs r] eqn:ES. pose proof (Save_cases path env (sv_fs s) fs st r Hwf ES) as Hc.
  destruct r as [u|e]; [|by destruct Hc]. destruct Hc as (st1 & Hv & Hl). do 7 (split; [done|]). split; [|done]. intros st2 Hv2. unfold persisted. cbn. congruence.
Qed.

(** What the file holds has the desired state of the memory. *)
Definition durable (s : supervisor) : Prop :=
  ∃ st, stored (F:=F) path (sv_fs s) st ∧ same_desired st (sv_st s).
Lemma durable_mono s s' : sv_fs s' = sv_fs s → same_desired (sv_st s) (sv_st s') → durable s → durable s'.
Proof using. intros Hfs Hde (st & Hl & Hd). exists st. rewrite Hfs. split; [done|]. by etrans. Qed.

(** *** Leases before the plan *)

Lemma refreshLeases_spec pool statuses s : st_ok pool (sv_st s) → wp (refreshLeases (F:=F) path statuses : M unit) (λ r s',
  sv_mapper s' = sv_mapper s ∧ sv_router s' = sv_router s ∧ sv_runtimes s' = sv_runtimes s ∧ st_ok pool (sv_st s') ∧
  (sv_st s' = sv_st s ∧ sv_trace s' = sv_trace s ∨
   sv_st s' = set_Leases (sv_st s) (st_Leases (sv_st s')) ∧ sv_trace s' = sv_trace s ++ [EvSave (sv_st s')] ∧
   leasesFromState (st_Leases (sv_st s')) `sublist_of` leasesFromState (st_Leases (sv_st s))) ∧
  (is_ok r = false → sv_st s' = sv_st s) ∧ (durable s → durable s')) s.
Proof using SJL DNSNameLaws0.
  intros Hst. unfold wp, refreshLeases. destruct (save_outcome (sv_ext s)) as [w env].
  destruct (refreshLeasesLocked _ _ _ _ _ _ _) as [[[fs st] tracker] r] eqn:ER.
  destruct (refresh_facts _ _ _ _ _ _ _ _ _ _ _ AddrInvalid (MkLease (MkKey "" "" AddrInvalid) AddrInvalid) ER) as (Hcase & Hsub & Herr & _).
  apply refresh_saves in ER.
  cbn [fst snd sv_st sv_trace set_trace set_st]. split_and!; [done..| | | |].
  - cbn. destruct Hcase as [->|Heq]; [done|]. rewrite Heq. split.
    + apply set_Leases_ok, Hst.
    + apply Hst.
    + apply (pools_ext pool (sv_st s)); [done..|apply Hst].
    + cbn. destruct (so_leases _ _ Hst) as [H1 H2].
      split; (eapply sublist_NoDup; [|by apply fmap_sublist]); done.
  - destruct (bool_decide_reflect (st = sv_st s)) as [->|Hne]; [by left|right]. destruct Hcase as [?|?]; [done|]. split_and!; done.
  - intros Hr. apply Herr. by destruct r.
  - intros (st0 & Hl & Hd). destruct ER as [(-> & -> & ->)|(ls & ES & Est)]; [by exists st0|].
    assert (Hwf : state_wf (F:=F) (set_Leases (sv_st s) ls)) by apply set_Leases_ok, Hst.
    pose proof (Save_cases path env (sv_fs s) fs _ r Hwf ES) as Hc. destruct r as [u|e]; cbn in Est; subst st.
    + destruct Hc as (st' & Hv & Hl'). rewrite saved_as_is in Hv; [|by apply set_Leases_ok, Hst|apply Hst].
      injection Hv as <-. eexists. split; [exact Hl'|]. reflexivity.
    + exists st0. split; [by eapply stored_file; [apply Hc|]|done].
Qed.
(** *** The whole of it *)

Definition inv (pool : bool → Prefix) (s : supervisor) : Prop := st_ok pool (sv_st s) ∧ published pool (sv_trace s).
(** A reconciliation that succeeded: in TUN mode one plan is in force whole, and
    in both modes the state in memory is the one on disk. *)
Record settled (pool : bool → Prefix) (s : supervisor) : Prop := {
  se_file : persisted (sv_st s) (sv_fs s);
  se_plan : if tun_mode then
      ∃ p tr cfg, built pool p ∧ forwarded (sv_runtimes s) (pl_DNSConfig p) cfg ∧
        sv_st s = pl_State p ∧ sv_mapper s = pl_Table p ∧ sv_ipPolicy s = pl_IPPolicy p ∧ sv_dnsPolicy s = pl_DNSPolicy p ∧
        sv_trace s = tr ++ [EvMapper (pl_Table p); EvHost (pl_HostConfig p); EvDNS cfg; EvSave (pl_State p)]
    else is_Some (sv_router s) }.
Lemma forwarded_same r r' c c' : same_runtimes r r' → forwarded r c c' → forwarded r' c c'.
Proof using.
  intros Hs [? ? ? Hr]. split; [done..|]. eapply Forall2_impl; [exact Hr|]. intros a b. apply scoped_same.
  unfold same_runtimes in *. congruence.
Qed.
Lemma block_length r p evs : partial_block r p evs → length evs = 3%nat →
  ∃ cfg, forwarded r (pl_DNSConfig p) cfg ∧ evs = [EvMapper (pl_Table p); EvHost (pl_HostConfig p); EvDNS cfg].
Proof using. intros [| |cfg Hf] Hl; [done..|]. eauto. Qed.

(** What every step of a reconciliation keeps, failed or not. *)
Record keeps (pool : bool → Prefix) (s s' : supervisor) : Prop := {
  ke_inv : inv pool s';
  ke_runtimes : same_runtimes (sv_runtimes s) (sv_runtimes s');
  ke_desired : same_desired (sv_st s) (sv_st s');
  ke_durable : durable s → durable s' }.
Lemma keeps_trans pool s1 s2 s3 : keeps pool s1 s2 → keeps pool s2 s3 → keeps pool s1 s3.
Proof using.
  intros [? ? ? ?] [? ? ? ?]. split; [done| |by etrans|auto]. unfold same_runtimes in *. congruence.
Qed.
Lemma keeps_observes pool s s' : inv pool s → observes s s' → keeps pool s s'.
Proof using.
  intros [? ?] Ho. assert (Hd : same_desired (sv_st s) (sv_st s')) by (by rewrite (ob_st _ _ Ho)).
  split; [by split; rewrite ?(ob_st _ _ Ho), ?(ob_trace _ _ Ho)|apply Ho|done|]. by apply durable_mono; [apply Ho|].
Qed.

Lemma reconcile_net pool statuses s : inv pool s → identified statuses →
  wp (if tun_mode then reconcile_tun statuses else reconcile_socks statuses : M unit) (λ r s', keeps pool s s' ∧
    (∀ u, r = Ok u → if tun_mode then
      ∃ p tr cfg, built pool p ∧ forwarded (sv_runtimes s') (pl_DNSConfig p) cfg ∧
        sv_st s' = pl_State p ∧ sv_mapper s' = pl_Table p ∧ sv_ipPolicy s' = pl_IPPolicy p ∧ sv_dnsPolicy s' = pl_DNSPolicy p ∧
        sv_trace s' = tr ++ [EvMapper (pl_Table p); EvHost (pl_HostConfig p); EvDNS cfg]
      else is_Some (sv_router s'))) s.
Proof using.
  intros [Hst Hpub] Hids.
  assert (Hkeep : ∀ s', steady s s' → st_ok pool (sv_st s') → published pool (sv_trace s') → same_desired (sv_st s) (sv_st s') → keeps pool s s').
  { intros s' [Hfs Hrt] ? ? Hde. split; [by split|done|done|by apply durable_mono]. }
  destruct tun_mode.
  - eapply wp_mono; [apply reconcile_tun_spec|]. intros r s' (Hsd & _ & Ho). unfold tun_outcome in Ho.
    destruct (buildTUNPlan _ _ _ _ statuses) as [p|e] eqn:Ep.
    + assert (Hb : built pool p) by (by exists (sv_st s), statuses).
      destruct Ho as (Hm & evs & Hblk & Ht & Hr).
      assert (Hpub' : published pool (sv_trace s')) by (rewrite Ht; by eapply pub_block). destruct r as [u|e].
      * destruct Hr as (Hst' & Hip & Hdns & Hlen). destruct (block_length _ _ _ Hblk Hlen) as (cfg & Hf & ->).
        split; [apply Hkeep; [done|rewrite Hst'; by eapply plan_ok|done|rewrite Hst'; by eapply plan_desired]|].
        intros _ _. exists p, (sv_trace s), cfg. split_and!; try done. eapply forwarded_same, Hf. apply Hsd.
      * split; [|done]. by apply Hkeep; rewrite ?Hr.
    + destruct Ho as (-> & Hst' & _ & Ht). split; [|done]. by apply Hkeep; rewrite ?Hst', ?Ht.
  - eapply wp_mono; [by apply (reconcile_socks_spec pool)|]. intros r s' (Hsd & Hm & Ht & Hr). destruct r as [u|e].
    + destruct Hr as (Hok & Hde & router & Hrt). split; [by apply Hkeep; rewrite ?Ht|]. intros _ _. by rewrite Hrt.
    + destruct Hr as [Hst' _]. split; [|done]. by apply Hkeep; rewrite ?Hst', ?Ht.
Qed.

(** The last step: the state is in force, then saved. *)
Lemma final_save_spec pool s : inv pool s →
  wp (store_Save (F:=F) path (sv_st s) : M (result store_error unit)) (λ r s', keeps pool s s' ∧
    sv_st s' = sv_st s ∧ sv_mapper s' = sv_mapper s ∧ sv_router s' = sv_router s ∧ sv_runtimes s' = sv_runtimes s ∧
    sv_ipPolicy s' = sv_ipPolicy s ∧ sv_dnsPolicy s' = sv_dnsPolicy s ∧
    (r = Ok (Ok tt) → persisted (sv_st s) (sv_fs s') ∧ sv_trace s' = sv_trace s ++ [EvSave (sv_st s)]) ∧ is_ok r = true) s.
Proof using SJL DNSNameLaws0.
  intros [Hst Hpub]. eapply wp_mono; [apply store_Save_spec, (so_policy _ _ Hst)|].
  intros r s' (Est & Em & Er & Ert & Eip & Ed & _ & Hr). destruct r as [[[]|e]|e]; [| |done].
  - destruct Hr as [Hper Ht]. assert (Hp : persisted (sv_st s) (sv_fs s')) by (apply Hper, saved_as_is; apply Hst).
    split; [split; [split; [by rewrite Est|rewrite Ht; by apply pub_save]|by rewrite Ert|by rewrite Est|]|by split_and!].
    intros _. exists (sv_st s). rewrite Est. by split.
  - destruct Hr as [Ht Hl]. split; [split; [split; [by rewrite Est|by rewrite Ht]|by rewrite Ert|by rewrite Est|]|by split_and!].
    intros (st0 & H0 & Hd). exists st0. rewrite Est. split; [by eapply stored_file|done].
Qed.

(** A reconciliation.  It keeps the state in normal form with leases that
    identify targets and never touches the desired state, in memory or on disk,
    whatever fails.  When it succeeds, the state in memory is the state on disk
    and one plan is in force whole: its packet table, then its host routes, then
    its resolver, with every resolver of a route behind a forwarder of the
    route's own profile.  The error shown to the user is the one it returns. *)
Lemma reconcile_facts pool s s' r : inv pool s → reconcileLocked s = (s', r) →
  keeps pool s s' ∧ sv_reconcileErr s' = match r with Ok _ => None | Err e => Some e end ∧ (r = Ok tt → settled pool s').
Proof using LPMLaws0 DNSNameLaws0 SJL.
  intros Hinv Hrun. unfold Supervisor.reconcileLocked in Hrun.
  enough (Hb : wp (reconcile_body : M unit) (λ r s', keeps pool s s' ∧ (r = Ok tt → settled pool s')) s).
  { unfold wp in Hb. destruct (reconcile_body s) as [s1 r1]. injection Hrun as <- <-.
    destruct Hb as ([[? ?] ? ? ?] & Hk). cbn. split_and!; [by split|done|]. intros Hr%Hk. by destruct Hr. }
  clear Hrun r s'. unfold Supervisor.reconcile_body.
  assert (Hfail : ∀ s1 (e : sup_error), observes s s1 → keeps pool s s1 ∧ (Err e = Ok tt → settled pool s1)).
  { intros s1 e Ho. split; [by apply keeps_observes|done]. }
  apply wp_bind, (wp_respects observes); [apply statusesLocked_observes|]. intros [ss|e] s1 Ho1; [|by apply Hfail].
  apply wp_bind, wp_gets, wp_bind, wp_modify, wp_bind, wp_modify, wp_bind. set (s2 := set_dnsPolicy _ _).
  assert (Ho2 : observes s s2) by (etrans; [exact Ho1|by split]). clearbody s2. clear s1 Ho1.
  apply (wp_respects observes); [apply setRoutePreferencesLocked_observes|]. intros [u|e] s3 Ho; (assert (Ho3 : observes s s3) by (by etrans)); [|by apply Hfail].
  clear Ho Ho2 s2. apply wp_bind, (wp_respects observes); [apply setExitNodePreferencesLocked_observes|].
  intros [u1|e] s4 Ho; (assert (Ho4 : observes s s4) by (by etrans)); [|by apply Hfail].
  clear Ho Ho3 s3. apply wp_bind. eapply (wp_frame observes); [apply statusesLocked_observes|apply statusesLocked_identified|].
  intros [statuses|e] s5 Ho Hids; (assert (Ho5 : observes s s5) by (by etrans)); [|by apply Hfail].
  clear Ho Ho4 s4 Hfail. pose proof (keeps_observes pool s s5 Hinv Ho5) as Hk5. destruct (ke_inv _ _ _ Hk5) as [Hst5 Hpub5].
  apply wp_bind. eapply wp_mono; [by apply (refreshLeases_spec pool)|]. intros r s6 (_ & _ & Hrt6 & Hst6 & Hc6 & _ & Hd6).
  assert (Hk6 : keeps pool s s6).
  { eapply keeps_trans; [exact Hk5|]. split; [split; [done|]|by rewrite Hrt6| |done].
    - destruct Hc6 as [[_ ->]|(_ & -> & _)]; [done|by apply pub_save].
    - destruct Hc6 as [[-> _]|[-> _]]; by split. }
  destruct r as [u2|e]; [|by split]. clear Hk5 Hd6 Hc6 Hst6.
  apply wp_bind. eapply wp_mono; [apply (reconcile_net pool); [apply Hk6|by apply usable_identified]|].
  intros r s7 (Hk7 & Hok7). pose proof (keeps_trans _ _ _ _ Hk6 Hk7) as Hk. destruct r as [u3|e]; [|by split].
  specialize (Hok7 u3 eq_refl). unfold SetActivity. apply wp_bind, wp_gets, wp_bind, wp_modify.
  set (s8 := set_activity _ s7). assert (Hk8 : keeps pool s s8) by (by destruct Hk as [[] ? ? ?]). apply wp_bind.
  eapply wp_mono; [apply (final_save_spec pool s8), Hk8|].
  intros r s9 (Hk9 & Hst9 & Hm9 & Hr9 & Hrt9 & Hip9 & Hdns9 & Hr & Hir). destruct r as [r|e]; [|done]. apply wp_lift.
  split; [by eapply keeps_trans|]. destruct r as [[]|e]; [|done]. intros _. destruct (Hr eq_refl) as [Hper Htr].
  split; [by rewrite Hst9|]. destruct tun_mode; [|by rewrite Hr9].
  destruct Hok7 as (p & tr & cfg & Hb & Hf & E1 & E2 & E3 & E4 & E5). exists p, tr, cfg.
  rewrite Hrt9, Hst9, Hm9, Hip9, Hdns9, Htr. split_and!; try done. unfold s8. cbn. by rewrite E5, E1, <-app_assoc.
Qed.

(** C3. A reconciliation keeps the state in normal form with leases that
    identify targets and never touches the desired state, in memory or on disk,
    nor which engines run, whatever fails.  When it succeeds, the state in memory
    is the state on disk and one plan is in force whole: its packet table, then
    its host routes, then its resolver, with every resolver of a route behind a
    forwarder of the route's own profile.  The error shown to the user is the one
    it returns. *)
Theorem reconcile_sound (pool : bool → Prefix) (s s' : supervisor) (r : result sup_error unit) :
  inv pool s → reconcileLocked s = (s', r) →
  keeps pool s s' ∧ sv_reconcileErr s' = match r with Ok _ => None | Err e => Some e end ∧ (r = Ok tt → settled pool s').
Proof using LPMLaws0 DNSNameLaws0 SJL. apply reconcile_facts. Qed.
End facts.

(** ** A concrete reconciliation *)

Lemma rig_inv w : inv (F:=Labels) test_cgnat test_ula service_ip default_prefix (rig_supervisor w).
Proof.
  split; [split|constructor]; [apply corp_policy_ok|by repeat constructor|apply corp_pools|apply corp_unique].
Qed.
Lemma reconcile_sound_witness :
  settled (F:=Labels) test_cgnat test_ula service_ip rig_path true default_prefix
    (reconcileLocked (F:=Labels) test_cgnat test_ula service_ip rig_path true (rig_supervisor [])).1.
Proof.
  assert (Hok : is_ok (reconcileLocked (F:=Labels) test_cgnat test_ula service_ip rig_path true (rig_supervisor [])).2 = true)
    by (vm_compute; reflexivity).
  destruct (reconcileLocked _ _ _ _ _ (rig_supervisor [])) as [s' r] eqn:Hr.
  destruct (reconcile_sound (T:=PrefixMap) (LT:=PrefixMap_LPM) (F:=Labels) test_cgnat test_ula service_ip rig_path true
    default_prefix (rig_supervisor []) s' r (rig_inv []) Hr) as (_ & _ & Hset).
  destruct r as [[]|e]; [|discriminate Hok]. exact (Hset eq_refl).
Defined.
