(* ===== verification/ControlAPI.v ===== *)
(** * The control API

    The handlers of cmd/tailmixd/supervisor.go and cmd/tailmixd/policyapi.go, the
    start of the daemon's profiles and the reaction to an engine's updates, as
    functions on the supervisor.  Every handler holds the supervisor's mutex from
    beginning to end, so a handler is one step.  A handler that writes through a
    pointer into the profiles of the state and then fails leaves what it wrote,
    unless the code puts the copy it made before back. *)

From S2P Require Import Prelude Effects GoStrings FilePath Netip RoutingTable PacketMap EffectiveIP Activity DNSName WireGuardCfg State Types HostPools ProfileSpec LeasePlan RoutingPolicy TUNTable DNSPolicy TUNDNS TUNPlan SocksRouter PolicyPatch ExitNodes Paths ProfileView Runtime WireGuardSecrets Supervisor.
Local Open Scope Z_scope.

(** ** Names and fields *)

Definition name_char (first : bool) (r : Ascii.ascii) : bool :=
  is_lower r || is_upper r || is_digit r ||
  (negb first && (char_eqb r "-"%char || char_eqb r "_"%char || char_eqb r "."%char)).
Definition validProfileName (name : string) : bool :=
  if String.eqb name "" || (64 <? str_len name)%nat then false
  else match chars name with [] => true | r :: l => name_char true r && forallb (name_char false) l end.
Definition configuredByName (ps : list Profile) (name : string) : result sup_error (nat * Profile) :=
  match list_find (λ p, profileName p = name) ps with Some x => Ok x | None => Err (ENoProfile name) end.
Definition profileByID (ps : list Profile) (id : string) : option Profile := List.find (λ p, String.eqb (pr_ID p) id) ps.
Definition profileHasBindings (st : State) (id : string) : bool :=
  existsb (λ b, String.eqb (ib_ProfileID b) id) (st_IPRouteBindings st) ||
  existsb (λ b, String.eqb (db_ProfileID b) id) (st_DNSRouteBindings st).
Definition deleteProfile (ps : list Profile) (id : string) : list Profile := filter (λ p, pr_ID p ≠ id) ps.
Definition deleteProfileLeases (ls : list EffectiveLease) (id : string) : list EffectiveLease := filter (λ l, el_ProfileID l ≠ id) ls.

Definition set_Down (st : State) (down : bool) : State :=
  MkState down (st_SyntheticPool st) (st_SyntheticPoolV6 st) (st_NATIP st) (st_NATIPv6 st) (st_DNSIP st)
    (st_Profiles st) (st_Leases st) (st_IPRouteBindings st) (st_DNSRouteBindings st) (st_SearchDomains st) (st_ExitNode st) (st_Updates st).
Definition set_switches (p : Profile) (disabled removed shieldsUp : bool) : Profile :=
  MkProfile (pr_ID p) (pr_Name p) (pr_Alias p) (pr_Kind p) (pr_StateDir p) (pr_Hostname p) (pr_MagicDNSSuffix p)
    disabled removed (pr_AcceptAllRoutes p) (pr_AcceptAllDNSRoutes p) (pr_WireGuard p) (pr_WireGuardSecretFile p) shieldsUp.
Definition set_Hostname (p : Profile) (hostname : string) : Profile :=
  MkProfile (pr_ID p) (pr_Name p) (pr_Alias p) (pr_Kind p) (pr_StateDir p) hostname (pr_MagicDNSSuffix p)
    (pr_Disabled p) (pr_Removed p) (pr_AcceptAllRoutes p) (pr_AcceptAllDNSRoutes p) (pr_WireGuard p) (pr_WireGuardSecretFile p) (pr_WireGuardShieldsUp p).
Definition set_Name (p : Profile) (name : string) : Profile :=
  MkProfile (pr_ID p) name (pr_Alias p) (pr_Kind p) (pr_StateDir p) (pr_Hostname p) (pr_MagicDNSSuffix p)
    (pr_Disabled p) (pr_Removed p) (pr_AcceptAllRoutes p) (pr_AcceptAllDNSRoutes p) (pr_WireGuard p) (pr_WireGuardSecretFile p) (pr_WireGuardShieldsUp p).
Definition config_with_name (c : Config) (name : string) : Config :=
  MkConfig (c_Version c) name (c_DNSSuffix c) (c_Addresses c) (c_ListenPort c) (c_PacketFilter c) (c_Peers c).

Record AddProfileRequest : Type := MkAddProfile {
  aq_Name : string; aq_StateDir : string; aq_Hostname : string; aq_AuthKey : string; aq_Disabled : bool }.
Record PatchProfileRequest : Type := MkPatchProfile { pq_Name : option string; pq_Hostname : option string }.

(** [errors.Is(err, effectiveip.ErrPoolExhausted)]. *)
Definition is_exhausted (e : sup_error) : bool :=
  match e with
  | ESupPlan (EPlanLease (EAssign _ (ErrPoolExhausted _ _))) | ESupLease (EAssign _ (ErrPoolExhausted _ _)) => true
  | _ => false
  end.

Record StatusView : Type := MkStatusView {
  vw_State : string; vw_Profiles : list (APIProfile sup_error); vw_IPRoutes : api.IPRoutes;
  vw_ExitNodes : api.ExitNodes; vw_DNSRoutes : api.DNSRoutes; vw_Search : api.SearchDomains; vw_Error : option sup_error }.

Section control.
Context {T : Type → Type} `{LPM T} {F : Type} `{DNSName F} `{StateJSON} {E Fw W : Type} `{Runtime E Fw W}.
Context (CGNATRange TailscaleULARange : Prefix) (ServiceIP : Addr) (path : string) (tun_mode : bool).
(** The environment variables of the command line's profiles, the directory of
    the sockets and SHA-256. *)
Context (initial : gmap string string) (SocketDir : string) (Sum256 : string → list Z).
Local Notation supervisor := (supervisor (T:=T) (E:=E) (Fw:=Fw) (W:=W)).
Local Notation M := (stm supervisor sup_error).
Local Notation reconcileLocked := (reconcileLocked (T:=T) (F:=F) CGNATRange TailscaleULARange ServiceIP path tun_mode).
Local Notation startProfileLocked := (startProfileLocked (T:=T) (E:=E) (Fw:=Fw) (W:=W) tun_mode).
Local Notation stopProfileLocked := (stopProfileLocked (T:=T) (E:=E) (Fw:=Fw) (W:=W) tun_mode).
Local Notation statusesLocked := (statusesLocked (T:=T) (E:=E) (Fw:=Fw) (W:=W)).

(** ** Steps the handlers share *)

Definition requireDaemonUpLocked : M unit := st ← gets sv_st; fail_if (st_Down st) EDaemonDown.
Definition daemonStateLocked : M string := st ← gets sv_st; mret (if st_Down st then "down" else "up").
(** [if err := s.store.Save(s.st); err != nil { s.st = before; return err }]. *)
Definition save_or_restore (before : State) : M unit :=
  st ← gets sv_st;
  r ← store_Save (F:=F) path st;
  match r with
  | Ok _ => mret tt
  | Err e => _ ← modify (set_st before); fail (ESupStore e)
  end.
Definition reconcile_or_fail : M unit :=
  r ← try reconcileLocked;
  match r with Ok _ => mret tt | Err e => fail (EReconcileFailed e) end.
(** A profile that does not start is noted, not an error of the handler. *)
Definition start_or_note (configured : Profile) (authKey authKeyEnv : string) : M unit :=
  r ← try (startProfileLocked configured authKey authKeyEnv);
  match r with Ok _ => mret tt | Err e => set_lastError (pr_ID configured) e end.
Definition stop_or_note (profileID : string) : M unit :=
  ok ← stopProfileLocked profileID;
  if ok : bool then mret tt else set_lastError profileID (ERuntimeStop [profileID]).
(** [*configured = p] for a pointer into the state's profiles. *)
Definition put_profile (i : nat) (p : Profile) : M unit :=
  modify (λ s, set_st (set_Profiles (sv_st s) (<[i := p]> (st_Profiles (sv_st s)))) s).
Definition configuredByNameLocked (name : string) : M (nat * Profile) :=
  st ← gets sv_st; lift (configuredByName (st_Profiles st) name).
Definition projectProfileLocked (configured : Profile) : M (APIProfile sup_error) :=
  gets (λ s, projectProfile (F:=F) (st_Down (sv_st s))
    ((λ m, (m_status m, engine_ApplyDegraded (m_Engine m) (sv_ext s))) <$> sv_runtimes s !! pr_ID configured)
    (sv_lastErrors s !! pr_ID configured) (ProfileView.Path Sum256 SocketDir (pr_ID configured)) configured).
Definition randomOpaque (prefix : string) (byteCount : nat) : M string :=
  r ← ext (rand_Read byteCount);
  match r with Some buffer => mret (prefix +:+ EncodeToString buffer) | None => fail ERandom end.

(** ** Profiles *)

Definition listProfilesLocked (all : bool) : M (list (APIProfile sup_error)) :=
  st ← gets sv_st;
  ps ← collect projectProfileLocked (filter (λ p, negb (pr_Removed p && negb all) = true) (st_Profiles st));
  mret (go_sort (less_key ap_Name) ps).
Definition GetProfile (name : string) : M (APIProfile sup_error) :=
  '(_, configured) ← configuredByNameLocked name;
  projectProfileLocked configured.

Definition finish_add (configured : Profile) (before : State) (authKey : string) : M (APIProfile sup_error) :=
  _ ← save_or_restore before;
  _ ← (if pr_Disabled configured then mret tt else start_or_note configured authKey "");
  _ ← reconcile_or_fail;
  projectProfileLocked configured.
Definition restored (existing : Profile) (request : AddProfileRequest) : Profile :=
  let existing := set_switches existing (aq_Disabled request) false (pr_WireGuardShieldsUp existing) in
  if negb (String.eqb (aq_Hostname request) "") then set_Hostname existing (aq_Hostname request) else existing.
Definition AddProfile (request : AddProfileRequest) : M (APIProfile sup_error) :=
  _ ← requireDaemonUpLocked;
  before ← gets sv_st;
  let name := TrimSpace (aq_Name request) in
  _ ← fail_if (negb (validProfileName name)) (EInvalidName name);
  match configuredByName (st_Profiles before) name with
  | Ok (i, existing) =>
    _ ← fail_if (negb (pr_Removed existing)) (EProfileExists name);
    let existing := restored existing request in
    _ ← put_profile i existing;
    finish_add existing before (aq_AuthKey request)
  | Err _ =>
    id ← randomOpaque "p_" 8;
    let hostname := TrimSpace (aq_Hostname request) in
    hostname ← (if String.eqb hostname "" then
                  suffix ← randomOpaque "" 5; mret ("tailmix-" +:+ suffix)
                else mret hostname);
    let stateDir := TrimSpace (aq_StateDir request) in
    let stateDir := if String.eqb stateDir "" then defaultProfileStateDir path id else stateDir in
    wd ← peek os_Getwd;
    stateDir ← lift (wrap EPath (validateNewStateDirLocked wd path (st_Profiles before) stateDir));
    let configured := MkProfile id name "" ProfileKindTailscale stateDir hostname "" (aq_Disabled request) false false false None "" false in
    _ ← modify (λ s, set_st (Normalize (F:=F) (set_Profiles (sv_st s) (st_Profiles (sv_st s) ++ [configured]))) s);
    finish_add configured before (aq_AuthKey request)
  end.

Definition rename (configured : Profile) (nextName : string) (renamedWireGuard : option Config) : Profile :=
  let configured := set_Name configured nextName in
  match renamedWireGuard with Some c => set_WireGuard configured (Some c) | None => configured end.
(** The new name of a profile and of its WireGuard configuration. *)
Definition check_rename (ps : list Profile) (configured : Profile) (raw : string) : result sup_error Profile :=
  let nextName := TrimSpace raw in
  _ ← guard_err (negb (validProfileName nextName)) (EInvalidName nextName);
  _ ← match configuredByName ps nextName with
      | Ok (_, other) => guard_err (negb (String.eqb (pr_ID other) (pr_ID configured))) (EProfileExists nextName)
      | Err _ => Ok tt
      end;
  match pr_WireGuard configured with
  | None => Ok (rename configured nextName None)
  | Some c =>
    match NormalizeConfig (config_with_name c nextName) with
    | Ok normalized => Ok (rename configured nextName (Some normalized))
    | Err _ => Err (EInvalidName nextName)
    end
  end.
Definition PatchProfile (name : string) (request : PatchProfileRequest) : M (APIProfile sup_error) :=
  _ ← requireDaemonUpLocked;
  before ← gets sv_st;
  '(i, configured) ← configuredByNameLocked name;
  configured ← match pq_Name request with
               | None => mret configured
               | Some raw =>
                 configured ← lift (check_rename (st_Profiles before) configured raw);
                 _ ← put_profile i configured;
                 mret configured
               end;
  _ ← fail_if (bool_decide (is_Some (pq_Hostname request)) && negb (String.eqb (pr_Kind configured) "") &&
               negb (String.eqb (pr_Kind configured) ProfileKindTailscale)) (ENotTailscale name);
  let hostname := match pq_Hostname request with Some raw => TrimSpace raw | None => pr_Hostname configured end in
  let restart := negb (String.eqb (pr_Hostname configured) hostname) in
  let configured := set_Hostname configured hostname in
  _ ← put_profile i configured;
  _ ← save_or_restore before;
  _ ← (if restart && negb (pr_Disabled configured) && negb (pr_Removed configured) then
         _ ← stopProfileLocked (pr_ID configured);
         _ ← reconcile_or_fail;
         start_or_note configured "" ""
       else mret tt);
  _ ← reconcile_or_fail;
  projectProfileLocked configured.

Definition SetProfileEnabled (name : string) (enabled : bool) : M (APIProfile sup_error) :=
  _ ← requireDaemonUpLocked;
  before ← gets sv_st;
  '(i, configured) ← configuredByNameLocked name;
  _ ← fail_if (pr_Removed configured) (ERemoved name);
  if eqb (pr_Disabled configured) (negb enabled) then projectProfileLocked configured
  else
    let configured := set_switches configured (negb enabled) (pr_Removed configured) (pr_WireGuardShieldsUp configured) in
    _ ← put_profile i configured;
    _ ← save_or_restore before;
    _ ← (if enabled then start_or_note configured "" ""
         else _ ← reconcile_or_fail; stop_or_note (pr_ID configured));
    _ ← reconcile_or_fail;
    projectProfileLocked configured.

Definition RestartProfile (name : string) : M (APIProfile sup_error) :=
  _ ← requireDaemonUpLocked;
  '(_, configured) ← configuredByNameLocked name;
  _ ← fail_if (pr_Disabled configured || pr_Removed configured) (EDisabled name);
  _ ← stopProfileLocked (pr_ID configured);
  _ ← reconcile_or_fail;
  _ ← start_or_note configured "" "";
  _ ← reconcile_or_fail;
  projectProfileLocked configured.

Definition without_exit (st : State) (id : string) : State :=
  match st_ExitNode st with
  | Some e => if String.eqb (en_ProfileID e) id then set_ExitNode st None else st
  | None => st
  end.
Definition purged (st : State) (id : string) : State :=
  set_Leases (set_Profiles st (deleteProfile (st_Profiles st) id)) (deleteProfileLeases (st_Leases st) id).
Definition purge_profile (configured : Profile) : M unit :=
  st ← gets sv_st;
  w ← gets sv_ext;
  _ ← lift (wrap EPath (validatePurgeLocked (os_Getwd w) (os_EvalSymlinks w) path (st_Profiles st) configured));
  ok ← ext (os_RemoveAll (pr_StateDir configured));
  _ ← fail_if (negb ok) (EPurgeRemove (pr_StateDir configured));
  _ ← modify (λ s, set_st (purged (sv_st s) (pr_ID configured)) s);
  _ ← clear_lastError (pr_ID configured);
  st ← gets sv_st;
  r ← store_Save (F:=F) path st;
  lift (wrap EPurgeSave r).
Definition RemoveProfile (name : string) (purge : bool) : M (APIProfile sup_error) :=
  _ ← requireDaemonUpLocked;
  before ← gets sv_st;
  '(i, configured) ← configuredByNameLocked name;
  _ ← fail_if (purge && profileHasBindings before (pr_ID configured)) (EHasBindings name);
  let configured := set_switches configured true true false in
  _ ← put_profile i configured;
  _ ← modify (λ s, set_st (without_exit (sv_st s) (pr_ID configured)) s);
  _ ← save_or_restore before;
  _ ← reconcile_or_fail;
  _ ← stop_or_note (pr_ID configured);
  result ← projectProfileLocked configured;
  _ ← (if purge then purge_profile configured else mret tt);
  mret result.

(** ** The daemon as a whole *)

(** Profiles that could not be stopped. *)
Definition stop_all (unwanted : string → bool) (ids : list string) : M (list string) :=
  failed ← collect (λ id, if unwanted id then ok ← stopProfileLocked id; mret (if ok : bool then None else Some id)
                          else mret None) ids;
  mret (omap id failed).
Definition start_enabled : M unit :=
  st ← gets sv_st;
  for_each (λ configured, if pr_Disabled configured || pr_Removed configured then mret tt
                          else start_or_note configured "" (default "" (initial !! pr_ID configured))) (st_Profiles st).
Definition enabled_in (st : State) (id : string) : bool :=
  match profileByID (st_Profiles st) id with
  | Some configured => negb (pr_Disabled configured) && negb (pr_Removed configured)
  | None => false
  end.
Definition SetDaemonUp (up : bool) : M string :=
  before ← gets sv_st;
  _ ← (if eqb (st_Down before) (negb up) then mret tt
       else _ ← modify (set_st (set_Down before (negb up))); save_or_restore before);
  st ← gets sv_st;
  ids ← runtime_ids;
  failed ← stop_all (λ id, if up then negb (enabled_in st id) else true) ids;
  _ ← (if up then start_enabled else mret tt);
  r ← try reconcileLocked;
  match failed, r with
  | _ :: _, _ => fail (ERuntimeStop failed)
  | [], Err e => fail (EReconcileFailed e)
  | [], Ok _ => daemonStateLocked
  end.

(** The start of the daemon, once host and resolver are open. *)
Definition Run_profiles : M unit :=
  st ← gets sv_st;
  _ ← (if st_Down st then mret tt else start_enabled);
  r ← try reconcileLocked;
  match r with
  | Ok _ => mret tt
  | Err e => fail_if (negb (is_exhausted e)) e
  end.
(** A message of the watcher of a profile: its engine changed, or its watch
    ended with an error. *)
Definition runtime_update (profileID : string) (watch_failed : bool) : M unit :=
  if watch_failed then set_lastError profileID (EWatch profileID)
  else
    runtimes ← gets sv_runtimes;
    match runtimes !! profileID with
    | None => mret tt
    | Some managed =>
      r ← try reconcileLocked;
      match r with
      | Ok _ => mret tt
      | Err e =>
        degraded ← peek (engine_ApplyDegraded (m_Engine managed));
        set_lastError profileID (if degraded : bool then EDegraded e else e)
      end
    end.

(** ** Policies *)

Definition commitPolicyLocked (next : State) : M unit :=
  let next := Normalize (F:=F) next in
  r ← store_Save (F:=F) path next;
  match r with
  | Err e => fail (ESupStore e)
  | Ok _ => _ ← modify (set_st next); reconcile_or_fail
  end.
(** The entries of an accept-all map in the order Go visits them. *)
Definition accept_order {R} (request : patch R) : M (list (string * bool)) :=
  gets (λ s, (λ name, (name, default false (pt_AcceptAll request !! name))) <$> range_order (dom (pt_AcceptAll request)) (sv_ext s)).
Definition ip_view (available : bool) (r : api.IPRoutes) : api.IPRoutes :=
  if available then api.MkIPRoutes [] [] [] (api.Available r) else r.
Definition dns_view (available : bool) (r : api.DNSRoutes) : api.DNSRoutes :=
  if available then api.MkDNSRoutes [] [] [] [] (api.dr_Available r) else r.

Definition build_ip (st : State) (statuses : list Status) : M IPPlan :=
  let plan := BuildIP CGNATRange TailscaleULARange st statuses in
  _ ← modify (set_ipPolicy plan);
  mret plan.
Definition build_dns (st : State) (statuses : list Status) : M DNSPlan :=
  let plan := BuildDNS (F:=F) st statuses in
  _ ← modify (set_dnsPolicy plan);
  mret plan.
Definition exitNodes : M api.ExitNodes :=
  statuses ← statusesLocked;
  st ← gets sv_st;
  mret (ExitNodes.exitNodesLocked st statuses).
(** A view comes with the error of the last reconciliation. *)
Definition IPRoutes (available : bool) : M (api.IPRoutes * option sup_error) :=
  statuses ← statusesLocked;
  st ← gets sv_st;
  plan ← build_ip st statuses;
  e ← gets sv_reconcileErr;
  mret (ip_view available (ip_Resource plan), e).
Definition DNSRoutes (available : bool) : M (api.DNSRoutes * option sup_error) :=
  statuses ← statusesLocked;
  st ← gets sv_st;
  plan ← build_dns st statuses;
  e ← gets sv_reconcileErr;
  mret (dns_view available (dp_Resource plan), e).
Definition SearchDomains : M (api.SearchDomains * option sup_error) :=
  statuses ← statusesLocked;
  st ← gets sv_st;
  plan ← build_dns st statuses;
  e ← gets sv_reconcileErr;
  mret (dp_Search plan, e).
Definition Status_ : M StatusView :=
  statuses ← statusesLocked;
  st ← gets sv_st;
  ip ← build_ip st statuses;
  dns ← build_dns st statuses;
  e ← gets sv_reconcileErr;
  state ← daemonStateLocked;
  profiles ← listProfilesLocked false;
  let ipr := ip_Resource ip in
  let dnr := dp_Resource dns in
  let sd := dp_Search dns in
  mret (MkStatusView state profiles
    (api.MkIPRoutes (api.AcceptAllProfiles ipr) (api.Bindings ipr) (api.Imported ipr) [])
    (api.MkExitNodes (api.Selected (ExitNodes.exitNodesLocked st statuses)) [])
    (api.MkDNSRoutes (api.dr_AcceptAllProfiles dnr) (api.dr_Bindings dnr) (api.dr_Imported dnr) (api.dr_Automatic dnr) [])
    (api.MkSearchDomains (api.Desired sd) (api.Installed sd) (api.Waiting sd) []) e).

Definition committed_ip (next : State) : M api.IPRoutes :=
  _ ← commitPolicyLocked next;
  gets (λ s, ip_Resource (sv_ipPolicy s)).
Definition committed_dns (next : State) : M api.DNSRoutes :=
  _ ← commitPolicyLocked next;
  gets (λ s, dp_Resource (sv_dnsPolicy s)).
Definition committed_search (next : State) : M api.SearchDomains :=
  _ ← commitPolicyLocked next;
  gets (λ s, dp_Search (sv_dnsPolicy s)).

Definition patch_ip (base : State → State) (request : patch Prefix) : M api.IPRoutes :=
  st ← gets sv_st;
  order ← accept_order request;
  next ← lift (wrap EPolicy (applyIPPatchLocked (F:=F) CGNATRange TailscaleULARange ServiceIP (base st) order request));
  committed_ip next.
Definition PatchIPRoutes : patch Prefix → M api.IPRoutes := patch_ip id.
Definition ReplaceIPRoutes (bindings : list (Prefix * string)) (acceptAll : list string) : M api.IPRoutes :=
  patch_ip clear_ip (replace_patch bindings acceptAll).
Definition ClearIPRoutes : M api.IPRoutes := st ← gets sv_st; committed_ip (clear_ip st).

Definition patch_dns (base : State → State) (request : patch string) : M api.DNSRoutes :=
  st ← gets sv_st;
  order ← accept_order request;
  next ← lift (wrap EPolicy (applyDNSPatchLocked (F:=F) (base st) order request));
  committed_dns next.
Definition PatchDNSRoutes : patch string → M api.DNSRoutes := patch_dns id.
Definition ReplaceDNSRoutes (bindings : list (string * string)) (acceptAll : list string) : M api.DNSRoutes :=
  patch_dns clear_dns (replace_patch bindings acceptAll).
Definition ClearDNSRoutes : M api.DNSRoutes := st ← gets sv_st; committed_dns (clear_dns st).

Definition PatchSearchDomains (add remove : list string) : M api.SearchDomains :=
  st ← gets sv_st;
  desired ← lift (wrap EPolicy (patch_search (F:=F) (st_SearchDomains st) add remove));
  committed_search (set_SearchDomains st desired).
Definition ReplaceSearchDomains (desired : list string) : M api.SearchDomains :=
  st ← gets sv_st;
  desired ← lift (wrap EPolicy (replace_search (F:=F) desired));
  committed_search (set_SearchDomains st desired).
Definition ClearSearchDomains : M api.SearchDomains := st ← gets sv_st; committed_search (set_SearchDomains st []).

Definition SetExitNode (name peer : string) : M api.ExitNodes :=
  st ← gets sv_st;
  '(_, configured) ← lift (wrap EExitNode (wrap EExitPolicy (profileByName (st_Profiles st) name)));
  _ ← fail_if (pr_Removed configured) (EExitNode (EExitPolicy (EProfileRemoved name)));
  _ ← fail_if (pr_Disabled configured) (EExitNode (EExitDisabled name));
  statuses ← statusesLocked;
  next ← lift (wrap EExitNode (choose_exit_node st statuses name peer));
  _ ← commitPolicyLocked next;
  exitNodes.
Definition ClearExitNode : M api.ExitNodes :=
  st ← gets sv_st;
  match st_ExitNode st with
  | None => exitNodes
  | Some _ => _ ← commitPolicyLocked (set_ExitNode st None); exitNodes
  end.
End control.
