(* ===== verification/WireGuardAPI.v ===== *)
(** * The WireGuard handlers of the control API

    cmd/tailmixd/wireguardapi.go: applying a configuration, its view, and the
    shields-up switch.  A new secret file is written before anything is saved and
    deleted again unless the save succeeds; after the save the saved state is
    what is retried, and nothing is undone. *)

From S2P Require Import Prelude Effects GoStrings FilePath Netip RoutingTable PacketMap EffectiveIP DNSName WireGuardKey PacketFilterCfg WireGuardCfg State Types HostPools LeasePlan RoutingPolicy IPSet WireGuardFilter PolicyPatch Paths ProfileView Runtime WireGuardSecrets Supervisor ControlAPI.
Local Open Scope Z_scope.

(** ** The public view *)

Record WireGuardDestinationResolution : Type := MkWGResolution {
  wr_GrantIndex : nat; wr_Selector : string; wr_State : string; wr_Reason : string }.
Record WireGuardPeer : Type := MkWGPeer {
  wp_Name : string; wp_PublicKey : string; wp_Endpoint : string; wp_Online : bool; wp_LastHandshake : Z;
  wp_ReceiveBytes : Z; wp_TransmitBytes : Z; wp_Addresses : list Addr; wp_EffectiveAddresses : list Addr;
  wp_Routes : list Prefix; wp_ExitNode : bool; wp_ExitNodeSelected : bool }.
Record WireGuardProfile : Type := MkWGProfile {
  wg_Name : string; wg_Kind : string; wg_PublicKey : string; wg_ListenPort : Z; wg_Addresses : list Addr;
  wg_DNSSuffix : string; wg_PacketFilter : PacketFilter; wg_ShieldsUp : bool; wg_GrantCount : nat;
  wg_DestinationResolutions : list WireGuardDestinationResolution; wg_Peers : list WireGuardPeer }.

Definition MaxInt64 : Z := 2 ^ 63 - 1.
Definition boundedCounter (value : Z) : Z := if MaxInt64 <? value then MaxInt64 else value.
(** [tailmixprofile.PeerStatus{}]. *)
Definition zero_peer : PeerStatus := MkPeerStatus "" "" "" "" [] false 0 0 0 false false None.
Definition peer_view (statusByName : gmap string PeerStatus) (leaseByKey : gmap NodeKey Addr) (exitNodeID profileID : string)
    (peer : Peer) : WireGuardPeer :=
  let observed := default zero_peer (statusByName !! peer_Name peer) in
  MkWGPeer (peer_Name peer) (key_String (PublicKey peer)) (Endpoint peer) (ps_Online observed) (ps_LastHandshake observed)
    (boundedCounter (ps_RxBytes observed)) (boundedCounter (ps_TxBytes observed)) (peer_Addresses peer)
    (omap (λ address, leaseByKey !! MkKey profileID (peer_Name peer) address) (peer_Addresses peer))
    (peer_Routes peer) (ExitNode peer) (String.eqb exitNodeID (peer_Name peer)).
(** Of entries with the same key the last one counts. *)
Definition status_by_name (peers : list PeerStatus) : gmap string PeerStatus :=
  list_to_map ((λ p, (ps_NodeID p, p)) <$> reverse peers).
Definition lease_by_key (leases : list Lease) : gmap NodeKey Addr :=
  list_to_map ((λ l, (l_NodeKey l, l_EffectiveIP l)) <$> reverse leases).

(** ** Checks *)

Definition beforeProfileRemoved (ps : list Profile) (profileID : string) : bool :=
  match profileByID ps profileID with Some p => pr_Removed p | None => false end.
Definition validateWireGuardEndpointNames (config : Config) : result sup_error unit :=
  let peerNames : gset string := list_to_set ((λ p, ToLower (peer_Name p +:+ "." +:+ c_DNSSuffix config)) <$> c_Peers config) in
  guard_err (existsb (λ p, negb (String.eqb (Endpoint p) "") &&
    match SplitHostPort (Endpoint p) with
    | Some (host, _) => bool_decide (ToLower (TrimSuffix host ".") ∈ peerNames)
    | None => false
    end) (c_Peers config)) EOwnEndpoint.

Section api.
Context {T : Type → Type} `{LPM T} {F : Type} `{DNSName F} `{StateJSON} {E Fw W : Type} `{Runtime E Fw W}.
Context {B S : Type} `{IPSets B S}.
Context (CGNATRange TailscaleULARange : Prefix) (ServiceIP : Addr) (path : string) (tun_mode : bool).
Local Notation supervisor := (supervisor (T:=T) (E:=E) (Fw:=Fw) (W:=W)).
Local Notation M := (stm supervisor sup_error).
Local Notation reconcileLocked := (reconcileLocked (T:=T) (F:=F) CGNATRange TailscaleULARange ServiceIP path tun_mode).

Definition validateWireGuardKeyOwnership (config : Config) (secrets : Secrets) : result sup_error unit :=
  match s_PrivateKey secrets with
  | None => Err EKeyRequired
  | Some key =>
    match Key_Public key with
    | None => Err EKeyDerive
    | Some public => guard_err (existsb (λ peer, bool_decide (PublicKey peer = public)) (c_Peers config)) EPeerOwnKey
    end
  end.

Definition wireGuardProfileLocked (configured : Profile) : M WireGuardProfile :=
  match pr_WireGuard configured with
  | None => fail EWireGuardState
  | Some config =>
    resolutions ← (lift (wrap EResolutions (DestinationResolutions (B:=B) (S:=S) config)) : M (list DestinationResolution));
    runtimes ← gets sv_runtimes;
    '(status, publicKey) ←
      match runtimes !! pr_ID configured with
      | Some managed =>
        r ← ext (engine_Status (m_Engine managed));
        match r with
        | None => fail (EEngineStatus (pr_ID configured))
        | Some status => mret (status, s_PublicKey status)
        end
      | None =>
        secrets ← (peek (readWireGuardSecrets (pr_StateDir configured) (pr_WireGuardSecretFile configured)) : M (option Secrets));
        mret (zero_status, match (secrets ≫= s_PrivateKey) ≫= Key_Public with Some public => key_String public | None => "" end)
      end;
    st ← gets sv_st;
    let statusByName := status_by_name (s_Peers status) in
    let leaseByKey := lease_by_key (leasesFromState (st_Leases st)) in
    mret (MkWGProfile (profileName configured) ProfileKindWireGuard publicKey (s_ListenPort status) (c_Addresses config)
      (c_DNSSuffix config) (c_PacketFilter config) (pr_WireGuardShieldsUp configured) (length (Grants (c_PacketFilter config)))
      ((λ r, MkWGResolution (dr_GrantIndex r) (dr_Selector r) (dr_State r) (dr_Reason r)) <$> resolutions)
      (go_sort (less_key wp_Name) (peer_view statusByName leaseByKey (s_ExitNodeID status) (pr_ID configured) <$> c_Peers config)))
  end.

Definition WireGuardProfile_ (name : string) : M WireGuardProfile :=
  '(_, configured) ← configuredByNameLocked (TrimSpace name);
  _ ← fail_if (negb (String.eqb (pr_Kind configured) ProfileKindWireGuard) || bool_decide (pr_WireGuard configured = None))
        (ENotWireGuard name);
  wireGuardProfileLocked configured.

(** ** Applying a configuration *)

(** The profile to configure among the profiles of the next state, new or
    found, and what it has so far. *)
Record target : Type := MkTarget {
  tg_Profiles : list Profile; tg_index : nat; tg_configured : Profile; tg_create : bool;
  tg_secrets : Secrets; tg_file : string; tg_running : bool }.
Definition apply_target (config : Config) : M target :=
  st ← gets sv_st;
  match profileByName (st_Profiles st) (c_Name config) with
  | Ok (i, configured) =>
    _ ← fail_if (negb (String.eqb (pr_Kind configured) ProfileKindWireGuard)) (EProfileExists (c_Name config));
    _ ← fail_if (bool_decide (pr_WireGuard configured = None)) EWireGuardState;
    old ← peek (readWireGuardSecrets (pr_StateDir configured) (pr_WireGuardSecretFile configured));
    match old with
    | None => fail EWireGuardSecrets
    | Some old =>
      runtimes ← gets sv_runtimes;
      mret (MkTarget (st_Profiles st) i configured false old (pr_WireGuardSecretFile configured)
              (bool_decide (is_Some (runtimes !! pr_ID configured))))
    end
  | Err _ =>
    id ← randomOpaque "p_" 8;
    wd ← peek os_Getwd;
    stateDir ← lift (wrap EPath (validateNewStateDirLocked wd path (st_Profiles st) (defaultProfileStateDir path id)));
    let ps := st_Profiles st ++ [MkProfile id (c_Name config) "" ProfileKindWireGuard stateDir "" "" false false false false None "" false] in
    match profileByName ps (c_Name config) with
    | Ok (i, configured) => mret (MkTarget ps i configured true (MkSecrets None ∅) "" false)
    | Err _ => fail ENilPointer
    end
  end.
Definition configure (configured : Profile) (config : Config) (secretFile : string) (enable : bool) : Profile :=
  MkProfile (pr_ID configured) (pr_Name configured) (pr_Alias configured) ProfileKindWireGuard (pr_StateDir configured) ""
    (c_DNSSuffix config) (if enable then false else pr_Disabled configured) false (pr_AcceptAllRoutes configured)
    (pr_AcceptAllDNSRoutes configured) (Some config) secretFile (pr_WireGuardShieldsUp configured).
Definition desired_state (before : State) (t : target) (config : Config) (secretFile : string) : State :=
  let enable := tg_create t || beforeProfileRemoved (st_Profiles before) (pr_ID (tg_configured t)) in
  Normalize (F:=F) (set_Profiles before (<[tg_index t := configure (tg_configured t) config secretFile enable]> (tg_Profiles t))).
(** From the new state to its save; the result has the normalized profile and
    the engine with an update under way. *)
Definition save_desired (t : target) (config : Config) (secrets : Secrets) (secretFile : string) : M (State * Profile * option E) :=
  before ← gets sv_st;
  let next := desired_state before t config secretFile in
  match profileByID (st_Profiles next) (pr_ID (tg_configured t)) with
  | None => fail EDisappeared
  | Some configured =>
    engineApply ←
      (if tg_running t then
         runtimes ← gets sv_runtimes;
         match runtimes !! pr_ID configured with
         | None => fail ENilPointer
         | Some managed =>
           _ ← fail_if (negb (engine_WireGuard (m_Engine managed))) EIncompatibleEngine;
           ok ← ext (engine_PrepareApply (m_Engine managed) config secrets);
           _ ← fail_if (negb ok) EPrepareApply;
           mret (Some (m_Engine managed))
         end
       else mret None);
    r ← store_Save (F:=F) path next;
    match r with
    | Err e => fail (ESupStore e)
    | Ok _ => _ ← modify (set_st next); mret (next, configured, engineApply)
    end
  end.
(** The deferred removal of the new secret file. *)
Definition or_remove {A} (stateDir secretFile : string) (m : M A) : M A :=
  r ← try m;
  match r with
  | Ok a => mret a
  | Err e => _ ← ext_ (removeWireGuardSecrets stateDir secretFile); fail e
  end.
(** A failure after the save: it stays on record until a retry succeeds. *)
Definition degraded {A} (profileID : string) (cause report : sup_error) : M A :=
  _ ← set_lastError profileID (EDegraded cause);
  fail report.
Definition or_degraded (profileID : string) (e : sup_error) (f : E → W → W * bool) (engine : option E) : M unit :=
  match engine with
  | None => mret tt
  | Some engine => ok ← ext (f engine); if ok : bool then mret tt else degraded profileID e e
  end.
Definition start_applied (configured : Profile) : M (option E) :=
  r ← try (startProfileLockedWithWireGuardTransition tun_mode configured "" "" true);
  match r with
  | Err e => degraded (pr_ID configured) e (EStartFailed e)
  | Ok _ =>
    runtimes ← gets sv_runtimes;
    match runtimes !! pr_ID configured with
    | None => fail ENilPointer
    | Some managed =>
      _ ← fail_if (negb (engine_WireGuard (m_Engine managed))) EIncompatibleEngine;
      mret (Some (m_Engine managed))
    end
  end.
Definition apply_saved (next : State) (configured : Profile) (wasRunning : bool) (engineApply : option E) : M WireGuardProfile :=
  let profileID := pr_ID configured in
  _ ← or_degraded profileID EApplyFailed apply_Apply engineApply;
  startedEngine ← (if negb (pr_Disabled configured) && negb wasRunning then start_applied configured else mret None);
  _ ← (if negb (pr_Disabled configured) then
         r ← try reconcileLocked;
         match r with
         | Ok _ => mret tt
         | Err e => _ ← modify (set_st next); degraded profileID e (EReconcileFailed e)
         end
       else mret tt);
  _ ← or_degraded profileID EPublishFilter apply_Commit engineApply;
  _ ← or_degraded profileID EPublishFilter engine_CommitStartPolicy startedEngine;
  _ ← clear_lastError profileID;
  wireGuardProfileLocked configured.
Definition ApplyWireGuard (requested : Config) (supplied : Secrets) : M WireGuardProfile :=
  _ ← requireDaemonUpLocked;
  config ← lift (wrap EApplyConfig (NormalizeConfig requested));
  _ ← fail_if (negb tun_mode) EWireGuardUnsupported;
  _ ← lift (validateWireGuardEndpointNames config);
  t ← apply_target config;
  let stateDir := pr_StateDir (tg_configured t) in
  r ← ext (completeWireGuardSecrets config supplied (tg_secrets t) (tg_create t));
  secrets ← lift (wrap ESecrets r);
  _ ← lift (validateWireGuardKeyOwnership config secrets);
  secretFile ← ext (writeWireGuardSecrets stateDir secrets);
  match secretFile with
  | None => fail EWriteSecrets
  | Some secretFile =>
    '(next, configured, engineApply) ← or_remove stateDir secretFile (save_desired t config secrets secretFile);
    _ ← (if negb (String.eqb (tg_file t) "") && negb (String.eqb (tg_file t) secretFile)
         then ext_ (removeWireGuardSecrets stateDir (tg_file t)) else mret tt);
    apply_saved next configured (tg_running t) engineApply
  end.

(** ** Shields up *)

Definition set_ShieldsUp (p : Profile) (enabled : bool) : Profile := set_switches p (pr_Disabled p) (pr_Removed p) enabled.
Definition exit_ip (st : State) (profileID : string) : Addr :=
  match st_ExitNode st with
  | Some e => if String.eqb (en_ProfileID e) profileID then en_PeerIP e else AddrInvalid
  | None => AddrInvalid
  end.
(** The engine with an update under way, when one runs. *)
Definition prepare_shields (st : State) (configured : Profile) (config : Config) (enabled : bool) : M (option E) :=
  runtimes ← gets sv_runtimes;
  match runtimes !! pr_ID configured with
  | Some managed =>
    _ ← fail_if (negb (engine_WireGuard (m_Engine managed))) EIncompatibleEngine;
    ok ← ext (engine_PrepareShieldsUp (m_Engine managed) enabled);
    _ ← fail_if (negb ok) (ECompileFilter None);
    mret (Some (m_Engine managed))
  | None =>
    _ ← lift (wrap (λ e, ECompileFilter (Some e)) (Compile (B:=B) (S:=S) config (exit_ip st (pr_ID configured)) enabled));
    mret None
  end.
Definition commit_shields (profileID : string) (engine : E) : M unit :=
  ok ← ext (shields_Commit engine);
  if negb ok then _ ← set_lastError profileID EShieldsCommit; fail EShieldsCommit
  else
    status ← ext (engine_Status engine);
    _ ← match status with Some status => update_managed profileID (set_status status) | None => mret tt end;
    clear_lastError profileID.
Definition SetWireGuardShieldsUp (name : string) (enabled : bool) : M WireGuardProfile :=
  '(_, configured) ← configuredByNameLocked (TrimSpace name);
  _ ← fail_if (pr_Removed configured) (ERemoved name);
  match pr_WireGuard configured with
  | None => fail (ENotWireGuard name)
  | Some config =>
    _ ← fail_if (negb (String.eqb (pr_Kind configured) ProfileKindWireGuard)) (ENotWireGuard name);
    if eqb (pr_WireGuardShieldsUp configured) enabled then wireGuardProfileLocked configured
    else
      st ← gets sv_st;
      update ← prepare_shields st configured config enabled;
      _ ← match update with
          | Some engine => ok ← ext (shields_ApplyBeforeSave engine); fail_if (negb ok) EShieldsApply
          | None => mret tt
          end;
      '(i, nextConfigured) ← match list_find (λ p, pr_ID p = pr_ID configured) (st_Profiles st) with
                             | Some x => mret x
                             | None => fail ENilPointer
                             end;
      let configured := set_ShieldsUp nextConfigured enabled in
      let next := set_Profiles st (<[i := configured]> (st_Profiles st)) in
      r ← store_Save (F:=F) path next;
      match r with
      | Err e => _ ← match update with Some engine => ext_ (shields_Rollback engine) | None => mret tt end; fail (ESupStore e)
      | Ok _ =>
        _ ← modify (set_st next);
        _ ← match update with Some engine => commit_shields (pr_ID configured) engine | None => mret tt end;
        wireGuardProfileLocked configured
      end
  end.
End api.
