(* ===== verification/StateEdits.v ===== *)
(** * Edits of the desired state

    The handlers of the control API change the state through a few edits: a
    field of one profile, a new profile, a policy that is committed, a profile
    that is purged.  Each leaves a state in normal form, with valid profiles, pools
    and leases that identify targets ([st_ok]), in normal form again. *)

From S2P Require Import Prelude GoStrings FilePath Netip RoutingTable EffectiveIP DNSName WireGuardCfg State Types HostPools LeasePlan RoutingPolicy DNSPolicy TUNPlan PolicyPatch ExitNodes Paths Runtime WireGuardSecrets Supervisor SupervisorFacts ControlAPI.
Local Open Scope Z_scope.

Lemma Forall_sublist {A} (P : A → Prop) k l : k `sublist_of` l → Forall P l → Forall P k.
Proof. intros Hs. rewrite !Forall_forall. intros Hl x Hx. apply Hl. by eapply elem_of_sublist. Qed.
Lemma StronglySorted_sublist {A} (R : A → A → Prop) k l : k `sublist_of` l → StronglySorted R l → StronglySorted R k.
Proof.
  induction 1 as [|x k l Hs IH|x k l Hs IH]; intros Hl; [done| |]; apply StronglySorted_inv in Hl as [Hl Hx]; [|by apply IH].
  constructor; [by apply IH|]. by eapply Forall_sublist.
Qed.
Lemma sublist_filter_mono {A} (P : A → Prop) `{∀ x, Decision (P x)} k l : k `sublist_of` l → filter P k `sublist_of` filter P l.
Proof.
  induction 1 as [|x k l Hs IH|x k l Hs IH]; [done|rewrite !filter_cons|rewrite filter_cons]; (destruct (decide (P x)); [|done]).
  - by constructor.
  - by constructor.
Qed.

Section edits.
Context {F : Type} `{DN : DNSName F, !DNSNameLaws F} (ServiceIP : Addr) (pool : bool → Prefix).
Local Notation st_ok := (st_ok (F:=F) ServiceIP pool).
Local Notation policy_ok := (policy_ok (F:=F)).

(** ** Normalizing *)

Lemma Normalize_wf st : state_wf (F:=F) st → state_wf (F:=F) (Normalize (F:=F) st).
Proof using DNSNameLaws0.
  intros [Hp Hd Hs]. rewrite Forall_forall in Hp. rewrite Forall_forall in Hd. rewrite Forall_forall in Hs.
  split; cbn -[normalize_search]; apply Forall_forall.
  - intros b Hb. unfold normalize_ip_bindings, map_values in Hb.
    apply elem_of_go_sort, list_elem_of_fmap in Hb as ([k b'] & -> & Hb%elem_of_map_to_list). cbn.
    apply build_map_lookup, decides_elem in Hb as (x & Hx & (-> & _ & _ & _)%ip_entry_inv). cbn.
    by apply netip_facts.Masked_masked, Hp.
  - intros b Hb. unfold normalize_dns_bindings, map_values in Hb.
    apply elem_of_go_sort, list_elem_of_fmap in Hb as ([k b'] & -> & Hb%elem_of_map_to_list). cbn.
    apply build_map_lookup, decides_elem in Hb as (x & Hx & (-> & _)%dns_entry_inv). cbn.
    by apply normalizeDomain_clean, Hd.
  - assert (Hg : ∀ acc l, (∀ d, d ∈ acc → domain_clean (F:=F) d) → (∀ d, d ∈ l → domain_clean (F:=F) d) →
      ∀ d, d ∈ foldl (add_search_domain (F:=F)) acc l → domain_clean (F:=F) d).
    { intros acc l. revert acc. induction l as [|raw l IH]; intros acc Ha Hl d; cbn [foldl]; [apply Ha|].
      apply IH; [|intros x Hx; apply Hl; by right]. intros x. unfold add_search_domain.
      destruct (_ || _); [apply Ha|]. intros [Hx| ->]%elem_of_snoc; [by apply Ha|]. apply normalizeDomain_clean, Hl. by left. }
    intros d. apply Hg; [by intros ? ?%elem_of_nil|exact Hs].
Qed.
(** What [Normalize] makes of a state whose parts are good. *)
Lemma Normalize_ok st : state_wf (F:=F) st → (∀ p, p ∈ st_Profiles st → pr_ID p ≠ "") →
  Forall valid_profile (default_profile <$> st_Profiles st) → pools_ok ServiceIP st pool →
  leases_unique (leasesFromState (st_Leases st)) → st_ok (Normalize (F:=F) st).
Proof using DNSNameLaws0.
  intros Hwf Hids Hv Hp Hl. split.
  - split; [by apply Normalize_wf| |].
    + exact (Normalize_fix st (st_Profiles (Normalize (F:=F) st)) Hwf (Normalize_profiles_normal st)).
    + intros p Hq. cbn in Hq. apply elem_of_go_sort, list_elem_of_fmap in Hq as (q & -> & Hq). exact (Hids q Hq).
  - cbn. by rewrite go_sort_Permutation.
  - by apply (pools_ext ServiceIP pool st).
  - done.
Qed.
Lemma normal_profiles st : st_ok st → default_profile <$> st_Profiles st = st_Profiles st.
Proof using.
  intros Hst. destruct (nf_profiles _ (proj1 (normal_iff st) (ok_normal _ (so_policy _ _ _ Hst)))) as [Hd _].
  rewrite <-(list_fmap_id (st_Profiles st)) at 2. apply list_fmap_ext. intros i p Hp%list_elem_of_lookup_2.
  rewrite Forall_forall in Hd. by apply Hd.
Qed.

(** ** One profile *)

(** A change that keeps what the normal form and the validation look at. *)
Definition same_shape (p p' : Profile) : Prop :=
  pr_ID p' = pr_ID p ∧ pr_Name p' = pr_Name p ∧ pr_Kind p' = pr_Kind p ∧ pr_WireGuard p' = pr_WireGuard p ∧
  pr_WireGuardSecretFile p' = pr_WireGuardSecretFile p.
Lemma same_shape_ok p p' : same_shape p p' → (default_profile p = p → default_profile p' = p') ∧ (valid_profile p → valid_profile p').
Proof using.
  destruct p as [id nm al ki sd hn sx di re ar ad wg sf su], p' as [id' nm' al' ki' sd' hn' sx' di' re' ar' ad' wg' sf' su'].
  unfold same_shape. cbn. intros (-> & -> & -> & -> & ->). split.
  - unfold default_profile. cbn. intros Hd. injection Hd. congruence.
  - unfold valid_profile, validateProfile. cbn. destruct (String.eqb ki ProfileKindTailscale). { by destruct (_ || _). }
    destruct (String.eqb ki ProfileKindWireGuard); [|done]. destruct wg as [c|]; [|done]. intros Hp.
    ok_inv Hp as c' Hc. ok_guard Hp as Hn. ok_guard Hp as Hs. ok_guard Hp as Hb. rewrite Hc. cbn. rewrite Hn, Hs, Hb. cbn.
    unfold set_WireGuard in Hp. cbn in Hp. by simplify_eq.
Qed.
Lemma put_ok st i p p' : st_ok st → st_Profiles st !! i = Some p → pr_ID p' = pr_ID p → default_profile p' = p' →
  valid_profile p' → st_ok (set_Profiles st (<[i := p']> (st_Profiles st))).
Proof using.
  intros [Hpol Hv Hpools Hl] Hi Hid Hd Hval. pose proof (proj1 (normal_iff st) (ok_normal _ Hpol)) as [Hps _ _ _ He].
  assert (Eids : pr_ID <$> <[i := p']> (st_Profiles st) = pr_ID <$> st_Profiles st).
  { rewrite list_fmap_insert, Hid. apply list_insert_id. by rewrite list_lookup_fmap, Hi. }
  split; cbn.
  - apply (policy_ok_ext st); try done; cbn.
    + destruct Hps as [H1 H2]. split; [by apply Forall_insert|]. apply (StronglySorted_key pr_ID).
      rewrite Eids. by apply (StronglySorted_key pr_ID).
    + intros q Hq%(list_elem_of_fmap_2 pr_ID). rewrite Eids in Hq. apply list_elem_of_fmap in Hq as (q0 & -> & Hq). by apply Hpol.
  - by apply Forall_insert.
  - by apply (pools_ext ServiceIP pool st).
  - done.
Qed.
Lemma put_shape_ok st i p p' : st_ok st → st_Profiles st !! i = Some p → same_shape p p' →
  st_ok (set_Profiles st (<[i := p']> (st_Profiles st))).
Proof using.
  intros Hst Hi Hs. apply (put_ok st i p p' Hst Hi); [apply Hs| |].
  - apply (same_shape_ok p p' Hs). apply list_elem_of_lookup_2 in Hi. rewrite <-(normal_profiles st Hst) in Hi.
    apply list_elem_of_fmap in Hi as (q & -> & _). by apply default_profile_idemp.
  - apply (same_shape_ok p p' Hs). pose proof (so_valid _ _ _ Hst) as Hv. rewrite Forall_forall in Hv.
    by eapply Hv, list_elem_of_lookup_2.
Qed.
Lemma set_switches_shape p d r s : same_shape p (set_switches p d r s).
Proof using. done. Qed.
Lemma set_Hostname_shape p h : same_shape p (set_Hostname p h).
Proof using. done. Qed.
Lemma restored_shape p q : same_shape p (restored p q).
Proof using. unfold restored. by destruct (negb _). Qed.

Lemma validProfileName_nonempty name : validProfileName name = true → name ≠ "".
Proof using. by intros Hv ->. Qed.
Lemma check_rename_ok ps p raw p' : default_profile p = p → valid_profile p → check_rename ps p raw = Ok p' →
  pr_ID p' = pr_ID p ∧ default_profile p' = p' ∧ valid_profile p' ∧ pr_Name p' = TrimSpace raw ∧ pr_Kind p' = pr_Kind p ∧
  p' = set_WireGuard (set_Name p (TrimSpace raw)) (pr_WireGuard p').
Proof using.
  intros Hd Hv Hc. unfold check_rename in Hc. set (name := TrimSpace raw) in *.
  ok_guard Hc as Hn%negb_false_iff%validProfileName_nonempty. apply bind_ok_inv in Hc as (u & _ & Hc).
  destruct p as [id nm al ki sd hn sx di re ar ad wg sf su]. unfold default_profile in Hd. cbn in Hd. injection Hd as Hnm Hki.
  unfold valid_profile, validateProfile in Hv. cbn in Hv, Hc.
  assert (Hdef : ∀ wg', default_profile (MkProfile id name al ki sd hn sx di re ar ad wg' sf su) = MkProfile id name al ki sd hn sx di re ar ad wg' sf su).
  { intros wg'. unfold default_profile. cbn. rewrite Hki. by apply String.eqb_neq in Hn as ->. }
  destruct wg as [c|].
  - destruct (NormalizeConfig (config_with_name c name)) as [c'|] eqn:Ec; [|done]. injection Hc as <-. cbn. split_and!; [done|apply Hdef| |done..].
    destruct (NormalizeConfig_inv _ _ Ec) as (Hval & c0 & Hc0). pose proof (sorted_valid_normal _ _ Hc0 Hval) as Hfix.
    assert (Hname : c_Name c' = name).
    { unfold NormalizeConfig in Ec. destruct (normalizeDNSSuffix _); [|done]. ok_inv Ec as f Hf. ok_inv Ec as u' Hu.
      by injection Ec as <-. }
    unfold valid_profile, validateProfile. cbn. destruct (String.eqb_spec ki ProfileKindTailscale) as [->|Hk]; [done|].
    destruct (String.eqb ki ProfileKindWireGuard); [|done]. ok_inv Hv as c1 Hc1. ok_guard Hv as Hn1. ok_guard Hv as Hs. ok_guard Hv as Hb.
    rewrite Hfix. cbn. rewrite Hname, String.eqb_refl. cbn. by rewrite Hs, Hb.
  - injection Hc as <-. cbn. split_and!; [done|apply Hdef| |done..]. unfold valid_profile, validateProfile. cbn.
    destruct (String.eqb ki ProfileKindTailscale). { by destruct (bool_decide _), (String.eqb sf ""). }
    by destruct (String.eqb ki ProfileKindWireGuard).
Qed.

(** ** The other edits *)

Lemma set_Down_ok st d : st_ok st → st_ok (set_Down st d).
Proof using.
  intros [Hpol Hv Hpools Hl]. pose proof (proj1 (normal_iff st) (ok_normal _ Hpol)) as [? _ _ _ ?]. split; cbn; [|done|by apply (pools_ext ServiceIP pool st)|done].
  apply (policy_ok_ext st); try done. apply Hpol.
Qed.
Lemma without_exit_ok st id : st_ok st → st_ok (without_exit st id).
Proof using.
  intros Hst. unfold without_exit. destruct (st_ExitNode st) as [e|]; [|done]. destruct (String.eqb _ _); [|done].
  destruct Hst as [Hpol Hv Hpools Hl]. pose proof (proj1 (normal_iff st) (ok_normal _ Hpol)) as [? _ _ _ _].
  split; cbn; [|done|by apply (pools_ext ServiceIP pool st)|done]. apply (policy_ok_ext st); try done. apply Hpol.
Qed.
Lemma purged_ok st id : st_ok st → st_ok (purged st id).
Proof using.
  intros [Hpol Hv Hpools Hl]. pose proof (proj1 (normal_iff st) (ok_normal _ Hpol)) as [[Hd Hs] _ _ _ He].
  assert (Hsub : deleteProfile (st_Profiles st) id `sublist_of` st_Profiles st) by apply sublist_filter.
  split; cbn.
  - apply (policy_ok_ext st); try done; cbn.
    + split; [by eapply Forall_sublist|by eapply StronglySorted_sublist].
    + intros p Hp. eapply elem_of_sublist in Hp; [|exact Hsub]. by apply Hpol.
  - by eapply Forall_sublist.
  - by apply (pools_ext ServiceIP pool st).
  - destruct Hl as [H1 H2]. assert (Hsl : leasesFromState (deleteProfileLeases (st_Leases st) id) `sublist_of` leasesFromState (st_Leases st)).
    { unfold leasesFromState, deleteProfileLeases. by apply fmap_sublist, sublist_filter_mono, sublist_filter. }
    split; (eapply sublist_NoDup; [|by apply fmap_sublist]); done.
Qed.

(** ** Policies to commit *)

(** A state whose profiles, pools and leases are those of a good one. *)
Lemma commit_ok st st' : st_ok st → state_wf (F:=F) st' → default_profile <$> st_Profiles st' = st_Profiles st' →
  Forall valid_profile (st_Profiles st') → (∀ p, p ∈ st_Profiles st' → pr_ID p ≠ "") →
  st_Leases st' = st_Leases st → st_SyntheticPool st' = st_SyntheticPool st → st_SyntheticPoolV6 st' = st_SyntheticPoolV6 st →
  st_ok (Normalize (F:=F) st').
Proof using DNSNameLaws0.
  intros Hst Hwf Hd Hv Hids El E4 E6. apply Normalize_ok; [done|done|by rewrite Hd| |rewrite El; apply Hst].
  apply (pools_ext ServiceIP pool st); [done..|apply Hst].
Qed.
Lemma accept_shape set order ps ps' : (∀ p x, same_shape p (set p x)) → foldM (accept_step set) order ps = Ok ps' →
  Forall valid_profile ps → Forall valid_profile ps'.
Proof using.
  intros Hset Hf Hv. apply (foldM_ind (λ _ qs, Forall valid_profile qs) _ _ _ _ Hf); [done|].
  intros _ e qs qs' _ Hq Hst. unfold accept_step in Hst.
  apply bind_ok_inv in Hst as ([i p] & (Hl & Hp & _)%profileByName_in & Hst). ok_guard Hst as Hr. injection Hst as <-.
  apply Forall_insert; [done|]. rewrite Forall_forall in Hq. apply (same_shape_ok p); [apply Hset|by apply Hq].
Qed.
Lemma AcceptAllRoutes_shape p x : same_shape p (set_AcceptAllRoutes p x).
Proof using. done. Qed.
Lemma AcceptAllDNSRoutes_shape p x : same_shape p (set_AcceptAllDNSRoutes p x).
Proof using. done. Qed.
Lemma policy_default st : policy_ok st → default_profile <$> st_Profiles st = st_Profiles st.
Proof using.
  intros Hst. destruct (nf_profiles _ (proj1 (normal_iff st) (ok_normal _ Hst))) as [Hd _].
  rewrite <-(list_fmap_id (st_Profiles st)) at 2. apply list_fmap_ext. intros i p Hp%list_elem_of_lookup_2.
  rewrite Forall_forall in Hd. by apply Hd.
Qed.
Lemma commit_policy_ok st st' : st_ok st → policy_ok st' → Forall valid_profile (st_Profiles st') →
  st_Leases st' = st_Leases st → st_SyntheticPool st' = st_SyntheticPool st → st_SyntheticPoolV6 st' = st_SyntheticPoolV6 st →
  st_ok (Normalize (F:=F) st').
Proof using DNSNameLaws0.
  intros Hst Hpol Hv ? ? ?. apply (commit_ok st); try done; [apply Hpol|by apply policy_default|apply Hpol].
Qed.
Lemma applied_fields CGNAT ULA st order request st' : applyIPPatchLocked (F:=F) CGNAT ULA ServiceIP st order request = Ok st' →
  ∃ ps, foldM (accept_step set_AcceptAllRoutes) order (st_Profiles st) = Ok ps ∧
    (st_Profiles st' = go_sort (less_key pr_ID) (default_profile <$> ps)) ∧
    st_Leases st' = st_Leases st ∧ st_SyntheticPool st' = st_SyntheticPool st ∧ st_SyntheticPoolV6 st' = st_SyntheticPoolV6 st.
Proof using.
  unfold applyIPPatchLocked. intros (ps & Hps & Hp)%bind_ok_inv. apply bind_ok_inv in Hp as (bs & _ & Hp). injection Hp as <-.
  by exists ps.
Qed.
Lemma applied_dns_fields st order request st' : applyDNSPatchLocked (F:=F) st order request = Ok st' →
  ∃ ps, foldM (accept_step set_AcceptAllDNSRoutes) order (st_Profiles st) = Ok ps ∧
    (st_Profiles st' = go_sort (less_key pr_ID) (default_profile <$> ps)) ∧
    st_Leases st' = st_Leases st ∧ st_SyntheticPool st' = st_SyntheticPool st ∧ st_SyntheticPoolV6 st' = st_SyntheticPoolV6 st.
Proof using.
  unfold applyDNSPatchLocked. intros (ps & Hps & Hp)%bind_ok_inv. apply bind_ok_inv in Hp as (bs & _ & Hp). injection Hp as <-.
  by exists ps.
Qed.
Lemma accepted_valid set order st ps : (∀ p x, same_shape p (set p x)) → st_ok st →
  foldM (accept_step set) order (st_Profiles st) = Ok ps →
  Forall valid_profile (go_sort (less_key pr_ID) (default_profile <$> ps)).
Proof using.
  intros Hset Hst Hps. rewrite go_sort_Permutation.
  assert (Hn : profiles_normal ps).
  { eapply accept_normal; [|exact Hps|apply (normal_iff st), (so_policy _ _ _ Hst)].
    intros p x. split; [apply Hset|apply (same_shape_ok p), Hset]. }
  assert (default_profile <$> ps = ps) as ->.
  { rewrite <-(list_fmap_id ps) at 2. apply list_fmap_ext. intros i p Hp%list_elem_of_lookup_2.
    destruct Hn as [Hd _]. rewrite Forall_forall in Hd. by apply Hd. }
  eapply accept_shape; [done|exact Hps|apply Hst].
Qed.
Lemma ip_patch_ok CGNAT ULA st order request st' : st_ok st → Forall (λ m : Prefix * string, prefix.wf m.1 = true) (pt_Bind request) →
  applyIPPatchLocked (F:=F) CGNAT ULA ServiceIP st order request = Ok st' → st_ok (Normalize (F:=F) st').
Proof using DNSNameLaws0.
  intros Hst Hwf Ha. destruct (applied_fields _ _ _ _ _ _ Ha) as (ps & Hps & Ep & El & E4 & E6).
  apply (commit_policy_ok st); [done| |rewrite Ep; by apply (accepted_valid set_AcceptAllRoutes order st)|done..].
  pose proof (ip_patch_spec (F:=F) CGNAT ULA ServiceIP st order request (so_policy _ _ _ Hst) Hwf) as Hs.
  destruct (spec_ip _ _ _ _ _ _) as [[ps' t]|e]; [|congruence]. destruct Hs as (bs & Hs & _ & Hok). congruence.
Qed.
Lemma dns_patch_ok st order request st' : st_ok st → Forall (λ m : string * string, domain_clean (F:=F) m.1) (pt_Bind request) →
  applyDNSPatchLocked (F:=F) st order request = Ok st' → st_ok (Normalize (F:=F) st').
Proof using DNSNameLaws0.
  intros Hst Hwf Ha. destruct (applied_dns_fields _ _ _ _ Ha) as (ps & Hps & Ep & El & E4 & E6).
  apply (commit_policy_ok st); [done| |rewrite Ep; by apply (accepted_valid set_AcceptAllDNSRoutes order st)|done..].
  pose proof (dns_patch_spec (F:=F) st order request (so_policy _ _ _ Hst) Hwf) as Hs.
  destruct (spec_dns _ _ _) as [[ps' t]|e]; [|congruence]. destruct Hs as (bs & Hs & _ & Hok). congruence.
Qed.

Lemma map_shape_ok (f : Profile → Profile) st : (∀ p, same_shape p (f p)) → st_ok st →
  profiles_normal (f <$> st_Profiles st) ∧ Forall valid_profile (f <$> st_Profiles st) ∧
  (∀ p, p ∈ f <$> st_Profiles st → pr_ID p ≠ "").
Proof using.
  intros Hf Hst. split_and!.
  - apply map_profiles_normal; [|apply (normal_iff st), (so_policy _ _ _ Hst)].
    intros p. split; [apply Hf|apply (same_shape_ok p), Hf].
  - apply Forall_fmap. eapply Forall_impl; [apply Hst|]. intros p Hp. by apply (same_shape_ok p); [apply Hf|].
  - intros p (q & -> & Hq)%list_elem_of_fmap. destruct (Hf q) as [-> _]. by apply (so_policy _ _ _ Hst).
Qed.
Lemma clear_ip_ok st : st_ok st → st_ok (clear_ip st).
Proof using.
  intros Hst. destruct (map_shape_ok (λ p, set_AcceptAllRoutes p false) st (λ p, AcceptAllRoutes_shape p false) Hst) as (Hn & Hv & Hi).
  destruct Hst as [[[W1 W2 W3] Hnm _] _ Hpools Hl]. apply normal_iff in Hnm as [_ N1 N2 N3 N4].
  split; [split; [by split|by apply normal_iff|done]|done|by apply (pools_ext ServiceIP pool st)|done].
Qed.
Lemma clear_dns_ok st : st_ok st → st_ok (clear_dns st).
Proof using.
  intros Hst. destruct (map_shape_ok (λ p, set_AcceptAllDNSRoutes p false) st (λ p, AcceptAllDNSRoutes_shape p false) Hst) as (Hn & Hv & Hi).
  destruct Hst as [[[W1 W2 W3] Hnm _] _ Hpools Hl]. apply normal_iff in Hnm as [_ N1 N2 N3 N4].
  split; [split; [by split|by apply normal_iff|done]|done|by apply (pools_ext ServiceIP pool st)|done].
Qed.

Lemma search_commit_ok st desired : st_ok st → Forall (domain_clean (F:=F)) desired → st_ok (Normalize (F:=F) (set_SearchDomains st desired)).
Proof using DNSNameLaws0.
  intros Hst Hd. apply (commit_ok st); try done; cbn; [|by apply normal_profiles|apply Hst|apply Hst].
  destruct (ok_wf _ (so_policy _ _ _ Hst)). by split.
Qed.
Lemma patch_search_clean st add remove desired : st_ok st → Forall (domain_clean (F:=F)) add →
  patch_search (F:=F) (st_SearchDomains st) add remove = Ok desired → Forall (domain_clean (F:=F)) desired.
Proof using DNSNameLaws0.
  intros Hst Ha Hp. unfold patch_search in Hp. apply bind_ok_inv in Hp as (rm & _ & Hp).
  apply bind_ok_inv in Hp as ([d seen] & Hd & Hp). injection Hp as <-. apply add_desired_ok in Hd. rewrite Forall_forall in Ha.
  pose proof (wf_search _ (ok_wf _ (so_policy _ _ _ Hst))) as Hw. rewrite Forall_forall in Hw. apply Forall_forall.
  intros x [[_ Hx]%list_elem_of_filter|(raw & Hr & Hx)]%(de_elem _ _ _ Hd); [by apply Hw|].
  by apply (canonicalDNSDomain_good _ _ _ (Ha raw Hr) Hx).
Qed.
Lemma replace_search_clean desired0 desired : Forall (domain_clean (F:=F)) desired0 →
  replace_search (F:=F) desired0 = Ok desired → Forall (domain_clean (F:=F)) desired.
Proof using DNSNameLaws0.
  intros Ha Hp. unfold replace_search in Hp. apply bind_ok_inv in Hp as ([d seen] & Hd & Hp). injection Hp as <-.
  apply (add_desired_ok []) in Hd. rewrite Forall_forall in Ha. apply Forall_forall.
  intros x [?%elem_of_nil|(raw & Hr & Hx)]%(de_elem _ _ _ Hd); [done|].
  by apply (canonicalDNSDomain_good _ _ _ (Ha raw Hr) Hx).
Qed.
Lemma exit_commit_ok st e : st_ok st → st_ok (Normalize (F:=F) (set_ExitNode st e)).
Proof using DNSNameLaws0.
  intros Hst. apply (commit_ok st); try done; cbn; [|by apply normal_profiles|apply Hst|apply Hst].
  destruct (ok_wf _ (so_policy _ _ _ Hst)). by split.
Qed.
Lemma chosen_exit st statuses name peer st' : choose_exit_node st statuses name peer = Ok st' → ∃ e, st' = set_ExitNode st (Some e).
Proof using.
  unfold choose_exit_node. intros ([i p] & _ & Hc)%bind_ok_inv. ok_guard Hc as Hr. ok_guard Hc as Hd.
  destruct (list_find _ statuses) as [[j s]|]; [|done]. ok_guard Hc as Hrun. apply bind_ok_inv in Hc as (q & _ & Hc).
  ok_guard Hc as Hv. injection Hc as <-. eauto.
Qed.
Lemma add_ok st p : st_ok st → pr_ID p ≠ "" → default_profile p = p → valid_profile p →
  st_ok (Normalize (F:=F) (set_Profiles st (st_Profiles st ++ [p]))).
Proof using DNSNameLaws0.
  intros Hst Hid Hd Hv. apply (commit_ok st); try done; cbn.
  - destruct (ok_wf _ (so_policy _ _ _ Hst)). by split.
  - rewrite fmap_app, (normal_profiles st Hst). cbn. by rewrite Hd.
  - apply Forall_app. split; [apply Hst|by apply Forall_singleton].
  - intros q [Hq| ->]%elem_of_snoc; [by apply Hst|done].
Qed.
(** The identifiers stay what they were. *)
Lemma normal_ids st : profiles_normal (st_Profiles st) → st_Profiles (Normalize (F:=F) st) = st_Profiles st.
Proof using. intros Hn. cbn. by apply profiles_normal_fix. Qed.
Lemma stored_normal st : st_ok st → profiles_normal (st_Profiles st).
Proof using. intros Hst. apply (normal_iff (F:=F) st), (so_policy _ _ _ Hst). Qed.
Lemma applied_ids set order st st' ps : (∀ p x, same_shape p (set p x)) → st_ok st →
  foldM (accept_step set) order (st_Profiles st) = Ok ps → st_Profiles st' = go_sort (less_key pr_ID) (default_profile <$> ps) →
  pr_ID <$> st_Profiles (Normalize (F:=F) st') = pr_ID <$> st_Profiles st.
Proof using.
  intros Hset Hst Hps Ep. assert (Hn : profiles_normal ps ∧ pr_ID <$> ps = pr_ID <$> st_Profiles st).
  { eapply accept_normal; [|exact Hps|by apply stored_normal]. intros p x. split; [apply Hset|apply (same_shape_ok p), Hset]. }
  destruct Hn as [Hn Hi]. rewrite (profiles_normal_fix _ Hn) in Ep. rewrite normal_ids; by rewrite Ep.
Qed.
Lemma shape_ids (f : Profile → Profile) (ps : list Profile) : (∀ p, same_shape p (f p)) → pr_ID <$> (f <$> ps) = pr_ID <$> ps.
Proof using. intros Hf. rewrite <-list_fmap_compose. apply list_fmap_ext. intros _ p _. apply Hf. Qed.
End edits.
