(* ===== verification/ControlSteps.v ===== *)
(** * How requests are proved sound

    The requests of the control API, the invariant between them, what a request
    that is refused leaves alone, and the steps the proofs about handlers go
    through: the check at the start, the edit that is saved, and what follows
    the save. *)

From S2P Require Import Prelude Effects GoStrings FilePath Netip RoutingTable PacketMap EffectiveIP Activity DNSName WireGuardCfg State Types HostPools ProfileSpec LeasePlan RoutingPolicy TUNTable TUNTableFacts DNSPolicy TUNDNS TUNPlan SocksRouter PolicyPatch ExitNodes Paths ProfileView Runtime RigWorld WireGuardSecrets Supervisor Rig SupervisorFacts ControlAPI StateEdits.
Local Open Scope Z_scope.

(** The requests of the control API and the messages of the engines' watchers. *)
Inductive request : Type :=
  | RAdd (q : AddProfileRequest) | RPatch (name : string) (q : PatchProfileRequest) | REnable (name : string) (enabled : bool)
  | RRestart (name : string) | RRemove (name : string) (purge : bool) | RUp (up : bool)
  | RPatchIP (q : patch Prefix) | RReplaceIP (bindings : list (Prefix * string)) (acceptAll : list string) | RClearIP
  | RPatchDNS (q : patch string) | RReplaceDNS (bindings : list (string * string)) (acceptAll : list string) | RClearDNS
  | RPatchSearch (add remove : list string) | RReplaceSearch (desired : list string) | RClearSearch
  | RSetExit (name peer : string) | RClearExit
  | RStatus | RIPRoutes (available : bool) | RDNSRoutes (available : bool) | RSearch | RExits | RList (all : bool) | RGet (name : string)
  | RUpdate (profileID : string) (watch_failed : bool)
  | RApplyWG (requested : Config) (supplied : Secrets) | RWGProfile (name : string) | RShields (name : string) (enabled : bool).
(** The requests the theorems are about: the prefixes bound are as [netip] decodes
    them, and the domains are those that normalizing once more does not change.
    The code accepts others, such as [a . .], and keeps another domain in memory
    than it saves. *)
Definition request_ok {F : Type} `{DNSName F} (q : request) : Prop :=
  match q with
  | RPatchIP q => Forall (λ m, prefix.wf m.1 = true) (pt_Bind q)
  | RReplaceIP bindings _ => Forall (λ m, prefix.wf m.1 = true) bindings
  | RPatchDNS q => Forall (λ m, domain_clean (F:=F) m.1) (pt_Bind q)
  | RReplaceDNS bindings _ => Forall (λ m, domain_clean (F:=F) m.1) bindings
  | RPatchSearch add _ => Forall (domain_clean (F:=F)) add
  | RReplaceSearch desired => Forall (domain_clean (F:=F)) desired
  | _ => True
  end.
(** The errors before anything is done. *)
Definition refusal (e : sup_error) : bool :=
  match e with
  | EPath _ | ENotTailscale _ | EDaemonDown | EInvalidName _ | EProfileExists _ | ENoProfile _ | ERemoved _ | EDisabled _ | EHasBindings _
  | ERandom | EPolicy _ | EExitNode _ | ESupStore _
  | EApplyConfig _ | EWireGuardUnsupported | EOwnEndpoint | ENotWireGuard _ | EWireGuardSecrets | ESecrets _
  | EKeyRequired | EKeyDerive | EPeerOwnKey | EWriteSecrets | EDisappeared | EPrepareApply | ECompileFilter _ | EShieldsApply => true
  | _ => false
  end.
(** A request that is refused: one that fails before anything is done, apart from
    a rename with a hostname for a WireGuard profile, which is renamed before it
    is refused, and from a purge of an unsafe directory, whose profile is removed
    by then. *)
Definition refuses (q : request) (e : sup_error) : bool :=
  match q, e with
  | RPatch _ (MkPatchProfile (Some _) _), ENotTailscale _ => false
  | RRemove _ true, EPath _ => false
  | _, _ => refusal e
  end.
(** The two ways the memory and the file come apart: that rename, and a purge
    whose last save fails. *)
Definition leaks (q : request) (e : sup_error) : bool :=
  match q, e with
  | RPatch _ (MkPatchProfile (Some _) (Some _)), ENotTailscale _ => true
  | RRemove _ true, EPurgeSave _ => true
  | _, _ => false
  end.
Lemma refuses_refusal q e : refuses q e = true → refusal e = true.
Proof. by destruct q as [|? [[|] ?]| | |? []| | | | | | | | | | | | | | | | | | | | | | |], e. Qed.

(** The requests whose success means that a reconciliation succeeded last. *)
Definition reconciles (q : request) : bool :=
  match q with
  | RAdd _ | RPatch _ _ | RRestart _ | RUp _ | RPatchIP _ | RReplaceIP _ _ | RClearIP | RPatchDNS _ | RReplaceDNS _ _ | RClearDNS
  | RPatchSearch _ _ | RReplaceSearch _ | RClearSearch => true
  | _ => false
  end.

(** ** The invariant between requests *)

Section specs.
Context {T : Type → Type} `{LT : LPM T, !LPMLaws T} {F : Type} `{DN : DNSName F, !DNSNameLaws F} `{SJ : StateJSON, SJL : !StateJSONLaws}.
Context {E Fw W : Type} `{RT : Runtime E Fw W, !RuntimeLaws E Fw W}.
Context (CGNATRange TailscaleULARange : Prefix) (ServiceIP : Addr) (path : string) (tun_mode : bool).
Context (initial : gmap string string) (SocketDir : string) (Sum256 : string → list Z).
(** Whether memory and file agree. *)
Context (agree : bool).
Local Notation supervisor := (supervisor (T:=T) (E:=E) (Fw:=Fw) (W:=W)).
Local Notation M := (stm supervisor sup_error).
Local Notation reconcileLocked := (reconcileLocked (T:=T) (F:=F) CGNATRange TailscaleULARange ServiceIP path tun_mode).
Local Notation inv := (inv (T:=T) (F:=F) (E:=E) (Fw:=Fw) (W:=W) CGNATRange TailscaleULARange ServiceIP).
Local Notation st_ok := (st_ok (F:=F) ServiceIP).
Local Notation durable := (durable (T:=T) (F:=F) (E:=E) (Fw:=Fw) (W:=W) path).
Local Notation settled := (settled (T:=T) (F:=F) (E:=E) (Fw:=Fw) (W:=W) CGNATRange TailscaleULARange ServiceIP path tun_mode).

Definition void {A} (m : M A) : M unit := _ ← m; mret tt.
(** Every engine is that of a stored profile, under its identifier. *)
Definition known (s : supervisor) : Prop :=
  ∀ k m, sv_runtimes s !! k = Some m → pr_ID (m_State m) = k ∧ k ∈ pr_ID <$> st_Profiles (sv_st s).
Record sound (pool : bool → Prefix) (ids : list string) (s : supervisor) : Prop := {
  sn_inv : inv pool s;
  sn_known : known s;
  sn_durable : agree = true → durable s;
  sn_ids : pr_ID <$> st_Profiles (sv_st s) = ids }.
(** A request that is refused leaves the state, the file, the engines and
    everything published as they were. *)
Record refused (s s' : supervisor) : Prop := {
  rf_st : sv_st s' = sv_st s;
  rf_file : sv_fs s' !! path = sv_fs s !! path;
  rf_runtimes : same_runtimes (sv_runtimes s) (sv_runtimes s');
  rf_mapper : sv_mapper s' = sv_mapper s;
  rf_router : sv_router s' = sv_router s;
  rf_trace : sv_trace s' = sv_trace s }.

Section pool.
Context (pool : bool → Prefix).

(** Steps after the desired state is saved: they keep it. *)
Definition late {A} (ids : list string) (m : M A) : Prop := ∀ s, sound pool ids s →
  wp m (λ r s', sound pool ids s' ∧ same_desired (sv_st s) (sv_st s') ∧ ∀ e, r = Err e → refusal e = false) s.
(** Starting a profile adds at most its engine. *)
Record starts (p : Profile) (s s' : supervisor) : Prop := {
  ss_st : sv_st s' = sv_st s;
  ss_fs : sv_fs s' = sv_fs s;
  ss_trace : sv_trace s' = sv_trace s;
  ss_runtimes : ∀ k m, sv_runtimes s' !! k = Some m →
    (∃ m0, sv_runtimes s !! k = Some m0 ∧ m_State m0 = m_State m) ∨ k = pr_ID p ∧ m_State m = p }.

(** The outcome of a request. *)
Definition outcome {A} (q : request) (s : supervisor) (r : result sup_error A) (s' : supervisor) : Prop :=
  inv pool s' ∧ known s' ∧ ((∃ e, r = Err e ∧ leaks q e = true) ∨ (agree = true → durable s')) ∧
  (∀ e, r = Err e → refuses q e = true → refused s s') ∧ (is_ok r = true → reconciles q = true → settled pool s').
(** Steps after the save that end with a reconciliation. *)
Definition settling {A} (ids : list string) (m : M A) : Prop := ∀ s, sound pool ids s →
  wp m (λ r s', is_ok r = true → settled pool s') s.
End pool.
End specs.
Arguments sn_inv {T LT F DN SJ E Fw W RT CGNATRange TailscaleULARange ServiceIP path agree} pool ids s _.
Arguments sn_known {T LT F DN SJ E Fw W RT CGNATRange TailscaleULARange ServiceIP path agree} pool ids s _.
Arguments sn_durable {T LT F DN SJ E Fw W RT CGNATRange TailscaleULARange ServiceIP path agree} pool ids s _.
Arguments sn_ids {T LT F DN SJ E Fw W RT CGNATRange TailscaleULARange ServiceIP path agree} pool ids s _.
Arguments rf_st {T E Fw W path} s s' _.
Arguments rf_file {T E Fw W path} s s' _.
Arguments rf_runtimes {T E Fw W path} s s' _.
Arguments rf_mapper {T E Fw W path} s s' _.
Arguments rf_router {T E Fw W path} s s' _.
Arguments rf_trace {T E Fw W path} s s' _.

(** ** Steps *)

Section facts.
Context {T : Type → Type} `{LT : LPM T, !LPMLaws T} {F : Type} `{DN : DNSName F, !DNSNameLaws F} `{SJ : StateJSON, SJL : !StateJSONLaws}.
Context {E Fw W : Type} `{RT : Runtime E Fw W, !RuntimeLaws E Fw W}.
Context {CGNATRange TailscaleULARange : Prefix} {ServiceIP : Addr} {path : string} {tun_mode : bool}.
Context {initial : gmap string string} {SocketDir : string} {Sum256 : string → list Z}.
Local Notation supervisor := (supervisor (T:=T) (E:=E) (Fw:=Fw) (W:=W)).
Local Notation M := (stm supervisor sup_error).
Local Notation reconcileLocked := (reconcileLocked (T:=T) (F:=F) CGNATRange TailscaleULARange ServiceIP path tun_mode).
Local Notation inv := (inv (T:=T) (F:=F) (E:=E) (Fw:=Fw) (W:=W) CGNATRange TailscaleULARange ServiceIP).
Local Notation st_ok := (st_ok (F:=F) ServiceIP).
Local Notation durable := (durable (T:=T) (F:=F) (E:=E) (Fw:=Fw) (W:=W) path).
Local Notation settled := (settled (T:=T) (F:=F) (E:=E) (Fw:=Fw) (W:=W) CGNATRange TailscaleULARange ServiceIP path tun_mode).
Local Notation known := (known (T:=T) (E:=E) (Fw:=Fw) (W:=W)).
Local Notation starts := (starts (T:=T) (E:=E) (Fw:=Fw) (W:=W)).
Local Notation refused := (refused (T:=T) (E:=E) (Fw:=Fw) (W:=W) path).
Context {agree : bool} {pool : bool → Prefix}.
Local Notation sound := (sound (T:=T) (F:=F) (E:=E) (Fw:=Fw) (W:=W) CGNATRange TailscaleULARange ServiceIP path agree).
Local Notation late := (late (T:=T) (F:=F) (E:=E) (Fw:=Fw) (W:=W) CGNATRange TailscaleULARange ServiceIP path agree pool).
Local Notation outcome := (outcome (T:=T) (F:=F) (E:=E) (Fw:=Fw) (W:=W) CGNATRange TailscaleULARange ServiceIP path tun_mode agree pool).
Local Notation settling := (settling (T:=T) (F:=F) (E:=E) (Fw:=Fw) (W:=W) CGNATRange TailscaleULARange ServiceIP path tun_mode agree pool).

#[export] Instance refused_preorder : PreOrder refused.
Proof using. split; [by intros s|]. intros s1 s2 s3 [] []. split; unfold same_runtimes in *; congruence. Qed.
Lemma observes_refused s s' : observes s s' → refused s s'.
Proof using. intros []. split; congruence. Qed.


Lemma desired_ids st st' : same_desired st st' → pr_ID <$> st_Profiles st' = pr_ID <$> st_Profiles st.
Proof using.
  intros Hd. pose proof (de_profiles _ _ Hd) as He. apply (f_equal (fmap pr_ID)) in He. by rewrite <-!list_fmap_compose in He.
Qed.
Lemma known_same s s' : same_runtimes (sv_runtimes s) (sv_runtimes s') →
  pr_ID <$> st_Profiles (sv_st s') = pr_ID <$> st_Profiles (sv_st s) → known s → known s'.
Proof using.
  intros Hr Hi Hk k m Hm. apply (f_equal (.!! k)) in Hr. rewrite !lookup_fmap, Hm in Hr.
  destruct (sv_runtimes s !! k) as [m0|] eqn:E0; [|done]. injection Hr as Hst _. rewrite <-Hst, Hi. by apply Hk.
Qed.
Lemma sound_refused ids s s' : refused s s' → sound pool ids s → sound pool ids s'.
Proof using.
  intros [Est Ef Er _ _ Et] [[Hst Hp] Hk Hdu Hi]. split.
  - by split; rewrite ?Est, ?Et.
  - apply (known_same s); [done|by rewrite Est|done].
  - intros (st0 & Hl & Hd)%Hdu. exists st0. rewrite Est. split; [by eapply stored_file|done].
  - by rewrite Est.
Qed.
Lemma sound_keeps ids s s' : keeps CGNATRange TailscaleULARange ServiceIP path pool s s' → sound pool ids s → sound pool ids s'.
Proof using.
  intros [Hi Hr Hd Hdu] [_ Hk Hds Hids]. pose proof (desired_ids _ _ Hd) as Hi'. split; [done|by apply (known_same s)|auto|congruence].
Qed.

(** ** Steps after the desired state is saved *)

Lemma late_bind {A B} ids (m : M A) (f : A → M B) : late ids m → (∀ a, late ids (f a)) → late ids (m ≫= f).
Proof using.
  intros Hm Hf s Hs. apply wp_bind. eapply wp_mono; [by apply Hm|]. intros [a|e] s1 (Hs1 & Hd1 & He1).
  - eapply wp_mono; [by apply Hf|]. intros r s2 (Hs2 & Hd2 & He2). split_and!; [done|by etrans|done].
  - split_and!; [done..|]. intros e' [= <-]. by apply He1.
Qed.
Lemma late_refused {A} ids (m : M A) : respects refused m → never_fails m → late ids m.
Proof using.
  intros Hm Hn s Hs. unfold wp. pose proof (Hm s) as Hr. split_and!; [by eapply sound_refused|by rewrite (rf_st _ _ Hr)|].
  intros e He. pose proof (Hn s) as Hok. by rewrite He in Hok.
Qed.
Lemma late_ret {A} ids (a : A) : late ids (mret a : M A).
Proof using. by apply late_refused; [intros s|]. Qed.
Lemma late_collect {A B} ids (f : A → M B) l : (∀ x, x ∈ l → late ids (f x)) → late ids (collect f l).
Proof using.
  induction l as [|x l IH]; intros Hf; cbn; [apply late_ret|]. apply late_bind; [apply Hf; by left|]. intros y.
  apply late_bind; [apply IH; intros z Hz; apply Hf; by right|]. intros ys. apply late_ret.
Qed.
Lemma late_for_each {A} ids (f : A → M unit) l : (∀ x, x ∈ l → late ids (f x)) → late ids (for_each f l).
Proof using.
  induction l as [|x l IH]; intros Hf; cbn; [apply late_ret|]. apply late_bind; [apply Hf; by left|]. intros y.
  apply IH. intros z Hz. apply Hf. by right.
Qed.
Lemma late_modify ids f : (∀ s, refused s (f s)) → late ids (modify f : M unit).
Proof using. intros Hf. apply late_refused; [by apply respects_modify|by intros s]. Qed.
Lemma late_gets {A} ids (f : supervisor → A) : late ids (gets f : M A).
Proof using. by apply late_refused; [intros s|]. Qed.
Lemma late_set_lastError ids k e : late ids (set_lastError k e : M unit).
Proof using. by apply late_modify. Qed.
Lemma late_reconcile ids : late ids (reconcile_or_fail (F:=F) CGNATRange TailscaleULARange ServiceIP path tun_mode : M unit).
Proof using LPMLaws0 DNSNameLaws0 SJL.
  intros s Hs. unfold reconcile_or_fail. apply wp_bind, wp_try. unfold wp.
  destruct (reconcileLocked s) as [s1 r] eqn:Er. cbn [fst snd].
  destruct (reconcile_facts _ _ _ _ _ _ _ _ _ (sn_inv _ _ _ Hs) Er) as (Hk & _ & _).
  pose proof (sound_keeps _ _ _ Hk Hs) as Hs1. destruct r as [u|e]; cbn; (split_and!; [done|apply Hk|]); [done|].
  by intros e' [= <-].
Qed.

#[export] Instance starts_preorder p : PreOrder (starts p).
Proof using.
  split; [intros s; split; try done; eauto|]. intros s1 s2 s3 [? ? ? H1] [? ? ? H2]. split; [congruence..|].
  intros k m Hm. destruct (H2 k m Hm) as [(m0 & Hm0 & E0)|?]; [|by right]. rewrite <-E0. by apply H1.
Qed.
Lemma starts_same p s s' : sv_st s' = sv_st s → sv_fs s' = sv_fs s → sv_trace s' = sv_trace s → sv_runtimes s' = sv_runtimes s → starts p s s'.
Proof using. intros ? ? ? Hr. split; [done..|]. rewrite Hr. eauto. Qed.
Lemma starts_ext {A} p (f : W → W * A) : respects (starts p) (ext f : M A).
Proof using. intros s. unfold ext. destruct (f (sv_ext s)). by apply starts_same. Qed.
Lemma starts_update p k f : (∀ m, m_State (f m) = m_State m) → respects (starts p) (update_managed k f : M unit).
Proof using.
  intros Hf. apply respects_modify. intros s. split; [done..|]. intros i m Hm. cbn in Hm. left.
  destruct (decide (i = k)) as [->|Hne]; [|rewrite lookup_alter_ne in Hm by done; eauto].
  rewrite lookup_alter_eq in Hm. destruct (sv_runtimes s !! k) as [m0|]; [|done]. injection Hm as <-. by exists m0.
Qed.
Lemma startProfile_starts p authKey authKeyEnv b :
  respects (starts p) (startProfileLockedWithWireGuardTransition tun_mode p authKey authKeyEnv b : M unit).
Proof using.
  unfold startProfileLockedWithWireGuardTransition, new_engine. cbv zeta.
  repeat (respects_step || match goal with
  | |- respects _ (ext _) => apply starts_ext
  | |- respects _ (ext_ _) => apply respects_modify; intros; by apply starts_same
  | |- respects _ (peek _) => apply (respects_gets _)
  | |- respects _ (update_managed _ _) => apply starts_update; done
  | |- respects _ (set_lastError _ _) => apply respects_modify; intros; by apply starts_same
  | |- respects _ (clear_lastError _) => apply respects_modify; intros; by apply starts_same
  end).
  - apply respects_modify. intros s. split; [done..|]. intros k m Hm. cbn in Hm.
    destruct (decide (k = pr_ID p)) as [->|Hne]; [|rewrite lookup_insert_ne in Hm by done; eauto].
    rewrite lookup_insert_eq in Hm. injection Hm as <-. by right.
  - apply respects_modify. intros s. split; [done..|]. intros k m Hm. cbn in Hm. apply lookup_delete_Some in Hm as [_ Hm]. eauto.
  - apply respects_modify. intros s. split; [done..|]. intros k m Hm. cbn in Hm. apply lookup_delete_Some in Hm as [_ Hm]. eauto.
Qed.
Lemma starts_sound ids p s s1 : pr_ID p ∈ ids → sound pool ids s → starts p s s1 → sound pool ids s1.
Proof using.
  intros Hin [[Hst Hp] Hk Hdu Hi] [Est Ef Et Hr]. split.
  - by split; rewrite ?Est, ?Et.
  - intros k m Hm. rewrite Est. destruct (Hr k m Hm) as [(m0 & Hm0 & <-)|[-> ->]]; [by apply Hk|]. by rewrite Hi.
  - intros (st0 & Hl & Hd)%Hdu. exists st0. by rewrite Ef, Est.
  - by rewrite Est.
Qed.
Lemma late_start ids p authKey authKeyEnv : pr_ID p ∈ ids →
  late ids (start_or_note tun_mode p authKey authKeyEnv : M unit).
Proof using.
  intros Hin s Hs. unfold start_or_note. apply wp_bind, wp_try, (wp_respects (starts p)); [apply startProfile_starts|].
  intros r s1 Hst. pose proof (starts_sound _ _ _ _ Hin Hs Hst) as Hs1. destruct Hst as [Est _ _ _].
  destruct r as [u|e]; [apply wp_ret|eapply wp_mono; [by apply late_set_lastError|]; cbn].
  - split_and!; [done|by rewrite Est|done].
  - intros r s2 (Hs2 & Hd2 & He2). by rewrite Est in Hd2.
Qed.

(** Stopping a profile takes its engine away. *)
Lemma stop_spec id s : wp (stopProfileLocked tun_mode id : M bool) (λ r s', is_ok r = true ∧ sv_st s' = sv_st s ∧ sv_fs s' = sv_fs s ∧
  sv_trace s' = sv_trace s ∧ sv_mapper s' = sv_mapper s ∧ sv_router s' = sv_router s ∧ sv_runtimes s' = delete id (sv_runtimes s)) s.
Proof using.
  unfold stopProfileLocked. apply wp_bind, wp_gets. destruct (sv_runtimes s !! id) as [m|] eqn:Em.
  - apply wp_bind, wp_modify, wp_bind. unfold ext, ext_, wp, modify.
    destruct tun_mode; unfold mret, stm_ret; cbn; rewrite !bind_run; destruct (api_Stop _ _); cbn; rewrite !bind_run; by destruct (engine_Close _ _).
  - apply wp_ret. by rewrite delete_id.
Qed.
Lemma late_stop ids id : late ids (stopProfileLocked tun_mode id : M bool).
Proof using.
  intros s Hs. eapply wp_mono; [apply stop_spec|]. intros r s' (Hok & Est & Ef & Et & _ & _ & Er).
  split_and!; [|by rewrite Est|by intros e ->]. destruct Hs as [[Hst Hp] Hk Hdu Hi]. split.
  - by split; rewrite ?Est, ?Et.
  - intros k m Hm. rewrite Er in Hm. apply lookup_delete_Some in Hm as [_ Hm]. rewrite Est. by apply Hk.
  - intros (st0 & Hl & Hd)%Hdu. exists st0. by rewrite Ef, Est.
  - by rewrite Est.
Qed.
Lemma late_stop_or_note ids id : late ids (stop_or_note tun_mode id : M unit).
Proof using.
  unfold stop_or_note. apply late_bind; [apply late_stop|]. intros ok. destruct ok; [apply late_ret|apply late_set_lastError].
Qed.
Lemma project_refused p : respects refused (projectProfileLocked (F:=F) SocketDir Sum256 p : M _).
Proof using. by intros s. Qed.
Lemma late_project ids p : late ids (projectProfileLocked (F:=F) SocketDir Sum256 p : M _).
Proof using. by apply late_refused; [intros s|]. Qed.

(** ** The outcome of a request *)

Lemma outcome_void {A} q s (m : M A) s1 : wp m (outcome q s) s1 → wp (void m) (outcome q s) s1.
Proof using.
  intros Hm. apply wp_bind. eapply wp_mono; [exact Hm|]. intros [a|e] s' (Hi & Hk & Hd & Hr & Hset); [apply wp_ret|].
  - split_and!; [done|done| |done|done]. destruct Hd as [(? & ? & _)|?]; [done|by right].
  - split_and!; [done|done| | |done]; [destruct Hd as [(? & [= <-] & ?)|?]; [by left; eexists|by right]|]. intros e' [= <-]. by apply Hr.
Qed.
Lemma outcome_late {A} q ids s (r : result sup_error A) s' : sound pool ids s' → (∀ e, r = Err e → refusal e = false) →
  (is_ok r = true → reconciles q = true → settled pool s') → outcome q s r s'.
Proof using. intros [Hi Hk Hd _] He Hset. split_and!; [done|done|by right| |done]. intros e Hr Hre%refuses_refusal. by rewrite (He e Hr) in Hre. Qed.
Lemma outcome_refused {A} q ids s (r : result sup_error A) s' : (is_ok r = true → reconciles q = false) →
  sound pool ids s → refused s s' → outcome q s r s'.
Proof using.
  intros Hq Hs Hr. destruct (sound_refused _ _ _ Hr Hs) as [Hi Hk Hd _]. split_and!; [done|done|by right|done|].
  intros Hok. by rewrite Hq.
Qed.
Lemma outcome_err {A} q ids s e s' : sound pool ids s → refused s s' → outcome q s (Err e : result sup_error A) s'.
Proof using. by apply outcome_refused. Qed.
Lemma settling_bind {A B} ids (m : M A) (f : A → M B) : late ids m → (∀ a, settling ids (f a)) → settling ids (m ≫= f).
Proof using.
  intros Hm Hf s Hs. apply wp_bind. eapply wp_mono; [by apply Hm|]. intros [a|e] s1 (Hs1 & _); [by apply Hf|done].
Qed.
Lemma reconcile_settles ids : settling ids (reconcile_or_fail (F:=F) CGNATRange TailscaleULARange ServiceIP path tun_mode : M unit).
Proof using LPMLaws0 DNSNameLaws0 SJL.
  intros s Hs. unfold reconcile_or_fail. apply wp_bind, wp_try. unfold wp. destruct (reconcileLocked s) as [s1 r] eqn:Er.
  destruct (reconcile_facts _ _ _ _ _ _ _ _ _ (sn_inv _ _ _ Hs) Er) as (_ & _ & Hset). cbn.
  destruct r as [[]|e]; [|done]. intros _. by apply Hset.
Qed.
Lemma settling_reconcile {A} ids (f : supervisor → A) :
  settling ids (_ ← reconcile_or_fail (F:=F) CGNATRange TailscaleULARange ServiceIP path tun_mode; gets f : M A).
Proof using LPMLaws0 DNSNameLaws0 SJL.
  intros s Hs. apply wp_bind. eapply wp_mono; [by apply (reconcile_settles ids)|]. intros [u|e] s1 Hok; [|done]. by apply wp_gets.
Qed.
Lemma wp_late {A} q ids s s1 (m : M A) : reconciles q = false → sound pool ids s1 → late ids m → wp m (outcome q s) s1.
Proof using. intros Hq Hs Hm. eapply wp_mono; [by apply Hm|]. intros r s2 (? & _ & ?). eapply outcome_late; [done|done|by rewrite Hq]. Qed.
Lemma wp_settle {A} q ids s s1 (m : M A) : sound pool ids s1 → late ids m → settling ids m → wp m (outcome q s) s1.
Proof using.
  intros Hs Hm Hset. eapply wp_mono; [apply wp_and; [by apply Hm|by apply Hset]|].
  intros r s2 ((? & _ & ?) & Hok). eapply outcome_late; [done|done|]. intros; auto.
Qed.
Lemma outcome_views {A} q ids s (m : M A) : reconciles q = false → sound pool ids s → respects refused m → wp m (outcome q s) s.
Proof using. intros Hq Hs Hm. apply (wp_respects refused); [done|]. intros r s' Hr. by eapply outcome_refused. Qed.

Lemma wp_require {A} q ids s (f : unit → M A) : sound pool ids s →
  (st_Down (sv_st s) = false → wp (f tt) (outcome q s) s) → wp (requireDaemonUpLocked ≫= f) (outcome q s) s.
Proof using.
  intros Hs Hf. apply wp_bind. unfold requireDaemonUpLocked. apply wp_bind, wp_gets, wp_fail_if; [|done].
  intros _. by eapply outcome_err.
Qed.
Lemma wp_refuse_if {A} q ids s b e (f : unit → M A) : sound pool ids s → (b = false → wp (f tt) (outcome q s) s) →
  wp (fail_if b e ≫= f) (outcome q s) s.
Proof using. intros Hs Hf. apply wp_bind, wp_fail_if; [|done]. intros _. by eapply outcome_err. Qed.
Lemma configured_in ps name i p : configuredByName ps name = Ok (i, p) → ps !! i = Some p ∧ profileName p = name ∧ pr_ID p ∈ pr_ID <$> ps.
Proof using.
  unfold configuredByName. destruct (list_find _ ps) as [[j q]|] eqn:El; [|done]. intros [= <- <-].
  apply list_find_Some in El as (Hj & Hn & _). split_and!; [done|done|]. by eapply list_elem_of_fmap_2, list_elem_of_lookup_2.
Qed.
Lemma wp_configured {A} q ids s name (f : nat * Profile → M A) : sound pool ids s →
  (∀ i p, st_Profiles (sv_st s) !! i = Some p → profileName p = name → pr_ID p ∈ ids → wp (f (i, p)) (outcome q s) s) →
  wp (configuredByNameLocked name ≫= f) (outcome q s) s.
Proof using.
  intros Hs Hf. apply wp_bind. unfold configuredByNameLocked. apply wp_bind, wp_gets, wp_lift.
  destruct (configuredByName _ name) as [[i p]|e] eqn:Ec; [|by eapply outcome_err].
  apply configured_in in Ec as (? & ? & ?). apply Hf; [done..|]. by rewrite <-(sn_ids _ _ _ Hs).
Qed.

(** Saving an edited state: it is in force and on disk, or nothing happened. *)
Lemma save_edit ids s st1 : sound pool ids s → st_ok pool st1 →
  (∀ k m, sv_runtimes s !! k = Some m → k ∈ pr_ID <$> st_Profiles st1) →
  wp (save_or_restore (F:=F) path (sv_st s) : M unit) (λ r s', match r with
    | Ok _ => sound pool (pr_ID <$> st_Profiles st1) s' ∧ sv_st s' = st1 ∧ sv_runtimes s' = sv_runtimes s
    | Err _ => refused s s' end) (set_st st1 s).
Proof using SJL DNSNameLaws0.
  intros [[Hst Hp] Hk Hd Hi] Hok Hkeys. unfold save_or_restore. apply wp_bind, wp_gets, wp_bind.
  eapply wp_mono; [apply store_Save_spec, (so_policy _ _ _ Hok)|].
  intros r s1 (Est & Em & Er & Ert & _ & _ & _ & Hr). cbn [set_st sv_st sv_mapper sv_router sv_runtimes sv_trace sv_fs] in *.
  destruct r as [[u|e]|e]; [| |done].
  - destruct Hr as [Hper Ht]. apply wp_ret. split_and!; [|done|done]. split.
    + split; [by rewrite Est|]. rewrite Ht. by apply pub_save.
    + intros k m Hm. rewrite Ert in Hm. rewrite Est. split; [by apply Hk|by eapply Hkeys].
    + intros _. exists st1. rewrite Est. split; [|done]. apply Hper, saved_as_is; apply Hok.
    + by rewrite Est.
  - destruct Hr as [Ht Hl]. apply wp_bind, wp_modify, wp_fail. split; cbn; try done. by rewrite Ert.
Qed.
(** A state that is saved before it is in force. *)
Lemma save_next ids s next : sound pool ids s → st_ok pool next →
  (∀ k m, sv_runtimes s !! k = Some m → k ∈ pr_ID <$> st_Profiles next) →
  wp (store_Save (F:=F) path next : M (result store_error unit)) (λ r s1, match r with
    | Ok (Ok _) => sound pool (pr_ID <$> st_Profiles next) (set_st next s1) ∧ sv_runtimes s1 = sv_runtimes s
    | Ok (Err _) => refused s s1
    | Err _ => False end) s.
Proof using SJL DNSNameLaws0.
  intros [[Hst Hp] Hk Hd Hi] Hok Hkeys. eapply wp_mono; [apply store_Save_spec, (so_policy _ _ _ Hok)|].
  intros r s1 (Est & Em & Er & Ert & _ & _ & _ & Hr). destruct r as [[u|e]|e]; [| |done].
  - destruct Hr as [Hper Ht]. split; [|done]. split.
    + split; [done|]. cbn. rewrite Ht. by apply pub_save.
    + intros k m Hm. cbn in Hm. rewrite Ert in Hm. split; [by apply Hk|by eapply Hkeys].
    + intros _. exists next. split; [|done]. apply Hper, saved_as_is; apply Hok.
    + done.
  - destruct Hr as [Ht Hl]. split; try done. by rewrite Ert.
Qed.
Lemma commit_spec q ids s next : sound pool ids s → st_ok pool (Normalize (F:=F) next) →
  pr_ID <$> st_Profiles (Normalize (F:=F) next) = ids →
  wp (commitPolicyLocked (F:=F) CGNATRange TailscaleULARange ServiceIP path tun_mode next : M unit) (λ r s', match r with
    | Ok _ => sound pool ids s' ∧ settled pool s' | Err _ => outcome q s r s' end) s.
Proof using LPMLaws0 DNSNameLaws0 SJL.
  intros Hs Hok Hids. unfold commitPolicyLocked. cbv zeta. apply wp_bind. eapply wp_mono; [apply (save_next ids); [done|done|]|].
  { intros k m Hm. rewrite Hids, <-(sn_ids _ _ _ Hs). by apply (sn_known _ _ _ Hs k m). }
  rewrite Hids. intros [[u|e]|e] s1; [| |done].
  - intros [Hs1 _]. apply wp_bind, wp_modify.
    eapply wp_mono; [apply wp_and; [by apply late_reconcile|by apply (reconcile_settles ids)]|].
    intros r s2 ((Hs2 & _ & He) & Hok2). destruct r; [by split; [|apply Hok2]|]. by eapply outcome_late.
  - intros Hr. apply wp_fail. by eapply outcome_err.
Qed.

(** ** Profiles *)

Lemma outcome_trans {A} q s s1 (r : result sup_error A) s' : refused s s1 → outcome q s1 r s' → outcome q s r s'.
Proof using. intros H1 (? & ? & ? & Hr & ?). split_and!; [done..| |done]. intros e He Hre. etrans; [exact H1|by eapply Hr]. Qed.
Lemma put_ids st i p p' : st_Profiles st !! i = Some p → pr_ID p' = pr_ID p →
  pr_ID <$> <[i := p']> (st_Profiles st) = pr_ID <$> st_Profiles st.
Proof using. intros Hi Hid. rewrite list_fmap_insert, Hid. apply list_insert_id. by rewrite list_lookup_fmap, Hi. Qed.
Lemma wp_saved {A} q ids s st1 (f : unit → M A) : sound pool ids s → st_ok pool st1 →
  (∀ k m, sv_runtimes s !! k = Some m → k ∈ pr_ID <$> st_Profiles st1) →
  (∀ s1, sound pool (pr_ID <$> st_Profiles st1) s1 → sv_st s1 = st1 → sv_runtimes s1 = sv_runtimes s → wp (f tt) (outcome q s) s1) →
  wp (save_or_restore (F:=F) path (sv_st s) ≫= f) (outcome q s) (set_st st1 s).
Proof using SJL DNSNameLaws0.
  intros Hs Hok Hk Hf. apply wp_bind. eapply wp_mono; [by apply (save_edit ids)|].
  intros [[]|e] s1; [intros (? & ? & ?); by apply Hf|]. intros Hr. by eapply outcome_err.
Qed.
(** A field of one profile changes. *)
Lemma wp_saved_put {A} q ids s i p p' (f : unit → M A) : sound pool ids s → st_Profiles (sv_st s) !! i = Some p →
  pr_ID p' = pr_ID p → default_profile p' = p' → valid_profile p' →
  (∀ s1, sound pool ids s1 → sv_st s1 = set_Profiles (sv_st s) (<[i := p']> (st_Profiles (sv_st s))) →
     sv_runtimes s1 = sv_runtimes s → wp (f tt) (outcome q s) s1) →
  wp (save_or_restore (F:=F) path (sv_st s) ≫= f) (outcome q s)
    (set_st (set_Profiles (sv_st s) (<[i := p']> (st_Profiles (sv_st s)))) s).
Proof using SJL DNSNameLaws0.
  intros Hs Hi Hid Hd Hv Hf. pose proof (put_ids (sv_st s) i p p' Hi Hid) as Hids. pose proof (sn_ids _ _ _ Hs) as Eids.
  apply (wp_saved q ids); [done| | |].
  - apply (put_ok _ _ _ i p); try done. apply (sn_inv _ _ _ Hs).
  - intros k m Hm. cbn. rewrite Hids. by apply (sn_known _ _ _ Hs k m).
  - intros s1 Hs1. cbn in Hs1. rewrite Hids, Eids in Hs1. by apply Hf.
Qed.
Lemma stored_profile ids s i p : sound pool ids s → st_Profiles (sv_st s) !! i = Some p → default_profile p = p ∧ valid_profile p.
Proof using.
  intros Hs Hi%list_elem_of_lookup_2. destruct (sn_inv _ _ _ Hs) as [Hst _]. split.
  - rewrite <-(normal_profiles _ _ _ Hst) in Hi. apply list_elem_of_fmap in Hi as (q & -> & _). by apply default_profile_idemp.
  - pose proof (so_valid _ _ _ Hst) as Hv. rewrite Forall_forall in Hv. by apply Hv.
Qed.
Lemma wp_saved_shape {A} q ids s i p p' (f : unit → M A) : sound pool ids s → st_Profiles (sv_st s) !! i = Some p → same_shape p p' →
  (∀ s1, sound pool ids s1 → sv_st s1 = set_Profiles (sv_st s) (<[i := p']> (st_Profiles (sv_st s))) →
     sv_runtimes s1 = sv_runtimes s → wp (f tt) (outcome q s) s1) →
  wp (save_or_restore (F:=F) path (sv_st s) ≫= f) (outcome q s)
    (set_st (set_Profiles (sv_st s) (<[i := p']> (st_Profiles (sv_st s)))) s).
Proof using SJL DNSNameLaws0.
  intros Hs Hi Hsh. destruct (stored_profile _ _ _ _ Hs Hi) as [Hd Hv]. destruct (same_shape_ok _ _ Hsh) as [Hd' Hv'].
  apply (wp_saved_put q ids s i p); [done|done|apply Hsh|auto|auto].
Qed.
Lemma wp_ext {A} (f : W → W * A) (Q : result sup_error A → supervisor → Prop) s :
  (∀ w a, f (sv_ext s) = (w, a) → Q (Ok a) (set_ext w s)) → wp (ext f) Q s.
Proof using. intros HQ. unfold wp, ext. destruct (f (sv_ext s)) eqn:Ef. by apply HQ. Qed.
Lemma sound_ext ids w s : sound pool ids s → sound pool ids (set_ext w s).
Proof using. by intros [[] ? ? ?]. Qed.
Lemma refused_ext w s : refused s (set_ext w s).
Proof using. by split. Qed.
(** Random identifiers. *)
Lemma wp_random prefix n (P : result sup_error string → supervisor → Prop) s0 :
  (∀ s1, refused s0 s1 → P (Err ERandom) s1) → (∀ x s1, refused s0 s1 → P (Ok (prefix +:+ x)) s1) → wp (randomOpaque prefix n : M string) P s0.
Proof using.
  intros He Hx. unfold randomOpaque. apply wp_bind, wp_ext.
  intros w [b|] _; [apply wp_ret, Hx, refused_ext|apply wp_fail, He, refused_ext].
Qed.
Lemma late_try_reconcile ids : late ids (try (reconcileLocked) : M _).
Proof using LPMLaws0 DNSNameLaws0 SJL.
  intros s Hs. apply wp_try. unfold wp. destruct (reconcileLocked s) as [s1 r] eqn:Er. cbn [fst snd].
  destruct (reconcile_facts _ _ _ _ _ _ _ _ _ (sn_inv _ _ _ Hs) Er) as (Hk & _ & _).
  split_and!; [by eapply sound_keeps|apply Hk|done].
Qed.
Lemma wp_lift_refuse {A B} q ids s (r : result sup_error A) (f : A → M B) : sound pool ids s →
  (∀ a, r = Ok a → wp (f a) (outcome q s) s) → wp (lift r ≫= f) (outcome q s) s.
Proof using.
  intros Hs Hf. apply wp_bind, wp_lift. destruct r as [a|e]; [by apply Hf|]. by eapply outcome_err.
Qed.
End facts.

(** What follows the save of a profile that was added or changed. *)
Ltac late_go := repeat match goal with
  | |- late _ _ _ _ _ _ _ (_ ≫= _) => apply late_bind; [|intros ?]
  | |- late _ _ _ _ _ _ _ (mret _) => apply late_ret
  | |- late _ _ _ _ _ _ _ (reconcile_or_fail _ _ _ _ _) => apply late_reconcile
  | |- late _ _ _ _ _ _ _ (start_or_note _ _ _ _) => apply late_start; try done
  | |- late _ _ _ _ _ _ _ (stop_or_note _ _) => apply late_stop_or_note
  | |- late _ _ _ _ _ _ _ (stopProfileLocked _ _) => apply late_stop
  | |- late _ _ _ _ _ _ _ (projectProfileLocked _ _ _) => apply late_project
  | |- late _ _ _ _ _ _ _ (if ?b then _ else _) => destruct b
  end.
Ltac settle_go := repeat match goal with
  | |- settling _ _ _ _ _ _ _ _ (_ ← reconcile_or_fail _ _ _ _ _; projectProfileLocked _ _ _) => apply settling_reconcile
  | |- settling _ _ _ _ _ _ _ _ (_ ≫= _) => apply settling_bind; [late_go|intros ?]
  end.

(** The supervisor of the examples. *)
Lemma rig_sound agree w : sound (F:=Labels) test_cgnat test_ula service_ip rig_path agree default_prefix ["home"; "work"] (rig_supervisor w).
Proof.
  split; [apply rig_inv| | |].
  - intros k m Hm. cbn in Hm. by rewrite lookup_empty in Hm.
  - intros _. exists corp_state. split; [|reflexivity]. split; [exists ""; split; vm_compute; reflexivity|]. intros _.
    change (Load (F:=Labels) rig_path true rig_fs = Ok corp_state). vm_compute. reflexivity.
  - reflexivity.
Qed.
