(* ===== verification/WireGuardFacts.v ===== *)
(** * Facts about the WireGuard handlers

    An applied configuration leaves a state in normal form, which is saved before
    the engine is touched; a request that fails before that changes nothing, and
    one that fails later keeps what was saved. *)

From S2P Require Import Prelude Effects GoStrings FilePath Netip RoutingTable PacketMap EffectiveIP Activity DNSName WireGuardKey PacketFilterCfg WireGuardCfg State Types HostPools ProfileSpec LeasePlan RoutingPolicy TUNTable TUNTableFacts DNSPolicy TUNDNS TUNPlan SocksRouter IPSet WireGuardFilter PolicyPatch ExitNodes Paths ProfileView Runtime RigWorld WireGuardSecrets Supervisor Rig SupervisorFacts ControlAPI WireGuardAPI StateEdits ControlSteps.
Local Open Scope Z_scope.

(** ** Names *)

Lemma label_char_space c : WireGuardCfg.label_char c = true → is_space c = false.
Proof. by destruct c as [[|] [|] [|] [|] [|] [|] [|] [|]]. Qed.
Lemma label_trimmed s : validateDNSLabel s = true → TrimSpace s = s ∧ s ≠ "".
Proof.
  intros Hv. unfold validateDNSLabel in Hv. split; [|by intros ->]. apply TrimSpace_none. intros c Hc.
  destruct (chars s) as [|c0 l] eqn:Es; [done|]. destruct (last (c0 :: l)) as [z|]; [|done].
  apply andb_true_iff in Hv as [[_ Hl]%andb_true_iff _]. apply label_char_space. rewrite forallb_forall in Hl.
  by apply Hl, list_elem_of_In.
Qed.
Lemma normalized_config requested config : NormalizeConfig requested = Ok config →
  NormalizeConfig config = Ok config ∧ TrimSpace (c_Name config) = c_Name config ∧ c_Name config ≠ "".
Proof.
  intros (Hv & c0 & Hc0)%NormalizeConfig_inv. split; [by eapply sorted_valid_normal|]. apply label_trimmed.
  unfold Validate in Hv. ok_guard Hv as Hver. ok_guard Hv as Hn. by apply negb_false_iff.
Qed.
Lemma profileByID_in ps id p : profileByID ps id = Some p → p ∈ ps ∧ pr_ID p = id.
Proof. by intros [Hin%list_elem_of_In Hid%String.eqb_eq]%List.find_some. Qed.
Lemma profileByID_found ps id : id ∈ pr_ID <$> ps → is_Some (profileByID ps id).
Proof.
  intros (p & -> & Hp)%list_elem_of_fmap. destruct (profileByID ps (pr_ID p)) eqn:Ef; [by eexists|].
  apply List.find_none with (x := p) in Ef; [|by apply list_elem_of_In]. by rewrite String.eqb_refl in Ef.
Qed.

Section facts.
Context {T : Type → Type} `{LT : LPM T, !LPMLaws T} {F : Type} `{DN : DNSName F, !DNSNameLaws F} `{SJ : StateJSON, SJL : !StateJSONLaws}.
Context {E Fw W : Type} `{RT : Runtime E Fw W, !RuntimeLaws E Fw W}.
Context {B S : Type} `{IPSets B S}.
Context {CGNATRange TailscaleULARange : Prefix} {ServiceIP : Addr} {path : string} {tun_mode : bool}.
Local Notation supervisor := (supervisor (T:=T) (E:=E) (Fw:=Fw) (W:=W)).
Local Notation M := (stm supervisor sup_error).
Local Notation reconcileLocked := (reconcileLocked (T:=T) (F:=F) CGNATRange TailscaleULARange ServiceIP path tun_mode).
Local Notation inv := (inv (T:=T) (F:=F) (E:=E) (Fw:=Fw) (W:=W) CGNATRange TailscaleULARange ServiceIP).
Local Notation st_ok := (st_ok (F:=F) ServiceIP).
Local Notation durable := (durable (T:=T) (F:=F) (E:=E) (Fw:=Fw) (W:=W) path).
Local Notation settled := (settled (T:=T) (F:=F) (E:=E) (Fw:=Fw) (W:=W) CGNATRange TailscaleULARange ServiceIP path tun_mode).
Local Notation known := (known (T:=T) (E:=E) (Fw:=Fw) (W:=W)).
Local Notation starts := (starts (T:=T) (E:=E) (Fw:=Fw) (W:=W)).
Local Notation refused := (refused (T:=T) (E:=E) (Fw:=Fw) (W:=W) path).
Context {agree : bool}.
Local Notation sound := (sound (T:=T) (F:=F) (E:=E) (Fw:=Fw) (W:=W) CGNATRange TailscaleULARange ServiceIP path agree).
Context {pool : bool → Prefix}.
Local Notation late := (late (T:=T) (F:=F) (E:=E) (Fw:=Fw) (W:=W) CGNATRange TailscaleULARange ServiceIP path agree pool).
Local Notation outcome := (outcome (T:=T) (F:=F) (E:=E) (Fw:=Fw) (W:=W) CGNATRange TailscaleULARange ServiceIP path tun_mode agree pool).
Local Notation settling := (settling (T:=T) (F:=F) (E:=E) (Fw:=Fw) (W:=W) CGNATRange TailscaleULARange ServiceIP path tun_mode agree pool).
Local Notation save_next := (save_next (F:=F) (CGNATRange:=CGNATRange) (TailscaleULARange:=TailscaleULARange) (ServiceIP:=ServiceIP) (path:=path) (agree:=agree) (pool:=pool)).

(** ** The desired state *)

(** What [apply_target] finds in a good state. *)
Record target_ok (st : State) (config : Config) (t : target) : Prop := {
  to_found : tg_Profiles t !! tg_index t = Some (tg_configured t);
  to_name : pr_Name (tg_configured t) = c_Name config;
  to_id : pr_ID (tg_configured t) ≠ "";
  to_rest : ∀ j p, tg_Profiles t !! j = Some p → j ≠ tg_index t → p ∈ st_Profiles st;
  to_all : st_Profiles st `sublist_of` tg_Profiles t }.
Lemma configure_ok p config secretFile enable : pr_Name p = c_Name config → c_Name config ≠ "" → NormalizeConfig config = Ok config →
  secretFile ≠ "" → secret_file_bad secretFile = false →
  default_profile (configure p config secretFile enable) = configure p config secretFile enable ∧
  valid_profile (configure p config secretFile enable).
Proof using.
  intros En Hn Hc Hf Hb. split.
  - unfold default_profile, configure. cbn. rewrite En. by apply String.eqb_neq in Hn as ->.
  - unfold valid_profile, validateProfile, configure. cbn. rewrite Hc. cbn. rewrite En, String.eqb_refl. cbn.
    apply String.eqb_neq in Hf as ->. cbn. by rewrite Hb.
Qed.
Lemma desired_ok st config t secretFile : st_ok pool st → target_ok st config t → c_Name config ≠ "" →
  NormalizeConfig config = Ok config → secretFile ≠ "" → secret_file_bad secretFile = false →
  st_ok pool (desired_state (F:=F) st t config secretFile).
Proof using DNSNameLaws0.
  intros Hst [Hi En Hid Hrest Hall] Hn Hc Hf Hb. unfold desired_state. cbv zeta. set (enable := _ || _).
  destruct (configure_ok (tg_configured t) config secretFile enable En Hn Hc Hf Hb) as [Hd Hv].
  set (p := configure _ _ _ _) in *.
  assert (Hps : ∀ q, q ∈ <[tg_index t := p]> (tg_Profiles t) → default_profile q = q ∧ valid_profile q ∧ pr_ID q ≠ "").
  { intros q (j & Hq)%list_elem_of_lookup. destruct (decide (j = tg_index t)) as [->|Hne].
    - rewrite list_lookup_insert_eq in Hq by (by eapply lookup_lt_Some). by injection Hq as <-.
    - rewrite list_lookup_insert_ne in Hq by done. specialize (Hrest _ _ Hq Hne). split_and!.
      + rewrite <-(normal_profiles _ _ _ Hst) in Hrest. apply list_elem_of_fmap in Hrest as (x & -> & _). by apply default_profile_idemp.
      + pose proof (so_valid _ _ _ Hst) as Hvs. rewrite Forall_forall in Hvs. by apply Hvs.
      + by apply Hst. }
  apply (commit_ok _ _ st); try done; cbn.
  - destruct (ok_wf _ (so_policy _ _ _ Hst)). by split.
  - rewrite <-(list_fmap_id (<[_ := _]> _)) at 2. apply list_fmap_ext. intros j q Hq%list_elem_of_lookup_2. by apply Hps.
  - apply Forall_forall. intros q Hq. by apply Hps.
  - intros q Hq. by apply Hps.
Qed.
Lemma configure_in st config t secretFile : target_ok st config t → c_Name config ≠ "" →
  configure (tg_configured t) config secretFile (tg_create t || beforeProfileRemoved (st_Profiles st) (pr_ID (tg_configured t))) ∈
  st_Profiles (desired_state (F:=F) st t config secretFile).
Proof using.
  intros [Hi En _ _ _] Hn. unfold desired_state. cbv zeta. set (p := configure _ _ _ _). cbn.
  apply elem_of_go_sort, list_elem_of_fmap. exists p. split.
  - unfold default_profile, p, configure. cbn. rewrite En. by apply String.eqb_neq in Hn as ->.
  - eapply list_elem_of_lookup_2. apply list_lookup_insert_eq. by eapply lookup_lt_Some.
Qed.
Lemma desired_known st config t secretFile id : target_ok st config t →
  (id ∈ pr_ID <$> st_Profiles st ∨ id = pr_ID (tg_configured t)) →
  id ∈ pr_ID <$> st_Profiles (desired_state (F:=F) st t config secretFile).
Proof using.
  intros [Hi En _ Hrest Hall] Hid. unfold desired_state. cbv zeta. set (p := configure _ _ _ _). cbn.
  assert (Hin : id ∈ pr_ID <$> tg_Profiles t).
  { destruct Hid as [(q & -> & Hq)%list_elem_of_fmap| ->]; apply list_elem_of_fmap_2; [by eapply elem_of_sublist|].
    by eapply list_elem_of_lookup_2. }
  pose proof (put_ids (set_Profiles st (tg_Profiles t)) (tg_index t) (tg_configured t) p Hi eq_refl) as Hput. cbn in Hput.
  rewrite <-Hput in Hin.
  apply list_elem_of_fmap in Hin as (q & -> & Hq). apply (list_elem_of_fmap_2' _ _ (default_profile q)); [|done].
  apply elem_of_go_sort, list_elem_of_fmap. by exists q.
Qed.

(** ** Up to the save *)

Lemma refused_peek {A} (f : W → A) : respects refused (peek f : M A).
Proof using. apply (respects_gets _). Qed.
Lemma ext_refused {A} (f : W → W * A) : respects refused (ext f : M A).
Proof using. intros s. apply observes_refused, ext_observes. Qed.
Lemma ext__refused f : respects refused (ext_ f : M unit).
Proof using. intros s. apply observes_refused, ext__observes. Qed.
Lemma random_refused prefix n : respects refused (randomOpaque prefix n : M string).
Proof using. unfold randomOpaque. respects_go. apply ext_refused. Qed.
Lemma target_refused config : respects refused (apply_target path config : M target).
Proof using. unfold apply_target. cbv zeta. respects_go; try apply refused_peek. apply random_refused. Qed.

Lemma profileByName_none ps name e : profileByName ps name = Err e → ∀ p, p ∈ ps → profileName p ≠ TrimSpace name.
Proof using.
  unfold profileByName. destruct (list_find _ ps) eqn:El; [done|]. intros _ p Hp. apply list_find_None in El.
  rewrite Forall_forall in El. by apply El.
Qed.
(** The profile that was appended is the one that is found. *)
Lemma profileByName_last ps p name : (∀ q, q ∈ ps → profileName q ≠ TrimSpace name) → profileName p = TrimSpace name →
  profileByName (ps ++ [p]) name = Ok (length ps, p).
Proof using.
  intros Hps Hp. unfold profileByName. erewrite (proj2 (list_find_Some _ _ (length ps) p)); [done|].
  split_and!; [by rewrite lookup_app_r, Nat.sub_diag by lia|done|]. intros j q Hj Hlt. rewrite lookup_app_l in Hj by lia.
  apply Hps. by eapply list_elem_of_lookup_2.
Qed.
(** The engine of the profile runs. *)
Definition up (id : string) (s : supervisor) : Prop := is_Some (sv_runtimes s !! id).
Lemma up_same id s s' : same_runtimes (sv_runtimes s) (sv_runtimes s') → up id s → up id s'.
Proof using.
  intros Hr Hu. apply (f_equal (.!! id)) in Hr. rewrite !lookup_fmap in Hr. apply (fmap_is_Some (λ m, (m_State m, m_Engine m))).
  rewrite <-Hr. by apply fmap_is_Some.
Qed.
Lemma target_spec ids config s : sound pool ids s → TrimSpace (c_Name config) = c_Name config → c_Name config ≠ "" →
  wp (apply_target path config : M target) (λ r _, match r with
    | Ok t => target_ok (sv_st s) config t ∧ (tg_running t = true → up (pr_ID (tg_configured t)) s)
    | Err e => e ≠ ENilPointer
    end) s.
Proof using.
  intros Hs Ht Hne. pose proof (sn_inv _ _ _ Hs) as [Hst _]. unfold apply_target. apply wp_bind, wp_gets.
  destruct (profileByName _ _) as [[i p]|e] eqn:Ep.
  - apply profileByName_in in Ep as (Hi & Hin & Hn). apply wp_bind, wp_fail_if; intros _; [done|]. apply wp_bind, wp_fail_if; intros _; [done|].
    apply wp_bind, wp_gets. destruct (readWireGuardSecrets _ _ _) as [old|]; [|by apply wp_fail]. apply wp_bind, wp_gets, wp_ret.
    destruct (stored_profile _ _ _ _ Hs Hi) as [Hd _]. split; [|cbn; by intros Hup%bool_decide_eq_true]. split; cbn; [done| |by apply Hst|by intros; eapply list_elem_of_lookup_2|done].
    rewrite Ht in Hn. rewrite <-Hn. unfold profileName. destruct (String.eqb_spec (pr_Name p) "") as [E0|]; [|done].
    cbn. apply (f_equal pr_Name) in Hd. cbn in Hd. rewrite E0 in Hd. cbn in Hd. destruct (so_policy _ _ _ Hst) as [_ _ Hids].
    by destruct (Hids p Hin).
  - pose proof (profileByName_none _ _ _ Ep) as Hnone. clear Ep. apply wp_bind, (wp_random (path:=path)).
    { done. }
    intros x s1 H1. apply wp_bind, wp_gets, wp_bind, wp_lift.
    destruct (validateNewStateDirLocked _ _ _ _) as [dir|e1]; cbn [wrap]; [|done]. cbv zeta. set (p := MkProfile _ _ _ _ _ _ _ _ _ _ _ _ _ _).
    assert (Hp : profileName p = TrimSpace (c_Name config)).
    { rewrite Ht. unfold profileName, p. cbn. by apply String.eqb_neq in Hne as ->. }
    rewrite (profileByName_last _ p _ Hnone Hp). apply wp_ret. split; [|done]. split; cbn.
    + by rewrite lookup_app_r, Nat.sub_diag by lia.
    + done.
    + done.
    + intros j q Hj Hlt. apply lookup_app_Some in Hj as [Hj|[Hle Hj]]; [by eapply list_elem_of_lookup_2|].
      apply list_lookup_singleton_Some in Hj as [? _]. lia.
    + by apply sublist_inserts_r.
Qed.

Lemma save_desired_spec ids t config secrets secretFile s : sound pool ids s → target_ok (sv_st s) config t → c_Name config ≠ "" →
  NormalizeConfig config = Ok config → secretFile ≠ "" → secret_file_bad secretFile = false →
  wp (save_desired (F:=F) path t config secrets secretFile : M _) (λ r s1, match r with
    | Ok (next, configured, _) => next = desired_state (F:=F) (sv_st s) t config secretFile ∧ sv_st s1 = next ∧
        sound pool (pr_ID <$> st_Profiles next) s1 ∧ profileByID (st_Profiles next) (pr_ID (tg_configured t)) = Some configured ∧
        st_ok pool next ∧ same_runtimes (sv_runtimes s) (sv_runtimes s1)
    | Err e => refused s s1
    end) s.
Proof using SJL DNSNameLaws0.
  intros Hs Ht Hne Hc Hf Hb. unfold save_desired. apply wp_bind, wp_gets. cbv zeta.
  pose proof (desired_ok _ _ _ _ (proj1 (sn_inv _ _ _ Hs)) Ht Hne Hc Hf Hb) as Hok. set (next := desired_state _ _ _ _) in *.
  destruct (profileByID (st_Profiles next) _) as [configured|] eqn:Ep; [|by apply wp_fail].
  apply wp_bind, (wp_respects refused).
  { destruct (tg_running t); [|apply (respects_ret _)]. respects_go. apply ext_refused. }
  intros r s1 H1. destruct r as [engineApply|e]; [|done]. apply wp_bind.
  pose proof (sound_refused _ _ _ H1 Hs) as Hs1. eapply wp_mono; [apply (save_next ids); [done|done|]|].
  - intros k m Hm. apply desired_known; [done|]. left. rewrite <-(rf_st _ _ H1). by apply (sn_known _ _ _ Hs1 k m).
  - intros [[u|e]|e] s2; [| |done].
    + intros [Hs2 Er2]. apply wp_bind, wp_modify, wp_ret. split_and!; [done..|]. cbn. rewrite Er2. apply (rf_runtimes _ _ H1).
    + intros H2. apply wp_fail. by etrans.
Qed.
Lemma wp_or_remove {A} stateDir secretFile (m : M A) (Q : result sup_error A → supervisor → Prop) s :
  wp m (λ r s', match r with Ok a => Q (Ok a) s' | Err e => ∀ w, Q (Err e) (set_ext w s') end) s →
  wp (or_remove stateDir secretFile m) Q s.
Proof using.
  intros Hm. unfold or_remove. apply wp_bind, wp_try. eapply wp_mono; [exact Hm|]. intros [a|e] s1 HQ; [by apply wp_ret|].
  apply wp_bind, wp_modify, wp_fail, HQ.
Qed.

(** ** After the save *)

(** Steps that keep the desired state that was saved. *)
Definition holds {A} (next : State) (ids : list string) (m : M A) : Prop := ∀ s, sound pool ids s → same_desired next (sv_st s) →
  wp m (λ r s', sound pool ids s' ∧ same_desired next (sv_st s') ∧ ∀ e, r = Err e → refusal e = false) s.
Lemma holds_late {A} next ids (m : M A) : late ids m → holds next ids m.
Proof using.
  intros Hm s Hs Hd. eapply wp_mono; [by apply Hm|]. intros r s1 (H1 & Hd1 & He1). split_and!; [done|by etrans|done].
Qed.
Lemma holds_bind {A C} next ids (m : M A) (f : A → M C) : holds next ids m → (∀ a, holds next ids (f a)) → holds next ids (m ≫= f).
Proof using.
  intros Hm Hf s Hs Hd. apply wp_bind. eapply wp_mono; [by apply Hm|]. intros [a|e] s1 (H1 & Hd1 & He1); [by apply Hf|].
  split_and!; [done..|]. intros e' [= <-]. by apply He1.
Qed.
Lemma holds_fail {A} next ids e : refusal e = false → holds next ids (fail e : M A).
Proof using. intros He s Hs Hd. apply wp_fail. split_and!; [done..|]. by intros e' [= <-]. Qed.
Lemma holds_degraded {A} next ids id cause e : refusal e = false → holds next ids (degraded id cause e : M A).
Proof using. intros He. apply holds_bind; [apply holds_late, late_set_lastError|]. intros _. by apply holds_fail. Qed.
Lemma holds_ext {A} next ids (f : W → W * A) : holds next ids (ext f : M A).
Proof using. intros s Hs Hd. apply wp_ext. intros w a _. split_and!; [by apply sound_ext|done|done]. Qed.
Lemma holds_or_degraded next ids id e f engine : refusal e = false → holds next ids (or_degraded id e f engine : M unit).
Proof using.
  intros He. unfold or_degraded. destruct engine as [engine|]; [|apply holds_late, late_ret].
  apply holds_bind; [apply holds_ext|]. intros []; [apply holds_late, late_ret|by apply holds_degraded].
Qed.
Lemma holds_start next ids configured : pr_ID configured ∈ ids → holds next ids (start_applied tun_mode configured : M (option E)).
Proof using.
  intros Hin. unfold start_applied. apply holds_bind.
  - intros s Hs Hd. apply wp_try, (wp_respects (starts configured)); [apply startProfile_starts|]. intros r s1 H1.
    split_and!; [by eapply starts_sound|by destruct H1 as [-> _ _ _]|done].
  - intros [u|e]; [|by apply holds_degraded]. apply holds_bind; [apply holds_late, late_gets|]. intros runtimes.
    destruct (runtimes !! pr_ID configured) as [m|]; [|by apply holds_fail]. apply holds_bind; [|intros; apply holds_late, late_ret].
    unfold fail_if. destruct (negb _); [by apply holds_fail|apply holds_late, late_ret].
Qed.
(** After a reconciliation that failed the saved state is put back. *)
Lemma holds_put_back next ids : st_ok pool next → pr_ID <$> st_Profiles next = ids → holds next ids (modify (set_st next) : M unit).
Proof using.
  intros Hok Hids s [[Hst Hp] Hk Hdu Hi] Hd. apply wp_modify. split_and!; [|done|done]. split.
  - by split.
  - intros k m Hm. change (pr_ID (m_State m) = k ∧ k ∈ pr_ID <$> st_Profiles next). rewrite Hids, <-Hi. by apply Hk.
  - intros (st0 & Hl & Hd0)%Hdu. exists st0. split; [done|]. cbn. etrans; [exact Hd0|by symmetry].
  - done.
Qed.
Lemma view_refused configured : respects refused (wireGuardProfileLocked (B:=B) (S:=S) configured : M _).
Proof using. unfold wireGuardProfileLocked. cbv zeta. respects_go; try apply ext_refused. apply refused_peek. Qed.
(** The errors of steps after the save that stay on record. *)
Definition recorded (e : sup_error) : bool :=
  match e with EApplyFailed | EStartFailed _ | EReconcileFailed _ | EPublishFilter => true | _ => false end.
Lemma view_errors configured s : wp (wireGuardProfileLocked (B:=B) (S:=S) configured : M _) (λ r _, ∀ e, r = Err e → refusal e = false ∧ recorded e = false) s.
Proof using.
  unfold wireGuardProfileLocked. destruct (pr_WireGuard configured) as [config|]; [|by intros e [= <-]].
  apply wp_bind, wp_lift. destruct (DestinationResolutions config) as [rs|e0]; cbn [wrap]; [|by intros e [= <-]].
  apply wp_bind, wp_gets, wp_bind. destruct (sv_runtimes s !! pr_ID configured) as [m|].
  - apply wp_bind, wp_ext. intros w [status|] _; [apply wp_ret, wp_bind, wp_gets, wp_ret; done|by intros e [= <-]].
  - apply wp_bind, wp_gets, wp_ret, wp_bind, wp_gets, wp_ret. done.
Qed.
Lemma late_view ids configured : late ids (wireGuardProfileLocked (B:=B) (S:=S) configured : M _).
Proof using.
  intros s Hs. eapply (wp_frame refused); [apply view_refused|apply view_errors|]. intros r s1 H1 He.
  split_and!; [by eapply sound_refused|by rewrite (rf_st _ _ H1)|]. intros e Hr. by apply He.
Qed.

(** ** The handlers *)

Lemma holds_apply_saved next ids configured wasRunning engineApply : st_ok pool next → pr_ID <$> st_Profiles next = ids →
  pr_ID configured ∈ ids →
  holds next ids (apply_saved (F:=F) (B:=B) (S:=S) CGNATRange TailscaleULARange ServiceIP path tun_mode next configured wasRunning engineApply : M _).
Proof using LPMLaws0 DNSNameLaws0 SJL.
  intros Hok Hids Hin. unfold apply_saved. cbv zeta. apply holds_bind; [by apply holds_or_degraded|]. intros _.
  apply holds_bind. { destruct (_ && _); [by apply holds_start|apply holds_late, late_ret]. }
  intros started. apply holds_bind.
  { destruct (negb _); [|apply holds_late, late_ret]. apply holds_bind; [apply holds_late, late_try_reconcile|].
    intros [u|e]; [apply holds_late, late_ret|]. apply holds_bind; [by apply holds_put_back|]. intros _. by apply holds_degraded. }
  intros _. apply holds_bind; [by apply holds_or_degraded|]. intros _. apply holds_bind; [by apply holds_or_degraded|]. intros _.
  apply holds_bind; [|intros _; apply holds_late, late_view]. by apply holds_late, late_modify.
Qed.
(** A step of a handler that changes nothing yet. *)
Lemma wp_before {A C} q ids s (m : M A) (f : A → M C) (P : A → W → W → Prop) : sound pool ids s → respects refused m →
  wp m (λ r s1, match r with Ok a => P a (sv_ext s) (sv_ext s1) | Err _ => True end) s →
  (∀ a s1, refused s s1 → sound pool ids s1 → P a (sv_ext s) (sv_ext s1) → wp (f a) (outcome q s1) s1) → wp (m ≫= f) (outcome q s) s.
Proof using.
  intros Hs Hm HP Hf. apply wp_bind. eapply (wp_frame refused); [exact Hm|exact HP|]. intros [a|e] s1 H1 Ha.
  - eapply wp_mono; [by apply Hf; [| eapply sound_refused|]|]. intros r s2. by apply outcome_trans.
  - by eapply outcome_err.
Qed.
Lemma WireGuardProfile_outcome name ids s : sound pool ids s →
  wp (WireGuardProfile_ (B:=B) (S:=S) name : M _) (outcome (RWGProfile name) s) s.
Proof using.
  intros Hs. eapply outcome_views; [done|done|]. unfold WireGuardProfile_, configuredByNameLocked. respects_go. apply view_refused.
Qed.
Lemma prepare_refused st configured config enabled : respects refused (prepare_shields (B:=B) (S:=S) st configured config enabled : M (option E)).
Proof using. unfold prepare_shields. respects_go; apply ext_refused. Qed.
Lemma holds_commit next ids id engine : holds next ids (commit_shields id engine : M unit).
Proof using.
  unfold commit_shields. apply holds_bind; [apply holds_ext|]. intros ok. destruct (negb ok).
  - apply holds_bind; [apply holds_late, late_set_lastError|]. intros _. by apply holds_fail.
  - apply holds_bind; [apply holds_ext|]. intros status. apply holds_bind; [|intros _; by apply holds_late, late_modify].
    destruct status; [|apply holds_late, late_ret]. apply holds_late, late_refused; [|by intros s1].
    intros s1. by apply observes_refused, update_managed_observes.
Qed.
Lemma SetShieldsUp_outcome name enabled ids s : sound pool ids s →
  wp (SetWireGuardShieldsUp (F:=F) (B:=B) (S:=S) path name enabled : M _) (outcome (RShields name enabled) s) s.
Proof using SJL DNSNameLaws0.
  intros Hs. unfold SetWireGuardShieldsUp. apply (wp_configured _ ids); [done|]. intros i p Hi _ Hin.
  apply (wp_refuse_if _ ids); [done|]. intros _. destruct (pr_WireGuard p) as [config|] eqn:Ew; [|by eapply outcome_err].
  apply (wp_refuse_if _ ids); [done|]. intros _. destruct (eqb _ _); [by eapply outcome_views; [| |apply view_refused]|].
  apply wp_bind, wp_gets. apply (wp_before _ ids _ _ _ (λ _ _ _, True)); [done|apply prepare_refused|by apply wp_any; intros []|].
  intros update s1 H1 Hs1 _. rewrite <-(rf_st _ _ H1) in *. clear s Hs H1.
  apply (wp_before _ ids _ _ _ (λ _ _ _, True)); [done| |by apply wp_any; intros []|].
  { destruct update; [|apply (respects_ret _)]. respects_go. apply ext_refused. }
  intros _ s2 H2 Hs2 _. rewrite <-(rf_st _ _ H2) in *. clear s1 Hs1 H2.
  destruct (list_find _ _) as [[j q]|] eqn:Ef; [|by apply wp_bind, wp_fail; eapply outcome_err].
  apply list_find_Some in Ef as (Hj & _ & _). apply wp_bind, wp_ret. cbv zeta. set (q' := set_ShieldsUp q enabled).
  assert (Hok : st_ok pool (set_Profiles (sv_st s2) (<[j := q']> (st_Profiles (sv_st s2))))).
  { apply (put_shape_ok _ _ _ _ q); [apply (sn_inv _ _ _ Hs2)|done|done]. }
  pose proof (put_ids (sv_st s2) j q q' Hj eq_refl) as Hids. rewrite (sn_ids _ _ _ Hs2) in Hids.
  apply wp_bind. eapply wp_mono; [apply (save_next ids); [done|exact Hok|]|].
  { intros k m Hm. cbn. rewrite Hids, <-(sn_ids _ _ _ Hs2). by apply (sn_known _ _ _ Hs2 k m). }
  cbn [st_Profiles set_Profiles]. rewrite Hids. intros [[u|e]|e] s3; [| |done].
  - intros [Hs3 _]. apply wp_bind, wp_modify. set (next := set_Profiles _ _) in *.
    assert (Hrest : holds next ids (_ ← match update with Some engine => commit_shields (pr_ID q') engine | None => mret tt end;
      wireGuardProfileLocked (B:=B) (S:=S) q' : M _)).
    { apply holds_bind; [|intros; apply holds_late, late_view]. destruct update; [apply holds_commit|apply holds_late, late_ret]. }
    eapply wp_mono; [by apply Hrest|]. intros r5 s5 (Hs5 & _ & He). by eapply outcome_late.
  - intros H3. apply wp_bind. destruct update; [apply wp_modify|apply wp_ret]; apply wp_fail; eapply outcome_err; try done.
    etrans; [exact H3|apply refused_ext].
Qed.

(** ** What a successful application means *)

(** Only the world and the errors on record changed. *)
Record stays (s s' : supervisor) : Prop := {
  sy_st : sv_st s' = sv_st s;
  sy_fs : sv_fs s' = sv_fs s;
  sy_runtimes : sv_runtimes s' = sv_runtimes s;
  sy_mapper : sv_mapper s' = sv_mapper s;
  sy_router : sv_router s' = sv_router s;
  sy_ip : sv_ipPolicy s' = sv_ipPolicy s;
  sy_dns : sv_dnsPolicy s' = sv_dnsPolicy s;
  sy_trace : sv_trace s' = sv_trace s }.
#[export] Instance stays_preorder : PreOrder stays.
Proof using. split; [by intros s|]. intros s1 s2 s3 [] []. split; congruence. Qed.
Lemma settled_stays s s' : stays s s' → settled pool s → settled pool s'.
Proof using.
  intros [Est Ef Er Em Ero Ei Ed Et] [Hf Hp]. split; [by rewrite Est, Ef|]. destruct tun_mode; [|by rewrite Ero].
  by rewrite Er, Est, Em, Ei, Ed, Et.
Qed.
Lemma stays_ext {A} (f : W → W * A) : respects stays (ext f : M A).
Proof using. intros s. unfold ext. by destruct (f (sv_ext s)). Qed.
Lemma stays_or_degraded id e f engine : respects stays (or_degraded id e f engine : M unit).
Proof using.
  unfold or_degraded, degraded. respects_go; try apply stays_ext. by apply respects_modify.
Qed.
Lemma stays_view configured : respects stays (wireGuardProfileLocked (B:=B) (S:=S) configured : M _).
Proof using. unfold wireGuardProfileLocked. cbv zeta. respects_go; [apply stays_ext|apply (respects_gets _)]. Qed.
Lemma view_lastErrors configured s : wp (wireGuardProfileLocked (B:=B) (S:=S) configured : M _) (λ _ s', sv_lastErrors s' = sv_lastErrors s) s.
Proof using.
  apply (wp_respects (λ s s', sv_lastErrors s' = sv_lastErrors s)); [|done]. unfold wireGuardProfileLocked. cbv zeta.
  assert (PreOrder (λ s s' : supervisor, sv_lastErrors s' = sv_lastErrors s)) by (split; [done|intros ? ? ? ? ?; congruence]).
  respects_go; [|apply (respects_gets _)]. intros s1. unfold ext. by destruct (engine_Status _ _).
Qed.
Lemma start_up configured s : wp (start_applied tun_mode configured : M (option E)) (λ r s', is_ok r = true → up (pr_ID configured) s') s.
Proof using.
  unfold start_applied. apply wp_bind, wp_try, wp_any. intros [u|e] s1.
  - apply wp_bind, wp_gets. destruct (sv_runtimes s1 !! pr_ID configured) as [m|] eqn:Em; [|done].
    apply wp_bind, wp_fail_if; intros _; [done|]. apply wp_ret. intros _. by exists m.
  - apply wp_bind, wp_modify, wp_fail. done.
Qed.
Lemma applied_spec next ids configured wasRunning engineApply s : sound pool ids s → same_desired next (sv_st s) →
  pr_ID configured ∈ ids → (wasRunning = true → up (pr_ID configured) s) →
  wp (apply_saved (F:=F) (B:=B) (S:=S) CGNATRange TailscaleULARange ServiceIP path tun_mode next configured wasRunning engineApply : M _)
    (λ r s', is_ok r = true → sv_lastErrors s' !! pr_ID configured = None ∧
       (pr_Disabled configured = false → settled pool s' ∧ up (pr_ID configured) s')) s.
Proof using LPMLaws0 DNSNameLaws0 SJL.
  intros Hs Hd Hin Hrun. unfold apply_saved. cbv zeta. set (id := pr_ID configured) in *.
  apply wp_bind. eapply (wp_frame stays); [apply stays_or_degraded|by apply (holds_or_degraded next ids id)|].
  intros [u|e] s1 H1 (Hs1 & Hd1 & _); [|done]. assert (Hrun1 : wasRunning = true → up id s1) by (unfold up; by rewrite (sy_runtimes _ _ H1)).
  clear s Hs Hd Hrun H1. apply wp_bind. eapply wp_mono.
  { instantiate (1 := λ r s2, is_ok r = true → sound pool ids s2 ∧ (pr_Disabled configured = false → up id s2)).
    destruct (pr_Disabled configured), wasRunning; cbn [negb andb]; [by apply wp_ret|by apply wp_ret|apply wp_ret; auto|].
    eapply wp_mono; [apply wp_and; [by apply (holds_start next ids)|apply start_up]|].
    intros r s2 ((Hs2 & _) & Hu) Hok. auto. }
  intros [started|e] s2 H2; [|done]. destruct (H2 eq_refl) as [Hs2 Hu2]. clear s1 Hs1 Hd1 Hrun1 H2. apply wp_bind. eapply wp_mono.
  { instantiate (1 := λ r s3, is_ok r = true → pr_Disabled configured = false → settled pool s3 ∧ up id s3).
    destruct (pr_Disabled configured); cbn [negb]; [by apply wp_ret|]. apply wp_bind, wp_try. unfold wp.
    destruct (reconcileLocked s2) as [s3 r] eqn:Er. destruct (reconcile_facts _ _ _ _ _ _ _ _ _ (sn_inv _ _ _ Hs2) Er) as (Hk & _ & Hset).
    cbn [fst snd]. destruct r as [[]|e]; [|done]. intros _ _. split; [by apply Hset|]. eapply up_same; [apply Hk|auto]. }
  intros [u3|e] s3 H3; [|done]. specialize (H3 eq_refl). clear s2 Hs2 Hu2.
  assert (Hstep : ∀ s4, stays s3 s4 → pr_Disabled configured = false → settled pool s4 ∧ up id s4).
  { intros s4 H4 Hen. destruct (H3 Hen) as [? ?]. split; [by eapply settled_stays|unfold up; by rewrite (sy_runtimes _ _ H4)]. }
  apply wp_bind, (wp_respects stays); [apply stays_or_degraded|]. intros [u4|e] s4 H4; [|done].
  apply wp_bind, (wp_respects stays); [apply stays_or_degraded|]. intros [u5|e] s5 H5; [|done]. apply wp_bind, wp_modify.
  eapply (wp_frame stays); [apply stays_view|apply view_lastErrors|]. intros r s6 H6 El _. rewrite El. split; [apply lookup_delete_eq|].
  apply Hstep. etrans; [exact H4|]. etrans; [exact H5|]. by etrans; [|exact H6].
Qed.

(** *** Failures stay on record *)

Definition notes {A} (id : string) (m : M A) : Prop := ∀ s,
  wp m (λ r s', ∀ e, r = Err e → recorded e = true → is_Some (sv_lastErrors s' !! id)) s.
Lemma notes_bind {A C} id (m : M A) (f : A → M C) : notes id m → (∀ a, notes id (f a)) → notes id (m ≫= f).
Proof using.
  intros Hm Hf s. apply wp_bind. eapply wp_mono; [apply Hm|]. intros [a|e] s1 He; [apply Hf|]. intros e' [= <-]. by apply He.
Qed.
Lemma notes_ok {A} id (m : M A) : never_fails m → notes id m.
Proof using. intros Hm s. unfold wp. intros e He. pose proof (Hm s) as Hok. by rewrite He in Hok. Qed.
Lemma notes_degraded {A} id cause e : notes id (degraded id cause e : M A).
Proof using. intros s. unfold degraded. apply wp_bind, wp_modify, wp_fail. intros _ _ _. cbn. rewrite lookup_insert_eq. by eexists. Qed.
Lemma notes_or_degraded id e f engine : notes id (or_degraded id e f engine : M unit).
Proof using.
  unfold or_degraded. destruct engine as [engine|]; [|by apply notes_ok].
  apply notes_bind; [apply notes_ok; intros s; unfold ext; by destruct (f engine (sv_ext s))|].
  intros []; [by apply notes_ok|apply notes_degraded].
Qed.
Lemma apply_saved_notes next configured wasRunning engineApply : notes (pr_ID configured)
  (apply_saved (F:=F) (B:=B) (S:=S) CGNATRange TailscaleULARange ServiceIP path tun_mode next configured wasRunning engineApply : M _).
Proof using.
  unfold apply_saved. cbv zeta. apply notes_bind; [apply notes_or_degraded|]. intros _. apply notes_bind.
  { destruct (_ && _); [|by apply notes_ok]. unfold start_applied. apply notes_bind; [apply notes_ok|].
    { intros s. unfold try. by destruct (startProfileLockedWithWireGuardTransition _ _ _ _ _ s). }
    intros [u|e]; [|apply notes_degraded]. apply notes_bind; [by apply notes_ok|]. intros runtimes.
    destruct (runtimes !! _) as [m|]; [|by intros s e [= <-]]. apply notes_bind; [|by intros _; apply notes_ok].
    intros s. by apply wp_fail_if; intros _ e [= <-]. }
  intros started. apply notes_bind.
  { destruct (negb _); [|by apply notes_ok]. apply notes_bind; [apply notes_ok|].
    { intros s. unfold try. by destruct (reconcileLocked s). }
    intros [u|e]; [by apply notes_ok|]. apply notes_bind; [by apply notes_ok|]. intros _. apply notes_degraded. }
  intros _. apply notes_bind; [apply notes_or_degraded|]. intros _. apply notes_bind; [apply notes_or_degraded|]. intros _.
  apply notes_bind; [by apply notes_ok|]. intros _ s. eapply wp_mono; [apply view_errors|]. intros r s1 He e Hr Hrec.
  destruct (He e Hr). congruence.
Qed.

(** *** The whole of it *)

(** An application that reached the save: what it applied, and what holds when it
    returns, with an error or not. *)
Record applied (requested : Config) (supplied : Secrets) (s : supervisor) (r : result sup_error WireGuardProfile) (s' : supervisor)
    (config : Config) (t : target) (secrets : Secrets) (file : string) (configured : Profile) : Prop := {
  ap_config : NormalizeConfig requested = Ok config;
  ap_names : validateWireGuardEndpointNames config = Ok tt;
  ap_target : target_ok (sv_st s) config t;
  ap_secrets : ∃ w w', completeWireGuardSecrets config supplied (tg_secrets t) (tg_create t) w = (w', Ok secrets);
  ap_keys : validateWireGuardKeyOwnership config secrets = Ok tt;
  ap_file : file ≠ "" ∧ secret_file_bad file = false;
  ap_member : ∃ enable, enable = tg_create t || beforeProfileRemoved (st_Profiles (sv_st s)) (pr_ID (tg_configured t)) ∧
    configure (tg_configured t) config file enable ∈ st_Profiles (desired_state (F:=F) (sv_st s) t config file);
  ap_profile : profileByID (st_Profiles (desired_state (F:=F) (sv_st s) t config file)) (pr_ID (tg_configured t)) = Some configured;
  ap_sound : sound pool (pr_ID <$> st_Profiles (desired_state (F:=F) (sv_st s) t config file)) s';
  ap_desired : same_desired (desired_state (F:=F) (sv_st s) t config file) (sv_st s');
  ap_err : ∀ e, r = Err e → refusal e = false ∧ (recorded e = true → is_Some (sv_lastErrors s' !! pr_ID configured));
  ap_ok : is_ok r = true → sv_lastErrors s' !! pr_ID configured = None ∧
    (pr_Disabled configured = false → settled pool s' ∧ up (pr_ID configured) s') }.
Definition apply_result (requested : Config) (supplied : Secrets) (s : supervisor) (r : result sup_error WireGuardProfile) (s' : supervisor) : Prop :=
  (∃ e, r = Err e ∧ refused s s') ∨ ∃ config t secrets file configured, applied requested supplied s r s' config t secrets file configured.
(** A step that changes nothing yet. *)
Lemma run_before {A} requested supplied ids s s0 (m : M A) (f : A → M WireGuardProfile) (P : A → W → W → Prop) :
  refused s s0 → sound pool ids s0 → respects refused m →
  wp m (λ r s1, match r with Ok a => P a (sv_ext s0) (sv_ext s1) | Err _ => True end) s0 →
  (∀ a s1, refused s s1 → sound pool ids s1 → P a (sv_ext s0) (sv_ext s1) → wp (f a) (apply_result requested supplied s) s1) →
  wp (m ≫= f) (apply_result requested supplied s) s0.
Proof using.
  intros H0 Hs Hm HP Hf. apply wp_bind. eapply (wp_frame refused); [exact Hm|exact HP|]. intros [a|e] s1 H1 Ha.
  - apply Hf; [by etrans|by eapply sound_refused|done].
  - left. exists e. split; [done|by etrans].
Qed.
Lemma run_lift {A} requested supplied s s0 (r : result sup_error A) (f : A → M WireGuardProfile) : refused s s0 →
  (∀ a, r = Ok a → wp (f a) (apply_result requested supplied s) s0) → wp (lift r ≫= f) (apply_result requested supplied s) s0.
Proof using. intros H0 Hf. apply wp_bind, wp_lift. destruct r as [a|e]; [by apply Hf|]. left. by exists e. Qed.
Lemma apply_run requested supplied ids s : sound pool ids s →
  wp (ApplyWireGuard (F:=F) (B:=B) (S:=S) CGNATRange TailscaleULARange ServiceIP path tun_mode requested supplied : M _)
    (apply_result requested supplied s) s.
Proof using LPMLaws0 DNSNameLaws0 SJL RuntimeLaws0.
  intros Hs. unfold ApplyWireGuard. assert (Hno : ∀ e s1, refused s s1 → apply_result requested supplied s (Err e) s1) by (left; eauto).
  apply wp_bind, wp_bind, wp_gets, wp_fail_if; intros _; [by apply Hno|]. apply run_lift; [done|].
  intros config Hconf%wrap_ok_inv. destruct (normalized_config _ _ Hconf) as (Hc & Ht & Hne).
  apply wp_bind, wp_fail_if; intros _; [by apply Hno|]. apply run_lift; [done|]. intros [] Hnames.
  apply wp_bind. eapply (wp_frame refused); [apply target_refused|by apply (target_spec ids)|].
  intros [t|e] s1 H1 Ht1; [|by apply Hno]. destruct Ht1 as [Hto Hrun]. cbv zeta. pose proof (sound_refused _ _ _ H1 Hs) as Hs1.
  apply (run_before _ _ ids _ _ _ _ (λ r w w', completeWireGuardSecrets config supplied (tg_secrets t) (tg_create t) w = (w', r)));
    [done|done|apply ext_refused|by apply wp_ext|].
  intros r s2 H2 Hs2 Hsec. apply run_lift; [done|]. intros secrets Hr%wrap_ok_inv. rewrite Hr in Hsec.
  apply run_lift; [done|]. intros [] Hkeys.
  apply (run_before _ _ ids _ _ _ _ (λ a w w', writeWireGuardSecrets (pr_StateDir (tg_configured t)) secrets w = (w', a)));
    [done|done|apply ext_refused|by apply wp_ext|].
  intros file s3 H3 Hs3 Hw. destruct file as [file|]; [|by apply Hno].
  apply written_name in Hw as Hfile. destruct Hfile as [Hf Hb]. pose proof Hto as Hto3. rewrite <-(rf_st _ _ H3) in Hto3.
  apply wp_bind, wp_or_remove. eapply wp_mono; [by eapply save_desired_spec|]. rewrite (rf_st _ _ H3).
  intros [[[next configured] engineApply]|e] s4; [|intros H4 w; apply Hno; etrans; [exact H3|]; etrans; [exact H4|apply refused_ext]].
  intros (-> & Est & Hs4 & Hp & Hok & Hsame). apply profileByID_in in Hp as Hpin. destruct Hpin as [Hin Hid].
  set (next := desired_state _ _ _ _) in *. apply (list_elem_of_fmap_2 pr_ID) in Hin.
  apply wp_bind. eapply wp_mono.
  { instantiate (1 := λ r s5, is_ok r = true ∧ stays s4 s5). by destruct (_ && _). }
  intros [u|e] s5 [Hok5 H5]; [clear Hok5|done]. assert (Hs5 : sound pool (pr_ID <$> st_Profiles next) s5).
  { eapply sound_refused; [|exact Hs4]. destruct H5. split; unfold same_runtimes; congruence. }
  assert (Hd5 : same_desired next (sv_st s5)) by (by rewrite (sy_st _ _ H5), Est).
  eapply wp_mono.
  { apply wp_and; [by apply (holds_apply_saved next _ configured (tg_running t) engineApply Hok eq_refl Hin)|].
    apply wp_and; [apply (applied_spec next _ configured (tg_running t) engineApply s5 Hs5 Hd5 Hin)|apply apply_saved_notes].
    intros Hr1. rewrite Hid. unfold up. rewrite (sy_runtimes _ _ H5). eapply up_same; [exact Hsame|]. eapply up_same; [apply (rf_runtimes _ _ H3)|auto]. }
  intros r6 s6 ((Hs6 & Hd6 & He6) & Hok6 & Hn6). right. exists config, t, secrets, file, configured. split; try done.
  { by eauto. } { eexists. split; [done|by apply configure_in]. }
  intros e He. split; [by apply He6|by eapply Hn6].
Qed.
Lemma ApplyWireGuard_outcome requested supplied ids s : sound pool ids s →
  wp (ApplyWireGuard (F:=F) (B:=B) (S:=S) CGNATRange TailscaleULARange ServiceIP path tun_mode requested supplied : M _)
    (outcome (RApplyWG requested supplied) s) s.
Proof using LPMLaws0 DNSNameLaws0 SJL RuntimeLaws0.
  intros Hs. eapply wp_mono; [by apply (apply_run _ _ ids)|]. intros r s' [(e & -> & Hr)|(c & t & k & f & p & [])]; [by eapply outcome_err|].
  eapply outcome_late; [done| |done]. intros e He. by destruct (ap_err0 e He).
Qed.

(** C14. Applying a WireGuard configuration is all or nothing up to the save, and
    goes only forward after it.  A request that fails before the save changes
    nothing.  Otherwise the new state, with the profile configured from the
    normalized request, enabled if it is new or was removed, and with a secret
    file of its own whose keys are no peer's, is in normal form, in the file and
    in force, whatever fails later; such a failure stays on record until a retry
    succeeds; and a success means that none is on record and that the profile,
    unless it is disabled, runs and is part of the plan in force. *)
Theorem apply_sound (ids : list string) (requested : Config) (supplied : Secrets) (s s' : supervisor) (r : result sup_error WireGuardProfile) :
  sound pool ids s →
  ApplyWireGuard (F:=F) (B:=B) (S:=S) CGNATRange TailscaleULARange ServiceIP path tun_mode requested supplied s = (s', r) →
  (∃ e, r = Err e ∧ refused s s') ∨
  ∃ config t secrets file configured, applied requested supplied s r s' config t secrets file configured.
Proof using LPMLaws0 DNSNameLaws0 SJL RuntimeLaws0. intros Hs Hr. exact (wp_run _ _ _ _ _ (apply_run requested supplied ids s Hs) Hr). Qed.
End facts.

(** ** A concrete application *)

Definition rig_apply (s : supervisor (T:=PrefixMap) (E:=string) (Fw:=unit) (W:=world)) :
    supervisor (T:=PrefixMap) (E:=string) (Fw:=unit) (W:=world) * result sup_error WireGuardProfile :=
  ApplyWireGuard (F:=Labels) (B:=tries) (S:=tries) test_cgnat test_ula service_ip rig_path true wg_config (MkSecrets None ∅) s.
Lemma apply_sound_witness :
  is_ok (rig_apply (rig_supervisor [])).2 = true ∧ inv (F:=Labels) test_cgnat test_ula service_ip default_prefix (rig_apply (rig_supervisor [])).1.
Proof.
  assert (Hok : match (rig_apply (rig_supervisor [])).2 with Ok p => wg_Name p = "vpn" | Err _ => False end) by (vm_compute; reflexivity).
  destruct (rig_apply (rig_supervisor [])) as [s' r] eqn:Hr. unfold rig_apply in Hr.
  destruct (apply_sound (T:=PrefixMap) (LT:=PrefixMap_LPM) (F:=Labels) (B:=tries) (S:=tries) (pool:=default_prefix) ["home"; "work"]
    wg_config (MkSecrets None ∅) (rig_supervisor []) s' r (rig_sound true []) Hr) as [(e & -> & _)|(c & t & k & f & p & Ha)]; [destruct Hok|].
  destruct r as [x|e]; [|destruct Hok]. split; [reflexivity|]. exact (sn_inv _ _ _ (ap_sound _ _ _ _ _ _ _ _ _ _ Ha)).
Defined.
