(* ===== verification/ControlFacts.v ===== *)
(** * Facts about the control API

    Every request is one step of the daemon.  Whatever its outcome it keeps the
    state in normal form, the published tables in their order and the engines
    those of stored profiles; what the memory desires is what the file holds; and
    a request that is refused changes nothing. *)

From S2P Require Import Prelude Effects GoStrings FilePath Netip RoutingTable PacketMap EffectiveIP Activity DNSName WireGuardCfg State Types HostPools ProfileSpec LeasePlan RoutingPolicy TUNTable TUNTableFacts DNSPolicy TUNDNS TUNPlan SocksRouter PolicyPatch ExitNodes Paths ProfileView Runtime RigWorld WireGuardSecrets Supervisor Rig SupervisorFacts ControlAPI IPSet WireGuardFilter WireGuardAPI StateEdits ControlSteps WireGuardFacts.
Local Open Scope Z_scope.

Section facts.
Context {T : Type → Type} `{LT : LPM T, !LPMLaws T} {F : Type} `{DN : DNSName F, !DNSNameLaws F} `{SJ : StateJSON, SJL : !StateJSONLaws}.
Context {E Fw W : Type} `{RT : Runtime E Fw W, !RuntimeLaws E Fw W} {B S : Type} `{IPSets B S}.
Context (CGNATRange TailscaleULARange : Prefix) (ServiceIP : Addr) (path : string) (tun_mode : bool).
Context (initial : gmap string string) (SocketDir : string) (Sum256 : string → list Z).
Local Notation supervisor := (supervisor (T:=T) (E:=E) (Fw:=Fw) (W:=W)).
Local Notation M := (stm supervisor sup_error).
Local Notation reconcileLocked := (reconcileLocked (T:=T) (F:=F) CGNATRange TailscaleULARange ServiceIP path tun_mode).
Local Notation inv := (inv (T:=T) (F:=F) (E:=E) (Fw:=Fw) (W:=W) CGNATRange TailscaleULARange ServiceIP).
Local Notation st_ok := (st_ok (F:=F) ServiceIP).
Local Notation durable := (durable (T:=T) (F:=F) (E:=E) (Fw:=Fw) (W:=W) path).
Local Notation settled := (settled (T:=T) (F:=F) (E:=E) (Fw:=Fw) (W:=W) CGNATRange TailscaleULARange ServiceIP path tun_mode).

Local Notation known := (known (T:=T) (E:=E) (Fw:=Fw) (W:=W)).
Local Notation starts := (starts (T:=T) (E:=E) (Fw:=Fw) (W:=W)).
Local Notation refused := (refused (T:=T) (E:=E) (Fw:=Fw) (W:=W) path).
Context {agree : bool}.
Local Notation sound := (sound (T:=T) (F:=F) (E:=E) (Fw:=Fw) (W:=W) CGNATRange TailscaleULARange ServiceIP path agree).

Definition handle (q : request) : M unit :=
  match q with
  | RAdd q => void (AddProfile (F:=F) CGNATRange TailscaleULARange ServiceIP path tun_mode SocketDir Sum256 q)
  | RPatch name q => void (PatchProfile (F:=F) CGNATRange TailscaleULARange ServiceIP path tun_mode SocketDir Sum256 name q)
  | REnable name enabled => void (SetProfileEnabled (F:=F) CGNATRange TailscaleULARange ServiceIP path tun_mode SocketDir Sum256 name enabled)
  | RRestart name => void (RestartProfile (F:=F) CGNATRange TailscaleULARange ServiceIP path tun_mode SocketDir Sum256 name)
  | RRemove name purge => void (RemoveProfile (F:=F) CGNATRange TailscaleULARange ServiceIP path tun_mode SocketDir Sum256 name purge)
  | RUp up => void (SetDaemonUp (F:=F) CGNATRange TailscaleULARange ServiceIP path tun_mode initial up)
  | RPatchIP q => void (PatchIPRoutes (F:=F) CGNATRange TailscaleULARange ServiceIP path tun_mode q)
  | RReplaceIP bindings acceptAll => void (ReplaceIPRoutes (F:=F) CGNATRange TailscaleULARange ServiceIP path tun_mode bindings acceptAll)
  | RClearIP => void (ClearIPRoutes (F:=F) CGNATRange TailscaleULARange ServiceIP path tun_mode)
  | RPatchDNS q => void (PatchDNSRoutes (F:=F) CGNATRange TailscaleULARange ServiceIP path tun_mode q)
  | RReplaceDNS bindings acceptAll => void (ReplaceDNSRoutes (F:=F) CGNATRange TailscaleULARange ServiceIP path tun_mode bindings acceptAll)
  | RClearDNS => void (ClearDNSRoutes (F:=F) CGNATRange TailscaleULARange ServiceIP path tun_mode)
  | RPatchSearch add remove => void (PatchSearchDomains (F:=F) CGNATRange TailscaleULARange ServiceIP path tun_mode add remove)
  | RReplaceSearch desired => void (ReplaceSearchDomains (F:=F) CGNATRange TailscaleULARange ServiceIP path tun_mode desired)
  | RClearSearch => void (ClearSearchDomains (F:=F) CGNATRange TailscaleULARange ServiceIP path tun_mode)
  | RSetExit name peer => void (SetExitNode (F:=F) CGNATRange TailscaleULARange ServiceIP path tun_mode name peer)
  | RClearExit => void (ClearExitNode (F:=F) CGNATRange TailscaleULARange ServiceIP path tun_mode)
  | RStatus => void (Status_ (F:=F) CGNATRange TailscaleULARange SocketDir Sum256)
  | RIPRoutes available => void (IPRoutes CGNATRange TailscaleULARange available)
  | RDNSRoutes available => void (DNSRoutes (F:=F) available)
  | RSearch => void (SearchDomains (F:=F))
  | RExits => void exitNodes
  | RList all => void (listProfilesLocked (F:=F) SocketDir Sum256 all)
  | RGet name => void (GetProfile (F:=F) SocketDir Sum256 name)
  | RUpdate profileID watch_failed => runtime_update (F:=F) CGNATRange TailscaleULARange ServiceIP path tun_mode profileID watch_failed
  | RApplyWG requested supplied =>
      void (ApplyWireGuard (F:=F) (B:=B) (S:=S) CGNATRange TailscaleULARange ServiceIP path tun_mode requested supplied)
  | RWGProfile name => void (WireGuardProfile_ (B:=B) (S:=S) name)
  | RShields name enabled => void (SetWireGuardShieldsUp (F:=F) (B:=B) (S:=S) path name enabled)
  end.

Section pool.
Context (pool : bool → Prefix).
Local Notation late := (late (T:=T) (F:=F) (E:=E) (Fw:=Fw) (W:=W) CGNATRange TailscaleULARange ServiceIP path agree pool).
Local Notation outcome := (outcome (T:=T) (F:=F) (E:=E) (Fw:=Fw) (W:=W) CGNATRange TailscaleULARange ServiceIP path tun_mode agree pool).
Local Notation settling := (settling (T:=T) (F:=F) (E:=E) (Fw:=Fw) (W:=W) CGNATRange TailscaleULARange ServiceIP path tun_mode agree pool).
Local Notation late_stop_or_note := (late_stop_or_note (F:=F) (CGNATRange:=CGNATRange) (TailscaleULARange:=TailscaleULARange) (ServiceIP:=ServiceIP) (path:=path) (agree:=agree) (pool:=pool)).
Local Notation save_edit := (save_edit (F:=F) (ServiceIP:=ServiceIP) (path:=path) (CGNATRange:=CGNATRange) (TailscaleULARange:=TailscaleULARange) (agree:=agree) (pool:=pool)).
Local Notation commit_spec := (commit_spec (F:=F) (ServiceIP:=ServiceIP) (path:=path) (CGNATRange:=CGNATRange) (TailscaleULARange:=TailscaleULARange) (tun_mode:=tun_mode) (agree:=agree) (pool:=pool)).

(** ** Profiles *)

Lemma AddProfile_outcome request ids s : sound pool ids s →
  wp (AddProfile (F:=F) CGNATRange TailscaleULARange ServiceIP path tun_mode SocketDir Sum256 request : M _) (outcome (RAdd request) s) s.
Proof using LPMLaws0 DNSNameLaws0 SJL.
  intros Hs. unfold AddProfile. apply (wp_require _ ids); [done|]. intros _. apply wp_bind, wp_gets. cbv zeta.
  apply (wp_refuse_if _ ids); [done|]. intros Hname%negb_false_iff%validProfileName_nonempty.
  destruct (configuredByName _ _) as [[i p]|e] eqn:Ec.
  - apply configured_in in Ec as (Hi & _ & Hin). apply (wp_refuse_if _ ids); [done|]. intros _.
    apply wp_bind, wp_modify. unfold finish_add. pose proof (restored_shape p request) as Hsh.
    assert (Hin' : pr_ID (restored p request) ∈ ids) by (destruct Hsh as [-> _]; by rewrite <-(sn_ids _ _ _ Hs)).
    apply (wp_saved_shape _ ids s i p); [done..|]. intros s1 Hs1 _ _. apply (wp_settle _ ids); [done|late_go|settle_go].
  - clear e Ec.
    assert (Href : ∀ {A} e s1, refused s s1 → outcome (RAdd request) s (Err e : result sup_error A) s1) by (intros; by eapply outcome_err).
    apply wp_bind, (wp_random (path:=path)); [intros; by apply Href|]. intros id s1 H1. apply wp_bind.
    assert (Hhost : ∀ (P : result sup_error string → supervisor → Prop), (∀ r s2, refused s s2 → P r s2) →
      wp (if String.eqb (TrimSpace (aq_Hostname request)) "" then suffix ← randomOpaque "" 5; mret ("tailmix-" +:+ suffix)
          else mret (TrimSpace (aq_Hostname request)) : M string) P s1).
    { intros P HP. destruct (String.eqb _ ""); [|by apply HP]. apply wp_bind, (wp_random (path:=path)); intros; apply HP; by etrans. }
    apply Hhost. clear Hhost. intros [hostname|e] s2 H2; [|by apply Href]. apply wp_bind, wp_gets, wp_bind, wp_lift.
    destruct (validateNewStateDirLocked _ _ _ _) as [dir|e]; cbn [wrap]; [|by apply Href]. apply wp_bind, wp_modify.
    set (p := MkProfile _ _ _ _ _ _ _ _ _ _ _ _ _ _). eapply wp_mono; [|intros r s'; apply outcome_trans, H2].
    rewrite <-(rf_st _ _ H2). pose proof (sound_refused _ _ _ H2 Hs) as Hs2. clear Href H1 H2 s1.
    assert (Hok : st_ok pool (Normalize (F:=F) (set_Profiles (sv_st s2) (st_Profiles (sv_st s2) ++ [p])))).
    { apply add_ok; [apply (sn_inv _ _ _ Hs2)|done| |done]. unfold default_profile, p. cbn. by apply String.eqb_neq in Hname as ->. }
    assert (Hall : ∀ x, x ∈ pr_ID <$> st_Profiles (sv_st s2) ++ [p] →
      x ∈ pr_ID <$> st_Profiles (Normalize (F:=F) (set_Profiles (sv_st s2) (st_Profiles (sv_st s2) ++ [p])))).
    { intros x (y & -> & Hy)%list_elem_of_fmap. apply (list_elem_of_fmap_2' _ _ (default_profile y)); [|done].
      apply elem_of_go_sort, list_elem_of_fmap. by exists y. }
    unfold finish_add. apply (wp_saved _ ids); [done|done| |].
    + intros k m Hm. apply Hall. rewrite fmap_app. apply elem_of_app. left. by apply (sn_known _ _ _ Hs2 k m).
    + intros s3 Hs3 _ _. assert (Hin : pr_ID p ∈ pr_ID <$> st_Profiles (Normalize (F:=F) (set_Profiles (sv_st s2) (st_Profiles (sv_st s2) ++ [p])))).
      { apply Hall. rewrite fmap_app. apply elem_of_app. right. by left. }
      apply (wp_settle _ _ _ _ _ Hs3); [late_go|settle_go].
Qed.
Lemma PatchProfile_outcome name request ids s : sound pool ids s →
  wp (PatchProfile (F:=F) CGNATRange TailscaleULARange ServiceIP path tun_mode SocketDir Sum256 name request : M _)
     (outcome (RPatch name request) s) s.
Proof using LPMLaws0 DNSNameLaws0 SJL.
  intros Hs. unfold PatchProfile. apply (wp_require _ ids); [done|]. intros _. apply wp_bind, wp_gets.
  apply (wp_configured _ ids); [done|]. intros i p Hi _ Hin. destruct (stored_profile _ _ _ _ Hs Hi) as [Hd Hv].
  (** the rest, once the name is settled *)
  assert (Hrest : ∀ p1, pr_ID p1 = pr_ID p → default_profile p1 = p1 → valid_profile p1 →
    (p1 = p ∨ is_Some (pq_Name request)) →
    wp (_ ← fail_if (bool_decide (is_Some (pq_Hostname request)) && negb (String.eqb (pr_Kind p1) "") &&
               negb (String.eqb (pr_Kind p1) ProfileKindTailscale)) (ENotTailscale name);
        let hostname := match pq_Hostname request with Some raw => TrimSpace raw | None => pr_Hostname p1 end in
        let restart := negb (String.eqb (pr_Hostname p1) hostname) in
        let configured := set_Hostname p1 hostname in
        _ ← put_profile i configured;
        _ ← save_or_restore (F:=F) path (sv_st s);
        _ ← (if restart && negb (pr_Disabled configured) && negb (pr_Removed configured) then
               _ ← stopProfileLocked tun_mode (pr_ID configured);
               _ ← reconcile_or_fail (F:=F) CGNATRange TailscaleULARange ServiceIP path tun_mode;
               start_or_note tun_mode configured "" ""
             else mret tt);
        _ ← reconcile_or_fail (F:=F) CGNATRange TailscaleULARange ServiceIP path tun_mode;
        projectProfileLocked (F:=F) SocketDir Sum256 configured : M _)
      (outcome (RPatch name request) s)
      (set_st (set_Profiles (sv_st s) (<[i := p1]> (st_Profiles (sv_st s)))) s)).
  { intros p1 Hid Hd1 Hv1 Hp1. apply wp_bind, wp_fail_if.
    - intros [[Hh%bool_decide_eq_true _]%andb_true_iff _]%andb_true_iff. destruct Hp1 as [->|[raw Hraw]].
      + eapply outcome_err; [done|]. rewrite list_insert_id by done. apply observes_refused. split; try done. by destruct (sv_st s).
      + destruct Hh as [h Hh]. destruct Hs as [[Hst Hp] Hk _ _]. pose proof (put_ids (sv_st s) i p p1 Hi Hid) as Hids.
        split_and!; [|intros k m Hm; cbn; rewrite Hids; by apply Hk| | |done].
        * split; [|done]. by apply (put_ok _ _ _ i p).
        * left. exists (ENotTailscale name). split; [done|]. destruct request as [n h']. cbn in *. by subst.
        * intros e [= <-]. destruct request as [n h']. cbn in *. by subst.
    - intros _. cbv zeta. set (p2 := set_Hostname p1 _). apply wp_bind, wp_modify.
      destruct (same_shape_ok p1 p2 (set_Hostname_shape _ _)) as [Hd2 Hv2].
      cbn [set_st sv_st set_Profiles st_Profiles]. rewrite list_insert_insert_eq.
      apply (wp_saved_put _ ids s i p); [done|done|done|auto|auto|].
      assert (Hin2 : pr_ID p2 ∈ ids) by (unfold p2; cbn; by rewrite Hid).
      intros s1 Hs1 _ _. apply (wp_settle _ ids); [done|late_go|settle_go]. }
  destruct (pq_Name request) as [raw|] eqn:Eraw.
  - apply wp_bind, wp_bind, wp_lift. destruct (check_rename _ p raw) as [p1|e] eqn:Ec; [|by eapply outcome_err].
    destruct (check_rename_ok _ _ _ _ Hd Hv Ec) as (H1 & H2 & H3 & _). apply wp_bind, wp_modify, wp_ret. by apply Hrest; eauto.
  - apply wp_bind, wp_ret. assert (Es : s = set_st (set_Profiles (sv_st s) (<[i := p]> (st_Profiles (sv_st s)))) s).
    { rewrite list_insert_id by done. destruct s as [st ? ? ? ? ? ? ? ? ? ? ? ?]. by destruct st. }
    pose proof (Hrest p eq_refl Hd Hv (or_introl eq_refl)) as Hr. rewrite <-Es in Hr. exact Hr.
Qed.

Lemma SetProfileEnabled_outcome name enabled ids s : sound pool ids s →
  wp (SetProfileEnabled (F:=F) CGNATRange TailscaleULARange ServiceIP path tun_mode SocketDir Sum256 name enabled : M _)
     (outcome (REnable name enabled) s) s.
Proof using LPMLaws0 DNSNameLaws0 SJL.
  intros Hs. unfold SetProfileEnabled. apply (wp_require _ ids); [done|]. intros _. apply wp_bind, wp_gets.
  apply (wp_configured _ ids); [done|]. intros i p Hi _ Hin. apply (wp_refuse_if _ ids); [done|]. intros _. cbv zeta.
  destruct (eqb _ _); [by eapply outcome_views; [| |apply project_refused]|]. apply wp_bind, wp_modify.
  apply (wp_saved_shape _ ids s i p); [done|done|done|]. intros s1 Hs1 _ _. apply (wp_late _ ids); [done|done|]. late_go.
Qed.
Lemma RestartProfile_outcome name ids s : sound pool ids s →
  wp (RestartProfile (F:=F) CGNATRange TailscaleULARange ServiceIP path tun_mode SocketDir Sum256 name : M _)
     (outcome (RRestart name) s) s.
Proof using LPMLaws0 DNSNameLaws0 SJL.
  intros Hs. unfold RestartProfile. apply (wp_require _ ids); [done|]. intros _.
  apply (wp_configured _ ids); [done|]. intros i p Hi _ Hin. apply (wp_refuse_if _ ids); [done|]. intros _.
  apply (wp_settle _ ids); [done|late_go|settle_go].
Qed.
Lemma stop_or_note_gone id s : wp (stop_or_note tun_mode id : M unit) (λ r s', is_ok r = true ∧ sv_runtimes s' = delete id (sv_runtimes s)) s.
Proof using.
  unfold stop_or_note. apply wp_bind. eapply wp_mono; [apply stop_spec|]. intros r s1 (Hok & _ & _ & _ & _ & _ & Er).
  destruct r as [ok|e]; [|done]. by destruct ok.
Qed.
Lemma purge_outcome name ids s p : sound pool ids s → sv_runtimes s !! pr_ID p = None →
  wp (purge_profile (F:=F) path p : M unit) (λ r s', inv pool s' ∧ known s' ∧
    ((∃ e, r = Err e ∧ leaks (RRemove name true) e = true) ∨ (agree = true → durable s')) ∧
    (∀ e, r = Err e → refuses (RRemove name true) e = false)) s.
Proof using SJL DNSNameLaws0.
  intros Hs Hno. unfold purge_profile. apply wp_bind, wp_gets, wp_bind, wp_gets, wp_bind, wp_lift.
  assert (Hstop : ∀ s1 (e : sup_error), refuses (RRemove name true) e = false → sound pool ids s1 → inv pool s1 ∧ known s1 ∧
    ((∃ e', Err e = Err (A:=unit) e' ∧ leaks (RRemove name true) e' = true) ∨ (agree = true → durable s1)) ∧
    (∀ e', Err e = Err (A:=unit) e' → refuses (RRemove name true) e' = false)).
  { intros s1 e He []. split_and!; [done|done|by right|]. by intros e' [= <-]. }
  destruct (validatePurgeLocked _ _ _ _ _) as [u|e]; cbn [wrap]; [|by apply Hstop].
  apply wp_bind, wp_ext. intros w ok _. apply (sound_ext _ w) in Hs. apply wp_bind, wp_fail_if; intros Hok; [by apply Hstop|].
  apply wp_bind, wp_modify, wp_bind, wp_modify, wp_bind, wp_gets, wp_bind. set (s1 := set_lastErrors _ _).
  destruct Hs as [[Hst Hp] Hk _ _]. pose proof (purged_ok _ _ _ (pr_ID p) Hst) as Hok1.
  eapply wp_mono; [apply store_Save_spec, (so_policy _ _ _ Hok1)|].
  intros r s2 (Est & _ & _ & Ert & _ & _ & _ & Hr). destruct r as [r|e]; [|done]. apply wp_lift.
  assert (Hk2 : known s2).
  { intros k m Hm. rewrite Ert in Hm. cbn in Hm. rewrite Est. cbn. destruct (Hk k m Hm) as [? Hin]. split; [done|].
    apply list_elem_of_fmap in Hin as (x & -> & Hx). apply list_elem_of_fmap_2, list_elem_of_filter. split; [|done]. congruence. }
  destruct r as [[]|e]; destruct Hr as [Ha Hb]; cbn [wrap].
  - split_and!; [split; [by rewrite Est|rewrite Hb; by apply pub_save]|done|right|done].
    intros _. eexists. rewrite Est. split; [|reflexivity]. apply Ha, saved_as_is; apply Hok1.
  - split_and!; [split; [by rewrite Est|by rewrite Ha]|done|left; eexists; by split|by intros e' [= <-]].
Qed.
Lemma RemoveProfile_outcome name purge ids s : sound pool ids s →
  wp (RemoveProfile (F:=F) CGNATRange TailscaleULARange ServiceIP path tun_mode SocketDir Sum256 name purge : M _)
     (outcome (RRemove name purge) s) s.
Proof using LPMLaws0 DNSNameLaws0 SJL.
  intros Hs. unfold RemoveProfile. apply (wp_require _ ids); [done|]. intros _. apply wp_bind, wp_gets.
  apply (wp_configured _ ids); [done|]. intros i p Hi _ Hin. apply (wp_refuse_if _ ids); [done|]. intros _. cbv zeta.
  set (p' := set_switches p true true false). apply wp_bind, wp_modify, wp_bind, wp_modify. cbn [sv_st set_st].
  set (st1 := set_Profiles (sv_st s) (<[i := p']> (st_Profiles (sv_st s)))).
  assert (Hok : st_ok pool (without_exit st1 (pr_ID p'))).
  { apply without_exit_ok, (put_shape_ok _ _ _ _ p); [apply (sn_inv _ _ _ Hs)|done|done]. }
  assert (Eids : pr_ID <$> st_Profiles (without_exit st1 (pr_ID p')) = ids).
  { rewrite <-(sn_ids _ _ _ Hs), <-(put_ids (sv_st s) i p p' Hi eq_refl). unfold without_exit.
    destruct (st_ExitNode st1) as [e|]; [|done]. by destruct (String.eqb _ _). }
  change (set_st (without_exit st1 (pr_ID p')) (set_st st1 s)) with (set_st (without_exit st1 (pr_ID p')) s).
  apply (wp_saved _ ids); [done|done|intros k m Hm; rewrite Eids, <-(sn_ids _ _ _ Hs); by apply (sn_known _ _ _ Hs k m)|].
  rewrite Eids. intros s1 Hs1 _ _.
  apply wp_bind. eapply wp_mono; [by apply (late_reconcile (agree:=agree) (pool:=pool))|]. intros [u|e] s2 (Hs2 & _ & He); [|eapply outcome_late; [done| |done]; intros e0 [= <-]; by apply He].
  apply wp_bind. eapply wp_mono; [apply wp_and; [by apply late_stop_or_note|apply stop_or_note_gone]|].
  intros [u1|e] s3 ((Hs3 & _ & _) & Hok3 & Er); [|done]. apply wp_bind, wp_gets, wp_bind.
  assert (Hno : sv_runtimes s3 !! pr_ID p' = None) by (rewrite Er; by apply lookup_delete_eq).
  destruct purge.
  - eapply wp_mono; [by apply (purge_outcome name ids)|]. intros [u2|e] s4 (? & ? & Hd & He4); [apply wp_ret|].
    + split_and!; [done|done| |done|done]. destruct Hd as [(? & ? & _)|?]; [done|by right].
    + split_and!; [done|done| | |done]; [destruct Hd as [(? & [= <-] & ?)|?]; [left; eexists; by split|by right]|].
      intros e' [= <-]. by rewrite (He4 e eq_refl).
  - apply wp_ret, wp_ret. by eapply outcome_late.
Qed.

Lemma settling_try ids (failed : list string) : settling ids (r ← try reconcileLocked;
    match failed, r with
    | _ :: _, _ => fail (ERuntimeStop failed)
    | [], Err e => fail (EReconcileFailed e)
    | [], Ok _ => daemonStateLocked
    end : M string).
Proof using LPMLaws0 DNSNameLaws0 SJL.
  intros s Hs. apply wp_bind, wp_try. unfold wp. destruct (reconcileLocked s) as [s1 r] eqn:Er.
  destruct (reconcile_facts _ _ _ _ _ _ _ _ _ (sn_inv _ _ _ Hs) Er) as (_ & _ & Hset). cbn [fst snd].
  destruct failed; [|done]. destruct r as [[]|e]; [|done]. intros _. by apply Hset.
Qed.
Lemma late_start_enabled ids : late ids (start_enabled tun_mode initial : M unit).
Proof using.
  intros s Hs. unfold start_enabled. apply wp_bind, wp_gets.
  apply (late_for_each ids); [|done]. intros p Hp. destruct (_ || _); [apply late_ret|apply late_start].
  rewrite <-(sn_ids _ _ _ Hs). by apply list_elem_of_fmap_2.
Qed.
(** Starting profiles never fails as a whole. *)
Lemma start_or_note_ok p authKey authKeyEnv : never_fails (start_or_note tun_mode p authKey authKeyEnv : M unit).
Proof using.
  intros s. change (wp (start_or_note tun_mode p authKey authKeyEnv : M unit) (λ r _, is_ok r = true) s).
  unfold start_or_note. apply wp_bind, wp_try. unfold wp at 1. by destruct ((startProfileLocked tun_mode p authKey authKeyEnv s).2).
Qed.
Lemma start_enabled_ok s : wp (start_enabled tun_mode initial : M unit) (λ r _, is_ok r = true) s.
Proof using.
  unfold start_enabled. apply wp_bind, wp_gets. generalize (st_Profiles (sv_st s)) as ps. intros ps. revert s.
  induction ps as [|p ps IH]; intros s; cbn [for_each]; [done|]. apply wp_bind. eapply wp_mono.
  { instantiate (1 := λ r _, is_ok r = true). destruct (_ || _); [done|]. apply start_or_note_ok. }
  intros [u|e] s1 Hok; [apply IH|done].
Qed.
Lemma late_stop_all ids unwanted l : late ids (stop_all tun_mode unwanted l : M _).
Proof using.
  unfold stop_all. apply late_bind; [|intros; apply late_ret]. apply late_collect. intros id _.
  destruct (unwanted id); [|apply late_ret]. apply late_bind; [apply late_stop|]. intros ok. apply late_ret.
Qed.
Lemma SetDaemonUp_outcome up ids s : sound pool ids s →
  wp (SetDaemonUp (F:=F) CGNATRange TailscaleULARange ServiceIP path tun_mode initial up : M _) (outcome (RUp up) s) s.
Proof using LPMLaws0 DNSNameLaws0 SJL.
  intros Hs. unfold SetDaemonUp. apply wp_bind, wp_gets.
  assert (Hlate : ∀ s1, sound pool ids s1 → wp (st ← gets sv_st; ids ← runtime_ids;
    failed ← stop_all tun_mode (λ id, if up then negb (enabled_in st id) else true) ids;
    _ ← (if up then start_enabled tun_mode initial else mret tt);
    r ← try reconcileLocked;
    match failed, r with
    | _ :: _, _ => fail (ERuntimeStop failed)
    | [], Err e => fail (EReconcileFailed e)
    | [], Ok _ => daemonStateLocked
    end : M string) (outcome (RUp up) s) s1).
  { intros s1 Hs1. apply wp_bind, wp_gets, wp_bind, wp_gets, (wp_settle _ ids); [done| |].
    2:{ apply settling_bind; [apply late_stop_all|]. intros failed. apply settling_bind.
      { destruct up; [apply late_start_enabled|apply late_ret]. }
      intros _. apply settling_try. }
    apply late_bind; [apply late_stop_all|]. intros failed. apply late_bind.
    { destruct up; [apply late_start_enabled|apply late_ret]. }
    intros _. apply late_bind; [apply late_try_reconcile|]. intros r.
    assert (Hfail : ∀ e, refusal e = false → late ids (fail e : M string)).
    { intros e He s2 Hs2. apply wp_fail. split_and!; [done|done|]. by intros e' [= <-]. }
    destruct failed as [|f l]; [destruct r|]; [|by apply Hfail..]. by apply late_refused; [intros s2|]. }
  destruct (eqb _ _); apply wp_bind; [by apply wp_ret, Hlate|]. apply wp_bind, wp_modify.
  eapply wp_mono; [apply (save_edit ids); [done|by apply set_Down_ok, (sn_inv _ _ _ Hs)|intros k m Hm; by apply (sn_known _ _ _ Hs k m)]|].
  intros [u|e] s1; [|intros Hr; by eapply outcome_err]. intros (Hs1 & _ & _). cbn in Hs1. rewrite (sn_ids _ _ _ Hs) in Hs1. by apply Hlate.
Qed.

(** ** Policies *)

(** What follows a commit: a view, for most requests of a value only. *)
Definition tail {A} (q : request) (ids : list string) (m : M A) : Prop := (reconciles q = false ∧ late ids m) ∨ ∃ f : supervisor → A, m = gets f.
Lemma tail_gets {A} q ids (f : supervisor → A) : tail q ids (gets f : M A).
Proof using. right. by eexists. Qed.
Lemma wp_committed {A} q ids s next (f : unit → M A) : sound pool ids s → st_ok pool (Normalize (F:=F) next) →
  pr_ID <$> st_Profiles (Normalize (F:=F) next) = ids → tail q ids (f tt) →
  wp (commitPolicyLocked (F:=F) CGNATRange TailscaleULARange ServiceIP path tun_mode next ≫= f) (outcome q s) s.
Proof using LPMLaws0 DNSNameLaws0 SJL.
  intros Hs Hok Hids Hf. apply wp_bind. eapply wp_mono; [by apply (commit_spec q ids)|].
  intros [[]|e] s1 H1.
  { destruct H1 as [Hs1 Hset]. destruct Hf as [[Hq Hf]|[g ->]]; [by apply (wp_late _ ids)|]. apply wp_gets. by eapply outcome_late. }
  destruct H1 as (? & ? & Hd & He & _). split_and!; [done|done| | |done].
  - destruct Hd as [(e' & [= <-] & ?)|?]; [by left; eexists|by right].
  - intros e' [= <-]. by apply He.
Qed.
Lemma patch_ip_outcome q base request ids s : sound pool ids s → st_ok pool (base (sv_st s)) →
  pr_ID <$> st_Profiles (base (sv_st s)) = ids → Forall (λ m, prefix.wf m.1 = true) (pt_Bind request) →
  wp (patch_ip (F:=F) CGNATRange TailscaleULARange ServiceIP path tun_mode base request : M _) (outcome q s) s.
Proof using LPMLaws0 DNSNameLaws0 SJL.
  intros Hs Hb Hids Hwf. unfold patch_ip. apply wp_bind, wp_gets, wp_bind, wp_gets. apply (wp_lift_refuse _ ids); [done|].
  intros next Hn%wrap_ok_inv. unfold committed_ip. destruct (applied_fields _ _ _ _ _ _ _ Hn) as (ps & Hps & Ep & _).
  apply (wp_committed _ ids); [done|by eapply ip_patch_ok| |by apply tail_gets].
  rewrite <-Hids. by eapply (applied_ids _ _ set_AcceptAllRoutes).
Qed.
Lemma patch_dns_outcome q base request ids s : sound pool ids s → st_ok pool (base (sv_st s)) →
  pr_ID <$> st_Profiles (base (sv_st s)) = ids → Forall (λ m, domain_clean (F:=F) m.1) (pt_Bind request) →
  wp (patch_dns (F:=F) CGNATRange TailscaleULARange ServiceIP path tun_mode base request : M _) (outcome q s) s.
Proof using LPMLaws0 DNSNameLaws0 SJL.
  intros Hs Hb Hids Hwf. unfold patch_dns. apply wp_bind, wp_gets, wp_bind, wp_gets. apply (wp_lift_refuse _ ids); [done|].
  intros next Hn%wrap_ok_inv. unfold committed_dns. destruct (applied_dns_fields _ _ _ _ Hn) as (ps & Hps & Ep & _).
  apply (wp_committed _ ids); [done|by eapply dns_patch_ok| |by apply tail_gets].
  rewrite <-Hids. by eapply (applied_ids _ _ set_AcceptAllDNSRoutes).
Qed.
Lemma normal_ok st : st_ok pool st → st_ok pool (Normalize (F:=F) st) ∧ pr_ID <$> st_Profiles (Normalize (F:=F) st) = pr_ID <$> st_Profiles st.
Proof using. intros Hst. by rewrite (ok_normal _ (so_policy _ _ _ Hst)). Qed.
Lemma clear_ip_good ids s : sound pool ids s → st_ok pool (clear_ip (sv_st s)) ∧ pr_ID <$> st_Profiles (clear_ip (sv_st s)) = ids.
Proof using.
  intros Hs. split; [apply clear_ip_ok, (sn_inv _ _ _ Hs)|]. rewrite <-(sn_ids _ _ _ Hs).
  apply (shape_ids (λ p, set_AcceptAllRoutes p false)). done.
Qed.
Lemma clear_dns_good ids s : sound pool ids s → st_ok pool (clear_dns (sv_st s)) ∧ pr_ID <$> st_Profiles (clear_dns (sv_st s)) = ids.
Proof using.
  intros Hs. split; [apply clear_dns_ok, (sn_inv _ _ _ Hs)|]. rewrite <-(sn_ids _ _ _ Hs).
  apply (shape_ids (λ p, set_AcceptAllDNSRoutes p false)). done.
Qed.
(** A commit that touches no profile. *)
Lemma wp_commit_fields {A} q ids s next (f : unit → M A) : sound pool ids s → st_ok pool (Normalize (F:=F) next) →
  st_Profiles next = st_Profiles (sv_st s) → tail q ids (f tt) →
  wp (commitPolicyLocked (F:=F) CGNATRange TailscaleULARange ServiceIP path tun_mode next ≫= f) (outcome q s) s.
Proof using LPMLaws0 DNSNameLaws0 SJL.
  intros Hs Hok Ep Hf. apply (wp_committed _ ids); [done|done| |done].
  rewrite normal_ids; [by rewrite Ep, (sn_ids _ _ _ Hs)|]. rewrite Ep. eapply stored_normal, (sn_inv _ _ _ Hs).
Qed.
Lemma exitNodes_refused : respects refused (exitNodes : M _).
Proof using.
  unfold exitNodes. respects_go. intros s. apply observes_refused, statusesLocked_observes.
Qed.
Lemma statuses_ok s : is_ok (statusesLocked (T:=T) (E:=E) (Fw:=Fw) (W:=W) s).2 = true.
Proof using.
  assert (Hob : ∀ p, never_fails (observe p : M (option Status))).
  { intros p s1. change (wp (observe p : M _) (λ r _, is_ok r = true) s1). unfold observe. cbv zeta. destruct (_ || _); [done|].
    apply wp_bind, wp_gets. destruct (sv_runtimes s1 !! pr_ID p) as [m|]; [|done]. apply wp_bind, wp_ext. intros w r _.
    apply wp_bind. destruct r as [status|].
    - apply wp_bind, wp_modify, wp_bind, wp_gets, wp_bind. destruct (engine_ApplyDegraded _ _); [by apply wp_ret|by apply wp_modify].
    - by apply wp_bind, wp_modify, wp_bind, wp_modify, wp_ret. }
  assert (Hc : ∀ ps, never_fails (collect observe ps : M _)).
  { induction ps as [|p ps IH]; intros s1; cbn [collect]; [done|]. rewrite bind_run. specialize (Hob p s1).
    destruct ((observe p s1).2); [|done]. rewrite bind_run. specialize (IH (observe p s1).1).
    by destruct ((collect observe ps (observe p s1).1).2). }
  unfold statusesLocked, gets. rewrite bind_run. cbn [fst snd]. destruct (st_Down (sv_st s)); [done|]. rewrite bind_run.
  specialize (Hc (st_Profiles (sv_st s)) s). by destruct ((collect observe (st_Profiles (sv_st s)) s).2).
Qed.
Lemma late_exits ids : late ids (exitNodes : M _).
Proof using.
  apply late_refused; [apply exitNodes_refused|]. intros s. unfold exitNodes. rewrite bind_run.
  pose proof (statuses_ok s) as Hok. by destruct ((statusesLocked s).2).
Qed.
Lemma SetExitNode_outcome name peer ids s : sound pool ids s →
  wp (SetExitNode (F:=F) CGNATRange TailscaleULARange ServiceIP path tun_mode name peer : M _) (outcome (RSetExit name peer) s) s.
Proof using LPMLaws0 DNSNameLaws0 SJL.
  intros Hs. unfold SetExitNode. apply wp_bind, wp_gets, (wp_lift_refuse _ ids); [done|]. intros [i p] _.
  apply (wp_refuse_if _ ids); [done|]. intros _. apply (wp_refuse_if _ ids); [done|]. intros _.
  apply wp_bind, (wp_respects observes); [apply statusesLocked_observes|]. intros r s1 Ho%(observes_refused (path:=path)).
  destruct r as [statuses|e]; [|by eapply outcome_err]. eapply wp_mono; [|intros r s'; apply outcome_trans, Ho].
  pose proof (sound_refused _ _ _ Ho Hs) as Hs1. apply (wp_lift_refuse _ ids); [done|].
  intros next (e & ->)%wrap_ok_inv%chosen_exit. rewrite <-(rf_st _ _ Ho).
  apply (wp_commit_fields _ ids); [done|apply exit_commit_ok, (sn_inv _ _ _ Hs1)|done|left; split; [done|apply late_exits]].
Qed.
Lemma ClearExitNode_outcome ids s : sound pool ids s →
  wp (ClearExitNode (F:=F) CGNATRange TailscaleULARange ServiceIP path tun_mode : M _) (outcome RClearExit s) s.
Proof using LPMLaws0 DNSNameLaws0 SJL.
  intros Hs. unfold ClearExitNode. apply wp_bind, wp_gets. destruct (st_ExitNode _); [|by eapply outcome_views; [| |apply exitNodes_refused]].
  apply (wp_commit_fields _ ids); [done|apply exit_commit_ok, (sn_inv _ _ _ Hs)|done|left; split; [done|apply late_exits]].
Qed.
Lemma search_outcome {A} q ids s desired (f : unit → M A) : sound pool ids s → Forall (domain_clean (F:=F)) desired → tail q ids (f tt) →
  wp (commitPolicyLocked (F:=F) CGNATRange TailscaleULARange ServiceIP path tun_mode (set_SearchDomains (sv_st s) desired) ≫= f) (outcome q s) s.
Proof using LPMLaws0 DNSNameLaws0 SJL.
  intros Hs Hd Hf. apply (wp_commit_fields _ ids); [done|by apply search_commit_ok; [apply (sn_inv _ _ _ Hs)|]|done|done].
Qed.

Lemma list_refused all : respects refused (listProfilesLocked (F:=F) SocketDir Sum256 all : M _).
Proof using. unfold listProfilesLocked. respects_go. apply project_refused. Qed.
Lemma build_ip_refused st ss : respects refused (build_ip CGNATRange TailscaleULARange st ss : M _).
Proof using. unfold build_ip. cbv zeta. respects_go. by apply respects_modify. Qed.
Lemma build_dns_refused st ss : respects refused (build_dns (F:=F) st ss : M _).
Proof using. unfold build_dns. cbv zeta. respects_go. by apply respects_modify. Qed.
Local Ltac view_go := repeat (respects_step || match goal with
  | |- respects _ (statusesLocked) => intros s'; apply observes_refused, statusesLocked_observes
  | |- respects _ (build_ip _ _ _ _) => apply build_ip_refused
  | |- respects _ (build_dns _ _) => apply build_dns_refused
  | |- respects _ (listProfilesLocked _ _ _) => apply list_refused
  | |- respects _ (projectProfileLocked _ _ _) => apply project_refused
  end).
Lemma runtime_update_outcome id failed ids s : sound pool ids s →
  wp (runtime_update (F:=F) CGNATRange TailscaleULARange ServiceIP path tun_mode id failed : M _) (outcome (RUpdate id failed) s) s.
Proof using LPMLaws0 DNSNameLaws0 SJL.
  intros Hs. unfold runtime_update. destruct failed; [by apply (wp_late _ ids); [| |apply late_set_lastError]|].
  apply wp_bind, wp_gets. destruct (sv_runtimes s !! id) as [m|]; [|by apply wp_ret; eapply outcome_refused].
  apply (wp_late _ ids); [done|done|]. apply late_bind; [apply late_try_reconcile|]. intros [u|e]; [apply late_ret|].
  apply late_bind; [apply late_gets|]. intros b. apply late_set_lastError.
Qed.

Lemma handle_outcome q ids s : sound pool ids s → request_ok (F:=F) q → wp (handle q) (outcome q s) s.
Proof using LPMLaws0 DNSNameLaws0 SJL RuntimeLaws0.
  intros Hs Hq. pose proof (sn_inv _ _ _ Hs) as [Hst _]. destruct q; cbn [handle]; try apply outcome_void.
  - by apply (AddProfile_outcome _ ids).
  - by apply (PatchProfile_outcome _ _ ids).
  - by apply (SetProfileEnabled_outcome _ _ ids).
  - by apply (RestartProfile_outcome _ ids).
  - by apply (RemoveProfile_outcome _ _ ids).
  - by apply (SetDaemonUp_outcome _ ids).
  - apply (patch_ip_outcome _ _ _ ids); [done|done|apply Hs|exact Hq].
  - destruct (clear_ip_good _ _ Hs). by apply (patch_ip_outcome _ _ _ ids).
  - destruct (clear_ip_good _ _ Hs) as [H1 H2]. apply wp_bind, wp_gets. destruct (normal_ok _ H1) as [H3 H4].
    apply (wp_committed _ ids); [done|done|congruence|apply tail_gets].
  - apply (patch_dns_outcome _ _ _ ids); [done|done|apply Hs|exact Hq].
  - destruct (clear_dns_good _ _ Hs). by apply (patch_dns_outcome _ _ _ ids).
  - destruct (clear_dns_good _ _ Hs) as [H1 H2]. apply wp_bind, wp_gets. destruct (normal_ok _ H1) as [H3 H4].
    apply (wp_committed _ ids); [done|done|congruence|apply tail_gets].
  - apply wp_bind, wp_gets, (wp_lift_refuse _ ids); [done|]. intros desired Hd%wrap_ok_inv.
    apply (search_outcome _ ids); [done|by eapply patch_search_clean|apply tail_gets].
  - apply wp_bind, wp_gets, (wp_lift_refuse _ ids); [done|]. intros d Hd%wrap_ok_inv.
    apply (search_outcome _ ids); [done|by eapply replace_search_clean|apply tail_gets].
  - apply wp_bind, wp_gets. by apply (search_outcome _ ids); [| |apply tail_gets].
  - by apply (SetExitNode_outcome _ _ ids).
  - by apply (ClearExitNode_outcome ids).
  - eapply outcome_views; [done|done|]. unfold Status_, daemonStateLocked. cbv zeta. view_go.
  - eapply outcome_views; [done|done|]. unfold IPRoutes. view_go.
  - eapply outcome_views; [done|done|]. unfold DNSRoutes. view_go.
  - eapply outcome_views; [done|done|]. unfold SearchDomains. view_go.
  - by eapply outcome_views, exitNodes_refused.
  - by eapply outcome_views, list_refused.
  - eapply outcome_views; [done|done|]. unfold GetProfile, configuredByNameLocked. view_go.
  - by apply (runtime_update_outcome _ _ ids).
  - by apply (ApplyWireGuard_outcome _ _ ids).
  - by apply (WireGuardProfile_outcome _ ids).
  - by apply (SetShieldsUp_outcome _ _ ids).
Qed.

(** ** Turning the daemon up or down *)

(** A stored profile with this identifier is switched on. *)
Definition switched_on (st : State) (id : string) : Prop :=
  ∃ p, p ∈ st_Profiles st ∧ pr_ID p = id ∧ pr_Disabled p = false ∧ pr_Removed p = false.
Lemma enabled_switched st id : enabled_in st id = true → switched_on st id.
Proof using.
  unfold enabled_in, profileByID. destruct (List.find _ _) as [p|] eqn:Ef; [|done]. intros [Hd Hr]%andb_true_iff.
  apply List.find_some in Ef as [Hin%list_elem_of_In Hid%String.eqb_eq]. exists p. split_and!; [done..| |]; by apply negb_true_iff.
Qed.
Lemma switched_desired st st' id : same_desired st st' → switched_on st id → switched_on st' id.
Proof using.
  intros Hd (p & Hp & Hid & Hdis & Hrem). pose proof (de_profiles _ _ Hd) as He.
  assert (Hin : set_suffix p "" ∈ (λ p, set_suffix p "") <$> st_Profiles st') by (rewrite He; by apply (list_elem_of_fmap_2 (λ p, set_suffix p ""))).
  apply list_elem_of_fmap in Hin as (p' & Heq & Hp'). exists p'. split; [done|]. by destruct p, p'; cbn in *; simplify_eq.
Qed.
(** What holds of every running engine. *)
Definition running (P : string → Prop) (s : supervisor) : Prop := ∀ k, is_Some (sv_runtimes s !! k) → P k.
Lemma stop_all_spec unwanted l s : wp (stop_all tun_mode unwanted l : M _) (λ r s', is_ok r = true ∧ sv_st s' = sv_st s ∧
  running (λ k, is_Some (sv_runtimes s !! k) ∧ ¬ (k ∈ l ∧ unwanted k = true)) s') s.
Proof using.
  unfold stop_all. apply wp_bind. eapply wp_mono.
  { instantiate (1 := λ r s', is_ok r = true ∧ sv_st s' = sv_st s ∧
      running (λ k, is_Some (sv_runtimes s !! k) ∧ ¬ (k ∈ l ∧ unwanted k = true)) s').
    revert s. induction l as [|id l IH]; intros s; cbn [collect].
    - apply wp_ret. split_and!; [done..|]. intros k Hk. split; [done|]. by intros [?%elem_of_nil _].
    - apply wp_bind. eapply wp_mono.
      { instantiate (1 := λ r s', is_ok r = true ∧ sv_st s' = sv_st s ∧
          running (λ k, is_Some (sv_runtimes s !! k) ∧ ¬ (k = id ∧ unwanted k = true)) s').
        destruct (unwanted id) eqn:Eu.
        - apply wp_bind. eapply wp_mono; [apply stop_spec|]. intros r s1 (Hok & Est & _ & _ & _ & _ & Er).
          destruct r as [ok|e]; [|done]. apply wp_ret. split_and!; [done..|]. intros k. rewrite Er, lookup_delete_is_Some.
          intros [Hne Hk]. split; [done|]. by intros [-> _].
        - apply wp_ret. split_and!; [done..|]. intros k Hk. split; [done|]. intros [-> ?]. congruence. }
      intros [y|e] s1 (Hok & Est & Hrun); [|done]. apply wp_bind. eapply wp_mono; [apply IH|].
      intros [ys|e] s2 (Hok2 & Est2 & Hrun2); [|done]. apply wp_ret. split_and!; [done|congruence|].
      intros k Hk. destruct (Hrun2 k Hk) as [Hk1 Hn1]. destruct (Hrun k Hk1) as [Hk0 Hn0]. split; [done|].
      intros [[->|Hin]%elem_of_cons Hu]; [by apply Hn0|by apply Hn1]. }
  intros [ys|e] s1 (Hok & Est & Hrun); [|done]. by apply wp_ret.
Qed.
Lemma start_enabled_spec s : running (switched_on (sv_st s)) s →
  wp (start_enabled tun_mode initial : M unit) (λ r s', is_ok r = true ∧ sv_st s' = sv_st s ∧ running (switched_on (sv_st s')) s') s.
Proof using.
  intros Hs. unfold start_enabled. apply wp_bind, wp_gets.
  assert (Hin : ∀ p, p ∈ st_Profiles (sv_st s) → p ∈ st_Profiles (sv_st s)) by done. revert Hin.
  generalize (st_Profiles (sv_st s)) at 1 3. intros ps Hps.
  assert (Hgen : ∀ s1, sv_st s1 = sv_st s → running (switched_on (sv_st s)) s1 →
    wp (for_each (λ configured, if pr_Disabled configured || pr_Removed configured then mret tt
                                else start_or_note tun_mode configured "" (default "" (initial !! pr_ID configured))) ps : M unit)
       (λ r s', is_ok r = true ∧ sv_st s' = sv_st s ∧ running (switched_on (sv_st s')) s') s1).
  { induction ps as [|p ps IH]; intros s1 E1 H1; cbn [for_each]; [apply wp_ret; by rewrite E1|]. apply wp_bind.
    eapply wp_mono.
    { instantiate (1 := λ r s', is_ok r = true ∧ sv_st s' = sv_st s ∧ running (switched_on (sv_st s)) s').
      destruct (pr_Disabled p || pr_Removed p) eqn:Ep; [by apply wp_ret|]. apply orb_false_iff in Ep as [Ed Er].
      unfold start_or_note. apply wp_bind, wp_try, (wp_respects (starts p)); [apply startProfile_starts|].
      intros r s2 [Est _ _ Hr]. assert (H2 : running (switched_on (sv_st s)) s2).
      { intros k [m Hm]. destruct (Hr k m Hm) as [(m0 & Hm0 & _)|[-> _]]; [apply H1; by eexists|].
        exists p. split_and!; [apply Hps; by left|done..]. }
      destruct r as [u|e]; [apply wp_ret|apply wp_modify]; (split_and!; [done|cbn; congruence|done]). }
    intros [u|e] s2 (Hok & E2 & H2); [|done]. apply IH; [|done..]. intros q Hq. apply Hps. by right. }
  by apply Hgen.
Qed.
Lemma save_error before s : wp (save_or_restore (F:=F) path before : M unit) (λ r _, ∀ e, r = Err e → ∃ e', e = ESupStore e') s.
Proof using.
  unfold save_or_restore. apply wp_bind, wp_gets, wp_bind. unfold store_Save, wp. destruct (save_outcome (sv_ext s)) as [w env].
  destruct (Save path env (sv_fs s) (sv_st s)) as [fs [[]|e]]; cbn; [done|]. intros e0 [= <-]. by eexists.
Qed.
Lemma running_same P s s' : same_runtimes (sv_runtimes s) (sv_runtimes s') → running P s → running P s'.
Proof using.
  intros Hr Hs k Hk. apply Hs. apply (f_equal (.!! k)) in Hr. rewrite !lookup_fmap in Hr. apply (fmap_is_Some (λ m, (m_State m, m_Engine m))).
  rewrite Hr. by apply fmap_is_Some.
Qed.
Lemma power_spec up ids s : sound pool ids s →
  wp (SetDaemonUp (F:=F) CGNATRange TailscaleULARange ServiceIP path tun_mode initial up : M _) (λ r s', (∃ e, r = Err (ESupStore e)) ∨
    st_Down (sv_st s') = negb up ∧ running (λ k, up = true ∧ switched_on (sv_st s') k) s') s.
Proof using LPMLaws0 DNSNameLaws0 SJL RuntimeLaws0.
  intros Hs. unfold SetDaemonUp. apply wp_bind, wp_gets, wp_bind. eapply wp_mono.
  { instantiate (1 := λ r s', match r with Ok _ => sound pool ids s' ∧ st_Down (sv_st s') = negb up | Err e => ∃ e', e = ESupStore e' end).
    destruct (eqb _ _) eqn:Ed; [apply wp_ret; split; [done|by apply eqb_prop]|]. apply wp_bind, wp_modify.
    pose proof (save_edit ids s (set_Down (sv_st s) (negb up)) Hs (set_Down_ok _ _ _ _ (proj1 (sn_inv _ _ _ Hs)))) as Hsave.
    pose proof (save_error (sv_st s) (set_st (set_Down (sv_st s) (negb up)) s)) as Herr.
    eapply wp_mono; [apply wp_and; [apply Hsave|exact Herr]|].
    - intros k m Hm. by apply (sn_known _ _ _ Hs k m).
    - intros [u|e] s1 [H1 He]; [|by apply He]. destruct H1 as (H1 & E1 & _). cbn in H1. rewrite (sn_ids _ _ _ Hs) in H1. split; [done|].
      by rewrite E1. }
  intros [u|e] s1 H1; [destruct H1 as [Hs1 Hd1]|destruct H1 as [e' ->]; left; by eexists]. clear s Hs.
  apply wp_bind, wp_gets, wp_bind, wp_gets, wp_bind. set (l := range_order _ _).
  assert (Hl : ∀ k, is_Some (sv_runtimes s1 !! k) → k ∈ l).
  { intros k Hk. unfold l. rewrite range_order_perm. by apply elem_of_elements, elem_of_dom. }
  eapply wp_mono; [apply wp_and; [by apply late_stop_all|apply stop_all_spec]|].
  intros [failed|e] s2 ((Hs2 & _ & _) & Hok & Est & Hrun); [|done].
  assert (Hrun2 : running (λ k, up = true ∧ switched_on (sv_st s2) k) s2).
  { intros k Hk. destruct (Hrun k Hk) as [Hk1 Hn]. specialize (Hl k Hk1). destruct up; [|by destruct Hn]. split; [done|].
    rewrite Est. apply enabled_switched. destruct (enabled_in (sv_st s1) k) eqn:Ee; [done|]. by destruct Hn. }
  rewrite <-Est in Hd1. clear s1 Est Hs1 l Hl Hrun. apply wp_bind. eapply wp_mono.
  { instantiate (1 := λ r s3, sound pool ids s3 ∧ is_ok r = true ∧ st_Down (sv_st s3) = negb up ∧ running (λ k, up = true ∧ switched_on (sv_st s3) k) s3).
    destruct up; [|by apply wp_ret]. eapply wp_mono; [apply wp_and; [by apply late_start_enabled|apply start_enabled_spec]|].
    - intros k Hk. by apply Hrun2.
    - intros r s3 ((Hs3 & _ & _) & Hok3 & Est & Hr3). split_and!; [done|done|by rewrite Est|]. intros k Hk. by split; [|apply Hr3]. }
  intros [u3|e] s3 (Hs3 & Hok3 & Hd3 & Hr3); [|done]. apply wp_bind, wp_try. unfold wp.
  destruct (reconcileLocked s3) as [s4 r] eqn:Er. cbn [fst snd].
  destruct (reconcile_facts _ _ _ _ _ _ _ _ _ (sn_inv _ _ _ Hs3) Er) as ([_ Hsr Hde _] & _ & _).
  assert (Hend : st_Down (sv_st s4) = negb up ∧ running (λ k, up = true ∧ switched_on (sv_st s4) k) s4).
  { split; [by rewrite (de_down _ _ Hde)|]. apply (running_same _ s3); [done|]. intros k Hk. destruct (Hr3 k Hk) as [? Hsw].
    split; [done|]. by eapply switched_desired. }
  destruct failed; [destruct r|]; by right.
Qed.
End pool.

(** ** What the API guarantees *)


(** C13. Turning the daemon up or down does what it says unless the state cannot
    be saved: the switch is set, no engine runs when it is down, and when it is
    up every engine that runs is that of a profile that is switched on, however
    many operations on engines, sockets and networks fail on the way. *)
Theorem power_sound (pool : bool → Prefix) (ids : list string) (up : bool) (s s' : supervisor) (r : result sup_error unit) :
  sound pool ids s → handle (RUp up) s = (s', r) → (∀ e, r ≠ Err (ESupStore e)) →
  st_Down (sv_st s') = negb up ∧ ∀ id, is_Some (sv_runtimes s' !! id) → up = true ∧ switched_on (sv_st s') id.
Proof using LPMLaws0 DNSNameLaws0 SJL RuntimeLaws0.
  intros Hs Hr Hne. pose proof (power_spec pool up ids s Hs) as Hw. cbn [handle] in Hr. unfold void in Hr.
  rewrite bind_run in Hr. unfold wp in Hw. destruct (SetDaemonUp _ _ _ _ _ _ up s) as [s1 r1]. cbn [fst snd] in *.
  destruct r1 as [x|e]; injection Hr as <- <-; destruct Hw as [[e' He]|Hw]; [done|done|injection He as ->; by destruct (Hne e')|done].
Qed.
End facts.

(** ** Concrete requests *)

Definition rig_handle : request → stm (supervisor (T:=PrefixMap) (E:=string) (Fw:=unit) (W:=world)) sup_error unit :=
  handle (F:=Labels) test_cgnat test_ula service_ip rig_path true ∅ "/run/tailmix" (λ _, []).
(** The daemon is up, and then the host refuses its configuration once. *)
Definition rig_up : supervisor (T:=PrefixMap) (E:=string) (Fw:=unit) (W:=world) := (rig_handle (RUp true) (rig_supervisor [])).1.
Definition rig_cut : supervisor (T:=PrefixMap) (E:=string) (Fw:=unit) (W:=world) * result sup_error unit :=
  rig_handle (REnable "home" false) (set_ext (failing ["host"]) rig_up).
Definition is_disabled (s : supervisor (T:=PrefixMap) (E:=string) (Fw:=unit) (W:=world)) (id : string) : bool :=
  match profileByID (st_Profiles (sv_st s)) id with Some p => pr_Disabled p | None => false end.

Lemma rig_up_sound : ∃ ids, sound (F:=Labels) test_cgnat test_ula service_ip rig_path true default_prefix ids rig_up.
Proof.
  exists (pr_ID <$> st_Profiles (sv_st rig_up)). unfold rig_up.
  assert (Hok : is_ok (rig_handle (RUp true) (rig_supervisor [])).2 = true) by (vm_compute; reflexivity).
  pose proof (handle_outcome (T:=PrefixMap) (LT:=PrefixMap_LPM) (F:=Labels) test_cgnat test_ula service_ip rig_path true ∅ "/run/tailmix" (λ _, [])
    default_prefix (RUp true) ["home"; "work"] (rig_supervisor []) (rig_sound true []) I) as (Hi & Hk & Hd & _).
  split; [exact Hi|exact Hk| |reflexivity]. destruct Hd as [(e & He & _)|Hd]; [|exact Hd].
  unfold rig_handle in Hok. rewrite He in Hok. discriminate Hok.
Qed.
(** Both the host and an engine fail once. *)
Definition rig_down : supervisor (T:=PrefixMap) (E:=string) (Fw:=unit) (W:=world) * result sup_error unit :=
  rig_handle (RUp false) (set_ext (failing ["host"; "close"]) rig_up).
Lemma power_sound_witness : is_Some (sv_runtimes rig_up !! "home") ∧ ∀ id, ¬ is_Some (sv_runtimes rig_down.1 !! id).
Proof.
  split; [apply (bool_decide_unpack _); vm_compute; exact I|].
  assert (Hne : match rig_down.2 with Err (ESupStore _) => false | _ => true end = true) by (vm_compute; reflexivity).
  destruct rig_up_sound as [ids Hs]. apply (sound_ext _ (failing ["host"; "close"])) in Hs.
  destruct rig_down as [s' r] eqn:Hr. unfold rig_down, rig_handle in Hr.
  destruct (power_sound (T:=PrefixMap) (LT:=PrefixMap_LPM) (F:=Labels) test_cgnat test_ula service_ip rig_path true ∅ "/run/tailmix" (λ _, [])
    default_prefix ids false _ s' r Hs Hr) as [_ Hrun].
  - intros e ->. discriminate Hne.
  - intros id Hid. destruct (Hrun id Hid) as [Hf _]. discriminate Hf.
Defined.

(** Disabling a profile is not finished by asking again: when the
    reconciliation that precedes the stop of the engine fails, the request
    reports it, but the profile already counts as disabled, so the next request
    to disable it succeeds at once, and the engine of the disabled profile goes
    on running. *)
Theorem disable_stuck :
  rig_cut.2 = Err (EReconcileFailed EHostConfigure) ∧
  let r := rig_handle (REnable "home" false) rig_cut.1 in
  r.2 = Ok tt ∧ is_disabled r.1 "home" = true ∧ is_Some (sv_runtimes r.1 !! "home").
Proof.
  split; [vm_compute; reflexivity|]. cbv zeta. split; [vm_compute; reflexivity|]. split; [vm_compute; reflexivity|].
  apply (bool_decide_unpack _). vm_compute. exact I.
Qed.
