(* ===== verification/Boot.v ===== *)
(** * The life of the daemon

    The start of the daemon (cmd/tailmixd/main.go [run]): the state file is
    loaded, pools, profiles and host addresses are settled, the result is saved
    and the supervisor runs on it.  From there the daemon serves requests, one
    at a time.  What holds of every supervisor it goes through. *)

From S2P Require Import Prelude Effects GoStrings FilePath Netip NetipText RoutingTable PacketMap EffectiveIP Activity DNSName WireGuardCfg State Types HostPools ProfileSpec LeasePlan RoutingPolicy TUNTable TUNTableFacts DNSPolicy TUNDNS TUNPlan SocksRouter IPSet PolicyPatch ExitNodes Paths ProfileView Runtime RigWorld WireGuardSecrets Supervisor Rig SupervisorFacts ControlAPI StateEdits ControlSteps ControlFacts.
Local Open Scope Z_scope.

Inductive boot_error : Type :=
  | EBootLoad (e : store_error) | EBootStart (e : start_error) | EBootSave (e : store_error).

Section boot.
Context {T : Type → Type} `{LPM T} {F : Type} `{DNSName F} `{StateJSON} {E Fw W : Type} `{Runtime E Fw W}.
Context (ServiceIP : Addr) (path : string).

(** What the caller's copy of a state holds once it is saved: [Save] normalizes
    and validates the profiles in place, in the slice it shares with the caller;
    the other fields of a loaded state are in normal form already. *)
Definition saved (st : State) : State :=
  match validateProfiles (Normalize (F:=F) st) with Ok st1 => set_Profiles st (st_Profiles st1) | Err _ => st end.
(** The supervisor of the flags' environment variables, [initial]. *)
Definition auth_envs (rps : list runtimeProfile) : gmap string string :=
  list_to_map ((λ rp, (pr_ID (rt_State rp), rt_AuthKeyEnv rp)) <$> reverse rps).
Definition boot (readable : bool) (env : save_env) (fs : gmap string string) (o4 o6 : string) (specs : list profileSpec) (w : W) :
    gmap string string * result boot_error (supervisor (T:=T) (E:=E) (Fw:=Fw) (W:=W) * gmap string string) :=
  match Load (F:=F) path readable fs with
  | Err e => (fs, Err (EBootLoad e))
  | Ok st =>
    match startup ServiceIP st o4 o6 specs path with
    | Err e => (fs, Err (EBootStart e))
    | Ok (st, runtimeProfiles) =>
      let '(fs, r) := Save (F:=F) path env fs st in
      match r with
      | Err e => (fs, Err (EBootSave e))
      | Ok _ => (fs, Ok (newSupervisor (saved st) fs w, auth_envs runtimeProfiles))
      end
    end
  end.
End boot.

Section facts.
Context {T : Type → Type} `{LT : LPM T, !LPMLaws T} {F : Type} `{DN : DNSName F, !DNSNameLaws F} `{SJ : StateJSON, SJL : !StateJSONLaws}.
Context {E Fw W : Type} `{RT : Runtime E Fw W, !RuntimeLaws E Fw W} {Builder Sets : Type} `{IPSets Builder Sets}.
Context (CGNATRange TailscaleULARange : Prefix) (ServiceIP : Addr) (path : string) (tun_mode : bool).
Context (initial : gmap string string) (SocketDir : string) (Sum256 : string → list Z).
Local Notation supervisor := (supervisor (T:=T) (E:=E) (Fw:=Fw) (W:=W)).
Local Notation M := (stm supervisor sup_error).
Local Notation sound := (sound (T:=T) (F:=F) (E:=E) (Fw:=Fw) (W:=W) CGNATRange TailscaleULARange ServiceIP path).
Local Notation st_ok := (st_ok (F:=F) ServiceIP).
Local Notation built := (built (T:=T) (F:=F) CGNATRange TailscaleULARange ServiceIP).

Local Notation handle := (handle (T:=T) (F:=F) (E:=E) (Fw:=Fw) (W:=W) (B:=Builder) (S:=Sets) CGNATRange TailscaleULARange ServiceIP path tun_mode initial SocketDir Sum256).
Local Notation Run_profiles := (Run_profiles (T:=T) (F:=F) (E:=E) (Fw:=Fw) (W:=W) CGNATRange TailscaleULARange ServiceIP path tun_mode initial).

(** ** The start *)

(** A state that changed in its updates, pools, leases, host addresses and
    profiles only. *)
Record same_policy (st st' : State) : Prop := {
  sp_ip : st_IPRouteBindings st' = st_IPRouteBindings st;
  sp_dns : st_DNSRouteBindings st' = st_DNSRouteBindings st;
  sp_search : st_SearchDomains st' = st_SearchDomains st;
  sp_exit : st_ExitNode st' = st_ExitNode st;
  sp_leases : st_Leases st' `sublist_of` st_Leases st }.
#[export] Instance same_policy_preorder : PreOrder same_policy.
Proof using. split; [by intros st|]. intros st1 st2 st3 [] []. split; try congruence. by etrans. Qed.
Lemma configure_policy st o4 o6 st' : configureSyntheticPools ServiceIP st o4 o6 = Ok st' → same_policy st st'.
Proof using.
  intros (p4 & p6 & st1 & _ & _ & E1 & E2 & _)%configure_pools.
  assert (Hforget : ∀ ipv6 st0, same_policy st0 (forget_family ipv6 st0)).
  { intros ipv6 st0. unfold forget_family. split; try by destruct ipv6. cbn.
    enough (Hs : discardSyntheticLeases (st_Leases st0) ipv6 `sublist_of` st_Leases st0) by (by destruct ipv6). apply sublist_filter. }
  assert (Htext : ∀ ipv6 (b : bool) st0 x, same_policy st0 (set_pool_text ipv6 (if b then forget_family ipv6 st0 else st0) x)).
  { intros ipv6 b st0 x. trans (if b then forget_family ipv6 st0 else st0); [by destruct b|]. by split; destruct ipv6. }
  trans st1; [rewrite E1; apply Htext|rewrite E2; apply Htext].
Qed.
Lemma leases_from_sublist ls ls' : ls' `sublist_of` ls → leases_unique (leasesFromState ls) → leases_unique (leasesFromState ls').
Proof using.
  intros Hs. assert (Hf : leasesFromState ls' `sublist_of` leasesFromState ls).
  { unfold leasesFromState. apply fmap_sublist. induction Hs as [|x l1 l2 Hs IH|x l1 l2 Hs IH]; [done| |]; rewrite !filter_cons; case_decide; try done;
      by constructor. }
  intros [H1 H2]. split; (eapply sublist_NoDup; [|by apply fmap_sublist]); done.
Qed.

(** A loaded state is in normal form. *)
Lemma load_normal readable fs st : (∀ b st0, fs !! path = Some b → Unmarshal b = Some st0 → state_wf (F:=F) st0) → Load (F:=F) path readable fs = Ok st →
  state_wf (F:=F) st ∧ normal_fields (F:=F) st.
Proof using DNSNameLaws0.
  intros Hdec. unfold Load. destruct (fs !! path) as [b|] eqn:Ef; [|intros [= <-]].
  - destruct readable; [|done]. cbn. destruct (Unmarshal b) as [st0|] eqn:Eb; [|done]. intros Hv%wrap_ok_inv.
    specialize (Hdec b st0 eq_refl Eb). pose proof (Normalize_wf st0 Hdec) as [W1 W2 W3].
    pose proof (Normalize_fix (F:=F) st0 _ Hdec (Normalize_profiles_normal st0)) as Hn.
    assert (Hn0 : normal_fields (F:=F) (Normalize (F:=F) st0)) by (apply normal_iff; exact Hn). destruct Hn0 as [_ N1 N2 N3 N4].
    destruct (validateProfiles_fix _ _ Hv (Normalize_profiles_normal st0)) as (ps & -> & Hps & _). by split; split.
  - split; [by repeat constructor|]. apply normal_iff. reflexivity.
Qed.
(** Saving it leaves the supervisor a valid copy. *)
Lemma saved_ok st st1 : state_wf (F:=F) st → normal_fields (F:=F) (set_Profiles st []) → validateProfiles (Normalize (F:=F) st) = Ok st1 →
  saved (F:=F) st = st1 ∧ state_wf (F:=F) st1 ∧ Normalize (F:=F) st1 = st1 ∧ Forall valid_profile (st_Profiles st1).
Proof using DNSNameLaws0.
  intros Hwf [_ N1 N2 N3 N4] Hv. unfold saved. rewrite Hv.
  destruct (validateProfiles_fix _ _ Hv (Normalize_profiles_normal st)) as (ps & -> & Hps & Hfix). cbn [set_Profiles st_Profiles].
  cbn [set_Profiles st_IPRouteBindings st_DNSRouteBindings st_SearchDomains st_ExitNode] in *.
  split_and!.
  - unfold Normalize, set_Profiles. cbn -[normalize_search]. by rewrite N1, N2, N3, N4.
  - destruct (Normalize_wf st Hwf) as [? ? ?]. by split.
  - by apply Normalize_fix.
  - unfold validateProfiles in Hfix. ok_inv Hfix as qs Hqs. injection Hfix as Hq. cbn in Hqs.
    subst qs. apply imapM_ok_Forall2 in Hqs.
    apply Forall_forall. intros p [i Hi]%list_elem_of_lookup. destruct (Forall2_lookup_l _ _ _ _ _ Hqs Hi) as (q & Hq' & _ & Hpq).
    rewrite Hi in Hq'. by injection Hq' as <-.
Qed.

Lemma boot_sound readable env fs o4 o6 specs w fs' s envs :
  (∀ b st, fs !! path = Some b → Unmarshal b = Some st → state_wf (F:=F) st) →
  (∀ st, Load (F:=F) path readable fs = Ok st → leases_unique (leasesFromState (st_Leases st))) →
  Forall (λ sp, ProfileSpec.sp_ID sp ≠ "") specs →
  boot (T:=T) (F:=F) (E:=E) (Fw:=Fw) ServiceIP path readable env fs o4 o6 specs w = (fs', Ok (s, envs)) →
  ∃ pool, sound true pool (pr_ID <$> st_Profiles (sv_st s)) s ∧ sv_fs s = fs' ∧ sv_trace s = [].
Proof using DNSNameLaws0 SJL.
  intros Hdec Hleases Hspecs Hb. unfold boot in Hb. destruct (Load path readable fs) as [st0|] eqn:El; [|done].
  destruct (load_normal _ _ _ Hdec El) as [Hwf0 Hn0]. specialize (Hleases _ eq_refl).
  destruct (startup _ st0 _ _ _ _) as [[st rps]|] eqn:Es; [|done]. unfold startup in Es.
  ok_inv Es as st1 H1. ok_inv Es as rps0 H2. ok_inv Es as st3 H3. injection Es as -> ->. apply wrap_ok_inv in H1, H2, H3.
  assert (Hp01 : same_policy st0 st1).
  { trans (reset_updates st0); [by unfold reset_updates; destruct (_ ∈? _)|by eapply configure_policy]. }
  apply configure_pools in H1 as (p4 & p6 & st0' & Hp4 & Hp6 & _ & _ & Ht4 & Ht6).
  set (st2 := set_Profiles st1 (stateProfiles rps)) in *. set (pool := λ ipv6 : bool, if ipv6 then p6 else p4).
  assert (Hpools : pools_ok ServiceIP st2 pool).
  { intros []; (split; [done|]); cbn [pool_text st2 set_Profiles st_SyntheticPool st_SyntheticPoolV6] in *; simpl in Ht4, Ht6 |- *;
      rewrite ?Ht4, ?Ht6; apply ParsePrefix_prefix_string; apply Hp4 || apply Hp6. }
  apply (ensure_steps ServiceIP pool) in H3 as (a & b & c & -> & _); [|done].
  set (st := set_DNSIP _ c) in *. assert (Hp : same_policy st0 st) by (trans st1; [done|by split]).
  apply resolveProfiles_ok in H2 as [_ [_ _ _ Hc]]; [|done].
  destruct (Save path env fs st) as [fs1 r] eqn:ES. destruct r as [[]|]; [|done]. injection Hb as <- <- <-.
  destruct Hwf0 as [W1 W2 W3], Hn0 as [_ N1 N2 N3 N4], Hp as [P1 P2 P3 P4 P5].
  assert (Hwf : state_wf (F:=F) st) by (split; congruence).
  destruct (Save_cases path env fs fs1 st _ Hwf ES) as (st1' & Hv & Hl).
  destruct (saved_ok st st1' Hwf) as (Esv & Hwf1 & Hn1 & Hval); [|done|].
  { split; cbn [set_Profiles st_Profiles st_IPRouteBindings st_DNSRouteBindings st_SearchDomains st_ExitNode];
      [by split; constructor|by rewrite ?P1, ?P2, ?P3, ?P4..]. }
  rewrite Esv. clear Esv. destruct (validateProfiles_fix _ _ Hv (Normalize_profiles_normal st)) as (ps & Eps & _ & _).
  assert (Hids : ∀ p, p ∈ st_Profiles st1' → pr_ID p ≠ "").
  { intros p Hin. assert (Hin' : pr_ID p ∈ pr_ID <$> st_Profiles (Normalize (F:=F) st)).
    { unfold validateProfiles in Hv. ok_inv Hv as qs Hqs. injection Hv as <-. cbn in Hin. apply imapM_ok_Forall2 in Hqs.
      apply list_elem_of_lookup in Hin as [i Hi]. destruct (Forall2_lookup_r _ _ _ _ _ Hqs Hi) as (q & Hq & _ & Hqv).
      destruct (validateProfile_fix _ _ Hqv) as (_ & -> & _). by eapply list_elem_of_fmap_2, list_elem_of_lookup_2. }
    cbn in Hin'. apply list_elem_of_fmap in Hin' as (q & -> & Hq). apply elem_of_go_sort, list_elem_of_fmap in Hq as (q' & -> & Hq').
    cbn in Hq'. apply list_elem_of_fmap in Hq' as (rp & -> & Hrp). apply (Hc rp Hrp). }
  exists pool. split_and!; [|done|done]. split.
  - split; [|constructor]. split; [by split|done| |].
    + subst st1'. intros ipv6. destruct (Hpools ipv6) as [? Ht]. split; [done|]. destruct ipv6; exact Ht.
    + subst st1'. by eapply leases_from_sublist.
  - intros k m Hm. cbn in Hm. by rewrite lookup_empty in Hm.
  - exists st1'. by split.
  - done.
Qed.

(** ** Serving requests *)

(** Whether the file holds the desired state of the memory, after a request: a
    leak parts them, and a reconciliation that succeeds brings them together. *)
Definition agrees (agree : bool) (q : request) (r : result sup_error unit) : bool :=
  match r with Ok _ => agree || reconciles q | Err e => agree && negb (leaks q e) end.
(** The supervisor serves a request. *)
Definition serves (x x' : bool * supervisor) : Prop :=
  ∃ q r, request_ok (F:=F) q ∧ handle q x.2 = (x'.2, r) ∧ x'.1 = agrees x.1 q r.
Lemma run_sound agree pool ids s s' r : sound agree pool ids s → Run_profiles s = (s', r) → sound agree pool ids s'.
Proof using LPMLaws0 DNSNameLaws0 SJL.
  intros Hs Hr. enough (Hw : wp Run_profiles (λ _ s', sound agree pool ids s') s) by (unfold wp in Hw; by rewrite Hr in Hw).
  unfold ControlAPI.Run_profiles. apply wp_bind, wp_gets, wp_bind. eapply wp_mono.
  { instantiate (1 := λ r s1, sound agree pool ids s1 ∧ is_ok r = true). destruct (st_Down _); [by apply wp_ret|].
    pose proof (late_start_enabled CGNATRange TailscaleULARange ServiceIP path tun_mode initial pool ids s Hs) as Hl.
    eapply wp_mono; [apply wp_and; [exact Hl|apply start_enabled_ok]|]. intros r0 s1 ((? & _) & ?). done. }
  intros [u|e] s1 [Hs1 Hok]; [|done]. apply wp_bind.
  eapply wp_mono; [by apply (late_try_reconcile (CGNATRange:=CGNATRange) (TailscaleULARange:=TailscaleULARange) (agree:=agree) (pool:=pool) ids)|]. intros [[u1|e]|e] s2 (Hs2 & _); [by apply wp_ret| |done].
  by apply wp_fail_if.
Qed.
Lemma serve_sound pool ids x x' : sound x.1 pool ids x.2 → serves x x' → sound x'.1 pool (pr_ID <$> st_Profiles (sv_st x'.2)) x'.2.
Proof using LPMLaws0 DNSNameLaws0 SJL RuntimeLaws0.
  destruct x as [agree s], x' as [agree' s']. cbn [fst snd]. intros Hs (q & r & Hq & Hh & Ha). cbn [fst snd] in *. subst agree'.
  pose proof (handle_outcome CGNATRange TailscaleULARange ServiceIP path tun_mode initial SocketDir Sum256 pool q ids s Hs Hq) as Ho.
  unfold wp in Ho. rewrite Hh in Ho. destruct Ho as (? & ? & Hd & _ & Hset). split; [done|done| |done].
  destruct r as [[]|e]; cbn [agrees].
  - intros [Ha|Hr]%orb_true_iff; [destruct Hd as [(? & ? & _)|Hd]; [done|by apply Hd]|].
    destruct (Hset eq_refl Hr) as [Hf _]. exists (sv_st s'). by split.
  - intros [Ha Hl%negb_true_iff]%andb_true_iff. destruct Hd as [(? & [= <-] & ?)|Hd]; [congruence|by apply Hd].
Qed.
Lemma served_sound pool ids x x' : sound x.1 pool ids x.2 → rtc serves x x' → ∃ ids', sound x'.1 pool ids' x'.2.
Proof using LPMLaws0 DNSNameLaws0 SJL RuntimeLaws0.
  intros Hs Hr. revert ids Hs. induction Hr as [x|x x1 x2 Hstep _ IH]; intros ids Hs; [by exists ids|].
  by eapply IH, serve_sound.
Qed.

(** Where an event stands in what was published: the host routes of a plan come
    right after its packet policy, its resolver right after both. *)
Definition in_order (pool : bool → Prefix) (tr : list (event T)) : Prop := ∀ i,
  match tr !! i with
  | Some (EvHost c) => ∃ j p, i = S j ∧ built pool p ∧ c = pl_HostConfig p ∧ tr !! j = Some (EvMapper (pl_Table p))
  | Some (EvDNS c) => ∃ j p runtimes, i = S (S j) ∧ built pool p ∧ forwarded (E:=E) (Fw:=Fw) (W:=W) runtimes (pl_DNSConfig p) c ∧
      tr !! j = Some (EvMapper (pl_Table p)) ∧ tr !! S j = Some (EvHost (pl_HostConfig p))
  | _ => True
  end.
Lemma in_order_app pool tr evs : in_order pool tr → in_order pool evs → in_order pool (tr ++ evs).
Proof using.
  intros Ht He i. destruct (decide (i < length tr)%nat) as [Hi|Hi].
  - rewrite lookup_app_l by done. specialize (Ht i). destruct (tr !! i) as [[]|]; try done.
    + destruct Ht as (j & p & -> & ? & ? & ?). exists j, p. by rewrite lookup_app_l by lia.
    + destruct Ht as (j & p & rt & -> & ? & ? & ? & ?). exists j, p, rt. by rewrite !lookup_app_l by lia.
  - rewrite lookup_app_r by lia. specialize (He (i - length tr)%nat).
    assert (Hsh : ∀ j, (tr ++ evs) !! (length tr + j)%nat = evs !! j) by (intros j; by rewrite lookup_app_r, Nat.add_sub' by lia).
    destruct (evs !! (i - length tr)%nat) as [[]|]; try done.
    + destruct He as (j & p & ? & ? & ? & ?). exists (length tr + j)%nat, p. rewrite Hsh. split_and!; [lia|done..].
    + destruct He as (j & p & rt & ? & ? & ? & ? & ?). exists (length tr + j)%nat, p, rt. rewrite <-Nat.add_succ_r, !Hsh.
      split_and!; [lia|done..].
Qed.
Lemma published_in_order pool tr : published (T:=T) (F:=F) (E:=E) CGNATRange TailscaleULARange ServiceIP pool tr → in_order pool tr.
Proof using.
  induction 1 as [|tr st _ IH|tr rt p evs _ IH Hp Hb]; [by intros []|apply in_order_app; [done|]; by intros [|[]]|].
  apply in_order_app; [done|]. destruct Hb as [| |cfg Hf]; intros [|[|[|[]]]]; try done; cbn.
  - by exists 0%nat, p.
  - by exists 0%nat, p.
  - by exists 0%nat, p, rt.
Qed.

End facts.

(** ** A concrete life *)

Definition rig_boot : gmap string string * result boot_error (supervisor (T:=PrefixMap) (E:=string) (Fw:=unit) (W:=world) * gmap string string) :=
  boot (F:=Labels) service_ip rig_path true (MkSaveEnv true FsOk FsOk) rig_fs "" "" [] (failing []).
Definition rig_auth : gmap string string := match rig_boot.2 with Ok r => r.2 | Err _ => ∅ end.
Definition rig_started : supervisor (T:=PrefixMap) (E:=string) (Fw:=unit) (W:=world) :=
  match rig_boot.2 with Ok r => r.1 | Err _ => rig_supervisor [] end.
Definition rig_running : supervisor (T:=PrefixMap) (E:=string) (Fw:=unit) (W:=world) * result sup_error unit :=
  Run_profiles (F:=Labels) test_cgnat test_ula service_ip rig_path true rig_auth rig_started.
Definition rig_served : supervisor (T:=PrefixMap) (E:=string) (Fw:=unit) (W:=world) * result sup_error unit :=
  handle (F:=Labels) test_cgnat test_ula service_ip rig_path true rig_auth "/run/tailmix" (λ _, []) (REnable "home" false) rig_running.1.
Lemma rig_states_wf st : st ∈ rig_states → state_wf (F:=Labels) st.
Proof.
  enough (Hall : Forall (λ st, Forall (λ b, prefix.wf (ib_Prefix b) = true) (st_IPRouteBindings st) ∧ st_DNSRouteBindings st = [] ∧
    st_SearchDomains st = []) rig_states).
  { rewrite Forall_forall in Hall. intros Hin. destruct (Hall st Hin) as (? & E1 & E2). split; [done|by rewrite E1|by rewrite E2]. }
  apply (bool_decide_unpack _). vm_compute. exact I.
Qed.
Lemma rig_decodes b st : Unmarshal b = Some st → state_wf (F:=Labels) st.
Proof. intros Hb. eapply rig_states_wf, list_elem_of_lookup_2, Hb. Qed.
